(* ===== verification/_CoqProject ===== *)
-Q . S2P
Prelude.v
Bits.v
FindBit.v
Bitmap.v
BitmapFacts.v
BitmapShift.v
BitmapRegion.v
BitmapRemap.v
Arith.v
Ring.v
UserCopy.v
Blocks.v
Heap.v
Sort.v
PrioHeap.v
State.v
RadixTree.v
RadixInv.v
RadixMem.v
RadixInsert.v
RadixTags.v
RadixDelete.v
RadixScan.v
RadixGang.v
RadixFacts.v
RbTree.v
RbShape.v
RbOps.v
RbFacts.v
Cfs.v
CfsTimeline.v
CfsFacts.v
CfsClass.v
CfsSched.v
CfsLoad.v
WaitQueue.v
Semaphore.v
RwSem.v
Ctype.v
Strtol.v
Number.v
Utf8.v
Utf16.v
Kfifo.v
Logger.v
LoggerFacts.v
Ashmem.v
AshmemInv.v
AshmemPin.v
AshmemUnpin.v
AshmemOps.v
AshmemFiles.v
AshmemFacts.v
Wakelock.v
WakelockInv.v
WakelockOps.v
WakelockSteps.v
WakelockCalls.v
WakelockFacts.v
EarlySuspend.v
EarlySuspendInv.v
EarlySuspendFacts.v
UserWakelock.v
UserWakelockText.v
UserWakelockTree.v
UserWakelockFacts.v
Cipher.v
CipherTea.v
CipherBlowfish.v
CipherCast5.v
CipherSeed.v
Crc.v
CrcTables.v
CryptoBytes.v
Crc32.v
CipherModes.v
