(* ===== verification/Prelude.v ===== *)
(** * Verified parts of the Genocide kernel (Linux 2.6 for the Samsung Epic 4G)

    The program is a Linux kernel for a 32-bit little-endian ARMv7 phone.  This
    library models parts of it whose behaviour is decided by their C code alone
    (the generic library of lib/, red-black trees and the fair scheduling class
    that runs on them, radix trees, the crypto ciphers and modes, kfifo,
    semaphores, character sets, the Android logger, shared memory, wake locks with
    their files for user space, and early suspend) and proves them correct.  Paths
    below are relative to src/Kernel/.

    ** How the code is modelled

    Integers are [Z], wrapped at the width of their C type wherever an
    operation can leave it ([u8], [u16], [u32], [u64], [s32]); [unsigned long],
    [size_t] and pointers have 32 bits and plain [char] is unsigned, as on the
    target.  Bit operations are those of [Z] on values in range; divisions only
    meet non-negative operands, where C and [Z] agree.  Arrays and buffers are
    lists, read and written with a bounds check.  Fallible code returns
    [res A]: [Ok] or a fault ([OutOfBounds], [Unaligned], [DivideByZero],
    [BugOn], [OutOfFuel]).  Kernel error codes are ordinary return values.

    Loops run on fuel that each definition computes from its arguments and that
    bounds the turns of the C loop: the number of words or bytes left for the
    scans and copies, 65 for Euclid's algorithm on 32-bit numbers, 20 for the
    two-bit square root, 64 for the long division, the number of blocks for the
    block modes, the number of entries that fit the ring for the logger, twice
    the size for a heap sift, the length of the string for parsers and character
    conversions, 6 and 22 groups of digits for 64-bit numbers, the number of
    nodes in memory for the loops over red-black trees, one more than the ranges of
    an area for unpinning.  Running out of
    fuel is a fault, so a theorem that a function returns [Ok] also says that
    its loops end.

    ** The parts and the files

    - [Prelude] (this file): machine integers, faults, loops with their
      weakest-precondition rules ([wp], [wp_loop], [wp_for_up]), checked arrays,
      the tactics [wp_steps] and [run_binds].
    - [Bits]: include/asm-generic/bitops/ word searches and lib/hweight.c.
      [FindBit]: lib/find_next_bit.c, lib/find_last_bit.c, specified by
      [first_from]; the class [FindBit] is the interface they offer.
    - [Bitmap], [BitmapFacts], [BitmapShift], [BitmapRegion], [BitmapRemap]:
      lib/bitmap.c over that interface: predicates, set operations, weight,
      shifts, region allocator, ordinals and remapping, with source and
      destination that may be the same bitmap.
    - [Arith]: lib/gcd.c, int_sqrt.c, rational.c, div64.c, reciprocal_div.c,
      bcd.c.  The C versions of the bit searches and of the division are
      modelled; ARM replaces some by assembly of the same contract.
    - [Ring]: memcpy and the two-part ring copies; [Kfifo]: kernel/kfifo.c, as a
      refinement of a bounded byte list, also for a reader and a writer that
      interleave without a lock (step relation over the parts the memory
      barriers order).
    - [Logger], [LoggerFacts]: drivers/staging/android/logger.c, the ring of
      variable-length entries; each operation is its part under the mutex, as one
      step, and what a write reads before the mutex is an argument.
    - [Cipher]: the interface of struct cipher_alg as a class ([Cipher]) with
      its laws ([CipherLaws]), byte orders, Feistel networks.  [CipherTea],
      [CipherBlowfish], [CipherCast5], [CipherSeed]: crypto/tea.c, blowfish.c,
      cast5.c, seed.c, each discharging the laws.  [CryptoBytes]: crypto_xor and
      crypto_inc of crypto/algapi.c.  [CipherModes]: crypto/ecb.c and cbc.c for
      any lawful cipher.
    - [Crc], [CrcTables], [Crc32]: lib/crc16.c, crc-ccitt.c, crc-itu-t.c,
      crc7.c, crc-t10dif.c, crc32.c with gen_crc32table.c, and crypto/crc32c.c,
      all against bit-serial shift registers.
    - [Blocks]: buffers cut into equal cells, shared by the sorting and the
      block modes.  [Heap]: sifting in an array heap, shared by [Sort]
      (lib/sort.c on byte memory, for any comparison and exchange function) and
      [PrioHeap] (lib/prio_heap.c).
    - [Semaphore]: kernel/semaphore.c with schedule_timeout of kernel/timer.c and
      signal_pending_state of include/linux/sched.h.  Each stretch under the
      spinlock is a function; a step relation interleaves any number of callers.
    - [Utf8], [Utf16]: the conversions of fs/nls/nls_base.c.
    - [WaitQueue]: queues of waiters in order of arrival, shared with [RwSem]:
      lib/rwsem-spinlock.c, modelled like [Semaphore].
    - [Ctype]: lib/ctype.c and include/linux/ctype.h.  [Strtol]: the parsers
      simple_strtoul to strict_strtoll of lib/vsprintf.c.  [Number]: put_dec and
      number of the same file, against a reference rendering, and the round trip
      through both.
    - [State]: the state-and-fault monad [ST] with loops ([while]) and its
      weakest-precondition form [runs].  [RbTree]: lib/rbtree.c and
      include/linux/rbtree.h on a memory of nodes, parent and colour packed in
      one word.  [RbShape]: trees and zippers laid out in memory ([repr]), and
      what the rotations do to them; [RbOps]: each loop as a function on
      zippers; [RbFacts]: the red-black invariant, height, and the claims.
    - [Cfs]: the methods of fair_sched_class of kernel/sched_fair.c with the load
      arithmetic of kernel/sched.c, on one run queue of tasks without parents;
      the timeline is a tree of [RbTree].  [CfsTimeline]: the timeline as a list
      sorted by key and the floor min_vruntime.  [CfsFacts], [CfsClass]: what each
      operation does to a consistent queue ([cfs_ok]: [tl_ok] for the tree,
      [acct] for the accounting).  [CfsSched]: wake-up preemption, and every
      call of the scheduler core.  [CfsLoad]: nice weights and their inverses.
    - [RadixTree]: lib/radix-tree.c and include/linux/radix-tree.h, on a memory of
      nodes by address with the slab cache and the preload pool.  [RadixInv]: what
      such a memory stands for, a map [P] from positions (height, number) to
      pointers and a set [T] of tagged positions, with the conditions on both;
      [RadixMem]: what one write, allocation or release does to it;
      [RadixInsert], [RadixTags], [RadixDelete], [RadixScan], [RadixGang]: each
      operation; [RadixFacts]: the claims, on the map from indices to items.
    - [UserCopy]: copies between kernel and user memory, shared by the drivers.
    - [Ashmem]: mm/ashmem.c and include/linux/ashmem.h: areas and unpinned ranges
      by address, the two lists, the caches, reference counts and truncations.
      [AshmemInv]: the invariant ([linked], [sorted]) and the operations on one
      range; [AshmemPin], [AshmemUnpin]: what pinning and unpinning do to the
      pages ([covers]); [AshmemOps]: arguments, shrinker, open and release;
      [AshmemFiles]: names, masks, mappings; [AshmemFacts]: calls in any order and
      the claims.
    - [Wakelock]: kernel/power/wakelock.c and include/linux/wakelock.h: locks by
      address, the lists, the statistics, the expire timer and the suspend work.
      [WakelockInv]: flags as bits, steps that only touch statistics ([calm]),
      and the consistency of flags and lists ([wl_ok]); [WakelockOps]: releasing,
      scanning and taking; [WakelockSteps]: which locks keep the system awake
      ([blocks]) and what keeps a suspend from being forgotten ([covered]);
      [WakelockCalls]: each call, the timer, the work, the passing of time;
      [WakelockFacts]: runs of all of them and the claims.
    - [EarlySuspend]: kernel/power/earlysuspend.c and include/linux/earlysuspend.h
      over the wake locks, the work functions cut where others can come between.
      [EarlySuspendInv]: the invariant ([es_ok]) of state, main lock, handlers and
      pending works, kept by every part; [EarlySuspendFacts]: runs and the claims.
    - [UserWakelock]: kernel/power/userwakelock.c over the wake locks and [RbTree].
      [UserWakelockText]: the arguments and the order of names; [UserWakelockTree]:
      the tree of names ([u_ok]) under lookup and insertion; [UserWakelockFacts]:
      the files, runs and the claim.

    ** What the theorems show

    Searches return the first or last matching bit; bitmap operations act bit
    by bit below the bitmap's size whatever the unused bits hold; the allocator
    finds the first free aligned region and its release undoes its allocation;
    arithmetic helpers compute the mathematical function, with the ranges on
    which they do.  The queue is a bounded list under every interleaving of its
    two users.  Log offsets stay on entry boundaries, a write appends one whole
    entry and takes from the readers it laps, and from no other, the oldest entries
    up to its own length, a read returns the oldest entry or leaves the reader in
    place on each error; a write that fails after another writer came between can
    lose the entry of the other.  Ciphers expand every accepted key in
    bounds and decryption and encryption undo each other; the modes inherit
    this.  Table-driven CRCs equal their bit-serial definition and detect every
    single corrupted byte, but for crc7, which misses an error equal to its
    generator.
    Heapsort ends with a sorted permutation of the elements for every element
    size; the bounded priority heap keeps the smallest elements inserted.  In
    every interleaving a semaphore grants exactly its initial count plus the
    ups, serves its waiters in order of arrival, and a call that fails leaves
    everything else as it was.  UTF-8 decoding and encoding are inverse on
    exactly the valid code points, and the string conversions stay in their
    buffers.
    Reader/writer semaphores exclude as they should in every interleaving, lose
    no wake-up and serve in order of arrival.  Numbers are printed as their
    format says without leaving the buffer, and read back as printed.
    Red-black insertion at any free link and erasure of any node end without a
    bad pointer in a red-black tree with the expected order, and the walks follow
    that order.  Every call on a consistent fair run queue returns and leaves one,
    with the runnable entities it should have; the timeline is a queue sorted by
    virtual runtime whose floor only moves forward; the picked task is the one
    with the least virtual runtime or a buddy less than 2^32 ns ahead of it.
    These hold while virtual runtimes lie within 2^61 ns (73 years) of the floor,
    so that 64-bit differences compare as they should, and while the total
    weight is below 2^32 - 1.
    A radix tree behaves as a map from indices to items with a set of tagged
    indices, whatever the heights it grows to and shrinks from: insertion, lookup,
    deletion, tags, the searches for holes and the gang lookups return, follow no
    bad pointer, meet no BUG_ON and agree with the map, errors included.
    Every call on ashmem in every reachable state returns and keeps its lists
    sorted, disjoint and counted, whichever allocations fail; pin requests change
    exactly their pages; the shrinker discards only unpinned pages, oldest first;
    while memory lasts a discarded page is reported by the next pin of it.
    A held wake lock keeps the system from suspending until it is released or its
    time is over, across the wrap-around of jiffies; and when none is held any
    more a suspend is queued, now or by the timer, whatever the order of calls.
    With early suspend on top, the system sleeps only when that was asked for and
    all handlers have been told, in the order of their levels, and every request
    is served however the calls interleave.
    The files of user space are a map from names to such locks: a write takes or
    releases the lock of that very name, or fails and changes nothing.

    ** Not modelled

    Everything whose meaning is outside the C code at hand: the architecture,
    memory management, the scheduler core, file systems, network, drivers, and the
    remaining crypto algorithms.  Of the modelled parts: printing and parsing
    of bitmaps, the format interpreter of vsnprintf, big-endian bit searches,
    device registration of the logger and of ashmem, wait queues of the logger,
    the log messages and the /proc table of the wake locks, the scatterlist walk
    of the block modes, registration with the crypto API; of the fair class the
    group hierarchy, balancing between processors, high-resolution ticks and
    statistics.  The expire timer and the work queue of the wake locks appear as
    what is pending; the timer may run late.  Spinlocks and mutexes
    appear as atomicity of the operations they protect.  Not modelled are races of
    what the source leaves outside them: the release of a reader of the logger,
    the size of an ashmem area, the checks before a pin request, and the shrinker
    called from an allocation under the mutex of ashmem; the write offset that a
    failing log write restores is. *)
From stdpp Require Export base numbers list option.
From Stdlib Require Export ZArith Lia.

#[global] Open Scope Z_scope.

(** * Machine integers

    A C integer is a [Z]; every operation that can leave the range of its type
    is followed by the wrap-around of that type.  The target of the kernel is
    32-bit ARM, so [unsigned long], [size_t] and pointers have 32 bits. *)

Definition BITS_PER_LONG : Z := 32.
Definition u8 (x : Z) : Z := x mod 2 ^ 8.
Definition u16 (x : Z) : Z := x mod 2 ^ 16.
Definition u32 (x : Z) : Z := x mod 2 ^ 32.
Definition u64 (x : Z) : Z := x mod 2 ^ 64.

(** Conversion to a signed [int] (two's complement). *)
Definition s32 (x : Z) : Z := (x + 2 ^ 31) mod 2 ^ 32 - 2 ^ 31.
Definition s64 (x : Z) : Z := (x + 2 ^ 63) mod 2 ^ 64 - 2 ^ 63.

Definition is_u8 (x : Z) : Prop := 0 <= x < 2 ^ 8.
Definition is_u16 (x : Z) : Prop := 0 <= x < 2 ^ 16.
Definition is_u32 (x : Z) : Prop := 0 <= x < 2 ^ 32.
Definition is_u64 (x : Z) : Prop := 0 <= x < 2 ^ 64.
Definition is_s32 (x : Z) : Prop := - 2 ^ 31 <= x < 2 ^ 31.

Definition ULONG_MAX : Z := 2 ^ 32 - 1.

(** [~x], [x << n], [x >> n] on [unsigned long]. *)
Definition lnot32 (x : Z) : Z := u32 (Z.lnot x).
Definition shl32 (x n : Z) : Z := u32 (Z.shiftl x n).
Definition shr32 (x n : Z) : Z := Z.shiftr x n.

Create HintDb word.

Lemma u8_range x : is_u8 (u8 x).
Proof. apply Z.mod_pos_bound; lia. Qed.
Lemma u16_range x : is_u16 (u16 x).
Proof. apply Z.mod_pos_bound; lia. Qed.
Lemma u32_range x : is_u32 (u32 x).
Proof. apply Z.mod_pos_bound; lia. Qed.
Lemma u64_range x : is_u64 (u64 x).
Proof. apply Z.mod_pos_bound; lia. Qed.
#[export] Hint Resolve u8_range u16_range u32_range u64_range : word.

Lemma u8_id x : is_u8 x -> u8 x = x.
Proof. apply Z.mod_small. Qed.
Lemma u16_id x : is_u16 x -> u16 x = x.
Proof. apply Z.mod_small. Qed.
Lemma u32_id x : is_u32 x -> u32 x = x.
Proof. apply Z.mod_small. Qed.
Lemma u64_id x : is_u64 x -> u64 x = x.
Proof. apply Z.mod_small. Qed.
Lemma s32_id x : is_s32 x -> s32 x = x.
Proof. unfold is_s32, s32. intros. rewrite Z.mod_small; lia. Qed.

Lemma u32_eqm x y k : x = y + k * 2 ^ 32 -> u32 x = u32 y.
Proof. intros ->. unfold u32. now rewrite Z.mod_add by lia. Qed.

Lemma u32_cases x : exists k, u32 x = x - k * 2 ^ 32.
Proof. exists (x / 2 ^ 32). unfold u32. pose proof (Z.div_mod x (2 ^ 32)). lia. Qed.

(** * Bit-level reasoning *)

Lemma testbit_u32 x i : 0 <= i -> Z.testbit (u32 x) i = (i <? 32) && Z.testbit x i.
Proof.
  intros Hi. unfold u32. destruct (Z.ltb_spec i 32).
  - now rewrite Z.mod_pow2_bits_low by lia.
  - now rewrite Z.mod_pow2_bits_high by lia.
Qed.

Lemma testbit_mod2 x n i : 0 <= n -> 0 <= i ->
  Z.testbit (x mod 2 ^ n) i = (i <? n) && Z.testbit x i.
Proof.
  intros Hn Hi. destruct (Z.ltb_spec i n).
  - now rewrite Z.mod_pow2_bits_low by lia.
  - now rewrite Z.mod_pow2_bits_high by lia.
Qed.

Lemma testbit_high x n i : 0 <= x < 2 ^ n -> 0 <= n <= i -> Z.testbit x i = false.
Proof.
  intros Hx Hi. rewrite <- (Z.mod_small x (2 ^ n)) by lia.
  apply Z.mod_pow2_bits_high; lia.
Qed.

Lemma bits_lt_pow2 x n : 0 <= n -> 0 <= x ->
  (forall i, n <= i -> Z.testbit x i = false) -> x < 2 ^ n.
Proof.
  intros Hn Hx H. destruct (Z.eq_dec x 0) as [->|]; [lia|].
  apply Z.log2_lt_pow2; [lia|].
  destruct (Z.lt_ge_cases (Z.log2 x) n) as [|Hge]; [done|].
  specialize (H _ Hge). rewrite Z.bit_log2 in H by lia. done.
Qed.

Lemma bits_ext32 x y : is_u32 x -> is_u32 y ->
  (forall i, 0 <= i < 32 -> Z.testbit x i = Z.testbit y i) -> x = y.
Proof.
  intros Hx Hy H. apply Z.bits_inj'. intros i Hi.
  destruct (Z.lt_ge_cases i 32); [apply H; lia|].
  now rewrite !(testbit_high _ 32) by (unfold is_u32 in *; lia).
Qed.

Lemma testbit_ones_full n i : 0 <= n -> 0 <= i -> Z.testbit (2 ^ n - 1) i = (i <? n).
Proof.
  intros. replace (2 ^ n - 1) with (Z.ones n) by (rewrite Z.ones_equiv; lia).
  rewrite Z.testbit_ones by lia. destruct (Z.leb_spec 0 i); [|lia]. done.
Qed.

Lemma land_range x y n : 0 <= n -> 0 <= x -> 0 <= y < 2 ^ n -> 0 <= Z.land x y < 2 ^ n.
Proof.
  intros Hn Hx Hy. split; [apply Z.land_nonneg; lia|].
  apply bits_lt_pow2; [done|apply Z.land_nonneg; lia|].
  intros i Hi. rewrite Z.land_spec, (testbit_high y n) by lia. apply andb_false_r.
Qed.

Lemma lor_range x y n : 0 <= n -> 0 <= x < 2 ^ n -> 0 <= y < 2 ^ n -> 0 <= Z.lor x y < 2 ^ n.
Proof.
  intros Hn Hx Hy. split; [apply Z.lor_nonneg; lia|].
  apply bits_lt_pow2; [done|apply Z.lor_nonneg; lia|].
  intros i Hi. now rewrite Z.lor_spec, (testbit_high x n), (testbit_high y n) by lia.
Qed.

Lemma lxor_range x y n : 0 <= n -> 0 <= x < 2 ^ n -> 0 <= y < 2 ^ n -> 0 <= Z.lxor x y < 2 ^ n.
Proof.
  intros Hn Hx Hy. assert (0 <= Z.lxor x y) by (apply Z.lxor_nonneg; lia).
  split; [done|]. apply bits_lt_pow2; [done|done|].
  intros i Hi. now rewrite Z.lxor_spec, (testbit_high x n), (testbit_high y n) by lia.
Qed.

Lemma shiftr_range x n m : 0 <= n -> 0 <= m -> 0 <= x < 2 ^ n -> 0 <= Z.shiftr x m < 2 ^ n.
Proof.
  intros Hn Hm Hx. rewrite Z.shiftr_div_pow2 by lia.
  assert (0 < 2 ^ m) by lia.
  split; [apply Z.div_pos; lia|].
  apply Z.le_lt_trans with x; [|lia]. apply Z.div_le_upper_bound; nia.
Qed.

Lemma lnot32_range x : is_u32 (lnot32 x).
Proof. apply u32_range. Qed.
Lemma shl32_range x n : is_u32 (shl32 x n).
Proof. apply u32_range. Qed.
Lemma land_u32 x y : is_u32 x -> is_u32 y -> is_u32 (Z.land x y).
Proof. intros [] ?. apply land_range; auto; lia. Qed.
Lemma lor_u32 x y : is_u32 x -> is_u32 y -> is_u32 (Z.lor x y).
Proof. intros. apply lor_range; auto; lia. Qed.
Lemma lxor_u32 x y : is_u32 x -> is_u32 y -> is_u32 (Z.lxor x y).
Proof. intros. apply lxor_range; auto; lia. Qed.
Lemma shr_u32 x n : 0 <= n -> is_u32 x -> is_u32 (shr32 x n).
Proof. intros. apply shiftr_range; auto; lia. Qed.
#[export] Hint Resolve lnot32_range shl32_range land_u32 lor_u32 lxor_u32 : word.
#[export] Hint Extern 5 (is_u32 (shr32 _ _)) => (apply shr_u32; [lia|]) : word.
#[export] Hint Extern 5 (is_u32 (Z.shiftr _ _)) => (apply shr_u32; [lia|]) : word.

Lemma testbit_lnot32 x i : 0 <= i < 32 -> Z.testbit (lnot32 x) i = negb (Z.testbit x i).
Proof.
  intros Hi. unfold lnot32. rewrite testbit_u32, Z.lnot_spec by lia.
  destruct (Z.ltb_spec i 32); [done|lia].
Qed.

Lemma testbit_shl32 x n i : 0 <= i < 32 -> Z.testbit (shl32 x n) i = Z.testbit x (i - n).
Proof.
  intros Hi. unfold shl32. rewrite testbit_u32, Z.shiftl_spec by lia.
  destruct (Z.ltb_spec i 32); [done|lia].
Qed.

Lemma testbit_shr32 x n i : 0 <= i -> Z.testbit (shr32 x n) i = Z.testbit x (i + n).
Proof. intros Hi. unfold shr32. now rewrite Z.shiftr_spec. Qed.

Lemma lnot32_sub x : is_u32 x -> lnot32 x = 2 ^ 32 - 1 - x.
Proof.
  intros Hx. unfold lnot32, u32, is_u32 in *. pose proof (Z.add_lnot_diag x).
  symmetry. apply Z.mod_unique with (-1); lia.
Qed.

Lemma lor_disjoint_add x y : Z.land x y = 0 -> Z.lor x y = x + y.
Proof. intros H. rewrite <- Z.lxor_lor by done. symmetry. now apply Z.add_nocarry_lxor. Qed.

Lemma zero_bits x : 0 <= x -> (forall i, 0 <= i -> Z.testbit x i = false) -> x = 0.
Proof. intros _ H. apply Z.bits_inj'. intros i Hi. rewrite H, Z.testbit_0_l; done. Qed.

Lemma nonzero_bit32 x : is_u32 x -> x <> 0 -> exists i, 0 <= i < 32 /\ Z.testbit x i = true.
Proof.
  intros Hx Hne. exists (Z.log2 x). split.
  - split; [apply Z.log2_nonneg|]. apply Z.log2_lt_pow2; unfold is_u32 in *; lia.
  - apply Z.bit_log2. unfold is_u32 in *; lia.
Qed.

(** * Errors, loops and arrays

    A C function that can touch memory out of bounds, divide by zero or reach
    a [BUG()] returns a [res].  A loop is bounded by fuel that the definition
    computes from its inputs; [OutOfFuel] is an error like the others, so a
    statement that a function returns [Ok] includes that its loops end. *)

Inductive fault := OutOfBounds | Unaligned | DivideByZero | BugOn | OutOfFuel.

Inductive res (A : Type) : Type :=
| Ok (a : A)
| Err (e : fault).
Arguments Ok {A} a.
Arguments Err {A} e.

#[export] Instance res_ret : MRet res := fun A a => Ok a.
#[export] Instance res_bind : MBind res := fun A B f m =>
  match m with Ok a => f a | Err e => Err e end.
#[export] Instance fault_eq_dec : EqDecision fault.
Proof. solve_decision. Defined.

(** Unfolding a bind by rewriting keeps what follows it folded. *)
Lemma bind_ok {A B} (a : A) (f : A -> res B) : (Ok a ≫= f) = f a.
Proof. done. Qed.
Lemma bind_ok_inv {A B} (m : res A) (f : A -> res B) b : (m ≫= f) = Ok b -> exists a, m = Ok a /\ f a = Ok b.
Proof. destruct m as [a|e]; [|done]. intros H. now exists a. Qed.
Ltac run_binds := repeat (rewrite bind_ok; cbv beta iota).

(** [wp m Q]: the computation returns, and its value satisfies [Q]. *)
Definition wp {A} (m : res A) (Q : A -> Prop) : Prop :=
  match m with Ok a => Q a | Err _ => False end.

Lemma wp_ok {A} (a : A) (Q : A -> Prop) : Q a -> wp (Ok a) Q.
Proof. done. Qed.

Lemma wp_bind {A B} (m : res A) (f : A -> res B) (Q : B -> Prop) :
  wp m (fun a => wp (f a) Q) -> wp (m ≫= f) Q.
Proof. now destruct m. Qed.

Lemma wp_mono {A} (m : res A) (P Q : A -> Prop) :
  wp m P -> (forall a, P a -> Q a) -> wp m Q.
Proof. destruct m; cbn; auto. Qed.

Lemma wp_exists {A} (m : res A) (Q : A -> Prop) :
  wp m Q <-> exists a, m = Ok a /\ Q a.
Proof.
  destruct m as [a|e]; cbn; split; [|intros (b & [= ->] & ?)| |intros (b & ? & _)]; eauto; done.
Qed.

Lemma wp_eq {A} (m : res A) (a : A) : wp m (fun x => x = a) -> m = Ok a.
Proof. destruct m; cbn; [now intros ->|done]. Qed.

(** [while]/[for] loops: the body either goes on with a new state or leaves. *)
Fixpoint loop {S R : Type} (fuel : nat) (body : S -> res (S + R)) (s : S) : res R :=
  match fuel with
  | O => Err OutOfFuel
  | Datatypes.S fuel' =>
      match body s with
      | Ok (inl s') => loop fuel' body s'
      | Ok (inr r) => Ok r
      | Err e => Err e
      end
  end.

(** Total correctness of a loop: an invariant and a measure below the fuel. *)
Lemma wp_loop {S R} (I : S -> Prop) (m : S -> Z) (Q : R -> Prop)
    (body : S -> res (S + R)) fuel s :
  I s -> 0 <= m s < Z.of_nat fuel ->
  (forall s, I s -> 0 <= m s -> wp (body s) (fun x =>
     match x with inl s' => I s' /\ 0 <= m s' < m s | inr r => Q r end)) ->
  wp (loop fuel body s) Q.
Proof.
  intros HI Hm Hbody. revert s HI Hm.
  induction fuel as [|fuel IH]; intros s HI Hm; [lia|]. cbn.
  specialize (Hbody s HI ltac:(lia)).
  destruct (body s) as [[s'|r]|e]; cbn in *; [|done|done].
  destruct Hbody. apply IH; [done|lia].
Qed.

(** More fuel does not change the outcome of a loop that ended. *)
Lemma loop_fuel_mono {S R} (body : S -> res (S + R)) f1 f2 s r :
  (f1 <= f2)%nat -> loop f1 body s = Ok r -> loop f2 body s = Ok r.
Proof.
  revert f2 s. induction f1 as [|f1 IH]; intros [|f2] s Hle; cbn; try done; [lia|].
  destruct (body s) as [[s'|r']|e]; [|done|done]. apply IH. lia.
Qed.

(** Counted loops: [for (k = i; k < i + n; k++)] and its descending form
    [for (k = i + n - 1; k >= i; k--)], whose body may leave early with [inr]. *)
Fixpoint for_up {S R : Type} (n : nat) (i : Z) (body : Z -> S -> res (S + R)) (s : S)
    : res (S + R) :=
  match n with
  | O => Ok (inl s)
  | Datatypes.S n' =>
      match body i s with
      | Ok (inl s') => for_up n' (i + 1) body s'
      | Ok (inr r) => Ok (inr r)
      | Err e => Err e
      end
  end.

Fixpoint for_down {S R : Type} (n : nat) (i : Z) (body : Z -> S -> res (S + R)) (s : S)
    : res (S + R) :=
  match n with
  | O => Ok (inl s)
  | Datatypes.S n' =>
      match body (i + Z.of_nat n') s with
      | Ok (inl s') => for_down n' i body s'
      | Ok (inr r) => Ok (inr r)
      | Err e => Err e
      end
  end.

(** A loop body that never leaves early. *)
Definition stay {S} (m : res S) : res (S + Empty_set) := s ← m; Ok (inl s).
Definition fell {S} (x : S + Empty_set) : S :=
  match x with inl s => s | inr e => match e with end end.

Lemma wp_for_up {S R} (I : Z -> S -> Prop) (Q : R -> Prop) n i (body : Z -> S -> res (S + R)) s :
  I i s ->
  (forall k s, i <= k < i + Z.of_nat n -> I k s -> wp (body k s) (fun x =>
     match x with inl s' => I (k + 1) s' | inr r => Q r end)) ->
  wp (for_up n i body s) (fun x =>
     match x with inl s' => I (i + Z.of_nat n) s' | inr r => Q r end).
Proof.
  revert i s. induction n as [|n IH]; intros i s HI Hb; cbn [for_up].
  - apply wp_ok. now rewrite Z.add_0_r.
  - pose proof (Hb i s ltac:(lia) HI) as H. destruct (body i s) as [[s'|r]|e]; cbn in H; [|done|done].
    replace (i + Z.of_nat (Datatypes.S n)) with (i + 1 + Z.of_nat n) by lia.
    apply IH; [done|]. intros k t Hk. apply Hb. lia.
Qed.

Lemma wp_for_down {S R} (I : Z -> S -> Prop) (Q : R -> Prop) n i (body : Z -> S -> res (S + R)) s :
  I (i + Z.of_nat n) s ->
  (forall k s, i <= k < i + Z.of_nat n -> I (k + 1) s -> wp (body k s) (fun x =>
     match x with inl s' => I k s' | inr r => Q r end)) ->
  wp (for_down n i body s) (fun x => match x with inl s' => I i s' | inr r => Q r end).
Proof.
  revert s. induction n as [|n IH]; intros s HI Hb; cbn [for_down].
  - apply wp_ok. now rewrite Z.add_0_r in HI.
  - pose proof (Hb (i + Z.of_nat n) s ltac:(lia)) as H.
    replace (i + Z.of_nat n + 1) with (i + Z.of_nat (Datatypes.S n)) in H by lia. specialize (H HI).
    destruct (body (i + Z.of_nat n) s) as [[s'|r]|e]; cbn in H; [|done|done].
    apply IH; [done|]. intros k t Hk. apply Hb. lia.
Qed.

(** The same rules for bodies that never leave early. *)
Lemma wp_for_up_stay {S} (I : Z -> S -> Prop) n i (body : Z -> S -> res S) s :
  I i s ->
  (forall k s, i <= k < i + Z.of_nat n -> I k s -> wp (body k s) (I (k + 1))) ->
  wp (for_up n i (fun k s => stay (body k s)) s) (fun x => I (i + Z.of_nat n) (fell x)).
Proof.
  intros HI Hb. eapply wp_mono.
  - apply (wp_for_up I (fun _ => False)); [exact HI|]. intros k t Hk Ht.
    specialize (Hb k t Hk Ht). unfold stay. apply wp_bind. eapply wp_mono; [exact Hb|]. done.
  - intros [x|[]] H; done.
Qed.

Lemma wp_for_down_stay {S} (I : Z -> S -> Prop) n i (body : Z -> S -> res S) s :
  I (i + Z.of_nat n) s ->
  (forall k s, i <= k < i + Z.of_nat n -> I (k + 1) s -> wp (body k s) (I k)) ->
  wp (for_down n i (fun k s => stay (body k s)) s) (fun x => I i (fell x)).
Proof.
  intros HI Hb. eapply wp_mono.
  - apply (wp_for_down I (fun _ => False)); [exact HI|]. intros k t Hk Ht.
    specialize (Hb k t Hk Ht). unfold stay. apply wp_bind. eapply wp_mono; [exact Hb|]. done.
  - intros [x|[]] H; done.
Qed.

(** Array read and write, faulting out of bounds. *)
Definition rd {A} (l : list A) (i : Z) : res A :=
  if 0 <=? i then
    match l !! Z.to_nat i with Some v => Ok v | None => Err OutOfBounds end
  else Err OutOfBounds.

Definition wr {A} (l : list A) (i : Z) (v : A) : res (list A) :=
  if (0 <=? i) && (i <? Z.of_nat (length l)) then Ok (<[Z.to_nat i := v]> l)
  else Err OutOfBounds.

Definition zlen {A} (l : list A) : Z := Z.of_nat (length l).

(** Total lookup, for specifications. *)
Definition at_ {A} (d : A) (l : list A) (i : Z) : A := nth (Z.to_nat i) l d.

#[global] Arguments at_ : simpl never.
#[global] Arguments zlen : simpl never.
#[global] Arguments rd : simpl never.
#[global] Arguments wr : simpl never.

Lemma zlen_nonneg {A} (l : list A) : 0 <= zlen l.
Proof. unfold zlen. lia. Qed.

Lemma rd_at {A} (d : A) (l : list A) i : 0 <= i < zlen l -> rd l i = Ok (at_ d l i).
Proof.
  unfold zlen. intros Hi. unfold rd, at_. destruct (Z.leb_spec 0 i); [|lia].
  destruct (l !! Z.to_nat i) as [v|] eqn:E.
  - now rewrite (nth_lookup_Some _ _ _ _ E).
  - apply lookup_ge_None in E. lia.
Qed.

Lemma rd_oob {A} (l : list A) i : ~ (0 <= i < zlen l) -> rd l i = Err OutOfBounds.
Proof.
  unfold zlen. intros Hi. unfold rd. destruct (Z.leb_spec 0 i); [|done].
  rewrite lookup_ge_None_2 by lia. done.
Qed.

Lemma rd_ok_inv {A} (l : list A) i v : rd l i = Ok v -> 0 <= i < zlen l /\ forall d, at_ d l i = v.
Proof.
  unfold rd, zlen, at_. destruct (Z.leb_spec 0 i); [|done].
  destruct (l !! Z.to_nat i) as [w|] eqn:E; [|done]. intros [= ->].
  split; [apply lookup_lt_Some in E; lia|]. intros d. now apply nth_lookup_Some.
Qed.

Lemma wr_ok {A} (l : list A) i v : 0 <= i < zlen l -> wr l i v = Ok (<[Z.to_nat i := v]> l).
Proof.
  unfold zlen. intros. unfold wr.
  destruct (Z.leb_spec 0 i), (Z.ltb_spec i (Z.of_nat (length l))); cbn; try lia; done.
Qed.

Lemma wr_oob {A} (l : list A) i v : ~ (0 <= i < zlen l) -> wr l i v = Err OutOfBounds.
Proof.
  unfold zlen. intros. unfold wr.
  destruct (Z.leb_spec 0 i), (Z.ltb_spec i (Z.of_nat (length l))); cbn; try lia; done.
Qed.

Lemma zlen_insert {A} (l : list A) i v : zlen (<[i := v]> l) = zlen l.
Proof. unfold zlen. now rewrite length_insert. Qed.

Lemma at_insert {A} (d : A) (l : list A) i j v :
  0 <= i < zlen l -> 0 <= j -> at_ d (<[Z.to_nat i := v]> l) j = if j =? i then v else at_ d l j.
Proof.
  unfold zlen, at_. intros Hi Hj. destruct (Z.eqb_spec j i) as [->|Hne].
  - apply nth_lookup_Some. apply list_lookup_insert_eq. lia.
  - rewrite !nth_lookup. rewrite list_lookup_insert_ne; [done|]. lia.
Qed.

Lemma list_at_ext {A} (d : A) (l1 l2 : list A) :
  zlen l1 = zlen l2 -> (forall i, 0 <= i < zlen l1 -> at_ d l1 i = at_ d l2 i) -> l1 = l2.
Proof.
  unfold zlen, at_. intros Hlen H. apply (nth_ext _ _ d d); [lia|].
  intros n Hn. specialize (H (Z.of_nat n) ltac:(lia)). now rewrite Nat2Z.id in H.
Qed.

Lemma Forall_at {A} (P : A -> Prop) (d : A) l :
  Forall P l <-> forall i, 0 <= i < zlen l -> P (at_ d l i).
Proof.
  unfold zlen, at_. rewrite Forall_lookup. split; intros H.
  - intros i Hi. destruct (l !! Z.to_nat i) as [v|] eqn:E.
    + rewrite (nth_lookup_Some _ _ _ _ E). eauto.
    + apply lookup_ge_None in E. lia.
  - intros i v E. specialize (H (Z.of_nat i)). rewrite Nat2Z.id in H.
    rewrite (nth_lookup_Some _ _ _ _ E) in H. apply lookup_lt_Some in E. apply H. lia.
Qed.

(** Symbolic execution of a [res] computation under [wp]. *)
Ltac wp_step :=
  match goal with
  | |- wp (Ok _) _ => apply wp_ok
  | |- wp (_ ≫= _) _ => apply wp_bind
  | |- wp (mret _) _ => apply wp_ok
  | |- wp (let _ := _ in _) _ => cbv zeta
  | |- wp (match (_, _) with (_, _) => _ end) _ => cbv beta iota
  | |- wp (match ?x with (_, _) => _ end) _ => destruct x
  end.
Ltac wp_steps := repeat (wp_step; cbv beta).

(** Properties of bytes are decided by trying them all. *)
Definition all_bytes : list Z := Z.of_nat <$> seq 0 256.

Lemma byte_check (P : Z -> bool) b : forallb P all_bytes = true -> is_u8 b -> P b = true.
Proof.
  intros H Hb. rewrite forallb_forall in H. apply H. apply list_elem_of_In. apply list_elem_of_fmap. exists (Z.to_nat b).
  unfold is_u8 in Hb. split; [lia|]. apply elem_of_seq. lia.
Qed.
