(* ===== verification/Bits.v ===== *)
(** Searches and population counts on one machine word:
    include/asm-generic/bitops/{__ffs,__fls,fls,ffz}.h and lib/hweight.c. *)
From S2P Require Import Prelude.

(** * Words *)

(** __ffs.h, [__ffs]: binary search for the lowest set bit. *)
Definition __ffs (word : Z) : Z :=
  let num := 0 in
  let '(num, word) :=
    if Z.land word 0xffff =? 0 then (num + 16, shr32 word 16) else (num, word) in
  let '(num, word) :=
    if Z.land word 0xff =? 0 then (num + 8, shr32 word 8) else (num, word) in
  let '(num, word) :=
    if Z.land word 0xf =? 0 then (num + 4, shr32 word 4) else (num, word) in
  let '(num, word) :=
    if Z.land word 0x3 =? 0 then (num + 2, shr32 word 2) else (num, word) in
  if Z.land word 0x1 =? 0 then num + 1 else num.

(** __fls.h, [__fls]: binary search for the highest set bit. *)
Definition __fls (word : Z) : Z :=
  let num := BITS_PER_LONG - 1 in
  let '(num, word) :=
    if Z.land word (shl32 ULONG_MAX (BITS_PER_LONG - 16)) =? 0
    then (num - 16, shl32 word 16) else (num, word) in
  let '(num, word) :=
    if Z.land word (shl32 ULONG_MAX (BITS_PER_LONG - 8)) =? 0
    then (num - 8, shl32 word 8) else (num, word) in
  let '(num, word) :=
    if Z.land word (shl32 ULONG_MAX (BITS_PER_LONG - 4)) =? 0
    then (num - 4, shl32 word 4) else (num, word) in
  let '(num, word) :=
    if Z.land word (shl32 ULONG_MAX (BITS_PER_LONG - 2)) =? 0
    then (num - 2, shl32 word 2) else (num, word) in
  if Z.land word (shl32 ULONG_MAX (BITS_PER_LONG - 1)) =? 0 then num - 1 else num.

(** fls.h, [fls]: one-based index of the highest set bit, 0 for no bit. *)
Definition fls (x : Z) : Z :=
  let r := 32 in
  if x =? 0 then 0 else
  let '(x, r) := if Z.land x 0xffff0000 =? 0 then (shl32 x 16, r - 16) else (x, r) in
  let '(x, r) := if Z.land x 0xff000000 =? 0 then (shl32 x 8, r - 8) else (x, r) in
  let '(x, r) := if Z.land x 0xf0000000 =? 0 then (shl32 x 4, r - 4) else (x, r) in
  let '(x, r) := if Z.land x 0xc0000000 =? 0 then (shl32 x 2, r - 2) else (x, r) in
  let '(x, r) := if Z.land x 0x80000000 =? 0 then (shl32 x 1, r - 1) else (x, r) in
  r.

(** ffz.h, [ffz]. *)
Definition ffz (x : Z) : Z := __ffs (lnot32 x).

(** hweight.c: population counts by lane-wise sums. *)
Definition hweight8 (w : Z) : Z :=
  let res := u32 (w - Z.land (shr32 w 1) 0x55) in
  let res := u32 (Z.land res 0x33 + Z.land (shr32 res 2) 0x33) in
  Z.land (u32 (res + shr32 res 4)) 0x0F.

Definition hweight16 (w : Z) : Z :=
  let res := u32 (w - Z.land (shr32 w 1) 0x5555) in
  let res := u32 (Z.land res 0x3333 + Z.land (shr32 res 2) 0x3333) in
  let res := Z.land (u32 (res + shr32 res 4)) 0x0F0F in
  Z.land (u32 (res + shr32 res 8)) 0x00FF.

Definition hweight32 (w : Z) : Z :=
  let res := u32 (w - Z.land (shr32 w 1) 0x55555555) in
  let res := u32 (Z.land res 0x33333333 + Z.land (shr32 res 2) 0x33333333) in
  let res := Z.land (u32 (res + shr32 res 4)) 0x0F0F0F0F in
  let res := u32 (res + shr32 res 8) in
  Z.land (u32 (res + shr32 res 16)) 0x000000FF.

(** With [BITS_PER_LONG == 32]. *)
Definition hweight64 (w : Z) : Z :=
  u32 (hweight32 (u32 (Z.shiftr w 32)) + hweight32 (u32 w)).

(** * Specifications *)

(** Number of set bits among the [n] lowest. *)
Fixpoint popcount (n : nat) (x : Z) : Z :=
  match n with
  | O => 0
  | S n' => Z.b2z (Z.testbit x (Z.of_nat n')) + popcount n' x
  end.

(** * The word searches *)

Definition lowest (w n : Z) : Prop :=
  0 <= n /\ Z.testbit w n = true /\ forall j, 0 <= j < n -> Z.testbit w j = false.

Definition highest (w n : Z) : Prop :=
  0 <= n < 32 /\ Z.testbit w n = true /\ forall j, n < j < 32 -> Z.testbit w j = false.

Lemma lowest_unique w n m : lowest w n -> lowest w m -> n = m.
Proof.
  intros (Hn & Bn & Ln) (Hm & Bm & Lm).
  destruct (Z.lt_trichotomy n m) as [H|[H|H]]; [|done|].
  - rewrite Lm in Bn by lia. done.
  - rewrite Ln in Bm by lia. done.
Qed.

Lemma lowest_exists w : is_u32 w -> w <> 0 -> exists n, n < 32 /\ lowest w n.
Proof.
  intros Hw Hne. destruct (nonzero_bit32 w Hw Hne) as (i & Hi & Bi).
  assert (Hgo : forall k, (forall j, 0 <= j < Z.of_nat k -> Z.testbit w j = false) \/
                     exists n, n < Z.of_nat k /\ lowest w n).
  { induction k as [|k [IH|(n & ? & ?)]].
    - left. lia.
    - destruct (Z.testbit w (Z.of_nat k)) eqn:E.
      + right. exists (Z.of_nat k). repeat split; auto; lia.
      + left. intros j Hj. destruct (Z.eq_dec j (Z.of_nat k)) as [->|]; [done|].
        apply IH. lia.
    - right. exists n. split; [lia|done]. }
  destruct (Hgo 32%nat) as [H|H]; [|exact H].
  rewrite H in Bi by lia. done.
Qed.

Lemma land_low_zero w k : 0 <= k -> 0 <= w ->
  (Z.land w (2 ^ k - 1) =? 0) = true <-> forall j, 0 <= j < k -> Z.testbit w j = false.
Proof.
  intros Hk Hw. rewrite Z.eqb_eq. split.
  - intros H j Hj. pose proof (f_equal (fun z => Z.testbit z j) H) as E. cbn in E.
    rewrite Z.land_spec, testbit_ones_full, Z.testbit_0_l in E by lia.
    destruct (Z.ltb_spec j k); [|lia]. now rewrite andb_true_r in E.
  - intros H. apply Z.bits_inj'. intros j Hj.
    rewrite Z.land_spec, testbit_ones_full, Z.testbit_0_l by lia.
    destruct (Z.ltb_spec j k); [|apply andb_false_r]. rewrite H by lia. done.
Qed.

Lemma ffs_step k num w num' w' n : 0 <= k -> 0 <= w ->
  (if Z.land w (2 ^ k - 1) =? 0 then (num + k, shr32 w k) else (num, w)) = (num', w') ->
  lowest w n -> n < 2 * k ->
  exists n', n' < k /\ lowest w' n' /\ num + n = num' + n' /\ 0 <= w'.
Proof.
  intros Hk Hw E (Hn & Bn & Ln) Hlt.
  destruct (Z.land w (2 ^ k - 1) =? 0) eqn:C; injection E as <- <-.
  - pose proof (proj1 (land_low_zero w k Hk Hw) C) as Z0.
    assert (k <= n).
    { destruct (Z.le_gt_cases k n); [done|]. rewrite Z0 in Bn by lia. done. }
    exists (n - k). split; [lia|]. split; [|split; [lia|]].
    + repeat split; [lia| |].
      * rewrite testbit_shr32 by lia. now replace (n - k + k) with n by lia.
      * intros j Hj. rewrite testbit_shr32 by lia. apply Ln. lia.
    + unfold shr32. apply Z.shiftr_nonneg. done.
  - exists n. split; [|repeat split; auto].
    destruct (Z.lt_ge_cases n k) as [|Hge]; [done|].
    rewrite (proj2 (land_low_zero w k Hk Hw)) in C; [done|].
    intros j Hj. apply Ln. lia.
Qed.

Lemma ffs_lowest w n : is_u32 w -> lowest w n -> __ffs w = n.
Proof.
  intros Hw Hl.
  assert (Hn : n < 2 * 16).
  { destruct (Z.lt_ge_cases n 32) as [|Hge]; [lia|].
    destruct Hl as (H0 & B & _). rewrite (testbit_high w 32) in B by (unfold is_u32 in Hw; lia). done. }
  unfold __ffs. destruct Hw as [Hw _].
  destruct (if Z.land w 0xffff =? 0 then _ else _) as [n1 w1] eqn:E1.
  destruct (ffs_step 16 0 w n1 w1 n) as (m1 & ? & L1 & ? & ?); [lia|done|exact E1|done|lia|].
  destruct (if Z.land w1 0xff =? 0 then _ else _) as [n2 w2] eqn:E2.
  destruct (ffs_step 8 n1 w1 n2 w2 m1) as (m2 & ? & L2 & ? & ?); [lia|done|exact E2|done|lia|].
  destruct (if Z.land w2 0xf =? 0 then _ else _) as [n3 w3] eqn:E3.
  destruct (ffs_step 4 n2 w2 n3 w3 m2) as (m3 & ? & L3 & ? & ?); [lia|done|exact E3|done|lia|].
  destruct (if Z.land w3 0x3 =? 0 then _ else _) as [n4 w4] eqn:E4.
  destruct (ffs_step 2 n3 w3 n4 w4 m3) as (m4 & ? & L4 & ? & ?); [lia|done|exact E4|done|lia|].
  destruct (ffs_step 1 n4 w4 (if Z.land w4 0x1 =? 0 then n4 + 1 else n4)
    (if Z.land w4 0x1 =? 0 then shr32 w4 1 else w4) m4) as (m5 & ? & L5 & ? & ?);
    [lia|done|change (2 ^ 1 - 1) with 1; now destruct (Z.land w4 1 =? 0)|done|lia|].
  destruct L5. lia.
Qed.

(** __ffs returns the index of the lowest set bit. *)
Lemma __ffs_spec w : is_u32 w -> w <> 0 -> __ffs w < 32 /\ lowest w (__ffs w).
Proof.
  intros Hw Hne. destruct (lowest_exists w Hw Hne) as (n & ? & Hl).
  now rewrite (ffs_lowest w n).
Qed.

Lemma land_high_zero w k : 0 < k < 32 -> is_u32 w ->
  (Z.land w (shl32 ULONG_MAX (32 - k)) =? 0) = true <->
  forall j, 32 - k <= j < 32 -> Z.testbit w j = false.
Proof.
  intros Hk Hw.
  assert (Hbit : forall j, 0 <= j < 32 ->
    Z.testbit (shl32 ULONG_MAX (32 - k)) j = (32 - k <=? j)).
  { intros j Hj. rewrite testbit_shl32 by lia. destruct (Z.leb_spec (32 - k) j).
    - unfold ULONG_MAX. rewrite testbit_ones_full by lia. apply Z.ltb_lt. lia.
    - now rewrite Z.testbit_neg_r by lia. }
  rewrite Z.eqb_eq. split.
  - intros H j Hj. pose proof (f_equal (fun z => Z.testbit z j) H) as E. cbv beta in E.
    rewrite Z.land_spec, Hbit, Z.testbit_0_l in E by lia.
    destruct (Z.leb_spec (32 - k) j); [|lia]. now rewrite andb_true_r in E.
  - intros H. apply bits_ext32; [auto with word|unfold is_u32; lia|]. intros j Hj.
    rewrite Z.land_spec, Hbit, Z.testbit_0_l by lia.
    destruct (Z.leb_spec (32 - k) j); [|apply andb_false_r]. rewrite H by lia. done.
Qed.

Lemma fls_step k num w num' w' n : 0 < k < 32 -> is_u32 w ->
  (if Z.land w (shl32 ULONG_MAX (32 - k)) =? 0 then (num - k, shl32 w k) else (num, w)) = (num', w') ->
  highest w n -> 32 - 2 * k <= n ->
  exists n', 32 - k <= n' /\ highest w' n' /\ num + n = num' + n' /\ is_u32 w'.
Proof.
  intros Hk Hw E (Hn & Bn & Ln) Hlt.
  destruct (Z.land w _ =? 0) eqn:C; injection E as <- <-.
  - pose proof (proj1 (land_high_zero w k Hk Hw) C) as Z0.
    assert (n < 32 - k).
    { destruct (Z.lt_ge_cases n (32 - k)); [done|]. rewrite Z0 in Bn by lia. done. }
    exists (n + k). split; [lia|]. split; [|split; [lia|auto with word]].
    repeat split; [lia|lia| |].
    + rewrite testbit_shl32 by lia. now replace (n + k - k) with n by lia.
    + intros j Hj. rewrite testbit_shl32 by lia.
      destruct (Z.lt_ge_cases (j - k) 0); [now rewrite Z.testbit_neg_r by lia|].
      apply Ln. lia.
  - exists n. split; [|split; [split; [done|split; done]|split; [lia|done]]].
    destruct (Z.lt_ge_cases n (32 - k)) as [Hlt'|]; [|done].
    rewrite (proj2 (land_high_zero w k Hk Hw)) in C; [done|].
    intros j Hj. apply Ln. lia.
Qed.

Lemma highest_log2 w : is_u32 w -> w <> 0 -> highest w (Z.log2 w).
Proof.
  intros Hw Hne. unfold is_u32 in Hw. repeat split.
  - apply Z.log2_nonneg.
  - apply Z.log2_lt_pow2; lia.
  - apply Z.bit_log2; lia.
  - intros j Hj. apply Z.bits_above_log2; lia.
Qed.

(** __fls returns the index of the highest set bit. *)
Lemma __fls_spec w : is_u32 w -> w <> 0 -> __fls w = Z.log2 w.
Proof.
  intros Hw Hne. pose proof (highest_log2 w Hw Hne) as Hl.
  assert (0 <= Z.log2 w < 32) by (destruct Hl; done).
  unfold __fls, BITS_PER_LONG.
  destruct (if Z.land w (shl32 ULONG_MAX (32 - 16)) =? 0 then _ else _) as [n1 w1] eqn:E1.
  destruct (fls_step 16 (32 - 1) w n1 w1 (Z.log2 w)) as (m1 & ? & L1 & ? & ?); [lia|done|exact E1|done|lia|].
  destruct (if Z.land w1 (shl32 ULONG_MAX (32 - 8)) =? 0 then _ else _) as [n2 w2] eqn:E2.
  destruct (fls_step 8 n1 w1 n2 w2 m1) as (m2 & ? & L2 & ? & ?); [lia|done|exact E2|done|lia|].
  destruct (if Z.land w2 (shl32 ULONG_MAX (32 - 4)) =? 0 then _ else _) as [n3 w3] eqn:E3.
  destruct (fls_step 4 n2 w2 n3 w3 m2) as (m3 & ? & L3 & ? & ?); [lia|done|exact E3|done|lia|].
  destruct (if Z.land w3 (shl32 ULONG_MAX (32 - 2)) =? 0 then _ else _) as [n4 w4] eqn:E4.
  destruct (fls_step 2 n3 w3 n4 w4 m3) as (m4 & ? & L4 & ? & ?); [lia|done|exact E4|done|lia|].
  destruct (fls_step 1 n4 w4 (if Z.land w4 (shl32 ULONG_MAX (32 - 1)) =? 0 then n4 - 1 else n4)
    (if Z.land w4 (shl32 ULONG_MAX (32 - 1)) =? 0 then shl32 w4 1 else w4) m4) as (m5 & ? & L5 & ? & ?);
    [lia|done|now destruct (Z.land w4 _ =? 0)|done|lia|].
  destruct L5. lia.
Qed.

Lemma fls_spec w : is_u32 w -> fls w = if w =? 0 then 0 else Z.log2 w + 1.
Proof.
  intros Hw. unfold fls. destruct (Z.eqb_spec w 0) as [|Hne]; [done|].
  pose proof (highest_log2 w Hw Hne) as Hl.
  assert (0 <= Z.log2 w < 32) by (destruct Hl; done).
  destruct (if Z.land w 0xffff0000 =? 0 then _ else _) as [w1 n1] eqn:E1.
  destruct (fls_step 16 32 w n1 w1 (Z.log2 w)) as (m1 & ? & L1 & ? & ?);
    [lia|done|change (shl32 ULONG_MAX (32 - 16)) with 0xffff0000; destruct (Z.land w _ =? 0); congruence|done|lia|].
  destruct (if Z.land w1 0xff000000 =? 0 then _ else _) as [w2 n2] eqn:E2.
  destruct (fls_step 8 n1 w1 n2 w2 m1) as (m2 & ? & L2 & ? & ?);
    [lia|done|change (shl32 ULONG_MAX (32 - 8)) with 0xff000000; destruct (Z.land w1 _ =? 0); congruence|done|lia|].
  destruct (if Z.land w2 0xf0000000 =? 0 then _ else _) as [w3 n3] eqn:E3.
  destruct (fls_step 4 n2 w2 n3 w3 m2) as (m3 & ? & L3 & ? & ?);
    [lia|done|change (shl32 ULONG_MAX (32 - 4)) with 0xf0000000; destruct (Z.land w2 _ =? 0); congruence|done|lia|].
  destruct (if Z.land w3 0xc0000000 =? 0 then _ else _) as [w4 n4] eqn:E4.
  destruct (fls_step 2 n3 w3 n4 w4 m3) as (m4 & ? & L4 & ? & ?);
    [lia|done|change (shl32 ULONG_MAX (32 - 2)) with 0xc0000000; destruct (Z.land w3 _ =? 0); congruence|done|lia|].
  destruct (if Z.land w4 0x80000000 =? 0 then _ else _) as [w5 n5] eqn:E5.
  destruct (fls_step 1 n4 w4 n5 w5 m4) as (m5 & ? & L5 & ? & ?);
    [lia|done|change (shl32 ULONG_MAX (32 - 1)) with 0x80000000; destruct (Z.land w4 _ =? 0); congruence|done|lia|].
  destruct L5. lia.
Qed.

(** * Population counts *)

Lemma popcount_range n x : 0 <= popcount n x <= Z.of_nat n.
Proof. induction n; cbn; [lia|]. destruct (Z.testbit x _); cbn; lia. Qed.

Lemma popcount_ext n x y :
  (forall i, 0 <= i < Z.of_nat n -> Z.testbit x i = Z.testbit y i) -> popcount n x = popcount n y.
Proof.
  induction n as [|n IH]; intros H; cbn; [done|].
  rewrite H by lia. f_equal. apply IH. intros. apply H. lia.
Qed.

Lemma popcount_split n m x :
  popcount (n + m) x = popcount n (Z.shiftr x (Z.of_nat m)) + popcount m x.
Proof.
  induction n as [|n IH]; cbn; [lia|].
  rewrite IH, Z.shiftr_spec by lia. rewrite Nat2Z.inj_add. lia.
Qed.

(** Exhaustive check of a predicate on [0, 2^n) by bisection. *)
Fixpoint check_from (n : nat) (P : Z -> bool) (base : Z) : bool :=
  match n with
  | O => P base
  | S n' => check_from n' P (2 * base) && check_from n' P (2 * base + 1)
  end.

Lemma check_from_spec n P base x :
  check_from n P base = true ->
  base * 2 ^ Z.of_nat n <= x < (base + 1) * 2 ^ Z.of_nat n -> P x = true.
Proof.
  revert base. induction n as [|n IH]; intros base H Hx; cbn [check_from] in H.
  - assert (x = base) by lia. now subst.
  - apply andb_prop in H as [H1 H2].
    rewrite Nat2Z.inj_succ, Z.pow_succ_r in Hx by lia.
    destruct (Z.lt_ge_cases x ((2 * base + 1) * 2 ^ Z.of_nat n)).
    + apply (IH _ H1). lia.
    + apply (IH _ H2). lia.
Qed.

Lemma check16 P x : check_from 16 P 0 = true -> 0 <= x < 2 ^ 16 -> P x = true.
Proof. intros H Hx. apply (check_from_spec 16 P 0 x H). lia. Qed.

Lemma hweight16_spec w : is_u16 w -> hweight16 w = popcount 16 w.
Proof.
  intros Hw. apply Z.eqb_eq.
  refine (check16 (fun w => hweight16 w =? popcount 16 w) w _ Hw). vm_compute; reflexivity.
Qed.

Lemma hweight8_spec w : is_u8 w -> hweight8 w = popcount 8 w.
Proof.
  intros Hw. apply Z.eqb_eq.
  refine (check_from_spec 8 (fun w => hweight8 w =? popcount 8 w) 0 w _ _);
    [vm_compute; reflexivity|unfold is_u8 in Hw; lia].
Qed.

(** The sums of the lanes of a half-word stay in that half-word: the 32-bit
    routine computes the two halves side by side. *)
Definition lanes16 (w : Z) : Z :=
  let res := w - Z.land (shr32 w 1) 0x5555 in
  let res := Z.land res 0x3333 + Z.land (shr32 res 2) 0x3333 in
  Z.land (res + shr32 res 4) 0x0F0F.

Definition lanes16_ok (w : Z) : bool :=
  let r1 := w - Z.land (shr32 w 1) 0x5555 in
  let r2 := Z.land r1 0x3333 + Z.land (shr32 r1 2) 0x3333 in
  let r := lanes16 w in
  ((0 <=? r1) && (r1 <? 2 ^ 16)) &&
  ((0 <=? r2) && (r2 mod 16 <=? 4) && (r2 + r2 / 16 <? 0x5000)) &&
  ((0 <=? r) && (r mod 256 <=? 8) && (r / 256 <=? 8) && (r mod 256 + r / 256 =? popcount 16 w)).

Lemma lanes16_all w : is_u16 w -> lanes16_ok w = true.
Proof. intros Hw. refine (check16 lanes16_ok w _ Hw). vm_compute; reflexivity. Qed.

Definition cat16 (hi lo : Z) : Z := hi * 2 ^ 16 + lo.

Lemma testbit_cat16 hi lo i : 0 <= lo < 2 ^ 16 -> 0 <= i ->
  Z.testbit (cat16 hi lo) i = if i <? 16 then Z.testbit lo i else Z.testbit hi (i - 16).
Proof.
  intros Hlo Hi. unfold cat16. rewrite <- Z.shiftl_mul_pow2 by lia.
  rewrite <- lor_disjoint_add.
  - rewrite Z.lor_spec, Z.shiftl_spec by lia. destruct (Z.ltb_spec i 16).
    + now rewrite (Z.testbit_neg_r hi) by lia.
    + rewrite (testbit_high lo 16) by lia. apply orb_false_r.
  - apply Z.bits_inj'. intros j Hj. rewrite Z.land_spec, Z.shiftl_spec, Z.testbit_0_l by lia.
    destruct (Z.lt_ge_cases j 16).
    + now rewrite (Z.testbit_neg_r hi) by lia.
    + rewrite (testbit_high lo 16) by lia. apply andb_false_r.
Qed.

Lemma cat16_mask hi lo m k : 0 <= lo < 2 ^ 16 -> 0 <= k <= 16 -> 0 <= m < 2 ^ (16 - k) ->
  0 <= hi ->
  Z.land (shr32 (cat16 hi lo) k) (cat16 m m) =
  cat16 (Z.land (shr32 hi k) m) (Z.land (shr32 lo k) m).
Proof.
  intros Hlo Hk Hm Hhi.
  assert (Hm16 : m < 2 ^ 16).
  { apply Z.lt_le_trans with (2 ^ (16 - k)); [lia|]. apply Z.pow_le_mono_r; lia. }
  assert (0 <= Z.shiftr lo k) by (apply Z.shiftr_nonneg; lia).
  apply Z.bits_inj'. intros i Hi.
  rewrite Z.land_spec, testbit_shr32, !testbit_cat16;
    [|apply land_range; unfold shr32; lia|lia|lia|lia|lia|lia|lia].
  rewrite !Z.land_spec. destruct (Z.ltb_spec i 16).
  - rewrite testbit_shr32 by lia. destruct (Z.ltb_spec (i + k) 16); [done|].
    rewrite (testbit_high m (16 - k)) by lia. now rewrite !andb_false_r.
  - rewrite testbit_shr32 by lia. destruct (Z.ltb_spec (i + k) 16); [lia|].
    f_equal. f_equal. lia.
Qed.

Lemma cat16_bounds hi lo : 0 <= lo < 2 ^ 16 -> 0 <= hi < 2 ^ 16 -> is_u32 (cat16 hi lo).
Proof. unfold cat16, is_u32. lia. Qed.

Lemma shr4_cat16 hi lo : 0 <= hi -> 0 <= lo ->
  hi mod 16 <= 4 -> lo + lo / 16 < 0x5000 -> hi + hi / 16 < 0x5000 ->
  Z.land (u32 (cat16 hi lo + shr32 (cat16 hi lo) 4)) 0x0F0F0F0F =
  cat16 (Z.land (hi + shr32 hi 4) 0x0F0F) (Z.land (lo + shr32 lo 4) 0x0F0F).
Proof.
  intros Hhi Hlo Hm Hl Hh.
  assert (Hsum : cat16 hi lo + shr32 (cat16 hi lo) 4 =
    cat16 (hi + hi / 16) (lo + lo / 16 + (hi mod 16) * 2 ^ 12)).
  { unfold cat16, shr32. rewrite Z.shiftr_div_pow2 by lia. change (2 ^ 4) with 16.
    Z.to_euclidean_division_equations. lia. }
  rewrite Hsum, u32_id by (apply cat16_bounds; Z.to_euclidean_division_equations; lia).
  change 0x0F0F0F0F with (cat16 0x0F0F 0x0F0F).
  rewrite <- (Z.shiftr_0_r (cat16 (hi + hi / 16) _)).
  change Z.shiftr with shr32 at 1.
  rewrite cat16_mask by (Z.to_euclidean_division_equations; lia).
  unfold shr32. rewrite !Z.shiftr_0_r, !Z.shiftr_div_pow2 by lia. change (2 ^ 4) with 16.
  f_equal. apply Z.bits_inj'. intros i Hi. rewrite !Z.land_spec.
  destruct (Z.lt_ge_cases i 12).
  - f_equal. rewrite <- (Z.mod_pow2_bits_low _ 12), <- (Z.mod_pow2_bits_low (lo + lo / 16) 12) by lia.
    now rewrite Z.mod_add by lia.
  - rewrite (testbit_high 0x0F0F 12) by lia. now rewrite !andb_false_r.
Qed.

(** The final two additions sum the four byte lanes into the lowest one. *)
Lemma sum_bytes a3 a2 a1 a0 :
  0 <= a3 <= 8 -> 0 <= a2 <= 8 -> 0 <= a1 <= 8 -> 0 <= a0 <= 8 ->
  let t := cat16 (256 * a3 + a2) (256 * a1 + a0) in
  let r := u32 (t + shr32 t 8) in
  Z.land (u32 (r + shr32 r 16)) 0xFF = a2 + a3 + (a0 + a1).
Proof.
  intros H3 H2 H1 H0 t r.
  assert (Et : shr32 t 8 = (256 * a3 + a2) * 2 ^ 8 + a1).
  { unfold shr32, t, cat16. rewrite Z.shiftr_div_pow2 by lia.
    symmetry. apply Z.div_unique with a0; lia. }
  assert (Er : r = a3 * 2 ^ 24 + (a2 + a3) * 2 ^ 16 + (a1 + a2) * 2 ^ 8 + (a0 + a1)).
  { unfold r. rewrite Et. unfold t, cat16, u32. rewrite Z.mod_small; lia. }
  assert (Eq : shr32 r 16 = a3 * 2 ^ 8 + (a2 + a3)).
  { unfold shr32. rewrite Er, Z.shiftr_div_pow2 by lia.
    symmetry. apply Z.div_unique with ((a1 + a2) * 2 ^ 8 + (a0 + a1)); lia. }
  rewrite Eq, Er. unfold u32. rewrite (Z.mod_small _ (2 ^ 32)) by lia.
  change 0xFF with (Z.ones 8). rewrite Z.land_ones by lia. symmetry.
  apply Z.mod_unique with (a3 * 2 ^ 16 + (a2 + a3) * 2 ^ 8 + (a1 + a2 + a3)); lia.
Qed.

Lemma hweight32_halves hi lo : is_u16 hi -> is_u16 lo ->
  hweight32 (cat16 hi lo) = popcount 16 hi + popcount 16 lo.
Proof.
  intros Hhi Hlo. pose proof (lanes16_all hi Hhi) as Kh. pose proof (lanes16_all lo Hlo) as Kl.
  unfold is_u16 in *. unfold lanes16_ok in Kh, Kl. cbv zeta in Kh, Kl.
  set (h1 := hi - Z.land (shr32 hi 1) 0x5555) in *. set (l1 := lo - Z.land (shr32 lo 1) 0x5555) in *.
  set (h2 := Z.land h1 0x3333 + Z.land (shr32 h1 2) 0x3333) in *.
  set (l2 := Z.land l1 0x3333 + Z.land (shr32 l1 2) 0x3333) in *.
  assert (E3 : Z.land (u32 (cat16 h2 l2 + shr32 (cat16 h2 l2) 4)) 0x0F0F0F0F =
               cat16 (lanes16 hi) (lanes16 lo)).
  { apply shr4_cat16; lia. }
  unfold hweight32.
  change 0x55555555 with (cat16 0x5555 0x5555). rewrite cat16_mask by lia.
  replace (cat16 hi lo - _) with (cat16 h1 l1) by (unfold cat16, h1, l1; lia).
  rewrite (u32_id (cat16 h1 l1)) by (apply cat16_bounds; lia).
  change 0x33333333 with (cat16 0x3333 0x3333). rewrite (cat16_mask h1 l1 _ 2) by lia.
  rewrite <- (Z.shiftr_0_r (cat16 h1 l1)). change (Z.shiftr (cat16 h1 l1) 0) with (shr32 (cat16 h1 l1) 0).
  rewrite (cat16_mask h1 l1 _ 0) by lia.
  replace (cat16 _ _ + cat16 _ _) with (cat16 h2 l2)
    by (unfold cat16, h2, l2, shr32; rewrite !Z.shiftr_0_r; lia).
  rewrite (u32_id (cat16 h2 l2)) by (apply cat16_bounds; Z.to_euclidean_division_equations; lia).
  rewrite E3. set (A := lanes16 hi) in *. set (B := lanes16 lo) in *.
  replace (popcount 16 hi + popcount 16 lo) with (A mod 256 + A / 256 + (B mod 256 + B / 256)) by lia.
  assert (HA : A = 256 * (A / 256) + A mod 256) by (apply Z.div_mod; lia).
  assert (HB : B = 256 * (B / 256) + B mod 256) by (apply Z.div_mod; lia).
  pose proof (Z.mod_pos_bound A 256). pose proof (Z.mod_pos_bound B 256).
  assert (0 <= A / 256) by (apply Z.div_pos; lia). assert (0 <= B / 256) by (apply Z.div_pos; lia).
  pose proof (sum_bytes (A / 256) (A mod 256) (B / 256) (B mod 256)
    ltac:(lia) ltac:(lia) ltac:(lia) ltac:(lia)) as Hs.
  cbv zeta in Hs. rewrite <- HA, <- HB in Hs. exact Hs.
Qed.

(** hweight32 counts the set bits of a word. *)
Lemma hweight32_spec w : is_u32 w -> hweight32 w = popcount 32 w.
Proof.
  intros Hw. unfold is_u32 in Hw.
  replace w with (cat16 (w / 2 ^ 16) (w mod 2 ^ 16)) at 1
    by (unfold cat16; pose proof (Z.div_mod w (2 ^ 16)); lia).
  rewrite hweight32_halves by (unfold is_u16; Z.to_euclidean_division_equations; lia).
  change 32%nat with (16 + 16)%nat. rewrite popcount_split, Z.shiftr_div_pow2 by lia.
  f_equal. apply popcount_ext. intros i Hi. apply Z.mod_pow2_bits_low. lia.
Qed.

Lemma hweight64_spec w : is_u64 w -> hweight64 w = popcount 64 w.
Proof.
  intros Hw. unfold hweight64, is_u64 in *.
  rewrite !hweight32_spec by auto with word.
  pose proof (popcount_range 32 (u32 w)). pose proof (popcount_range 32 (u32 (Z.shiftr w 32))).
  rewrite u32_id by (unfold is_u32; lia).
  change 64%nat with (32 + 32)%nat. rewrite popcount_split.
  f_equal; apply popcount_ext; intros i Hi; rewrite testbit_u32 by lia;
    destruct (Z.ltb_spec i 32); try lia; done.
Qed.

(** * Properties *)

Lemma hweight_ok w :
  (is_u8 w -> hweight8 w = popcount 8 w) /\
  (is_u16 w -> hweight16 w = popcount 16 w) /\
  (is_u32 w -> hweight32 w = popcount 32 w) /\
  (is_u64 w -> hweight64 w = popcount 64 w).
Proof.
  repeat split; [apply hweight8_spec|apply hweight16_spec|apply hweight32_spec|apply hweight64_spec].
Qed.

Lemma word_search_ok w :
  is_u32 w ->
  (w <> 0 -> lowest w (__ffs w) /\ __fls w = Z.log2 w) /\
  fls w = (if w =? 0 then 0 else Z.log2 w + 1) /\
  (w <> ULONG_MAX -> 0 <= ffz w < 32 /\ Z.testbit w (ffz w) = false /\
     forall j, 0 <= j < ffz w -> Z.testbit w j = true).
Proof.
  intros Hw. split; [|split; [now apply fls_spec|]].
  - intros Hne. split; [now apply __ffs_spec|now apply __fls_spec].
  - intros Hne. assert (Hn : lnot32 w <> 0).
    { rewrite lnot32_sub by done. unfold ULONG_MAX in Hne. lia. }
    destruct (__ffs_spec (lnot32 w) (lnot32_range w) Hn) as (Hlt & H0 & B & L).
    unfold ffz. split; [lia|]. split.
    + rewrite testbit_lnot32 in B by lia. now apply negb_true_iff in B.
    + intros j Hj. specialize (L j Hj). rewrite testbit_lnot32 in L by lia.
      now apply negb_false_iff in L.
Qed.

(** hweight8, hweight16, hweight32 and hweight64 return the number of set bits
    of their argument.  On a non-zero word __ffs returns the index of the lowest
    set bit and __fls that of the highest; fls returns the latter plus one, or 0
    for 0; ffz returns the lowest clear bit of a word that has one. *)
Lemma word_bits_fact w :
  ((is_u8 w -> hweight8 w = popcount 8 w) /\
   (is_u16 w -> hweight16 w = popcount 16 w) /\
   (is_u32 w -> hweight32 w = popcount 32 w) /\
   (is_u64 w -> hweight64 w = popcount 64 w)) /\
  (is_u32 w ->
   (w <> 0 -> lowest w (__ffs w) /\ __fls w = Z.log2 w) /\
   fls w = (if w =? 0 then 0 else Z.log2 w + 1) /\
   (w <> ULONG_MAX -> 0 <= ffz w < 32 /\ Z.testbit w (ffz w) = false /\
      forall j, 0 <= j < ffz w -> Z.testbit w j = true)).
Proof. split; [apply hweight_ok|apply word_search_ok]. Qed.
