(* ===== verification/FindBit.v ===== *)
(** Searches over bit arrays: lib/find_next_bit.c and lib/find_last_bit.c.

    A bit array is the list of its [unsigned long] words; [bit l n] is its
    [n]-th bit.  The searches are specified by [first_from]: the smallest
    position of a window at which a predicate holds, or the window's end. *)
From S2P Require Import Prelude.
From S2P Require Import Bits.

(** * Bit arrays *)

Definition BITOP_WORD (nr : Z) : Z := nr / BITS_PER_LONG.

(** The word loop shared by the four searches of find_next_bit.c, with what
    follows it: [stop] is the loop's exit test on a word, [found_first] and
    [found_middle] the labels it jumps to. *)
Definition scan_words (addr : list Z) (stop : Z -> bool)
    (found_first : Z -> Z -> Z -> res Z) (found_middle : Z -> Z -> res Z)
    (p result size : Z) : res Z :=
  loop (Z.to_nat (size / BITS_PER_LONG) + 1) (fun '(p, result, size) =>
    if Z.land size (lnot32 (BITS_PER_LONG - 1)) =? 0 then
      if size =? 0 then Ok (inr result)
      else tmp ← rd addr p; r ← found_first result size tmp; Ok (inr r)
    else
      tmp ← rd addr p;
      if stop tmp then r ← found_middle result tmp; Ok (inr r)
      else Ok (inl (p + 1, u32 (result + BITS_PER_LONG), u32 (size - BITS_PER_LONG))))
    (p, result, size).

Definition find_next_bit (addr : list Z) (size offset : Z) : res Z :=
  let p := BITOP_WORD offset in
  let result := Z.land offset (lnot32 (BITS_PER_LONG - 1)) in
  let found_middle := fun result tmp => Ok (u32 (result + __ffs tmp)) in
  let found_first := fun result size tmp =>
    let tmp := Z.land tmp (shr32 ULONG_MAX (BITS_PER_LONG - size)) in
    if tmp =? 0 then Ok (u32 (result + size)) else found_middle result tmp in
  let scan := scan_words addr (fun tmp => negb (tmp =? 0)) found_first found_middle in
  if size <=? offset then Ok size else
  let size := u32 (size - result) in
  let offset := offset mod BITS_PER_LONG in
  if negb (offset =? 0) then
    tmp ← rd addr p;
    let p := p + 1 in
    let tmp := Z.land tmp (shl32 ULONG_MAX offset) in
    if size <? BITS_PER_LONG then found_first result size tmp
    else if negb (tmp =? 0) then found_middle result tmp
    else scan p (u32 (result + BITS_PER_LONG)) (u32 (size - BITS_PER_LONG))
  else scan p result size.

Definition find_next_zero_bit (addr : list Z) (size offset : Z) : res Z :=
  let p := BITOP_WORD offset in
  let result := Z.land offset (lnot32 (BITS_PER_LONG - 1)) in
  let found_middle := fun result tmp => Ok (u32 (result + ffz tmp)) in
  let found_first := fun result size tmp =>
    let tmp := Z.lor tmp (shl32 ULONG_MAX size) in
    if tmp =? ULONG_MAX then Ok (u32 (result + size)) else found_middle result tmp in
  let scan := scan_words addr (fun tmp => negb (lnot32 tmp =? 0)) found_first found_middle in
  if size <=? offset then Ok size else
  let size := u32 (size - result) in
  let offset := offset mod BITS_PER_LONG in
  if negb (offset =? 0) then
    tmp ← rd addr p;
    let p := p + 1 in
    let tmp := Z.lor tmp (shr32 ULONG_MAX (BITS_PER_LONG - offset)) in
    if size <? BITS_PER_LONG then found_first result size tmp
    else if negb (lnot32 tmp =? 0) then found_middle result tmp
    else scan p (u32 (result + BITS_PER_LONG)) (u32 (size - BITS_PER_LONG))
  else scan p result size.

Definition find_first_bit (addr : list Z) (size : Z) : res Z :=
  let found := fun result tmp => Ok (u32 (result + __ffs tmp)) in
  scan_words addr (fun tmp => negb (tmp =? 0))
    (fun result size tmp =>
       let tmp := Z.land tmp (shr32 ULONG_MAX (BITS_PER_LONG - size)) in
       if tmp =? 0 then Ok (u32 (result + size)) else found result tmp)
    found 0 0 size.

Definition find_first_zero_bit (addr : list Z) (size : Z) : res Z :=
  let found := fun result tmp => Ok (u32 (result + ffz tmp)) in
  scan_words addr (fun tmp => negb (lnot32 tmp =? 0))
    (fun result size tmp =>
       let tmp := Z.lor tmp (shl32 ULONG_MAX size) in
       if tmp =? ULONG_MAX then Ok (u32 (result + size)) else found result tmp)
    found 0 0 size.

(** find_last_bit.c, [find_last_bit]: the words from the last to the first. *)
Definition find_last_bit (addr : list Z) (size : Z) : res Z :=
  let words := size / BITS_PER_LONG in
  let found := fun words tmp => Ok (u32 (words * BITS_PER_LONG + __fls tmp)) in
  let scan :=
    loop (Z.to_nat words + 1) (fun words =>
      if words =? 0 then Ok (inr size)
      else
        let words := words - 1 in
        tmp ← rd addr words;
        if negb (tmp =? 0) then r ← found words tmp; Ok (inr r)
        else Ok (inl words)) words in
  let part := Z.land size (BITS_PER_LONG - 1) in
  if negb (part =? 0) then
    w ← rd addr words;
    let tmp := Z.land w (shr32 ULONG_MAX (BITS_PER_LONG - part)) in
    if negb (tmp =? 0) then found words tmp else scan
  else scan.

(** * Specifications *)

Definition bit (l : list Z) (n : Z) : bool :=
  Z.testbit (at_ 0 l (n / 32)) (n mod 32).

(** A bit array that holds at least [nbits] bits. *)
Definition bitmap_ok (l : list Z) (nbits : Z) : Prop :=
  Forall is_u32 l /\ 0 <= nbits <= 32 * zlen l /\ nbits < 2 ^ 31.

Definition u32b (w : Z) : bool := (0 <=? w) && (w <? 2 ^ 32).
Definition bitmap_okb (l : list Z) (nbits : Z) : bool :=
  forallb u32b l && (0 <=? nbits) && (nbits <=? 32 * zlen l) && (nbits <? 2 ^ 31).

(** [r] is the first position of [lo, hi) at which [P] holds, or [hi]. *)
Definition first_from (P : Z -> bool) (lo hi r : Z) : Prop :=
  lo <= r <= hi /\ (forall j, lo <= j < r -> P j = false) /\ (r < hi -> P r = true).

(** [r] is the last position below [hi] at which [P] holds, or [hi]. *)
Definition last_below (P : Z -> bool) (hi r : Z) : Prop :=
  (r = hi /\ forall j, 0 <= j < hi -> P j = false) \/
  (0 <= r < hi /\ P r = true /\ forall j, r < j < hi -> P j = false).

(** * Searches over bit arrays *)

Lemma bitmap_okb_ok l nbits : bitmap_okb l nbits = true -> bitmap_ok l nbits.
Proof.
  unfold bitmap_okb, bitmap_ok. rewrite !andb_true_iff, !Z.leb_le, Z.ltb_lt.
  intros [[[H ?] ?] ?]. split; [|lia]. rewrite forallb_forall in H. apply Forall_forall.
  intros w Hw. assert (K : u32b w = true) by (apply H, Hw). unfold u32b in K.
  rewrite andb_true_iff, Z.leb_le, Z.ltb_lt in K. done.
Qed.

Lemma first_from_unique P lo hi r s : first_from P lo hi r -> first_from P lo hi s -> r = s.
Proof.
  intros (Hr & Lr & Br) (Hs & Ls & Bs).
  destruct (Z.lt_trichotomy r s) as [H|[H|H]]; [|done|].
  - rewrite Ls in Br by lia. discriminate Br. lia.
  - rewrite Lr in Bs by lia. discriminate Bs. lia.
Qed.

Lemma first_from_skip P lo mid hi r :
  lo <= mid -> (forall j, lo <= j < mid -> P j = false) ->
  first_from P mid hi r -> first_from P lo hi r.
Proof.
  intros Hle Hz (Hr & Lr & Br). repeat split; [lia|lia| |done].
  intros j Hj. destruct (Z.lt_ge_cases j mid); [apply Hz|apply Lr]; lia.
Qed.

Lemma first_from_widen P lo mid hi r :
  r < mid <= hi -> first_from P lo mid r -> first_from P lo hi r.
Proof. intros Hr (H & Lr & Br). repeat split; [lia|lia|done|]. intros _. apply Br. lia. Qed.

Lemma first_from_ext P Q lo hi r :
  (forall j, lo <= j < hi -> P j = Q j) -> first_from P lo hi r -> first_from Q lo hi r.
Proof.
  intros H (Hr & Lr & Br). repeat split; [lia|lia| |].
  - intros j Hj. rewrite <- H by lia. auto.
  - intros Hlt. rewrite <- H by lia. auto.
Qed.

Lemma first_from_none P lo hi : lo <= hi ->
  (forall j, lo <= j < hi -> P j = false) -> first_from P lo hi hi.
Proof. intros Hle H. repeat split; [lia|lia|exact H|intros; lia]. Qed.

Lemma align_down x : is_u32 x -> Z.land x (lnot32 (BITS_PER_LONG - 1)) = 32 * (x / 32).
Proof.
  intros Hx. apply Z.bits_inj'. intros i Hi. rewrite Z.land_spec.
  replace (32 * (x / 32)) with (Z.shiftl (Z.shiftr x 5) 5)
    by (rewrite Z.shiftl_mul_pow2, Z.shiftr_div_pow2 by lia; change (2 ^ 5) with 32; lia).
  rewrite Z.shiftl_spec by lia.
  destruct (Z.lt_ge_cases i 32) as [H32|H32].
  - rewrite testbit_lnot32 by lia. change (BITS_PER_LONG - 1) with (2 ^ 5 - 1).
    rewrite testbit_ones_full by lia. destruct (Z.ltb_spec i 5); cbn.
    + rewrite (Z.testbit_neg_r _ (i - 5)) by lia. apply andb_false_r.
    + rewrite Z.shiftr_spec by lia. replace (i - 5 + 5) with i by lia. apply andb_true_r.
  - rewrite (testbit_high x 32) by (unfold is_u32 in Hx; lia). symmetry.
    rewrite Z.shiftr_spec by lia. apply (testbit_high x 32); unfold is_u32 in Hx; lia.
Qed.

Lemma align_down_zero x : is_u32 x -> (Z.land x (lnot32 (BITS_PER_LONG - 1)) =? 0) = (x <? 32).
Proof.
  intros Hx. rewrite align_down by done. unfold is_u32 in Hx.
  destruct (Z.ltb_spec x 32).
  - rewrite Z.div_small by lia. done.
  - apply Z.eqb_neq. pose proof (Z.div_mod x 32). pose proof (Z.mod_pos_bound x 32). lia.
Qed.

Section Scan.
Context (P : Z -> Z -> bool) (stop : Z -> bool).
Context (found_first : Z -> Z -> Z -> res Z) (found_middle : Z -> Z -> res Z).
Hypothesis stop_false : forall w, is_u32 w -> stop w = false ->
  forall i, 0 <= i < 32 -> P w i = false.
Hypothesis middle_ok : forall result w, 0 <= result < 2 ^ 31 -> is_u32 w -> stop w = true ->
  wp (found_middle result w) (fun r =>
    first_from (fun j => P w (j - result)) result (result + 32) r /\ r < result + 32).
Hypothesis first_ok : forall result size w, 0 <= result < 2 ^ 31 -> 0 < size < 32 -> is_u32 w ->
  wp (found_first result size w) (fun r =>
    first_from (fun j => P w (j - result)) result (result + size) r).

Definition pbit (l : list Z) (n : Z) : bool := P (at_ 0 l (n / 32)) (n mod 32).

Lemma pbit_word l p j : 32 * p <= j < 32 * p + 32 -> pbit l j = P (at_ 0 l p) (j - 32 * p).
Proof.
  intros Hj. unfold pbit.
  replace (j / 32) with p by (Z.to_euclidean_division_equations; lia).
  now replace (j mod 32) with (j - 32 * p) by (Z.to_euclidean_division_equations; lia).
Qed.

Lemma scan_words_spec l total p :
  bitmap_ok l total -> 0 <= p -> 32 * p <= total ->
  wp (scan_words l stop found_first found_middle p (32 * p) (total - 32 * p))
     (first_from (pbit l) (32 * p) total).
Proof.
  intros (Hl & Htot & Hbig) Hp Hle. unfold scan_words.
  apply (wp_loop (fun '(q, result, size) =>
    p <= q /\ result = 32 * q /\ size = total - 32 * q /\ 0 <= size /\
    forall j, 32 * p <= j < 32 * q -> pbit l j = false) (fun '(_, _, size) => size / 32)).
  - repeat split; lia.
  - assert (0 <= (total - 32 * p) / 32) by (apply Z.div_pos; lia). unfold BITS_PER_LONG. lia.
  - clear Hle. intros [[q result] size] (Hq & -> & -> & Hs & Hz) _.
    assert (Hu : is_u32 (total - 32 * q)) by (unfold is_u32; lia).
    rewrite align_down_zero by done.
    assert (Hw : 0 < total - 32 * q -> is_u32 (at_ 0 l q)).
    { intros. apply (proj1 (Forall_at is_u32 0 l) Hl). lia. }
    destruct (Z.ltb_spec (total - 32 * q) 32) as [Hlt|Hge].
    + destruct (Z.eqb_spec (total - 32 * q) 0) as [He|Hne].
      * apply wp_ok. assert (E : 32 * q = total) by lia. rewrite E in Hz |- *.
        apply first_from_none; [lia|done].
      * rewrite (rd_at 0) by lia. wp_steps. specialize (Hw ltac:(lia)).
        eapply wp_mono; [apply first_ok; auto; lia|]. intros r Hr. wp_steps.
        apply (first_from_skip _ _ (32 * q)); [lia|done|].
        replace (32 * q + (total - 32 * q)) with total in Hr by lia.
        eapply first_from_ext; [|exact Hr]. intros j Hj. cbv beta. symmetry. apply pbit_word. lia.
    + rewrite (rd_at 0) by lia. wp_steps. specialize (Hw ltac:(lia)).
      destruct (stop (at_ 0 l q)) eqn:Es.
      * wp_steps. eapply wp_mono; [apply middle_ok; auto; lia|]. intros r [Hr Hlt]. wp_steps.
        apply (first_from_skip _ _ (32 * q)); [lia|done|].
        apply (first_from_widen _ _ (32 * q + 32)); [lia|].
        eapply first_from_ext; [|exact Hr]. intros j Hj. cbv beta. symmetry. apply pbit_word. lia.
      * wp_steps. unfold BITS_PER_LONG. rewrite !u32_id by (unfold is_u32; lia).
        repeat split; try lia.
        { intros j Hj. destruct (Z.lt_ge_cases j (32 * q)); [apply Hz; lia|].
          rewrite (pbit_word l q) by lia. apply stop_false; auto; lia. }
        { apply Z.div_pos; lia. }
        { apply Z.div_lt_upper_bound; [lia|]. pose proof (Z.div_mod (total - 32 * q) 32 ltac:(lia)).
          pose proof (Z.mod_pos_bound (total - 32 * q) 32 ltac:(lia)). lia. }
Qed.

(** The entry of a search in the middle of a word: the bits below the offset
    are masked away, then the search goes on word by word. *)
Context (mask : Z -> Z -> Z).
Hypothesis mask_ok : forall w o, is_u32 w -> 0 < o < 32 -> is_u32 (mask w o) /\
  forall i, 0 <= i < 32 -> P (mask w o) i = (o <=? i) && P w i.

Definition next_in (addr : list Z) (size offset : Z) : res Z :=
  let p := BITOP_WORD offset in
  let result := Z.land offset (lnot32 (BITS_PER_LONG - 1)) in
  let scan := scan_words addr stop found_first found_middle in
  if size <=? offset then Ok size else
  let size := u32 (size - result) in
  let offset := offset mod BITS_PER_LONG in
  if negb (offset =? 0) then
    tmp ← rd addr p;
    let p := p + 1 in
    let tmp := mask tmp offset in
    if size <? BITS_PER_LONG then found_first result size tmp
    else if stop tmp then found_middle result tmp
    else scan p (u32 (result + BITS_PER_LONG)) (u32 (size - BITS_PER_LONG))
  else scan p result size.

Lemma next_in_spec l total offset :
  bitmap_ok l total -> 0 <= offset < total ->
  wp (next_in l total offset) (first_from (pbit l) offset total).
Proof.
  intros Hok Hoff. pose proof Hok as (Hl & Htot & Hbig). unfold next_in, BITOP_WORD.
  rewrite align_down by (unfold is_u32; lia). unfold BITS_PER_LONG.
  destruct (Z.leb_spec total offset); [lia|].
  set (p := offset / 32). set (o := offset mod 32).
  assert (Ep : offset = 32 * p + o /\ 0 <= o < 32).
  { unfold p, o. pose proof (Z.div_mod offset 32). pose proof (Z.mod_pos_bound offset 32). lia. }
  assert (Hp : 0 <= p) by lia. clearbody p o.
  rewrite u32_id by (unfold is_u32; lia).
  destruct (Z.eqb_spec o 0) as [->|Ho]; cbn [negb].
  { destruct Ep as [-> _]. rewrite Z.add_0_r. apply scan_words_spec; auto; lia. }
  rewrite (rd_at 0) by lia. wp_steps. set (w := at_ 0 l p).
  assert (Hw : is_u32 w) by (apply (proj1 (Forall_at is_u32 0 l) Hl); lia).
  destruct (mask_ok w o Hw ltac:(lia)) as [Hmu Hm].
  assert (Hlow : forall j, 32 * p <= j < 32 * p + 32 ->
    P (mask w o) (j - 32 * p) = (offset <=? j) && pbit l j).
  { intros j Hj. rewrite Hm, (pbit_word l p) by lia. f_equal.
    destruct (Z.leb_spec o (j - 32 * p)), (Z.leb_spec offset j); lia. }
  assert (Htrim : forall hi r, hi <= 32 * p + 32 -> hi <= total ->
    first_from (fun j => P (mask w o) (j - 32 * p)) (32 * p) hi r -> offset <= hi ->
    first_from (pbit l) offset hi r).
  { intros hi r Hh1 Hh2 (H1 & H2 & H3) Hle.
    assert (offset <= r).
    { destruct (Z.le_gt_cases offset r) as [|Hgt]; [done|].
      specialize (H3 ltac:(lia)). rewrite Hlow in H3 by lia.
      destruct (Z.leb_spec offset r); [lia|done]. }
    repeat split; [lia|lia| |].
    - intros j Hj. specialize (H2 j ltac:(lia)). rewrite Hlow in H2 by lia.
      destruct (Z.leb_spec offset j); [done|lia].
    - intros Hr. specialize (H3 Hr). rewrite Hlow in H3 by lia. now apply andb_prop in H3. }
  destruct (Z.ltb_spec (total - 32 * p) 32).
  - eapply wp_mono; [apply first_ok; auto; lia|]. intros r Hr.
    replace (32 * p + (total - 32 * p)) with total in Hr by lia. apply Htrim; auto; lia.
  - destruct (stop (mask w o)) eqn:Es.
    + eapply wp_mono; [apply middle_ok; auto; lia|]. intros r [Hr Hlt].
      apply (first_from_widen _ _ (32 * p + 32)); [lia|]. apply Htrim; auto; lia.
    + rewrite !u32_id by (unfold is_u32; lia).
      replace (32 * p + 32) with (32 * (p + 1)) by lia.
      replace (total - 32 * p - 32) with (total - 32 * (p + 1)) by lia.
      eapply wp_mono; [apply scan_words_spec; auto; lia|]. intros r Hr.
      apply (first_from_skip _ _ (32 * (p + 1))); [lia| |done].
      intros j Hj. pose proof (stop_false _ Hmu Es (j - 32 * p) ltac:(lia)) as F.
      rewrite Hlow in F by lia. destruct (Z.leb_spec offset j); [done|lia].
Qed.
End Scan.

(** Masks that select or fill the low or the high bits of a word. *)
Lemma low_mask n i : 0 < n <= 32 -> 0 <= i < 32 ->
  Z.testbit (shr32 ULONG_MAX (32 - n)) i = (i <? n).
Proof.
  intros Hn Hi. rewrite testbit_shr32 by lia. unfold ULONG_MAX.
  rewrite testbit_ones_full by lia. destruct (Z.ltb_spec i n), (Z.ltb_spec (i + (32 - n)) 32); lia.
Qed.

Lemma high_mask n i : 0 <= n -> 0 <= i < 32 ->
  Z.testbit (shl32 ULONG_MAX n) i = (n <=? i).
Proof.
  intros Hn Hi. rewrite testbit_shl32 by lia. destruct (Z.leb_spec n i).
  - unfold ULONG_MAX. rewrite testbit_ones_full by lia. apply Z.ltb_lt. lia.
  - now rewrite Z.testbit_neg_r by lia.
Qed.

Lemma ulong_max_u32 : is_u32 ULONG_MAX.
Proof. unfold is_u32, ULONG_MAX. lia. Qed.
#[export] Hint Resolve ulong_max_u32 : word.

Lemma lnot32_zero w : is_u32 w -> (lnot32 w =? 0) = (w =? ULONG_MAX).
Proof.
  intros Hw. rewrite lnot32_sub by done. unfold ULONG_MAX.
  destruct (Z.eqb_spec w (2 ^ 32 - 1)), (Z.eqb_spec (2 ^ 32 - 1 - w) 0); lia.
Qed.

Definition set_ (w i : Z) : bool := Z.testbit w i.
Definition clear_ (w i : Z) : bool := negb (Z.testbit w i).

Lemma set_middle result w : 0 <= result < 2 ^ 31 -> is_u32 w -> w <> 0 ->
  first_from (fun j => set_ w (j - result)) result (result + 32) (u32 (result + __ffs w)) /\
  u32 (result + __ffs w) < result + 32.
Proof.
  intros Hr Hw Hne. destruct (__ffs_spec w Hw Hne) as (Hlt & H0 & B & L).
  rewrite u32_id by (unfold is_u32; lia). split; [|lia].
  repeat split; [lia|lia| |].
  - intros j Hj. apply L. lia.
  - intros _. unfold set_. now replace (result + __ffs w - result) with (__ffs w) by lia.
Qed.

Lemma zero_word_bits w i : w = 0 -> set_ w i = false.
Proof. intros ->. apply Z.testbit_0_l. Qed.

Lemma set_first result size w : 0 <= result < 2 ^ 31 -> 0 < size < 32 -> is_u32 w ->
  wp (let tmp := Z.land w (shr32 ULONG_MAX (BITS_PER_LONG - size)) in
      if tmp =? 0 then Ok (u32 (result + size)) else Ok (u32 (result + __ffs tmp)))
     (first_from (fun j => set_ w (j - result)) result (result + size)).
Proof.
  intros Hr Hs Hw. cbv zeta. unfold BITS_PER_LONG.
  set (tmp := Z.land w _). assert (Ht : is_u32 tmp) by (unfold tmp; auto with word).
  assert (Hb : forall i, 0 <= i < 32 -> set_ tmp i = (i <? size) && set_ w i).
  { intros i Hi. unfold set_, tmp. rewrite Z.land_spec, low_mask by lia. apply andb_comm. }
  destruct (Z.eqb_spec tmp 0) as [E|Hne]; apply wp_ok.
  - rewrite u32_id by (unfold is_u32; lia). apply first_from_none; [lia|].
    intros j Hj. specialize (Hb (j - result) ltac:(lia)). rewrite zero_word_bits in Hb by done.
    destruct (Z.ltb_spec (j - result) size); [done|lia].
  - destruct (set_middle result tmp Hr Ht Hne) as [(H1 & H2 & H3) H4].
    set (r := u32 (result + __ffs tmp)) in *.
    specialize (H3 H4). rewrite Hb in H3 by lia. apply andb_prop in H3 as [H3 H5].
    repeat split; [lia|lia| |done]. intros j Hj. specialize (H2 j Hj).
    rewrite Hb in H2 by lia. destruct (Z.ltb_spec (j - result) size); [done|lia].
Qed.

Lemma clear_as_set w i : is_u32 w -> 0 <= i < 32 -> clear_ w i = set_ (lnot32 w) i.
Proof. intros. unfold set_. now rewrite testbit_lnot32. Qed.

Lemma clear_middle result w : 0 <= result < 2 ^ 31 -> is_u32 w -> lnot32 w <> 0 ->
  first_from (fun j => clear_ w (j - result)) result (result + 32) (u32 (result + ffz w)) /\
  u32 (result + ffz w) < result + 32.
Proof.
  intros Hr Hw Hne. destruct (set_middle result (lnot32 w) Hr ltac:(auto with word) Hne) as [H1 H2].
  split; [|exact H2]. eapply first_from_ext; [|exact H1].
  intros j Hj. cbv beta. rewrite clear_as_set by (done || lia). done.
Qed.

Lemma clear_first result size w : 0 <= result < 2 ^ 31 -> 0 < size < 32 -> is_u32 w ->
  wp (let tmp := Z.lor w (shl32 ULONG_MAX size) in
      if tmp =? ULONG_MAX then Ok (u32 (result + size)) else Ok (u32 (result + ffz tmp)))
     (first_from (fun j => clear_ w (j - result)) result (result + size)).
Proof.
  intros Hr Hs Hw. cbv zeta.
  set (tmp := Z.lor w _). assert (Ht : is_u32 tmp) by (unfold tmp; auto with word).
  assert (Hb : forall i, 0 <= i < 32 -> clear_ tmp i = (i <? size) && clear_ w i).
  { intros i Hi. unfold clear_, tmp. rewrite Z.lor_spec, high_mask by lia.
    destruct (Z.ltb_spec i size), (Z.leb_spec size i); try lia;
      now rewrite ?orb_false_r, ?orb_true_r. }
  rewrite <- lnot32_zero by done.
  destruct (Z.eqb_spec (lnot32 tmp) 0) as [E|Hne]; apply wp_ok.
  - rewrite u32_id by (unfold is_u32; lia). apply first_from_none; [lia|].
    intros j Hj. specialize (Hb (j - result) ltac:(lia)).
    rewrite clear_as_set, zero_word_bits in Hb by (done || lia).
    destruct (Z.ltb_spec (j - result) size); [done|lia].
  - destruct (clear_middle result tmp Hr Ht Hne) as [(H1 & H2 & H3) H4].
    set (r := u32 (result + ffz tmp)) in *.
    specialize (H3 H4). rewrite Hb in H3 by lia. apply andb_prop in H3 as [H3 H5].
    repeat split; [lia|lia| |done]. intros j Hj. specialize (H2 j Hj).
    rewrite Hb in H2 by lia. destruct (Z.ltb_spec (j - result) size); [done|lia].
Qed.

Lemma set_stop_false w : is_u32 w -> negb (w =? 0) = false ->
  forall i, 0 <= i < 32 -> set_ w i = false.
Proof. intros _ E i _. apply zero_word_bits. apply negb_false_iff, Z.eqb_eq in E. done. Qed.

Lemma clear_stop_false w : is_u32 w -> negb (lnot32 w =? 0) = false ->
  forall i, 0 <= i < 32 -> clear_ w i = false.
Proof.
  intros Hw E i Hi. rewrite clear_as_set by done. apply zero_word_bits.
  apply negb_false_iff, Z.eqb_eq in E. done.
Qed.

Lemma set_middle_wp result w : 0 <= result < 2 ^ 31 -> is_u32 w -> negb (w =? 0) = true ->
  wp (Ok (u32 (result + __ffs w))) (fun r =>
    first_from (fun j => set_ w (j - result)) result (result + 32) r /\ r < result + 32).
Proof.
  intros Hr Hw E. apply wp_ok, set_middle; auto. apply negb_true_iff, Z.eqb_neq in E. done.
Qed.

Lemma clear_middle_wp result w : 0 <= result < 2 ^ 31 -> is_u32 w -> negb (lnot32 w =? 0) = true ->
  wp (Ok (u32 (result + ffz w))) (fun r =>
    first_from (fun j => clear_ w (j - result)) result (result + 32) r /\ r < result + 32).
Proof.
  intros Hr Hw E. apply wp_ok, clear_middle; auto. apply negb_true_iff, Z.eqb_neq in E. done.
Qed.

Lemma set_mask_ok w o : is_u32 w -> 0 < o < 32 ->
  is_u32 (Z.land w (shl32 ULONG_MAX o)) /\
  forall i, 0 <= i < 32 -> set_ (Z.land w (shl32 ULONG_MAX o)) i = (o <=? i) && set_ w i.
Proof.
  intros Hw Ho. split; [auto with word|]. intros i Hi. unfold set_.
  rewrite Z.land_spec, high_mask by lia. apply andb_comm.
Qed.

Lemma clear_mask_ok w o : is_u32 w -> 0 < o < 32 ->
  is_u32 (Z.lor w (shr32 ULONG_MAX (BITS_PER_LONG - o))) /\
  forall i, 0 <= i < 32 ->
    clear_ (Z.lor w (shr32 ULONG_MAX (BITS_PER_LONG - o))) i = (o <=? i) && clear_ w i.
Proof.
  intros Hw Ho. unfold BITS_PER_LONG. split; [auto with word|]. intros i Hi. unfold clear_.
  rewrite Z.lor_spec, low_mask by lia.
  destruct (Z.ltb_spec i o), (Z.leb_spec o i); try lia; now rewrite ?orb_false_r, ?orb_true_r.
Qed.

Lemma find_next_bit_ok l size offset : bitmap_ok l size -> 0 <= offset < size ->
  wp (find_next_bit l size offset) (first_from (bit l) offset size).
Proof.
  intros Hok Ho. eapply (next_in_spec set_ _ _ _ set_stop_false set_middle_wp set_first _ set_mask_ok);
    eauto.
Qed.

Lemma find_next_zero_bit_ok l size offset : bitmap_ok l size -> 0 <= offset < size ->
  wp (find_next_zero_bit l size offset) (first_from (fun n => negb (bit l n)) offset size).
Proof.
  intros Hok Ho.
  eapply (next_in_spec clear_ _ _ _ clear_stop_false clear_middle_wp clear_first _ clear_mask_ok);
    eauto.
Qed.

Lemma find_next_bit_past l size offset : size <= offset -> find_next_bit l size offset = Ok size.
Proof. intros H. unfold find_next_bit. destruct (Z.leb_spec size offset); [done|lia]. Qed.

Lemma find_next_zero_bit_past l size offset :
  size <= offset -> find_next_zero_bit l size offset = Ok size.
Proof. intros H. unfold find_next_zero_bit. destruct (Z.leb_spec size offset); [done|lia]. Qed.

Lemma find_first_bit_ok l size : bitmap_ok l size ->
  wp (find_first_bit l size) (first_from (bit l) 0 size).
Proof.
  intros Hok. unfold find_first_bit. rewrite <- (Z.sub_0_r size) at 1.
  apply (scan_words_spec set_ _ _ _ set_stop_false set_middle_wp set_first l size 0); auto; [lia|].
  destruct Hok; lia.
Qed.

Lemma find_first_zero_bit_ok l size : bitmap_ok l size ->
  wp (find_first_zero_bit l size) (first_from (fun n => negb (bit l n)) 0 size).
Proof.
  intros Hok. unfold find_first_zero_bit. rewrite <- (Z.sub_0_r size) at 1.
  apply (scan_words_spec clear_ _ _ _ clear_stop_false clear_middle_wp clear_first l size 0);
    auto; [lia|]. destruct Hok; lia.
Qed.

Lemma testbit_fls_word w : is_u32 w -> w <> 0 ->
  0 <= __fls w < 32 /\ Z.testbit w (__fls w) = true /\
  forall i, __fls w < i < 32 -> Z.testbit w i = false.
Proof. intros Hw Hne. rewrite __fls_spec by done. destruct (highest_log2 w Hw Hne). done. Qed.

Lemma bit_word l p j : 32 * p <= j < 32 * p + 32 -> bit l j = Z.testbit (at_ 0 l p) (j - 32 * p).
Proof. apply (pbit_word set_). Qed.

Lemma land_31 size : 0 <= size -> Z.land size (BITS_PER_LONG - 1) = size mod 32.
Proof. intros. change (BITS_PER_LONG - 1) with (Z.ones 5). now rewrite Z.land_ones by lia. Qed.

(** The loop over the full words, once the bits from [32 * n] up are known to
    be clear. *)
Lemma find_last_scan_ok l size n : bitmap_ok l size -> 0 <= n -> 32 * n <= size ->
  (forall j, 32 * n <= j < size -> bit l j = false) ->
  wp (loop (Z.to_nat n + 1) (fun words =>
        if words =? 0 then Ok (inr size)
        else
          let words := words - 1 in
          tmp ← rd l words;
          if negb (tmp =? 0) then r ← Ok (u32 (words * BITS_PER_LONG + __fls tmp)); Ok (inr r)
          else Ok (inl words)) n) (last_below (bit l) size).
Proof.
  intros (Hl & Htot & Hbig) Hn Hle Hz.
  apply (wp_loop (fun m => 0 <= m /\ 32 * m <= size /\
    forall j, 32 * m <= j < size -> bit l j = false) (fun m => m)); [auto|lia|].
  clear n Hn Hle Hz. intros m (Hm & Hle & Hz) _.
  destruct (Z.eqb_spec m 0) as [->|Hne]; [apply wp_ok; left; split; [done|intros; apply Hz; lia]|].
  cbv zeta. rewrite (rd_at 0) by lia. wp_steps. set (w := at_ 0 l (m - 1)).
  assert (Hw : is_u32 w) by (apply (proj1 (Forall_at is_u32 0 l) Hl); lia).
  destruct (Z.eqb_spec w 0) as [E|Hnz]; cbn [negb]; wp_steps.
  - repeat split; try lia. intros j Hj. destruct (Z.lt_ge_cases j (32 * m)); [|apply Hz; lia].
    rewrite (bit_word l (m - 1)) by lia. fold w. rewrite E. apply Z.testbit_0_l.
  - destruct (testbit_fls_word w Hw Hnz) as (Hr & Hb & Hh).
    unfold BITS_PER_LONG. rewrite u32_id by (unfold is_u32; lia). right.
    split; [lia|split].
    + rewrite (bit_word l (m - 1)) by lia. fold w.
      now replace ((m - 1) * 32 + __fls w - 32 * (m - 1)) with (__fls w) by lia.
    + intros j Hj. destruct (Z.lt_ge_cases j (32 * m)); [|apply Hz; lia].
      rewrite (bit_word l (m - 1)) by lia. fold w. apply Hh. lia.
Qed.

Lemma find_last_bit_ok l size : bitmap_ok l size ->
  wp (find_last_bit l size) (last_below (bit l) size).
Proof.
  intros Hok. pose proof Hok as (Hl & Htot & Hbig). unfold find_last_bit.
  rewrite land_31 by lia. cbv zeta. change (size / BITS_PER_LONG) with (size / 32).
  set (n := size / 32). set (part := size mod 32).
  assert (E : size = 32 * n + part /\ 0 <= part < 32).
  { unfold n, part. pose proof (Z.div_mod size 32). pose proof (Z.mod_pos_bound size 32). lia. }
  assert (Hn : 0 <= n) by lia. clearbody n part.
  destruct (Z.eqb_spec part 0) as [E0|Hp]; cbn [negb].
  { apply find_last_scan_ok; auto; [lia|]. intros; lia. }
  rewrite (rd_at 0) by lia. wp_steps. set (w := at_ 0 l n).
  assert (Hw : is_u32 w) by (apply (proj1 (Forall_at is_u32 0 l) Hl); lia).
  set (tmp := Z.land w (shr32 ULONG_MAX (BITS_PER_LONG - part))).
  assert (Htu : is_u32 tmp) by (unfold tmp, BITS_PER_LONG; auto with word).
  assert (Hb : forall i, 0 <= i < 32 -> Z.testbit tmp i = (i <? part) && Z.testbit w i).
  { intros i Hi. unfold tmp, BITS_PER_LONG. rewrite Z.land_spec, low_mask by lia. apply andb_comm. }
  destruct (Z.eqb_spec tmp 0) as [E0|Hne]; cbn [negb].
  - apply find_last_scan_ok; auto; [lia|]. intros j Hj. rewrite (bit_word l n) by lia. fold w.
    specialize (Hb (j - 32 * n) ltac:(lia)). rewrite E0, Z.testbit_0_l in Hb.
    destruct (Z.ltb_spec (j - 32 * n) part); [done|lia].
  - apply wp_ok. destruct (testbit_fls_word tmp Htu Hne) as (Hr & Hbt & Hh).
    rewrite Hb in Hbt by lia. apply andb_prop in Hbt as [Hlt Hbt]. apply Z.ltb_lt in Hlt.
    unfold BITS_PER_LONG. rewrite u32_id by (unfold is_u32; lia). right. split; [lia|split].
    + rewrite (bit_word l n) by lia. fold w.
      now replace (n * 32 + __fls tmp - 32 * n) with (__fls tmp) by lia.
    + intros j Hj. rewrite (bit_word l n) by lia. fold w.
      specialize (Hh (j - 32 * n) ltac:(lia)). rewrite Hb in Hh by lia.
      destruct (Z.ltb_spec (j - 32 * n) part); [done|lia].
Qed.

(** * The interface the bitmap library uses

    An architecture may replace the searches (32-bit ARM has assembler ones in
    arch/arm/lib/findbit.S).  The clients rely on these laws only; the C
    routines above are one instance. *)
Class FindBit := {
  fb_first : list Z -> Z -> res Z;
  fb_next : list Z -> Z -> Z -> res Z;
  fb_next_zero : list Z -> Z -> Z -> res Z;
  fb_first_ok : forall l size, bitmap_ok l size ->
    wp (fb_first l size) (first_from (bit l) 0 size);
  fb_next_ok : forall l size offset, bitmap_ok l size -> 0 <= offset < size ->
    wp (fb_next l size offset) (first_from (bit l) offset size);
  fb_next_past : forall l size offset, size <= offset -> fb_next l size offset = Ok size;
  fb_next_zero_ok : forall l size offset, bitmap_ok l size -> 0 <= offset < size ->
    wp (fb_next_zero l size offset) (first_from (fun n => negb (bit l n)) offset size);
  fb_next_zero_past : forall l size offset,
    size <= offset -> fb_next_zero l size offset = Ok size
}.

#[export] Instance generic_find_bit : FindBit := {|
  fb_first := find_first_bit;
  fb_next := find_next_bit;
  fb_next_zero := find_next_zero_bit;
  fb_first_ok := find_first_bit_ok;
  fb_next_ok := find_next_bit_ok;
  fb_next_past := find_next_bit_past;
  fb_next_zero_ok := find_next_zero_bit_ok;
  fb_next_zero_past := find_next_zero_bit_past
|}.

(** * Properties *)

Lemma find_next_ok l size offset :
  bitmap_ok l size -> 0 <= offset ->
  exists r z, find_next_bit l size offset = Ok r /\ find_next_zero_bit l size offset = Ok z /\
    (size <= offset -> r = size /\ z = size) /\
    (offset < size -> first_from (bit l) offset size r /\
                      first_from (fun n => negb (bit l n)) offset size z).
Proof.
  intros Hok Ho. destruct (Z.lt_ge_cases offset size) as [Hlt|Hge].
  - destruct (proj1 (wp_exists _ _) (find_next_bit_ok l size offset Hok ltac:(lia))) as (r & -> & Hr).
    destruct (proj1 (wp_exists _ _) (find_next_zero_bit_ok l size offset Hok ltac:(lia))) as (z & -> & Hz).
    exists r, z. repeat split; auto; try lia; apply Hr || apply Hz.
  - exists size, size. rewrite find_next_bit_past, find_next_zero_bit_past by done.
    repeat split; lia.
Qed.

Lemma find_first_last_ok l size :
  bitmap_ok l size ->
  exists f z t, find_first_bit l size = Ok f /\ find_first_zero_bit l size = Ok z /\
    find_last_bit l size = Ok t /\
    first_from (bit l) 0 size f /\ first_from (fun n => negb (bit l n)) 0 size z /\
    last_below (bit l) size t.
Proof.
  intros Hok.
  destruct (proj1 (wp_exists _ _) (find_first_bit_ok l size Hok)) as (f & -> & Hf).
  destruct (proj1 (wp_exists _ _) (find_first_zero_bit_ok l size Hok)) as (z & -> & Hz).
  destruct (proj1 (wp_exists _ _) (find_last_bit_ok l size Hok)) as (t & -> & Ht).
  exists f, z, t. repeat split; auto; apply Hf || apply Hz.
Qed.

(** find_next_bit and find_next_zero_bit return the first matching position
    from the offset on, or the size if there is none or the offset is not below
    it; find_first_bit, find_first_zero_bit and find_last_bit return the first or
    last matching position of the whole array, or the size.  None of them reads
    outside the array, and bits past the size have no influence. *)
Lemma find_bit_fact l size :
  bitmap_ok l size ->
  (forall offset, 0 <= offset ->
   exists r z, find_next_bit l size offset = Ok r /\ find_next_zero_bit l size offset = Ok z /\
     (size <= offset -> r = size /\ z = size) /\
     (offset < size -> first_from (bit l) offset size r /\
                       first_from (fun n => negb (bit l n)) offset size z)) /\
  exists f z t, find_first_bit l size = Ok f /\ find_first_zero_bit l size = Ok z /\
    find_last_bit l size = Ok t /\
    first_from (bit l) 0 size f /\ first_from (fun n => negb (bit l n)) 0 size z /\
    last_below (bit l) size t.
Proof. intros Hok. split; [intros offset; now apply find_next_ok|now apply find_first_last_ok]. Qed.

(** C34: hweight8, hweight16, hweight32 and hweight64 return the number of set bits
    of their argument. On a non-zero word __ffs returns the index of the lowest
    set bit and __fls that of the highest; fls returns the latter plus one, or 0
    for 0; ffz returns the lowest clear bit of a word that has one. The searches
    find_next_bit and find_next_zero_bit return the first matching position from
    the offset on, or the size if there is none or the offset is not below it;
    find_first_bit, find_first_zero_bit and find_last_bit return the first or last
    matching position of the whole array, or the size. None of them reads outside
    the array, and bits past the size have no influence. *)
Theorem bit_searches_correct :
  (forall w,
   ((is_u8 w -> hweight8 w = popcount 8 w) /\
    (is_u16 w -> hweight16 w = popcount 16 w) /\
    (is_u32 w -> hweight32 w = popcount 32 w) /\
    (is_u64 w -> hweight64 w = popcount 64 w)) /\
   (is_u32 w ->
    (w <> 0 -> lowest w (__ffs w) /\ __fls w = Z.log2 w) /\
    fls w = (if w =? 0 then 0 else Z.log2 w + 1) /\
    (w <> ULONG_MAX -> 0 <= ffz w < 32 /\ Z.testbit w (ffz w) = false /\
       forall j, 0 <= j < ffz w -> Z.testbit w j = true))) /\
  (forall l size,
   bitmap_ok l size ->
   (forall offset, 0 <= offset ->
    exists r z, find_next_bit l size offset = Ok r /\ find_next_zero_bit l size offset = Ok z /\
      (size <= offset -> r = size /\ z = size) /\
      (offset < size -> first_from (bit l) offset size r /\
                        first_from (fun n => negb (bit l n)) offset size z)) /\
   exists f z t, find_first_bit l size = Ok f /\ find_first_zero_bit l size = Ok z /\
     find_last_bit l size = Ok t /\
     first_from (bit l) 0 size f /\ first_from (fun n => negb (bit l n)) 0 size z /\
     last_below (bit l) size t).
Proof. split; [exact word_bits_fact|]. exact find_bit_fact. Qed.

Lemma bit_searches_correct_witness :
  (hweight32 0x80000100 = 2 /\ lowest 0x80000100 (__ffs 0x80000100) /\ __fls 0x80000100 = 31) /\
  ((exists r, find_next_bit [0x80; 0x100] 64 8 = Ok r /\ first_from (bit [0x80; 0x100]) 8 64 r) /\
   exists t, find_last_bit [0x80; 0x100] 64 = Ok t /\ last_below (bit [0x80; 0x100]) 64 t).
Proof.
  split.
  { destruct ((proj1 bit_searches_correct) 0x80000100) as ((_ & _ & H1 & _) & H2).
    assert (H32 : is_u32 0x80000100) by (unfold is_u32; lia). split; [rewrite (H1 H32); reflexivity|].
    destruct (H2 H32) as (H & _). destruct (H ltac:(lia)) as [L E]. split; [exact L|]. rewrite E. reflexivity. }
  { destruct ((proj2 bit_searches_correct) [0x80; 0x100] 64 (bitmap_okb_ok [0x80; 0x100] 64 eq_refl)) as [H1 (f & z & t & _ & _ & E & _ & _ & H)].
    split; [|exists t; split; [exact E|exact H]].
    destruct (H1 8 ltac:(lia)) as (r & z' & Er & _ & _ & Hr). exists r. split; [exact Er|]. apply Hr. lia. }
Defined.
