(* ===== verification/Bitmap.v ===== *)
(** Bitmaps: lib/bitmap.c and the helpers of include/linux/bitmap.h and
    asm-generic/bitops/non-atomic.h it is built on.

    A bitmap argument is the list of its words.  An operation that writes
    [dst] while reading [src] takes [src] as an [operand]: [Aliased] when the
    two pointers are equal (each read then sees the words already written),
    [Other l] otherwise. *)
From S2P Require Import Prelude.
From S2P Require Import Bits.
From S2P Require Import FindBit.

Definition ENOMEM : Z := 12.
Definition EBUSY : Z := 16.

Inductive operand :=
| Aliased
| Other (l : list Z).

Definition words_of (dst : list Z) (src : operand) : list Z :=
  match src with Aliased => dst | Other l => l end.

Definition BITS_TO_LONGS (nr : Z) : Z := (nr + BITS_PER_LONG - 1) / BITS_PER_LONG.

Definition BITMAP_LAST_WORD_MASK (nbits : Z) : Z :=
  if negb (nbits mod BITS_PER_LONG =? 0) then u32 (shl32 1 (nbits mod BITS_PER_LONG) - 1)
  else ULONG_MAX.

Definition hweight_long (w : Z) : Z := hweight32 w.

(** memset of whole words to zero, from word [from]. *)
Definition memset0 (l : list Z) (from n : Z) : res (list Z) :=
  x ← for_up (Z.to_nat n) from (fun k l => stay (wr l k 0)) l; Ok (fell x).

Definition bitmap_zero (dst : list Z) (nbits : Z) : res (list Z) :=
  memset0 dst 0 (BITS_TO_LONGS nbits).

(** non-atomic.h *)
Definition test_bit (nr : Z) (addr : list Z) : res Z :=
  w ← rd addr (BITOP_WORD nr);
  Ok (Z.land 1 (shr32 w (Z.land nr (BITS_PER_LONG - 1)))).

Definition set_bit (nr : Z) (addr : list Z) : res (list Z) :=
  w ← rd addr (BITOP_WORD nr);
  wr addr (BITOP_WORD nr) (Z.lor w (shl32 1 (nr mod BITS_PER_LONG))).

(** The shape of the predicates of bitmap.c: the full words, then the used
    part of the last one; [hit] as soon as some masked word is not zero. *)
Definition any_word (word : Z -> res Z) (bits hit miss : Z) : res Z :=
  let lim := bits / BITS_PER_LONG in
  x ← for_up (Z.to_nat lim) 0 (fun k (_ : unit) =>
        w ← word k;
        if negb (w =? 0) then Ok (inr hit) else Ok (inl tt)) tt;
  match x with
  | inr r => Ok r
  | inl _ =>
      if negb (bits mod BITS_PER_LONG =? 0) then
        w ← word lim;
        if negb (Z.land w (BITMAP_LAST_WORD_MASK bits) =? 0) then Ok hit else Ok miss
      else Ok miss
  end.

Definition __bitmap_empty (bitmap : list Z) (bits : Z) : res Z :=
  any_word (fun k => rd bitmap k) bits 0 1.

Definition __bitmap_full (bitmap : list Z) (bits : Z) : res Z :=
  any_word (fun k => w ← rd bitmap k; Ok (lnot32 w)) bits 0 1.

Definition __bitmap_equal (bitmap1 bitmap2 : list Z) (bits : Z) : res Z :=
  any_word (fun k => w1 ← rd bitmap1 k; w2 ← rd bitmap2 k; Ok (Z.lxor w1 w2)) bits 0 1.

Definition __bitmap_intersects (bitmap1 bitmap2 : list Z) (bits : Z) : res Z :=
  any_word (fun k => w1 ← rd bitmap1 k; w2 ← rd bitmap2 k; Ok (Z.land w1 w2)) bits 1 0.

Definition __bitmap_subset (bitmap1 bitmap2 : list Z) (bits : Z) : res Z :=
  any_word (fun k => w1 ← rd bitmap1 k; w2 ← rd bitmap2 k; Ok (Z.land w1 (lnot32 w2))) bits 0 1.

Definition __bitmap_complement (dst : list Z) (src : operand) (bits : Z) : res (list Z) :=
  let lim := bits / BITS_PER_LONG in
  x ← for_up (Z.to_nat lim) 0 (fun k dst =>
        stay (w ← rd (words_of dst src) k; wr dst k (lnot32 w))) dst;
  let dst := fell x in
  if negb (bits mod BITS_PER_LONG =? 0) then
    w ← rd (words_of dst src) lim;
    wr dst lim (Z.land (lnot32 w) (BITMAP_LAST_WORD_MASK bits))
  else Ok dst.

Definition __bitmap_shift_right (dst : list Z) (src : operand) (shift bits : Z) : res (list Z) :=
  let lim := BITS_TO_LONGS bits in
  let left := bits mod BITS_PER_LONG in
  let off := shift / BITS_PER_LONG in
  let rem := shift mod BITS_PER_LONG in
  let mask := u32 (shl32 1 left - 1) in
  x ← for_up (Z.to_nat (lim - off)) 0 (fun k dst => stay (
        upper ← (if (rem =? 0) || (lim <=? off + k + 1) then Ok 0
                 else upper ← rd (words_of dst src) (off + k + 1);
                      Ok (if (off + k + 1 =? lim - 1) && negb (left =? 0)
                          then Z.land upper mask else upper));
        lower ← rd (words_of dst src) (off + k);
        let lower := if negb (left =? 0) && (off + k =? lim - 1)
                     then Z.land lower mask else lower in
        dst ← wr dst k (Z.lor (shl32 upper (BITS_PER_LONG - rem)) (shr32 lower rem));
        if negb (left =? 0) && (k =? lim - 1) then
          w ← rd dst k; wr dst k (Z.land w mask)
        else Ok dst)) dst;
  let dst := fell x in
  if negb (off =? 0) then memset0 dst (lim - off) off else Ok dst.

Definition __bitmap_shift_left (dst : list Z) (src : operand) (shift bits : Z) : res (list Z) :=
  let lim := BITS_TO_LONGS bits in
  let left := bits mod BITS_PER_LONG in
  let off := shift / BITS_PER_LONG in
  let rem := shift mod BITS_PER_LONG in
  x ← for_down (Z.to_nat (lim - off)) 0 (fun k dst => stay (
        lower ← (if negb (rem =? 0) && (0 <? k) then rd (words_of dst src) (k - 1) else Ok 0);
        upper ← rd (words_of dst src) k;
        let upper := if negb (left =? 0) && (k =? lim - 1)
                     then Z.land upper (u32 (shl32 1 left - 1)) else upper in
        dst ← wr dst (k + off) (Z.lor (shr32 lower (BITS_PER_LONG - rem)) (shl32 upper rem));
        if negb (left =? 0) && (k + off =? lim - 1) then
          w ← rd dst (k + off); wr dst (k + off) (Z.land w (u32 (shl32 1 left - 1)))
        else Ok dst)) dst;
  let dst := fell x in
  if negb (off =? 0) then memset0 dst 0 off else Ok dst.

(** [dst[k] = op bitmap1[k] bitmap2[k]] for every word, with the disjunction of
    the words written. *)
Definition combine_words (op : Z -> Z -> Z) (dst : list Z) (b1 b2 : operand) (bits : Z)
    : res (list Z * Z) :=
  x ← for_up (Z.to_nat (BITS_TO_LONGS bits)) 0 (fun k s => stay (
        let '(dst, result) := s in
        w1 ← rd (words_of dst b1) k;
        w2 ← rd (words_of dst b2) k;
        dst ← wr dst k (op w1 w2);
        Ok (dst, Z.lor result (op w1 w2)))) (dst, 0);
  Ok (fell x).

Definition __bitmap_and (dst : list Z) (bitmap1 bitmap2 : operand) (bits : Z) : res (list Z * Z) :=
  '(dst, result) ← combine_words Z.land dst bitmap1 bitmap2 bits;
  Ok (dst, Z.b2z (negb (result =? 0))).

Definition __bitmap_or (dst : list Z) (bitmap1 bitmap2 : operand) (bits : Z) : res (list Z) :=
  '(dst, _) ← combine_words Z.lor dst bitmap1 bitmap2 bits; Ok dst.

Definition __bitmap_xor (dst : list Z) (bitmap1 bitmap2 : operand) (bits : Z) : res (list Z) :=
  '(dst, _) ← combine_words Z.lxor dst bitmap1 bitmap2 bits; Ok dst.

Definition __bitmap_andnot (dst : list Z) (bitmap1 bitmap2 : operand) (bits : Z) : res (list Z * Z) :=
  '(dst, result) ← combine_words (fun a b => Z.land a (lnot32 b)) dst bitmap1 bitmap2 bits;
  Ok (dst, Z.b2z (negb (result =? 0))).

Definition __bitmap_weight (bitmap : list Z) (bits : Z) : res Z :=
  let lim := bits / BITS_PER_LONG in
  x ← for_up (Z.to_nat lim) 0 (fun k w =>
        stay (v ← rd bitmap k; Ok (s32 (w + hweight_long v)))) 0;
  let w := fell x in
  if negb (bits mod BITS_PER_LONG =? 0) then
    v ← rd bitmap lim;
    Ok (s32 (w + hweight_long (Z.land v (BITMAP_LAST_WORD_MASK bits))))
  else Ok w.

(** * Regions *)

Inductive reg_op := REG_OP_ISFREE | REG_OP_ALLOC | REG_OP_RELEASE.

Definition __reg_op (bitmap : list Z) (pos order : Z) (op : reg_op) : res (list Z * Z) :=
  let nbits_reg := s32 (Z.shiftl 1 order) in
  let index := pos / BITS_PER_LONG in
  let offset := pos - index * BITS_PER_LONG in
  let nlongs_reg := BITS_TO_LONGS nbits_reg in
  let nbitsinlong := Z.min nbits_reg BITS_PER_LONG in
  let mask := shl32 1 (nbitsinlong - 1) in
  let mask := u32 (mask + (mask - 1)) in
  let mask := shl32 mask offset in
  match op with
  | REG_OP_ISFREE =>
      x ← for_up (Z.to_nat nlongs_reg) 0 (fun i (_ : unit) =>
            w ← rd bitmap (index + i);
            if negb (Z.land w mask =? 0) then Ok (inr 0) else Ok (inl tt)) tt;
      Ok (bitmap, match x with inl _ => 1 | inr r => r end)
  | REG_OP_ALLOC =>
      x ← for_up (Z.to_nat nlongs_reg) 0 (fun i bitmap => stay (
            w ← rd bitmap (index + i); wr bitmap (index + i) (Z.lor w mask))) bitmap;
      Ok (fell x, 0)
  | REG_OP_RELEASE =>
      x ← for_up (Z.to_nat nlongs_reg) 0 (fun i bitmap => stay (
            w ← rd bitmap (index + i); wr bitmap (index + i) (Z.land w (lnot32 mask)))) bitmap;
      Ok (fell x, 0)
  end.

Definition bitmap_find_free_region (bitmap : list Z) (bits order : Z) : res (list Z * Z) :=
  loop (Z.to_nat bits + 1) (fun pos =>
    let e := s32 (pos + s32 (Z.shiftl 1 order)) in
    if e <=? bits then
      '(_, free) ← __reg_op bitmap pos order REG_OP_ISFREE;
      if free =? 0 then Ok (inl e)
      else '(bitmap, _) ← __reg_op bitmap pos order REG_OP_ALLOC; Ok (inr (bitmap, pos))
    else Ok (inr (bitmap, - ENOMEM))) 0.

Definition bitmap_release_region (bitmap : list Z) (pos order : Z) : res (list Z) :=
  '(bitmap, _) ← __reg_op bitmap pos order REG_OP_RELEASE; Ok bitmap.

Definition bitmap_allocate_region (bitmap : list Z) (pos order : Z) : res (list Z * Z) :=
  '(_, free) ← __reg_op bitmap pos order REG_OP_ISFREE;
  if free =? 0 then Ok (bitmap, - EBUSY)
  else '(bitmap, _) ← __reg_op bitmap pos order REG_OP_ALLOC; Ok (bitmap, 0).

(** * Ordinals and remapping, over any implementation of the bit searches *)

Section Remap.
Context {FB : FindBit}.

Definition bitmap_pos_to_ord (buf : list Z) (pos bits : Z) : res Z :=
  if (pos <? 0) || (bits <=? pos) then Ok (-1) else
  t ← test_bit pos buf;
  if t =? 0 then Ok (-1) else
  i ← fb_first buf bits;
  '(i, ord) ← loop (Z.to_nat bits + 2) (fun '(i, ord) =>
     if i <? pos then i ← fb_next buf bits (i + 1); Ok (inl (i, s32 (ord + 1)))
     else Ok (inr (i, ord))) (i, 0);
  if negb (i =? pos) then Err BugOn else Ok ord.

Definition bitmap_ord_to_pos (buf : list Z) (ord bits : Z) : res Z :=
  let pos := 0 in
  if (0 <=? ord) && (ord <? bits) then
    i ← fb_first buf bits;
    '(i, ord) ← loop (Z.to_nat bits + 2) (fun '(i, ord) =>
       if (i <? bits) && (0 <? ord) then
         i ← fb_next buf bits (i + 1); Ok (inl (i, ord - 1))
       else Ok (inr (i, ord))) (i, ord);
    if (i <? bits) && (ord =? 0) then Ok i else Ok pos
  else Ok pos.

(** [for (b = find_first_bit(src); b < bits; b = find_next_bit(src, b + 1))]. *)
Definition for_each_bit {S} (src : list Z) (bits : Z) (body : Z -> S -> res S) (s : S) : res S :=
  b ← fb_first src bits;
  loop (Z.to_nat bits + 2) (fun '(b, s) =>
    if b <? bits then s ← body b s; b ← fb_next src bits (b + 1); Ok (inl (b, s))
    else Ok (inr s)) (b, s).

Definition bitmap_remap (dst : list Z) (src : operand) (old new : list Z) (bits : Z) : res (list Z) :=
  match src with
  | Aliased => Ok dst
  | Other src =>
      dst ← bitmap_zero dst bits;
      w ← __bitmap_weight new bits;
      for_each_bit src bits (fun oldbit dst =>
        n ← bitmap_pos_to_ord old oldbit bits;
        if (n <? 0) || (w =? 0) then set_bit oldbit dst
        else p ← bitmap_ord_to_pos new (Z.rem n w) bits; set_bit p dst) dst
  end.

Definition bitmap_bitremap (oldbit : Z) (old new : list Z) (bits : Z) : res Z :=
  w ← __bitmap_weight new bits;
  n ← bitmap_pos_to_ord old oldbit bits;
  if (n <? 0) || (w =? 0) then Ok oldbit
  else bitmap_ord_to_pos new (Z.rem n w) bits.

Definition bitmap_onto (dst : list Z) (orig : operand) (relmap : list Z) (bits : Z) : res (list Z) :=
  match orig with
  | Aliased => Ok dst
  | Other orig =>
      dst ← bitmap_zero dst bits;
      '(dst, _) ← for_each_bit relmap bits (fun n '(dst, m) =>
        t ← test_bit m orig;
        dst ← (if negb (t =? 0) then set_bit n dst else Ok dst);
        Ok (dst, s32 (m + 1))) (dst, 0);
      Ok dst
  end.

Definition bitmap_fold (dst : list Z) (orig : operand) (sz bits : Z) : res (list Z) :=
  match orig with
  | Aliased => Ok dst
  | Other orig =>
      dst ← bitmap_zero dst bits;
      for_each_bit orig bits (fun oldbit dst =>
        if sz =? 0 then Err DivideByZero else set_bit (Z.rem oldbit sz) dst) dst
  end.
End Remap.
