(* ===== verification/BitmapFacts.v ===== *)
(** Correctness of the predicates, the set operations, the weight and the
    shifts of lib/bitmap.c, stated on the bits below the bitmap's size: what
    the unused bits of the last word hold never matters. *)
From S2P Require Import Prelude.
From S2P Require Import Bits.
From S2P Require Import FindBit.
From S2P Require Import Bitmap.

Lemma longs_bounds bits : 0 <= bits ->
  0 <= BITS_TO_LONGS bits /\ bits <= 32 * BITS_TO_LONGS bits < bits + 32.
Proof.
  intros H. unfold BITS_TO_LONGS, BITS_PER_LONG.
  pose proof (Z.div_mod (bits + 32 - 1) 32 ltac:(lia)).
  pose proof (Z.mod_pos_bound (bits + 32 - 1) 32 ltac:(lia)). lia.
Qed.

Lemma divmod32 n : n = 32 * (n / 32) + n mod 32 /\ 0 <= n mod 32 < 32.
Proof. pose proof (Z.div_mod n 32). pose proof (Z.mod_pos_bound n 32). lia. Qed.

Lemma low_ones n i : 0 <= n < 32 -> 0 <= i < 32 ->
  Z.testbit (u32 (shl32 1 n - 1)) i = (i <? n).
Proof.
  intros Hn Hi. unfold shl32. rewrite Z.shiftl_1_l, (u32_id (2 ^ n)).
  - rewrite testbit_u32, testbit_ones_full by lia. destruct (Z.ltb_spec i 32); [done|lia].
  - split; [lia|]. apply Z.pow_lt_mono_r; lia.
Qed.

Lemma last_word_mask bits i : 0 <= bits -> 0 <= i < 32 ->
  Z.testbit (BITMAP_LAST_WORD_MASK bits) i = (bits mod 32 =? 0) || (i <? bits mod 32).
Proof.
  intros Hb Hi. unfold BITMAP_LAST_WORD_MASK, BITS_PER_LONG.
  pose proof (Z.mod_pos_bound bits 32).
  destruct (Z.eqb_spec (bits mod 32) 0); cbn [negb orb].
  - unfold ULONG_MAX. rewrite testbit_ones_full by lia. apply Z.ltb_lt. lia.
  - apply low_ones; lia.
Qed.

Lemma last_word_mask_u32 bits : is_u32 (BITMAP_LAST_WORD_MASK bits).
Proof. unfold BITMAP_LAST_WORD_MASK. destruct (negb _); auto with word. Qed.
#[export] Hint Resolve last_word_mask_u32 : word.

(** Words given by a function: [wbit W n] is the [n]-th bit. *)
Definition wbit (W : Z -> Z) (n : Z) : bool := Z.testbit (W (n / 32)) (n mod 32).

Lemma wbit_word W p j : 32 * p <= j < 32 * p + 32 -> wbit W j = Z.testbit (W p) (j - 32 * p).
Proof.
  intros Hj. unfold wbit. destruct (divmod32 j).
  replace (j / 32) with p by lia. now replace (j mod 32) with (j - 32 * p) by lia.
Qed.

Lemma any_word_ok (word : Z -> res Z) (W : Z -> Z) bits hit miss :
  0 <= bits ->
  (forall k, 0 <= k < BITS_TO_LONGS bits -> word k = Ok (W k) /\ is_u32 (W k)) ->
  wp (any_word word bits hit miss) (fun r =>
    (r = hit /\ exists n, 0 <= n < bits /\ wbit W n = true) \/
    (r = miss /\ forall n, 0 <= n < bits -> wbit W n = false)).
Proof.
  intros Hb Hw. destruct (longs_bounds bits Hb) as [H0 HL].
  unfold any_word, BITS_PER_LONG. destruct (divmod32 bits) as [Ed Hm].
  set (lim := bits / 32) in *. set (part := bits mod 32) in *.
  assert (Hlim : 0 <= lim) by lia.
  apply wp_bind. eapply wp_mono.
  { apply (wp_for_up (fun k (_ : unit) => forall n, 0 <= n < 32 * k -> wbit W n = false)
      (fun r => r = hit /\ exists n, 0 <= n < bits /\ wbit W n = true)).
    - intros; lia.
    - intros k [] Hk Hz. rewrite Z2Nat.id in Hk by lia.
      destruct (Hw k ltac:(lia)) as [-> Hu]. wp_steps.
      destruct (Z.eqb_spec (W k) 0) as [E|Hne]; cbn [negb]; wp_steps.
      + intros n Hn. destruct (Z.lt_ge_cases n (32 * k)); [apply Hz; lia|].
        rewrite (wbit_word W k) by lia. rewrite E. apply Z.testbit_0_l.
      + destruct (nonzero_bit32 _ Hu Hne) as (i & Hi & Bi). split; [done|].
        exists (32 * k + i). split; [lia|]. rewrite (wbit_word W k) by lia.
        now replace (32 * k + i - 32 * k) with i by lia. }
  rewrite Z2Nat.id by lia. intros [[]|r] H; [|wp_steps; auto].
  destruct (Z.eqb_spec part 0) as [E|Hne]; cbn [negb].
  { apply wp_ok. right. split; [done|]. intros n Hn. apply H. lia. }
  destruct (Hw lim ltac:(lia)) as [-> Hu]. wp_steps.
  assert (Hbits : forall i, 0 <= i < 32 ->
    Z.testbit (Z.land (W lim) (BITMAP_LAST_WORD_MASK bits)) i = (i <? part) && Z.testbit (W lim) i).
  { intros i Hi. rewrite Z.land_spec, last_word_mask by lia. fold part.
    destruct (Z.eqb_spec part 0); [lia|]. apply andb_comm. }
  destruct (Z.eqb_spec (Z.land (W lim) (BITMAP_LAST_WORD_MASK bits)) 0) as [E|Hnz];
    cbn [negb]; wp_steps.
  - right. split; [done|]. intros n Hn. destruct (Z.lt_ge_cases n (32 * lim)); [apply H; lia|].
    rewrite (wbit_word W lim) by lia. specialize (Hbits (n - 32 * lim) ltac:(lia)).
    rewrite E, Z.testbit_0_l in Hbits. destruct (Z.ltb_spec (n - 32 * lim) part); [done|lia].
  - left. split; [done|].
    destruct (nonzero_bit32 (Z.land (W lim) (BITMAP_LAST_WORD_MASK bits)) ltac:(auto with word) Hnz) as (i & Hi & Bi).
    rewrite Hbits in Bi by lia. apply andb_prop in Bi as [Hlt Bi]. apply Z.ltb_lt in Hlt.
    exists (32 * lim + i). split; [lia|]. rewrite (wbit_word W lim) by lia.
    now replace (32 * lim + i - 32 * lim) with i by lia.
Qed.

Lemma bitmap_word l bits k : bitmap_ok l bits -> 0 <= k < BITS_TO_LONGS bits ->
  0 <= k < zlen l /\ is_u32 (at_ 0 l k).
Proof.
  intros (Hl & Hb & _) Hk. destruct (longs_bounds bits ltac:(lia)).
  assert (0 <= k < zlen l) by lia. split; [done|]. now apply (proj1 (Forall_at is_u32 0 l) Hl).
Qed.

(** Words computed from the words of one or two bitmaps. *)
Definition map_words (op : Z -> Z) (l : list Z) (k : Z) : Z := op (at_ 0 l k).
Definition map2_words (op : Z -> Z -> Z) (l1 l2 : list Z) (k : Z) : Z := op (at_ 0 l1 k) (at_ 0 l2 k).

Lemma predicate1 op l bits hit miss : bitmap_ok l bits ->
  (forall w, is_u32 w -> is_u32 (op w)) ->
  wp (any_word (fun k => w ← rd l k; Ok (op w)) bits hit miss) (fun r =>
    (r = hit /\ exists n, 0 <= n < bits /\ wbit (map_words op l) n = true) \/
    (r = miss /\ forall n, 0 <= n < bits -> wbit (map_words op l) n = false)).
Proof.
  intros Hok Hop. apply any_word_ok; [destruct Hok; lia|]. intros k Hk.
  destruct (bitmap_word l bits k Hok Hk). rewrite (rd_at 0) by done.
  split; [reflexivity|]. now apply Hop.
Qed.

Lemma predicate2 op l1 l2 bits hit miss : bitmap_ok l1 bits -> bitmap_ok l2 bits ->
  (forall v w, is_u32 v -> is_u32 w -> is_u32 (op v w)) ->
  wp (any_word (fun k => w1 ← rd l1 k; w2 ← rd l2 k; Ok (op w1 w2)) bits hit miss) (fun r =>
    (r = hit /\ exists n, 0 <= n < bits /\ wbit (map2_words op l1 l2) n = true) \/
    (r = miss /\ forall n, 0 <= n < bits -> wbit (map2_words op l1 l2) n = false)).
Proof.
  intros Hok1 Hok2 Hop. apply any_word_ok; [destruct Hok1; lia|]. intros k Hk.
  destruct (bitmap_word l1 bits k Hok1 Hk), (bitmap_word l2 bits k Hok2 Hk).
  rewrite !(rd_at 0) by done. split; [reflexivity|]. now apply Hop.
Qed.

(** A two-valued answer decides [P]. *)
Definition decides (m : res Z) (P : Prop) : Prop :=
  exists r, m = Ok r /\ ((r = 1 /\ P) \/ (r = 0 /\ ~ P)).

Lemma wp_decides_all m P bits : 
  wp m (fun r => (r = 0 /\ exists n, 0 <= n < bits /\ P n = true) \/
                 (r = 1 /\ forall n, 0 <= n < bits -> P n = false)) ->
  decides m (forall n, 0 <= n < bits -> P n = false).
Proof.
  intros H. apply wp_exists in H as (r & -> & [(-> & n & Hn & Hp)|[-> H]]).
  - exists 0. split; [done|]. right. split; [done|]. intros F. rewrite F in Hp; done.
  - exists 1. auto.
Qed.

Lemma wp_decides_any m P bits : 
  wp m (fun r => (r = 1 /\ exists n, 0 <= n < bits /\ P n = true) \/
                 (r = 0 /\ forall n, 0 <= n < bits -> P n = false)) ->
  decides m (exists n, 0 <= n < bits /\ P n = true).
Proof.
  intros H. apply wp_exists in H as (r & -> & [(-> & H)|[-> H]]).
  - exists 1. auto.
  - exists 0. split; [done|]. right. split; [done|]. intros (n & Hn & Hp). rewrite H in Hp; done.
Qed.

Lemma decides_iff m (P Q : Prop) : (P <-> Q) -> decides m P -> decides m Q.
Proof. intros E (r & -> & [[? ?]|[? ?]]); exists r; split; auto; [left|right]; tauto. Qed.

Lemma mod32_range n : 0 <= n mod 32 < 32.
Proof. apply Z.mod_pos_bound. lia. Qed.
#[export] Hint Resolve mod32_range : word.

Lemma lxor_false a b : xorb a b = false <-> a = b.
Proof. destruct a, b; cbn; split; congruence. Qed.

Lemma forall_below_iff bits (P Q : Z -> Prop) :
  (forall n, 0 <= n < bits -> (P n <-> Q n)) ->
  (forall n, 0 <= n < bits -> P n) <-> (forall n, 0 <= n < bits -> Q n).
Proof. intros H. split; intros F n Hn; apply H; auto. Qed.

(** * The predicates *)

Lemma bitmap_empty_ok l bits : bitmap_ok l bits ->
  decides (__bitmap_empty l bits) (forall n, 0 <= n < bits -> bit l n = false).
Proof.
  intros Hok. apply wp_decides_all. apply (any_word_ok _ (at_ 0 l)); [destruct Hok; lia|].
  intros k Hk. destruct (bitmap_word l bits k Hok Hk). now rewrite (rd_at 0).
Qed.

Lemma bitmap_full_ok l bits : bitmap_ok l bits ->
  decides (__bitmap_full l bits) (forall n, 0 <= n < bits -> bit l n = true).
Proof.
  intros Hok. eapply decides_iff, wp_decides_all, predicate1; auto with word.
  apply forall_below_iff. intros n Hn. unfold wbit, map_words, bit.
  rewrite testbit_lnot32 by auto with word. apply negb_false_iff.
Qed.

Lemma bitmap_equal_ok l1 l2 bits : bitmap_ok l1 bits -> bitmap_ok l2 bits ->
  decides (__bitmap_equal l1 l2 bits) (forall n, 0 <= n < bits -> bit l1 n = bit l2 n).
Proof.
  intros H1 H2. eapply decides_iff, wp_decides_all, predicate2; auto with word.
  apply forall_below_iff. intros n Hn. unfold wbit, map2_words, bit.
  rewrite Z.lxor_spec. apply lxor_false.
Qed.

Lemma bitmap_intersects_ok l1 l2 bits : bitmap_ok l1 bits -> bitmap_ok l2 bits ->
  decides (__bitmap_intersects l1 l2 bits)
    (exists n, 0 <= n < bits /\ bit l1 n = true /\ bit l2 n = true).
Proof.
  intros H1 H2. eapply decides_iff, wp_decides_any, predicate2; auto with word.
  unfold wbit, map2_words, bit. split; intros (n & Hn & H); exists n; split; auto;
    rewrite Z.land_spec in *; now apply andb_true_iff.
Qed.

Lemma bitmap_subset_ok l1 l2 bits : bitmap_ok l1 bits -> bitmap_ok l2 bits ->
  decides (__bitmap_subset l1 l2 bits)
    (forall n, 0 <= n < bits -> bit l1 n = true -> bit l2 n = true).
Proof.
  intros H1 H2. eapply decides_iff, wp_decides_all, predicate2; auto with word.
  apply forall_below_iff. intros n Hn. unfold wbit, map2_words, bit.
  rewrite Z.land_spec, testbit_lnot32 by auto with word.
  destruct (Z.testbit (at_ 0 l1 _) _), (Z.testbit (at_ 0 l2 _) _); cbn; intuition congruence.
Qed.

(** * The word-wise operations *)

(** [dst'] has the length of [dst], words that fit, and the words [W k] for
    [k] below the number of words of the bitmap. *)
Definition written (dst dst' : list Z) (n : Z) (W : Z -> Z) : Prop :=
  zlen dst' = zlen dst /\ Forall is_u32 dst' /\
  (forall k, 0 <= k < n -> at_ 0 dst' k = W k) /\
  (forall k, n <= k -> at_ 0 dst' k = at_ 0 dst k).

Lemma Forall_insert_u32 l k v : Forall is_u32 l -> is_u32 v -> Forall is_u32 (<[k := v]> l).
Proof. intros. now apply Forall_insert. Qed.
#[export] Hint Resolve Forall_insert_u32 : word.

Lemma written_bit dst dst' bits W n : 0 <= bits ->
  written dst dst' (BITS_TO_LONGS bits) W -> 0 <= n < 32 * BITS_TO_LONGS bits ->
  bit dst' n = wbit W n.
Proof.
  intros Hb (_ & _ & H & _) Hn. unfold bit, wbit. rewrite H; [done|].
  destruct (divmod32 n). destruct (longs_bounds bits Hb). lia.
Qed.

Lemma written_ok dst dst' n W bits : bitmap_ok dst bits -> written dst dst' n W -> bitmap_ok dst' bits.
Proof. intros (H1 & H2 & H3) (E & Hu & _). unfold bitmap_ok. rewrite E. auto. Qed.

(** What an operand denotes before the operation starts. *)
Lemma words_of_step dst dst0 src k n :
  (forall j, n <= j -> at_ 0 dst j = at_ 0 dst0 j) -> n <= k ->
  at_ 0 (words_of dst src) k = at_ 0 (words_of dst0 src) k.
Proof. intros H Hk. destruct src; [apply H; done|done]. Qed.

Lemma zlen_words_of dst dst0 src : zlen dst = zlen dst0 ->
  zlen (words_of dst src) = zlen (words_of dst0 src).
Proof. destruct src; done. Qed.

Lemma combine_words_ok op dst b1 b2 bits :
  bitmap_ok dst bits -> bitmap_ok (words_of dst b1) bits -> bitmap_ok (words_of dst b2) bits ->
  (forall v w, is_u32 v -> is_u32 w -> is_u32 (op v w)) ->
  let W := map2_words op (words_of dst b1) (words_of dst b2) in
  wp (combine_words op dst b1 b2 bits) (fun '(dst', result) =>
    written dst dst' (BITS_TO_LONGS bits) W /\ is_u32 result /\
    (result <> 0 <-> exists n, 0 <= n < 32 * BITS_TO_LONGS bits /\ wbit W n = true)).
Proof.
  intros Hd H1 H2 Hop W. unfold combine_words.
  assert (Hb : 0 <= bits) by (destruct Hd; lia). destruct (longs_bounds bits Hb) as [HL0 HL].
  assert (HW : forall k, 0 <= k < BITS_TO_LONGS bits -> is_u32 (W k)).
  { intros k Hk. apply Hop; eapply bitmap_word; eauto. }
  apply wp_bind. eapply wp_mono.
  { apply (wp_for_up_stay (fun k '(d, result) => written dst d k W /\ is_u32 result /\
      forall i, 0 <= i -> Z.testbit result i = true <->
        exists j, 0 <= j < k /\ Z.testbit (W j) i = true)).
    - cbv beta iota. split; [split; [done|split; [destruct Hd; done|split; [intros; lia|done]]]|].
      split; [unfold is_u32; lia|]. intros i Hi. rewrite Z.testbit_0_l.
      split; [done|]. intros (j & ? & _). lia.
    - intros k [d result] Hk ((Hz & Hu & Hlo & Hhi) & Hr & Hbit).
      rewrite Z2Nat.id in Hk by lia.
      destruct (bitmap_word _ _ k Hd ltac:(lia)) as [Hkd _].
      destruct (bitmap_word _ _ k H1 ltac:(lia)) as [Hk1 _].
      destruct (bitmap_word _ _ k H2 ltac:(lia)) as [Hk2 _].
      cbv beta iota. rewrite !(rd_at 0) by (rewrite (zlen_words_of d dst) by done; done). wp_steps.
      rewrite !(words_of_step d dst _ k k) by (done || lia).
      change (op (at_ 0 (words_of dst b1) k) (at_ 0 (words_of dst b2) k)) with (W k).
      rewrite wr_ok by lia. wp_steps.
      specialize (HW k ltac:(lia)).
      split; [|split; [auto with word|]].
      + split; [now rewrite zlen_insert|]. split; [auto with word|].
        split; intros j Hj; rewrite at_insert by lia; destruct (Z.eqb_spec j k) as [->|]; try lia.
        * apply Hlo. lia.
        * apply Hhi. lia.
      + intros i Hi. rewrite Z.lor_spec, orb_true_iff, Hbit by lia. split.
        * intros [(j & Hj & Bj)|Bk]; [exists j|exists k]; split; auto; lia.
        * intros (j & Hj & Bj). destruct (Z.eq_dec j k) as [->|]; [auto|].
          left. exists j. split; [lia|done]. }
  rewrite Z2Nat.id by lia. intros x H. wp_steps. destruct (fell x) as [d result].
  destruct H as (Hw & Hr & Hbit). split; [done|]. split; [done|]. split.
  - intros Hne. destruct (nonzero_bit32 _ Hr Hne) as (i & Hi & Bi).
    apply Hbit in Bi as (j & Hj & Bj); [|lia]. exists (32 * j + i). split; [lia|].
    rewrite (wbit_word W j) by lia. now replace (32 * j + i - 32 * j) with i by lia.
  - intros (n & Hn & Bn) ->. pose proof (divmod32 n) as [En Rn].
    assert (F : Z.testbit 0 (n mod 32) = true); [|now rewrite Z.testbit_0_l in F].
    apply Hbit; [lia|]. exists (n / 32). split; [lia|done].
Qed.

Lemma bitmap_and_ok dst b1 b2 bits :
  bitmap_ok dst bits -> bitmap_ok (words_of dst b1) bits -> bitmap_ok (words_of dst b2) bits ->
  wp (__bitmap_and dst b1 b2 bits) (fun '(dst', r) => bitmap_ok dst' bits /\
    (forall n, 0 <= n < 32 * BITS_TO_LONGS bits ->
       bit dst' n = bit (words_of dst b1) n && bit (words_of dst b2) n) /\
    r = Z.b2z (negb (r =? 0)) /\
    (r <> 0 <-> exists n, 0 <= n < 32 * BITS_TO_LONGS bits /\ bit dst' n = true)).
Proof.
  intros Hd H1 H2. unfold __bitmap_and. apply wp_bind.
  eapply wp_mono; [apply combine_words_ok; auto with word|].
  intros [d r] (Hw & Hr & Hany). wp_steps. assert (0 <= bits) by (destruct Hd; lia).
  split; [exact (written_ok _ _ _ _ _ Hd Hw)|]. split.
  { intros n Hn. rewrite (written_bit _ _ _ _ _ H Hw Hn). unfold wbit, map2_words. apply Z.land_spec. }
  split; [now destruct (r =? 0)|].
  transitivity (r <> 0); [destruct (Z.eqb_spec r 0); cbn; lia|]. rewrite Hany.
  split; intros (n & Hn & B); exists n; split; auto;
    [rewrite (written_bit _ _ _ _ _ H Hw Hn)|rewrite <- (written_bit _ _ _ _ _ H Hw Hn)]; done.
Qed.

Lemma bitmap_andnot_ok dst b1 b2 bits :
  bitmap_ok dst bits -> bitmap_ok (words_of dst b1) bits -> bitmap_ok (words_of dst b2) bits ->
  wp (__bitmap_andnot dst b1 b2 bits) (fun '(dst', r) => bitmap_ok dst' bits /\
    (forall n, 0 <= n < 32 * BITS_TO_LONGS bits ->
       bit dst' n = bit (words_of dst b1) n && negb (bit (words_of dst b2) n)) /\
    r = Z.b2z (negb (r =? 0)) /\
    (r <> 0 <-> exists n, 0 <= n < 32 * BITS_TO_LONGS bits /\ bit dst' n = true)).
Proof.
  intros Hd H1 H2. unfold __bitmap_andnot. apply wp_bind.
  eapply wp_mono; [apply combine_words_ok; auto with word|].
  intros [d r] (Hw & Hr & Hany). wp_steps. assert (0 <= bits) by (destruct Hd; lia).
  split; [exact (written_ok _ _ _ _ _ Hd Hw)|]. split.
  { intros n Hn. rewrite (written_bit _ _ _ _ _ H Hw Hn). unfold wbit, map2_words.
    rewrite Z.land_spec, testbit_lnot32 by auto with word. done. }
  split; [now destruct (r =? 0)|].
  transitivity (r <> 0); [destruct (Z.eqb_spec r 0); cbn; lia|]. rewrite Hany.
  split; intros (n & Hn & B); exists n; split; auto;
    [rewrite (written_bit _ _ _ _ _ H Hw Hn)|rewrite <- (written_bit _ _ _ _ _ H Hw Hn)]; done.
Qed.

Lemma bitmap_or_ok dst b1 b2 bits :
  bitmap_ok dst bits -> bitmap_ok (words_of dst b1) bits -> bitmap_ok (words_of dst b2) bits ->
  wp (__bitmap_or dst b1 b2 bits) (fun dst' => bitmap_ok dst' bits /\
    forall n, 0 <= n < 32 * BITS_TO_LONGS bits ->
      bit dst' n = bit (words_of dst b1) n || bit (words_of dst b2) n).
Proof.
  intros Hd H1 H2. unfold __bitmap_or. apply wp_bind.
  eapply wp_mono; [apply combine_words_ok; auto with word|].
  intros [d r] (Hw & _). wp_steps. assert (0 <= bits) by (destruct Hd; lia).
  split; [exact (written_ok _ _ _ _ _ Hd Hw)|].
  intros n Hn. rewrite (written_bit _ _ _ _ _ H Hw Hn). unfold wbit, map2_words. apply Z.lor_spec.
Qed.

Lemma bitmap_xor_ok dst b1 b2 bits :
  bitmap_ok dst bits -> bitmap_ok (words_of dst b1) bits -> bitmap_ok (words_of dst b2) bits ->
  wp (__bitmap_xor dst b1 b2 bits) (fun dst' => bitmap_ok dst' bits /\
    forall n, 0 <= n < 32 * BITS_TO_LONGS bits ->
      bit dst' n = xorb (bit (words_of dst b1) n) (bit (words_of dst b2) n)).
Proof.
  intros Hd H1 H2. unfold __bitmap_xor. apply wp_bind.
  eapply wp_mono; [apply combine_words_ok; auto with word|].
  intros [d r] (Hw & _). wp_steps. assert (0 <= bits) by (destruct Hd; lia).
  split; [exact (written_ok _ _ _ _ _ Hd Hw)|].
  intros n Hn. rewrite (written_bit _ _ _ _ _ H Hw Hn). unfold wbit, map2_words. apply Z.lxor_spec.
Qed.

(** * Weight *)

(** Number of set bits below [n]. *)
Fixpoint bcount (l : list Z) (n : nat) : Z :=
  match n with O => 0 | S n' => Z.b2z (bit l (Z.of_nat n')) + bcount l n' end.

Lemma bcount_range l n : 0 <= bcount l n <= Z.of_nat n.
Proof. induction n; cbn [bcount]; [lia|]. destruct (bit l _); cbn [Z.b2z]; lia. Qed.

Lemma bcount_word l k m : (m <= 32)%nat ->
  bcount l (32 * k + m) = popcount m (at_ 0 l (Z.of_nat k)) + bcount l (32 * k).
Proof.
  induction m as [|m IH]; intros Hm; [now rewrite Nat.add_0_r|].
  rewrite Nat.add_succ_r. cbn [bcount popcount]. rewrite IH by lia.
  rewrite (bit_word l (Z.of_nat k)) by lia.
  replace (Z.of_nat (32 * k + m) - 32 * Z.of_nat k) with (Z.of_nat m) by lia. lia.
Qed.

Lemma popcount_mask n m x : (forall i, 0 <= i -> Z.testbit x i = true -> i < Z.of_nat m) ->
  (m <= n)%nat -> popcount n x = popcount m x.
Proof.
  intros H Hle. induction n as [|n IH]; [now replace m with 0%nat by lia|].
  destruct (decide (m = S n)) as [->|]; [done|]. cbn [popcount].
  destruct (Z.testbit x (Z.of_nat n)) eqn:E; [apply H in E; lia|]. cbn [Z.b2z]. rewrite IH; lia.
Qed.

Lemma bitmap_weight_ok l bits : bitmap_ok l bits ->
  __bitmap_weight l bits = Ok (bcount l (Z.to_nat bits)).
Proof.
  intros Hok. pose proof Hok as (Hl & Hb & Hbig). apply wp_eq. unfold __bitmap_weight.
  destruct (longs_bounds bits ltac:(lia)) as [HL0 HL].
  destruct (divmod32 bits) as [Ed Hm]. unfold BITS_PER_LONG.
  set (lim := bits / 32) in *. set (part := bits mod 32) in *. assert (Hlim : 0 <= lim) by lia.
  apply wp_bind. eapply wp_mono.
  { apply (wp_for_up_stay (fun k w => w = bcount l (32 * Z.to_nat k))).
    - done.
    - intros k w Hk ->. rewrite Z2Nat.id in Hk by lia.
      destruct (bitmap_word l bits k Hok ltac:(lia)). rewrite (rd_at 0) by done. wp_steps.
      unfold hweight_long. rewrite hweight32_spec by done.
      replace (32 * Z.to_nat (k + 1))%nat with (32 * Z.to_nat k + 32)%nat by lia.
      rewrite bcount_word by lia. rewrite Z2Nat.id by lia.
      pose proof (bcount_range l (32 * Z.to_nat k)). pose proof (popcount_range 32 (at_ 0 l k)).
      rewrite s32_id by (unfold is_s32; lia). lia. }
  rewrite Z2Nat.id by lia. intros x Hx. rewrite Z.add_0_l in Hx. wp_steps. rewrite Hx. clear x Hx.
  pose proof (bcount_range l (32 * Z.to_nat lim)).
  destruct (Z.eqb_spec part 0) as [E|Hne]; cbn [negb].
  { apply wp_ok. f_equal. lia. }
  destruct (bitmap_word l bits lim Hok ltac:(lia)) as [Hr Hu]. rewrite (rd_at 0) by done. wp_steps.
  unfold hweight_long. rewrite hweight32_spec by auto with word.
  rewrite (popcount_mask 32 (Z.to_nat part)), (popcount_ext _ _ (at_ 0 l lim)); [|..|lia].
  - replace (Z.to_nat bits) with (32 * Z.to_nat lim + Z.to_nat part)%nat by lia.
    rewrite bcount_word, Z2Nat.id by lia. pose proof (popcount_range (Z.to_nat part) (at_ 0 l lim)).
    rewrite s32_id by (unfold is_s32; lia). lia.
  - intros i Hi. rewrite Z.land_spec, last_word_mask by lia. fold part.
    destruct (Z.ltb_spec i part); [|lia]. rewrite orb_true_r. apply andb_true_r.
  - intros i Hi B. rewrite Z.land_spec in B. apply andb_prop in B as [B1 B2].
    destruct (Z.lt_ge_cases i 32) as [H32|H32].
    + rewrite last_word_mask in B2 by lia. fold part in B2.
      destruct (Z.eqb_spec part 0), (Z.ltb_spec i part); cbn in B2; (done || lia).
    + rewrite (testbit_high _ 32) in B1 by (unfold is_u32 in Hu; lia). done.
Qed.

(** * Clearing and complement *)

Lemma memset0_ok l from n : Forall is_u32 l -> 0 <= from -> 0 <= n -> from + n <= zlen l ->
  wp (memset0 l from n) (fun l' => zlen l' = zlen l /\ Forall is_u32 l' /\
    forall k, 0 <= k -> at_ 0 l' k = if (from <=? k) && (k <? from + n) then 0 else at_ 0 l k).
Proof.
  intros Hl Hf Hn Hz. unfold memset0. apply wp_bind. eapply wp_mono.
  { apply (wp_for_up_stay (fun j l' => zlen l' = zlen l /\ Forall is_u32 l' /\
      forall k, 0 <= k -> at_ 0 l' k = if (from <=? k) && (k <? j) then 0 else at_ 0 l k)).
    - split; [done|split; [done|]]. intros k Hk.
      destruct (Z.leb_spec from k), (Z.ltb_spec k from); cbn; (done || lia).
    - intros j l' Hj (E & Hu & H). rewrite Z2Nat.id in Hj by lia. rewrite wr_ok by lia. wp_steps.
      split; [now rewrite zlen_insert|]. split; [apply Forall_insert_u32; [done|unfold is_u32; lia]|].
      intros k Hk. rewrite at_insert, H by lia.
      destruct (Z.eqb_spec k j), (Z.leb_spec from k), (Z.ltb_spec k j), (Z.ltb_spec k (j + 1));
        cbn; (done || lia). }
  rewrite Z2Nat.id by lia. intros x Hx. now wp_steps.
Qed.

Lemma bitmap_zero_ok l bits : bitmap_ok l bits ->
  wp (bitmap_zero l bits) (fun l' => bitmap_ok l' bits /\ zlen l' = zlen l /\
    forall n, 0 <= n < bits -> bit l' n = false).
Proof.
  intros (Hl & Hb & Hbig). destruct (longs_bounds bits ltac:(lia)). unfold bitmap_zero.
  eapply wp_mono; [apply memset0_ok; auto; lia|]. intros l' (E & Hu & H').
  split; [unfold bitmap_ok; rewrite E; auto|]. split; [done|]. intros n Hn. unfold bit.
  destruct (divmod32 n). rewrite H' by lia.
  destruct (Z.leb_spec 0 (n / 32)), (Z.ltb_spec (n / 32) (0 + BITS_TO_LONGS bits)); cbn [andb]; try lia.
  apply Z.testbit_0_l.
Qed.

Lemma bitmap_complement_ok dst src bits :
  bitmap_ok dst bits -> bitmap_ok (words_of dst src) bits ->
  wp (__bitmap_complement dst src bits) (fun dst' => bitmap_ok dst' bits /\
    forall n, 0 <= n < 32 * BITS_TO_LONGS bits ->
      bit dst' n = (n <? bits) && negb (bit (words_of dst src) n)).
Proof.
  intros Hd Hs. pose proof Hd as (Hl & Hb & Hbig). destruct (longs_bounds bits ltac:(lia)) as [HL0 HL].
  unfold __bitmap_complement, BITS_PER_LONG. destruct (divmod32 bits) as [Ed Hm].
  set (lim := bits / 32) in *. set (part := bits mod 32) in *. assert (Hlim : 0 <= lim) by lia.
  apply wp_bind. eapply wp_mono.
  { apply (wp_for_up_stay (fun k d => written dst d k (map_words lnot32 (words_of dst src)))).
    - split; [done|split; [done|split; [intros; lia|done]]].
    - intros k d Hk (Hz & Hu & Hlo & Hhi). rewrite Z2Nat.id in Hk by lia.
      destruct (bitmap_word _ _ k Hs ltac:(lia)) as [Hk1 _].
      rewrite (rd_at 0) by (rewrite (zlen_words_of d dst) by done; done). wp_steps.
      rewrite (words_of_step d dst _ k k) by (done || lia). rewrite wr_ok by lia. wp_steps.
      split; [now rewrite zlen_insert|]. split; [auto with word|].
      split; intros j Hj; rewrite at_insert by lia; destruct (Z.eqb_spec j k) as [->|]; try lia;
        try done; [apply Hlo; lia|apply Hhi; lia]. }
  rewrite Z2Nat.id by lia. intros x Hx. wp_steps. set (d := fell x) in *. clearbody d. clear x.
  rewrite Z.add_0_l in Hx. pose proof Hx as (Hz & Hu & Hlo & Hhi).
  assert (Hfull : forall n, 0 <= n < 32 * lim -> bit d n = negb (bit (words_of dst src) n)).
  { intros n Hn. unfold bit. destruct (divmod32 n). rewrite Hlo by lia. unfold map_words.
    rewrite testbit_lnot32 by lia. done. }
  destruct (Z.eqb_spec part 0) as [E|Hne]; cbn [negb].
  - apply wp_ok. split; [exact (written_ok _ _ _ _ _ Hd Hx)|]. intros n Hn.
    rewrite Hfull by lia. destruct (Z.ltb_spec n bits); [done|lia].
  - destruct (bitmap_word _ _ lim Hs ltac:(lia)) as [Hk1 _].
    rewrite (rd_at 0) by (rewrite (zlen_words_of d dst) by done; done). wp_steps.
    rewrite (words_of_step d dst _ lim lim) by (done || lia). rewrite wr_ok by lia. wp_steps.
    split; [split; [apply Forall_insert_u32; auto with word|rewrite zlen_insert; lia]|].
    intros n Hn. destruct (divmod32 n) as [En Rn].
    unfold bit at 1. rewrite at_insert by lia. destruct (Z.eqb_spec (n / 32) lim) as [El|Hl'].
    + rewrite Z.land_spec, testbit_lnot32, last_word_mask by lia. fold part.
      unfold bit. rewrite El. destruct (Z.eqb_spec part 0); [lia|]. cbn [orb].
      destruct (Z.ltb_spec n bits), (Z.ltb_spec (n mod 32) part); try lia;
        now rewrite ?andb_true_r, ?andb_false_r.
    + destruct (Z.ltb_spec n bits); [|lia]. apply Hfull. lia.
Qed.

(** * Shifts *)

(** The used part of word [k] of a bitmap of [bits] bits. *)
Definition used_word (l : list Z) (bits k : Z) : Z :=
  if negb (bits mod 32 =? 0) && (k =? BITS_TO_LONGS bits - 1)
  then Z.land (at_ 0 l k) (u32 (shl32 1 (bits mod 32) - 1)) else at_ 0 l k.

Lemma used_word_bit l bits k i : bitmap_ok l bits -> 0 <= k < BITS_TO_LONGS bits -> 0 <= i < 32 ->
  Z.testbit (used_word l bits k) i = (32 * k + i <? bits) && bit l (32 * k + i).
Proof.
  intros Hok Hk Hi. assert (Hb : 0 <= bits) by (destruct Hok; lia).
  destruct (longs_bounds bits Hb) as [HL0 HL]. destruct (divmod32 bits) as [Ed Hm].
  rewrite (bit_word l k) by lia. replace (32 * k + i - 32 * k) with i by lia. unfold used_word.
  destruct (Z.eqb_spec (bits mod 32) 0), (Z.eqb_spec k (BITS_TO_LONGS bits - 1)); cbn [negb andb].
  - destruct (Z.ltb_spec (32 * k + i) bits); [done|lia].
  - destruct (Z.ltb_spec (32 * k + i) bits); [done|lia].
  - rewrite Z.land_spec, low_ones by lia. rewrite andb_comm. f_equal.
    destruct (Z.ltb_spec i (bits mod 32)), (Z.ltb_spec (32 * k + i) bits); try lia; done.
  - destruct (Z.ltb_spec (32 * k + i) bits); [done|lia].
Qed.

Lemma used_word_u32 l bits k : bitmap_ok l bits -> 0 <= k < BITS_TO_LONGS bits ->
  is_u32 (used_word l bits k).
Proof.
  intros Hok Hk. destruct (bitmap_word l bits k Hok Hk). unfold used_word.
  destruct (negb _ && _); auto with word.
Qed.

(** The word a right shift stores from the two source words it straddles. *)
Lemma shift_right_word lower upper rem i : 0 <= rem < 32 -> 0 <= i < 32 ->
  is_u32 lower -> is_u32 upper -> (rem = 0 -> upper = 0) ->
  Z.testbit (Z.lor (shl32 upper (32 - rem)) (shr32 lower rem)) i =
  if i + rem <? 32 then Z.testbit lower (i + rem) else Z.testbit upper (i + rem - 32).
Proof.
  intros Hr Hi Hl Hu H0. rewrite Z.lor_spec, testbit_shl32, testbit_shr32 by lia.
  replace (i - (32 - rem)) with (i + rem - 32) by lia.
  destruct (Z.ltb_spec (i + rem) 32).
  - now rewrite (Z.testbit_neg_r upper) by lia.
  - rewrite (testbit_high lower 32) by (unfold is_u32 in Hl; lia). apply orb_false_r.
Qed.

Lemma shift_left_word lower upper rem i : 0 <= rem < 32 -> 0 <= i < 32 ->
  is_u32 lower -> is_u32 upper -> (rem = 0 -> lower = 0) ->
  Z.testbit (Z.lor (shr32 lower (32 - rem)) (shl32 upper rem)) i =
  if rem <=? i then Z.testbit upper (i - rem) else Z.testbit lower (i - rem + 32).
Proof.
  intros Hr Hi Hl Hu H0. rewrite Z.lor_spec, testbit_shl32, testbit_shr32 by lia.
  replace (i + (32 - rem)) with (i - rem + 32) by lia.
  destruct (Z.leb_spec rem i).
  - now rewrite (testbit_high lower 32) by (unfold is_u32 in Hl; lia).
  - rewrite (Z.testbit_neg_r upper) by lia. apply orb_false_r.
Qed.

(** * Properties *)

(** the five bitmap predicates answer 1 or 0 according to the set-theoretic
    relation between the bits below the size; the unused bits of the last
    word, whatever they hold, do not influence the answer.
    __bitmap_weight counts the set bits below the size. *)
Lemma bitmap_queries_fact l1 l2 bits :
  bitmap_ok l1 bits -> bitmap_ok l2 bits ->
  decides (__bitmap_empty l1 bits) (forall n, 0 <= n < bits -> bit l1 n = false) /\
  decides (__bitmap_full l1 bits) (forall n, 0 <= n < bits -> bit l1 n = true) /\
  decides (__bitmap_equal l1 l2 bits) (forall n, 0 <= n < bits -> bit l1 n = bit l2 n) /\
  decides (__bitmap_intersects l1 l2 bits)
    (exists n, 0 <= n < bits /\ bit l1 n = true /\ bit l2 n = true) /\
  decides (__bitmap_subset l1 l2 bits)
    (forall n, 0 <= n < bits -> bit l1 n = true -> bit l2 n = true) /\
  __bitmap_weight l1 bits = Ok (bcount l1 (Z.to_nat bits)).
Proof.
  intros H1 H2. split; [now apply bitmap_empty_ok|]. split; [now apply bitmap_full_ok|].
  split; [now apply bitmap_equal_ok|]. split; [now apply bitmap_intersects_ok|]. split; [now apply bitmap_subset_ok|now apply bitmap_weight_ok].
Qed.

(** and, or, xor, andnot and complement compute the bitwise operation of
    their operands as they were on entry, also when the destination is one of
    the operands; and/andnot report whether the result has a bit set, and
    complement clears the unused bits. *)
Lemma bitmap_operations_fact dst b1 b2 bits :
  bitmap_ok dst bits -> bitmap_ok (words_of dst b1) bits -> bitmap_ok (words_of dst b2) bits ->
  let x := bit (words_of dst b1) in
  let y := bit (words_of dst b2) in
  let all := fun d f => bitmap_ok d bits /\ forall n, 0 <= n < 32 * BITS_TO_LONGS bits -> bit d n = f n in
  let any := fun d (r : Z) => (r = 0 \/ r = 1) /\
    (r <> 0 <-> exists n, 0 <= n < 32 * BITS_TO_LONGS bits /\ bit d n = true) in
  (exists d r, __bitmap_and dst b1 b2 bits = Ok (d, r) /\ all d (fun n => x n && y n) /\ any d r) /\
  (exists d r, __bitmap_andnot dst b1 b2 bits = Ok (d, r) /\ all d (fun n => x n && negb (y n)) /\ any d r) /\
  (exists d, __bitmap_or dst b1 b2 bits = Ok d /\ all d (fun n => x n || y n)) /\
  (exists d, __bitmap_xor dst b1 b2 bits = Ok d /\ all d (fun n => xorb (x n) (y n))) /\
  (exists d, __bitmap_complement dst b1 bits = Ok d /\ all d (fun n => (n <? bits) && negb (x n))).
Proof.
  intros Hd H1 H2 x y all any.
  assert (Hany : forall r : Z, r = Z.b2z (negb (r =? 0)) -> r = 0 \/ r = 1)
    by (intros r; destruct (r =? 0); cbn; lia).
  split; [|split; [|split; [|split]]].
  - destruct (proj1 (wp_exists _ _) (bitmap_and_ok dst b1 b2 bits Hd H1 H2)) as ([d r] & -> & A & B & C & D).
    exists d, r. split; [done|]. split; [split; done|]. split; [auto|done].
  - destruct (proj1 (wp_exists _ _) (bitmap_andnot_ok dst b1 b2 bits Hd H1 H2)) as ([d r] & -> & A & B & C & D).
    exists d, r. split; [done|]. split; [split; done|]. split; [auto|done].
  - destruct (proj1 (wp_exists _ _) (bitmap_or_ok dst b1 b2 bits Hd H1 H2)) as (d & -> & A).
    now exists d.
  - destruct (proj1 (wp_exists _ _) (bitmap_xor_ok dst b1 b2 bits Hd H1 H2)) as (d & -> & A).
    now exists d.
  - destruct (proj1 (wp_exists _ _) (bitmap_complement_ok dst b1 bits Hd H1)) as (d & -> & A).
    now exists d.
Qed.
