(* ===== verification/BitmapShift.v ===== *)
(** The shifts of lib/bitmap.c move every bit by the same distance, feed
    zeros, and leave the unused bits clear, in place or from another bitmap. *)
From S2P Require Import Prelude.
From S2P Require Import Bits.
From S2P Require Import FindBit.
From S2P Require Import Bitmap.
From S2P Require Import BitmapFacts.

Lemma bool_swap (a b : bool) {A} (x y : A) : (if a && b then x else y) = (if b && a then x else y).
Proof. now rewrite andb_comm. Qed.

Section Shift.
Context (dst : list Z) (src : operand) (shift bits : Z).
Let S := words_of dst src.
Let lim := BITS_TO_LONGS bits.
Let off := shift / 32.
Let rem := shift mod 32.
Hypothesis dst_ok : bitmap_ok dst bits.
Hypothesis src_ok : bitmap_ok S bits.
Hypothesis shift_ok : 0 <= shift /\ shift / 32 <= BITS_TO_LONGS bits.

Lemma shift_facts : 0 <= bits /\ shift = 32 * off + rem /\ 0 <= rem < 32 /\ 0 <= off <= lim /\
  bits <= 32 * lim < bits + 32 /\ lim <= zlen dst /\ lim <= zlen S.
Proof.
  assert (0 <= bits) by (destruct dst_ok; lia). destruct (longs_bounds bits H) as [? ?].
  destruct (divmod32 shift). unfold off, rem, lim. destruct dst_ok as (_ & ? & _).
  destruct src_ok as (_ & ? & _). repeat split; try lia.
Qed.

(** A destination whose words below [k] satisfy [tgt] and whose words from
    [k] up are still those of [dst]. *)
Definition partly (tgt : Z -> bool) (lo hi : Z) (d : list Z) : Prop :=
  zlen d = zlen dst /\ Forall is_u32 d /\
  (forall n, 32 * lo <= n < 32 * hi -> bit d n = tgt n) /\
  (forall k, 0 <= k -> ~ (lo <= k < hi) -> at_ 0 d k = at_ 0 dst k).

Lemma partly_bits tgt lo hi d k v : partly tgt lo hi d -> 0 <= lo -> 0 <= k < zlen dst -> is_u32 v ->
  (forall i, 0 <= i < 32 -> Z.testbit v i = tgt (32 * k + i)) ->
  forall n, 32 * lo <= n < 32 * hi \/ 32 * k <= n < 32 * k + 32 ->
    bit (<[Z.to_nat k := v]> d) n = tgt n.
Proof.
  intros (E & Hu & Hb & _) Hlo Hk Hv Ht n Hn. unfold bit. destruct (divmod32 n) as [En Rn].
  rewrite at_insert by lia. destruct (Z.eqb_spec (n / 32) k) as [Ek|Hne].
  - rewrite Ht by lia. f_equal. lia.
  - apply Hb. lia.
Qed.

Lemma partly_up tgt k d v : partly tgt 0 k d -> 0 <= k < zlen dst -> is_u32 v ->
  (forall i, 0 <= i < 32 -> Z.testbit v i = tgt (32 * k + i)) ->
  partly tgt 0 (k + 1) (<[Z.to_nat k := v]> d).
Proof.
  intros Hp Hk Hv Ht. pose proof Hp as (E & Hu & Hb & Hr).
  split; [now rewrite zlen_insert|]. split; [auto with word|]. split.
  - intros n Hn. apply (partly_bits tgt 0 k); auto; lia.
  - intros j Hj Hout. rewrite at_insert by lia. destruct (Z.eqb_spec j k); [lia|]. apply Hr; lia.
Qed.

Lemma partly_down tgt hi k d v : partly tgt (k + 1) hi d -> 0 <= k < zlen dst -> k < hi ->
  is_u32 v -> (forall i, 0 <= i < 32 -> Z.testbit v i = tgt (32 * k + i)) ->
  partly tgt k hi (<[Z.to_nat k := v]> d).
Proof.
  intros Hp Hk Hlt Hv Ht. pose proof Hp as (E & Hu & Hb & Hr).
  split; [now rewrite zlen_insert|]. split; [auto with word|]. split.
  - intros n Hn. apply (partly_bits tgt (k + 1) hi); auto; lia.
  - intros j Hj Hout. rewrite at_insert by lia. destruct (Z.eqb_spec j k); [lia|]. apply Hr; lia.
Qed.

(** What the operand holds where the destination is untouched. *)
Lemma operand_untouched tgt lo hi d k : partly tgt lo hi d -> 0 <= k -> ~ (lo <= k < hi) ->
  zlen (words_of d src) = zlen S /\ at_ 0 (words_of d src) k = at_ 0 S k.
Proof.
  intros (E & _ & _ & Hr) Hk Hout. split; [now apply zlen_words_of|].
  unfold S. destruct src; [|done]. now apply Hr.
Qed.

(** Storing a word, and masking it again when it is the last one. *)
Lemma store_masked d k v (Q : list Z -> Prop) :
  0 <= k < lim -> zlen d = zlen dst -> is_u32 v ->
  (forall v', is_u32 v' ->
     (forall i, 0 <= i < 32 -> Z.testbit v' i = (32 * k + i <? bits) && Z.testbit v i) ->
     Q (<[Z.to_nat k := v']> d)) ->
  wp (d' ← wr d k v;
      if negb (bits mod 32 =? 0) && (k =? lim - 1) then
        w ← rd d' k; wr d' k (Z.land w (u32 (shl32 1 (bits mod 32) - 1)))
      else Ok d') Q.
Proof.
  intros Hk E Hv HQ. destruct shift_facts as (Hb & _ & _ & _ & HL & Hz & _).
  rewrite wr_ok by lia. wp_steps. destruct (divmod32 bits) as [Eb Rb].
  destruct (Z.eqb_spec (bits mod 32) 0), (Z.eqb_spec k (lim - 1)); cbn [negb andb].
  1, 2, 4: apply wp_ok, HQ; [done|]; intros i Hi;
    destruct (Z.ltb_spec (32 * k + i) bits); [done|lia].
  rewrite (rd_at 0) by (rewrite zlen_insert; lia). wp_steps.
  rewrite at_insert by lia. rewrite Z.eqb_refl, wr_ok by (rewrite zlen_insert; lia).
  apply wp_ok. rewrite list_insert_insert_eq. apply HQ; [auto with word|].
  intros i Hi. rewrite Z.land_spec, low_ones, andb_comm by lia. f_equal.
  destruct (Z.ltb_spec i (bits mod 32)), (Z.ltb_spec (32 * k + i) bits); lia || done.
Qed.

(** Finishing with a memset of whole words outside the part written. *)
Lemma clear_words tgt lo hi d from n : partly tgt lo hi d -> 0 <= lo -> 0 <= from -> 0 <= n ->
  from + n <= lim -> (from + n = lo /\ hi = lim /\ from = 0 \/ from = hi /\ lo = 0 /\ from + n = lim) ->
  (forall j, 32 * from <= j < 32 * (from + n) -> tgt j = false) ->
  wp (memset0 d from n) (partly tgt 0 lim).
Proof.
  intros (E & Hu & Hb & Hr) Hlo Hf Hn Hle Hcov Hz.
  destruct shift_facts as (Hb0 & _ & _ & _ & HL & Hzl & _).
  eapply wp_mono; [apply memset0_ok; auto; lia|]. intros d' (E' & Hu' & H').
  split; [lia|split; [done|split]].
  - intros j Hj. unfold bit. destruct (divmod32 j) as [Ej Rj]. rewrite H' by lia.
    destruct (Z.leb_spec from (j / 32)), (Z.ltb_spec (j / 32) (from + n)); cbn [andb].
    + rewrite Z.testbit_0_l. symmetry. apply Hz. lia.
    + apply Hb. lia.
    + apply Hb. lia.
    + apply Hb. lia.
  - intros k Hk Hout. rewrite H' by lia.
    destruct (Z.leb_spec from k), (Z.ltb_spec k (from + n)); cbn [andb]; try lia; apply Hr; lia.
Qed.

Definition right_of (n : Z) : bool := (n + shift <? bits) && bit S (n + shift).
Definition left_of (n : Z) : bool := (shift <=? n) && (n <? bits) && bit S (n - shift).

Lemma shift_right_partly : wp (__bitmap_shift_right dst src shift bits) (partly right_of 0 lim).
Proof.
  destruct shift_facts as (Hb0 & Es & Hrem & Hoff & HL & Hzl & HzS).
  unfold __bitmap_shift_right, BITS_PER_LONG. fold lim off rem.
  apply wp_bind. eapply wp_mono.
  { apply (wp_for_up_stay (partly right_of 0)).
    - split; [done|split; [destruct dst_ok; done|split; [intros; lia|done]]].
    - intros k d Hk Hp. rewrite Z2Nat.id in Hk by lia.
      pose proof Hp as (E & Hu & _ & _).
      set (U := if (rem =? 0) || (lim <=? off + k + 1) then 0 else used_word S bits (off + k + 1)).
      assert (HU : is_u32 U).
      { unfold U. destruct (rem =? 0); cbn [orb]; [unfold is_u32; lia|].
        destruct (Z.leb_spec lim (off + k + 1)); [unfold is_u32; lia|].
        apply used_word_u32; [done|lia]. }
      apply wp_bind. apply (wp_mono _ (fun u => u = U)).
      { unfold U. destruct ((rem =? 0) || (lim <=? off + k + 1)) eqn:C; [done|].
        apply orb_false_iff in C as [_ C]. apply Z.leb_gt in C.
        destruct (operand_untouched _ _ _ _ (off + k + 1) Hp ltac:(lia) ltac:(lia)) as [Ez Ea].
        rewrite (rd_at 0) by lia. wp_steps. rewrite Ea. unfold used_word. fold lim. apply bool_swap. }
      intros u ->. apply wp_bind.
      destruct (operand_untouched _ _ _ _ (off + k) Hp ltac:(lia) ltac:(lia)) as [Ez Ea].
      rewrite (rd_at 0) by lia. apply wp_ok. cbv zeta. rewrite Ea.
      change (if _ && (off + k =? lim - 1) then _ else _) with (used_word S bits (off + k)).
      pose proof (used_word_u32 S bits (off + k) src_ok ltac:(lia)) as HL'.
      apply store_masked; [lia|done|auto with word|]. intros v Hv Hbits.
      apply partly_up; auto; [lia|]. intros i Hi. rewrite Hbits by done.
      rewrite shift_right_word; auto;
        [|intros E0; unfold U; destruct (Z.eqb_spec rem 0); [done|lia]].
      unfold right_of. replace (32 * k + i + shift) with (32 * (off + k) + (i + rem)) by lia.
      destruct (Z.ltb_spec (32 * k + i) bits); cbn [andb];
        [|destruct (Z.ltb_spec (32 * (off + k) + (i + rem)) bits); [lia|done]].
      destruct (Z.ltb_spec (i + rem) 32).
      + apply used_word_bit; [done|lia|lia].
      + unfold U. destruct (Z.eqb_spec rem 0); [lia|]. cbn [orb].
        destruct (Z.leb_spec lim (off + k + 1)).
        * rewrite Z.testbit_0_l. destruct (Z.ltb_spec (32 * (off + k) + (i + rem)) bits); [lia|done].
        * rewrite used_word_bit by (done || lia).
          now replace (32 * (off + k + 1) + (i + rem - 32)) with (32 * (off + k) + (i + rem)) by lia. }
  rewrite Z2Nat.id, Z.add_0_l by lia. intros x Hx. wp_steps.
  assert (Hrest : forall j, 32 * (lim - off) <= j -> right_of j = false).
  { intros j Hj. unfold right_of. destruct (Z.ltb_spec (j + shift) bits); [lia|done]. }
  destruct (Z.eqb_spec off 0) as [E|Hne]; cbn [negb].
  - apply wp_ok. now replace (lim - off) with lim in Hx by lia.
  - apply (clear_words _ 0 (lim - off)); auto; try lia. intros; apply Hrest; lia.
Qed.

Lemma shift_left_partly : wp (__bitmap_shift_left dst src shift bits) (partly left_of 0 lim).
Proof.
  destruct shift_facts as (Hb0 & Es & Hrem & Hoff & HL & Hzl & HzS).
  unfold __bitmap_shift_left, BITS_PER_LONG. fold lim off rem.
  apply wp_bind. eapply wp_mono.
  { apply (wp_for_down_stay (fun k => partly left_of (k + off) lim)).
    - split; [done|split; [destruct dst_ok; done|split; [intros; lia|done]]].
    - intros k d Hk Hp. rewrite Z2Nat.id in Hk by lia.
      pose proof Hp as (E & Hu & _ & _).
      set (L := if negb (rem =? 0) && (0 <? k) then at_ 0 S (k - 1) else 0).
      assert (HL' : is_u32 L).
      { unfold L. destruct (negb (rem =? 0)); cbn [andb]; [|unfold is_u32; lia].
        destruct (Z.ltb_spec 0 k); [|unfold is_u32; lia].
        apply (bitmap_word S bits (k - 1)); [done|]. fold lim. lia. }
      apply wp_bind. apply (wp_mono _ (fun u => u = L)).
      { unfold L. destruct (negb (rem =? 0) && (0 <? k)) eqn:C; [|done].
        apply andb_prop in C as [_ C]. apply Z.ltb_lt in C.
        destruct (operand_untouched _ _ _ _ (k - 1) Hp ltac:(lia) ltac:(lia)) as [Ez Ea].
        rewrite (rd_at 0) by lia. now apply wp_ok. }
      intros u ->. apply wp_bind.
      destruct (operand_untouched _ _ _ _ k Hp ltac:(lia) ltac:(lia)) as [Ez Ea].
      rewrite (rd_at 0) by lia. apply wp_ok. cbv zeta. rewrite Ea.
      change (if _ && (k =? lim - 1) then _ else _) with (used_word S bits k).
      pose proof (used_word_u32 S bits k src_ok ltac:(fold lim; lia)) as HU.
      apply store_masked; [lia|done|auto with word|]. intros v Hv Hbits.
      replace (k + 1 + off) with (k + off + 1) in Hp by lia.
      apply partly_down; auto; [lia|lia|]. intros i Hi. rewrite Hbits by done.
      rewrite shift_left_word; auto;
        [|intros E0; unfold L; destruct (Z.eqb_spec rem 0); [done|lia]].
      unfold left_of. replace (32 * (k + off) + i - shift) with (32 * k + (i - rem)) by lia.
      destruct (Z.ltb_spec (32 * (k + off) + i) bits); [|now rewrite andb_false_r].
      rewrite andb_true_r, andb_true_l.
      destruct (Z.leb_spec rem i).
      + rewrite used_word_bit by (fold lim; done || lia).
        destruct (Z.ltb_spec (32 * k + (i - rem)) bits), (Z.leb_spec shift (32 * (k + off) + i));
          lia || done.
      + unfold L. destruct (Z.eqb_spec rem 0); [lia|]. cbn [negb andb].
        destruct (Z.ltb_spec 0 k).
        * destruct (Z.leb_spec shift (32 * (k + off) + i)); [|lia]. cbn [andb].
          rewrite (bit_word S (k - 1)) by lia. f_equal. lia.
        * rewrite Z.testbit_0_l. destruct (Z.leb_spec shift (32 * (k + off) + i)); [lia|done]. }
  rewrite Z.add_0_l. intros x Hx. wp_steps.
  assert (Hrest : forall j, j < 32 * off -> left_of j = false).
  { intros j Hj. unfold left_of. destruct (Z.leb_spec shift j); [lia|done]. }
  destruct (Z.eqb_spec off 0) as [E|Hne]; cbn [negb].
  - apply wp_ok. now rewrite E in Hx.
  - apply (clear_words _ off lim); auto; try lia. intros; apply Hrest; lia.
Qed.
End Shift.

Lemma partly_ok dst tgt bits d : bitmap_ok dst bits -> partly dst tgt 0 (BITS_TO_LONGS bits) d ->
  bitmap_ok d bits /\ zlen d = zlen dst /\
  (forall n, 0 <= n < 32 * BITS_TO_LONGS bits -> bit d n = tgt n).
Proof.
  intros (_ & H2 & H3) (E & Hu & Hb & _). split; [unfold bitmap_ok; rewrite E; auto|].
  split; [done|]. intros n Hn. apply Hb. lia.
Qed.

Lemma bitmap_shift_right_ok dst src shift bits :
  bitmap_ok dst bits -> bitmap_ok (words_of dst src) bits ->
  0 <= shift -> shift / 32 <= BITS_TO_LONGS bits ->
  wp (__bitmap_shift_right dst src shift bits) (fun dst' => bitmap_ok dst' bits /\ zlen dst' = zlen dst /\
    forall n, 0 <= n < 32 * BITS_TO_LONGS bits ->
      bit dst' n = (n + shift <? bits) && bit (words_of dst src) (n + shift)).
Proof.
  intros H1 H2 H3 H4. eapply wp_mono; [now apply shift_right_partly|]. intros d. now apply partly_ok.
Qed.

Lemma bitmap_shift_left_ok dst src shift bits :
  bitmap_ok dst bits -> bitmap_ok (words_of dst src) bits ->
  0 <= shift -> shift / 32 <= BITS_TO_LONGS bits ->
  wp (__bitmap_shift_left dst src shift bits) (fun dst' => bitmap_ok dst' bits /\ zlen dst' = zlen dst /\
    forall n, 0 <= n < 32 * BITS_TO_LONGS bits ->
      bit dst' n = (shift <=? n) && (n <? bits) && bit (words_of dst src) (n - shift)).
Proof.
  intros H1 H2 H3 H4. eapply wp_mono; [now apply shift_left_partly|]. intros d. now apply partly_ok.
Qed.

(** * Properties *)

(** __bitmap_shift_right and __bitmap_shift_left move bit [n + shift] to
    [n], respectively bit [n - shift] to [n], for every position of the
    bitmap's words; bits that leave [0, bits) are lost, zeros are fed in, and
    the result's unused bits are clear.  The same holds in place. *)
Lemma bitmap_shifts_fact dst src shift bits :
  bitmap_ok dst bits -> bitmap_ok (words_of dst src) bits ->
  0 <= shift -> shift / 32 <= BITS_TO_LONGS bits ->
  exists r l, __bitmap_shift_right dst src shift bits = Ok r /\
    __bitmap_shift_left dst src shift bits = Ok l /\
    bitmap_ok r bits /\ bitmap_ok l bits /\
    forall n, 0 <= n < 32 * BITS_TO_LONGS bits ->
      bit r n = (n + shift <? bits) && bit (words_of dst src) (n + shift) /\
      bit l n = (shift <=? n) && (n <? bits) && bit (words_of dst src) (n - shift).
Proof.
  intros H1 H2 H3 H4.
  destruct (proj1 (wp_exists _ _) (bitmap_shift_right_ok dst src shift bits H1 H2 H3 H4))
    as (r & -> & A & _ & B).
  destruct (proj1 (wp_exists _ _) (bitmap_shift_left_ok dst src shift bits H1 H2 H3 H4))
    as (l & -> & C & _ & D).
  exists r, l. repeat split; try apply A; try apply C; auto.
Qed.

(** the bitmap predicates answer 1 or 0 according to the set-theoretic
    relation between the bits below the size, whatever the unused bits of the last
    word hold, and __bitmap_weight counts the set bits; and, or, xor, andnot and
    complement compute the bitwise operation of their operands as they were on
    entry, also when the destination is one of the operands, and/andnot report
    whether the result has a bit set, and complement clears the unused bits.
    __bitmap_shift_right and __bitmap_shift_left move bit [n + shift] to [n],
    respectively bit [n - shift] to [n], for every position of the bitmap's words;
    bits that leave [0, bits) are lost, zeros are fed in, and the result's unused
    bits are clear. The same holds in place. *)
Lemma bitmap_operations_facts :
  ((forall l1 l2 bits,
    bitmap_ok l1 bits -> bitmap_ok l2 bits ->
    decides (__bitmap_empty l1 bits) (forall n, 0 <= n < bits -> bit l1 n = false) /\
    decides (__bitmap_full l1 bits) (forall n, 0 <= n < bits -> bit l1 n = true) /\
    decides (__bitmap_equal l1 l2 bits) (forall n, 0 <= n < bits -> bit l1 n = bit l2 n) /\
    decides (__bitmap_intersects l1 l2 bits)
      (exists n, 0 <= n < bits /\ bit l1 n = true /\ bit l2 n = true) /\
    decides (__bitmap_subset l1 l2 bits)
      (forall n, 0 <= n < bits -> bit l1 n = true -> bit l2 n = true) /\
    __bitmap_weight l1 bits = Ok (bcount l1 (Z.to_nat bits))) /\
   (forall dst b1 b2 bits,
    bitmap_ok dst bits -> bitmap_ok (words_of dst b1) bits -> bitmap_ok (words_of dst b2) bits ->
    let x := bit (words_of dst b1) in
    let y := bit (words_of dst b2) in
    let all := fun d f => bitmap_ok d bits /\ forall n, 0 <= n < 32 * BITS_TO_LONGS bits -> bit d n = f n in
    let any := fun d (r : Z) => (r = 0 \/ r = 1) /\
      (r <> 0 <-> exists n, 0 <= n < 32 * BITS_TO_LONGS bits /\ bit d n = true) in
    (exists d r, __bitmap_and dst b1 b2 bits = Ok (d, r) /\ all d (fun n => x n && y n) /\ any d r) /\
    (exists d r, __bitmap_andnot dst b1 b2 bits = Ok (d, r) /\ all d (fun n => x n && negb (y n)) /\ any d r) /\
    (exists d, __bitmap_or dst b1 b2 bits = Ok d /\ all d (fun n => x n || y n)) /\
    (exists d, __bitmap_xor dst b1 b2 bits = Ok d /\ all d (fun n => xorb (x n) (y n))) /\
    (exists d, __bitmap_complement dst b1 bits = Ok d /\ all d (fun n => (n <? bits) && negb (x n))))) /\
  (forall dst src shift bits,
   bitmap_ok dst bits -> bitmap_ok (words_of dst src) bits ->
   0 <= shift -> shift / 32 <= BITS_TO_LONGS bits ->
   exists r l, __bitmap_shift_right dst src shift bits = Ok r /\
     __bitmap_shift_left dst src shift bits = Ok l /\
     bitmap_ok r bits /\ bitmap_ok l bits /\
     forall n, 0 <= n < 32 * BITS_TO_LONGS bits ->
       bit r n = (n + shift <? bits) && bit (words_of dst src) (n + shift) /\
       bit l n = (shift <=? n) && (n <? bits) && bit (words_of dst src) (n - shift)).
Proof. split; [split; [exact bitmap_queries_fact|exact bitmap_operations_fact]|]. exact bitmap_shifts_fact. Qed.
