(* ===== verification/BitmapRegion.v ===== *)
(** The region allocator of lib/bitmap.c: aligned power-of-two runs of bits. *)
From S2P Require Import Prelude.
From S2P Require Import Bits.
From S2P Require Import FindBit.
From S2P Require Import Bitmap.
From S2P Require Import BitmapFacts.
From S2P Require Import BitmapShift.

(** [pos] starts a region of order [order] inside the bitmap [l]. *)
Definition region_ok (l : list Z) (pos order : Z) : Prop :=
  Forall is_u32 l /\ 0 <= order < 31 /\ 0 <= pos /\ pos mod 2 ^ order = 0 /\
  pos + 2 ^ order <= 32 * zlen l.

Definition in_region (pos order n : Z) : bool := (pos <=? n) && (n <? pos + 2 ^ order).

Definition region_free (l : list Z) (pos order : Z) : Prop :=
  forall n, pos <= n < pos + 2 ^ order -> bit l n = false.

Lemma region_small pos n pq pr nq nr sz :
  pos = 32 * pq + pr -> 0 <= pr -> n = 32 * nq + nr -> 0 <= nr < 32 -> 0 < sz -> pr + sz <= 32 ->
  (pos <= n < pos + sz <-> (pq <= nq /\ nq < pq + 1) /\ pr <= nr /\ nr < pr + sz).
Proof. lia. Qed.

Lemma region_large pos n pq nq nr k :
  pos = 32 * pq -> n = 32 * nq + nr -> 0 <= nr < 32 ->
  (pos <= n < pos + 32 * k <-> (pq <= nq /\ nq < pq + k) /\ 0 <= nr /\ nr < 0 + 32).
Proof. lia. Qed.

Section RegOp.
Context (pos order : Z).
Hypothesis order_ok : 0 <= order < 31.
Hypothesis pos_ok : 0 <= pos /\ pos mod 2 ^ order = 0.

Let nbits_reg := s32 (Z.shiftl 1 order).
Let index := pos / BITS_PER_LONG.
Let offset := pos - index * BITS_PER_LONG.
Let nlongs_reg := BITS_TO_LONGS nbits_reg.
Let nbitsinlong := Z.min nbits_reg BITS_PER_LONG.
Let mask0 := shl32 1 (nbitsinlong - 1).
Let mask := shl32 (u32 (mask0 + (mask0 - 1))) offset.

Lemma nbits_reg_pow : nbits_reg = 2 ^ order.
Proof.
  unfold nbits_reg. rewrite Z.shiftl_1_l. apply s32_id. unfold is_s32.
  assert (2 ^ order < 2 ^ 31) by (apply Z.pow_lt_mono_r; lia). lia.
Qed.

Lemma mask0_ones nb : 0 < nb <= 32 ->
  u32 (shl32 1 (nb - 1) + (shl32 1 (nb - 1) - 1)) = 2 ^ nb - 1.
Proof.
  intros Hnb. unfold shl32. rewrite Z.shiftl_1_l.
  assert (E : 2 ^ nb = 2 * 2 ^ (nb - 1)) by (rewrite <- Z.pow_succ_r by lia; f_equal; lia).
  assert (2 ^ nb <= 2 ^ 32) by (apply Z.pow_le_mono_r; lia).
  assert (0 < 2 ^ (nb - 1)) by lia.
  rewrite (u32_id (2 ^ (nb - 1))) by (unfold is_u32; lia).
  rewrite u32_id by (unfold is_u32; lia). lia.
Qed.

Lemma mask_bit i : 0 <= i < 32 ->
  Z.testbit mask i = (offset <=? i) && (i <? offset + nbitsinlong).
Proof.
  intros Hi. assert (0 < 2 ^ order) by lia.
  unfold mask, mask0. rewrite mask0_ones
    by (unfold nbitsinlong, BITS_PER_LONG; rewrite nbits_reg_pow; lia).
  assert (0 <= nbitsinlong) by (unfold nbitsinlong, BITS_PER_LONG; rewrite nbits_reg_pow; lia).
  rewrite testbit_shl32 by done.
  destruct (Z.leb_spec offset i); cbn [andb].
  - rewrite testbit_ones_full by lia.
    destruct (Z.ltb_spec (i - offset) nbitsinlong), (Z.ltb_spec i (offset + nbitsinlong)); lia || done.
  - now rewrite Z.testbit_neg_r by lia.
Qed.

Lemma reg_shape : 0 <= nlongs_reg /\ 0 <= index /\
  32 * (index + nlongs_reg) <= pos + 2 ^ order + 31 /\
  forall n, 0 <= n ->
    in_region pos order n =
    (index <=? n / 32) && (n / 32 <? index + nlongs_reg) && Z.testbit mask (n mod 32).
Proof.
  destruct pos_ok as [Hp Ha]. destruct (divmod32 pos) as [Ep Rp].
  assert (Eo : offset = pos mod 32) by (unfold offset, index, BITS_PER_LONG; lia).
  assert (Ei : index = pos / 32) by done.
  assert (Hsplit : pos = 2 ^ order * (pos / 2 ^ order)) by (apply Z_div_exact_full_2; lia).
  set (c := pos / 2 ^ order) in Hsplit.
  assert (Hcase : (order < 5 /\ nlongs_reg = 1 /\ nbitsinlong = 2 ^ order /\ offset + 2 ^ order <= 32)
    \/ (5 <= order /\ offset = 0 /\ nbitsinlong = 32 /\ 32 * nlongs_reg = 2 ^ order)).
  { destruct (Z.lt_ge_cases order 5) as [Hlt|Hge]; [left|right].
    - unfold nlongs_reg, nbitsinlong. rewrite nbits_reg_pow, Eo.
      assert (order = 0 \/ order = 1 \/ order = 2 \/ order = 3 \/ order = 4) as Hc by lia.
      unfold BITS_TO_LONGS, BITS_PER_LONG. clearbody c. clear -Hsplit Hc Ep Rp.
      destruct Hc as [->|[->|[->|[->| ->]]]];
        (split; [lia|split; [reflexivity|split; [reflexivity|]]]); cbn in Hsplit |- *; lia.
    - assert (Eq : 2 ^ order = 32 * 2 ^ (order - 5)).
      { change 32 with (2 ^ 5). rewrite <- Z.pow_add_r by lia. f_equal. lia. }
      assert (0 < 2 ^ (order - 5)) by lia.
      unfold nlongs_reg, nbitsinlong. rewrite nbits_reg_pow, Eo.
      split; [done|]. split; [rewrite Eq in Hsplit; lia|]. split; [unfold BITS_PER_LONG; lia|].
      unfold BITS_TO_LONGS, BITS_PER_LONG. rewrite Eq.
      destruct (longs_bounds (32 * 2 ^ (order - 5)) ltac:(lia)) as [_ Hl].
      unfold BITS_TO_LONGS, BITS_PER_LONG in Hl. lia. }
  assert (0 < 2 ^ order) by lia. rewrite Ei.
  split; [lia|]. split; [lia|]. split; [lia|].
  intros n Hn. destruct (divmod32 n) as [En Rn]. rewrite mask_bit by lia. unfold in_region.
  apply eq_bool_prop_intro. rewrite !Is_true_true, !andb_true_iff, !Z.leb_le, !Z.ltb_lt.
  destruct Hcase as [(? & E1 & E2 & ?)|(? & E1 & E2 & E3)]; rewrite E1, E2.
  - rewrite Eo in *. apply region_small; auto; lia.
  - rewrite <- E3. apply region_large; auto. lia.
Qed.

Section Loops.
Context (l : list Z).
Hypothesis l_ok : Forall is_u32 l /\ pos + 2 ^ order <= 32 * zlen l.

Lemma reg_words : index + nlongs_reg <= zlen l.
Proof. destruct reg_shape as (_ & _ & H & _). lia. Qed.

Lemma word_u32 k : 0 <= k < zlen l -> is_u32 (at_ 0 l k).
Proof. intros. now apply (proj1 (Forall_at is_u32 0 l) (proj1 l_ok)). Qed.

Lemma isfree_ok :
  wp (__reg_op l pos order REG_OP_ISFREE) (fun '(l', r) => l' = l /\
    (r = 1 /\ region_free l pos order \/ r = 0 /\ ~ region_free l pos order)).
Proof.
  destruct reg_shape as (H0 & Hi & _ & Hreg). pose proof reg_words as Hw.
  unfold __reg_op. fold nbits_reg index. fold offset nlongs_reg nbitsinlong. fold mask0. fold mask.
  apply wp_bind. eapply wp_mono.
  { apply (wp_for_up (fun i (_ : unit) => forall n, 0 <= n -> n / 32 < index + i ->
      in_region pos order n = true -> bit l n = false)
      (fun r => r = 0 /\ ~ region_free l pos order)).
    - intros n Hn Hlt Hin. rewrite Hreg in Hin by done.
      destruct (Z.leb_spec index (n / 32)); [lia|done].
    - intros i [] Hk Hz. rewrite Z2Nat.id in Hk by lia. rewrite (rd_at 0) by lia. wp_steps.
      assert (Hu : is_u32 (at_ 0 l (index + i))) by (apply word_u32; lia).
      destruct (Z.eqb_spec (Z.land (at_ 0 l (index + i)) mask) 0) as [E|Hne]; cbn [negb]; wp_steps.
      + intros n Hn Hlt Hin. destruct (Z.eq_dec (n / 32) (index + i)) as [En|]; [|apply Hz; auto; lia].
        rewrite Hreg in Hin by done. apply andb_prop in Hin as [_ Hm]. unfold bit. rewrite En.
        pose proof (f_equal (fun z => Z.testbit z (n mod 32)) E) as B. cbv beta in B.
        rewrite Z.land_spec, Z.testbit_0_l, Hm, andb_true_r in B. done.
      + split; [done|]. intros Hfree.
        destruct (nonzero_bit32 _ (land_u32 _ mask Hu (shl32_range _ _)) Hne) as (j & Hj & Bj).
        rewrite Z.land_spec in Bj. apply andb_prop in Bj as [B1 B2].
        set (n := 32 * (index + i) + j).
        assert (En : n / 32 = index + i /\ n mod 32 = j)
          by (destruct (divmod32 n); unfold n in *; lia). destruct En as [E1 E2].
        assert (Hin : in_region pos order n = true).
        { rewrite Hreg by (unfold n; lia). rewrite E1, E2, B2.
          destruct (Z.leb_spec index (index + i)), (Z.ltb_spec (index + i) (index + nlongs_reg));
            done || lia. }
        unfold in_region in Hin. apply andb_prop in Hin as [L1 L2].
        apply Z.leb_le in L1. apply Z.ltb_lt in L2.
        specialize (Hfree n ltac:(lia)). unfold bit in Hfree. rewrite E1, E2, B1 in Hfree. done. }
  rewrite Z2Nat.id by lia. intros [[]|r] H; wp_steps; split; auto. left. split; [done|].
  intros n Hn. assert (Hin : in_region pos order n = true).
  { unfold in_region. destruct (Z.leb_spec pos n), (Z.ltb_spec n (pos + 2 ^ order)); lia || done. }
  apply H; [lia| |done]. rewrite Hreg in Hin by lia. rewrite !andb_true_iff, Z.ltb_lt in Hin. lia.
Qed.

(** A loop that rewrites each word of the region with [f], a word function
    that acts bitwise like [g] on the mask bit and the old bit and keeps
    the bits outside the mask. *)
Lemma update_ok (f : Z -> Z) (g : bool -> bool) :
  (forall w, is_u32 w -> is_u32 (f w)) ->
  (forall w i, is_u32 w -> 0 <= i < 32 -> Z.testbit (f w) i =
     if Z.testbit mask i then g (Z.testbit w i) else Z.testbit w i) ->
  wp (for_up (Z.to_nat nlongs_reg) 0 (fun i bitmap => stay (
        w ← rd bitmap (index + i); wr bitmap (index + i) (f w))) l)
    (fun x => let l' := fell x in zlen l' = zlen l /\ Forall is_u32 l' /\
       forall n, 0 <= n -> bit l' n = if in_region pos order n then g (bit l n) else bit l n).
Proof.
  intros Hu Hf. destruct reg_shape as (H0 & Hi & _ & Hreg). pose proof reg_words as Hw.
  eapply wp_mono.
  { apply (wp_for_up_stay (fun i l' => zlen l' = zlen l /\ Forall is_u32 l' /\
      forall k, 0 <= k -> at_ 0 l' k =
        if (index <=? k) && (k <? index + i) then f (at_ 0 l k) else at_ 0 l k)).
    - split; [done|]. split; [apply l_ok|]. intros k Hk.
      destruct (Z.leb_spec index k), (Z.ltb_spec k (index + 0)); done || lia.
    - intros i l' Hk (E & Hl' & H). rewrite Z2Nat.id in Hk by lia.
      rewrite (rd_at 0) by lia. wp_steps. rewrite wr_ok by lia. wp_steps.
      assert (Ew : at_ 0 l' (index + i) = at_ 0 l (index + i)).
      { rewrite H by lia. destruct (Z.ltb_spec (index + i) (index + i)); [lia|].
        now rewrite andb_false_r. }
      rewrite Ew. assert (is_u32 (at_ 0 l (index + i))) by (apply word_u32; lia).
      split; [now rewrite zlen_insert|]. split; [auto with word|].
      intros k Hk'. rewrite at_insert, H by lia.
      destruct (Z.eqb_spec k (index + i)) as [->|Hne].
      + destruct (Z.leb_spec index (index + i)), (Z.ltb_spec (index + i) (index + (i + 1)));
          done || lia.
      + destruct (Z.leb_spec index k), (Z.ltb_spec k (index + i)),
          (Z.ltb_spec k (index + (i + 1))); done || lia. }
  rewrite Z2Nat.id, Z.add_0_l by lia. intros x (E & Hl' & H). split; [done|]. split; [done|].
  intros n Hn. destruct (divmod32 n) as [En Rn]. unfold bit. rewrite Hreg, H by lia.
  destruct ((index <=? n / 32) && (n / 32 <? index + nlongs_reg)) eqn:C; cbn [andb]; [|done].
  rewrite andb_true_iff, Z.leb_le, Z.ltb_lt in C. apply Hf; [apply word_u32|]; lia.
Qed.

Lemma alloc_ok :
  wp (__reg_op l pos order REG_OP_ALLOC) (fun '(l', r) => r = 0 /\ zlen l' = zlen l /\
    Forall is_u32 l' /\ forall n, 0 <= n -> bit l' n = in_region pos order n || bit l n).
Proof.
  unfold __reg_op. fold nbits_reg index. fold offset nlongs_reg nbitsinlong. fold mask0. fold mask.
  apply wp_bind. eapply wp_mono; [apply (update_ok (fun w => Z.lor w mask) (fun _ => true))|].
  - intros. apply lor_u32; [done|]. apply shl32_range.
  - intros w i _ _. rewrite Z.lor_spec. destruct (Z.testbit mask i); [apply orb_true_r|apply orb_false_r].
  - intros x (E & Hu & H). wp_steps. split; [done|]. split; [done|]. split; [done|].
    intros n Hn. rewrite H by done. now destruct (in_region pos order n).
Qed.

Lemma release_ok :
  wp (__reg_op l pos order REG_OP_RELEASE) (fun '(l', r) => r = 0 /\ zlen l' = zlen l /\
    Forall is_u32 l' /\ forall n, 0 <= n -> bit l' n = negb (in_region pos order n) && bit l n).
Proof.
  unfold __reg_op. fold nbits_reg index. fold offset nlongs_reg nbitsinlong. fold mask0. fold mask.
  apply wp_bind. eapply wp_mono; [apply (update_ok (fun w => Z.land w (lnot32 mask)) (fun _ => false))|].
  - intros. apply land_u32; [done|]. apply lnot32_range.
  - intros w i _ Hi. rewrite Z.land_spec, testbit_lnot32 by done.
    destruct (Z.testbit mask i); cbn [negb]; [apply andb_false_r|apply andb_true_r].
  - intros x (E & Hu & H). wp_steps. split; [done|]. split; [done|]. split; [done|].
    intros n Hn. rewrite H by done. now destruct (in_region pos order n).
Qed.
End Loops.
End RegOp.

Lemma find_free_region_ok l bits order :
  bitmap_ok l bits -> 0 <= order < 31 -> bits + 2 ^ order < 2 ^ 31 ->
  wp (bitmap_find_free_region l bits order) (fun '(l', r) =>
    (r = - ENOMEM /\ l' = l /\
      forall pos, 0 <= pos -> pos mod 2 ^ order = 0 -> pos + 2 ^ order <= bits ->
        ~ region_free l pos order) \/
    (0 <= r /\ r mod 2 ^ order = 0 /\ r + 2 ^ order <= bits /\ region_free l r order /\
      (forall pos, 0 <= pos < r -> pos mod 2 ^ order = 0 -> ~ region_free l pos order) /\
      zlen l' = zlen l /\ Forall is_u32 l' /\
      forall n, 0 <= n -> bit l' n = in_region r order n || bit l n)).
Proof.
  intros (Hl & Hb & Hbig) Ho Hno. unfold bitmap_find_free_region.
  assert (Hsz : s32 (Z.shiftl 1 order) = 2 ^ order) by now apply nbits_reg_pow.
  assert (Hpos : 0 < 2 ^ order < 2 ^ 31) by (split; [lia|apply Z.pow_lt_mono_r; lia]).
  rewrite Hsz.
  apply (wp_loop (fun pos => 0 <= pos <= bits /\ pos mod 2 ^ order = 0 /\
    forall p, 0 <= p < pos -> p mod 2 ^ order = 0 -> ~ region_free l p order)
    (fun pos => bits - pos)).
  - split; [lia|]. split; [apply Z.mod_0_l; lia|intros; lia].
  - lia.
  - intros pos (Hp & Ha & Hnone) _. cbv zeta.
    assert (Hnext : forall p, pos < p < pos + 2 ^ order -> p mod 2 ^ order <> 0).
    { intros p Hlt Hpa. apply Z_div_exact_full_2 in Ha; [|lia]. apply Z_div_exact_full_2 in Hpa; [|lia].
      set (a := pos / 2 ^ order) in Ha. set (b := p / 2 ^ order) in Hpa.
      assert (a < b) by (apply (Z.mul_lt_mono_pos_l (2 ^ order)); lia).
      assert (b < a + 1) by (apply (Z.mul_lt_mono_pos_l (2 ^ order)); lia). lia. }
    rewrite s32_id by (unfold is_s32; lia).
    destruct (Z.leb_spec (pos + 2 ^ order) bits) as [Hle|Hgt].
    + apply wp_bind. eapply wp_mono; [apply isfree_ok; [done|split; [lia|done]|split; [done|lia]]|].
      intros [l1 r] [-> [[-> Hf]|[-> Hf]]]; cbn [Z.eqb].
      * apply wp_bind. eapply wp_mono; [apply alloc_ok; [done|split; [lia|done]|split; [done|lia]]|].
        intros [l2 r2] (_ & E & Hu & Hbits). wp_steps. right. repeat split; auto; lia.
      * wp_steps. split; [|lia]. split; [lia|]. split.
        { rewrite Z.add_mod, Ha, Z.mod_same, Z.mod_0_l by lia. done. }
        intros p Hpp Hpa. destruct (Z.lt_trichotomy p pos) as [|[->|]].
        { apply Hnone; [lia|done]. }
        { done. }
        exfalso. apply (Hnext p); [lia|done].
    + apply wp_ok. left. split; [done|]. split; [done|]. intros p Hp0 Hpa Hple.
      apply Hnone; auto. lia.
Qed.

Lemma allocate_region_ok l pos order : region_ok l pos order ->
  wp (bitmap_allocate_region l pos order) (fun '(l', r) =>
    (r = - EBUSY /\ l' = l /\ ~ region_free l pos order) \/
    (r = 0 /\ region_free l pos order /\ zlen l' = zlen l /\ Forall is_u32 l' /\
      forall n, 0 <= n -> bit l' n = in_region pos order n || bit l n)).
Proof.
  intros (Hl & Ho & Hp & Ha & Hz). unfold bitmap_allocate_region.
  apply wp_bind. eapply wp_mono; [apply isfree_ok; auto; lia|].
  intros [l1 r] [-> [[-> Hf]|[-> Hf]]]; cbn [Z.eqb].
  - apply wp_bind. eapply wp_mono; [apply alloc_ok; auto|].
    intros [l2 r2] (_ & E & Hu & Hbits). wp_steps. right. auto.
  - wp_steps. auto.
Qed.

Lemma release_region_ok l pos order : region_ok l pos order ->
  wp (bitmap_release_region l pos order) (fun l' => zlen l' = zlen l /\ Forall is_u32 l' /\
    forall n, 0 <= n -> bit l' n = negb (in_region pos order n) && bit l n).
Proof.
  intros (Hl & Ho & Hp & Ha & Hz). unfold bitmap_release_region.
  apply wp_bind. eapply wp_mono; [apply release_ok; auto|].
  intros [l2 r2] (_ & E & Hu & Hbits). now wp_steps.
Qed.

Lemma in_region_bounds pos order n : in_region pos order n = true <-> pos <= n < pos + 2 ^ order.
Proof. unfold in_region. rewrite andb_true_iff, Z.leb_le, Z.ltb_lt. done. Qed.

(** * Properties *)

(** bitmap_find_free_region returns the lowest aligned free region that
    fits, and sets exactly its bits; it returns -ENOMEM, leaving the bitmap
    alone, only when no aligned region inside the bitmap is free. *)
Lemma find_free_region_fact l bits order :
  bitmap_ok l bits -> 0 <= order < 31 -> bits + 2 ^ order < 2 ^ 31 ->
  exists l' r, bitmap_find_free_region l bits order = Ok (l', r) /\
    ((r = - ENOMEM /\ l' = l /\
       forall pos, 0 <= pos -> pos mod 2 ^ order = 0 -> pos + 2 ^ order <= bits ->
         ~ region_free l pos order) \/
     (0 <= r /\ r mod 2 ^ order = 0 /\ r + 2 ^ order <= bits /\ region_free l r order /\
       (forall pos, 0 <= pos < r -> pos mod 2 ^ order = 0 -> ~ region_free l pos order) /\
       forall n, 0 <= n -> bit l' n = in_region r order n || bit l n)).
Proof.
  intros H1 H2 H3.
  destruct (proj1 (wp_exists _ _) (find_free_region_ok l bits order H1 H2 H3)) as ([l' r] & -> & H).
  exists l', r. split; [done|]. destruct H as [H|(? & ? & ? & ? & ? & _ & _ & ?)]; [left|right]; auto.
  repeat split; auto.
Qed.

(** bitmap_allocate_region answers -EBUSY without touching the bitmap when
    some bit of the region is set, and otherwise sets exactly the region; a
    bitmap_release_region of a region allocated this way restores every bit. *)
Lemma region_allocate_release_fact l pos order :
  region_ok l pos order ->
  exists l' r, bitmap_allocate_region l pos order = Ok (l', r) /\
    ((r = - EBUSY /\ l' = l /\ ~ region_free l pos order) \/
     (r = 0 /\ region_free l pos order /\
      (forall n, 0 <= n -> bit l' n = in_region pos order n || bit l n) /\
      exists l'', bitmap_release_region l' pos order = Ok l'' /\
        forall n, 0 <= n -> bit l'' n = bit l n)).
Proof.
  intros Hok. destruct (proj1 (wp_exists _ _) (allocate_region_ok l pos order Hok)) as ([l' r] & -> & H).
  exists l', r. split; [done|]. destruct H as [H|(-> & Hf & E & Hu & Hb)]; [left; done|right].
  split; [done|]. split; [done|]. split; [done|].
  assert (Hok' : region_ok l' pos order).
  { destruct Hok as (_ & ? & ? & ? & ?). unfold region_ok. rewrite E. auto. }
  destruct (proj1 (wp_exists _ _) (release_region_ok l' pos order Hok')) as (l'' & -> & _ & _ & Hb').
  exists l''. split; [done|]. intros n Hn. rewrite Hb', Hb by done.
  destruct (in_region pos order n) eqn:E'; [|done]. cbn. symmetry.
  apply Hf. now apply in_region_bounds.
Qed.

(** bitmap_find_free_region returns the lowest aligned free region that
    fits, and sets exactly its bits; it returns -ENOMEM, leaving the bitmap
    alone, only when no aligned region inside the bitmap is free.  bitmap_allocate_region answers -EBUSY without touching the bitmap when
    some bit of the region is set, and otherwise sets exactly the region; a
    bitmap_release_region of a region allocated this way restores every bit. *)
Lemma find_free_region_facts :
  (forall l bits order,
   bitmap_ok l bits -> 0 <= order < 31 -> bits + 2 ^ order < 2 ^ 31 ->
   exists l' r, bitmap_find_free_region l bits order = Ok (l', r) /\
     ((r = - ENOMEM /\ l' = l /\
        forall pos, 0 <= pos -> pos mod 2 ^ order = 0 -> pos + 2 ^ order <= bits ->
          ~ region_free l pos order) \/
      (0 <= r /\ r mod 2 ^ order = 0 /\ r + 2 ^ order <= bits /\ region_free l r order /\
        (forall pos, 0 <= pos < r -> pos mod 2 ^ order = 0 -> ~ region_free l pos order) /\
        forall n, 0 <= n -> bit l' n = in_region r order n || bit l n))) /\
  (forall l pos order,
   region_ok l pos order ->
   exists l' r, bitmap_allocate_region l pos order = Ok (l', r) /\
     ((r = - EBUSY /\ l' = l /\ ~ region_free l pos order) \/
      (r = 0 /\ region_free l pos order /\
       (forall n, 0 <= n -> bit l' n = in_region pos order n || bit l n) /\
       exists l'', bitmap_release_region l' pos order = Ok l'' /\
         forall n, 0 <= n -> bit l'' n = bit l n))).
Proof. split; [exact find_free_region_fact|]. exact region_allocate_release_fact. Qed.

(** C35: the bitmap predicates answer 1 or 0 according to the set-theoretic
    relation between the bits below the size, whatever the unused bits of
    the last word hold, and __bitmap_weight counts the set bits; and, or,
    xor, andnot and complement compute the bitwise operation of their
    operands as they were on entry, also when the destination is one of the
    operands, and/andnot report whether the result has a bit set, and
    complement clears the unused bits. __bitmap_shift_right and
    __bitmap_shift_left move bit [n + shift] to [n], respectively bit [n -
    shift] to [n], for every position of the bitmap's words; bits that leave
    [0, bits) are lost, zeros are fed in, and the result's unused bits are
    clear. The same holds in place. Bitmap_find_free_region returns the
    lowest aligned free region that fits, and sets exactly its bits; it
    returns -ENOMEM, leaving the bitmap alone, only when no aligned region
    inside the bitmap is free. bitmap_allocate_region answers -EBUSY without
    touching the bitmap when some bit of the region is set, and otherwise
    sets exactly the region; a bitmap_release_region of a region allocated
    this way restores every bit. *)
Theorem bitmaps_correct :
  (((forall l1 l2 bits,
     bitmap_ok l1 bits -> bitmap_ok l2 bits ->
     decides (__bitmap_empty l1 bits) (forall n, 0 <= n < bits -> bit l1 n = false) /\
     decides (__bitmap_full l1 bits) (forall n, 0 <= n < bits -> bit l1 n = true) /\
     decides (__bitmap_equal l1 l2 bits) (forall n, 0 <= n < bits -> bit l1 n = bit l2 n) /\
     decides (__bitmap_intersects l1 l2 bits)
       (exists n, 0 <= n < bits /\ bit l1 n = true /\ bit l2 n = true) /\
     decides (__bitmap_subset l1 l2 bits)
       (forall n, 0 <= n < bits -> bit l1 n = true -> bit l2 n = true) /\
     __bitmap_weight l1 bits = Ok (bcount l1 (Z.to_nat bits))) /\
    (forall dst b1 b2 bits,
     bitmap_ok dst bits -> bitmap_ok (words_of dst b1) bits -> bitmap_ok (words_of dst b2) bits ->
     let x := bit (words_of dst b1) in
     let y := bit (words_of dst b2) in
     let all := fun d f => bitmap_ok d bits /\ forall n, 0 <= n < 32 * BITS_TO_LONGS bits -> bit d n = f n in
     let any := fun d (r : Z) => (r = 0 \/ r = 1) /\
       (r <> 0 <-> exists n, 0 <= n < 32 * BITS_TO_LONGS bits /\ bit d n = true) in
     (exists d r, __bitmap_and dst b1 b2 bits = Ok (d, r) /\ all d (fun n => x n && y n) /\ any d r) /\
     (exists d r, __bitmap_andnot dst b1 b2 bits = Ok (d, r) /\ all d (fun n => x n && negb (y n)) /\ any d r) /\
     (exists d, __bitmap_or dst b1 b2 bits = Ok d /\ all d (fun n => x n || y n)) /\
     (exists d, __bitmap_xor dst b1 b2 bits = Ok d /\ all d (fun n => xorb (x n) (y n))) /\
     (exists d, __bitmap_complement dst b1 bits = Ok d /\ all d (fun n => (n <? bits) && negb (x n))))) /\
   (forall dst src shift bits,
    bitmap_ok dst bits -> bitmap_ok (words_of dst src) bits ->
    0 <= shift -> shift / 32 <= BITS_TO_LONGS bits ->
    exists r l, __bitmap_shift_right dst src shift bits = Ok r /\
      __bitmap_shift_left dst src shift bits = Ok l /\
      bitmap_ok r bits /\ bitmap_ok l bits /\
      forall n, 0 <= n < 32 * BITS_TO_LONGS bits ->
        bit r n = (n + shift <? bits) && bit (words_of dst src) (n + shift) /\
        bit l n = (shift <=? n) && (n <? bits) && bit (words_of dst src) (n - shift))) /\
  ((forall l bits order,
    bitmap_ok l bits -> 0 <= order < 31 -> bits + 2 ^ order < 2 ^ 31 ->
    exists l' r, bitmap_find_free_region l bits order = Ok (l', r) /\
      ((r = - ENOMEM /\ l' = l /\
         forall pos, 0 <= pos -> pos mod 2 ^ order = 0 -> pos + 2 ^ order <= bits ->
           ~ region_free l pos order) \/
       (0 <= r /\ r mod 2 ^ order = 0 /\ r + 2 ^ order <= bits /\ region_free l r order /\
         (forall pos, 0 <= pos < r -> pos mod 2 ^ order = 0 -> ~ region_free l pos order) /\
         forall n, 0 <= n -> bit l' n = in_region r order n || bit l n))) /\
   (forall l pos order,
    region_ok l pos order ->
    exists l' r, bitmap_allocate_region l pos order = Ok (l', r) /\
      ((r = - EBUSY /\ l' = l /\ ~ region_free l pos order) \/
       (r = 0 /\ region_free l pos order /\
        (forall n, 0 <= n -> bit l' n = in_region pos order n || bit l n) /\
        exists l'', bitmap_release_region l' pos order = Ok l'' /\
          forall n, 0 <= n -> bit l'' n = bit l n)))).
Proof. split; [exact bitmap_operations_facts|]. exact find_free_region_facts. Qed.

Lemma bitmaps_correct_witness :
  (((decides (__bitmap_equal [5; 0x103] [5; 3] 40)
       (forall n, 0 <= n < 40 -> bit [5; 0x103] n = bit [5; 3] n) /\
     __bitmap_equal [5; 0x103] [5; 3] 40 = Ok 1) /\
    (exists d, __bitmap_complement [5; 3] Aliased 40 = Ok d /\ bitmap_ok d 40 /\
       forall n, 0 <= n < 32 * BITS_TO_LONGS 40 -> bit d n = (n <? 40) && negb (bit [5; 3] n))) /\
   (exists r l, __bitmap_shift_right [0x80000001; 0xC3] Aliased 33 40 = Ok r /\
      __bitmap_shift_left [0x80000001; 0xC3] Aliased 33 40 = Ok l /\
      bitmap_ok r 40 /\ bitmap_ok l 40 /\
      forall n, 0 <= n < 32 * BITS_TO_LONGS 40 ->
        bit r n = (n + 33 <? 40) && bit [0x80000001; 0xC3] (n + 33) /\
        bit l n = (33 <=? n) && (n <? 40) && bit [0x80000001; 0xC3] (n - 33))) /\
  ((bitmap_find_free_region [0xFF01; 0] 64 3 = Ok ([0xFFFF01; 0], 16) /\
    exists l' r, bitmap_find_free_region [0xFF01; 0] 64 3 = Ok (l', r) /\
      ((r = - ENOMEM /\ l' = [0xFF01; 0] /\
         forall pos, 0 <= pos -> pos mod 2 ^ 3 = 0 -> pos + 2 ^ 3 <= 64 ->
           ~ region_free [0xFF01; 0] pos 3) \/
       (0 <= r /\ r mod 2 ^ 3 = 0 /\ r + 2 ^ 3 <= 64 /\ region_free [0xFF01; 0] r 3 /\
         (forall pos, 0 <= pos < r -> pos mod 2 ^ 3 = 0 -> ~ region_free [0xFF01; 0] pos 3) /\
         forall n, 0 <= n -> bit l' n = in_region r 3 n || bit [0xFF01; 0] n))) /\
   (exists l' r, bitmap_allocate_region [0xFF01; 0] 32 5 = Ok (l', r) /\
      ((r = - EBUSY /\ l' = [0xFF01; 0] /\ ~ region_free [0xFF01; 0] 32 5) \/
       (r = 0 /\ region_free [0xFF01; 0] 32 5 /\
        (forall n, 0 <= n -> bit l' n = in_region 32 5 n || bit [0xFF01; 0] n) /\
        exists l'', bitmap_release_region l' 32 5 = Ok l'' /\
          forall n, 0 <= n -> bit l'' n = bit [0xFF01; 0] n)))).
Proof.
  split.
  { split.
    { split.
      { split; [|reflexivity].
        apply ((proj1 (proj1 (proj1 bitmaps_correct))) [5; 0x103] [5; 3] 40);
          apply bitmap_okb_ok; reflexivity. }
      { assert (H : bitmap_ok [5; 3] 40) by (apply bitmap_okb_ok; reflexivity).
        destruct ((proj2 (proj1 (proj1 bitmaps_correct))) [5; 3] Aliased (Other [5; 3]) 40 H H H) as (_ & _ & _ & _ & R).
        exact R. } }
    { assert (H : bitmap_ok [0x80000001; 0xC3] 40) by (apply bitmap_okb_ok; reflexivity).
      apply ((proj2 (proj1 bitmaps_correct)) _ Aliased 33 40 H H); [lia|].
      apply Z.leb_le. vm_compute. reflexivity. } }
  { split.
    { split; [reflexivity|].
      apply (proj1 (proj2 bitmaps_correct)); [apply bitmap_okb_ok; reflexivity|lia|lia]. }
    { apply (proj2 (proj2 bitmaps_correct)).
      split; [apply (bitmap_okb_ok _ 64); reflexivity|]. repeat split; try lia. unfold zlen. cbn. lia. } }
Defined.
