(* ===== verification/BitmapRemap.v ===== *)
(** Ordinals of set bits and the remapping operations of lib/bitmap.c, for any
    implementation of the bit searches that satisfies the [FindBit] laws. *)
From S2P Require Import Prelude.
From S2P Require Import Bits.
From S2P Require Import FindBit.
From S2P Require Import Bitmap.
From S2P Require Import BitmapFacts.

(** Number of set bits below position [n]: the ordinal of a set bit at [n]. *)
Definition bc (l : list Z) (n : Z) : Z := bcount l (Z.to_nat n).

Lemma bc_succ l n : 0 <= n -> bc l (n + 1) = bc l n + Z.b2z (bit l n).
Proof.
  intros Hn. unfold bc. replace (Z.to_nat (n + 1)) with (S (Z.to_nat n)) by lia.
  cbn [bcount]. rewrite Z2Nat.id by done. lia.
Qed.

Lemma bc_range l n : 0 <= n -> 0 <= bc l n <= n.
Proof. intros. unfold bc. pose proof (bcount_range l (Z.to_nat n)). lia. Qed.

Lemma Z_ind_up (P : Z -> Prop) a b : a <= b -> P a ->
  (forall n, a <= n < b -> P n -> P (n + 1)) -> P b.
Proof.
  intros Hab Ha Hs. replace b with (a + Z.of_nat (Z.to_nat (b - a))) by lia.
  assert (Hle : (Z.to_nat (b - a) <= Z.to_nat (b - a))%nat) by lia. revert Hle.
  generalize (Z.to_nat (b - a)) at 1 3. intros n. induction n as [|n IH]; intros Hle.
  - now rewrite Z.add_0_r.
  - replace (a + Z.of_nat (S n)) with (a + Z.of_nat n + 1) by lia. apply Hs; [lia|]. apply IH. lia.
Qed.

Lemma bc_skip l a b : 0 <= a <= b -> (forall n, a <= n < b -> bit l n = false) -> bc l b = bc l a.
Proof.
  intros Hab Hz. apply (Z_ind_up (fun n => bc l n = bc l a) a b); [lia|done|].
  intros n Hn IH. rewrite bc_succ, Hz, IH by lia. cbn. lia.
Qed.

Lemma bc_mono l a b : 0 <= a <= b -> bc l a <= bc l b.
Proof.
  intros Hab. apply (Z_ind_up (fun n => bc l a <= bc l n) a b); [lia|lia|].
  intros n Hn IH. rewrite bc_succ by lia. destruct (bit l n); cbn; lia.
Qed.

Lemma bc_inj l a b : 0 <= a -> 0 <= b -> bit l a = true -> bit l b = true ->
  bc l a = bc l b -> a = b.
Proof.
  intros Ha Hb Ba Bb E. destruct (Z.lt_trichotomy a b) as [H|[H|H]]; [|done|].
  - pose proof (bc_mono l (a + 1) b ltac:(lia)). rewrite bc_succ, Ba in H0 by lia. cbn in H0. lia.
  - pose proof (bc_mono l (b + 1) a ltac:(lia)). rewrite bc_succ, Bb in H0 by lia. cbn in H0. lia.
Qed.

Lemma bitmap_weight_bc l bits : bitmap_ok l bits -> __bitmap_weight l bits = Ok (bc l bits).
Proof. apply bitmap_weight_ok. Qed.

Lemma test_bit_ok l nr : Forall is_u32 l -> 0 <= nr < 32 * zlen l ->
  test_bit nr l = Ok (Z.b2z (bit l nr)).
Proof.
  intros Hl Hn. unfold test_bit, BITOP_WORD. rewrite land_31 by lia. unfold BITS_PER_LONG.
  destruct (divmod32 nr). rewrite (rd_at 0) by lia. cbn. f_equal.
  change 1 with (Z.ones 1). rewrite Z.land_comm, Z.land_ones by lia.
  unfold bit, shr32. rewrite Z.shiftr_div_pow2 by lia. now rewrite <- Z.testbit_spec' by lia.
Qed.

Lemma set_bit_ok l nr : Forall is_u32 l -> 0 <= nr < 32 * zlen l ->
  wp (set_bit nr l) (fun l' => zlen l' = zlen l /\ Forall is_u32 l' /\
    forall n, 0 <= n -> bit l' n = (n =? nr) || bit l n).
Proof.
  intros Hl Hn. unfold set_bit, BITOP_WORD, BITS_PER_LONG. destruct (divmod32 nr) as [E R].
  rewrite (rd_at 0) by lia. wp_steps. rewrite wr_ok by lia. wp_steps.
  assert (Hw : is_u32 (at_ 0 l (nr / 32))) by (apply (proj1 (Forall_at is_u32 0 l) Hl); lia).
  split; [now rewrite zlen_insert|]. split; [auto with word|].
  intros n Hn0. unfold bit. destruct (divmod32 n) as [En Rn]. rewrite at_insert by lia.
  destruct (Z.eqb_spec (n / 32) (nr / 32)) as [Ed|Hne].
  - rewrite Z.lor_spec, testbit_shl32, orb_comm, Ed by lia. f_equal.
    destruct (Z.eqb_spec n nr) as [Enr|].
    + now replace (n mod 32 - nr mod 32) with 0 by lia.
    + destruct (Z.lt_ge_cases (n mod 32 - nr mod 32) 0); [now apply Z.testbit_neg_r|].
      apply Z.bits_above_log2; [lia|]. change (Z.log2 1) with 0. lia.
  - destruct (Z.eqb_spec n nr); [congruence|done].
Qed.

Section Remap.
Context {FB : FindBit}.

(** Walking the set bits: the invariant [I n] speaks of the bits below [n]. *)
Lemma wp_for_each_bit {S} (I : Z -> S -> Prop) src bits (body : Z -> S -> res S) s :
  bitmap_ok src bits -> I 0 s ->
  (forall n s, 0 <= n < bits -> bit src n = false -> I n s -> I (n + 1) s) ->
  (forall n s, 0 <= n < bits -> bit src n = true -> I n s -> wp (body n s) (I (n + 1))) ->
  wp (for_each_bit src bits body s) (I bits).
Proof.
  intros Hok HI Hf Ht. assert (Hb : 0 <= bits) by (destruct Hok; lia).
  assert (Hskip : forall lo hi s, 0 <= lo <= hi -> hi <= bits -> I lo s ->
    (forall j, lo <= j < hi -> bit src j = false) -> I hi s).
  { intros lo hi t Hlh Hhi Hlo Hz. apply (Z_ind_up (fun n => I n t) lo hi); [lia|done|].
    intros n Hn. apply Hf; [lia|]. now apply Hz. }
  unfold for_each_bit. apply wp_bind. eapply wp_mono; [now apply fb_first_ok|].
  intros b (Hr & Hz & Hset).
  apply (wp_loop (fun '(b, s) => 0 <= b <= bits /\ (b < bits -> bit src b = true) /\ I b s)
    (fun '(b, _) => bits - b)).
  - split; [lia|]. split; [done|]. apply (Hskip 0); auto; lia.
  - lia.
  - clear b Hr Hz Hset s HI. intros [b s] (Hb' & Hset & HI) _.
    destruct (Z.ltb_spec b bits) as [Hlt|Hge].
    + apply wp_bind. eapply wp_mono; [apply Ht; auto; lia|]. intros s' HI'.
      destruct (Z.lt_ge_cases (b + 1) bits) as [Hlt'|Hge'].
      * apply wp_bind. eapply wp_mono; [apply fb_next_ok; [done|lia]|].
        intros b' (Hr & Hz & Hset'). wp_steps. split; [|lia]. split; [lia|]. split; [done|].
        apply (Hskip (b + 1)); auto; lia.
      * rewrite fb_next_past by lia. wp_steps. split; [|lia]. split; [lia|].
        split; [lia|]. now replace bits with (b + 1) by lia.
    + apply wp_ok. now replace bits with b by lia.
Qed.

Lemma pos_to_ord_ok buf pos bits : bitmap_ok buf bits ->
  bitmap_pos_to_ord buf pos bits =
  Ok (if (0 <=? pos) && (pos <? bits) && bit buf pos then bc buf pos else -1).
Proof.
  intros Hok. pose proof Hok as (Hl & Hb & Hbig). apply wp_eq. unfold bitmap_pos_to_ord.
  destruct (Z.ltb_spec pos 0), (Z.leb_spec bits pos), (Z.leb_spec 0 pos), (Z.ltb_spec pos bits);
    cbn [orb andb]; try lia; try done.
  rewrite test_bit_ok by (done || lia). wp_steps.
  destruct (bit buf pos) eqn:Bp; cbn [Z.b2z Z.eqb]; [|done].
  apply wp_bind. eapply wp_mono; [now apply fb_first_ok|]. intros i (Hr & Hz & Hset).
  assert (Hile : i <= pos).
  { destruct (Z.le_gt_cases i pos) as [|Hgt]; [done|]. rewrite Hz in Bp by lia. done. }
  apply wp_bind. eapply wp_mono.
  { apply (wp_loop (fun '(i, ord) => 0 <= i <= pos /\ bit buf i = true /\ ord = bc buf i)
      (fun '(i, _) => pos - i) (fun '(i, ord) => i = pos /\ ord = bc buf pos)).
    - split; [lia|]. split; [apply Hset; lia|]. rewrite (bc_skip buf 0 i); auto. lia.
    - lia.
    - clear i Hr Hz Hset Hile. intros [i ord] (Hi & Bi & ->) _.
      destruct (Z.ltb_spec i pos) as [Hlt|Hge]; [|apply wp_ok; split; [lia|f_equal; lia]].
      apply wp_bind. eapply wp_mono; [apply fb_next_ok; [done|lia]|].
      intros i' (Hr & Hz & Hset). wp_steps.
      assert (i' <= pos).
      { destruct (Z.le_gt_cases i' pos) as [|Hgt]; [done|]. rewrite Hz in Bp by lia. done. }
      split; [|lia]. split; [lia|]. split; [apply Hset; lia|].
      rewrite (bc_skip buf (i + 1) i'), bc_succ, Bi by (done || lia). cbn [Z.b2z].
      pose proof (bc_range buf i ltac:(lia)). rewrite s32_id; [done|]. unfold is_s32. lia. }
  intros [i' ord] [-> ->]. rewrite Z.eqb_refl. done.
Qed.

Lemma ord_to_pos_ok buf ord bits : bitmap_ok buf bits -> 0 <= ord < bits ->
  wp (bitmap_ord_to_pos buf ord bits) (fun p =>
    (0 <= p < bits /\ bit buf p = true /\ bc buf p = ord) \/ (p = 0 /\ bc buf bits <= ord)).
Proof.
  intros Hok Hord. unfold bitmap_ord_to_pos.
  destruct (Z.leb_spec 0 ord), (Z.ltb_spec ord bits); cbn [andb]; try lia.
  apply wp_bind. eapply wp_mono; [now apply fb_first_ok|]. intros i (Hr & Hz & Hset).
  set (I := fun '(i, o) => 0 <= i <= bits /\ (i < bits -> bit buf i = true) /\ 0 <= o /\
                           bc buf i + o = ord : Prop).
  apply wp_bind. eapply wp_mono.
  { apply (wp_loop I (fun '(i, _) => bits - i)
      (fun '(i, o) => I (i, o) /\ (i < bits -> o = 0))).
    - repeat split; auto; try lia. rewrite (bc_skip buf 0 i); auto. lia.
    - lia.
    - clear i Hr Hz Hset. intros [i o] (Hi & Bi & Ho & E) _.
      destruct (Z.ltb_spec i bits), (Z.ltb_spec 0 o); cbn [andb];
        [|apply wp_ok; unfold I; repeat split; auto; lia..].
      destruct (Z.lt_ge_cases (i + 1) bits).
      + apply wp_bind. eapply wp_mono; [apply fb_next_ok; [done|lia]|].
        intros i' (Hr & Hz & Hset). wp_steps. split; [|lia]. split; [lia|]. split; [done|].
        split; [lia|]. rewrite (bc_skip buf (i + 1) i'), bc_succ, Bi by (done || lia). cbn. lia.
      + rewrite fb_next_past by lia. wp_steps. split; [|lia]. split; [lia|]. split; [lia|].
        split; [lia|]. replace bits with (i + 1) by lia. rewrite bc_succ, Bi by lia. cbn. lia. }
  intros [i' o] ((Hi & Bi & Ho & E) & Hex).
  destruct (Z.ltb_spec i' bits), (Z.eqb_spec o 0); cbn [andb]; apply wp_ok.
  - left. repeat split; auto; lia.
  - lia.
  - right. replace bits with i' by lia. lia.
  - right. replace bits with i' by lia. lia.
Qed.

(** The position map of two bitmaps: the [n]-th set bit of [old] goes to the
    ([n] mod weight)-th set bit of [new], every other position stays. *)
Definition is_remap (old new : list Z) (bits m p : Z) : Prop :=
  if bit old m && (0 <? bc new bits)
  then 0 <= p < bits /\ bit new p = true /\ bc new p = bc old m mod bc new bits
  else p = m.

Lemma is_remap_unique old new bits m p q :
  is_remap old new bits m p -> is_remap old new bits m q -> p = q.
Proof.
  unfold is_remap. destruct (bit old m && (0 <? bc new bits)); [|congruence].
  intros (? & ? & ?) (? & ? & ?). apply (bc_inj new); auto; lia.
Qed.

Lemma remap_step_ok old new bits m (k : Z -> res (list Z)) (Q : list Z -> Prop) :
  bitmap_ok old bits -> bitmap_ok new bits -> 0 <= m < bits ->
  (forall p, 0 <= p < bits -> is_remap old new bits m p -> wp (k p) Q) ->
  wp (n ← bitmap_pos_to_ord old m bits;
      if (n <? 0) || (bc new bits =? 0) then k m
      else p ← bitmap_ord_to_pos new (Z.rem n (bc new bits)) bits; k p) Q.
Proof.
  intros Ho Hn Hm Hk. rewrite pos_to_ord_ok by done. wp_steps.
  destruct (Z.leb_spec 0 m), (Z.ltb_spec m bits); cbn [andb]; try lia.
  pose proof (bc_range new bits ltac:(lia)) as Hw. pose proof (bc_range old m ltac:(lia)) as Hbo.
  destruct (bit old m) eqn:Bo.
  - destruct (Z.ltb_spec (bc old m) 0), (Z.eqb_spec (bc new bits) 0) as [E0|Hne]; cbn [orb]; try lia.
    + apply Hk; [lia|]. unfold is_remap. rewrite Bo, E0. done.
    + rewrite Z.rem_mod_nonneg by lia.
      pose proof (Z.mod_pos_bound (bc old m) (bc new bits) ltac:(lia)) as Hmod.
      apply wp_bind. eapply wp_mono; [apply ord_to_pos_ok; [done|lia]|].
      intros p [Hp|[-> ?]]; [|lia]. apply Hk; [apply Hp|]. unfold is_remap. rewrite Bo.
      destruct (Z.ltb_spec 0 (bc new bits)); [|lia]. done.
  - cbn [Z.ltb Z.compare orb]. apply Hk; [lia|]. unfold is_remap. now rewrite Bo.
Qed.

Lemma bitremap_ok oldbit old new bits :
  bitmap_ok old bits -> bitmap_ok new bits -> 0 <= oldbit < bits ->
  wp (bitmap_bitremap oldbit old new bits) (fun p =>
    0 <= p < bits /\ is_remap old new bits oldbit p).
Proof.
  intros Ho Hn Hm. unfold bitmap_bitremap. rewrite bitmap_weight_bc by done. wp_steps.
  pose proof (remap_step_ok old new bits oldbit (fun p => Ok [p])
    (fun l => match l with [p] => 0 <= p < bits /\ is_remap old new bits oldbit p | _ => False end)
    Ho Hn Hm ltac:(intros; now apply wp_ok)) as H.
  destruct (bitmap_pos_to_ord old oldbit bits) as [n|e]; [|done]. cbn in H |- *.
  destruct ((n <? 0) || (bc new bits =? 0)); [done|].
  destruct (bitmap_ord_to_pos new (Z.rem n (bc new bits)) bits); done.
Qed.

Lemma bitmap_ok_transfer l l' bits : bitmap_ok l bits -> zlen l' = zlen l -> Forall is_u32 l' ->
  bitmap_ok l' bits.
Proof. intros (_ & H2 & H3) E Hu. unfold bitmap_ok. now rewrite E. Qed.

Lemma remap_ok dst src old new bits :
  bitmap_ok dst bits -> bitmap_ok src bits -> bitmap_ok old bits -> bitmap_ok new bits ->
  wp (bitmap_remap dst (Other src) old new bits) (fun dst' => bitmap_ok dst' bits /\
    forall j, 0 <= j < bits -> bit dst' j = true <->
      exists m, 0 <= m < bits /\ bit src m = true /\ is_remap old new bits m j).
Proof.
  intros Hd Hs Ho Hn. unfold bitmap_remap. apply wp_bind.
  eapply wp_mono; [now apply bitmap_zero_ok|]. intros d (Hd' & _ & Hz).
  rewrite bitmap_weight_bc by done. wp_steps. assert (Hb : 0 <= bits) by (destruct Hd; lia).
  apply (wp_for_each_bit (fun n d => bitmap_ok d bits /\ forall j, 0 <= j < bits ->
    bit d j = true <-> exists m, 0 <= m < n /\ bit src m = true /\ is_remap old new bits m j)).
  - done.
  - split; [done|]. intros j Hj. rewrite Hz by done. split; [done|]. intros (m & ? & _). lia.
  - intros n t Hn' Bn [Ht H]. split; [done|]. intros j Hj. rewrite H by done.
    split; intros (m & Hm & B & R); exists m; repeat split; auto; try lia.
    destruct (Z.eq_dec m n); [subst; congruence|lia].
  - intros n t Hn' Bn [Ht H]. apply (remap_step_ok old new bits n (fun p => set_bit p t)); auto. intros p Hp Hr.
    pose proof Ht as (Hu & Hz' & _). eapply wp_mono; [apply set_bit_ok; [done|lia]|].
    intros t' (E & Hu' & Hbits). split; [eapply bitmap_ok_transfer; eauto|].
    intros j Hj. rewrite Hbits, orb_true_iff, Z.eqb_eq, H by lia. split.
    + intros [->|(m & Hm & B & R)]; [exists n|exists m]; repeat split; auto; lia.
    + intros (m & Hm & B & R). destruct (Z.eq_dec m n) as [->|].
      * left. eapply is_remap_unique; eauto.
      * right. exists m. repeat split; auto; lia.
Qed.

Lemma onto_ok dst orig relmap bits :
  bitmap_ok dst bits -> bitmap_ok orig bits -> bitmap_ok relmap bits ->
  wp (bitmap_onto dst (Other orig) relmap bits) (fun dst' => bitmap_ok dst' bits /\
    forall n, 0 <= n < bits -> bit dst' n = bit relmap n && bit orig (bc relmap n)).
Proof.
  intros Hd Ho Hr. unfold bitmap_onto. apply wp_bind.
  eapply wp_mono; [now apply bitmap_zero_ok|]. intros d (Hd' & _ & Hz).
  assert (Hb : 0 <= bits < 2 ^ 31) by (destruct Hd as (? & ? & ?); lia). apply wp_bind.
  eapply wp_mono.
  { apply (wp_for_each_bit (fun n '(d, m) => bitmap_ok d bits /\ m = bc relmap n /\
      forall j, 0 <= j < bits -> bit d j = (j <? n) && (bit relmap j && bit orig (bc relmap j)))).
    - done.
    - split; [done|]. split; [done|]. intros j Hj. rewrite Hz by done.
      destruct (Z.ltb_spec j 0); [lia|done].
    - intros n [t m] Hn Bn (Ht & -> & H). split; [done|]. split; [rewrite bc_succ, Bn by lia; cbn [Z.b2z]; lia|].
      intros j Hj. rewrite H by done. destruct (Z.ltb_spec j n), (Z.ltb_spec j (n + 1)); try lia; try done.
      replace j with n by lia. now rewrite Bn.
    - intros n [t m] Hn Bn (Ht & -> & H). pose proof (bc_range relmap n ltac:(lia)) as Hbc.
      pose proof Ho as (Hou & Hoz & _). pose proof Ht as (Htu & Htz & _).
      cbv beta iota. rewrite test_bit_ok by (done || lia). wp_steps.
      assert (Hm : s32 (bc relmap n + 1) = bc relmap (n + 1)).
      { rewrite bc_succ, Bn by lia. cbn [Z.b2z]. apply s32_id. unfold is_s32. lia. }
      destruct (bit orig (bc relmap n)) eqn:Bo; cbn [Z.b2z Z.eqb negb].
      + eapply wp_mono; [apply set_bit_ok; [done|lia]|]. intros t' (E & Hu' & Hbits). wp_steps.
        split; [eapply bitmap_ok_transfer; eauto|]. split; [done|]. intros j Hj.
        rewrite Hbits, H by lia.
        destruct (Z.eq_dec j n) as [->|Hne].
        * rewrite Z.eqb_refl, Bn, Bo. destruct (Z.ltb_spec n (n + 1)); [done|lia].
        * destruct (Z.eqb_spec j n), (Z.ltb_spec j n), (Z.ltb_spec j (n + 1)); try lia; done.
      + wp_steps. split; [done|]. split; [done|]. intros j Hj. rewrite H by lia.
        destruct (Z.eq_dec j n) as [->|].
        * rewrite Bo. destruct (n <? n), (n <? n + 1), (bit relmap n); done.
        * destruct (Z.ltb_spec j n), (Z.ltb_spec j (n + 1)); try lia; done. }
  intros [t m] (Ht & _ & H). wp_steps. split; [done|]. intros n Hn. rewrite H by done.
  destruct (Z.ltb_spec n bits); [done|lia].
Qed.

Lemma fold_ok dst orig sz bits :
  bitmap_ok dst bits -> bitmap_ok orig bits -> 0 < sz ->
  wp (bitmap_fold dst (Other orig) sz bits) (fun dst' => bitmap_ok dst' bits /\
    forall j, 0 <= j < bits -> bit dst' j = true <->
      exists m, 0 <= m < bits /\ bit orig m = true /\ m mod sz = j).
Proof.
  intros Hd Ho Hsz. unfold bitmap_fold. apply wp_bind.
  eapply wp_mono; [now apply bitmap_zero_ok|]. intros d (Hd' & _ & Hz).
  assert (Hb : 0 <= bits) by (destruct Hd; lia).
  apply (wp_for_each_bit (fun n d => bitmap_ok d bits /\ forall j, 0 <= j < bits ->
    bit d j = true <-> exists m, 0 <= m < n /\ bit orig m = true /\ m mod sz = j)).
  - done.
  - split; [done|]. intros j Hj. rewrite Hz by done. split; [done|]. intros (m & ? & _). lia.
  - intros n t Hn' Bn [Ht H]. split; [done|]. intros j Hj. rewrite H by done.
    split; intros (m & Hm & B & R); exists m; repeat split; auto; try lia.
    destruct (Z.eq_dec m n); [subst; congruence|lia].
  - intros n t Hn' Bn [Ht H]. destruct (Z.eqb_spec sz 0); [lia|].
    rewrite Z.rem_mod_nonneg by lia. pose proof (Z.mod_pos_bound n sz Hsz).
    pose proof (Z.mod_le n sz ltac:(lia) Hsz). pose proof Ht as (Hu & Hz' & _).
    eapply wp_mono; [apply set_bit_ok; [done|lia]|].
    intros t' (E & Hu' & Hbits). split; [eapply bitmap_ok_transfer; eauto|].
    intros j Hj. rewrite Hbits, orb_true_iff, Z.eqb_eq, H by lia. split.
    + intros [->|(m & Hm & B & R)]; [exists n|exists m]; repeat split; auto; lia.
    + intros (m & Hm & B & R). destruct (Z.eq_dec m n) as [->|]; [left; done|].
      right. exists m. repeat split; auto; lia.
Qed.
End Remap.

(** * Properties *)

Lemma ordinals_ok {FB : FindBit} buf bits pos :
  bitmap_ok buf bits ->
  bitmap_pos_to_ord buf pos bits =
    Ok (if (0 <=? pos) && (pos <? bits) && bit buf pos then bc buf pos else -1) /\
  (0 <= pos < bits -> bit buf pos = true -> bitmap_ord_to_pos buf (bc buf pos) bits = Ok pos).
Proof.
  intros Hok. split; [now apply pos_to_ord_ok|]. intros Hp Bp.
  pose proof (bc_range buf pos ltac:(lia)). apply wp_eq.
  eapply wp_mono; [apply ord_to_pos_ok; [done|lia]|]. intros p [(H1 & H2 & H3)|[-> H3]].
  - apply (bc_inj buf); auto; lia.
  - pose proof (bc_mono buf (pos + 1) bits ltac:(lia)) as Hm.
    rewrite bc_succ, Bp in Hm by lia. cbn [Z.b2z] in Hm. lia.
Qed.

Lemma bitmap_remap_ok {FB : FindBit} dst src old new bits :
  bitmap_ok dst bits -> bitmap_ok src bits -> bitmap_ok old bits -> bitmap_ok new bits ->
  (forall m, 0 <= m < bits -> exists p, bitmap_bitremap m old new bits = Ok p /\
     0 <= p < bits /\ is_remap old new bits m p) /\
  (exists dst', bitmap_remap dst (Other src) old new bits = Ok dst' /\
     forall j, 0 <= j < bits -> bit dst' j = true <->
       exists m, 0 <= m < bits /\ bit src m = true /\ bitmap_bitremap m old new bits = Ok j) /\
  bitmap_remap dst Aliased old new bits = Ok dst.
Proof.
  intros Hd Hs Ho Hn.
  assert (Hmap : forall m, 0 <= m < bits -> exists p, bitmap_bitremap m old new bits = Ok p /\
     0 <= p < bits /\ is_remap old new bits m p).
  { intros m Hm. exact (proj1 (wp_exists _ _) (bitremap_ok m old new bits Ho Hn Hm)). }
  split; [exact Hmap|]. split; [|done].
  destruct (proj1 (wp_exists _ _) (remap_ok dst src old new bits Hd Hs Ho Hn)) as (d & -> & _ & H).
  exists d. split; [done|]. intros j Hj. rewrite H by done.
  split; intros (m & Hm & B & R); exists m; (split; [done|split; [done|]]);
    destruct (Hmap m Hm) as (p & Ep & Hp & Hr).
  - rewrite Ep. f_equal. eapply is_remap_unique; eauto.
  - rewrite Ep in R. now injection R as ->.
Qed.

Lemma bitmap_onto_fold_ok {FB : FindBit} dst orig relmap sz bits :
  bitmap_ok dst bits -> bitmap_ok orig bits -> bitmap_ok relmap bits -> 0 < sz ->
  (exists d, bitmap_onto dst (Other orig) relmap bits = Ok d /\
     forall n, 0 <= n < bits -> bit d n = bit relmap n && bit orig (bc relmap n)) /\
  (exists d, bitmap_fold dst (Other orig) sz bits = Ok d /\
     forall j, 0 <= j < bits -> bit d j = true <->
       exists m, 0 <= m < bits /\ bit orig m = true /\ m mod sz = j).
Proof.
  intros Hd Ho Hr Hsz. split.
  - destruct (proj1 (wp_exists _ _) (onto_ok dst orig relmap bits Hd Ho Hr)) as (d & -> & _ & H). eauto.
  - destruct (proj1 (wp_exists _ _) (fold_ok dst orig sz bits Hd Ho Hsz)) as (d & -> & _ & H). eauto.
Qed.

(** C40: the operations on ordinals of set bits, with any implementation of the bit
    searches.  bitmap_pos_to_ord maps a set position to its ordinal and every other
    one to -1, and bitmap_ord_to_pos maps the ordinal back.  bitmap_bitremap maps
    the n-th set bit of [old] to the (n mod weight)-th set bit of [new] and every
    other position, or all if [new] is empty, to itself; bitmap_remap maps all set
    bits of its source so, and leaves a destination that is also the source
    unchanged.  bitmap_onto sets position [n] exactly when [relmap] has it and
    [orig] has the ordinal of [n] in [relmap]; bitmap_fold sets position [j] exactly
    when some set bit of [orig] is congruent to it modulo the size. *)
Theorem bitmap_ordinals_correct {FB : FindBit} dst src old new bits :
  bitmap_ok dst bits -> bitmap_ok src bits -> bitmap_ok old bits -> bitmap_ok new bits ->
  (forall pos, bitmap_pos_to_ord old pos bits = Ok (if (0 <=? pos) && (pos <? bits) && bit old pos then bc old pos else -1) /\
     (0 <= pos < bits -> bit old pos = true -> bitmap_ord_to_pos old (bc old pos) bits = Ok pos)) /\
  (forall m, 0 <= m < bits -> exists p, bitmap_bitremap m old new bits = Ok p /\
     0 <= p < bits /\ is_remap old new bits m p) /\
  (exists dst', bitmap_remap dst (Other src) old new bits = Ok dst' /\
     forall j, 0 <= j < bits -> bit dst' j = true <->
       exists m, 0 <= m < bits /\ bit src m = true /\ bitmap_bitremap m old new bits = Ok j) /\
  bitmap_remap dst Aliased old new bits = Ok dst /\
  (exists d, bitmap_onto dst (Other src) old bits = Ok d /\
     forall n, 0 <= n < bits -> bit d n = bit old n && bit src (bc old n)) /\
  (forall sz, 0 < sz -> exists d, bitmap_fold dst (Other src) sz bits = Ok d /\
     forall j, 0 <= j < bits -> bit d j = true <-> exists m, 0 <= m < bits /\ bit src m = true /\ m mod sz = j).
Proof.
  intros Hd Hs Ho Hn. destruct (bitmap_remap_ok dst src old new bits Hd Hs Ho Hn) as (H1 & H2 & H3).
  split; [intros pos; now apply ordinals_ok|]. split; [exact H1|]. split; [exact H2|]. split; [exact H3|].
  split; [now apply (bitmap_onto_fold_ok dst src old 1 bits)|]. intros sz Hsz. now apply (bitmap_onto_fold_ok dst src old sz bits).
Qed.

Lemma bitmap_ordinals_correct_witness :
  bitmap_ord_to_pos [0xF0; 0] 2 40 = Ok 6 /\
  (exists p, bitmap_bitremap 5 [0xF0; 0] [0xF000; 0] 40 = Ok p /\ is_remap [0xF0; 0] [0xF000; 0] 40 5 p) /\
  bitmap_remap [0; 0] (Other [0xA2; 0]) [0xF0; 0] [0xF000; 0] 40 = Ok [0xA002; 0].
Proof.
  destruct (bitmap_ordinals_correct [0; 0] [0xA2; 0] [0xF0; 0] [0xF000; 0] 40) as (H1 & H2 & _);
    [apply bitmap_okb_ok; reflexivity..|]. split; [|split; [|reflexivity]].
  - change 2 with (bc [0xF0; 0] 6) at 1. apply (H1 6); [lia|reflexivity].
  - destruct (H2 5 ltac:(lia)) as (p & E & _ & R). exists p. split; [exact E|exact R].
Defined.
