(* ===== verification/Arith.v ===== *)
(** Integer arithmetic helpers of lib/: gcd.c, int_sqrt.c, rational.c, div64.c
    (with do_div of asm-generic/div64.h), reciprocal_div.c and bcd.c. *)
From S2P Require Import Prelude.
From S2P Require Import Bits.

(** gcd.c.  The quotient halves the product of the operands at each turn, so
    65 turns are enough for 32-bit operands. *)
Definition gcd (a b : Z) : res Z :=
  let '(a, b) := if a <? b then (b, a) else (a, b) in
  loop 65 (fun '(a, b) =>
    if b =? 0 then Err DivideByZero else
    let r := a mod b in
    if negb (r =? 0) then Ok (inl (b, r)) else Ok (inr b)) (a, b).

(** int_sqrt.c *)
Definition int_sqrt (x : Z) : res Z :=
  let op := x in
  let res := 0 in
  let one := shl32 1 (BITS_PER_LONG - 2) in
  one ← loop 20 (fun one =>
    if op <? one then Ok (inl (shr32 one 2)) else Ok (inr one)) one;
  loop 20 (fun '(op, res, one) =>
    if negb (one =? 0) then
      let '(op, res) :=
        if u32 (res + one) <=? op
        then (u32 (op - u32 (res + one)), u32 (res + u32 (2 * one))) else (op, res) in
      Ok (inl (op, res / 2, one / 4))
    else Ok (inr res)) (op, res, one).

(** rational.c *)
Definition rational_best_approximation
    (given_numerator given_denominator max_numerator max_denominator : Z) : res (Z * Z) :=
  loop 70 (fun '(n, d, n0, d0, n1, d1) =>
    if (max_numerator <? n1) || (max_denominator <? d1) then Ok (inr (n0, d0))
    else if d =? 0 then Ok (inr (n1, d1))
    else
      let t := d in
      let a := n / d in
      let d := n mod d in
      let n := t in
      let t := u32 (n0 + u32 (a * n1)) in
      let n0 := n1 in
      let n1 := t in
      let t := u32 (d0 + u32 (a * d1)) in
      let d0 := d1 in
      let d1 := t in
      Ok (inl (n, d, n0, d0, n1, d1)))
    (given_numerator, given_denominator, 0, 1, 1, 0).

(** div64.c: shift-and-subtract division; returns the quotient stored through
    the pointer and the remainder. *)
Definition __div64_32 (n base : Z) : res (Z * Z) :=
  if base =? 0 then Err DivideByZero else
  let rem := n in
  let b := base in
  let d := 1 in
  let high := u32 (Z.shiftr rem 32) in
  let res := 0 in
  let '(res, rem) :=
    if base <=? high then
      let high := high / base in
      (u64 (Z.shiftl high 32), u64 (rem - u64 (Z.shiftl (u32 (high * base)) 32)))
    else (res, rem) in
  '(b, d) ← loop 66 (fun '(b, d) =>
    if (0 <? s64 b) && (b <? rem) then Ok (inl (u64 (b + b), u64 (d + d)))
    else Ok (inr (b, d))) (b, d);
  '(rem, res) ← loop 66 (fun '(rem, res, b, d) =>
    let '(rem, res) := if b <=? rem then (u64 (rem - b), u64 (res + d)) else (rem, res) in
    let b := Z.shiftr b 1 in
    let d := Z.shiftr d 1 in
    if negb (d =? 0) then Ok (inl (rem, res, b, d)) else Ok (inr (rem, res))) (rem, res, b, d);
  Ok (res, u32 rem).

(** asm-generic/div64.h: the new value of [n] and the value of the expression. *)
Definition do_div (n base : Z) : res (Z * Z) :=
  if Z.shiftr n 32 =? 0 then
    if base =? 0 then Err DivideByZero else Ok (u32 n / base, u32 n mod base)
  else __div64_32 n base.

Definition div_u64_rem (dividend divisor : Z) : res (Z * Z) := do_div dividend divisor.

Definition div_s64_rem (dividend divisor : Z) : res (Z * Z) :=
  if dividend <? 0 then
    '(quotient, remainder) ← div_u64_rem (u64 (- dividend)) (u32 (Z.abs divisor));
    let remainder := s32 (- s32 remainder) in
    let quotient := if 0 <? divisor then u64 (- quotient) else quotient in
    Ok (s64 quotient, remainder)
  else
    '(quotient, remainder) ← div_u64_rem (u64 dividend) (u32 (Z.abs divisor));
    let quotient := if divisor <? 0 then u64 (- quotient) else quotient in
    Ok (s64 quotient, s32 remainder).

Definition div64_u64 (dividend divisor : Z) : res Z :=
  let high := u32 (Z.shiftr divisor 32) in
  let '(dividend, d) :=
    if negb (high =? 0) then
      let shift := fls high in
      (Z.shiftr dividend shift, u32 (Z.shiftr divisor shift))
    else (dividend, u32 divisor) in
  '(q, _) ← div_u64_rem dividend d;
  Ok q.

(** reciprocal_div.c and reciprocal_div.h *)
Definition reciprocal_value (k : Z) : res Z :=
  let val := u64 (Z.shiftl 1 32 + u32 (k - 1)) in
  '(val, _) ← do_div val k;
  Ok (u32 val).

Definition reciprocal_divide (A R : Z) : Z := u32 (Z.shiftr (u64 (A * R)) 32).

(** bcd.c *)
Definition bcd2bin (val : Z) : Z := Z.land val 0x0f + Z.shiftr val 4 * 10.
Definition bin2bcd (val : Z) : Z := u8 (u32 (u32 (Z.shiftl (val / 10) 4) + val mod 10)).

(** * gcd *)

Lemma gcd_loop_ok a b : is_u32 a -> is_u32 b -> 0 < b <= a ->
  wp (loop 65 (fun '(a, b) =>
    if b =? 0 then Err DivideByZero else
    let r := a mod b in
    if negb (r =? 0) then Ok (inl (b, r)) else Ok (inr b)) (a, b)) (fun g => g = Z.gcd a b).
Proof.
  unfold is_u32. intros Ha Hb Hab.
  apply (wp_loop (fun '(x, y) => 0 < y <= x /\ Z.gcd x y = Z.gcd a b) (fun '(x, y) => Z.log2 (x * y))).
  - done.
  - split; [apply Z.log2_nonneg|]. apply Z.log2_lt_pow2; nia.
  - intros [x y] (Hxy & E) _. destruct (Z.eqb_spec y 0); [lia|]. cbv zeta.
    pose proof (Z.mod_pos_bound x y ltac:(lia)) as Hr. pose proof (Z.div_mod x y ltac:(lia)) as Hd.
    assert (1 <= x / y) by (apply Z.div_le_lower_bound; lia).
    destruct (Z.eqb_spec (x mod y) 0) as [E0|Hne]; cbn [negb]; wp_steps.
    + rewrite <- E, Z.gcd_comm, <- Z.gcd_mod, E0 by lia. now rewrite Z.gcd_0_l, Z.abs_eq by lia.
    + split; [split; [lia|]|].
      * rewrite Z.gcd_comm, Z.gcd_mod by lia. now rewrite Z.gcd_comm.
      * split; [apply Z.log2_nonneg|].
        assert (2 * (y * (x mod y)) <= x * y) by nia.
        assert (0 < y * (x mod y)) by nia.
        assert (Z.log2 (2 * (y * (x mod y))) <= Z.log2 (x * y)) by (apply Z.log2_le_mono; lia).
        rewrite Z.log2_double in * by lia. lia.
Qed.

Lemma gcd_ok a b : is_u32 a -> is_u32 b -> 0 < a -> 0 < b -> gcd a b = Ok (Z.gcd a b).
Proof.
  intros Ha Hb H1 H2. apply wp_eq. unfold gcd. destruct (Z.ltb_spec a b).
  - rewrite (Z.gcd_comm a b). apply gcd_loop_ok; auto; lia.
  - apply gcd_loop_ok; auto; lia.
Qed.

(** * int_sqrt *)

Lemma sqrt_unique x s : 0 <= s -> s * s <= x < (s + 1) * (s + 1) -> s = Z.sqrt x.
Proof. intros Hs H. symmetry. apply Z.sqrt_unique. unfold Z.succ. lia. Qed.

(** The loop measure: the number of base-4 digits of [one]. *)
Definition digits4 (one : Z) : Z := if one =? 0 then 0 else Z.log2 one / 2 + 1.

Lemma digits4_pow k : 0 <= k -> digits4 (4 ^ k) = k + 1.
Proof.
  intros Hk. unfold digits4. destruct (Z.eqb_spec (4 ^ k) 0); [lia|].
  replace (4 ^ k) with (2 ^ (2 * k)) by (rewrite Z.pow_mul_r by lia; reflexivity).
  rewrite Z.log2_pow2, Z.mul_comm, Z.div_mul by lia. lia.
Qed.

Lemma pow4_step k : 0 < k -> 4 ^ k / 4 = 4 ^ (k - 1) /\ 4 ^ k = 4 * 4 ^ (k - 1).
Proof.
  intros Hk. assert (E : 4 ^ k = 4 * 4 ^ (k - 1)) by (rewrite <- Z.pow_succ_r by lia; f_equal; lia).
  split; [|done]. rewrite E, Z.mul_comm. now rewrite Z.div_mul.
Qed.

(** State of the root extraction: [T] is the root found so far, at the scale
    of the current digit. *)
Definition sqrt_inv (x : Z) (s : Z * Z * Z) : Prop :=
  let '(op, r, one) := s in
  exists T, 0 <= T /\
    (one = 0 /\ r = T /\ T * T <= x < (T + 1) * (T + 1) \/
     exists k, 0 <= k <= 15 /\ one = 4 ^ k /\ r = 4 * T * one /\ op = x - 4 * (T * T) * one /\
       0 <= op /\ x < 4 * ((T + 1) * (T + 1)) * one /\ (T = 0 \/ k <= 14)).

Lemma sqrt_no_overflow x T o : is_u32 x -> 0 <= T -> 0 < o -> 4 * (T * T) * o <= x ->
  (T = 0 /\ o <= 2 ^ 30) \/ o <= 2 ^ 28 -> 4 * T * o + 2 * o < 2 ^ 32.
Proof.
  unfold is_u32. intros Hx HT Ho H [[-> ?]|?]; [lia|].
  assert (T = 0 \/ T = 1 \/ 2 <= T) as [-> | [-> | HT2]] by lia; [lia|lia|]. nia.
Qed.

Lemma int_sqrt_step x op r one :
  is_u32 x -> sqrt_inv x (op, r, one) -> one <> 0 ->
  let '(op', r') :=
    if u32 (r + one) <=? op
    then (u32 (op - u32 (r + one)), u32 (r + u32 (2 * one))) else (op, r) in
  sqrt_inv x (op', r' / 2, one / 4) /\ 0 <= digits4 (one / 4) < digits4 one.
Proof.
  intros Hx (T & HT & [(? & _)|(k & Hk & -> & -> & -> & Hop & Hlt & Hk14)]) Hne; [done|].
  assert (Ho : 0 < 4 ^ k) by lia. assert (4 ^ k <= 4 ^ 15) by (apply Z.pow_le_mono_r; lia).
  assert (k <= 14 -> 4 ^ k <= 4 ^ 14) by (intros; apply Z.pow_le_mono_r; lia).
  change (4 ^ 15) with (2 ^ 30) in *. change (4 ^ 14) with (2 ^ 28) in *.
  assert (Hov : 4 * T * 4 ^ k + 2 * 4 ^ k < 2 ^ 32)
    by (apply (sqrt_no_overflow x); [done|done|lia|lia|]; destruct Hk14; [left; lia|right; auto]).
  assert (0 <= 4 * T * 4 ^ k) by nia. unfold is_u32 in Hx.
  rewrite (u32_id (4 * T * 4 ^ k + 4 ^ k)), (u32_id (2 * 4 ^ k)) by (unfold is_u32; lia).
  rewrite (u32_id (4 * T * 4 ^ k + 2 * 4 ^ k)) by (unfold is_u32; lia).
  assert (Hdig : 0 <= digits4 (4 ^ k / 4) < digits4 (4 ^ k)).
  { rewrite digits4_pow by lia. destruct (Z.eq_dec k 0) as [->|]; [change (digits4 (4 ^ 0 / 4)) with 0; lia|].
    rewrite (proj1 (pow4_step k ltac:(lia))), digits4_pow by lia. lia. }
  assert (Hnext : forall b, (b = 0 \/ b = 1) -> (2 * T + b) * (2 * T + b) * 4 ^ k <= x ->
     x < (2 * T + b + 1) * (2 * T + b + 1) * 4 ^ k ->
     sqrt_inv x (x - (2 * T + b) * (2 * T + b) * 4 ^ k, (4 * T * 4 ^ k + b * (2 * 4 ^ k)) / 2, 4 ^ k / 4)).
  { intros b Hb Hb1 Hb2. exists (2 * T + b). split; [lia|].
    replace (4 * T * 4 ^ k + b * (2 * 4 ^ k)) with ((2 * T + b) * 4 ^ k * 2) by ring.
    rewrite Z.div_mul by lia. destruct (Z.eq_dec k 0) as [->|].
    - left. change (4 ^ 0) with 1 in *. split; [reflexivity|]. lia.
    - right. exists (k - 1). destruct (pow4_step k ltac:(lia)) as [E1 E2]. rewrite E1.
      repeat split; [lia..| | | | |lia]; nia. }
  destruct (Z.leb_spec (4 * T * 4 ^ k + 4 ^ k) (x - 4 * (T * T) * 4 ^ k)) as [Hle|Hgt];
    (split; [|exact Hdig]).
  - rewrite u32_id by (unfold is_u32; nia).
    specialize (Hnext 1 (or_intror eq_refl)). rewrite Z.mul_1_l in Hnext.
    replace (x - 4 * (T * T) * 4 ^ k - (4 * T * 4 ^ k + 4 ^ k))
      with (x - (2 * T + 1) * (2 * T + 1) * 4 ^ k) by ring. apply Hnext; nia.
  - specialize (Hnext 0 (or_introl eq_refl)). rewrite Z.mul_0_l, !Z.add_0_r in Hnext.
    replace (4 * (T * T) * 4 ^ k) with ((2 * T) * (2 * T) * 4 ^ k) by ring. apply Hnext; nia.
Qed.

Lemma int_sqrt_ok x : is_u32 x -> int_sqrt x = Ok (Z.sqrt x).
Proof.
  intros Hx. apply wp_eq. unfold int_sqrt. apply wp_bind.
  apply wp_mono with (P := fun one => sqrt_inv x (x, 0, one) /\ 0 <= digits4 one <= 16).
  - apply (wp_loop (fun one => sqrt_inv x (x, 0, one) /\ 0 <= digits4 one <= 16) digits4).
    + change (shl32 1 (BITS_PER_LONG - 2)) with (4 ^ 15). rewrite digits4_pow by lia.
      split; [|lia]. unfold is_u32 in Hx. exists 0. split; [lia|]. right. exists 15.
      repeat split; try lia.
    + change (shl32 1 (BITS_PER_LONG - 2)) with (4 ^ 15). rewrite digits4_pow; lia.
    + intros one [HI Hd] _. destruct (Z.ltb_spec x one) as [Hlt|]; wp_steps; [|done].
      assert (Hn : one <> 0) by (unfold is_u32 in Hx; lia).
      pose proof (int_sqrt_step x x 0 one Hx HI Hn) as Hs.
      destruct HI as (T & HT & [(? & _)|(k & Hk & -> & E0 & _)]); [done|].
      assert (4 ^ k <= 4 ^ 15) by (apply Z.pow_le_mono_r; lia).
      change (4 ^ 15) with (2 ^ 30) in *.
      rewrite !Z.add_0_l, (u32_id (4 ^ k)) in Hs by (unfold is_u32; lia).
      destruct (Z.leb_spec (4 ^ k) x); [lia|]. change (0 / 2) with 0 in Hs.
      unfold shr32. rewrite Z.shiftr_div_pow2 by lia. change (2 ^ 2) with 4. intuition lia.
  - intros one [HI Hd].
    apply (wp_loop (sqrt_inv x) (fun '(_, _, one) => digits4 one)); [done|lia|].
    intros [[op r] o] Hinv _. destruct (Z.eqb_spec o 0) as [->|Hn]; cbn [negb].
    + wp_steps. destruct Hinv as (T & HT & [(_ & -> & H)|(k & ? & ? & _)]); [now apply sqrt_unique|lia].
    + pose proof (int_sqrt_step x op r o Hx Hinv Hn) as Hs. destruct (u32 (r + o) <=? op); exact Hs.
Qed.

(** * 64-by-32 division *)

Lemma s64_id x : - 2 ^ 63 <= x < 2 ^ 63 -> s64 x = x.
Proof. intros. unfold s64. rewrite Z.mod_small; lia. Qed.

Lemma s64_big x : 2 ^ 63 <= x < 2 ^ 64 -> s64 x = x - 2 ^ 64.
Proof.
  intros. unfold s64. replace (x + 2 ^ 63) with ((x - 2 ^ 63) + 1 * 2 ^ 64) by lia.
  rewrite Z.mod_add, Z.mod_small; lia.
Qed.

Lemma half_pow2 j : 0 <= j -> Z.shiftr (2 ^ j) 1 = if j =? 0 then 0 else 2 ^ (j - 1).
Proof.
  intros Hj. destruct (Z.eqb_spec j 0) as [->|]; [reflexivity|].
  rewrite Z.shiftr_div_pow2, Z.pow_sub_r by lia. reflexivity.
Qed.

(** The doubling phase scales the divisor until twice it exceeds the remainder. *)
Lemma div64_double_ok rem base : is_u64 rem -> 0 < base < 2 ^ 32 ->
  wp (loop 66 (fun '(b, d) =>
    if (0 <? s64 b) && (b <? rem) then Ok (inl (u64 (b + b), u64 (d + d)))
    else Ok (inr (b, d))) (base, 1))
  (fun '(b, d) => exists j, 0 <= j <= 63 /\ d = 2 ^ j /\ b = base * d /\ b < 2 ^ 64 /\ rem < 2 * b).
Proof.
  intros Hr Hb. unfold is_u64 in Hr.
  apply (wp_loop (fun '(b, d) => exists j, 0 <= j <= 63 /\ d = 2 ^ j /\ b = base * d /\ b < 2 ^ 64)
    (fun '(b, d) => 63 - Z.log2 d)).
  - exists 0. repeat split; lia.
  - change (Z.log2 1) with 0. lia.
  - intros [b d] (j & Hj & Hd & Hbd & Hlt) _.
    assert (Hd0 : 0 < d) by (rewrite Hd; lia).
    destruct (Z.lt_ge_cases b (2 ^ 63)) as [Hs|Hs].
    + rewrite s64_id by nia. destruct (Z.ltb_spec 0 b) as [|]; [|nia].
      destruct (Z.ltb_spec b rem); cbn [andb]; wp_steps; [|exists j; repeat split; lia].
      assert (Hdd : u64 (d + d) = 2 ^ (j + 1)) by
        (rewrite u64_id by (unfold is_u64; nia); rewrite Z.pow_add_r, <- Hd by lia; change (2 ^ 1) with 2; lia).
      assert (2 ^ j < 2 ^ 63) by (rewrite <- Hd; nia).
      assert (j < 63) by (apply (Z.pow_lt_mono_r_iff 2); lia).
      split.
      * exists (j + 1). repeat split; [lia|lia|exact Hdd| |apply u64_range].
        rewrite !u64_id by (unfold is_u64; nia). lia.
      * rewrite Hdd, Hd, !Z.log2_pow2 by lia. lia.
    + rewrite s64_big by lia. destruct (Z.ltb_spec 0 (b - 2 ^ 64)); [lia|]. cbn [andb]. wp_steps.
      exists j. repeat split; lia.
Qed.

(** The subtracting phase peels one binary digit of the quotient per turn. *)
Lemma div64_subtract_ok n base rem res j :
  is_u64 n -> 0 < base < 2 ^ 32 -> 0 <= j <= 63 -> 0 <= rem < 2 * (base * 2 ^ j) ->
  0 <= res -> rem + base * res = n ->
  wp (loop 66 (fun '(rem, res, b, d) =>
    let '(rem, res) := if b <=? rem then (u64 (rem - b), u64 (res + d)) else (rem, res) in
    let b := Z.shiftr b 1 in
    let d := Z.shiftr d 1 in
    if negb (d =? 0) then Ok (inl (rem, res, b, d)) else Ok (inr (rem, res)))
    (rem, res, base * 2 ^ j, 2 ^ j))
  (fun '(rem, res) => 0 <= rem < base /\ rem + base * res = n).
Proof.
  unfold is_u64. intros Hn Hb Hj Hrem Hres E.
  apply (wp_loop (fun '(rem, res, b, d) => exists j, 0 <= j <= 63 /\ d = 2 ^ j /\ b = base * d /\
      0 <= rem < 2 * b /\ 0 <= res /\ rem + base * res = n) (fun '(_, _, _, d) => Z.log2 d)).
  - exists j. repeat split; lia.
  - rewrite Z.log2_pow2; lia.
  - clear rem res j Hj Hrem Hres E. intros [[[rem res] b] d] (j & Hj & Hd & -> & Hrem & Hres & E) _.
    assert (Hd0 : 0 < d) by (rewrite Hd; lia).
    assert (Hstep : exists rem' res', (if base * d <=? rem then (u64 (rem - base * d), u64 (res + d)) else (rem, res)) = (rem', res')
       /\ 0 <= rem' < base * d /\ 0 <= res' /\ rem' + base * res' = n).
    { destruct (Z.leb_spec (base * d) rem).
      - exists (rem - base * d), (res + d). rewrite !u64_id by (unfold is_u64; nia).
        repeat split; nia.
      - exists rem, res. repeat split; lia. }
    destruct Hstep as (rem' & res' & -> & Hr' & Hs' & E'). cbv zeta.
    assert (Hh := half_pow2 j ltac:(lia)). rewrite <- Hd in Hh.
    destruct (Z.eqb_spec j 0) as [->|Hj0]; rewrite Hh.
    + change (negb (0 =? 0)) with false. cbv iota. wp_steps. change (2 ^ 0) with 1 in Hd. subst d. lia.
    + assert (Ed : d = 2 * 2 ^ (j - 1)) by (rewrite Hd, <- Z.pow_succ_r by lia; f_equal; lia).
      destruct (Z.eqb_spec (2 ^ (j - 1)) 0); [lia|]. cbn [negb]. wp_steps. split.
      * exists (j - 1). rewrite Z.shiftr_div_pow2 by lia. change (2 ^ 1) with 2.
        replace (base * d / 2) with (base * 2 ^ (j - 1))
          by (rewrite Ed; apply Z.div_unique with 0; lia).
        repeat split; lia.
      * rewrite Hd, !Z.log2_pow2 by lia. lia.
Qed.

Lemma div_mod_of_eq n base rem res : 0 < base -> 0 <= rem < base -> rem + base * res = n ->
  res = n / base /\ rem = n mod base.
Proof. intros ? ? ?. split; [apply Z.div_unique with rem; lia|apply Z.mod_unique with res; lia]. Qed.

Lemma __div64_32_ok n base : is_u64 n -> 0 < base < 2 ^ 32 ->
  __div64_32 n base = Ok (n / base, n mod base).
Proof.
  intros Hn Hb. apply wp_eq. unfold __div64_32. destruct (Z.eqb_spec base 0); [lia|]. cbv zeta.
  set (high := u32 (Z.shiftr n 32)). unfold is_u64 in Hn.
  assert (Hhi : high = n / 2 ^ 32).
  { unfold high. rewrite Z.shiftr_div_pow2 by lia. apply u32_id. unfold is_u32.
    split; [apply Z.div_pos; lia|apply Z.div_lt_upper_bound; lia]. }
  assert (Hhr : 0 <= high < 2 ^ 32) by (unfold high; apply u32_range).
  assert (Hlow := Z.div_mod n (2 ^ 32) ltac:(lia)). rewrite <- Hhi in Hlow.
  assert (Hlr := Z.mod_pos_bound n (2 ^ 32) ltac:(lia)).
  assert (Hstart : exists res rem, (if base <=? high
      then (u64 (Z.shiftl (high / base) 32), u64 (n - u64 (Z.shiftl (u32 (high / base * base)) 32)))
      else (0, n)) = (res, rem) /\ is_u64 rem /\ 0 <= res /\ rem + base * res = n).
  { destruct (Z.leb_spec base high); [|exists 0, n; repeat split; unfold is_u64; lia].
    assert (Hq := Z.div_mod high base ltac:(lia)). assert (Hqr := Z.mod_pos_bound high base ltac:(lia)).
    assert (0 <= high / base <= high) by (split; [apply Z.div_pos; lia|apply Z.div_le_upper_bound; nia]).
    exists (high / base * 2 ^ 32), (n - high / base * base * 2 ^ 32).
    rewrite !Z.shiftl_mul_pow2 by lia. rewrite (u32_id (high / base * base)) by (unfold is_u32; nia).
    rewrite (u64_id (high / base * 2 ^ 32)) by (unfold is_u64; lia).
    rewrite (u64_id (high / base * base * 2 ^ 32)) by (unfold is_u64; nia).
    rewrite u64_id by (unfold is_u64; nia). repeat split; [nia|nia|lia|lia]. }
  destruct Hstart as (res & rem & -> & Hrem & Hres & E). wp_step.
  eapply wp_mono; [apply (div64_double_ok rem base Hrem Hb)|]. intros [b d] (j & Hj & -> & -> & Hlt & Hr).
  cbv beta iota. wp_step. unfold is_u64 in Hrem.
  eapply wp_mono; [apply (div64_subtract_ok n base rem res j); unfold is_u64; lia|].
  intros [r q] [Hr1 Hr2]. cbv beta iota. wp_steps.
  destruct (div_mod_of_eq n base r q) as [<- <-]; try lia. f_equal. apply u32_id. unfold is_u32. lia.
Qed.

Lemma do_div_ok n base : is_u64 n -> 0 < base < 2 ^ 32 -> do_div n base = Ok (n / base, n mod base).
Proof.
  intros Hn Hb. unfold do_div. destruct (Z.eqb_spec (Z.shiftr n 32) 0) as [E|];
    [|now apply __div64_32_ok]. destruct (Z.eqb_spec base 0); [lia|].
  rewrite Z.shiftr_div_pow2 in E by lia. unfold is_u64 in Hn.
  rewrite u32_id; [done|]. pose proof (Z.div_mod n (2 ^ 32)).
  pose proof (Z.mod_pos_bound n (2 ^ 32)). unfold is_u32. lia.
Qed.

(** C division of a signed 64-bit dividend rounds towards zero. *)
Lemma div_s64_rem_ok a b : - 2 ^ 63 < a < 2 ^ 63 -> - 2 ^ 31 < b < 2 ^ 31 -> b <> 0 ->
  div_s64_rem a b = Ok (Z.quot a b, Z.rem a b).
Proof.
  intros Ha Hb Hn. unfold div_s64_rem, div_u64_rem.
  rewrite (u32_id (Z.abs b)) by (unfold is_u32; lia).
  assert (Hq : 0 <= Z.abs a / Z.abs b <= Z.abs a)
    by (split; [apply Z.div_pos; lia|apply Z.div_le_upper_bound; nia]).
  assert (Hm := Z.mod_pos_bound (Z.abs a) (Z.abs b) ltac:(lia)).
  assert (Hneg : forall q, 0 <= q < 2 ^ 63 -> s64 (u64 (- q)) = - q).
  { intros q Hq'. destruct (Z.eq_dec q 0) as [->|]; [reflexivity|]. unfold u64.
    rewrite <- (Z.mod_unique (- q) (2 ^ 64) (-1) (2 ^ 64 - q)) by lia. rewrite s64_big; lia. }
  destruct (Z.ltb_spec a 0).
  - rewrite (u64_id (- a)) by (unfold is_u64; lia).
    rewrite do_div_ok by (unfold is_u64; lia). cbn [mbind res_bind].
    replace (- a) with (Z.abs a) by lia.
    rewrite (s32_id (Z.abs a mod Z.abs b)), s32_id by (unfold is_s32; lia). f_equal. f_equal.
    + rewrite <- Z.quot_div_nonneg by lia. destruct (Z.ltb_spec 0 b).
      * rewrite Hneg, (Z.abs_neq a), (Z.abs_eq b), Z.quot_opp_l by (rewrite ?Z.quot_div_nonneg; lia). lia.
      * rewrite s64_id, (Z.abs_neq a), (Z.abs_neq b) by (rewrite ?Z.quot_div_nonneg; lia).
        rewrite Z.quot_opp_l, Z.quot_opp_r; lia.
    + rewrite <- Z.rem_mod_nonneg by lia. rewrite Z.rem_abs_r by lia.
      replace (Z.abs a) with (- a) by lia. rewrite Z.rem_opp_l by lia. lia.
  - rewrite (u64_id a) by (unfold is_u64; lia).
    rewrite do_div_ok by (unfold is_u64; lia). cbn [mbind res_bind].
    replace (Z.abs a) with a in * by lia.
    rewrite s32_id by (unfold is_s32; lia). f_equal. f_equal.
    + rewrite <- Z.quot_div_nonneg by lia. destruct (Z.ltb_spec b 0).
      * rewrite Hneg, (Z.abs_neq b), Z.quot_opp_r by (rewrite ?Z.quot_div_nonneg; lia). lia.
      * rewrite s64_id by (rewrite Z.quot_div_nonneg; lia). rewrite Z.abs_eq; lia.
    + rewrite <- Z.rem_mod_nonneg by lia. now rewrite Z.rem_abs_r by lia.
Qed.

(** Truncating the divisor to its 32 leading bits overestimates by at most one. *)
Lemma div64_u64_error n v s : is_u64 n -> 1 <= s <= 32 -> 2 ^ (31 + s) <= v < 2 ^ (32 + s) ->
  let q := Z.shiftr n s / Z.shiftr v s in n / v <= q <= n / v + 1.
Proof.
  unfold is_u64. intros Hn Hs Hv. cbv zeta. rewrite !Z.shiftr_div_pow2 by lia.
  set (p := 2 ^ s) in *. assert (Hp : 2 <= p <= 2 ^ 32)
    by (split; [change 2 with (2 ^ 1) at 1|]; apply Z.pow_le_mono_r; lia).
  rewrite !Z.pow_add_r in Hv by lia. fold p in Hv.
  assert (Hvm := Z.div_mod v p ltac:(lia)). assert (Hvr := Z.mod_pos_bound v p ltac:(lia)).
  set (v' := v / p) in *. assert (Hv' : 2 ^ 31 <= v' < 2 ^ 32)
    by (unfold v'; split; [apply Z.div_le_lower_bound|apply Z.div_lt_upper_bound]; lia).
  rewrite Z.div_div by lia. set (q' := n / (p * v')) in *.
  assert (Hq := Z.div_mod n (p * v') ltac:(nia)). assert (Hqr := Z.mod_pos_bound n (p * v') ltac:(nia)).
  fold q' in Hq. set (r := n mod (p * v')) in *. set (e := v mod p) in *. split.
  - unfold q'. apply Z.div_le_compat_l; nia.
  - assert (0 <= q') by (unfold q'; apply Z.div_pos; nia).
    enough ((q' - 1) * v <= n) by (assert (q' - 1 <= n / v) by (apply Z.div_le_lower_bound; lia); lia).
    assert (Hpq : q' * p <= 2 ^ 33) by nia.
    assert (q' * e <= p * v').
    { assert (q' * e <= q' * p - q') by nia. destruct (Z.le_gt_cases 4 p); [nia|]. nia. }
    nia.
Qed.

Lemma div64_u64_ok n v : is_u64 n -> is_u64 v -> v <> 0 ->
  exists q, div64_u64 n v = Ok q /\ n / v <= q <= n / v + 1 /\ (v < 2 ^ 32 -> q = n / v).
Proof.
  intros Hn Hv Hv0. unfold is_u64 in Hv. unfold div64_u64, div_u64_rem.
  assert (Hhi : u32 (Z.shiftr v 32) = v / 2 ^ 32).
  { rewrite Z.shiftr_div_pow2 by lia. apply u32_id. unfold is_u32.
    split; [apply Z.div_pos; lia|apply Z.div_lt_upper_bound; lia]. }
  rewrite Hhi. assert (Hd := Z.div_mod v (2 ^ 32) ltac:(lia)). assert (Hm := Z.mod_pos_bound v (2 ^ 32) ltac:(lia)).
  destruct (Z.eqb_spec (v / 2 ^ 32) 0) as [E|Hne]; cbn [negb].
  - rewrite u32_id by (unfold is_u32; lia). rewrite do_div_ok by (done || lia). exists (n / v).
    cbn [mbind res_bind]. repeat split; lia.
  - assert (Hh : is_u32 (v / 2 ^ 32)) by (rewrite <- Hhi; apply u32_range).
    rewrite fls_spec by done. destruct (Z.eqb_spec (v / 2 ^ 32) 0) as [|_]; [done|].
    set (h := v / 2 ^ 32) in *. unfold is_u32 in Hh.
    destruct (Z.log2_spec h ltac:(lia)) as [Hl1 Hl2]. set (l := Z.log2 h) in *.
    assert (Hl : 0 <= l < 32) by (split; [apply Z.log2_nonneg|apply Z.log2_lt_pow2; lia]).
    assert (Hvs : 2 ^ (31 + (l + 1)) <= v < 2 ^ (32 + (l + 1))).
    { replace (31 + (l + 1)) with (32 + l) by lia. rewrite !Z.pow_add_r by lia.
      rewrite Z.pow_succ_r in Hl2 by lia. change (2 ^ 1) with 2. nia. }
    assert (Hsh : 2 ^ 31 <= Z.shiftr v (l + 1) < 2 ^ 32).
    { rewrite Z.shiftr_div_pow2 by lia. rewrite !Z.pow_add_r in Hvs by lia.
      split; [apply Z.div_le_lower_bound|apply Z.div_lt_upper_bound]; rewrite ?Z.pow_add_r; lia. }
    rewrite u32_id by (unfold is_u32; lia).
    rewrite do_div_ok; [|apply shiftr_range; auto; lia|lia]. cbn [mbind res_bind].
    eexists. split; [reflexivity|]. split; [apply div64_u64_error; auto; lia|]. lia.
Qed.

(** the 64-bit division helpers. [do_div] (with the shift-and-subtract
    [__div64_32]) ends and gives quotient and remainder of every 64-bit
    dividend by every non-zero 32-bit divisor; [div_s64_rem] rounds towards
    zero as C division does; [div64_u64] is exact for divisors below 2^32 and
    otherwise at most one too large, a bound that is reached. *)
Lemma division_fact n base a b v :
  is_u64 n -> 0 < base < 2 ^ 32 ->
  - 2 ^ 63 < a < 2 ^ 63 -> - 2 ^ 31 < b < 2 ^ 31 -> b <> 0 ->
  is_u64 v -> v <> 0 ->
  do_div n base = Ok (n / base, n mod base) /\
  __div64_32 n base = Ok (n / base, n mod base) /\
  div_s64_rem a b = Ok (Z.quot a b, Z.rem a b) /\
  (exists q, div64_u64 n v = Ok q /\ n / v <= q <= n / v + 1 /\ (v < 2 ^ 32 -> q = n / v)) /\
  div64_u64 (2 ^ 32) (2 ^ 32 + 1) = Ok (2 ^ 32 / (2 ^ 32 + 1) + 1).
Proof.
  intros. split; [now apply do_div_ok|]. split; [now apply __div64_32_ok|].
  split; [now apply div_s64_rem_ok|]. split; [now apply div64_u64_ok|]. vm_compute; reflexivity.
Qed.

(** * Continued fractions *)

Definition euclid_measure (n d : Z) : Z :=
  if d =? 0 then 0 else 1 + Z.log2 (n * d) + Z.b2z (n <? d).

Lemma euclid_measure_step n d : 0 <= n -> 0 < d ->
  0 <= euclid_measure d (n mod d) < euclid_measure n d.
Proof.
  intros Hn Hd. unfold euclid_measure. destruct (Z.eqb_spec d 0); [lia|].
  assert (Hr := Z.mod_pos_bound n d Hd). pose proof (Z.log2_nonneg (n * d)).
  pose proof (Z.log2_nonneg (d * (n mod d))).
  destruct (Z.eqb_spec (n mod d) 0) as [|Hne]; [destruct (Z.ltb_spec n d); cbn [Z.b2z]; lia|].
  destruct (Z.ltb_spec d (n mod d)); [lia|]. cbn [Z.b2z].
  destruct (Z.ltb_spec n d) as [Hlt|Hge]; cbn [Z.b2z].
  - rewrite (Z.mod_small n d) in * by lia. rewrite (Z.mul_comm d n). lia.
  - assert (Hq := Z.div_mod n d ltac:(lia)).
    assert (1 <= n / d) by (apply Z.div_le_lower_bound; lia).
    assert (2 * (d * (n mod d)) <= n * d) by nia.
    assert (Z.log2 (2 * (d * (n mod d))) <= Z.log2 (n * d)) by (apply Z.log2_le_mono; lia).
    rewrite Z.log2_double in * by nia. lia.
Qed.

Lemma bezout_coprime a b u v : u * a + v * b = 1 \/ u * a + v * b = -1 -> Z.gcd a b = 1.
Proof.
  intros H. assert (Hd : (Z.gcd a b | u * a + v * b)).
  { apply Z.divide_add_r; apply Z.divide_mul_r; [apply Z.gcd_divide_l|apply Z.gcd_divide_r]. }
  pose proof (Z.gcd_nonneg a b). destruct H as [H|H]; rewrite H in Hd.
  - now apply Z.divide_1_r_nonneg.
  - apply Z.divide_opp_r in Hd. now apply Z.divide_1_r_nonneg.
Qed.

Section rational.
Context (N D maxn maxd : Z) (HN : is_u32 N) (HD : is_u32 D) (HD0 : 0 < D).
Context (Hmn : 1 <= maxn) (Hmd : 1 <= maxd).

(** Two consecutive convergents n0/d0 and n1/d1 and the state of Euclid's
    algorithm that reconstructs the given fraction from them. *)
Definition convergents (s : Z * Z * Z * Z * Z * Z) : Prop :=
  let '(n, d, n0, d0, n1, d1) := s in
  0 < n + d /\ (0 < n \/ n1 = 1 /\ d1 = 0) /\ is_u32 n /\ is_u32 d /\ 0 <= n0 /\ 0 <= d0 /\ 0 <= n1 /\ 0 <= d1 /\
  N = n * n1 + d * n0 /\ D = n * d1 + d * d0 /\ Z.gcd n d = Z.gcd N D /\
  (n1 * d0 - n0 * d1 = 1 \/ n1 * d0 - n0 * d1 = -1) /\
  (n0 <= maxn /\ d0 <= maxd).

Definition rational_post (r : Z * Z) : Prop :=
  let '(bn, bd) := r in
  0 <= bn <= maxn /\ 0 <= bd <= maxd /\ Z.gcd bn bd = 1 /\
  (N / Z.gcd N D <= maxn -> D / Z.gcd N D <= maxd ->
   bn = N / Z.gcd N D /\ bd = D / Z.gcd N D).

Lemma convergent_le n d n0 n1 X : 0 < n -> 0 <= d -> 0 <= n0 -> 0 <= n1 ->
  X = n * n1 + d * n0 -> Z.gcd n d = Z.gcd N D -> n1 <= X / Z.gcd N D.
Proof using HD0.
  intros Hn Hd H0 H1 -> Hg.
  assert (Hgp : 0 < Z.gcd N D).
  { pose proof (Z.gcd_nonneg N D). enough (Z.gcd N D <> 0) by lia. intros E.
    apply Z.gcd_eq_0_r in E. lia. }
  assert (Z.gcd N D <= n) by (rewrite <- Hg; apply Z.divide_pos_le; [lia|apply Z.gcd_divide_l]).
  apply Z.div_le_lower_bound; nia.
Qed.

Lemma rational_exact n n1 d1 n0 d0 : 0 < n ->
  N = n * n1 + 0 * n0 -> D = n * d1 + 0 * d0 -> Z.gcd n 0 = Z.gcd N D ->
  n1 = N / Z.gcd N D /\ d1 = D / Z.gcd N D.
Proof using Type.
  intros Hn EN ED Hg. rewrite <- Hg, Z.gcd_0_r, Z.abs_eq by lia.
  split; apply Z.div_unique with 0; lia.
Qed.

Lemma convergents_step n d n0 d0 n1 d1 : convergents (n, d, n0, d0, n1, d1) ->
  n1 <= maxn -> d1 <= maxd -> 0 < d ->
  convergents (d, n mod d, n1, d1, u32 (n0 + u32 (n / d * n1)), u32 (d0 + u32 (n / d * d1))).
Proof using HN HD HD0 Hmn Hmd.
  intros (Hnd & Hn' & Hn & Hd & Hn0 & Hd0 & Hn1 & Hd1 & EN & ED & Hg & Hdet & Hm) H1 H2 Hd3.
  unfold convergents, is_u32 in *.
  assert (Hr := Z.mod_pos_bound n d Hd3). assert (Hq := Z.div_mod n d ltac:(lia)).
  assert (0 <= n / d) by (apply Z.div_pos; lia). set (a := n / d) in *. set (r := n mod d) in *.
  assert (EN' : N = d * (n0 + a * n1) + r * n1) by (rewrite EN, Hq; ring).
  assert (ED' : D = d * (d0 + a * d1) + r * d1) by (rewrite ED, Hq; ring).
  assert (0 <= a * n1) by (apply Z.mul_nonneg_nonneg; lia).
  assert (0 <= a * d1) by (apply Z.mul_nonneg_nonneg; lia).
  assert (forall X y z, 0 <= y -> 0 <= z -> X = d * y + r * z -> y <= X) as Hle by (clear - Hd3 Hr; intros; nia).
  apply Hle in EN' as HN'; [|lia|lia]. apply Hle in ED' as HD'; [|lia|lia].
  rewrite (u32_id (a * n1)), (u32_id (a * d1)) by (unfold is_u32; lia).
  rewrite !u32_id by (unfold is_u32; lia).
  assert (Hg' : Z.gcd d r = Z.gcd N D)
    by (rewrite <- Hg, (Z.gcd_comm n d); unfold r; rewrite (Z.gcd_comm d (n mod d)), Z.gcd_mod by lia; reflexivity).
  assert (Hdet' : (n0 + a * n1) * d1 - n1 * (d0 + a * d1) = - (n1 * d0 - n0 * d1)) by ring.
  assert (0 <= n0 + a * n1 /\ 0 <= d0 + a * d1) as [] by lia.
  rewrite Hdet'. clear Hq EN ED Hg Hdet'. repeat (split; [first [assumption | lia]|]); lia.
Qed.

Lemma rational_ok : wp (rational_best_approximation N D maxn maxd) rational_post.
Proof using HN HD HD0 Hmn Hmd.
  unfold rational_best_approximation.
  apply (wp_loop convergents (fun '(n, d, _, _, _, _) => euclid_measure n d)).
  - unfold convergents, is_u32 in *. repeat split; lia.
  - unfold euclid_measure, is_u32 in *. destruct (Z.eqb_spec D 0); [lia|].
    pose proof (Z.log2_nonneg (N * D)).
    assert (Z.log2 (N * D) < 64).
    { destruct (Z.eq_dec N 0) as [->|]; [rewrite Z.mul_0_l; change (Z.log2 0) with 0; lia|]. apply Z.log2_lt_pow2; nia. }
    destruct (N <? D); cbn [Z.b2z]; lia.
  - intros [[[[[n d] n0] d0] n1] d1] Hc _. pose proof Hc as
      (Hnd & Hn' & Hn & Hd & Hn0 & Hd0 & Hn1 & Hd1 & EN & ED & Hg & Hdet & Hm). unfold is_u32 in *.
    assert (Hle : 0 < n -> n1 <= N / Z.gcd N D /\ d1 <= D / Z.gcd N D)
      by (intros; split; [apply (convergent_le n d n0)|apply (convergent_le n d d0)]; lia).
    destruct (Z.ltb_spec maxn n1) as [Hx|Hx]; [|destruct (Z.ltb_spec maxd d1) as [Hy|Hy]];
      cbn [orb].
    1-2: wp_steps; repeat split; try lia; apply (bezout_coprime _ _ (- d1) n1); lia.
    destruct (Z.eqb_spec d 0) as [->|Hdn]; wp_steps.
    + repeat split; try lia; [apply (bezout_coprime _ _ d0 (- n0)); lia| |];
        apply (rational_exact n n1 d1 n0 d0); lia.
    + split; [apply convergents_step; auto; lia|]. apply euclid_measure_step; lia.
Qed.
End rational.

(** [rational_best_approximation] ends, its result is a reduced fraction
    within the two maxima, and it is the given fraction in lowest terms
    whenever that one fits. It is not the best approximation in general: a
    given value above every representable one yields the fraction 1/0. *)
Lemma rational_best_approximation_fact N D maxn maxd :
  is_u32 N -> is_u32 D -> 0 < D -> 1 <= maxn -> 1 <= maxd ->
  (exists bn bd, rational_best_approximation N D maxn maxd = Ok (bn, bd) /\
    0 <= bn <= maxn /\ 0 <= bd <= maxd /\ Z.gcd bn bd = 1 /\
    (N / Z.gcd N D <= maxn -> D / Z.gcd N D <= maxd ->
     bn = N / Z.gcd N D /\ bd = D / Z.gcd N D)) /\
  rational_best_approximation 1230 10 100 20 = Ok (1, 0).
Proof.
  intros H1 H2 H3 H4 H5. split; [|vm_compute; reflexivity].
  destruct (proj1 (wp_exists _ _) (rational_ok N D maxn maxd H1 H2 H3 H4 H5)) as ([bn bd] & E & H).
  exists bn, bd. split; [exact E|exact H].
Qed.

(** * Reciprocal division and binary-coded decimals *)

Lemma reciprocal_value_ok B : 1 < B < 2 ^ 32 -> reciprocal_value B = Ok ((2 ^ 32 + B - 1) / B).
Proof.
  intros HB. unfold reciprocal_value. change (Z.shiftl 1 32) with (2 ^ 32).
  rewrite (u32_id (B - 1)) by (unfold is_u32; lia). rewrite u64_id by (unfold is_u64; lia).
  rewrite do_div_ok by (unfold is_u64; lia). cbn [mbind res_bind].
  rewrite u32_id; [f_equal; f_equal; lia|].
  split; [apply Z.div_pos; lia|apply Z.div_lt_upper_bound; nia].
Qed.

Lemma reciprocal_divide_ok A B R : 0 <= A -> 1 < B -> A * (B - 1) < 2 ^ 32 ->
  A < 2 ^ 32 -> R = (2 ^ 32 + B - 1) / B -> reciprocal_divide A R = A / B.
Proof.
  intros HA HB HAB HA2 ->. unfold reciprocal_divide.
  assert (Hq := Z.div_mod (2 ^ 32 + B - 1) B ltac:(lia)).
  assert (Hr := Z.mod_pos_bound (2 ^ 32 + B - 1) B ltac:(lia)).
  set (R := (2 ^ 32 + B - 1) / B) in *. set (r := (2 ^ 32 + B - 1) mod B) in *.
  assert (HR : 0 <= R < 2 ^ 32) by nia.
  rewrite u64_id by (unfold is_u64; nia). rewrite Z.shiftr_div_pow2 by lia.
  assert (E : A * R / 2 ^ 32 = A / B).
  { assert (HA3 := Z.div_mod A B ltac:(lia)). assert (Ha := Z.mod_pos_bound A B ltac:(lia)).
    set (q := A / B) in *. set (a := A mod B) in *.
    symmetry. apply Z.div_unique with (A * R - q * 2 ^ 32); [|lia]. left.
    assert (B * (A * R) = A * 2 ^ 32 + A * (B - 1 - r)) by nia.
    assert (0 <= A * (B - 1 - r) < 2 ^ 32) by nia.
    assert (B * (A * R - q * 2 ^ 32) = a * 2 ^ 32 + A * (B - 1 - r)) by nia. nia. }
  rewrite E. apply u32_id. split; [apply Z.div_pos; lia|]. apply Z.div_lt_upper_bound; nia.
Qed.

Lemma bcd_roundtrip v : 0 <= v < 100 -> bcd2bin (bin2bcd v) = v /\ is_u8 (bin2bcd v).
Proof.
  intros Hv. assert (Hall : forallb (fun n => (bcd2bin (bin2bcd (Z.of_nat n)) =? Z.of_nat n) &&
    (bin2bcd (Z.of_nat n) <? 256) && (0 <=? bin2bcd (Z.of_nat n))) (seq 0 100) = true)
    by (vm_compute; reflexivity).
  rewrite forallb_forall in Hall. specialize (Hall (Z.to_nat v) ltac:(apply in_seq; lia)).
  rewrite Z2Nat.id in Hall by lia. apply andb_prop in Hall as [Hall ?].
  apply andb_prop in Hall as [? ?]. unfold is_u8. lia.
Qed.

(** dividing by a precomputed reciprocal gives the quotient when
    A * (B - 1) fits in 32 bits and B is at least 2; for B = 1 the stored
    reciprocal wraps to 0, so every quotient comes out 0, and beyond the bound
    the quotient can be one too large. Two-digit numbers
    survive the conversion to binary-coded decimal and back. *)
Lemma reciprocal_bcd_fact A B v :
  0 <= A < 2 ^ 32 -> 1 < B < 2 ^ 32 -> A * (B - 1) < 2 ^ 32 -> 0 <= v < 100 ->
  (R ← reciprocal_value B; Ok (reciprocal_divide A R)) = Ok (A / B) /\
  (R ← reciprocal_value 1; Ok (reciprocal_divide A R)) = Ok 0 /\
  (R ← reciprocal_value 3; Ok (reciprocal_divide 4294967294 R)) = Ok (4294967294 / 3 + 1) /\
  bcd2bin (bin2bcd v) = v /\ is_u8 (bin2bcd v).
Proof.
  intros HA HB HAB Hv. split; [|split; [|split; [|now apply bcd_roundtrip]]].
  - rewrite reciprocal_value_ok by lia. cbn [mbind res_bind]. f_equal. now apply (reciprocal_divide_ok A B); try lia.
  - replace (reciprocal_value 1) with (Ok 0) by (vm_compute; reflexivity). cbn [mbind res_bind].
    unfold reciprocal_divide. now rewrite Z.mul_0_r.
  - vm_compute. reflexivity.
Qed.

(** [gcd] of two non-zero words is their greatest common divisor (a zero
    argument makes it divide by zero), and [int_sqrt] is the integer square
    root of every word; both end. *)
Lemma gcd_int_sqrt_fact a b x :
  is_u32 a -> is_u32 b -> is_u32 x -> 0 < a -> 0 < b ->
  gcd a b = Ok (Z.gcd a b) /\ gcd 0 b = Err DivideByZero /\ gcd a 0 = Err DivideByZero /\
  int_sqrt x = Ok (Z.sqrt x).
Proof.
  intros Ha Hb Hx H1 H2. split; [now apply gcd_ok|]. split; [|split; [|now apply int_sqrt_ok]].
  - unfold gcd. now destruct (Z.ltb_spec 0 b); [|lia].
  - unfold gcd. now destruct (Z.ltb_spec a 0); [lia|].
Qed.

(** the 64-bit division helpers. [do_div] (with the shift-and-subtract
    [__div64_32]) ends and gives quotient and remainder of every 64-bit
    dividend by every non-zero 32-bit divisor; [div_s64_rem] rounds towards
    zero as C division does; [div64_u64] is exact for divisors below 2^32 and
    otherwise at most one too large, a bound that is reached.  Dividing by a precomputed reciprocal gives the quotient when
    A * (B - 1) fits in 32 bits and B is at least 2; for B = 1 the stored
    reciprocal wraps to 0, so every quotient comes out 0, and beyond the bound
    the quotient can be one too large. Two-digit numbers
    survive the conversion to binary-coded decimal and back. *)
Lemma division_facts :
  (forall n base a b v,
   is_u64 n -> 0 < base < 2 ^ 32 ->
   - 2 ^ 63 < a < 2 ^ 63 -> - 2 ^ 31 < b < 2 ^ 31 -> b <> 0 ->
   is_u64 v -> v <> 0 ->
   do_div n base = Ok (n / base, n mod base) /\
   __div64_32 n base = Ok (n / base, n mod base) /\
   div_s64_rem a b = Ok (Z.quot a b, Z.rem a b) /\
   (exists q, div64_u64 n v = Ok q /\ n / v <= q <= n / v + 1 /\ (v < 2 ^ 32 -> q = n / v)) /\
   div64_u64 (2 ^ 32) (2 ^ 32 + 1) = Ok (2 ^ 32 / (2 ^ 32 + 1) + 1)) /\
  (forall A B v,
   0 <= A < 2 ^ 32 -> 1 < B < 2 ^ 32 -> A * (B - 1) < 2 ^ 32 -> 0 <= v < 100 ->
   (R ← reciprocal_value B; Ok (reciprocal_divide A R)) = Ok (A / B) /\
   (R ← reciprocal_value 1; Ok (reciprocal_divide A R)) = Ok 0 /\
   (R ← reciprocal_value 3; Ok (reciprocal_divide 4294967294 R)) = Ok (4294967294 / 3 + 1) /\
   bcd2bin (bin2bcd v) = v /\ is_u8 (bin2bcd v)).
Proof. split; [exact division_fact|]. exact reciprocal_bcd_fact. Qed.

(** [gcd] of two non-zero words is their greatest common divisor (a zero
    argument makes it divide by zero), and [int_sqrt] is the integer square root
    of every word; both end. [rational_best_approximation] ends, its result is a
    reduced fraction within the two maxima, and it is the given fraction in lowest
    terms whenever that one fits. It is not the best approximation in general: a
    given value above every representable one yields the fraction 1/0. *)
Lemma gcd_sqrt_rational_facts :
  (forall a b x,
   is_u32 a -> is_u32 b -> is_u32 x -> 0 < a -> 0 < b ->
   gcd a b = Ok (Z.gcd a b) /\ gcd 0 b = Err DivideByZero /\ gcd a 0 = Err DivideByZero /\
   int_sqrt x = Ok (Z.sqrt x)) /\
  (forall N D maxn maxd,
   is_u32 N -> is_u32 D -> 0 < D -> 1 <= maxn -> 1 <= maxd ->
   (exists bn bd, rational_best_approximation N D maxn maxd = Ok (bn, bd) /\
     0 <= bn <= maxn /\ 0 <= bd <= maxd /\ Z.gcd bn bd = 1 /\
     (N / Z.gcd N D <= maxn -> D / Z.gcd N D <= maxd ->
      bn = N / Z.gcd N D /\ bd = D / Z.gcd N D)) /\
   rational_best_approximation 1230 10 100 20 = Ok (1, 0)).
Proof. split; [exact gcd_int_sqrt_fact|]. exact rational_best_approximation_fact. Qed.

(** C38: the 64-bit division helpers. [do_div] (with the shift-and-subtract
    [__div64_32]) ends and gives quotient and remainder of every 64-bit
    dividend by every non-zero 32-bit divisor; [div_s64_rem] rounds towards
    zero as C division does; [div64_u64] is exact for divisors below 2^32
    and otherwise at most one too large, a bound that is reached. Dividing
    by a precomputed reciprocal gives the quotient when A * (B - 1) fits in
    32 bits and B is at least 2; for B = 1 the stored reciprocal wraps to 0,
    so every quotient comes out 0, and beyond the bound the quotient can be
    one too large. Two-digit numbers survive the conversion to binary-coded
    decimal and back. [gcd] of two non-zero words is their greatest common
    divisor (a zero argument makes it divide by zero), and [int_sqrt] is the
    integer square root of every word; both end.
    [rational_best_approximation] ends, its result is a reduced fraction
    within the two maxima, and it is the given fraction in lowest terms
    whenever that one fits. It is not the best approximation in general: a
    given value above every representable one yields the fraction 1/0. *)
Theorem arithmetic_correct :
  ((forall n base a b v,
    is_u64 n -> 0 < base < 2 ^ 32 ->
    - 2 ^ 63 < a < 2 ^ 63 -> - 2 ^ 31 < b < 2 ^ 31 -> b <> 0 ->
    is_u64 v -> v <> 0 ->
    do_div n base = Ok (n / base, n mod base) /\
    __div64_32 n base = Ok (n / base, n mod base) /\
    div_s64_rem a b = Ok (Z.quot a b, Z.rem a b) /\
    (exists q, div64_u64 n v = Ok q /\ n / v <= q <= n / v + 1 /\ (v < 2 ^ 32 -> q = n / v)) /\
    div64_u64 (2 ^ 32) (2 ^ 32 + 1) = Ok (2 ^ 32 / (2 ^ 32 + 1) + 1)) /\
   (forall A B v,
    0 <= A < 2 ^ 32 -> 1 < B < 2 ^ 32 -> A * (B - 1) < 2 ^ 32 -> 0 <= v < 100 ->
    (R ← reciprocal_value B; Ok (reciprocal_divide A R)) = Ok (A / B) /\
    (R ← reciprocal_value 1; Ok (reciprocal_divide A R)) = Ok 0 /\
    (R ← reciprocal_value 3; Ok (reciprocal_divide 4294967294 R)) = Ok (4294967294 / 3 + 1) /\
    bcd2bin (bin2bcd v) = v /\ is_u8 (bin2bcd v))) /\
  ((forall a b x,
    is_u32 a -> is_u32 b -> is_u32 x -> 0 < a -> 0 < b ->
    gcd a b = Ok (Z.gcd a b) /\ gcd 0 b = Err DivideByZero /\ gcd a 0 = Err DivideByZero /\
    int_sqrt x = Ok (Z.sqrt x)) /\
   (forall N D maxn maxd,
    is_u32 N -> is_u32 D -> 0 < D -> 1 <= maxn -> 1 <= maxd ->
    (exists bn bd, rational_best_approximation N D maxn maxd = Ok (bn, bd) /\
      0 <= bn <= maxn /\ 0 <= bd <= maxd /\ Z.gcd bn bd = 1 /\
      (N / Z.gcd N D <= maxn -> D / Z.gcd N D <= maxd ->
       bn = N / Z.gcd N D /\ bd = D / Z.gcd N D)) /\
    rational_best_approximation 1230 10 100 20 = Ok (1, 0))).
Proof. split; [exact division_facts|]. exact gcd_sqrt_rational_facts. Qed.

Lemma arithmetic_correct_witness :
  ((do_div (2 ^ 40 + 7) 1000 = Ok (1099511627, 783) /\ div_s64_rem (-7) 2 = Ok (-3, -1)) /\
   ((R ← reciprocal_value 7; Ok (reciprocal_divide 1000 R)) = Ok 142 /\ bcd2bin (bin2bcd 59) = 59)) /\
  ((gcd 48 180 = Ok 12 /\ int_sqrt 4294967295 = Ok 65535) /\
   (exists bn bd, rational_best_approximation 31415 10000 255 31 = Ok (bn, bd) /\ 0 <= bd <= 31)).
Proof.
  split.
  { split.
    { destruct ((proj1 (proj1 arithmetic_correct)) (2 ^ 40 + 7) 1000 (-7) 2 3 ltac:(unfold is_u64; lia) ltac:(lia)
        ltac:(lia) ltac:(lia) ltac:(lia) ltac:(unfold is_u64; lia) ltac:(lia)) as (H1 & _ & H2 & _).
      split; [exact H1|exact H2]. }
    { destruct ((proj2 (proj1 arithmetic_correct)) 1000 7 59 ltac:(lia) ltac:(lia) ltac:(lia) ltac:(lia))
        as (H1 & _ & _ & H2 & _). split; [exact H1|exact H2]. } }
  { split.
    { destruct ((proj1 (proj2 arithmetic_correct)) 48 180 4294967295 ltac:(unfold is_u32; lia) ltac:(unfold is_u32; lia)
        ltac:(unfold is_u32; lia) ltac:(lia) ltac:(lia)) as (H1 & _ & _ & H2).
      split; [exact H1|exact H2]. }
    { destruct ((proj2 (proj2 arithmetic_correct)) 31415 10000 255 31 ltac:(unfold is_u32; lia)
        ltac:(unfold is_u32; lia) ltac:(lia) ltac:(lia) ltac:(lia)) as [(bn & bd & E & _ & H & _) _].
      exists bn, bd. split; [exact E|exact H]. } }
Defined.
