(* ===== verification/Ring.v ===== *)
(** Byte blocks and ring buffers: [memcpy] with its bounds, and the two-part
    copies with which kfifo.c and logger.c go round the end of their buffer. *)
From S2P Require Import Prelude.

(** [memcpy(dst + doff, src + soff, n)] between distinct objects. *)
Definition memcpy (dst : list Z) (doff : Z) (src : list Z) (soff n : Z) : res (list Z) :=
  if n =? 0 then Ok dst else
  if (0 <=? doff) && (doff + n <=? zlen dst) && (0 <=? soff) && (soff + n <=? zlen src) && (0 <? n)
  then Ok (take (Z.to_nat doff) dst ++ take (Z.to_nat n) (drop (Z.to_nat soff) src) ++
           drop (Z.to_nat (doff + n)) dst)
  else Err OutOfBounds.

(** The [n] bytes of a ring that start at position [o]. *)
Definition ring_bytes (buf : list Z) (o n : Z) : list Z :=
  (fun k => at_ 0 buf ((o + Z.of_nat k) mod zlen buf)) <$> seq 0 (Z.to_nat n).

Lemma zlen_app {A} (l1 l2 : list A) : zlen (l1 ++ l2) = zlen l1 + zlen l2.
Proof. unfold zlen. rewrite length_app. lia. Qed.

Lemma zlen_take {A} (l : list A) n : 0 <= n <= zlen l -> zlen (take (Z.to_nat n) l) = n.
Proof. unfold zlen. intros. rewrite length_take. lia. Qed.

Lemma zlen_drop {A} (l : list A) n : 0 <= n <= zlen l -> zlen (drop (Z.to_nat n) l) = zlen l - n.
Proof. unfold zlen. intros. rewrite length_drop. lia. Qed.

Lemma at_app {A} (d : A) l1 l2 i : 0 <= i ->
  at_ d (l1 ++ l2) i = if i <? zlen l1 then at_ d l1 i else at_ d l2 (i - zlen l1).
Proof.
  unfold at_, zlen. intros Hi. destruct (Z.ltb_spec i (Z.of_nat (length l1))).
  - apply app_nth1. lia.
  - rewrite app_nth2 by lia. f_equal. lia.
Qed.

Lemma at_take {A} (d : A) l n i : 0 <= i < n -> at_ d (take (Z.to_nat n) l) i = at_ d l i.
Proof. unfold at_. intros. rewrite !nth_lookup, lookup_take_lt by lia. done. Qed.

Lemma at_drop {A} (d : A) l n i : 0 <= i -> 0 <= n -> at_ d (drop (Z.to_nat n) l) i = at_ d l (n + i).
Proof. unfold at_. intros. rewrite !nth_lookup, lookup_drop. do 2 f_equal. lia. Qed.

Lemma zlen_fmap {A B} (f : A -> B) l : zlen (f <$> l) = zlen l.
Proof. unfold zlen. now rewrite length_fmap. Qed.

Lemma memcpy_ok dst doff src soff n :
  0 <= n -> 0 <= doff -> doff + n <= zlen dst -> 0 <= soff -> soff + n <= zlen src ->
  exists b, memcpy dst doff src soff n = Ok b /\ zlen b = zlen dst /\
    forall j, 0 <= j -> at_ 0 b j =
      if (doff <=? j) && (j <? doff + n) then at_ 0 src (soff + (j - doff)) else at_ 0 dst j.
Proof.
  intros Hn Hd Hdn Hs Hsn. unfold memcpy. destruct (Z.eqb_spec n 0) as [->|Hne].
  { exists dst. repeat split. intros j Hj. rewrite Z.add_0_r.
    destruct (Z.leb_spec doff j), (Z.ltb_spec j doff); done || lia. }
  rewrite (proj2 (Z.leb_le 0 doff)), (proj2 (Z.leb_le _ (zlen dst))), (proj2 (Z.leb_le 0 soff)),
    (proj2 (Z.leb_le _ (zlen src))), (proj2 (Z.ltb_lt 0 n)) by lia. cbn [andb].
  assert (Hl : zlen (take (Z.to_nat n) (drop (Z.to_nat soff) src)) = n)
    by (apply zlen_take; rewrite zlen_drop; lia).
  eexists. split; [reflexivity|]. split.
  - rewrite !zlen_app, zlen_take, Hl, zlen_drop by lia. lia.
  - intros j Hj. rewrite at_app, zlen_take by lia.
    destruct (Z.ltb_spec j doff), (Z.leb_spec doff j); try lia; cbn [andb]; [now rewrite at_take by lia|].
    rewrite at_app, Hl by lia.
    destruct (Z.ltb_spec (j - doff) n), (Z.ltb_spec j (doff + n)); try lia.
    + rewrite at_take, at_drop by lia. done.
    + rewrite at_drop by lia. f_equal. lia.
Qed.

Lemma zlen_ring_bytes buf o n : 0 <= n -> zlen (ring_bytes buf o n) = n.
Proof. intros. unfold ring_bytes. rewrite zlen_fmap. unfold zlen. rewrite length_seq. lia. Qed.

Lemma at_ring_bytes buf o n i : 0 <= i < n -> at_ 0 (ring_bytes buf o n) i = at_ 0 buf ((o + i) mod zlen buf).
Proof.
  intros Hi. unfold ring_bytes, at_ at 1. rewrite nth_lookup, list_lookup_fmap, lookup_seq_lt by lia.
  cbn. do 2 f_equal. lia.
Qed.

(** Two lists of bytes with the same ring view. *)
Lemma ring_bytes_ext b1 b2 o n : 0 <= n ->
  (forall i, 0 <= i < n -> at_ 0 b1 ((o + i) mod zlen b1) = at_ 0 b2 ((o + i) mod zlen b2)) ->
  ring_bytes b1 o n = ring_bytes b2 o n.
Proof.
  intros Hn H. apply (list_at_ext 0); rewrite zlen_ring_bytes by done; [now rewrite zlen_ring_bytes|].
  intros i Hi. rewrite !at_ring_bytes by done. now apply H.
Qed.

Lemma ring_bytes_app buf o n m : 0 <= n -> 0 <= m ->
  ring_bytes buf o (n + m) = ring_bytes buf o n ++ ring_bytes buf (o + n) m.
Proof.
  intros Hn Hm. apply (list_at_ext 0).
  - rewrite zlen_app, !zlen_ring_bytes; lia.
  - rewrite zlen_ring_bytes by lia. intros i Hi.
    rewrite at_app, at_ring_bytes, zlen_ring_bytes by lia.
    destruct (Z.ltb_spec i n); rewrite at_ring_bytes by lia; [done|]. do 2 f_equal. lia.
Qed.

Lemma ring_bytes_mod buf o n : 0 < zlen buf -> 0 <= n -> ring_bytes buf (o mod zlen buf) n = ring_bytes buf o n.
Proof.
  intros Hb Hn. unfold ring_bytes. apply list_fmap_ext. intros i k _. now rewrite Zplus_mod_idemp_l.
Qed.

Lemma take_ring_bytes buf o n m : 0 <= n <= m -> take (Z.to_nat n) (ring_bytes buf o m) = ring_bytes buf o n.
Proof.
  intros H. replace m with (n + (m - n)) by lia. rewrite ring_bytes_app by lia.
  apply take_app_length'. pose proof (zlen_ring_bytes buf o n). unfold zlen in *. lia.
Qed.

Lemma drop_ring_bytes buf o n m : 0 <= n <= m ->
  drop (Z.to_nat n) (ring_bytes buf o m) = ring_bytes buf (o + n) (m - n).
Proof.
  intros H. replace m with (n + (m - n)) at 1 by lia. rewrite ring_bytes_app by lia.
  apply drop_app_length'. pose proof (zlen_ring_bytes buf o n). unfold zlen in *. lia.
Qed.

(** The position of a ring index relative to [o]. *)
Lemma ring_dist_wrap o j size : 0 <= o < size -> 0 <= j < size ->
  (j - o) mod size = if o <=? j then j - o else j - o + size.
Proof.
  intros Ho Hj. destruct (Z.leb_spec o j); [now rewrite Z.mod_small by lia|].
  symmetry. apply Z.mod_unique with (-1); lia.
Qed.

(** Copy [len] bytes of [src] into the ring at [off], in two parts. *)
Definition ring_copy_in (buf : list Z) (size off : Z) (src : list Z) (len : Z) : res (list Z) :=
  let l := Z.min len (size - off) in
  b ← memcpy buf off src 0 l;
  memcpy b 0 src l (len - l).

(** Copy [len] bytes of the ring at [off] into [dst], in two parts. *)
Definition ring_copy_out (dst buf : list Z) (size off len : Z) : res (list Z) :=
  let l := Z.min len (size - off) in
  d ← memcpy dst 0 buf off l;
  memcpy d l buf 0 (len - l).

Lemma ring_copy_in_ok buf off src len :
  0 <= off < zlen buf -> 0 <= len <= zlen buf -> len <= zlen src ->
  exists b, ring_copy_in buf (zlen buf) off src len = Ok b /\ zlen b = zlen buf /\
    forall j, 0 <= j < zlen buf -> at_ 0 b j =
      if (j - off) mod zlen buf <? len then at_ 0 src ((j - off) mod zlen buf) else at_ 0 buf j.
Proof.
  intros Ho Hl Hs. unfold ring_copy_in. set (l := Z.min len (zlen buf - off)).
  destruct (memcpy_ok buf off src 0 l) as (b & -> & Hb & Hb'); try lia. cbn [mbind res_bind].
  destruct (memcpy_ok b 0 src l (len - l)) as (b2 & -> & Hb2 & Hb2'); try lia.
  exists b2. split; [done|]. split; [lia|]. intros j Hj. rewrite Hb2', Hb', ring_dist_wrap by lia.
  destruct (Z.leb_spec 0 j); [|lia]. cbn [andb]. destruct (Z.leb_spec off j).
  - destruct (Z.ltb_spec j (0 + (len - l))); [lia|]. cbn [andb].
    destruct (Z.ltb_spec j (off + l)), (Z.ltb_spec (j - off) len); try lia; done.
  - cbn [andb]. destruct (Z.ltb_spec j (0 + (len - l))), (Z.ltb_spec (j - off + zlen buf) len); try lia.
    f_equal. lia.
Qed.

Lemma ring_copy_out_ok dst buf off len :
  0 <= off < zlen buf -> 0 <= len <= zlen buf -> len <= zlen dst ->
  ring_copy_out dst buf (zlen buf) off len = Ok (ring_bytes buf off len ++ drop (Z.to_nat len) dst).
Proof.
  intros Ho Hl Hs. unfold ring_copy_out. set (l := Z.min len (zlen buf - off)).
  destruct (memcpy_ok dst 0 buf off l) as (b & -> & Hb & Hb'); try lia. cbn [mbind res_bind].
  destruct (memcpy_ok b l buf 0 (len - l)) as (b2 & -> & Hb2 & Hb2'); try lia. f_equal.
  apply (list_at_ext 0).
  - rewrite zlen_app, zlen_ring_bytes, zlen_drop; lia.
  - intros j Hj. rewrite Hb2', Hb', at_app, zlen_ring_bytes by lia.
    destruct (Z.ltb_spec j len).
    + rewrite at_ring_bytes by lia. destruct (Z.leb_spec l j); cbn [andb].
      * destruct (Z.ltb_spec j (l + (len - l))); [|lia]. f_equal. apply Z.mod_unique with 1; lia.
      * destruct (Z.leb_spec 0 j), (Z.ltb_spec j (0 + l)); try lia. cbn [andb].
        f_equal. rewrite Z.mod_small by lia. lia.
    + rewrite at_drop by lia. destruct (Z.leb_spec l j), (Z.ltb_spec j (l + (len - l))),
        (Z.ltb_spec j (0 + l)); try lia; rewrite ?andb_false_r; cbn [andb]; f_equal; lia.
Qed.

(** What a copy into the ring does to its view: the written bytes appear, and
    bytes outside the written span keep their value. *)
Lemma ring_in_written buf b off src len : 0 <= off < zlen buf -> 0 <= len <= zlen buf -> zlen b = zlen buf ->
  len <= zlen src ->
  (forall j, 0 <= j < zlen buf -> at_ 0 b j =
     if (j - off) mod zlen buf <? len then at_ 0 src ((j - off) mod zlen buf) else at_ 0 buf j) ->
  ring_bytes b off len = take (Z.to_nat len) src.
Proof.
  intros Ho Hl Hb Hs H. apply (list_at_ext 0); rewrite zlen_ring_bytes by lia; [now rewrite zlen_take by lia|].
  intros i Hi. assert (Hm := Z.mod_pos_bound (off + i) (zlen buf) ltac:(lia)).
  rewrite at_ring_bytes, Hb, H, at_take by lia.
  replace (((off + i) mod zlen buf - off) mod zlen buf) with i
    by (rewrite Zminus_mod_idemp_l; rewrite Z.mod_small; lia).
  destruct (Z.ltb_spec i len); [done|lia].
Qed.

Lemma ring_in_kept buf b off src len o n : 0 <= off < zlen buf -> 0 <= len <= zlen buf -> zlen b = zlen buf ->
  (forall j, 0 <= j < zlen buf -> at_ 0 b j =
     if (j - off) mod zlen buf <? len then at_ 0 src ((j - off) mod zlen buf) else at_ 0 buf j) ->
  0 <= n -> (exists k, off + len <= o + k * zlen buf /\ o + n + k * zlen buf <= off + zlen buf) ->
  ring_bytes b o n = ring_bytes buf o n.
Proof.
  intros Ho Hl Hb H Hn (k & Hk1 & Hk2). apply ring_bytes_ext; [done|]. intros i Hi.
  assert (Hm := Z.mod_pos_bound (o + i) (zlen buf) ltac:(lia)). rewrite Hb, H by lia.
  rewrite Zminus_mod_idemp_l.
  replace ((o + i - off) mod zlen buf) with (o + i - off + k * zlen buf)
    by (apply Z.mod_unique with (- k); lia).
  destruct (Z.ltb_spec (o + i - off + k * zlen buf) len); [lia|done].
Qed.

(** Masks and 32-bit wrap-around against a power-of-two size. *)
Lemma land_mask x k : 0 <= k -> Z.land x (2 ^ k - 1) = x mod 2 ^ k.
Proof. intros. rewrite <- Z.land_ones by done. now rewrite Z.ones_equiv, Z.sub_1_r. Qed.

Lemma u32_mod_pow2 x k : 0 <= k <= 32 -> u32 x mod 2 ^ k = x mod 2 ^ k.
Proof.
  intros. unfold u32. replace (2 ^ 32) with (2 ^ k * 2 ^ (32 - k)) by (rewrite <- Z.pow_add_r by lia; f_equal; lia).
  rewrite Z.rem_mul_r by lia. rewrite Z.mul_comm, Z.mod_add, Zmod_mod by lia. done.
Qed.

Lemma ring_bytes_congr buf o o' n : 0 < zlen buf -> 0 <= n ->
  o mod zlen buf = o' mod zlen buf -> ring_bytes buf o n = ring_bytes buf o' n.
Proof. intros Hb Hn E. rewrite <- ring_bytes_mod, E by done. now apply ring_bytes_mod. Qed.
