(* ===== verification/UserCopy.v ===== *)
(** Copies between kernel and user memory, shared by the device drivers. *)

From S2P Require Import Prelude.
From S2P Require Import Ring.

(** User memory is the list of bytes that are accessible at the address; a
    copy moves what is accessible and returns the number of bytes missed. *)
Definition copy_to_user (u : list Z) (uoff : Z) (src : list Z) (soff n : Z) : res (list Z * Z) :=
  let m := Z.max 0 (Z.min n (zlen u - uoff)) in
  u ← memcpy u uoff src soff m;
  Ok (u, n - m).

(** The kernel side of a short copy is filled with zeros. *)
Definition user_bytes (u : list Z) (uoff n : Z) : list Z :=
  take (Z.to_nat n) (drop (Z.to_nat uoff) u ++ replicate (Z.to_nat n) 0).
Definition copy_from_user (dst : list Z) (doff : Z) (u : list Z) (uoff n : Z) : res (list Z * Z) :=
  d ← memcpy dst doff (user_bytes u uoff n) 0 n;
  Ok (d, n - Z.max 0 (Z.min n (zlen u - uoff))).

Lemma zlen_user_bytes u uoff n : 0 <= n -> zlen (user_bytes u uoff n) = n.
Proof. intros. unfold user_bytes. apply zlen_take. rewrite zlen_app. unfold zlen. rewrite length_replicate. lia. Qed.

Lemma user_bytes_u8 u uoff n : Forall is_u8 u -> Forall is_u8 (user_bytes u uoff n).
Proof.
  intros H. unfold user_bytes. apply Forall_take, Forall_app. split; [now apply Forall_drop|].
  apply Forall_replicate. unfold is_u8. lia.
Qed.

Lemma user_bytes_full u uoff n : 0 <= n -> 0 <= uoff -> uoff + n <= zlen u ->
  user_bytes u uoff n = take (Z.to_nat n) (drop (Z.to_nat uoff) u).
Proof. intros. unfold user_bytes. apply take_app_le. rewrite length_drop. unfold zlen in *. lia. Qed.

Lemma copy_to_user_ok u uoff src soff n : 0 <= n -> 0 <= uoff -> uoff + n <= zlen u -> 0 <= soff -> soff + n <= zlen src ->
  exists b, memcpy u uoff src soff n = Ok b /\ copy_to_user u uoff src soff n = Ok (b, 0).
Proof.
  intros. destruct (memcpy_ok u uoff src soff n) as (b & E & _); [lia..|]. exists b. split; [done|].
  unfold copy_to_user. replace (Z.max 0 (Z.min n (zlen u - uoff))) with n by lia. rewrite E. cbn. do 2 f_equal. lia.
Qed.

Lemma copy_to_user_short u uoff src soff n : 0 <= n -> 0 <= uoff <= zlen u -> zlen u < uoff + n ->
  0 <= soff -> soff + n <= zlen src ->
  exists b k, copy_to_user u uoff src soff n = Ok (b, k) /\ k <> 0.
Proof.
  intros. unfold copy_to_user. destruct (memcpy_ok u uoff src soff (Z.max 0 (Z.min n (zlen u - uoff)))) as (b & -> & _); [lia..|].
  cbn. do 2 eexists. split; [reflexivity|lia].
Qed.
