(* ===== verification/Blocks.v ===== *)
(** Memory seen as an array of cells of equal size followed by other bytes:
    reading and replacing one cell, and swapping two.  Used by the block modes
    and by sort. *)
From S2P Require Import Prelude.
From S2P Require Import Ring.

(** The [n] bytes at [p + off]. *)
Definition slice (b : list Z) (off n : Z) : res (list Z) :=
  if (0 <=? off) && (off + n <=? zlen b) && (0 <=? n)
  then Ok (take (Z.to_nat n) (drop (Z.to_nat off) b)) else Err OutOfBounds.

Lemma slice_app pre m post n : zlen m = n -> slice (pre ++ m ++ post) (zlen pre) n = Ok m.
Proof.
  intros Hm. unfold slice. rewrite !zlen_app. pose proof (zlen_nonneg pre). pose proof (zlen_nonneg post). pose proof (zlen_nonneg m).
  destruct (Z.leb_spec 0 (zlen pre)), (Z.leb_spec (zlen pre + n) (zlen pre + (zlen m + zlen post))), (Z.leb_spec 0 n); try lia.
  cbn [andb]. f_equal. unfold zlen in *. rewrite Nat2Z.id, drop_app_length. apply take_app_length'. lia.
Qed.

Lemma memcpy_app pre m m' post n : zlen m = n -> zlen m' = n -> memcpy (pre ++ m ++ post) (zlen pre) m' 0 n = Ok (pre ++ m' ++ post).
Proof.
  intros Hm Hm'. pose proof (zlen_nonneg pre). pose proof (zlen_nonneg post). pose proof (zlen_nonneg m).
  unfold memcpy. rewrite !zlen_app. destruct (Z.eqb_spec n 0) as [->|].
  { unfold zlen in *. destruct m; [|cbn in *; lia]. destruct m'; [done|cbn in *; lia]. }
  destruct (Z.leb_spec 0 (zlen pre)), (Z.leb_spec (zlen pre + n) (zlen pre + (zlen m + zlen post))), (Z.leb_spec (0 + n) (zlen m')),
    (Z.ltb_spec 0 n); try lia. cbn [andb Z.leb]. change (0 <=? 0) with true. cbn [andb]. f_equal.
  change (Z.to_nat 0) with O. rewrite drop_0. unfold zlen in *. rewrite Nat2Z.id, take_app_length.
  f_equal. rewrite take_ge by lia. f_equal. rewrite app_assoc. apply drop_app_length'. rewrite length_app. lia.
Qed.

Lemma rd_mid {A} (pre : list A) x post : rd (pre ++ x :: post) (zlen pre) = Ok x.
Proof. rewrite (rd_at x); [|rewrite zlen_app; unfold zlen; cbn [length]; lia]. unfold at_, zlen. rewrite Nat2Z.id, nth_middle. done. Qed.

Lemma wr_mid {A} (pre : list A) x y post : wr (pre ++ x :: post) (zlen pre) y = Ok (pre ++ y :: post).
Proof.
  rewrite wr_ok; [|rewrite zlen_app; unfold zlen; cbn [length]; lia]. unfold zlen. rewrite Nat2Z.id.
  rewrite insert_app_r_alt by done. rewrite Nat.sub_diag. done.
Qed.

Lemma insert_split {A} (bl : list A) i b e : bl !! i = Some b -> <[i := e]> bl = take i bl ++ e :: drop (S i) bl.
Proof. intros Hi. apply lookup_lt_Some in Hi as Hl. rewrite insert_take_drop by done. done. Qed.

(** * Cells *)

Definition buf (bl : list (list Z)) (tail : list Z) : list Z := concat bl ++ tail.

Section cells.
Context (sz : Z).

Definition cells (bl : list (list Z)) : Prop := Forall (fun b => zlen b = sz) bl.

Lemma concat_cells bl : cells bl -> zlen (concat bl) = zlen bl * sz.
Proof.
  induction 1 as [|b bl Hb _ IH]; [done|]. cbn [concat]. rewrite zlen_app, IH, Hb. unfold zlen. cbn [length]. lia.
Qed.

Lemma buf_split bl i b tail : bl !! i = Some b ->
  buf bl tail = concat (take i bl) ++ b ++ buf (drop (S i) bl) tail.
Proof.
  intros Hi. unfold buf. rewrite <- (take_drop_middle bl i b Hi) at 1. rewrite concat_app. cbn [concat].
  now rewrite <- !app_assoc.
Qed.

Lemma cells_lookup bl i b : cells bl -> bl !! i = Some b -> zlen b = sz.
Proof. intros Hb Hi. apply (Forall_lookup_1 _ _ _ _ Hb Hi). Qed.

Lemma cells_prefix bl i b : cells bl -> bl !! i = Some b -> zlen (concat (take i bl)) = Z.of_nat i * sz.
Proof.
  intros Hb Hi. rewrite concat_cells by now apply Forall_take. unfold zlen. rewrite length_take.
  apply lookup_lt_Some in Hi. rewrite Nat.min_l by lia. done.
Qed.

Lemma slice_cell bl i b tail : cells bl -> bl !! i = Some b -> slice (buf bl tail) (Z.of_nat i * sz) sz = Ok b.
Proof.
  intros Hb Hi. rewrite (buf_split bl i b tail Hi), <- (cells_prefix bl i b Hb Hi).
  apply slice_app. apply (cells_lookup bl i b Hb Hi).
Qed.

Lemma memcpy_cell bl i b e tail : cells bl -> bl !! i = Some b -> zlen e = sz ->
  memcpy (buf bl tail) (Z.of_nat i * sz) e 0 sz = Ok (buf (<[i := e]> bl) tail).
Proof.
  intros Hb Hi He. rewrite (buf_split bl i b tail Hi), <- (cells_prefix bl i b Hb Hi).
  rewrite memcpy_app by (exact He || apply (cells_lookup bl i b Hb Hi)).
  f_equal. unfold buf. rewrite (insert_split bl i b e Hi), concat_app. cbn [concat]. now rewrite <- !app_assoc.
Qed.
End cells.
