(* ===== verification/Heap.v ===== *)
(** Binary heaps in arrays: the order between a parent and its children, what
    one exchange of a sift does to it, and that the root is the greatest
    element.  Shared by sort and by the priority heap. *)
From stdpp Require Import sorting.
From S2P Require Import Prelude.

(** Exchanging two elements. *)
Definition exchange {A} `{!Inhabited A} (i j : nat) (l : list A) : list A := <[i := l !!! j]> (<[j := l !!! i]> l).

Section exchange.
Context {A : Type} `{!Inhabited A}.
Implicit Types l : list A.

Lemma exchange_length i j l : length (exchange i j l) = length l.
Proof. unfold exchange. now rewrite !length_insert. Qed.

Lemma exchange_left i j l : (i < length l)%nat -> exchange i j l !!! i = l !!! j.
Proof. intros Hi. unfold exchange. apply list_lookup_total_insert_eq. now rewrite length_insert. Qed.

Lemma exchange_right i j l : (j < length l)%nat -> exchange i j l !!! j = l !!! i.
Proof.
  intros Hj. unfold exchange. destruct (decide (i = j)) as [->|Hne].
  - apply list_lookup_total_insert_eq. now rewrite length_insert.
  - rewrite list_lookup_total_insert_ne by done. now apply list_lookup_total_insert_eq.
Qed.

Lemma exchange_other i j k l : k <> i -> k <> j -> exchange i j l !!! k = l !!! k.
Proof. intros Hi Hj. unfold exchange. now rewrite !list_lookup_total_insert_ne by congruence. Qed.

Lemma exchange_split (a : list A) x b y c : exchange (length a) (length a + S (length b)) (a ++ x :: b ++ y :: c) = a ++ y :: b ++ x :: c.
Proof.
  unfold exchange. set (l := a ++ x :: b ++ y :: c).
  assert (Ex : l !!! length a = x) by (unfold l; apply list_lookup_total_middle; done).
  assert (Ey : l !!! (length a + S (length b))%nat = y).
  { unfold l. change (x :: b ++ y :: c) with ((x :: b) ++ y :: c). rewrite app_assoc. apply list_lookup_total_middle. rewrite length_app. done. }
  rewrite Ex, Ey. unfold l. rewrite insert_app_r. cbn [insert list_insert].
  rewrite (insert_app_r_alt b) by lia. rewrite Nat.sub_diag. cbn. rewrite insert_app_r_alt by done. rewrite Nat.sub_diag. done.
Qed.

Lemma split_two i j l : (i < j)%nat -> (j < length l)%nat ->
  exists a x b y c, l = a ++ x :: b ++ y :: c /\ i = length a /\ j = (length a + S (length b))%nat.
Proof.
  intros Hij Hj. destruct (lookup_lt_is_Some_2 l i ltac:(lia)) as [x Hx]. destruct (lookup_lt_is_Some_2 l j ltac:(lia)) as [y Hy].
  exists (take i l), x, (take (j - S i) (drop (S i) l)), y, (drop (S j) l).
  assert (Hy' : drop (S i) l !! (j - S i)%nat = Some y) by (rewrite lookup_drop; rewrite <- Hy; f_equal; lia).
  split; [|rewrite !length_take, length_drop; lia].
  rewrite <- (take_drop_middle l i x Hx) at 1. do 2 f_equal.
  rewrite <- (take_drop_middle (drop (S i) l) (j - S i) y Hy') at 1. rewrite drop_drop. do 3 f_equal. lia.
Qed.

Lemma exchange_perm i j l : (i < j)%nat -> (j < length l)%nat -> exchange i j l ≡ₚ l.
Proof.
  intros Hij Hj. destruct (split_two i j l Hij Hj) as (a & x & b & y & c & -> & -> & ->). rewrite exchange_split.
  apply Permutation_app_head. rewrite (Permutation_middle b (y :: c) x). rewrite (Permutation_middle b (x :: c) y).
  apply Permutation_app_head. constructor.
Qed.

Lemma exchange_drop i j k l : (i < k)%nat -> (j < k)%nat -> drop k (exchange i j l) = drop k l.
Proof. intros Hi Hj. unfold exchange. now rewrite !drop_insert_lt by lia. Qed.
End exchange.

(** * Heap order *)

Definition child (p c : nat) : Prop := c = (2 * p + 1)%nat \/ c = (2 * p + 2)%nat.

Lemma child_gt p c : child p c -> (p < c)%nat.
Proof. unfold child. lia. Qed.
Lemma child_parent p p' c : child p c -> child p' c -> p = p'.
Proof. unfold child. lia. Qed.
Lemma parent_child c : (0 < c)%nat -> child ((c - 1) / 2) c.
Proof.
  intros Hc. unfold child. pose proof (Nat.div_mod_eq (c - 1) 2) as Hd. pose proof (Nat.mod_upper_bound (c - 1) 2 ltac:(lia)). lia.
Qed.

Section heap.
Context {A : Type} `{!Inhabited A} (geq : relation A) `{!PreOrder geq}.
Implicit Types l : list A.

(** Every parent from [lo] on dominates its children below [n]. *)
Definition heap_from (lo n : nat) (l : list A) : Prop :=
  forall p c, (lo <= p)%nat -> (c < n)%nat -> child p c -> geq (l !!! p) (l !!! c).

(** The same but for [r], whose children its parent dominates. *)
Definition sifting (lo n r : nat) (l : list A) : Prop :=
  (lo <= r)%nat /\
  (forall p c, (lo <= p)%nat -> p <> r -> (c < n)%nat -> child p c -> geq (l !!! p) (l !!! c)) /\
  (forall p c, (lo <= p)%nat -> child p r -> (c < n)%nat -> child r c -> geq (l !!! p) (l !!! c)).

Lemma sift_start n r l : heap_from (S r) n l -> sifting r n r l.
Proof.
  intros Hh. split; [done|]. split.
  - intros p c Hp Hne. apply Hh. lia.
  - intros p c Hp Hc. apply child_gt in Hc. lia.
Qed.

Lemma sift_stop lo n r l : sifting lo n r l -> (forall c, (c < n)%nat -> child r c -> geq (l !!! r) (l !!! c)) -> heap_from lo n l.
Proof. intros (Hr & H1 & _) Hc p c Hp Hcn Hch. destruct (decide (p = r)) as [->|Hne]; auto. Qed.

Lemma sift_move lo n r c l : (n <= length l)%nat -> sifting lo n r l -> child r c -> (c < n)%nat ->
  (forall c', (c' < n)%nat -> child r c' -> geq (l !!! c) (l !!! c')) -> geq (l !!! c) (l !!! r) -> sifting lo n c (exchange r c l).
Proof.
  intros Hn (Hr & H1 & H2) Hch Hc Hmax Hge. pose proof (child_gt r c Hch) as Hrc. split; [lia|]. split.
  - intros p d Hp Hne Hd Hpd. pose proof (child_gt p d Hpd) as Hpd'. destruct (decide (p = r)) as [->|Hpr].
    + rewrite exchange_left by lia. destruct (decide (d = c)) as [->|Hdc]; [now rewrite exchange_right by lia|].
      rewrite exchange_other by lia. now apply Hmax.
    + rewrite (exchange_other r c p) by done. destruct (decide (d = r)) as [->|Hdr]; [rewrite exchange_left by lia; now apply H2|].
      destruct (decide (d = c)) as [->|Hdc]; [exfalso; apply Hpr; now apply (child_parent p r c)|].
      rewrite exchange_other by done. now apply H1.
  - intros p d Hp Hpc Hd Hcd. pose proof (child_gt c d Hcd). rewrite (child_parent p r c Hpc Hch). rewrite exchange_left by lia.
    rewrite exchange_other by lia. apply H1; try done; lia.
Qed.

(** The root is the greatest element. *)
Lemma heap_root n l k : heap_from 0 n l -> (k < n)%nat -> geq (l !!! 0%nat) (l !!! k).
Proof using All.
  intros Hh. induction k as [k IH] using lt_wf_ind. intros Hk. destruct k as [|k]; [reflexivity|].
  pose proof (parent_child (S k) ltac:(lia)) as Hp. pose proof (child_gt _ _ Hp). set (q := ((S k - 1) / 2)%nat) in *.
  transitivity (l !!! q); [apply IH; lia|]. apply (Hh _ (S k)); [lia|lia|exact Hp].
Qed.

Lemma heap_from_weaken lo n n' l : (n' <= n)%nat -> heap_from lo n l -> heap_from lo n' l.
Proof. intros Hn Hh p c Hp Hc. apply Hh; lia. Qed.

Lemma heap_from_leaves lo n l : (n <= 2 * lo + 1)%nat -> heap_from lo n l.
Proof. intros Hn p c Hp Hc [->| ->]; lia. Qed.

(** After the root went out of range, only the new root is out of order. *)
Lemma sift_root n l : (S n <= length l)%nat -> (0 < n)%nat -> heap_from 0 (S n) l -> sifting 0 n 0 (exchange 0 n l).
Proof.
  intros Hn Hn0 Hh. apply sift_start. intros p c Hp Hc Hch. pose proof (child_gt p c Hch). rewrite !exchange_other by lia. apply Hh; lia || done.
Qed.

(** Every element but [r] is dominated by its parent, and the parent of [r]
    dominates the children of [r]: the state of an insertion. *)
Definition rising (n r : nat) (l : list A) : Prop :=
  (forall p c, (c < n)%nat -> c <> r -> child p c -> geq (l !!! p) (l !!! c)) /\
  (forall p c, child p r -> (c < n)%nat -> child r c -> geq (l !!! p) (l !!! c)).

Lemma rise_start n l : heap_from 0 n l -> forall x, rising (S n) n (<[n := x]> l).
Proof.
  intros Hh x. split.
  - intros p c Hc Hne Hch. pose proof (child_gt p c Hch). rewrite !list_lookup_total_insert_ne by lia. apply Hh; lia || done.
  - intros p c _ Hc Hch. pose proof (child_gt n c Hch). lia.
Qed.

Lemma rise_stop n r l : rising n r l -> (forall p, child p r -> geq (l !!! p) (l !!! r)) -> heap_from 0 n l.
Proof. intros [H1 _] Hr p c _ Hc Hch. destruct (decide (c = r)) as [->|Hne]; auto. Qed.

Lemma rise_move n p r l : (n <= length l)%nat -> rising n r l -> (r < n)%nat -> child p r -> geq (l !!! r) (l !!! p) ->
  rising n p (exchange p r l).
Proof using All.
  intros Hn [H1 H2] Hr Hpr Hge. pose proof (child_gt p r Hpr) as Hlt. split.
  - intros q c Hc Hne Hqc. pose proof (child_gt q c Hqc). destruct (decide (c = r)) as [->|Hcr].
    + rewrite (child_parent q p r Hqc Hpr). now rewrite exchange_left, exchange_right by lia.
    + rewrite (exchange_other p r c) by done. destruct (decide (q = p)) as [->|Hqp].
      { rewrite exchange_left by lia. transitivity (l !!! p); [done|]. now apply H1. }
      destruct (decide (q = r)) as [->|Hqr]; [rewrite exchange_right by lia; now apply H2|].
      rewrite exchange_other by done. now apply H1.
  - intros q c Hqp Hc Hpc. pose proof (child_gt q p Hqp). pose proof (child_gt p c Hpc). rewrite (exchange_other p r q) by lia.
    assert (Hgp : geq (l !!! q) (l !!! p)) by (apply H1; lia || done).
    destruct (decide (c = r)) as [->|Hcr]; [now rewrite exchange_right by lia|].
    rewrite exchange_other by lia. transitivity (l !!! p); [done|]. now apply H1.
Qed.
End heap.
