(* ===== verification/Sort.v ===== *)
(** lib/sort.c: heapsort on an array of [num] elements of [size] bytes, with
    byte offsets as the code keeps them, a comparison function and an optional
    exchange function supplied by the caller. *)
From stdpp Require Import sorting.
From S2P Require Import Prelude.
From S2P Require Import Ring.
From S2P Require Import Blocks.
From S2P Require Import Heap.

(** An exchange function on memory: [swap(a, b, size)]. *)
Definition swap_t : Type := list Z -> Z -> Z -> Z -> res (list Z).

Definition u32_swap : swap_t := fun m a b size =>
  t ← slice m a 4;
  u ← slice m b 4;
  m ← memcpy m a u 0 4;
  memcpy m b t 0 4.

Definition generic_swap : swap_t := fun m a b size =>
  loop (S (Z.to_nat size)) (fun '(m, a, b, size) =>
    t ← rd m a;
    u ← rd m b;
    m ← wr m a u;
    m ← wr m b t;
    let size := size - 1 in
    if 0 <? size then Ok (inl (m, a + 1, b + 1, size)) else Ok (inr m)) (m, a, b, size).

Section sort.
Context (size : Z) (cmp_func : list Z -> list Z -> Z) (swap : swap_t).

(** The inner loop of both phases: [for (r = r0; r * 2 + size < n; r = c)];
    [r] moves down by at least one byte at each turn. *)
Definition sift_down (base : list Z) (r n : Z) : res (list Z) :=
  loop (S (Z.to_nat n)) (fun '(base, r) =>
    if u32 (s32 (r * 2) + size) <? u32 n then
      let c := s32 (u32 (s32 (r * 2) + size)) in
      less ← (if u32 c <? u32 (n - size) then
                x ← slice base c size;
                y ← slice base (c + size) size;
                Ok (cmp_func x y <? 0)
              else Ok false);
      let c := if less : bool then s32 (u32 (c + size)) else c in
      x ← slice base r size;
      y ← slice base c size;
      if 0 <=? cmp_func x y then Ok (inr base) else
      base ← swap base r c size;
      Ok (inl (base, c))
    else Ok (inr base)) (base, r).

Definition heapify (base : list Z) (num i n : Z) : res (list Z) :=
  loop (S (Z.to_nat num)) (fun '(base, i) =>
    if 0 <=? i then
      base ← sift_down base i n;
      Ok (inl (base, s32 (u32 (i - size))))
    else Ok (inr base)) (base, i).

Definition sort_down (base : list Z) (num i : Z) : res (list Z) :=
  loop (S (Z.to_nat num)) (fun '(base, i) =>
    if 0 <? i then
      base ← swap base 0 i size;
      base ← sift_down base 0 i;
      Ok (inl (base, s32 (u32 (i - size))))
    else Ok (inr base)) (base, i).
End sort.

Definition sort (base : list Z) (num size : Z) (cmp_func : list Z -> list Z -> Z) (swap_func : option swap_t) : res (list Z) :=
  let i := s32 (u32 (u32 (num / 2 - 1) * size)) in
  let n := s32 (u32 (num * size)) in
  let swap := match swap_func with Some f => f | None => if size =? 4 then u32_swap else generic_swap end in
  base ← heapify size cmp_func swap base num i n;
  sort_down size cmp_func swap base num (s32 (u32 (n - size))).

(** * Exchange functions *)

Definition swaps (size : Z) (f : swap_t) : Prop := forall pre x mid y post, zlen x = size -> zlen y = size ->
  f (pre ++ x ++ mid ++ y ++ post) (zlen pre) (zlen pre + size + zlen mid) size = Ok (pre ++ y ++ mid ++ x ++ post).

Lemma u32_swap_swaps : swaps 4 u32_swap.
Proof.
  intros pre x mid y post Hx Hy. unfold u32_swap. rewrite slice_app, bind_ok by done.
  assert (E : zlen pre + 4 + zlen mid = zlen (pre ++ x ++ mid)) by (rewrite !zlen_app; lia).
  assert (E2 : forall z : list Z, pre ++ z ++ mid ++ y ++ post = (pre ++ z ++ mid) ++ y ++ post) by (intros; now rewrite <- !app_assoc).
  rewrite (E2 x), E, slice_app, bind_ok by done. rewrite <- (E2 x), memcpy_app, bind_ok by done.
  rewrite (E2 y). replace (zlen (pre ++ x ++ mid)) with (zlen (pre ++ y ++ mid)) by (rewrite !zlen_app; lia).
  rewrite memcpy_app by done. now rewrite <- !app_assoc.
Qed.

Lemma generic_swap_loop x : forall y pre mid post fuel, length x = length y -> x <> [] -> (length x < fuel)%nat ->
  @loop (list Z * Z * Z * Z) (list Z) fuel (fun '(m, a, b, size) =>
    t ← rd m a;
    u ← rd m b;
    m ← wr m a u;
    m ← wr m b t;
    let size := size - 1 in
    if 0 <? size then Ok (inl (m, a + 1, b + 1, size)) else Ok (inr m))
    (pre ++ x ++ mid ++ y ++ post, zlen pre, zlen pre + zlen x + zlen mid, zlen x) = Ok (pre ++ y ++ mid ++ x ++ post).
Proof.
  induction x as [|x0 x IH]; intros y pre mid post fuel Hl Hne Hf; [done|]. destruct y as [|y0 y]; [done|].
  destruct fuel as [|fuel]; [lia|]. cbn [length] in Hl, Hf. cbn [loop].
  set (b := zlen pre + zlen (x0 :: x) + zlen mid).
  assert (E : forall z, pre ++ (z :: x) ++ mid ++ (y0 :: y) ++ post = (pre ++ (z :: x) ++ mid) ++ y0 :: (y ++ post))
    by (intros; rewrite <- !app_assoc; done).
  assert (Eb : forall z, b = zlen (pre ++ (z :: x) ++ mid)) by (intros z; unfold b; rewrite !zlen_app; unfold zlen; cbn [length]; lia).
  assert (R1 : rd (pre ++ (x0 :: x) ++ mid ++ (y0 :: y) ++ post) (zlen pre) = Ok x0) by apply rd_mid.
  assert (W1 : wr (pre ++ (x0 :: x) ++ mid ++ (y0 :: y) ++ post) (zlen pre) y0 = Ok (pre ++ (y0 :: x) ++ mid ++ (y0 :: y) ++ post)) by apply wr_mid.
  rewrite R1, bind_ok. rewrite (E x0), (Eb x0), rd_mid, bind_ok. rewrite <- (E x0), W1, bind_ok.
  rewrite (E y0). rewrite <- (Eb x0), (Eb y0), wr_mid, bind_ok. cbv zeta.
  assert (Es : zlen (x0 :: x) - 1 = zlen x) by (unfold zlen; cbn [length]; lia). rewrite Es.
  destruct (Z.ltb_spec 0 (zlen x)) as [H0|H0].
  - specialize (IH y (pre ++ [y0]) (mid ++ [x0]) post fuel). rewrite <- !app_assoc in IH. cbn [app] in IH.
    rewrite <- !app_assoc. cbn [app].
    replace (zlen (pre ++ [y0])) with (zlen pre + 1) in IH by (rewrite zlen_app; reflexivity).
    replace (zlen (pre ++ y0 :: x ++ mid) + 1) with (zlen pre + 1 + zlen x + zlen (mid ++ [x0]))
      by (change (y0 :: x ++ mid) with ((y0 :: x) ++ mid); rewrite !zlen_app; unfold zlen; cbn [length]; lia).
    apply IH; [lia|intros ->; done|lia].
  - unfold zlen in H0. destruct x; [|cbn in H0; lia]. destruct y; [|cbn in Hl; lia]. rewrite <- !app_assoc. done.
Qed.

Lemma generic_swap_swaps size : 0 < size -> swaps size generic_swap.
Proof.
  intros Hs pre x mid y post Hx Hy. subst size. unfold generic_swap.
  apply generic_swap_loop; [unfold zlen in *; lia|intros ->; discriminate Hs|unfold zlen; lia].
Qed.

Lemma swaps_cells size f l i j tail : 0 <= size -> swaps size f -> cells size l -> (i < j)%nat -> (j < length l)%nat ->
  f (buf l tail) (Z.of_nat i * size) (Z.of_nat j * size) size = Ok (buf (exchange i j l) tail).
Proof.
  intros Hs Hf Hc Hij Hj. destruct (split_two i j l Hij Hj) as (a & x & b & y & c & -> & -> & ->). rewrite exchange_split.
  apply Forall_app in Hc as [Ha Hc]. apply Forall_cons_1 in Hc as [Hx Hc]. apply Forall_app in Hc as [Hb Hc]. apply Forall_cons_1 in Hc as [Hy Hc].
  unfold buf. rewrite !concat_app. cbn [concat]. rewrite !concat_app. cbn [concat]. rewrite <- !app_assoc.
  specialize (Hf (concat a) x (concat b) y (concat c ++ tail) Hx Hy).
  rewrite (concat_cells size a Ha), (concat_cells size b Hb) in Hf. unfold zlen in Hf at 1 2.
  replace (Z.of_nat (length a + S (length b)) * size) with (Z.of_nat (length a) * size + size + Z.of_nat (length b) * size) by lia.
  exact Hf.
Qed.

(** * The sifts *)

Section proofs.
Context (size : Z) (cmp_func : list Z -> list Z -> Z) (swap : swap_t) (Hsize : 0 < size) (Hswap : swaps size swap).

(** [x] is not below [y]. *)
Definition not_less (x y : list Z) : Prop := 0 <= cmp_func x y.
Context `{!PreOrder not_less} (Htotal : forall x y, cmp_func x y < 0 -> not_less y x).
Context (tail : list Z).

(** What the code does to the array: a permutation that keeps the cells. *)
Definition shuffled (n : nat) (l l' : list (list Z)) : Prop := l' ≡ₚ l /\ drop n l' = drop n l.

Lemma shuffled_len n l l' : shuffled n l l' -> length l' = length l.
Proof. intros [H _]. now apply Permutation_length. Qed.

Lemma shuffled_cells n l l' : shuffled n l l' -> cells size l -> cells size l'.
Proof. intros [H _] Hc. unfold cells. now rewrite H. Qed.

Lemma shuffled_trans n l l' l'' : shuffled n l l' -> shuffled n l' l'' -> shuffled n l l''.
Proof. intros [H1 H2] [H3 H4]. split; [now rewrite H3|now rewrite H4]. Qed.

Lemma shuffled_exchange n i j l : (i < j)%nat -> (j < n)%nat -> (n <= length l)%nat -> shuffled n l (exchange i j l).
Proof. intros Hij Hj Hn. split; [apply exchange_perm; lia|apply exchange_drop; lia]. Qed.

Lemma shuffled_take n l l' : shuffled n l l' -> take n l' ≡ₚ take n l.
Proof.
  intros [H1 H2]. rewrite <- (take_drop n l), <- (take_drop n l') in H1. rewrite H2 in H1. now apply Permutation_app_inv_r in H1.
Qed.

Lemma scaled_ltb a b : (a * size <? b * size) = (a <? b).
Proof using Hsize. destruct (Z.ltb_spec (a * size) (b * size)), (Z.ltb_spec a b); done || nia. Qed.

(** The offsets of element [r] and its children stay in range. *)
Lemma sift_offsets N n r : Z.of_nat N * size < 2 ^ 31 -> (n <= N)%nat -> (r < N)%nat ->
  (u32 (s32 (Z.of_nat r * size * 2) + size) <? u32 (Z.of_nat n * size)) = (2 * r + 1 <? n)%nat /\
  ((2 * r + 1 < n)%nat ->
   s32 (u32 (s32 (Z.of_nat r * size * 2) + size)) = Z.of_nat (2 * r + 1) * size /\
   (u32 (Z.of_nat (2 * r + 1) * size) <? u32 (Z.of_nat n * size - size)) = (2 * r + 2 <? n)%nat /\
   ((2 * r + 2 < n)%nat -> s32 (u32 (Z.of_nat (2 * r + 1) * size + size)) = Z.of_nat (2 * r + 2) * size)).
Proof using Hsize.
  intros HN Hn Hr.
  assert (E : u32 (s32 (Z.of_nat r * size * 2) + size) = Z.of_nat (2 * r + 1) * size).
  { assert (E1 : exists k, s32 (Z.of_nat r * size * 2) = Z.of_nat r * size * 2 + k * 2 ^ 32).
    { unfold s32. set (x := Z.of_nat r * size * 2). pose proof (Z.div_mod (x + 2 ^ 31) (2 ^ 32) ltac:(lia)). exists (- ((x + 2 ^ 31) / 2 ^ 32)). lia. }
    destruct E1 as [k ->]. rewrite (u32_eqm _ (Z.of_nat (2 * r + 1) * size) k) by nia. apply u32_id. unfold is_u32. nia. }
  rewrite E. rewrite !(u32_id (Z.of_nat n * size)) by (unfold is_u32; nia). split.
  { rewrite scaled_ltb. destruct (Z.ltb_spec (Z.of_nat (2 * r + 1)) (Z.of_nat n)), (Nat.ltb_spec (2 * r + 1) n); done || lia. }
  intros Hc. assert (Hb : Z.of_nat (2 * r + 1) * size + size < 2 ^ 31) by nia. split; [apply s32_id; unfold is_s32; nia|].
  replace (Z.of_nat n * size - size) with (Z.of_nat (n - 1) * size) by (rewrite Nat2Z.inj_sub by lia; lia).
  split.
  - rewrite !u32_id by (unfold is_u32; nia). rewrite scaled_ltb.
    destruct (Z.ltb_spec (Z.of_nat (2 * r + 1)) (Z.of_nat (n - 1))), (Nat.ltb_spec (2 * r + 2) n); done || lia.
  - intros Hc2. rewrite u32_id by (unfold is_u32; nia). rewrite s32_id by (unfold is_s32; nia). nia.
Qed.

Lemma slice_at l k : cells size l -> (k < length l)%nat -> slice (buf l tail) (Z.of_nat k * size) size = Ok (l !!! k).
Proof. intros Hc Hk. apply slice_cell; [done|]. now apply list_lookup_lookup_total_lt. Qed.

Local Abbreviation sifted lo n l := (fun m => exists l', m = buf l' tail /\ shuffled n l l' /\ heap_from not_less lo n l').

(** One turn at an element with a child: the greater child is found, and
    either the sift is over or the element goes down one level. *)
Lemma sift_turn lo n r l : cells size l -> (n <= length l)%nat -> sifting not_less lo n r l -> (2 * r + 1 < n)%nat ->
  let less := ((2 * r + 2 <? n)%nat && (cmp_func (l !!! (2 * r + 1)%nat) (l !!! (2 * r + 2)%nat) <? 0)) in
  let c := (if less then 2 * r + 2 else 2 * r + 1)%nat in
  (c < n)%nat /\ (r < c)%nat /\
  (0 <= cmp_func (l !!! r) (l !!! c) -> heap_from not_less lo n l) /\
  (cmp_func (l !!! r) (l !!! c) < 0 -> sifting not_less lo n c (exchange r c l)).
Proof using Htotal PreOrder0.
  intros Hc Hn Hs Hr. cbv zeta. set (c1 := (2 * r + 1)%nat) in *. set (c2 := (2 * r + 2)%nat) in *.
  set (c := if _ && _ then c2 else c1).
  assert (Hmax : forall d, (d < n)%nat -> child r d -> not_less (l !!! c) (l !!! d)).
  { assert (Hcase : (c = c2 /\ cmp_func (l !!! c1) (l !!! c2) < 0) \/ (c = c1 /\ ((c2 < n)%nat -> not_less (l !!! c1) (l !!! c2)))).
    { unfold c. destruct (Nat.ltb_spec c2 n); cbn [andb]; [|right; split; [done|lia]].
      destruct (Z.ltb_spec (cmp_func (l !!! c1) (l !!! c2)) 0); [left; done|right; split; [done|intros _; exact H0]]. }
    intros d Hd [->| ->]; fold c1 c2; destruct Hcase as [[-> Hlt]|[-> Hge]];
      [now apply Htotal|reflexivity|reflexivity|now apply Hge]. }
  assert (Hcn : (c < n)%nat /\ child r c).
  { unfold c. destruct (Nat.ltb_spec c2 n); cbn [andb]; [destruct (_ <? 0)|]; (split; [lia|]); [right|left|left]; reflexivity. }
  destruct Hcn as [Hcn Hch]. split; [done|]. split; [now apply child_gt|]. split.
  - intros Hge. apply (sift_stop _ lo n r l Hs). intros d Hd Hrd. transitivity (l !!! c); [exact Hge|now apply Hmax].
  - intros Hlt. apply (sift_move _ lo n r c l); try done. now apply Htotal.
Qed.

Lemma sift_down_ok lo n r l : cells size l -> zlen l * size < 2 ^ 31 -> (n <= length l)%nat -> (r < length l)%nat ->
  sifting not_less lo n r l ->
  wp (sift_down size cmp_func swap (buf l tail) (Z.of_nat r * size) (Z.of_nat n * size)) (sifted lo n l).
Proof using All.
  intros Hc Hmax Hn Hr Hs. unfold sift_down.
  apply wp_loop with
    (I := fun s => exists l1 r1, s = (buf l1 tail, Z.of_nat r1 * size) /\ (r1 < length l)%nat /\ shuffled n l l1 /\ sifting not_less lo n r1 l1)
    (m := fun s => Z.max 0 (Z.of_nat n * size - s.2)).
  - exists l, r. repeat split; done || apply Hs.
  - cbn [snd]. nia.
  - clear r Hr Hs. intros s (l1 & r & -> & Hr & Hsh & Hs) _. cbn [snd].
    pose proof (shuffled_len n l l1 Hsh) as Hl1. pose proof (shuffled_cells n l l1 Hsh Hc) as Hc1.
    destruct (sift_offsets (length l) n r Hmax Hn Hr) as [-> Hoff]. destruct (Nat.ltb_spec (2 * r + 1) n) as [Hch|Hch].
    2:{ apply wp_ok. exists l1. split; [done|]. split; [done|]. apply (sift_stop _ lo n r l1 Hs). intros c Hcn [->| ->]; lia. }
    destruct (Hoff Hch) as (-> & -> & Hc2). clear Hoff.
    pose proof (sift_turn lo n r l1 Hc1 ltac:(lia) Hs Hch) as Ht. cbv zeta in Ht |- *.
    set (less := (2 * r + 2 <? n)%nat && _) in Ht. set (c := (if less then _ else _)%nat) in Ht.
    assert (E : (if (2 * r + 2 <? n)%nat then
        x ← slice (buf l1 tail) (Z.of_nat (2 * r + 1) * size) size;
        y ← slice (buf l1 tail) (Z.of_nat (2 * r + 1) * size + size) size;
        Ok (cmp_func x y <? 0) else Ok false) = Ok less).
    { unfold less. destruct (Nat.ltb_spec (2 * r + 2) n) as [H2|H2]; [|done]. rewrite slice_at, bind_ok by (done || lia).
      replace (Z.of_nat (2 * r + 1) * size + size) with (Z.of_nat (2 * r + 2) * size) by lia. rewrite slice_at, bind_ok by (done || lia). done. }
    rewrite E, bind_ok. clear E. assert (Ec : (if less then s32 (u32 (Z.of_nat (2 * r + 1) * size + size)) else Z.of_nat (2 * r + 1) * size) = Z.of_nat c * size).
    { unfold c. destruct less eqn:El; [|done]. apply Hc2. unfold less in El. destruct (Nat.ltb_spec (2 * r + 2) n); done. }
    rewrite Ec. destruct Ht as (Hcn & Hrc & Hstop & Hmove). rewrite (slice_at l1 r), bind_ok, (slice_at l1 c), bind_ok by (done || lia).
    destruct (Z.leb_spec 0 (cmp_func (l1 !!! r) (l1 !!! c))) as [Hge|Hlt].
    + apply wp_ok. exists l1. split; [done|]. split; [done|auto].
    + rewrite swaps_cells, bind_ok by (done || lia). apply wp_ok. split; [|cbn [snd]; nia].
      exists (exchange r c l1), c. split; [done|]. split; [lia|]. split; [|auto].
      apply (shuffled_trans n l l1); [done|]. apply shuffled_exchange; lia.
Qed.

(** * The two phases *)

Lemma s32_u32 x : is_s32 x -> s32 (u32 x) = x.
Proof. intros Hx. rewrite <- (s32_id x Hx) at 2. unfold s32, u32. now rewrite Zplus_mod_idemp_l. Qed.

(** The offset below element [k]. *)
Lemma next_offset N k : Z.of_nat N * size < 2 ^ 31 -> (k <= N)%nat -> (0 < k)%nat ->
  s32 (u32 ((Z.of_nat k - 1) * size - size)) = (Z.of_nat (k - 1) - 1) * size /\ (Z.of_nat k - 1) * size = Z.of_nat (k - 1) * size.
Proof using Hsize. intros HN Hk H0. rewrite s32_u32 by (unfold is_s32; nia). rewrite Nat2Z.inj_sub by lia. split; lia. Qed.

Lemma heapify_ok l : cells size l -> zlen l * size < 2 ^ 31 ->
  wp (heapify size cmp_func swap (buf l tail) (zlen l) ((Z.of_nat (length l / 2) - 1) * size) (zlen l * size)) (sifted 0 (length l) l).
Proof using All.
  intros Hc Hmax. set (N := length l) in *. unfold heapify.
  apply wp_loop with
    (I := fun s => exists l1 k, s = (buf l1 tail, (Z.of_nat k - 1) * size) /\ (k <= N)%nat /\ shuffled N l l1 /\ heap_from not_less k N l1)
    (m := fun s => s.2 / size + 1).
  - exists l, (N / 2)%nat. split; [done|]. split; [apply Nat.Div0.div_le_upper_bound; lia|]. split; [split; done|].
    apply heap_from_leaves. pose proof (Nat.div_mod_eq N 2). pose proof (Nat.mod_upper_bound N 2). lia.
  - cbn [snd]. rewrite Z.div_mul by lia. pose proof (Nat.Div0.div_le_upper_bound N 2 N). unfold zlen. fold N. lia.
  - intros s (l1 & k & -> & Hk & Hsh & Hh) _. cbn [snd]. rewrite Z.div_mul by lia.
    pose proof (shuffled_len _ l l1 Hsh) as Hl1. pose proof (shuffled_cells _ l l1 Hsh Hc) as Hc1.
    destruct (Z.leb_spec 0 ((Z.of_nat k - 1) * size)) as [H0|H0].
    2:{ apply wp_ok. assert (k = 0)%nat as -> by nia. exists l1. done. }
    assert (0 < k)%nat by nia. destruct (next_offset N k Hmax Hk ltac:(done)) as [-> ->].
    apply wp_bind. change (zlen l) with (Z.of_nat N).
    eapply wp_mono; [apply (sift_down_ok (k - 1) N (k - 1) l1); [done|unfold zlen; rewrite Hl1; exact Hmax|lia|lia|]|].
    { apply sift_start. now replace (S (k - 1)) with k by lia. }
    intros m (l2 & -> & Hsh2 & Hh2). apply wp_ok. split; [|cbn [snd]; rewrite Z.div_mul by lia; lia].
    exists l2, (k - 1)%nat. split; [done|]. split; [lia|]. split; [now apply (shuffled_trans _ l l1)|done].
Qed.

(** From position [m] on, every element dominates all before it. *)
Definition settled (m : nat) (l : list (list Z)) : Prop :=
  forall a b, (a < b)%nat -> (m <= b)%nat -> (b < length l)%nat -> not_less (l !!! b) (l !!! a).

Lemma shuffled_member n l l' a : shuffled n l l' -> (n <= length l)%nat -> (a < n)%nat -> exists a', (a' < n)%nat /\ l' !!! a = l !!! a'.
Proof.
  intros Hsh Hn Ha. pose proof (shuffled_len n l l' Hsh) as Hl. pose proof (shuffled_take n l l' Hsh) as Ht.
  assert (Hin : l' !!! a ∈ take n l').
  { apply list_elem_of_lookup. exists a. rewrite lookup_take_lt by done. apply list_lookup_lookup_total_lt. lia. }
  rewrite Ht in Hin. apply list_elem_of_lookup in Hin as [a' Ha']. pose proof (lookup_lt_Some _ _ _ Ha') as Hlt.
  rewrite length_take in Hlt. exists a'. split; [lia|]. rewrite lookup_take_lt in Ha' by lia. now apply list_lookup_total_correct in Ha'.
Qed.

Lemma shuffled_beyond n l l' b : shuffled n l l' -> (n <= b)%nat -> l' !!! b = l !!! b.
Proof.
  intros [_ H] Hb. replace b with (n + (b - n))%nat by lia. rewrite <- !lookup_total_drop. now rewrite H.
Qed.

Lemma settle_step m l1 l3 : (1 < m)%nat -> (m <= length l1)%nat -> heap_from not_less 0 m l1 -> settled m l1 ->
  shuffled (m - 1) (exchange 0 (m - 1) l1) l3 -> settled (m - 1) l3.
Proof using PreOrder0.
  intros Hm Hml Hh Hset Hsh a b Hab Hb Hbl. pose proof (shuffled_len _ _ _ Hsh) as Hl3. rewrite exchange_length in Hl3.
  assert (Hlow : forall a, (a < m - 1)%nat -> exists a'', (a'' < m)%nat /\ l3 !!! a = l1 !!! a'').
  { intros a0 Ha0. destruct (shuffled_member _ _ _ a0 Hsh ltac:(rewrite exchange_length; lia) Ha0) as (a' & Ha' & ->).
    destruct (decide (a' = 0%nat)) as [->|Hne]; [exists (m - 1)%nat; rewrite exchange_left by lia; split; [lia|done]|].
    exists a'. rewrite exchange_other by lia. split; [lia|done]. }
  assert (Htop : l3 !!! (m - 1)%nat = l1 !!! 0%nat) by (rewrite (shuffled_beyond _ _ _ _ Hsh) by lia; apply exchange_right; lia).
  destruct (decide (b = m - 1)%nat) as [->|Hbm].
  - rewrite Htop. destruct (Hlow a Hab) as (a'' & Ha'' & ->). now apply (heap_root not_less m).
  - rewrite (shuffled_beyond _ _ _ b Hsh), exchange_other by lia. destruct (Nat.lt_ge_cases a (m - 1)) as [Ha|Ha].
    + destruct (Hlow a Ha) as (a'' & Ha'' & ->). apply Hset; lia.
    + destruct (decide (a = m - 1)%nat) as [->|Hne]; [rewrite Htop; apply Hset; lia|].
      rewrite (shuffled_beyond _ _ _ a Hsh), exchange_other by lia. apply Hset; lia.
Qed.

Lemma sort_down_ok l : cells size l -> zlen l * size < 2 ^ 31 -> heap_from not_less 0 (length l) l ->
  wp (sort_down size cmp_func swap (buf l tail) (zlen l) ((zlen l - 1) * size))
    (fun m => exists l', m = buf l' tail /\ l' ≡ₚ l /\ settled 1 l').
Proof using All.
  intros Hc Hmax Hheap. set (N := length l) in *. unfold sort_down.
  apply wp_loop with
    (I := fun s => exists l1 m, s = (buf l1 tail, (Z.of_nat m - 1) * size) /\ (m <= N)%nat /\ l1 ≡ₚ l /\ heap_from not_less 0 m l1 /\ settled m l1)
    (m := fun s => s.2 / size + 1).
  - exists l, N. repeat split; try done. intros a b Hab Hb Hbl. lia.
  - cbn [snd]. rewrite Z.div_mul by lia. unfold zlen. lia.
  - intros s (l1 & m & -> & Hm & Hp & Hh & Hset) _. cbn [snd]. rewrite Z.div_mul by lia.
    pose proof (Permutation_length Hp) as Hl1. assert (Hc1 : cells size l1) by (unfold cells; now rewrite Hp).
    destruct (Z.ltb_spec 0 ((Z.of_nat m - 1) * size)) as [H0|H0].
    2:{ apply wp_ok. exists l1. split; [done|]. split; [done|]. intros a b Hab Hb. apply Hset; [done|]. assert (m <= 1)%nat by nia. lia. }
    assert (Hm1 : (1 < m)%nat) by nia. destruct (next_offset N m Hmax Hm ltac:(lia)) as [-> ->].
    pose proof (swaps_cells size swap l1 0 (m - 1) tail ltac:(lia) Hswap Hc1 ltac:(lia) ltac:(lia)) as Esw.
    rewrite Z.mul_0_l in Esw. rewrite Esw, bind_ok. clear Esw. apply wp_bind.
    assert (Hs : shuffled m l1 (exchange 0 (m - 1) l1)) by (apply shuffled_exchange; lia).
    pose proof (sift_down_ok 0 (m - 1) 0 (exchange 0 (m - 1) l1)) as Hsift. rewrite Z.mul_0_l in Hsift.
    eapply wp_mono; [apply Hsift|].
    { now apply (shuffled_cells m l1). } { unfold zlen. rewrite exchange_length, Hl1. exact Hmax. }
    { rewrite exchange_length. lia. } { rewrite exchange_length. lia. }
    { apply sift_root; [lia|lia|]. now replace (S (m - 1)) with m by lia. }
    intros mem (l3 & -> & Hsh & Hh3). apply wp_ok. split; [|cbn [snd]; rewrite Z.div_mul by lia; lia].
    exists l3, (m - 1)%nat. split; [done|]. split; [lia|]. split; [|split; [done|]].
    + transitivity (exchange 0 (m - 1) l1); [apply Hsh|]. transitivity l1; [apply Hs|done].
    + apply (settle_step m l1); done || lia.
Qed.

Lemma settled_sorted l : settled 1 l -> StronglySorted (fun x y => not_less y x) l.
Proof.
  induction l as [|x l IH]; intros Hset; [constructor|]. constructor.
  - apply IH. intros a b Hab Hb Hbl. apply (Hset (S a) (S b)); cbn [length]; lia.
  - apply Forall_lookup_2. intros i y Hy. pose proof (lookup_lt_Some _ _ _ Hy) as Hlt.
    specialize (Hset 0%nat (S i) ltac:(lia) ltac:(lia) ltac:(cbn [length]; lia)).
    assert (E : (x :: l) !!! S i = y) by now apply list_lookup_total_correct. rewrite E in Hset. exact Hset.
Qed.
End proofs.

(** C11: sort is a correct heapsort.  For any element size, any comparison that
    is a total preorder and any caller-supplied exchange function that swaps
    two disjoint elements (or none, when the 4-byte or the byte-wise one is
    used), the loops end, every access stays inside the array, the result is a
    permutation of the elements in ascending order, and what follows the array
    is untouched. *)
Theorem sort_correct size cmp_func swap_func l tail : 0 < size < 2 ^ 31 -> cells size l -> zlen l * size < 2 ^ 31 ->
  PreOrder (not_less cmp_func) -> (forall x y, cmp_func x y < 0 -> not_less cmp_func y x) ->
  (forall f, swap_func = Some f -> swaps size f) ->
  exists l', sort (buf l tail) (zlen l) size cmp_func swap_func = Ok (buf l' tail) /\ l' ≡ₚ l /\
    StronglySorted (fun x y => 0 <= cmp_func y x) l'.
Proof.
  intros [Hsize Hsize2] Hc Hmax Hpre Htot Hf. unfold sort.
  set (swap := match swap_func with Some f => f | None => if size =? 4 then u32_swap else generic_swap end).
  assert (Hswap : swaps size swap).
  { unfold swap. destruct swap_func as [f|]; [now apply Hf|]. destruct (Z.eqb_spec size 4) as [->|]; [apply u32_swap_swaps|now apply generic_swap_swaps]. }
  pose proof (zlen_nonneg l) as H0.
  assert (Ei : s32 (u32 (u32 (zlen l / 2 - 1) * size)) = (Z.of_nat (length l / 2) - 1) * size).
  { unfold zlen in *. rewrite Nat2Z.inj_div. change (Z.of_nat 2) with 2. set (h := Z.of_nat (length l) / 2).
    assert (Hh : 0 <= h /\ 2 * h <= Z.of_nat (length l)) by (unfold h; pose proof (Z.mul_div_le (Z.of_nat (length l)) 2); split; [apply Z.div_pos|]; lia).
    destruct (u32_cases (h - 1)) as [k ->]. rewrite (u32_eqm _ ((h - 1) * size) (- k * size)) by lia.
    apply s32_u32. unfold is_s32. nia. }
  assert (En : s32 (u32 (zlen l * size)) = zlen l * size) by (apply s32_u32; unfold is_s32; nia).
  assert (Ed : s32 (u32 (zlen l * size - size)) = (zlen l - 1) * size) by (rewrite s32_u32 by (unfold is_s32; nia); lia).
  cbv zeta. rewrite Ei, En, Ed. enough (W : wp (heapify size cmp_func swap (buf l tail) (zlen l) ((Z.of_nat (length l / 2) - 1) * size) (zlen l * size) ≫=
    fun base => sort_down size cmp_func swap base (zlen l) ((zlen l - 1) * size))
    (fun m => exists l', m = buf l' tail /\ l' ≡ₚ l /\ StronglySorted (fun x y => 0 <= cmp_func y x) l')).
  { apply wp_exists in W as (m & -> & l' & -> & Hp & Hs). exists l'. done. }
  apply wp_bind. eapply wp_mono; [now apply heapify_ok|]. intros m (l1 & -> & Hsh & Hh).
  assert (Hl1 : length l1 = length l) by (apply Permutation_length; apply Hsh).
  assert (Ez : zlen l = zlen l1) by (unfold zlen; lia). rewrite Ez.
  eapply wp_mono; [apply sort_down_ok; try done|].
  - apply (shuffled_cells size (length l) l l1 Hsh Hc).
  - now rewrite <- Ez.
  - now rewrite Hl1.
  - intros m (l2 & -> & Hp & Hset). exists l2. split; [done|]. split; [destruct Hsh as [Hsh _]; now rewrite Hp|].
    now apply settled_sorted.
Qed.

(** Two-byte elements compared by their first byte. *)
Lemma sort_correct_witness :
  sort (buf [[3; 0]; [1; 1]; [2; 2]; [1; 3]] [99]) 4 2 (fun x y => nth 0 x 0 - nth 0 y 0) None
    = Ok (buf [[1; 1]; [1; 3]; [2; 2]; [3; 0]] [99]) /\
  exists l', sort (buf [[3; 0]; [1; 1]; [2; 2]; [1; 3]] [99]) 4 2 (fun x y => nth 0 x 0 - nth 0 y 0) None = Ok (buf l' [99]) /\
    StronglySorted (fun x y => 0 <= nth 0 y 0 - nth 0 x 0) l'.
Proof.
  split; [vm_compute; reflexivity|].
  destruct (sort_correct 2 (fun x y => nth 0 x 0 - nth 0 y 0) None [[3; 0]; [1; 1]; [2; 2]; [1; 3]] [99]) as (l' & E & _ & Hs).
  - lia.
  - repeat apply Forall_cons_2; reflexivity || constructor.
  - reflexivity.
  - split; [intros x; unfold not_less; lia|intros x y z; unfold not_less; lia].
  - intros x y; unfold not_less; lia.
  - discriminate.
  - exists l'. split; [exact E|exact Hs].
Defined.
