(* ===== verification/PrioHeap.v ===== *)
(** lib/prio_heap.c: a bounded priority heap of pointers that keeps the
    smallest elements it was given and hands back the greatest. *)
From stdpp Require Import sorting.
From S2P Require Import Prelude.
From S2P Require Import Heap.

(** Pointers are addresses; NULL is 0.  [gt] is the caller's order. *)
Record ptr_heap := PtrHeap { ptrs : list Z; max : Z; size : Z; gt : Z -> Z -> bool }.

Definition NULL : Z := 0.
Definition ENOMEM : Z := 12.

(** [mem] is what kmalloc returned for [bytes] bytes. *)
Definition heap_init (h : ptr_heap) (bytes : Z) (mem : option (list Z)) (gt : Z -> Z -> bool) : Z * ptr_heap :=
  match mem with
  | None => (- ENOMEM, h)
  | Some ptrs => (0, PtrHeap ptrs (bytes / 4) 0 gt)
  end.

(** The loop of an insertion: the hole at [pos] moves up. *)
Definition heap_up (gt : Z -> Z -> bool) (ptrs : list Z) (pos p : Z) : res (list Z * Z) :=
  loop (S (Z.to_nat pos)) (fun '(ptrs, pos) =>
    up ← (if 0 <? pos then q ← rd ptrs ((pos - 1) / 2); Ok (gt p q) else Ok false);
    if up : bool then
      q ← rd ptrs ((pos - 1) / 2);
      ptrs ← wr ptrs pos q;
      Ok (inl (ptrs, (pos - 1) / 2))
    else Ok (inr (ptrs, pos))) (ptrs, pos).

(** The loop of a replacement: [p], which is at [pos], moves down. *)
Definition heap_down (gt : Z -> Z -> bool) (size : Z) (ptrs : list Z) (p : Z) : res (list Z) :=
  loop (S (Z.to_nat size)) (fun '(ptrs, pos) =>
    let left := s32 (2 * pos + 1) in
    let right := s32 (2 * pos + 2) in
    let largest := pos in
    x ← (if left <? size then q ← rd ptrs left; Ok (gt q p) else Ok false);
    let largest := if x : bool then left else largest in
    y ← (if right <? size then q ← rd ptrs right; m ← rd ptrs largest; Ok (gt q m) else Ok false);
    let largest := if y : bool then right else largest in
    if largest =? pos then Ok (inr ptrs) else
    q ← rd ptrs largest;
    ptrs ← wr ptrs pos q;
    ptrs ← wr ptrs largest p;
    Ok (inl (ptrs, largest))) (ptrs, 0).

(** The result pointer and the heap afterwards. *)
Definition heap_insert (h : ptr_heap) (p : Z) : res (Z * ptr_heap) :=
  if size h <? max h then
    '(l, pos) ← heap_up (gt h) (ptrs h) (size h) p;
    l ← wr l pos p;
    Ok (NULL, PtrHeap l (max h) (size h + 1) (gt h))
  else
    top ← rd (ptrs h) 0;
    if gt h p top then Ok (p, h) else
    l ← wr (ptrs h) 0 p;
    l ← heap_down (gt h) (size h) l p;
    Ok (top, PtrHeap l (max h) (size h) (gt h)).

(** * Correctness *)

(** [a] is not below [b]. *)
Definition geq (gt : Z -> Z -> bool) (a b : Z) : Prop := gt b a = false.

(** [gt] is the strict part of a total preorder. *)
Class StrictOrderGt (gt : Z -> Z -> bool) : Prop := {
  geq_preorder :: PreOrder (geq gt);
  gt_geq : forall a b, gt a b = true -> geq gt a b
}.

Definition contents (h : ptr_heap) : list Z := take (Z.to_nat (size h)) (ptrs h).

Definition heap_ok (h : ptr_heap) : Prop :=
  0 < max h < 2 ^ 30 /\ 0 <= size h <= max h /\ zlen (ptrs h) = max h /\ heap_from (geq (gt h)) 0 (Z.to_nat (size h)) (ptrs h).

Lemma rd_total (l : list Z) (i : nat) : (i < length l)%nat -> rd l (Z.of_nat i) = Ok (l !!! i).
Proof.
  intros Hi. unfold rd. destruct (Z.leb_spec 0 (Z.of_nat i)); [|lia]. rewrite Nat2Z.id.
  now rewrite (list_lookup_lookup_total_lt l i Hi).
Qed.

Lemma wr_nat (l : list Z) (i : nat) v : (i < length l)%nat -> wr l (Z.of_nat i) v = Ok (<[i := v]> l).
Proof. intros Hi. rewrite wr_ok by (unfold zlen; lia). now rewrite Nat2Z.id. Qed.

Section insert.
Context (g : Z -> Z -> bool) `{!StrictOrderGt g} (p : Z) (l0 : list Z) (n : nat).
Context (Hn : (n < length l0)%nat) (Hmax : zlen l0 < 2 ^ 30).

Lemma heap_up_ok : heap_from (geq g) 0 n l0 ->
  wp (heap_up g l0 (Z.of_nat n) p) (fun '(l, pos) => exists r, pos = Z.of_nat r /\ (r <= n)%nat /\ length l = length l0 /\
    <[r := p]> l ≡ₚ <[n := p]> l0 /\ drop (S n) l = drop (S n) l0 /\ heap_from (geq g) 0 (S n) (<[r := p]> l)).
Proof using All.
  intros Hh. unfold heap_up.
  apply wp_loop with
    (I := fun s => exists l r, s = (l, Z.of_nat r) /\ (r <= n)%nat /\ length l = length l0 /\ <[r := p]> l ≡ₚ <[n := p]> l0 /\
      drop (S n) l = drop (S n) l0 /\ rising (geq g) (S n) r (<[r := p]> l))
    (m := fun s => s.2).
  - exists l0, n. repeat split; try done; now apply rise_start.
  - cbn. lia.
  - intros s (l & r & -> & Hr & Hl & Hp & Hd & Hrise) _. cbn [snd]. destruct (Z.ltb_spec 0 (Z.of_nat r)) as [H0|H0].
    2:{ rewrite bind_ok. apply wp_ok. exists r. repeat split; try done. apply (rise_stop _ _ r _ Hrise). intros q Hq. apply child_gt in Hq. lia. }
    pose proof (parent_child r ltac:(lia)) as Hpar. set (q := ((r - 1) / 2)%nat) in *. pose proof (child_gt q r Hpar) as Hqr.
    replace ((Z.of_nat r - 1) / 2) with (Z.of_nat q) by (unfold q; rewrite Nat2Z.inj_div, Nat2Z.inj_sub by lia; done).
    rewrite rd_total, !bind_ok by lia. destruct (g p (l !!! q)) eqn:Eg.
    + rewrite ?bind_ok, wr_nat, bind_ok by lia. apply wp_ok. split; [|cbn [snd]; lia].
      assert (Ex : <[q := p]> (<[r := l !!! q]> l) = exchange q r (<[r := p]> l)).
      { unfold exchange. rewrite list_lookup_total_insert_eq by lia. rewrite list_lookup_total_insert_ne by lia.
        now rewrite list_insert_insert_eq. }
      exists (<[r := l !!! q]> l), q. split; [done|]. split; [lia|]. split; [now rewrite length_insert|]. rewrite Ex.
      assert (Hlen : length (<[r := p]> l) = length l0) by now rewrite length_insert.
      split; [rewrite exchange_perm by lia; done|]. split; [now rewrite drop_insert_lt by lia|].
      apply rise_move; [apply _|lia|done|lia|done|]. rewrite list_lookup_total_insert_eq by lia.
      rewrite list_lookup_total_insert_ne by lia. now apply gt_geq.
    + apply wp_ok. exists r. repeat split; try done. apply (rise_stop _ _ r _ Hrise). intros q' Hq'.
      rewrite (child_parent q' q r Hq' Hpar). rewrite list_lookup_total_insert_eq by lia. now rewrite list_lookup_total_insert_ne by lia.
Qed.
End insert.

Section replace.
Context (g : Z -> Z -> bool) `{!StrictOrderGt g} (p : Z) (n : nat).
Local Abbreviation geq := (geq g).

(** The child the loop picks: none, or the greatest of the children, which is
    greater than [p]. *)
Lemma down_turn l r : (n <= length l)%nat -> (r < n)%nat -> l !!! r = p -> sifting geq 0 n r l ->
  let left := (2 * r + 1)%nat in
  let right := (2 * r + 2)%nat in
  let a := if ((left <? n)%nat && g (l !!! left) p) then left else r in
  let b := if ((right <? n)%nat && g (l !!! right) (l !!! a)) then right else a in
  (b = r -> heap_from geq 0 n l) /\
  (b <> r -> (r < b)%nat /\ (b < n)%nat /\ sifting geq 0 n b (exchange r b l)).
Proof using All.
  intros Hn Hr Hp Hs. cbv zeta. set (c1 := (2 * r + 1)%nat). set (c2 := (2 * r + 2)%nat).
  assert (Hc1 : child r c1) by now left. assert (Hc2 : child r c2) by now right.
  pose proof (child_gt r c1 Hc1). pose proof (child_gt r c2 Hc2).
  set (a := if _ && g (l !!! c1) p then c1 else r). set (b := if _ && g (l !!! c2) (l !!! a) then c2 else a).
  assert (Ha : (a = c1 /\ (c1 < n)%nat /\ geq (l !!! c1) p) \/ (a = r /\ ((c1 < n)%nat -> geq p (l !!! c1)))).
  { unfold a. destruct (Nat.ltb_spec c1 n); cbn [andb]; [|right; split; [done|lia]].
    destruct (g (l !!! c1) p) eqn:E; [left; split; [done|]; split; [done|now apply gt_geq]|right; split; [done|intros _; exact E]]. }
  assert (Hb : (b = c2 /\ (c2 < n)%nat /\ geq (l !!! c2) (l !!! a)) \/ (b = a /\ ((c2 < n)%nat -> geq (l !!! a) (l !!! c2)))).
  { unfold b. destruct (Nat.ltb_spec c2 n); cbn [andb]; [|right; split; [done|lia]].
    destruct (g (l !!! c2) (l !!! a)) eqn:E; [left; split; [done|]; split; [done|now apply gt_geq]|right; split; [done|intros _; exact E]]. }
  split; intros Hbr.
  - apply (sift_stop _ 0 n r l Hs). rewrite Hp. destruct Hb as [(-> & _)|[-> Hb]]; [lia|]. destruct Ha as [(-> & _)|[-> Ha]]; [lia|].
    rewrite Hp in Hb. intros c Hc [->| ->]; auto.
  - assert (Hmax : (r < b)%nat /\ (b < n)%nat /\ child r b /\ geq (l !!! b) p /\ forall c, (c < n)%nat -> child r c -> geq (l !!! b) (l !!! c)).
    { destruct Hb as [(-> & Hlt & Hge)|[-> Hge]].
      - destruct Ha as [(-> & Hlt1 & Hge1)|[-> Hge1]].
        + assert (geq (l !!! c2) p) by (transitivity (l !!! c1); done).
          do 4 (split; [done|]). intros c Hc [->| ->]; [done|reflexivity].
        + rewrite Hp in Hge. do 4 (split; [done|]). intros c Hc [->| ->]; [|reflexivity]. transitivity p; [done|]. apply Hge1. lia.
      - destruct Ha as [(-> & Hlt1 & Hge1)|[-> Hge1]]; [|lia].
        do 4 (split; [done|]). intros c Hc [->| ->]; [reflexivity|auto]. }
    destruct Hmax as (H1 & H2 & H3 & H4 & H5). split; [done|]. split; [done|]. apply sift_move; try done. now rewrite Hp.
Qed.

Lemma heap_down_ok l0 : (n <= length l0)%nat -> (0 < n)%nat -> zlen l0 < 2 ^ 30 -> l0 !!! 0%nat = p -> sifting geq 0 n 0 l0 ->
  wp (heap_down g (Z.of_nat n) l0 p) (fun l => l ≡ₚ l0 /\ drop n l = drop n l0 /\ heap_from geq 0 n l).
Proof using All.
  intros Hn0 Hn Hmax Hp Hs. unfold heap_down.
  apply wp_loop with
    (I := fun s => exists l r, s = (l, Z.of_nat r) /\ (r < n)%nat /\ l ≡ₚ l0 /\ drop n l = drop n l0 /\ l !!! r = p /\ sifting geq 0 n r l)
    (m := fun s => Z.of_nat n - s.2).
  - exists l0, 0%nat. done.
  - cbn. lia.
  - intros s (l & r & -> & Hr & Hperm & Hd & Hpr & Hsift) _. cbn [snd]. pose proof (Permutation_length Hperm) as Hlen.
    unfold zlen in Hmax. rewrite !s32_id by (unfold is_s32; lia).
    replace (2 * Z.of_nat r + 1) with (Z.of_nat (2 * r + 1)) by lia. replace (2 * Z.of_nat r + 2) with (Z.of_nat (2 * r + 2)) by lia.
    pose proof (down_turn l r ltac:(lia) Hr Hpr Hsift) as Ht. cbv zeta in Ht |- *.
    assert (Hlt : forall c : nat, (Z.of_nat c <? Z.of_nat n) = (c <? n)%nat)
      by (intros c; destruct (Z.ltb_spec (Z.of_nat c) (Z.of_nat n)), (Nat.ltb_spec c n); done || lia). rewrite !Hlt.
    set (x := (2 * r + 1 <? n)%nat && g (l !!! (2 * r + 1)%nat) p) in Ht. set (a := (if x then _ else r)) in Ht.
    assert (Ex : (if (2 * r + 1 <? n)%nat then q ← rd l (Z.of_nat (2 * r + 1)); Ok (g q p) else Ok false) = Ok x).
    { unfold x. destruct (Nat.ltb_spec (2 * r + 1) n); [|done]. now rewrite rd_total, bind_ok by lia. }
    rewrite Ex, bind_ok. clear Ex. replace (if x then Z.of_nat (2 * r + 1) else Z.of_nat r) with (Z.of_nat a) by (unfold a; destruct x; done).
    assert (Han : (a < n)%nat) by (unfold a, x; destruct (Nat.ltb_spec (2 * r + 1) n); cbn [andb]; [destruct (g _ _)|]; lia).
    set (y := (2 * r + 2 <? n)%nat && g (l !!! (2 * r + 2)%nat) (l !!! a)) in Ht. set (b := (if y then _ else a)) in Ht.
    assert (Ey : (if (2 * r + 2 <? n)%nat then q ← rd l (Z.of_nat (2 * r + 2)); m ← rd l (Z.of_nat a); Ok (g q m) else Ok false) = Ok y).
    { unfold y. destruct (Nat.ltb_spec (2 * r + 2) n); [|done]. now rewrite !rd_total, bind_ok, ?rd_total, bind_ok by lia. }
    rewrite Ey, bind_ok. clear Ey. replace (if y then Z.of_nat (2 * r + 2) else Z.of_nat a) with (Z.of_nat b) by (unfold b; destruct y; done).
    clearbody b. destruct Ht as [Hstop Hmove]. destruct (Z.eqb_spec (Z.of_nat b) (Z.of_nat r)) as [Eb|Eb].
    + apply wp_ok. split; [done|]. split; [done|]. apply Hstop. lia.
    + destruct (Hmove ltac:(lia)) as (Hrb & Hbn & Hs'). rewrite rd_total, bind_ok, wr_nat, bind_ok by lia.
      rewrite wr_nat, bind_ok by (rewrite length_insert; lia). apply wp_ok. split; [|cbn [snd]; lia].
      assert (Ee : <[b := p]> (<[r := l !!! b]> l) = exchange r b l) by (unfold exchange; rewrite Hpr; apply list_insert_insert_ne; lia).
      exists (exchange r b l), b. rewrite Ee. split; [done|]. split; [done|]. split; [rewrite exchange_perm by lia; done|].
      split; [now rewrite exchange_drop by lia|]. split; [rewrite exchange_right by lia; done|done].
Qed.
End replace.

(** C28: the priority heap.  On a well-formed heap an insertion below the bound
    adds the element; at the bound the heap afterwards holds the smallest
    elements of the old ones and the new one, and the returned element is the
    one left over, not below any that stayed (the new one itself, with the
    heap unchanged, when it is greater than the root).  The heap stays well
    formed, the loops end and every access is in bounds. *)
Theorem heap_insert_correct h p : heap_ok h -> StrictOrderGt (gt h) ->
  exists r h', heap_insert h p = Ok (r, h') /\ heap_ok h' /\ max h' = max h /\ gt h' = gt h /\
  (size h < max h -> r = NULL /\ size h' = size h + 1 /\ contents h' ≡ₚ p :: contents h) /\
  (size h = max h -> size h' = size h /\ r :: contents h' ≡ₚ p :: contents h /\ Forall (geq (gt h) r) (contents h') /\
    (gt h p (ptrs h !!! 0%nat) = true -> r = p /\ h' = h)).
Proof.
  destruct h as [l mx sz g]. unfold heap_ok, heap_insert, contents. cbn [ptrs max size gt]. intros ((Hm0 & Hm) & Hsz & Hl & Hh) HS.
  set (n := Z.to_nat sz) in *. assert (En : sz = Z.of_nat n) by (unfold n; lia). unfold zlen in Hl.
  destruct (Z.ltb_spec sz mx) as [Hlt|Hge].
  - pose proof (heap_up_ok g p l n ltac:(lia) ltac:(unfold zlen; lia) Hh) as W. rewrite <- En in W.
    apply wp_exists in W as ([l1 pos] & -> & r & -> & Hrn & Hl1 & Hp & Hd & Hh1). rewrite bind_ok, wr_nat, bind_ok by lia.
    eexists _, _. split; [reflexivity|]. cbn [ptrs max size gt].
    assert (En1 : Z.to_nat (sz + 1) = S n) by lia. unfold zlen. rewrite length_insert, En1. split; [repeat split; lia || done|].
    split; [done|]. split; [done|]. split; [|lia]. intros _. split; [done|]. split; [done|].
    rewrite <- (take_drop (S n) (<[r := p]> l1)), <- (take_drop (S n) (<[n := p]> l)) in Hp.
    rewrite !drop_insert_lt, Hd in Hp by lia. apply Permutation_app_inv_r in Hp. rewrite Hp.
    rewrite (take_S_r _ n p) by (apply list_lookup_insert_eq; lia). rewrite take_insert_ge by lia.
    now rewrite <- Permutation_cons_append.
  - assert (sz = mx) as -> by lia. assert (Hn : (0 < n)%nat /\ length l = n) by lia. destruct Hn as [Hn Hln].
    change 0 with (Z.of_nat 0). rewrite rd_total, bind_ok by lia. destruct (g p (l !!! 0%nat)) eqn:Eg.
    + eexists _, _. split; [reflexivity|]. cbn [ptrs max size gt]. fold n. split; [repeat split; lia || done|]. split; [done|]. split; [done|].
      split; [lia|]. intros _. split; [done|]. split; [done|]. split; [|done].
      apply Forall_lookup_2. intros i x Hx. apply lookup_take_Some in Hx as [Hx Hi]. apply list_lookup_total_correct in Hx as <-.
      transitivity (l !!! 0%nat); [now apply gt_geq|now apply (heap_root (geq g) n)].
    + rewrite wr_nat, bind_ok by lia. set (l1 := <[0%nat := p]> l).
      assert (Hl1 : length l1 = n) by (unfold l1; rewrite length_insert; lia).
      assert (Hs : sifting (geq g) 0 n 0 l1).
      { apply sift_start. intros q c Hq Hc Hqc. pose proof (child_gt q c Hqc). unfold l1. rewrite !list_lookup_total_insert_ne by lia. apply Hh; lia || done. }
      pose proof (heap_down_ok g p n l1 ltac:(lia) Hn ltac:(unfold zlen; lia) ltac:(unfold l1; apply list_lookup_total_insert_eq; lia) Hs) as W.
      rewrite <- En in W. apply wp_exists in W as (l2 & -> & Hp & Hd & Hh2). rewrite bind_ok. pose proof (Permutation_length Hp) as Hl2.
      eexists _, _. split; [reflexivity|]. cbn [ptrs max size gt]. fold n. split; [unfold zlen; repeat split; lia || done|]. split; [done|]. split; [done|].
      split; [lia|]. intros _. split; [done|]. rewrite !take_ge by lia.
      destruct l as [|t l]; [cbn in Hln; lia|]. unfold l1 in Hp. cbn in Hp. cbn.
      split; [rewrite Hp; apply Permutation_swap|]. split; [|congruence].
      rewrite Hp. constructor; [exact Eg|]. apply Forall_lookup_2. intros i x Hx. pose proof (lookup_lt_Some _ _ _ Hx) as Hi.
      assert (Ex : (t :: l) !!! S i = x) by now apply list_lookup_total_correct. rewrite <- Ex.
      apply (heap_root (geq g) n (t :: l) (S i) Hh). cbn [length] in Hln. lia.
Qed.

Lemma heap_insert_correct_witness :
  exists h', heap_insert (PtrHeap [9; 5; 3] 3 3 Z.gtb) 4 = Ok (9, h') /\ heap_ok h' /\ 9 :: contents h' ≡ₚ [4; 9; 5; 3].
Proof.
  destruct (heap_insert_correct (PtrHeap [9; 5; 3] 3 3 Z.gtb) 4) as (r & h' & E & Hok & _ & _ & _ & Hfull).
  - split; [cbn; lia|]. split; [cbn; lia|]. split; [reflexivity|]. intros p c _ Hc [->| ->]; cbn in Hc.
    + destruct p as [|p]; [reflexivity|lia].
    + destruct p as [|p]; [reflexivity|lia].
  - split; [split|].
    + intros a. unfold geq. cbn. rewrite Z.gtb_ltb. apply Z.ltb_irrefl.
    + intros a b c. unfold geq. cbn. rewrite !Z.gtb_ltb, !Z.ltb_ge. lia.
    + intros a b. unfold geq. cbn. rewrite !Z.gtb_ltb, Z.ltb_ge, Z.ltb_lt. lia.
  - assert (E2 : exists h2, heap_insert (PtrHeap [9; 5; 3] 3 3 Z.gtb) 4 = Ok (9, h2)) by (eexists; vm_compute; reflexivity).
    destruct E2 as [h2 E2]. rewrite E2 in E. injection E as <- <-. exists h2. split; [exact E2|]. split; [exact Hok|].
    apply (Hfull eq_refl).
Defined.
