(* ===== verification/State.v ===== *)
(** Computations on a state that can fault.

    A component whose functions read and write a shared state through many
    calls is written in this monad; [res] is the result type of the prelude. *)

From S2P Require Import Prelude.

Definition ST (S A : Type) : Type := S -> res (A * S).

#[export] Instance ST_ret {S} : MRet (ST S) := fun A a s => Ok (a, s).
#[export] Instance ST_bind {S} : MBind (ST S) := fun A B f m s =>
  match m s with Ok (a, s') => f a s' | Err e => Err e end.

Definition fail {S A} (e : fault) : ST S A := fun _ => Err e.
Definition gets {S A} (f : S -> A) : ST S A := fun s => Ok (f s, s).
Definition modify {S} (f : S -> S) : ST S unit := fun s => Ok (tt, f s).
Definition lift {S A} (m : res A) : ST S A := fun s => match m with Ok a => Ok (a, s) | Err e => Err e end.

(** A loop over local variables [l]; [inr] leaves it. *)
Fixpoint while {S L R : Type} (fuel : nat) (body : L -> ST S (L + R)) (l : L) : ST S R :=
  match fuel with
  | O => fail OutOfFuel
  | Datatypes.S fuel' => x ← body l; match x with inl l' => while fuel' body l' | inr r => mret r end
  end.

(** * Total correctness

    [runs m s Q]: from [s] the computation returns, and its value and the new
    state satisfy [Q]. *)
Definition runs {S A} (m : ST S A) (s : S) (Q : A -> S -> Prop) : Prop :=
  wp (m s) (fun '(a, s') => Q a s').

Lemma runs_ret {S A} (a : A) (s : S) (Q : A -> S -> Prop) : Q a s -> runs (mret a) s Q.
Proof. done. Qed.

Lemma runs_bind {S A B} (m : ST S A) (f : A -> ST S B) (s : S) (Q : B -> S -> Prop) :
  runs m s (fun a s' => runs (f a) s' Q) -> runs (m ≫= f) s Q.
Proof. unfold runs, mbind, ST_bind. destruct (m s) as [[a s']|e]; done. Qed.

Lemma runs_eq {S A} (m : ST S A) (s : S) a s' (Q : A -> S -> Prop) :
  m s = Ok (a, s') -> Q a s' -> runs m s Q.
Proof. unfold runs. now intros ->. Qed.

Lemma runs_mono {S A} (m : ST S A) (s : S) (P Q : A -> S -> Prop) :
  runs m s P -> (forall a s', P a s' -> Q a s') -> runs m s Q.
Proof. intros H HPQ. eapply wp_mono; [exact H|]. intros [a s']. apply HPQ. Qed.

Lemma runs_exists {S A} (m : ST S A) (s : S) (Q : A -> S -> Prop) :
  runs m s Q <-> exists a s', m s = Ok (a, s') /\ Q a s'.
Proof.
  unfold runs. rewrite wp_exists. split.
  - intros ([a s'] & ? & ?). eauto.
  - intros (a & s' & ? & ?). now exists (a, s').
Qed.

Lemma runs_bind_assoc {S A B C} (m : ST S A) (f : A -> ST S B) (g : B -> ST S C) (s : S) (Q : C -> S -> Prop) :
  runs (x ← m; y ← f x; g y) s Q <-> runs (y ← (x ← m; f x); g y) s Q.
Proof. unfold runs, mbind, ST_bind. destruct (m s) as [[a s']|e]; done. Qed.

Lemma runs_gets {S A B} (f : S -> A) (k : A -> ST S B) s Q : runs (k (f s)) s Q -> runs (gets f ≫= k) s Q.
Proof. done. Qed.
Lemma runs_modify {S} f (s : S) (Q : unit -> S -> Prop) : Q tt (f s) -> runs (modify f) s Q.
Proof. done. Qed.
Lemma runs_lift {S A} (m : res A) (s : S) (Q : A -> S -> Prop) : wp m (fun a => Q a s) -> runs (lift m) s Q.
Proof. unfold runs, lift. destruct m; done. Qed.

(** A loop with an invariant and a measure that bounds the turns left. *)
Lemma runs_while {S L R} (I : L -> S -> Prop) (measure : L -> S -> Z) (body : L -> ST S (L + R)) (Q : R -> S -> Prop) fuel l s :
  I l s -> measure l s < Z.of_nat fuel ->
  (forall l s, I l s -> 0 <= measure l s /\ runs (body l) s (fun x s' => match x with
     | inl l' => I l' s' /\ measure l' s' < measure l s
     | inr r => Q r s'
     end)) ->
  runs (while fuel body l) s Q.
Proof.
  intros HI Hf Hb. revert l s HI Hf. induction fuel as [|fuel IH]; intros l s HI Hf.
  - destruct (Hb l s HI). lia.
  - cbn [while]. apply runs_bind. destruct (Hb l s HI) as [H0 Hr]. eapply runs_mono; [exact Hr|].
    intros [l'|r] s' H; [|now apply runs_ret]. destruct H as [HI' Hm]. apply IH; [done|lia].
Qed.

(** The same with an invariant indexed by the turns taken. *)
Lemma runs_while_count {S L R} (I : nat -> L -> S -> Prop) (body : L -> ST S (L + R)) (Q : R -> S -> Prop) fuel l s :
  I 0%nat l s ->
  (forall n l s, I n l s -> (n < fuel)%nat /\ runs (body l) s (fun x s' => match x with
     | inl l' => I (Datatypes.S n) l' s'
     | inr r => Q r s'
     end)) ->
  runs (while fuel body l) s Q.
Proof.
  intros HI Hb. assert (forall k n l s, (n + k)%nat = fuel -> I n l s -> runs (while k body l) s Q) as Hk; [|now apply (Hk fuel 0%nat)].
  clear l s HI. induction k as [|k IH]; intros n l s E HI.
  - destruct (Hb n l s HI). lia.
  - cbn [while]. apply runs_bind. destruct (Hb n l s HI) as [_ Hr]. eapply runs_mono; [exact Hr|].
    intros [l'|r] s' H; [|now apply runs_ret]. apply (IH (Datatypes.S n)); [lia|done].
Qed.
