(* ===== verification/RadixTree.v ===== *)
(** Radix trees (lib/radix-tree.c, include/linux/radix-tree.h), the index of the
    page cache: the memory and the operations, at the level of pointers.

    The state is one [struct radix_tree_root], the memory of nodes by address,
    the free objects of the slab cache, and the pool of preloaded nodes of this
    processor.  Items are pointers whose low bit is clear; the root marks a
    pointer to a node by setting that bit.  The callback that RCU runs after a
    grace period ([radix_tree_node_rcu_free]) runs at once, as no reader is
    active while the lock of the tree is held. *)

From stdpp Require Import gmap.
From S2P Require Import Prelude.
From S2P Require Import Bits FindBit Bitmap State.

(** * Data *)

Definition RADIX_TREE_MAP_SHIFT : Z := 6.
Definition RADIX_TREE_MAP_SIZE : Z := Z.shiftl 1 RADIX_TREE_MAP_SHIFT.
Definition RADIX_TREE_MAP_MASK : Z := RADIX_TREE_MAP_SIZE - 1.
Definition RADIX_TREE_TAG_LONGS : Z := (RADIX_TREE_MAP_SIZE + BITS_PER_LONG - 1) / BITS_PER_LONG.
Definition RADIX_TREE_MAX_TAGS : Z := 2.
Definition RADIX_TREE_INDEX_BITS : Z := 8 * 4.
Definition RADIX_TREE_MAX_PATH : Z := (RADIX_TREE_INDEX_BITS + RADIX_TREE_MAP_SHIFT - 1) / RADIX_TREE_MAP_SHIFT.
Definition __GFP_WAIT : Z := 0x10.
Definition __GFP_BITS_SHIFT : Z := 22.
Definition __GFP_BITS_MASK : Z := Z.shiftl 1 __GFP_BITS_SHIFT - 1.
Definition EEXIST : Z := 17.

Record radix_tree_node := RtNode {
  nd_height : Z;
  nd_count : Z;
  nd_slots : list Z;
  nd_tags : list (list Z)
}.

Record radix_tree := Rt {
  rt_height : Z;
  gfp_mask : Z;
  rnode : Z;
  nodes : gmap Z radix_tree_node;
  slab : list Z;      (* free objects of radix_tree_node_cachep *)
  preloads : list Z   (* radix_tree_preloads, the last node first *)
}.

Abbreviation RM := (ST radix_tree).

Definition set_rheight (v : Z) : RM unit := modify (fun t => Rt v (gfp_mask t) (rnode t) (nodes t) (slab t) (preloads t)).
Definition set_gfp (v : Z) : RM unit := modify (fun t => Rt (rt_height t) v (rnode t) (nodes t) (slab t) (preloads t)).
Definition set_rnode (v : Z) : RM unit := modify (fun t => Rt (rt_height t) (gfp_mask t) v (nodes t) (slab t) (preloads t)).
Definition set_slab (v : list Z) : RM unit := modify (fun t => Rt (rt_height t) (gfp_mask t) (rnode t) (nodes t) v (preloads t)).
Definition set_preloads (v : list Z) : RM unit := modify (fun t => Rt (rt_height t) (gfp_mask t) (rnode t) (nodes t) (slab t) v).

(** The node at an address; following any other pointer is an error. *)
Definition node_at (a : Z) : RM radix_tree_node := fun t =>
  match nodes t !! a with Some n => Ok (n, t) | None => Err OutOfBounds end.
Definition put_node (a : Z) (n : radix_tree_node) : RM unit := fun t =>
  match nodes t !! a with
  | Some _ => Ok (tt, Rt (rt_height t) (gfp_mask t) (rnode t) (<[a := n]> (nodes t)) (slab t) (preloads t))
  | None => Err OutOfBounds
  end.

Definition set_height (a v : Z) : RM unit := n ← node_at a; put_node a (RtNode v (nd_count n) (nd_slots n) (nd_tags n)).
Definition set_count (a v : Z) : RM unit := n ← node_at a; put_node a (RtNode (nd_height n) v (nd_slots n) (nd_tags n)).
Definition get_slot (a i : Z) : RM Z := n ← node_at a; lift (rd (nd_slots n) i).
Definition set_slot (a i v : Z) : RM unit :=
  n ← node_at a;
  s ← lift (wr (nd_slots n) i v);
  put_node a (RtNode (nd_height n) (nd_count n) s (nd_tags n)).

(** * Pointers and tags *)

Definition radix_tree_ptr_to_indirect (ptr : Z) : Z := Z.lor ptr 1.
Definition radix_tree_indirect_to_ptr (ptr : Z) : Z := Z.land ptr (lnot32 1).
Definition radix_tree_is_indirect_ptr (ptr : Z) : Z := Z.land ptr 1.

Definition root_gfp_mask : RM Z := g ← gets gfp_mask; mret (Z.land g __GFP_BITS_MASK).

(** non-atomic.h *)
Definition clear_bit (nr : Z) (addr : list Z) : res (list Z) :=
  w ← rd addr (BITOP_WORD nr);
  wr addr (BITOP_WORD nr) (Z.land w (lnot32 (shl32 1 (nr mod BITS_PER_LONG)))).

Definition tag_set (node tag offset : Z) : RM unit :=
  n ← node_at node;
  w ← lift (rd (nd_tags n) tag);
  w ← lift (set_bit offset w);
  tags ← lift (wr (nd_tags n) tag w);
  put_node node (RtNode (nd_height n) (nd_count n) (nd_slots n) tags).

Definition tag_clear (node tag offset : Z) : RM unit :=
  n ← node_at node;
  w ← lift (rd (nd_tags n) tag);
  w ← lift (clear_bit offset w);
  tags ← lift (wr (nd_tags n) tag w);
  put_node node (RtNode (nd_height n) (nd_count n) (nd_slots n) tags).

Definition tag_get (node tag offset : Z) : RM Z :=
  n ← node_at node;
  w ← lift (rd (nd_tags n) tag);
  lift (test_bit offset w).

Definition root_tag_set (tag : Z) : RM unit :=
  g ← gets gfp_mask; set_gfp (Z.lor g (shl32 1 (tag + __GFP_BITS_SHIFT))).
Definition root_tag_clear (tag : Z) : RM unit :=
  g ← gets gfp_mask; set_gfp (Z.land g (lnot32 (shl32 1 (tag + __GFP_BITS_SHIFT)))).
Definition root_tag_clear_all : RM unit :=
  g ← gets gfp_mask; set_gfp (Z.land g __GFP_BITS_MASK).
Definition root_tag_get (tag : Z) : RM Z :=
  g ← gets gfp_mask; mret (Z.land g (shl32 1 (tag + __GFP_BITS_SHIFT))).

Definition any_tag_set (node tag : Z) : RM Z :=
  n ← node_at node;
  while 3 (fun idx =>
    if idx <? RADIX_TREE_TAG_LONGS then
      w ← lift (rd (nd_tags n) tag);
      x ← lift (rd w idx);
      mret (if negb (x =? 0) then inr 1 else inl (idx + 1))
    else mret (inr 0)) 0.

(** * Nodes *)

(** The slab cache hands out a free object, [NULL] when there is none. *)
Definition kmem_cache_alloc : RM Z :=
  s ← gets slab;
  match s with
  | [] => mret 0
  | a :: s => set_slab s;; mret a
  end.
Definition kmem_cache_free (a : Z) : RM unit := s ← gets slab; set_slab (a :: s).

Definition radix_tree_node_alloc : RM Z :=
  gfp ← root_gfp_mask;
  ret ← (if Z.land gfp __GFP_WAIT =? 0 then
           rtp ← gets preloads;
           match rtp with
           | [] => mret 0
           | a :: rtp => set_preloads rtp;; mret a
           end
         else mret 0);
  ret ← (if ret =? 0 then kmem_cache_alloc else mret ret);
  if negb (radix_tree_is_indirect_ptr ret =? 0) then fail BugOn else mret ret.

Definition radix_tree_node_rcu_free (node : Z) : RM unit :=
  tag_clear node 0 0;;
  tag_clear node 1 0;;
  set_slot node 0 0;;
  set_count node 0;;
  kmem_cache_free node.

Definition radix_tree_node_free (node : Z) : RM unit := radix_tree_node_rcu_free node.

Definition radix_tree_preload : RM Z :=
  while (Z.to_nat RADIX_TREE_MAX_PATH + 1) (fun _ : unit =>
    rtp ← gets preloads;
    if zlen rtp <? RADIX_TREE_MAX_PATH then
      node ← kmem_cache_alloc;
      if node =? 0 then mret (inr (- ENOMEM)) else
      rtp ← gets preloads;
      (if zlen rtp <? RADIX_TREE_MAX_PATH then set_preloads (node :: rtp) else kmem_cache_free node);;
      mret (inl tt)
    else mret (inr 0)) tt.

Definition CPU_DEAD : Z := 7.
Definition CPU_TASKS_FROZEN : Z := 0x10.
Definition CPU_DEAD_FROZEN : Z := Z.lor CPU_DEAD CPU_TASKS_FROZEN.
Definition NOTIFY_OK : Z := 1.

(** Called when a processor has gone, here for the one whose pool is modelled. *)
Definition radix_tree_callback (action : Z) : RM Z :=
  (if (action =? CPU_DEAD) || (action =? CPU_DEAD_FROZEN) then
     fuel ← gets (fun t => (length (preloads t) + 1)%nat);
     while fuel (fun _ : unit =>
       rtp ← gets preloads;
       match rtp with
       | [] => mret (inr tt)
       | a :: rtp => kmem_cache_free a;; set_preloads rtp;; mret (inl tt)
       end) tt
   else mret tt);;
  mret NOTIFY_OK.

Definition __maxindex (height : Z) : Z :=
  let width := u32 (height * RADIX_TREE_MAP_SHIFT) in
  let shift := s32 (RADIX_TREE_INDEX_BITS - width) in
  if shift <? 0 then lnot32 0
  else if BITS_PER_LONG <=? shift then 0
  else shr32 (lnot32 0) shift.

Definition height_to_maxindex : list Z :=
  (fun i => __maxindex (Z.of_nat i)) <$> seq 0 (Z.to_nat (RADIX_TREE_MAX_PATH + 1)).

Definition radix_tree_maxindex (height : Z) : RM Z := lift (rd height_to_maxindex height).

(** The heights of a tree bound all loops along a path. *)
Definition path_fuel : nat := Z.to_nat RADIX_TREE_MAX_PATH + 2.

(** * Insertion *)

Definition radix_tree_extend (index : Z) : RM Z :=
  h ← gets rt_height;
  height ← while path_fuel (fun height =>
    m ← radix_tree_maxindex height;
    mret (if m <? index then inl (u32 (height + 1)) else inr height)) (u32 (h + 1));
  r ← gets rnode;
  if r =? 0 then set_rheight height;; mret 0 else
  while path_fuel (fun _ : unit =>
    node ← radix_tree_node_alloc;
    if node =? 0 then mret (inr (- ENOMEM)) else
    r ← gets rnode;
    set_slot node 0 (radix_tree_indirect_to_ptr r);;
    while 3 (fun tag =>
      if tag <? RADIX_TREE_MAX_TAGS then
        g ← root_tag_get tag;
        (if negb (g =? 0) then tag_set node tag 0 else mret tt);;
        mret (inl (tag + 1))
      else mret (inr tt)) 0;;
    h ← gets rt_height;
    let newheight := u32 (h + 1) in
    set_height node newheight;;
    set_count node 1;;
    set_rnode (radix_tree_ptr_to_indirect node);;
    set_rheight newheight;;
    h ← gets rt_height;
    mret (if h <? height then inl tt else inr 0)) tt.

(** One level of the descent of [radix_tree_insert]; the loop ends with the
    last node (NULL at height 0), the offset in it and the entry found, or with
    an error. *)
Definition radix_tree_insert_step (index : Z) (st : Z * Z * Z * Z * Z) : RM ((Z * Z * Z * Z * Z) + (Z * Z * Z + Z)) :=
  let '(node, slot, height, shift, offset) := st in
  if 0 <? height then
    slot ← (if slot =? 0 then
              slot ← radix_tree_node_alloc;
              if slot =? 0 then mret 0 else
              set_height slot height;;
              (if negb (node =? 0) then
                 set_slot node offset slot;;
                 n ← node_at node;
                 set_count node (u32 (nd_count n + 1))
               else set_rnode (radix_tree_ptr_to_indirect slot));;
              mret slot
            else mret slot);
    if slot =? 0 then mret (inr (inr (- ENOMEM))) else
    let offset := Z.land (Z.shiftr index shift) RADIX_TREE_MAP_MASK in
    let node := slot in
    slot ← get_slot node offset;
    mret (inl (node, slot, height - 1, u32 (shift - RADIX_TREE_MAP_SHIFT), offset))
  else mret (inr (inl (node, offset, slot))).

Definition radix_tree_insert (index item : Z) : RM Z :=
  if negb (radix_tree_is_indirect_ptr item =? 0) then fail BugOn else
  h ← gets rt_height;
  m ← radix_tree_maxindex h;
  error ← (if m <? index then radix_tree_extend index else mret 0);
  if negb (error =? 0) then mret error else
  r ← gets rnode;
  height ← gets rt_height;
  x ← while path_fuel (radix_tree_insert_step index)
        (0, radix_tree_indirect_to_ptr r, height, u32 ((height - 1) * RADIX_TREE_MAP_SHIFT), 0);
  match x with
  | inr error => mret error
  | inl (node, offset, slot) =>
      if negb (slot =? 0) then mret (- EEXIST) else
      if negb (node =? 0) then
        n ← node_at node;
        set_count node (u32 (nd_count n + 1));;
        set_slot node offset item;;
        t0 ← tag_get node 0 offset;
        if negb (t0 =? 0) then fail BugOn else
        t1 ← tag_get node 1 offset;
        if negb (t1 =? 0) then fail BugOn else mret 0
      else
        set_rnode item;;
        t0 ← root_tag_get 0;
        if negb (t0 =? 0) then fail BugOn else
        t1 ← root_tag_get 1;
        if negb (t1 =? 0) then fail BugOn else mret 0
  end.

(** * Lookup *)

(** A [void **] into the tree: the root pointer, or a slot of a node. *)
Inductive slotref := RootSlot | NodeSlot (node offset : Z).

Definition deref (s : slotref) : RM Z :=
  match s with RootSlot => gets rnode | NodeSlot a i => get_slot a i end.

(** [is_slot] only selects which part of the result is returned: the slot or
    the entry in it; [None] is [NULL]. *)
Definition radix_tree_lookup_element (index : Z) : RM (option (slotref * Z)) :=
  node ← gets rnode;
  if node =? 0 then mret None else
  if radix_tree_is_indirect_ptr node =? 0 then
    mret (if 0 <? index then None else Some (RootSlot, node))
  else
  let node := radix_tree_indirect_to_ptr node in
  n ← node_at node;
  let height := nd_height n in
  m ← radix_tree_maxindex height;
  if m <? index then mret None else
  while path_fuel (fun '(node, shift, height) =>
    let offset := Z.land (Z.shiftr index shift) RADIX_TREE_MAP_MASK in
    v ← get_slot node offset;
    if v =? 0 then mret (inr None) else
    let shift := u32 (shift - RADIX_TREE_MAP_SHIFT) in
    let height := u32 (height - 1) in
    mret (if 0 <? height then inl (v, shift, height) else inr (Some (NodeSlot node offset, v))))
    (node, u32 ((height - 1) * RADIX_TREE_MAP_SHIFT), height).

Definition radix_tree_lookup (index : Z) : RM Z :=
  x ← radix_tree_lookup_element index;
  mret (match x with Some (_, v) => v | None => 0 end).

Definition radix_tree_lookup_slot (index : Z) : RM (option slotref) :=
  x ← radix_tree_lookup_element index;
  mret (match x with Some (s, _) => Some s | None => None end).

Definition RADIX_TREE_RETRY : Z := ULONG_MAX.

Definition radix_tree_deref_slot (pslot : slotref) : RM Z :=
  ret ← deref pslot;
  mret (if negb (radix_tree_is_indirect_ptr ret =? 0) then RADIX_TREE_RETRY else ret).

Definition radix_tree_replace_slot (pslot : slotref) (item : Z) : RM unit :=
  if negb (radix_tree_is_indirect_ptr item =? 0) then fail BugOn else
  match pslot with RootSlot => set_rnode item | NodeSlot a i => set_slot a i item end.

(** Loops that pass only over entries that are present: as many as fit the
    nodes, and one at the root. *)
Definition entry_fuel : RM nat := gets (fun t => (64 * size (nodes t) + 3)%nat).

Definition radix_tree_next_hole (index max_scan : Z) : RM Z :=
  fuel ← entry_fuel;
  while fuel (fun '(i, index) =>
    if i <? max_scan then
      v ← radix_tree_lookup index;
      if v =? 0 then mret (inr index) else
      let index := u32 (index + 1) in
      mret (if index =? 0 then inr index else inl (u32 (i + 1), index))
    else mret (inr index)) (0, index).

Definition LONG_MAX : Z := 2 ^ 31 - 1.

Definition radix_tree_prev_hole (index max_scan : Z) : RM Z :=
  fuel ← entry_fuel;
  while fuel (fun '(i, index) =>
    if i <? max_scan then
      v ← radix_tree_lookup index;
      if v =? 0 then mret (inr index) else
      let index := u32 (index - 1) in
      mret (if index =? LONG_MAX then inr index else inl (u32 (i + 1), index))
    else mret (inr index)) (0, index).

(** * Tags *)

Definition radix_tree_tag_set (index tag : Z) : RM Z :=
  height ← gets rt_height;
  m ← radix_tree_maxindex height;
  if m <? index then fail BugOn else
  r ← gets rnode;
  slot ← while path_fuel (fun '(slot, shift, height) =>
    if 0 <? height then
      let offset := Z.land (Z.shiftr index shift) RADIX_TREE_MAP_MASK in
      t ← tag_get slot tag offset;
      (if t =? 0 then tag_set slot tag offset else mret tt);;
      slot ← get_slot slot offset;
      if slot =? 0 then fail BugOn else
      mret (inl (slot, u32 (shift - RADIX_TREE_MAP_SHIFT), height - 1))
    else mret (inr slot)) (radix_tree_indirect_to_ptr r, u32 ((height - 1) * RADIX_TREE_MAP_SHIFT), height);
  t ← root_tag_get tag;
  (if negb (slot =? 0) && (t =? 0) then root_tag_set tag else mret tt);;
  mret slot.

(** The descent of [radix_tree_tag_clear] and [radix_tree_delete]: [path] holds
    the nodes and offsets passed, the last one first; [None] when the descent
    meets NULL before the bottom. *)
Definition radix_tree_path (index : Z) (st : list (Z * Z) * Z * Z * Z)
    : RM ((list (Z * Z) * Z * Z * Z) + option (list (Z * Z) * Z)) :=
  let '(path, slot, shift, height) := st in
  if 0 <? height then
    if slot =? 0 then mret (inr None) else
    let offset := Z.land (Z.shiftr index shift) RADIX_TREE_MAP_MASK in
    v ← get_slot slot offset;
    mret (inl ((slot, offset) :: path, v, u32 (shift - RADIX_TREE_MAP_SHIFT), height - 1))
  else mret (inr (Some (path, slot))).

(** The way back: [false] when the loop is left with [goto out]. *)
Definition tag_clear_up (tag : Z) (path : list (Z * Z)) : RM (list (Z * Z) + bool) :=
  match path with
  | [] => mret (inr true)
  | (node, offset) :: path =>
      t ← tag_get node tag offset;
      if t =? 0 then mret (inr false) else
      tag_clear node tag offset;;
      a ← any_tag_set node tag;
      mret (if negb (a =? 0) then inr false else inl path)
  end.

Definition radix_tree_tag_clear (index tag : Z) : RM Z :=
  height ← gets rt_height;
  m ← radix_tree_maxindex height;
  if m <? index then mret 0 else
  r ← gets rnode;
  x ← while path_fuel (radix_tree_path index)
        ([], radix_tree_indirect_to_ptr r, u32 ((height - 1) * RADIX_TREE_MAP_SHIFT), height);
  match x with
  | None => mret 0
  | Some (path, slot) =>
      if slot =? 0 then mret slot else
      top ← while path_fuel (tag_clear_up tag) path;
      (if (top : bool) then
         t ← root_tag_get tag;
         if negb (t =? 0) then root_tag_clear tag else mret tt
       else mret tt);;
      mret slot
  end.

Definition radix_tree_tag_get (index tag : Z) : RM Z :=
  t ← root_tag_get tag;
  if t =? 0 then mret 0 else
  node ← gets rnode;
  if node =? 0 then mret 0 else
  if radix_tree_is_indirect_ptr node =? 0 then mret (if index =? 0 then 1 else 0) else
  let node := radix_tree_indirect_to_ptr node in
  n ← node_at node;
  let height := nd_height n in
  m ← radix_tree_maxindex height;
  if m <? index then mret 0 else
  while path_fuel (fun '(node, shift, height, saw_unset_tag) =>
    if node =? 0 then mret (inr 0) else
    let offset := Z.land (Z.shiftr index shift) RADIX_TREE_MAP_MASK in
    t ← tag_get node tag offset;
    let saw_unset_tag := if t =? 0 then 1 else saw_unset_tag in
    if height =? 1 then
      ret ← tag_get node tag offset;
      if negb (ret =? 0) && negb (saw_unset_tag =? 0) then fail BugOn
      else mret (inr (if negb (ret =? 0) then 1 else 0))
    else
      node ← get_slot node offset;
      mret (inl (node, u32 (shift - RADIX_TREE_MAP_SHIFT), u32 (height - 1), saw_unset_tag)))
    (node, u32 ((height - 1) * RADIX_TREE_MAP_SHIFT), height, 0).

Definition radix_tree_tagged (tag : Z) : RM Z := root_tag_get tag.

(** * Deletion *)

Definition radix_tree_shrink : RM unit :=
  while path_fuel (fun _ : unit =>
    height ← gets rt_height;
    if 0 <? height then
      to_free ← gets rnode;
      if radix_tree_is_indirect_ptr to_free =? 0 then fail BugOn else
      let to_free := radix_tree_indirect_to_ptr to_free in
      n ← node_at to_free;
      if negb (nd_count n =? 1) then mret (inr tt) else
      newptr ← get_slot to_free 0;
      if newptr =? 0 then mret (inr tt) else
      let newptr := if 1 <? height then radix_tree_ptr_to_indirect newptr else newptr in
      set_rnode newptr;;
      set_rheight (u32 (height - 1));;
      radix_tree_node_free to_free;;
      mret (inl tt)
    else mret (inr tt)) tt.

(** The loop that frees the nodes of the path; [to_free] is NULL or the node
    below.  [None] when it is left with [goto out]. *)
Definition delete_up (st : list (Z * Z) * Z) : RM ((list (Z * Z) * Z) + option Z) :=
  let '(path, to_free) := st in
  match path with
  | [] => mret (inr (Some to_free))
  | (node, offset) :: path =>
      set_slot node offset 0;;
      n ← node_at node;
      set_count node (u32 (nd_count n - 1));;
      (if negb (to_free =? 0) then radix_tree_node_free to_free else mret tt);;
      n ← node_at node;
      if negb (nd_count n =? 0) then
        r ← gets rnode;
        (if node =? radix_tree_indirect_to_ptr r then radix_tree_shrink else mret tt);;
        mret (inr None)
      else mret (inl (path, node))
  end.

Definition radix_tree_delete (index : Z) : RM Z :=
  height ← gets rt_height;
  m ← radix_tree_maxindex height;
  if m <? index then mret 0 else
  slot ← gets rnode;
  if height =? 0 then
    root_tag_clear_all;;
    set_rnode 0;;
    mret slot
  else
  x ← while path_fuel (radix_tree_path index)
        ([], radix_tree_indirect_to_ptr slot, u32 ((height - 1) * RADIX_TREE_MAP_SHIFT), height);
  match x with
  | None => mret 0
  | Some (path, slot) =>
      if slot =? 0 then mret slot else
      while 3 (fun tag =>
        if tag <? RADIX_TREE_MAX_TAGS then
          (match path with
           | (node, offset) :: _ =>
               t ← tag_get node tag offset;
               if negb (t =? 0) then radix_tree_tag_clear index tag;; mret tt else mret tt
           | [] => fail OutOfBounds
           end);;
          mret (inl (tag + 1))
        else mret (inr tt)) 0;;
      f ← while path_fuel delete_up (path, 0);
      match f with
      | None => mret slot
      | Some to_free =>
          root_tag_clear_all;;
          set_rheight 0;;
          set_rnode 0;;
          (if negb (to_free =? 0) then radix_tree_node_free to_free else mret tt);;
          mret slot
      end
  end.

(** * Gang lookup *)

(** The loop that looks for the next entry of a node that is [present], from
    entry [i] on; the flag says whether it found one. *)
Definition next_entry (present : Z -> RM bool) (shift : Z) (st : Z * Z) : RM ((Z * Z) + (Z * Z * bool)) :=
  let '(i, index) := st in
  p ← present i;
  if (p : bool) then mret (inr (i, index, true)) else
  let index := Z.land index (lnot32 (u32 (shl32 1 shift - 1))) in
  let index := u32 (index + shl32 1 shift) in
  if index =? 0 then mret (inr (i, index, false)) else
  let i := i + 1 in
  mret (if i =? RADIX_TREE_MAP_SIZE then inr (i, index, false) else inl (i, index)).

Definition slot_present (slot i : Z) : RM bool := v ← get_slot slot i; mret (negb (v =? 0)).
Definition tag_present (slot tag i : Z) : RM bool := t ← tag_get slot tag i; mret (negb (t =? 0)).

(** The loop at the bottom level: the entries from [i] on that are [wanted] and
    not NULL, at most [max_items]. *)
Definition grab (wanted : Z -> RM bool) (slot max_items : Z) (st : Z * Z * list slotref)
    : RM ((Z * Z * list slotref) + (list slotref * Z)) :=
  let '(i, index, found) := st in
  if i <? RADIX_TREE_MAP_SIZE then
    let index := u32 (index + 1) in
    w ← wanted i;
    if negb (w : bool) then mret (inl (i + 1, index, found)) else
    v ← get_slot slot i;
    if negb (v =? 0) then
      let found := found ++ [NodeSlot slot i] in
      mret (if zlen found =? max_items then inr (found, index) else inl (i + 1, index, found))
    else mret (inl (i + 1, index, found))
  else mret (inr (found, index)).

(** The slots found and [*next_index]. *)
Definition __lookup (slot index max_items : Z) : RM (list slotref * Z) :=
  n ← node_at slot;
  let height := nd_height n in
  if height =? 0 then mret ([], index) else
  x ← while path_fuel (fun '(slot, index, shift, height) =>
    if 1 <? height then
      let i := Z.land (Z.shiftr index shift) RADIX_TREE_MAP_MASK in
      '(i, index, ok) ← while 65 (next_entry (slot_present slot) shift) (i, index);
      if negb (ok : bool) then mret (inr (inr index)) else
      slot ← get_slot slot i;
      if slot =? 0 then mret (inr (inr index)) else
      mret (inl (slot, index, u32 (shift - RADIX_TREE_MAP_SHIFT), height - 1))
    else mret (inr (inl (slot, index))))
    (slot, index, u32 ((height - 1) * RADIX_TREE_MAP_SHIFT), height);
  match x with
  | inr index => mret ([], index)
  | inl (slot, index) =>
      while 65 (grab (fun _ => mret true) slot max_items) (Z.land index RADIX_TREE_MAP_MASK, index, [])
  end.

Definition __lookup_tag (slot index max_items tag : Z) : RM (list slotref * Z) :=
  n ← node_at slot;
  let height := nd_height n in
  if height =? 0 then mret ([], index) else
  while path_fuel (fun '(slot, index, shift, height, found) =>
    if 0 <? height then
      let i := Z.land (Z.shiftr index shift) RADIX_TREE_MAP_MASK in
      '(i, index, ok) ← while 65 (next_entry (tag_present slot tag) shift) (i, index);
      if negb (ok : bool) then mret (inr (found, index)) else
      let height := height - 1 in
      '(found, index) ← (if height =? 0 then
          while 65 (grab (tag_present slot tag) slot max_items) (Z.land index RADIX_TREE_MAP_MASK, index, found)
        else mret (found, index));
      if (height =? 0) && (zlen found =? max_items) then mret (inr (found, index)) else
      slot ← get_slot slot i;
      if slot =? 0 then mret (inr (found, index)) else
      mret (inl (slot, index, u32 (shift - RADIX_TREE_MAP_SHIFT), height, found))
    else mret (inr (found, index)))
    (slot, index, u32 ((height - 1) * RADIX_TREE_MAP_SHIFT), height, []).

(** The loop of the four gang lookups: [find] is [__lookup] or [__lookup_tag],
    [take] turns the slots found into results. *)
Definition gang {A} (find : Z -> Z -> Z -> RM (list slotref * Z)) (take : list slotref -> RM (list A))
    (node max_index first_index max_items : Z) : RM (list A) :=
  fuel ← gets (fun t => (size (nodes t) + 2)%nat);
  while fuel (fun '(cur_index, results) =>
    if zlen results <? max_items then
      if max_index <? cur_index then mret (inr results) else
      '(slots, next_index) ← find node cur_index (max_items - zlen results);
      found ← take slots;
      let results := results ++ found in
      mret (if next_index =? 0 then inr results else inl (next_index, results))
    else mret (inr results)) (first_index, []).

(** The entries in the slots found, without those that are NULL by now. *)
Fixpoint deref_slots (slots : list slotref) : RM (list Z) :=
  match slots with
  | [] => mret []
  | s :: slots =>
      v ← deref s;
      l ← deref_slots slots;
      mret (if negb (v =? 0) then v :: l else l)
  end.

(** The common frame of the four functions: [direct] is the result for a tree
    whose only item is in the root pointer. *)
Definition gang_root {A} (direct : Z -> A) (find : Z -> Z -> Z -> RM (list slotref * Z))
    (take : list slotref -> RM (list A)) (first_index max_items : Z) : RM (list A) :=
  node ← gets rnode;
  if node =? 0 then mret [] else
  if radix_tree_is_indirect_ptr node =? 0 then
    mret (if 0 <? first_index then [] else [direct node])
  else
  let node := radix_tree_indirect_to_ptr node in
  n ← node_at node;
  max_index ← radix_tree_maxindex (nd_height n);
  gang find take node max_index first_index max_items.

Definition radix_tree_gang_lookup (first_index max_items : Z) : RM (list Z) :=
  gang_root id __lookup deref_slots first_index max_items.

Definition radix_tree_gang_lookup_slot (first_index max_items : Z) : RM (list slotref) :=
  gang_root (fun _ => RootSlot) __lookup mret first_index max_items.

Definition radix_tree_gang_lookup_tag (first_index max_items tag : Z) : RM (list Z) :=
  t ← root_tag_get tag;
  if t =? 0 then mret [] else
  gang_root id (fun slot index max => __lookup_tag slot index max tag) deref_slots first_index max_items.

Definition radix_tree_gang_lookup_tag_slot (first_index max_items tag : Z) : RM (list slotref) :=
  t ← root_tag_get tag;
  if t =? 0 then mret [] else
  gang_root (fun _ => RootSlot) (fun slot index max => __lookup_tag slot index max tag) mret first_index max_items.

(** [INIT_RADIX_TREE], with the free objects of the cache. *)
Definition zeroed (height : Z) : radix_tree_node :=
  RtNode height 0 (replicate (Z.to_nat RADIX_TREE_MAP_SIZE) 0)
    (replicate (Z.to_nat RADIX_TREE_MAX_TAGS) (replicate (Z.to_nat RADIX_TREE_TAG_LONGS) 0)).
Definition INIT_RADIX_TREE (mask : Z) (objects : list Z) : radix_tree :=
  Rt 0 mask 0 (list_to_map ((fun a => (a, zeroed 0)) <$> objects)) objects [].
