(* ===== verification/RadixInv.v ===== *)
(** What a radix tree in memory is.

    A position [(h, p)] stands for the indices [p * 64^h] to [(p + 1) * 64^h - 1].
    [P] maps the occupied positions to pointers: at height 0 to items, above to
    nodes.  [T] holds the tagged positions.  [mem_ok t P T] says that the memory
    shows [P] and [T]: the slots of the node at [x] are the values of [P] at its
    64 children, its tag bits those of [T].  [shape] and [tags_ok] are the
    conditions on [P] and [T] alone. *)

From stdpp Require Import gmap.
From S2P Require Import Prelude.
From S2P Require Import Bits FindBit Bitmap BitmapRemap State RadixTree.

(** * Positions *)

Abbreviation pos := (Z * Z)%type.

Definition up (x : pos) : pos := (x.1 + 1, x.2 / 64).
Definition kid (x : pos) (i : Z) : pos := (x.1 - 1, 64 * x.2 + i).
Definition cell (idx h : Z) : pos := (h, idx / 64 ^ h).
Definition off (idx h : Z) : Z := idx / 64 ^ (h - 1) mod 64.

Lemma up_kid x i : 0 <= i < 64 -> up (kid x i) = x.
Proof.
  intros Hi. destruct x as [h p]. unfold up, kid. cbn [fst snd]. f_equal; [lia|].
  rewrite Z.mul_comm, Z.div_add_l by lia. rewrite Z.div_small; lia.
Qed.

Lemma kid_up x : kid (up x) (x.2 mod 64) = x.
Proof.
  destruct x as [h p]. unfold up, kid. cbn [fst snd]. f_equal; [lia|]. symmetry. apply Z.div_mod. lia.
Qed.

Lemma kid_eq x y i : 0 <= i < 64 -> kid y i = x <-> y = up x /\ i = x.2 mod 64.
Proof.
  intros Hi. split.
  - intros <-. split; [now rewrite up_kid|]. cbn. rewrite Z.mul_comm, Z.add_comm, Z.mod_add, Z.mod_small; lia.
  - intros [-> ->]. apply kid_up.
Qed.

Lemma off_range idx h : 0 <= off idx h < 64.
Proof. apply Z.mod_pos_bound. lia. Qed.

Lemma up_cell idx h : 0 <= h -> up (cell idx h) = cell idx (h + 1).
Proof.
  intros Hh. unfold up, cell. cbn [fst snd]. f_equal. rewrite Z.div_div by lia. f_equal.
  now rewrite Z.add_1_r, Z.pow_succ_r, Z.mul_comm by lia.
Qed.

Lemma kid_cell idx h : 1 <= h -> kid (cell idx h) (off idx h) = cell idx (h - 1).
Proof.
  intros Hh. apply kid_eq; [apply off_range|]. split; [|done].
  rewrite up_cell by lia. now rewrite Z.sub_add.
Qed.

Lemma cell_0 idx : cell idx 0 = (0, idx).
Proof. unfold cell. now rewrite Z.pow_0_r, Z.div_1_r. Qed.

Lemma pow64 k : 0 <= k -> 2 ^ (6 * k) = 64 ^ k.
Proof. intros. now rewrite Z.pow_mul_r by lia. Qed.

Lemma offset_eq idx h : 1 <= h -> Z.land (Z.shiftr idx (6 * (h - 1))) RADIX_TREE_MAP_MASK = off idx h.
Proof.
  intros Hh. change RADIX_TREE_MAP_MASK with (Z.ones 6). rewrite Z.land_ones, Z.shiftr_div_pow2, pow64 by lia. done.
Qed.

Lemma shift_eq h : 1 <= h <= 6 -> u32 ((h - 1) * RADIX_TREE_MAP_SHIFT) = 6 * (h - 1).
Proof. intros Hh. change RADIX_TREE_MAP_SHIFT with 6. rewrite u32_id; [lia|unfold is_u32; lia]. Qed.

Lemma shift_next h : 2 <= h <= 6 -> u32 (6 * (h - 1) - RADIX_TREE_MAP_SHIFT) = 6 * (h - 1 - 1).
Proof. intros Hh. change RADIX_TREE_MAP_SHIFT with 6. rewrite u32_id; [lia|unfold is_u32; lia]. Qed.

Definition max_of (h : Z) : Z := Z.min (64 ^ h) (2 ^ 32) - 1.

Lemma maxindex_eq h t : 0 <= h <= 6 -> radix_tree_maxindex h t = Ok (max_of h, t).
Proof.
  intros Hh. assert (h = 0 \/ h = 1 \/ h = 2 \/ h = 3 \/ h = 4 \/ h = 5 \/ h = 6) as Hc by lia.
  destruct Hc as [-> |[-> |[-> |[-> |[-> |[-> | ->]]]]]]; reflexivity.
Qed.

Lemma runs_maxindex {B} h (k : Z -> RM B) t Q : 0 <= h <= 6 -> runs (k (max_of h)) t Q -> runs (radix_tree_maxindex h ≫= k) t Q.
Proof. intros Hh H. apply runs_bind. eapply runs_eq; [now apply maxindex_eq|exact H]. Qed.

Lemma max_of_lt h idx : 0 <= h <= 6 -> is_u32 idx -> (max_of h <? idx) = negb (idx <? 64 ^ h).
Proof.
  intros Hh Hi. unfold max_of, is_u32 in *. destruct (Z.ltb_spec idx (64 ^ h)), (Z.ltb_spec (Z.min (64 ^ h) (2 ^ 32) - 1) idx); lia || done.
Qed.

(** * Pointers *)

Definition rt_ptr (a : Z) : Prop := 0 < a < 2 ^ 32 /\ Z.even a = true.

Lemma even_land a : Z.land a 1 = if Z.even a then 0 else 1.
Proof. change 1 with (Z.ones 1) at 1. rewrite Z.land_ones by lia. rewrite Zmod_even. done. Qed.

Lemma ptr_direct a : Z.even a = true -> radix_tree_is_indirect_ptr a = 0.
Proof. intros H. unfold radix_tree_is_indirect_ptr. now rewrite even_land, H. Qed.

Lemma ptr_indirect a : radix_tree_is_indirect_ptr (radix_tree_ptr_to_indirect a) = 1.
Proof.
  unfold radix_tree_is_indirect_ptr, radix_tree_ptr_to_indirect. rewrite Z.land_lor_distr_l.
  change (Z.land 1 1) with 1. rewrite even_land. now destruct (Z.even a).
Qed.

Ltac ptr_bits :=
  let i := fresh "i" in let Hi := fresh "Hi" in
  apply bits_ext32; [auto with word|auto with word|intros i Hi];
  rewrite ?Z.land_spec, ?Z.lor_spec, testbit_lnot32 by lia;
  destruct (decide (i = 0)) as [-> |?];
  [rewrite ?Z.bit0_odd, <- ?Z.negb_even; repeat match goal with H : Z.even _ = _ |- _ => rewrite H end; done
  |rewrite ?(testbit_high 1 1) by lia; cbn; now rewrite ?andb_true_r, ?orb_false_r].

Lemma ptr_to_ptr a : is_u32 a -> Z.even a = true -> radix_tree_indirect_to_ptr a = a.
Proof. intros Hu He. unfold radix_tree_indirect_to_ptr. ptr_bits. Qed.

Lemma ptr_roundtrip a : is_u32 a -> Z.even a = true -> radix_tree_indirect_to_ptr (radix_tree_ptr_to_indirect a) = a.
Proof.
  intros Hu He. unfold radix_tree_indirect_to_ptr, radix_tree_ptr_to_indirect.
  assert (is_u32 (Z.lor a 1)) by (apply lor_u32; [done|unfold is_u32; lia]). ptr_bits.
Qed.

Lemma ptr_indirect_nonzero a : radix_tree_ptr_to_indirect a <> 0.
Proof. unfold radix_tree_ptr_to_indirect. intros H%Z.lor_eq_0_iff. lia. Qed.

(** * The memory *)

Abbreviation positions := (gmap pos Z).
Abbreviation tagset := (gset (Z * pos)).

Definition used (slots : list Z) : Z := Z.of_nat (length (filter (fun v => v <> 0) slots)).
Definition tag_row (n : radix_tree_node) (tag : Z) : list Z := at_ [] (nd_tags n) tag.

Record node_ok (P : positions) (T : tagset) (x : pos) (n : radix_tree_node) : Prop := {
  n_height : nd_height n = x.1;
  n_len : zlen (nd_slots n) = 64;
  n_slots : forall i, 0 <= i < 64 -> at_ 0 (nd_slots n) i = default 0 (P !! kid x i);
  n_count : nd_count n = used (nd_slots n);
  n_tags : zlen (nd_tags n) = 2;
  n_row : forall tag, 0 <= tag < 2 -> zlen (tag_row n tag) = 2 /\ Forall is_u32 (tag_row n tag);
  n_bits : forall tag i, 0 <= tag < 2 -> 0 <= i < 64 -> bit (tag_row n tag) i = bool_decide ((tag, kid x i) ∈ T)
}.

(** An object that is neither in the tree nor free. *)
Definition apart (t : radix_tree) (P : positions) (a : Z) : Prop :=
  rt_ptr a /\ (a ∉ slab t ++ preloads t) /\ forall x, 1 <= x.1 -> P !! x <> Some a.

Record mem_ok (t : radix_tree) (P : positions) (T : tagset) : Prop := {
  m_height : 0 <= rt_height t <= 6;
  m_gfp : is_u32 (gfp_mask t);
  m_root : rnode t = match P !! (rt_height t, 0) with
                     | None => 0
                     | Some a => if rt_height t =? 0 then a else radix_tree_ptr_to_indirect a
                     end;
  m_root_tag : forall tag, 0 <= tag < 2 ->
    Z.testbit (gfp_mask t) (tag + __GFP_BITS_SHIFT) = bool_decide ((tag, (rt_height t, 0)) ∈ T);
  m_item : forall p v, P !! (0, p) = Some v -> rt_ptr v;
  m_node : forall x a, P !! x = Some a -> 1 <= x.1 -> rt_ptr a /\ exists n, nodes t !! a = Some n /\ node_ok P T x n;
  m_inj : forall x y a, P !! x = Some a -> P !! y = Some a -> 1 <= x.1 -> 1 <= y.1 -> x = y;
  m_nodup : NoDup (slab t ++ preloads t);
  m_free : forall a, a ∈ slab t ++ preloads t -> rt_ptr a /\ (forall x, 1 <= x.1 -> P !! x <> Some a) /\
    exists h, nodes t !! a = Some (zeroed h)
}.

(** * The positions and the tags *)

Record shape (H : Z) (P : positions) : Prop := {
  s_range : forall x a, P !! x = Some a -> 0 <= x.1 <= H /\ 0 <= x.2 < 64 ^ (H - x.1) /\ x.2 * 64 ^ x.1 < 2 ^ 32;
  s_up : forall x, is_Some (P !! x) -> x.1 < H -> is_Some (P !! up x)
}.

Record tags_ok (H : Z) (P : positions) (T : tagset) : Prop := {
  t_in : forall tag x, (tag, x) ∈ T -> 0 <= tag < 2 /\ is_Some (P !! x);
  t_up : forall tag x, (tag, x) ∈ T -> x.1 < H -> (tag, up x) ∈ T;
  t_down : forall tag x, (tag, x) ∈ T -> 1 <= x.1 -> exists i, 0 <= i < 64 /\ (tag, kid x i) ∈ T
}.

(** The tree [t] stores the items [M]; the indices in [S] carry tags. *)
Record rt_rep (t : radix_tree) (M : gmap Z Z) (S : gset (Z * Z)) (P : positions) (T : tagset) : Prop := {
  r_mem : mem_ok t P T;
  r_shape : shape (rt_height t) P;
  r_tags : tags_ok (rt_height t) P T;
  r_items : forall idx, M !! idx = P !! (0, idx);
  r_tagged : forall tag idx, (tag, idx) ∈ S <-> (tag, (0, idx)) ∈ T
}.

(** ** Ancestors *)

Lemma ancestor H P idx k h : shape H P -> 0 <= k <= h -> h <= H -> is_Some (P !! cell idx k) -> is_Some (P !! cell idx h).
Proof.
  intros Hs Hk Hh Hc. revert Hh. apply (Z_ind_up (fun h => h <= H -> is_Some (P !! cell idx h)) k h); [lia|done|].
  intros n Hn IH Hle. rewrite <- up_cell by lia. apply (s_up _ _ Hs); [apply IH; lia|]. cbn. lia.
Qed.

Lemma absent H P idx k : shape H P -> 0 <= k <= H -> P !! cell idx k = None -> P !! (0, idx) = None.
Proof.
  intros Hs Hk Hn. rewrite <- cell_0. destruct (P !! cell idx 0) eqn:E; [|done].
  destruct (ancestor H P idx 0 k Hs) as [? ?]; [lia|lia|eauto|congruence].
Qed.

Lemma cell_top idx h : 0 <= idx < 64 ^ h -> cell idx h = (h, 0).
Proof. intros. unfold cell. now rewrite Z.div_small. Qed.

Lemma shape_high H P idx : shape H P -> 0 <= H -> 64 ^ H <= idx -> P !! (0, idx) = None.
Proof.
  intros Hs HH Hi. destruct (P !! (0, idx)) eqn:E; [|done]. destruct (s_range _ _ Hs _ _ E) as (_ & Hr & _).
  cbn in Hr. rewrite Z.sub_0_r in Hr. lia.
Qed.

(** * Steps *)

Lemma runs_node_at {B} a n (k : radix_tree_node -> RM B) t Q :
  nodes t !! a = Some n -> runs (k n) t Q -> runs (node_at a ≫= k) t Q.
Proof. intros Hn H. apply runs_bind. unfold runs, node_at. now rewrite Hn. Qed.

Definition with_nodes (m : gmap Z radix_tree_node) (t : radix_tree) : radix_tree :=
  Rt (rt_height t) (gfp_mask t) (rnode t) m (slab t) (preloads t).

Lemma runs_put_node a n n' t (Q : unit -> radix_tree -> Prop) :
  nodes t !! a = Some n -> Q tt (with_nodes (<[a := n']> (nodes t)) t) -> runs (put_node a n') t Q.
Proof. intros Hn H. unfold runs, put_node. now rewrite Hn. Qed.

Lemma runs_lift_ok {A B} (m : res A) a (k : A -> RM B) t Q : m = Ok a -> runs (k a) t Q -> runs (lift m ≫= k) t Q.
Proof. intros -> H. exact H. Qed.

Lemma get_slot_eq t P T x a i : mem_ok t P T -> P !! x = Some a -> 1 <= x.1 -> 0 <= i < 64 ->
  get_slot a i t = Ok (default 0 (P !! kid x i), t).
Proof.
  intros Hm Hx H1 Hi. destruct (m_node _ _ _ Hm _ _ Hx H1) as (_ & n & Hn & Hok).
  unfold get_slot, node_at, mbind, ST_bind, lift. rewrite Hn, (rd_at 0) by (rewrite (n_len _ _ _ _ Hok); lia).
  now rewrite (n_slots _ _ _ _ Hok).
Qed.

Lemma runs_get_slot {B} t P T x a i (k : Z -> RM B) Q : mem_ok t P T -> P !! x = Some a -> 1 <= x.1 -> 0 <= i < 64 ->
  runs (k (default 0 (P !! kid x i))) t Q -> runs (get_slot a i ≫= k) t Q.
Proof. intros. apply runs_bind. eapply runs_eq; [eapply get_slot_eq; eassumption|done]. Qed.

Lemma some_nonzero t P T x a : mem_ok t P T -> P !! x = Some a -> 0 <= x.1 -> rt_ptr a.
Proof.
  intros Hm Hx H0. destruct (decide (x.1 = 0)) as [E|]; [|now apply (m_node _ _ _ Hm x); [|lia]].
  destruct x as [h p]. cbn in E. subst h. now apply (m_item _ _ _ Hm p).
Qed.

Lemma default_zero t P T x : mem_ok t P T -> 0 <= x.1 -> (default 0 (P !! x) =? 0) = negb (bool_decide (is_Some (P !! x))).
Proof.
  intros Hm H0. destruct (P !! x) as [a|] eqn:E.
  - destruct (some_nonzero _ _ _ _ _ Hm E H0) as [[? _] _]. cbn [from_option id]. destruct (Z.eqb_spec a 0); [lia|].
    now rewrite bool_decide_true by eauto.
  - now rewrite bool_decide_false by (intros [? ?]; done).
Qed.

Lemma rt_ptr_u32 a : rt_ptr a -> is_u32 a.
Proof. intros [? _]. unfold is_u32. lia. Qed.

Lemma root_ptr t P T : mem_ok t P T -> radix_tree_indirect_to_ptr (rnode t) = default 0 (P !! (rt_height t, 0)).
Proof.
  intros Hm. rewrite (m_root _ _ _ Hm). destruct (P !! (rt_height t, 0)) as [a|] eqn:E; [|done].
  pose proof (some_nonzero _ _ _ _ _ Hm E ltac:(cbn; apply (m_height _ _ _ Hm))) as Hp. cbn.
  destruct (rt_height t =? 0); [apply ptr_to_ptr|apply ptr_roundtrip]; try apply Hp; now apply rt_ptr_u32.
Qed.

(** * Lookup *)

Definition slot_spec (t : radix_tree) (P : positions) (idx : Z) (s : slotref) : Prop :=
  match s with
  | RootSlot => rt_height t = 0
  | NodeSlot a i => 1 <= rt_height t /\ P !! cell idx 1 = Some a /\ i = off idx 1
  end.

Definition lookup_spec (t : radix_tree) (P : positions) (idx : Z) (r : option (slotref * Z)) : Prop :=
  match P !! (0, idx) with
  | None => r = None
  | Some v => exists s, r = Some (s, v) /\ slot_spec t P idx s
  end.

Lemma lookup_element_ok t P T idx : mem_ok t P T -> shape (rt_height t) P -> is_u32 idx ->
  runs (radix_tree_lookup_element idx) t (fun r t' => t' = t /\ lookup_spec t P idx r).
Proof.
  intros Hm Hs Hi. pose proof (m_height _ _ _ Hm) as HH. unfold radix_tree_lookup_element, lookup_spec. apply runs_gets.
  rewrite (m_root _ _ _ Hm). destruct (P !! (rt_height t, 0)) as [a|] eqn:E.
  2: { cbn. apply runs_ret. split; [done|]. destruct (Z.lt_ge_cases idx (64 ^ rt_height t)).
       - rewrite (absent _ P idx (rt_height t) Hs); [done|lia|]. unfold is_u32 in Hi. now rewrite cell_top by lia.
       - now rewrite (shape_high _ _ _ Hs). }
  pose proof (some_nonzero _ _ _ _ _ Hm E ltac:(cbn; lia)) as Hp.
  destruct (Z.eqb_spec (rt_height t) 0) as [E0|E0].
  - destruct (Z.eqb_spec a 0); [destruct Hp; lia|]. rewrite ptr_direct by apply Hp. cbn [Z.eqb].
    apply runs_ret. split; [done|]. rewrite E0 in *. destruct (Z.ltb_spec 0 idx).
    + rewrite (shape_high _ _ _ Hs); [done|lia|]. change (64 ^ 0) with 1. lia.
    + replace idx with 0 by (unfold is_u32 in Hi; lia). rewrite E. eauto.
  - destruct (Z.eqb_spec (radix_tree_ptr_to_indirect a) 0) as [C|_]; [now apply ptr_indirect_nonzero in C|].
    rewrite ptr_indirect, ptr_roundtrip by (apply Hp || now apply rt_ptr_u32). cbn [Z.eqb].
    destruct (m_node _ _ _ Hm _ _ E ltac:(cbn; lia)) as (_ & n & Hn & Hok). apply (runs_node_at _ n); [done|].
    rewrite (n_height _ _ _ _ Hok). cbn [fst]. apply runs_maxindex; [lia|]. rewrite max_of_lt by (done || lia).
    destruct (Z.ltb_spec idx (64 ^ rt_height t)) as [Hlt|Hge]; cbn [negb].
    2: { apply runs_ret. split; [done|]. now rewrite (shape_high _ _ _ Hs) by lia. }
    rewrite shift_eq by lia.
    apply (runs_while (fun '(node, shift, h) t' => t' = t /\ 1 <= h <= rt_height t /\ shift = 6 * (h - 1) /\ P !! cell idx h = Some node)
      (fun '(_, _, h) _ => h)).
    + unfold is_u32 in Hi. rewrite cell_top by lia. split; [done|]. split; [lia|]. done.
    + change (Z.of_nat path_fuel) with 8. lia.
    + intros [[node shift] h] t' (-> & Hh & -> & Hx). split; [lia|]. cbv beta iota zeta.
      rewrite offset_eq by lia. apply (runs_get_slot t P T (cell idx h)); [done|done|cbn; lia|apply off_range|].
      rewrite kid_cell by lia. rewrite (default_zero _ _ _ _ Hm) by (cbn; lia).
      destruct (bool_decide_reflect (is_Some (P !! cell idx (h - 1)))) as [[v Hv]|Hno]; cbn [negb].
      * apply runs_ret. rewrite (u32_id (h - 1)) by (unfold is_u32; lia). rewrite Hv. cbn [default].
        destruct (Z.ltb_spec 0 (h - 1)).
        -- split; [|lia]. split; [done|]. split; [lia|]. now rewrite shift_next by lia.
        -- split; [done|]. replace h with 1 in * by lia. change (1 - 1) with 0 in Hv. rewrite cell_0 in Hv. rewrite Hv.
           eexists. split; [reflexivity|]. split; [lia|]. done.
      * apply runs_ret. split; [done|]. rewrite (absent _ P idx (h - 1) Hs); [done|lia|].
        destruct (P !! cell idx (h - 1)); [|done]. exfalso; eauto.
Qed.

Lemma lookup_ok t P T idx : mem_ok t P T -> shape (rt_height t) P -> is_u32 idx ->
  radix_tree_lookup idx t = Ok (default 0 (P !! (0, idx)), t).
Proof.
  intros Hm Hs Hi. unfold radix_tree_lookup, mbind, ST_bind.
  destruct (proj1 (runs_exists _ _ _) (lookup_element_ok t P T idx Hm Hs Hi)) as (r & t' & -> & -> & Hr).
  unfold lookup_spec in Hr. destruct (P !! (0, idx)); [destruct Hr as (s & -> & _)|subst r]; done.
Qed.
