(* ===== verification/RadixMem.v ===== *)
(** What the single steps of the radix tree do to the memory: a slot or a tag
    bit changes, a node is taken from or returned to the cache, the root grows,
    shrinks or is emptied. *)

From stdpp Require Import gmap.
From S2P Require Import Prelude.
From S2P Require Import Bits FindBit Bitmap BitmapFacts BitmapRemap State RadixTree RadixInv.

(** * Counting the slots in use *)

Lemma used_app l1 l2 : used (l1 ++ l2) = used l1 + used l2.
Proof. unfold used. rewrite list.filter_app, length_app. lia. Qed.

Lemma used_cons v l : used (v :: l) = (if v =? 0 then 0 else 1) + used l.
Proof.
  unfold used. rewrite filter_cons. destruct (Z.eqb_spec v 0) as [-> |H]; [now rewrite decide_False by auto|].
  rewrite decide_True by done. cbn [length]. lia.
Qed.

Lemma used_bound l : 0 <= used l <= zlen l.
Proof. unfold used, zlen. pose proof (length_filter (fun v : Z => v <> 0) l). lia. Qed.

Lemma used_set l i v : 0 <= i < zlen l ->
  used (<[Z.to_nat i := v]> l) = used l - (if at_ 0 l i =? 0 then 0 else 1) + (if v =? 0 then 0 else 1).
Proof.
  intros Hi. unfold zlen in Hi. destruct (lookup_lt_is_Some_2 l (Z.to_nat i)) as [x Hx]; [lia|].
  assert (at_ 0 l i = x) as -> by (unfold at_; now apply nth_lookup_Some).
  rewrite insert_take_drop by lia. rewrite <- (take_drop_middle l (Z.to_nat i) x Hx) at 3.
  rewrite !used_app, !used_cons. lia.
Qed.

Lemma at_replicate n i : at_ 0 (replicate n 0) i = 0.
Proof. unfold at_. generalize (Z.to_nat i). induction n as [|n IH]; intros [|k]; [done|done|done|]. cbn. apply IH. Qed.

Lemma used_replicate n : used (replicate n 0) = 0.
Proof. induction n as [|n IH]; [done|]. cbn [replicate]. now rewrite used_cons, IH. Qed.

Lemma used_zero l : used l = 0 -> forall i, 0 <= i < zlen l -> at_ 0 l i = 0.
Proof.
  intros H i Hi. pose proof (used_set l i 0 Hi) as E. pose proof (used_bound (<[Z.to_nat i := 0]> l)).
  destruct (Z.eqb_spec (at_ 0 l i) 0); [done|]. cbn in E. lia.
Qed.

(** One slot in use: the others are empty. *)
Lemma used_one l i : used l = 1 -> 0 <= i < zlen l -> at_ 0 l i <> 0 -> forall j, 0 <= j < zlen l -> j <> i -> at_ 0 l j = 0.
Proof.
  intros H Hi Hne j Hj Hji. pose proof (used_set l i 0 Hi) as E. destruct (Z.eqb_spec (at_ 0 l i) 0); [done|].
  change (0 =? 0) with true in E. cbv iota in E.
  assert (used (<[Z.to_nat i := 0]> l) = 0) as E0 by lia.
  pose proof (used_zero _ E0 j) as Ej. rewrite zlen_insert, at_insert in Ej by lia. destruct (Z.eqb_spec j i); auto.
  done.
Qed.

(** * Nodes *)

Lemma node_ok_ext P T P' T' x n :
  node_ok P T x n -> (forall i, 0 <= i < 64 -> P' !! kid x i = P !! kid x i) ->
  (forall tag i, 0 <= tag < 2 -> 0 <= i < 64 -> (tag, kid x i) ∈ T' <-> (tag, kid x i) ∈ T) -> node_ok P' T' x n.
Proof.
  intros [N1 N2 N3 N4 N5 N6 N7] HP HT. split; try done.
  - intros i Hi. rewrite N3, HP by done. done.
  - intros tag i Ht Hi. rewrite N7 by done. apply bool_decide_ext. symmetry. now apply HT.
Qed.

Lemma zeroed_ok P T x : (forall i, 0 <= i < 64 -> P !! kid x i = None) -> (forall tag i, 0 <= i < 64 -> (tag, kid x i) ∉ T) ->
  node_ok P T x (zeroed x.1).
Proof.
  intros HP HT. split; try reflexivity.
  - intros i Hi. rewrite HP by done. apply at_replicate.
  - intros tag Ht. assert (tag = 0 \/ tag = 1) as [-> | ->] by lia; (split; [reflexivity|]); repeat constructor; unfold is_u32; lia.
  - intros tag i Ht Hi. rewrite bool_decide_false by now apply HT.
    assert (tag_row (zeroed x.1) tag = replicate 2 0) as -> by (assert (tag = 0 \/ tag = 1) as [-> | ->] by lia; reflexivity).
    unfold bit. now rewrite at_replicate, Z.testbit_0_l.
Qed.

(** The slot at [x] takes the value [o]. *)
Definition put_slot (n : radix_tree_node) (i v : Z) : radix_tree_node :=
  let s := <[Z.to_nat i := v]> (nd_slots n) in RtNode (nd_height n) (used s) s (nd_tags n).
Definition put_row (n : radix_tree_node) (tag : Z) (row : list Z) : radix_tree_node :=
  RtNode (nd_height n) (nd_count n) (nd_slots n) (<[Z.to_nat tag := row]> (nd_tags n)).

Lemma mod64 p : 0 <= p mod 64 < 64.
Proof. apply Z.mod_pos_bound. lia. Qed.

Lemma put_slot_ok P T x n o : node_ok P T (up x) n -> node_ok (partial_alter (fun _ => o) x P) T (up x) (put_slot n (x.2 mod 64) (default 0 o)).
Proof.
  intros [N1 N2 N3 N4 N5 N6 N7]. pose proof (mod64 x.2) as Hx. split; cbn [nd_height nd_slots nd_count nd_tags put_slot]; try done.
  - now rewrite zlen_insert.
  - intros i Hi. rewrite at_insert by lia. destruct (Z.eqb_spec i (x.2 mod 64)) as [-> |Hne].
    + now rewrite kid_up, lookup_partial_alter_eq.
    + rewrite lookup_partial_alter_ne; [now apply N3|]. intros E. symmetry in E. apply kid_eq in E as [_ ?]; done.
Qed.

Lemma mem_ok_slot t P T x b n o :
  mem_ok t P T -> 0 <= x.1 < rt_height t -> P !! up x = Some b -> nodes t !! b = Some n ->
  (forall v, o = Some v -> rt_ptr v) ->
  (forall a, o = Some a -> 1 <= x.1 -> apart t P a /\ exists m, nodes t !! a = Some m /\ node_ok (partial_alter (fun _ => o) x P) T x m) ->
  mem_ok (with_nodes (<[b := put_slot n (x.2 mod 64) (default 0 o)]> (nodes t)) t) (partial_alter (fun _ => o) x P) T.
Proof.
  intros Hm Hx Hb Hn Hptr Hap. destruct (m_node _ _ _ Hm _ _ Hb ltac:(cbn; lia)) as (Hpb & n' & Hn' & Hok).
  assert (n' = n) as -> by congruence. pose proof (put_slot_ok P T x n o Hok) as Hok'.
  set (P' := partial_alter (fun _ => o) x P) in *.
  assert (P' !! x = o) as Px by apply lookup_partial_alter_eq.
  assert (forall y, y <> x -> P' !! y = P !! y) as Py by (intros y Hy; now apply lookup_partial_alter_ne).
  assert (forall c, apart t P c -> c <> b) as Hcb by (intros c (_ & _ & Hc) ->; apply (Hc (up x)); [cbn; lia|done]).
  pose proof Hm as [M1 M2 M3 M4 M5 M6 M7 M8 M9].
  split; cbn [rt_height gfp_mask rnode nodes slab preloads with_nodes]; try done.
  - rewrite Py; [done|]. intros <-. cbn in Hx. lia.
  - intros p v Hv. destruct (decide ((0, p) = x)) as [<- |Hne]; [apply Hptr; congruence|]. apply (M5 p). rewrite <- Py; done.
  - intros y c Hc Hy. destruct (decide (y = x)) as [-> |Hne].
    + rewrite Px in Hc. destruct (Hap c Hc Hy) as (Hac & m & Hmc & Hokm). split; [apply Hac|]. exists m.
      split; [|done]. rewrite lookup_insert_ne; [done|]. intros E. now apply (Hcb c).
    + rewrite Py in Hc by done. destruct (decide (y = up x)) as [-> |Hnu].
      * assert (c = b) as -> by congruence. split; [done|]. exists (put_slot n (x.2 mod 64) (default 0 o)). now rewrite lookup_insert_eq.
      * destruct (M6 y c Hc Hy) as (Hpc & m & Hmc & Hokm). split; [done|]. exists m. split.
        -- rewrite lookup_insert_ne; [done|]. intros <-. apply Hnu. apply (M7 y (up x) b); try done. cbn. lia.
        -- eapply node_ok_ext; [exact Hokm| |done]. intros i Hi. apply Py. intros E. apply kid_eq in E as [? _]; done.
  - intros y z c Hyc Hzc Hy Hz. destruct (decide (y = x)) as [-> |Hny], (decide (z = x)) as [-> |Hnz]; try done.
    + rewrite Px in Hyc. rewrite Py in Hzc by done. destruct (Hap c Hyc Hy) as ((_ & _ & Hc) & _). now destruct (Hc z Hz).
    + rewrite Px in Hzc. rewrite Py in Hyc by done. destruct (Hap c Hzc Hz) as ((_ & _ & Hc) & _). now destruct (Hc y Hy).
    + rewrite Py in Hyc, Hzc by done. now apply (M7 y z c).
  - intros c Hc. destruct (M9 c Hc) as (H1 & H2 & h & H3). split; [done|]. split.
    + intros y Hy. destruct (decide (y = x)) as [-> |Hne]; [|rewrite Py by done; auto].
      rewrite Px. intros E. destruct (Hap c E Hy) as ((_ & Hno & _) & _). done.
    + exists h. rewrite lookup_insert_ne; [done|]. intros <-. apply (H2 (up x)); [cbn; lia|done].
Qed.

(** The tag bits at [x] take the values that [T'] gives. *)
Lemma put_row_ok P T T' x n tag row :
  node_ok P T (up x) n -> 0 <= tag < 2 -> zlen row = 2 -> Forall is_u32 row ->
  (forall tag' y, (tag', y) <> (tag, x) -> (tag', y) ∈ T' <-> (tag', y) ∈ T) ->
  (forall i, 0 <= i < 64 -> bit row i = if i =? x.2 mod 64 then bool_decide ((tag, x) ∈ T') else bit (tag_row n tag) i) ->
  node_ok P T' (up x) (put_row n tag row).
Proof.
  intros [N1 N2 N3 N4 N5 N6 N7] Ht Hl Hu HT Hb.
  assert (forall tag', 0 <= tag' < 2 -> tag_row (put_row n tag row) tag' = if tag' =? tag then row else tag_row n tag') as Hrow.
  { intros tag' Ht'. unfold tag_row. cbn [nd_tags put_row]. now rewrite at_insert by lia. }
  split; cbn [nd_height nd_slots nd_count nd_tags put_row]; try done.
  - now rewrite zlen_insert.
  - intros tag' Ht'. rewrite Hrow by done. destruct (tag' =? tag); auto.
  - intros tag' i Ht' Hi. rewrite Hrow by done. destruct (Z.eqb_spec tag' tag) as [-> |Hne].
    + rewrite Hb by done. destruct (Z.eqb_spec i (x.2 mod 64)) as [-> |Hni]; [now rewrite kid_up|].
      rewrite N7 by done. apply bool_decide_ext. symmetry. apply HT. intros [= E]. apply kid_eq in E as [_ ?]; done.
    + rewrite N7 by done. apply bool_decide_ext. symmetry. apply HT. congruence.
Qed.

Lemma mem_ok_row t P T T' x b n tag row :
  mem_ok t P T -> 0 <= x.1 < rt_height t -> P !! up x = Some b -> nodes t !! b = Some n -> 0 <= tag < 2 ->
  zlen row = 2 -> Forall is_u32 row ->
  (forall tag' y, (tag', y) <> (tag, x) -> (tag', y) ∈ T' <-> (tag', y) ∈ T) ->
  (forall i, 0 <= i < 64 -> bit row i = if i =? x.2 mod 64 then bool_decide ((tag, x) ∈ T') else bit (tag_row n tag) i) ->
  mem_ok (with_nodes (<[b := put_row n tag row]> (nodes t)) t) P T'.
Proof.
  intros Hm Hx Hb Hn Ht Hl Hu HT Hbit. destruct (m_node _ _ _ Hm _ _ Hb ltac:(cbn; lia)) as (Hpb & n' & Hn' & Hok).
  assert (n' = n) as -> by congruence. pose proof (put_row_ok P T T' x n tag row Hok Ht Hl Hu HT Hbit) as Hok'.
  pose proof Hm as [M1 M2 M3 M4 M5 M6 M7 M8 M9].
  split; cbn [rt_height gfp_mask rnode nodes slab preloads with_nodes]; try done.
  - intros tag' Ht'. rewrite M4 by done. apply bool_decide_ext. symmetry. apply HT. intros [= -> <-]. cbn in Hx. lia.
  - intros y c Hc Hy. destruct (decide (y = up x)) as [-> |Hnu].
    + assert (c = b) as -> by congruence. split; [done|]. exists (put_row n tag row). now rewrite lookup_insert_eq.
    + destruct (M6 y c Hc Hy) as (Hpc & m & Hmc & Hokm). split; [done|]. exists m. split.
      * rewrite lookup_insert_ne; [done|]. intros <-. apply Hnu. apply (M7 y (up x) b); try done. cbn. lia.
      * eapply node_ok_ext; [exact Hokm|done|]. intros tag' i _ Hi. apply HT. intros [= -> E]. apply kid_eq in E as [? _]; done.
  - intros c Hc. destruct (M9 c Hc) as (H1 & H2 & h & H3). split; [done|]. split; [done|].
    exists h. rewrite lookup_insert_ne; [done|]. intros <-. apply (H2 (up x)); [cbn; lia|done].
Qed.

(** * The root *)

Lemma mem_ok_root t P T P' T' H r m :
  mem_ok t P T -> 0 <= H <= 6 ->
  r = match P' !! (H, 0) with None => 0 | Some a => if H =? 0 then a else radix_tree_ptr_to_indirect a end ->
  (forall tag, 0 <= tag < 2 -> (tag, (H, 0)) ∈ T' <-> (tag, (rt_height t, 0)) ∈ T) ->
  (forall p v, P' !! (0, p) = Some v -> rt_ptr v) ->
  (forall x a, P' !! x = Some a -> 1 <= x.1 ->
     (rt_ptr a /\ exists n, m !! a = Some n /\ node_ok P' T' x n) /\ (a ∉ slab t ++ preloads t) /\
     (P !! x = Some a \/ forall y, y <> x -> 1 <= y.1 -> P' !! y <> Some a)) ->
  (forall a, a ∈ slab t ++ preloads t -> m !! a = nodes t !! a) ->
  mem_ok (Rt H (gfp_mask t) r m (slab t) (preloads t)) P' T'.
Proof.
  intros Hm HH Hr Ht Hi Hn Hf. pose proof Hm as [M1 M2 M3 M4 M5 M6 M7 M8 M9].
  split; cbn [rt_height gfp_mask rnode nodes slab preloads]; try done.
  - intros tag Htag. rewrite M4 by done. apply bool_decide_ext. symmetry. auto.
  - intros x a Hx H1. apply (Hn x a Hx H1).
  - intros x y a Hx Hy H1 H2. destruct (decide (x = y)) as [|Hne]; [done|].
    destruct (Hn x a Hx H1) as (_ & _ & [Ex|Nx]); [|now destruct (Nx y); [congruence|..]].
    destruct (Hn y a Hy H2) as (_ & _ & [Ey|Ny]); [|now destruct (Ny x); [congruence|..]].
    now apply (M7 x y a).
  - intros a Ha. destruct (M9 a Ha) as (H1 & H2 & H3). split; [done|]. rewrite Hf by done. split; [|done].
    intros x Hx E. destruct (Hn x a E Hx) as (_ & ? & _). done.
Qed.

(** * The cache *)

Definition avail (t : radix_tree) : nat :=
  (length (slab t) + (if (Z.land (Z.land (gfp_mask t) __GFP_BITS_MASK) __GFP_WAIT =? 0)%Z then length (preloads t) else 0))%nat.

Lemma mem_ok_lists t P T s p :
  mem_ok t P T -> NoDup (s ++ p) -> (forall a, a ∈ s ++ p -> a ∈ slab t ++ preloads t) ->
  mem_ok (Rt (rt_height t) (gfp_mask t) (rnode t) (nodes t) s p) P T.
Proof.
  intros [M1 M2 M3 M4 M5 M6 M7 M8 M9] Hd Hin. split; try done. intros a Ha. apply M9, Hin, Ha.
Qed.

(** The tree itself is the same in [t'], and [a] was taken from the cache. *)
Definition taken (t t' : radix_tree) (P : positions) (T : tagset) (a : Z) : Prop :=
  rt_height t' = rt_height t /\ gfp_mask t' = gfp_mask t /\ rnode t' = rnode t /\ nodes t' = nodes t /\
  mem_ok t' P T /\ apart t' P a /\ (exists h, nodes t' !! a = Some (zeroed h)) /\ avail t = Datatypes.S (avail t').

Lemma node_alloc_ok t P T : mem_ok t P T ->
  runs radix_tree_node_alloc t (fun a t' => (a = 0 /\ t' = t /\ avail t = 0%nat) \/ (rt_ptr a /\ taken t t' P T a)).
Proof.
  intros Hm. pose proof (m_nodup _ _ _ Hm) as Hd. unfold radix_tree_node_alloc, root_gfp_mask.
  assert (forall a s p, slab t ++ preloads t ≡ₚ a :: s ++ p -> (forall b, b ∈ s ++ p -> b ∈ slab t ++ preloads t) ->
    (length (slab t) + length (preloads t) = Datatypes.S (length s + length p))%nat ->
    (length p = length (preloads t) \/ Z.land (Z.land (gfp_mask t) __GFP_BITS_MASK) __GFP_WAIT = 0) ->
    rt_ptr a /\ taken t (Rt (rt_height t) (gfp_mask t) (rnode t) (nodes t) s p) P T a) as Ht.
  { intros a s p HP Hin Hlen Hw. assert (a ∈ slab t ++ preloads t) as Ha by (rewrite HP; left).
    rewrite HP in Hd. apply list.NoDup_cons in Hd as [Hna Hd]. destruct (m_free _ _ _ Hm a Ha) as (H1 & H2 & H3).
    split; [done|]. do 4 (split; [done|]). split; [now apply mem_ok_lists|]. split; [done|]. split; [done|].
    unfold avail. cbn [slab preloads gfp_mask]. destruct (Z.eqb_spec (Z.land (Z.land (gfp_mask t) __GFP_BITS_MASK) __GFP_WAIT) 0); [lia|].
    destruct Hw; [lia|done]. }
  apply runs_bind, runs_gets, runs_ret. cbv beta.
  apply runs_bind. eapply runs_mono with (P := fun a t' =>
    (a = 0 /\ t' = t /\ (Z.land (Z.land (gfp_mask t) __GFP_BITS_MASK) __GFP_WAIT = 0 -> preloads t = [])) \/ (rt_ptr a /\ taken t t' P T a)).
  { destruct (Z.eqb_spec (Z.land (Z.land (gfp_mask t) __GFP_BITS_MASK) __GFP_WAIT) 0); [|apply runs_ret; left; done].
    apply runs_gets. destruct (preloads t) as [|a p] eqn:Ep; [apply runs_ret; now left|].
    apply runs_bind, runs_modify, runs_ret. right. apply (Ht a (slab t) p).
    - now rewrite <- Permutation_middle.
    - intros b. rewrite !elem_of_app, elem_of_cons. tauto.
    - cbn. lia.
    - now right. }
  intros a t1 H1. cbv beta. apply runs_bind. eapply runs_mono with (P := fun a t' => (a = 0 /\ t' = t /\ avail t = 0%nat) \/ (rt_ptr a /\ taken t t' P T a)).
  { destruct H1 as [(-> & -> & Hw)|[Ha Htk]].
    - cbn [Z.eqb]. unfold kmem_cache_alloc. apply runs_gets. destruct (slab t) as [|b s] eqn:Es.
      + apply runs_ret. left. split; [done|]. split; [done|]. unfold avail. rewrite Es.
        destruct (Z.eqb_spec (Z.land (Z.land (gfp_mask t) __GFP_BITS_MASK) __GFP_WAIT) 0) as [E|]; [|done]. now rewrite (Hw E).
      + apply runs_bind, runs_modify, runs_ret. right. apply (Ht b s (preloads t)).
        * done.
        * intros c. rewrite !elem_of_app, elem_of_cons. tauto.
        * cbn. lia.
        * now left.
    - destruct (Z.eqb_spec a 0); [destruct Ha; lia|]. apply runs_ret. now right. }
  intros b t2 H2. cbv beta. rewrite ptr_direct; [now apply runs_ret|]. destruct H2 as [(-> & _)|[Hb _]]; [done|apply Hb].
Qed.

(** * Tag bits *)

Lemma clear_bit_ok l nr : Forall is_u32 l -> 0 <= nr < 32 * zlen l ->
  wp (clear_bit nr l) (fun l' => zlen l' = zlen l /\ Forall is_u32 l' /\
    forall n, 0 <= n -> bit l' n = negb (n =? nr) && bit l n).
Proof.
  intros Hl Hn. unfold clear_bit, BITOP_WORD, BITS_PER_LONG. destruct (divmod32 nr) as [E R].
  rewrite (rd_at 0) by lia. wp_steps. rewrite wr_ok by lia. wp_steps.
  assert (Hw : is_u32 (at_ 0 l (nr / 32))) by (apply (proj1 (Forall_at is_u32 0 l) Hl); lia).
  split; [now rewrite zlen_insert|]. split; [auto with word|].
  intros n Hn0. unfold bit. destruct (divmod32 n) as [En Rn]. rewrite at_insert by lia.
  destruct (Z.eqb_spec (n / 32) (nr / 32)) as [Ed|Hne].
  - rewrite Z.land_spec, testbit_lnot32, testbit_shl32, andb_comm, Ed by lia. f_equal.
    destruct (Z.eqb_spec n nr) as [Enr|].
    + now replace (n mod 32 - nr mod 32) with 0 by lia.
    + cbn [negb]. apply negb_true_iff. destruct (Z.lt_ge_cases (n mod 32 - nr mod 32) 0); [now apply Z.testbit_neg_r|].
      apply Z.bits_above_log2; [lia|]. change (Z.log2 1) with 0. lia.
  - destruct (Z.eqb_spec n nr); [congruence|done].
Qed.

(** Rewriting one row of tag bits. *)
Lemma row_write_run a n tag (f : list Z -> res (list Z)) (R : list Z -> Prop) t :
  nodes t !! a = Some n -> zlen (nd_tags n) = 2 -> 0 <= tag < 2 -> wp (f (tag_row n tag)) R ->
  runs (n ← node_at a; w ← lift (rd (nd_tags n) tag); w ← lift (f w); tags ← lift (wr (nd_tags n) tag w);
        put_node a (RtNode (nd_height n) (nd_count n) (nd_slots n) tags)) t
    (fun _ t' => exists row, R row /\ t' = with_nodes (<[a := put_row n tag row]> (nodes t)) t).
Proof.
  intros Hn Hl Ht Hf. apply (runs_node_at _ n); [done|].
  apply (runs_lift_ok _ (tag_row n tag)); [apply rd_at; lia|].
  apply runs_bind, runs_lift. eapply wp_mono; [exact Hf|]. intros row HR. cbv beta.
  eapply runs_lift_ok; [apply wr_ok; lia|]. apply (runs_put_node _ n); [done|]. now exists row.
Qed.

Section Tags.
Context (t : radix_tree) (P : positions) (T : tagset) (x : pos) (b tag : Z).
Context (Hm : mem_ok t P T) (Hx : 0 <= x.1 < rt_height t) (Hb : P !! up x = Some b) (Ht : 0 <= tag < 2).

Lemma tag_node : exists n, nodes t !! b = Some n /\ node_ok P T (up x) n /\ zlen (tag_row n tag) = 2 /\ Forall is_u32 (tag_row n tag) /\
  rd (nd_tags n) tag = Ok (tag_row n tag).
Proof.
  destruct (m_node _ _ _ Hm _ _ Hb ltac:(cbn; lia)) as (_ & n & Hn & Hok). exists n. split; [done|]. split; [done|].
  destruct (n_row _ _ _ _ Hok tag Ht) as [H1 H2]. split; [done|]. split; [done|].
  unfold tag_row. apply rd_at. rewrite (n_tags _ _ _ _ Hok). lia.
Qed.

Lemma tag_get_ok : tag_get b tag (x.2 mod 64) t = Ok (Z.b2z (bool_decide ((tag, x) ∈ T)), t).
Proof.
  destruct tag_node as (n & Hn & Hok & Hl & Hu & Hr). pose proof (mod64 x.2).
  unfold tag_get, node_at, mbind, ST_bind, lift. rewrite Hn, Hr, test_bit_ok by (done || lia).
  now rewrite (n_bits _ _ _ _ Hok), kid_up by done.
Qed.

Lemma tag_write (f : list Z -> res (list Z)) T' :
  (forall row, zlen row = 2 -> Forall is_u32 row -> wp (f row) (fun row' => zlen row' = 2 /\ Forall is_u32 row' /\
     forall i, 0 <= i -> bit row' i = if i =? x.2 mod 64 then bool_decide ((tag, x) ∈ T') else bit row i)) ->
  (forall tag' y, (tag', y) <> (tag, x) -> (tag', y) ∈ T' <-> (tag', y) ∈ T) ->
  runs (n ← node_at b; w ← lift (rd (nd_tags n) tag); w ← lift (f w); tags ← lift (wr (nd_tags n) tag w);
        put_node b (RtNode (nd_height n) (nd_count n) (nd_slots n) tags)) t
    (fun _ t' => mem_ok t' P T' /\ exists m, t' = with_nodes m t).
Proof.
  intros Hf HT. destruct tag_node as (n & Hn & Hok & Hl & Hu & Hr).
  eapply runs_mono; [apply (row_write_run b n tag f); [done|apply Hok|done|exact (Hf _ Hl Hu)]|].
  intros _ t' (row & (Hl' & Hu' & Hbit) & ->). split; [|eauto].
  eapply (mem_ok_row t P T T' x b n tag row); try done. intros i Hi. apply Hbit. lia.
Qed.

Lemma tag_set_ok : runs (tag_set b tag (x.2 mod 64)) t (fun _ t' => mem_ok t' P ({[(tag, x)]} ∪ T) /\ exists m, t' = with_nodes m t).
Proof.
  apply (tag_write (set_bit (x.2 mod 64))); [|set_solver].
  intros row Hl Hu. pose proof (mod64 x.2). eapply wp_mono; [apply set_bit_ok; [done|lia]|].
  intros row' (E & Hu' & Hbit). split; [congruence|]. split; [done|]. intros i Hi. rewrite Hbit by done.
  destruct (i =? x.2 mod 64); [|done]. rewrite bool_decide_true; [done|set_solver].
Qed.

Lemma tag_clear_ok : runs (tag_clear b tag (x.2 mod 64)) t (fun _ t' => mem_ok t' P (T ∖ {[(tag, x)]}) /\ exists m, t' = with_nodes m t).
Proof.
  apply (tag_write (clear_bit (x.2 mod 64))); [|set_solver].
  intros row Hl Hu. pose proof (mod64 x.2). eapply wp_mono; [apply clear_bit_ok; [done|lia]|].
  intros row' (E & Hu' & Hbit). split; [congruence|]. split; [done|]. intros i Hi. rewrite Hbit by done.
  destruct (i =? x.2 mod 64); [|done]. rewrite bool_decide_false; [done|set_solver].
Qed.

End Tags.

Lemma row_bits w : zlen w = 2 -> Forall is_u32 w ->
  (at_ 0 w 0 <> 0 \/ at_ 0 w 1 <> 0) <-> exists i, 0 <= i < 64 /\ bit w i = true.
Proof.
  intros Hl Hu. assert (forall j, 0 <= j < 2 -> is_u32 (at_ 0 w j)) as Hj by (intros j Hj; apply (proj1 (Forall_at is_u32 0 w) Hu); lia).
  split.
  - pose proof (Hj 0 ltac:(lia)) as H0. pose proof (Hj 1 ltac:(lia)) as H1.
    intros [H|H]; [destruct (nonzero_bit32 _ H0 H) as (i & Hi & Hb)|destruct (nonzero_bit32 _ H1 H) as (i & Hi & Hb)].
    + exists i. split; [lia|]. unfold bit. now rewrite Z.div_small, Z.mod_small by lia.
    + exists (32 + i). split; [lia|]. unfold bit. rewrite <- (Z.div_unique (32 + i) 32 1 i), <- (Z.mod_unique (32 + i) 32 1 i) by lia. done.
  - intros (i & Hi & Hb). unfold bit in Hb. destruct (Z.lt_ge_cases i 32).
    + left. rewrite Z.div_small in Hb by lia. intros E. rewrite E, Z.testbit_0_l in Hb. done.
    + right. rewrite <- (Z.div_unique i 32 1 (i - 32)) in Hb by lia. intros E. rewrite E, Z.testbit_0_l in Hb. done.
Qed.

Lemma any_tag_ok t P T x a tag : mem_ok t P T -> P !! x = Some a -> 1 <= x.1 -> 0 <= tag < 2 ->
  runs (any_tag_set a tag) t (fun r t' => t' = t /\ (r <> 0 <-> exists i, 0 <= i < 64 /\ (tag, kid x i) ∈ T)).
Proof.
  intros Hm Hx H1 Ht. destruct (m_node _ _ _ Hm _ _ Hx H1) as (_ & n & Hn & Hok).
  destruct (n_row _ _ _ _ Hok tag Ht) as [Hl Hu]. unfold any_tag_set. apply (runs_node_at _ n); [done|].
  assert (rd (nd_tags n) tag = Ok (tag_row n tag)) as Hr by (apply rd_at; rewrite (n_tags _ _ _ _ Hok); lia).
  assert ((at_ 0 (tag_row n tag) 0 <> 0 \/ at_ 0 (tag_row n tag) 1 <> 0) <-> exists i, 0 <= i < 64 /\ (tag, kid x i) ∈ T) as Hb.
  { rewrite row_bits by done. split; intros (i & Hi & H); exists i; (split; [done|]);
      rewrite (n_bits _ _ _ _ Hok) in * by done; [now apply bool_decide_eq_true in H|now apply bool_decide_eq_true]. }
  apply (runs_while (fun idx t' => t' = t /\ 0 <= idx <= 2 /\ (1 <= idx -> at_ 0 (tag_row n tag) 0 = 0) /\ (2 <= idx -> at_ 0 (tag_row n tag) 1 = 0))
    (fun idx _ => 2 - idx)); [split; [done|]; lia|lia|].
  intros idx t' (-> & Hi & H0 & H2). split; [lia|]. change RADIX_TREE_TAG_LONGS with 2.
  destruct (Z.ltb_spec idx 2) as [Hlt|Hge].
  - apply (runs_lift_ok _ _ _ _ _ Hr). eapply runs_lift_ok; [apply (rd_at 0); lia|]. apply runs_ret.
    assert (idx = 0 \/ idx = 1) as Hc by lia.
    destruct (Z.eqb_spec (at_ 0 (tag_row n tag) idx) 0) as [E|E]; cbn [negb].
    + split; [|lia]. split; [done|]. split; [lia|]. destruct Hc as [-> | ->]; split; intros Hle; first [lia | exact E | apply H0; lia].
    + split; [done|]. rewrite <- Hb. split; [|lia]. destruct Hc as [-> | ->]; auto.
  - apply runs_ret. split; [done|]. rewrite <- Hb. lia.
Qed.

(** * Root tags *)

Lemma testbit_shl1 k i : 0 <= i < 32 -> 0 <= k -> Z.testbit (shl32 1 k) i = (i =? k).
Proof.
  intros Hi Hk. rewrite testbit_shl32 by lia. destruct (Z.eqb_spec i k) as [-> |Hne]; [now rewrite Z.sub_diag|].
  destruct (Z.lt_ge_cases (i - k) 0); [now apply Z.testbit_neg_r|]. apply Z.bits_above_log2; [lia|]. change (Z.log2 1) with 0. lia.
Qed.

Lemma land_tag_bit g k : 0 <= k < 32 -> (Z.land g (shl32 1 k) =? 0) = negb (Z.testbit g k).
Proof.
  intros Hk. assert (forall i, 0 <= i < 32 -> Z.testbit (shl32 1 k) i = (i =? k)) as Hb by (intros; apply testbit_shl1; lia).
  destruct (Z.eqb_spec (Z.land g (shl32 1 k)) 0) as [E|E].
  - symmetry. apply negb_true_iff. assert (Z.testbit (Z.land g (shl32 1 k)) k = false) as H by (rewrite E; apply Z.testbit_0_l).
    rewrite Z.land_spec, Hb, Z.eqb_refl, andb_true_r in H by lia. done.
  - symmetry. apply negb_false_iff. destruct (Z.testbit g k) eqn:Eg; [done|]. exfalso. apply E. apply Z.bits_inj'. intros i Hi.
    rewrite Z.land_spec, Z.testbit_0_l. destruct (Z.lt_ge_cases i 32).
    + rewrite Hb by lia. destruct (Z.eqb_spec i k) as [-> |]; [now rewrite Eg|apply andb_false_r].
    + rewrite (testbit_high (shl32 1 k) 32) by first [lia | apply shl32_range]. apply andb_false_r.
Qed.

Definition with_gfp (g : Z) (t : radix_tree) : radix_tree := Rt (rt_height t) g (rnode t) (nodes t) (slab t) (preloads t).

Lemma mem_ok_gfp t P T T' g :
  mem_ok t P T -> shape (rt_height t) P -> is_u32 g ->
  (forall tag, 0 <= tag < 2 -> Z.testbit g (tag + __GFP_BITS_SHIFT) = bool_decide ((tag, (rt_height t, 0)) ∈ T')) ->
  (forall tag x, 0 <= tag < 2 -> x <> (rt_height t, 0) -> (tag, x) ∈ T' <-> (tag, x) ∈ T) ->
  mem_ok (with_gfp g t) P T'.
Proof.
  intros [M1 M2 M3 M4 M5 M6 M7 M8 M9] Hs Hg Hb HT. split; try done.
  intros x a Hx H1. destruct (M6 x a Hx H1) as (Hp & n & Hn & Hok). split; [done|]. exists n. split; [done|].
  eapply node_ok_ext; [exact Hok|done|]. intros tag i Htag Hi. apply HT; [done|]. intros E.
  destruct (s_range _ _ Hs _ _ Hx) as (Hr & _). apply (f_equal fst) in E. cbn in E. lia.
Qed.

Lemma root_tag_get_ok t P T tag : mem_ok t P T -> 0 <= tag < 2 ->
  exists v, root_tag_get tag t = Ok (v, t) /\ (v =? 0) = negb (bool_decide ((tag, (rt_height t, 0)) ∈ T)).
Proof.
  intros Hm Ht. eexists. split; [reflexivity|]. change __GFP_BITS_SHIFT with 22. rewrite land_tag_bit by lia.
  now rewrite <- (m_root_tag _ _ _ Hm).
Qed.

Lemma root_tag_set_ok t P T tag : mem_ok t P T -> shape (rt_height t) P -> 0 <= tag < 2 ->
  runs (root_tag_set tag) t (fun _ t' => mem_ok t' P ({[(tag, (rt_height t, 0))]} ∪ T) /\ exists g, t' = with_gfp g t).
Proof.
  intros Hm Hs Ht. unfold root_tag_set, set_gfp. apply runs_gets, runs_modify. split; [|eexists; reflexivity].
  apply (mem_ok_gfp t P T); [done|done|apply lor_u32; [apply Hm|apply shl32_range]| |set_solver].
  intros tag' Ht'. change __GFP_BITS_SHIFT with 22. rewrite Z.lor_spec, testbit_shl1 by lia.
  replace (tag' + 22 =? tag + 22) with (tag' =? tag) by (destruct (Z.eqb_spec tag' tag), (Z.eqb_spec (tag' + 22) (tag + 22)); lia).
  rewrite (m_root_tag _ _ _ Hm tag' Ht' : Z.testbit (gfp_mask t) (tag' + 22) = _).
  destruct (Z.eqb_spec tag' tag) as [-> |Hne].
  - rewrite orb_true_r, bool_decide_true; [done|set_solver].
  - rewrite orb_false_r. apply bool_decide_ext. set_solver.
Qed.

Lemma root_tag_clear_ok t P T tag : mem_ok t P T -> shape (rt_height t) P -> 0 <= tag < 2 ->
  runs (root_tag_clear tag) t (fun _ t' => mem_ok t' P (T ∖ {[(tag, (rt_height t, 0))]}) /\ exists g, t' = with_gfp g t).
Proof.
  intros Hm Hs Ht. unfold root_tag_clear, set_gfp. apply runs_gets, runs_modify. split; [|eexists; reflexivity].
  apply (mem_ok_gfp t P T); [done|done|apply land_u32; [apply Hm|apply lnot32_range]| |set_solver].
  intros tag' Ht'. change __GFP_BITS_SHIFT with 22. rewrite Z.land_spec, testbit_lnot32, testbit_shl1 by lia.
  replace (tag' + 22 =? tag + 22) with (tag' =? tag) by (destruct (Z.eqb_spec tag' tag), (Z.eqb_spec (tag' + 22) (tag + 22)); lia).
  rewrite (m_root_tag _ _ _ Hm tag' Ht' : Z.testbit (gfp_mask t) (tag' + 22) = _).
  destruct (Z.eqb_spec tag' tag) as [-> |Hne]; cbn [negb].
  - rewrite andb_false_r, bool_decide_false; [done|set_solver].
  - rewrite andb_true_r. apply bool_decide_ext. set_solver.
Qed.

Lemma clear_all_bits g tag : 0 <= tag -> Z.testbit (Z.land g __GFP_BITS_MASK) (tag + __GFP_BITS_SHIFT) = false.
Proof.
  intros Ht. change __GFP_BITS_MASK with (Z.ones 22). change __GFP_BITS_SHIFT with 22.
  rewrite Z.land_spec, Z.ones_spec_high by lia. apply andb_false_r.
Qed.

(** * Returning a node *)

(** Clear but for what belongs to slot 0. *)
Record blank (n : radix_tree_node) : Prop := {
  b_len : zlen (nd_slots n) = 64;
  b_slots : forall i, 1 <= i < 64 -> at_ 0 (nd_slots n) i = 0;
  b_tags : zlen (nd_tags n) = 2;
  b_rows : forall tag, 0 <= tag < 2 -> zlen (tag_row n tag) = 2 /\ Forall is_u32 (tag_row n tag) /\
    forall i, 1 <= i < 64 -> bit (tag_row n tag) i = false
}.

Lemma zero_row w : zlen w = 2 -> Forall is_u32 w -> (forall i, 0 <= i < 64 -> bit w i = false) -> w = replicate 2 0.
Proof.
  intros Hl Hu Hb. apply (list_at_ext 0); [done|]. intros i Hi. rewrite at_replicate.
  assert (~ (at_ 0 w 0 <> 0 \/ at_ 0 w 1 <> 0)) as Hz.
  { rewrite row_bits by done. intros (j & Hj & E). rewrite Hb in E by done. done. }
  assert (i = 0 \/ i = 1) as [-> | ->] by lia; lia.
Qed.

Lemma tag_clear_run a n tag t : nodes t !! a = Some n -> zlen (nd_tags n) = 2 -> 0 <= tag < 2 ->
  zlen (tag_row n tag) = 2 -> Forall is_u32 (tag_row n tag) ->
  runs (tag_clear a tag 0) t (fun _ t' => exists row, zlen row = 2 /\ Forall is_u32 row /\
    (forall i, 0 <= i -> bit row i = negb (i =? 0) && bit (tag_row n tag) i) /\
    t' = with_nodes (<[a := put_row n tag row]> (nodes t)) t).
Proof.
  intros Hn Hl Ht Hr Hu. eapply runs_mono; [apply (row_write_run a n tag (clear_bit 0)); try done; apply clear_bit_ok; [done|lia]|].
  intros _ t' (row & (E & Hu' & Hbit) & ->). exists row. split; [congruence|]. done.
Qed.

Lemma node_free_ok t P T a n : mem_ok t P T -> apart t P a -> nodes t !! a = Some n -> blank n ->
  runs (radix_tree_node_free a) t (fun _ t' => mem_ok t' P T /\ rt_height t' = rt_height t /\ rnode t' = rnode t /\
    gfp_mask t' = gfp_mask t /\ (forall b, b <> a -> nodes t' !! b = nodes t !! b)).
Proof.
  intros Hm (Ha1 & Ha2 & Ha3) Hn [B1 B2 B3 B4]. unfold radix_tree_node_free, radix_tree_node_rcu_free.
  destruct (B4 0 ltac:(lia)) as (L0 & U0 & Z0). destruct (B4 1 ltac:(lia)) as (L1 & U1 & Z1).
  apply runs_bind. eapply runs_mono; [now apply (tag_clear_run a n 0)|]. intros _ t1 (r0 & R0 & V0 & W0 & ->). cbv beta.
  set (n1 := put_row n 0 r0). assert (tag_row n1 1 = tag_row n 1) as E1 by (unfold tag_row; cbn [nd_tags n1 put_row]; now rewrite at_insert by lia).
  apply runs_bind. eapply runs_mono.
  { apply (tag_clear_run a n1 1); [apply lookup_insert_eq|cbn; now rewrite zlen_insert|lia|congruence|congruence]. }
  intros _ t2 (r1 & R1 & V1 & W1 & ->). cbv beta. set (n2 := put_row n1 1 r1). rewrite E1 in W1.
  apply runs_bind. unfold set_slot. apply (runs_node_at _ n2); [apply lookup_insert_eq|].
  eapply runs_lift_ok; [apply wr_ok; cbn; lia|]. apply (runs_put_node _ n2); [apply lookup_insert_eq|].
  match goal with |- runs _ (with_nodes (<[a := ?x]> _) _) _ => set (n3 := x) end.
  apply runs_bind. unfold set_count. apply (runs_node_at _ n3); [apply lookup_insert_eq|].
  apply (runs_put_node _ n3); [apply lookup_insert_eq|].
  match goal with |- runs _ (with_nodes (<[a := ?x]> _) _) _ => set (n4 := x) end.
  unfold kmem_cache_free, set_slab. apply runs_gets, runs_modify. cbn [nodes with_nodes rt_height gfp_mask rnode slab preloads].
  rewrite !insert_insert_eq.
  assert (n4 = zeroed (nd_height n)) as ->.
  { unfold n4, n3, n2, n1, zeroed. cbn [nd_height nd_count nd_slots nd_tags put_row]. f_equal.
    - apply (list_at_ext 0); [now rewrite zlen_insert, B1|]. intros i. rewrite zlen_insert, B1. intros Hi.
      rewrite at_insert, at_replicate by lia. destruct (Z.eqb_spec i 0); [done|]. apply B2. lia.
    - assert (r0 = replicate 2 0) as ->.
      { apply zero_row; [done|done|]. intros i Hi. rewrite W0 by lia. destruct (Z.eqb_spec i 0); [done|]. apply Z0. lia. }
      assert (r1 = replicate 2 0) as ->.
      { apply zero_row; [done|done|]. intros i Hi. rewrite W1 by lia. destruct (Z.eqb_spec i 0); [done|]. apply Z1. lia. }
      destruct (nd_tags n) as [|x [|y [|z l]]]; unfold zlen in B3; cbn in B3; try lia. done. }
  split; [|split; [done|split; [done|split; [done|intros b Hb; cbn; now rewrite lookup_insert_ne]]]].
  pose proof Hm as [M1 M2 M3 M4 M5 M6 M7 M8 M9]. split; cbn [rt_height gfp_mask rnode nodes slab preloads]; try done.
  - intros x c Hc Hx. destruct (M6 x c Hc Hx) as (Hp & m & Hmc & Hok). split; [done|]. exists m.
    split; [|done]. rewrite lookup_insert_ne; [done|]. intros <-. now apply (Ha3 x).
  - cbn. now apply list.NoDup_cons.
  - intros c. cbn [app]. rewrite elem_of_cons. intros [-> |Hc].
    + split; [done|]. split; [done|]. eexists. apply lookup_insert_eq.
    + destruct (M9 c Hc) as (H1 & H2 & h & H3). split; [done|]. split; [done|]. exists h. rewrite lookup_insert_ne; [done|]. intros <-. done.
Qed.

Lemma tag_set_run a n tag t : nodes t !! a = Some n -> zlen (nd_tags n) = 2 -> 0 <= tag < 2 ->
  zlen (tag_row n tag) = 2 -> Forall is_u32 (tag_row n tag) ->
  runs (tag_set a tag 0) t (fun _ t' => exists row, zlen row = 2 /\ Forall is_u32 row /\
    (forall i, 0 <= i -> bit row i = (i =? 0) || bit (tag_row n tag) i) /\
    t' = with_nodes (<[a := put_row n tag row]> (nodes t)) t).
Proof.
  intros Hn Hl Ht Hr Hu. eapply runs_mono; [apply (row_write_run a n tag (set_bit 0)); try done; apply set_bit_ok; [done|lia]|].
  intros _ t' (row & (E & Hu' & Hbit) & ->). exists row. split; [congruence|]. done.
Qed.

(** An object outside the tree may hold anything. *)
Lemma mem_ok_apart t P T a m : mem_ok t P T -> apart t P a -> mem_ok (with_nodes (<[a := m]> (nodes t)) t) P T.
Proof.
  intros [M1 M2 M3 M4 M5 M6 M7 M8 M9] (Ha1 & Ha2 & Ha3). split; try done; cbn [nodes with_nodes slab preloads].
  - intros x c Hc Hx. destruct (M6 x c Hc Hx) as (Hp & n & Hn & Hok). split; [done|]. exists n. split; [|done].
    rewrite lookup_insert_ne; [done|]. intros <-. now apply (Ha3 x).
  - intros c Hc. destruct (M9 c Hc) as (H1 & H2 & h & H3). split; [done|]. split; [done|]. exists h.
    rewrite lookup_insert_ne; [done|]. intros <-. done.
Qed.
