(* ===== verification/RadixInsert.v ===== *)
(** Insertion into a radix tree: growing the root, the descent that adds the
    missing nodes, and the item. *)

From stdpp Require Import gmap.
From S2P Require Import Prelude.
From S2P Require Import Bits FindBit Bitmap BitmapFacts BitmapRemap State RadixTree RadixInv RadixMem.

(** [tree_ok t P T]: a consistent tree; [same_entries]: the same items and
    item tags. *)
Record tree_ok (t : radix_tree) (P : positions) (T : tagset) : Prop := {
  o_mem : mem_ok t P T;
  o_shape : shape (rt_height t) P;
  o_tags : tags_ok (rt_height t) P T
}.

Definition same_entries (P P' : positions) (T T' : tagset) : Prop :=
  (forall p, P' !! (0, p) = P !! (0, p)) /\ (forall tag p, (tag, (0, p)) ∈ T' <-> (tag, (0, p)) ∈ T).

Lemma same_entries_refl P T : same_entries P P T T.
Proof. done. Qed.
Lemma same_entries_trans P1 P2 P3 T1 T2 T3 : same_entries P1 P2 T1 T2 -> same_entries P2 P3 T2 T3 -> same_entries P1 P3 T1 T3.
Proof.
  intros [A1 A2] [B1 B2]. split; [intros p; now rewrite B1|]. intros tag p. now rewrite B2.
Qed.

Lemma shape_top H P p a : shape H P -> P !! (H, p) = Some a -> p = 0.
Proof. intros Hs Hx. destruct (s_range _ _ Hs _ _ Hx) as (_ & Hr & _). cbn in Hr. rewrite Z.sub_diag in Hr. change (64 ^ 0) with 1 in Hr. lia. Qed.

(** Without a root there is nothing. *)
Lemma shape_empty H P : shape H P -> P !! (H, 0) = None -> P = ∅.
Proof.
  intros Hs Hn. apply map_empty. intros [h p]. destruct (P !! (h, p)) as [a|] eqn:E; [|done]. exfalso.
  destruct (s_range _ _ Hs _ _ E) as (Hr & _). cbn in Hr.
  assert (forall k, h <= k -> k <= H -> exists q, is_Some (P !! (k, q))) as Hup.
  { intros k Hk. apply (Z_ind_up (fun k => k <= H -> exists q, is_Some (P !! (k, q))) h k); [lia|eauto|].
    intros n Hn' IH Hle. destruct IH as [q Hq]; [lia|]. exists (q / 64). apply (s_up _ _ Hs (n, q)); [done|]. cbn. lia. }
  destruct (Hup H) as [q [b Hb]]; [lia|lia|]. pose proof (shape_top _ _ _ _ Hs Hb). subst q. congruence.
Qed.

Lemma shape_none H : shape H ∅.
Proof. split; [intros x a; now rewrite lookup_empty|]. intros x [a Ha]. now rewrite lookup_empty in Ha. Qed.

(** * A new root above the old one *)

Section Grow.
Context (P : positions) (T : tagset) (H a b : Z).
Context (Hs : shape H P) (Hg : tags_ok H P T) (HH : 0 <= H) (Ha : P !! (H, 0) = Some a).

Definition grown_tags : tagset :=
  T ∪ (if decide ((0, (H, 0)) ∈ T) then {[(0, (H + 1, 0))]} else ∅) ∪ (if decide ((1, (H, 0)) ∈ T) then {[(1, (H + 1, 0))]} else ∅).

Lemma grown_old tag x : x <> (H + 1, 0) -> (tag, x) ∈ grown_tags <-> (tag, x) ∈ T.
Proof. intros Hx. unfold grown_tags. destruct (decide ((0, (H, 0)) ∈ T)), (decide ((1, (H, 0)) ∈ T)); set_solver. Qed.

Lemma not_above x c : P !! x = Some c -> x <> (H + 1, 0).
Proof. intros Hx ->. destruct (s_range _ _ Hs _ _ Hx) as (Hr & _). cbn in Hr. lia. Qed.

Lemma grown_new tag : (tag, (H + 1, 0)) ∈ grown_tags <-> (tag, (H, 0)) ∈ T.
Proof.
  assert ((tag, (H + 1, 0)) ∉ T) as Hn by (intros Hin; destruct (t_in _ _ _ Hg _ _ Hin) as (_ & c & Hc); now apply not_above in Hc).
  split.
  - unfold grown_tags. destruct (decide ((0, (H, 0)) ∈ T)), (decide ((1, (H, 0)) ∈ T)); set_solver.
  - intros Hin. destruct (t_in _ _ _ Hg _ _ Hin) as (Htag & _). unfold grown_tags.
    assert (tag = 0 \/ tag = 1) as [-> | ->] by lia; destruct (decide ((0, (H, 0)) ∈ T)), (decide ((1, (H, 0)) ∈ T)); set_solver.
Qed.

Lemma grown_shape : shape (H + 1) (<[(H + 1, 0) := b]> P).
Proof.
  split.
  - intros x c. rewrite lookup_insert_Some. intros [[<- _]|[Hne Hx]].
    + cbn [fst snd]. split; [lia|]. replace (H + 1 - (H + 1)) with 0 by lia. change (64 ^ 0) with 1. lia.
    + destruct (s_range _ _ Hs _ _ Hx) as (Hr & Hp & Hq). split; [lia|]. split; [|done].
      pose proof (Z.pow_le_mono_r 64 (H - x.1) (H + 1 - x.1) ltac:(lia) ltac:(lia)). lia.
  - intros x Hx Hlt. destruct (decide (x = (H + 1, 0))) as [-> |Hne]; [cbn in Hlt; lia|].
    rewrite lookup_insert_ne in Hx by done. destruct (decide (x.1 = H)) as [Ex|Ex].
    + destruct x as [h p]. cbn in Ex. subst h. destruct Hx as [c Hc]. pose proof (shape_top _ _ _ _ Hs Hc). subst p.
      rewrite lookup_insert_eq. eauto.
    + destruct Hx as [c Hc]. destruct (s_range _ _ Hs _ _ Hc) as (Hr & _).
      destruct (s_up _ _ Hs x ltac:(eauto) ltac:(lia)) as [d Hd]. rewrite lookup_insert_ne; [eauto|]. intros E. apply not_above in Hd. congruence.
Qed.

Lemma grown_tags_ok : tags_ok (H + 1) (<[(H + 1, 0) := b]> P) grown_tags.
Proof.
  split.
  - intros tag x Hin. destruct (decide (x = (H + 1, 0))) as [-> |Hne].
    + apply grown_new in Hin. destruct (t_in _ _ _ Hg _ _ Hin) as (? & _). rewrite lookup_insert_eq. eauto.
    + apply grown_old in Hin; [|done]. rewrite lookup_insert_ne by done. apply (t_in _ _ _ Hg _ _ Hin).
  - intros tag x Hin Hlt. destruct (decide (x = (H + 1, 0))) as [-> |Hne]; [cbn in Hlt; lia|].
    apply grown_old in Hin; [|done]. destruct (t_in _ _ _ Hg _ _ Hin) as (_ & c & Hc). destruct (s_range _ _ Hs _ _ Hc) as (Hr & _).
    destruct (decide (x.1 = H)) as [Ex|Ex].
    + destruct x as [h p]. cbn in Ex. subst h. pose proof (shape_top _ _ _ _ Hs Hc). subst p.
      change (up (H, 0)) with (H + 1, 0). now apply grown_new.
    + pose proof (t_up _ _ _ Hg _ _ Hin ltac:(lia)) as Hu. apply grown_old; [|done].
      destruct (t_in _ _ _ Hg _ _ Hu) as (_ & d & Hd). intros E. apply not_above in Hd. congruence.
  - intros tag x Hin H1. destruct (decide (x = (H + 1, 0))) as [-> |Hne].
    + apply grown_new in Hin. exists 0. split; [lia|]. apply grown_old; [unfold kid; cbn; intros [=]; lia|].
      unfold kid. cbn [fst snd]. now replace (H + 1 - 1) with H by lia.
    + apply grown_old in Hin; [|done]. destruct (t_down _ _ _ Hg _ _ Hin H1) as (i & Hi & Hk). exists i. split; [done|].
      apply grown_old; [|done]. destruct (t_in _ _ _ Hg _ _ Hk) as (_ & d & Hd). intros E. apply not_above in Hd. congruence.
Qed.

Lemma grown_node n : nd_height n = H + 1 -> nd_count n = 1 -> nd_slots n = <[0%nat := a]> (replicate 64 0) -> a <> 0 ->
  zlen (nd_tags n) = 2 ->
  (forall tag, 0 <= tag < 2 -> zlen (tag_row n tag) = 2 /\ Forall is_u32 (tag_row n tag) /\
     forall i, 0 <= i < 64 -> bit (tag_row n tag) i = (i =? 0) && bool_decide ((tag, (H, 0)) ∈ T)) ->
  node_ok (<[(H + 1, 0) := b]> P) grown_tags (H + 1, 0) n.
Proof.
  intros Eh Ec Esl Ha0 Et Hrow. change 0%nat with (Z.to_nat 0) in Esl.
  assert (forall i, kid (H + 1, 0) i = (H, i)) as Hk by (intros i; unfold kid; cbn [fst snd]; f_equal; lia).
  split; try done.
  - now rewrite Esl, zlen_insert.
  - intros i Hi. rewrite Esl, at_insert, Hk by (done || lia). rewrite lookup_insert_ne by (intros [=]; lia).
    destruct (Z.eqb_spec i 0) as [-> |Hne]; [now rewrite Ha|]. rewrite at_replicate.
    destruct (P !! (H, i)) eqn:E; [|done]. now pose proof (shape_top _ _ _ _ Hs E).
  - rewrite Ec, Esl, used_set by done. rewrite used_replicate, at_replicate. destruct (Z.eqb_spec a 0); [done|]. done.
  - intros tag Ht. now destruct (Hrow tag Ht) as (? & ? & _).
  - intros tag i Ht Hi. destruct (Hrow tag Ht) as (_ & _ & ->); [|done]. rewrite Hk.
    destruct (Z.eqb_spec i 0) as [-> |Hne]; cbn [andb].
    + apply bool_decide_ext. symmetry. apply grown_old. intros [=]. lia.
    + symmetry. apply bool_decide_eq_false. rewrite grown_old by (intros [=]; lia). intros Hin.
      destruct (t_in _ _ _ Hg _ _ Hin) as (_ & c & Hc). now pose proof (shape_top _ _ _ _ Hs Hc).
Qed.

Lemma grown_same : same_entries P (<[(H + 1, 0) := b]> P) T grown_tags.
Proof.
  split; [intros p; apply lookup_insert_ne; intros [=]; lia|]. intros tag p. apply grown_old. intros [=]. lia.
Qed.

End Grow.

(** ** Propagating the tags *)

(** [n'] is [n] with the bits of slot 0 set for the tags below [k] of the tree. *)
Definition carries (T : tagset) (H k : Z) (n n' : radix_tree_node) : Prop :=
  nd_height n' = nd_height n /\ nd_count n' = nd_count n /\ nd_slots n' = nd_slots n /\ zlen (nd_tags n') = 2 /\
  forall tag, 0 <= tag < 2 -> zlen (tag_row n' tag) = 2 /\ Forall is_u32 (tag_row n' tag) /\
    forall i, 0 <= i < 64 -> bit (tag_row n' tag) i = (tag <? k) && ((i =? 0) && bool_decide ((tag, (H, 0)) ∈ T)).

Lemma carries_start T H n : zlen (nd_tags n) = 2 -> (forall tag, 0 <= tag < 2 -> tag_row n tag = replicate 2 0) -> carries T H 0 n n.
Proof.
  intros Hl Hz. do 3 (split; [done|]). split; [done|]. intros tag Ht. rewrite Hz by done.
  split; [done|]. split; [repeat constructor; unfold is_u32; lia|].
  intros i Hi. destruct (Z.ltb_spec tag 0); [lia|]. unfold bit. now rewrite at_replicate, Z.testbit_0_l.
Qed.

Lemma carries_skip T H k n n' : carries T H k n n' -> (k, (H, 0)) ∉ T -> carries T H (k + 1) n n'.
Proof.
  intros (E1 & E2 & E3 & E4 & Hrow) Hk. do 4 (split; [done|]). intros tag Ht. destruct (Hrow tag Ht) as (R1 & R2 & R3).
  split; [done|]. split; [done|]. intros i Hi. rewrite R3 by done. destruct (decide (tag = k)) as [-> |Hne].
  - rewrite bool_decide_false by done. now rewrite !andb_false_r.
  - f_equal. destruct (Z.ltb_spec tag k), (Z.ltb_spec tag (k + 1)); lia || done.
Qed.

Lemma carries_set T H k n n' row : carries T H k n n' -> 0 <= k < 2 -> (k, (H, 0)) ∈ T -> zlen row = 2 -> Forall is_u32 row ->
  (forall i, 0 <= i -> bit row i = (i =? 0) || bit (tag_row n' k) i) -> carries T H (k + 1) n (put_row n' k row).
Proof.
  intros (E1 & E2 & E3 & E4 & Hrow) Hk Hin L U B. do 3 (split; [done|]). split; [cbn; now rewrite zlen_insert|].
  intros tag Ht. assert (tag_row (put_row n' k row) tag = if tag =? k then row else tag_row n' tag) as ->.
  { unfold tag_row. cbn [nd_tags put_row]. now rewrite at_insert by lia. }
  destruct (Hrow tag Ht) as (R1 & R2 & R3). destruct (Z.eqb_spec tag k) as [-> |Hne].
  - split; [done|]. split; [done|]. intros i Hi. rewrite B, R3, bool_decide_true by (done || lia).
    destruct (Z.ltb_spec k k), (Z.ltb_spec k (k + 1)); lia.
  - split; [done|]. split; [done|]. intros i Hi. rewrite R3 by done. f_equal. destruct (Z.ltb_spec tag k), (Z.ltb_spec tag (k + 1)); lia || done.
Qed.

Lemma propagate_ok t P T b n : mem_ok t P T -> apart t P b -> nodes t !! b = Some n -> zlen (nd_tags n) = 2 ->
  (forall tag, 0 <= tag < 2 -> tag_row n tag = replicate 2 0) ->
  runs (while 3 (fun tag =>
      if tag <? RADIX_TREE_MAX_TAGS then
        g ← root_tag_get tag;
        (if negb (g =? 0) then tag_set b tag 0 else mret tt);;
        mret (inl (tag + 1))
      else mret (inr tt)) 0) t
    (fun _ t' => exists n', t' = with_nodes (<[b := n']> (nodes t)) t /\ carries T (rt_height t) 2 n n').
Proof.
  intros Hm Hap Hn Hl Hz. change RADIX_TREE_MAX_TAGS with 2.
  apply (runs_while (fun tag t' => 0 <= tag <= 2 /\ exists n', t' = with_nodes (<[b := n']> (nodes t)) t /\ carries T (rt_height t) tag n n')
    (fun tag _ => 2 - tag)).
  - split; [lia|]. exists n. split; [destruct t; unfold with_nodes; cbn in *; now rewrite insert_id|now apply carries_start].
  - lia.
  - intros tag t' (Ht & n' & -> & Hc). split; [lia|]. destruct (Z.ltb_spec tag 2) as [Hlt|Hge].
    2: { apply runs_ret. exists n'. split; [done|]. now replace 2 with tag by lia. }
    destruct (root_tag_get_ok _ P T tag (mem_ok_apart _ _ _ _ n' Hm Hap) ltac:(lia)) as (v & Ev & Hv).
    apply runs_bind, (runs_eq _ _ _ _ _ Ev). cbv beta. cbn [rt_height with_nodes] in Hv. rewrite Hv, negb_involutive.
    destruct (bool_decide_reflect ((tag, (rt_height t, 0)) ∈ T)) as [Hin|Hno].
    + pose proof Hc as (_ & _ & _ & E4 & Hrow). destruct (Hrow tag ltac:(lia)) as (R1 & R2 & _).
      apply runs_bind. eapply runs_mono; [apply (tag_set_run b n' tag); [apply lookup_insert_eq|done|lia|done|done]|].
      intros _ t2 (row & L & U & B & ->). apply runs_ret. cbn [nodes with_nodes]. rewrite insert_insert_eq.
      split; [|lia]. split; [lia|]. exists (put_row n' tag row). split; [done|]. now apply carries_set.
    + apply runs_bind, runs_ret, runs_ret. split; [|lia]. split; [lia|]. exists n'. split; [done|]. now apply carries_skip.
Qed.

(** * Extending *)

Lemma grow_ok t P T a b h0 height :
  tree_ok t P T -> rt_height t < 6 -> P !! (rt_height t, 0) = Some a -> apart t P b -> nodes t !! b = Some (zeroed h0) ->
  runs (r ← gets rnode;
    set_slot b 0 (radix_tree_indirect_to_ptr r);;
    while 3 (fun tag =>
      if tag <? RADIX_TREE_MAX_TAGS then
        g ← root_tag_get tag;
        (if negb (g =? 0) then tag_set b tag 0 else mret tt);;
        mret (inl (tag + 1))
      else mret (inr tt)) 0;;
    h ← gets rt_height;
    let newheight := u32 (h + 1) in
    set_height b newheight;;
    set_count b 1;;
    set_rnode (radix_tree_ptr_to_indirect b);;
    set_rheight newheight;;
    h ← gets rt_height;
    mret (if h <? height then inl tt else inr 0)) t
  (fun r t' => r = (if rt_height t + 1 <? height then inl tt else inr 0) /\ rt_height t' = rt_height t + 1 /\
     gfp_mask t' = gfp_mask t /\ slab t' = slab t /\ preloads t' = preloads t /\
     tree_ok t' (<[(rt_height t + 1, 0) := b]> P) (grown_tags T (rt_height t))).
Proof.
  intros [Hm Hs Hg] HH Ha Hap Hb. pose proof (m_height _ _ _ Hm) as H0. apply runs_gets. rewrite (root_ptr _ _ _ Hm), Ha.
  cbn [from_option id]. unfold set_slot. apply runs_bind, (runs_node_at _ (zeroed h0)); [done|].
  eapply runs_lift_ok; [apply wr_ok; split; [lia|reflexivity]|].
  apply (runs_put_node _ (zeroed h0)); [done|]. cbn [nd_slots zeroed nd_height nd_count nd_tags].
  match goal with |- runs _ (with_nodes (<[b := ?x]> _) _) _ => set (n1 := x) end.
  apply runs_bind. eapply runs_mono.
  { apply (propagate_ok _ P T b n1); [now apply mem_ok_apart|done|apply lookup_insert_eq|done|].
    intros tag Ht. assert (tag = 0 \/ tag = 1) as [-> | ->] by lia; done. }
  intros _ t2 (n2 & -> & C1 & C2 & C3 & C4 & C5). cbv beta. apply runs_gets. cbv zeta. cbn [rt_height with_nodes nodes] in *.
  rewrite u32_id by (unfold is_u32; lia).
  unfold set_height. apply runs_bind, (runs_node_at _ n2); [apply lookup_insert_eq|]. apply (runs_put_node _ n2); [apply lookup_insert_eq|].
  cbn [nodes with_nodes].
  match goal with |- runs _ (with_nodes (<[b := ?x]> _) _) _ => set (n3 := x) end.
  unfold set_count. apply runs_bind, (runs_node_at _ n3); [apply lookup_insert_eq|]. apply (runs_put_node _ n3); [apply lookup_insert_eq|].
  cbn [nodes with_nodes].
  match goal with |- runs _ (with_nodes (<[b := ?x]> _) _) _ => set (n4 := x) end.
  unfold set_rnode, set_rheight. apply runs_bind, runs_modify, runs_bind, runs_modify, runs_gets, runs_ret.
  cbn [rt_height gfp_mask rnode nodes slab preloads with_nodes]. rewrite !insert_insert_eq. do 5 (split; [done|]).
  pose proof (some_nonzero _ _ _ _ _ Hm Ha ltac:(cbn; lia)) as Hpa.
  assert (node_ok (<[(rt_height t + 1, 0) := b]> P) (grown_tags T (rt_height t)) (rt_height t + 1, 0) n4) as Hok.
  { apply (grown_node P T _ a b); try done; [lia|destruct Hpa; lia|]. intros tag Ht. destruct (C5 tag Ht) as (R1 & R2 & R3). split; [done|]. split; [done|]. intros i Hi. rewrite R3 by done. destruct (Z.ltb_spec tag 2); [done|lia]. }
  split; cbn [rt_height]; [|eapply grown_shape; (eassumption || lia)|eapply grown_tags_ok; (eassumption || lia)].
  apply (mem_ok_root t P T); [done|lia| | | | |].
  - rewrite lookup_insert_eq. destruct (Z.eqb_spec (rt_height t + 1) 0); [lia|done].
  - intros tag Ht. eapply (grown_new P); (eassumption || lia).
  - intros p v Hv. rewrite lookup_insert_ne in Hv by (intros [=]; lia). now apply (m_item _ _ _ Hm p).
  - intros x c. rewrite lookup_insert_Some. intros [[<- <-]|[Hne Hx]] H1.
    + destruct Hap as (A1 & A2 & A3). split; [split; [done|]; exists n4; split; [apply lookup_insert_eq|done]|]. split; [done|].
      right. intros y Hy Hy1. rewrite lookup_insert_ne by done. now apply A3.
    + destruct (m_node _ _ _ Hm _ _ Hx H1) as (Hp & n & Hn & Hokn). destruct Hap as (A1 & A2 & A3).
      assert (c <> b) as Hcb by (intros ->; now apply (A3 x)).
      destruct (s_range _ _ Hs _ _ Hx) as (Hr & _).
      split; [|split; [|now left]].
      * split; [done|]. exists n. split; [now rewrite lookup_insert_ne|]. eapply node_ok_ext; [exact Hokn| |].
        -- intros i Hi. apply lookup_insert_ne. intros [=]. lia.
        -- intros tag i Ht Hi. eapply grown_old; try eassumption; [lia|]. intros [=]. lia.
      * intros Hc. destruct (m_free _ _ _ Hm c Hc) as (_ & Hf & _). now apply (Hf x).
  - intros c Hc. apply lookup_insert_ne. intros <-. now destruct Hap as (_ & ? & _).
Qed.

Lemma tree_ok_empty t H : tree_ok t ∅ ∅ -> 0 <= H <= 6 ->
  tree_ok (Rt H (gfp_mask t) 0 (nodes t) (slab t) (preloads t)) ∅ ∅.
Proof.
  intros [Hm _ _] HH. split; cbn [rt_height]; [|apply shape_none|split; set_solver].
  apply (mem_ok_root t ∅ ∅); try done; set_solver.
Qed.

Lemma tags_none H T : tags_ok H ∅ T -> T = ∅.
Proof.
  intros Hg. apply set_eq. intros [tag x]. split; [|set_solver]. intros Hin.
  destruct (t_in _ _ _ Hg _ _ Hin) as (_ & a & Ha). now rewrite lookup_empty in Ha.
Qed.

(** The height search. *)
Lemma height_ok t H idx : 0 <= H < 6 -> is_u32 idx -> 64 ^ H <= idx ->
  runs (while path_fuel (fun height =>
    m ← radix_tree_maxindex height;
    mret (if m <? idx then inl (u32 (height + 1)) else inr height)) (u32 (H + 1))) t
    (fun h t' => t' = t /\ H < h <= 6 /\ idx < 64 ^ h).
Proof.
  intros HH Hi Hge. rewrite u32_id by (unfold is_u32; lia).
  apply (runs_while (fun h t' => t' = t /\ H < h <= 6) (fun h _ => 7 - h)).
  - split; [done|lia].
  - change (Z.of_nat path_fuel) with 8. lia.
  - intros h t' (-> & Hh). split; [lia|]. apply runs_maxindex; [lia|]. apply runs_ret. rewrite max_of_lt by (done || lia).
    destruct (Z.ltb_spec idx (64 ^ h)) as [|Hgt]; cbn [negb]; [split; [done|lia]|].
    assert (h < 6). { destruct (decide (h = 6)) as [-> |]; [|lia]. change (64 ^ 6) with 68719476736 in Hgt. unfold is_u32 in Hi. lia. }
    rewrite u32_id by (unfold is_u32; lia). split; [|lia]. split; [done|lia].
Qed.

Lemma avail_eq t t' : gfp_mask t' = gfp_mask t -> slab t' = slab t -> preloads t' = preloads t -> avail t' = avail t.
Proof. intros E1 E2 E3. unfold avail. now rewrite E1, E2, E3. Qed.

Lemma taken_tree t t' P T a : tree_ok t P T -> taken t t' P T a -> tree_ok t' P T.
Proof. intros [Hm Hs Hg] (E1 & E2 & E3 & E4 & Hm' & _). split; [done|now rewrite E1|now rewrite E1]. Qed.

Lemma extend_ok t P T idx : tree_ok t P T -> is_u32 idx -> 64 ^ rt_height t <= idx ->
  runs (radix_tree_extend idx) t (fun r t' => exists P' T', tree_ok t' P' T' /\ same_entries P P' T T' /\
    ((r = 0 /\ idx < 64 ^ rt_height t' /\
      ((P = ∅ /\ P' = ∅ /\ avail t' = avail t) \/
       (is_Some (P' !! (rt_height t', 0)) /\ (avail t' <= avail t <= avail t' + 6)%nat))) \/
     (r = - ENOMEM /\ avail t' = 0%nat /\ (avail t <= 5)%nat))).
Proof.
  intros Hok Hi Hge. pose proof (m_height _ _ _ (o_mem _ _ _ Hok)) as HH.
  assert (rt_height t < 6). { destruct (decide (rt_height t = 6)) as [E|]; [|lia]. rewrite E in Hge. change (64 ^ 6) with 68719476736 in Hge. unfold is_u32 in Hi. lia. }
  unfold radix_tree_extend. apply runs_gets, runs_bind. eapply runs_mono; [now apply (height_ok t)|].
  intros h t' (-> & Hh & Hlt). cbv beta. apply runs_gets. rewrite (m_root _ _ _ (o_mem _ _ _ Hok)).
  destruct (P !! (rt_height t, 0)) as [a|] eqn:Ea.
  2: { assert (P = ∅) as -> by (apply (shape_empty _ _ (o_shape _ _ _ Hok)); done).
       pose proof (tags_none _ _ (o_tags _ _ _ Hok)) as ->. cbn [Z.eqb]. apply runs_bind, runs_modify, runs_ret.
       assert (rnode t = 0) as -> by (rewrite (m_root _ _ _ (o_mem _ _ _ Hok)); now rewrite lookup_empty).
       exists ∅, ∅. split; [apply tree_ok_empty; [done|lia]|]. split; [done|]. left. split; [done|]. split; [done|]. now left. }
  pose proof (some_nonzero _ _ _ _ _ (o_mem _ _ _ Hok) Ea ltac:(cbn; lia)) as Hpa.
  destruct (Z.eqb_spec (if rt_height t =? 0 then a else radix_tree_ptr_to_indirect a) 0) as [E0|_].
  { exfalso. destruct (rt_height t =? 0); [destruct Hpa; lia|now apply ptr_indirect_nonzero in E0]. }
  apply (runs_while (fun _ t1 => exists P1 T1, tree_ok t1 P1 T1 /\ same_entries P P1 T T1 /\ is_Some (P1 !! (rt_height t1, 0)) /\
      rt_height t <= rt_height t1 < h /\ Z.of_nat (avail t) = Z.of_nat (avail t1) + (rt_height t1 - rt_height t))
    (fun _ t1 => h - rt_height t1)).
  - exists P, T. split; [done|]. split; [done|]. split; [eauto|]. lia.
  - change (Z.of_nat path_fuel) with 8. lia.
  - intros [] t1 (P1 & T1 & Hok1 & Hse & [a1 Ha1] & Hh1 & Hav). split; [lia|].
    apply runs_bind. eapply runs_mono; [apply (node_alloc_ok t1 P1 T1), Hok1|].
    intros b t2 [(-> & -> & Hz)|[Hpb Htk]]; cbv beta.
    { cbn [Z.eqb]. apply runs_ret. exists P1, T1. split; [done|]. split; [done|]. right. split; [done|]. split; [done|]. lia. }
    destruct (Z.eqb_spec b 0); [destruct Hpb; lia|]. pose proof (taken_tree _ _ _ _ _ Hok1 Htk) as Hok2.
    destruct Htk as (E1 & E2 & E3 & E4 & _ & Hap & [h0 Hb] & Eav).
    eapply runs_mono; [apply (grow_ok t2 P1 T1 a1 b h0 h); [done|lia|congruence|done|done]|].
    intros r t3 (-> & F1 & F2 & F3 & F4 & Hok3).
    pose proof (avail_eq _ _ F2 F3 F4) as Eav3.
    assert (same_entries P (<[(rt_height t2 + 1, 0) := b]> P1) T (grown_tags T1 (rt_height t2))) as Hse3.
    { eapply same_entries_trans; [exact Hse|]. eapply grown_same; try eassumption; [apply Hok2|apply Hok2|lia|]. rewrite E1. exact Ha1. }
    destruct (Z.ltb_spec (rt_height t2 + 1) h).
    + split; [|lia]. eexists _, _. split; [exact Hok3|]. split; [done|]. rewrite F1. split; [rewrite lookup_insert_eq; eauto|]. lia.
    + eexists _, _. split; [exact Hok3|]. split; [done|]. left. split; [done|].
      assert (rt_height t3 = h) as E by lia. rewrite E. split; [done|]. right. rewrite <- E, F1, lookup_insert_eq. split; [eauto|]. lia.
Qed.

(** * The descent *)

Lemma shape_add H P idx h a : shape H P -> 0 <= h <= H -> is_u32 idx -> idx < 64 ^ H ->
  (h < H -> is_Some (P !! cell idx (h + 1))) -> shape H (<[cell idx h := a]> P).
Proof.
  intros Hs Hh Hi Hlt Hup. unfold is_u32 in Hi. split.
  - intros x c. rewrite lookup_insert_Some. intros [[<- _]|[_ Hx]]; [|now apply (s_range _ _ Hs) in Hx]. unfold cell. cbn [fst snd].
    split; [lia|]. pose proof (Z.pow_pos_nonneg 64 h ltac:(lia) ltac:(lia)). split.
    + split; [apply Z.div_pos; lia|]. apply Z.div_lt_upper_bound; [lia|]. rewrite <- Z.pow_add_r by lia. now replace (h + (H - h)) with H by lia.
    + rewrite Z.mul_comm. pose proof (Z.mul_div_le idx (64 ^ h)). lia.
  - intros x Hx Hl. rewrite lookup_insert_is_Some. destruct (decide (cell idx h = up x)) as [|Hne]; [now left|]. right. split; [done|].
    apply lookup_insert_is_Some in Hx as [<- |[_ Hx]]; [|now apply (s_up _ _ Hs)]. rewrite up_cell by lia. now apply Hup.
Qed.

Lemma tags_add H P T x a : tags_ok H P T -> tags_ok H (<[x := a]> P) T.
Proof.
  intros [G1 G2 G3]. split; try done. intros tag y Hin. destruct (G1 _ _ Hin) as (Ht & Hy). split; [done|].
  rewrite lookup_insert_is_Some. destruct (decide (x = y)); auto.
Qed.

(** Below an empty position there is nothing. *)
Lemma kids_none H P x i : shape H P -> x.1 <= H -> 0 <= i < 64 -> P !! x = None -> P !! kid x i = None.
Proof.
  intros Hs Hx Hi Hn. destruct (P !! kid x i) eqn:E; [|done]. destruct (s_up _ _ Hs (kid x i)) as [c Hc]; [eauto|cbn; lia|].
  rewrite up_kid in Hc by done. congruence.
Qed.

Lemma kid_below x i : kid x i <> x.
Proof. destruct x. unfold kid. cbn [fst snd]. intros [=]. lia. Qed.

Lemma fresh_node_ok H P T x b : shape H P -> tags_ok H P T -> x.1 <= H -> P !! x = None -> node_ok (<[x := b]> P) T x (zeroed x.1).
Proof.
  intros Hs Hg Hx Hn. assert (forall i, 0 <= i < 64 -> P !! kid x i = None) as Hk by (intros; eapply kids_none; eassumption).
  apply zeroed_ok.
  - intros i Hi. rewrite lookup_insert_ne by (symmetry; apply kid_below). now apply Hk.
  - intros tag i Hi Hin. destruct (t_in _ _ _ Hg _ _ Hin) as (_ & c & Hc). rewrite Hk in Hc by done. done.
Qed.

(** A NULL slot takes a pointer and the count follows. *)
Section Fill.
Context (t : radix_tree) (P : positions) (T : tagset) (x : pos) (a i v : Z) (n : radix_tree_node).
Context (Hn : nodes t !! a = Some n) (Hok : node_ok P T x n) (Hi : 0 <= i < 64).

Lemma fill_count : P !! kid x i = None -> v <> 0 -> u32 (nd_count n + 1) = used (<[Z.to_nat i := v]> (nd_slots n)).
Proof.
  intros He Hv. rewrite (n_count _ _ _ _ Hok), used_set by (rewrite (n_len _ _ _ _ Hok); lia).
  rewrite (n_slots _ _ _ _ Hok), He by done. cbn [default from_option id Z.eqb].
  destruct (Z.eqb_spec v 0); [done|]. pose proof (used_bound (nd_slots n)) as Hb. rewrite (n_len _ _ _ _ Hok) in Hb.
  rewrite u32_id; [lia|unfold is_u32; lia].
Qed.

Lemma set_slot_run w m (Q : unit -> radix_tree -> Prop) s : nodes s !! a = Some m -> zlen (nd_slots m) = 64 ->
  Q tt (with_nodes (<[a := RtNode (nd_height m) (nd_count m) (<[Z.to_nat i := w]> (nd_slots m)) (nd_tags m)]> (nodes s)) s) ->
  runs (set_slot a i w) s Q.
Proof.
  intros Hm Hl HQ. unfold set_slot. apply (runs_node_at _ m); [done|]. eapply runs_lift_ok; [apply wr_ok; lia|]. now apply (runs_put_node _ m).
Qed.

Lemma set_count_run w m (Q : unit -> radix_tree -> Prop) s : nodes s !! a = Some m ->
  Q tt (with_nodes (<[a := RtNode (nd_height m) w (nd_slots m) (nd_tags m)]> (nodes s)) s) -> runs (set_count a w) s Q.
Proof. intros Hm HQ. unfold set_count. apply (runs_node_at _ m); [done|]. now apply (runs_put_node _ m). Qed.

Lemma fill_ok : P !! kid x i = None -> v <> 0 ->
  runs (set_slot a i v;; m ← node_at a; set_count a (u32 (nd_count m + 1))) t
    (fun _ t' => t' = with_nodes (<[a := put_slot n i v]> (nodes t)) t).
Proof.
  intros He Hv. apply runs_bind, (set_slot_run v n); [done|apply Hok|]. eapply runs_node_at; [apply lookup_insert_eq|].
  eapply set_count_run; [apply lookup_insert_eq|]. cbn [nd_count nd_slots nd_tags nd_height with_nodes nodes].
  rewrite insert_insert_eq, fill_count by done. done.
Qed.

Lemma fill_count_first {B} (k : RM B) (Q : B -> radix_tree -> Prop) : P !! kid x i = None -> v <> 0 ->
  runs k (with_nodes (<[a := put_slot n i v]> (nodes t)) t) Q ->
  runs (m ← node_at a; set_count a (u32 (nd_count m + 1));; set_slot a i v;; k) t Q.
Proof.
  intros He Hv HQ. apply (runs_node_at _ n); [done|]. apply runs_bind. eapply set_count_run; [done|].
  apply runs_bind. eapply set_slot_run; [apply lookup_insert_eq|apply Hok|]. cbn [nd_count nd_slots nd_tags nd_height with_nodes nodes].
  rewrite insert_insert_eq, fill_count by done. exact HQ.
Qed.

End Fill.

(** The position above [cell idx h]: none at the top, else a node and the offset
    in it. *)
Definition parent (t : radix_tree) (P : positions) (idx h node offset : Z) : Prop :=
  (h = rt_height t /\ node = 0) \/
  (h < rt_height t /\ P !! cell idx (h + 1) = Some node /\ rt_ptr node /\ offset = off idx (h + 1)).

Lemma apart_height t P T b m : mem_ok t P T -> apart t P b -> forall x a, 1 <= x.1 -> P !! x = Some a ->
  <[b := m]> (nodes t) !! a = nodes t !! a.
Proof. intros Hm (_ & _ & Hap) x a Hx Ha. apply lookup_insert_ne. intros <-. now apply (Hap x). Qed.

Lemma cell_mod idx h : (cell idx h).2 mod 64 = off idx (h + 1).
Proof. unfold off, cell. cbn [snd]. now rewrite Z.add_simpl_r. Qed.

Lemma hang_root t P T idx b : tree_ok t P T -> 1 <= rt_height t -> is_u32 idx -> idx < 64 ^ rt_height t ->
  P !! (rt_height t, 0) = None -> apart t P b -> nodes t !! b = Some (zeroed (rt_height t)) ->
  tree_ok (Rt (rt_height t) (gfp_mask t) (radix_tree_ptr_to_indirect b) (nodes t) (slab t) (preloads t)) (<[(rt_height t, 0) := b]> P) T.
Proof.
  intros [Hm Hs Hg] HH Hi Hlt Hn Hap Hb. assert (cell idx (rt_height t) = (rt_height t, 0)) as Ec by (apply cell_top; unfold is_u32 in Hi; lia).
  pose proof (m_height _ _ _ Hm) as H6. pose proof (shape_empty _ _ Hs Hn) as ->. pose proof (fresh_node_ok _ _ _ (rt_height t, 0) b Hs Hg ltac:(cbn; lia) Hn) as Hf.
  split; cbn [rt_height]; [|rewrite <- Ec; apply shape_add; try done; lia|now apply tags_add].
  apply (mem_ok_root t ∅ T); try done.
  - rewrite lookup_insert_eq. destruct (Z.eqb_spec (rt_height t) 0); [lia|done].
  - intros p v Hv. rewrite lookup_insert_ne in Hv by (intros [=]; lia). now rewrite lookup_empty in Hv.
  - intros x c. rewrite lookup_insert_Some. intros [[<- <-]|[_ Hx]] _; [|now rewrite lookup_empty in Hx].
    split; [split; [apply Hap|]; exists (zeroed (rt_height t)); split; [done|exact Hf]|]. split; [apply Hap|]. right.
    intros y Hy _. rewrite lookup_insert_ne by done. done.
Qed.

Lemma hang_ok t P T idx h b h0 node offset : tree_ok t P T -> 1 <= h <= rt_height t -> is_u32 idx -> idx < 64 ^ rt_height t ->
  P !! cell idx h = None -> apart t P b -> nodes t !! b = Some (zeroed h0) -> parent t P idx h node offset ->
  runs (set_height b h;;
        (if negb (node =? 0) then
           set_slot node offset b;;
           n ← node_at node;
           set_count node (u32 (nd_count n + 1))
         else set_rnode (radix_tree_ptr_to_indirect b));;
        mret b) t
    (fun r t' => r = b /\ tree_ok t' (<[cell idx h := b]> P) T /\ rt_height t' = rt_height t /\ avail t' = avail t).
Proof.
  intros Hok Hh Hi Hlt Hn Hap Hb Hpar. unfold set_height. apply runs_bind, (runs_node_at _ (zeroed h0)); [done|].
  apply (runs_put_node _ (zeroed h0)); [done|]. change (RtNode h _ _ _) with (zeroed h).
  set (t1 := with_nodes (<[b := zeroed h]> (nodes t)) t). destruct Hok as [Hm Hs Hg].
  assert (tree_ok t1 P T) as Hok1 by (split; [now apply mem_ok_apart|done|done]).
  assert (nodes t1 !! b = Some (zeroed h)) as Hb1 by apply lookup_insert_eq.
  destruct Hpar as [[-> ->]|(Hlt' & Hx & Hpn & ->)].
  - cbn [Z.eqb negb]. apply runs_bind, runs_modify, runs_ret. rewrite cell_top in * by (unfold is_u32 in Hi; lia).
    split; [done|]. split; [|done]. now apply (hang_root t1 P T idx b).
  - destruct (Z.eqb_spec node 0); [destruct Hpn; lia|]. cbn [negb].
    destruct (m_node _ _ _ (o_mem _ _ _ Hok1) _ _ Hx ltac:(cbn; lia)) as (_ & n1 & Hn1 & Hokn).
    pose proof (kid_cell idx (h + 1) ltac:(lia)) as Ek. rewrite Z.add_simpl_r in Ek.
    apply runs_bind. eapply runs_mono; [apply (fill_ok t1 P T (cell idx (h + 1)) node (off idx (h + 1)) b n1); try done|].
    + apply off_range.
    + now rewrite Ek.
    + destruct Hap as [[? _] _]. lia.
    + intros _ t2 ->. apply runs_ret. split; [done|]. split; [|done].
      split; cbn [rt_height with_nodes]; [|apply (shape_add (rt_height t)); [done|lia|done|done|eauto]|now apply tags_add].
      rewrite <- cell_mod. change b with (default 0 (Some b)) at 1.
      apply (mem_ok_slot t1 P T (cell idx h) node n1 (Some b)); [apply Hok1|cbn; lia|now rewrite up_cell by lia|done| |].
      * intros v [= <-]. apply Hap.
      * intros a [= <-] _. split; [exact Hap|]. exists (zeroed h). split; [done|]. apply (fresh_node_ok (rt_height t) P T (cell idx h) b); [done|done|cbn; lia|done].
Qed.

(** What holds at each level of the descent from [t] with [P]. *)
Definition descent (t : radix_tree) (P : positions) (T : tagset) (idx : Z) (st : Z * Z * Z * Z * Z) (t1 : radix_tree) : Prop :=
  let '(node, slot, height, shift, offset) := st in
  exists P1, tree_ok t1 P1 T /\ same_entries P P1 T T /\ rt_height t1 = rt_height t /\ 0 <= height <= rt_height t /\
    slot = default 0 (P1 !! cell idx height) /\ parent t1 P1 idx height node offset /\ (1 <= height -> shift = 6 * (height - 1)) /\
    (P !! (rt_height t, 0) = None -> Z.of_nat (avail t) <= Z.of_nat (avail t1) + (rt_height t - height)) /\
    (is_Some (P !! (rt_height t, 0)) -> Z.of_nat (avail t) <= Z.of_nat (avail t1) + Z.max 0 (rt_height t - height - 1)) /\
    (is_Some (P !! (rt_height t, 0)) -> is_Some (P1 !! (rt_height t, 0))).

Lemma parent_node t P T idx h node : mem_ok t P T -> P !! cell idx (h + 1) = Some node -> 0 <= h < rt_height t ->
  parent t P idx h node (off idx (h + 1)).
Proof. intros Hm Hx Hh. right. split; [lia|]. split; [done|]. split; [|done]. apply (m_node _ _ _ Hm _ _ Hx). cbn. lia. Qed.

Lemma descent_down t P T P1 idx b h shift t1 : tree_ok t1 P1 T -> 1 <= h <= rt_height t -> rt_height t1 = rt_height t ->
  shift = 6 * (h - 1) -> P1 !! cell idx h = Some b -> same_entries P P1 T T ->
  (P !! (rt_height t, 0) = None -> Z.of_nat (avail t) <= Z.of_nat (avail t1) + (rt_height t - h) + 1) ->
  (is_Some (P !! (rt_height t, 0)) -> Z.of_nat (avail t) <= Z.of_nat (avail t1) + (rt_height t - h)) ->
  (is_Some (P !! (rt_height t, 0)) -> is_Some (P1 !! (rt_height t, 0))) ->
  runs (v ← get_slot b (Z.land (Z.shiftr idx shift) RADIX_TREE_MAP_MASK);
        mret (inl (b, v, h - 1, u32 (shift - RADIX_TREE_MAP_SHIFT), Z.land (Z.shiftr idx shift) RADIX_TREE_MAP_MASK))) t1
    (fun (x : (Z * Z * Z * Z * Z) + (Z * Z * Z + Z)) t' => match x with
       | inl l => descent t P T idx l t' /\ (let '(_, _, h', _, _) := l in h' < h)
       | inr _ => False end).
Proof.
  intros Hok Hh E -> Hb Hse Ha1 Ha2 Ha3. pose proof (m_height _ _ _ (o_mem _ _ _ Hok)) as H6. rewrite offset_eq by lia.
  apply (runs_get_slot t1 P1 T (cell idx h)); [apply Hok|done|cbn; lia|apply off_range|]. rewrite kid_cell by lia.
  apply runs_ret. split; [|lia]. exists P1. do 3 (split; [done|]). split; [lia|]. split; [done|]. split.
  { replace (off idx h) with (off idx (h - 1 + 1)) by (f_equal; lia). apply (parent_node _ _ T); [apply Hok| |lia].
    now replace (h - 1 + 1) with h by lia. }
  split; [intros; now rewrite shift_next by lia|]. split; [intros; specialize (Ha1 ltac:(done)); lia|]. split; [|done].
  intros Hr. specialize (Ha2 Hr). lia.
Qed.

Lemma insert_descent t P T idx : tree_ok t P T -> is_u32 idx -> idx < 64 ^ rt_height t ->
  runs (while path_fuel (radix_tree_insert_step idx)
      (0, radix_tree_indirect_to_ptr (rnode t), rt_height t, u32 ((rt_height t - 1) * RADIX_TREE_MAP_SHIFT), 0)) t
    (fun r t' => exists P', tree_ok t' P' T /\ same_entries P P' T T /\ rt_height t' = rt_height t /\
      match r with
      | inl (node, offset, slot) => slot = default 0 (P' !! (0, idx)) /\ parent t' P' idx 0 node offset
      | inr e => e = - ENOMEM /\ P !! (0, idx) = None /\ avail t' = 0%nat /\ (avail t <= 5)%nat /\ (is_Some (P !! (rt_height t, 0)) -> (avail t <= 4)%nat)
      end).
Proof.
  intros Hok Hi Hlt. pose proof (m_height _ _ _ (o_mem _ _ _ Hok)) as H6.
  assert (cell idx (rt_height t) = (rt_height t, 0)) as Ec by (apply cell_top; unfold is_u32 in Hi; lia).
  apply (runs_while (descent t P T idx) (fun '(_, _, h, _, _) _ => h)).
  - exists P. do 3 (split; [done|]). split; [lia|]. rewrite (root_ptr _ _ _ (o_mem _ _ _ Hok)), Ec. split; [done|]. split; [now left|].
    split; [intros; now rewrite shift_eq by lia|]. split; [lia|]. split; [lia|done].
  - change (Z.of_nat path_fuel) with 8. lia.
  - intros [[[[node slot] h] shift] offset] t1 (P1 & Hok1 & Hse & E1 & Hh & Hsl & Hpar & Hsh & Ha1 & Ha2 & Ha3). split; [lia|].
    unfold radix_tree_insert_step. destruct (Z.ltb_spec 0 h) as [Hpos|Hz].
    2: { apply runs_ret. replace h with 0 in * by lia. rewrite cell_0 in Hsl. exists P1. done. }
    specialize (Hsh ltac:(lia)).
    pose proof (default_zero _ _ _ (cell idx h) (o_mem _ _ _ Hok1) ltac:(cbn; lia)) as Hd. rewrite <- Hsl in Hd.
    apply runs_bind. destruct (Z.eqb_spec slot 0) as [->|Hnz].
    + destruct (bool_decide_reflect (is_Some (P1 !! cell idx h))) as [|Hno]; [done|]. clear Hd Hsl.
      apply eq_None_not_Some in Hno.
      apply runs_bind. eapply runs_mono; [apply (node_alloc_ok t1 P1 T), Hok1|]. intros b t2 [(-> & -> & Hav)|[Hpb Htk]]; cbv beta.
      { cbn [Z.eqb]. apply runs_ret, runs_ret. exists P1. do 3 (split; [done|]). split; [done|].
        split; [rewrite <- (proj1 Hse); apply (absent _ P1 idx h (o_shape _ _ _ Hok1)); [lia|done]|]. split; [done|].
        destruct (P !! (rt_height t, 0)) as [c|] eqn:Er.
        - specialize (Ha2 ltac:(eauto)). destruct (Ha3 ltac:(eauto)) as [d Hd]. assert (h <> rt_height t) by (intros ->; congruence). lia.
        - specialize (Ha1 eq_refl). split; [lia|]. intros [? ?]; done. }
      destruct (Z.eqb_spec b 0); [destruct Hpb; lia|]. pose proof (taken_tree _ _ _ _ _ Hok1 Htk) as Hok2.
      destruct Htk as (F1 & F2 & F3 & F4 & _ & Hap & [h0 Hb] & Eav).
      eapply runs_mono; [apply (hang_ok t2 P1 T idx h b h0 node offset); try done; [lia|congruence|]|].
      { unfold parent in *. now rewrite F1. }
      intros r t3 (-> & Hok3 & G1 & G2). destruct (Z.eqb_spec b 0); [done|].
      eapply runs_mono; [apply (descent_down t P T (<[cell idx h := b]> P1) idx b h shift t3); try done|].
      * lia.
      * congruence.
      * apply lookup_insert_eq.
      * destruct Hse as [Hs1 Hs2]. split; [|done]. intros p. rewrite lookup_insert_ne; [done|]. unfold cell. intros [=]. lia.
      * intros Hr. specialize (Ha1 Hr). lia.
      * intros Hr. specialize (Ha2 Hr). destruct (Ha3 Hr) as [d Hd]. assert (h <> rt_height t) by (intros ->; congruence). lia.
      * intros Hr. rewrite lookup_insert_is_Some. destruct (decide (cell idx h = (rt_height t, 0))); [now left|right; auto].
      * intros [[[[[? ?] ?] ?] ?]|] t' Hx; done.
    + destruct (bool_decide_reflect (is_Some (P1 !! cell idx h))) as [[b Hb]|]; [|done]. rewrite Hb in Hsl. cbn in Hsl. subst slot.
      apply runs_ret. destruct (Z.eqb_spec b 0); [done|].
      eapply runs_mono; [apply (descent_down t P T P1 idx b h shift t1); try done; [lia| |]|].
      * intros Hr. specialize (Ha1 Hr). lia.
      * intros Hr. specialize (Ha2 Hr). lia.
      * intros [[[[[? ?] ?] ?] ?]|] t' Hx; done.
Qed.

(** * The item *)

Lemma no_tag t P T tag idx : tree_ok t P T -> P !! (0, idx) = None -> (tag, (0, idx)) ∉ T.
Proof. intros Hok Hn Hin. destruct (t_in _ _ _ (o_tags _ _ _ Hok) _ _ Hin) as (_ & c & Hc). congruence. Qed.

Lemma place_root t P T item : tree_ok t P T -> rt_height t = 0 -> P !! (0, 0) = None -> rt_ptr item ->
  tree_ok (Rt (rt_height t) (gfp_mask t) item (nodes t) (slab t) (preloads t)) (<[(0, 0) := item]> P) T.
Proof.
  intros Hok E Hn Hp. pose proof Hok as [Hm Hs Hg]. rewrite E in *. pose proof (shape_empty _ _ Hs Hn) as ->.
  split; cbn [rt_height].
  - apply (mem_ok_root t ∅ T); try done.
    + intros tag Ht. now rewrite E.
    + intros p v. rewrite lookup_insert_Some. intros [[_ <-]|[_ Hx]]; done.
    + intros x a. rewrite lookup_insert_Some. intros [[<- _]|[_ Hx]] H1; [cbn in H1; lia|]. now rewrite lookup_empty in Hx.
  - change (0, 0) with (cell 0 0). apply shape_add; try done; lia.
  - now apply tags_add.
Qed.

Lemma place_node t P T idx node n item : tree_ok t P T -> is_u32 idx -> idx < 64 ^ rt_height t -> 0 < rt_height t ->
  P !! cell idx 1 = Some node -> nodes t !! node = Some n -> P !! (0, idx) = None -> rt_ptr item ->
  tree_ok (with_nodes (<[node := put_slot n (off idx 1) item]> (nodes t)) t) (<[(0, idx) := item]> P) T.
Proof.
  intros [Hm Hs Hg] Hi Hlt HH Hx Hn He Hp. rewrite <- cell_0. split; cbn [rt_height with_nodes].
  - change (off idx 1) with (off idx (0 + 1)). rewrite <- cell_mod. change item with (default 0 (Some item)) at 1.
    apply (mem_ok_slot t P T (cell idx 0) node n (Some item)); [done|cbn; lia|now rewrite up_cell by lia|done| |].
    + intros v [= <-]. done.
    + intros a _ C. cbn in C. lia.
  - apply shape_add; eauto; lia.
  - now apply tags_add.
Qed.

Lemma place_ok t P T idx node offset item : tree_ok t P T -> is_u32 idx -> idx < 64 ^ rt_height t ->
  parent t P idx 0 node offset -> P !! (0, idx) = None -> rt_ptr item ->
  runs (if negb (node =? 0) then
        n ← node_at node;
        set_count node (u32 (nd_count n + 1));;
        set_slot node offset item;;
        t0 ← tag_get node 0 offset;
        if negb (t0 =? 0) then fail BugOn else
        t1 ← tag_get node 1 offset;
        if negb (t1 =? 0) then fail BugOn else mret 0
      else
        set_rnode item;;
        t0 ← root_tag_get 0;
        if negb (t0 =? 0) then fail BugOn else
        t1 ← root_tag_get 1;
        if negb (t1 =? 0) then fail BugOn else mret 0) t
    (fun r t' => r = 0 /\ tree_ok t' (<[(0, idx) := item]> P) T).
Proof.
  intros Hok Hi Hlt Hpar Hn Hp. pose proof (m_height _ _ _ (o_mem _ _ _ Hok)) as H6.
  destruct Hpar as [[E ->]|(HH & Hx & Hpn & ->)].
  - cbn [Z.eqb negb]. rewrite <- E in Hlt. change (64 ^ 0) with 1 in Hlt. replace idx with 0 in * by (unfold is_u32 in Hi; lia).
    apply runs_bind, runs_modify. pose proof (place_root t P T item Hok (eq_sym E) Hn Hp) as Hok'.
    assert (forall tag, 0 <= tag < 2 -> exists v, root_tag_get tag (Rt (rt_height t) (gfp_mask t) item (nodes t) (slab t) (preloads t)) =
      Ok (v, Rt (rt_height t) (gfp_mask t) item (nodes t) (slab t) (preloads t)) /\ (v =? 0) = true) as Hr.
    { intros tag Ht. destruct (root_tag_get_ok _ _ _ tag (o_mem _ _ _ Hok') Ht) as (v & Ev & Hv). exists v. split; [done|].
      rewrite Hv, bool_decide_false; [done|]. cbn [rt_height]. rewrite <- E. now apply (no_tag t P). }
    destruct (Hr 0 ltac:(lia)) as (v0 & E0 & Z0). destruct (Hr 1 ltac:(lia)) as (v1 & E1 & Z1).
    apply runs_bind, (runs_eq _ _ _ _ _ E0). rewrite Z0. apply runs_bind, (runs_eq _ _ _ _ _ E1). rewrite Z1. now apply runs_ret.
  - destruct (Z.eqb_spec node 0); [destruct Hpn; lia|]. cbn [negb]. change (0 + 1) with 1 in *.
    destruct (m_node _ _ _ (o_mem _ _ _ Hok) _ _ Hx ltac:(cbn; lia)) as (_ & n1 & Hn1 & Hokn).
    pose proof (kid_cell idx 1 ltac:(lia)) as Ek. change (1 - 1) with 0 in Ek. rewrite cell_0 in Ek.
    apply (fill_count_first t P T (cell idx 1) node (off idx 1) item n1); [done|done|apply off_range|now rewrite Ek|destruct Hp; lia|].
    pose proof (place_node t P T idx node n1 item Hok Hi Hlt HH Hx Hn1 Hn Hp) as Hok'.
    set (t1 := with_nodes _ t) in *.
    assert (forall tag, 0 <= tag < 2 -> tag_get node tag (off idx 1) t1 = Ok (0, t1)) as Hr.
    { intros tag Ht. change (off idx 1) with (off idx (0 + 1)). rewrite <- cell_mod.
      rewrite (tag_get_ok t1 (<[(0, idx) := item]> P) T (cell idx 0) node tag); [|apply Hok'|cbn; lia| |done].
      - rewrite cell_0, bool_decide_false; [done|]. now apply (no_tag t P).
      - rewrite up_cell, lookup_insert_ne by (try lia; intros [=]). done. }
    apply runs_bind, (runs_eq _ _ _ _ _ (Hr 0 ltac:(lia))). cbn [Z.eqb negb].
    apply runs_bind, (runs_eq _ _ _ _ _ (Hr 1 ltac:(lia))). cbn [Z.eqb negb]. now apply runs_ret.
Qed.

(** An insertion adds the item, or finds the index taken, or runs out of nodes,
    which takes fewer than eleven free ones. *)
Lemma insert_ok t P T idx item : tree_ok t P T -> is_u32 idx -> rt_ptr item ->
  runs (radix_tree_insert idx item) t (fun r t' => exists P' T', tree_ok t' P' T' /\
    (forall tag p, (tag, (0, p)) ∈ T' <-> (tag, (0, p)) ∈ T) /\
    ((r = 0 /\ P !! (0, idx) = None /\ forall p, P' !! (0, p) = <[(0, idx) := item]> P !! (0, p)) \/
     ((forall p, P' !! (0, p) = P !! (0, p)) /\
      ((r = - EEXIST /\ is_Some (P !! (0, idx))) \/
       (r = - ENOMEM /\ P !! (0, idx) = None /\ avail t' = 0%nat /\ (avail t <= 10)%nat))))).
Proof.
  intros Hok Hi Hp. pose proof (m_height _ _ _ (o_mem _ _ _ Hok)) as H6. unfold radix_tree_insert.
  rewrite ptr_direct by apply Hp. cbn [Z.eqb negb]. apply runs_gets, runs_maxindex; [done|]. rewrite max_of_lt by done.
  apply runs_bind. apply runs_mono with (P := fun r t1 => exists P1 T1, tree_ok t1 P1 T1 /\ same_entries P P1 T T1 /\
    ((r = 0 /\ idx < 64 ^ rt_height t1 /\ (avail t <= avail t1 + 6)%nat /\ (avail t = avail t1 \/ is_Some (P1 !! (rt_height t1, 0)))) \/
     (r = - ENOMEM /\ P !! (0, idx) = None /\ avail t1 = 0%nat /\ (avail t <= 5)%nat))).
  { destruct (Z.ltb_spec idx (64 ^ rt_height t)) as [Hlt|Hge]; cbn [negb].
    - apply runs_ret. exists P, T. split; [done|]. split; [done|]. left. split; [done|]. split; [done|]. split; [lia|now left].
    - eapply runs_mono; [now apply (extend_ok t P T)|]. intros r t1 (P1 & T1 & Hok1 & Hse & Hr). exists P1, T1. do 2 (split; [done|]).
      destruct Hr as [(-> & Hlt & Hc)|(-> & Hz & H5)].
      + left. split; [done|]. split; [done|]. destruct Hc as [(_ & _ & Ea)|[Hr Ha]]; [split; [lia|now left]|]. split; [lia|now right].
      + right. split; [done|]. split; [|done]. apply (shape_high _ _ _ (o_shape _ _ _ Hok)); lia. }
  intros r t1 (P1 & T1 & Hok1 & [Hs1 Hs2] & Hr). cbv beta.
  destruct Hr as [(-> & Hlt & Ha & Hroot)|(-> & Hno & Hz & H5)].
  2: { cbn [Z.eqb negb]. apply runs_ret. exists P1, T1. split; [done|]. split; [done|]. right. split; [done|]. right.
       split; [done|]. split; [done|]. split; [done|lia]. }
  cbn [Z.eqb negb]. apply runs_gets, runs_gets, runs_bind. eapply runs_mono; [now apply (insert_descent t1 P1 T1 idx)|].
  intros x t2 (P2 & Hok2 & [Hs3 Hs4] & Eh & Hx). cbv beta. destruct x as [[[node offset] slot]|e].
  - destruct Hx as [-> Hpar].
    rewrite (default_zero _ _ _ (0, idx) (o_mem _ _ _ Hok2)), negb_involutive by (cbn; lia).
    destruct (bool_decide_reflect (is_Some (P2 !! (0, idx)))) as [Hy|Hn].
    + apply runs_ret. exists P2, T1. split; [done|]. split; [done|]. right. split; [intros p; now rewrite Hs3|]. left. split; [done|].
      now rewrite <- Hs1, <- Hs3.
    + apply eq_None_not_Some in Hn. eapply runs_mono; [apply (place_ok t2 P2 T1 idx node offset item); try done; now rewrite Eh|].
      intros r t3 (-> & Hok3). eexists _, T1. split; [exact Hok3|]. split; [done|]. left. split; [done|]. split; [now rewrite <- Hs1, <- Hs3|].
      intros p. destruct (decide (p = idx)) as [-> |Hne]; [now rewrite !lookup_insert_eq|].
      rewrite !lookup_insert_ne by congruence. now rewrite Hs3, Hs1.
  - destruct Hx as (-> & Hno & Hz & H5 & H4). apply runs_ret. exists P2, T1. split; [done|]. split; [done|]. right.
    split; [intros p; now rewrite Hs3|]. right. split; [done|]. split; [now rewrite <- Hs1|]. split; [done|].
    destruct Hroot as [Ea|Hr]; [lia|specialize (H4 Hr); lia].
Qed.
