(* ===== verification/RadixTags.v ===== *)
(** Tags of a radix tree: setting and clearing one along the path of an index,
    and reading it. *)

From stdpp Require Import gmap.
From S2P Require Import Prelude.
From S2P Require Import Bits FindBit Bitmap BitmapFacts BitmapRemap State RadixTree RadixInv RadixMem RadixInsert.

(** * Paths *)

Lemma tag_ancestor H P T tag idx k h : tags_ok H P T -> 0 <= k <= h -> h <= H -> (tag, cell idx k) ∈ T -> (tag, cell idx h) ∈ T.
Proof.
  intros Hg Hk Hh Hc. revert Hh. apply (Z_ind_up (fun h => h <= H -> (tag, cell idx h) ∈ T) k h); [lia|done|].
  intros n Hn IH Hle. rewrite <- up_cell by lia. apply (t_up _ _ _ Hg); [apply IH; lia|]. cbn. lia.
Qed.

Lemma cell_kid idx j x i : 0 <= i < 64 -> 0 <= j -> kid x i = cell idx j -> x = cell idx (j + 1).
Proof. intros Hi Hj E. rewrite <- (up_kid x i Hi), E. now apply up_cell. Qed.

Lemma cell_inj idx j k : cell idx j = cell idx k -> j = k.
Proof. now intros [=]. Qed.

(** [T1] is [T] with [tag] at the positions of the index [idx] from height [lo] to
    below [hi]. *)
Definition marked (tag idx lo hi : Z) (T T1 : tagset) : Prop :=
  forall tag' y, (tag', y) ∈ T1 <-> (tag', y) ∈ T \/ (tag' = tag /\ exists k, lo <= k < hi /\ y = cell idx k).

Lemma marked_step tag idx lo hi T T1 : marked tag idx lo hi T T1 -> lo <= hi ->
  marked tag idx (lo - 1) hi T ({[(tag, cell idx (lo - 1))]} ∪ T1).
Proof.
  intros H Hlo tag' y. rewrite elem_of_union, elem_of_singleton, (H tag' y). split.
  - intros [[= -> ->]|[?|(-> & k & Hk & ->)]]; [right|now left|right]; (split; [done|]); eexists; (split; [|reflexivity]); lia.
  - intros [?|(-> & k & Hk & ->)]; [now right; left|]. destruct (decide (k = lo - 1)) as [-> |]; [now left|]. right. right.
    split; [done|]. exists k. split; [lia|done].
Qed.

Lemma marked_same tag idx lo hi T T1 : marked tag idx lo hi T T1 -> lo <= hi -> (tag, cell idx (lo - 1)) ∈ T1 ->
  marked tag idx (lo - 1) hi T T1.
Proof.
  intros H Hlo Hin. assert (T1 = {[(tag, cell idx (lo - 1))]} ∪ T1) as -> by (apply set_eq; set_solver). now apply marked_step.
Qed.

Lemma marked_top tag idx H T T1 : marked tag idx 0 H T T1 -> 0 <= H ->
  marked tag idx 0 (H + 1) T ({[(tag, cell idx H)]} ∪ T1).
Proof.
  intros HM HH tag' y. rewrite elem_of_union, elem_of_singleton, (HM tag' y). split.
  - intros [[= -> ->]|[?|(-> & k & Hk & ->)]]; [right|now left|right]; (split; [done|]); eexists; (split; [|reflexivity]); lia.
  - intros [?|(-> & k & Hk & ->)]; [now right; left|]. destruct (decide (k = H)) as [-> |]; [now left|]. right. right.
    split; [done|]. exists k. split; [lia|done].
Qed.

Lemma marked_tags_ok H P T T1 tag idx : tags_ok H P T -> shape H P -> 0 <= H -> 0 <= tag < 2 -> is_Some (P !! (0, idx)) ->
  marked tag idx 0 (H + 1) T T1 -> tags_ok H P T1.
Proof.
  intros [G1 G2 G3] Hs HH Ht Hp HM. split.
  - intros tag' x [?|(-> & k & Hk & ->)]%HM; [now apply G1|]. split; [done|]. apply (ancestor H P idx 0 k Hs); [lia|lia|]. now rewrite cell_0.
  - intros tag' x Hin Hlt. apply HM. apply HM in Hin as [?|(-> & k & Hk & ->)]; [left; now apply G2|]. right. split; [done|].
    exists (k + 1). cbn in Hlt. split; [lia|]. apply up_cell. lia.
  - intros tag' x Hin H1. apply HM in Hin as [Hin|(-> & k & Hk & ->)].
    + destruct (G3 _ _ Hin H1) as (i & Hi & Hk). exists i. split; [done|]. apply HM. now left.
    + cbn in H1. exists (off idx k). split; [apply off_range|]. apply HM. right. split; [done|]. exists (k - 1). split; [lia|]. apply kid_cell. lia.
Qed.

(** * Setting *)

Lemma tag_set_path t P T idx tag : tree_ok t P T -> is_u32 idx -> idx < 64 ^ rt_height t -> 0 <= tag < 2 -> is_Some (P !! (0, idx)) ->
  runs (while path_fuel (fun '(slot, shift, height) =>
    if 0 <? height then
      let offset := Z.land (Z.shiftr idx shift) RADIX_TREE_MAP_MASK in
      t ← tag_get slot tag offset;
      (if t =? 0 then tag_set slot tag offset else mret tt);;
      slot ← get_slot slot offset;
      if slot =? 0 then fail BugOn else
      mret (inl (slot, u32 (shift - RADIX_TREE_MAP_SHIFT), height - 1))
    else mret (inr slot)) (radix_tree_indirect_to_ptr (rnode t), u32 ((rt_height t - 1) * RADIX_TREE_MAP_SHIFT), rt_height t)) t
  (fun slot t' => P !! (0, idx) = Some slot /\ exists T1 m, marked tag idx 0 (rt_height t) T T1 /\ t' = with_nodes m t /\ mem_ok t' P T1).
Proof.
  intros [Hm Hs Hg] Hi Hlt Ht Hp. pose proof (m_height _ _ _ Hm) as H6.
  assert (forall h, 0 <= h <= rt_height t -> is_Some (P !! cell idx h)) as Hanc.
  { intros h Hh. apply (ancestor (rt_height t) P idx 0 h Hs); [lia|lia|]. now rewrite cell_0. }
  apply (runs_while (fun '(slot, shift, h) t' => 0 <= h <= rt_height t /\ (1 <= h -> shift = 6 * (h - 1)) /\ P !! cell idx h = Some slot /\
      exists T1 m, marked tag idx h (rt_height t) T T1 /\ t' = with_nodes m t /\ mem_ok t' P T1) (fun '(_, _, h) _ => h)).
  - split; [lia|]. split; [intros; now rewrite shift_eq by lia|]. split.
    + destruct (Hanc (rt_height t)) as [a Ha]; [lia|]. rewrite (root_ptr _ _ _ Hm). rewrite cell_top in * by (unfold is_u32 in Hi; lia). now rewrite Ha.
    + exists T, (nodes t). split; [|destruct t; done]. intros tag' y. split; [now left|]. intros [?|(_ & k & Hk & _)]; [done|lia].
  - change (Z.of_nat path_fuel) with 8. lia.
  - intros [[slot shift] h] t' (Hh & Hsh & Hx & T1 & m & HM & -> & Hm1). split; [lia|].
    destruct (Z.ltb_spec 0 h) as [Hpos|Hz].
    2: { apply runs_ret. replace h with 0 in * by lia. rewrite cell_0 in Hx. split; [done|]. now exists T1, m. }
    rewrite Hsh by lia. cbv zeta. rewrite offset_eq by lia.
    assert (off idx h = (cell idx (h - 1)).2 mod 64) as Eo by (rewrite cell_mod; f_equal; lia).
    assert (P !! up (cell idx (h - 1)) = Some slot) as Hup by (rewrite up_cell by lia; now replace (h - 1 + 1) with h by lia).
    apply runs_bind. rewrite Eo at 1. eapply runs_eq; [apply (tag_get_ok _ P T1 (cell idx (h - 1))); try done; cbn; lia|].
    apply runs_bind. apply runs_mono with (P := fun _ t2 => exists T2 m2, marked tag idx (h - 1) (rt_height t) T T2 /\ t2 = with_nodes m2 t /\ mem_ok t2 P T2).
    { destruct (bool_decide_reflect ((tag, cell idx (h - 1)) ∈ T1)) as [Hin|Hno]; cbn [Z.b2z Z.eqb].
      - apply runs_ret. exists T1, m. split; [|done]. now apply marked_same.
      - rewrite Eo. eapply runs_mono; [apply (tag_set_ok _ P T1 (cell idx (h - 1))); try done; cbn; lia|].
        intros _ t2 (Hm2 & m2 & ->). eexists _, m2. split; [now apply marked_step|]. done. }
    intros _ t2 (T2 & m2 & HM2 & -> & Hm2). cbv beta.
    apply (runs_get_slot _ P T2 (cell idx h)); [done|done|cbn; lia|apply off_range|]. rewrite kid_cell by lia.
    destruct (Hanc (h - 1)) as [v Hv]; [lia|]. rewrite Hv. cbn [default from_option id].
    destruct (some_nonzero _ _ _ _ _ Hm Hv ltac:(cbn; lia)) as [? _]. destruct (Z.eqb_spec v 0); [lia|].
    apply runs_ret. split; [|lia]. split; [lia|]. split; [intros; now rewrite shift_next by lia|]. split; [done|]. now exists T2, m2.
Qed.

Lemma tag_set_tree t P T idx tag : tree_ok t P T -> is_u32 idx -> 0 <= tag < 2 -> is_Some (P !! (0, idx)) ->
  runs (radix_tree_tag_set idx tag) t (fun r t' => P !! (0, idx) = Some r /\ exists T', tree_ok t' P T' /\
    forall tag' p, (tag', (0, p)) ∈ T' <-> (tag', (0, p)) ∈ T \/ (tag' = tag /\ p = idx)).
Proof.
  intros Hok Hi Ht Hp. pose proof Hok as [Hm Hs Hg]. pose proof (m_height _ _ _ Hm) as H6.
  assert (idx < 64 ^ rt_height t) as Hlt.
  { destruct (Z.lt_ge_cases idx (64 ^ rt_height t)); [done|]. destruct Hp as [v Hv]. rewrite (shape_high _ _ _ Hs) in Hv by lia. done. }
  unfold radix_tree_tag_set. apply runs_gets, runs_maxindex; [done|]. rewrite max_of_lt by done.
  destruct (Z.ltb_spec idx (64 ^ rt_height t)); [cbn [negb]|lia]. apply runs_gets, runs_bind.
  eapply runs_mono; [now apply (tag_set_path t P T idx tag)|]. intros slot t1 (Hsl & T1 & m & HM & -> & Hm1). cbv beta.
  destruct (root_tag_get_ok _ _ _ tag Hm1 Ht) as (v & Ev & Hv). apply runs_bind, (runs_eq _ _ _ _ _ Ev). rewrite Hv.
  pose proof (m_item _ _ _ Hm _ _ Hsl) as [Hp0 _]. destruct (Z.eqb_spec slot 0); [lia|]. cbn [negb andb].
  pose proof (cell_top idx (rt_height t) ltac:(unfold is_u32 in Hi; lia)) as Ec. cbn [rt_height with_nodes] in *.
  apply runs_bind. apply runs_mono with (P := fun _ t2 => exists T2, marked tag idx 0 (rt_height t + 1) T T2 /\ rt_height t2 = rt_height t /\ mem_ok t2 P T2).
  { destruct (bool_decide_reflect ((tag, (rt_height t, 0)) ∈ T1)) as [Hin|Hno]; cbn [negb].
    - apply runs_ret. exists T1. split; [|done]. rewrite <- Ec in Hin.
      assert (T1 = {[(tag, cell idx (rt_height t))]} ∪ T1) as -> by (apply set_eq; set_solver). apply marked_top; [done|lia].
    - eapply runs_mono; [now apply (root_tag_set_ok _ P T1 tag Hm1)|]. intros _ t2 (Hm2 & g & ->). eexists. split; [|split; [|exact Hm2]]; [|done].
      cbn [rt_height with_nodes]. rewrite <- Ec. apply marked_top; [done|lia]. }
  intros _ t2 (T2 & HM2 & E2 & Hm2). apply runs_ret. split; [done|]. exists T2. split.
  - split; rewrite ?E2; [done|done|]. now apply (marked_tags_ok _ P T T2 tag idx).
  - intros tag' p. rewrite (HM2 tag' (0, p)). split; (intros [?|[-> Hc]]; [now left|right; split; [done|]]).
    + destruct Hc as (k & Hk & E). assert (k = 0) as -> by now injection E. rewrite cell_0 in E. congruence.
    + subst p. exists 0. split; [lia|]. now rewrite cell_0.
Qed.

(** * Reading *)

Lemma tag_absent H P T tag idx k : tags_ok H P T -> 0 <= k <= H -> (tag, cell idx k) ∉ T -> (tag, (0, idx)) ∉ T.
Proof. intros Hg Hk Hn Hin. rewrite <- cell_0 in Hin. now apply Hn, (tag_ancestor H P T tag idx 0 k). Qed.

Lemma tag_get_tree t P T idx tag : tree_ok t P T -> is_u32 idx -> 0 <= tag < 2 ->
  runs (radix_tree_tag_get idx tag) t (fun r t' => t' = t /\ r = Z.b2z (bool_decide ((tag, (0, idx)) ∈ T))).
Proof.
  intros [Hm Hs Hg] Hi Ht. pose proof (m_height _ _ _ Hm) as H6. unfold radix_tree_tag_get.
  assert (forall x, P !! x = None -> (tag, x) ∉ T) as HnoP by (intros x Hx Hin; destruct (t_in _ _ _ Hg _ _ Hin) as (_ & c & Hc); congruence).
  destruct (root_tag_get_ok _ _ _ tag Hm Ht) as (v & Ev & Hv). apply runs_bind, (runs_eq _ _ _ _ _ Ev). rewrite Hv.
  assert ((tag, (rt_height t, 0)) ∉ T -> (tag, (0, idx)) ∉ T) as Hroot.
  { intros Hno. destruct (Z.lt_ge_cases idx (64 ^ rt_height t)).
    - apply (tag_absent _ P T tag idx (rt_height t) Hg); [lia|]. now rewrite cell_top by (unfold is_u32 in Hi; lia).
    - apply HnoP, (shape_high _ _ _ Hs); lia. }
  destruct (bool_decide_reflect ((tag, (rt_height t, 0)) ∈ T)) as [Hin|Hno]; cbn [negb].
  2: { apply runs_ret. split; [done|]. now rewrite bool_decide_false by auto. }
  apply runs_gets. rewrite (m_root _ _ _ Hm). destruct (t_in _ _ _ Hg _ _ Hin) as (_ & a & Ha). rewrite Ha.
  pose proof (some_nonzero _ _ _ _ _ Hm Ha ltac:(cbn; lia)) as Hpa.
  destruct (Z.eqb_spec (rt_height t) 0) as [E0|E0].
  - destruct (Z.eqb_spec a 0); [destruct Hpa; lia|]. rewrite ptr_direct by apply Hpa. cbn [Z.eqb]. apply runs_ret. split; [done|].
    rewrite E0 in *. destruct (Z.eqb_spec idx 0) as [-> |Hne]; [now rewrite bool_decide_true|].
    rewrite bool_decide_false; [done|]. apply HnoP, (shape_high _ _ _ Hs); [lia|]. unfold is_u32 in Hi. change (64 ^ 0) with 1. lia.
  - destruct (Z.eqb_spec (radix_tree_ptr_to_indirect a) 0) as [C|_]; [now apply ptr_indirect_nonzero in C|].
    rewrite ptr_indirect, ptr_roundtrip by (apply Hpa || now apply rt_ptr_u32). cbn [Z.eqb].
    destruct (m_node _ _ _ Hm _ _ Ha ltac:(cbn; lia)) as (_ & n & Hn & Hok). apply (runs_node_at _ n); [done|].
    rewrite (n_height _ _ _ _ Hok). cbn [fst]. apply runs_maxindex; [lia|]. rewrite max_of_lt by (done || lia).
    destruct (Z.ltb_spec idx (64 ^ rt_height t)) as [Hlt|Hge]; cbn [negb].
    2: { apply runs_ret. split; [done|]. rewrite bool_decide_false; [done|]. apply HnoP, (shape_high _ _ _ Hs); lia. }
    rewrite shift_eq by lia.
    apply (runs_while (fun '(node, shift, h, saw) t' => t' = t /\ 1 <= h <= rt_height t /\ shift = 6 * (h - 1) /\
        node = default 0 (P !! cell idx h) /\ (saw <> 0 -> (tag, (0, idx)) ∉ T)) (fun '(_, _, h, _) _ => h)).
    + rewrite cell_top by (unfold is_u32 in Hi; lia). rewrite Ha. split; [done|]. split; [lia|]. done.
    + change (Z.of_nat path_fuel) with 8. lia.
    + intros [[[node shift] h] saw] t' (-> & Hh & -> & Hnode & Hsaw). split; [lia|].
      pose proof (default_zero _ _ _ (cell idx h) Hm ltac:(cbn; lia)) as Hd. rewrite <- Hnode in Hd. rewrite Hd.
      destruct (bool_decide_reflect (is_Some (P !! cell idx h))) as [[b Hb]|Hno]; cbn [negb].
      2: { apply runs_ret. split; [done|]. rewrite bool_decide_false; [done|]. apply (tag_absent _ P T tag idx h Hg); [lia|]. now apply HnoP, eq_None_not_Some. }
      rewrite Hb in Hnode. cbn in Hnode. subst node. cbv zeta. rewrite offset_eq by lia.
      assert (off idx h = (cell idx (h - 1)).2 mod 64) as Eo by (rewrite cell_mod; f_equal; lia).
      assert (P !! up (cell idx (h - 1)) = Some b) as Hup by (rewrite up_cell by lia; now replace (h - 1 + 1) with h by lia).
      assert (tag_get b tag (off idx h) t = Ok (Z.b2z (bool_decide ((tag, cell idx (h - 1)) ∈ T)), t)) as Eg
        by (rewrite Eo; apply (tag_get_ok t P T (cell idx (h - 1))); try done; cbn; lia).
      apply runs_bind, (runs_eq _ _ _ _ _ Eg).
      assert ((tag, cell idx (h - 1)) ∉ T -> (tag, (0, idx)) ∉ T) as Hcell by (intros; apply (tag_absent _ P T tag idx (h - 1) Hg); [lia|done]).
      destruct (Z.eqb_spec h 1) as [-> |Hne].
      * apply runs_bind, (runs_eq _ _ _ _ _ Eg). change (1 - 1) with 0 in *. rewrite cell_0 in *.
        destruct (bool_decide_reflect ((tag, (0, idx)) ∈ T)) as [Hin0|Hno0]; cbn [Z.b2z Z.eqb negb andb]; [|now apply runs_ret].
        destruct (Z.eqb_spec saw 0); cbn [negb]; [now apply runs_ret|]. now destruct Hsaw.
      * apply (runs_get_slot _ P T (cell idx h)); [done|done|cbn; lia|apply off_range|]. rewrite kid_cell by lia.
        apply runs_ret. rewrite shift_next by lia. rewrite (u32_id (h - 1)) by (unfold is_u32; lia). split; [|lia].
        split; [done|]. split; [lia|]. split; [done|]. split; [done|].
        destruct (bool_decide_reflect ((tag, cell idx (h - 1)) ∈ T)); cbn [Z.b2z Z.eqb]; auto.
Qed.

Lemma tagged_ok t P T tag : tree_ok t P T -> 0 <= tag < 2 ->
  runs (radix_tree_tagged tag) t (fun r t' => t' = t /\ (r <> 0 <-> exists p, (tag, (0, p)) ∈ T)).
Proof.
  intros [Hm Hs Hg] Ht. destruct (root_tag_get_ok _ _ _ tag Hm Ht) as (v & Ev & Hv). apply (runs_eq _ _ _ _ _ Ev). split; [done|].
  pose proof (m_height _ _ _ Hm) as H6. transitivity ((tag, (rt_height t, 0)) ∈ T).
  { destruct (bool_decide_reflect ((tag, (rt_height t, 0)) ∈ T)); cbn in Hv; destruct (Z.eqb_spec v 0); done. }
  split.
  - assert (forall h, 0 <= h -> forall q, (tag, (h, q)) ∈ T -> exists p, (tag, (0, p)) ∈ T) as Hd.
    { intros h Hh. apply (Z_ind_up (fun h => forall q, (tag, (h, q)) ∈ T -> exists p, (tag, (0, p)) ∈ T) 0 h); [lia|eauto|].
      intros k Hk IH q Hin. destruct (t_down _ _ _ Hg _ _ Hin ltac:(cbn; lia)) as (i & Hi & Hki). apply (IH (64 * q + i)).
      unfold kid in Hki. cbn [fst snd] in Hki. now replace (k + 1 - 1) with k in Hki by lia. }
    apply Hd. lia.
  - intros [p Hin]. rewrite <- cell_0 in Hin. pose proof (tag_ancestor _ _ _ _ _ 0 (rt_height t) Hg ltac:(lia) ltac:(lia) Hin) as Hr.
    destruct (t_in _ _ _ Hg _ _ Hr) as (_ & c & Hc). unfold cell in *. now rewrite (shape_top _ _ _ _ Hs Hc) in Hr.
Qed.

(** * Clearing *)

(** The nodes of the path of [idx] from height [k] up, with the offsets in them. *)
Fixpoint path_at (P : positions) (idx k : Z) (path : list (Z * Z)) : Prop :=
  match path with
  | [] => True
  | (node, offset) :: path => P !! cell idx k = Some node /\ offset = off idx k /\ path_at P idx (k + 1) path
  end.

Lemma path_ok t P T idx : mem_ok t P T -> shape (rt_height t) P -> is_u32 idx -> idx < 64 ^ rt_height t ->
  runs (while path_fuel (radix_tree_path idx)
      ([], radix_tree_indirect_to_ptr (rnode t), u32 ((rt_height t - 1) * RADIX_TREE_MAP_SHIFT), rt_height t)) t
    (fun x t' => t' = t /\ match x with
      | None => P !! (0, idx) = None
      | Some (path, slot) => slot = default 0 (P !! (0, idx)) /\ path_at P idx 1 path /\ zlen path = rt_height t
      end).
Proof.
  intros Hm Hs Hi Hlt. pose proof (m_height _ _ _ Hm) as H6.
  apply (runs_while (fun '(path, slot, shift, h) t' => t' = t /\ 0 <= h <= rt_height t /\ (1 <= h -> shift = 6 * (h - 1)) /\
      slot = default 0 (P !! cell idx h) /\ path_at P idx (h + 1) path /\ zlen path = rt_height t - h) (fun '(_, _, _, h) _ => h)).
  - split; [done|]. split; [lia|]. split; [intros; now rewrite shift_eq by lia|].
    rewrite (root_ptr _ _ _ Hm), cell_top by (unfold is_u32 in Hi; lia). split; [done|]. split; [done|]. change (zlen (@nil (Z * Z))) with 0. lia.
  - change (Z.of_nat path_fuel) with 8. lia.
  - intros [[[path slot] shift] h] t' (-> & Hh & Hsh & Hslot & Hpath & Hlen). split; [lia|]. unfold radix_tree_path.
    destruct (Z.ltb_spec 0 h) as [Hpos|Hz].
    2: { apply runs_ret. replace h with 0 in * by lia. rewrite cell_0 in Hslot. split; [done|]. split; [done|]. split; [done|]. lia. }
    pose proof (default_zero _ _ _ (cell idx h) Hm ltac:(cbn; lia)) as Hd. rewrite <- Hslot in Hd. rewrite Hd.
    destruct (bool_decide_reflect (is_Some (P !! cell idx h))) as [[b Hb]|Hno]; cbn [negb].
    2: { apply runs_ret. split; [done|]. apply (absent _ P idx h Hs); [lia|]. now apply eq_None_not_Some. }
    rewrite Hb in Hslot. cbn in Hslot. subst slot. rewrite Hsh by lia. cbv zeta. rewrite offset_eq by lia.
    apply (runs_get_slot _ P T (cell idx h)); [done|done|cbn; lia|apply off_range|]. rewrite kid_cell by lia.
    apply runs_ret. split; [|lia]. split; [done|]. split; [lia|]. split; [intros; now rewrite shift_next by lia|]. split; [done|].
    split; [|unfold zlen in *; cbn [length]; lia]. cbn [path_at]. replace (h - 1 + 1) with h by lia. done.
Qed.

(** [T1] is [T] without [tag] at the positions of [idx] below height [k], where
    no position below the others carries it. *)
Record cleared (tag idx k : Z) (T T1 : tagset) : Prop := {
  c_set : forall tag' y, (tag', y) ∈ T1 <-> (tag', y) ∈ T /\ ~ (tag' = tag /\ exists j, 0 <= j < k /\ y = cell idx j);
  c_kids : forall j i, 1 <= j < k -> 0 <= i < 64 -> (tag, kid (cell idx j) i) ∉ T1
}.

Lemma cleared_start tag idx T : cleared tag idx 0 T T.
Proof. split; [|intros; lia]. intros tag' y. split; [|now intros [? _]]. intros ?. split; [done|]. intros (_ & j & Hj & _). lia. Qed.

Lemma cleared_step tag idx k T T1 : cleared tag idx k T T1 -> 0 <= k ->
  (1 <= k -> forall i, 0 <= i < 64 -> (tag, kid (cell idx k) i) ∉ T1) -> cleared tag idx (k + 1) T (T1 ∖ {[(tag, cell idx k)]}).
Proof.
  intros [C1 C2] Hk Hkids. split.
  - intros tag' y. rewrite elem_of_difference, elem_of_singleton, C1. split.
    + intros [[H1 H2] H3]. split; [done|]. intros (-> & j & Hj & ->). destruct (decide (j = k)) as [-> |]; [done|].
      apply H2. split; [done|]. exists j. split; [lia|done].
    + intros [H1 H2]. split; [split; [done|]|].
      * intros (-> & j & Hj & ->). apply H2. split; [done|]. exists j. split; [lia|done].
      * intros [= -> ->]. apply H2. split; [done|]. exists k. split; [lia|done].
  - intros j i Hj Hi. rewrite elem_of_difference. intros [Hin _]. destruct (decide (j = k)) as [-> |]; [now apply (Hkids ltac:(lia) i)|].
    apply (C2 j i); [lia|done|done].
Qed.

Lemma cleared_tags_ok H P T T1 tag idx k : tags_ok H P T -> shape H P -> 0 <= k <= H + 1 -> cleared tag idx k T T1 ->
  (1 <= k <= H -> exists i, 0 <= i < 64 /\ (tag, kid (cell idx k) i) ∈ T1) -> tags_ok H P T1.
Proof.
  intros [G1 G2 G3] Hs Hk [C1 C2] Hw. split.
  - intros tag' x [Hin _]%C1. now apply G1.
  - intros tag' x Hin Hlt. apply C1. pose proof (proj1 (C1 _ _) Hin) as [Hin0 _]. split; [now apply G2|]. intros (-> & j & Hj & E).
    destruct (G1 _ _ Hin0) as (_ & c & Hc). destruct (s_range _ _ Hs _ _ Hc) as (Hr & _).
    pose proof (f_equal fst E) as Ej. cbn in Ej. apply (C2 j (x.2 mod 64)); [lia|apply mod64|]. rewrite <- E. now rewrite kid_up.
  - intros tag' x Hin H1. pose proof (proj1 (C1 _ _) Hin) as [Hin0 Hne]. destruct (G3 _ _ Hin0 H1) as (i & Hi & Hki).
    destruct (decide (tag' = tag)) as [-> |Htag].
    2: { exists i. split; [done|]. apply C1. split; [done|]. now intros [? _]. }
    destruct (decide (1 <= k <= H /\ x = cell idx k)) as [[Hk1 ->]|Hx]; [now apply Hw|]. exists i. split; [done|]. apply C1. split; [done|].
    intros (_ & j & Hj & E). apply cell_kid in E as ->; [|done|lia]. destruct (G1 _ _ Hin0) as (_ & c & Hc).
    destruct (s_range _ _ Hs _ _ Hc) as (Hr & _). cbn in Hr. destruct (decide (j + 1 = k)) as [<- |Hjk]; [apply Hx; split; [lia|done]|].
    apply Hne. split; [done|]. exists (j + 1). split; [lia|done].
Qed.

(** The way back from height [k]. *)
Lemma clear_up_ok t P T idx tag path : tree_ok t P T -> 0 <= tag < 2 -> path_at P idx 1 path -> zlen path = rt_height t ->
  runs (while path_fuel (tag_clear_up tag) path) t (fun top t' => exists m T1 k, t' = with_nodes m t /\ mem_ok t' P T1 /\ cleared tag idx k T T1 /\
    if (top : bool) then k = rt_height t /\ (1 <= k -> forall i, 0 <= i < 64 -> (tag, kid (cell idx k) i) ∉ T1)
    else (k = 0 /\ (tag, (0, idx)) ∉ T) \/ (1 <= k <= rt_height t /\ exists i, 0 <= i < 64 /\ (tag, kid (cell idx k) i) ∈ T1)).
Proof.
  intros [Hm Hs Hg] Ht Hpath Hlen. pose proof (m_height _ _ _ Hm) as H6.
  apply (runs_while (fun path t' => exists m T1 k, t' = with_nodes m t /\ mem_ok t' P T1 /\ cleared tag idx k T T1 /\ 0 <= k /\
      zlen path = rt_height t - k /\ path_at P idx (k + 1) path /\
      (1 <= k -> (tag, cell idx (k - 1)) ∈ T /\ forall i, 0 <= i < 64 -> (tag, kid (cell idx k) i) ∉ T1)) (fun path _ => zlen path)).
  - exists (nodes t), T, 0. split; [now destruct t|]. split; [done|]. split; [apply cleared_start|]. do 2 (split; [lia|]). split; [done|]. lia.
  - change (Z.of_nat path_fuel) with 8. lia.
  - intros p t' (m & T1 & k & -> & Hm1 & Hc & Hk & Hl & Hp & Hin). split; [unfold zlen; lia|]. destruct p as [|[node offset] p]; cbn [tag_clear_up].
    { apply runs_ret. change (zlen (@nil (Z * Z))) with 0 in Hl. exists m, T1, k. do 3 (split; [done|]). split; [lia|]. intros H1. apply Hin, H1. }
    destruct Hp as (Hx & -> & Hp).
    assert (zlen ((node, off idx (k + 1)) :: p) = 1 + zlen p) as El by (unfold zlen; cbn [length]; lia). rewrite El in *.
    assert (off idx (k + 1) = (cell idx k).2 mod 64) as Eo by now rewrite cell_mod.
    assert (P !! up (cell idx k) = Some node) as Hup by now rewrite up_cell by lia.
    assert (0 <= zlen p) by (unfold zlen; lia).
    apply runs_bind. rewrite Eo. eapply runs_eq; [apply (tag_get_ok _ P T1 (cell idx k)); try done; cbn; lia|].
    assert ((tag, cell idx k) ∈ T -> (tag, cell idx k) ∈ T1) as Hstay.
    { intros H1. apply (c_set _ _ _ _ _ Hc). split; [done|]. intros (_ & j & Hj & E). apply cell_inj in E. lia. }
    destruct (bool_decide_reflect ((tag, cell idx k) ∈ T1)) as [Hyes|Hno]; cbn [Z.b2z Z.eqb].
    2: { apply runs_ret. destruct (decide (1 <= k)) as [Hk1|].
         - destruct Hin as [Hin _]; [done|]. destruct Hno. apply Hstay. replace k with (k - 1 + 1) by lia. rewrite <- up_cell by lia.
           apply (t_up _ _ _ Hg); [done|]. cbn. lia.
         - exists m, T1, k. do 3 (split; [done|]). left. split; [lia|]. replace k with 0 in * by lia. rewrite cell_0 in *. auto. }
    apply runs_bind. eapply runs_mono; [apply (tag_clear_ok _ P T1 (cell idx k)); try done; cbn; lia|].
    intros _ t2 (Hm2 & m2 & ->). cbv beta. set (T2 := T1 ∖ _) in *.
    assert (cleared tag idx (k + 1) T T2) as Hc2 by (apply cleared_step; [done|lia|apply Hin]).
    apply runs_bind. eapply runs_mono; [apply (any_tag_ok _ P T2 (cell idx (k + 1)) node tag); try done; cbn; lia|].
    intros r t3 (-> & Hr). cbv beta. destruct (Z.eqb_spec r 0) as [-> |Hnz]; cbn [negb]; apply runs_ret.
    + split; [|lia]. exists m2, T2, (k + 1). split; [done|]. split; [done|]. split; [done|]. split; [lia|]. split; [lia|]. split; [done|].
      intros _. split; [replace (k + 1 - 1) with k by lia; now apply (c_set _ _ _ _ _ Hc)|].
      intros i Hi Hki. assert (0 <> 0) by (apply Hr; eauto). done.
    + exists m2, T2, (k + 1). split; [done|]. split; [done|]. split; [done|]. right. split; [lia|]. now apply Hr.
Qed.

Lemma tag_clear_tree t P T idx tag : tree_ok t P T -> is_u32 idx -> 0 <= tag < 2 ->
  runs (radix_tree_tag_clear idx tag) t (fun r t' => r = default 0 (P !! (0, idx)) /\ rt_height t' = rt_height t /\ rnode t' = rnode t /\
    exists T', tree_ok t' P T' /\
    forall tag' p, (tag', (0, p)) ∈ T' <-> (tag', (0, p)) ∈ T /\ ~ (tag' = tag /\ p = idx)).
Proof.
  intros Hok Hi Ht. pose proof Hok as [Hm Hs Hg]. pose proof (m_height _ _ _ Hm) as H6.
  assert (P !! (0, idx) = None -> exists T', tree_ok t P T' /\
    forall tag' p, (tag', (0, p)) ∈ T' <-> (tag', (0, p)) ∈ T /\ ~ (tag' = tag /\ p = idx)) as Hsame.
  { intros Hn. exists T. split; [done|]. intros tag' p. split; [|now intros [? _]]. intros Hin. split; [done|]. intros [-> ->]. now apply (no_tag t P T) in Hin. }
  unfold radix_tree_tag_clear. apply runs_gets, runs_maxindex; [done|]. rewrite max_of_lt by done.
  destruct (Z.ltb_spec idx (64 ^ rt_height t)) as [Hlt|Hge]; cbn [negb].
  2: { apply runs_ret. pose proof (shape_high _ _ idx Hs ltac:(lia) Hge) as Hn. rewrite Hn. auto. }
  apply runs_gets, runs_bind. eapply runs_mono; [now apply (path_ok t P T idx)|]. intros x t' (-> & Hx). cbv beta.
  destruct x as [[path slot]|]; [|apply runs_ret; rewrite Hx; auto]. destruct Hx as (-> & Hpath & Hlen).
  pose proof (default_zero _ _ _ (0, idx) Hm ltac:(cbn; lia)) as Hd. rewrite Hd.
  destruct (bool_decide_reflect (is_Some (P !! (0, idx)))) as [[v Hv]|Hno]; cbn [negb].
  2: { apply runs_ret. apply eq_None_not_Some in Hno. auto. }
  apply runs_bind. eapply runs_mono; [now apply (clear_up_ok t P T idx tag path)|].
  intros top t' (m & T1 & k & -> & Hm1 & Hc & Htop). cbv beta.
  assert (forall T2 k, 1 <= k -> cleared tag idx k T T2 -> forall tag' p, (tag', (0, p)) ∈ T2 <-> (tag', (0, p)) ∈ T /\ ~ (tag' = tag /\ p = idx)) as Hset.
  { intros T2 k' H1 [C _] tag' p. rewrite C. split; intros [Hin Hne]; (split; [done|]).
    - intros [-> ->]. apply Hne. split; [done|]. exists 0. split; [lia|]. now rewrite cell_0.
    - intros (-> & j & Hj & E). assert (j = 0) as -> by now injection E. rewrite cell_0 in E. apply Hne. split; congruence. }
  destruct top.
  - destruct Htop as [-> Hkids]. pose proof (cell_top idx (rt_height t) ltac:(unfold is_u32 in Hi; lia)) as Ec.
    assert (cleared tag idx (rt_height t + 1) T (T1 ∖ {[(tag, cell idx (rt_height t))]})) as Hc2 by (apply cleared_step; [done|lia|done]).
    apply runs_bind. apply runs_mono with (P := fun _ t2 => rt_height t2 = rt_height t /\ rnode t2 = rnode t /\ mem_ok t2 P (T1 ∖ {[(tag, cell idx (rt_height t))]})).
    { destruct (root_tag_get_ok _ _ _ tag Hm1 Ht) as (w & Ew & Hw). apply runs_bind, (runs_eq _ _ _ _ _ Ew). rewrite Hw, Ec.
      destruct (bool_decide_reflect ((tag, (rt_height (with_nodes m t), 0)) ∈ T1)) as [Hyes|Hno]; cbn [negb].
      - eapply runs_mono; [now apply (root_tag_clear_ok _ P T1 tag Hm1)|]. intros _ t2 (Hm2 & g & ->). done.
      - apply runs_ret. split; [done|]. split; [done|]. assert (T1 ∖ {[(tag, (rt_height t, 0))]} = T1) as -> by (apply set_eq; set_solver). done. }
    intros _ t2 (E1 & E2 & Hm2). apply runs_ret. do 3 (split; [done|]). eexists. split; [|apply (Hset _ (rt_height t + 1)); [lia|done]].
    split; rewrite ?E1; [done|done|]. apply (cleared_tags_ok _ P T _ tag idx (rt_height t + 1)); [done|done|lia|done|lia].
  - apply runs_bind, runs_ret, runs_ret. do 3 (split; [done|]). exists T1. destruct Htop as [[-> Hno]|[Hk Hw]].
    + assert (T1 = T) as -> by (apply set_eq; intros [tag' y]; rewrite (c_set _ _ _ _ _ Hc); split; [now intros [? _]|];
        intros Hin; split; [done|]; intros (_ & j & Hj & _); lia).
      split; [split; done|]. intros tag' p. split; [|now intros [? _]]. intros Hin. split; [done|]. now intros [-> ->].
    + split; [|apply (Hset _ k); [lia|done]]. split; [done|done|]. apply (cleared_tags_ok _ P T _ tag idx k); [done|done|cbn; lia|done|done].
Qed.
