(* ===== verification/RadixDelete.v ===== *)
(** Deletion from a radix tree: the item, the nodes left empty, and the levels
    that are not needed any more. *)

From stdpp Require Import gmap.
From S2P Require Import Prelude.
From S2P Require Import Bits FindBit Bitmap BitmapFacts BitmapRemap State RadixTree RadixInv RadixMem RadixInsert RadixTags.

(** * Shrinking *)

Section Shrink.
Context (P : positions) (T : tagset) (H : Z).
Context (Hs : shape H P) (Hg : tags_ok H P T) (HH : 1 <= H) (Honly : forall i, 1 <= i < 64 -> P !! (H - 1, i) = None).

Definition shrunk : positions := delete (H, 0) P.
Definition shrunk_tags : tagset := T ∖ {[(0, (H, 0))]} ∖ {[(1, (H, 0))]}.

Lemma shrunk_in tag x : (tag, x) ∈ shrunk_tags <-> (tag, x) ∈ T /\ x <> (H, 0).
Proof.
  unfold shrunk_tags. rewrite !elem_of_difference, !elem_of_singleton. split.
  - intros [[Hin H0] H1]. split; [done|]. intros ->. destruct (t_in _ _ _ Hg _ _ Hin) as (Ht & _).
    assert (tag = 0 \/ tag = 1) as [-> | ->] by lia; done.
  - intros [Hin Hne]. split; [split; [done|]|]; congruence.
Qed.

Lemma below_top x a : P !! x = Some a -> x <> (H, 0) -> x.1 < H.
Proof.
  intros Hx Hne. destruct (s_range _ _ Hs _ _ Hx) as (Hr & _). destruct (decide (x.1 = H)) as [E|]; [|lia].
  destruct x as [h p]. cbn in E. subst h. pose proof (shape_top _ _ _ _ Hs Hx). now subst p.
Qed.

Lemma shrunk_shape : shape (H - 1) shrunk.
Proof.
  unfold shrunk. split.
  - intros x a [Hne Hx]%lookup_delete_Some. pose proof (below_top x a Hx (not_eq_sym Hne)) as Hlt.
    destruct (s_range _ _ Hs _ _ Hx) as (Hr & Hp & Hq). split; [lia|]. split; [|done]. destruct x as [h p]. cbn [fst snd] in *.
    pose proof (Z.pow_pos_nonneg 64 h ltac:(lia) ltac:(lia)) as H64.
    assert (cell (p * 64 ^ h) h = (h, p)) as Ec by (unfold cell; f_equal; apply Z.div_mul; lia).
    destruct (ancestor H P (p * 64 ^ h) h (H - 1) Hs) as [c Hc]; [lia|lia|rewrite Ec; eauto|]. unfold cell in Hc.
    set (q := p * 64 ^ h / 64 ^ (H - 1)) in *. destruct (s_range _ _ Hs _ _ Hc) as (_ & Hq1 & _). cbn in Hq1.
    replace (H - (H - 1)) with 1 in Hq1 by lia. assert (q = 0) as Eq.
    { destruct (decide (q = 0)); [done|]. rewrite Honly in Hc by lia. done. }
    pose proof (Z.pow_pos_nonneg 64 (H - 1) ltac:(lia) ltac:(lia)). apply Z.div_small_iff in Eq; [|lia]. destruct Eq as [Eq|]; [|lia].
    split; [lia|]. apply (Z.mul_lt_mono_pos_r (64 ^ h)); [lia|]. rewrite <- Z.pow_add_r by lia. replace (H - 1 - h + h) with (H - 1) by lia. lia.
  - intros x [a Ha] Hlt. apply lookup_delete_Some in Ha as [_ Ha]. destruct (s_up _ _ Hs x ltac:(eauto) ltac:(lia)) as [b Hb].
    exists b. apply lookup_delete_Some. split; [|done]. intros E. apply (f_equal fst) in E. cbn in E. lia.
Qed.

Lemma shrunk_tags_ok : tags_ok (H - 1) shrunk shrunk_tags.
Proof.
  split.
  - intros tag x [Hin Hne]%shrunk_in. destruct (t_in _ _ _ Hg _ _ Hin) as (Ht & a & Ha). split; [done|]. exists a. now apply lookup_delete_Some.
  - intros tag x [Hin Hne]%shrunk_in Hlt. apply shrunk_in. split; [apply (t_up _ _ _ Hg); [done|lia]|].
    intros E. apply (f_equal fst) in E. cbn in E. lia.
  - intros tag x [Hin Hne]%shrunk_in H1. destruct (t_down _ _ _ Hg _ _ Hin H1) as (i & Hi & Hk). exists i. split; [done|]. apply shrunk_in.
    split; [done|]. intros E. destruct (t_in _ _ _ Hg _ _ Hin) as (_ & c & Hc). pose proof (below_top _ _ Hc Hne). apply (f_equal fst) in E. cbn in E. lia.
Qed.

Lemma shrunk_root tag : (tag, (H - 1, 0)) ∈ shrunk_tags <-> (tag, (H, 0)) ∈ T.
Proof.
  rewrite shrunk_in. split.
  - intros [Hin _]. pose proof (t_up _ _ _ Hg _ _ Hin ltac:(cbn; lia)) as Hu. unfold up in Hu. cbn [fst snd] in Hu.
    change (0 / 64) with 0 in Hu. now replace (H - 1 + 1) with H in Hu by lia.
  - intros Hin. destruct (t_down _ _ _ Hg _ _ Hin HH) as (i & Hi & Hk). unfold kid in Hk. cbn [fst snd] in Hk. change (64 * 0 + i) with i in Hk.
    destruct (decide (i = 0)) as [-> |]; [split; [done|intros [=]; lia]|].
    destruct (t_in _ _ _ Hg _ _ Hk) as (_ & c & Hc). rewrite Honly in Hc by lia. done.
Qed.

Lemma shrunk_same : same_entries P shrunk T shrunk_tags.
Proof.
  split; [intros p; apply lookup_delete_ne; intros [=]; lia|]. intros tag p. rewrite shrunk_in. split; [now intros [? _]|].
  intros Hin. split; [done|]. intros [=]. lia.
Qed.

End Shrink.

(** A node with its first slot alone in use. *)
Lemma only_blank H P T x n : tags_ok H P T -> node_ok P T x n -> (forall i, 1 <= i < 64 -> P !! kid x i = None) -> blank n.
Proof.
  intros Hg [N1 N2 N3 N4 N5 N6 N7] Hk. split; [done| |done|].
  - intros i Hi. rewrite N3, Hk by lia. done.
  - intros tag Ht. destruct (N6 tag Ht). do 2 (split; [done|]). intros i Hi. rewrite N7 by lia. apply bool_decide_eq_false. intros Hin.
    destruct (t_in _ _ _ Hg _ _ Hin) as (_ & c & Hc). rewrite Hk in Hc by lia. done.
Qed.

Lemma shrink_mem t P T n a c : tree_ok t P T -> 1 <= rt_height t -> P !! (rt_height t, 0) = Some a -> nodes t !! a = Some n ->
  node_ok P T (rt_height t, 0) n -> (forall i, 1 <= i < 64 -> P !! (rt_height t - 1, i) = None) -> P !! (rt_height t - 1, 0) = Some c ->
  let t1 := Rt (rt_height t - 1) (gfp_mask t) (if 1 <? rt_height t then radix_tree_ptr_to_indirect c else c) (nodes t) (slab t) (preloads t) in
  tree_ok t1 (shrunk P (rt_height t)) (shrunk_tags T (rt_height t)) /\ apart t1 (shrunk P (rt_height t)) a.
Proof.
  intros [Hm Hs Hg] HH Ha Hn Hok Honly Hc. pose proof (m_height _ _ _ Hm) as H6.
  assert (forall x b, shrunk P (rt_height t) !! x = Some b -> P !! x = Some b /\ x <> (rt_height t, 0)) as Hin.
  { unfold shrunk. intros x b [Hne Hx]%lookup_delete_Some. done. }
  split; [split; cbn [rt_height]|].
  - apply (mem_ok_root t P T); [done|lia| | | | |done].
    + assert (shrunk P (rt_height t) !! (rt_height t - 1, 0) = Some c) as -> by (apply lookup_delete_Some; split; [intros [=]; lia|done]).
      destruct (Z.ltb_spec 1 (rt_height t)), (Z.eqb_spec (rt_height t - 1) 0); lia || done.
    + intros tag Ht. now apply (shrunk_root P).
    + intros p v [Hv _]%Hin. now apply (m_item _ _ _ Hm p).
    + intros x b [Hx Hne]%Hin H1. destruct (m_node _ _ _ Hm _ _ Hx H1) as (Hp & n' & Hn' & Hok').
      pose proof (below_top P (rt_height t) Hs x b Hx Hne) as Hlt.
      split; [|split; [|now left]].
      * split; [done|]. exists n'. split; [done|]. eapply node_ok_ext; [exact Hok'| |].
        -- intros i Hi. apply lookup_delete_ne. intros E. apply (f_equal fst) in E. cbn in E. lia.
        -- intros tag i Ht Hi. rewrite (shrunk_in P) by done. split; [now intros [? _]|]. intros Hki. split; [done|].
           intros E. apply (f_equal fst) in E. cbn in E. lia.
      * intros Hf. destruct (m_free _ _ _ Hm b Hf) as (_ & Hfree & _). now apply (Hfree x).
  - now apply shrunk_shape.
  - now apply (shrunk_tags_ok P).
  - split; [now apply (some_nonzero _ _ _ _ _ Hm Ha); cbn; lia|]. cbn [slab preloads]. split.
    + intros Hf. destruct (m_free _ _ _ Hm a Hf) as (_ & Hfree & _). now apply (Hfree (rt_height t, 0)).
    + intros x H1 [Hx Hne]%Hin. apply Hne, (m_inj _ _ _ Hm x _ a); done.
Qed.

Lemma shrink_ok t P T : tree_ok t P T -> is_Some (P !! (rt_height t, 0)) ->
  runs radix_tree_shrink t (fun _ t' => exists P' T', tree_ok t' P' T' /\ same_entries P P' T T').
Proof.
  intros Hok Hr. unfold radix_tree_shrink. pose proof (m_height _ _ _ (o_mem _ _ _ Hok)) as H6.
  apply (runs_while (fun _ t1 => exists P1 T1, tree_ok t1 P1 T1 /\ same_entries P P1 T T1 /\ is_Some (P1 !! (rt_height t1, 0)))
    (fun _ t1 => rt_height t1)).
  - now exists P, T.
  - change (Z.of_nat path_fuel) with 8. lia.
  - clear Hok Hr H6. intros [] t1 (P1 & T1 & Hok & Hse & [a Ha]). pose proof (m_height _ _ _ (o_mem _ _ _ Hok)) as H6. split; [lia|].
    apply runs_gets. destruct (Z.ltb_spec 0 (rt_height t1)) as [Hpos|]; [|apply runs_ret; eauto].
    apply runs_gets. pose proof (m_root _ _ _ (o_mem _ _ _ Hok)) as Er. rewrite Ha in Er.
    destruct (Z.eqb_spec (rt_height t1) 0) as [?|_]; [lia|]. rewrite Er, ptr_indirect. cbn [Z.eqb].
    destruct (m_node _ _ _ (o_mem _ _ _ Hok) _ _ Ha ltac:(cbn; lia)) as (Hpa & n & Hn & Hokn).
    rewrite ptr_roundtrip by (apply Hpa || now apply rt_ptr_u32). apply (runs_node_at _ n); [done|].
    destruct (Z.eqb_spec (nd_count n) 1) as [Ec|]; cbn [negb]; [|apply runs_ret; eauto].
    apply (runs_get_slot _ P1 T1 (rt_height t1, 0)); [apply Hok|done|cbn; lia|lia|].
    unfold kid. cbn [fst snd]. change (64 * 0 + 0) with 0. rewrite (default_zero _ _ _ _ (o_mem _ _ _ Hok)) by (cbn; lia).
    destruct (bool_decide_reflect (is_Some (P1 !! (rt_height t1 - 1, 0)))) as [[c Hc]|]; cbn [negb]; [|apply runs_ret; eauto].
    rewrite Hc. cbn [default from_option id].
    assert (forall i, 1 <= i < 64 -> P1 !! (rt_height t1 - 1, i) = None) as Honly.
    { intros i Hi. destruct (P1 !! (rt_height t1 - 1, i)) as [d|] eqn:Ed; [|done]. exfalso. rewrite (n_count _ _ _ _ Hokn) in Ec.
      assert (forall j, 0 <= j < 64 -> kid (rt_height t1, 0) j = (rt_height t1 - 1, j)) as Hkid by done.
      pose proof (n_slots _ _ _ _ Hokn 0 ltac:(lia)) as S0. pose proof (n_slots _ _ _ _ Hokn i ltac:(lia)) as Si.
      rewrite Hkid in S0, Si by lia. rewrite Hc in S0. rewrite Ed in Si. cbn in S0, Si.
      destruct (some_nonzero _ _ _ _ _ (o_mem _ _ _ Hok) Hc ltac:(cbn; lia)) as [? _].
      destruct (some_nonzero _ _ _ _ _ (o_mem _ _ _ Hok) Ed ltac:(cbn; lia)) as [? _].
      rewrite (used_one (nd_slots n) 0 Ec) in Si by (rewrite ?(n_len _ _ _ _ Hokn); lia). lia. }
    destruct (shrink_mem t1 P1 T1 n a c) as [Hok1 Hap]; try done; [lia|].
    apply runs_bind, runs_modify, runs_bind, runs_modify. cbn [rt_height gfp_mask rnode nodes slab preloads].
    rewrite u32_id by (unfold is_u32; lia). apply runs_bind.
    eapply runs_mono; [eapply (node_free_ok _ _ _ a n); [apply Hok1|exact Hap|exact Hn|]|].
    { eapply only_blank; [apply Hok|exact Hokn|]. intros i Hi. apply Honly, Hi. }
    intros _ t2 (Hm2 & E1 & _). apply runs_ret. cbn [rt_height] in E1. split; [|lia].
    eexists _, _. split; [split; [exact Hm2|rewrite E1; apply Hok1|rewrite E1; apply Hok1]|].
    split; [eapply same_entries_trans; [exact Hse|]; apply shrunk_same; try apply Hok; lia|]. exists c. rewrite E1. apply lookup_delete_Some. split; [intros [=]; lia|done].
Qed.

(** * The way back *)

(** An empty position leaves the tree. *)
Lemma tree_drop t P T x b n : tree_ok t P T -> 0 <= x.1 < rt_height t -> P !! up x = Some b -> nodes t !! b = Some n ->
  (forall i, 0 <= i < 64 -> P !! kid x i = None) -> (forall tag, (tag, x) ∉ T) ->
  tree_ok (with_nodes (<[b := put_slot n (x.2 mod 64) 0]> (nodes t)) t) (delete x P) T.
Proof.
  intros [Hm Hs Hg] Hx Hb Hn Hk Ht. split; cbn [rt_height with_nodes].
  - apply (mem_ok_slot t P T x b n None); done.
  - split.
    + intros y a [_ Hy]%lookup_delete_Some. now apply (s_range _ _ Hs) in Hy.
    + intros y [a Ha] Hlt. apply lookup_delete_Some in Ha as [Hne Ha]. destruct (s_up _ _ Hs y ltac:(eauto) Hlt) as [c Hc].
      exists c. apply lookup_delete_Some. split; [|done]. intros ->. rewrite <- (kid_up y), Hk in Ha by apply mod64. done.
  - destruct Hg as [G1 G2 G3]. split; try done. intros tag y Hin. destruct (G1 _ _ Hin) as (Htag & a & Ha). split; [done|].
    exists a. apply lookup_delete_Some. split; [|done]. intros ->. now apply (Ht tag).
Qed.

Lemma no_kid_tags H P T x : tags_ok H P T -> 1 <= x.1 -> (forall i, 0 <= i < 64 -> P !! kid x i = None) -> forall tag, (tag, x) ∉ T.
Proof.
  intros Hg H1 Hk tag Hin. destruct (t_down _ _ _ Hg _ _ Hin H1) as (i & Hi & Hki).
  destruct (t_in _ _ _ Hg _ _ Hki) as (_ & c & Hc). rewrite Hk in Hc by done. done.
Qed.

(** A slot in use becomes NULL and the count follows. *)
Lemma empty_ok t P T x a n i c : nodes t !! a = Some n -> node_ok P T x n -> 0 <= i < 64 -> P !! kid x i = Some c -> c <> 0 ->
  forall (B : Type) (k : RM B) Q, runs k (with_nodes (<[a := put_slot n i 0]> (nodes t)) t) Q ->
  runs (set_slot a i 0;; m ← node_at a; set_count a (u32 (nd_count m - 1));; k) t Q.
Proof.
  intros Hn Hok Hi Hc Hc0 B k Q HQ. apply runs_bind, (set_slot_run a i Hi 0 n); [done|apply Hok|]. eapply runs_node_at; [apply lookup_insert_eq|].
  apply runs_bind. eapply set_count_run; [apply lookup_insert_eq|]. cbn [nd_count nd_slots nd_tags nd_height with_nodes nodes].
  rewrite insert_insert_eq. assert (u32 (nd_count n - 1) = used (<[Z.to_nat i := 0]> (nd_slots n))) as ->; [|exact HQ].
  pose proof (used_bound (<[Z.to_nat i := 0]> (nd_slots n))) as Hb. rewrite zlen_insert, (n_len _ _ _ _ Hok) in Hb.
  pose proof (used_set (nd_slots n) i 0 ltac:(rewrite (n_len _ _ _ _ Hok); lia)) as Hu.
  rewrite (n_slots _ _ _ _ Hok i Hi), Hc in Hu. cbn [default from_option id] in Hu. destruct (Z.eqb_spec c 0); [done|].
  change (0 =? 0) with true in Hu. cbv iota in Hu. rewrite (n_count _ _ _ _ Hok), u32_id; [lia|unfold is_u32; lia].
Qed.

Lemma path_at_delete P idx k j path : j < k -> path_at P idx k path -> path_at (delete (cell idx j) P) idx k path.
Proof.
  revert k. induction path as [|[node offset] path IH]; intros k Hj; [done|]. intros (Hx & Ho & Hp). split; [|split; [done|apply IH; [lia|done]]].
  rewrite lookup_delete_ne; [done|]. intros E%cell_inj. lia.
Qed.

(** Nothing of the tree [P] but [idx] has changed. *)
Definition entries_without (P P1 : positions) (idx : Z) : Prop := forall p, P1 !! (0, p) = delete (0, idx) P !! (0, p).

(** At height [k] of the way back, with [to_free] below. *)
Definition draining (P : positions) (T : tagset) (idx H k : Z) (path : list (Z * Z)) (to_free : Z) (t1 : radix_tree) (P1 : positions) : Prop :=
  tree_ok t1 P1 T /\ rt_height t1 = H /\ 1 <= k /\ zlen path = H + 1 - k /\ path_at P1 idx k path /\
  (forall i, 0 <= i < 64 -> P1 !! kid (cell idx (k - 1)) i = None) /\
  if k =? 1 then to_free = 0 /\ P1 = P else P1 !! cell idx (k - 1) = Some to_free /\ entries_without P P1 idx.

Lemma free_below t P T x a n : tree_ok t P T -> apart t P a -> nodes t !! a = Some n -> blank n ->
  runs (radix_tree_node_free a) t (fun _ t' => tree_ok t' P T /\ rt_height t' = rt_height t /\ rnode t' = rnode t /\ (x <> a -> nodes t' !! x = nodes t !! x)).
Proof.
  intros [Hm Hs Hg] Hap Hn Hb. eapply runs_mono; [now apply (node_free_ok t P T a n)|]. intros _ t' (Hm' & E1 & E2 & _ & Hsame).
  split; [split; [done|now rewrite E1|now rewrite E1]|]. auto.
Qed.

Lemma drop_step P T idx H k node path to_free t1 P1 :
  draining P T idx H k ((node, off idx k) :: path) to_free t1 P1 -> is_Some (P !! (0, idx)) -> (forall tag, (tag, (0, idx)) ∉ T) ->
  forall (B : Type) (f : RM B) Q,
  (forall t2 P2, tree_ok t2 P2 T -> rt_height t2 = H -> P2 !! cell idx k = Some node -> path_at P2 idx (k + 1) path ->
     entries_without P P2 idx -> runs f t2 Q) ->
  runs (set_slot node (off idx k) 0;;
        n ← node_at node;
        set_count node (u32 (nd_count n - 1));;
        (if negb (to_free =? 0) then radix_tree_node_free to_free else mret tt);;
        f) t1 Q.
Proof.
  intros (Hok & EH & Hk & Hlen & Hpath & Hkids & Hc) [v Hv] Htag B f Q Hf. destruct Hpath as (Hx & _ & Hpath).
  pose proof Hok as [Hm Hs Hg]. pose proof (m_height _ _ _ Hm) as H6. unfold zlen in Hlen. rewrite length_cons in Hlen.
  set (x := cell idx (k - 1)) in *. assert (P1 !! up x = Some node) as Hup by (unfold x; rewrite up_cell by lia; now replace (k - 1 + 1) with k by lia).
  assert (up x = cell idx k) as Eup by (unfold x; rewrite up_cell by lia; now replace (k - 1 + 1) with k by lia).
  destruct (m_node _ _ _ Hm _ _ Hx ltac:(cbn; lia)) as (Hpn & n & Hn & Hokn).
  pose proof (kid_cell idx k Hk : kid (cell idx k) (off idx k) = x) as Ek.
  assert (exists c, P1 !! x = Some c /\ rt_ptr c /\ (k <> 1 -> c = to_free)) as (c & Hxc & Hpc & Efree).
  { destruct (Z.eqb_spec k 1) as [-> |Hne].
    - destruct Hc as [-> ->]. exists v. unfold x. change (1 - 1) with 0. rewrite cell_0. split; [done|]. split; [now apply (m_item _ _ _ Hm idx)|done].
    - destruct Hc as [Hc _]. exists to_free. split; [done|]. split; [|done]. apply (some_nonzero _ _ _ _ _ Hm Hc). cbn. lia. }
  assert (forall tag, (tag, x) ∉ T) as Hxt.
  { destruct (decide (k = 1)) as [-> |]; [unfold x; change (1 - 1) with 0; now rewrite cell_0|].
    apply (no_kid_tags _ P1 T x Hg); [cbn; lia|done]. }
  apply (empty_ok t1 P1 T (cell idx k) node n (off idx k) c); [done|done|apply off_range|now rewrite Ek|destruct Hpc; lia|].
  assert (off idx k = x.2 mod 64) as Eo by (unfold x; rewrite cell_mod; f_equal; lia).
  pose proof (tree_drop t1 P1 T x node n Hok ltac:(cbn; lia) Hup Hn Hkids Hxt) as Hok2. rewrite <- Eo in Hok2.
  set (t2 := with_nodes _ t1) in *.
  assert (path_at (delete x P1) idx (k + 1) path) as Hp2 by (apply path_at_delete; [lia|done]).
  assert (delete x P1 !! cell idx k = Some node) as Hx2 by (apply lookup_delete_Some; split; [intros E%cell_inj; lia|done]).
  destruct (Z.eqb_spec k 1) as [-> |Hne].
  - destruct Hc as [-> ->]. cbn [Z.eqb negb]. apply runs_bind, runs_ret. apply (Hf _ _ Hok2); try done.
    unfold x. change (1 - 1) with 0. now rewrite cell_0.
  - destruct Hc as [Hxf Hent]. specialize (Efree Hne). subst c. destruct (Z.eqb_spec to_free 0); [destruct Hpc; lia|]. cbn [negb].
    destruct (m_node _ _ _ Hm _ _ Hxf ltac:(cbn; lia)) as (_ & nf & Hnf & Hokf).
    assert (node <> to_free) as Hdiff.
    { intros ->. assert (cell idx k = x) as E%cell_inj; [|lia]. apply (m_inj _ _ _ Hm _ _ to_free); try done; cbn; lia. }
    apply runs_bind. eapply runs_mono; [apply (free_below t2 (delete x P1) T node to_free nf); [done| | |]|].
    + split; [done|]. split; cbn [slab preloads with_nodes t2].
      * intros Hin. destruct (m_free _ _ _ Hm _ Hin) as (_ & Hfree & _). apply (Hfree x); [cbn; lia|done].
      * intros y H1 [Hne' Hy]%lookup_delete_Some. apply Hne', (m_inj _ _ _ Hm _ _ to_free); try done; cbn; lia.
    + cbn [nodes with_nodes t2]. now rewrite lookup_insert_ne.
    + eapply only_blank; [exact Hg|exact Hokf|]. intros i Hi. apply Hkids. lia.
    + intros _ t3 (Hok3 & E1 & _ & _). apply (Hf _ _ Hok3); [now rewrite E1|done|done|].
      intros p. rewrite lookup_delete_ne by (unfold x, cell; intros [=]; lia). apply Hent.
Qed.

Definition drained (P : positions) (T : tagset) (idx H : Z) (f : option Z) (t' : radix_tree) : Prop :=
  match f with
  | None => exists P' T', tree_ok t' P' T' /\ entries_without P P' idx /\ forall tag p, (tag, (0, p)) ∈ T' <-> (tag, (0, p)) ∈ T
  | Some to_free => exists P1, tree_ok t' P1 T /\ rt_height t' = H /\ P1 !! (H, 0) = Some to_free /\
      (forall i, 0 <= i < 64 -> P1 !! kid (H, 0) i = None) /\ entries_without P P1 idx
  end.

Lemma kids_of_empty t P T x a n : mem_ok t P T -> P !! x = Some a -> nodes t !! a = Some n -> 1 <= x.1 -> nd_count n = 0 ->
  forall i, 0 <= i < 64 -> P !! kid x i = None.
Proof.
  intros Hm Hx Hn H1 Hc i Hi. destruct (m_node _ _ _ Hm _ _ Hx H1) as (_ & n' & Hn' & Hok). assert (n' = n) as -> by congruence.
  rewrite (n_count _ _ _ _ Hok) in Hc. pose proof (used_zero _ Hc i) as Hz. rewrite (n_len _ _ _ _ Hok), (n_slots _ _ _ _ Hok) in Hz by done.
  specialize (Hz Hi). apply Z.eqb_eq in Hz. rewrite (default_zero _ _ _ _ Hm) in Hz by (cbn; lia). apply eq_None_not_Some.
  destruct (bool_decide_reflect (is_Some (P !! kid x i))); done.
Qed.

Lemma delete_up_ok t P T idx path : tree_ok t P T -> is_u32 idx -> idx < 64 ^ rt_height t -> 1 <= rt_height t -> is_Some (P !! (0, idx)) ->
  (forall tag, (tag, (0, idx)) ∉ T) -> path_at P idx 1 path -> zlen path = rt_height t ->
  runs (while path_fuel delete_up (path, 0)) t (drained P T idx (rt_height t)).
Proof.
  intros Hok Hi Hlt HH Hv Htag Hpath Hlen. pose proof (m_height _ _ _ (o_mem _ _ _ Hok)) as H6.
  apply (runs_while (fun '(path, to_free) t1 => exists k P1, draining P T idx (rt_height t) k path to_free t1 P1) (fun '(path, _) _ => zlen path)).
  - exists 1, P. split; [done|]. split; [done|]. do 2 (split; [lia|]). split; [done|]. split; [|done].
    intros i Hi'. destruct (P !! kid (cell idx (1 - 1)) i) eqn:E; [|done]. destruct (s_range _ _ (o_shape _ _ _ Hok) _ _ E) as (Hr & _). cbn in Hr. lia.
  - change (Z.of_nat path_fuel) with 8. lia.
  - intros [p to_free] t1 (k & P1 & Hdr). split; [unfold zlen; lia|]. destruct p as [|[node offset] p]; cbn [delete_up].
    + apply runs_ret. destruct Hdr as (Hok1 & E1 & Hk & Hl & _ & Hkids & Hc). change (zlen (@nil (Z * Z))) with 0 in Hl.
      replace (k - 1) with (rt_height t) in * by lia. rewrite cell_top in * by (unfold is_u32 in Hi; lia).
      destruct (Z.eqb_spec k 1); [lia|]. destruct Hc as [Hx He]. now exists P1.
    + pose proof Hdr as (_ & _ & Hk & Hl & (_ & Eo & _) & _ & _). subst offset. assert (k <= rt_height t) as Hk6 by (unfold zlen in Hl; rewrite length_cons in Hl; lia).
      apply (drop_step P T idx (rt_height t) k node p to_free t1 P1 Hdr Hv Htag). intros t2 P2 Hok2 E2 Hx2 Hp2 Hent.
      destruct (m_node _ _ _ (o_mem _ _ _ Hok2) _ _ Hx2 ltac:(cbn; lia)) as (Hpn & n & Hn & Hokn).
      apply (runs_node_at _ n); [done|]. destruct (Z.eqb_spec (nd_count n) 0) as [Ec|Enz]; cbn [negb].
      * apply runs_ret. split; [|unfold zlen; rewrite length_cons; lia]. exists (k + 1), P2. split; [done|]. split; [done|]. split; [lia|].
        split; [unfold zlen in *; rewrite length_cons in Hl; lia|]. split; [done|]. replace (k + 1 - 1) with k by lia.
        split; [apply (kids_of_empty t2 P2 T _ node n); [apply Hok2|done|done|cbn; lia|done]|]. destruct (Z.eqb_spec (k + 1) 1); [lia|done].
      * apply runs_gets. rewrite (root_ptr _ _ _ (o_mem _ _ _ Hok2)). apply runs_bind.
        destruct (Z.eqb_spec node (default 0 (P2 !! (rt_height t2, 0)))) as [En|_].
        -- eapply runs_mono; [apply (shrink_ok t2 P2 T Hok2)|].
           { destruct (P2 !! (rt_height t2, 0)); [eauto|]. cbn in En. subst node. destruct Hpn; lia. }
           intros _ t3 (P3 & T3 & Hok3 & [Hs1 Hs2]). apply runs_ret. exists P3, T3. split; [done|]. split; [|done]. intros p'. now rewrite Hs1.
        -- apply runs_ret, runs_ret. exists P2, T. done.
Qed.

(** * The whole deletion *)

Lemma clear_all_empty t T : tree_ok t ∅ T -> tree_ok (with_gfp (Z.land (gfp_mask t) __GFP_BITS_MASK) t) ∅ ∅.
Proof.
  intros [Hm Hs Hg]. pose proof (tags_none _ _ Hg) as ->. split; cbn [rt_height with_gfp]; [|apply shape_none|done].
  apply (mem_ok_gfp t ∅ ∅); [done|done|apply land_u32; [apply Hm|unfold is_u32; vm_compute; split; congruence]| |done].
  intros tag Ht. rewrite clear_all_bits by lia. symmetry. apply bool_decide_eq_false. set_solver.
Qed.

(** Without children the root is all there is. *)
Lemma lone_root H P a : shape H P -> 1 <= H -> P !! (H, 0) = Some a -> (forall i, 0 <= i < 64 -> P !! kid (H, 0) i = None) -> P = {[(H, 0) := a]}.
Proof.
  intros Hs HH Ha Hk. apply map_eq. intros [h p]. destruct (decide ((H, 0) = (h, p))) as [<- |Hne]; [now rewrite lookup_singleton_eq|].
  rewrite lookup_singleton_ne by done. destruct (P !! (h, p)) as [c|] eqn:Hc; [|done]. exfalso.
  pose proof (below_top P H Hs (h, p) c Hc (not_eq_sym Hne)) as Hlt. cbn in Hlt. destruct (s_range _ _ Hs _ _ Hc) as (Hr & Hp & _). cbn [fst snd] in *.
  pose proof (Z.pow_pos_nonneg 64 h ltac:(lia) ltac:(lia)) as H64.
  assert (cell (p * 64 ^ h) h = (h, p)) as Ec by (unfold cell; f_equal; apply Z.div_mul; lia).
  destruct (ancestor H P (p * 64 ^ h) h (H - 1) Hs) as [d Hd]; [lia|lia|rewrite Ec; eauto|].
  destruct (s_range _ _ Hs _ _ Hd) as (_ & Hq & _). cbn in Hq. replace (H - (H - 1)) with 1 in Hq by lia.
  unfold cell in Hd. specialize (Hk _ Hq). unfold kid in Hk. cbn [fst snd] in Hk. change (64 * 0) with 0 in Hk. rewrite Z.add_0_l in Hk. congruence.
Qed.

Lemma delete_root_ok t P T a : tree_ok t P T -> 1 <= rt_height t -> P !! (rt_height t, 0) = Some a ->
  (forall i, 0 <= i < 64 -> P !! kid (rt_height t, 0) i = None) ->
  runs (root_tag_clear_all;; set_rheight 0;; set_rnode 0;; (if negb (a =? 0) then radix_tree_node_free a else mret tt)) t
    (fun _ t' => tree_ok t' ∅ ∅).
Proof.
  intros Hok HH Ha Hk. pose proof Hok as [Hm Hs Hg]. pose proof (lone_root _ _ _ Hs HH Ha Hk) as EP.
  destruct (m_node _ _ _ Hm _ _ Ha HH) as (Hpa & n & Hn & Hokn).
  assert (T = ∅) as ET.
  { apply set_eq. intros [tag x]. split; [|set_solver]. intros Hin. destruct (t_in _ _ _ Hg _ _ Hin) as (_ & c & Hc). rewrite EP in Hc.
    apply lookup_singleton_Some in Hc as [<- _]. now apply (no_kid_tags _ P T (rt_height t, 0) Hg HH Hk tag) in Hin. }
  unfold root_tag_clear_all. apply runs_bind, runs_gets, runs_modify, runs_bind, runs_modify, runs_bind, runs_modify.
  cbn [rt_height gfp_mask rnode nodes slab preloads]. destruct (Z.eqb_spec a 0); [destruct Hpa; lia|]. cbn [negb].
  assert (tree_ok (Rt 0 (Z.land (gfp_mask t) __GFP_BITS_MASK) 0 (nodes t) (slab t) (preloads t)) ∅ ∅) as Hok1.
  { apply (clear_all_empty (Rt 0 (gfp_mask t) 0 (nodes t) (slab t) (preloads t)) ∅). split; cbn [rt_height]; [|apply shape_none|split; set_solver].
    apply (mem_ok_root t P T ∅ ∅); try done; try lia. rewrite ET. set_solver. }
  eapply runs_mono; [apply (free_below _ ∅ ∅ 0 a n Hok1); try done|].
  - split; [done|]. split; [|intros; now rewrite lookup_empty]. intros Hin. destruct (m_free _ _ _ Hm _ Hin) as (_ & Hfree & _). now apply (Hfree (rt_height t, 0)).
  - eapply only_blank; [exact Hg|exact Hokn|]. intros i Hi. apply Hk. lia.
  - now intros _ t' [Hok' _].
Qed.

(** A tree of height 0. *)
Lemma delete_direct t P T : tree_ok t P T -> rt_height t = 0 ->
  runs (root_tag_clear_all;; set_rnode 0) t (fun _ t' => tree_ok t' ∅ ∅ /\ forall p, p <> 0 -> P !! (0, p) = None).
Proof.
  intros [Hm Hs Hg] E. pose proof (m_height _ _ _ Hm) as H6. rewrite E in *.
  assert (forall x c, P !! x = Some c -> x = (0, 0)) as Hone.
  { intros [h p] c Hc. destruct (s_range _ _ Hs _ _ Hc) as (Hr & _). cbn in Hr. replace h with 0 in * by lia. now rewrite (shape_top _ _ _ _ Hs Hc). }
  unfold root_tag_clear_all. apply runs_bind, runs_gets, runs_modify, runs_modify. cbn [rt_height gfp_mask rnode nodes slab preloads].
  split; [|intros p Hp; destruct (P !! (0, p)) eqn:Ep; [apply Hone in Ep; congruence|done]].
  set (g := Z.land (gfp_mask t) __GFP_BITS_MASK).
  assert (mem_ok (with_gfp g t) P ∅) as Hm1.
  { apply (mem_ok_gfp t P T); [done|now rewrite E|apply land_u32; [apply Hm|unfold is_u32; vm_compute; split; congruence]| |].
    - intros tag Ht. unfold g. rewrite clear_all_bits by lia. symmetry. apply bool_decide_eq_false. set_solver.
    - intros tag x Ht Hx. split; [set_solver|]. intros Hin. destruct (t_in _ _ _ Hg _ _ Hin) as (_ & c & Hc). apply Hone in Hc. congruence. }
  split; cbn [rt_height]; [|apply shape_none|split; set_solver].
  apply (mem_ok_root (with_gfp g t) P ∅ ∅ ∅); try done. lia.
Qed.

Lemma clear_tags_ok t P T idx node path : tree_ok t P T -> is_u32 idx -> 1 <= rt_height t -> P !! cell idx 1 = Some node ->
  runs (while 3 (fun tag =>
        if tag <? RADIX_TREE_MAX_TAGS then
          (match (node, off idx 1) :: path with
           | (node, offset) :: _ =>
               t ← tag_get node tag offset;
               if negb (t =? 0) then radix_tree_tag_clear idx tag;; mret tt else mret tt
           | [] => fail OutOfBounds
           end);;
          mret (inl (tag + 1))
        else mret (inr tt)) 0) t
    (fun _ t' => rt_height t' = rt_height t /\ exists T', tree_ok t' P T' /\
       forall tag p, (tag, (0, p)) ∈ T' <-> (tag, (0, p)) ∈ T /\ p <> idx).
Proof.
  intros Hok Hi HH Hx. change RADIX_TREE_MAX_TAGS with 2.
  apply (runs_while (fun k t1 => 0 <= k <= 2 /\ rt_height t1 = rt_height t /\ exists T1, tree_ok t1 P T1 /\
     forall tag p, (tag, (0, p)) ∈ T1 <-> (tag, (0, p)) ∈ T /\ ~ (0 <= tag < k /\ p = idx)) (fun k _ => 2 - k)).
  - split; [lia|]. split; [done|]. exists T. split; [done|]. intros tag p. split; [|now intros [? _]]. intros Hin. split; [done|]. lia.
  - lia.
  - intros k t1 (Hk & E1 & T1 & Hok1 & HT). split; [lia|]. destruct (Z.ltb_spec k 2) as [Hlt|Hge].
    2: { apply runs_ret. split; [done|]. exists T1. split; [done|]. intros tag p. rewrite HT. split; intros [Hin Hne]; (split; [done|]).
         - intros ->. destruct (t_in _ _ _ (o_tags _ _ _ Hok) _ _ Hin) as (Ht & _). apply Hne. lia.
         - now intros [_ ->]. }
    apply runs_bind, runs_bind. change (off idx 1) with (off idx (0 + 1)). rewrite <- cell_mod.
    eapply runs_eq; [apply (tag_get_ok t1 P T1 (cell idx 0)); [apply Hok1|cbn; lia|now rewrite up_cell by lia|lia]|].
    rewrite cell_0. destruct (bool_decide_reflect ((k, (0, idx)) ∈ T1)) as [Hin|Hno]; cbn [Z.b2z Z.eqb negb].
    + apply runs_bind. eapply runs_mono; [apply (tag_clear_tree t1 P T1 idx k Hok1 Hi); lia|].
      intros _ t2 (_ & E2 & _ & T2 & Hok2 & HT2). apply runs_ret, runs_ret. split; [|lia]. split; [lia|]. split; [congruence|]. exists T2. split; [done|].
      intros tag p. rewrite HT2, HT. split.
      * intros [[Hin0 Hne] Hne']. split; [done|]. intros [Ht ->]. destruct (decide (tag = k)) as [-> |]; [now apply Hne'|]. apply Hne. split; [lia|done].
      * intros [Hin0 Hne]. split; [split; [done|]|]; intros [? ->]; apply Hne; (split; [lia|done]).
    + apply runs_ret, runs_ret. split; [|lia]. split; [lia|]. split; [done|]. exists T1. split; [done|]. intros tag p. split.
      * intros Hin. pose proof (proj1 (HT tag p) Hin) as [Hin0 Hne]. split; [done|]. intros [Ht ->].
        destruct (decide (tag = k)) as [-> |]; [done|]. apply Hne. split; [lia|done].
      * intros [Hin Hne]. apply HT. split; [done|]. intros [Ht ->]. apply Hne. split; [lia|done].
Qed.

Lemma delete_ok t P T idx : tree_ok t P T -> is_u32 idx ->
  runs (radix_tree_delete idx) t (fun r t' => r = default 0 (P !! (0, idx)) /\ exists P' T', tree_ok t' P' T' /\ entries_without P P' idx /\
    forall tag p, (tag, (0, p)) ∈ T' <-> (tag, (0, p)) ∈ T /\ p <> idx).
Proof.
  intros Hok Hi. pose proof Hok as [Hm Hs Hg]. pose proof (m_height _ _ _ Hm) as H6.
  assert (P !! (0, idx) = None -> exists P' T', tree_ok t P' T' /\ entries_without P P' idx /\
    forall tag p, (tag, (0, p)) ∈ T' <-> (tag, (0, p)) ∈ T /\ p <> idx) as Hsame.
  { intros Hn. exists P, T. split; [done|]. split; [intros p; now rewrite delete_id|].
    intros tag p. split; [|now intros [? _]]. intros Hin. split; [done|]. intros ->. now apply (no_tag t P T) in Hin. }
  unfold radix_tree_delete. apply runs_gets, runs_maxindex; [done|]. rewrite max_of_lt by done.
  destruct (Z.ltb_spec idx (64 ^ rt_height t)) as [Hlt|Hge]; cbn [negb].
  2: { apply runs_ret. pose proof (shape_high _ _ idx Hs ltac:(lia) Hge) as Hn. rewrite Hn. auto. }
  apply runs_gets. destruct (Z.eqb_spec (rt_height t) 0) as [E0|E0].
  - rewrite E0 in Hlt. change (64 ^ 0) with 1 in Hlt. replace idx with 0 in * by (unfold is_u32 in Hi; lia).
    pose proof (m_root _ _ _ Hm) as Er. rewrite E0 in Er. cbn [Z.eqb] in Er.
    apply runs_bind_assoc, runs_bind. eapply runs_mono; [now apply (delete_direct t P T)|]. intros _ t' [Hok' Hnone]. apply runs_ret.
    split; [rewrite Er; now destruct (P !! (0, 0))|]. exists ∅, ∅. split; [done|]. split.
    + intros p. rewrite lookup_empty. destruct (decide (p = 0)) as [-> |Hp]; [now rewrite lookup_delete_eq|]. rewrite lookup_delete_ne by congruence. symmetry. auto.
    + intros tag p. split; [set_solver|]. intros [Hin Hp]. destruct (t_in _ _ _ Hg _ _ Hin) as (_ & c & Hc). rewrite Hnone in Hc by done. done.
  - apply runs_bind. eapply runs_mono; [now apply (path_ok t P T idx)|]. intros x t' (-> & Hx). cbv beta.
    destruct x as [[path slot]|]; [|apply runs_ret; rewrite Hx; auto]. destruct Hx as (-> & Hpath & Hlen).
    rewrite (default_zero _ _ _ (0, idx) Hm) by (cbn; lia).
    destruct (bool_decide_reflect (is_Some (P !! (0, idx)))) as [[v Hv]|Hno]; cbn [negb].
    2: { apply runs_ret. apply eq_None_not_Some in Hno. auto. }
    destruct path as [|[node offset] path]; [change (zlen (@nil (Z * Z))) with 0 in Hlen; lia|]. pose proof Hpath as (Hx & -> & _).
    apply runs_bind. eapply runs_mono; [apply (clear_tags_ok t P T idx node path); try done; lia|].
    intros _ t1 (E1 & T1 & Hok1 & HT1). cbv beta. apply runs_bind. eapply runs_mono.
    { apply (delete_up_ok t1 P T1 idx); try done; rewrite ?E1; eauto; [lia|]. intros tag Hin. now apply HT1 in Hin as [_ ?]. }
    intros f t2 Hf. cbv beta. destruct f as [to_free|].
    + destruct Hf as (P2 & Hok2 & E2 & Hr & Hk & Hent). rewrite <- E2 in Hr, Hk.
      apply runs_bind_assoc, runs_bind_assoc, runs_bind_assoc, runs_bind. rewrite <- !runs_bind_assoc.
      eapply runs_mono; [apply (delete_root_ok t2 P2 T1 to_free Hok2); [lia|done|done]|].
      intros u t3 Hok3. cbv beta in Hok3. apply runs_ret. split; [done|]. exists ∅, ∅. split; [done|].
      pose proof (lone_root _ _ _ (o_shape _ _ _ Hok2) ltac:(lia) Hr Hk) as EP. split.
      * intros p. rewrite <- Hent, EP, lookup_singleton_ne by (intros [=]; lia). done.
      * intros tag p. rewrite <- HT1. split; [set_solver|]. intros Hin. destruct (t_in _ _ _ (o_tags _ _ _ Hok2) _ _ Hin) as (_ & c & Hc).
        rewrite EP, lookup_singleton_ne in Hc by (intros [=]; lia). done.
    + destruct Hf as (P2 & T2 & Hok2 & Hent & HT2). apply runs_ret. split; [done|]. exists P2, T2. split; [done|]. split; [done|].
      intros tag p. now rewrite HT2, HT1.
Qed.
