(* ===== verification/RadixScan.v ===== *)
(** Scans of a radix tree: the search for holes, and the gang lookups. *)

From stdpp Require Import gmap.
From S2P Require Import Prelude.
From S2P Require Import Bits FindBit Bitmap BitmapFacts BitmapRemap State RadixTree RadixInv RadixMem RadixInsert RadixTags.

(** * How many entries and nodes there are *)

Lemma NoDup_map_inj {A B} (f : A -> B) l : (forall x y, x ∈ l -> y ∈ l -> f x = f y -> x = y) -> NoDup l -> NoDup (f <$> l).
Proof.
  intros Hinj Hd. induction Hd as [|x l Hx Hd IH]; [apply NoDup_nil_2|]. cbn. apply list.NoDup_cons. split.
  - intros Hin. apply list_elem_of_fmap in Hin as (y & E & Hy). apply Hx. rewrite (Hinj x y); [done|left|now right|done].
  - apply IH. intros. apply Hinj; [now right|now right|done].
Qed.

Lemma entries_bound t P T l : mem_ok t P T -> shape (rt_height t) P -> NoDup l -> (forall p, p ∈ l -> is_Some (P !! (0, p))) ->
  (length l <= 64 * size (nodes t) + 1)%nat.
Proof.
  intros Hm Hs Hd Hin. pose proof (m_height _ _ _ Hm) as H6. destruct (decide (rt_height t = 0)) as [E0|E0].
  - assert (l ⊆+ [0]) as Hsub%submseteq_length; [|cbn in Hsub; lia]. apply NoDup_submseteq; [done|]. intros p Hp.
    destruct (Hin p Hp) as [v Hv]. rewrite E0 in Hs. rewrite (shape_top _ _ _ _ Hs Hv). left.
  - set (f := fun p => (default 0 (P !! up (0, p)), p mod 64)).
    assert (forall p, p ∈ l -> exists a, P !! up (0, p) = Some a) as Hup by (intros p Hp; apply (s_up _ _ Hs); [auto|cbn; lia]).
    assert (f <$> l ⊆+ a ← elements (dom (nodes t)); i ← seqZ 0 64; [(a, i)]) as Hsub%submseteq_length.
    { apply NoDup_submseteq.
      - apply NoDup_map_inj; [|done]. intros p q Hp Hq [= E1 E2]. destruct (Hup p Hp) as [a Ha]. destruct (Hup q Hq) as [b Hb].
        rewrite Ha, Hb in E1. cbn in E1. subst b. pose proof (m_inj _ _ _ Hm _ _ a Ha Hb ltac:(cbn; lia) ltac:(cbn; lia)) as [= E].
        rewrite (Z.div_mod p 64), (Z.div_mod q 64) by lia. congruence.
      - intros [a i] Hai. apply list_elem_of_fmap in Hai as (p & [= -> ->] & Hp). destruct (Hup p Hp) as [a Ha]. rewrite Ha. cbn [default from_option id].
        apply list_elem_of_bind. exists a. split; [|destruct (m_node _ _ _ Hm _ _ Ha ltac:(cbn; lia)) as (_ & n & Hn & _); now apply elem_of_elements, elem_of_dom].
        apply list_elem_of_bind. exists (p mod 64). split; [now left|]. apply elem_of_seqZ. pose proof (mod64 p). lia. }
    assert (forall k : list Z, length (a ← k; i ← seqZ 0 64; [(a, i)]) = (64 * length k)%nat) as Hlen.
    { induction k as [|a k IH]; [done|]. rewrite bind_cons, length_app, IH. assert (length (i ← seqZ 0 64; [(a, i)]) = 64%nat) as -> by reflexivity.
      rewrite length_cons. lia. }
    rewrite length_fmap, Hlen in Hsub. rewrite <- (size_dom (nodes t)). change (size (dom (nodes t))) with (length (elements (dom (nodes t)))). lia.
Qed.

(** * Holes *)

Lemma next_hole_ok t P T idx max_scan : mem_ok t P T -> shape (rt_height t) P -> is_u32 idx -> is_u32 max_scan ->
  runs (radix_tree_next_hole idx max_scan) t (fun r t' => t' = t /\ exists n, 0 <= n <= max_scan /\ idx + n <= 2 ^ 32 /\ r = u32 (idx + n) /\
    (forall i, 0 <= i < n -> is_Some (P !! (0, idx + i))) /\ (n = max_scan \/ idx + n = 2 ^ 32 \/ P !! (0, idx + n) = None)).
Proof.
  intros Hm Hs Hi Hmax. unfold radix_tree_next_hole. apply runs_gets.
  assert (forall n, 0 <= n -> (forall i, 0 <= i < n -> is_Some (P !! (0, idx + i))) -> n <= Z.of_nat (64 * size (nodes t) + 1)) as Hbound.
  { intros n Hn Hp. pose proof (entries_bound t P T (seqZ idx n) Hm Hs (NoDup_seqZ _ _)) as Hb. rewrite length_seqZ in Hb.
    assert (Z.to_nat n <= 64 * size (nodes t) + 1)%nat; [|lia]. apply Hb. intros p Hin%elem_of_seqZ. replace p with (idx + (p - idx)) by lia. apply Hp. lia. }
  apply (runs_while (fun '(i, index) t' => t' = t /\ 0 <= i <= max_scan /\ index = idx + i /\ index < 2 ^ 32 /\
      forall j, 0 <= j < i -> is_Some (P !! (0, idx + j))) (fun '(i, _) _ => Z.of_nat (64 * size (nodes t) + 2) - i)).
  - unfold is_u32 in *. split; [done|]. split; [lia|]. split; [lia|]. split; [lia|]. intros; lia.
  - lia.
  - intros [i index] t' (-> & Hr & -> & Hlt & Hp). pose proof (Hbound i ltac:(lia) Hp) as Hb. split; [lia|].
    unfold is_u32 in *. destruct (Z.ltb_spec i max_scan) as [Hlt'|Hge].
    2: { apply runs_ret. split; [done|]. exists i. split; [lia|]. split; [lia|]. split; [now rewrite u32_id by (unfold is_u32; lia)|]. split; [done|]. left. lia. }
    apply runs_bind. eapply runs_eq; [apply (lookup_ok t P T); [done|done|unfold is_u32; lia]|].
    rewrite (default_zero _ _ _ _ Hm) by (cbn; lia). destruct (bool_decide_reflect (is_Some (P !! (0, idx + i)))) as [Hy|Hn]; cbn [negb].
    2: { apply runs_ret. split; [done|]. exists i. split; [lia|]. split; [lia|]. split; [now rewrite u32_id by (unfold is_u32; lia)|]. split; [done|].
         right. right. now apply eq_None_not_Some. }
    assert (forall j, 0 <= j < i + 1 -> is_Some (P !! (0, idx + j))) as Hp'.
    { intros j Hj. destruct (decide (j = i)) as [-> |]; [done|]. apply Hp. lia. }
    destruct (decide (idx + i + 1 = 2 ^ 32)) as [Ew|Ew].
    + rewrite Ew. change (u32 (2 ^ 32)) with 0. cbn [Z.eqb]. apply runs_ret. split; [done|]. exists (i + 1).
      replace (idx + (i + 1)) with (2 ^ 32) by lia. split; [lia|]. split; [lia|]. split; [done|]. split; [done|]. auto.
    + rewrite (u32_id (idx + i + 1)) by (unfold is_u32; lia). destruct (Z.eqb_spec (idx + i + 1) 0); [lia|]. apply runs_ret.
      rewrite (u32_id (i + 1)) by (unfold is_u32; lia). split; [|lia]. split; [done|]. split; [lia|]. split; [lia|]. split; [lia|]. done.
Qed.

Lemma prev_hole_ok t P T idx max_scan : mem_ok t P T -> shape (rt_height t) P -> is_u32 idx -> is_u32 max_scan ->
  runs (radix_tree_prev_hole idx max_scan) t (fun r t' => t' = t /\ exists n, 0 <= n <= max_scan /\ r = u32 (idx - n) /\
    (forall i, 0 <= i < n -> is_Some (P !! (0, u32 (idx - i)))) /\ (n = max_scan \/ (0 < n /\ r = LONG_MAX) \/ P !! (0, r) = None)).
Proof.
  intros Hm Hs Hi Hmax. unfold radix_tree_prev_hole. apply runs_gets.
  assert (forall n, 0 <= n <= max_scan -> (forall i, 0 <= i < n -> is_Some (P !! (0, u32 (idx - i)))) -> n <= Z.of_nat (64 * size (nodes t) + 1)) as Hbound.
  { intros n Hn Hp. pose proof (entries_bound t P T ((fun i => u32 (idx - i)) <$> seqZ 0 n) Hm Hs) as Hb. rewrite length_fmap, length_seqZ in Hb.
    assert (Z.to_nat n <= 64 * size (nodes t) + 1)%nat; [|lia]. apply Hb.
    - apply NoDup_map_inj; [|apply NoDup_seqZ]. intros i j Hi'%elem_of_seqZ Hj%elem_of_seqZ E. unfold u32, is_u32 in *.
      pose proof (Z.div_mod (idx - i) (2 ^ 32) ltac:(lia)). pose proof (Z.div_mod (idx - j) (2 ^ 32) ltac:(lia)). nia.
    - intros p Hin. apply list_elem_of_fmap in Hin as (i & -> & Hi'%elem_of_seqZ). apply Hp. lia. }
  apply (runs_while (fun '(i, index) t' => t' = t /\ 0 <= i <= max_scan /\ index = u32 (idx - i) /\
      forall j, 0 <= j < i -> is_Some (P !! (0, u32 (idx - j)))) (fun '(i, _) _ => Z.of_nat (64 * size (nodes t) + 2) - i)).
  - split; [done|]. split; [unfold is_u32 in *; lia|]. split; [now rewrite Z.sub_0_r, u32_id|]. intros; lia.
  - lia.
  - intros [i index] t' (-> & Hr & -> & Hp). pose proof (Hbound i ltac:(lia) Hp) as Hb. split; [lia|].
    destruct (Z.ltb_spec i max_scan) as [Hlt'|Hge].
    2: { apply runs_ret. split; [done|]. exists i. split; [lia|]. split; [done|]. split; [done|]. left. lia. }
    apply runs_bind. eapply runs_eq; [apply (lookup_ok t P T); [done|done|apply u32_range]|].
    rewrite (default_zero _ _ _ _ Hm) by (cbn; lia). destruct (bool_decide_reflect (is_Some (P !! (0, u32 (idx - i))))) as [Hy|Hn]; cbn [negb].
    2: { apply runs_ret. split; [done|]. exists i. split; [lia|]. split; [done|]. split; [done|]. right. right. now apply eq_None_not_Some. }
    assert (forall j, 0 <= j < i + 1 -> is_Some (P !! (0, u32 (idx - j)))) as Hp'.
    { intros j Hj. destruct (decide (j = i)) as [-> |]; [done|]. apply Hp. lia. }
    assert (u32 (u32 (idx - i) - 1) = u32 (idx - (i + 1))) as Ex.
    { unfold u32. rewrite Zminus_mod_idemp_l. f_equal. lia. }
    rewrite Ex. cbv zeta. destruct (Z.eqb_spec (u32 (idx - (i + 1))) LONG_MAX) as [E|E]; apply runs_ret.
    + split; [done|]. exists (i + 1). split; [lia|]. split; [done|]. split; [done|]. right. left. split; [lia|done].
    + unfold is_u32 in *. rewrite (u32_id (i + 1)) by (unfold is_u32; lia). split; [|lia]. split; [done|]. split; [lia|]. done.
Qed.
