(* ===== verification/RadixGang.v ===== *)
(** Gang lookups of a radix tree: the items, or the tagged items, from an index
    on.  Both searches are instances of one over the positions that are good:
    occupied, or tagged. *)

From stdpp Require Import gmap.
From S2P Require Import Prelude.
From S2P Require Import Bits FindBit Bitmap BitmapFacts BitmapRemap State RadixTree RadixInv RadixMem RadixInsert RadixTags RadixScan.

(** * Indices *)

Definition end_of (x : pos) : Z := (x.2 + 1) * 64 ^ x.1.

(** The first index behind the slot of height [h - 1] that holds [idx]. *)
Definition behind (idx h : Z) : Z := end_of (cell idx (h - 1)).

Lemma pow64_split h : 1 <= h -> 64 ^ h = 64 ^ (h - 1) * 64.
Proof. intros Hh. rewrite Z.mul_comm, <- Z.pow_succ_r by lia. f_equal. lia. Qed.

Lemma pow64_pos h : 0 <= h -> 0 < 64 ^ h.
Proof. intros. apply Z.pow_pos_nonneg; lia. Qed.

Lemma skip_eq idx h : is_u32 idx -> 1 <= h <= 6 ->
  u32 (Z.land idx (lnot32 (u32 (shl32 1 (6 * (h - 1)) - 1))) + shl32 1 (6 * (h - 1))) = u32 (behind idx h).
Proof.
  intros Hi Hh. assert (0 <= 6 * (h - 1) <= 30) as Hs by lia. set (s := 6 * (h - 1)) in *.
  pose proof (Z.pow_pos_nonneg 2 s ltac:(lia) ltac:(lia)). pose proof (Z.pow_le_mono_r 2 s 30 ltac:(lia) ltac:(lia)).
  assert (shl32 1 s = 2 ^ s) as -> by (unfold shl32; rewrite Z.shiftl_1_l; apply u32_id; unfold is_u32; lia).
  rewrite (u32_id (2 ^ s - 1)) by (unfold is_u32; lia). f_equal.
  assert (Z.land idx (lnot32 (2 ^ s - 1)) = 2 ^ s * (idx / 2 ^ s)) as ->.
  { replace (2 ^ s - 1) with (Z.ones s) by (rewrite Z.ones_equiv; lia). rewrite Z.mul_comm, <- Z.shiftr_div_pow2, <- Z.shiftl_mul_pow2 by lia.
    apply Z.bits_inj'. intros i Hi0. rewrite Z.land_spec, Z.shiftl_spec by lia. destruct (Z.lt_ge_cases i 32).
    - rewrite testbit_lnot32 by lia. destruct (Z.lt_ge_cases i s).
      + rewrite Z.ones_spec_low, (Z.testbit_neg_r _ (i - s)) by lia. apply andb_false_r.
      + rewrite Z.ones_spec_high, Z.shiftr_spec by lia. cbn [negb]. rewrite andb_true_r. f_equal. lia.
    - rewrite (testbit_high idx 32) by (unfold is_u32 in Hi; lia). rewrite Z.shiftr_spec by lia. rewrite (testbit_high idx 32); [done|unfold is_u32 in Hi; lia|lia]. }
  unfold behind, end_of, cell. cbn [fst snd]. unfold s. rewrite pow64 by lia. lia.
Qed.

Lemma behind_range idx h : is_u32 idx -> 1 <= h <= 6 -> idx < behind idx h <= 2 ^ 32.
Proof.
  intros Hi Hh. unfold behind, end_of, cell, is_u32 in *. cbn [fst snd]. pose proof (pow64_pos (h - 1) ltac:(lia)) as HB.
  pose proof (Z.div_mod idx (64 ^ (h - 1)) ltac:(lia)). pose proof (Z.mod_pos_bound idx (64 ^ (h - 1)) ltac:(lia)). split; [lia|].
  assert (2 ^ 32 = 64 ^ (h - 1) * 2 ^ (32 - 6 * (h - 1))) as E by (rewrite <- pow64, <- Z.pow_add_r by lia; f_equal; lia).
  assert (idx / 64 ^ (h - 1) < 2 ^ (32 - 6 * (h - 1))) by (apply Z.div_lt_upper_bound; lia). nia.
Qed.

Lemma behind_cell idx h p : 1 <= h -> idx <= p < behind idx h -> cell p (h - 1) = cell idx (h - 1).
Proof.
  intros Hh Hp. unfold behind, end_of, cell in *. cbn [fst snd] in *. f_equal. pose proof (pow64_pos (h - 1) ltac:(lia)).
  pose proof (Z.div_mod idx (64 ^ (h - 1)) ltac:(lia)). pose proof (Z.mod_pos_bound idx (64 ^ (h - 1)) ltac:(lia)).
  symmetry. apply (Z.div_unique p (64 ^ (h - 1)) _ (p - 64 ^ (h - 1) * (idx / 64 ^ (h - 1)))); lia.
Qed.

Lemma behind_last idx h : 1 <= h -> off idx h = 63 -> behind idx h = end_of (cell idx h).
Proof.
  intros Hh Ho. unfold behind, end_of, off, cell in *. cbn [fst snd] in *. rewrite (pow64_split h Hh), <- Z.div_div by (pose proof (pow64_pos (h - 1)); lia).
  pose proof (Z.div_mod (idx / 64 ^ (h - 1)) 64 ltac:(lia)). nia.
Qed.

Lemma behind_next idx h : 1 <= h -> off idx h < 63 -> cell (behind idx h) h = cell idx h /\ off (behind idx h) h = off idx h + 1.
Proof.
  intros Hh Ho. unfold behind, end_of, off, cell in *. cbn [fst snd] in *. pose proof (pow64_pos (h - 1) ltac:(lia)).
  rewrite (pow64_split h Hh), <- !Z.div_div by lia. rewrite Z.div_mul by lia. set (q := idx / 64 ^ (h - 1)) in *.
  pose proof (Z.div_mod q 64 ltac:(lia)). pose proof (Z.mod_pos_bound q 64 ltac:(lia)). split.
  - f_equal. symmetry. apply (Z.div_unique _ 64 _ (q mod 64 + 1)); lia.
  - symmetry. apply (Z.mod_unique _ 64 (q / 64)); lia.
Qed.

(** * One search from a node *)

Section Search.
Context (t : radix_tree) (P : positions) (T : tagset).
Context (Hm : mem_ok t P T) (Hs : shape (rt_height t) P).
Context (G : pos -> Prop) `{HG : !forall x, Decision (G x)}.
Context (Gin : forall x, G x -> is_Some (P !! x)) (Gup : forall x, G x -> x.1 < rt_height t -> G (up x)).

Definition sref (p : Z) : slotref := NodeSlot (default 0 (P !! cell p 1)) (off p 1).
Definition hit (p : Z) : option slotref := if decide (G (0, p)) then Some (sref p) else None.
Definition hits (a b : Z) : list slotref := omap hit (seqZ a (b - a)).

Lemma hits_app a b c : a <= b <= c -> hits a c = hits a b ++ hits b c.
Proof.
  intros H. unfold hits. rewrite <- omap_app. f_equal. replace (c - a) with ((b - a) + (c - b)) by lia.
  rewrite seqZ_app by lia. repeat f_equal; lia.
Qed.

Lemma hits_none a b : (forall p, a <= p < b -> ~ G (0, p)) -> hits a b = [].
Proof.
  intros H. unfold hits. assert (forall l, (forall p, p ∈ l -> ~ G (0, p)) -> omap hit l = []) as Hl.
  { induction l as [|p l IH]; [done|]. intros Hp. cbn. unfold hit at 1. rewrite decide_False by (apply Hp; left). apply IH. intros; apply Hp; now right. }
  apply Hl. intros p Hp%elem_of_seqZ. apply H. lia.
Qed.

Lemma hits_one b : hits b (b + 1) = if decide (G (0, b)) then [sref b] else [].
Proof. unfold hits. replace (b + 1 - b) with 1 by lia. change (seqZ b 1) with [0 + b]. rewrite Z.add_0_l. unfold omap, list_omap, hit. now destruct (decide (G (0, b))). Qed.

Lemma good_absent p h : 0 <= h <= rt_height t -> ~ G (cell p h) -> ~ G (0, p).
Proof.
  intros Hh Hn HG0. apply Hn. rewrite <- cell_0 in HG0. destruct Hh as [H0 HH]. revert HH.
  apply (Z_ind_up (fun h => h <= rt_height t -> G (cell p h)) 0 h); [lia|done|].
  intros k Hk IH Hle. rewrite <- up_cell by lia. apply Gup; [apply IH; lia|]. cbn. lia.
Qed.

Lemma next_entry_ok present idx h x : 1 <= h <= rt_height t -> is_u32 idx -> x = cell idx h ->
  (forall i, 0 <= i < 64 -> present i t = Ok (bool_decide (G (kid x i)), t)) ->
  runs (while 65 (next_entry present (6 * (h - 1))) (off idx h, idx)) t (fun '(i, idx', ok) t' => t' = t /\
    if (ok : bool) then idx <= idx' /\ is_u32 idx' /\ cell idx' h = x /\ i = off idx' h /\ G (kid x i) /\ (forall p, idx <= p < idx' -> ~ G (0, p))
    else exists e, idx < e <= 2 ^ 32 /\ idx' = u32 e /\ (forall p, idx <= p < e -> ~ G (0, p)) /\ (e = 2 ^ 32 \/ e = end_of x)).
Proof.
  intros Hh Hi -> Hpres. pose proof (m_height _ _ _ Hm) as H6.
  apply (runs_while (fun '(i, idx') t' => t' = t /\ idx <= idx' /\ is_u32 idx' /\ cell idx' h = cell idx h /\ i = off idx' h /\
     (forall p, idx <= p < idx' -> ~ G (0, p))) (fun '(i, _) _ => 64 - i)).
  - split; [done|]. split; [lia|]. do 3 (split; [done|]). intros; lia.
  - pose proof (off_range idx h). lia.
  - intros [i idx'] t' (-> & Hle & Hu & Ec & -> & Hno). pose proof (off_range idx' h) as Ho. split; [lia|].
    unfold next_entry. apply runs_bind, (runs_eq _ _ _ _ _ (Hpres _ Ho)).
    destruct (bool_decide_reflect (G (kid (cell idx h) (off idx' h)))) as [Hg|Hb]; [apply runs_ret; now auto|].
    cbv zeta. rewrite skip_eq by (done || lia). pose proof (behind_range idx' h Hu ltac:(lia)) as Hbr.
    assert (forall p, idx <= p < behind idx' h -> ~ G (0, p)) as Hno'.
    { intros p Hp. destruct (Z.lt_ge_cases p idx'); [apply Hno; lia|]. apply (good_absent p (h - 1)); [lia|].
      rewrite (behind_cell idx') by lia. rewrite <- kid_cell by lia. now rewrite Ec. }
    destruct (Z.eqb_spec (u32 (behind idx' h)) 0) as [Ez|Ez].
    { apply runs_ret. split; [done|]. exists (behind idx' h). split; [lia|]. split; [done|]. split; [done|]. left.
      destruct (decide (behind idx' h = 2 ^ 32)); [done|]. rewrite u32_id in Ez by (unfold is_u32 in *; lia). unfold is_u32 in Hu. lia. }
    assert (behind idx' h < 2 ^ 32) as Hlt by (destruct (decide (behind idx' h = 2 ^ 32)) as [E|]; [now rewrite E in Ez|lia]).
    rewrite u32_id by (unfold is_u32 in *; lia). change RADIX_TREE_MAP_SIZE with 64. destruct (Z.eqb_spec (off idx' h + 1) 64) as [E|E]; apply runs_ret.
    + split; [done|]. exists (behind idx' h). split; [lia|]. split; [now rewrite u32_id by (unfold is_u32 in *; lia)|]. split; [done|]. right.
      rewrite <- Ec. apply behind_last; lia.
    + destruct (behind_next idx' h ltac:(lia) ltac:(lia)) as [E1 E2]. split; [|lia]. split; [done|]. split; [lia|]. split; [unfold is_u32 in *; lia|].
      split; [congruence|]. done.
Qed.

(** What a search from [idx] found: the hits up to an index [e], where it
    stopped, as there were enough or as [e] is the end of a node. *)
Definition found_ok (idx max : Z) (slots : list slotref) (next : Z) : Prop :=
  exists e, idx < e <= 2 ^ 32 /\ next = u32 e /\ slots = hits idx e /\ zlen slots <= max /\
    (zlen slots = max \/ e = 2 ^ 32 \/ exists x a, P !! x = Some a /\ 1 <= x.1 /\ e = end_of x).

Lemma found_later idx idx' max slots next : idx <= idx' -> (forall p, idx <= p < idx' -> ~ G (0, p)) ->
  found_ok idx' max slots next -> found_ok idx max slots next.
Proof.
  intros Hle Hno (e & He & -> & -> & Hl & Hend). exists e. split; [lia|]. split; [done|].
  rewrite (hits_app idx idx' e), (hits_none idx idx') by (done || lia). done.
Qed.

Lemma kid_bottom idx i : kid (cell idx 1) i = (0, 64 * (idx / 64) + i).
Proof. unfold kid, cell. cbn [fst snd]. now rewrite Z.pow_1_r. Qed.

Lemma bottom_sref idx i slot : P !! cell idx 1 = Some slot -> 0 <= i < 64 -> sref (64 * (idx / 64) + i) = NodeSlot slot i.
Proof.
  intros Hx Hi. unfold sref, off, cell in *. rewrite Z.pow_1_r in *. change (64 ^ (1 - 1)) with 1. rewrite Z.div_1_r.
  assert ((64 * (idx / 64) + i) / 64 = idx / 64) as -> by (symmetry; apply (Z.div_unique _ 64 _ i); lia). rewrite Hx. cbn [default from_option id].
  f_equal. symmetry. apply (Z.mod_unique _ 64 (idx / 64)); lia.
Qed.

Lemma grab_ok wanted w idx slot max : 1 <= rt_height t -> is_u32 idx -> P !! cell idx 1 = Some slot -> 1 <= max ->
  (forall i, 0 <= i < 64 -> wanted i t = Ok (w i, t)) ->
  (forall i, 0 <= i < 64 -> w i = true /\ is_Some (P !! kid (cell idx 1) i) <-> G (kid (cell idx 1) i)) ->
  runs (while 65 (grab wanted slot max) (Z.land idx RADIX_TREE_MAP_MASK, idx, [])) t
    (fun '(slots, next) t' => t' = t /\ found_ok idx max slots next).
Proof.
  intros HH Hi Hx Hmax Hw HwG. pose proof (m_height _ _ _ Hm) as H6. pose proof (Z.div_mod idx 64 ltac:(lia)) as Ediv. pose proof (mod64 idx) as Hmod.
  assert (Z.land idx RADIX_TREE_MAP_MASK = idx mod 64) as -> by (change RADIX_TREE_MAP_MASK with (Z.ones 6); now rewrite Z.land_ones by lia).
  set (b := 64 * (idx / 64)) in *. assert (b + 64 <= 2 ^ 32) as Hb by (unfold b, is_u32 in *; change (2 ^ 32) with (64 * 67108864) in *; lia).
  apply (runs_while (fun '(i, idx', found) t' => t' = t /\ 0 <= i <= 64 /\ idx <= b + i /\ idx' = u32 (b + i) /\ found = hits idx (b + i) /\ zlen found < max)
    (fun '(i, _, _) _ => 64 - i)).
  - split; [done|]. split; [lia|]. split; [lia|]. rewrite <- Ediv, u32_id by done. split; [done|].
    unfold hits. rewrite Z.sub_diag. split; [done|]. change (zlen (@nil slotref)) with 0. lia.
  - lia.
  - intros [[i idx'] found] t' (-> & Hr & Hle & -> & -> & Hl). split; [lia|]. unfold grab. change RADIX_TREE_MAP_SIZE with 64.
    destruct (Z.ltb_spec i 64) as [Hlt|Hge].
    2: { apply runs_ret. split; [done|]. exists (b + i). split; [lia|]. split; [done|]. split; [done|]. split; [lia|]. right. right.
         exists (cell idx 1), slot. split; [done|]. split; [cbn; lia|]. unfold end_of, cell. cbn [fst snd]. rewrite Z.pow_1_r. unfold b. lia. }
    apply runs_bind, (runs_eq _ _ _ _ _ (Hw i ltac:(lia))). pose proof (HwG i ltac:(lia)) as HG'. rewrite kid_bottom in HG'. fold b in HG'.
    assert (u32 (u32 (b + i) + 1) = u32 (b + (i + 1))) as Eu by (unfold u32; rewrite Zplus_mod_idemp_l; f_equal; lia). rewrite Eu.
    assert (hits idx (b + (i + 1)) = hits idx (b + i) ++ (if decide (G (0, b + i)) then [NodeSlot slot i] else [])) as Eh.
    { rewrite (hits_app idx (b + i)) by lia. f_equal. replace (b + (i + 1)) with (b + i + 1) by lia. rewrite hits_one. unfold b.
      destruct (decide (G (0, 64 * (idx / 64) + i))); [|done]. now rewrite (bottom_sref idx i slot) by (done || lia). }
    assert (~ G (0, b + i) -> runs (mret (inl (i + 1, u32 (b + (i + 1)), hits idx (b + i)))) t
      (fun (x : (Z * Z * list slotref) + (list slotref * Z)) s' => match x with
       | inl l' => (let '(i0, idx', found) := l' in s' = t /\ 0 <= i0 <= 64 /\ idx <= b + i0 /\ idx' = u32 (b + i0) /\ found = hits idx (b + i0) /\ zlen found < max) /\
                   (let '(i0, _, _) := l' in 64 - i0) < 64 - i
       | inr (slots, next) => s' = t /\ found_ok idx max slots next end)) as Hskip.
    { intros Hng. apply runs_ret. rewrite decide_False, app_nil_r in Eh by done. rewrite <- Eh. split; [|lia]. split; [done|]. split; [lia|]. split; [lia|].
      split; [done|]. split; [done|]. now rewrite Eh. }
    destruct (w i) eqn:Ew; cbn [negb]; [|apply Hskip; intros C; apply HG' in C; now destruct C].
    apply (runs_get_slot t P T (cell idx 1)); [done|done|cbn; lia|lia|]. rewrite kid_bottom. fold b.
    rewrite (default_zero _ _ _ _ Hm), negb_involutive by (cbn; lia).
    destruct (bool_decide_reflect (is_Some (P !! (0, b + i)))) as [Hy|Hn]; [|apply Hskip; intros C; apply HG' in C; now destruct C].
    rewrite decide_True in Eh by (apply HG'; done). rewrite <- Eh.
    assert (zlen (hits idx (b + (i + 1))) = zlen (hits idx (b + i)) + 1) as El by (rewrite Eh; unfold zlen; rewrite length_app; cbn; lia).
    apply runs_ret. destruct (Z.eqb_spec (zlen (hits idx (b + (i + 1)))) max) as [Em|Em].
    + split; [done|]. exists (b + (i + 1)). split; [lia|]. split; [done|]. split; [done|]. split; [lia|]. now left.
    + split; [|lia]. split; [done|]. split; [lia|]. split; [lia|]. split; [done|]. split; [done|]. lia.
Qed.

(** The descent to a node at the bottom, one good position at a time. *)
Lemma found_nothing idx idx' max e h : 1 <= max -> 1 <= h <= rt_height t -> idx <= idx' -> is_Some (P !! cell idx' h) -> (forall p, idx <= p < idx' -> ~ G (0, p)) ->
  idx' < e <= 2 ^ 32 -> (forall p, idx' <= p < e -> ~ G (0, p)) -> e = 2 ^ 32 \/ e = end_of (cell idx' h) -> found_ok idx max [] (u32 e).
Proof.
  intros Hmax Hh Hle [a Ha] Hno He Hno' Hend. exists e. split; [lia|]. split; [done|]. split.
  - symmetry. apply hits_none. intros p Hp. destruct (Z.lt_ge_cases p idx'); [apply Hno; lia|apply Hno'; lia].
  - split; [change (zlen (@nil slotref)) with 0; lia|]. right. destruct Hend as [-> | ->]; [now left|]. right. exists (cell idx' h), a. split; [done|]. split; [cbn; lia|done].
Qed.

End Search.

(** * The two searches *)

Definition occupied (P : positions) (x : pos) : Prop := is_Some (P !! x).
Definition tagged (T : tagset) (tag : Z) (x : pos) : Prop := (tag, x) ∈ T.
#[export] Instance occupied_dec P x : Decision (occupied P x).
Proof. unfold occupied. apply _. Defined.
#[export] Instance tagged_dec T tag x : Decision (tagged T tag x).
Proof. unfold tagged. apply _. Defined.
#[global] Typeclasses Opaque occupied tagged.

(** Where the descent of a search stands. *)
Definition standing (t : radix_tree) (P : positions) (G : pos -> Prop) (idx : Z) (slot index shift h : Z) : Prop :=
  idx <= index /\ is_u32 index /\ 1 <= h <= rt_height t /\ P !! cell index h = Some slot /\ shift = 6 * (h - 1) /\
  forall p, idx <= p < index -> ~ G (0, p).

Lemma standing_top t P T G idx a : mem_ok t P T -> is_u32 idx -> idx < 64 ^ rt_height t -> 1 <= rt_height t -> P !! (rt_height t, 0) = Some a ->
  standing t P G idx a idx (u32 ((rt_height t - 1) * RADIX_TREE_MAP_SHIFT)) (rt_height t).
Proof.
  intros Hm Hi Hlt HH Ha. pose proof (m_height _ _ _ Hm). split; [lia|]. split; [done|]. split; [lia|]. rewrite shift_eq by lia.
  rewrite cell_top by (unfold is_u32 in Hi; lia). split; [done|]. split; [done|]. intros; lia.
Qed.

Lemma standing_down t P T G idx slot index h v i index' : mem_ok t P T -> standing t P G idx slot index (6 * (h - 1)) h -> 1 < h ->
  index <= index' -> is_u32 index' -> cell index' h = cell index h -> i = off index' h -> P !! kid (cell index h) i = Some v ->
  (forall p, index <= p < index' -> ~ G (0, p)) -> standing t P G idx v index' (u32 (6 * (h - 1) - RADIX_TREE_MAP_SHIFT)) (h - 1).
Proof.
  intros Hm (S1 & S2 & S3 & S4 & S5 & S6) Hh Hle Hu Ec -> Hv Hno. pose proof (m_height _ _ _ Hm). split; [lia|]. split; [done|]. split; [lia|].
  rewrite <- Ec, kid_cell in Hv by lia. split; [done|]. split; [now rewrite shift_next by lia|].
  intros p Hp. destruct (Z.lt_ge_cases p index); [apply S6|apply Hno]; lia.
Qed.

Section Lookup.
Context (t : radix_tree) (P : positions) (T : tagset) (Hok : tree_ok t P T) (HH : 1 <= rt_height t).
Context (idx max a : Z) (Hi : is_u32 idx) (Hlt : idx < 64 ^ rt_height t) (Hmax : 1 <= max) (Ha : P !! (rt_height t, 0) = Some a).

Lemma lookup_search : runs (__lookup a idx max) t (fun '(slots, next) t' => t' = t /\ found_ok P (occupied P) idx max slots next).
Proof.
  pose proof Hok as [Hm Hs Hg]. pose proof (m_height _ _ _ Hm) as H6. unfold __lookup.
  destruct (m_node _ _ _ Hm _ _ Ha HH) as (Hpa & n & Hn & Hokn). apply (runs_node_at _ n); [done|]. cbv zeta.
  rewrite (n_height _ _ _ _ Hokn). cbn [fst]. destruct (Z.eqb_spec (rt_height t) 0) as [|_]; [lia|].
  assert (forall x, occupied P x -> x.1 < rt_height t -> occupied P (up x)) as Gup by apply Hs.
  apply runs_bind. apply runs_mono with (P := fun x t' => t' = t /\ match x with
    | inr next => found_ok P (occupied P) idx max [] next
    | inl (slot, index) => standing t P (occupied P) idx slot index 0 1
    end).
  - apply (runs_while (fun '(slot, index, shift, h) t' => t' = t /\ standing t P (occupied P) idx slot index shift h) (fun '(_, _, _, h) _ => h)).
    + split; [done|]. now apply (standing_top t P T).
    + change (Z.of_nat path_fuel) with 8. lia.
    + intros [[[slot index] shift] h] t' (-> & Hst). pose proof Hst as (S1 & S2 & S3 & S4 & S5 & S6). split; [lia|]. subst shift.
      destruct (Z.ltb_spec 1 h) as [Hh|Hh].
      2: { apply runs_ret. split; [done|]. now replace h with 1 in Hst by lia. }
      rewrite offset_eq by lia. apply runs_bind. eapply runs_mono.
      { apply (next_entry_ok t P T Hm (occupied P) Gup (slot_present slot) index h (cell index h)); try done.
        intros i Hi'. unfold slot_present, mbind, ST_bind. rewrite (get_slot_eq t P T (cell index h)) by (done || cbn; lia).
        rewrite (default_zero _ _ _ _ Hm), negb_involutive by (cbn; lia). done. }
      intros [[i index'] ok] t' [-> Hpost]. cbv beta iota. destruct ok; cbn [negb].
      * destruct Hpost as (Hle & Hu & Ec & Ei & Hgood & Hno). pose proof (off_range index' h). apply (runs_get_slot t P T (cell index h)); [done|done|cbn; lia|lia|].
        destruct Hgood as [v Hv]. rewrite Hv. cbn [default from_option id]. destruct (some_nonzero _ _ _ _ _ Hm Hv ltac:(cbn; lia)) as [? _].
        destruct (Z.eqb_spec v 0); [lia|]. apply runs_ret. split; [|lia]. split; [done|]. now apply (standing_down t P T _ idx slot index h v i index').
      * destruct Hpost as (e & He & -> & Hno & Hend). apply runs_ret. split; [done|]. apply (found_nothing t P (occupied P) idx index max e h); eauto.
  - intros [[slot index]|next] t' [-> Hx]; cbv beta iota; [|apply runs_ret; done].
    destruct Hx as (S1 & S2 & S3 & S4 & S5 & S6). eapply runs_mono.
    { apply (grab_ok t P T Hm (occupied P) (fun _ => mret true) (fun _ => true) index slot max); try done. now intros i Hi'; unfold occupied; tauto. }
    intros [slots next] t' [-> Hf]. split; [done|]. now apply (found_later P (occupied P) idx index).
Qed.

Lemma tag_get_kid tag x b i : 0 <= tag < 2 -> P !! x = Some b -> 1 <= x.1 <= rt_height t -> 0 <= i < 64 ->
  tag_present b tag i t = Ok (bool_decide (tagged T tag (kid x i)), t).
Proof.
  intros Ht Hx Hr Hi'. pose proof (o_mem _ _ _ Hok) as Hm. unfold tag_present, mbind, ST_bind.
  assert (i = (kid x i).2 mod 64) as Ei by (cbn; rewrite Z.mul_comm, Z.add_comm, Z.mod_add, Z.mod_small; lia).
  rewrite Ei at 1. rewrite (tag_get_ok t P T (kid x i) b tag Hm); [|cbn; lia|now rewrite up_kid|done].
  destruct (decide ((tag, kid x i) ∈ T)); [rewrite !bool_decide_true by done|rewrite !bool_decide_false by done]; done.
Qed.

Lemma lookup_tag_search tag : 0 <= tag < 2 ->
  runs (__lookup_tag a idx max tag) t (fun '(slots, next) t' => t' = t /\ found_ok P (tagged T tag) idx max slots next).
Proof.
  intros Ht. pose proof Hok as [Hm Hs Hg]. pose proof (m_height _ _ _ Hm) as H6. unfold __lookup_tag.
  destruct (m_node _ _ _ Hm _ _ Ha HH) as (Hpa & n & Hn & Hokn). apply (runs_node_at _ n); [done|]. cbv zeta.
  rewrite (n_height _ _ _ _ Hokn). cbn [fst]. destruct (Z.eqb_spec (rt_height t) 0) as [|_]; [lia|].
  assert (forall x, tagged T tag x -> x.1 < rt_height t -> tagged T tag (up x)) as Gup by (intros x; apply (t_up _ _ _ Hg)).
  assert (forall x, tagged T tag x -> is_Some (P !! x)) as Gin by (intros x Hx; apply (t_in _ _ _ Hg _ _ Hx)).
  apply (runs_while (fun '(slot, index, shift, h, found) t' => t' = t /\ 0 <= h /\
      if h =? 0 then found_ok P (tagged T tag) idx max found index
      else found = [] /\ standing t P (tagged T tag) idx slot index shift h) (fun '(_, _, _, h, _) _ => h)).
  - split; [done|]. split; [lia|]. destruct (Z.eqb_spec (rt_height t) 0); [lia|]. split; [done|]. now apply (standing_top t P T).
  - change (Z.of_nat path_fuel) with 8. lia.
  - intros [[[[slot index] shift] h] found] t' (-> & Hh & Hst). split; [lia|]. destruct (Z.eqb_spec h 0) as [-> |Hne].
    { cbn [Z.ltb Z.compare]. apply runs_ret. done. }
    destruct Hst as [-> Hst]. pose proof Hst as (S1 & S2 & S3 & S4 & S5 & S6). subst shift. destruct (Z.ltb_spec 0 h); [|lia].
    rewrite offset_eq by lia. apply runs_bind. eapply runs_mono.
    { apply (next_entry_ok t P T Hm (tagged T tag) Gup (tag_present slot tag) index h (cell index h)); try done.
      intros i Hi'. apply tag_get_kid; [done|done|cbn; lia|done]. }
    intros [[i index'] ok] t' [-> Hpost]. cbv beta iota. destruct ok; cbn [negb].
    2: { destruct Hpost as (e & He & -> & Hno & Hend). apply runs_ret. split; [done|]. apply (found_nothing t P (tagged T tag) idx index max e h); eauto. }
    destruct Hpost as (Hle & Hu & Ec & Ei & Hgood & Hno). pose proof (off_range index' h) as Hor. destruct (Gin _ Hgood) as [v Hv].
    assert (runs (get_slot slot i) t (fun w t' => w = v /\ t' = t)) as Hget.
    { eapply runs_eq; [apply (get_slot_eq t P T (cell index h)); [done|done|cbn; lia|lia]|]. now rewrite Hv. }
    destruct (some_nonzero _ _ _ _ _ Hm Hv ltac:(cbn; lia)) as [Hv0 _]. cbv zeta. destruct (Z.eqb_spec (h - 1) 0) as [E1|E1].
    + replace h with 1 in * by lia. cbn [andb]. apply runs_bind. eapply runs_mono.
      { apply (grab_ok t P T Hm (tagged T tag) (tag_present slot tag) (fun i => bool_decide (tagged T tag (kid (cell index' 1) i))) index' slot max);
          [done|done|now rewrite Ec|done| |].
        - intros j Hj. rewrite Ec. apply tag_get_kid; [done|done|cbn; lia|done].
        - intros j Hj. rewrite bool_decide_eq_true. split; [now intros [? _]|]. auto. }
      intros [slots next] t' [-> Hf]. cbv beta iota.
      assert (found_ok P (tagged T tag) idx max slots next) as Hf'.
      { apply (found_later P (tagged T tag) idx index'); [lia| |done]. intros p Hp. destruct (Z.lt_ge_cases p index); [apply S6|apply Hno]; lia. }
      destruct (zlen slots =? max); [now apply runs_ret|]. apply runs_bind. eapply runs_mono; [exact Hget|]. intros w t' [-> ->]. cbv beta.
      destruct (Z.eqb_spec v 0); [lia|]. apply runs_ret. split; [|lia]. split; [done|]. split; [lia|]. done.
    + apply runs_bind, runs_ret. cbv beta iota. cbn [andb]. apply runs_bind. eapply runs_mono; [exact Hget|]. intros w t' [-> ->]. cbv beta.
      destruct (Z.eqb_spec v 0); [lia|]. apply runs_ret. split; [|lia]. split; [done|]. split; [lia|].
      destruct (Z.eqb_spec (h - 1) 0); [lia|]. split; [done|]. apply (standing_down t P T _ idx slot index h v i index'); try done; lia.
Qed.

End Lookup.

(** * The loop over the searches *)

Section Gang.
Context (t : radix_tree) (P : positions) (T : tagset) (Hok : tree_ok t P T) (HH : 1 <= rt_height t).
Context (G : pos -> Prop) `{HG : !forall x, Decision (G x)} (Gin : forall x, G x -> is_Some (P !! x)).
Context (a : Z) (find : Z -> Z -> Z -> RM (list slotref * Z)).
Context (Hfind : forall cur max, is_u32 cur -> cur < 64 ^ rt_height t -> 1 <= max ->
  runs (find a cur max) t (fun '(slots, next) t' => t' = t /\ found_ok P G cur max slots next)).
Context {A : Type} (take : list slotref -> RM (list A)) (f : slotref -> A).
Context (Htake : forall b c, 0 <= b -> take (hits P G b c) t = Ok (f <$> hits P G b c, t)).

(** The first [max] hits from [first] on, or all. *)
Definition gang_spec (first max : Z) (results : list A) : Prop :=
  exists e, first <= e <= 2 ^ 32 /\ results = f <$> hits P G first e /\ zlen results <= max /\ (zlen results = max \/ forall p, e <= p < 2 ^ 32 -> ~ G (0, p)).

(** The nodes whose end a search has reached. *)
Definition spent (cur : Z) (ks : list Z) : Prop :=
  NoDup ks /\ forall b, b ∈ ks -> exists x, P !! x = Some b /\ 1 <= x.1 /\ end_of x <= cur.

Lemma spent_bound cur ks : spent cur ks -> (length ks <= size (nodes t))%nat.
Proof.
  intros [Hd Hks]. rewrite <- (size_dom (nodes t)). change (size (dom (nodes t))) with (length (elements (dom (nodes t)))).
  apply submseteq_length, NoDup_submseteq; [done|]. intros b Hb. destruct (Hks b Hb) as (x & Hx & H1 & _).
  destruct (m_node _ _ _ (o_mem _ _ _ Hok) _ _ Hx H1) as (_ & n & Hn & _). now apply elem_of_elements, elem_of_dom.
Qed.

Lemma spent_more cur ks x b : spent cur ks -> P !! x = Some b -> 1 <= x.1 -> cur < end_of x -> spent (end_of x) (b :: ks).
Proof.
  intros [Hd Hks] Hx H1 Hlt. split.
  - apply list.NoDup_cons. split; [|done]. intros Hin. destruct (Hks b Hin) as (y & Hy & Hy1 & Hle).
    pose proof (m_inj _ _ _ (o_mem _ _ _ Hok) _ _ b Hx Hy H1 Hy1). subst y. lia.
  - intros c Hc. apply elem_of_cons in Hc as [-> |Hc]; [exists x; split; [done|]; split; [done|lia]|].
    destruct (Hks c Hc) as (y & Hy & Hy1 & Hle). exists y. split; [done|]. split; [done|lia].
Qed.

Definition gang_inv (first max : Z) (n : nat) (l : Z * list A) (t' : radix_tree) : Prop :=
  let '(cur, results) := l in
  t' = t /\ first <= cur /\ is_u32 cur /\ results = f <$> hits P G first cur /\ zlen results <= max /\ (n <= size (nodes t) + 1)%nat /\
  (zlen results = max \/ exists ks, spent cur ks /\ length ks = n).

Lemma gang_step first max n cur results : 0 <= first -> gang_inv first max n (cur, results) t -> zlen results < max -> cur < 64 ^ rt_height t ->
  forall slots next, found_ok P G cur (max - zlen results) slots next ->
  (next = 0 -> gang_spec first max (results ++ (f <$> slots))) /\ (next <> 0 -> gang_inv first max (S n) (next, results ++ (f <$> slots)) t).
Proof.
  intros H0 (_ & Hle & Hu & Er & Hl & Hn & Hc) Hlt Hcur slots next (e & He & -> & Es & Hsl & Hend).
  assert (zlen (results ++ (f <$> slots)) = zlen results + zlen slots) as El by (unfold zlen; rewrite length_app, length_fmap; lia).
  assert (results ++ (f <$> slots) = f <$> hits P G first e) as Ea by (rewrite Er, Es, <- fmap_app, <- hits_app by lia; done).
  destruct Hc as [|(ks & Hks & Elen)]; [lia|]. pose proof (spent_bound _ _ Hks). unfold is_u32 in Hu. destruct (decide (e = 2 ^ 32)) as [E|E].
  - split; [intros _|intros C; now rewrite E in C]. exists e. split; [lia|]. split; [done|]. split; [lia|]. right. intros; lia.
  - rewrite u32_id by (unfold is_u32; lia). split; [lia|intros _]. split; [done|]. split; [lia|]. split; [unfold is_u32; lia|].
    split; [done|]. split; [lia|]. split; [lia|]. destruct Hend as [Hm|[|(x & b & Hx & H1 & Ex)]]; [left; lia|done|].
    right. exists (b :: ks). rewrite Ex. split; [apply (spent_more cur); [done|done|done|lia]|]. cbn [length]. lia.
Qed.

Lemma gang_ok first max : is_u32 first -> 0 <= max ->
  runs (gang find take a (max_of (rt_height t)) first max) t (fun results t' => t' = t /\ gang_spec first max results).
Proof.
  intros Hf Hmax. pose proof Hok as [Hm Hs Hg]. pose proof (m_height _ _ _ Hm) as H6. unfold gang. apply runs_gets.
  apply (runs_while_count (gang_inv first max)).
  - split; [done|]. split; [lia|]. split; [done|]. unfold hits. rewrite Z.sub_diag. split; [done|]. change (zlen (@nil A)) with 0.
    split; [lia|]. split; [lia|]. right. exists []. split; [|done]. split; [apply NoDup_nil_2|]. intros b Hb. now apply not_elem_of_nil in Hb.
  - intros n [cur results] t' Hinv. pose proof Hinv as (-> & Hle & Hu & Er & Hl & Hn & Hc). split; [lia|].
    destruct (Z.ltb_spec (zlen results) max) as [Hlt|Hge].
    2: { apply runs_ret. split; [done|]. exists cur. split; [unfold is_u32 in Hu; lia|]. split; [done|]. split; [lia|]. left. lia. }
    rewrite max_of_lt by (done || lia). destruct (Z.ltb_spec cur (64 ^ rt_height t)) as [Hcur|Hcur]; cbn [negb].
    2: { apply runs_ret. split; [done|]. exists cur. split; [unfold is_u32 in Hu; lia|]. split; [done|]. split; [lia|]. right. intros p Hp C%Gin.
         rewrite (shape_high _ _ _ Hs) in C by lia. now destruct C. }
    apply runs_bind. eapply runs_mono; [apply Hfind; [done|done|lia]|]. intros [slots next] t' [-> Hfound]. cbv beta iota.
    pose proof (gang_step first max n cur results ltac:(unfold is_u32 in Hf; lia) Hinv Hlt Hcur _ _ Hfound) as Hst.
    assert (take slots t = Ok (f <$> slots, t)) as Et. { destruct Hfound as (e & _ & _ & -> & _). apply Htake. unfold is_u32 in Hu. lia. }
    apply runs_bind, (runs_eq _ _ _ _ _ Et). apply runs_ret. destruct (Z.eqb_spec next 0); [split; [done|]|]; now apply Hst.
Qed.

End Gang.

(** * The four functions *)

(** The item at [p] if its position is good. *)
Definition want (P : positions) (G : pos -> Prop) {HG : forall x, Decision (G x)} (p : Z) : option Z :=
  if decide (G (0, p)) then P !! (0, p) else None.
Definition wants (P : positions) (G : pos -> Prop) {HG : forall x, Decision (G x)} (a b : Z) : list Z := omap (want P G) (seqZ a (b - a)).

Definition valof (t : radix_tree) (s : slotref) : Z := match deref s t with Ok (v, _) => v | Err _ => 0 end.

Section Values.
Context (t : radix_tree) (P : positions) (T : tagset) (Hok : tree_ok t P T) (HH : 1 <= rt_height t).
Context (G : pos -> Prop) `{HG : !forall x, Decision (G x)} (Gin : forall x, G x -> is_Some (P !! x)).

Lemma deref_sref p v : P !! (0, p) = Some v -> deref (sref P p) t = Ok (v, t).
Proof.
  intros Hv. pose proof Hok as [Hm Hs Hg]. destruct (s_up _ _ Hs (0, p)) as [b Hb]; [eauto|cbn; lia|]. rewrite <- cell_0, up_cell in Hb by lia.
  unfold sref. cbn [deref]. change (0 + 1) with 1 in Hb. rewrite Hb. cbn [default from_option id].
  rewrite (get_slot_eq t P T (cell p 1)); [|done|done|cbn; lia|apply off_range]. rewrite kid_cell by lia. change (1 - 1) with 0. now rewrite cell_0, Hv.
Qed.

Lemma deref_hits l : deref_slots (omap (hit P G) l) t = Ok (omap (want P G) l, t) /\ valof t <$> omap (hit P G) l = omap (want P G) l.
Proof.
  induction l as [|p l [IH1 IH2]]; [done|]. cbn [omap list_omap]. destruct (decide (G (0, p))) as [Hg|Hg].
  - destruct (Gin _ Hg) as [v Hv]. assert (hit P G p = Some (sref P p)) as -> by (unfold hit; now rewrite decide_True).
    assert (want P G p = Some v) as -> by (unfold want; now rewrite decide_True). pose proof (deref_sref p v Hv) as Ed.
    pose proof (m_item _ _ _ (o_mem _ _ _ Hok) _ _ Hv) as [Hv0 _]. split.
    + cbn [deref_slots]. unfold mbind, ST_bind. rewrite Ed. change (list_omap Z slotref (hit P G) l) with (omap (hit P G) l). rewrite IH1.
      destruct (Z.eqb_spec v 0); [lia|]. done.
    + cbn [fmap list_fmap]. unfold valof at 1. rewrite Ed. f_equal. exact IH2.
  - assert (hit P G p = None) as -> by (unfold hit; now rewrite decide_False).
    assert (want P G p = None) as -> by (unfold want; now rewrite decide_False). done.
Qed.

Lemma hits_all {A} (f : slotref -> A) first max results : gang_spec P G f first max results -> 0 <= max ->
  exists sl, results = f <$> sl /\ deref_slots sl t = Ok (take (Z.to_nat max) (wants P G first (2 ^ 32)), t) /\
    valof t <$> sl = take (Z.to_nat max) (wants P G first (2 ^ 32)).
Proof.
  intros (e & He & -> & Hl & Hend) Hmax. exists (hits P G first e). split; [done|]. destruct (deref_hits (seqZ first (e - first))) as [E1 E2].
  assert (take (Z.to_nat max) (wants P G first (2 ^ 32)) = omap (want P G) (seqZ first (e - first))) as ->; [|now unfold hits; rewrite E1, E2].
  unfold wants. replace (2 ^ 32 - first) with ((e - first) + (2 ^ 32 - e)) by lia.
  rewrite seqZ_app, omap_app by lia. unfold zlen in *. rewrite length_fmap in *.
  assert (length (omap (want P G) (seqZ first (e - first))) = length (hits P G first e)) as El by (rewrite <- E2, length_fmap; done).
  rewrite take_app. rewrite (take_ge (omap (want P G) (seqZ first (e - first)))) by lia. destruct Hend as [Hm|Hn].
  - replace (Z.to_nat max - length (omap (want P G) (seqZ first (e - first))))%nat with 0%nat by lia. now rewrite take_0, app_nil_r.
  - assert (omap (want P G) (seqZ (first + (e - first)) (2 ^ 32 - e)) = []) as ->; [|now rewrite take_nil, app_nil_r].
    replace (first + (e - first)) with e by lia.
    assert (forall l, (forall p, p ∈ l -> ~ G (0, p)) -> omap (want P G) l = []) as Hnone.
    { induction l as [|p l IH]; [done|]. intros Hp. cbn. unfold want at 1. rewrite decide_False by (apply Hp; left). apply IH. intros; apply Hp; now right. }
    apply Hnone. intros p Hp%elem_of_seqZ. apply Hn. lia.
Qed.

End Values.

Lemma wants_none P G {HG : forall x, Decision (G x)} a b : (forall p, a <= p < b -> ~ G (0, p)) -> wants P G a b = [].
Proof.
  intros H. unfold wants. assert (forall l, (forall p, p ∈ l -> ~ G (0, p)) -> omap (want P G) l = []) as Hnone.
  { induction l as [|p l IH]; [done|]. intros Hp. cbn. unfold want at 1. rewrite decide_False by (apply Hp; left). apply IH. intros; apply Hp; now right. }
  apply Hnone. intros p Hp%elem_of_seqZ. apply H. lia.
Qed.

Lemma wants_first P G {HG : forall x, Decision (G x)} v : P !! (0, 0) = Some v -> G (0, 0) -> (forall p, 1 <= p -> ~ G (0, p)) ->
  wants P G 0 (2 ^ 32) = [v].
Proof.
  intros Hv Hg Hn. unfold wants. replace (2 ^ 32 - 0) with (1 + (2 ^ 32 - 1)) by lia. rewrite seqZ_app, omap_app by lia.
  assert (omap (want P G) (seqZ (0 + 1) (2 ^ 32 - 1)) = []) as ->.
  { pose proof (wants_none P G 1 (2 ^ 32)) as Hw. unfold wants in Hw. apply Hw. intros p Hp. apply Hn. lia. }
  rewrite app_nil_r. change (seqZ 0 1) with [0]. cbn. unfold want. rewrite decide_True by done. now rewrite Hv.
Qed.

Section Root.
Context (t : radix_tree) (P : positions) (T : tagset) (Hok : tree_ok t P T).
Context (G : pos -> Prop) `{HG : !forall x, Decision (G x)} (Gin : forall x, G x -> is_Some (P !! x)).
Context (Groot : rt_height t = 0 -> is_Some (P !! (0, 0)) -> G (0, 0)).
Context (find : Z -> Z -> Z -> RM (list slotref * Z)).
Context (Hfind : forall a cur max, 1 <= rt_height t -> P !! (rt_height t, 0) = Some a -> is_u32 cur -> cur < 64 ^ rt_height t -> 1 <= max ->
  runs (find a cur max) t (fun '(slots, next) t' => t' = t /\ found_ok P G cur max slots next)).
Context {A : Type} (direct : Z -> A) (take_ : list slotref -> RM (list A)) (f : slotref -> A).
Context (Hdirect : direct (rnode t) = f RootSlot).
Context (Htake : 1 <= rt_height t -> forall b c, take_ (hits P G b c) t = Ok (f <$> hits P G b c, t)).

Lemma gang_root_ok first max : is_u32 first -> 1 <= max ->
  runs (gang_root direct find take_ first max) t (fun results t' => t' = t /\
    exists sl, results = f <$> sl /\ deref_slots sl t = Ok (take (Z.to_nat max) (wants P G first (2 ^ 32)), t) /\
      valof t <$> sl = take (Z.to_nat max) (wants P G first (2 ^ 32))).
Proof.
  intros Hf Hmax. pose proof Hok as [Hm Hs Hg]. pose proof (m_height _ _ _ Hm) as H6. unfold gang_root. apply runs_gets.
  pose proof (m_root _ _ _ Hm) as Er. destruct (P !! (rt_height t, 0)) as [a|] eqn:Ea.
  2: { rewrite Er. cbn [Z.eqb]. apply runs_ret. split; [done|]. exists []. split; [done|]. pose proof (shape_empty _ _ Hs Ea) as ->.
       rewrite wants_none; [now rewrite take_nil|]. intros p _ C%Gin. rewrite lookup_empty in C. now destruct C. }
  pose proof (some_nonzero _ _ _ _ _ Hm Ea ltac:(cbn; lia)) as Hpa. destruct (Z.eqb_spec (rt_height t) 0) as [E0|E0].
  - pose proof Hdirect as Hd. rewrite Er in Hd |- *. destruct (Z.eqb_spec a 0); [destruct Hpa; lia|]. rewrite ptr_direct by apply Hpa. cbn [Z.eqb].
    apply runs_ret. split; [done|]. rewrite E0 in *.
    assert (forall p, 1 <= p -> ~ G (0, p)) as Hno. { intros p Hp C%Gin. rewrite (shape_high _ _ _ Hs) in C by (change (64 ^ 0) with 1; lia). now destruct C. }
    destruct (Z.ltb_spec 0 first).
    + exists []. split; [done|]. rewrite wants_none; [now rewrite take_nil|]. intros p Hp. apply Hno. lia.
    + exists [RootSlot]. split; [now rewrite Hd|]. replace first with 0 by (unfold is_u32 in Hf; lia).
      rewrite (wants_first P G a) by eauto. cbn [deref_slots]. unfold mbind, ST_bind, deref, gets. rewrite Er.
      destruct (Z.eqb_spec a 0); [done|]. destruct (Z.to_nat max) eqn:E; [lia|]. cbn [take]. rewrite take_nil. unfold valof. cbn. now rewrite Er.
  - rewrite Er. destruct (Z.eqb_spec (radix_tree_ptr_to_indirect a) 0) as [C|_]; [now apply ptr_indirect_nonzero in C|].
    rewrite ptr_indirect, ptr_roundtrip by (apply Hpa || now apply rt_ptr_u32). cbn [Z.eqb].
    destruct (m_node _ _ _ Hm _ _ Ea ltac:(cbn; lia)) as (_ & n & Hn & Hokn). apply (runs_node_at _ n); [done|].
    rewrite (n_height _ _ _ _ Hokn). cbn [fst]. apply runs_maxindex; [lia|].
    eapply runs_mono; [apply (gang_ok t P T Hok ltac:(lia) G Gin a find); [|intros b c _; apply Htake; lia|done|lia]|].
    + intros cur mx Hu Hc Hx. apply Hfind; done || lia.
    + intros results t' [-> Hspec]. split; [done|]. apply (hits_all t P T Hok ltac:(lia) G Gin f first max results); [done|lia].
Qed.

End Root.

Section Four.
Context (t : radix_tree) (P : positions) (T : tagset) (Hok : tree_ok t P T) (first max : Z) (Hf : is_u32 first) (Hmax : 1 <= max).

Lemma value_take G {HG : forall x, Decision (G x)} : (forall x, G x -> is_Some (P !! x)) -> 1 <= rt_height t ->
  forall b c, deref_slots (hits P G b c) t = Ok (valof t <$> hits P G b c, t).
Proof. intros Gin HH b c. destruct (deref_hits t P T Hok HH G Gin (seqZ b (c - b))) as [E1 E2]. unfold hits. now rewrite E1, E2. Qed.

Lemma occupied_in x : occupied P x -> is_Some (P !! x).
Proof. done. Qed.

Lemma tagged_in tag x : tagged T tag x -> is_Some (P !! x).
Proof. intros Hx. apply (t_in _ _ _ (o_tags _ _ _ Hok) _ _ Hx). Qed.

Lemma gang_lookup_ok : runs (radix_tree_gang_lookup first max) t (fun results t' => t' = t /\
  results = take (Z.to_nat max) (wants P (occupied P) first (2 ^ 32))).
Proof.
  unfold radix_tree_gang_lookup. eapply runs_mono.
  - apply (gang_root_ok t P T Hok (occupied P) occupied_in) with (f := valof t); try done.
    + intros a cur mx HH Ha Hu Hc Hx. now apply (lookup_search t P T Hok HH cur mx a).
    + intros HH b c. now apply value_take.
  - intros results t' (-> & sl & -> & _ & E). done.
Qed.

Lemma gang_lookup_slot_ok : runs (radix_tree_gang_lookup_slot first max) t (fun results t' => t' = t /\
  deref_slots results t = Ok (take (Z.to_nat max) (wants P (occupied P) first (2 ^ 32)), t)).
Proof.
  unfold radix_tree_gang_lookup_slot. eapply runs_mono.
  - apply (gang_root_ok t P T Hok (occupied P) occupied_in) with (f := fun s => s); try done.
    + intros a cur mx HH Ha Hu Hc Hx. now apply (lookup_search t P T Hok HH cur mx a).
    + intros HH b c. now rewrite list_fmap_id.
  - intros results t' (-> & sl & -> & E & _). rewrite list_fmap_id. done.
Qed.

(** Without the tag at the root nothing is tagged. *)
Lemma untagged tag : 0 <= tag < 2 -> (tag, (rt_height t, 0)) ∉ T -> wants P (tagged T tag) first (2 ^ 32) = [].
Proof.
  intros Ht Hn. apply wants_none. intros p Hp Hin. pose proof Hok as [Hm Hs Hg]. pose proof (m_height _ _ _ Hm).
  destruct (Z.lt_ge_cases p (64 ^ rt_height t)).
  - apply (tag_absent _ P T tag p (rt_height t) Hg) in Hin; [done|lia|]. rewrite cell_top by (unfold is_u32 in Hf; lia). done.
  - apply tagged_in in Hin. rewrite (shape_high _ _ _ Hs) in Hin by lia. now destruct Hin.
Qed.

Lemma gang_tag_frame {A} (direct : Z -> A) take_ (f : slotref -> A) tag : 0 <= tag < 2 -> direct (rnode t) = f RootSlot ->
  (1 <= rt_height t -> forall b c, take_ (hits P (tagged T tag) b c) t = Ok (f <$> hits P (tagged T tag) b c, t)) ->
  runs (g ← root_tag_get tag;
        if g =? 0 then mret [] else gang_root direct (fun slot index max => __lookup_tag slot index max tag) take_ first max) t
    (fun results t' => t' = t /\
      exists sl, results = f <$> sl /\ deref_slots sl t = Ok (take (Z.to_nat max) (wants P (tagged T tag) first (2 ^ 32)), t) /\
        valof t <$> sl = take (Z.to_nat max) (wants P (tagged T tag) first (2 ^ 32))).
Proof.
  intros Ht Hd Htake. pose proof Hok as [Hm Hs Hg]. destruct (root_tag_get_ok _ _ _ tag Hm Ht) as (v & Ev & Hv).
  apply runs_bind, (runs_eq _ _ _ _ _ Ev). rewrite Hv. destruct (bool_decide_reflect ((tag, (rt_height t, 0)) ∈ T)) as [Hin|Hn]; cbn [negb].
  - apply (gang_root_ok t P T Hok (tagged T tag) (tagged_in tag)); try done.
    + intros E _. unfold tagged. now rewrite E in Hin.
    + intros a cur mx HH Ha Hu Hc Hx. now apply (lookup_tag_search t P T Hok HH cur mx a).
  - apply runs_ret. split; [done|]. exists []. rewrite untagged by done. now rewrite take_nil.
Qed.

Lemma gang_lookup_tag_ok tag : 0 <= tag < 2 -> runs (radix_tree_gang_lookup_tag first max tag) t (fun results t' => t' = t /\
  results = take (Z.to_nat max) (wants P (tagged T tag) first (2 ^ 32))).
Proof.
  intros Ht. eapply runs_mono; [apply (gang_tag_frame id deref_slots (valof t) tag Ht); [done|]|].
  - intros HH b c. apply value_take; [apply tagged_in|done].
  - intros results t' (-> & sl & -> & _ & E). done.
Qed.

Lemma gang_lookup_tag_slot_ok tag : 0 <= tag < 2 -> runs (radix_tree_gang_lookup_tag_slot first max tag) t (fun results t' => t' = t /\
  deref_slots results t = Ok (take (Z.to_nat max) (wants P (tagged T tag) first (2 ^ 32)), t)).
Proof.
  intros Ht. eapply runs_mono; [apply (gang_tag_frame (fun _ => RootSlot) mret (fun s => s) tag Ht); [done|]|].
  - intros HH b c. now rewrite list_fmap_id.
  - intros results t' (-> & sl & -> & E & _). rewrite list_fmap_id. done.
Qed.

End Four.
