(* ===== verification/RadixFacts.v ===== *)
(** Radix trees: what the operations promise, in terms of the map from indices
    to items and the set of tagged indices that the tree stands for. *)

From stdpp Require Import gmap.
From S2P Require Import Prelude.
From S2P Require Import Bits FindBit Bitmap BitmapFacts BitmapRemap State RadixTree RadixInv RadixMem RadixInsert RadixTags RadixDelete RadixScan RadixGang.

(** The tree [t] stores the items [M]; [S] holds the pairs of a tag and an index
    that carries it. *)
Definition stores (t : radix_tree) (M : gmap Z Z) (S : gset (Z * Z)) : Prop := exists P T, rt_rep t M S P T.

Lemma rep_tree t M S P T : rt_rep t M S P T -> tree_ok t P T.
Proof. intros [R1 R2 R3 _ _]. done. Qed.

Lemma tree_stores t P T M S : tree_ok t P T -> (forall p, P !! (0, p) = M !! p) -> (forall tag p, (tag, (0, p)) ∈ T <-> (tag, p) ∈ S) -> stores t M S.
Proof. intros [O1 O2 O3] HM HS. exists P, T. split; done. Qed.

(** * Initialisation and preloading *)

Lemma init_stores mask objects : 0 <= mask < 2 ^ 22 -> NoDup objects -> Forall rt_ptr objects -> stores (INIT_RADIX_TREE mask objects) ∅ ∅.
Proof.
  intros Hmask Hd Hp. apply (tree_stores _ ∅ ∅); [|done|set_solver]. split; [|apply shape_none|split; set_solver].
  split; cbn [rt_height gfp_mask rnode nodes slab preloads INIT_RADIX_TREE]; try done; try lia.
  - unfold is_u32. lia.
  - intros tag Ht. rewrite (testbit_high mask 22) by (change __GFP_BITS_SHIFT with 22; lia). symmetry. apply bool_decide_eq_false. set_solver.
  - now rewrite app_nil_r.
  - intros a Ha. rewrite app_nil_r in Ha. split; [apply (proj1 (List.Forall_forall _ _) Hp), list_elem_of_In, Ha|]. split; [done|]. exists 0.
    apply elem_of_list_to_map_1.
    + rewrite <- list_fmap_compose. erewrite (list_fmap_ext _ id); [now rewrite list_fmap_id|done].
    + apply list_elem_of_fmap. now exists a.
Qed.

Lemma preload_ok t P T : tree_ok t P T ->
  runs radix_tree_preload t (fun r t' => tree_ok t' P T /\
    ((r = 0 /\ RADIX_TREE_MAX_PATH <= zlen (preloads t')) \/ (r = - ENOMEM /\ slab t' = []))).
Proof.
  intros Hok. unfold radix_tree_preload. change RADIX_TREE_MAX_PATH with 6.
  apply (runs_while (fun _ t1 => tree_ok t1 P T) (fun _ t1 => Z.max 0 (6 - zlen (preloads t1)))).
  - done.
  - unfold zlen. lia.
  - clear t Hok. intros [] t [Hm Hs Hg]. split; [lia|]. apply runs_gets. destruct (Z.ltb_spec (zlen (preloads t)) 6) as [Hlt|Hge].
    2: { apply runs_ret. split; [split; done|]. left. done. }
    unfold kmem_cache_alloc. apply runs_bind, runs_gets. destruct (slab t) as [|a s] eqn:Es.
    + apply runs_ret. cbn [Z.eqb]. apply runs_ret. split; [split; done|]. now right.
    + apply runs_bind, runs_modify, runs_ret. pose proof (m_free _ _ _ Hm a ltac:(rewrite Es; left)) as ([Ha _] & _).
      destruct (Z.eqb_spec a 0); [lia|]. apply runs_gets. cbn [rt_height gfp_mask rnode nodes slab preloads].
      destruct (Z.ltb_spec (zlen (preloads t)) 6); [|lia]. apply runs_bind, runs_modify, runs_ret. cbn [rt_height gfp_mask rnode nodes slab preloads].
      split; [|unfold zlen in *; rewrite length_cons; lia]. split; [|done|done].
      assert (s ++ a :: preloads t ≡ₚ slab t ++ preloads t) as Hperm by (rewrite Es; symmetry; apply Permutation_middle).
      apply (mem_ok_lists t P T); [done|rewrite Hperm; apply Hm|]. intros b. now rewrite Hperm.
Qed.

(** When the processor has gone, its pool returns to the cache. *)
Lemma callback_ok t P T action : tree_ok t P T ->
  runs (radix_tree_callback action) t (fun r t' => r = NOTIFY_OK /\ tree_ok t' P T /\
    if (action =? CPU_DEAD) || (action =? CPU_DEAD_FROZEN)
    then preloads t' = [] /\ length (slab t') = (length (slab t) + length (preloads t))%nat else t' = t).
Proof.
  intros Hok. unfold radix_tree_callback. apply runs_bind. destruct ((action =? CPU_DEAD) || (action =? CPU_DEAD_FROZEN)); [|now apply runs_ret, runs_ret].
  apply runs_gets. apply (runs_while (fun _ t1 => tree_ok t1 P T /\ (length (slab t1) + length (preloads t1) = length (slab t) + length (preloads t))%nat)
    (fun _ t1 => Z.of_nat (length (preloads t1)))).
  - done.
  - lia.
  - intros [] t1 [[Hm Hs Hg] El]. split; [lia|]. apply runs_gets. destruct (preloads t1) as [|a rtp] eqn:Ep.
    + apply runs_ret, runs_ret. split; [done|]. split; [done|]. rewrite Ep. cbn in El. split; [done|lia].
    + unfold kmem_cache_free. apply runs_bind, runs_gets, runs_modify, runs_bind, runs_modify, runs_ret. cbn [rt_height gfp_mask rnode nodes slab preloads].
      cbn [length] in *. split; [|lia]. split; [|lia]. split; [|done|done].
      assert ((a :: slab t1) ++ rtp ≡ₚ slab t1 ++ preloads t1) as Hperm by (rewrite Ep; apply Permutation_middle).
      apply (mem_ok_lists t1 P T); [done|rewrite Hperm; apply Hm|]. intros b. now rewrite Hperm.
Qed.

(** * Replacing an item through its slot *)

Lemma replace_ok t P T idx s item : tree_ok t P T -> is_u32 idx -> is_Some (P !! (0, idx)) -> slot_spec t P idx s -> rt_ptr item ->
  runs (radix_tree_replace_slot s item) t (fun _ t' => tree_ok t' (<[(0, idx) := item]> P) T).
Proof.
  intros Hok Hi [v Hv] Hsl Hp. pose proof Hok as [Hm Hs Hg]. pose proof (m_height _ _ _ Hm) as H6.
  assert (idx < 64 ^ rt_height t) as Hlt.
  { destruct (Z.lt_ge_cases idx (64 ^ rt_height t)); [done|]. rewrite (shape_high _ _ _ Hs) in Hv by lia. done. }
  unfold radix_tree_replace_slot. rewrite ptr_direct by apply Hp. cbn [Z.eqb negb]. destruct s as [|a i].
  - cbn in Hsl. rewrite Hsl in Hlt. change (64 ^ 0) with 1 in Hlt. replace idx with 0 in * by (unfold is_u32 in Hi; lia).
    apply runs_modify. split; cbn [rt_height]; [|rewrite <- (cell_0 0); apply shape_add; rewrite ?Hsl; try done; try lia; now rewrite <- Hsl|now apply tags_add].
    apply (mem_ok_root t P T); try done.
    + rewrite Hsl, lookup_insert_eq. done.
    + intros p w. rewrite lookup_insert_Some. intros [[_ <-]|[_ Hx]]; [done|]. now apply (m_item _ _ _ Hm p).
    + intros x c Hx H1. rewrite lookup_insert_ne in Hx by (intros <-; cbn in H1; lia). destruct (s_range _ _ Hs _ _ Hx) as (Hr & _). lia.
  - destruct Hsl as (HH & Hx & ->). destruct (m_node _ _ _ Hm _ _ Hx ltac:(cbn; lia)) as (_ & n & Hn & Hokn).
    pose proof (kid_cell idx 1 ltac:(lia)) as Ek. change (1 - 1) with 0 in Ek. rewrite cell_0 in Ek.
    eapply set_slot_run; [apply off_range|done|apply Hokn|].
    assert (RtNode (nd_height n) (nd_count n) (<[Z.to_nat (off idx 1) := item]> (nd_slots n)) (nd_tags n) = put_slot n (off idx 1) item) as ->.
    { unfold put_slot. f_equal. pose proof (off_range idx 1). rewrite used_set by (rewrite (n_len _ _ _ _ Hokn); lia).
      rewrite (n_slots _ _ _ _ Hokn), Ek, Hv by done. cbn [default from_option id]. pose proof (m_item _ _ _ Hm _ _ Hv) as [? _]. destruct Hp as [? _].
      rewrite (n_count _ _ _ _ Hokn). destruct (Z.eqb_spec v 0), (Z.eqb_spec item 0); lia. }
    rewrite <- cell_0. split; cbn [rt_height with_nodes]; [|apply shape_add; eauto; lia|now apply tags_add].
    change (off idx 1) with (off idx (0 + 1)). rewrite <- cell_mod. change item with (default 0 (Some item)) at 1.
    apply (mem_ok_slot t P T (cell idx 0) a n (Some item)); [done|cbn; lia|now rewrite up_cell by lia|done| |].
    + intros w [= <-]. done.
    + intros b _ C. cbn in C. lia.
Qed.

(** * The operations on the map *)

Definition untag (idx : Z) (S : gset (Z * Z)) : gset (Z * Z) := filter (fun x => x.2 <> idx) S.

(** What [radix_tree_insert] returns and leaves. *)
Definition insert_spec (M : gmap Z Z) (S : gset (Z * Z)) (t : radix_tree) (idx item r : Z) (t' : radix_tree) : Prop :=
  (r = 0 /\ M !! idx = None /\ stores t' (<[idx := item]> M) S) \/
  (r = - EEXIST /\ is_Some (M !! idx) /\ stores t' M S) \/
  (r = - ENOMEM /\ M !! idx = None /\ stores t' M S /\ avail t' = 0%nat /\ (avail t <= 10)%nat).

(** What [radix_tree_lookup_slot] returns: a slot through which the item can be
    read and replaced. *)
Definition slot_result (M : gmap Z Z) (S : gset (Z * Z)) (t : radix_tree) (idx item : Z) (s : option slotref) : Prop :=
  match M !! idx, s with
  | None, None => True
  | Some v, Some s => radix_tree_deref_slot s t = Ok (v, t) /\
      runs (radix_tree_replace_slot s item) t (fun _ t' => stores t' (<[idx := item]> M) S)
  | _, _ => False
  end.

Section Ops.
Context (t : radix_tree) (M : gmap Z Z) (S : gset (Z * Z)) (idx item : Z).
Context (Hst : stores t M S) (Hi : is_u32 idx) (Hitem : rt_ptr item).

Lemma lookup_stores : runs (radix_tree_lookup idx) t (fun r t' => t' = t /\ r = default 0 (M !! idx)).
Proof.
  destruct Hst as (P & T & HR). pose proof HR as [R1 R2 _ R4 _]. eapply runs_eq; [now apply (lookup_ok t P T)|]. now rewrite R4.
Qed.

Lemma insert_stores : runs (radix_tree_insert idx item) t (insert_spec M S t idx item).
Proof.
  destruct Hst as (P & T & HR). pose proof HR as [_ _ _ R4 R5]. eapply runs_mono; [apply (insert_ok t P T idx item); [exact (rep_tree _ _ _ _ _ HR)|done|done]|].
  intros r t' (P' & T' & Hok & HT & Hc). assert (forall tag p, (tag, (0, p)) ∈ T' <-> (tag, p) ∈ S) as HT' by (intros; now rewrite HT, R5).
  unfold insert_spec. rewrite !R4. destruct Hc as [(-> & Hn & HP)|(HP & [(-> & Hy)|(-> & Hn & Ha & Hb)])].
  - left. split; [done|]. split; [done|]. apply (tree_stores t' P' T'); [done| |done]. intros p. rewrite HP.
    destruct (decide (p = idx)) as [-> |Hne]; [now rewrite !lookup_insert_eq|]. rewrite !lookup_insert_ne by congruence. now rewrite R4.
  - right. left. split; [done|]. split; [done|]. apply (tree_stores t' P' T'); [done| |done]. intros p. now rewrite HP, R4.
  - right. right. split; [done|]. split; [done|]. split; [|done]. apply (tree_stores t' P' T'); [done| |done]. intros p. now rewrite HP, R4.
Qed.

Lemma delete_stores : runs (radix_tree_delete idx) t (fun r t' => r = default 0 (M !! idx) /\ stores t' (delete idx M) (untag idx S)).
Proof.
  destruct Hst as (P & T & HR). pose proof HR as [_ _ _ R4 R5]. eapply runs_mono; [apply (delete_ok t P T idx); [exact (rep_tree _ _ _ _ _ HR)|done]|].
  intros r t' (-> & P' & T' & Hok & HP & HT). rewrite R4. split; [done|]. apply (tree_stores t' P' T'); [done| |].
  - intros p. rewrite HP. destruct (decide (p = idx)) as [-> |Hne]; [now rewrite !lookup_delete_eq|]. rewrite !lookup_delete_ne by congruence. now rewrite R4.
  - intros tag p. unfold untag. rewrite HT, elem_of_filter, R5. cbn. tauto.
Qed.

Lemma slot_stores : runs (radix_tree_lookup_slot idx) t (fun s t' => t' = t /\ slot_result M S t idx item s).
Proof.
  destruct Hst as (P & T & HR). pose proof (rep_tree _ _ _ _ _ HR) as Hok. pose proof HR as [R1 R2 _ R4 R5]. unfold radix_tree_lookup_slot. apply runs_bind.
  eapply runs_mono; [now apply (lookup_element_ok t P T idx)|]. intros r t' [-> Hr]. apply runs_ret. split; [done|]. unfold lookup_spec in Hr.
  unfold slot_result. rewrite R4. destruct (P !! (0, idx)) as [v|] eqn:Ev; [|now rewrite Hr]. destruct Hr as (s & -> & Hs). cbv iota.
  pose proof (m_item _ _ _ R1 _ _ Ev) as Hpv. split.
  - assert (deref s t = Ok (v, t)) as Ed.
    { destruct s as [|a i]; cbn [deref].
      - unfold gets. rewrite (m_root _ _ _ R1). cbn in Hs. rewrite Hs in *. destruct (decide (idx = 0)) as [-> |Hne]; [now rewrite Ev|].
        rewrite (shape_high _ _ _ R2) in Ev; [done|lia|]. unfold is_u32 in Hi. change (64 ^ 0) with 1. lia.
      - destruct Hs as (HH & Hx & ->). rewrite (get_slot_eq t P T (cell idx 1)); [|done|done|cbn; lia|apply off_range].
        rewrite kid_cell by lia. change (1 - 1) with 0. now rewrite cell_0, Ev. }
    unfold radix_tree_deref_slot, mbind, ST_bind. rewrite Ed, ptr_direct by apply Hpv. done.
  - eapply runs_mono; [apply (replace_ok t P T idx s item); eauto|]. intros u t' Hok'. cbv beta in Hok'. apply (tree_stores t' _ T _ _ Hok').
    + intros p. destruct (decide (p = idx)) as [-> |Hne]; [now rewrite !lookup_insert_eq|]. rewrite !lookup_insert_ne by congruence. now rewrite R4.
    + intros tag p. now rewrite R5.
Qed.

(** * Tags *)

Context (tag : Z) (Htag : 0 <= tag < 2).

Lemma tag_set_stores : is_Some (M !! idx) ->
  runs (radix_tree_tag_set idx tag) t (fun r t' => r = default 0 (M !! idx) /\ stores t' M ({[(tag, idx)]} ∪ S)).
Proof.
  intros Hp. destruct Hst as (P & T & HR). pose proof HR as [_ _ _ R4 R5]. eapply runs_mono; [apply (tag_set_tree t P T idx tag); [exact (rep_tree _ _ _ _ _ HR)|done|done|now rewrite <- R4]|].
  intros r t' (Hr & T' & Hok & HT). rewrite R4, Hr. split; [done|]. apply (tree_stores t' P T'); [done|done|].
  intros tag' p. rewrite HT, elem_of_union, elem_of_singleton, R5. split; [intros [?|[-> ->]]; auto|]. intros [[= -> ->]|?]; auto.
Qed.

Lemma tag_clear_stores : runs (radix_tree_tag_clear idx tag) t (fun r t' => r = default 0 (M !! idx) /\ stores t' M (S ∖ {[(tag, idx)]})).
Proof.
  destruct Hst as (P & T & HR). pose proof HR as [_ _ _ R4 R5]. eapply runs_mono; [apply (tag_clear_tree t P T idx tag); [exact (rep_tree _ _ _ _ _ HR)|done|done]|].
  intros r t' (-> & _ & _ & T' & Hok & HT). rewrite R4. split; [done|]. apply (tree_stores t' P T'); [done|done|].
  intros tag' p. rewrite HT, elem_of_difference, elem_of_singleton, R5. split; intros [? Hne]; (split; [done|]); [intros [= -> ->]|intros [-> ->]]; now apply Hne.
Qed.

Lemma tag_get_stores : runs (radix_tree_tag_get idx tag) t (fun r t' => t' = t /\ r = Z.b2z (bool_decide ((tag, idx) ∈ S))).
Proof.
  destruct Hst as (P & T & HR). pose proof HR as [_ _ _ R4 R5]. eapply runs_mono; [apply (tag_get_tree t P T idx tag); [exact (rep_tree _ _ _ _ _ HR)|done|done]|].
  intros r t' (-> & ->). split; [done|]. f_equal. apply bool_decide_ext. now rewrite R5.
Qed.

Lemma tagged_stores : runs (radix_tree_tagged tag) t (fun r t' => t' = t /\ (r <> 0 <-> exists p, (tag, p) ∈ S)).
Proof.
  destruct Hst as (P & T & HR). pose proof HR as [_ _ _ R4 R5]. eapply runs_mono; [apply (tagged_ok t P T tag); [exact (rep_tree _ _ _ _ _ HR)|done]|].
  intros r t' (-> & Hr). split; [done|]. rewrite Hr. split; intros [p Hp]; exists p; now apply R5.
Qed.

End Ops.

(** * Scans *)

(** The items from [first] on, in the order of their indices. *)
Definition items_from (M : gmap Z Z) (first : Z) : list Z := omap (fun p => M !! p) (seqZ first (2 ^ 32 - first)).
Definition tagged_from (M : gmap Z Z) (S : gset (Z * Z)) (tag first : Z) : list Z :=
  omap (fun p => if decide ((tag, p) ∈ S) then M !! p else None) (seqZ first (2 ^ 32 - first)).

Lemma omap_same {A B} (f g : A -> option B) (l : list A) : (forall x, f x = g x) -> omap f l = omap g l.
Proof. intros H. induction l as [|x l IH]; [done|]. cbn. rewrite H. destruct (g x); [f_equal|]; apply IH. Qed.

Lemma wants_items t M S P T first : rt_rep t M S P T -> wants P (occupied P) first (2 ^ 32) = items_from M first.
Proof.
  intros HR. apply omap_same. intros p. unfold want. rewrite (r_items _ _ _ _ _ HR). destruct (decide (occupied P (0, p))) as [|Hn]; [done|].
  symmetry. now apply eq_None_not_Some.
Qed.

Lemma wants_tagged t M S P T tag first : rt_rep t M S P T -> wants P (tagged T tag) first (2 ^ 32) = tagged_from M S tag first.
Proof.
  intros HR. apply omap_same. intros p. unfold want. rewrite (r_items _ _ _ _ _ HR). pose proof (r_tagged _ _ _ _ _ HR tag p) as Ht.
  destruct (decide (tagged T tag (0, p))), (decide ((tag, p) ∈ S)); try done; unfold tagged in *; tauto.
Qed.

Lemma next_hole_stores t M S idx max_scan : stores t M S -> is_u32 idx -> is_u32 max_scan ->
  runs (radix_tree_next_hole idx max_scan) t (fun r t' => t' = t /\ exists n, 0 <= n <= max_scan /\ idx + n <= 2 ^ 32 /\ r = u32 (idx + n) /\
    (forall i, 0 <= i < n -> is_Some (M !! (idx + i))) /\ (n = max_scan \/ idx + n = 2 ^ 32 \/ M !! (idx + n) = None)).
Proof.
  intros (P & T & HR) Hi Hm. pose proof HR as [R1 R2 _ R4 _]. eapply runs_mono; [now apply (next_hole_ok t P T idx max_scan)|].
  intros r t' (-> & n & H1 & H2 & H3 & H4 & H5). split; [done|]. exists n. do 3 (split; [done|]). split; [intros i Hi'; rewrite R4; auto|]. now rewrite R4.
Qed.

Lemma prev_hole_stores t M S idx max_scan : stores t M S -> is_u32 idx -> is_u32 max_scan ->
  runs (radix_tree_prev_hole idx max_scan) t (fun r t' => t' = t /\ exists n, 0 <= n <= max_scan /\ r = u32 (idx - n) /\
    (forall i, 0 <= i < n -> is_Some (M !! (u32 (idx - i)))) /\ (n = max_scan \/ (0 < n /\ r = LONG_MAX) \/ M !! r = None)).
Proof.
  intros (P & T & HR) Hi Hm. pose proof HR as [R1 R2 _ R4 _]. eapply runs_mono; [now apply (prev_hole_ok t P T idx max_scan)|].
  intros r t' (-> & n & H1 & H2 & H3 & H4). split; [done|]. exists n. do 2 (split; [done|]). split; [intros i Hi'; rewrite R4; auto|]. now rewrite R4.
Qed.

(** * Examples *)

Definition ex_objects : list Z := [16; 32; 48; 64; 80; 96; 112; 128; 144; 160; 176; 192; 208].
Definition run {A} (m : RM A) (t : radix_tree) : radix_tree := match m t with Ok (_, t') => t' | Err _ => t end.
Definition value {A} (m : RM A) (t : radix_tree) : option A := match m t with Ok (v, _) => Some v | Err _ => None end.

Lemma init_examples : stores (INIT_RADIX_TREE 0 ex_objects) ∅ ∅ /\ stores (INIT_RADIX_TREE 0 (take 6 ex_objects)) ∅ ∅.
Proof.
  split; (apply init_stores; [lia|apply (bool_decide_unpack _); vm_compute; done|repeat constructor]).
Qed.

Lemma preload_stores t M S : stores t M S -> runs radix_tree_preload t (fun r t' => stores t' M S /\
  ((r = 0 /\ RADIX_TREE_MAX_PATH <= zlen (preloads t')) \/ (r = - ENOMEM /\ slab t' = []))).
Proof.
  intros (P & T & HR). pose proof HR as [_ _ _ R4 R5]. eapply runs_mono; [apply (preload_ok t P T), (rep_tree _ _ _ _ _ HR)|].
  intros r t' [Hok Hr]. split; [|done]. apply (tree_stores t' P T); [done|done|]. intros tag p. now rewrite R5.
Qed.

Lemma callback_stores t M S action : stores t M S -> runs (radix_tree_callback action) t (fun r t' => r = NOTIFY_OK /\ stores t' M S /\
  if (action =? CPU_DEAD) || (action =? CPU_DEAD_FROZEN)
  then preloads t' = [] /\ length (slab t') = (length (slab t) + length (preloads t))%nat else t' = t).
Proof.
  intros (P & T & HR). pose proof HR as [_ _ _ R4 R5]. eapply runs_mono; [apply (callback_ok t P T), (rep_tree _ _ _ _ _ HR)|].
  intros r t' (-> & Hok & Hr). split; [done|]. split; [|done]. apply (tree_stores t' P T); [done|done|]. intros tag p. now rewrite R5.
Qed.

(** A run from a tree that stores [M] and [S]. *)
Lemma run_post {A} (m : RM A) t v (Q : A -> radix_tree -> Prop) : runs m t Q -> value m t = Some v -> Q v (run m t).
Proof. unfold runs, value, run. destruct (m t) as [[a t']|]; [|done]. intros H [= <-]. exact H. Qed.

Definition ex_insert (t : radix_tree) (idx item : Z) : radix_tree := run (radix_tree_insert idx item) t.

Lemma ex_insert_stores t M S idx item : stores t M S -> is_u32 idx -> rt_ptr item -> value (radix_tree_insert idx item) t = Some 0 ->
  stores (ex_insert t idx item) (<[idx := item]> M) S.
Proof.
  intros Hst Hi Hp Hv. destruct (run_post _ _ _ _ (insert_stores t M S idx item Hst Hi Hp) Hv) as [(_ & _ & H)|[(C & _)|(C & _)]]; done.
Qed.

(** Items 1000 at 70 and 2000 at 71. *)
Definition ex_tree : radix_tree := ex_insert (ex_insert (INIT_RADIX_TREE 0 ex_objects) 70 1000) 71 2000.

Lemma ex_tree_stores : stores ex_tree {[71 := 2000; 70 := 1000]} ∅.
Proof.
  apply ex_insert_stores; [|done|done|vm_compute; reflexivity]. apply ex_insert_stores; [apply init_examples|done|done|vm_compute; reflexivity].
Qed.

(** Six preloaded nodes, nothing in the cache, an item at 0. *)
Definition ex_preloaded : radix_tree := ex_insert (run radix_tree_preload (INIT_RADIX_TREE 0 (take 6 ex_objects))) 0 1000.

(** Items at 2^31 and 2^31 - 1. *)
Definition ex_middle : radix_tree := ex_insert (ex_insert (INIT_RADIX_TREE 0 ex_objects) (2 ^ 31) 1000) (2 ^ 31 - 1) 2000.

Lemma ex_preloaded_stores : stores ex_preloaded {[0 := 1000]} ∅ /\ preloads ex_preloaded = [96; 80; 64; 48; 32; 16].
Proof.
  split; [|vm_compute; reflexivity]. apply ex_insert_stores; [|done|done|vm_compute; reflexivity].
  apply (run_post radix_tree_preload _ 0 _ (preload_stores _ ∅ ∅ (proj2 init_examples))). vm_compute. reflexivity.
Qed.

Lemma ex_middle_stores : stores ex_middle {[2 ^ 31 - 1 := 2000; 2 ^ 31 := 1000]} ∅.
Proof.
  apply ex_insert_stores; [|done|done|vm_compute; reflexivity]. apply ex_insert_stores; [apply init_examples|done|done|vm_compute; reflexivity].
Qed.

(** * Claims *)

(** C5: a radix tree implements a map from 32-bit indices to items.  A fresh tree
    stores nothing.  In a tree that stores [M], a lookup returns the item or NULL
    and changes nothing; an insertion adds the item, or returns -EEXIST for a
    taken index, or -ENOMEM when no node is left, and then the map is as before;
    a deletion returns what was stored and removes it with its tags; the slot
    that [radix_tree_lookup_slot] returns reads and replaces the item.  No call
    follows a bad pointer, runs into a BUG_ON or fails to return. *)
Theorem radix_map_refines :
  (forall mask objects, 0 <= mask < 2 ^ 22 -> NoDup objects -> Forall rt_ptr objects -> stores (INIT_RADIX_TREE mask objects) ∅ ∅) /\
  (forall t M S idx item, stores t M S -> is_u32 idx -> rt_ptr item ->
     runs (radix_tree_lookup idx) t (fun r t' => t' = t /\ r = default 0 (M !! idx)) /\
     runs (radix_tree_insert idx item) t (insert_spec M S t idx item) /\
     runs (radix_tree_delete idx) t (fun r t' => r = default 0 (M !! idx) /\ stores t' (delete idx M) (untag idx S)) /\
     runs (radix_tree_lookup_slot idx) t (fun s t' => t' = t /\ slot_result M S t idx item s)).
Proof.
  split; [exact init_stores|]. intros t M S idx item Hst Hi Hp. split; [now apply (lookup_stores t M S)|].
  split; [now apply insert_stores|]. split; [now apply delete_stores|]. now apply slot_stores.
Qed.

Lemma radix_map_refines_witness :
  stores (INIT_RADIX_TREE 0 ex_objects) ∅ ∅ /\
  value (radix_tree_lookup 71) ex_tree = Some 2000 /\ value (radix_tree_insert 70 3000) ex_tree = Some (- EEXIST) /\
  runs (radix_tree_insert (2 ^ 31) 3000) ex_tree (insert_spec {[71 := 2000; 70 := 1000]} ∅ ex_tree (2 ^ 31) 3000).
Proof.
  split; [apply (proj1 radix_map_refines); [lia|apply (bool_decide_unpack _); vm_compute; done|repeat constructor]|].
  split; [vm_compute; reflexivity|]. split; [vm_compute; reflexivity|].
  assert (is_u32 (2 ^ 31)) as Hi by (unfold is_u32; lia). assert (rt_ptr 3000) as Hp by done.
  exact (proj1 (proj2 (proj2 radix_map_refines ex_tree _ _ (2 ^ 31) 3000 ex_tree_stores Hi Hp))).
Defined.

(** C10: tags.  Setting a tag on a stored index tags that index and no other,
    clearing it removes just that one, [radix_tree_tag_get] tells whether the
    index carries the tag and [radix_tree_tagged] whether any index does: the
    tag bits of every node say whether something below carries the tag, and stay
    so.  All leave the items as they are and return the item. *)
Theorem radix_tags_correct t M S idx tag : stores t M S -> is_u32 idx -> 0 <= tag < 2 ->
  (is_Some (M !! idx) -> runs (radix_tree_tag_set idx tag) t (fun r t' => r = default 0 (M !! idx) /\ stores t' M ({[(tag, idx)]} ∪ S))) /\
  runs (radix_tree_tag_clear idx tag) t (fun r t' => r = default 0 (M !! idx) /\ stores t' M (S ∖ {[(tag, idx)]})) /\
  runs (radix_tree_tag_get idx tag) t (fun r t' => t' = t /\ r = Z.b2z (bool_decide ((tag, idx) ∈ S))) /\
  runs (radix_tree_tagged tag) t (fun r t' => t' = t /\ (r <> 0 <-> exists p, (tag, p) ∈ S)).
Proof.
  intros Hst Hi Ht. split; [intros; now apply tag_set_stores|]. split; [now apply tag_clear_stores|].
  split; [now apply (tag_get_stores t M S)|]. now apply (tagged_stores t M S).
Qed.

Lemma radix_tags_correct_witness :
  value (radix_tree_tag_get 70 1) (run (radix_tree_tag_set 70 1) ex_tree) = Some 1 /\
  runs (radix_tree_tag_set 70 1) ex_tree (fun r t' => r = 1000 /\ stores t' {[71 := 2000; 70 := 1000]} ({[(1, 70)]} ∪ ∅)).
Proof.
  split; [vm_compute; reflexivity|].
  assert (is_u32 70) as Hi by (unfold is_u32; lia). assert (0 <= 1 < 2) as Ht by lia.
  exact (proj1 (radix_tags_correct ex_tree _ _ 70 1 ex_tree_stores Hi Ht) (ex_intro _ 1000 eq_refl)).
Defined.

(** memory for insertions.  Preloading keeps the tree and leaves at least
    RADIX_TREE_MAX_PATH nodes in the pool, or returns -ENOMEM with the cache
    empty; when the processor goes offline the pool returns to the cache.  An
    insertion with eleven nodes available never fails for lack of memory.  Six,
    as many as the pool holds, are not enough: in a tree with an item at 0 the
    insertion at 2^31 returns -ENOMEM after a successful preload. *)
Lemma radix_preload_facts :
  (forall t M S, stores t M S -> runs radix_tree_preload t (fun r t' => stores t' M S /\
     ((r = 0 /\ RADIX_TREE_MAX_PATH <= zlen (preloads t')) \/ (r = - ENOMEM /\ slab t' = [])))) /\
  (forall t M S action, stores t M S -> runs (radix_tree_callback action) t (fun r t' => r = NOTIFY_OK /\ stores t' M S /\
     if (action =? CPU_DEAD) || (action =? CPU_DEAD_FROZEN)
     then preloads t' = [] /\ length (slab t') = (length (slab t) + length (preloads t))%nat else t' = t)) /\
  (forall t M S idx item, stores t M S -> is_u32 idx -> rt_ptr item -> (11 <= avail t)%nat ->
     runs (radix_tree_insert idx item) t (fun r _ => r = if bool_decide (is_Some (M !! idx)) then - EEXIST else 0)) /\
  (stores ex_preloaded {[0 := 1000]} ∅ /\ zlen (preloads ex_preloaded) = RADIX_TREE_MAX_PATH /\
   value (radix_tree_insert (2 ^ 31) 2000) ex_preloaded = Some (- ENOMEM)).
Proof.
  split; [exact preload_stores|]. split; [exact callback_stores|]. split.
  - intros t M S idx item Hst Hi Hp Ha. eapply runs_mono; [exact (insert_stores t M S idx item Hst Hi Hp)|]. intros r t' [(-> & Hn & _)|[(-> & Hy & _)|(_ & _ & _ & _ & C)]].
    + rewrite Hn. reflexivity.
    + now rewrite bool_decide_true.
    + lia.
  - destruct ex_preloaded_stores as [H1 H2]. split; [done|]. rewrite H2. split; [reflexivity|]. vm_compute. reflexivity.
Qed.

(** holes.  [radix_tree_next_hole] passes over stored indices only and stops
    at a hole, after [max_scan] indices, or at the end of the index space, where
    it returns 0.  [radix_tree_prev_hole] walks down in the same way, but it
    compares with LONG_MAX, the middle of the index space: with items at 2^31 and
    2^31 - 1 the search from 2^31 returns the stored index 2^31 - 1, and from a
    stored index 0 it goes on at the top of the index space. *)
Lemma radix_holes_facts :
  (forall t M S idx max_scan, stores t M S -> is_u32 idx -> is_u32 max_scan ->
     runs (radix_tree_next_hole idx max_scan) t (fun r t' => t' = t /\ exists n, 0 <= n <= max_scan /\ idx + n <= 2 ^ 32 /\ r = u32 (idx + n) /\
       (forall i, 0 <= i < n -> is_Some (M !! (idx + i))) /\ (n = max_scan \/ idx + n = 2 ^ 32 \/ M !! (idx + n) = None)) /\
     runs (radix_tree_prev_hole idx max_scan) t (fun r t' => t' = t /\ exists n, 0 <= n <= max_scan /\ r = u32 (idx - n) /\
       (forall i, 0 <= i < n -> is_Some (M !! (u32 (idx - i)))) /\ (n = max_scan \/ (0 < n /\ r = LONG_MAX) \/ M !! r = None))) /\
  (stores ex_middle {[2 ^ 31 - 1 := 2000; 2 ^ 31 := 1000]} ∅ /\ value (radix_tree_prev_hole (2 ^ 31) 10) ex_middle = Some (2 ^ 31 - 1) /\
   stores ex_preloaded {[0 := 1000]} ∅ /\ value (radix_tree_prev_hole 0 10) ex_preloaded = Some (2 ^ 32 - 1)).
Proof.
  split.
  - intros t M S idx max_scan Hst Hi Hm. split; [now apply (next_hole_stores t M S)|now apply (prev_hole_stores t M S)].
  - split; [apply ex_middle_stores|]. split; [vm_compute; reflexivity|]. split; [apply ex_preloaded_stores|]. vm_compute. reflexivity.
Qed.

(** gang lookups.  With room for at least one item the four gang lookups end
    and return the first [max_items] items (with the tag) from [first_index] on
    in the order of their indices, or all there are; the slot variants return
    slots that hold those items. *)
Lemma radix_gang_facts t M S first max tag : stores t M S -> is_u32 first -> 1 <= max -> 0 <= tag < 2 ->
  runs (radix_tree_gang_lookup first max) t (fun l t' => t' = t /\ l = take (Z.to_nat max) (items_from M first)) /\
  runs (radix_tree_gang_lookup_slot first max) t (fun l t' => t' = t /\ deref_slots l t = Ok (take (Z.to_nat max) (items_from M first), t)) /\
  runs (radix_tree_gang_lookup_tag first max tag) t (fun l t' => t' = t /\ l = take (Z.to_nat max) (tagged_from M S tag first)) /\
  runs (radix_tree_gang_lookup_tag_slot first max tag) t
    (fun l t' => t' = t /\ deref_slots l t = Ok (take (Z.to_nat max) (tagged_from M S tag first), t)).
Proof.
  intros (P & T & HR) Hf Hmax Ht. pose proof (rep_tree _ _ _ _ _ HR) as Hok.
  rewrite <- (wants_items t M S P T first HR), <- (wants_tagged t M S P T tag first HR).
  split; [now apply gang_lookup_ok with (T := T)|]. split; [now apply gang_lookup_slot_ok with (T := T)|].
  split; [now apply gang_lookup_tag_ok|now apply gang_lookup_tag_slot_ok].
Qed.

(** gang lookups. With room for at least one item the four gang lookups end
    and return the first [max_items] items (with the tag) from [first_index]
    on in the order of their indices, or all there are; the slot variants
    return slots that hold those items. Holes. [radix_tree_next_hole] passes
    over stored indices only and stops at a hole, after [max_scan] indices,
    or at the end of the index space, where it returns 0.
    [radix_tree_prev_hole] walks down in the same way, but it compares with
    LONG_MAX, the middle of the index space: with items at 2^31 and 2^31 - 1
    the search from 2^31 returns the stored index 2^31 - 1, and from a
    stored index 0 it goes on at the top of the index space. *)
Lemma radix_queries_facts :
  (forall t M S first max tag,
   stores t M S -> is_u32 first -> 1 <= max -> 0 <= tag < 2 ->
   runs (radix_tree_gang_lookup first max) t (fun l t' => t' = t /\ l = take (Z.to_nat max) (items_from M first)) /\
   runs (radix_tree_gang_lookup_slot first max) t (fun l t' => t' = t /\ deref_slots l t = Ok (take (Z.to_nat max) (items_from M first), t)) /\
   runs (radix_tree_gang_lookup_tag first max tag) t (fun l t' => t' = t /\ l = take (Z.to_nat max) (tagged_from M S tag first)) /\
   runs (radix_tree_gang_lookup_tag_slot first max tag) t
     (fun l t' => t' = t /\ deref_slots l t = Ok (take (Z.to_nat max) (tagged_from M S tag first), t))) /\
  ((forall t M S idx max_scan, stores t M S -> is_u32 idx -> is_u32 max_scan ->
      runs (radix_tree_next_hole idx max_scan) t (fun r t' => t' = t /\ exists n, 0 <= n <= max_scan /\ idx + n <= 2 ^ 32 /\ r = u32 (idx + n) /\
        (forall i, 0 <= i < n -> is_Some (M !! (idx + i))) /\ (n = max_scan \/ idx + n = 2 ^ 32 \/ M !! (idx + n) = None)) /\
      runs (radix_tree_prev_hole idx max_scan) t (fun r t' => t' = t /\ exists n, 0 <= n <= max_scan /\ r = u32 (idx - n) /\
        (forall i, 0 <= i < n -> is_Some (M !! (u32 (idx - i)))) /\ (n = max_scan \/ (0 < n /\ r = LONG_MAX) \/ M !! r = None))) /\
   (stores ex_middle {[2 ^ 31 - 1 := 2000; 2 ^ 31 := 1000]} ∅ /\ value (radix_tree_prev_hole (2 ^ 31) 10) ex_middle = Some (2 ^ 31 - 1) /\
    stores ex_preloaded {[0 := 1000]} ∅ /\ value (radix_tree_prev_hole 0 10) ex_preloaded = Some (2 ^ 32 - 1))).
Proof. split; [exact radix_gang_facts|]. exact radix_holes_facts. Qed.

(** C18: gang lookups. With room for at least one item the four gang lookups end
    and return the first [max_items] items (with the tag) from [first_index]
    on in the order of their indices, or all there are; the slot variants
    return slots that hold those items. Holes. [radix_tree_next_hole] passes
    over stored indices only and stops at a hole, after [max_scan] indices,
    or at the end of the index space, where it returns 0.
    [radix_tree_prev_hole] walks down in the same way, but it compares with
    LONG_MAX, the middle of the index space: with items at 2^31 and 2^31 - 1
    the search from 2^31 returns the stored index 2^31 - 1, and from a
    stored index 0 it goes on at the top of the index space. Memory for
    insertions. Preloading keeps the tree and leaves at least
    RADIX_TREE_MAX_PATH nodes in the pool, or returns -ENOMEM with the cache
    empty; when the processor goes offline the pool returns to the cache. An
    insertion with eleven nodes available never fails for lack of memory.
    Six, as many as the pool holds, are not enough: in a tree with an item
    at 0 the insertion at 2^31 returns -ENOMEM after a successful preload. *)
Theorem radix_queries_preload_correct :
  ((forall t M S first max tag,
    stores t M S -> is_u32 first -> 1 <= max -> 0 <= tag < 2 ->
    runs (radix_tree_gang_lookup first max) t (fun l t' => t' = t /\ l = take (Z.to_nat max) (items_from M first)) /\
    runs (radix_tree_gang_lookup_slot first max) t (fun l t' => t' = t /\ deref_slots l t = Ok (take (Z.to_nat max) (items_from M first), t)) /\
    runs (radix_tree_gang_lookup_tag first max tag) t (fun l t' => t' = t /\ l = take (Z.to_nat max) (tagged_from M S tag first)) /\
    runs (radix_tree_gang_lookup_tag_slot first max tag) t
      (fun l t' => t' = t /\ deref_slots l t = Ok (take (Z.to_nat max) (tagged_from M S tag first), t))) /\
   ((forall t M S idx max_scan, stores t M S -> is_u32 idx -> is_u32 max_scan ->
       runs (radix_tree_next_hole idx max_scan) t (fun r t' => t' = t /\ exists n, 0 <= n <= max_scan /\ idx + n <= 2 ^ 32 /\ r = u32 (idx + n) /\
         (forall i, 0 <= i < n -> is_Some (M !! (idx + i))) /\ (n = max_scan \/ idx + n = 2 ^ 32 \/ M !! (idx + n) = None)) /\
       runs (radix_tree_prev_hole idx max_scan) t (fun r t' => t' = t /\ exists n, 0 <= n <= max_scan /\ r = u32 (idx - n) /\
         (forall i, 0 <= i < n -> is_Some (M !! (u32 (idx - i)))) /\ (n = max_scan \/ (0 < n /\ r = LONG_MAX) \/ M !! r = None))) /\
    (stores ex_middle {[2 ^ 31 - 1 := 2000; 2 ^ 31 := 1000]} ∅ /\ value (radix_tree_prev_hole (2 ^ 31) 10) ex_middle = Some (2 ^ 31 - 1) /\
     stores ex_preloaded {[0 := 1000]} ∅ /\ value (radix_tree_prev_hole 0 10) ex_preloaded = Some (2 ^ 32 - 1)))) /\
  ((forall t M S, stores t M S -> runs radix_tree_preload t (fun r t' => stores t' M S /\
      ((r = 0 /\ RADIX_TREE_MAX_PATH <= zlen (preloads t')) \/ (r = - ENOMEM /\ slab t' = [])))) /\
   (forall t M S action, stores t M S -> runs (radix_tree_callback action) t (fun r t' => r = NOTIFY_OK /\ stores t' M S /\
      if (action =? CPU_DEAD) || (action =? CPU_DEAD_FROZEN)
      then preloads t' = [] /\ length (slab t') = (length (slab t) + length (preloads t))%nat else t' = t)) /\
   (forall t M S idx item, stores t M S -> is_u32 idx -> rt_ptr item -> (11 <= avail t)%nat ->
      runs (radix_tree_insert idx item) t (fun r _ => r = if bool_decide (is_Some (M !! idx)) then - EEXIST else 0)) /\
   (stores ex_preloaded {[0 := 1000]} ∅ /\ zlen (preloads ex_preloaded) = RADIX_TREE_MAX_PATH /\
    value (radix_tree_insert (2 ^ 31) 2000) ex_preloaded = Some (- ENOMEM))).
Proof. split; [exact radix_queries_facts|]. exact radix_preload_facts. Qed.

Lemma radix_queries_preload_correct_witness :
  ((value (radix_tree_gang_lookup 5 8) ex_tree = Some [1000; 2000] /\
    runs (radix_tree_gang_lookup 5 8) ex_tree (fun l t' => t' = ex_tree /\ l = take (Z.to_nat 8) (items_from {[71 := 2000; 70 := 1000]} 5))) /\
   (value (radix_tree_next_hole 70 10) ex_tree = Some 72 /\
    exists r t', radix_tree_next_hole 70 10 ex_tree = Ok (r, t') /\ t' = ex_tree)) /\
  ((exists r t', radix_tree_preload (INIT_RADIX_TREE 0 (take 6 ex_objects)) = Ok (r, t') /\ stores t' ∅ ∅) /\
   runs (radix_tree_insert (2 ^ 31) 2000) (INIT_RADIX_TREE 0 ex_objects) (fun r _ => r = 0)).
Proof.
  split.
  { split.
    { split; [vm_compute; reflexivity|].
      assert (is_u32 5) as Hf by (unfold is_u32; lia). assert (1 <= 8) as Hm by lia. assert (0 <= 0 < 2) as Ht by lia.
      exact (proj1 ((proj1 (proj1 radix_queries_preload_correct)) ex_tree _ _ 5 8 0 ex_tree_stores Hf Hm Ht)). }
    { split; [vm_compute; reflexivity|].
      assert (is_u32 70) as Hi by (unfold is_u32; lia). assert (is_u32 10) as Hm by (unfold is_u32; lia).
      destruct (proj1 (runs_exists _ _ _) (proj1 (proj1 (proj2 (proj1 radix_queries_preload_correct)) ex_tree _ _ 70 10 ex_tree_stores Hi Hm))) as (r & t' & E & H & _).
      exact (ex_intro _ r (ex_intro _ t' (conj E H))). } }
  { split.
    - destruct (proj1 (runs_exists _ _ _) (proj1 (proj2 radix_queries_preload_correct) _ _ _ (proj2 init_examples))) as (r & t' & E & H & _).
      exact (ex_intro _ r (ex_intro _ t' (conj E H))).
    - assert (is_u32 (2 ^ 31)) as Hi by (unfold is_u32; lia). assert (rt_ptr 2000) as Hp by done.
      assert (11 <= avail (INIT_RADIX_TREE 0 ex_objects))%nat as Ha by (vm_compute; lia).
      exact (proj1 (proj2 (proj2 (proj2 radix_queries_preload_correct))) _ ∅ ∅ (2 ^ 31) 2000 (proj1 init_examples) Hi Hp Ha). }
Defined.
