(* ===== verification/RbTree.v ===== *)
(** Red-black trees (lib/rbtree.c, include/linux/rbtree.h): the memory and the
    operations, at the level of pointers.

    A [struct rb_node] is embedded by its user in a larger object; the memory
    maps the address of a node to its three words.  The parent pointer and the
    colour share the word [rb_parent_color], whose two low bits are free
    because nodes are aligned.  Reading or writing through a pointer that is
    not the address of a node ([NULL] included) is an error, and so is a loop
    that does not end, so that an [Ok] below says that neither happens. *)

From stdpp Require Import gmap.
From S2P Require Import Prelude.
From S2P Require Import State.

(** * Memory *)

Record rb_node := RbNode { rb_parent_color : Z; rb_right : Z; rb_left : Z }.

(** The nodes, and the [rb_node] pointer of the one [struct rb_root]. *)
Record store := Store { mem : gmap Z rb_node; rb_root : Z }.

#[export] Instance rb_node_eq_dec : EqDecision rb_node.
Proof. solve_decision. Defined.

Definition RB_RED : Z := 0.
Definition RB_BLACK : Z := 1.

(** ** Computations on the memory *)

Abbreviation M := (ST store).

Definition load (a : Z) : M rb_node := fun s =>
  match mem s !! a with Some n => Ok (n, s) | None => Err OutOfBounds end.
Definition assign (a : Z) (n : rb_node) : M unit := fun s =>
  match mem s !! a with
  | Some _ => Ok (tt, Store (<[a := n]> (mem s)) (rb_root s))
  | None => Err OutOfBounds
  end.
Definition get_root : M Z := fun s => Ok (rb_root s, s).
Definition set_root (p : Z) : M unit := fun s => Ok (tt, Store (mem s) p).

(** Every loop of the file follows the links of a tree whose nodes are in the
    memory, so the number of nodes bounds its iterations. *)
Definition node_fuel : M nat := fun s => Ok (S (size (mem s)), s).

(** ** Fields *)

Definition get_left (a : Z) : M Z := n ← load a; mret (rb_left n).
Definition get_right (a : Z) : M Z := n ← load a; mret (rb_right n).
Definition set_left (a v : Z) : M unit :=
  n ← load a; assign a (RbNode (rb_parent_color n) (rb_right n) v).
Definition set_right (a v : Z) : M unit :=
  n ← load a; assign a (RbNode (rb_parent_color n) v (rb_left n)).
Definition set_parent_color (a v : Z) : M unit :=
  n ← load a; assign a (RbNode v (rb_right n) (rb_left n)).

(** ** The macros of rbtree.h *)

Definition rb_parent (r : Z) : M Z :=
  n ← load r; mret (Z.land (rb_parent_color n) (lnot32 3)).
Definition rb_color (r : Z) : M Z :=
  n ← load r; mret (Z.land (rb_parent_color n) 1).
Definition rb_is_red (r : Z) : M bool := c ← rb_color r; mret (c =? 0).
Definition rb_is_black (r : Z) : M bool := c ← rb_color r; mret (negb (c =? 0)).
Definition rb_set_red (r : Z) : M unit :=
  n ← load r; set_parent_color r (Z.land (rb_parent_color n) (lnot32 1)).
Definition rb_set_black (r : Z) : M unit :=
  n ← load r; set_parent_color r (Z.lor (rb_parent_color n) 1).
Definition rb_set_parent (rb p : Z) : M unit :=
  n ← load rb; set_parent_color rb (Z.lor (Z.land (rb_parent_color n) 3) p).
Definition rb_set_color (rb color : Z) : M unit :=
  n ← load rb; set_parent_color rb (Z.lor (Z.land (rb_parent_color n) (lnot32 1)) color).

Definition RB_EMPTY_ROOT : M bool := r ← get_root; mret (r =? 0).
Definition RB_EMPTY_NODE (node : Z) : M bool := p ← rb_parent node; mret (p =? node).
Definition RB_CLEAR_NODE (node : Z) : M unit := rb_set_parent node node.

(** The [struct rb_node **] argument of [rb_link_node]: where the pointer to
    the new node is written. *)
Inductive rb_link := LinkRoot | LinkLeft (p : Z) | LinkRight (p : Z).

Definition write_link (l : rb_link) (v : Z) : M unit :=
  match l with
  | LinkRoot => set_root v
  | LinkLeft p => set_left p v
  | LinkRight p => set_right p v
  end.
Definition read_link (l : rb_link) : M Z :=
  match l with
  | LinkRoot => get_root
  | LinkLeft p => get_left p
  | LinkRight p => get_right p
  end.

Definition rb_link_node (node parent : Z) (link : rb_link) : M unit :=
  set_parent_color node parent;;
  set_right node 0;;
  set_left node 0;;
  write_link link node.

(** * Rotations *)

Definition __rb_rotate_left (node : Z) : M unit :=
  right ← get_right node;
  parent ← rb_parent node;
  rl ← get_left right;
  set_right node rl;;
  (if negb (rl =? 0) then rl' ← get_left right; rb_set_parent rl' node else mret tt);;
  set_left right node;;
  rb_set_parent right parent;;
  (if negb (parent =? 0) then
     pl ← get_left parent;
     if node =? pl then set_left parent right else set_right parent right
   else set_root right);;
  rb_set_parent node right.

Definition __rb_rotate_right (node : Z) : M unit :=
  left ← get_left node;
  parent ← rb_parent node;
  lr ← get_right left;
  set_left node lr;;
  (if negb (lr =? 0) then lr' ← get_right left; rb_set_parent lr' node else mret tt);;
  set_right left node;;
  rb_set_parent left parent;;
  (if negb (parent =? 0) then
     pr ← get_right parent;
     if node =? pr then set_right parent left else set_left parent left
   else set_root left);;
  rb_set_parent node left.

(** * Insertion *)

(** [p && rb_is_red(p)] and [!p || rb_is_black(p)], with C's short circuit. *)
Definition and_is_red (p : Z) : M bool :=
  if negb (p =? 0) then rb_is_red p else mret false.
Definition null_or_black (p : Z) : M bool :=
  if p =? 0 then mret true else rb_is_black p.

Definition rb_insert_color_step (node : Z) : M (Z + unit) :=
  parent ← rb_parent node;
  go ← and_is_red parent;
  if negb go then mret (inr tt) else
  gparent ← rb_parent parent;
  gl ← get_left gparent;
  if parent =? gl then
    uncle ← get_right gparent;
    ured ← and_is_red uncle;
    if (ured : bool) then
      rb_set_black uncle;;
      rb_set_black parent;;
      rb_set_red gparent;;
      mret (inl gparent)
    else
      pr ← get_right parent;
      '(parent, node) ← (if pr =? node
                         then __rb_rotate_left parent;; mret (node, parent)
                         else mret (parent, node));
      rb_set_black parent;;
      rb_set_red gparent;;
      __rb_rotate_right gparent;;
      mret (inl node)
  else
    uncle ← get_left gparent;
    ured ← and_is_red uncle;
    if (ured : bool) then
      rb_set_black uncle;;
      rb_set_black parent;;
      rb_set_red gparent;;
      mret (inl gparent)
    else
      pl ← get_left parent;
      '(parent, node) ← (if pl =? node
                         then __rb_rotate_right parent;; mret (node, parent)
                         else mret (parent, node));
      rb_set_black parent;;
      rb_set_red gparent;;
      __rb_rotate_left gparent;;
      mret (inl node).

Definition rb_insert_color (node : Z) : M unit :=
  fuel ← node_fuel;
  while fuel rb_insert_color_step node;;
  root ← get_root;
  rb_set_black root.

(** * Removal *)

(** The part of an iteration of [__rb_erase_color] that comes after the test of
    a red sibling, for a left child and for a right child: [other] is now the
    sibling of the node whose side is one black node short. *)
Definition erase_other_left (other parent : Z) : M ((Z * Z) + Z) :=
  ol ← get_left other;
  lb ← null_or_black ol;
  or ← get_right other;
  rb ← (if (lb : bool) then null_or_black or else mret false);
  if lb && rb then
    rb_set_red other;;
    pp ← rb_parent parent;
    mret (inl (parent, pp))
  else
    or ← get_right other;
    rb ← null_or_black or;
    other ← (if (rb : bool) then
               ol ← get_left other;
               rb_set_black ol;;
               rb_set_red other;;
               __rb_rotate_right other;;
               get_right parent
             else mret other);
    c ← rb_color parent;
    rb_set_color other c;;
    rb_set_black parent;;
    or ← get_right other;
    rb_set_black or;;
    __rb_rotate_left parent;;
    root ← get_root;
    mret (inr root).

Definition erase_other_right (other parent : Z) : M ((Z * Z) + Z) :=
  ol ← get_left other;
  lb ← null_or_black ol;
  or ← get_right other;
  rb ← (if (lb : bool) then null_or_black or else mret false);
  if lb && rb then
    rb_set_red other;;
    pp ← rb_parent parent;
    mret (inl (parent, pp))
  else
    ol ← get_left other;
    lb ← null_or_black ol;
    other ← (if (lb : bool) then
               or ← get_right other;
               rb_set_black or;;
               rb_set_red other;;
               __rb_rotate_left other;;
               get_left parent
             else mret other);
    c ← rb_color parent;
    rb_set_color other c;;
    rb_set_black parent;;
    ol ← get_left other;
    rb_set_black ol;;
    __rb_rotate_right parent;;
    root ← get_root;
    mret (inr root).

(** One iteration of the loop of [__rb_erase_color]; the result is the value
    of [node] when the loop is left. *)
Definition __rb_erase_color_step (st : Z * Z) : M ((Z * Z) + Z) :=
  let '(node, parent) := st in
  nb ← null_or_black node;
  root ← get_root;
  if negb (nb && negb (node =? root)) then mret (inr node) else
  pl ← get_left parent;
  if pl =? node then
    other ← get_right parent;
    red ← rb_is_red other;
    other ← (if (red : bool) then
               rb_set_black other;;
               rb_set_red parent;;
               __rb_rotate_left parent;;
               get_right parent
             else mret other);
    erase_other_left other parent
  else
    other ← get_left parent;
    red ← rb_is_red other;
    other ← (if (red : bool) then
               rb_set_black other;;
               rb_set_red parent;;
               __rb_rotate_right parent;;
               get_left parent
             else mret other);
    erase_other_right other parent.

Definition __rb_erase_color (node parent : Z) : M unit :=
  fuel ← node_fuel;
  node ← while fuel __rb_erase_color_step (node, parent);
  if negb (node =? 0) then rb_set_black node else mret tt.

(** [while (n->rb_left) n = n->rb_left;] and its mirror image. *)
Definition down_left (n : Z) : M Z :=
  fuel ← node_fuel;
  while fuel (fun n => l ← get_left n; mret (if negb (l =? 0) then inl l else inr n)) n.
Definition down_right (n : Z) : M Z :=
  fuel ← node_fuel;
  while fuel (fun n => r ← get_right n; mret (if negb (r =? 0) then inl r else inr n)) n.

(** The branch of [rb_erase] for a node [old] with two children: its in-order
    successor takes its place.  The result is [child], [parent] and [color]. *)
Definition rb_erase_two (old : Z) : M (Z * Z * Z) :=
  r ← get_right old;
  node ← down_left r;
  op ← rb_parent old;
  (if negb (op =? 0) then
     ol ← get_left op;
     if ol =? old then set_left op node else set_right op node
   else set_root node);;
  child ← get_right node;
  parent ← rb_parent node;
  color ← rb_color node;
  parent ← (if parent =? old then mret node else
              (if negb (child =? 0) then rb_set_parent child parent else mret tt);;
              set_left parent child;;
              or ← get_right old;
              set_right node or;;
              or ← get_right old;
              rb_set_parent or node;;
              mret parent);
  o ← load old;
  set_parent_color node (rb_parent_color o);;
  ol ← get_left old;
  set_left node ol;;
  ol ← get_left old;
  rb_set_parent ol node;;
  mret (child, parent, color).

(** The branch for a node with at most one child. *)
Definition rb_erase_one (node child : Z) : M (Z * Z * Z) :=
  parent ← rb_parent node;
  color ← rb_color node;
  (if negb (child =? 0) then rb_set_parent child parent else mret tt);;
  (if negb (parent =? 0) then
     pl ← get_left parent;
     if pl =? node then set_left parent child else set_right parent child
   else set_root child);;
  mret (child, parent, color).

Definition rb_erase (node : Z) : M unit :=
  l ← get_left node;
  r ← get_right node;
  '(child, parent, color) ← (if l =? 0 then rb_erase_one node r
                             else if r =? 0 then rb_erase_one node l
                             else rb_erase_two node);
  if color =? RB_BLACK then __rb_erase_color child parent else mret tt.

(** * Traversal and replacement *)

Definition rb_first : M Z :=
  n ← get_root;
  if n =? 0 then mret 0 else down_left n.

Definition rb_last : M Z :=
  n ← get_root;
  if n =? 0 then mret 0 else down_right n.

Definition rb_next (node : Z) : M Z :=
  p ← rb_parent node;
  if p =? node then mret 0 else
  r ← get_right node;
  if negb (r =? 0) then down_left r else
  fuel ← node_fuel;
  while fuel (fun node =>
    parent ← rb_parent node;
    if parent =? 0 then mret (inr parent) else
    pr ← get_right parent;
    mret (if node =? pr then inl parent else inr parent)) node.

Definition rb_prev (node : Z) : M Z :=
  p ← rb_parent node;
  if p =? node then mret 0 else
  l ← get_left node;
  if negb (l =? 0) then down_right l else
  fuel ← node_fuel;
  while fuel (fun node =>
    parent ← rb_parent node;
    if parent =? 0 then mret (inr parent) else
    pl ← get_left parent;
    mret (if node =? pl then inl parent else inr parent)) node.

Definition rb_replace_node (victim new : Z) : M unit :=
  parent ← rb_parent victim;
  (if negb (parent =? 0) then
     pl ← get_left parent;
     if victim =? pl then set_left parent new else set_right parent new
   else set_root new);;
  vl ← get_left victim;
  (if negb (vl =? 0) then vl' ← get_left victim; rb_set_parent vl' new else mret tt);;
  vr ← get_right victim;
  (if negb (vr =? 0) then vr' ← get_right victim; rb_set_parent vr' new else mret tt);;
  v ← load victim;
  assign new v.
