(* ===== verification/RbShape.v ===== *)
(** What a memory of red-black nodes represents.

    [tree] is the abstract tree, whose nodes carry their addresses; a [ctx] is
    the path from a node up to the root (a zipper).  [repr F s t] says that the
    memory of [s] holds exactly the nodes of [t], linked as [t] says, and
    equals [F] everywhere else.  The memory is described by a list of cells up
    to permutation, so that a write is described by changing one cell. *)

From stdpp Require Import gmap.
From AAC_tactics Require Import AAC Instances.
From S2P Require Import Prelude.
From S2P Require Import State RbTree.
Import Instances.Lists.

(** Lists up to permutation, for [aac_reflexivity]. *)
#[export] Instance perm_aac_lift {A} : AAC_lift (≡ₚ@{A}) (≡ₚ).
Proof. constructor; [apply _|]. intros l l' Hl m m' Hm. now rewrite Hl, Hm. Defined.

(** * Trees and contexts *)

Inductive color := Red | Black.
Inductive tree := E | T (c : color) (l : tree) (a : Z) (r : tree).

#[export] Instance color_eq_dec : EqDecision color.
Proof. solve_decision. Defined.

(** The focus is the left child of [a] with sibling [r], or its right child. *)
Inductive frame := FL (c : color) (a : Z) (r : tree) | FR (c : color) (l : tree) (a : Z).
Abbreviation ctx := (list frame).

Definition addr (t : tree) : Z := match t with E => 0 | T _ _ a _ => a end.
Definition col (t : tree) : color := match t with E => Black | T c _ _ _ => c end.
Definition blacken (t : tree) : tree := match t with E => E | T _ l a r => T Black l a r end.

Definition fill (f : frame) (t : tree) : tree :=
  match f with FL c a r => T c t a r | FR c l a => T c l a t end.
Fixpoint plug (k : ctx) (t : tree) : tree :=
  match k with [] => t | f :: k' => plug k' (fill f t) end.

Definition faddr (f : frame) : Z := match f with FL _ a _ | FR _ _ a => a end.
Definition fcol (f : frame) : color := match f with FL c _ _ | FR c _ _ => c end.
Definition sibling (f : frame) : tree := match f with FL _ _ r => r | FR _ l _ => l end.
Definition cparent (k : ctx) : Z := match k with [] => 0 | f :: _ => faddr f end.
Fixpoint croot (k : ctx) (a : Z) : Z := match k with [] => a | f :: k' => croot k' (faddr f) end.

(** The nodes from left to right. *)
Fixpoint inorder (t : tree) : list Z :=
  match t with E => [] | T _ l a r => inorder l ++ a :: inorder r end.
Fixpoint before (k : ctx) : list Z :=
  match k with [] => [] | FL _ _ _ :: k' => before k' | FR _ l a :: k' => before k' ++ inorder l ++ [a] end.
Fixpoint after (k : ctx) : list Z :=
  match k with [] => [] | FR _ _ _ :: k' => after k' | FL _ a r :: k' => a :: inorder r ++ after k' end.

Lemma plug_app k1 k2 t : plug (k1 ++ k2) t = plug k2 (plug k1 t).
Proof. revert t. induction k1 as [|f k1 IH]; intros t; [done|]. apply IH. Qed.

Lemma inorder_plug k t : inorder (plug k t) = before k ++ inorder t ++ after k.
Proof.
  revert t. induction k as [|[c a r|c l a] k IH]; intros t; cbn [plug fill before after].
  - cbn. now rewrite app_nil_r.
  - rewrite IH. cbn. now rewrite <- !app_assoc.
  - rewrite IH. cbn. now rewrite <- !app_assoc.
Qed.

Lemma addr_plug k t : addr (plug k t) = croot k (addr t).
Proof. revert t. induction k as [|f k IH]; intros t; [done|]. cbn. rewrite IH. now destruct f. Qed.

(** * Cells *)

Definition colz (c : color) : Z := match c with Red => RB_RED | Black => RB_BLACK end.
Definition pc (p : Z) (c : color) : Z := Z.lor p (colz c).

Abbreviation cell := (Z * rb_node)%type.

Fixpoint cells (p : Z) (t : tree) : list cell :=
  match t with
  | E => []
  | T c l a r => [(a, RbNode (pc p c) (addr r) (addr l))] ++ cells a l ++ cells a r
  end.

Fixpoint ccells (k : ctx) (hole : Z) : list cell :=
  match k with
  | [] => []
  | FL c a r :: k' => [(a, RbNode (pc (cparent k') c) (addr r) hole)] ++ cells a r ++ ccells k' a
  | FR c l a :: k' => [(a, RbNode (pc (cparent k') c) hole (addr l))] ++ cells a l ++ ccells k' a
  end.

Lemma cells_plug k t : cells 0 (plug k t) ≡ₚ ccells k (addr t) ++ cells (cparent k) t.
Proof.
  revert t. induction k as [|[c a r|c l a] k IH]; intros t; [done| |]; cbn [plug fill ccells cparent faddr];
    rewrite IH; cbn [cells addr]; aac_reflexivity.
Qed.

(** The same for a subtree whose parent is [q]. *)
Definition gparent (q : Z) (k : ctx) : Z := match k with [] => q | f :: _ => faddr f end.
Fixpoint gcells (q : Z) (k : ctx) (hole : Z) : list cell :=
  match k with
  | [] => []
  | FL c a r :: k' => [(a, RbNode (pc (gparent q k') c) (addr r) hole)] ++ cells a r ++ gcells q k' a
  | FR c l a :: k' => [(a, RbNode (pc (gparent q k') c) hole (addr l))] ++ cells a l ++ gcells q k' a
  end.

Lemma cells_gplug q k t : cells q (plug k t) ≡ₚ gcells q k (addr t) ++ cells (gparent q k) t.
Proof.
  revert t. induction k as [|[c a r|c l a] k IH]; intros t; [done| |]; cbn [plug fill gcells gparent faddr];
    rewrite IH; cbn [cells addr]; aac_reflexivity.
Qed.

Lemma cells_inorder p t : (cells p t).*1 ≡ₚ inorder t.
Proof.
  revert p. induction t as [|c l IHl a r IHr]; intros p; [done|]. cbn.
  rewrite fmap_app, IHl, IHr. apply Permutation_middle.
Qed.

(** ** Addresses and the parent/colour word *)

Definition is_addr (a : Z) : Prop := 0 < a < 2 ^ 32 /\ a mod 4 = 0.
Definition is_ptr (a : Z) : Prop := 0 <= a < 2 ^ 32 /\ a mod 4 = 0.

#[export] Instance is_addr_dec a : Decision (is_addr a).
Proof. unfold is_addr. apply _. Defined.

Lemma is_addr_ptr a : is_addr a -> is_ptr a.
Proof. unfold is_addr, is_ptr. lia. Qed.
Lemma is_ptr_null : is_ptr 0.
Proof. unfold is_ptr. split; [lia|done]. Qed.

Lemma ptr_low_bits p : is_ptr p -> Z.testbit p 0 = false /\ Z.testbit p 1 = false.
Proof.
  intros [_ H]. change 4 with (2 ^ 2) in H. split.
  - rewrite <- (Z.mod_pow2_bits_low p 2 0), H by lia. apply Z.testbit_0_l.
  - rewrite <- (Z.mod_pow2_bits_low p 2 1), H by lia. apply Z.testbit_0_l.
Qed.

Lemma colz_high c i : 1 <= i -> Z.testbit (colz c) i = false.
Proof. intros. destruct c; cbn [colz]; unfold RB_RED, RB_BLACK; [apply Z.testbit_0_l|]. apply (testbit_high 1 1); lia. Qed.

Lemma colz_u32 c : is_u32 (colz c).
Proof. destruct c; unfold is_u32; cbn; unfold RB_RED, RB_BLACK; lia. Qed.

Ltac word_facts p :=
  let H := fresh in
  match goal with Hp : is_ptr p |- _ => pose proof (ptr_low_bits _ Hp) as [? ?]; destruct Hp as [? _] end.
Ltac colour_bits :=
  let i := fresh "i" in let Hi := fresh "Hi" in let Hge := fresh "Hge" in
  unfold pc; apply bits_ext32; [..|intros i Hi];
  [repeat first [apply land_u32 | apply lor_u32 | apply lnot32_range | apply colz_u32 | assumption | (unfold is_u32; lia)] ..|];
  rewrite ?Z.land_spec, ?Z.lor_spec, ?Z.land_spec, ?Z.lor_spec, ?testbit_lnot32 by lia;
  assert (i = 0 \/ i = 1 \/ 2 <= i) as [-> | [-> | Hge]] by lia;
  [| |rewrite ?(testbit_high 1 1 i), ?(testbit_high 3 2 i), ?colz_high by lia];
  repeat match goal with H : Z.testbit _ _ = false |- _ => rewrite H end;
  repeat match goal with c : color |- _ => destruct c end; cbn;
  rewrite ?andb_true_r, ?andb_false_r, ?orb_false_r; try reflexivity.

Lemma pc_parent p c : is_ptr p -> Z.land (pc p c) (lnot32 3) = p.
Proof. intros Hp. word_facts p. colour_bits. Qed.
Lemma pc_color p c : is_ptr p -> Z.land (pc p c) 1 = colz c.
Proof. intros Hp. word_facts p. colour_bits. Qed.
Lemma pc_red p c : is_ptr p -> Z.land (pc p c) (lnot32 1) = pc p Red.
Proof. intros Hp. word_facts p. colour_bits. Qed.
Lemma pc_black p c : is_ptr p -> Z.lor (pc p c) 1 = pc p Black.
Proof. intros Hp. word_facts p. colour_bits. Qed.
Lemma pc_set_parent p q c : is_ptr p -> is_ptr q -> Z.lor (Z.land (pc p c) 3) q = pc q c.
Proof. intros Hp Hq. word_facts p. word_facts q. colour_bits. Qed.
Lemma pc_set_color p c c' : is_ptr p -> Z.lor (Z.land (pc p c) (lnot32 1)) (colz c') = pc p c'.
Proof. intros Hp. word_facts p. colour_bits. Qed.

(** * The memory holds a list of cells *)

Record sat (F : gmap Z rb_node) (s : store) (L : list cell) : Prop := {
  sat_nodup : NoDup L.*1;
  sat_addr : forall a, a ∈ L.*1 -> is_addr a;
  sat_in : forall a n, (a, n) ∈ L -> mem s !! a = Some n;
  sat_out : forall a, a ∉ L.*1 -> mem s !! a = F !! a
}.

(** The tree [t] is in memory, and the root points to it. *)
Record repr (F : gmap Z rb_node) (s : store) (t : tree) : Prop := {
  repr_sat : sat F s (cells 0 t);
  repr_root : rb_root s = addr t
}.

Section Sat.
Context (F : gmap Z rb_node).

Lemma sat_perm s L L' : L ≡ₚ L' -> sat F s L -> sat F s L'.
Proof.
  intros HL [H1 H2 H3 H4]. split.
  - now rewrite <- HL.
  - intros a. rewrite <- HL. apply H2.
  - intros a n. rewrite <- HL. apply H3.
  - intros a. rewrite <- HL. apply H4.
Qed.

Lemma sat_root s L r : sat F s L -> sat F (Store (mem s) r) L.
Proof. intros [H1 H2 H3 H4]. now split. Qed.

Lemma sat_cell s L a n : sat F s L -> (a, n) ∈ L -> mem s !! a = Some n /\ is_addr a.
Proof.
  intros H Ha. split; [now apply (sat_in _ _ _ H)|].
  apply (sat_addr _ _ _ H). apply list_elem_of_fmap. now exists (a, n).
Qed.

Lemma sat_write s L1 L2 a n n' r :
  sat F s (L1 ++ (a, n) :: L2) ->
  sat F (Store (<[a := n']> (mem s)) r) (L1 ++ (a, n') :: L2).
Proof.
  intros [H1 H2 H3 H4]. rewrite fmap_app, fmap_cons in H1. cbn in H1.
  assert ((a ∉ L1.*1) /\ (a ∉ L2.*1)) as [Ha1 Ha2].
  { apply list.NoDup_app in H1 as (_ & Hd & Hc). apply list.NoDup_cons in Hc as [? _].
    split; [|done]. intros Hin. apply (Hd _ Hin). left. }
  assert (forall x m, ((x, m) ∈ L1 \/ (x, m) ∈ L2) -> x <> a) as Hne.
  { intros x m Hx ->. destruct Hx; [apply Ha1|apply Ha2]; apply list_elem_of_fmap; now exists (a, m). }
  split; cbn.
  - rewrite fmap_app, fmap_cons. done.
  - intros x Hx. apply H2. rewrite fmap_app, fmap_cons in *. done.
  - intros x m Hx. rewrite elem_of_app, elem_of_cons in Hx.
    destruct Hx as [Hx|[[= -> ->]|Hx]].
    + rewrite lookup_insert_ne by (apply not_eq_sym; eauto). apply H3. rewrite elem_of_app. auto.
    + apply lookup_insert_eq.
    + rewrite lookup_insert_ne by (apply not_eq_sym; eauto). apply H3. rewrite elem_of_app, elem_of_cons. auto.
  - intros x Hx. rewrite fmap_app, fmap_cons, elem_of_app, elem_of_cons in Hx. cbn in Hx.
    rewrite lookup_insert_ne by (intros ->; tauto). apply H4.
    rewrite fmap_app, fmap_cons, elem_of_app, elem_of_cons. done.
Qed.

(** A new node enters the tree; a node of the tree leaves it. *)
Lemma sat_take s L a n : mem s !! a = Some n -> a ∉ L.*1 -> is_addr a -> sat F s L -> sat F s ((a, n) :: L).
Proof.
  intros Ha Hn Hv [H1 H2 H3 H4]. split; cbn.
  - now apply list.NoDup_cons.
  - intros x [-> | ?]%elem_of_cons; auto.
  - intros x m [[= -> ->]|?]%elem_of_cons; auto.
  - intros x Hx. apply H4. rewrite elem_of_cons in Hx. tauto.
Qed.

Lemma sat_drop s L a n : sat F s ((a, n) :: L) -> sat (<[a := n]> F) s L.
Proof.
  intros [H1 H2 H3 H4]. cbn in *. apply list.NoDup_cons in H1 as [Hn H1]. split; [done| | |].
  - intros x Hx. apply H2. now right.
  - intros x m Hx. apply H3. now right.
  - intros x Hx. destruct (decide (x = a)) as [-> | Hne].
    + rewrite lookup_insert_eq. apply H3. left.
    + rewrite lookup_insert_ne by done. apply H4. rewrite elem_of_cons. tauto.
Qed.

Lemma sat_size s L : sat F s L -> (length L <= size (mem s))%nat.
Proof.
  intros H. rewrite <- (length_fmap fst), <- size_dom.
  rewrite <- (size_list_to_set (C := gset Z)) by apply (sat_nodup _ _ _ H).
  apply subseteq_size. intros a Ha%elem_of_list_to_set.
  apply list_elem_of_fmap in Ha as ([b n] & -> & Hb).
  apply elem_of_dom. exists n. now apply (sat_in _ _ _ H).
Qed.

Lemma sat_ne s L1 L2 a b : sat F s (L1 ++ L2) -> a ∈ L1.*1 -> b ∈ L2.*1 -> a <> b.
Proof.
  intros H Ha Hb ->. pose proof (sat_nodup _ _ _ H) as Hd. rewrite fmap_app in Hd.
  apply list.NoDup_app in Hd as (_ & Hd & _). now apply (Hd b).
Qed.

End Sat.

(** * Primitive steps *)

(** [op] replaces the node at [a] by [g] of it. *)
Class Updates (op : M unit) (a : Z) (g : rb_node -> rb_node) : Prop :=
  updates : forall s n, mem s !! a = Some n ->
    op s = Ok (tt, Store (<[a := g n]> (mem s)) (rb_root s)).

Ltac solve_updates :=
  let H := fresh in
  intros s n H; repeat unfold rb_set_parent, rb_set_color, rb_set_black, rb_set_red, set_left, set_right,
    set_parent_color, load, assign, mbind, ST_bind; rewrite !H; cbn; rewrite ?H; reflexivity.

#[export] Instance set_left_updates a v :
  Updates (set_left a v) a (fun n => RbNode (rb_parent_color n) (rb_right n) v).
Proof. solve_updates. Qed.
#[export] Instance set_right_updates a v :
  Updates (set_right a v) a (fun n => RbNode (rb_parent_color n) v (rb_left n)).
Proof. solve_updates. Qed.
#[export] Instance set_parent_color_updates a v :
  Updates (set_parent_color a v) a (fun n => RbNode v (rb_right n) (rb_left n)).
Proof. solve_updates. Qed.
#[export] Instance rb_set_parent_updates a p :
  Updates (rb_set_parent a p) a (fun n => RbNode (Z.lor (Z.land (rb_parent_color n) 3) p) (rb_right n) (rb_left n)).
Proof. solve_updates. Qed.
#[export] Instance rb_set_red_updates a :
  Updates (rb_set_red a) a (fun n => RbNode (Z.land (rb_parent_color n) (lnot32 1)) (rb_right n) (rb_left n)).
Proof. solve_updates. Qed.
#[export] Instance rb_set_black_updates a :
  Updates (rb_set_black a) a (fun n => RbNode (Z.lor (rb_parent_color n) 1) (rb_right n) (rb_left n)).
Proof. solve_updates. Qed.
#[export] Instance rb_set_color_updates a c :
  Updates (rb_set_color a c) a (fun n => RbNode (Z.lor (Z.land (rb_parent_color n) (lnot32 1)) c) (rb_right n) (rb_left n)).
Proof. solve_updates. Qed.
#[export] Instance assign_updates a m : Updates (assign a m) a (fun _ => m).
Proof. solve_updates. Qed.

(** Reads of a node. *)
Lemma load_eq s a n : mem s !! a = Some n -> load a s = Ok (n, s).
Proof. unfold load. now intros ->. Qed.
Lemma get_left_eq s a n : mem s !! a = Some n -> get_left a s = Ok (rb_left n, s).
Proof. intros H. unfold get_left, mbind, ST_bind. now rewrite (load_eq _ _ _ H). Qed.
Lemma get_right_eq s a n : mem s !! a = Some n -> get_right a s = Ok (rb_right n, s).
Proof. intros H. unfold get_right, mbind, ST_bind. now rewrite (load_eq _ _ _ H). Qed.
Lemma rb_parent_eq s a p c l r : mem s !! a = Some (RbNode (pc p c) r l) -> is_ptr p ->
  rb_parent a s = Ok (p, s).
Proof. intros H Hp. unfold rb_parent, mbind, ST_bind. rewrite (load_eq _ _ _ H). cbn. now rewrite pc_parent. Qed.
Lemma rb_color_eq s a p c l r : mem s !! a = Some (RbNode (pc p c) r l) -> is_ptr p ->
  rb_color a s = Ok (colz c, s).
Proof. intros H Hp. unfold rb_color, mbind, ST_bind. rewrite (load_eq _ _ _ H). cbn. now rewrite pc_color. Qed.

Section Chunks.
Context (F : gmap Z rb_node).

Lemma runs_upd L1 L2 a n op g s (Q : unit -> store -> Prop) `{!Updates op a g} :
  sat F s (L1 ++ (a, n) :: L2) ->
  (forall s', rb_root s' = rb_root s -> sat F s' (L1 ++ (a, g n) :: L2) -> Q tt s') ->
  runs op s Q.
Proof.
  intros H HQ. destruct (sat_cell _ _ _ a n H) as [Ha _].
  { rewrite elem_of_app, elem_of_cons. auto. }
  eapply runs_eq; [exact (updates s n Ha)|]. apply HQ; [done|]. eapply sat_write, H.
Qed.

Lemma runs_upd_head R a n op g s (Q : unit -> store -> Prop) `{!Updates op a g} :
  sat F s ([(a, n)] ++ R) ->
  (forall s', rb_root s' = rb_root s -> sat F s' ([(a, g n)] ++ R) -> Q tt s') ->
  runs op s Q.
Proof. exact (runs_upd [] R a n op g s Q). Qed.

(** [if (child) rb_set_parent(child, q)] on a subtree. *)
Lemma runs_adopt p q y R (rd : M Z) s (Q : unit -> store -> Prop) :
  rd s = Ok (addr y, s) -> is_ptr p -> is_ptr q ->
  sat F s (cells p y ++ R) ->
  (forall s', rb_root s' = rb_root s -> sat F s' (cells q y ++ R) -> Q tt s') ->
  runs (if negb (addr y =? 0) then y' ← rd; rb_set_parent y' q else mret tt) s Q.
Proof.
  intros Hrd Hp Hq H HQ. destruct y as [|c l a r]; [apply runs_ret; now apply HQ|].
  cbn [addr] in *. destruct (sat_cell _ _ _ a _ H ltac:(left)) as [_ [Ha _]].
  destruct (Z.eqb_spec a 0); [lia|]. cbn [negb]. apply runs_bind, (runs_eq _ _ _ _ _ Hrd).
  cbn [cells] in *. rewrite <- !app_assoc in H. apply (runs_upd [] _ _ _ _ _ _ _ H).
  intros s' Hs'. cbn. rewrite pc_set_parent by done. intros H'. apply HQ; [done|].
  cbn. now rewrite <- !app_assoc.
Qed.

Lemma runs_adopt_direct p q y R s (Q : unit -> store -> Prop) :
  is_ptr p -> is_ptr q -> sat F s (cells p y ++ R) ->
  (forall s', rb_root s' = rb_root s -> sat F s' (cells q y ++ R) -> Q tt s') ->
  runs (if negb (addr y =? 0) then rb_set_parent (addr y) q else mret tt) s Q.
Proof. exact (runs_adopt p q y R (mret (addr y)) s Q eq_refl). Qed.

Lemma runs_adopt_node p q y R s (Q : unit -> store -> Prop) :
  y <> E -> is_ptr p -> is_ptr q -> sat F s (cells p y ++ R) ->
  (forall s', rb_root s' = rb_root s -> sat F s' (cells q y ++ R) -> Q tt s') ->
  runs (rb_set_parent (addr y) q) s Q.
Proof.
  intros Hy Hp Hq H HQ. pose proof (runs_adopt_direct p q y R s Q Hp Hq H HQ) as Hr.
  destruct y as [|c l a r]; [done|]. cbn [addr] in *.
  destruct (sat_cell _ _ _ a _ H ltac:(left)) as [_ [Ha _]].
  destruct (Z.eqb_spec a 0); [lia|done].
Qed.

(** The parent of [a], or the root pointer, gets a new child in place of [a]. *)
Lemma sibling_ne k f a R s : sat F s (ccells (f :: k) a ++ R) -> a ∈ R.*1 -> (a =? addr (sibling f)) = false.
Proof.
  intros H Ha. apply Z.eqb_neq. intros Heq.
  assert (is_addr a) as [Hp _].
  { apply (sat_addr _ _ _ H). rewrite fmap_app, elem_of_app. now right. }
  assert (a ∈ (ccells (f :: k) a).*1) as Hin; [|now apply (sat_ne _ _ _ _ a a H Hin Ha)].
  destruct f as [c p [|c' l b r]|c [|c' l b r] p]; cbn in Heq; subst; try lia; cbn;
    right; left.
Qed.

Ltac relink_tac :=
  match goal with
  | H : sat F ?s (ccells ?k ?a ++ ?R), Hr : rb_root ?s = croot ?k ?a, Ha : ?a ∈ ?R.*1,
    HQ : forall s', rb_root s' = croot ?k ?b -> _ |- _ =>
    destruct k as [|f k]; cbn [cparent faddr] in *;
    [change (0 =? 0) with true; cbn [negb]; eapply runs_eq; [reflexivity|];
     apply HQ; [reflexivity|now apply sat_root]|];
    pose proof (sibling_ne _ _ _ _ _ H Ha) as Hne;
    assert (exists n, mem s !! faddr f = Some n /\ is_addr (faddr f) /\
      rb_left n = (if f is FL _ _ _ then a else addr (sibling f)) /\
      rb_right n = (if f is FL _ _ _ then addr (sibling f) else a)) as (n & Hn & [Hp _] & Hl & Hrt);
    [destruct f as [c p r|c l p]; cbn [faddr sibling];
     (eexists; split; [apply (sat_in _ _ _ H); left|split; [|split; reflexivity]]);
     apply (sat_addr _ _ _ H); left|];
    destruct (Z.eqb_spec (faddr f) 0); [lia|]; cbn [negb];
    apply runs_bind; (eapply runs_eq; [first [apply (get_left_eq _ _ _ Hn)|apply (get_right_eq _ _ _ Hn)]|]);
    rewrite ?Hl, ?Hrt;
    destruct f as [c p r|c l p]; cbn [faddr sibling] in *; cbv iota;
    rewrite 1?Hne, 1?(Z.eqb_sym _ a), 1?Hne, 1?Z.eqb_refl;
    apply (runs_upd [] _ _ _ _ _ _ _ H); intros s' Hs' H'; (apply HQ; [rewrite Hs'; exact Hr|exact H'])
  end.

Lemma runs_relink_l k a b R s (Q : unit -> store -> Prop) :
  sat F s (ccells k a ++ R) -> rb_root s = croot k a -> a ∈ R.*1 ->
  (forall s', rb_root s' = croot k b -> sat F s' (ccells k b ++ R) -> Q tt s') ->
  runs (if negb (cparent k =? 0) then
          pl ← get_left (cparent k);
          if a =? pl then set_left (cparent k) b else set_right (cparent k) b
        else set_root b) s Q.
Proof. intros H Hr Ha HQ. relink_tac. Qed.

Lemma runs_relink_r k a b R s (Q : unit -> store -> Prop) :
  sat F s (ccells k a ++ R) -> rb_root s = croot k a -> a ∈ R.*1 ->
  (forall s', rb_root s' = croot k b -> sat F s' (ccells k b ++ R) -> Q tt s') ->
  runs (if negb (cparent k =? 0) then
          pr ← get_right (cparent k);
          if a =? pr then set_right (cparent k) b else set_left (cparent k) b
        else set_root b) s Q.
Proof. intros H Hr Ha HQ. relink_tac. Qed.

Lemma runs_relink_erase k a b R s (Q : unit -> store -> Prop) :
  sat F s (ccells k a ++ R) -> rb_root s = croot k a -> a ∈ R.*1 ->
  (forall s', rb_root s' = croot k b -> sat F s' (ccells k b ++ R) -> Q tt s') ->
  runs (if negb (cparent k =? 0) then
          pl ← get_left (cparent k);
          if pl =? a then set_left (cparent k) b else set_right (cparent k) b
        else set_root b) s Q.
Proof. intros H Hr Ha HQ. relink_tac. Qed.

End Chunks.

(** ** Running through cells

    [bring H X] moves the chunk [X] of the list of cells to its head; a chunk
    is one cell, the cells of a subtree or those of a context. *)

Ltac cut L X :=
  lazymatch L with
  | X => constr:(@nil (Z * rb_node))
  | X ++ ?R => R
  | ?Y ++ ?R => let R' := cut R X in constr:(Y ++ R')
  end.
Ltac cell_of L a :=
  lazymatch L with
  | [(a, ?n)] ++ _ => constr:([(a, n)])
  | [(a, ?n)] => constr:([(a, n)])
  | _ ++ ?R => cell_of R a
  end.
Ltac bring H X :=
  rewrite <- ?app_assoc in H;
  lazymatch type of H with
  | sat ?F ?s ?L =>
      let R := cut L X in
      apply (sat_perm F s L (X ++ R)) in H; [|aac_reflexivity]
  end.
Ltac bring_cell H a :=
  rewrite <- ?app_assoc in H;
  lazymatch type of H with sat _ _ ?L => let X := cell_of L a in bring H X end.

(** Reads of the cell of [a]: [read_eq] proves the value, [read_cell] steps. *)
Ltac lookup_cell H a :=
  bring_cell H a; apply (sat_in _ _ _ H); left.
Ltac read_eq H a :=
  first
  [ eapply get_left_eq; lookup_cell H a
  | eapply get_right_eq; lookup_cell H a
  | eapply load_eq; lookup_cell H a
  | eapply rb_parent_eq; [lookup_cell H a|done]
  | eapply rb_color_eq; [lookup_cell H a|done] ].
Ltac read_cell a :=
  lazymatch goal with
  | H : sat _ ?s _ |- runs (_ ≫= _) ?s _ =>
      apply runs_bind; eapply runs_eq; [read_eq H a|]; cbn [rb_left rb_right rb_parent_color]
  end.

(** The state after a write replaces the one before it. *)
Ltac step_sat H :=
  clear H; let s := fresh "s" in let R := fresh "Rt" in
  intros s R H; cbn [rb_left rb_right rb_parent_color] in H; cbv beta;
  rewrite ?pc_set_parent, ?pc_red, ?pc_black, ?pc_set_color in H by done.
Ltac write_cell a :=
  lazymatch goal with
  | H : sat _ ?s _ |- runs (_ ≫= _) ?s _ =>
      apply runs_bind; bring_cell H a; apply (runs_upd_head _ _ _ _ _ _ _ _ H); step_sat H
  | H : sat _ ?s _ |- runs _ ?s _ =>
      bring_cell H a; apply (runs_upd_head _ _ _ _ _ _ _ _ H); step_sat H
  end.

(** * Steps on a represented tree *)

Section Repr.
Context (F : gmap Z rb_node).

Lemma repr_plug s k t :
  repr F s (plug k t) <->
  sat F s (ccells k (addr t) ++ cells (cparent k) t) /\ rb_root s = croot k (addr t).
Proof.
  split.
  - intros [H Hr]. split; [|now rewrite Hr, addr_plug]. eapply sat_perm, H. apply cells_plug.
  - intros [H Hr]. split; [|now rewrite Hr, addr_plug]. eapply sat_perm, H. symmetry. apply cells_plug.
Qed.

Lemma cparent_ptr k a R s : sat F s (ccells k a ++ R) -> is_ptr (cparent k).
Proof.
  intros H. destruct k as [|f k]; [apply is_ptr_null|]. apply is_addr_ptr, (sat_addr _ _ _ H).
  destruct f; left.
Qed.

(** The node at the focus, and what its pointers are. *)
Lemma repr_node s k c l a r : repr F s (plug k (T c l a r)) ->
  mem s !! a = Some (RbNode (pc (cparent k) c) (addr r) (addr l)) /\ is_ptr (cparent k) /\ is_addr a.
Proof.
  intros [H _]%repr_plug. pose proof (cparent_ptr _ _ _ _ H) as Hk. cbn [cells addr] in H.
  destruct (sat_cell _ _ _ a (RbNode (pc (cparent k) c) (addr r) (addr l)) H) as [? ?]; [|done].
  rewrite !elem_of_app. right. left. left.
Qed.

Lemma repr_addr s k t : repr F s (plug k t) -> (addr t =? 0) = match t with E => true | _ => false end.
Proof.
  destruct t as [|c l a r]; [done|]. intros (_ & _ & Ha & _)%repr_node. cbn. apply Z.eqb_neq. lia.
Qed.

Lemma repr_sibling s k f t : t <> E -> repr F s (plug (f :: k) t) -> (addr t =? addr (sibling f)) = false.
Proof.
  intros Ht [H _]%repr_plug. eapply sibling_ne; [exact H|]. destruct t as [|c l a r]; [done|]. left.
Qed.

(** ** Rotations *)

Lemma rotate_left_spec k c1 x a c2 y b z s (Q : unit -> store -> Prop) :
  repr F s (plug k (T c1 x a (T c2 y b z))) ->
  (forall s', repr F s' (plug k (T c2 (T c1 x a y) b z)) -> Q tt s') ->
  runs (__rb_rotate_left a) s Q.
Proof.
  intros H0 HQ.
  destruct (repr_node _ _ _ _ _ _ H0) as (Ha & Hk & Haa).
  destruct (repr_node _ (FR c1 x a :: k) _ _ _ _ H0) as (Hb & _ & Hba).
  pose proof (is_addr_ptr _ Haa) as Pa. pose proof (is_addr_ptr _ Hba) as Pb. cbn [cparent faddr] in Hb.
  apply repr_plug in H0 as [H Hr]. cbn [cells addr] in H, Hr, Ha.
  unfold __rb_rotate_left.
  read_cell a. read_cell a. read_cell b. write_cell a.
  bring H (cells b y).
  apply runs_bind. eapply (runs_adopt _ b a y _ (get_left b) _ _); [now (etransitivity; [read_eq H b|])|done|done|exact H|].
  step_sat H. write_cell b. write_cell b.
  bring_cell H a. bring H (ccells k a).
  apply runs_bind, (runs_relink_l _ _ _ b _ _ _ H); [congruence|left|]. step_sat H.
  write_cell a.
  apply HQ, repr_plug. cbn [addr cells]. split; [|congruence].
  eapply sat_perm, H. aac_reflexivity.
Qed.

Lemma rotate_right_spec k c1 x a c2 y b z s (Q : unit -> store -> Prop) :
  repr F s (plug k (T c2 (T c1 x a y) b z)) ->
  (forall s', repr F s' (plug k (T c1 x a (T c2 y b z))) -> Q tt s') ->
  runs (__rb_rotate_right b) s Q.
Proof.
  intros H0 HQ.
  destruct (repr_node _ _ _ _ _ _ H0) as (Hb & Hk & Hba).
  destruct (repr_node _ (FL c2 b z :: k) _ _ _ _ H0) as (Ha & _ & Haa).
  pose proof (is_addr_ptr _ Haa) as Pa. pose proof (is_addr_ptr _ Hba) as Pb. cbn [cparent faddr] in Ha.
  apply repr_plug in H0 as [H Hr]. cbn [cells addr] in H, Hr, Hb.
  unfold __rb_rotate_right.
  read_cell b. read_cell b. read_cell a. write_cell b.
  bring H (cells a y).
  apply runs_bind. eapply (runs_adopt _ a b y _ (get_right a) _ _); [now (etransitivity; [read_eq H a|])|done|done|exact H|].
  step_sat H. write_cell a. write_cell a.
  bring_cell H b. bring H (ccells k b).
  apply runs_bind, (runs_relink_r _ _ _ a _ _ _ H); [congruence|left|]. step_sat H.
  write_cell b.
  apply HQ, repr_plug. cbn [addr cells]. split; [|congruence].
  eapply sat_perm, H. aac_reflexivity.
Qed.

(** ** Reads and recolourings *)

Definition is_redb (t : tree) : bool := match t with T Red _ _ _ => true | _ => false end.

Lemma r_parent s k c l a r : repr F s (plug k (T c l a r)) -> rb_parent a s = Ok (cparent k, s).
Proof. intros (? & ? & ?)%repr_node. eapply rb_parent_eq; eauto. Qed.
Lemma r_color s k c l a r : repr F s (plug k (T c l a r)) -> rb_color a s = Ok (colz c, s).
Proof. intros (? & ? & ?)%repr_node. eapply rb_color_eq; eauto. Qed.
Lemma r_left s k c l a r : repr F s (plug k (T c l a r)) -> get_left a s = Ok (addr l, s).
Proof. intros (? & ? & ?)%repr_node. eapply (get_left_eq _ _ (RbNode _ _ _)); eauto. Qed.
Lemma r_right s k c l a r : repr F s (plug k (T c l a r)) -> get_right a s = Ok (addr r, s).
Proof. intros (? & ? & ?)%repr_node. eapply (get_right_eq _ _ (RbNode _ _ _)); eauto. Qed.
Lemma r_root s t : repr F s t -> get_root s = Ok (addr t, s).
Proof. intros [_ Hr]. unfold get_root. now rewrite Hr. Qed.
Lemma r_is_red s k c l a r : repr F s (plug k (T c l a r)) ->
  rb_is_red a s = Ok (match c with Red => true | Black => false end, s).
Proof. intros H. unfold rb_is_red, mbind, ST_bind. rewrite (r_color _ _ _ _ _ _ H). now destruct c. Qed.
Lemma r_is_black s k c l a r : repr F s (plug k (T c l a r)) ->
  rb_is_black a s = Ok (match c with Red => false | Black => true end, s).
Proof. intros H. unfold rb_is_black, mbind, ST_bind. rewrite (r_color _ _ _ _ _ _ H). now destruct c. Qed.
Lemma r_and_is_red s k t : repr F s (plug k t) -> and_is_red (addr t) s = Ok (is_redb t, s).
Proof.
  intros H. unfold and_is_red. rewrite (repr_addr _ _ _ H). destruct t as [|c l a r]; [done|].
  cbn [negb addr]. rewrite (r_is_red _ _ _ _ _ _ H). now destruct c.
Qed.
Lemma r_null_or_black s k t : repr F s (plug k t) -> null_or_black (addr t) s = Ok (negb (is_redb t), s).
Proof.
  intros H. unfold null_or_black. rewrite (repr_addr _ _ _ H). destruct t as [|c l a r]; [done|].
  cbn [addr]. rewrite (r_is_black _ _ _ _ _ _ H). now destruct c.
Qed.

(** A recolouring of the node at the focus. *)
Lemma runs_recolour k c c' l a r s op g (Q : unit -> store -> Prop) `{!Updates op a g} :
  (forall p n m, is_ptr p -> g (RbNode (pc p c) n m) = RbNode (pc p c') n m) ->
  repr F s (plug k (T c l a r)) ->
  (forall s', repr F s' (plug k (T c' l a r)) -> Q tt s') -> runs op s Q.
Proof.
  intros Hg H0 HQ. destruct (repr_node _ _ _ _ _ _ H0) as (_ & Hk & _).
  apply repr_plug in H0 as [H Hr]. cbn [cells addr] in H, Hr. bring_cell H a.
  apply (runs_upd_head _ _ _ _ _ _ _ _ H). clear H. intros s' Hr' H. rewrite Hg in H by done.
  apply HQ, repr_plug. cbn [cells addr]. split; [|congruence]. eapply sat_perm, H. aac_reflexivity.
Qed.

Lemma runs_set_red k c l a r s (Q : unit -> store -> Prop) :
  repr F s (plug k (T c l a r)) ->
  (forall s', repr F s' (plug k (T Red l a r)) -> Q tt s') -> runs (rb_set_red a) s Q.
Proof. eapply runs_recolour; [apply _|]. intros. cbn. now rewrite pc_red. Qed.
Lemma runs_set_black k c l a r s (Q : unit -> store -> Prop) :
  repr F s (plug k (T c l a r)) ->
  (forall s', repr F s' (plug k (T Black l a r)) -> Q tt s') -> runs (rb_set_black a) s Q.
Proof. eapply runs_recolour; [apply _|]. intros. cbn. now rewrite pc_black. Qed.
Lemma runs_set_color k c c' l a r s (Q : unit -> store -> Prop) :
  repr F s (plug k (T c l a r)) ->
  (forall s', repr F s' (plug k (T c' l a r)) -> Q tt s') -> runs (rb_set_color a (colz c')) s Q.
Proof. eapply runs_recolour; [apply _|]. intros. cbn. now rewrite pc_set_color. Qed.

Lemma repr_depth s k t : repr F s (plug k t) -> (length k + length (inorder t) <= size (mem s))%nat.
Proof.
  intros [H _]%repr_plug. pose proof (sat_size _ _ _ H) as Hs. rewrite length_app in Hs.
  rewrite <- (cells_inorder (cparent k)), length_fmap.
  assert (forall a, (length k <= length (ccells k a))%nat) as Hk.
  { clear. induction k as [|[c p r|c l p] k IH]; intros a; cbn; [done| |];
      rewrite length_app; specialize (IH p); lia. }
  specialize (Hk (addr t)). lia.
Qed.

End Repr.

(** ** Running through a represented tree

    [find_node k t a] is the context of the node [a] in [plug k t]; [find_sub]
    that of a subtree. *)

Ltac find_node k t a :=
  match t with
  | T ?c ?l a ?r => constr:(k)
  | T ?c ?l ?b ?r => find_node constr:(FL c b r :: k) l a
  | T ?c ?l ?b ?r => find_node constr:(FR c l b :: k) r a
  end.
Ltac find_sub k t u :=
  match t with
  | u => constr:(k)
  | T ?c ?l ?b ?r => find_sub constr:(FL c b r :: k) l u
  | T ?c ?l ?b ?r => find_sub constr:(FR c l b :: k) r u
  end.

Ltac rnorm := cbn [cparent faddr addr is_redb negb plug fill fcol sibling orb andb].
Ltac rread_op op H s k t :=
  lazymatch op with
  | rb_parent ?a => let k' := find_node k t a in eapply (runs_eq _ _ _ _ _ (r_parent _ _ k' _ _ _ _ H))
  | rb_color ?a => let k' := find_node k t a in eapply (runs_eq _ _ _ _ _ (r_color _ _ k' _ _ _ _ H))
  | get_left ?a => let k' := find_node k t a in eapply (runs_eq _ _ _ _ _ (r_left _ _ k' _ _ _ _ H))
  | get_right ?a => let k' := find_node k t a in eapply (runs_eq _ _ _ _ _ (r_right _ _ k' _ _ _ _ H))
  | rb_is_red ?a => let k' := find_node k t a in eapply (runs_eq _ _ _ _ _ (r_is_red _ _ k' _ _ _ _ H))
  | get_root => eapply (runs_eq _ _ _ _ _ (r_root _ _ _ H))
  | and_is_red (addr ?u) => let k' := find_sub k t u in eapply (runs_eq _ _ _ _ _ (r_and_is_red _ _ k' _ H))
  | and_is_red ?a => let k' := find_node k t a in eapply (runs_eq _ _ _ _ _ (r_and_is_red _ _ k' (T _ _ _ _) H))
  | null_or_black (addr ?u) => let k' := find_sub k t u in eapply (runs_eq _ _ _ _ _ (r_null_or_black _ _ k' _ H))
  | null_or_black ?a => let k' := find_node k t a in eapply (runs_eq _ _ _ _ _ (r_null_or_black _ _ k' (T _ _ _ _) H))
  | mret _ => apply runs_ret
  end; rnorm.

Ltac rwrite_op op H s k t :=
  (lazymatch op with
   | rb_set_red ?a => let k' := find_node k t a in eapply (runs_set_red _ k' _ _ _ _ _ _ H)
   | rb_set_black ?a => let k' := find_node k t a in eapply (runs_set_black _ k' _ _ _ _ _ _ H)
   | rb_set_color ?a _ => let k' := find_node k t a in eapply (runs_set_color _ k' _ _ _ _ _ _ _ H)
   | __rb_rotate_left ?a => let k' := find_node k t a in eapply (rotate_left_spec _ k' _ _ _ _ _ _ _ _ _ H)
   | __rb_rotate_right ?a => let k' := find_node k t a in eapply (rotate_right_spec _ k' _ _ _ _ _ _ _ _ _ H)
   end);
  clear H; let s' := fresh "s" in intros s' H; cbn [plug fill] in H; rnorm.

(** One step of the program: a read, a recolouring or a rotation. *)
Ltac rstep_op op H s k t := first [rread_op op H s k t | rwrite_op op H s k t].
Ltac rstep :=
  lazymatch goal with
  | H : repr _ ?s (plug ?k ?t) |- runs ?m ?s _ =>
      lazymatch m with
      | (?op ≫= _) ≫= _ => apply runs_bind
      | ?op ≫= _ => apply runs_bind; rstep_op op H s k t
      | ?op => rstep_op op H s k t
      end
  end.
