(* ===== verification/RbOps.v ===== *)
(** The pointer operations compute functions on trees.

    [ins_fix] and [del_fix] say on trees what the loops of [rb_insert_color] and
    [__rb_erase_color] do to the memory, [rb_link] positions and removals
    likewise.  They are partial: [None] stands for the paths on which the code
    would follow a null pointer, which the invariant of RbFacts excludes. *)

From stdpp Require Import gmap.
From AAC_tactics Require Import AAC Instances.
From S2P Require Import Prelude.
From S2P Require Import State RbTree RbShape.
Import Instances.Lists.

(** * Insertion *)

(** The red uncle: parent and uncle become black, the grandparent red. *)
Definition ins_push (p g : frame) (t : tree) : tree :=
  match g with
  | FL _ ga u => T Red (blacken (fill p t)) ga (blacken u)
  | FR _ u ga => T Red (blacken u) ga (blacken (fill p t))
  end.

(** The black uncle: one or two rotations. *)
Definition ins_rotate (p g : frame) (t : tree) : tree :=
  match t with
  | E => E
  | T c x n y =>
      match g, p with
      | FL _ ga u, FL _ pa r => T Black (T c x n y) pa (T Red r ga u)
      | FL _ ga u, FR pcol l pa => T Black (T pcol l pa x) n (T Red y ga u)
      | FR _ u ga, FR _ l pa => T Black (T Red u ga l) pa (T c x n y)
      | FR _ u ga, FL pcol pa r => T Black (T Red u ga x) n (T pcol y pa r)
      end
  end.

Fixpoint ins_fix (k : ctx) (t : tree) : option tree :=
  match k with
  | [] => Some t
  | p :: k1 =>
      match fcol p with
      | Black => Some (plug k t)
      | Red =>
          match k1 with
          | [] => None
          | g :: k2 =>
              if is_redb (sibling g) then ins_fix k2 (ins_push p g t)
              else Some (plug k2 (ins_rotate p g t))
          end
      end
  end.

(** Rewrites an address test with a lemma about the shape. *)
Ltac test_ne lem :=
  let Hne := fresh "Hne" in pose proof lem as Hne; cbn [addr] in Hne; rewrite Hne; clear Hne.

Section Sim.
Context (F : gmap Z rb_node).

(** The loop stops below a black parent, or at the root. *)
Lemma insert_step_stop k t s (Q : Z + unit -> store -> Prop) :
  t <> E -> repr F s (plug k t) -> (forall f k', k = f :: k' -> fcol f = Black) ->
  Q (inr tt) s -> runs (rb_insert_color_step (addr t)) s Q.
Proof.
  intros Ht H Hk HQ. destruct t as [|c l n r]; [done|]. cbn [addr]. unfold rb_insert_color_step.
  rstep. destruct k as [|f k].
  - cbn [cparent]. unfold and_is_red. change (0 =? 0) with true. cbn [negb]. rstep. now apply runs_ret.
  - specialize (Hk _ _ eq_refl). destruct f as [c' p r'|c' l' p]; cbn [fcol cparent faddr plug fill] in *; subst c';
      rstep; now apply runs_ret.
Qed.

(** An address test whose outcome the shape decides. *)
Lemma repr_left_ne s k c l g c' x p y :
  repr F s (plug k (T c l g (T c' x p y))) -> (p =? addr l) = false.
Proof. intros H. apply (repr_sibling F s k (FR c l g) (T c' x p y)); done. Qed.
Lemma repr_right_ne s k c r g c' x p y :
  repr F s (plug k (T c (T c' x p y) g r)) -> (p =? addr r) = false.
Proof. intros H. apply (repr_sibling F s k (FL c g r) (T c' x p y)); done. Qed.

Lemma insert_step_push k p g t s (Q : Z + unit -> store -> Prop) :
  t <> E -> repr F s (plug (p :: g :: k) t) -> fcol p = Red -> is_redb (sibling g) = true ->
  (forall s', repr F s' (plug k (ins_push p g t)) -> Q (inl (faddr g)) s') ->
  runs (rb_insert_color_step (addr t)) s Q.
Proof.
  intros Ht H Hp Hu HQ. destruct t as [|c l n r]; [done|]. unfold rb_insert_color_step.
  destruct g as [cg ga u|cg u ga]; cbn [sibling] in Hu; destruct u as [|[|] ul ua ur]; try done;
    destruct p as [cp pa pr|cp pl pa]; cbn in Hp; subst cp; cbn [plug fill addr] in *; do 4 rstep.
  1,2: rewrite Z.eqb_refl.
  3,4: test_ne (repr_left_ne _ _ _ _ _ _ _ _ _ H).
  all: do 5 rstep; rstep; now apply HQ.
Qed.

(** After the rotations the loop stops, whichever node it goes on with. *)
Lemma insert_step_rotate k p g t s (Q : Z + unit -> store -> Prop) :
  t <> E -> repr F s (plug (p :: g :: k) t) -> fcol p = Red -> is_redb (sibling g) = false ->
  (forall s' f u, u <> E -> fcol f = Black -> plug (f :: k) u = plug k (ins_rotate p g t) ->
     repr F s' (plug (f :: k) u) -> Q (inl (addr u)) s') ->
  runs (rb_insert_color_step (addr t)) s Q.
Proof.
  intros Ht H Hp Hu HQ. destruct t as [|c l n r]; [done|]. unfold rb_insert_color_step.
  destruct g as [cg ga u|cg u ga]; cbn [sibling] in Hu;
    destruct p as [cp pa pr|cp pl pa]; cbn in Hp; subst cp; cbn [plug fill addr] in *; do 4 rstep.
  1,2: rewrite Z.eqb_refl.
  3,4: test_ne (repr_left_ne _ _ _ _ _ _ _ _ _ H).
  all: do 2 rstep; rewrite Hu; rstep.
  - rewrite (Z.eqb_sym _ n), (repr_right_ne _ (FL cg ga u :: k) _ _ _ _ _ _ _ H). do 4 rstep. rstep.
    apply (HQ _ (FL Black pa (T Red pr ga u)) (T c l n r)); done.
  - rewrite Z.eqb_refl. do 5 rstep. do 2 rstep.
    apply (HQ _ (FL Black n (T Red r ga u)) (T Red pl pa l)); done.
  - rewrite Z.eqb_refl. do 5 rstep. do 2 rstep.
    apply (HQ _ (FR Black (T Red u ga l) n) (T Red r pa pr)); done.
  - rewrite (Z.eqb_sym _ n), (repr_left_ne _ (FR cg u ga :: k) _ _ _ _ _ _ _ H). do 4 rstep. rstep.
    apply (HQ _ (FR Black (T Red u ga pl) pa) (T c l n r)); done.
Qed.

Lemma insert_loop fuel k t s t' :
  (length k < fuel)%nat -> t <> E -> repr F s (plug k t) -> ins_fix k t = Some t' ->
  runs (while fuel rb_insert_color_step (addr t)) s (fun _ s' => repr F s' t').
Proof.
  revert k t s. induction fuel as [|fuel IH]; intros k t s Hf Ht H Hfix; [lia|].
  cbn [while]. apply runs_bind. destruct k as [|p k]; cbn [ins_fix] in Hfix.
  - injection Hfix as <-. eapply insert_step_stop; try done.
  - destruct (fcol p) eqn:Hp.
    + destruct k as [|g k]; [done|]. cbn [length] in Hf. destruct (is_redb (sibling g)) eqn:Hu.
      * eapply insert_step_push; try done. intros s' H'.
        replace (faddr g) with (addr (ins_push p g t)) by now destruct g.
        apply (IH k); [lia|now destruct g|done|done].
      * injection Hfix as <-. eapply insert_step_rotate; try done. intros s' f u Hu' Hf' Heq H'.
        rewrite <- Heq. destruct fuel as [|fuel]; [lia|]. cbn [while]. apply runs_bind.
        eapply insert_step_stop; try done. now intros ? ? [= -> ->].
    + injection Hfix as <-. eapply insert_step_stop; try done. now intros ? ? [= -> ->].
Qed.

Lemma rb_insert_color_sim k t s t' :
  t <> E -> repr F s (plug k t) -> ins_fix k t = Some t' -> t' <> E ->
  runs (rb_insert_color (addr t)) s (fun _ s' => repr F s' (blacken t')).
Proof.
  intros Ht H Hfix Ht'. unfold rb_insert_color. apply runs_bind. eapply runs_eq; [reflexivity|].
  apply runs_bind. eapply runs_mono.
  { eapply insert_loop; [|done|exact H|exact Hfix]. pose proof (repr_depth _ _ _ _ H). lia. }
  intros u s' H'. cbv beta in H'. apply runs_bind, (runs_eq _ _ _ _ _ (r_root _ _ _ H')).
  destruct t' as [|c l a r]; [done|]. cbn [addr]. now apply (runs_set_black F [] c l a r).
Qed.

(** ** Linking a new leaf *)

Definition link_of (k : ctx) : rb_link :=
  match k with [] => LinkRoot | FL _ a _ :: _ => LinkLeft a | FR _ _ a :: _ => LinkRight a end.

Lemma rb_link_node_sim k n s v :
  repr F s (plug k E) -> mem s !! n = Some v -> n ∉ inorder (plug k E) -> is_addr n ->
  runs (rb_link_node n (cparent k) (link_of k)) s (fun _ s' => repr F s' (plug k (T Red E n E))).
Proof.
  intros H0 Hn Hin Ha. apply repr_plug in H0 as [H Hr].
  assert (n ∉ (ccells k 0).*1) as Hk.
  { intros Hc. apply Hin. rewrite <- (cells_inorder 0), cells_plug, fmap_app. cbn. apply elem_of_app. now left. }
  cbn [cells addr] in H. rewrite app_nil_r in H.
  pose proof (sat_take _ _ _ _ _ Hn Hk Ha H) as H1. clear H. rename H1 into H.
  change (sat F s ([(n, v)] ++ ccells k 0)) in H. unfold rb_link_node.
  write_cell n. write_cell n. write_cell n.
  assert (sat F s2 ([(n, RbNode (cparent k) 0 0)] ++ ccells k 0)) as H' by done.
  replace (cparent k) with (pc (cparent k) Red) in H' by apply Z.lor_0_r.
  destruct k as [|[c a r|c l a] k]; cbn [link_of write_link].
  - eapply runs_eq; [reflexivity|]. apply repr_plug. split; [|done]. cbn.
    eapply sat_perm; [|apply sat_root, H']. done.
  - cbn [ccells] in H'. clear H. rename H' into H. write_cell a. apply repr_plug. cbn in Hr |- *. split; [|congruence].
    eapply sat_perm, H. cbn [cparent faddr]. 
    change (?u :: ?w) with ([u] ++ w). aac_reflexivity.
  - cbn [ccells] in H'. clear H. rename H' into H. write_cell a. apply repr_plug. cbn in Hr |- *. split; [|congruence].
    eapply sat_perm, H. cbn [cparent faddr]. 
    change (?u :: ?w) with ([u] ++ w). aac_reflexivity.
Qed.

End Sim.

(** * Rebalancing after a removal *)

(** What happens at a frame whose focus is one black node short and whose
    sibling is not red: the shortage moves up ([inl]), or rotations end it. *)
Definition del_case (f : frame) (t : tree) : option (tree + tree) :=
  match f with
  | FL c p (T wc x b y) =>
      if negb (is_redb x) && negb (is_redb y) then Some (inl (T c t p (T Red x b y)))
      else if is_redb y then Some (inr (T c (T Black t p x) b (blacken y)))
      else match x with
           | T _ xl xb xr => Some (inr (T c (T Black t p xl) xb (T Black xr b y)))
           | E => None
           end
  | FR c (T wc x b y) p =>
      if negb (is_redb x) && negb (is_redb y) then Some (inl (T c (T Red x b y) p t))
      else if is_redb x then Some (inr (T c (blacken x) b (T Black y p t)))
      else match y with
           | T _ yl yb yr => Some (inr (T c (T Black x b yl) yb (T Black yr p t)))
           | E => None
           end
  | _ => None
  end.

(** A red sibling is rotated above the parent first. *)
Definition del_red (f : frame) : option (frame * frame) :=
  match f with
  | FL _ p (T _ wl wa wr) => Some (FL Red p wl, FL Black wa wr)
  | FR _ (T _ wl wa wr) p => Some (FR Red wr p, FR Black wl wa)
  | _ => None
  end.

Fixpoint del_fix (k : ctx) (t : tree) : option tree :=
  if is_redb t then Some (plug k (blacken t)) else
  match k with
  | [] => Some (blacken t)
  | f :: k' =>
      if is_redb (sibling f) then
        '(f1, g) ← del_red f;
        u ← del_case f1 t;
        match u with
        | inl u => Some (plug (g :: k') (blacken u))
        | inr u => Some (blacken (plug (g :: k') u))
        end
      else
        u ← del_case f t;
        match u with
        | inl u => del_fix k' u
        | inr u => Some (blacken (plug k' u))
        end
  end.

Section EraseSim.
Context (F : gmap Z rb_node).

Lemma repr_child_ne s k c w p t :
  w <> E -> repr F s (plug k (T c w p t)) -> (addr w =? addr t) = false.
Proof. intros Hw H. apply (repr_sibling F s k (FL c p t) w); done. Qed.

Lemma repr_root_ne s f k t : repr F s (plug (f :: k) t) -> (addr t =? addr (plug (f :: k) t)) = false.
Proof.
  rewrite addr_plug. intros H. destruct (proj1 (repr_plug _ _ _ _) H) as [Hs _]. apply Z.eqb_neq.
  assert (forall k f a, croot (f :: k) a ∈ (ccells (f :: k) a).*1) as Hc.
  { clear. induction k as [|g k IH]; intros f a; [destruct f; left|].
    replace (croot (f :: g :: k) a) with (croot (g :: k) (faddr f)) by done.
    destruct f; cbn [ccells faddr]; rewrite !fmap_app, !elem_of_app; right; right; apply IH. }
  pose proof (Hc k f (addr t)) as Hin.
  destruct t as [|c l a r].
  - intros Heq. destruct (sat_addr _ _ _ Hs (croot (f :: k) (addr E))) as [Hp _]; [|cbn [addr] in *; lia].
    rewrite fmap_app, elem_of_app. now left.
  - apply not_eq_sym. eapply sat_ne; [exact Hs|exact Hin|]. left.
Qed.

(** The result of a frame's case, as the step returns it. *)
Definition del_post (k : ctx) (u : tree + tree) (Q : (Z * Z) + Z -> store -> Prop) : Prop :=
  match u with
  | inl u => forall s', repr F s' (plug k u) -> Q (inl (addr u, cparent k)) s'
  | inr u => forall s', repr F s' (plug k u) -> Q (inr (addr (plug k u))) s'
  end.

Lemma erase_other_left_sim k c t p w u s Q :
  repr F s (plug k (T c t p w)) -> del_case (FL c p w) t = Some u -> del_post k u Q ->
  runs (erase_other_left (addr w) p) s Q.
Proof.
  intros H Hu HQ. destruct w as [|wc x b y]; [done|]. cbn [del_case] in Hu. unfold erase_other_left.
  cbn [addr]. do 3 rstep.
  destruct (is_redb x) eqn:Hx, (is_redb y) eqn:Hy; cbn [negb andb] in *.
  4: { injection Hu as <-. rstep. rewrite Hy; rnorm. repeat rstep. now apply HQ. }
  1,3: destruct y as [|[|] yl yb yr]; try done; injection Hu as <-; repeat rstep; now apply HQ.
  destruct x as [|[|] xl xb xr]; try done. injection Hu as <-.
  do 3 rstep. rewrite Hy; rnorm. repeat rstep. now apply HQ.
Qed.

Lemma erase_other_right_sim k c t p w u s Q :
  repr F s (plug k (T c w p t)) -> del_case (FR c w p) t = Some u -> del_post k u Q ->
  runs (erase_other_right (addr w) p) s Q.
Proof.
  intros H Hu HQ. destruct w as [|wc x b y]; [done|]. cbn [del_case] in Hu. unfold erase_other_right.
  cbn [addr]. do 3 rstep.
  destruct (is_redb x) eqn:Hx, (is_redb y) eqn:Hy; cbn [negb andb] in *.
  4: { injection Hu as <-. rstep. rewrite Hy; rnorm. repeat rstep. now apply HQ. }
  1,2: destruct x as [|[|] xl xb xr]; try done; injection Hu as <-; repeat rstep; now apply HQ.
  destruct y as [|[|] yl yb yr]; try done. injection Hu as <-.
  do 3 rstep. rewrite Hx; rnorm. repeat rstep. now apply HQ.
Qed.

(** The loop stops at a red node and at the root. *)
Lemma erase_step_stop k t s Q :
  repr F s (plug k t) -> is_redb t = true \/ k = [] ->
  Q (inr (addr t)) s -> runs (__rb_erase_color_step (addr t, cparent k)) s Q.
Proof.
  intros H Hk HQ. unfold __rb_erase_color_step.
  apply runs_bind, (runs_eq _ _ _ _ _ (r_null_or_black _ _ _ _ H)).
  apply runs_bind, (runs_eq _ _ _ _ _ (r_root _ _ _ H)).
  destruct Hk as [-> | ->]; cbn [negb andb]; [now apply runs_ret|].
  cbn [plug]. rewrite Z.eqb_refl. rewrite andb_false_r. now apply runs_ret.
Qed.

Lemma erase_step_case k f t u s Q :
  repr F s (plug (f :: k) t) -> is_redb t = false -> is_redb (sibling f) = false ->
  del_case f t = Some u -> del_post k u Q ->
  runs (__rb_erase_color_step (addr t, faddr f)) s Q.
Proof.
  intros H Ht Hf Hu HQ. unfold __rb_erase_color_step.
  apply runs_bind, (runs_eq _ _ _ _ _ (r_null_or_black _ _ _ _ H)).
  apply runs_bind, (runs_eq _ _ _ _ _ (r_root _ _ _ H)).
  rewrite (repr_root_ne _ _ _ _ H), Ht. cbn [negb andb].
  destruct f as [c p [|[|] x b y]|c [|[|] x b y] p]; try done; cbn [faddr plug fill] in *; rstep.
  - rewrite Z.eqb_refl. do 3 rstep. now apply (erase_other_left_sim _ _ _ _ _ _ _ _ H Hu).
  - test_ne (repr_child_ne _ _ _ (T Black x b y) _ _ ltac:(done) H). do 3 rstep.
    now apply (erase_other_right_sim _ _ _ _ _ _ _ _ H Hu).
Qed.

Lemma erase_step_red k f f1 g t u s Q :
  repr F s (plug (f :: k) t) -> is_redb t = false -> is_redb (sibling f) = true ->
  del_red f = Some (f1, g) -> del_case f1 t = Some u -> del_post (g :: k) u Q ->
  runs (__rb_erase_color_step (addr t, faddr f)) s Q.
Proof.
  intros H Ht Hf Hr Hu HQ. unfold __rb_erase_color_step.
  apply runs_bind, (runs_eq _ _ _ _ _ (r_null_or_black _ _ _ _ H)).
  apply runs_bind, (runs_eq _ _ _ _ _ (r_root _ _ _ H)).
  rewrite (repr_root_ne _ _ _ _ H), Ht. cbn [negb andb].
  destruct f as [c p [|[|] x b y]|c [|[|] x b y] p]; try done; cbn [faddr plug fill] in *; rstep;
    injection Hr as <- <-.
  - rewrite Z.eqb_refl. repeat rstep. now apply (erase_other_left_sim (FL Black b y :: k) _ _ _ _ _ _ _ H Hu).
  - test_ne (repr_child_ne _ _ _ (T Red x b y) _ _ ltac:(done) H). repeat rstep.
    now apply (erase_other_right_sim (FR Black x b :: k) _ _ _ _ _ _ _ H Hu).
Qed.

(** Where the loop ends: [node] is the root of a subtree that becomes black. *)
Definition del_done (t' : tree) (node : Z) (s : store) : Prop :=
  exists k0 t0, addr t0 = node /\ repr F s (plug k0 t0) /\ plug k0 (blacken t0) = t'.

Lemma del_case_red f t u : del_case f t = Some (inl u) -> fcol f = Red -> is_redb u = true.
Proof.
  intros H Hf. destruct f as [c p [|wc x b y]|c [|wc x b y] p]; try done; cbn in Hf, H; subst c;
    destruct (is_redb x), (is_redb y); try destruct x; try destruct y; cbn in H; try done; now injection H as <-.
Qed.

Lemma erase_loop fuel k t s t' :
  (length k < fuel)%nat -> repr F s (plug k t) -> del_fix k t = Some t' ->
  runs (while fuel __rb_erase_color_step (addr t, cparent k)) s (del_done t').
Proof.
  revert k t s. induction fuel as [|fuel IH]; intros k t s Hf H Hfix; [lia|].
  cbn [while]. apply runs_bind.
  destruct (is_redb t) eqn:Ht.
  { apply (erase_step_stop k t); [done|now left|]. apply runs_ret. exists k, t.
    destruct k; cbn [del_fix] in Hfix; rewrite Ht in Hfix; now injection Hfix as <-. }
  destruct k as [|f k]; cbn [del_fix] in Hfix; rewrite Ht in Hfix.
  { injection Hfix as <-. apply (erase_step_stop [] t); [done|now right|]. apply runs_ret. now exists [], t. }
  cbn [length] in Hf. destruct (is_redb (sibling f)) eqn:Hw.
  - destruct (del_red f) as [[f1 g]|] eqn:Hr; [|done]. cbn in Hfix.
    destruct (del_case f1 t) as [u|] eqn:Hu; [|done]. cbn in Hfix.
    eapply erase_step_red; [exact H|done|done|exact Hr|exact Hu|].
    destruct u as [u|u]; injection Hfix as <-; intros s' H'.
    + destruct fuel as [|fuel]; [lia|]. cbn [while]. apply runs_bind.
      apply (erase_step_stop (g :: k) u); [done|left|].
      * apply del_case_red with f1 t; [done|]. now destruct f as [? ? []|? [] ?]; try done; injection Hr as <- _.
      * apply runs_ret. now exists (g :: k), u.
    + apply runs_ret. now exists [], (plug (g :: k) u).
  - destruct (del_case f t) as [u|] eqn:Hu; [|done]. cbn in Hfix.
    eapply erase_step_case; [exact H|done|done|exact Hu|].
    destruct u as [u|u]; intros s' H'.
    + apply (IH k u); [lia|done|done].
    + injection Hfix as <-. apply runs_ret. now exists [], (plug k u).
Qed.

Lemma rb_erase_color_sim k t s t' :
  repr F s (plug k t) -> del_fix k t = Some t' ->
  runs (__rb_erase_color (addr t) (cparent k)) s (fun _ s' => repr F s' t').
Proof.
  intros H Hfix. unfold __rb_erase_color. apply runs_bind. eapply runs_eq; [reflexivity|].
  apply runs_bind. eapply runs_mono.
  { eapply erase_loop; [|exact H|exact Hfix]. pose proof (repr_depth _ _ _ _ H). lia. }
  intros n s' (k0 & t0 & <- & H' & <-). rewrite (repr_addr _ _ _ _ H').
  destruct t0 as [|c l a r]; [now apply runs_ret|]. cbn [negb addr]. now apply (runs_set_black F k0 c l a r).
Qed.

End EraseSim.

(** * Going down *)

Definition first_of (l : list Z) : Z := default 0 (head l).
Definition last_of (l : list Z) : Z := default 0 (list.last l).

Lemma first_of_app l l' : l <> [] -> first_of (l ++ l') = first_of l.
Proof. now destruct l. Qed.
Lemma last_of_app l l' : l' <> [] -> last_of (l ++ l') = last_of l'.
Proof. intros H. unfold last_of. rewrite list.last_app. destruct (list.last l') eqn:E; [done|]. now apply list.last_None in E. Qed.
Lemma last_of_cons a l : last_of (a :: l) = match l with [] => a | _ => last_of l end.
Proof. unfold last_of. now destruct l. Qed.

Lemma inorder_nil t : inorder t = [] <-> t = E.
Proof. destruct t as [|c l a r]; [done|]. cbn. split; [|done]. now destruct (inorder l). Qed.

Section Down.
Context (F : gmap Z rb_node).

Lemma down_left_sim k t s : t <> E -> repr F s (plug k t) -> down_left (addr t) s = Ok (first_of (inorder t), s).
Proof.
  intros Ht H. unfold down_left, mbind, ST_bind, node_fuel. cbn [mbind].
  assert (length (inorder t) <= S (size (mem s)))%nat as Hf by (pose proof (repr_depth _ _ _ _ H); lia).
  revert Hf. generalize (S (size (mem s))) as fuel. revert k Ht H.
  induction t as [|c l IH a r _]; intros k Ht H fuel Hf; [done|].
  cbn [inorder] in Hf. rewrite length_app in Hf. cbn in Hf. destruct fuel as [|fuel]; [lia|].
  cbn [while addr]. unfold mbind, ST_bind in *. rewrite (r_left _ _ _ _ _ _ _ H).
  rewrite (repr_addr _ _ (FL c a r :: k) l H). cbn [inorder].
  destruct l as [|c' l' a' r']; [done|]. cbn [negb].
  rewrite first_of_app by (intros Hn; now apply inorder_nil in Hn).
  apply (IH (FL c a r :: k)); [done|done|lia].
Qed.

Lemma down_right_sim k t s : t <> E -> repr F s (plug k t) -> down_right (addr t) s = Ok (last_of (inorder t), s).
Proof.
  intros Ht H. unfold down_right, mbind, ST_bind, node_fuel. cbn [mbind].
  assert (length (inorder t) <= S (size (mem s)))%nat as Hf by (pose proof (repr_depth _ _ _ _ H); lia).
  revert Hf. generalize (S (size (mem s))) as fuel. revert k Ht H.
  induction t as [|c l _ a r IH]; intros k Ht H fuel Hf; [done|].
  cbn [inorder] in Hf. rewrite length_app in Hf. cbn in Hf. destruct fuel as [|fuel]; [lia|].
  cbn [while addr]. unfold mbind, ST_bind in *. rewrite (r_right _ _ _ _ _ _ _ H).
  rewrite (repr_addr _ _ (FR c l a :: k) r H). cbn [inorder].
  rewrite last_of_app, last_of_cons by done.
  destruct r as [|c' l' a' r']; [done|]. cbn [negb].
  destruct (inorder (T c' l' a' r')) eqn:E; [now apply inorder_nil in E|]. rewrite <- E in *.
  apply (IH (FR c l a :: k)); [done|done|lia].
Qed.

End Down.

(** * Unlinking a node *)

Definition is_FL (f : frame) : Prop := match f with FL _ _ _ => True | FR _ _ _ => False end.

(** The leftmost node of [T c l a r], with the path to it: its colour, its
    address and its right subtree. *)
Fixpoint split_min (c : color) (l : tree) (a : Z) (r : tree) : ctx * color * Z * tree :=
  match l with
  | E => ([], c, a, r)
  | T c' l' a' r' =>
      let '(kl, cm, m, rm) := split_min c' l' a' r' in (kl ++ [FL c a r], cm, m, rm)
  end.

Lemma split_min_plug c l a r kl cm m rm :
  split_min c l a r = (kl, cm, m, rm) -> Forall is_FL kl /\ plug kl (T cm E m rm) = T c l a r.
Proof.
  revert c a r kl cm m rm. induction l as [|c' l IH a' r' _]; intros c a r kl cm m rm; cbn [split_min].
  - now intros [= <- <- <- <-].
  - destruct (split_min c' l a' r') as [[[kl0 c0] m0] r0] eqn:Hs. intros [= <- <- <- <-].
    destruct (IH _ _ _ _ _ _ _ Hs) as [Hkl Heq]. split.
    + apply Forall_app. split; [done|]. now constructor.
    + rewrite plug_app, Heq. done.
Qed.

(** What is left where a node goes away: the path to its child, the child and
    the colour of the node that is unlinked (the successor's when the node has
    two children). *)
Definition del_split (k : ctx) (c : color) (l r : tree) : ctx * tree * color :=
  match l, r with
  | E, _ => (k, r, c)
  | _, E => (k, l, c)
  | _, T cr rl ra rr =>
      let '(kl, cm, m, rm) := split_min cr rl ra rr in (kl ++ FR c l m :: k, rm, cm)
  end.

Definition del_tree (k : ctx) (c : color) (l r : tree) : option tree :=
  let '(k', t, c') := del_split k c l r in
  match c' with Black => del_fix k' t | Red => Some (plug k' t) end.

Lemma before_FL kl k : Forall is_FL kl -> before (kl ++ k) = before k.
Proof. induction 1 as [|f kl Hf _ IH]; [done|]. now destruct f. Qed.

Lemma min_first kl c m r : Forall is_FL kl -> first_of (inorder (plug kl (T c E m r))) = m.
Proof. intros H. rewrite inorder_plug. pose proof (before_FL kl [] H) as Hb. rewrite app_nil_r in Hb. now rewrite Hb. Qed.

Section Unlink.
Context (F : gmap Z rb_node).

Lemma repr_forget s k n v R :
  sat F s ([(n, v)] ++ R) -> rb_root s = addr k -> R ≡ₚ cells 0 k -> repr (<[n := v]> F) s k.
Proof. intros H Hr HR. split; [|done]. eapply sat_perm; [exact HR|]. now apply sat_drop. Qed.

Lemma rb_erase_one_sim k c l n r ch s (Q : Z * Z * Z -> store -> Prop) :
  repr F s (plug k (T c l n r)) -> (l = E /\ ch = r \/ r = E /\ ch = l) ->
  (forall s' v, repr (<[n := v]> F) s' (plug k ch) -> Q (addr ch, cparent k, colz c) s') ->
  runs (rb_erase_one n (addr ch)) s Q.
Proof.
  intros H0 Hch HQ. unfold rb_erase_one.
  destruct (repr_node _ _ _ _ _ _ _ H0) as (_ & Hk & Pn%is_addr_ptr).
  rename H0 into H. do 2 rstep. apply repr_plug in H as [H Hr]. cbn [cells addr] in H, Hr.
  eapply (sat_perm _ _ _ ([(n, RbNode (pc (cparent k) c) (addr r) (addr l))] ++ ccells k n ++ cells n ch)) in H;
    [|destruct Hch as [[-> ->]|[-> ->]]; cbn [cells]; aac_reflexivity].
  bring H (cells n ch). apply runs_bind. eapply (runs_adopt_direct _ n (cparent k)); [done|done|exact H|]. step_sat H.
  bring_cell H n. bring H (ccells k n).
  apply runs_bind, (runs_relink_erase _ _ _ (addr ch) _ _ _ H); [congruence|left|]. step_sat H.
  apply runs_ret. bring_cell H n. eapply HQ, (repr_forget _ _ _ _ _ H); [now rewrite addr_plug|].
  rewrite cells_plug. aac_reflexivity.
Qed.

(** The end of [rb_erase_two]: the successor takes the place of [old]. *)
Lemma erase_two_place {A} (x : A) k c l old r m v z s (Q : A -> store -> Prop) :
  l <> E -> is_ptr (cparent k) -> is_addr old -> is_addr m ->
  sat F s ([(m, RbNode v (addr r) 0)] ++ [(old, RbNode (pc (cparent k) c) z (addr l))] ++
           cells old l ++ cells m r ++ ccells k m) ->
  rb_root s = croot k m ->
  (forall s' w, repr (<[old := w]> F) s' (plug k (T c l m r)) -> Q x s') ->
  runs (o ← load old;
        set_parent_color m (rb_parent_color o);;
        ol ← get_left old;
        set_left m ol;;
        ol ← get_left old;
        rb_set_parent ol m;;
        mret x) s Q.
Proof.
  intros Hl Hk Po%is_addr_ptr Pm%is_addr_ptr H Hr HQ.
  read_cell old. write_cell m. read_cell old. write_cell m. read_cell old.
  bring H (cells old l). apply runs_bind. eapply (runs_adopt_node _ old m); [done|done|done|exact H|]. step_sat H.
  apply runs_ret.
  bring_cell H old. eapply HQ, (repr_forget _ _ _ _ _ H); [rewrite addr_plug; cbn [addr]; congruence|].
  rewrite cells_plug. cbn [cells addr]. aac_reflexivity.
Qed.

Lemma rb_erase_two_sim k c l old kl cn m cr s (Q : Z * Z * Z -> store -> Prop) :
  l <> E -> Forall is_FL kl ->
  repr F s (plug k (T c l old (plug kl (T cn E m cr)))) ->
  (forall s' v, repr (<[old := v]> F) s' (plug (kl ++ FR c l m :: k) cr) ->
     Q (addr cr, cparent (kl ++ FR c l m :: k), colz cn) s') ->
  runs (rb_erase_two old) s Q.
Proof.
  intros Hl Hkl H HQ. unfold rb_erase_two.
  destruct (repr_node _ _ _ _ _ _ _ H) as (_ & Hk & Ao). pose proof (is_addr_ptr _ Ao) as Po.
  assert (repr F s (plug (FR c l old :: k) (plug kl (T cn E m cr)))) as Hm by done.
  assert (plug kl (T cn E m cr) <> E) as Hne.
  { intros He%inorder_nil. rewrite inorder_plug in He. cbn in He. now destruct (before kl). }
  pose proof (down_left_sim F _ _ _ Hne Hm) as Hd. rewrite (min_first kl cn m cr Hkl) in Hd.
  rewrite <- plug_app in Hm. destruct (repr_node _ _ _ _ _ _ _ Hm) as (_ & _ & Am). pose proof (is_addr_ptr _ Am) as Pm. clear Hm.
  rstep. apply runs_bind, (runs_eq _ _ _ _ _ Hd). rstep.
  apply repr_plug in H as [H Hr]. cbn [cells addr] in H, Hr. bring_cell H old. bring H (ccells k old).
  apply runs_bind, (runs_relink_erase _ _ _ m _ _ _ H); [congruence|left|]. step_sat H.
  destruct kl as [|[cp p pr|] kl]; [| |now inversion Hkl].
  - cbn [plug cells addr] in H. do 3 read_cell m. rewrite Z.eqb_refl. apply runs_bind, runs_ret.
    eapply (erase_two_place _ k c l old cr m (pc old cn) m); [done|done|done|done| |done|].
    + eapply sat_perm, H. aac_reflexivity.
    + intros s' w H'. eapply HQ, H'.
  - set (r := plug kl (T cp cr p pr)) in *.
    assert (addr (plug (FL cp p pr :: kl) (T cn E m cr)) = addr r) as Har by (subst r; cbn [plug fill]; now rewrite !addr_plug).
    assert (r <> E) as Hre by (intros He%inorder_nil; subst r; rewrite inorder_plug in He; cbn in He; now destruct (before kl), (inorder cr)).
    rewrite Har in H. cbn [plug fill] in H.
    eapply (sat_perm _ _ _ (ccells k m ++ [(old, _)] ++ cells old l ++ gcells old kl p ++ [(p, _)] ++
      [(m, _)] ++ cells m cr ++ cells p pr)) in H; [|rewrite cells_gplug; cbn [cells addr]; rewrite !app_nil_l, <- !app_assoc; reflexivity].
    bring_cell H p.
    assert (is_ptr p) as Pp by (apply is_addr_ptr, (sat_addr _ _ _ H); left).
    assert (p <> old) as Hpo.
    { apply (sat_ne _ _ _ _ _ _ H); [left|]. rewrite !fmap_app, !elem_of_app. right. left. left. }
    do 3 read_cell m. destruct (Z.eqb_spec p old); [done|]. do 2 apply runs_bind.
    bring H (cells m cr). eapply (runs_adopt_direct _ m p); [done|done|exact H|]. step_sat H.
    write_cell p. read_cell old. write_cell m. read_cell old.
    eapply (sat_perm _ _ _ (cells old r ++ [(m, RbNode (pc p cn) (addr r) 0)] ++
      [(old, RbNode (pc (cparent k) c) (addr r) (addr l))] ++ cells old l ++ ccells k m)) in H;
      [|subst r; rewrite cells_gplug; cbn [cells addr]; aac_reflexivity].
    apply runs_bind. eapply (runs_adopt_node _ old m); [done|done|done|exact H|]. step_sat H.
    apply runs_ret, (erase_two_place _ k c l old r m (pc p cn) (addr r)); [done|done|done|done| |congruence|].
    + eapply sat_perm, H. aac_reflexivity.
    + intros s' w H'. apply (HQ s' w). now rewrite plug_app.
Qed.

Lemma rb_erase_unlink k c l n r k' t c' s (Q : Z * Z * Z -> store -> Prop) :
  repr F s (plug k (T c l n r)) -> del_split k c l r = (k', t, c') ->
  (forall s' v, repr (<[n := v]> F) s' (plug k' t) -> Q (addr t, cparent k', colz c') s') ->
  runs (if addr l =? 0 then rb_erase_one n (addr r)
        else if addr r =? 0 then rb_erase_one n (addr l) else rb_erase_two n) s Q.
Proof.
  intros H Hs HQ. rewrite (repr_addr F s (FL c n r :: k) l H), (repr_addr F s (FR c l n :: k) r H).
  destruct l as [|lc ll la lr]; [|destruct r as [|rc rl ra rr]].
  1: replace (del_split k c E r) with (k, r, c) in Hs by now destruct r.
  1,2: injection Hs as <- <- <-; eapply rb_erase_one_sim; [exact H|auto|exact HQ].
  unfold del_split in Hs. destruct (split_min rc rl ra rr) as [[[kl cm] m] rm] eqn:Hm.
  injection Hs as <- <- <-. destruct (split_min_plug _ _ _ _ _ _ _ _ Hm) as [Hkl Heq]. rewrite <- Heq in H.
  now eapply rb_erase_two_sim; [|exact Hkl|exact H|exact HQ].
Qed.

(** [rb_erase] computes [del_tree]; the memory of the node itself keeps some
    stale contents. *)
Lemma rb_erase_sim k c l n r s t' :
  repr F s (plug k (T c l n r)) -> del_tree k c l r = Some t' ->
  runs (rb_erase n) s (fun _ s' => exists v, repr (<[n := v]> F) s' t').
Proof.
  intros H Hd. unfold rb_erase. do 2 rstep. unfold del_tree in Hd.
  destruct (del_split k c l r) as [[k' t] c'] eqn:Hs. apply runs_bind.
  apply (rb_erase_unlink _ _ _ _ _ _ _ _ _ _ H Hs). clear H. intros s' v H.
  destruct c'; cbn [colz].
  - apply runs_ret. exists v. now injection Hd as <-.
  - change (RB_BLACK =? RB_BLACK) with true. cbn iota. eapply runs_mono.
    + apply rb_erase_color_sim; [exact H|exact Hd].
    + intros u s2 H2. now exists v.
Qed.

End Unlink.

(** * Neighbours and replacement *)

Section Walk.
Context (F : gmap Z rb_node).

Lemma repr_not_own_parent s k c l n r : repr F s (plug k (T c l n r)) -> (cparent k =? n) = false.
Proof.
  intros H. destruct (repr_node _ _ _ _ _ _ _ H) as (_ & _ & [Hn _]). apply Z.eqb_neq.
  destruct k as [|f k]; [cbn; lia|]. destruct (proj1 (repr_plug _ _ _ _) H) as [Hs _].
  apply (sat_ne _ _ _ _ _ _ Hs); [destruct f|]; left.
Qed.

Lemma rb_first_sim t s : repr F s t -> rb_first s = Ok (first_of (inorder t), s).
Proof.
  intros H. unfold rb_first, mbind, ST_bind. rewrite (r_root _ _ _ H), (repr_addr F s [] t H).
  destruct t as [|c l a r]; [done|]. now apply (down_left_sim F []).
Qed.

Lemma rb_last_sim t s : repr F s t -> rb_last s = Ok (last_of (inorder t), s).
Proof.
  intros H. unfold rb_last, mbind, ST_bind. rewrite (r_root _ _ _ H), (repr_addr F s [] t H).
  destruct t as [|c l a r]; [done|]. now apply (down_right_sim F []).
Qed.

(** [while ((parent = rb_parent(node)) && node == parent->rb_right)] *)
Lemma up_next fuel k t s : (length k < fuel)%nat -> t <> E -> repr F s (plug k t) ->
  while fuel (fun node =>
    parent ← rb_parent node;
    if parent =? 0 then mret (inr parent) else
    pr ← get_right parent;
    mret (if node =? pr then inl parent else inr parent)) (addr t) s = Ok (first_of (after k), s).
Proof.
  revert fuel t. induction k as [|f k IH]; intros fuel t Hf Ht H; (destruct fuel as [|fuel]; [lia|]);
    (destruct t as [|c l n r]; [done|]); cbn [while addr]; unfold mbind, ST_bind;
    rewrite (r_parent _ _ _ _ _ _ _ H); [done|].
  cbn [cparent length] in *.
  destruct f as [c' p r'|c' l' p]; cbn [faddr plug fill after] in *;
    rewrite (proj2 (Z.eqb_neq p 0)) by (pose proof (repr_node _ _ _ _ _ _ _ H) as (_ & _ & [? _]); lia);
    rewrite (r_right _ _ _ _ _ _ _ H).
  - now rewrite (repr_right_ne _ _ _ _ _ _ _ _ _ _ H).
  - cbn [addr]. rewrite Z.eqb_refl. cbn. apply (IH fuel (T c' l' p (T c l n r))); [lia|done|done].
Qed.

Lemma up_prev fuel k t s : (length k < fuel)%nat -> t <> E -> repr F s (plug k t) ->
  while fuel (fun node =>
    parent ← rb_parent node;
    if parent =? 0 then mret (inr parent) else
    pl ← get_left parent;
    mret (if node =? pl then inl parent else inr parent)) (addr t) s = Ok (last_of (before k), s).
Proof.
  revert fuel t. induction k as [|f k IH]; intros fuel t Hf Ht H; (destruct fuel as [|fuel]; [lia|]);
    (destruct t as [|c l n r]; [done|]); cbn [while addr]; unfold mbind, ST_bind;
    rewrite (r_parent _ _ _ _ _ _ _ H); [done|].
  cbn [cparent length] in *.
  destruct f as [c' p r'|c' l' p]; cbn [faddr plug fill before] in *;
    rewrite (proj2 (Z.eqb_neq p 0)) by (pose proof (repr_node _ _ _ _ _ _ _ H) as (_ & _ & [? _]); lia);
    rewrite (r_left _ _ _ _ _ _ _ H).
  - cbn [addr]. rewrite Z.eqb_refl. cbn. apply (IH fuel (T c' (T c l n r) p r')); [lia|done|done].
  - rewrite (repr_left_ne _ _ _ _ _ _ _ _ _ _ H), app_assoc, last_of_app by done. done.
Qed.

Lemma rb_next_sim k c l n r s : repr F s (plug k (T c l n r)) ->
  rb_next n s = Ok (first_of (inorder r ++ after k), s).
Proof.
  intros H. unfold rb_next, mbind at 1, ST_bind at 1. rewrite (r_parent _ _ _ _ _ _ _ H), (repr_not_own_parent _ _ _ _ _ _ H).
  unfold mbind at 1, ST_bind at 1. rewrite (r_right _ _ _ _ _ _ _ H), (repr_addr F s (FR c l n :: k) r H).
  destruct r as [|rc rl ra rr]; cbn [negb].
  - unfold mbind at 1, ST_bind at 1, node_fuel. apply (up_next _ k (T c l n E)); [|done|done].
    pose proof (repr_depth _ _ _ _ H). lia.
  - rewrite (down_left_sim F (FR c l n :: k) (T rc rl ra rr)) by done.
    rewrite first_of_app by (intros Hn; now apply inorder_nil in Hn). done.
Qed.

Lemma rb_prev_sim k c l n r s : repr F s (plug k (T c l n r)) ->
  rb_prev n s = Ok (last_of (before k ++ inorder l), s).
Proof.
  intros H. unfold rb_prev, mbind at 1, ST_bind at 1. rewrite (r_parent _ _ _ _ _ _ _ H), (repr_not_own_parent _ _ _ _ _ _ H).
  unfold mbind at 1, ST_bind at 1. rewrite (r_left _ _ _ _ _ _ _ H), (repr_addr F s (FL c n r :: k) l H).
  destruct l as [|lc ll la lr]; cbn [negb].
  - unfold mbind at 1, ST_bind at 1, node_fuel. cbn [inorder]. rewrite app_nil_r. apply (up_prev _ k (T c E n r)); [|done|done].
    pose proof (repr_depth _ _ _ _ H). lia.
  - rewrite (down_right_sim F (FL c n r :: k) (T lc ll la lr)) by done.
    rewrite last_of_app by (intros Hn; now apply inorder_nil in Hn). done.
Qed.

Lemma rb_replace_node_sim k c l v r new x s :
  repr F s (plug k (T c l v r)) -> mem s !! new = Some x -> new ∉ inorder (plug k (T c l v r)) -> is_addr new ->
  runs (rb_replace_node v new) s (fun _ s' => exists w, repr (<[v := w]> F) s' (plug k (T c l new r))).
Proof.
  intros H Hn Hin Hnew. unfold rb_replace_node.
  destruct (repr_node _ _ _ _ _ _ _ H) as (_ & Hk & Pv%is_addr_ptr). pose proof (is_addr_ptr _ Hnew) as Pn.
  rstep. apply repr_plug in H as [H Hr].
  assert (new ∉ (ccells k v ++ cells (cparent k) (T c l v r)).*1) as Hk'.
  { intros Hc. apply Hin. now rewrite <- (cells_inorder 0), cells_plug. }
  pose proof (sat_take _ _ _ _ _ Hn Hk' Hnew H) as H1. clear H. rename H1 into H.
  change (?u :: ?w) with ([u] ++ w) in H. cbn [cells addr] in H, Hr.
  bring_cell H v. bring H (ccells k v).
  apply runs_bind, (runs_relink_l _ _ _ new _ _ _ H); [congruence|left|]. step_sat H.
  read_cell v. bring H (cells v l). apply runs_bind.
  eapply (runs_adopt _ v new l _ (get_left v)); [now (etransitivity; [read_eq H v|])|done|done|exact H|]. step_sat H.
  read_cell v. bring H (cells v r). apply runs_bind.
  eapply (runs_adopt _ v new r _ (get_right v)); [now (etransitivity; [read_eq H v|])|done|done|exact H|]. step_sat H.
  read_cell v. write_cell new. bring_cell H v. eexists.
  apply (repr_forget _ _ _ _ _ _ H); [rewrite addr_plug; cbn [addr]; congruence|].
  rewrite cells_plug. cbn [cells addr]. aac_reflexivity.
Qed.

End Walk.
