(* ===== verification/RbFacts.v ===== *)
(** The red-black invariant, and the correctness of the operations of rbtree.c.

    [rbt c h t]: no red node of [t] has a red child, every path from its root to
    a leaf has [h] black nodes, and its root has colour [c].  [fits k c h]: a
    context accepts such a tree at its focus.  The functions [ins_fix] and
    [del_tree] that the pointer code computes are total on these, keep the
    invariant and change the sequence of nodes as they should. *)

From stdpp Require Import gmap sorting.
From S2P Require Import Prelude.
From S2P Require Import State RbTree RbShape RbOps.

(** * The invariant *)

Inductive rbt : color -> nat -> tree -> Prop :=
| rbt_E : rbt Black 0 E
| rbt_R h l a r : rbt Black h l -> rbt Black h r -> rbt Red h (T Red l a r)
| rbt_B h l a r c1 c2 : rbt c1 h l -> rbt c2 h r -> rbt Black (S h) (T Black l a r).

(** A red-black tree: its root is black. *)
Definition is_rbtree (t : tree) : Prop := exists h, rbt Black h t.

Inductive fits : ctx -> color -> nat -> Prop :=
| fits_top h : fits [] Black h
| fits_LB k a r c c2 h : rbt c2 h r -> fits k Black (S h) -> fits (FL Black a r :: k) c h
| fits_RB k a l c c2 h : rbt c2 h l -> fits k Black (S h) -> fits (FR Black l a :: k) c h
| fits_LR k a r h : rbt Black h r -> fits k Red h -> fits (FL Red a r :: k) Black h
| fits_RR k a l h : rbt Black h l -> fits k Red h -> fits (FR Red l a :: k) Black h.

Create HintDb rb.
#[export] Hint Constructors rbt fits : rb.

Lemma rbt_col c h t : rbt c h t -> col t = c.
Proof. now inversion 1. Qed.
Lemma rbt_redb c h t : rbt c h t -> is_redb t = match c with Red => true | Black => false end.
Proof. now inversion 1. Qed.

Lemma rbt_T c h c' l a r : rbt c h (T c' l a r) -> c' = c.
Proof. now inversion 1. Qed.

Lemma fits_weaken k h : fits k Red h -> fits k Black h.
Proof. inversion 1; eauto with rb. Qed.
#[export] Hint Resolve fits_weaken : rb.

Lemma fits_any k c h : fits k Red h -> fits k c h.
Proof. destruct c; auto with rb. Qed.

Lemma fits_plug k c h t : fits k c h -> rbt c h t -> is_rbtree (plug k t).
Proof.
  intros Hk. revert t. induction Hk; intros t Ht; cbn [plug fill]; [now exists h|..]; eauto with rb.
Qed.

Lemma plug_fits k t : is_rbtree (plug k t) -> exists c h, fits k c h /\ rbt c h t.
Proof.
  revert t. induction k as [|f k IH]; intros t H.
  - destruct H as [h H]. exists Black, h. auto with rb.
  - destruct (IH _ H) as (c & h & Hk & Ht).
    destruct f as [c' a r|c' l a]; cbn [fill] in Ht; inversion Ht; subst; eauto 6 with rb.
Qed.

(** The addresses in a context do not matter. *)
Lemma fits_readdr k1 c l a b k2 c' h : fits (k1 ++ FR c l a :: k2) c' h -> fits (k1 ++ FR c l b :: k2) c' h.
Proof.
  revert c' h. induction k1 as [|f k1 IH]; intros c' h; cbn [app].
  - inversion 1; subst; eauto with rb.
  - inversion 1; subst; eauto with rb.
Qed.

(** * Insertion *)

Lemma rbt_blacken c h t : rbt c h t -> is_rbtree (blacken t).
Proof. inversion 1; subst; eexists; cbn; eauto with rb. Qed.

Ltac inorder_eq := cbn; do 3 (rewrite <- ?app_assoc; cbn); reflexivity.

Lemma ins_fix_inorder k t t' : t <> E -> ins_fix k t = Some t' -> inorder t' = inorder (plug k t).
Proof.
  remember (length k) as n eqn:Hn. revert k t Hn. induction (lt_wf n) as [n _ IH]. intros k t -> Ht.
  destruct k as [|p [|g k]]; cbn [ins_fix]; [now intros [= <-]|destruct (fcol p); [done|now intros [= <-]]|].
  destruct (fcol p); [|now intros [= <-]]. destruct t as [|c x n y]; [done|].
  destruct (is_redb (sibling g)).
  - intros H. rewrite (IH (length k) ltac:(cbn; lia) k _ eq_refl) with (2 := H) by now destruct g.
    rewrite !inorder_plug. destruct g as [? ? []|? [] ?], p; inorder_eq.
  - intros [= <-]. rewrite !inorder_plug. destruct g, p; inorder_eq.
Qed.

Lemma ins_fix_ok k t h : fits k Black h -> rbt Red h t ->
  exists t', ins_fix k t = Some t' /\ is_rbtree (blacken t').
Proof.
  remember (length k) as n eqn:Hn. revert k t h Hn. induction (lt_wf n) as [n _ IH]. intros k t h -> Hk Ht.
  destruct k as [|p k]; [exists t; split; [done|]; eapply rbt_blacken, Ht|].
  cbn [ins_fix]. destruct (fcol p) eqn:Hp.
  - destruct k as [|g k]; [destruct p; cbn in Hp; subst; inversion Hk; subst; now inversion select (fits [] _ _)|].
    assert (exists c u, sibling g = u /\ rbt c h u /\ fcol g = Black /\ fits k Black (S h)) as (c & u & Hg & Hu & Hgc & Hk2).
    { destruct p; cbn in Hp; subst; inversion Hk; subst; inversion select (fits (g :: k) _ _); subst; cbn; eauto 7. }
    rewrite Hg, (rbt_redb _ _ _ Hu). destruct c.
    + apply (IH (length k)) with (h := S h); [cbn; lia|done|done|].
      inversion Hu; subst. destruct g, p; cbn in *; subst; inversion Hk; subst; cbn; eauto 6 with rb.
    + eexists. split; [reflexivity|].
      assert (rbt Black (S h) (ins_rotate p g t)) as Hr.
      { inversion Ht; subst. destruct g, p; cbn in *; subst; inversion Hk; subst; cbn; eauto 6 with rb. }
      destruct (fits_plug _ _ _ _ Hk2 Hr) as [h' Hh']. eapply rbt_blacken, Hh'.
  - eexists. split; [reflexivity|].
    assert (is_rbtree (plug (p :: k) t)) as [h' Hh'].
    { destruct p; cbn in Hp; subst; inversion Hk; subst; eapply (fits_plug _ Red h); eauto with rb. }
    eapply rbt_blacken, Hh'.
Qed.

(** * Removal *)

(** The case of one frame: the order is kept, and the black heights are right
    again after the rotations. *)
Lemma del_case_inorder f t u : del_case f t = Some u ->
  inorder (match u with inl u | inr u => u end) = inorder (fill f t).
Proof.
  destruct f as [c p [|wc x b y]|c [|wc x b y] p]; cbn [del_case]; try done;
    destruct (is_redb x) eqn:Hx, (is_redb y) eqn:Hy; cbn [negb andb];
    destruct x as [|[|] ? ? ?]; destruct y as [|[|] ? ? ?]; try done; intros [= <-]; inorder_eq.
Qed.

Lemma del_fix_inorder k t t' : del_fix k t = Some t' -> inorder t' = inorder (plug k t).
Proof.
  assert (forall t, inorder (blacken t) = inorder t) as Hb by (intros []; done).
  revert t. induction k as [|f k IH]; intros t; cbn [del_fix]; destruct (is_redb t).
  - intros [= <-]. apply Hb.
  - intros [= <-]. apply Hb.
  - intros [= <-]. cbn [plug]. rewrite !inorder_plug. destruct f; cbn; now rewrite Hb.
  - destruct (is_redb (sibling f)).
    + destruct (del_red f) as [[f1 g]|] eqn:Hr; [|done]. cbn. destruct (del_case f1 t) as [u|] eqn:Hu; [|done]. cbn.
      assert (inorder (fill g (fill f1 t)) = inorder (fill f t)) as Hf.
      { destruct f as [? ? []|? [] ?]; try done; injection Hr as <- <-; inorder_eq. }
      pose proof (del_case_inorder _ _ _ Hu) as Hi.
      destruct u as [u|u]; intros [= <-]; rewrite ?Hb, !(inorder_plug k), <- Hf;
        destruct g; cbn; rewrite ?Hb, Hi; reflexivity.
    + destruct (del_case f t) as [u|] eqn:Hu; [|done]. cbn. pose proof (del_case_inorder _ _ _ Hu) as Hi.
      destruct u as [u|u]; [intros H; rewrite (IH _ H)|intros [= <-]; rewrite Hb];
        cbn [plug]; now rewrite !inorder_plug, Hi.
Qed.

(** The black height of a subtree under a frame of colour [c] that accepts
    black trees of height [h]. *)
Definition up_height (c : color) (h : nat) : nat := match c with Red => h | Black => S h end.

Lemma del_case_ok f t h : rbt Black h t -> rbt Black (S h) (sibling f) ->
  exists u, del_case f t = Some u /\
    match u with
    | inl u => col u = fcol f /\ rbt Black (S h) (blacken u)
    | inr u => rbt (fcol f) (up_height (fcol f) (S h)) u
    end.
Proof.
  intros Ht Hw. destruct f as [c p w|c w p]; cbn [sibling fcol] in *; inversion Hw as [| |h' x b y c1 c2 Hx Hy]; subst;
    cbn [del_case]; rewrite (rbt_redb _ _ _ Hx), (rbt_redb _ _ _ Hy);
    destruct c1, c2; cbn [negb andb];
    (inversion Hx; inversion Hy; subst; (eexists; split; [reflexivity|]); destruct c; cbn; eauto 7 with rb).
Qed.

Lemma del_fix_red k t : is_redb t = true -> del_fix k t = Some (plug k (blacken t)).
Proof. intros H. destruct k; cbn [del_fix]; now rewrite H. Qed.

Lemma fits_frame f k c h : fits (f :: k) c h -> exists cw, rbt cw h (sibling f) /\
  fits k (fcol f) (up_height (fcol f) h) /\ (fcol f = Red -> cw = Black).
Proof. inversion 1; subst; cbn; (eexists; split; [eassumption|]; split; [eassumption|done]). Qed.

Lemma del_fix_ok k t c h : fits k Black (S h) -> rbt c h t ->
  exists t', del_fix k t = Some t' /\ is_rbtree t'.
Proof.
  revert t c h. induction k as [|f k IH]; intros t c h Hk Ht.
  { eexists. split; [cbn [del_fix plug]; now destruct (is_redb t)|]. eapply rbt_blacken, Ht. }
  destruct c.
  { rewrite del_fix_red by apply (rbt_redb _ _ _ Ht). eexists. split; [reflexivity|].
    eapply fits_plug; [exact Hk|]. inversion Ht; subst. cbn. eauto with rb. }
  cbn [del_fix]. rewrite (rbt_redb _ _ _ Ht). destruct (fits_frame _ _ _ _ Hk) as (cw & Hw & Hk' & Hred).
  rewrite (rbt_redb _ _ _ Hw). destruct cw.
  - assert (fcol f = Black) as Hf by (destruct (fcol f); [now specialize (Hred eq_refl)|done]). rewrite Hf in Hk'.
    assert (exists f1 g, del_red f = Some (f1, g) /\ fcol f1 = Red /\ rbt Black (S h) (sibling f1) /\
      forall c', fits (g :: k) c' (S h)) as (f1 & g & -> & Hf1 & Hs1 & Hg).
    { destruct f as [cf p w|cf w p]; cbn in Hf, Hw; subst; inversion Hw; subst;
        (eexists _, _; split; [reflexivity|]); cbn; eauto 6 with rb. }
    cbn. destruct (del_case_ok f1 t h Ht Hs1) as (u & -> & Hu). cbn. rewrite Hf1 in Hu.
    destruct u as [u|u]; (eexists; split; [reflexivity|]).
    + destruct Hu as [_ Hu]. apply (fits_plug (g :: k) _ _ _ (Hg _) Hu).
    + destruct (fits_plug (g :: k) _ _ _ (Hg _) Hu) as [h' Hh']. eapply rbt_blacken, Hh'.
  - destruct (del_case_ok f t h Ht Hw) as (u & -> & Hu). cbn. destruct u as [u|u].
    + destruct Hu as [Hc Hu]. destruct (fcol f) eqn:Hf; cbn [up_height] in Hk'.
      * rewrite del_fix_red by (destruct u as [|[|] ? ? ?]; done). eexists. split; [reflexivity|].
        eapply fits_plug; [apply fits_weaken, Hk'|exact Hu].
      * apply (IH u Black (S h)); [done|]. destruct u as [|[|] ? ? ?]; done.
    + eexists. split; [reflexivity|]. destruct (fits_plug k _ _ _ Hk' Hu) as [h' Hh']. eapply rbt_blacken, Hh'.
Qed.

(** Unlinking a node with at most one child. *)
Definition del_end (k : ctx) (c : color) (t : tree) : option tree :=
  match c with Black => del_fix k t | Red => Some (plug k t) end.

Lemma del_end_ok k c h l m r t : fits k c h -> rbt c h (T c l m r) -> (l = E /\ t = r \/ r = E /\ t = l) ->
  exists t', del_end k c t = Some t' /\ is_rbtree t' /\ inorder t' = before k ++ inorder t ++ after k.
Proof.
  intros Hk Ht Hch. destruct c; cbn [del_end].
  - eexists. split; [reflexivity|]. split; [|apply inorder_plug]. inversion Ht; subst.
    eapply fits_plug; [apply fits_weaken, Hk|]. destruct Hch as [[-> ->]|[-> ->]]; done.
  - assert (exists c' h', h = S h' /\ rbt c' h' t) as (c' & h' & -> & Ht').
    { inversion Ht; subst. destruct Hch as [[-> ->]|[-> ->]]; eauto. }
    destruct (del_fix_ok k t c' h' Hk Ht') as (t' & Hd & Hrb). exists t'. split; [done|]. split; [done|].
    rewrite (del_fix_inorder _ _ _ Hd). apply inorder_plug.
Qed.

Lemma del_tree_ok k c l n r : is_rbtree (plug k (T c l n r)) ->
  exists t', del_tree k c l r = Some t' /\ is_rbtree t' /\
    inorder t' = before k ++ inorder l ++ inorder r ++ after k.
Proof.
  intros H. unfold del_tree.
  destruct (plug_fits _ _ H) as (c0 & h & Hk & Ht). pose proof (rbt_T _ _ _ _ _ _ Ht) as <-.
  destruct l as [|lc ll la lr]; [|destruct r as [|rc rl ra rr]].
  - replace (del_split k c E r) with (k, r, c) by now destruct r. now apply (del_end_ok _ _ h E n r); [| |left].
  - now apply (del_end_ok _ _ h (T lc ll la lr) n E); [| |right].
  - unfold del_split. destruct (split_min rc rl ra rr) as [[[kl cm] m] rm] eqn:Hm.
    destruct (split_min_plug _ _ _ _ _ _ _ _ Hm) as [Hkl Heq].
    set (l := T lc ll la lr) in *. rewrite <- Heq in H.
    change (is_rbtree (plug (FR c l n :: k) (plug kl (T cm E m rm)))) in H. rewrite <- plug_app in H.
    destruct (plug_fits _ _ H) as (c1 & h1 & Hk1 & Ht1). pose proof (rbt_T _ _ _ _ _ _ Ht1) as <-.
    destruct (del_end_ok (kl ++ FR c l m :: k) cm h1 E m rm rm) as (t' & Hd & Hrb & Hi);
      [eapply fits_readdr, Hk1|done|now left|].
    exists t'. split; [exact Hd|]. split; [done|]. rewrite Hi, (before_FL _ _ Hkl).
    rewrite <- Heq, (inorder_plug kl). pose proof (before_FL kl [] Hkl) as Hb. rewrite app_nil_r in Hb. rewrite Hb.
    cbn. assert (forall k1 k2, after (k1 ++ k2) = after k1 ++ after k2) as Ha.
    { clear. induction k1 as [|[] k1 IH]; intros k2; cbn; [done| |apply IH]. now rewrite IH, app_assoc. }
    rewrite Ha. cbn. now rewrite <- !app_assoc.
Qed.

(** * Balance *)

Fixpoint height (t : tree) : nat := match t with E => 0 | T _ l _ r => S (Nat.max (height l) (height r)) end.

Lemma rbt_size c h t : rbt c h t -> (2 ^ h <= length (inorder t) + 1)%nat.
Proof. induction 1; cbn [inorder]; rewrite ?length_app; cbn [length Nat.pow] in *; lia. Qed.

Lemma rbt_height c h t : rbt c h t -> (height t <= 2 * h + match c with Red => 1 | Black => 0 end)%nat.
Proof. induction 1; cbn [height]; try destruct c1, c2; lia. Qed.

(** The longest path is at most twice as long as a perfectly balanced one. *)
Definition balanced (t : tree) : Prop := (height t <= 2 * Nat.log2 (length (inorder t) + 1))%nat.

Lemma rbtree_balanced t : is_rbtree t -> balanced t.
Proof.
  intros [h H]. unfold balanced. pose proof (rbt_height _ _ _ H). pose proof (rbt_size _ _ _ H) as Hs.
  cbv iota in *. apply Nat.log2_le_mono in Hs. rewrite Nat.log2_pow2 in Hs by lia. lia.
Qed.

(** * Positions *)

Lemma before_app k1 k2 : before (k1 ++ k2) = before k2 ++ before k1.
Proof.
  induction k1 as [|[] k1 IH]; cbn; [now rewrite app_nil_r|apply IH|]. now rewrite IH, <- app_assoc.
Qed.
Lemma after_app k1 k2 : after (k1 ++ k2) = after k1 ++ after k2.
Proof. induction k1 as [|[] k1 IH]; cbn; [done| |apply IH]. now rewrite IH, app_assoc. Qed.

(** Every gap of the sequence is a free link of the tree, every element a node. *)
Lemma leaf_zip t xs ys : inorder t = xs ++ ys -> exists k, plug k E = t /\ before k = xs /\ after k = ys.
Proof.
  revert xs ys. induction t as [|c l IHl a r IHr]; intros xs ys; cbn [inorder].
  - intros H. symmetry in H. apply app_eq_nil in H as [-> ->]. now exists [].
  - intros H. apply app_eq_app in H as (m & [[Hl Hr]|[-> Hr]]).
    + destruct (IHl _ _ Hl) as (k & Hk & Hb & Ha). exists (k ++ [FL c a r]).
      rewrite plug_app, before_app, after_app, Hk, Hb, Ha, Hr. cbn. now rewrite app_nil_r.
    + destruct m as [|b m]; cbn in Hr.
      * destruct (IHl (inorder l) [] ltac:(now rewrite app_nil_r)) as (k & Hk & Hb & Ha). exists (k ++ [FL c a r]).
        rewrite plug_app, before_app, after_app, Hk, Hb, Ha, <- Hr. cbn. now rewrite !app_nil_r.
      * injection Hr as <- Hr. destruct (IHr _ _ Hr) as (k & Hk & Hb & Ha). exists (k ++ [FR c l a]).
        rewrite plug_app, before_app, after_app, Hk, Hb, Ha. cbn. now rewrite app_nil_r, <- app_assoc.
Qed.

Lemma node_zip t xs n ys : inorder t = xs ++ n :: ys ->
  exists k c l r, t = plug k (T c l n r) /\ before k ++ inorder l = xs /\ inorder r ++ after k = ys.
Proof.
  revert xs ys. induction t as [|c l IHl a r IHr]; intros xs ys; cbn [inorder].
  - intros H. symmetry in H. now apply app_eq_nil in H as [_ ?].
  - intros H. apply app_eq_app in H as (m & [[Hl Hr]|[-> Hr]]).
    + destruct m as [|b m]; cbn in Hr.
      * injection Hr as -> ->. exists [], c, l, r. rewrite app_nil_r in Hl. cbn. now rewrite app_nil_r, Hl.
      * injection Hr as -> Hr. destruct (IHl _ _ Hl) as (k & c0 & l0 & r0 & Hk & Hb & Ha).
        exists (k ++ [FL c a r]), c0, l0, r0. rewrite plug_app, before_app, after_app, <- Hk, Hr, <- Ha. cbn.
        now rewrite app_nil_r, Hb, <- app_assoc.
    + destruct m as [|b m]; cbn in Hr.
      * injection Hr as -> <-. exists [], c, l, r. cbn. now rewrite !app_nil_r.
      * injection Hr as <- Hr. destruct (IHr _ _ Hr) as (k & c0 & l0 & r0 & Hk & Hb & Ha).
        exists (k ++ [FR c l a]), c0, l0, r0. rewrite plug_app, before_app, after_app, <- Hk, <- Ha, <- Hb. cbn.
        now rewrite app_nil_r, <- !app_assoc.
Qed.

(** * The operations *)

(** The outcome of an operation: the memory holds a balanced red-black tree
    whose nodes, from left to right, are [xs]. *)
Definition holds (F : gmap Z rb_node) (s : store) (xs : list Z) : Prop :=
  exists t, repr F s t /\ is_rbtree t /\ inorder t = xs /\ balanced t.

Lemma holds_intro F s t xs : repr F s t -> is_rbtree t -> inorder t = xs -> holds F s xs.
Proof. intros H Hrb Hi. exists t. auto using rbtree_balanced. Qed.

(** The empty tree of [RB_ROOT]. *)
Lemma holds_empty m : holds m (Store m 0) [].
Proof.
  apply holds_intro with E; [|exists 0%nat; constructor|done].
  split; [|done]. split; cbn; [constructor|now intros a ?%elem_of_nil|now intros a n ?%elem_of_nil|done].
Qed.

Lemma insert_holds F s k n v :
  repr F s (plug k E) -> is_rbtree (plug k E) ->
  mem s !! n = Some v -> n ∉ inorder (plug k E) -> is_addr n ->
  runs (rb_link_node n (cparent k) (link_of k);; rb_insert_color n) s
    (fun _ s' => holds F s' (before k ++ n :: after k)).
Proof.
  intros H Hrb Hv Hn Ha. apply runs_bind. eapply runs_mono; [now apply (rb_link_node_sim F k n s v)|].
  clear H Hv. intros u s1 H. cbv beta in H.
  assert (fits k Black 0) as Hk.
  { destruct (plug_fits _ _ Hrb) as (c & h & Hk & He). now inversion He; subst. }
  destruct (ins_fix_ok k (T Red E n E) 0 Hk ltac:(auto with rb)) as (t' & Hfix & Hrb').
  assert (inorder t' = before k ++ n :: after k) as Hi.
  { rewrite (ins_fix_inorder k (T Red E n E) t') by done. now rewrite inorder_plug. }
  eapply runs_mono; [apply (rb_insert_color_sim F k (T Red E n E) s1 t'); [done|done|done|]|].
  - intros ->. cbn in Hi. symmetry in Hi. now apply app_eq_nil in Hi as [_ ?].
  - intros u' s2 H2. eapply holds_intro; [exact H2|done|]. now destruct t'.
Qed.

Lemma erase_holds F s t xs n ys :
  repr F s t -> is_rbtree t -> inorder t = xs ++ n :: ys ->
  runs (rb_erase n) s (fun _ s' => exists v, holds (<[n := v]> F) s' (xs ++ ys)).
Proof.
  intros H Hrb (k & c & l & r & -> & <- & <-)%node_zip.
  destruct (del_tree_ok _ _ _ _ _ Hrb) as (t' & Hd & Hrb' & Hi).
  eapply runs_mono; [now apply (rb_erase_sim F k c l n r s t')|].
  intros u s' [v H']. exists v. eapply holds_intro; [exact H'|done|]. now rewrite Hi, <- !app_assoc.
Qed.

(** ** Sorted trees *)

Lemma repr_self F s t : repr F s t -> repr (mem s) s t.
Proof. intros [[H1 H2 H3 H4] H5]. done. Qed.

Lemma repr_nodup F s t : repr F s t -> NoDup (inorder t).
Proof. intros [H _]. rewrite <- (cells_inorder 0). apply (sat_nodup _ _ _ H). Qed.

(** What sortedness says of a node and its two sides. *)
Lemma sorted_split {A} (R : A -> A -> Prop) xs l a r ys :
  StronglySorted R (xs ++ (l ++ a :: r) ++ ys) -> (forall x, x ∈ l -> R x a) /\ (forall x, x ∈ r -> R a x).
Proof.
  intros H. apply StronglySorted_app in H as (_ & _ & H). apply StronglySorted_app_1_l in H.
  split; intros x Hx.
  - apply (StronglySorted_app_1_elem_of _ _ _ x a H Hx). left.
  - apply StronglySorted_app in H as (_ & _ & H). apply StronglySorted_cons in H as [H _].
    rewrite List.Forall_forall in H. now apply H, list_elem_of_In.
Qed.

Lemma sorted_insert {A} (R : A -> A -> Prop) ys x zs :
  StronglySorted R (ys ++ zs) -> (forall y, y ∈ ys -> R y x) -> (forall z, z ∈ zs -> R x z) ->
  StronglySorted R (ys ++ x :: zs).
Proof.
  rewrite !StronglySorted_app, StronglySorted_cons. intros (H1 & H2 & H3) Hy Hz.
  split; [|split; [done|split; [|done]]].
  - intros a b Ha [-> |Hb]%elem_of_cons; auto.
  - apply List.Forall_forall. intros z Hz'. apply Hz, list_elem_of_In, Hz'.
Qed.

(** An executable test of representation. *)
Definition reprb (s : store) (t : tree) : bool :=
  bool_decide (NoDup (cells 0 t).*1) &&
  forallb (fun '(a, n) => bool_decide (is_addr a) && bool_decide (mem s !! a = Some n)) (cells 0 t) &&
  (rb_root s =? addr t).

Lemma reprb_repr s t : reprb s t = true -> repr (mem s) s t.
Proof.
  unfold reprb. intros H. apply andb_true_iff in H as [H Hr%Z.eqb_eq].
  apply andb_true_iff in H as [Hd%bool_decide_eq_true Hc]. rewrite forallb_forall in Hc.
  assert (forall a n, (a, n) ∈ cells 0 t -> is_addr a /\ mem s !! a = Some n) as Hc'.
  { intros a n Ha. specialize (Hc (a, n) (proj1 (list_elem_of_In _ _) Ha)). cbn in Hc.
    apply andb_true_iff in Hc as [?%bool_decide_eq_true ?%bool_decide_eq_true]. done. }
  split; [|done]. split; [done| | |done].
  - intros a Ha. apply list_elem_of_fmap in Ha as ([b n] & -> & Hb). now apply (Hc' b n).
  - intros a n Ha. now apply Hc'.
Qed.

Lemma read_link_sub F s k u : repr F s (plug k u) -> read_link (link_of k) s = Ok (addr u, s).
Proof.
  intros H. destruct k as [|[c a r|c l a] k]; cbn [link_of read_link].
  - apply (r_root _ _ _ H).
  - apply (r_left _ _ _ _ _ _ _ H).
  - apply (r_right _ _ _ _ _ _ _ H).
Qed.

(** A node outside any tree, marked with [RB_CLEAR_NODE]. *)
Definition cleared (n : Z) : M (bool * Z * Z) :=
  RB_CLEAR_NODE n;; e ← RB_EMPTY_NODE n; x ← rb_next n; y ← rb_prev n; mret (e, x, y).

Lemma clear_parent w n : is_u32 w -> is_ptr n -> Z.land (Z.lor (Z.land w 3) n) (lnot32 3) = n.
Proof.
  intros Hw Hn. word_facts n. apply bits_ext32; [auto with word|done|].
  { apply land_u32; [|auto with word]. apply lor_u32; [|done]. apply land_u32; [done|unfold is_u32; lia]. }
  intros i Hi. rewrite Z.land_spec, Z.lor_spec, Z.land_spec, testbit_lnot32 by lia.
  assert (i = 0 \/ i = 1 \/ 2 <= i) as [-> | [-> | Hge]] by lia.
  - cbn. rewrite andb_false_r. done.
  - cbn. rewrite andb_false_r. done.
  - rewrite (testbit_high 3 2 i), andb_false_r by lia. cbn. now rewrite andb_true_r.
Qed.

Lemma cleared_ok s n v : mem s !! n = Some v -> is_u32 (rb_parent_color v) -> is_addr n ->
  runs (cleared n) s (fun '(e, x, y) _ => e = true /\ x = 0 /\ y = 0).
Proof.
  intros Hv Hw Hn%is_addr_ptr. unfold cleared, RB_CLEAR_NODE.
  apply runs_bind. eapply runs_eq; [exact (updates s v Hv)|].
  set (s' := Store _ _).
  assert (rb_parent n s' = Ok (n, s')) as Hp.
  { unfold rb_parent, mbind, ST_bind, load, s'. cbn [mem]. rewrite lookup_insert_eq.
    cbn [rb_parent_color]. rewrite clear_parent by done. done. }
  apply runs_bind. unfold RB_EMPTY_NODE. apply runs_bind, (runs_eq _ _ _ _ _ Hp). rewrite Z.eqb_refl. apply runs_ret.
  apply runs_bind. unfold rb_next. apply runs_bind, (runs_eq _ _ _ _ _ Hp). rewrite Z.eqb_refl. apply runs_ret.
  apply runs_bind. unfold rb_prev. apply runs_bind, (runs_eq _ _ _ _ _ Hp). rewrite Z.eqb_refl. now apply runs_ret.
Qed.

Lemma rbtree_readdr k c l v n r : is_rbtree (plug k (T c l v r)) -> is_rbtree (plug k (T c l n r)).
Proof.
  intros H. destruct (plug_fits _ _ H) as (c' & h & Hk & Ht). eapply fits_plug; [exact Hk|].
  inversion Ht; subst; eauto with rb.
Qed.

(** * Claims *)

(** C3: linking a new node with [rb_link_node] at any free link of a red-black
    tree and calling [rb_insert_color] never follows a bad pointer, ends, and
    leaves a red-black tree whose order is the old one with the new node at the
    place of the link, of height at most 2 log2 (n + 1); memory outside the tree
    is not touched.  Every gap of the order is such a link. *)
Theorem rb_insert_correct F s t xs ys n v :
  repr F s t -> is_rbtree t -> inorder t = xs ++ ys ->
  mem s !! n = Some v -> n ∉ inorder t -> is_addr n ->
  (exists k, plug k E = t /\ before k = xs /\ after k = ys) /\
  (forall k, plug k E = t -> before k = xs -> after k = ys ->
     read_link (link_of k) s = Ok (0, s) /\
     runs (rb_link_node n (cparent k) (link_of k);; rb_insert_color n) s
       (fun _ s' => holds F s' (xs ++ n :: ys))).
Proof.
  intros H Hrb Hi Hv Hn Ha. split; [now apply leaf_zip|]. intros k <- <- <-.
  split; [now apply (read_link_sub F s k E)|]. now apply insert_holds with v.
Qed.

(** C4: [rb_erase] of a node of a red-black tree never follows a bad pointer,
    ends, and leaves a red-black tree whose order is the old one without the
    node; nothing outside the tree changes. *)
Theorem rb_erase_correct F s t xs n ys :
  repr F s t -> is_rbtree t -> inorder t = xs ++ n :: ys ->
  runs (rb_erase n) s (fun _ s' => exists v, holds (<[n := v]> F) s' (xs ++ ys)).
Proof. apply erase_holds. Qed.

(** C24: on a tree in memory, [rb_first] and [rb_last] return the ends of its
    order (NULL for the empty tree), [rb_next] and [rb_prev] the neighbours
    (NULL at the ends), without changing anything; [rb_replace_node] puts
    another node at the place of one and keeps the red-black properties; a node
    marked by [RB_CLEAR_NODE] is empty and has no neighbours. *)
Theorem rb_walk_correct F s t :
  repr F s t ->
  rb_first s = Ok (first_of (inorder t), s) /\ rb_last s = Ok (last_of (inorder t), s) /\
  (forall xs n ys, inorder t = xs ++ n :: ys ->
     rb_next n s = Ok (first_of ys, s) /\ rb_prev n s = Ok (last_of xs, s) /\
     forall new v, mem s !! new = Some v -> new ∉ inorder t -> is_addr new ->
       runs (rb_replace_node n new) s (fun _ s' => exists t' w,
         repr (<[n := w]> F) s' t' /\ inorder t' = xs ++ new :: ys /\ (is_rbtree t -> is_rbtree t'))) /\
  (forall n v, mem s !! n = Some v -> is_u32 (rb_parent_color v) -> is_addr n ->
     runs (cleared n) s (fun '(e, x, y) _ => e = true /\ x = 0 /\ y = 0)).
Proof.
  intros H. split; [now apply (rb_first_sim F)|]. split; [now apply (rb_last_sim F)|].
  split; [|intros; now apply cleared_ok with v].
  intros xs n ys (k & c & l & r & -> & <- & <-)%node_zip.
  split; [now apply (rb_next_sim F k c l)|]. split; [now apply (rb_prev_sim F k c l n r)|].
  intros new v Hv Hn Ha. eapply runs_mono; [now apply (rb_replace_node_sim F k c l n r new v)|].
  intros u s' [w H']. exists (plug k (T c l new r)), w. split; [done|]. split.
  - rewrite inorder_plug. cbn. now rewrite <- !app_assoc.
  - apply rbtree_readdr.
Qed.

(** ** Witnesses: the nodes 16, 32, 48 in a tree, and 64 outside it. *)

Definition sample_tree : tree := T Black (T Red E 16 E) 32 (T Red E 48 E).
Definition sample : store :=
  Store (list_to_map (cells 0 sample_tree ++ [(64, RbNode 0 0 0)])) 32.

Lemma sample_repr : repr (mem sample) sample sample_tree.
Proof. apply reprb_repr. vm_compute. reflexivity. Qed.
Lemma sample_rb : is_rbtree sample_tree.
Proof. exists 1%nat. repeat econstructor. Qed.

Lemma rb_insert_correct_witness :
  runs (rb_link_node 64 48 (LinkRight 48);; rb_insert_color 64) sample
    (fun _ s' => holds (mem sample) s' [16; 32; 48; 64]).
Proof.
  apply (proj2 (rb_insert_correct (mem sample) sample sample_tree [16; 32; 48] [] 64 (RbNode 0 0 0)
    sample_repr sample_rb eq_refl eq_refl ltac:(apply (bool_decide_unpack _); vm_compute; exact I)
    ltac:(vm_compute; repeat split; discriminate)) [FR Red E 48; FR Black (T Red E 16 E) 32]); reflexivity.
Defined.

Lemma rb_erase_correct_witness :
  runs (rb_erase 32) sample (fun _ s' => exists v, holds (<[32 := v]> (mem sample)) s' [16; 48]).
Proof. apply (rb_erase_correct (mem sample) sample sample_tree [16] 32 [48] sample_repr sample_rb). reflexivity. Defined.

Lemma rb_walk_correct_witness :
  rb_first sample = Ok (16, sample) /\ rb_next 32 sample = Ok (48, sample) /\ rb_next 48 sample = Ok (0, sample).
Proof.
  destruct (rb_walk_correct (mem sample) sample sample_tree sample_repr) as (H1 & _ & H2 & _).
  split; [exact H1|]. split; [apply (H2 [16] 32 [48] eq_refl)|apply (H2 [16; 32] 48 [] eq_refl)].
Defined.
