(* ===== verification/Cfs.v ===== *)
(** The fair scheduling class (kernel/sched_fair.c, with the load arithmetic of
    kernel/sched.c): one run queue and its entities.

    The model is one [struct cfs_rq] whose entities are tasks without parents:
    the root queue, or every queue of a kernel without group scheduling, on one
    processor.  The runnable entities other than the current one are kept in a
    red-black tree, ordered by virtual runtime; an entity is named by the
    address of its [run_node], so that [rb_entry] is the identity.  The fields
    under [schedstat_*], which nothing reads, are left out. *)

From stdpp Require Import gmap.
From S2P Require Import Prelude.
From S2P Require Import State RbTree.

(** * Load arithmetic (kernel/sched.c) *)

Record load_weight := LoadWeight { weight : Z; inv_weight : Z }.

Definition WMULT_CONST : Z := lnot32 0.
Definition WMULT_SHIFT : Z := 32.
Definition NICE_0_LOAD : Z := Z.shiftl 1 10.
Definition LONG_MAX : Z := 2 ^ 31 - 1.

(** Shift right and round, in 64 bits. *)
Definition SRR (x y : Z) : Z := Z.shiftr (u64 (x + Z.shiftl 1 (y - 1))) y.

(** [delta *= weight / lw]; the inverse of the weight is cached in [lw]. *)
Definition calc_delta_mine (delta_exec weight_ : Z) (lw : load_weight) : res (Z * load_weight) :=
  lw ← (if inv_weight lw =? 0 then
          if u32 (weight lw + 1) =? 0 then Err DivideByZero
          else Ok (LoadWeight (weight lw) (u32 (1 + u32 (WMULT_CONST - weight lw / 2) / u32 (weight lw + 1))))
        else Ok lw);
  let tmp := u64 (delta_exec * weight_) in
  let tmp := if WMULT_CONST <? tmp
             then SRR (u64 (SRR tmp (WMULT_SHIFT / 2) * inv_weight lw)) (WMULT_SHIFT / 2)
             else SRR (u64 (tmp * inv_weight lw)) WMULT_SHIFT in
  Ok (u32 (Z.min tmp LONG_MAX), lw).

Definition update_load_add (lw : load_weight) (inc : Z) : load_weight := LoadWeight (u32 (weight lw + inc)) 0.
Definition update_load_sub (lw : load_weight) (dec : Z) : load_weight := LoadWeight (u32 (weight lw - dec)) 0.

(** * Entities and the queue *)

Record sched_entity := Entity {
  se_load : load_weight;
  on_rq : Z;
  exec_start : Z;
  sum_exec_runtime : Z;
  vruntime : Z;
  prev_sum_exec_runtime : Z;
  avg_overlap : Z;
  avg_wakeup : Z;
  avg_running : Z;
  policy : Z   (* of the task *)
}.

Record cfs_rq := CfsRq {
  cfs_load : load_weight;
  nr_running : Z;
  min_vruntime_ : Z;
  timeline : store;           (* tasks_timeline, and the run_node of every entity *)
  rb_leftmost : Z;
  tasks : list Z;
  curr : Z;
  next : Z;
  last : Z;
  ents : gmap Z sched_entity; (* the entities by address *)
  rq_clock : Z;               (* rq_of(cfs_rq)->clock *)
  rq_load : load_weight;      (* rq_of(cfs_rq)->load *)
  need_resched : bool         (* TIF_NEED_RESCHED of the running task *)
}.

Definition SCHED_NORMAL : Z := 0.
Definition SCHED_BATCH : Z := 3.
Definition SCHED_IDLE : Z := 5.
Definition WF_SYNC : Z := 1.
Definition WF_FORK : Z := 2.

(** The tunables and the feature bits of sched_features.h. *)
Record sched_config := Config {
  sysctl_sched_latency : Z;
  sysctl_sched_min_granularity : Z;
  sched_nr_latency : Z;
  sysctl_sched_wakeup_granularity : Z;
  sysctl_sched_migration_cost : Z;
  sysctl_sched_compat_yield : bool;
  FAIR_SLEEPERS : bool;
  GENTLE_FAIR_SLEEPERS : bool;
  NORMALIZED_SLEEPER : bool;
  START_DEBIT : bool;
  WAKEUP_PREEMPT : bool;
  ADAPTIVE_GRAN : bool;
  ASYM_GRAN : bool;
  WAKEUP_SYNC : bool;
  WAKEUP_OVERLAP : bool;
  WAKEUP_RUNNING : bool;
  NEXT_BUDDY : bool;
  LAST_BUDDY : bool
}.

Definition default_config : sched_config :=
  Config 5000000 1000000 5 1000000 500000 false true true false true true true true false false false false true.

(** ** Computations on the queue *)

Abbreviation CM := (ST cfs_rq).


Definition with_load v st := CfsRq v (nr_running st) (min_vruntime_ st) (timeline st) (rb_leftmost st) (tasks st)
  (curr st) (next st) (last st) (ents st) (rq_clock st) (rq_load st) (need_resched st).
Definition with_nr v st := CfsRq (cfs_load st) v (min_vruntime_ st) (timeline st) (rb_leftmost st) (tasks st)
  (curr st) (next st) (last st) (ents st) (rq_clock st) (rq_load st) (need_resched st).
Definition with_min v st := CfsRq (cfs_load st) (nr_running st) v (timeline st) (rb_leftmost st) (tasks st)
  (curr st) (next st) (last st) (ents st) (rq_clock st) (rq_load st) (need_resched st).
Definition with_timeline v st := CfsRq (cfs_load st) (nr_running st) (min_vruntime_ st) v (rb_leftmost st) (tasks st)
  (curr st) (next st) (last st) (ents st) (rq_clock st) (rq_load st) (need_resched st).
Definition with_leftmost v st := CfsRq (cfs_load st) (nr_running st) (min_vruntime_ st) (timeline st) v (tasks st)
  (curr st) (next st) (last st) (ents st) (rq_clock st) (rq_load st) (need_resched st).
Definition with_tasks v st := CfsRq (cfs_load st) (nr_running st) (min_vruntime_ st) (timeline st) (rb_leftmost st) v
  (curr st) (next st) (last st) (ents st) (rq_clock st) (rq_load st) (need_resched st).
Definition with_curr v st := CfsRq (cfs_load st) (nr_running st) (min_vruntime_ st) (timeline st) (rb_leftmost st) (tasks st)
  v (next st) (last st) (ents st) (rq_clock st) (rq_load st) (need_resched st).
Definition with_next v st := CfsRq (cfs_load st) (nr_running st) (min_vruntime_ st) (timeline st) (rb_leftmost st) (tasks st)
  (curr st) v (last st) (ents st) (rq_clock st) (rq_load st) (need_resched st).
Definition with_last v st := CfsRq (cfs_load st) (nr_running st) (min_vruntime_ st) (timeline st) (rb_leftmost st) (tasks st)
  (curr st) (next st) v (ents st) (rq_clock st) (rq_load st) (need_resched st).
Definition with_ents v st := CfsRq (cfs_load st) (nr_running st) (min_vruntime_ st) (timeline st) (rb_leftmost st) (tasks st)
  (curr st) (next st) (last st) v (rq_clock st) (rq_load st) (need_resched st).
Definition with_clock v st := CfsRq (cfs_load st) (nr_running st) (min_vruntime_ st) (timeline st) (rb_leftmost st) (tasks st)
  (curr st) (next st) (last st) (ents st) v (rq_load st) (need_resched st).
Definition with_rq_load v st := CfsRq (cfs_load st) (nr_running st) (min_vruntime_ st) (timeline st) (rb_leftmost st) (tasks st)
  (curr st) (next st) (last st) (ents st) (rq_clock st) v (need_resched st).
Definition with_resched v st := CfsRq (cfs_load st) (nr_running st) (min_vruntime_ st) (timeline st) (rb_leftmost st) (tasks st)
  (curr st) (next st) (last st) (ents st) (rq_clock st) (rq_load st) v.

(** An operation of rbtree.c on [tasks_timeline]. *)
Definition on_timeline {A} (m : M A) : CM A := fun st =>
  match m (timeline st) with
  | Ok (a, s) => Ok (a, with_timeline s st)
  | Err e => Err e
  end.

(** The entity at an address; following [NULL] is an error. *)
Definition ent (se : Z) : CM sched_entity := fun st =>
  match ents st !! se with Some e => Ok (e, st) | None => Err OutOfBounds end.
Definition set_ent (se : Z) (e : sched_entity) : CM unit := fun st =>
  match ents st !! se with
  | Some _ => Ok (tt, with_ents (<[se := e]> (ents st)) st)
  | None => Err OutOfBounds
  end.

Definition e_vruntime v e := Entity (se_load e) (on_rq e) (exec_start e) (sum_exec_runtime e) v
  (prev_sum_exec_runtime e) (avg_overlap e) (avg_wakeup e) (avg_running e) (policy e).
Definition e_on_rq v e := Entity (se_load e) v (exec_start e) (sum_exec_runtime e) (vruntime e)
  (prev_sum_exec_runtime e) (avg_overlap e) (avg_wakeup e) (avg_running e) (policy e).
Definition e_exec_start v e := Entity (se_load e) (on_rq e) v (sum_exec_runtime e) (vruntime e)
  (prev_sum_exec_runtime e) (avg_overlap e) (avg_wakeup e) (avg_running e) (policy e).
Definition e_sum v e := Entity (se_load e) (on_rq e) (exec_start e) v (vruntime e)
  (prev_sum_exec_runtime e) (avg_overlap e) (avg_wakeup e) (avg_running e) (policy e).
Definition e_prev_sum v e := Entity (se_load e) (on_rq e) (exec_start e) (sum_exec_runtime e) (vruntime e)
  v (avg_overlap e) (avg_wakeup e) (avg_running e) (policy e).
Definition e_load v e := Entity v (on_rq e) (exec_start e) (sum_exec_runtime e) (vruntime e)
  (prev_sum_exec_runtime e) (avg_overlap e) (avg_wakeup e) (avg_running e) (policy e).

(** Updates one field of the entity at [se]. *)
Definition upd_ent (se : Z) (f : sched_entity -> sched_entity) : CM unit := e ← ent se; set_ent se (f e).
Definition resched_task : CM unit := modify (with_resched true).

(** * The timeline *)

Definition max_vruntime (min_vruntime vruntime : Z) : Z :=
  let delta := s64 (vruntime - min_vruntime) in
  if 0 <? delta then vruntime else min_vruntime.

Definition min_vruntime (min_vruntime vruntime : Z) : Z :=
  let delta := s64 (vruntime - min_vruntime) in
  if delta <? 0 then vruntime else min_vruntime.

Definition entity_before (a b : sched_entity) : bool := s64 (vruntime a - vruntime b) <? 0.

Definition entity_key (se : Z) : CM Z :=
  e ← ent se; m ← gets min_vruntime_; mret (s64 (vruntime e - m)).

Definition update_min_vruntime : CM unit :=
  v ← gets min_vruntime_;
  c ← gets curr;
  v ← (if negb (c =? 0) then e ← ent c; mret (vruntime e) else mret v);
  lm ← gets rb_leftmost;
  v ← (if negb (lm =? 0) then
         se ← ent lm;
         c ← gets curr;
         mret (if c =? 0 then vruntime se else min_vruntime v (vruntime se))
       else mret v);
  m ← gets min_vruntime_;
  modify (with_min (max_vruntime m v)).

(** The search for the place of a key: [parent], [link] and [leftmost]. *)
Definition enqueue_search (key : Z) (st : Z * rb_link * Z) : CM ((Z * rb_link * Z) + (Z * rb_link * Z)) :=
  let '(parent, link, leftmost) := st in
  p ← on_timeline (read_link link);
  if p =? 0 then mret (inr (parent, link, leftmost)) else
  k ← entity_key p;
  mret (inl (if key <? k then (p, LinkLeft p, leftmost) else (p, LinkRight p, 0))).

Definition __enqueue_entity (se : Z) : CM unit :=
  key ← entity_key se;
  fuel ← on_timeline node_fuel;
  '(parent, link, leftmost) ← while fuel (enqueue_search key) (0, LinkRoot, 1);
  (if negb (leftmost =? 0) then modify (with_leftmost se) else mret tt);;
  on_timeline (rb_link_node se parent link);;
  on_timeline (rb_insert_color se).

Definition __dequeue_entity (se : Z) : CM unit :=
  lm ← gets rb_leftmost;
  (if lm =? se then
     next_node ← on_timeline (rb_next se);
     modify (with_leftmost next_node)
   else mret tt);;
  on_timeline (rb_erase se).

Definition __pick_next_entity : CM Z :=
  left ← gets rb_leftmost;
  mret (if left =? 0 then 0 else left).

Definition __pick_last_entity : CM Z :=
  last ← on_timeline rb_last;
  mret (if last =? 0 then 0 else last).

(** * Accounting, placement and preemption *)

Section Class.
Context (cfg : sched_config).

(** [calc_delta_mine(delta, weight, &se->load)]: the inverse is cached in the entity. *)
Definition calc_delta_entity (delta weight_ se : Z) : CM Z :=
  e ← ent se;
  '(d, lw) ← lift (calc_delta_mine delta weight_ (se_load e));
  set_ent se (e_load lw e);;
  mret d.

Definition calc_delta_fair (delta se : Z) : CM Z :=
  e ← ent se;
  if negb (weight (se_load e) =? NICE_0_LOAD) then calc_delta_entity delta NICE_0_LOAD se
  else mret delta.

Definition __sched_period (nr_running : Z) : Z :=
  if sched_nr_latency cfg <? nr_running
  then u64 (sysctl_sched_min_granularity cfg * nr_running)
  else sysctl_sched_latency cfg.

(** The argument of [calc_delta_mine] is an [unsigned long]. *)
Definition sched_slice (se : Z) : CM Z :=
  e ← ent se;
  nr ← gets nr_running;
  let slice := __sched_period (u32 (nr + (if on_rq e =? 0 then 1 else 0))) in
  load ← gets cfs_load;
  if on_rq e =? 0 then
    let lw := update_load_add load (weight (se_load e)) in
    '(d, _) ← lift (calc_delta_mine (u32 slice) (weight (se_load e)) lw);
    mret d
  else
    '(d, lw) ← lift (calc_delta_mine (u32 slice) (weight (se_load e)) load);
    modify (with_load lw);;
    mret d.

Definition sched_vslice (se : Z) : CM Z :=
  s ← sched_slice se;
  calc_delta_fair s se.

Definition __update_curr (c delta_exec : Z) : CM unit :=
  upd_ent c (fun e => e_sum (u64 (sum_exec_runtime e + delta_exec)) e);;
  delta_exec_weighted ← calc_delta_fair delta_exec c;
  upd_ent c (fun e => e_vruntime (u64 (vruntime e + delta_exec_weighted)) e);;
  update_min_vruntime.

Definition update_curr : CM unit :=
  c ← gets curr;
  now ← gets rq_clock;
  if c =? 0 then mret tt else
  e ← ent c;
  let delta_exec := u32 (now - exec_start e) in
  if delta_exec =? 0 then mret tt else
  __update_curr c delta_exec;;
  upd_ent c (e_exec_start now).

Definition update_stats_curr_start (se : Z) : CM unit :=
  now ← gets rq_clock;
  upd_ent se (e_exec_start now).

Definition account_entity_enqueue (se : Z) : CM unit :=
  e ← ent se;
  l ← gets cfs_load;
  modify (with_load (update_load_add l (weight (se_load e))));;
  rl ← gets rq_load;
  modify (with_rq_load (update_load_add rl (weight (se_load e))));;
  ts ← gets tasks;
  modify (with_tasks (se :: ts));;
  n ← gets nr_running;
  modify (with_nr (u32 (n + 1)));;
  upd_ent se (e_on_rq 1).

(** [list_del_init] of a member of the list. *)
Definition list_del (x : Z) (l : list Z) : list Z := filter (fun y => y <> x) l.

Definition account_entity_dequeue (se : Z) : CM unit :=
  e ← ent se;
  l ← gets cfs_load;
  modify (with_load (update_load_sub l (weight (se_load e))));;
  rl ← gets rq_load;
  modify (with_rq_load (update_load_sub rl (weight (se_load e))));;
  ts ← gets tasks;
  modify (with_tasks (list_del se ts));;
  n ← gets nr_running;
  modify (with_nr (u32 (n - 1)));;
  upd_ent se (e_on_rq 0).

Definition place_entity (se : Z) (initial : bool) : CM unit :=
  v ← gets min_vruntime_;
  v ← (if initial && START_DEBIT cfg then d ← sched_vslice se; mret (u64 (v + d)) else mret v);
  v ← (if negb initial && FAIR_SLEEPERS cfg then
         e ← ent se;
         thresh ← (if NORMALIZED_SLEEPER cfg && negb (policy e =? SCHED_IDLE)
                   then calc_delta_fair (sysctl_sched_latency cfg) se
                   else mret (sysctl_sched_latency cfg));
         let thresh := if GENTLE_FAIR_SLEEPERS cfg then Z.shiftr thresh 1 else thresh in
         mret (u64 (v - thresh))
       else mret v);
  upd_ent se (fun e => e_vruntime (max_vruntime (vruntime e) v) e).

Definition enqueue_entity (se : Z) (wakeup : bool) : CM unit :=
  update_curr;;
  account_entity_enqueue se;;
  (if wakeup then place_entity se false else mret tt);;
  c ← gets curr;
  if negb (se =? c) then __enqueue_entity se else mret tt.

Definition __clear_buddies (se : Z) : CM unit :=
  l ← gets last;
  (if (se =? 0) || (l =? se) then modify (with_last 0) else mret tt);;
  n ← gets next;
  (if (se =? 0) || (n =? se) then modify (with_next 0) else mret tt).

(** [for_each_sched_entity] over an entity without a parent. *)
Definition clear_buddies (se : Z) : CM unit :=
  if negb (se =? 0) then __clear_buddies se else mret tt.

(** [sleep] only selects statistics. *)
Definition dequeue_entity (se : Z) (sleep : bool) : CM unit :=
  update_curr;;
  clear_buddies se;;
  c ← gets curr;
  (if negb (se =? c) then __dequeue_entity se else mret tt);;
  account_entity_dequeue se;;
  update_min_vruntime.

Definition check_preempt_tick (c : Z) : CM unit :=
  ideal_runtime ← sched_slice c;
  e ← ent c;
  let delta_exec := u32 (sum_exec_runtime e - prev_sum_exec_runtime e) in
  if ideal_runtime <? delta_exec then
    resched_task;;
    clear_buddies c
  else if negb (WAKEUP_PREEMPT cfg) then mret tt
  else if delta_exec <? sysctl_sched_min_granularity cfg then mret tt
  else
    n ← gets nr_running;
    if 1 <? n then
      se ← __pick_next_entity;
      s ← ent se;
      e ← ent c;
      let delta := s64 (vruntime e - vruntime s) in
      if ideal_runtime <? delta then resched_task else mret tt
    else mret tt.

Definition set_next_entity (se : Z) : CM unit :=
  e ← ent se;
  (if negb (on_rq e =? 0) then __dequeue_entity se else mret tt);;
  update_stats_curr_start se;;
  modify (with_curr se);;
  upd_ent se (fun e => e_prev_sum (sum_exec_runtime e) e).

Definition adaptive_gran (c se : Z) : CM Z :=
  ce ← ent c;
  s ← ent se;
  n ← gets nr_running;
  let this_run := u64 (sum_exec_runtime ce - prev_sum_exec_runtime ce) in
  let expected_wakeup := u64 (u64 (2 * avg_wakeup s) * n) in
  let gran := if this_run <? expected_wakeup then u64 (expected_wakeup - this_run) else 0 in
  mret (u32 (Z.min (s64 gran) (sysctl_sched_wakeup_granularity cfg))).

Definition wakeup_gran (c se : Z) : CM Z :=
  qc ← gets curr;
  gran ← (if negb (qc =? 0) && ADAPTIVE_GRAN cfg then adaptive_gran c se
          else mret (sysctl_sched_wakeup_granularity cfg));
  let x := if ASYM_GRAN cfg then se else c in
  e ← ent x;
  if negb (weight (se_load e) =? NICE_0_LOAD) then calc_delta_fair gran x else mret gran.

Definition wakeup_preempt_entity (c se : Z) : CM Z :=
  ce ← ent c;
  s ← ent se;
  let vdiff := s64 (vruntime ce - vruntime s) in
  if vdiff <=? 0 then mret (-1) else
  gran ← wakeup_gran c se;
  mret (if gran <? vdiff then 1 else 0).

(** [for_each_sched_entity] over an entity without a parent. *)
Definition set_last_buddy (se : Z) : CM unit :=
  e ← ent se;
  if negb (policy e =? SCHED_IDLE) then modify (with_last se) else mret tt.

Definition set_next_buddy (se : Z) : CM unit :=
  e ← ent se;
  if negb (policy e =? SCHED_IDLE) then modify (with_next se) else mret tt.

(** The woken task [pse] has a real-time priority ([rt]) or is of the fair class
    ([fair]); [curr_idle] is [curr == rq->idle].  Entities without parents are
    siblings, so that [find_matching_se] leaves them alone. *)
Definition check_preempt_wakeup (pse : Z) (rt fair curr_idle : bool) (wake_flags : Z) : CM unit :=
  se ← gets curr;
  let sync := Z.land wake_flags WF_SYNC in
  n ← gets nr_running;
  let scale := sched_nr_latency cfg <=? n in
  update_curr;;
  if rt then resched_task
  else if negb fair then mret tt
  else if se =? pse then mret tt
  else
    (if NEXT_BUDDY cfg && scale && (Z.land wake_flags WF_FORK =? 0) then set_next_buddy pse else mret tt);;
    r ← gets need_resched;
    if (r : bool) then mret tt else
    p ← ent pse;
    if negb (policy p =? SCHED_NORMAL) then mret tt else
    c ← ent se;
    if policy c =? SCHED_IDLE then resched_task
    else if (WAKEUP_SYNC cfg && negb (sync =? 0)) ||
            (WAKEUP_OVERLAP cfg &&
             ((avg_overlap c <? sysctl_sched_migration_cost cfg) && (avg_overlap p <? sysctl_sched_migration_cost cfg)))
    then resched_task
    else if WAKEUP_RUNNING cfg && (avg_running p <? avg_running c) then
      set_next_buddy pse;;
      resched_task
    else if negb (WAKEUP_PREEMPT cfg) then mret tt
    else if pse =? 0 then fail BugOn
    else
      w ← wakeup_preempt_entity se pse;
      if w =? 1 then
        resched_task;;
        c ← ent se;
        if (on_rq c =? 0) || curr_idle then mret tt
        else if LAST_BUDDY cfg && scale then set_last_buddy se else mret tt
      else mret tt.

(** [buddy && wakeup_preempt_entity(buddy, left) < 1] *)
Definition buddy_wins (buddy left : Z) : CM bool :=
  if negb (buddy =? 0) then w ← wakeup_preempt_entity buddy left; mret (w <? 1) else mret false.

Definition pick_next_entity : CM Z :=
  left ← __pick_next_entity;
  n ← gets next;
  b ← buddy_wins n left;
  let se := if (b : bool) then n else left in
  l ← gets last;
  b ← buddy_wins l left;
  let se := if (b : bool) then l else se in
  clear_buddies se;;
  mret se.

Definition put_prev_entity (prev : Z) : CM unit :=
  e ← ent prev;
  (if negb (on_rq e =? 0) then update_curr else mret tt);;
  e ← ent prev;
  (if negb (on_rq e =? 0) then __enqueue_entity prev else mret tt);;
  modify (with_curr 0).

Definition entity_tick (c : Z) : CM unit :=
  update_curr;;
  n ← gets nr_running;
  if (1 <? n) || negb (WAKEUP_PREEMPT cfg) then check_preempt_tick c else mret tt.

(** The methods of [fair_sched_class] on a task without a parent entity. *)
Definition enqueue_task_fair (se : Z) (wakeup : bool) : CM unit :=
  e ← ent se;
  if negb (on_rq e =? 0) then mret tt else enqueue_entity se wakeup.

Definition dequeue_task_fair (se : Z) (sleep : bool) : CM unit := dequeue_entity se sleep.

Definition pick_next_task_fair : CM Z :=
  n ← gets nr_running;
  if n =? 0 then mret 0 else
  se ← pick_next_entity;
  set_next_entity se;;
  mret se.

Definition put_prev_task_fair (prev : Z) : CM unit := put_prev_entity prev.

Definition task_tick_fair (c : Z) : CM unit := entity_tick c.

(** [rq->curr] is the entity [se]; [now] is what the clock shows when the queue
    clock is updated. *)
Definition yield_task_fair (se now : Z) : CM unit :=
  n ← gets nr_running;
  if n =? 1 then mret tt else
  clear_buddies se;;
  e ← ent se;
  if negb (sysctl_sched_compat_yield cfg) && negb (policy e =? SCHED_BATCH) then
    modify (with_clock now);;
    update_curr
  else
    rightmost ← __pick_last_entity;
    if rightmost =? 0 then mret tt else
    r ← ent rightmost;
    e ← ent se;
    if entity_before r e then mret tt else
    upd_ent se (e_vruntime (u64 (vruntime r + 1))).

(** [child_first] is [sysctl_sched_child_runs_first] with the child on this cpu. *)
Definition task_new_fair (se : Z) (child_first : bool) : CM unit :=
  c ← gets curr;
  update_curr;;
  (if negb (c =? 0) then e ← ent c; upd_ent se (e_vruntime (vruntime e)) else mret tt);;
  place_entity se true;;
  (if child_first && negb (c =? 0) then
     ce ← ent c;
     e ← ent se;
     if entity_before ce e then
       upd_ent c (e_vruntime (vruntime e));;
       upd_ent se (e_vruntime (vruntime ce));;
       resched_task
     else mret tt
   else mret tt);;
  enqueue_task_fair se false.

(** [rt] and [fair] say of the task what [check_preempt_wakeup] asks, which
    [check_preempt_curr] calls when the running task is of the fair class. *)
Definition prio_changed_fair (se prio oldprio : Z) (running rt fair curr_idle : bool) : CM unit :=
  if running then (if oldprio <? prio then resched_task else mret tt)
  else check_preempt_wakeup se rt fair curr_idle 0.

Definition switched_to_fair (se : Z) (running rt fair curr_idle : bool) : CM unit :=
  if running then resched_task else check_preempt_wakeup se rt fair curr_idle 0.

(** [rq->curr] is the entity [se]. *)
Definition set_curr_task_fair (se : Z) : CM unit := set_next_entity se.

Definition moved_group_fair (se : Z) : CM unit :=
  update_curr;;
  place_entity se true.

(** [NS_TO_JIFFIES] with the number [HZ] of ticks per second. *)
Definition get_rr_interval_fair (HZ se : Z) : CM Z :=
  l ← gets cfs_load;
  if negb (weight l =? 0) then
    s ← sched_slice se;
    mret (u32 (u32 s / (1000000000 / HZ)))
  else mret 0.

End Class.

(** [init_cfs_rq], with the entities that exist. *)
Definition init_cfs_rq (nodes : gmap Z rb_node) (es : gmap Z sched_entity) (clock : Z) : cfs_rq :=
  CfsRq (LoadWeight 0 0) 0 (u64 (- Z.shiftl 1 20)) (Store nodes 0) 0 [] 0 0 0 es clock (LoadWeight 0 0) false.
