(* ===== verification/CfsTimeline.v ===== *)
(** The timeline of the fair class: a sorted queue.

    [tl_ok st xs]: the tree of the queue holds the entities [xs] in the order of
    their keys (the virtual runtime relative to [min_vruntime], as a signed
    number), and [rb_leftmost] is the first of them. *)

From stdpp Require Import gmap sorting.
From S2P Require Import Prelude.
From S2P Require Import State RbTree RbShape RbOps RbFacts Cfs.

(** The key of the entity at [x]. *)
Definition key (st : cfs_rq) (x : Z) : Z :=
  match ents st !! x with Some e => s64 (vruntime e - min_vruntime_ st) | None => 0 end.

Definition key_le (st : cfs_rq) (x y : Z) : Prop := key st x <= key st y.

Record tl_ok (st : cfs_rq) (xs : list Z) : Prop := {
  tl_tree : exists t, repr (mem (timeline st)) (timeline st) t /\ is_rbtree t /\ inorder t = xs;
  tl_left : rb_leftmost st = first_of xs;
  tl_in : forall x, x ∈ xs -> is_Some (ents st !! x);
  tl_sorted : StronglySorted (key_le st) xs;
  tl_nodes : forall x, is_Some (ents st !! x) -> is_addr x /\ is_Some (mem (timeline st) !! x)
}.

(** Only the tree and the cached leftmost node differ. *)
Definition same_queue (st st' : cfs_rq) : Prop :=
  st' = with_leftmost (rb_leftmost st') (with_timeline (timeline st') st).

Lemma key_same st st' x : same_queue st st' -> key st' x = key st x.
Proof. intros ->. done. Qed.

(** Entities keep their nodes through an operation on the tree. *)
Lemma repr_nodes F s s' t : repr F s' t -> (forall x, is_Some (mem s !! x) -> is_Some (F !! x)) ->
  forall x, is_Some (mem s !! x) -> is_Some (mem s' !! x).
Proof.
  intros [H _] HF x Hx. destruct (decide (x ∈ (cells 0 t).*1)) as [Hin|Hout].
  - apply list_elem_of_fmap in Hin as ([y n] & -> & Hy). exists n. now apply (sat_in _ _ _ H).
  - rewrite (sat_out _ _ _ H x Hout). auto.
Qed.

Lemma runs_timeline {A} (m : M A) st (Q : A -> cfs_rq -> Prop) :
  runs m (timeline st) (fun a s => Q a (with_timeline s st)) -> runs (on_timeline m) st Q.
Proof. unfold runs, on_timeline. destruct (m (timeline st)) as [[a s]|e]; done. Qed.

Lemma on_timeline_seq {A B} (m1 : M A) (m2 : M B) st (Q : B -> cfs_rq -> Prop) :
  runs (m1;; m2) (timeline st) (fun a s => Q a (with_timeline s st)) ->
  runs (on_timeline m1;; on_timeline m2) st Q.
Proof.
  unfold runs, mbind, ST_bind, on_timeline. destruct (m1 (timeline st)) as [[a s]|e]; [|done]. cbn.
  destruct (m2 s) as [[b s']|e]; done.
Qed.

Lemma ent_eq st x e : ents st !! x = Some e -> ent x st = Ok (e, st).
Proof. unfold ent. now intros ->. Qed.

Lemma entity_key_eq st x : is_Some (ents st !! x) -> entity_key x st = Ok (key st x, st).
Proof.
  intros [e He]. unfold entity_key, mbind, ST_bind, key. now rewrite (ent_eq _ _ _ He), He.
Qed.

(** ** The search *)

Definition left_flag (k : ctx) : Z := match before k with [] => 1 | _ => 0 end.

Lemma left_flag_FR c l a k : left_flag (FR c l a :: k) = 0.
Proof. unfold left_flag. cbn. now destruct (before k), (inorder l). Qed.

Lemma on_timeline_read {A} (m : M A) st a : m (timeline st) = Ok (a, timeline st) -> on_timeline m st = Ok (a, st).
Proof. unfold on_timeline. intros ->. now destruct st. Qed.

Lemma search_step F st v k c l a r : repr F (timeline st) (plug k (T c l a r)) -> is_Some (ents st !! a) ->
  enqueue_search v (cparent k, link_of k, left_flag k) st =
  Ok (inl (let k' := if v <? key st a then FL c a r :: k else FR c l a :: k in
           (cparent k', link_of k', left_flag k')), st).
Proof.
  intros H Ha. unfold enqueue_search, mbind, ST_bind.
  rewrite (on_timeline_read _ _ _ (read_link_sub F _ _ _ H)), (repr_addr _ _ _ _ H). cbn [addr].
  rewrite entity_key_eq by done. destruct (v <? key st a); [done|]. now rewrite left_flag_FR.
Qed.

Lemma search_ok F st v fuel u k :
  repr F (timeline st) (plug k u) -> StronglySorted (key_le st) (inorder (plug k u)) ->
  (forall x, x ∈ inorder (plug k u) -> is_Some (ents st !! x)) -> (length (inorder u) < fuel)%nat ->
  (forall x, x ∈ before k -> key st x <= v) -> (forall x, x ∈ after k -> v < key st x) ->
  exists k', while fuel (enqueue_search v) (cparent k, link_of k, left_flag k) st
             = Ok ((cparent k', link_of k', left_flag k'), st) /\
    plug k' E = plug k u /\ (forall x, x ∈ before k' -> key st x <= v) /\ (forall x, x ∈ after k' -> v < key st x).
Proof.
  revert fuel k. induction u as [|c l IHl a r IHr]; intros fuel k H Hs He Hf Hb Ha;
    (destruct fuel as [|fuel]; [lia|]); cbn [while]; unfold mbind at 1, ST_bind at 1.
  - exists k. split; [|done]. unfold enqueue_search, mbind, ST_bind.
    now rewrite (on_timeline_read _ _ _ (read_link_sub F _ _ _ H)).
  - pose proof Hs as Hs'. rewrite inorder_plug in Hs'. cbn [inorder] in Hs', Hf. rewrite length_app in Hf. cbn [length] in Hf.
    destruct (sorted_split _ _ _ _ _ _ Hs') as [Hl Hr].
    rewrite (search_step F _ _ _ _ _ _ _ H)
      by (apply He; rewrite inorder_plug; cbn [inorder]; rewrite !elem_of_app, elem_of_cons; auto).
    cbv beta zeta. destruct (Z.ltb_spec v (key st a)).
    + apply (IHl fuel (FL c a r :: k)); [done|done|done|lia|done|].
      intros x. cbn [after]. rewrite elem_of_cons, elem_of_app. intros [-> |[Hx|Hx]]; [done| |auto].
      specialize (Hr x Hx). unfold key_le in Hr. lia.
    + apply (IHr fuel (FR c l a :: k)); [done|done|done|lia| |done].
      intros x. cbn [before]. rewrite !elem_of_app, list_elem_of_singleton. intros [Hx|[Hx| ->]]; [auto| |done].
      specialize (Hl x Hx). unfold key_le in Hl. lia.
Qed.

(** * Enqueue and dequeue *)

Lemma sorted_remove {A} (R : A -> A -> Prop) ys x zs :
  StronglySorted R (ys ++ x :: zs) -> StronglySorted R (ys ++ zs).
Proof.
  rewrite !StronglySorted_app, StronglySorted_cons. intros (H1 & H2 & H3 & H4).
  split; [|done]. intros a b Ha Hb. apply H1; [done|]. now right.
Qed.

Lemma sorted_ext {A} (R R' : A -> A -> Prop) l :
  (forall x y, x ∈ l -> y ∈ l -> R x y -> R' x y) -> StronglySorted R l -> StronglySorted R' l.
Proof.
  induction l as [|x l IH]; intros HR Hs; [constructor|]. apply StronglySorted_cons in Hs as [Hx Hs].
  apply StronglySorted_cons. split.
  - rewrite List.Forall_forall in *. intros y Hy. apply HR; [left|right; now apply list_elem_of_In|auto].
  - apply IH; [|done]. intros a b Ha Hb. apply HR; now right.
Qed.

(** The new tree after an insertion or a removal, with the new leftmost node. *)
Lemma tl_ok_step st xs s lm xs' F :
  tl_ok st xs -> holds F s xs' -> (forall x, is_Some (mem (timeline st) !! x) -> is_Some (F !! x)) ->
  lm = first_of xs' -> (forall x, x ∈ xs' -> is_Some (ents st !! x)) -> StronglySorted (key_le st) xs' ->
  tl_ok (with_leftmost lm (with_timeline s st)) xs'.
Proof.
  intros [_ _ _ _ Hn] (t & Hr & Hrb & Hi & _) HF Hlm Hin Hs. split; cbn.
  - exists t. split; [eapply repr_self, Hr|done].
  - done.
  - done.
  - done.
  - intros x Hx. destruct (Hn x Hx) as [Ha Hm]. split; [done|]. now apply (repr_nodes _ _ _ _ Hr HF).
Qed.

Lemma enqueue_spec st xs se :
  tl_ok st xs -> se ∉ xs -> is_Some (ents st !! se) ->
  runs (__enqueue_entity se) st (fun _ st' => exists ys zs, xs = ys ++ zs /\ tl_ok st' (ys ++ se :: zs) /\
    (forall y, y ∈ ys -> key st y <= key st se) /\ (forall z, z ∈ zs -> key st se < key st z) /\ same_queue st st').
Proof.
  intros Hok Hse He. destruct (Hok) as [(t & Hr & Hrb & Hi) Hl Hin Hs Hn].
  unfold __enqueue_entity. apply runs_bind, (runs_eq _ _ _ _ _ (entity_key_eq _ _ He)).
  apply runs_bind, (runs_eq _ _ _ _ _ (on_timeline_read node_fuel st _ eq_refl)).
  destruct (search_ok (mem (timeline st)) st (key st se) (S (size (mem (timeline st)))) t []) as (k & Hw & Hk & Hb & Ha).
  { done. } { now rewrite <- Hi in Hs. } { now rewrite <- Hi in Hin. }
  { pose proof (repr_depth _ _ [] _ Hr). lia. } { now intros x ?%elem_of_nil. } { now intros x ?%elem_of_nil. }
  apply runs_bind, (runs_eq _ _ _ _ _ Hw). cbn [plug] in Hk. subst t. rewrite inorder_plug in Hi. cbn in Hi. subst xs.
  destruct (Hn se He) as [Hadr [v Hv]].
  pose proof (insert_holds _ _ k se v Hr Hrb Hv ltac:(now rewrite inorder_plug) Hadr) as Hins.
  set (st1 := if negb (left_flag k =? 0) then with_leftmost se st else st).
  apply runs_bind. eapply (runs_eq _ _ tt st1); [unfold st1; now destruct (negb _)|].
  assert (timeline st1 = timeline st) as Ht1 by (unfold st1; now destruct (negb _)).
  apply on_timeline_seq. rewrite Ht1. eapply runs_mono; [exact Hins|]. intros u s Hh. cbv beta.
  exists (before k), (after k). split; [done|].
  assert (with_timeline s st1 = with_leftmost (if negb (left_flag k =? 0) then se else rb_leftmost st) (with_timeline s st)) as Heq.
  { unfold st1. destruct (negb _); now destruct st. }
  rewrite Heq. split; [|split; [done|split; [done|done]]].
  eapply tl_ok_step; [exact Hok|exact Hh|done| | |].
  - unfold left_flag. rewrite Hl. now destruct (before k).
  - intros x. rewrite elem_of_app, elem_of_cons. intros [Hx|[-> |Hx]]; [|done|]; apply Hin; rewrite elem_of_app; auto.
  - apply sorted_insert; [done|intros y Hy; now apply Hb|intros z Hz]. specialize (Ha z Hz). unfold key_le. lia.
Qed.

Lemma dequeue_spec st ys se zs :
  tl_ok st (ys ++ se :: zs) ->
  runs (__dequeue_entity se) st (fun _ st' => tl_ok st' (ys ++ zs) /\ same_queue st st').
Proof.
  intros Hok. destruct (Hok) as [(t & Hr & Hrb & Hi) Hl Hin Hs Hn].
  unfold __dequeue_entity. apply runs_bind. eapply runs_eq; [reflexivity|].
  pose proof (erase_holds _ _ _ _ _ _ Hr Hrb Hi) as Her.
  pose proof Hi as Hz. apply node_zip in Hz as (k & c & l & r & -> & Hb & Ha).
  pose proof (rb_next_sim _ _ _ _ _ _ _ Hr) as Hnx. rewrite Ha in Hnx.
  set (lm := if rb_leftmost st =? se then first_of zs else rb_leftmost st).
  apply runs_bind. eapply (runs_eq _ _ tt (with_leftmost lm st)).
  { unfold lm. destruct (rb_leftmost st =? se).
    - unfold mbind, ST_bind. now rewrite (on_timeline_read _ _ _ Hnx).
    - now destruct st. }
  apply runs_timeline. eapply runs_mono; [exact Her|]. intros u s [v Hh]. cbv beta.
  change (with_timeline s (with_leftmost lm st)) with (with_leftmost lm (with_timeline s st)). split; [|done].
  eapply tl_ok_step; [exact Hok|exact Hh| | | |].
  - intros x Hx. destruct (decide (x = se)) as [-> |]; [rewrite lookup_insert_eq; eauto|now rewrite lookup_insert_ne].
  - unfold lm. rewrite Hl. destruct ys as [|y ys]; [cbn; now rewrite Z.eqb_refl|].
    cbn. destruct (Z.eqb_spec y se) as [-> |]; [|done]. exfalso.
    pose proof (repr_nodup _ _ _ Hr) as Hd. rewrite Hi in Hd. cbn in Hd. apply list.NoDup_cons in Hd as [Hd _].
    apply Hd. rewrite elem_of_app. right. left.
  - intros x Hx. apply Hin. rewrite elem_of_app, elem_of_cons in *. tauto.
  - eapply sorted_remove, Hs.
Qed.

(** * The floor of the virtual runtimes *)

Lemma s64_spec x : exists k, s64 x = x + k * 2 ^ 64 /\ - 2 ^ 63 <= s64 x < 2 ^ 63.
Proof.
  unfold s64. exists (- ((x + 2 ^ 63) / 2 ^ 64)). pose proof (Z.div_mod (x + 2 ^ 63) (2 ^ 64)).
  pose proof (Z.mod_pos_bound (x + 2 ^ 63) (2 ^ 64)). lia.
Qed.

Lemma s64_unique x y k : x = y + k * 2 ^ 64 -> - 2 ^ 63 <= y < 2 ^ 63 -> s64 x = y.
Proof. intros -> Hy. destruct (s64_spec (y + k * 2 ^ 64)) as (j & Hj & Hr). lia. Qed.

(** Every queued entity and the current one are within 2^62 ns (146 years) of
    the floor. *)
Definition near (n : Z) (st : cfs_rq) (x : Z) : Prop := - n <= key st x < n.

Definition new_min (st : cfs_rq) : Z :=
  let vl := match ents st !! rb_leftmost st with Some e => vruntime e | None => 0 end in
  let vc := match ents st !! curr st with Some e => vruntime e | None => 0 end in
  let m := min_vruntime_ st in
  max_vruntime m (if curr st =? 0 then (if rb_leftmost st =? 0 then m else vl)
                  else (if rb_leftmost st =? 0 then vc else min_vruntime vc vl)).

Lemma update_min_eq st xs : tl_ok st xs -> (curr st = 0 \/ is_Some (ents st !! curr st)) ->
  update_min_vruntime st = Ok (tt, with_min (new_min st) st).
Proof.
  intros [_ Hl Hin _ Hn] Hc. unfold update_min_vruntime, new_min, mbind, ST_bind, mret, ST_ret, gets, modify.
  assert (rb_leftmost st = 0 \/ is_Some (ents st !! rb_leftmost st)) as Hlm.
  { rewrite Hl. destruct xs as [|x xs]; [now left|right]. apply Hin. left. }
  destruct (Z.eqb_spec (curr st) 0) as [Hc0|Hc0]; cbn [negb].
  - destruct (Z.eqb_spec (rb_leftmost st) 0) as [Hl0|Hl0]; cbn [negb]; [done|].
    destruct Hlm as [|[e He]]; [done|]. now rewrite (ent_eq _ _ _ He), He, Hc0.
  - destruct Hc as [|[ec Hec]]; [done|]. rewrite (ent_eq _ _ _ Hec), Hec. cbn.
    destruct (Z.eqb_spec (rb_leftmost st) 0) as [Hl0|Hl0]; cbn [negb]; [done|].
    destruct Hlm as [|[e He]]; [done|]. rewrite (ent_eq _ _ _ He), He.
    destruct (Z.eqb_spec (curr st) 0); done.
Qed.

(** The entities that matter for the floor: those in the tree and the current one. *)
Definition ahead (st : cfs_rq) (xs : list Z) (x : Z) : Prop := x ∈ xs \/ x = curr st /\ curr st <> 0.

Lemma leftmost_least st xs x : tl_ok st xs -> x ∈ xs ->
  rb_leftmost st ∈ xs /\ rb_leftmost st <> 0 /\ key st (rb_leftmost st) <= key st x.
Proof.
  intros [_ Hl Hin Hs Hn]. rewrite Hl. destruct xs as [|y ys]; [now intros ?%elem_of_nil|]. cbn.
  apply StronglySorted_cons in Hs as [Hs _]. rewrite List.Forall_forall in Hs.
  intros Hx. split; [left|]. split.
  - destruct (Hn y (Hin y ltac:(left))) as [[? _] _]. lia.
  - apply elem_of_cons in Hx as [-> |Hx]; [lia|]. apply Hs, list_elem_of_In, Hx.
Qed.

Lemma key_some st x e : ents st !! x = Some e -> key st x = s64 (vruntime e - min_vruntime_ st).
Proof. unfold key. now intros ->. Qed.

(** Within the window the wrapped comparison of two runtimes is that of their keys. *)
Lemma near_compare st x y ex ey : ents st !! x = Some ex -> ents st !! y = Some ey ->
  near (2 ^ 62) st x -> near (2 ^ 62) st y -> s64 (vruntime ex - vruntime ey) = key st x - key st y.
Proof.
  intros Hx Hy. unfold near. rewrite (key_some _ _ _ Hx), (key_some _ _ _ Hy). intros Nx Ny.
  destruct (s64_spec (vruntime ex - min_vruntime_ st)) as (k2 & ? & ?).
  destruct (s64_spec (vruntime ey - min_vruntime_ st)) as (k3 & ? & ?).
  apply s64_unique with (k3 - k2); lia.
Qed.

(** The floor never moves back, and never past an entity that is ahead of it. *)
Lemma new_min_bound st xs : tl_ok st xs -> (curr st = 0 \/ is_Some (ents st !! curr st)) ->
  (forall x, ahead st xs x -> near (2 ^ 62) st x) ->
  let d := s64 (new_min st - min_vruntime_ st) in
  0 <= d /\ (d = 0 -> new_min st = min_vruntime_ st) /\ (0 < d -> forall x, ahead st xs x -> d <= key st x).
Proof.
  intros Hok Hc Hnear d. unfold d, new_min, max_vruntime. clear d.
  set (m := min_vruntime_ st) in *.
  assert (s64 (m - m) = 0) as Hmm by (rewrite Z.sub_diag; done).
  match goal with |- context [if 0 <? s64 (?v - m) then _ else _] => set (w := v) end.
  destruct (Z.ltb_spec 0 (s64 (w - m))) as [Hw|Hw]; [|rewrite Hmm; lia].
  split; [lia|]. split; [lia|]. intros _.
  assert (forall x e, ents st !! x = Some e -> s64 (vruntime e - m) = key st x) as Hkey by (intros x e He; now rewrite (key_some _ _ _ He)).
  assert (rb_leftmost st <> 0 -> rb_leftmost st ∈ xs) as Hlin.
  { rewrite (tl_left _ _ Hok). destruct xs; [done|]. intros _. left. }
  assert ((rb_leftmost st <> 0 -> s64 (w - m) <= key st (rb_leftmost st)) /\ (curr st <> 0 -> s64 (w - m) <= key st (curr st))) as [HL HC].
  { revert Hw. unfold w. destruct (Z.eqb_spec (rb_leftmost st) 0) as [Hl0|Hl0], (Z.eqb_spec (curr st) 0) as [Hc0|Hc0].
    - lia.
    - destruct Hc as [|[ec Hec]]; [done|]. rewrite Hec, (Hkey _ _ Hec). lia.
    - destruct (tl_in _ _ Hok _ (Hlin Hl0)) as [el Hel]. rewrite Hel, (Hkey _ _ Hel). lia.
    - destruct Hc as [|[ec Hec]]; [done|]. destruct (tl_in _ _ Hok _ (Hlin Hl0)) as [el Hel].
      rewrite Hel, Hec. unfold min_vruntime.
      rewrite (near_compare st _ _ _ _ Hel Hec (Hnear _ (or_introl (Hlin Hl0))) (Hnear _ (or_intror (conj eq_refl Hc0)))).
      destruct (Z.ltb_spec (key st (rb_leftmost st) - key st (curr st)) 0);
        [rewrite (Hkey _ _ Hel)|rewrite (Hkey _ _ Hec)]; lia. }
  intros x [Hx|[-> Hx]]; [|auto]. destruct (leftmost_least _ _ _ Hok Hx) as (_ & H0 & Hle). specialize (HL H0). lia.
Qed.

Lemma key_shift st x m d : is_Some (ents st !! x) -> d = s64 (m - min_vruntime_ st) -> 0 <= d <= key st x ->
  key (with_min m st) x = key st x - d.
Proof.
  intros [e He] -> Hd. unfold key in *. cbn. rewrite He in *.
  destruct (s64_spec (vruntime e - min_vruntime_ st)) as (k1 & ? & ?).
  destruct (s64_spec (m - min_vruntime_ st)) as (k2 & ? & ?).
  apply s64_unique with (k2 - k1); lia.
Qed.

(** The keys after the floor has moved: they keep their order. *)
Lemma new_min_keys st xs x : tl_ok st xs -> (curr st = 0 \/ is_Some (ents st !! curr st)) ->
  (forall y, ahead st xs y -> near (2 ^ 62) st y) -> ahead st xs x ->
  key (with_min (new_min st) st) x = key st x - s64 (new_min st - min_vruntime_ st) /\
  (key (with_min (new_min st) st) x = key st x \/ 0 <= key (with_min (new_min st) st) x <= key st x).
Proof.
  intros Hok Hc Hx Hin. pose proof (new_min_bound st xs Hok Hc Hx) as (H0 & H1 & H2).
  set (d := s64 (new_min st - min_vruntime_ st)) in *.
  destruct (Z.eq_dec d 0) as [Hd|Hd].
  - rewrite (H1 Hd), Hd. replace (with_min (min_vruntime_ st) st) with st by now destruct st. lia.
  - assert (is_Some (ents st !! x)) as He.
    { destruct Hin as [Hin|[-> Hc0]]; [now apply (tl_in _ _ Hok)|]. now destruct Hc. }
    rewrite (key_shift st x (new_min st) d He eq_refl) by (specialize (H2 ltac:(lia) x Hin); lia).
    specialize (H2 ltac:(lia) x Hin). lia.
Qed.

Lemma near_min st xs n x : tl_ok st xs -> (curr st = 0 \/ is_Some (ents st !! curr st)) ->
  (forall y, ahead st xs y -> near (2 ^ 62) st y) -> ahead st xs x -> near n st x -> near n (with_min (new_min st) st) x.
Proof.
  intros Hok Hc Hx Hin Hn. pose proof (new_min_keys st xs x Hok Hc Hx Hin) as [_ H]. unfold near in *. lia.
Qed.

Lemma tl_ok_min st xs : tl_ok st xs -> (curr st = 0 \/ is_Some (ents st !! curr st)) ->
  (forall y, ahead st xs y -> near (2 ^ 62) st y) -> tl_ok (with_min (new_min st) st) xs.
Proof.
  intros Hok Hc Hx. destruct (Hok) as [Ht Hl Hin Hs Hn]. split; try done.
  eapply sorted_ext, Hs. intros x y Hxx Hy. unfold key_le.
  rewrite (proj1 (new_min_keys st xs x Hok Hc Hx (or_introl Hxx))), (proj1 (new_min_keys st xs y Hok Hc Hx (or_introl Hy))). lia.
Qed.
