(* ===== verification/CfsFacts.v ===== *)
(** The fair class keeps its queue consistent.

    [acct st Q]: the accounting of the queue agrees with the set [Q] of runnable
    entities.  [cfs_ok st xs]: the queue is consistent, with the entities [xs]
    waiting in the tree in the order of their keys.  [moved P st st']: what the
    arithmetic of the class may change, the virtual runtime only of the
    entities in [P]. *)

From stdpp Require Import gmap sorting.
From S2P Require Import Prelude.
From S2P Require Import State RbTree RbShape RbOps RbFacts Cfs CfsTimeline.

(** * Steps *)

Lemma runs_ent {B} x e (k : sched_entity -> CM B) st Q :
  ents st !! x = Some e -> runs (k e) st Q -> runs (ent x ≫= k) st Q.
Proof. intros He H. apply runs_bind, (runs_eq _ _ _ _ _ (ent_eq _ _ _ He)), H. Qed.
Lemma runs_set_ent x e e' st (Q : unit -> cfs_rq -> Prop) :
  ents st !! x = Some e -> Q tt (with_ents (<[x := e']> (ents st)) st) -> runs (set_ent x e') st Q.
Proof. intros He HQ. unfold runs, set_ent. now rewrite He. Qed.
Lemma runs_upd_ent x e f st (Q : unit -> cfs_rq -> Prop) :
  ents st !! x = Some e -> Q tt (with_ents (<[x := f e]> (ents st)) st) -> runs (upd_ent x f) st Q.
Proof. intros He HQ. unfold upd_ent. now apply (runs_ent _ e), (runs_set_ent _ e). Qed.

Lemma runs_assoc {A B C} (a : CM A) (b : CM B) (k : B -> CM unit) (c : CM C) s Q :
  runs (a;; x ← b; k x) s (fun _ s' => runs c s' Q) -> runs (a;; x ← b; (k x;; c)) s Q.
Proof.
  unfold runs, mbind, ST_bind. destruct (a s) as [[? s1]|]; [|done].
  destruct (b s1) as [[y s2]|]; [|done]. destruct (k y s2) as [[? s3]|]; done.
Qed.

(** * Load arithmetic *)

(** A weight whose inverse can be computed. *)
Definition lw_ok (lw : load_weight) : Prop := 0 <= weight lw < 2 ^ 32 - 1.

Lemma calc_delta_mine_ok delta w lw : lw_ok lw ->
  exists d lw', calc_delta_mine delta w lw = Ok (d, lw') /\ 0 <= d < 2 ^ 32 /\ weight lw' = weight lw.
Proof.
  intros H. unfold lw_ok, calc_delta_mine in *. destruct (inv_weight lw =? 0).
  - destruct (Z.eqb_spec (u32 (weight lw + 1)) 0) as [H0|_].
    { rewrite u32_id in H0 by (unfold is_u32; lia). lia. }
    eexists _, _. split; [reflexivity|]. split; [apply u32_range|done].
  - eexists _, _. split; [reflexivity|]. split; [apply u32_range|done].
Qed.

(** * What the arithmetic may change *)

Definition same_entity (free : Prop) (e e' : sched_entity) : Prop :=
  weight (se_load e') = weight (se_load e) /\ on_rq e' = on_rq e /\ policy e' = policy e /\
  (~ free -> vruntime e' = vruntime e /\ exec_start e' = exec_start e).

Ltac same_ent := unfold same_entity; cbn; repeat split;
  first [done | match goal with H : ~ _ |- _ => exfalso; apply H; auto; fail end | auto].

Record moved (P : Z -> Prop) (st st' : cfs_rq) : Prop := {
  mv_ents : forall x, option_Forall2 (same_entity (P x)) (ents st !! x) (ents st' !! x);
  mv_load : weight (cfs_load st') = weight (cfs_load st);
  mv_nr : nr_running st' = nr_running st;
  mv_timeline : timeline st' = timeline st;
  mv_leftmost : rb_leftmost st' = rb_leftmost st;
  mv_tasks : tasks st' = tasks st;
  mv_curr : curr st' = curr st;
  mv_next : next st' = next st;
  mv_last : last st' = last st;
  mv_clock : rq_clock st' = rq_clock st
}.

Lemma same_entity_refl P e : same_entity P e e.
Proof. done. Qed.

Lemma same_entity_trans P e1 e2 e3 : same_entity P e1 e2 -> same_entity P e2 e3 -> same_entity P e1 e3.
Proof.
  intros (A1 & A2 & A3 & A4) (B1 & B2 & B3 & B4). split; [congruence|]. split; [congruence|]. split; [congruence|].
  intros Hf. destruct (A4 Hf), (B4 Hf). split; congruence.
Qed.

Lemma option_refl P (o : option sched_entity) : option_Forall2 (same_entity P) o o.
Proof. destruct o; constructor. apply same_entity_refl. Qed.

Lemma moved_refl P st : moved P st st.
Proof. split; try done. intros x. apply option_refl. Qed.

Lemma moved_trans P st1 st2 st3 : moved P st1 st2 -> moved P st2 st3 -> moved P st1 st3.
Proof.
  intros [A1 A2 A3 A4 A5 A6 A7 A8 A9 A10] [B1 B2 B3 B4 B5 B6 B7 B8 B9 B10]. split; try congruence.
  intros x. specialize (A1 x). specialize (B1 x).
  inversion A1 as [e1 e2 He E1 E2|E1 E2]; rewrite <- E2 in B1; inversion B1; subst; constructor.
  eapply same_entity_trans; eassumption.
Qed.

Lemma moved_weaken (P P' : Z -> Prop) st st' : (forall x, P x -> P' x) -> moved P st st' -> moved P' st st'.
Proof.
  intros HP [A1 A2 A3 A4 A5 A6 A7 A8 A9 A10]. split; try done. intros x. specialize (A1 x).
  inversion A1 as [e e' (H1 & H2 & H3 & H4)|]; subst; constructor.
  split; [done|]. split; [done|]. split; [done|]. intros Hn. apply H4. auto.
Qed.

Lemma moved_ent P st x e e' : ents st !! x = Some e -> same_entity (P x) e e' ->
  moved P st (with_ents (<[x := e']> (ents st)) st).
Proof.
  intros He Hs. split; try done. intros y. cbn. destruct (decide (y = x)) as [-> |Hne].
  - rewrite He, lookup_insert_eq. now constructor.
  - rewrite lookup_insert_ne by done. apply option_refl.
Qed.

Lemma moved_load P st lw : weight lw = weight (cfs_load st) -> moved P st (with_load lw st).
Proof. intros H. split; try done. intros x. apply option_refl. Qed.

Lemma moved_lookup P st st' x e : moved P st st' -> ents st !! x = Some e ->
  exists e', ents st' !! x = Some e' /\ same_entity (P x) e e'.
Proof. intros H He. pose proof (mv_ents _ _ _ H x) as Hx. rewrite He in Hx. inversion Hx; subst. eauto. Qed.

Lemma moved_some P st st' x : moved P st st' -> is_Some (ents st' !! x) <-> is_Some (ents st !! x).
Proof.
  intros H. pose proof (mv_ents _ _ _ H x) as Hx. split; intros [e He]; rewrite He in Hx; inversion Hx; eauto.
Qed.

(** The keys of the others do not change while the floor stays. *)
Lemma moved_key P st st' x : moved P st st' -> min_vruntime_ st' = min_vruntime_ st -> ~ P x -> key st' x = key st x.
Proof.
  intros H Hm Hx. unfold key. rewrite Hm. pose proof (mv_ents _ _ _ H x) as Hs.
  inversion Hs as [e e' (_ & _ & _ & Hv)|]; [|done]. destruct (Hv Hx) as [-> _]. done.
Qed.

Lemma moved_tl_ok P st st' xs : moved P st st' -> min_vruntime_ st' = min_vruntime_ st ->
  (forall x, x ∈ xs -> ~ P x) -> tl_ok st xs -> tl_ok st' xs.
Proof.
  intros H Hm HP [Ht Hl Hin Hs Hn]. split.
  - now rewrite (mv_timeline _ _ _ H).
  - now rewrite (mv_leftmost _ _ _ H).
  - intros x Hx. apply (moved_some _ _ _ _ H). auto.
  - eapply sorted_ext, Hs. intros x y Hx Hy. unfold key_le. rewrite !(moved_key _ _ _ _ H Hm) by auto. done.
  - intros x Hx%(moved_some _ _ _ _ H). rewrite (mv_timeline _ _ _ H). auto.
Qed.

(** The floor stays as well. *)
Definition drift (P : Z -> Prop) (st st' : cfs_rq) : Prop :=
  moved P st st' /\ min_vruntime_ st' = min_vruntime_ st.
Abbreviation nobody := (fun _ : Z => False).

Lemma drift_refl P st : drift P st st.
Proof. split; [apply moved_refl|done]. Qed.
Lemma drift_trans P st1 st2 st3 : drift P st1 st2 -> drift P st2 st3 -> drift P st1 st3.
Proof. intros [A1 A2] [B1 B2]. split; [eapply moved_trans; eassumption|congruence]. Qed.
Lemma drift_nobody P st st' : drift nobody st st' -> drift P st st'.
Proof. intros [H ?]. split; [|done]. eapply moved_weaken, H. done. Qed.
Lemma drift_tl_ok P st st' xs : drift P st st' -> (forall x, x ∈ xs -> ~ P x) -> tl_ok st xs -> tl_ok st' xs.
Proof. intros [H Hm]. exact (moved_tl_ok P st st' xs H Hm). Qed.

(** * Accounting *)

Definition wgt (st : cfs_rq) (x : Z) : Z := match ents st !! x with Some e => weight (se_load e) | None => 0 end.
Definition total (st : cfs_rq) (Q : list Z) : Z := foldr (fun x n => wgt st x + n) 0 Q.

Record acct (st : cfs_rq) (Q : list Z) : Prop := {
  ac_nodup : NoDup Q;
  ac_in : forall x, x ∈ Q -> is_Some (ents st !! x);
  ac_on : forall x e, ents st !! x = Some e -> on_rq e = if decide (x ∈ Q) then 1 else 0;
  ac_weights : forall x e, ents st !! x = Some e -> 1 <= weight (se_load e) < 2 ^ 32 - 1;
  ac_nr : nr_running st = Z.of_nat (length Q);
  ac_load : weight (cfs_load st) = total st Q;
  ac_bound : total st Q < 2 ^ 32 - 1;
  ac_tasks : tasks st ≡ₚ Q;
  ac_next : next st = 0 \/ next st ∈ Q;
  ac_last : last st = 0 \/ last st ∈ Q
}.

Lemma moved_wgt P st st' x : moved P st st' -> wgt st' x = wgt st x.
Proof.
  intros H. unfold wgt. pose proof (mv_ents _ _ _ H x) as Hx. now inversion Hx as [e e' (Hw & _)|].
Qed.

Lemma moved_total P st st' Q : moved P st st' -> total st' Q = total st Q.
Proof. intros H. induction Q as [|x Q IH]; [done|]. change (wgt st' x + total st' Q = wgt st x + total st Q). now rewrite (moved_wgt _ _ _ _ H), IH. Qed.

Lemma moved_acct P st st' Q : moved P st st' -> acct st Q -> acct st' Q.
Proof.
  intros H [A1 A2 A3 A4 A5 A6 A7 A8 A9 A10]. split.
  - done.
  - intros x Hx. apply (moved_some _ _ _ _ H). auto.
  - intros x e' He'. pose proof (mv_ents _ _ _ H x) as Hx. rewrite He' in Hx.
    inversion Hx as [e ? (_ & Ho & _) E1 E2|]; subst. rewrite Ho. auto.
  - intros x e' He'. pose proof (mv_ents _ _ _ H x) as Hx. rewrite He' in Hx.
    inversion Hx as [e ? (Hw & _) E1 E2|]; subst. rewrite Hw. eauto.
  - now rewrite (mv_nr _ _ _ H).
  - now rewrite (mv_load _ _ _ H), (moved_total _ _ _ _ H).
  - now rewrite (moved_total _ _ _ _ H).
  - now rewrite (mv_tasks _ _ _ H).
  - now rewrite (mv_next _ _ _ H).
  - now rewrite (mv_last _ _ _ H).
Qed.

Lemma total_perm st Q Q' : Q ≡ₚ Q' -> total st Q = total st Q'.
Proof. induction 1; cbn [total foldr] in *; unfold total in *; cbn; lia. Qed.

Lemma acct_perm st Q Q' : Q ≡ₚ Q' -> acct st Q -> acct st Q'.
Proof.
  intros HQ [A1 A2 A3 A4 A5 A6 A7 A8 A9 A10]. split; try done.
  - now rewrite <- HQ.
  - intros x. rewrite <- HQ. auto.
  - intros x e He. rewrite (A3 x e He). apply decide_ext. now rewrite HQ.
  - now rewrite A5, HQ.
  - now rewrite A6, (total_perm _ _ _ HQ).
  - now rewrite <- (total_perm _ _ _ HQ).
  - now rewrite A8.
  - now rewrite <- HQ.
  - now rewrite <- HQ.
Qed.

Lemma total_nonneg st Q : acct st Q -> 0 <= total st Q /\ Z.of_nat (length Q) <= total st Q.
Proof.
  intros H. assert (forall R, (forall x, x ∈ R -> x ∈ Q) -> 0 <= total st R /\ Z.of_nat (length R) <= total st R) as Hg.
  { induction R as [|x R IH]; intros HR; [done|]. cbn [total foldr length]. fold (total st R).
    destruct IH as [? ?]; [intros y Hy; apply HR; now right|].
    destruct (ac_in _ _ H x (HR x ltac:(left))) as [e He]. unfold wgt. rewrite He.
    pose proof (ac_weights _ _ H x e He). lia. }
  now apply Hg.
Qed.

Lemma acct_lw st Q : acct st Q -> lw_ok (cfs_load st).
Proof. intros H. unfold lw_ok. rewrite (ac_load _ _ H). pose proof (total_nonneg _ _ H). pose proof (ac_bound _ _ H). lia. Qed.
Lemma acct_lw_ent st Q x e : acct st Q -> ents st !! x = Some e -> lw_ok (se_load e).
Proof. intros H He. unfold lw_ok. pose proof (ac_weights _ _ H x e He). lia. Qed.

(** * The arithmetic on entities *)

Lemma calc_delta_fair_ok st Q x d : acct st Q -> is_Some (ents st !! x) ->
  runs (calc_delta_fair d x) st (fun r st' => drift nobody st st' /\ (0 <= d < 2 ^ 32 -> 0 <= r < 2 ^ 32)).
Proof.
  intros H [e He]. unfold calc_delta_fair. apply (runs_ent _ e); [done|].
  destruct (negb (weight (se_load e) =? NICE_0_LOAD)); [|apply runs_ret; split; [apply drift_refl|done]].
  unfold calc_delta_entity. apply (runs_ent _ e); [done|].
  destruct (calc_delta_mine_ok d NICE_0_LOAD (se_load e) (acct_lw_ent _ _ _ _ H He)) as (r & lw & Hc & Hr & Hw).
  apply runs_bind. eapply runs_eq; [unfold lift; rewrite Hc; reflexivity|].
  apply runs_bind, (runs_set_ent _ e); [done|]. apply runs_ret. split; [|done].
  split; [|done]. apply (moved_ent _ _ _ e); [done|]. now split.
Qed.

Lemma sched_slice_ok cfg st Q x : acct st Q -> is_Some (ents st !! x) -> total st Q + wgt st x < 2 ^ 32 - 1 \/ x ∈ Q ->
  runs (sched_slice cfg x) st (fun r st' => drift nobody st st' /\ 0 <= r < 2 ^ 32).
Proof.
  intros H [e He] Hx. unfold sched_slice. apply (runs_ent _ e); [done|]. do 2 apply runs_gets.
  destruct (Z.eqb_spec (on_rq e) 0) as [Ho|Ho].
  - assert (lw_ok (update_load_add (cfs_load st) (weight (se_load e)))) as Hl.
    { rewrite (ac_on _ _ H _ _ He) in Ho. destruct (decide (x ∈ Q)); [done|]. destruct Hx as [Hx|]; [|done].
      unfold wgt in Hx. rewrite He in Hx. unfold lw_ok, update_load_add. cbn. rewrite (ac_load _ _ H).
      pose proof (total_nonneg _ _ H). pose proof (ac_weights _ _ H _ _ He). rewrite u32_id; unfold is_u32; lia. }
    match goal with |- context [calc_delta_mine ?d ?w _] => destruct (calc_delta_mine_ok d w _ Hl) as (r & lw & Hc & Hr & Hw) end.
    apply runs_bind. eapply runs_eq; [unfold lift; rewrite Hc; reflexivity|].
    apply runs_ret. split; [apply drift_refl|done].
  - match goal with |- context [calc_delta_mine ?d ?w _] => destruct (calc_delta_mine_ok d w _ (acct_lw _ _ H)) as (r & lw & Hc & Hr & Hw) end.
    apply runs_bind. eapply runs_eq; [unfold lift; rewrite Hc; reflexivity|].
    apply runs_bind, runs_modify, runs_ret. split; [|done]. split; [|done]. now apply moved_load.
Qed.

Lemma place_entity_ok cfg st Q x b : acct st Q -> is_Some (ents st !! x) -> total st Q + wgt st x < 2 ^ 32 - 1 \/ x ∈ Q ->
  runs (place_entity cfg x b) st (fun _ st' => drift (eq x) st st').
Proof.
  intros H Hx Hb. unfold place_entity. apply runs_gets. set (v0 := min_vruntime_ st).
  apply runs_bind. eapply runs_mono with (P := fun _ st' => drift nobody st st').
  { destruct (b && START_DEBIT cfg); [|apply runs_ret, drift_refl]. unfold sched_vslice.
    apply runs_bind, runs_bind. eapply runs_mono; [now apply (sched_slice_ok cfg st Q)|].
    intros d st1 [H1 _]. cbv beta. destruct (H1) as [Hm _].
    eapply runs_mono; [apply (calc_delta_fair_ok st1 Q); [now apply (moved_acct _ _ _ _ Hm)|now apply (moved_some _ _ _ _ Hm)]|].
    intros d' st2 [H2 _]. apply runs_ret. eapply drift_trans; eassumption. }
  intros v st1 H1. cbv beta. destruct (H1) as [Hm1 _].
  apply runs_bind. eapply runs_mono with (P := fun _ st' => drift nobody st1 st').
  { destruct (negb b && FAIR_SLEEPERS cfg); [|apply runs_ret, drift_refl].
    destruct (proj2 (moved_some _ _ _ x Hm1) Hx) as [e He]. apply (runs_ent _ e); [done|].
    destruct (NORMALIZED_SLEEPER cfg && _); [|apply runs_bind, runs_ret, runs_ret, drift_refl].
    apply runs_bind. eapply runs_mono; [apply (calc_delta_fair_ok st1 Q); [now apply (moved_acct _ _ _ _ Hm1)|now rewrite He]|].
    intros d st2 [H2 _]. now apply runs_ret. }
  intros v' st2 H2. cbv beta. destruct (H2) as [Hm2 _].
  destruct (proj2 (moved_some _ _ _ x Hm2) (proj2 (moved_some _ _ _ x Hm1) Hx)) as [e He].
  apply (runs_upd_ent _ e); [done|].
  eapply drift_trans; [apply drift_nobody, H1|]. eapply drift_trans; [apply drift_nobody, H2|].
  split; [|done]. apply (moved_ent _ _ _ e); [done|same_ent].
Qed.

(** * Bookkeeping steps: neither the tree nor a virtual runtime changes *)

Record held (st st' : cfs_rq) : Prop := {
  hd_ents : forall x, option_Forall2 (fun e e' => vruntime e' = vruntime e) (ents st !! x) (ents st' !! x);
  hd_timeline : timeline st' = timeline st;
  hd_leftmost : rb_leftmost st' = rb_leftmost st;
  hd_min : min_vruntime_ st' = min_vruntime_ st;
  hd_curr : curr st' = curr st
}.

Lemma held_some st st' x : held st st' -> is_Some (ents st' !! x) <-> is_Some (ents st !! x).
Proof. intros H. pose proof (hd_ents _ _ H x) as Hx. split; intros [e He]; rewrite He in Hx; inversion Hx; eauto. Qed.

Lemma held_key st st' x : held st st' -> key st' x = key st x.
Proof.
  intros H. unfold key. rewrite (hd_min _ _ H). pose proof (hd_ents _ _ H x) as Hx. inversion Hx as [e e' Hv|]; [|done].
  now rewrite Hv.
Qed.

Lemma held_tl_ok st st' xs : held st st' -> tl_ok st xs -> tl_ok st' xs.
Proof.
  intros H [Ht Hl Hin Hs Hn]. split.
  - now rewrite (hd_timeline _ _ H).
  - now rewrite (hd_leftmost _ _ H).
  - intros x Hx. apply (held_some _ _ _ H). auto.
  - eapply sorted_ext, Hs. intros x y _ _. unfold key_le. now rewrite !(held_key _ _ _ H).
  - intros x Hx%(held_some _ _ _ H). rewrite (hd_timeline _ _ H). auto.
Qed.

Lemma option_refl_v (o : option sched_entity) : option_Forall2 (fun e e' => vruntime e' = vruntime e) o o.
Proof. destruct o; now constructor. Qed.

Lemma held_refl st : held st st.
Proof. split; try done. intros x. apply option_refl_v. Qed.

Lemma held_trans st1 st2 st3 : held st1 st2 -> held st2 st3 -> held st1 st3.
Proof.
  intros [A1 A2 A3 A4 A5] [B1 B2 B3 B4 B5]. split; try congruence.
  intros x. specialize (A1 x). specialize (B1 x).
  inversion A1 as [e1 e2 He E1 E2|E1 E2]; rewrite <- E2 in B1; inversion B1; subst; constructor. congruence.
Qed.

(** [set] of the fields that [held] ignores, and of [on_rq] of one entity. *)
Lemma held_on_rq st st' x e v : ents st !! x = Some e ->
  ents st' = <[x := e_on_rq v e]> (ents st) -> timeline st' = timeline st -> rb_leftmost st' = rb_leftmost st ->
  min_vruntime_ st' = min_vruntime_ st -> curr st' = curr st -> held st st'.
Proof.
  intros He Hents ? ? ? ?. split; try done. intros y. rewrite Hents. destruct (decide (y = x)) as [-> |Hne].
  - rewrite lookup_insert_eq, He. now constructor.
  - rewrite lookup_insert_ne by done. apply option_refl_v.
Qed.

Lemma wgt_on_rq st st' x e v y : ents st !! x = Some e -> ents st' = <[x := e_on_rq v e]> (ents st) -> wgt st' y = wgt st y.
Proof.
  intros He Hents. unfold wgt. rewrite Hents. destruct (decide (y = x)) as [-> |Hne].
  - now rewrite lookup_insert_eq, He.
  - now rewrite lookup_insert_ne.
Qed.

Lemma total_on_rq st st' x e v Q : ents st !! x = Some e -> ents st' = <[x := e_on_rq v e]> (ents st) -> total st' Q = total st Q.
Proof.
  intros He Hents. induction Q as [|y Q IH]; [done|]. change (wgt st' y + total st' Q = wgt st y + total st Q).
  now rewrite (wgt_on_rq _ _ _ _ _ y He Hents), IH.
Qed.

Lemma account_enqueue_ok st Q se : acct st Q -> se ∉ Q -> is_Some (ents st !! se) -> total st Q + wgt st se < 2 ^ 32 - 1 ->
  runs (account_entity_enqueue se) st (fun _ st' => acct st' (se :: Q) /\ held st st').
Proof.
  intros H Hse [e He] Hb. unfold account_entity_enqueue. apply (runs_ent _ e); [done|].
  apply runs_gets, runs_bind, runs_modify, runs_gets, runs_bind, runs_modify, runs_gets, runs_bind, runs_modify,
    runs_gets, runs_bind, runs_modify, (runs_upd_ent _ e); [done|].
  assert (wgt st se = weight (se_load e)) as Hw by (unfold wgt; now rewrite He).
  pose proof (total_nonneg _ _ H) as [Ht0 Htl]. pose proof (ac_weights _ _ H _ _ He) as We.
  destruct H as [A1 A2 A3 A4 A5 A6 A7 A8 A9 A10].
  split; [|now eapply (held_on_rq _ _ se e 1)].
  match goal with |- acct ?s _ => set (st' := s) end.
  assert (total st' (se :: Q) = weight (se_load e) + total st Q) as Ht.
  { rewrite (total_on_rq st st' se e 1 _ He eq_refl). change (wgt st se + total st Q = weight (se_load e) + total st Q). lia. }
  split; rewrite ?Ht.
  - now apply list.NoDup_cons.
  - intros x Hx. apply (held_some st st'); [now eapply (held_on_rq _ _ se e 1)|].
    apply elem_of_cons in Hx as [-> |Hx]; eauto.
  - intros x e'. unfold st'. cbn. destruct (decide (x = se)) as [-> |Hne].
    + rewrite lookup_insert_eq. intros [= <-]. rewrite decide_True by left. done.
    + rewrite lookup_insert_ne by done. intros Hx. rewrite (A3 _ _ Hx). apply decide_ext. rewrite elem_of_cons. tauto.
  - intros x e'. unfold st'. cbn. destruct (decide (x = se)) as [-> |Hne].
    + rewrite lookup_insert_eq. intros [= <-]. apply We.
    + rewrite lookup_insert_ne by done. apply A4.
  - cbn. rewrite A5, u32_id by (unfold is_u32; lia). lia.
  - cbn. rewrite A6, u32_id by (unfold is_u32; lia). lia.
  - lia.
  - cbn. now rewrite A8.
  - cbn. rewrite elem_of_cons. tauto.
  - cbn. rewrite elem_of_cons. tauto.
Qed.

Lemma list_del_perm x l Q : l ≡ₚ x :: Q -> x ∉ Q -> list_del x l ≡ₚ Q.
Proof.
  intros Hl Hx. unfold list_del. rewrite Hl, filter_cons_False by auto. clear Hl l.
  induction Q as [|y Q IH]; [done|]. rewrite filter_cons_True by (intros ->; apply Hx; left).
  rewrite IH; [done|]. intros H. apply Hx. now right.
Qed.

Lemma account_dequeue_ok st Q se : acct st (se :: Q) -> next st <> se -> last st <> se ->
  runs (account_entity_dequeue se) st (fun _ st' => acct st' Q /\ held st st').
Proof.
  intros H Hnx Hlt. destruct (ac_in _ _ H se ltac:(left)) as [e He].
  unfold account_entity_dequeue. apply (runs_ent _ e); [done|].
  apply runs_gets, runs_bind, runs_modify, runs_gets, runs_bind, runs_modify, runs_gets, runs_bind, runs_modify,
    runs_gets, runs_bind, runs_modify, (runs_upd_ent _ e); [done|].
  assert (total st (se :: Q) = weight (se_load e) + total st Q) as Hw.
  { change (wgt st se + total st Q = weight (se_load e) + total st Q). unfold wgt. now rewrite He. }
  pose proof (total_nonneg _ _ H) as [Ht0 Htl]. pose proof (ac_weights _ _ H _ _ He) as We.
  destruct H as [A1 A2 A3 A4 A5 A6 A7 A8 A9 A10]. apply list.NoDup_cons in A1 as [Hse A1].
  split; [|now eapply (held_on_rq _ _ se e 0)].
  match goal with |- acct ?s _ => set (st' := s) end.
  assert (total st' Q = total st Q) as Ht by apply (total_on_rq st st' se e 0 _ He eq_refl).
  assert (0 <= total st Q) as Ht1.
  { assert (forall R, 0 <= total st R) as Hp; [|apply Hp]. induction R as [|y R IH]; [done|].
    change (0 <= wgt st y + total st R). unfold wgt. destruct (ents st !! y) as [ey|] eqn:Ey; [|lia]. specialize (A4 _ _ Ey). lia. }
  split; rewrite ?Ht.
  - done.
  - intros x Hx. apply (held_some st st'); [now eapply (held_on_rq _ _ se e 0)|]. apply A2. now right.
  - intros x e'. unfold st'. cbn. destruct (decide (x = se)) as [-> |Hne].
    + rewrite lookup_insert_eq. intros [= <-]. rewrite decide_False by done. done.
    + rewrite lookup_insert_ne by done. intros Hx. rewrite (A3 _ _ Hx). apply decide_ext. rewrite elem_of_cons. tauto.
  - intros x e'. unfold st'. cbn. destruct (decide (x = se)) as [-> |Hne].
    + rewrite lookup_insert_eq. intros [= <-]. apply We.
    + rewrite lookup_insert_ne by done. apply A4.
  - cbn. rewrite A5. cbn [length] in *. rewrite u32_id by (unfold is_u32; lia). lia.
  - cbn. rewrite A6, Hw, u32_id by (unfold is_u32; lia). lia.
  - lia.
  - cbn. now apply list_del_perm.
  - cbn. rewrite elem_of_cons in A9. tauto.
  - cbn. rewrite elem_of_cons in A10. tauto.
Qed.

(** * Charging the current entity *)

Definition curr_ok (st : cfs_rq) (xs : list Z) : Prop :=
  curr st = 0 \/ is_Some (ents st !! curr st) /\ curr st ∉ xs.

Lemma curr_ok_some st xs : curr_ok st xs -> curr st = 0 \/ is_Some (ents st !! curr st).
Proof. intros [|[]]; auto. Qed.

Lemma moved_min P st m : moved P st (with_min m st).
Proof. split; try done. intros x. apply option_refl. Qed.

(** Running time moves the key of an entity forward by less than 2^32. *)
Lemma key_advance st x e w : ents st !! x = Some e -> 0 <= w < 2 ^ 32 -> near (2 ^ 61) st x ->
  near (2 ^ 62) (with_ents (<[x := e_vruntime (u64 (vruntime e + w)) e]> (ents st)) st) x.
Proof.
  intros He Hw. unfold near. rewrite (key_some _ _ _ He). intros Hn.
  unfold key. cbn. rewrite lookup_insert_eq. cbn.
  destruct (s64_spec (vruntime e - min_vruntime_ st)) as (k1 & H1 & H2).
  pose proof (Z.div_mod (vruntime e + w) (2 ^ 64)) as Hd.
  assert (s64 (u64 (vruntime e + w) - min_vruntime_ st) = s64 (vruntime e - min_vruntime_ st) + w) as ->; [|lia].
  apply s64_unique with (- k1 - (vruntime e + w) / 2 ^ 64); unfold u64; lia.
Qed.

Lemma charge_curr st Q d : acct st Q -> is_Some (ents st !! curr st) -> 0 <= d < 2 ^ 32 -> near (2 ^ 61) st (curr st) ->
  runs (upd_ent (curr st) (fun e => e_sum (u64 (sum_exec_runtime e + d)) e);;
        w ← calc_delta_fair d (curr st);
        upd_ent (curr st) (fun e => e_vruntime (u64 (vruntime e + w)) e)) st
    (fun _ st' => drift (eq (curr st)) st st' /\ near (2 ^ 62) st' (curr st)).
Proof.
  intros H [e He] Hd Hn. apply runs_bind, (runs_upd_ent _ e); [done|].
  match goal with |- runs _ ?s _ => set (st1 := s) end.
  assert (drift nobody st st1) as D1 by (split; [|done]; now apply (moved_ent _ _ _ e); [|same_ent]).
  apply runs_bind. eapply runs_mono.
  { apply (calc_delta_fair_ok st1 Q); [exact (moved_acct _ _ _ _ (proj1 D1) H)|]. apply (moved_some _ _ _ _ (proj1 D1)). eauto. }
  intros w st2 [D2 Hw]. cbv beta. specialize (Hw Hd).
  assert (drift nobody st st2) as D by (eapply drift_trans; eassumption).
  destruct (moved_lookup _ _ _ _ _ (proj1 D) He) as (e2 & He2 & _).
  apply (runs_upd_ent _ e2); [done|]. split.
  - eapply drift_trans; [apply drift_nobody, D|]. split; [|done]. apply (moved_ent _ _ _ e2); [done|].
    same_ent.
  - apply key_advance; [done|done|]. unfold near. now rewrite (moved_key _ _ _ _ (proj1 D) (proj2 D)) by auto.
Qed.

(** No time has passed since the current entity was last charged. *)
Definition idle (st : cfs_rq) : Prop :=
  curr st = 0 \/ exists e, ents st !! curr st = Some e /\ u32 (rq_clock st - exec_start e) = 0.

Lemma update_curr_ok st xs Q : tl_ok st xs -> acct st Q -> curr_ok st xs ->
  (forall y, ahead st xs y -> near (2 ^ 61) st y) ->
  runs update_curr st (fun _ st' => tl_ok st' xs /\ moved (eq (curr st)) st st' /\
    (forall y, ahead st' xs y -> near (2 ^ 62) st' y) /\ idle st').
Proof.
  intros Ht H Hc Hn. unfold update_curr. do 2 apply runs_gets.
  assert (forall n, n <= 2 ^ 62 -> (forall y, ahead st xs y -> near n st y) -> forall y, ahead st xs y -> near (2 ^ 62) st y) as Hw.
  { intros n Hle Hy y Hay. specialize (Hy y Hay). unfold near in *. lia. }
  destruct (Z.eqb_spec (curr st) 0) as [Hc0|Hc0].
  { apply runs_ret. split; [done|]. split; [apply moved_refl|]. split; [now apply (Hw (2 ^ 61))|]. now left. }
  destruct Hc as [|[[e He] Hnx]]; [done|]. apply (runs_ent _ e); [done|].
  destruct (Z.eqb_spec (u32 (rq_clock st - exec_start e)) 0).
  { apply runs_ret. split; [done|]. split; [apply moved_refl|]. split; [now apply (Hw (2 ^ 61))|]. right. eauto. }
  apply runs_bind. unfold __update_curr.
  apply runs_assoc. eapply runs_mono; [apply (charge_curr st Q); [done|eauto|apply u32_range|]|].
  { apply Hn. now right. }
  intros _ st1 [D1 N1]. cbv beta.
  assert (tl_ok st1 xs) as Ht1 by (eapply drift_tl_ok; [exact D1| |exact Ht]; intros x Hx <-; done).
  pose proof (mv_curr _ _ _ (proj1 D1)) as Ec.
  assert (curr st1 = 0 \/ is_Some (ents st1 !! curr st1)) as Hc1.
  { right. rewrite Ec. apply (moved_some _ _ _ _ (proj1 D1)). eauto. }
  assert (forall y, ahead st1 xs y -> near (2 ^ 62) st1 y) as Hn1.
  { intros y [Hy|[-> Hy]]; [|now rewrite Ec]. unfold near.
    rewrite (moved_key _ _ _ y (proj1 D1) (proj2 D1)) by (intros <-; done). apply (Hw (2 ^ 61)); [lia|done|now left]. }
  eapply runs_eq; [now apply (update_min_eq st1 xs)|]. cbv beta. set (st2 := with_min _ _).
  assert (moved (eq (curr st)) st st2) as M2 by (eapply moved_trans; [apply D1|apply moved_min]).
  assert (tl_ok st2 xs) as Ht2 by now apply tl_ok_min.
  destruct (moved_lookup _ _ _ _ _ M2 He) as (e2 & He2 & _).
  apply (runs_upd_ent _ e2); [done|].
  assert (held st2 (with_ents (<[curr st:=e_exec_start (rq_clock st) e2]> (ents st2)) st2)) as Hh.
  { split; try done. intros x. cbn. destruct (decide (x = curr st)) as [-> |Hx].
    - rewrite lookup_insert_eq. cbn in He2. rewrite He2. now constructor.
    - rewrite lookup_insert_ne by done. apply option_refl_v. }
  split; [now apply (held_tl_ok _ _ _ Hh)|]. split.
  - eapply moved_trans; [exact M2|]. apply (moved_ent _ _ _ e2); [done|same_ent].
  - split; [intros y Hy; unfold near; rewrite (held_key _ _ _ Hh); apply (near_min st1 xs); auto|].
    right. cbn. rewrite Ec, lookup_insert_eq. eexists. split; [done|]. cbn.
    rewrite (mv_clock _ _ _ (proj1 D1)), Z.sub_diag. done.
Qed.

(** * The consistent queue *)

(** The current entity, when it is still runnable. *)
Definition running (st : cfs_rq) : list Z :=
  match ents st !! curr st with Some e => if on_rq e =? 0 then [] else [curr st] | None => [] end.

Record cfs_ok (st : cfs_rq) (xs : list Z) : Prop := {
  ok_tl : tl_ok st xs;
  ok_acct : acct st (running st ++ xs);
  ok_curr : curr_ok st xs
}.

(** The hypothesis on the spread of the virtual runtimes: 2^61 ns (73 years). *)
Definition spread (st : cfs_rq) (xs : list Z) : Prop := forall y, ahead st xs y -> near (2 ^ 61) st y.

Lemma tl_ok_null st xs : tl_ok st xs -> ents st !! 0 = None.
Proof.
  intros H. destruct (ents st !! 0) as [e|] eqn:He; [|done].
  destruct (tl_nodes _ _ H 0 ltac:(eauto)) as [[? _] _]. lia.
Qed.

Lemma tl_ok_pos st xs x : tl_ok st xs -> is_Some (ents st !! x) -> x <> 0.
Proof. intros H [e He] ->. now rewrite (tl_ok_null _ _ H) in He. Qed.

Lemma moved_running P st st' : moved P st st' -> running st' = running st.
Proof.
  intros H. unfold running. rewrite (mv_curr _ _ _ H). pose proof (mv_ents _ _ _ H (curr st)) as Hx.
  inversion Hx as [e e' (_ & Ho & _)|]; [|done]. now rewrite Ho.
Qed.

Lemma moved_curr_ok P st st' xs : moved P st st' -> curr_ok st xs -> curr_ok st' xs.
Proof.
  intros H. unfold curr_ok. rewrite (mv_curr _ _ _ H), (moved_some _ _ _ _ H). done.
Qed.

(** What an operation on the tree alone keeps. *)
Lemma same_queue_acct st st' Q : same_queue st st' -> acct st Q -> acct st' Q.
Proof. intros ->. intros [A1 A2 A3 A4 A5 A6 A7 A8 A9 A10]. split; done. Qed.
Lemma same_queue_running st st' : same_queue st st' -> running st' = running st.
Proof. now intros ->. Qed.
Lemma same_queue_curr st st' : same_queue st st' -> curr st' = curr st /\ ents st' = ents st /\ next st' = next st /\ last st' = last st.
Proof. now intros ->. Qed.

(** A runnable entity is the current one or waits in the tree. *)
Lemma running_curr st x : x ∈ running st -> x = curr st.
Proof.
  unfold running. destruct (ents st !! curr st); [|now intros ?%elem_of_nil].
  destruct (on_rq s =? 0); [now intros ?%elem_of_nil|now intros ?%list_elem_of_singleton].
Qed.

Lemma cfs_not_queued st xs se e : cfs_ok st xs -> ents st !! se = Some e -> on_rq e = 0 -> se ∉ running st ++ xs.
Proof. intros [_ Ha _] He Ho Hin. rewrite (ac_on _ _ Ha _ _ He), decide_True in Ho by done. done. Qed.

Lemma acct_running st xs Q : tl_ok st xs -> acct st Q -> running st = if decide (curr st ∈ Q) then [curr st] else [].
Proof.
  intros Ht Ha. unfold running. destruct (ents st !! curr st) as [e|] eqn:He.
  - rewrite (ac_on _ _ Ha _ _ He). now destruct (decide (curr st ∈ Q)).
  - destruct (decide (curr st ∈ Q)) as [Hin|]; [|done]. destruct (ac_in _ _ Ha _ Hin). congruence.
Qed.

Lemma cfs_ok_intro st xs Q : tl_ok st xs -> acct st Q -> curr_ok st xs -> running st ++ xs ≡ₚ Q -> cfs_ok st xs.
Proof. intros Ht Ha Hc Hp. split; [done| |done]. now apply (acct_perm _ Q). Qed.

(** ** Enqueue *)

(** [update_curr] leaves the tree alone; it is also a no-op when no time passed. *)
Definition charges (st : cfs_rq) (xs : list Z) : Prop :=
  runs update_curr st (fun _ st' => tl_ok st' xs /\ moved (eq (curr st)) st st').

Lemma spread_charges st xs : cfs_ok st xs -> spread st xs -> charges st xs.
Proof.
  intros [Ht Ha Hc] Hs. eapply runs_mono; [now apply (update_curr_ok st xs (running st ++ xs))|].
  intros u st' (? & ? & _). done.
Qed.

Lemma enqueue_entity_ok cfg st xs se e wakeup :
  cfs_ok st xs -> charges st xs -> ents st !! se = Some e -> on_rq e = 0 ->
  total st (running st ++ xs) + wgt st se < 2 ^ 32 - 1 ->
  runs (enqueue_entity cfg se wakeup) st (fun _ st' => exists ys zs, xs = ys ++ zs /\ curr st' = curr st /\
    cfs_ok st' (if se =? curr st then xs else ys ++ se :: zs) /\
    running st' ++ (if se =? curr st then xs else ys ++ se :: zs) ≡ₚ se :: running st ++ xs).
Proof.
  intros Hok Hsp He Ho Hcap. pose proof (cfs_not_queued _ _ _ _ Hok He Ho) as Hq.
  destruct Hok as [Ht Ha Hc]. set (Q := running st ++ xs) in *. unfold enqueue_entity.
  apply runs_bind. eapply runs_mono; [exact Hsp|].
  intros _ st1 (Ht1 & M1). cbv beta. pose proof (moved_acct _ _ _ _ M1 Ha) as Ha1.
  apply runs_bind. eapply runs_mono.
  { apply (account_enqueue_ok st1 Q se); [done|done|apply (moved_some _ _ _ _ M1); eauto|].
    now rewrite (moved_total _ _ _ _ M1), (moved_wgt _ _ _ _ M1). }
  intros _ st2 [Ha2 H2]. cbv beta. pose proof (held_tl_ok _ _ _ H2 Ht1) as Ht2.
  pose proof (ac_in _ _ Ha2 se ltac:(left)) as He2.
  apply runs_bind. eapply runs_mono with (P := fun _ st' => drift (eq se) st2 st').
  { destruct wakeup; [|apply runs_ret, drift_refl]. apply (place_entity_ok cfg st2 (se :: Q)); [done|done|]. right. left. }
  intros _ st3 D3. cbv beta. apply runs_gets.
  assert (se ∉ xs) as Hxs by (intros Hx; apply Hq; unfold Q; rewrite elem_of_app; auto).
  assert (tl_ok st3 xs) as Ht3 by (eapply drift_tl_ok; [exact D3| |done]; intros x Hx <-; done).
  pose proof (moved_acct _ _ _ _ (proj1 D3) Ha2) as Ha3.
  assert (curr st3 = curr st) as Ec3 by (rewrite (mv_curr _ _ _ (proj1 D3)), (hd_curr _ _ H2), (mv_curr _ _ _ M1); done).
  rewrite Ec3. pose proof (acct_running _ _ _ Ht Ha) as R0. pose proof (acct_running _ _ _ Ht3 Ha3) as R3.
  rewrite Ec3 in R3. destruct (Z.eqb_spec se (curr st)) as [Heq|Hne]; cbn [negb].
  - apply runs_ret. exists xs, []. rewrite app_nil_r. split; [done|]. split; [done|].
    rewrite decide_False in R0 by now rewrite <- Heq. rewrite decide_True in R3 by (rewrite <- Heq; left).
    assert (running st3 ++ xs ≡ₚ se :: Q) as Hp by (unfold Q; rewrite R0, R3, <- Heq; done).
    split; [|done]. apply (cfs_ok_intro _ _ (se :: Q)); [done|done| |done].
    right. rewrite Ec3, <- Heq. split; [|done]. apply (ac_in _ _ Ha3). left.
  - eapply runs_mono; [apply (enqueue_spec st3 xs se); [done|done|]; apply (ac_in _ _ Ha3); left|].
    intros _ st4 (ys & zs & -> & Ht4 & _ & _ & S4). exists ys, zs.
    destruct (same_queue_curr _ _ S4) as (Ec4 & Ee4 & _). split; [done|]. split; [congruence|].
    assert (running st4 ++ ys ++ se :: zs ≡ₚ se :: Q) as Hp.
    { rewrite (same_queue_running _ _ S4), R3. replace (if decide (curr st ∈ se :: Q) then _ else _) with (running st).
      - unfold Q. rewrite <- Permutation_middle, <- Permutation_middle. done.
      - rewrite R0. apply decide_ext. rewrite elem_of_cons. split; [auto|]. intros [?|?]; [congruence|done]. }
    split; [|done]. apply (cfs_ok_intro _ _ (se :: Q)); [done|now apply (same_queue_acct st3)| |done].
    destruct Hc as [Hc|[Hc1 Hc2]]; [left; congruence|right]. rewrite Ec4, Ec3, Ee4. split.
    + apply (moved_some _ _ _ _ (proj1 D3)), (held_some _ _ _ H2), (moved_some _ _ _ _ M1). done.
    + rewrite !elem_of_app, elem_of_cons in *. intros [?|[?|?]]; [tauto|congruence|tauto].
Qed.

(** ** Dequeue *)

Lemma clear_buddies_ok st Q se : acct st Q -> se <> 0 ->
  runs (clear_buddies se) st (fun _ st' => acct st' Q /\ held st st' /\ next st' <> se /\ last st' <> se /\
    (next st' = 0 \/ next st' = next st) /\ (last st' = 0 \/ last st' = last st)).
Proof.
  intros Ha H0. unfold clear_buddies, __clear_buddies. destruct (Z.eqb_spec se 0); [done|]. cbn [negb orb].
  apply runs_gets, runs_bind.
  assert (acct (with_last 0 st) Q) as Al by (destruct Ha; split; try done; now left).
  destruct (Z.eqb_spec (last st) se) as [Hl|Hl].
  - apply runs_modify, runs_gets. cbn [next with_last]. destruct (Z.eqb_spec (next st) se) as [Hn|Hn].
    + apply runs_modify. split; [destruct Al; split; try done; now left|]. split; [split; try done; intros x; apply option_refl_v|].
      cbn. auto.
    + apply runs_ret. split; [done|]. split; [split; try done; intros x; apply option_refl_v|]. cbn. auto.
  - apply runs_ret, runs_gets. destruct (Z.eqb_spec (next st) se) as [Hn|Hn].
    + apply runs_modify. split; [destruct Ha; split; try done; now left|]. split; [split; try done; intros x; apply option_refl_v|].
      cbn. auto.
    + apply runs_ret. split; [done|]. split; [apply held_refl|]. auto.
Qed.

(** Taking the entity out of the tree, unless it is the current one. *)
Lemma leave_tree_ok st xs Q se : tl_ok st xs -> acct st Q -> curr_ok st xs -> Q ≡ₚ running st ++ xs -> se ∈ Q ->
  runs (c ← gets curr; if negb (se =? c) then __dequeue_entity se else mret tt) st (fun _ st' => exists xs',
    tl_ok st' xs' /\ same_queue st st' /\ (se ∉ xs') /\ (forall x, x ∈ xs' -> x ∈ xs) /\
    Q ≡ₚ se :: (if se =? curr st then [] else running st) ++ xs').
Proof.
  intros Ht Ha Hc HQ Hse. apply runs_gets. destruct (Z.eqb_spec se (curr st)) as [Heq|Hne]; cbn [negb].
  - apply runs_ret. exists xs. split; [done|]. split; [now destruct st|].
    destruct Hc as [Hc|[_ Hc]].
    { exfalso. destruct (ac_in _ _ Ha se Hse) as [e He]. rewrite Heq, Hc, (tl_ok_null _ _ Ht) in He. done. }
    rewrite Heq. split; [done|]. split; [done|]. rewrite HQ, (acct_running _ _ _ Ht Ha), decide_True by (now rewrite <- Heq). done.
  - assert (se ∈ xs) as Hx.
    { rewrite HQ in Hse. apply elem_of_app in Hse as [H|H]; [|done]. now apply running_curr in H. }
    apply list_elem_of_split in Hx as (ys & zs & ->).
    assert (se ∉ ys ++ zs) as Hnd.
    { pose proof (ac_nodup _ _ Ha) as Hd. rewrite HQ in Hd. apply list.NoDup_app in Hd as (_ & _ & Hd).
      rewrite <- Permutation_middle in Hd. now apply list.NoDup_cons in Hd as [Hd _]. }
    eapply runs_mono; [apply (dequeue_spec st ys se zs Ht)|]. intros _ st' [Ht' Hs]. exists (ys ++ zs).
    split; [done|]. split; [done|]. split; [done|]. split.
    + intros x. rewrite !elem_of_app, elem_of_cons. tauto.
    + rewrite HQ, <- Permutation_middle. rewrite <- Permutation_middle. done.
Qed.

Lemma dequeue_entity_ok st xs se sleep :
  cfs_ok st xs -> spread st xs -> se ∈ running st ++ xs ->
  runs (dequeue_entity se sleep) st (fun _ st' => exists xs', curr st' = curr st /\ cfs_ok st' xs' /\
    se :: running st' ++ xs' ≡ₚ running st ++ xs).
Proof.
  intros [Ht Ha Hc] Hsp Hse. set (Q := running st ++ xs) in *. unfold dequeue_entity.
  apply runs_bind. eapply runs_mono; [now apply (update_curr_ok st xs Q)|].
  intros _ st1 (Ht1 & M1 & N1 & _). cbv beta. pose proof (moved_acct _ _ _ _ M1 Ha) as Ha1.
  assert (se <> 0) as H0 by (apply (tl_ok_pos _ _ _ Ht1), (ac_in _ _ Ha1), Hse).
  apply runs_bind. eapply runs_mono; [now apply (clear_buddies_ok st1 Q se)|].
  intros _ st2 (Ha2 & H2 & Hnx & Hlt & _). cbv beta. pose proof (held_tl_ok _ _ _ H2 Ht1) as Ht2.
  assert (curr st2 = curr st) as Ec2 by (rewrite (hd_curr _ _ H2), (mv_curr _ _ _ M1); done).
  assert (running st2 = running st) as R2.
  { rewrite (acct_running _ _ _ Ht2 Ha2), (acct_running _ _ _ Ht Ha). now rewrite Ec2. }
  assert (curr_ok st2 xs) as Hc2.
  { destruct Hc as [Hc|[? ?]]; [left; congruence|right]. rewrite Ec2. split; [|done].
    now apply (held_some _ _ _ H2), (moved_some _ _ _ _ M1). }
  rewrite runs_bind_assoc. apply runs_bind. eapply runs_mono; [apply (leave_tree_ok st2 xs Q se); [done|done|done|now rewrite R2|done]|].
  intros _ st3 (xs' & Ht3 & S3 & Hnin & Hsub & HQ). cbv beta. rewrite R2, Ec2 in HQ.
  destruct (same_queue_curr _ _ S3) as (Ec3 & Ee3 & En3 & El3).
  pose proof (acct_perm _ _ _ HQ (same_queue_acct _ _ _ S3 Ha2)) as Ha3.
  apply runs_bind. eapply runs_mono; [apply (account_dequeue_ok st3 _ se Ha3); congruence|].
  intros _ st4 [Ha4 H4]. cbv beta. pose proof (held_tl_ok _ _ _ H4 Ht3) as Ht4.
  assert (curr st4 = curr st) as Ec4 by (rewrite (hd_curr _ _ H4); congruence).
  assert (curr_ok st4 xs') as Hc4.
  { destruct Hc2 as [Hc2|[? Hn]]; [left; congruence|right]. rewrite Ec4, <- Ec2. split; [|auto].
    apply (held_some _ _ _ H4). now rewrite Ee3. }
  assert (forall y, ahead st4 xs' y -> near (2 ^ 62) st4 y) as N4.
  { intros y Hy. unfold near. rewrite (held_key _ _ _ H4), (key_same _ _ _ S3), (held_key _ _ _ H2). apply N1.
    destruct Hy as [Hy|[-> Hy]]; [left; auto|right]. rewrite (mv_curr _ _ _ M1). split; congruence. }
  eapply runs_eq; [apply (update_min_eq st4 xs' Ht4), (curr_ok_some _ _ Hc4)|].
  set (st5 := with_min (new_min st4) st4). exists xs'. split; [done|].
  assert (acct st5 ((if se =? curr st then [] else running st) ++ xs')) as Ha5 by (apply (moved_acct nobody st4); [apply moved_min|done]).
  assert (tl_ok st5 xs') as Ht5 by (apply tl_ok_min; [done|apply (curr_ok_some _ _ Hc4)|done]).
  assert (running st5 = if se =? curr st then [] else running st) as R5.
  { rewrite (acct_running _ _ _ Ht5 Ha5). change (curr st5) with (curr st4). rewrite Ec4.
    destruct (Z.eqb_spec se (curr st)) as [<- |Hne]; [now rewrite decide_False|].
    transitivity (if decide (curr st ∈ Q) then [curr st] else []); [|symmetry; apply (acct_running _ _ _ Ht Ha)].
    apply decide_ext. rewrite HQ, elem_of_cons. split; [auto|]. intros [?|?]; [congruence|done]. }
  split.
  - apply (cfs_ok_intro _ _ _ Ht5 Ha5); [|now rewrite R5]. apply (moved_curr_ok nobody st4); [apply moved_min|done].
  - now rewrite R5, <- HQ.
Qed.
