(* ===== verification/CfsClass.v ===== *)
(** The methods of the fair class on a consistent queue: none of them faults,
    and each leaves a consistent queue with the entities it should hold. *)

From stdpp Require Import gmap sorting.
From S2P Require Import Prelude.
From S2P Require Import State RbTree RbShape RbOps RbFacts Cfs CfsTimeline CfsFacts.

(** The current entity may be replaced without touching tree and accounting. *)
Lemma tl_ok_curr st xs c : tl_ok st xs -> tl_ok (with_curr c st) xs.
Proof. intros [H1 H2 H3 H4 H5]. split; done. Qed.
Lemma acct_curr st Q c : acct st Q -> acct (with_curr c st) Q.
Proof. intros [A1 A2 A3 A4 A5 A6 A7 A8 A9 A10]. split; done. Qed.

Lemma acct_on_rq st Q x e : acct st Q -> ents st !! x = Some e -> (on_rq e =? 0) = negb (bool_decide (x ∈ Q)).
Proof.
  intros Ha He. rewrite (ac_on _ _ Ha _ _ He). destruct (decide (x ∈ Q)) as [H|H].
  - now rewrite bool_decide_true.
  - now rewrite bool_decide_false.
Qed.

(** * Putting the current entity back *)

Lemma put_prev_ok st xs : cfs_ok st xs -> spread st xs -> curr st <> 0 ->
  runs (put_prev_entity (curr st)) st (fun _ st' => exists xs', curr st' = 0 /\ cfs_ok st' xs' /\ xs' ≡ₚ running st ++ xs).
Proof.
  intros [Ht Ha Hc] Hsp H0. set (Q := running st ++ xs) in *. unfold put_prev_entity.
  destruct (Hc) as [|[[e He] Hnx]]; [done|]. apply (runs_ent _ e); [done|].
  rewrite (acct_on_rq _ _ _ _ Ha He). pose proof (acct_running _ _ _ Ht Ha) as R0.
  assert (forall st2 ys, tl_ok st2 ys -> acct st2 Q -> ys ≡ₚ Q -> exists xs', curr (with_curr 0 st2) = 0 /\
    cfs_ok (with_curr 0 st2) xs' /\ xs' ≡ₚ Q) as Hend.
  { intros st2 ys Ht2 Ha2 Hp. exists ys. split; [done|]. split; [|done].
    apply (cfs_ok_intro _ _ Q); [now apply tl_ok_curr|now apply acct_curr|now left|].
    unfold running. cbn. now rewrite (tl_ok_null _ _ Ht2). }
  destruct (bool_decide_reflect (curr st ∈ Q)) as [Hq|Hq]; cbn [negb].
  - apply runs_bind. eapply runs_mono; [now apply (update_curr_ok st xs Q)|].
    intros _ st1 (Ht1 & M1 & _). cbv beta. pose proof (moved_acct _ _ _ _ M1 Ha) as Ha1.
    destruct (moved_lookup _ _ _ _ _ M1 He) as (e1 & He1 & _). apply (runs_ent _ e1); [done|].
    rewrite (acct_on_rq _ _ _ _ Ha1 He1), bool_decide_true by done. cbn [negb].
    apply runs_bind. eapply runs_mono; [apply (enqueue_spec st1 xs); [done|done|eauto]|].
    intros _ st2 (ys & zs & -> & Ht2 & _ & _ & S2). cbv beta. apply runs_modify.
    eapply Hend; [exact Ht2|now apply (same_queue_acct st1)|].
    rewrite decide_True in R0 by done. unfold Q. rewrite R0. symmetry. exact (Permutation_middle ys zs (curr st)).
  - apply runs_bind, runs_ret, (runs_ent _ e); [done|].
    rewrite (acct_on_rq _ _ _ _ Ha He), bool_decide_false by done. apply runs_bind, runs_ret, runs_modify.
    eapply Hend; [exact Ht|done|]. rewrite decide_False in R0 by done. unfold Q. now rewrite R0.
Qed.

(** * Choosing the next entity *)

Definition cfg_ok (cfg : sched_config) : Prop := is_u32 (sysctl_sched_wakeup_granularity cfg).

(** How far the virtual runtime of [x] is ahead of that of [y]. *)
Definition lead (st : cfs_rq) (x y : Z) : Z :=
  match ents st !! x, ents st !! y with Some ex, Some ey => s64 (vruntime ex - vruntime ey) | _, _ => 0 end.

Lemma drift_lead st st' x y : drift nobody st st' -> lead st' x y = lead st x y.
Proof.
  intros [H _]. unfold lead. pose proof (mv_ents _ _ _ H x) as Hx. pose proof (mv_ents _ _ _ H y) as Hy.
  inversion Hx as [ex ex' (_ & _ & _ & Vx)|]; [|done]. inversion Hy as [ey ey' (_ & _ & _ & Vy)|]; [|done].
  destruct (Vx ltac:(auto)) as [-> _], (Vy ltac:(auto)) as [-> _]. done.
Qed.

Lemma wakeup_gran_ok cfg st Q c se : cfg_ok cfg -> acct st Q -> is_Some (ents st !! c) -> is_Some (ents st !! se) ->
  runs (wakeup_gran cfg c se) st (fun g st' => drift nobody st st' /\ 0 <= g < 2 ^ 32).
Proof.
  intros Hcfg Ha [ec Hec] [es Hes]. unfold wakeup_gran. apply runs_gets, runs_bind.
  eapply runs_mono with (P := fun g st' => st' = st /\ 0 <= g < 2 ^ 32).
  { destruct (negb (curr st =? 0) && ADAPTIVE_GRAN cfg).
    - unfold adaptive_gran. apply (runs_ent _ ec), (runs_ent _ es), runs_gets, runs_ret; [done|done|].
      split; [done|apply u32_range].
    - now apply runs_ret. }
  intros g st1 [-> Hg]. cbv beta zeta.
  assert (is_Some (ents st !! (if ASYM_GRAN cfg then se else c))) as [ex Hex] by (destruct (ASYM_GRAN cfg); eauto).
  apply (runs_ent _ ex); [done|]. destruct (negb _); [|apply runs_ret; split; [apply drift_refl|done]].
  eapply runs_mono; [apply (calc_delta_fair_ok st Q); [done|eauto]|]. intros d st2 [D Hd]. auto.
Qed.

Lemma wakeup_preempt_ok cfg st Q c se : cfg_ok cfg -> acct st Q -> is_Some (ents st !! c) -> is_Some (ents st !! se) ->
  runs (wakeup_preempt_entity cfg c se) st (fun r st' => drift nobody st st' /\ (r < 1 -> lead st c se < 2 ^ 32)).
Proof.
  intros Hcfg Ha [ec Hec] [es Hes]. unfold wakeup_preempt_entity, lead. rewrite Hec, Hes.
  apply (runs_ent _ ec), (runs_ent _ es); [done|done|]. cbv zeta.
  destruct (Z.leb_spec (s64 (vruntime ec - vruntime es)) 0).
  { apply runs_ret. split; [apply drift_refl|lia]. }
  apply runs_bind. eapply runs_mono; [apply (wakeup_gran_ok cfg st Q); eauto|].
  intros g st' [D Hg]. apply runs_ret. split; [done|].
  destruct (Z.ltb_spec g (s64 (vruntime ec - vruntime es))); lia.
Qed.

Lemma buddy_wins_ok cfg st xs b left : cfg_ok cfg -> acct st xs -> (b = 0 \/ b ∈ xs) -> left ∈ xs ->
  runs (buddy_wins cfg b left) st (fun r st' => drift nobody st st' /\ (r = true -> b ∈ xs /\ b <> 0 /\ lead st b left < 2 ^ 32)).
Proof.
  intros Hcfg Ha Hb Hl. unfold buddy_wins. destruct (Z.eqb_spec b 0); cbn [negb].
  { apply runs_ret. split; [apply drift_refl|done]. }
  destruct Hb as [|Hb]; [done|]. apply runs_bind.
  eapply runs_mono; [apply (wakeup_preempt_ok cfg st xs); [done|done|now apply (ac_in _ _ Ha)|now apply (ac_in _ _ Ha)]|].
  intros r st' [D Hr]. apply runs_ret. split; [done|]. intros Hr1%Z.ltb_lt. auto.
Qed.

Lemma s64_diag x : s64 (x - x) = 0.
Proof. now rewrite Z.sub_diag. Qed.

Lemma pick_next_entity_ok cfg st xs : cfg_ok cfg -> tl_ok st xs -> acct st xs -> xs <> [] ->
  runs (pick_next_entity cfg) st (fun se st' => se ∈ xs /\ tl_ok st' xs /\ acct st' xs /\
    curr st' = curr st /\ lead st se (first_of xs) < 2 ^ 32 /\ (next st = 0 -> last st = 0 -> se = first_of xs)).
Proof.
  intros Hcfg Ht Ha Hx. unfold pick_next_entity, __pick_next_entity.
  apply runs_bind, runs_gets, runs_ret. rewrite (tl_left _ _ Ht).
  assert (first_of xs ∈ xs) as Hl by (destruct xs; [done|left]).
  replace (if first_of xs =? 0 then 0 else first_of xs) with (first_of xs) by (destruct (Z.eqb_spec (first_of xs) 0); congruence).
  set (left := first_of xs) in *.
  assert (lead st left left < 2 ^ 32) as Hll.
  { unfold lead. destruct (ents st !! left); [rewrite s64_diag|]; lia. }
  apply runs_gets, runs_bind. eapply runs_mono; [apply (buddy_wins_ok cfg st xs (next st) left); [done|done|apply (ac_next _ _ Ha)|done]|].
  intros b1 st1 [D1 B1]. cbv beta zeta. pose proof (moved_acct _ _ _ _ (proj1 D1) Ha) as Ha1.
  apply runs_gets, runs_bind. rewrite (mv_last _ _ _ (proj1 D1)).
  eapply runs_mono; [apply (buddy_wins_ok cfg st1 xs (last st) left); [done|done|apply (ac_last _ _ Ha)|done]|].
  intros b2 st2 [D2 B2]. cbv beta zeta. pose proof (moved_acct _ _ _ _ (proj1 D2) Ha1) as Ha2.
  rewrite (drift_lead _ _ _ _ D1) in B2.
  assert (tl_ok st2 xs) as Ht2 by (eapply drift_tl_ok; [exact D2|auto|]; eapply drift_tl_ok; [exact D1|auto|done]).
  set (se := if b2 then _ else _).
  assert (se ∈ xs /\ lead st se left < 2 ^ 32 /\ (next st = 0 -> last st = 0 -> se = left)) as (Hse & Hle & Hbd).
  { unfold se. destruct b2; [destruct (B2 eq_refl) as (? & ? & ?); done|].
    destruct b1; [destruct (B1 eq_refl) as (? & ? & ?)|]; done. }
  apply runs_bind. eapply runs_mono.
  { apply (clear_buddies_ok st2 xs se); [done|]. apply (tl_ok_pos _ _ _ Ht2), (ac_in _ _ Ha2), Hse. }
  intros _ st3 (Ha3 & H3 & _). apply runs_ret. split; [done|]. split; [now apply (held_tl_ok _ _ _ H3)|]. split; [done|].
  split; [|done]. rewrite (hd_curr _ _ H3), (mv_curr _ _ _ (proj1 D2)), (mv_curr _ _ _ (proj1 D1)). done.
Qed.

Lemma set_next_ok st xs se : tl_ok st xs -> acct st xs -> se ∈ xs ->
  runs (set_next_entity se) st (fun _ st' => exists xs', curr st' = se /\ cfs_ok st' xs' /\
    running st' = [se] /\ se :: xs' ≡ₚ xs).
Proof.
  intros Ht Ha Hse. unfold set_next_entity. destruct (ac_in _ _ Ha se Hse) as [e He].
  apply (runs_ent _ e); [done|]. rewrite (acct_on_rq _ _ _ _ Ha He), bool_decide_true by done. cbn [negb].
  apply list_elem_of_split in Hse as (ys & zs & ->).
  apply runs_bind. eapply runs_mono; [apply (dequeue_spec st ys se zs Ht)|].
  intros _ st1 [Ht1 S1]. cbv beta. destruct (same_queue_curr _ _ S1) as (Ec1 & Ee1 & _).
  pose proof (same_queue_acct _ _ _ S1 Ha) as Ha1.
  unfold update_stats_curr_start. apply runs_bind, runs_gets, (runs_upd_ent _ e); [congruence|].
  match goal with |- runs _ ?s _ => set (st2 := s) end.
  assert (drift (eq se) st1 st2) as D2 by (split; [|done]; apply (moved_ent _ _ _ e); [congruence|same_ent]).
  assert (se ∉ ys ++ zs) as Hnin.
  { pose proof (ac_nodup _ _ Ha) as Hd. rewrite <- Permutation_middle in Hd. now apply list.NoDup_cons in Hd as [Hd _]. }
  assert (tl_ok st2 (ys ++ zs)) as Ht2 by (eapply drift_tl_ok; [exact D2| |done]; intros x Hx <-; done). pose proof (moved_acct _ _ _ _ (proj1 D2) Ha1) as Ha2.
  apply runs_bind, runs_modify. set (st3 := with_curr se st2).
  pose proof (tl_ok_curr _ _ se Ht2 : tl_ok st3 (ys ++ zs)) as Ht3. pose proof (acct_curr _ _ se Ha2 : acct st3 _) as Ha3.
  destruct (ac_in _ _ Ha3 se) as [e3 He3]. { rewrite elem_of_app. right. left. }
  apply (runs_upd_ent _ e3); [done|]. match goal with |- context [cfs_ok ?s] => set (st4 := s) end.
  assert (drift nobody st3 st4) as D4 by (split; [|done]; apply (moved_ent _ _ _ e3); [done|same_ent]).
  pose proof (drift_tl_ok _ _ _ _ D4 ltac:(auto) Ht3) as Ht4. pose proof (moved_acct _ _ _ _ (proj1 D4) Ha3) as Ha4.
  assert (running st4 = [se]) as R4.
  { rewrite (acct_running _ _ _ Ht4 Ha4). change (curr st4) with se. rewrite decide_True; [done|]. rewrite elem_of_app. right. left. }
  exists (ys ++ zs). split; [done|]. split; [|split; [done|apply Permutation_middle]].
  apply (cfs_ok_intro _ _ _ Ht4 Ha4); [|rewrite R4; exact (Permutation_middle ys zs se)].
  right. change (curr st4) with se. split; [apply (ac_in _ _ Ha4); rewrite elem_of_app; right; left|done].
Qed.

(** The choice when a task is picked: nothing is runnable, or an entity of the
    queue becomes current. *)
Lemma pick_next_task_ok cfg st xs : cfg_ok cfg -> cfs_ok st xs -> curr st = 0 ->
  runs (pick_next_task_fair cfg) st (fun se st' =>
    (xs = [] /\ se = 0 /\ st' = st) \/
    (se ∈ xs /\ lead st se (first_of xs) < 2 ^ 32 /\ (next st = 0 -> last st = 0 -> se = first_of xs) /\
     exists xs', curr st' = se /\ cfs_ok st' xs' /\ running st' = [se] /\ se :: xs' ≡ₚ xs)).
Proof.
  intros Hcfg [Ht Ha Hc] H0. assert (running st = []) as R0.
  { unfold running. now rewrite H0, (tl_ok_null _ _ Ht). }
  rewrite R0 in Ha. cbn in Ha. unfold pick_next_task_fair. apply runs_gets. rewrite (ac_nr _ _ Ha).
  destruct xs as [|x xs]; [apply runs_ret; now left|]. destruct (Z.eqb_spec (Z.of_nat (length (x :: xs))) 0); [cbn in *; lia|].
  apply runs_bind. eapply runs_mono; [now apply (pick_next_entity_ok cfg st (x :: xs))|].
  intros se st1 (Hse & Ht1 & Ha1 & Hc1 & Hlead & Hbd). cbv beta.
  apply runs_bind. eapply runs_mono; [now apply (set_next_ok st1 (x :: xs))|].
  intros u st2 H2. apply runs_ret. right. auto.
Qed.

(** * The tick *)

Lemma resched_ok st (Q : unit -> cfs_rq -> Prop) : Q tt (with_resched true st) -> runs resched_task st Q.
Proof. done. Qed.

Lemma held_resched st b : held st (with_resched b st).
Proof. split; try done. intros x. apply option_refl_v. Qed.

Lemma acct_resched st Q b : acct st Q -> acct (with_resched b st) Q.
Proof. intros [A1 A2 A3 A4 A5 A6 A7 A8 A9 A10]. split; done. Qed.

(** [kept st st' xs]: the same entities wait and run. *)
Definition kept (st st' : cfs_rq) (xs : list Z) : Prop :=
  cfs_ok st' xs /\ curr st' = curr st /\ running st' = running st.

Lemma kept_intro st st' xs : tl_ok st xs -> acct st (running st ++ xs) -> curr_ok st xs -> tl_ok st' xs ->
  acct st' (running st ++ xs) -> curr st' = curr st -> (forall x, is_Some (ents st !! x) -> is_Some (ents st' !! x)) -> kept st st' xs.
Proof.
  intros Ht Ha Hc Ht' Ha' Ec He.
  assert (running st' = running st) as R by (rewrite (acct_running _ _ _ Ht' Ha'), Ec; symmetry; apply (acct_running _ _ _ Ht Ha)).
  split; [|done]. apply (cfs_ok_intro _ _ _ Ht' Ha'); [|now rewrite R].
  destruct Hc as [Hc|[Hc1 Hc2]]; [left; congruence|right; rewrite Ec; auto].
Qed.

Lemma check_preempt_tick_ok cfg st xs : tl_ok st xs -> acct st (running st ++ xs) -> curr_ok st xs -> curr st <> 0 ->
  curr st ∈ running st ++ xs -> runs (check_preempt_tick cfg (curr st)) st (fun _ st' => kept st st' xs).
Proof.
  intros Ht Ha Hc H0 Hq. set (Q := running st ++ xs) in *. unfold check_preempt_tick.
  destruct (Hc) as [|[[e He] Hnx]]; [done|].
  apply runs_bind. eapply runs_mono; [apply (sched_slice_ok cfg st Q); [done|eauto|now right]|].
  intros ideal st1 [D1 _]. cbv beta. destruct (moved_lookup _ _ _ _ _ (proj1 D1) He) as (e1 & He1 & _).
  apply (runs_ent _ e1); [done|]. cbv zeta.
  pose proof (drift_tl_ok _ _ _ _ D1 ltac:(auto) Ht) as Ht1. pose proof (moved_acct _ _ _ _ (proj1 D1) Ha) as Ha1.
  pose proof (mv_curr _ _ _ (proj1 D1)) as Ec1.
  assert (forall st', acct st' Q -> held st1 st' -> kept st st' xs) as Hk.
  { intros st' Ha' Hh. apply kept_intro; try done; [now apply (held_tl_ok _ _ _ Hh)|rewrite (hd_curr _ _ Hh); done|].
    intros x Hx. now apply (held_some _ _ _ Hh), (moved_some _ _ _ _ (proj1 D1)). }
  destruct (_ <? _).
  { apply runs_bind, resched_ok. eapply runs_mono; [apply (clear_buddies_ok _ Q); [now apply acct_resched|done]|].
    intros _ st2 (Ha2 & H2 & _). apply Hk; [done|]. eapply held_trans; [apply held_resched|exact H2]. }
  destruct (negb _); [apply runs_ret, Hk; [done|apply held_refl]|].
  destruct (_ <? _); [apply runs_ret, Hk; [done|apply held_refl]|].
  apply runs_gets. destruct (Z.ltb_spec 1 (nr_running st1)) as [Hnr|]; [|apply runs_ret, Hk; [done|apply held_refl]].
  rewrite (ac_nr _ _ Ha1) in Hnr. unfold Q in Hnr. rewrite (acct_running _ _ _ Ht Ha), decide_True in Hnr by done.
  unfold __pick_next_entity. apply runs_bind, runs_gets, runs_ret. rewrite (tl_left _ _ Ht1).
  destruct xs as [|x xs]; [cbn in Hnr; lia|]. cbn [first_of head default].
  destruct (tl_in _ _ Ht1 x ltac:(left)) as [ex Hex]. pose proof (tl_ok_pos _ _ _ Ht1 ltac:(eauto) : x <> 0) as Hx0.
  cbn. destruct (Z.eqb_spec x 0); [done|]. apply (runs_ent _ ex); [done|]. apply (runs_ent _ e1); [done|].
  destruct (_ <? _); [apply resched_ok, Hk; [now apply acct_resched|apply held_resched]|apply runs_ret, Hk; [done|apply held_refl]].
Qed.

Lemma entity_tick_ok cfg st xs : cfs_ok st xs -> spread st xs -> curr st <> 0 -> running st = [curr st] ->
  runs (entity_tick cfg (curr st)) st (fun _ st' => kept st st' xs).
Proof.
  intros [Ht Ha Hc] Hsp H0 Hr. unfold entity_tick. apply runs_bind.
  eapply runs_mono; [now apply (update_curr_ok st xs (running st ++ xs))|].
  intros _ st1 (Ht1 & M1 & _). cbv beta. apply runs_gets.
  pose proof (moved_acct _ _ _ _ M1 Ha) as Ha1. pose proof (moved_running _ _ _ M1) as R1. pose proof (mv_curr _ _ _ M1) as E1.
  pose proof (moved_curr_ok _ _ _ _ M1 Hc) as Hc1. rewrite <- R1 in Ha1.
  destruct ((1 <? nr_running st1) || negb (WAKEUP_PREEMPT cfg)).
  - rewrite <- E1. eapply runs_mono; [apply (check_preempt_tick_ok cfg st1 xs); try done; [congruence|]|].
    + rewrite R1, Hr, E1. left.
    + intros _ st2 (H2 & Ec & Er). split; [done|]. split; congruence.
  - apply runs_ret. split; [now split|]. done.
Qed.

(** * Yielding *)

Lemma held_clock st c : held st (with_clock c st).
Proof. split; try done. intros x. apply option_refl_v. Qed.
Lemma acct_clock st Q c : acct st Q -> acct (with_clock c st) Q.
Proof. intros [A1 A2 A3 A4 A5 A6 A7 A8 A9 A10]. split; done. Qed.

Lemma last_of_in xs : xs <> [] -> last_of xs ∈ xs.
Proof.
  intros H. unfold last_of. destruct (list.last xs) as [x|] eqn:E; [now apply last_Some_elem_of in E|]. now apply list.last_None in E.
Qed.

Lemma pick_last_eq st xs : tl_ok st xs -> __pick_last_entity st = Ok (last_of xs, st).
Proof.
  intros Ht. destruct (tl_tree _ _ Ht) as (t & Hr & _ & Hi).
  unfold __pick_last_entity, mbind, ST_bind. rewrite (on_timeline_read _ _ _ (rb_last_sim _ _ _ Hr)), Hi.
  destruct (Z.eqb_spec (last_of xs) 0) as [->|]; done.
Qed.

Lemma yield_ok cfg st xs now : cfs_ok st xs -> spread st xs -> curr st <> 0 -> 
  runs (yield_task_fair cfg (curr st) now) st (fun _ st' => kept st st' xs).
Proof.
  intros [Ht Ha Hc] Hsp H0. set (Q := running st ++ xs) in *. unfold yield_task_fair. apply runs_gets.
  destruct (nr_running st =? 1); [apply runs_ret; split; [now split|done]|].
  apply runs_bind. eapply runs_mono; [apply (clear_buddies_ok st Q); done|].
  intros _ st1 (Ha1 & H1 & _). cbv beta. pose proof (held_tl_ok _ _ _ H1 Ht) as Ht1. pose proof (hd_curr _ _ H1) as E1.
  destruct (Hc) as [|[Hce Hnx]]; [done|]. destruct (proj2 (held_some _ _ _ H1) Hce) as [e1 He1].
  assert (curr_ok st1 xs) as Hc1 by (right; rewrite E1; eauto).
  apply (runs_ent _ e1); [done|]. destruct (_ && _).
  - apply runs_bind, runs_modify. set (st2 := with_clock now st1).
    pose proof (held_clock st1 now) as H2. eapply runs_mono.
    { apply (update_curr_ok st2 xs Q); [now apply (held_tl_ok _ _ _ H2)|now apply acct_clock|done|].
      intros y Hy. unfold near. rewrite (held_key _ _ _ H2), (held_key _ _ _ H1). apply Hsp.
      destruct Hy as [Hy|[-> Hy]]; [now left|right]. cbn in *. split; congruence. }
    intros _ st3 (Ht3 & M3 & _). apply kept_intro; try done.
    + apply (moved_acct _ _ _ _ M3). now apply acct_clock.
    + rewrite (mv_curr _ _ _ M3). done.
    + intros x Hx. apply (moved_some _ _ _ _ M3). cbn. now apply (held_some _ _ _ H1).
  - assert (forall st', drift (eq (curr st)) st1 st' -> kept st st' xs) as Hk.
    { intros st' D. apply kept_intro; try done.
      - eapply drift_tl_ok; [exact D| |done]. intros x Hx <-. done.
      - now apply (moved_acct _ _ _ _ (proj1 D)).
      - rewrite (mv_curr _ _ _ (proj1 D)). done.
      - intros x Hx. now apply (moved_some _ _ _ _ (proj1 D)), (held_some _ _ _ H1). }
    apply runs_bind, (runs_eq _ _ _ _ _ (pick_last_eq _ _ Ht1)).
    destruct (Z.eqb_spec (last_of xs) 0) as [|Hl]; [apply runs_ret, Hk, drift_refl|].
    destruct (tl_in _ _ Ht1 (last_of xs)) as [er Her].
    { apply last_of_in. intros ->. done. }
    apply (runs_ent _ er); [done|]. apply (runs_ent _ e1); [done|].
    destruct (entity_before er e1); [apply runs_ret, Hk, drift_refl|].
    apply (runs_upd_ent _ e1); [done|]. apply Hk. split; [|done]. apply (moved_ent _ _ _ e1); [done|same_ent].
Qed.

Lemma sorted_last st xs : StronglySorted (key_le st) xs -> forall x, x ∈ xs -> key st x <= key st (last_of xs).
Proof.
  induction xs as [|y xs IH]; intros Hs x Hx; [now apply elem_of_nil in Hx|].
  apply StronglySorted_cons in Hs as [Hy Hs]. rewrite last_of_cons. rewrite List.Forall_forall in Hy.
  destruct xs as [|z xs]; [apply elem_of_cons in Hx as [-> |Hx]; [lia|now apply elem_of_nil in Hx]|].
  apply elem_of_cons in Hx as [-> |Hx]; [|now apply IH].
  apply Hy, list_elem_of_In, last_of_in. done.
Qed.

(** * A new task *)

Lemma idle_charges st xs : tl_ok st xs -> idle st -> charges st xs.
Proof.
  intros Ht Hi. unfold charges, update_curr. do 2 apply runs_gets.
  destruct Hi as [-> |(e & He & Hz)]; [apply runs_ret; split; [done|apply moved_refl]|].
  destruct (Z.eqb_spec (curr st) 0); [apply runs_ret; split; [done|apply moved_refl]|].
  apply (runs_ent _ e); [done|]. rewrite Hz. apply runs_ret. split; [done|apply moved_refl].
Qed.

Lemma drift_idle P st st' : drift P st st' -> ~ P (curr st) -> idle st -> idle st'.
Proof.
  intros [H _] Hn [Hi|(e & He & Hz)]; [left; now rewrite (mv_curr _ _ _ H)|right].
  rewrite (mv_curr _ _ _ H). destruct (moved_lookup _ _ _ _ _ H He) as (e' & He' & _ & _ & _ & Hx).
  destruct (Hx Hn) as [_ Hx']. exists e'. split; [done|]. now rewrite (mv_clock _ _ _ H), Hx'.
Qed.

(** The exchange of the virtual runtimes of parent and child. *)
Lemma swap_ok st c se e (child_first : bool) : ents st !! se = Some e -> c <> se -> (c = 0 \/ is_Some (ents st !! c)) ->
  runs (if child_first && negb (c =? 0) then
          ce ← ent c;
          e ← ent se;
          if entity_before ce e then
            upd_ent c (e_vruntime (vruntime e));;
            upd_ent se (e_vruntime (vruntime ce));;
            resched_task
          else mret tt
        else mret tt) st
    (fun _ st' => drift (fun x => x = se \/ x = c) st st' /\ (curr st = c -> idle st -> idle st')).
Proof.
  intros He Hne Hc. destruct (Z.eqb_spec c 0) as [|Hc0]; [rewrite andb_false_r; apply runs_ret; split; [apply drift_refl|done]|].
  destruct child_first; cbn [andb negb]; [|apply runs_ret; split; [apply drift_refl|done]].
  destruct Hc as [|[ce Hce]]; [done|]. apply (runs_ent _ ce), (runs_ent _ e); [done|done|].
  destruct (entity_before ce e); [|apply runs_ret; split; [apply drift_refl|done]].
  apply runs_bind, (runs_upd_ent _ ce); [done|]. apply runs_bind, (runs_upd_ent _ e); [cbn; now rewrite lookup_insert_ne|].
  apply resched_ok. split.
  - split; [|done].
    assert (forall P s, moved P s (with_resched true s)) as Mr by (intros P s; split; try done; intros x; apply option_refl).
    eapply moved_trans; [|apply Mr]. eapply moved_trans; [apply (moved_ent _ st c ce (e_vruntime (vruntime e) ce) Hce); same_ent|].
    apply (moved_ent _ _ se e); [cbn; now rewrite lookup_insert_ne|same_ent].
  - intros Ec [Hi|(e0 & He0 & Hz)]; [now left|right]. cbn. rewrite Ec in He0 |- *.
    rewrite lookup_insert_ne, lookup_insert_eq by done. eexists. split; [done|]. cbn. congruence.
Qed.

Lemma task_new_ok cfg st xs se e child_first :
  cfs_ok st xs -> spread st xs -> ents st !! se = Some e -> on_rq e = 0 -> se <> curr st ->
  total st (running st ++ xs) + wgt st se < 2 ^ 32 - 1 ->
  runs (task_new_fair cfg se child_first) st (fun _ st' => exists xs', curr st' = curr st /\ cfs_ok st' xs' /\
    running st' ++ xs' ≡ₚ se :: running st ++ xs).
Proof.
  intros Hok Hsp He Ho Hne Hcap. pose proof (cfs_not_queued _ _ _ _ Hok He Ho) as Hq.
  destruct Hok as [Ht Ha Hc]. set (Q := running st ++ xs) in *. unfold task_new_fair. apply runs_gets.
  assert (se ∉ xs) as Hxs by (intros Hx; apply Hq; unfold Q; rewrite elem_of_app; auto).
  assert (curr st ∉ xs) as Hcx.
  { destruct Hc as [Hc|[_ ?]]; [|done]. intros Hx. apply (tl_ok_pos _ _ _ Ht (tl_in _ _ Ht _ Hx)). done. }
  apply runs_bind. eapply runs_mono; [now apply (update_curr_ok st xs Q)|].
  intros _ st1 (Ht1 & M1 & _ & I1). cbv beta. destruct (moved_lookup _ _ _ _ _ M1 He) as (e1 & He1 & _).
  pose proof (mv_curr _ _ _ M1) as Ec1.
  apply runs_bind. eapply runs_mono with (P := fun _ st' => drift (eq se) st1 st').
  { destruct (Z.eqb_spec (curr st) 0) as [|Hc0]; cbn [negb]; [apply runs_ret, drift_refl|].
    destruct (curr_ok_some _ _ Hc) as [|Hs]; [done|]. destruct (proj2 (moved_some _ _ _ _ M1) Hs) as [c1 Hc1].
    apply (runs_ent _ c1); [done|]. apply (runs_upd_ent _ e1); [done|]. split; [|done]. apply (moved_ent _ _ _ e1); [done|same_ent]. }
  intros _ st2 D2. cbv beta.
  assert (moved (fun x => x = se \/ x = curr st) st st2) as M2.
  { eapply moved_trans; [eapply moved_weaken, M1; auto|eapply moved_weaken, (proj1 D2); auto]. }
  pose proof (moved_acct _ _ _ _ M2 Ha) as Ha2.
  apply runs_bind. eapply runs_mono.
  { apply (place_entity_ok cfg st2 Q); [done|apply (moved_some _ _ _ _ M2); eauto|left].
    now rewrite (moved_total _ _ _ _ M2), (moved_wgt _ _ _ _ M2). }
  intros u3 st3 D3. cbv beta in D3 |- *. assert (drift (eq se) st1 st3) as D13 by (eapply drift_trans; eassumption).
  assert (moved (fun x => x = se \/ x = curr st) st st3) as M3.
  { eapply moved_trans; [exact M2|eapply moved_weaken, (proj1 D3); auto]. }
  destruct (moved_lookup _ _ _ _ _ M3 He) as (e3 & He3 & _).
  assert (idle st3) as I3 by (apply (drift_idle _ _ _ D13); [now rewrite Ec1|done]).
  apply runs_bind. eapply runs_mono.
  { apply (swap_ok st3 (curr st) se e3 child_first); [done|congruence|].
    destruct (curr_ok_some _ _ Hc) as [|Hs]; [now left|right]. now apply (moved_some _ _ _ _ M3). }
  intros _ st4 [D4 I4]. cbv beta. specialize (I4 (mv_curr _ _ _ M3) I3).
  assert (moved (fun x => x = se \/ x = curr st) st st4) as M4 by (eapply moved_trans; [exact M3|apply D4]).
  assert (tl_ok st4 xs) as Ht4.
  { eapply drift_tl_ok; [exact D4|intros x Hx [-> | ->]; done|]. eapply drift_tl_ok; [exact D13|intros x Hx <-; done|done]. }
  destruct (moved_lookup _ _ _ _ _ M4 He) as (e4 & He4 & _ & Ho4 & _).
  unfold enqueue_task_fair. apply (runs_ent _ e4); [done|]. rewrite Ho4, Ho. cbn [negb Z.eqb].
  pose proof (moved_running _ _ _ M4) as R4. pose proof (mv_curr _ _ _ M4) as Ec4.
  eapply runs_mono.
  - apply (enqueue_entity_ok cfg st4 xs se e4); [|now apply idle_charges|done|congruence|].
    + split; [done|rewrite R4; now apply (moved_acct _ _ _ _ M4)|now apply (moved_curr_ok _ _ _ _ M4)].
    + rewrite R4. now rewrite (moved_total _ _ _ _ M4), (moved_wgt _ _ _ _ M4).
  - intros _ st5 (ys & zs & _ & Ec5 & Hok5 & Hp). rewrite R4 in Hp. eexists. split; [congruence|]. split; [exact Hok5|exact Hp].
Qed.
