(* ===== verification/CfsSched.v ===== *)
(** The fair class as the scheduler core sees it: preemption at a wake-up, the
    remaining methods, and every call on a consistent queue. *)

From stdpp Require Import gmap sorting.
From S2P Require Import Prelude.
From S2P Require Import State RbTree RbShape RbOps RbFacts Cfs CfsTimeline CfsFacts CfsClass.

(** * Preemption by a woken task *)

(** [similar st0 Q xs st]: the same entities are runnable, wait and run as in
    [st0]. *)
Record similar (st0 : cfs_rq) (Q xs : list Z) (st : cfs_rq) : Prop := {
  sm_tl : tl_ok st xs;
  sm_acct : acct st Q;
  sm_curr : curr st = curr st0;
  sm_some : forall x, is_Some (ents st0 !! x) -> is_Some (ents st !! x)
}.

Lemma similar_kept st xs st' : cfs_ok st xs -> similar st (running st ++ xs) xs st' -> kept st st' xs.
Proof. intros [Ht Ha Hc] [H1 H2 H3 H4]. now apply kept_intro. Qed.

Lemma similar_refl st xs : cfs_ok st xs -> similar st (running st ++ xs) xs st.
Proof. intros [Ht Ha Hc]. now split. Qed.

Lemma similar_held st0 Q xs st st' : similar st0 Q xs st -> held st st' -> acct st' Q -> similar st0 Q xs st'.
Proof.
  intros [H1 H2 H3 H4] Hh Ha. split; [now apply (held_tl_ok _ _ _ Hh)|done|rewrite (hd_curr _ _ Hh); done|].
  intros x Hx. apply (held_some _ _ _ Hh). auto.
Qed.

Lemma similar_moved P st0 Q xs st st' : similar st0 Q xs st -> moved P st st' -> tl_ok st' xs -> similar st0 Q xs st'.
Proof.
  intros [H1 H2 H3 H4] M Ht. split; [done|now apply (moved_acct _ _ _ _ M)|rewrite (mv_curr _ _ _ M); done|].
  intros x Hx. apply (moved_some _ _ _ _ M). auto.
Qed.

Lemma similar_drift st0 Q xs st st' : similar st0 Q xs st -> drift nobody st st' -> similar st0 Q xs st'.
Proof. intros H D. eapply similar_moved; [exact H|apply D|]. eapply drift_tl_ok; [exact D|auto|apply H]. Qed.

Lemma similar_resched st0 Q xs st : similar st0 Q xs st -> runs resched_task st (fun _ st' => similar st0 Q xs st').
Proof. intros H. apply resched_ok. eapply similar_held; [exact H|apply held_resched|apply acct_resched, H]. Qed.

Lemma similar_update st xs : cfs_ok st xs -> spread st xs ->
  runs update_curr st (fun _ st' => similar st (running st ++ xs) xs st').
Proof.
  intros Hok Hsp. eapply runs_mono; [now apply (spread_charges st xs)|].
  intros u st' [Ht M]. eapply similar_moved; [now apply similar_refl|exact M|done].
Qed.

Lemma set_next_buddy_ok st0 Q xs st se : similar st0 Q xs st -> se ∈ Q ->
  runs (set_next_buddy se) st (fun _ st' => similar st0 Q xs st').
Proof.
  intros H Hq. destruct (ac_in _ _ (sm_acct _ _ _ _ H) se Hq) as [e He]. unfold set_next_buddy. apply (runs_ent _ e); [done|].
  destruct (negb _); [|now apply runs_ret]. apply runs_modify. eapply similar_held; [exact H| |].
  - split; try done. intros x. apply option_refl_v.
  - destruct (sm_acct _ _ _ _ H). split; try done. now right.
Qed.

Lemma set_last_buddy_ok st0 Q xs st se : similar st0 Q xs st -> se ∈ Q ->
  runs (set_last_buddy se) st (fun _ st' => similar st0 Q xs st').
Proof.
  intros H Hq. destruct (ac_in _ _ (sm_acct _ _ _ _ H) se Hq) as [e He]. unfold set_last_buddy. apply (runs_ent _ e); [done|].
  destruct (negb _); [|now apply runs_ret]. apply runs_modify. eapply similar_held; [exact H| |].
  - split; try done. intros x. apply option_refl_v.
  - destruct (sm_acct _ _ _ _ H). split; try done. now right.
Qed.

(** The last stage: the woken entity preempts when its virtual runtime lags by
    more than the granularity, and the preempted one becomes a buddy. *)
Lemma preempt_last_ok cfg st0 Q xs st se pse (curr_idle scale : bool) :
  cfg_ok cfg -> similar st0 Q xs st -> is_Some (ents st !! se) -> pse ∈ Q ->
  runs (w ← wakeup_preempt_entity cfg se pse;
        if w =? 1 then
          resched_task;;
          c ← ent se;
          if (on_rq c =? 0) || curr_idle then mret tt
          else if LAST_BUDDY cfg && scale then set_last_buddy se else mret tt
        else mret tt) st (fun _ st' => similar st0 Q xs st').
Proof.
  intros Hcfg H Hse Hp. pose proof (sm_acct _ _ _ _ H) as Ha. apply runs_bind.
  eapply runs_mono; [apply (wakeup_preempt_ok cfg st Q); [done|done|done|now apply (ac_in _ _ Ha)]|].
  intros w st1 [D _]. cbv beta. pose proof (similar_drift _ _ _ _ _ H D) as H1.
  destruct (w =? 1); [|now apply runs_ret]. apply runs_bind, resched_ok. cbv beta. set (st2 := with_resched true st1).
  assert (similar st0 Q xs st2) as H2 by exact (similar_resched _ _ _ _ H1).
  destruct (proj2 (moved_some _ _ _ _ (proj1 D)) Hse) as [c Hc]. apply (runs_ent _ c); [exact Hc|].
  rewrite (acct_on_rq _ _ _ _ (sm_acct _ _ _ _ H2) Hc). destruct (bool_decide_reflect (se ∈ Q)); cbn [negb orb]; [|now apply runs_ret].
  destruct curr_idle; [now apply runs_ret|]. destruct (_ && _); [now apply set_last_buddy_ok|now apply runs_ret].
Qed.

Lemma check_preempt_wakeup_ok cfg st xs pse (rt fair curr_idle : bool) flags :
  cfg_ok cfg -> cfs_ok st xs -> spread st xs -> curr st <> 0 -> (rt = false -> fair = true -> pse ∈ running st ++ xs) ->
  runs (check_preempt_wakeup cfg pse rt fair curr_idle flags) st (fun _ st' => kept st st' xs).
Proof.
  intros Hcfg Hok Hsp H0 Hp. set (Q := running st ++ xs) in *.
  eapply runs_mono with (P := fun _ st' => similar st Q xs st'); [|intros u st'; now apply similar_kept].
  unfold check_preempt_wakeup. do 2 apply runs_gets. cbv zeta.
  apply runs_bind. eapply runs_mono; [exact (similar_update st xs Hok Hsp)|]. intros u1 st1 H1. cbv beta in H1 |- *. fold Q in H1.
  destruct rt; [now apply similar_resched|]. destruct fair; [|now apply runs_ret]. specialize (Hp eq_refl eq_refl). cbn [negb].
  destruct (curr st =? pse); [now apply runs_ret|].
  apply runs_bind. eapply runs_mono with (P := fun _ st' => similar st Q xs st').
  { destruct (_ && _); [now apply set_next_buddy_ok|now apply runs_ret]. }
  intros _ st2 H2. cbv beta. apply runs_gets. destruct (need_resched st2); [now apply runs_ret|].
  destruct (ac_in _ _ (sm_acct _ _ _ _ H2) pse Hp) as [p Hpe]. apply (runs_ent _ p); [done|].
  destruct (negb _); [now apply runs_ret|].
  destruct (curr_ok_some _ _ (ok_curr _ _ Hok)) as [|Hc0]; [done|].
  destruct (sm_some _ _ _ _ H2 _ Hc0) as [c Hc]. apply (runs_ent _ c); [done|].
  destruct (_ =? SCHED_IDLE); [now apply similar_resched|]. destruct (_ || _); [now apply similar_resched|].
  destruct (WAKEUP_RUNNING cfg && _).
  { apply runs_bind. eapply runs_mono; [now apply (set_next_buddy_ok st Q xs)|]. intros u st3 H3. now apply similar_resched. }
  destruct (negb _); [now apply runs_ret|].
  destruct (Z.eqb_spec pse 0) as [Hz|_]; [now destruct (tl_ok_pos _ _ pse (sm_tl _ _ _ _ H2) ltac:(eauto))|].
  apply preempt_last_ok; [done|done|now exists c|done].
Qed.

(** * The remaining methods *)

Lemma moved_group_ok cfg st xs se : cfs_ok st xs -> spread st xs -> is_Some (ents st !! se) -> se ∉ running st ++ xs ->
  total st (running st ++ xs) + wgt st se < 2 ^ 32 - 1 ->
  runs (moved_group_fair cfg se) st (fun _ st' => kept st st' xs).
Proof.
  intros Hok Hsp He Hq Hcap. set (Q := running st ++ xs) in *.
  eapply runs_mono with (P := fun _ st' => similar st Q xs st'); [|intros u st'; now apply similar_kept].
  unfold moved_group_fair. apply runs_bind. eapply runs_mono; [now apply (spread_charges st xs)|]. intros _ st1 [Ht1 M1]. cbv beta.
  pose proof (similar_moved _ _ _ _ _ _ (similar_refl _ _ Hok) M1 Ht1) as H1. fold Q in H1.
  eapply runs_mono; [apply (place_entity_ok cfg st1 Q); [apply H1|apply (sm_some _ _ _ _ H1), He|left]|].
  { now rewrite (moved_total _ _ _ _ M1), (moved_wgt _ _ _ _ M1). }
  intros u st2 D. eapply similar_moved; [exact H1|apply D|]. eapply drift_tl_ok; [exact D| |exact Ht1].
  intros x Hx <-. apply Hq. unfold Q. rewrite elem_of_app. auto.
Qed.

Lemma rr_interval_ok cfg HZ st xs se : cfs_ok st xs -> se ∈ running st ++ xs ->
  runs (get_rr_interval_fair cfg HZ se) st (fun _ st' => kept st st' xs).
Proof.
  intros Hok Hq. set (Q := running st ++ xs) in *. pose proof (similar_refl _ _ Hok) as H. fold Q in H.
  eapply runs_mono with (P := fun _ st' => similar st Q xs st'); [|intros u st'; now apply similar_kept].
  unfold get_rr_interval_fair. apply runs_gets. destruct (negb _); [|now apply runs_ret].
  apply runs_bind. eapply runs_mono; [apply (sched_slice_ok cfg st Q); [apply H|apply (ac_in _ _ (sm_acct _ _ _ _ H)), Hq|now right]|].
  intros d st1 [D _]. apply runs_ret. now apply (similar_drift _ _ _ st).
Qed.

(** A task that is not runnable becomes current, as when its policy changes. *)
Lemma set_next_off_ok st xs se : cfs_ok st xs -> curr st = 0 -> is_Some (ents st !! se) -> se ∉ running st ++ xs ->
  runs (set_next_entity se) st (fun _ st' => curr st' = se /\ cfs_ok st' xs /\ running st' = []).
Proof.
  intros [Ht Ha Hc] H0 [e He] Hq. assert (running st = []) as R0 by (unfold running; now rewrite H0, (tl_ok_null _ _ Ht)).
  rewrite R0 in Ha, Hq. cbn in Ha, Hq. unfold set_next_entity. apply (runs_ent _ e); [done|].
  rewrite (acct_on_rq _ _ _ _ Ha He), bool_decide_false by done. cbn [negb]. apply runs_bind, runs_ret.
  unfold update_stats_curr_start. apply runs_bind, runs_gets, (runs_upd_ent _ e); [done|].
  match goal with |- runs _ ?s _ => set (st2 := s) end.
  assert (drift (eq se) st st2) as D2 by (split; [|done]; apply (moved_ent _ _ _ e); [done|same_ent]).
  assert (tl_ok st2 xs) as Ht2 by (eapply drift_tl_ok; [exact D2| |done]; intros x Hx <-; done).
  pose proof (moved_acct _ _ _ _ (proj1 D2) Ha) as Ha2. apply runs_bind, runs_modify. set (st3 := with_curr se st2).
  pose proof (tl_ok_curr _ _ se Ht2 : tl_ok st3 xs) as Ht3. pose proof (acct_curr _ _ se Ha2 : acct st3 _) as Ha3.
  destruct (moved_lookup _ _ _ _ _ (proj1 D2) He) as (e3 & He3 & _).
  apply (runs_upd_ent _ e3); [done|]. match goal with |- context [cfs_ok ?s] => set (st4 := s) end.
  assert (drift nobody st3 st4) as D4 by (split; [|done]; apply (moved_ent _ _ _ e3); [done|same_ent]).
  pose proof (drift_tl_ok _ _ _ _ D4 ltac:(auto) Ht3) as Ht4. pose proof (moved_acct _ _ _ _ (proj1 D4) Ha3) as Ha4.
  assert (running st4 = []) as R4 by (rewrite (acct_running _ _ _ Ht4 Ha4); change (curr st4) with se; now rewrite decide_False).
  split; [done|]. split; [|done]. apply (cfs_ok_intro _ _ _ Ht4 Ha4); [|now rewrite R4].
  right. change (curr st4) with se. split; [apply (moved_some _ _ _ _ (proj1 D4)); now exists e3|done].
Qed.

(** * The class as a whole *)

(** The calls the scheduler core makes. *)
Inductive call :=
| Enqueue (se : Z) (wakeup : bool)
| Dequeue (se : Z) (sleep : bool)
| PutPrev
| PickNext
| Tick
| Yield (now : Z)
| New (se : Z) (child_first : bool)
| CheckPreempt (p : Z) (rt fair curr_idle : bool) (wake_flags : Z)
| PrioChanged (p prio oldprio : Z) (running rt fair curr_idle : bool)
| SwitchedTo (p : Z) (running rt fair curr_idle : bool)
| SetCurr (se : Z)
| MovedGroup (se : Z)
| RrInterval (HZ se : Z)
| Clock (now : Z)       (* update_rq_clock *)
| ClearResched.         (* clear_tsk_need_resched *)

Definition perform (cfg : sched_config) (c : call) : CM unit :=
  match c with
  | Enqueue se wakeup => enqueue_task_fair cfg se wakeup
  | Dequeue se sleep => dequeue_task_fair se sleep
  | PutPrev => c ← gets curr; put_prev_task_fair c
  | PickNext => pick_next_task_fair cfg;; mret tt
  | Tick => c ← gets curr; task_tick_fair cfg c
  | Yield now => c ← gets curr; yield_task_fair cfg c now
  | New se child_first => task_new_fair cfg se child_first
  | CheckPreempt p rt fair ci flags => check_preempt_wakeup cfg p rt fair ci flags
  | PrioChanged p prio oldprio running rt fair ci => prio_changed_fair cfg p prio oldprio running rt fair ci
  | SwitchedTo p running rt fair ci => switched_to_fair cfg p running rt fair ci
  | SetCurr se => set_curr_task_fair se
  | MovedGroup se => moved_group_fair cfg se
  | RrInterval HZ se => get_rr_interval_fair cfg HZ se;; mret tt
  | Clock now => modify (with_clock now)
  | ClearResched => modify (with_resched false)
  end.

(** What the core guarantees when it calls: entities exist, the total weight
    stays below 2^32 - 1, only runnable entities are dequeued, a task is picked
    only after the previous one was put back, the tick hits a running entity, a
    task that may preempt is runnable or of another class, a task changes its
    group only while it is dequeued. *)
Definition allowed (st : cfs_rq) (xs : list Z) (c : call) : Prop :=
  let Q := running st ++ xs in
  match c with
  | Enqueue se _ => is_Some (ents st !! se) /\ (se ∈ Q \/ total st Q + wgt st se < 2 ^ 32 - 1)
  | Dequeue se _ => se ∈ Q
  | PutPrev => curr st <> 0
  | PickNext => curr st = 0
  | Tick => curr st ∈ running st
  | Yield _ => curr st <> 0
  | New se _ => is_Some (ents st !! se) /\ (se ∉ Q) /\ se <> curr st /\ total st Q + wgt st se < 2 ^ 32 - 1
  | CheckPreempt p rt fair _ _ | PrioChanged p _ _ _ rt fair _ | SwitchedTo p _ rt fair _ =>
      curr st <> 0 /\ (rt = false -> fair = true -> p ∈ Q)
  | SetCurr se => curr st = 0 /\ is_Some (ents st !! se)
  | MovedGroup se => is_Some (ents st !! se) /\ (se ∉ Q) /\ total st Q + wgt st se < 2 ^ 32 - 1
  | RrInterval HZ se => 0 < HZ <= 1000000000 /\ se ∈ Q
  | Clock _ | ClearResched => True
  end.

(** The runnable entities after a call. *)
Definition after_call (c : call) (Q : list Z) : list Z :=
  match c with
  | Enqueue se _ | New se _ => if decide (se ∈ Q) then Q else se :: Q
  | Dequeue se _ => list_del se Q
  | _ => Q
  end.

Lemma off_queue st Q se : acct st Q -> is_Some (ents st !! se) -> se ∉ Q -> exists e, ents st !! se = Some e /\ on_rq e = 0.
Proof. intros Ha [e He] Hq. exists e. split; [done|]. now rewrite (ac_on _ _ Ha _ _ He), decide_False. Qed.

Lemma running_single st xs : tl_ok st xs -> curr st ∈ running st -> running st = [curr st] /\ curr st <> 0.
Proof.
  intros Ht. unfold running. destruct (ents st !! curr st) as [e|] eqn:He; [|now intros ?%elem_of_nil].
  destruct (on_rq e =? 0); [now intros ?%elem_of_nil|]. intros _. split; [done|]. apply (tl_ok_pos _ _ _ Ht). eauto.
Qed.

Lemma kept_runnable st st' xs : kept st st' xs -> exists xs', cfs_ok st' xs' /\ running st' ++ xs' ≡ₚ running st ++ xs.
Proof. intros (Hok & _ & R). exists xs. now rewrite R. Qed.

Lemma clock_kept st xs now : cfs_ok st xs -> kept st (with_clock now st) xs.
Proof.
  intros [Ht Ha Hc]. apply kept_intro; try done; [|now apply acct_clock]. now apply (held_tl_ok _ _ _ (held_clock st now)).
Qed.

Lemma resched_kept st xs b : cfs_ok st xs -> kept st (with_resched b st) xs.
Proof.
  intros Hok. apply similar_kept; [done|]. eapply similar_held; [now apply similar_refl|apply held_resched|apply acct_resched, Hok].
Qed.

Lemma resched_runs st xs : cfs_ok st xs ->
  runs resched_task st (fun _ st' => exists xs', cfs_ok st' xs' /\ running st' ++ xs' ≡ₚ running st ++ xs).
Proof. intros Hok. apply resched_ok, kept_runnable, resched_kept, Hok. Qed.

Lemma set_curr_runs st xs se : cfs_ok st xs -> curr st = 0 -> is_Some (ents st !! se) ->
  runs (set_curr_task_fair se) st (fun _ st' => exists xs', cfs_ok st' xs' /\ running st' ++ xs' ≡ₚ running st ++ xs).
Proof.
  intros Hok H0 He. assert (running st = []) as R0 by (unfold running; now rewrite H0, (tl_ok_null _ _ (ok_tl _ _ Hok))).
  destruct (decide (se ∈ running st ++ xs)) as [Hq|Hq].
  - rewrite R0 in *. cbn in *. pose proof (ok_acct _ _ Hok) as Ha. rewrite R0 in Ha.
    eapply runs_mono; [apply (set_next_ok st xs se); [apply Hok|done|done]|].
    intros u st' (xs' & _ & Hok' & R & Hp). exists xs'. now rewrite R.
  - eapply runs_mono; [now apply (set_next_off_ok st xs se)|]. intros u st' (_ & Hok' & R). exists xs. now rewrite R, R0.
Qed.

Lemma perform_ok cfg st xs c :
  cfg_ok cfg -> cfs_ok st xs -> spread st xs -> allowed st xs c ->
  runs (perform cfg c) st (fun _ st' => exists xs', cfs_ok st' xs' /\
    running st' ++ xs' ≡ₚ after_call c (running st ++ xs)).
Proof.
  intros Hcfg Hok Hsp Hal. pose proof (ok_acct _ _ Hok) as Ha. destruct c as [se w|se sl| | | |now|se cf|p rt f ci fl|p pr op rn rt f ci|p rn rt f ci|se|se|HZ se|now|]; cbn [allowed perform after_call] in *.
  - destruct Hal as [He Hcap]. unfold enqueue_task_fair. destruct (He) as [e Hee]. apply (runs_ent _ e); [done|].
    rewrite (acct_on_rq _ _ _ _ Ha Hee). destruct (bool_decide_reflect (se ∈ running st ++ xs)) as [Hq|Hq]; cbn [negb].
    + apply runs_ret. exists xs. now rewrite decide_True.
    + destruct (off_queue _ _ _ Ha He Hq) as (e' & He' & Ho). destruct Hcap as [|Hcap]; [done|].
      eapply runs_mono; [apply (enqueue_entity_ok cfg st xs se e'); try done; now apply spread_charges|].
      intros _ st' (ys & zs & _ & _ & Hok' & Hp). rewrite decide_False by done. eauto.
  - eapply runs_mono; [now apply (dequeue_entity_ok st xs)|]. intros _ st' (xs' & _ & Hok' & Hp). exists xs'. split; [done|].
    symmetry. apply list_del_perm; [now symmetry|].
    pose proof (ac_nodup _ _ Ha) as Hd. rewrite <- Hp in Hd. now apply list.NoDup_cons in Hd as [? _].
  - apply runs_gets. eapply runs_mono; [now apply (put_prev_ok st xs)|]. intros _ st' (xs' & E & Hok' & Hp). exists xs'. split; [done|].
    unfold running at 1. now rewrite E, (tl_ok_null _ _ (ok_tl _ _ Hok')).
  - assert (running st = []) as R0 by (unfold running; now rewrite Hal, (tl_ok_null _ _ (ok_tl _ _ Hok))).
    apply runs_bind. eapply runs_mono; [now apply (pick_next_task_ok cfg st xs)|].
    intros se st' [(-> & _ & ->)|(_ & _ & _ & xs' & _ & Hok' & R & Hp)]; apply runs_ret; [now exists []|].
    exists xs'. rewrite R, R0. done.
  - apply runs_gets. destruct (running_single _ _ (ok_tl _ _ Hok) Hal) as [R H0].
    eapply runs_mono; [now apply (entity_tick_ok cfg st xs)|]. intros u st'. apply kept_runnable.
  - apply runs_gets. eapply runs_mono; [now apply (yield_ok cfg st xs now)|]. intros u st'. apply kept_runnable.
  - destruct Hal as (He & Hq & Hne & Hcap). destruct (off_queue _ _ _ Ha He Hq) as (e & Hee & Ho).
    eapply runs_mono; [now apply (task_new_ok cfg st xs se e cf)|]. intros _ st' (xs' & _ & Hok' & Hp).
    rewrite decide_False by done. eauto.
  - destruct Hal as [H0 Hp]. eapply runs_mono; [now apply (check_preempt_wakeup_ok cfg st xs)|]. intros u st'. apply kept_runnable.
  - destruct Hal as [H0 Hp]. unfold prio_changed_fair. destruct rn; [destruct (_ <? _); [apply resched_runs|apply runs_ret; eauto]; done|].
    eapply runs_mono; [now apply (check_preempt_wakeup_ok cfg st xs)|]. intros u st'. apply kept_runnable.
  - destruct Hal as [H0 Hp]. unfold switched_to_fair. destruct rn; [now apply resched_runs|].
    eapply runs_mono; [now apply (check_preempt_wakeup_ok cfg st xs)|]. intros u st'. apply kept_runnable.
  - destruct Hal as [H0 He]. now apply set_curr_runs.
  - destruct Hal as (He & Hq & Hcap). eapply runs_mono; [now apply (moved_group_ok cfg st xs)|]. intros u st'. apply kept_runnable.
  - apply runs_bind. eapply runs_mono; [apply (rr_interval_ok cfg HZ st xs); [done|apply Hal]|].
    intros u st' H. apply runs_ret. now apply (kept_runnable st).
  - apply runs_modify, kept_runnable, clock_kept, Hok.
  - apply runs_modify, kept_runnable, resched_kept, Hok.
Qed.

(** The queue that [init_cfs_rq] makes is consistent. *)
Lemma init_ok nodes es clock :
  (forall x e, es !! x = Some e -> is_addr x /\ is_Some (nodes !! x) /\ on_rq e = 0 /\ 1 <= weight (se_load e) < 2 ^ 32 - 1) ->
  cfs_ok (init_cfs_rq nodes es clock) [].
Proof.
  intros H. assert (tl_ok (init_cfs_rq nodes es clock) []) as Ht.
  { split; cbn; [|done|now intros x ?%elem_of_nil|constructor|intros x [e He]; now destruct (H x e He) as (? & ? & _)].
    destruct (holds_empty nodes) as (t & Hr & Hrb & Hi & _). now exists t. }
  assert (acct (init_cfs_rq nodes es clock) []) as Ha.
  { split; cbn; try done; auto; [constructor|now intros x ?%elem_of_nil| |intros x e He; now destruct (H x e He) as (_ & _ & _ & ?)].
    intros x e He. destruct (H x e He) as (_ & _ & ? & _). now rewrite decide_False by apply not_elem_of_nil. }
  apply (cfs_ok_intro _ _ _ Ht Ha); [now left|]. rewrite (acct_running _ _ _ Ht Ha), decide_False; [done|apply not_elem_of_nil].
Qed.

(** * Claims *)

(** C6: the run queue stays consistent.  From a consistent queue whose virtual
    runtimes lie within 2^61 ns of the floor, every call of the scheduler core
    returns (no bad pointer, no division by zero, all loops end) and leaves a
    consistent queue: the tree is a red-black tree sorted by key with
    [rb_leftmost] first, [on_rq], [nr_running], the load and the task list agree
    with the set of runnable entities, the current entity is not in the tree,
    buddies are runnable, whether the call wakes, preempts, changes priority,
    class or group; and the runnable entities are the old ones with the
    one entity the call adds or removes. *)
Theorem cfs_queue_invariant cfg st xs c :
  cfg_ok cfg -> cfs_ok st xs -> spread st xs -> allowed st xs c ->
  runs (perform cfg c) st (fun _ st' => exists xs', cfs_ok st' xs' /\
    running st' ++ xs' ≡ₚ after_call c (running st ++ xs)).
Proof. apply perform_ok. Qed.

(** C13: who runs next.  [pick_next_task_fair] on a consistent queue without a
    current entity returns NULL exactly when nothing is runnable; otherwise it
    makes an entity of the queue current and takes it out of the tree, the one
    with the smallest key when no buddy is set, and with buddies never one whose
    virtual runtime is 2^32 ns or more ahead of the leftmost. *)
Theorem cfs_pick_fair cfg st xs :
  cfg_ok cfg -> cfs_ok st xs -> curr st = 0 ->
  runs (pick_next_task_fair cfg) st (fun se st' =>
    (xs = [] /\ se = 0 /\ st' = st) \/
    (se ∈ xs /\ lead st se (first_of xs) < 2 ^ 32 /\
     (next st = 0 -> last st = 0 -> forall x, x ∈ xs -> key st se <= key st x) /\
     exists xs', curr st' = se /\ cfs_ok st' xs' /\ running st' = [se] /\ se :: xs' ≡ₚ xs)).
Proof.
  intros Hcfg Hok H0. eapply runs_mono; [now apply (pick_next_task_ok cfg st xs)|].
  intros se st' [H|(H1 & H2 & H3 & H4)]; [now left|right]. split; [done|]. split; [done|]. split; [|done].
  intros Hn Hl x Hx. rewrite (H3 Hn Hl), <- (tl_left _ _ (ok_tl _ _ Hok)).
  now destruct (leftmost_least _ _ _ (ok_tl _ _ Hok) Hx) as (_ & _ & ?).
Qed.

(** C7: the timeline refines a sorted queue.  [__enqueue_entity] puts an entity
    behind those with a key up to its own and before the others,
    [__dequeue_entity] removes it, [__pick_next_entity] and [__pick_last_entity]
    return the ends, which have the smallest and the largest key; the cached
    leftmost node is kept right.  [update_min_vruntime] moves the floor only
    forward and never past an entity that is ahead of it, so that the order of
    the keys stays. *)
Theorem cfs_timeline_refines st xs :
  tl_ok st xs ->
  (forall se, is_Some (ents st !! se) -> se ∉ xs ->
     runs (__enqueue_entity se) st (fun _ st' => exists ys zs, xs = ys ++ zs /\ tl_ok st' (ys ++ se :: zs) /\
       (forall y, y ∈ ys -> key st y <= key st se) /\ (forall z, z ∈ zs -> key st se < key st z) /\ same_queue st st')) /\
  (forall ys se zs, xs = ys ++ se :: zs ->
     runs (__dequeue_entity se) st (fun _ st' => tl_ok st' (ys ++ zs) /\ same_queue st st')) /\
  __pick_next_entity st = Ok (first_of xs, st) /\ __pick_last_entity st = Ok (last_of xs, st) /\
  (forall x, x ∈ xs -> key st (first_of xs) <= key st x <= key st (last_of xs)) /\
  (curr_ok st xs -> (forall y, ahead st xs y -> near (2 ^ 62) st y) ->
     update_min_vruntime st = Ok (tt, with_min (new_min st) st) /\ tl_ok (with_min (new_min st) st) xs /\
     let d := s64 (new_min st - min_vruntime_ st) in
     0 <= d /\ forall x, ahead st xs x -> key (with_min (new_min st) st) x = key st x - d /\ (0 < d -> d <= key st x)).
Proof.
  intros Ht. split; [intros; now apply enqueue_spec|]. split; [intros ys se zs ->; now apply dequeue_spec|].
  split.
  { unfold __pick_next_entity, mbind, ST_bind, gets, mret, ST_ret. rewrite (tl_left _ _ Ht).
    destruct (Z.eqb_spec (first_of xs) 0) as [->|]; done. }
  split; [now apply pick_last_eq|]. split.
  { intros x Hx. destruct (leftmost_least _ _ _ Ht Hx) as (_ & _ & Hle). rewrite (tl_left _ _ Ht) in Hle. split; [done|].
    now apply (sorted_last _ xs (tl_sorted _ _ Ht)). }
  intros Hc Hn. pose proof (curr_ok_some _ _ Hc) as Hc'. split; [now apply (update_min_eq st xs)|]. split; [now apply tl_ok_min|].
  destruct (new_min_bound st xs Ht Hc' Hn) as (H0 & _ & H2). split; [done|].
  intros x Hx. split; [now apply (new_min_keys st xs)|auto].
Qed.

(** ** Witnesses: the entities 16 and 32 wait, 48 sleeps. *)

Definition sample_entity (on v : Z) : sched_entity := Entity (LoadWeight 1024 4194304) on 0 0 v 0 0 0 0 0.
Definition sample_ents : list (Z * sched_entity) :=
  [(16, sample_entity 1 100); (32, sample_entity 1 200); (48, sample_entity 0 150)].
Definition sample_timeline : tree := T Black E 16 (T Red E 32 E).
Definition sample_queue : cfs_rq :=
  CfsRq (LoadWeight 2048 0) 2 50 (Store (list_to_map (cells 0 sample_timeline ++ [(48, RbNode 0 0 0)])) 16) 16
    [32; 16] 0 0 0 (list_to_map sample_ents) 1000 (LoadWeight 2048 0) false.

Lemma sample_lookup x e : ents sample_queue !! x = Some e -> (x, e) ∈ sample_ents.
Proof. apply elem_of_list_to_map_2. Qed.

(** A property of the three entities is checked on each of them. *)
Lemma sample_all (P : Z -> sched_entity -> bool) :
  forallb (fun '(x, e) => P x e) sample_ents = true -> forall x e, ents sample_queue !! x = Some e -> P x e = true.
Proof.
  intros H x e He%sample_lookup. rewrite forallb_forall in H. apply list_elem_of_In in He. exact (H (x, e) He).
Qed.

Lemma sample_tl_ok : tl_ok sample_queue [16; 32].
Proof.
  split.
  - exists sample_timeline. split; [apply reprb_repr; vm_compute; reflexivity|]. split; [|done].
    exists 1%nat. repeat econstructor.
  - done.
  - intros x Hx. rewrite !elem_of_cons, elem_of_nil in Hx. destruct Hx as [-> |[-> |[]]]; eexists; vm_compute; reflexivity.
  - repeat constructor; vm_compute; discriminate.
  - intros x [e He].
    assert (bool_decide (is_addr x /\ is_Some (mem (timeline sample_queue) !! x)) = true) as H.
    { revert x e He. apply sample_all. vm_compute. reflexivity. }
    now apply bool_decide_eq_true in H.
Qed.

Lemma sample_ok : cfs_ok sample_queue [16; 32].
Proof.
  apply (cfs_ok_intro _ _ [16; 32]); [apply sample_tl_ok| |now left|reflexivity].
  split.
  - apply (bool_decide_eq_true (NoDup [16; 32])). vm_compute. reflexivity.
  - apply (tl_in _ _ sample_tl_ok).
  - intros x e He. assert (bool_decide (on_rq e = if decide (x ∈ [16; 32]) then 1 else 0) = true) as H.
    { revert x e He. apply (sample_all (fun x e => bool_decide (on_rq e = if decide (x ∈ [16; 32]) then 1 else 0))). vm_compute. reflexivity. }
    now apply bool_decide_eq_true in H.
  - intros x e He. assert (bool_decide (1 <= weight (se_load e) < 2 ^ 32 - 1) = true) as H.
    { revert x e He. apply (sample_all (fun _ e => bool_decide (1 <= weight (se_load e) < 2 ^ 32 - 1))). vm_compute. reflexivity. }
    now apply bool_decide_eq_true in H.
  - reflexivity.
  - vm_compute. reflexivity.
  - vm_compute. reflexivity.
  - apply Permutation_swap.
  - now left.
  - now left.
Qed.

Lemma sample_spread : spread sample_queue [16; 32].
Proof.
  intros y [Hy|[_ Hc]]; [|done]. rewrite !elem_of_cons, elem_of_nil in Hy.
  destruct Hy as [-> |[-> |[]]]; split; vm_compute; try reflexivity; discriminate.
Qed.

Lemma cfs_queue_invariant_witness :
  runs (perform default_config (Enqueue 48 true)) sample_queue (fun _ st' => exists xs', cfs_ok st' xs' /\
    running st' ++ xs' ≡ₚ [48; 16; 32]).
Proof.
  apply (cfs_queue_invariant default_config sample_queue [16; 32] (Enqueue 48 true)); [|apply sample_ok|apply sample_spread|].
  - split; vm_compute; [discriminate|reflexivity].
  - split; [eexists; vm_compute; reflexivity|]. right. vm_compute. reflexivity.
Defined.

Lemma cfs_pick_fair_witness :
  runs (pick_next_task_fair default_config) sample_queue (fun se st' => forall x, x ∈ [16; 32] -> key sample_queue se <= key sample_queue x).
Proof.
  eapply runs_mono; [apply (cfs_pick_fair default_config sample_queue [16; 32]); [|apply sample_ok|reflexivity]|].
  - split; vm_compute; [discriminate|reflexivity].
  - intros se st' [(H & _)|(_ & _ & H & _)]; [discriminate|]. apply H; reflexivity.
Defined.

Lemma cfs_timeline_refines_witness :
  __pick_next_entity sample_queue = Ok (16, sample_queue) /\
  runs (__dequeue_entity 16) sample_queue (fun _ st' => tl_ok st' [32] /\ same_queue sample_queue st').
Proof.
  destruct (cfs_timeline_refines sample_queue [16; 32] sample_tl_ok) as (_ & H1 & H2 & _).
  split; [exact H2|exact (H1 [] 16 [32] eq_refl)].
Defined.
