(* ===== verification/CfsLoad.v ===== *)
(** Task weights (kernel/sched.c): the nice table, its inverses, and the
    accuracy of the fixed-point division that uses them. *)

From S2P Require Import Prelude.
From S2P Require Import State RbTree Cfs.

Definition prio_to_weight : list Z :=
  [88761; 71755; 56483; 46273; 36291; 29154; 23254; 18705; 14949; 11916;
   9548; 7620; 6100; 4904; 3906; 3121; 2501; 1991; 1586; 1277;
   1024; 820; 655; 526; 423; 335; 272; 215; 172; 137;
   110; 87; 70; 56; 45; 36; 29; 23; 18; 15].

Definition prio_to_wmult : list Z :=
  [48388; 59856; 76040; 92818; 118348; 147320; 184698; 229616; 287308; 360437;
   449829; 563644; 704093; 875809; 1099582; 1376151; 1717300; 2157191; 2708050; 3363326;
   4194304; 5237765; 6557202; 8165337; 10153587; 12820798; 15790321; 19976592; 24970740; 31350126;
   39045157; 49367440; 61356676; 76695844; 95443717; 119304647; 148102320; 186737708; 238609294; 286331153].

Definition WEIGHT_IDLEPRIO : Z := 3.
Definition WMULT_IDLEPRIO : Z := 1431655765.
Definition MAX_RT_PRIO : Z := 100.

(** [rt] says that the task has a real-time policy. *)
Definition set_load_weight (rt : bool) (policy_ static_prio : Z) : res load_weight :=
  if rt then
    w ← rd prio_to_weight 0;
    m ← rd prio_to_wmult 0;
    Ok (LoadWeight (u32 (w * 2)) (Z.shiftr m 1))
  else if policy_ =? SCHED_IDLE then Ok (LoadWeight WEIGHT_IDLEPRIO WMULT_IDLEPRIO)
  else
    w ← rd prio_to_weight (static_prio - MAX_RT_PRIO);
    m ← rd prio_to_wmult (static_prio - MAX_RT_PRIO);
    Ok (LoadWeight w m).

(** The inverse of a weight, rounded down or up. *)
Definition inverse_ok (lw : load_weight) : Prop :=
  3 <= weight lw <= 2 * 88761 /\ 0 < inv_weight lw <= 1431655765 /\
  Z.abs (inv_weight lw * weight lw - 2 ^ 32) < weight lw.

Lemma SRR_bound x y : 0 <= x < 2 ^ 63 -> 0 < y <= 32 ->
  0 <= SRR x y /\ x - 2 ^ (y - 1) <= SRR x y * 2 ^ y <= x + 2 ^ (y - 1).
Proof.
  intros Hx Hy. unfold SRR. rewrite Z.shiftl_1_l, Z.shiftr_div_pow2 by lia.
  assert (2 ^ y = 2 * 2 ^ (y - 1)) as Hp by (rewrite <- Z.pow_succ_r by lia; f_equal; lia).
  assert (0 < 2 ^ (y - 1) <= 2 ^ 31) as Hb by (split; [lia|apply Z.pow_le_mono_r; lia]).
  rewrite u64_id by (unfold is_u64; lia).
  pose proof (Z.div_mod (x + 2 ^ (y - 1)) (2 ^ y) ltac:(lia)) as Hd.
  pose proof (Z.mod_pos_bound (x + 2 ^ (y - 1)) (2 ^ y) ltac:(lia)) as Hm.
  split; [apply Z.div_pos; lia|nia].
Qed.

Lemma WMULT_CONST_eq : WMULT_CONST = 2 ^ 32 - 1.
Proof. reflexivity. Qed.

Lemma mul_bound a b w : Z.abs a <= b -> 0 <= w -> - (b * w) <= a * w <= b * w.
Proof. intros. nia. Qed.

(** One multiplication: the quotient is off by at most one and a half. *)
Lemma delta_small tmp lw : inverse_ok lw -> 0 <= tmp < 2 ^ 32 ->
  let r := SRR (u64 (tmp * inv_weight lw)) WMULT_SHIFT in
  0 <= r /\ 2 * Z.abs (r * weight lw - tmp) <= 3 * weight lw.
Proof.
  intros (Hw & Hi & Hinv) Ht r. unfold r, WMULT_SHIFT.
  set (w := weight lw) in *. set (v := inv_weight lw) in *.
  assert (0 <= tmp * v) by (apply Z.mul_nonneg_nonneg; lia).
  assert (tmp * v <= 2 ^ 32 * 1431655765) by (apply Z.mul_le_mono_nonneg; lia).
  rewrite u64_id by (unfold is_u64; lia).
  destruct (SRR_bound (tmp * v) 32 ltac:(lia) ltac:(lia)) as [Hr0 Hr]. set (q := SRR (tmp * v) 32) in *.
  split; [done|]. change (32 - 1) with 31 in Hr. clearbody q w v.
  pose proof (mul_bound (q * 2 ^ 32 - tmp * v) (2 ^ 31) w ltac:(lia) ltac:(lia)) as B1.
  pose proof (mul_bound (v * w - 2 ^ 32) w tmp ltac:(lia) ltac:(lia)) as B2.
  pose proof (Z.mul_le_mono_nonneg_l tmp (2 ^ 32) w ltac:(lia) ltac:(lia)) as B3.
  lia.
Qed.

(** Two multiplications for large products: an error of 2^15 in the product and
    of less than a unit in the inverse. *)
Lemma delta_large tmp lw : inverse_ok lw -> 0 <= tmp < 2 ^ 42 ->
  let r := SRR (u64 (SRR tmp (WMULT_SHIFT / 2) * inv_weight lw)) (WMULT_SHIFT / 2) in
  0 <= r /\ Z.abs (r * weight lw - tmp) * 2 ^ 32 <= (2 ^ 16 + 2 * weight lw) * 2 ^ 32 + tmp * weight lw.
Proof.
  intros (Hw & Hi & Hinv) Ht r. unfold r, WMULT_SHIFT. change (32 / 2) with 16.
  set (w := weight lw) in *. set (v := inv_weight lw) in *.
  destruct (SRR_bound tmp 16 ltac:(lia) ltac:(lia)) as [Ha0 Ha]. set (a := SRR tmp 16) in *. change (16 - 1) with 15 in Ha.
  assert (a <= 2 ^ 26) by lia. assert (0 <= a * v) by (apply Z.mul_nonneg_nonneg; lia).
  assert (a * v <= 2 ^ 26 * 1431655765) by (apply Z.mul_le_mono_nonneg; lia).
  rewrite u64_id by (unfold is_u64; lia).
  destruct (SRR_bound (a * v) 16 ltac:(lia) ltac:(lia)) as [Hq0 Hq]. set (q := SRR (a * v) 16) in *. change (16 - 1) with 15 in Hq.
  split; [done|]. clearbody a q w v.
  pose proof (mul_bound (q * 2 ^ 16 - a * v) (2 ^ 15) w ltac:(lia) ltac:(lia)) as B1.
  pose proof (mul_bound (v * w - 2 ^ 32) w a ltac:(lia) ltac:(lia)) as B2.
  pose proof (mul_bound (a * 2 ^ 16 - tmp) (2 ^ 15) w ltac:(lia) ltac:(lia)) as B3.
  lia.
Qed.

Definition inverse_okb (lw : load_weight) : bool :=
  (3 <=? weight lw) && (weight lw <=? 2 * 88761) && (0 <? inv_weight lw) && (inv_weight lw <=? 1431655765) &&
  (Z.abs (inv_weight lw * weight lw - 2 ^ 32) <? weight lw).

Lemma inverse_okb_ok lw : inverse_okb lw = true -> inverse_ok lw.
Proof.
  unfold inverse_okb, inverse_ok. intros H. repeat (apply andb_true_iff in H as [H ?]).
  repeat match goal with H : (_ <=? _) = true |- _ => apply Z.leb_le in H | H : (_ <? _) = true |- _ => apply Z.ltb_lt in H end. lia.
Qed.

(** Every index of a table, by evaluation. *)
Lemma forall_below n (P : Z -> bool) : forallb (fun i => P (Z.of_nat i)) (seq 0 n) = true ->
  forall i, 0 <= i < Z.of_nat n -> P i = true.
Proof.
  intros H i Hi. rewrite forallb_forall in H. specialize (H (Z.to_nat i)). rewrite Z2Nat.id in H by lia.
  apply H, in_seq. lia.
Qed.

Definition weight_ok (prio : Z) : bool :=
  match set_load_weight false 0 prio with Ok lw => inverse_okb lw | Err _ => false end.

Lemma set_load_weight_ok rt pol prio : rt = true \/ pol = SCHED_IDLE \/ MAX_RT_PRIO <= prio < MAX_RT_PRIO + 40 ->
  exists lw, set_load_weight rt pol prio = Ok lw /\ inverse_ok lw.
Proof.
  intros H. unfold set_load_weight. destruct rt; [eexists; split; [reflexivity|apply inverse_okb_ok; vm_compute; reflexivity]|].
  destruct (Z.eqb_spec pol SCHED_IDLE); [eexists; split; [reflexivity|apply inverse_okb_ok; vm_compute; reflexivity]|].
  destruct H as [|[|H]]; [done|done|].
  pose proof (forall_below 40 (fun i => weight_ok (i + MAX_RT_PRIO)) ltac:(vm_compute; reflexivity) (prio - MAX_RT_PRIO) ltac:(lia)) as Hok.
  cbv beta in Hok. replace (prio - MAX_RT_PRIO + MAX_RT_PRIO) with prio in Hok by lia.
  unfold weight_ok, set_load_weight in Hok. change (0 =? SCHED_IDLE) with false in Hok. cbv iota in Hok.
  destruct (_ ≫= _) as [lw|]; [|done]. exists lw. split; [done|]. now apply inverse_okb_ok.
Qed.

Lemma calc_delta_accurate delta lw : inverse_ok lw -> is_u32 delta ->
  exists r, calc_delta_mine delta NICE_0_LOAD lw = Ok (r, lw) /\ 0 <= r <= LONG_MAX /\
    (delta * NICE_0_LOAD < 2 ^ 32 -> 2 * Z.abs (r * weight lw - delta * NICE_0_LOAD) <= 3 * weight lw) /\
    (r < LONG_MAX -> Z.abs (r * weight lw - delta * NICE_0_LOAD) * 2 ^ 32 <=
       (2 ^ 16 + 2 * weight lw) * 2 ^ 32 + delta * NICE_0_LOAD * weight lw).
Proof.
  intros Hok Hd. pose proof Hok as (Hw & Hi & _). unfold calc_delta_mine, is_u32 in *.
  destruct (Z.eqb_spec (inv_weight lw) 0); [lia|]. rewrite bind_ok. change NICE_0_LOAD with 1024.
  rewrite (u64_id (delta * 1024)) by (unfold is_u64; lia). rewrite WMULT_CONST_eq. cbv zeta.
  assert (forall r0, 0 <= r0 -> 0 <= u32 (Z.min r0 LONG_MAX) <= LONG_MAX /\ u32 (Z.min r0 LONG_MAX) = Z.min r0 LONG_MAX) as Hmin.
  { intros r0 H0. unfold LONG_MAX in *. rewrite u32_id by (unfold is_u32; lia). lia. }
  destruct (Z.ltb_spec (2 ^ 32 - 1) (delta * 1024)).
  - destruct (delta_large (delta * 1024) lw Hok ltac:(lia)) as [H0 H1]. cbv zeta in *.
    destruct (Hmin _ H0) as [Hr He]. eexists. split; [reflexivity|]. split; [done|]. split; [lia|].
    rewrite He. intros Hlt. rewrite Z.min_l by lia. done.
  - destruct (delta_small (delta * 1024) lw Hok ltac:(lia)) as [H0 H1]. cbv zeta in *.
    destruct (Hmin _ H0) as [Hr He]. eexists. split; [reflexivity|]. split; [done|].
    set (r0 := SRR _ _) in *. assert (r0 <= LONG_MAX) by (unfold LONG_MAX in *; nia).
    rewrite He, Z.min_l by lia. split; [done|]. intros _.
    assert (0 <= delta * 1024 * weight lw) by (apply Z.mul_nonneg_nonneg; lia). lia.
Qed.

(** * Claim *)

(** C39: [set_load_weight] gives every nice level, SCHED_IDLE and real-time tasks
    a weight together with 2^32 divided by it, rounded down or up; one nice level
    changes the weight by a factor between 1.2 and 1.28.  With such an inverse
    [calc_delta_mine] never overflows 64 bits and computes delta * 1024 / weight
    to one and a half units while delta * 1024 < 2^32, and up to a relative
    error of weight / 2^32 and an absolute one of 2^16 / weight + 2 beyond,
    until it saturates at LONG_MAX.  Without a cached inverse it divides by
    weight + 1: the lone task of weight 15 gets 15/16 of its period. *)
Theorem sched_weights_correct :
  (forall rt pol prio, rt = true \/ pol = SCHED_IDLE \/ MAX_RT_PRIO <= prio < MAX_RT_PRIO + 40 ->
     exists lw, set_load_weight rt pol prio = Ok lw /\ inverse_ok lw) /\
  (forall i, 0 <= i < 39 ->
     120 * at_ 0 prio_to_weight (i + 1) <= 100 * at_ 0 prio_to_weight i <= 128 * at_ 0 prio_to_weight (i + 1)) /\
  (forall delta lw, inverse_ok lw -> is_u32 delta ->
     exists r, calc_delta_mine delta NICE_0_LOAD lw = Ok (r, lw) /\ 0 <= r <= LONG_MAX /\
       (delta * NICE_0_LOAD < 2 ^ 32 -> 2 * Z.abs (r * weight lw - delta * NICE_0_LOAD) <= 3 * weight lw) /\
       (r < LONG_MAX -> Z.abs (r * weight lw - delta * NICE_0_LOAD) * 2 ^ 32 <=
          (2 ^ 16 + 2 * weight lw) * 2 ^ 32 + delta * NICE_0_LOAD * weight lw)) /\
  calc_delta_mine 5000000 15 (LoadWeight 15 0) = Ok (4687500, LoadWeight 15 (2 ^ 32 / 16)).
Proof.
  split; [apply set_load_weight_ok|]. split; [|split; [apply calc_delta_accurate|vm_compute; reflexivity]].
  intros i Hi.
  pose proof (forall_below 39 (fun i => (120 * at_ 0 prio_to_weight (i + 1) <=? 100 * at_ 0 prio_to_weight i) &&
    (100 * at_ 0 prio_to_weight i <=? 128 * at_ 0 prio_to_weight (i + 1))) ltac:(vm_compute; reflexivity) i Hi) as H.
  apply andb_true_iff in H as [?%Z.leb_le ?%Z.leb_le]. lia.
Qed.

Lemma sched_weights_correct_witness :
  exists r, calc_delta_mine 1000000 NICE_0_LOAD (LoadWeight 820 5237765) = Ok (r, LoadWeight 820 5237765) /\
    2 * Z.abs (r * 820 - 1000000 * 1024) <= 3 * 820.
Proof.
  destruct (proj1 (proj2 (proj2 sched_weights_correct)) 1000000 (LoadWeight 820 5237765)) as (r & H1 & _ & H2 & _).
  - apply inverse_okb_ok. vm_compute. reflexivity.
  - split; vm_compute; [discriminate|reflexivity].
  - exists r. split; [exact H1|]. apply H2. vm_compute. reflexivity.
Defined.
