(* ===== verification/WaitQueue.v ===== *)
(** Queues of waiters named by increasing numbers, shared by the two kinds of
    semaphores. *)
From stdpp Require Import sets sorting.
From S2P Require Import Prelude.

(** An entry added at the tail is newer than all others. *)
Lemma sorted_snoc n (l : list nat) : StronglySorted lt l -> (forall x, x ∈ l -> (x < n)%nat) -> StronglySorted lt (l ++ [n]).
Proof.
  induction 1 as [|x l Hs IH Hx]; intros Hn; [repeat constructor|]. cbn. constructor.
  - apply IH. intros y Hy. apply Hn. now apply list_elem_of_further.
  - apply Forall_app. split; [done|]. constructor; [|constructor]. apply Hn. apply list_elem_of_here.
Qed.

(** Taking entries off the front. *)
Lemma sorted_app_inv (l1 l2 : list nat) : StronglySorted lt (l1 ++ l2) -> StronglySorted lt l2 /\ (forall x, x ∈ l1 -> x ∉ l2) /\ NoDup l1.
Proof.
  induction l1 as [|y l1 IH]; cbn [app]; intros H; [split; [done|]; split; [set_solver|constructor]|]. apply StronglySorted_inv in H as [H Hy]. destruct (IH H) as (H2 & Hd & Hn).
  rewrite List.Forall_forall in Hy. assert (Hy' : forall x, x ∈ l1 ++ l2 -> (y < x)%nat) by (intros x Hx; apply Hy, list_elem_of_In, Hx).
  split; [done|]. split.
  - intros x Hx Hx2. apply elem_of_cons in Hx as [->|Hx]; [|now apply (Hd x)]. assert (y < y)%nat by (apply Hy', elem_of_app; auto). lia.
  - constructor; [|done]. intros Hx. assert (y < y)%nat by (apply Hy', elem_of_app; auto). lia.
Qed.

Lemma sorted_head_notin w l : StronglySorted lt (w :: l) -> w ∉ l.
Proof.
  intros H Hin. apply StronglySorted_inv in H as [_ H]. rewrite List.Forall_forall in H.
  apply list_elem_of_In in Hin. specialize (H w Hin). lia.
Qed.
