(* ===== verification/Semaphore.v ===== *)
(** kernel/semaphore.c: counting semaphores.  The spinlock makes every stretch
    of code between taking and releasing it one atomic step; a call of down
    that has to wait is a first step that queues it and one step per wake-up.
    A step relation interleaves any number of calls, ups, signals and time-outs;
    conservation of the count, no missed wake-ups, FIFO service and the error
    returns are proved for all its runs. *)
From stdpp Require Import gmap sets sorting relations.
From S2P Require Import Prelude.
From S2P Require Import WaitQueue.

(** * Operations *)

Definition TASK_INTERRUPTIBLE : Z := 1.
Definition TASK_UNINTERRUPTIBLE : Z := 2.
Definition TASK_WAKEKILL : Z := 128.
Definition TASK_KILLABLE : Z := Z.lor TASK_WAKEKILL TASK_UNINTERRUPTIBLE.
Definition MAX_SCHEDULE_TIMEOUT : Z := 2 ^ 31 - 1.
Definition EINTR : Z := 4.
Definition ETIME : Z := 62.

(** The signals of a task: [signal_pending] and [__fatal_signal_pending]. *)
Record signals := Signals { pending : bool; fatal : bool }.

Definition signal_pending_state (state : Z) (p : signals) : bool :=
  if Z.land state (Z.lor TASK_INTERRUPTIBLE TASK_WAKEKILL) =? 0 then false
  else if negb (pending p) then false
  else negb (Z.land state TASK_INTERRUPTIBLE =? 0) || fatal p.

(** [schedule_timeout] of kernel/timer.c: the task sleeps from jiffy [before]
    to jiffy [after]. *)
Definition schedule_timeout (timeout before after : Z) : Z :=
  if timeout =? MAX_SCHEDULE_TIMEOUT then MAX_SCHEDULE_TIMEOUT
  else if timeout <? 0 then 0
  else let t := s32 (u32 (u32 (timeout + before) - after)) in if t <? 0 then 0 else t.

(** [wait_list] holds the waiters, oldest first, each named by a number. *)
Record semaphore := Sem { count : Z; wait_list : list nat }.

(** What a stretch of a down call ends with. *)
Inductive outcome := Return (result : Z) | Sleep (timeout : Z).

Definition list_add_tail (w : nat) (l : list nat) : list nat := l ++ [w].
Definition list_del (w : nat) (l : list nat) : list nat := filter (fun x => x <> w) l.

(** The head of the loop of [__down_common]. *)
Definition down_loop (sem : semaphore) (w : nat) (state timeout : Z) (p : signals) : semaphore * outcome :=
  if signal_pending_state state p then (Sem (count sem) (list_del w (wait_list sem)), Return (- EINTR))
  else if timeout <=? 0 then (Sem (count sem) (list_del w (wait_list sem)), Return (- ETIME))
  else (sem, Sleep timeout).

Definition __down_common (sem : semaphore) (w : nat) (state timeout : Z) (p : signals) : semaphore * outcome :=
  down_loop (Sem (count sem) (list_add_tail w (wait_list sem))) w state timeout p.

(** The rest of a turn, after [schedule_timeout] returned and the lock was
    taken again; [up] is the waiter's flag. *)
Definition __down_woken (sem : semaphore) (w : nat) (up : bool) (state timeout : Z) (p : signals) : semaphore * outcome :=
  if up then (sem, Return 0) else down_loop sem w state timeout p.

Definition __down (sem : semaphore) (w : nat) (p : signals) := __down_common sem w TASK_UNINTERRUPTIBLE MAX_SCHEDULE_TIMEOUT p.
Definition __down_interruptible (sem : semaphore) (w : nat) (p : signals) := __down_common sem w TASK_INTERRUPTIBLE MAX_SCHEDULE_TIMEOUT p.
Definition __down_killable (sem : semaphore) (w : nat) (p : signals) := __down_common sem w TASK_KILLABLE MAX_SCHEDULE_TIMEOUT p.
Definition __down_timeout (sem : semaphore) (w : nat) (jiffies : Z) (p : signals) := __down_common sem w TASK_UNINTERRUPTIBLE jiffies p.

Definition down (sem : semaphore) (w : nat) (p : signals) : semaphore * outcome :=
  if 0 <? count sem then (Sem (u32 (count sem - 1)) (wait_list sem), Return 0) else __down sem w p.
Definition down_interruptible (sem : semaphore) (w : nat) (p : signals) : semaphore * outcome :=
  if 0 <? count sem then (Sem (u32 (count sem - 1)) (wait_list sem), Return 0) else __down_interruptible sem w p.
Definition down_killable (sem : semaphore) (w : nat) (p : signals) : semaphore * outcome :=
  if 0 <? count sem then (Sem (u32 (count sem - 1)) (wait_list sem), Return 0) else __down_killable sem w p.
Definition down_timeout (sem : semaphore) (w : nat) (jiffies : Z) (p : signals) : semaphore * outcome :=
  if 0 <? count sem then (Sem (u32 (count sem - 1)) (wait_list sem), Return 0) else __down_timeout sem w jiffies p.

Definition down_trylock (sem : semaphore) : semaphore * Z :=
  let c := s32 (u32 (count sem - 1)) in
  ((if 0 <=? c then Sem (u32 c) (wait_list sem) else sem), (if c <? 0 then 1 else 0)).

(** The first waiter is unlinked and its flag set. *)
Definition __up (sem : semaphore) : semaphore * option nat :=
  match wait_list sem with
  | [] => (sem, None)
  | w :: l => (Sem (count sem) (list_del w (w :: l)), Some w)
  end.

Definition up (sem : semaphore) : semaphore * option nat :=
  match wait_list sem with
  | [] => (Sem (u32 (count sem + 1)) [], None)
  | _ => __up sem
  end.

Definition sema_init (val : Z) : semaphore := Sem (u32 val) [].

(** * The system *)

(** The four ways to wait. *)
Inductive mode := Uninterruptible | Interruptible | Killable | Timeout (jiffies : Z).

Definition down_call (k : mode) (sem : semaphore) (w : nat) (p : signals) : semaphore * outcome :=
  match k with
  | Uninterruptible => down sem w p
  | Interruptible => down_interruptible sem w p
  | Killable => down_killable sem w p
  | Timeout j => down_timeout sem w j p
  end.
Definition task_state (k : mode) : Z :=
  match k with Interruptible => TASK_INTERRUPTIBLE | Killable => TASK_KILLABLE | _ => TASK_UNINTERRUPTIBLE end.

(** Calls are numbered as they start.  [asleep]: the calls that wait, with the
    time-out they passed to [schedule_timeout]; [up_set]: those whose flag is
    set; [won] and [lost]: the calls that returned; [ups]: the calls of up. *)
Record sys := Sys {
  sem : semaphore; asleep : gmap nat (mode * Z); up_set : gset nat;
  won : list nat; lost : list (nat * Z); ups : nat; next : nat
}.

Definition init (val : Z) : sys := Sys (sema_init val) ∅ ∅ [] [] 0 0.

(** Recording the outcome of a stretch of call [w]. *)
Definition settle (s : sys) (sem' : semaphore) (w : nat) (k : mode) (o : outcome) (n : nat) : sys :=
  match o with
  | Sleep t => Sys sem' (<[w := (k, t)]> (asleep s)) (up_set s) (won s) (lost s) (ups s) n
  | Return r => if r =? 0
      then Sys sem' (delete w (asleep s)) (up_set s ∖ {[w]}) (w :: won s) (lost s) (ups s) n
      else Sys sem' (delete w (asleep s)) (up_set s ∖ {[w]}) (won s) ((w, r) :: lost s) (ups s) n
  end.

Inductive step (s : sys) : sys -> Prop :=
| step_down k p sem' o : down_call k (sem s) (next s) p = (sem', o) -> step s (settle s sem' (next s) k o (S (next s)))
| step_wake w k t before after p sem' o : asleep s !! w = Some (k, t) ->
    __down_woken (sem s) w (bool_decide (w ∈ up_set s)) (task_state k) (schedule_timeout t before after) p = (sem', o) ->
    step s (settle s sem' w k o (next s))
| step_trylock sem' r : down_trylock (sem s) = (sem', r) ->
    step s (if r =? 0 then Sys sem' (asleep s) (up_set s) (next s :: won s) (lost s) (ups s) (S (next s))
            else Sys sem' (asleep s) (up_set s) (won s) ((next s, r) :: lost s) (ups s) (S (next s)))
| step_up sem' x : up (sem s) = (sem', x) ->
    step s (Sys sem' (asleep s) (match x with Some w => {[w]} ∪ up_set s | None => up_set s end)
      (won s) (lost s) (S (ups s)) (next s)).

(** * Lists of waiters *)

Lemma list_del_notin w l : w ∉ l -> list_del w l = l.
Proof.
  unfold list_del. induction l as [|x l IH]; intros Hw; [done|]. apply not_elem_of_cons in Hw as [Hx Hw].
  rewrite filter_cons_True by congruence. now rewrite IH.
Qed.

Lemma list_del_tail w l : w ∉ l -> list_del w (list_add_tail w l) = l.
Proof.
  intros Hw. unfold list_del, list_add_tail. rewrite list.filter_app. fold (list_del w l). rewrite list_del_notin by done.
  rewrite filter_cons_False by (intros H; now apply H). apply app_nil_r.
Qed.

Lemma list_del_head w l : w ∉ l -> list_del w (w :: l) = l.
Proof. intros Hw. unfold list_del. rewrite filter_cons_False by (intros H; now apply H). now apply list_del_notin. Qed.

Lemma elem_of_list_del w x l : x ∈ list_del w l <-> x ∈ l /\ x <> w.
Proof. unfold list_del. rewrite list_elem_of_filter. tauto. Qed.

Lemma list_del_sorted w l : StronglySorted lt l -> StronglySorted lt (list_del w l).
Proof.
  unfold list_del. induction 1 as [|x l Hs IH Hx]; [constructor|]. rewrite filter_cons. destruct (decide (x <> w)); [|done].
  constructor; [done|]. rewrite List.Forall_forall in Hx |- *. intros y Hy. apply Hx. apply list_elem_of_In. apply list_elem_of_In in Hy.
  now apply list_elem_of_filter in Hy as [_ ?].
Qed.

(** Deleting an entry moves the others only towards the front. *)
Lemma list_del_index x w l i : l !! i = Some w -> w <> x -> exists j, list_del x l !! j = Some w /\ (j <= i)%nat.
Proof.
  unfold list_del. revert i. induction l as [|y l IH]; intros i Hi Hne; [done|]. rewrite filter_cons. destruct i as [|i].
  - cbn in Hi. injection Hi as ->. exists 0%nat. destruct (decide (w <> x)); [done|exfalso; auto].
  - cbn in Hi. destruct (IH i Hi Hne) as (j & Hj & Hle). destruct (decide (y <> x)).
    + exists (S j). split; [done|lia].
    + exists j. split; [done|lia].
Qed.

(** * The invariant *)

Record inv (v : Z) (s : sys) : Prop := {
  i_count : count (sem s) + zlen (won s) + Z.of_nat (size (up_set s)) = v + Z.of_nat (ups s);
  i_nonneg : 0 <= count (sem s);
  i_avail : 0 < count (sem s) -> wait_list (sem s) = [];
  i_sorted : StronglySorted lt (wait_list (sem s));
  i_fresh : forall w, is_Some (asleep s !! w) -> (w < next s)%nat;
  i_dom : forall w, is_Some (asleep s !! w) <-> (w ∈ wait_list (sem s)) \/ (w ∈ up_set s);
  i_disj : forall w, w ∈ wait_list (sem s) -> w ∉ up_set s;
  i_mode : forall w k t, asleep s !! w = Some (k, t) -> 0 < t /\ ((forall j, k <> Timeout j) -> t = MAX_SCHEDULE_TIMEOUT)
}.

Lemma inv_next v s : inv v s -> (next s ∉ wait_list (sem s)) /\ (next s ∉ up_set s) /\ asleep s !! next s = None.
Proof.
  intros H. assert (Hn : asleep s !! next s = None).
  { destruct (asleep s !! next s) eqn:E; [|done]. pose proof (i_fresh v s H (next s) ltac:(eauto)). lia. }
  split; [|split; [|done]]; intros Hin; assert (is_Some (asleep s !! next s)) as [x Hx] by (apply (i_dom v s H); auto); congruence.
Qed.

(** The three outcomes of the loop head, for a call on the list. *)
Lemma down_loop_cases sm w st t p sem' o : down_loop sm w st t p = (sem', o) ->
  (sem' = sm /\ o = Sleep t /\ 0 < t) \/
  (sem' = Sem (count sm) (list_del w (wait_list sm)) /\
    ((o = Return (- EINTR) /\ signal_pending_state st p = true) \/ (o = Return (- ETIME) /\ signal_pending_state st p = false /\ t <= 0))).
Proof.
  unfold down_loop. destruct (signal_pending_state st p); [intros [= <- <-]; right; auto|].
  destruct (Z.leb_spec t 0); intros [= <- <-]; [right; auto|left; auto].
Qed.

(** Every call of down is the fast path or [__down_common]. *)
Lemma down_call_cases k sm w p : 0 <= count sm ->
  (0 < count sm /\ down_call k sm w p = (Sem (u32 (count sm - 1)) (wait_list sm), Return 0)) \/
  (count sm = 0 /\ down_call k sm w p = __down_common sm w (task_state k) (match k with Timeout j => j | _ => MAX_SCHEDULE_TIMEOUT end) p).
Proof.
  intros H0. destruct k; cbn [down_call task_state]; unfold down, down_interruptible, down_killable, down_timeout;
    (destruct (Z.ltb_spec 0 (count sm)); [left; done|right; split; [lia|done]]).
Qed.

Lemma size_remove_absent (X : gset nat) w : w ∉ X -> X ∖ {[w]} = X.
Proof. set_solver. Qed.

Lemma size_remove_present (X : gset nat) w : w ∈ X -> Z.of_nat (size (X ∖ {[w]})) = Z.of_nat (size X) - 1.
Proof.
  intros Hw. rewrite size_difference by set_solver. rewrite size_singleton.
  assert (size X <> 0)%nat by (intros H0; apply size_empty_inv in H0; set_solver). lia.
Qed.

Lemma inv_init v : 0 <= v < 2 ^ 31 -> inv v (init v).
Proof.
  intros Hv. split; cbn; try done.
  - unfold u32. rewrite Z.mod_small by lia. change (size (∅ : gset nat)) with 0%nat. change (zlen []) with 0. lia.
  - apply Z.mod_pos_bound. lia.
  - constructor.
  - intros w [x Hx]. done.
  - intros w. split; [intros [x Hx]; done|set_solver].
Qed.

(** A call that leaves with an error after waiting or instead of waiting. *)
Lemma inv_leave v s w k r n : inv v s -> r <> 0 -> w ∉ up_set s -> (next s <= n)%nat ->
  inv v (settle s (Sem (count (sem s)) (list_del w (wait_list (sem s)))) w k (Return r) n).
Proof.
  intros H Hr Hw Hn. cbn. destruct (Z.eqb_spec r 0); [done|]. rewrite size_remove_absent by done. split; cbn.
  - apply (i_count v s H).
  - apply (i_nonneg v s H).
  - intros Hc. now rewrite (i_avail v s H Hc).
  - apply list_del_sorted, (i_sorted v s H).
  - intros x [y Hy]. apply lookup_delete_Some in Hy as [_ Hy]. pose proof (i_fresh v s H x ltac:(eauto)). lia.
  - intros x. rewrite lookup_delete_is_Some, (i_dom v s H x), elem_of_list_del. split; [naive_solver|].
    intros [[Hx Hne]|Hx]; [auto|]. split; [intros ->; done|auto].
  - intros x Hx. apply elem_of_list_del in Hx as [Hx _]. apply (i_disj v s H x Hx).
  - intros x k' t' Hx. apply lookup_delete_Some in Hx as [_ Hx]. apply (i_mode v s H x k' t' Hx).
Qed.

(** A call that goes to sleep, for the first time or again. *)
Lemma inv_sleep v s w k t l n : inv v s -> 0 < t -> ((forall j, k <> Timeout j) -> t = MAX_SCHEDULE_TIMEOUT) -> w ∉ up_set s ->
  (w < n)%nat -> (next s <= n)%nat -> StronglySorted lt l -> (forall x, x ∈ l <-> (x ∈ wait_list (sem s)) \/ x = w) ->
  count (sem s) = 0 -> inv v (settle s (Sem (count (sem s)) l) w k (Sleep t) n).
Proof.
  intros H Ht Hm Hw Hn Hnn Hs Hl Hc. cbn. split; cbn.
  - apply (i_count v s H).
  - apply (i_nonneg v s H).
  - intros H0. lia.
  - done.
  - intros x Hx. destruct (decide (x = w)) as [->|Hne]; [done|]. rewrite lookup_insert_ne in Hx by congruence.
    pose proof (i_fresh v s H x Hx). lia.
  - intros x. rewrite Hl. destruct (decide (x = w)) as [->|Hne].
    + rewrite lookup_insert_eq. naive_solver.
    + rewrite lookup_insert_ne by congruence. rewrite (i_dom v s H x). naive_solver.
  - intros x Hx. apply Hl in Hx as [Hx| ->]; [apply (i_disj v s H x Hx)|done].
  - intros x k' t' Hx. apply lookup_insert_Some in Hx as [[<- [= <- <-]]|[_ Hx]]; [done|apply (i_mode v s H x k' t' Hx)].
Qed.

Lemma inv_wait v s : inv v s -> (exists w, w ∈ wait_list (sem s)) -> count (sem s) = 0.
Proof.
  intros H [w Hw]. pose proof (i_nonneg v s H). destruct (Z.eq_dec (count (sem s)) 0) as [|Hne]; [done|].
  rewrite (i_avail v s H) in Hw by lia. set_solver.
Qed.

Lemma inv_step_down v s k p sem' o : inv v s -> v + Z.of_nat (ups s) < 2 ^ 31 -> down_call k (sem s) (next s) p = (sem', o) ->
  inv v (settle s sem' (next s) k o (S (next s))).
Proof.
  intros H Hb E. destruct (inv_next v s H) as (Hn1 & Hn2 & Hn3). pose proof (i_count v s H) as Hcnt. pose proof (zlen_nonneg (won s)).
  destruct (down_call_cases k (sem s) (next s) p (i_nonneg v s H)) as [[Hc E2]|[Hc E2]]; rewrite E2 in E; clear E2.
  - injection E as <- <-. cbn. rewrite u32_id by (unfold is_u32; lia). rewrite size_remove_absent, delete_id by done.
    split; cbn; try apply H.
    + unfold zlen in *. cbn [length]. lia.
    + lia.
    + intros _. now apply (i_avail v s H).
    + intros w Hw. pose proof (i_fresh v s H w Hw). lia.
  - unfold __down_common in E. apply down_loop_cases in E as [(-> & -> & Ht)|[-> Hr]]; cbn [count wait_list] in *.
    + apply inv_sleep; try done; try lia.
      * intros Hk. destruct k; try done. now destruct (Hk jiffies).
      * apply sorted_snoc; [apply (i_sorted v s H)|]. intros x Hx. apply (i_fresh v s H). apply (i_dom v s H). auto.
      * intros x. unfold list_add_tail. rewrite elem_of_app, list_elem_of_singleton. done.
    + rewrite list_del_tail by done. rewrite <- (list_del_notin (next s) (wait_list (sem s))) by done.
      destruct Hr as [[-> _]|[-> _]]; apply inv_leave; try done; lia.
Qed.

Lemma inv_step_wake v s w k t b a p sem' o : inv v s -> asleep s !! w = Some (k, t) ->
  __down_woken (sem s) w (bool_decide (w ∈ up_set s)) (task_state k) (schedule_timeout t b a) p = (sem', o) ->
  inv v (settle s sem' w k o (next s)).
Proof.
  intros H Hw E. pose proof (i_fresh v s H w ltac:(eauto)) as Hn. pose proof (i_count v s H) as Hcnt.
  unfold __down_woken in E. case_bool_decide as Hup.
  - injection E as <- <-. cbn. split; cbn; try apply H.
    + rewrite size_remove_present by done. unfold zlen in *. cbn [length]. lia.
    + intros x [y Hy]. apply lookup_delete_Some in Hy as [_ Hy]. apply (i_fresh v s H); eauto.
    + intros x. rewrite lookup_delete_is_Some, (i_dom v s H x). pose proof (i_disj v s H w) as Hd. set_solver.
    + intros x Hx. pose proof (i_disj v s H x Hx). set_solver.
    + intros x k' t' Hx. apply lookup_delete_Some in Hx as [_ Hx]. apply (i_mode v s H x k' t' Hx).
  - assert (Hin : w ∈ wait_list (sem s)) by (assert (Hd : is_Some (asleep s !! w)) by eauto; apply (i_dom v s H) in Hd; tauto).
    apply down_loop_cases in E as [(-> & -> & Ht)|[-> Hr]].
    + assert (Es : sem s = Sem (count (sem s)) (wait_list (sem s))) by now destruct (sem s).
      rewrite Es at 1. apply inv_sleep; try done; try lia.
      * intros Hk. destruct (i_mode v s H w k t Hw) as [_ Hm]. rewrite (Hm Hk). done.
      * apply (i_sorted v s H).
      * intros x. split; [auto|]. intros [Hx| ->]; done.
      * apply (inv_wait v s H). eauto.
    + destruct Hr as [[-> _]|[-> _]]; apply inv_leave; done.
Qed.

Lemma inv_step_trylock v s sem' r : inv v s -> v + Z.of_nat (ups s) < 2 ^ 31 -> down_trylock (sem s) = (sem', r) ->
  inv v (if r =? 0 then Sys sem' (asleep s) (up_set s) (next s :: won s) (lost s) (ups s) (S (next s))
         else Sys sem' (asleep s) (up_set s) (won s) ((next s, r) :: lost s) (ups s) (S (next s))).
Proof.
  intros H Hb E. pose proof (i_count v s H) as Hcnt. pose proof (i_nonneg v s H) as H0. pose proof (zlen_nonneg (won s)).
  unfold down_trylock in E. destruct (Z.eq_dec (count (sem s)) 0) as [Hc|Hc].
  - rewrite Hc in E. change (s32 (u32 (0 - 1))) with (-1) in E. cbn in E. injection E as <- <-. cbn.
    split; cbn; try apply H. intros w Hw. pose proof (i_fresh v s H w Hw). lia.
  - rewrite (u32_id (count (sem s) - 1)) in E by (unfold is_u32; lia). rewrite s32_id in E by (unfold is_s32; lia).
    destruct (Z.leb_spec 0 (count (sem s) - 1)); [|lia]. destruct (Z.ltb_spec (count (sem s) - 1) 0); [lia|].
    injection E as <- <-. cbn. rewrite u32_id by (unfold is_u32; lia). split; cbn; try apply H.
    + unfold zlen in *. cbn [length]. lia.
    + lia.
    + intros _. apply (i_avail v s H). lia.
    + intros w Hw. pose proof (i_fresh v s H w Hw). lia.
Qed.

Lemma inv_step_up v s sem' x : inv v s -> v + Z.of_nat (S (ups s)) < 2 ^ 31 -> up (sem s) = (sem', x) ->
  inv v (Sys sem' (asleep s) (match x with Some w => {[w]} ∪ up_set s | None => up_set s end) (won s) (lost s) (S (ups s)) (next s)).
Proof.
  intros H Hb E. pose proof (i_count v s H) as Hcnt. pose proof (i_nonneg v s H) as H0. pose proof (zlen_nonneg (won s)).
  unfold up, __up in E. destruct (wait_list (sem s)) as [|w l] eqn:El.
  - injection E as <- <-. rewrite u32_id by (unfold is_u32; lia). split; cbn; try apply H; try done.
    + lia.
    + lia.
    + constructor.
    + intros w. rewrite (i_dom v s H w), El. done.
    + intros w Hw. set_solver.
  - injection E as <- <-. pose proof (i_sorted v s H) as Hs. rewrite El in Hs. pose proof (sorted_head_notin w l Hs) as Hwl.
    rewrite list_del_head by done. assert (Hw : w ∉ up_set s) by (apply (i_disj v s H); rewrite El; apply list_elem_of_here).
    assert (Hc : count (sem s) = 0) by (apply (inv_wait v s H); exists w; rewrite El; apply list_elem_of_here).
    split; cbn; try apply H.
    + rewrite size_union, size_singleton by set_solver. lia.
    + intros Hp. lia.
    + now apply StronglySorted_inv in Hs.
    + intros y. rewrite (i_dom v s H y), El. set_solver.
    + intros y Hy. assert (y ∉ up_set s) by (apply (i_disj v s H); rewrite El; now apply list_elem_of_further). set_solver.
Qed.

Lemma step_ups s s' : step s s' -> (ups s <= ups s')%nat /\ (next s <= next s')%nat.
Proof.
  destruct 1 as [k p sem' o E|w k t b a p sem' o Hw E|sem' r E|sem' x E]; cbn.
  - destruct o as [r|t]; [cbn; destruct (r =? 0)|]; cbn; lia.
  - destruct o as [r|t']; [cbn; destruct (r =? 0)|]; cbn; lia.
  - destruct (r =? 0); cbn; lia.
  - lia.
Qed.

Lemma steps_ups s s' : rtc step s s' -> (ups s <= ups s')%nat /\ (next s <= next s')%nat.
Proof. induction 1 as [|s1 s2 s3 H1 _ IH]; [lia|]. apply step_ups in H1. lia. Qed.

Lemma inv_step v s s' : inv v s -> v + Z.of_nat (ups s') < 2 ^ 31 -> step s s' -> inv v s'.
Proof.
  intros H Hb Hs. pose proof (step_ups s s' Hs) as [Hu _].
  destruct Hs as [k p sem' o E|w k t b a p sem' o Hw E|sem' r E|sem' x E].
  - apply (inv_step_down v s k p); done || lia.
  - apply (inv_step_wake v s w k t b a p); done.
  - apply inv_step_trylock; done || lia.
  - apply inv_step_up; done.
Qed.

Lemma inv_steps v s s' : inv v s -> v + Z.of_nat (ups s') < 2 ^ 31 -> rtc step s s' -> inv v s'.
Proof.
  intros H Hb Hs. induction Hs as [|s1 s2 s3 H1 H2 IH]; [done|]. apply IH; [|done]. pose proof (steps_ups s2 s3 H2).
  apply (inv_step v s1); [done|lia|done].
Qed.

(** C1: conservation and no missed wake-up.  In every state that any
    interleaving of downs, wake-ups, signals, time-outs, trylocks and ups can
    reach from a semaphore of value [v], the free count, the acquisitions made
    and those granted but not yet returned add up to [v] plus the number of
    ups: there are never more acquisitions than that.  While the count is
    positive nobody waits, and a sleeping call is either queued or has been
    granted the semaphore, never both and never neither. *)
Theorem semaphore_safety v s : 0 <= v -> rtc step (init v) s -> v + Z.of_nat (ups s) < 2 ^ 31 ->
  count (sem s) + zlen (won s) + Z.of_nat (size (up_set s)) = v + Z.of_nat (ups s) /\
  0 <= count (sem s) /\
  (0 < count (sem s) -> wait_list (sem s) = []) /\
  (forall w, is_Some (asleep s !! w) <-> (w ∈ wait_list (sem s)) \/ (w ∈ up_set s)) /\
  (forall w, w ∈ wait_list (sem s) -> w ∉ up_set s).
Proof.
  intros Hv Hr Hb. assert (H : inv v s) by (apply (inv_steps v (init v)); [apply inv_init; lia|done|done]).
  split; [apply (i_count v s H)|]. split; [apply (i_nonneg v s H)|]. split; [apply (i_avail v s H)|].
  split; [apply (i_dom v s H)|apply (i_disj v s H)].
Qed.

Lemma semaphore_safety_witness :
  let s := Sys (Sem 0 []) {[1%nat := (Uninterruptible, MAX_SCHEDULE_TIMEOUT)]} {[1%nat]} [0%nat] [] 1 2 in
  rtc step (init 1) s /\ count (sem s) + zlen (won s) + Z.of_nat (size (up_set s)) = 1 + Z.of_nat (ups s).
Proof.
  assert (Hr : rtc step (init 1) (Sys (Sem 0 []) {[1%nat := (Uninterruptible, MAX_SCHEDULE_TIMEOUT)]} {[1%nat]} [0%nat] [] 1 2)).
  { eapply rtc_l; [apply (step_down _ Uninterruptible (Signals false false)); vm_compute; reflexivity|]. cbn.
    eapply rtc_l; [apply (step_down _ Uninterruptible (Signals false false)); vm_compute; reflexivity|]. cbn.
    eapply rtc_l; [apply step_up; vm_compute; reflexivity|]. cbn. apply rtc_refl. }
  split; [exact Hr|]. apply (semaphore_safety 1 _ ltac:(lia) Hr). reflexivity.
Defined.

(** * Service in order of arrival *)

(** One step: a waiting call keeps its place or moves towards the front, and
    an up takes the front. *)
Lemma step_index v s s' w i : inv v s -> step s s' -> wait_list (sem s) !! i = Some w ->
  w ∈ wait_list (sem s') -> exists j, wait_list (sem s') !! j = Some w /\ (j + (ups s' - ups s) <= i)%nat.
Proof.
  intros H Hs Hi Hin.
  assert (Hleave : forall x, w ∈ list_del x (wait_list (sem s)) -> exists j, list_del x (wait_list (sem s)) !! j = Some w /\ (j <= i)%nat).
  { intros x Hx. apply elem_of_list_del in Hx as [_ Hx]. now apply list_del_index. }
  destruct Hs as [k p sem' o E|x k t b a p sem' o Hx E|sem' r E|sem' x E].
  - assert (Hsem : sem (settle s sem' (next s) k o (S (next s))) = sem' /\ ups (settle s sem' (next s) k o (S (next s))) = ups s)
      by (destruct o as [r|t]; [cbn; destruct (r =? 0)|]; done). destruct Hsem as [Es Eu]. rewrite Es in *. rewrite Eu.
    destruct (down_call_cases k (sem s) (next s) p (i_nonneg v s H)) as [[Hc E2]|[Hc E2]]; rewrite E2 in E; clear E2.
    + rewrite (i_avail v s H Hc) in Hi. done.
    + destruct (inv_next v s H) as (Hn & _). apply down_loop_cases in E as [(-> & _)|[-> _]]; cbn [count wait_list] in *.
      * exists i. unfold list_add_tail. rewrite lookup_app_l by (eapply lookup_lt_Some; exact Hi). split; [done|lia].
      * rewrite list_del_tail by done. exists i. split; [done|lia].
  - assert (Hsem : sem (settle s sem' x k o (next s)) = sem' /\ ups (settle s sem' x k o (next s)) = ups s)
      by (destruct o as [r|t']; [cbn; destruct (r =? 0)|]; done). destruct Hsem as [Es Eu]. rewrite Es in *. rewrite Eu.
    unfold __down_woken in E. case_bool_decide; [injection E as <- <-; exists i; split; [done|lia]|].
    apply down_loop_cases in E as [(-> & _)|[-> _]]; [exists i; split; [done|lia]|]. cbn [wait_list] in *.
    destruct (Hleave x Hin) as (j & Hj & Hle). exists j. split; [done|lia].
  - assert (Hsem : wait_list sem' = wait_list (sem s)).
    { unfold down_trylock in E. injection E as <- _. destruct (0 <=? _); done. }
    destruct (r =? 0); cbn [sem ups] in *; rewrite Hsem in *; exists i; (split; [done|lia]).
  - cbn [sem ups] in *. unfold up, __up in E. destruct (wait_list (sem s)) as [|y l] eqn:El; [done|]. injection E as <- <-.
    cbn [wait_list] in *. pose proof (i_sorted v s H) as Hsort. rewrite El in Hsort. pose proof (sorted_head_notin y l Hsort) as Hy.
    rewrite list_del_head in * by done. destruct i as [|i]; cbn in Hi; [injection Hi as ->; done|]. exists i. split; [done|lia].
Qed.

(** A call that left the queue never comes back to it. *)
Lemma step_left v s s' w : inv v s -> step s s' -> w ∈ wait_list (sem s') -> (w < next s)%nat -> w ∈ wait_list (sem s).
Proof.
  intros H Hs Hin Hlt. destruct Hs as [k p sem' o E|x k t b a p sem' o Hx E|sem' r E|sem' x E].
  - assert (Es : sem (settle s sem' (next s) k o (S (next s))) = sem') by (destruct o as [r|t]; [cbn; destruct (r =? 0)|]; done).
    rewrite Es in Hin.
    destruct (down_call_cases k (sem s) (next s) p (i_nonneg v s H)) as [[Hc E2]|[Hc E2]]; rewrite E2 in E; clear E2.
    + injection E as <- <-. done.
    + destruct (inv_next v s H) as (Hn & _). apply down_loop_cases in E as [(-> & _)|[-> _]]; cbn [wait_list] in Hin.
      * unfold list_add_tail in Hin. apply elem_of_app in Hin as [Hin|Hin]; [done|]. apply list_elem_of_singleton in Hin. lia.
      * now rewrite list_del_tail in Hin.
  - assert (Es : sem (settle s sem' x k o (next s)) = sem') by (destruct o as [r|t']; [cbn; destruct (r =? 0)|]; done). rewrite Es in Hin.
    unfold __down_woken in E. case_bool_decide; [injection E as <- <-; done|].
    apply down_loop_cases in E as [(-> & _)|[-> _]]; [done|]. cbn [wait_list] in Hin. now apply elem_of_list_del in Hin as [? _].
  - unfold down_trylock in E. injection E as <- _. destruct (r =? 0); cbn [sem] in Hin; destruct (0 <=? _); done.
  - cbn [sem] in Hin. unfold up, __up in E. destruct (wait_list (sem s)) as [|y l] eqn:El; injection E as <- <-; cbn [wait_list] in Hin; [set_solver|].
    now apply elem_of_list_del in Hin as [? _].
Qed.

(** Every call that started is asleep or has returned. *)
Definition accounted (s : sys) : Prop :=
  forall w, (w < next s)%nat -> is_Some (asleep s !! w) \/ (w ∈ won s) \/ (exists r, (w, r) ∈ lost s).

Lemma settle_accounted s sem' w k o n : (n = next s \/ (n = S (next s) /\ w = next s)) -> accounted s -> accounted (settle s sem' w k o n).
Proof.
  intros Hn Ha x Hx. assert (Hx' : (x < n)%nat) by (destruct o as [r|t]; [cbn in Hx; destruct (r =? 0)|]; done). clear Hx.
  destruct (decide (x = w)) as [->|Hne].
  - destruct o as [r|t]; cbn; [destruct (Z.eqb_spec r 0); cbn|].
    + right. left. apply list_elem_of_here.
    + right. right. exists r. apply list_elem_of_here.
    + left. rewrite lookup_insert_eq. eauto.
  - assert (Hlt : (x < next s)%nat) by (destruct Hn as [->|[-> ->]]; lia). specialize (Ha x Hlt).
    destruct o as [r|t]; cbn; [destruct (Z.eqb_spec r 0); cbn|]; rewrite ?lookup_delete_ne, ?lookup_insert_ne by congruence; set_solver.
Qed.

Lemma step_accounted s s' : step s s' -> accounted s -> accounted s'.
Proof.
  intros Hs Ha. destruct Hs as [k p sem' o E|w k t b a p sem' o Hw E|sem' r E|sem' x E].
  - apply settle_accounted; auto.
  - apply settle_accounted; auto.
  - intros w Hw. assert (Hw' : (w < S (next s))%nat) by (destruct (r =? 0); exact Hw). clear Hw.
    destruct (decide (w = next s)) as [->|Hne].
    + destruct (r =? 0); cbn; [right; left|right; right; exists r]; apply list_elem_of_here.
    + specialize (Ha w ltac:(lia)). destruct (r =? 0); cbn; set_solver.
  - exact Ha.
Qed.

Lemma steps_accounted v s : rtc step (init v) s -> accounted s.
Proof.
  intros Hr. assert (H0 : accounted (init v)) by (intros w Hw; cbn in Hw; lia).
  induction Hr as [|s1 s2 s3 H1 _ IH]; [done|]. apply IH. now apply (step_accounted s1).
Qed.

Lemma steps_index v s s' w i : inv v s -> v + Z.of_nat (ups s') < 2 ^ 31 -> wait_list (sem s) !! i = Some w -> rtc step s s' ->
  w ∈ wait_list (sem s') -> exists j, wait_list (sem s') !! j = Some w /\ (j + (ups s' - ups s) <= i)%nat.
Proof.
  intros H Hb Hi Hr. revert i Hi. induction Hr as [s|s1 s2 s3 H1 H2 IH]; intros i Hi Hin.
  - exists i. split; [done|lia].
  - pose proof (steps_ups s2 s3 H2) as [Hu2 Hn2]. pose proof (step_ups s1 s2 H1) as [Hu1 Hn1].
    assert (H' : inv v s2) by (apply (inv_step v s1); [done|lia|done]).
    assert (Hlt : (w < next s2)%nat).
    { assert (is_Some (asleep s1 !! w)) by (apply (i_dom v s1 H); left; eapply list_elem_of_lookup_2; exact Hi).
      pose proof (i_fresh v s1 H w ltac:(done)). lia. }
    assert (Hin2 : w ∈ wait_list (sem s2)).
    { clear -H' Hb Hin Hlt H2. induction H2 as [|s2 s2' s3 Hs Hr IH]; [done|]. pose proof (steps_ups s2' s3 Hr) as [Hu _]. pose proof (step_ups s2 s2' Hs) as [Hu' Hn'].
      apply (step_left v s2 s2' w H' Hs); [|done]. apply IH; [done|done|apply (inv_step v s2); [done|lia|done]|lia]. }
    destruct (step_index v s1 s2 w i H H1 Hi Hin2) as (j & Hj & Hle). destruct (IH H' Hb j Hj Hin) as (j' & Hj' & Hle').
    exists j'. split; [done|lia].
Qed.

(** service in order of arrival, and nobody starves.  The queue is ordered
    by arrival; a call with [i] calls before it never moves back, whatever
    happens, and once more than [i] ups have been made it is no longer waiting:
    it has been granted the semaphore (and its next wake-up returns 0 whatever
    signals are pending and however long it slept), has acquired it, or has
    returned an error. *)
Lemma semaphore_fifo_liveness_facts v s s' w i : 0 <= v -> rtc step (init v) s -> wait_list (sem s) !! i = Some w ->
  rtc step s s' -> v + Z.of_nat (ups s') < 2 ^ 31 ->
  StronglySorted lt (wait_list (sem s)) /\
  (w ∈ wait_list (sem s') -> exists j, wait_list (sem s') !! j = Some w /\ (j + (ups s' - ups s) <= i)%nat) /\
  ((i < ups s' - ups s)%nat -> (w ∈ up_set s') \/ (w ∈ won s') \/ (exists r, (w, r) ∈ lost s')) /\
  (w ∈ up_set s' -> exists k t, asleep s' !! w = Some (k, t) /\ forall before after p,
    step s' (settle s' (sem s') w k (Return 0) (next s')) /\
    __down_woken (sem s') w (bool_decide (w ∈ up_set s')) (task_state k) (schedule_timeout t before after) p = (sem s', Return 0)).
Proof.
  intros Hv Hr Hi Hs Hb. pose proof (steps_ups s s' Hs) as [Hu Hn].
  assert (H : inv v s) by (apply (inv_steps v (init v)); [apply inv_init; lia|lia|done]).
  assert (H' : inv v s') by (apply (inv_steps v s); done).
  pose proof (steps_index v s s' w i H Hb Hi Hs) as Hidx.
  split; [apply (i_sorted v s H)|]. split; [exact Hidx|]. split.
  - intros Hlt. assert (Hlt' : (w < next s')%nat).
    { assert (is_Some (asleep s !! w)) by (apply (i_dom v s H); left; eapply list_elem_of_lookup_2; exact Hi).
      pose proof (i_fresh v s H w ltac:(done)). lia. }
    destruct (steps_accounted v s' ltac:(etransitivity; done) w Hlt') as [Ha|Hret]; [|tauto].
    apply (i_dom v s' H') in Ha as [Ha|Ha]; [|tauto]. destruct (Hidx Ha) as (j & _ & Hle). lia.
  - intros Hup. assert (is_Some (asleep s' !! w)) as [[k t] Hkt] by (apply (i_dom v s' H'); auto). exists k, t. split; [done|].
    intros b a p. assert (E : __down_woken (sem s') w (bool_decide (w ∈ up_set s')) (task_state k) (schedule_timeout t b a) p = (sem s', Return 0)).
    { unfold __down_woken. now rewrite bool_decide_true. }
    split; [|exact E]. now apply (step_wake s' w k t b a p).
Qed.

(** * Errors *)

Lemma signals_by_state k p : signal_pending_state (task_state k) p = true ->
  match k with Interruptible => pending p = true | Killable => pending p = true /\ fatal p = true | _ => False end.
Proof. destruct p as [pe fa]. destruct k; cbn; unfold signal_pending_state; cbn; destruct pe, fa; cbn; done. Qed.

(** Why a call of mode [k] may return the error [r]. *)
Definition justified (k : mode) (p : signals) (t r : Z) : Prop :=
  match k with
  | Uninterruptible => False
  | Interruptible => r = - EINTR /\ pending p = true
  | Killable => r = - EINTR /\ pending p = true /\ fatal p = true
  | Timeout _ => r = - ETIME /\ t <= 0
  end.

Lemma loop_error k sm w t p sem' r : down_loop sm w (task_state k) t p = (sem', Return r) -> r <> 0 ->
  ((forall j, k <> Timeout j) -> 0 < t) ->
  sem' = Sem (count sm) (list_del w (wait_list sm)) /\ justified k p t r.
Proof.
  intros E Hr Ht. apply down_loop_cases in E as [(_ & E & _)|[-> [[E Hs]|(E & Hs & Hle)]]]; [discriminate|..]; injection E as ->; (split; [done|]).
  - apply signals_by_state in Hs. destruct k; cbn; tauto.
  - destruct k; try (assert (0 < t) by (apply Ht; done); lia). split; done.
Qed.

(** failing calls.  A call fails only for its documented reason: a signal
    for [down_interruptible], a fatal signal for [down_killable], -ETIME after
    its time has run out for [down_timeout], never for [down]; trylock fails
    exactly when the count is zero.  A failing call leaves the count as it was,
    had not been granted the semaphore, and is off the queue, on which the
    others stay as they were. *)
Lemma semaphore_errors_facts v s : 0 <= v -> rtc step (init v) s -> v + Z.of_nat (ups s) < 2 ^ 31 ->
  (forall k p sem' r, down_call k (sem s) (next s) p = (sem', Return r) -> r <> 0 ->
    justified k p (match k with Timeout j => j | _ => MAX_SCHEDULE_TIMEOUT end) r /\ sem' = sem s) /\
  (forall w k t before after p sem' r, asleep s !! w = Some (k, t) ->
    __down_woken (sem s) w (bool_decide (w ∈ up_set s)) (task_state k) (schedule_timeout t before after) p = (sem', Return r) -> r <> 0 ->
    justified k p (schedule_timeout t before after) r /\ count sem' = count (sem s) /\ (w ∉ up_set s) /\ (w ∉ wait_list sem') /\
    (forall x, x <> w -> x ∈ wait_list sem' <-> x ∈ wait_list (sem s))) /\
  (forall sem' r, down_trylock (sem s) = (sem', r) ->
    (r = 0 /\ 0 < count (sem s) /\ count sem' = count (sem s) - 1) \/ (r = 1 /\ count (sem s) = 0 /\ sem' = sem s)).
Proof.
  intros Hv Hr Hb. assert (H : inv v s) by (apply (inv_steps v (init v)); [apply inv_init; lia|lia|done]).
  pose proof (i_count v s H) as Hcnt. pose proof (i_nonneg v s H) as H0. pose proof (zlen_nonneg (won s)). split; [|split].
  - intros k p sem' r E Hne. destruct (inv_next v s H) as (Hn & _).
    destruct (down_call_cases k (sem s) (next s) p H0) as [[Hc E2]|[Hc E2]]; rewrite E2 in E; clear E2; [injection E as _ <-; done|].
    apply loop_error in E as [-> Hj]; [|done|].
    + split; [exact Hj|]. cbn [count wait_list]. rewrite list_del_tail by done. now destruct (sem s).
    + intros Hk. destruct k; try done. now destruct (Hk jiffies).
  - intros w k t b a p sem' r Hw E Hne. destruct (i_mode v s H w k t Hw) as [_ Hm]. unfold __down_woken in E.
    case_bool_decide as Hup; [injection E as _ <-; done|]. apply loop_error in E as [-> Hj]; [|done|].
    + split; [exact Hj|]. cbn [count wait_list]. split; [done|]. split; [done|]. split; [rewrite elem_of_list_del; tauto|].
      intros x Hx. rewrite elem_of_list_del. tauto.
    + intros Hk. rewrite (Hm Hk). done.
  - intros sem' r E. unfold down_trylock in E. destruct (Z.eq_dec (count (sem s)) 0) as [Hc|Hc].
    + right. rewrite Hc in E. change (s32 (u32 (0 - 1))) with (-1) in E. cbn in E. injection E as <- <-. done.
    + left. rewrite (u32_id (count (sem s) - 1)) in E by (unfold is_u32; lia). rewrite s32_id in E by (unfold is_s32; lia).
      destruct (Z.leb_spec 0 (count (sem s) - 1)); [|lia]. destruct (Z.ltb_spec (count (sem s) - 1) 0); [lia|].
      injection E as <- <-. cbn. rewrite u32_id by (unfold is_u32; lia). repeat split; lia.
Qed.

(** C30: service in order of arrival, and nobody starves. The queue is ordered by
    arrival; a call with [i] calls before it never moves back, whatever
    happens, and once more than [i] ups have been made it is no longer
    waiting: it has been granted the semaphore (and its next wake-up returns
    0 whatever signals are pending and however long it slept), has acquired
    it, or has returned an error. Failing calls. A call fails only for its
    documented reason: a signal for [down_interruptible], a fatal signal for
    [down_killable], -ETIME after its time has run out for [down_timeout],
    never for [down]; trylock fails exactly when the count is zero. A
    failing call leaves the count as it was, had not been granted the
    semaphore, and is off the queue, on which the others stay as they were. *)
Theorem semaphore_service_correct :
  (forall v s s' w i,
   0 <= v -> rtc step (init v) s -> wait_list (sem s) !! i = Some w ->
   rtc step s s' -> v + Z.of_nat (ups s') < 2 ^ 31 ->
   StronglySorted lt (wait_list (sem s)) /\
   (w ∈ wait_list (sem s') -> exists j, wait_list (sem s') !! j = Some w /\ (j + (ups s' - ups s) <= i)%nat) /\
   ((i < ups s' - ups s)%nat -> (w ∈ up_set s') \/ (w ∈ won s') \/ (exists r, (w, r) ∈ lost s')) /\
   (w ∈ up_set s' -> exists k t, asleep s' !! w = Some (k, t) /\ forall before after p,
     step s' (settle s' (sem s') w k (Return 0) (next s')) /\
     __down_woken (sem s') w (bool_decide (w ∈ up_set s')) (task_state k) (schedule_timeout t before after) p = (sem s', Return 0))) /\
  (forall v s,
   0 <= v -> rtc step (init v) s -> v + Z.of_nat (ups s) < 2 ^ 31 ->
   (forall k p sem' r, down_call k (sem s) (next s) p = (sem', Return r) -> r <> 0 ->
     justified k p (match k with Timeout j => j | _ => MAX_SCHEDULE_TIMEOUT end) r /\ sem' = sem s) /\
   (forall w k t before after p sem' r, asleep s !! w = Some (k, t) ->
     __down_woken (sem s) w (bool_decide (w ∈ up_set s)) (task_state k) (schedule_timeout t before after) p = (sem', Return r) -> r <> 0 ->
     justified k p (schedule_timeout t before after) r /\ count sem' = count (sem s) /\ (w ∉ up_set s) /\ (w ∉ wait_list sem') /\
     (forall x, x <> w -> x ∈ wait_list sem' <-> x ∈ wait_list (sem s))) /\
   (forall sem' r, down_trylock (sem s) = (sem', r) ->
     (r = 0 /\ 0 < count (sem s) /\ count sem' = count (sem s) - 1) \/ (r = 1 /\ count (sem s) = 0 /\ sem' = sem s))).
Proof. split; [exact semaphore_fifo_liveness_facts|]. exact semaphore_errors_facts. Qed.

Lemma semaphore_service_correct_witness :
  (let s := Sys (Sem 0 [0%nat; 1%nat]) {[0%nat := (Uninterruptible, MAX_SCHEDULE_TIMEOUT); 1%nat := (Killable, MAX_SCHEDULE_TIMEOUT)]} ∅ [] [] 0 2 in
   exists s', rtc step s s' /\ ups s' = 2%nat /\ ((1%nat ∈ up_set s') \/ (1%nat ∈ won s') \/ exists r, (1%nat, r) ∈ lost s')) /\
  (let s := Sys (Sem 0 [0%nat]) {[0%nat := (Timeout 10, 10)]} ∅ [] [] 0 1 in
   rtc step (init 0) s /\ justified (Timeout 10) (Signals true true) (schedule_timeout 10 100 110) (- ETIME)).
Proof.
  split.
  { set (s := Sys _ _ _ _ _ _ _).
    assert (Hr : rtc step (init 0) s).
    { eapply rtc_l; [apply (step_down _ Uninterruptible (Signals false false)); vm_compute; reflexivity|]. cbn.
      eapply rtc_l; [apply (step_down _ Killable (Signals false false)); vm_compute; reflexivity|]. cbn.
      rewrite insert_insert_ne by done. apply rtc_refl. }
    assert (Hs : exists s', rtc step s s' /\ ups s' = 2%nat).
    { eexists. split; [eapply rtc_l; [apply step_up; vm_compute; reflexivity|]; cbn; eapply rtc_l; [apply step_up; vm_compute; reflexivity|]; apply rtc_refl|].
      reflexivity. }
    destruct Hs as (s' & Hs & Hu). exists s'. split; [exact Hs|]. split; [exact Hu|].
    destruct ((proj1 semaphore_service_correct) 0 s s' 1%nat 1%nat ltac:(lia) Hr eq_refl Hs) as (_ & _ & Hl & _); [rewrite Hu; reflexivity|].
    apply Hl. rewrite Hu. cbn. lia. }
  { set (s := Sys _ _ _ _ _ _ _).
    assert (Hr : rtc step (init 0) s).
    { eapply rtc_l; [apply (step_down _ (Timeout 10) (Signals false false)); vm_compute; reflexivity|]. apply rtc_refl. }
    split; [exact Hr|]. destruct ((proj2 semaphore_service_correct) 0 s ltac:(lia) Hr eq_refl) as (_ & Hw & _).
    apply (Hw 0%nat (Timeout 10) 10 100 110 (Signals true true) (Sem 0 []) (- ETIME)); [reflexivity|vm_compute; reflexivity|discriminate]. }
Defined.
