(* ===== verification/RwSem.v ===== *)
(** lib/rwsem-spinlock.c: reader/writer semaphores, the generic implementation
    that ARM uses.  As in [Semaphore], a stretch under the spinlock is one
    function and a step relation interleaves any number of callers.  Exclusion,
    the meaning of [activity], the absence of missed wake-ups and service in
    order of arrival are proved for all its runs. *)
From stdpp Require Import gmap sets sorting relations.
From S2P Require Import Prelude.
From S2P Require Import WaitQueue.

(** * Operations *)

Definition RWSEM_WAITING_FOR_READ : Z := 0x00000001.
Definition RWSEM_WAITING_FOR_WRITE : Z := 0x00000002.

(** A waiter on the queue; setting its [task] to NULL hands the lock to it and
    is represented by returning the waiter. *)
Record rwsem_waiter := Waiter { task : nat; flags : Z }.

Record rw_semaphore := RwSem { activity : Z; wait_list : list rwsem_waiter }.

Definition __init_rwsem : rw_semaphore := RwSem 0 [].

Definition list_empty {A} (l : list A) : bool := match l with [] => true | _ => false end.

Definition waits_for (f : Z) (w : rwsem_waiter) : bool := negb (Z.land (flags w) f =? 0).

(** The loop that grants read locks to the front of the queue: what is left of
    the queue and the waiters taken off it.  There is a first waiter. *)
Fixpoint wake_readers (l woken : list rwsem_waiter) : res (list rwsem_waiter * list rwsem_waiter) :=
  match l with
  | [] => Err OutOfBounds
  | waiter :: next =>
      if waits_for RWSEM_WAITING_FOR_READ waiter then
        let woken := woken ++ [waiter] in
        if list_empty next then Ok (next, woken) else wake_readers next woken
      else Ok (l, woken)
  end.

(** The semaphore and the waiters that were given the lock. *)
Definition __rwsem_do_wake (sem : rw_semaphore) (wakewrite : Z) : res (rw_semaphore * list rwsem_waiter) :=
  waiter ← rd (wait_list sem) 0;
  let dont_wake_writers :=
    '(l, woken) ← wake_readers (wait_list sem) [];
    Ok (RwSem (s32 (activity sem + zlen woken)) l, woken) in
  if wakewrite =? 0 then
    if waits_for RWSEM_WAITING_FOR_WRITE waiter then Ok (sem, []) else dont_wake_writers
  else if waits_for RWSEM_WAITING_FOR_WRITE waiter then Ok (RwSem (-1) (tail (wait_list sem)), [waiter])
  else dont_wake_writers.

Definition __rwsem_wake_one_writer (sem : rw_semaphore) : res (rw_semaphore * list rwsem_waiter) :=
  waiter ← rd (wait_list sem) 0;
  Ok (RwSem (-1) (tail (wait_list sem)), [waiter]).

(** How a stretch of an acquiring call ends. *)
Inductive answer := Granted | Queued | Refused.

Definition __down_read (sem : rw_semaphore) (tsk : nat) : rw_semaphore * answer :=
  if (0 <=? activity sem) && list_empty (wait_list sem) then (RwSem (s32 (activity sem + 1)) (wait_list sem), Granted)
  else (RwSem (activity sem) (wait_list sem ++ [Waiter tsk RWSEM_WAITING_FOR_READ]), Queued).

Definition __down_read_trylock (sem : rw_semaphore) : rw_semaphore * answer :=
  if (0 <=? activity sem) && list_empty (wait_list sem) then (RwSem (s32 (activity sem + 1)) (wait_list sem), Granted)
  else (sem, Refused).

Definition __down_write_nested (sem : rw_semaphore) (tsk : nat) : rw_semaphore * answer :=
  if (activity sem =? 0) && list_empty (wait_list sem) then (RwSem (-1) (wait_list sem), Granted)
  else (RwSem (activity sem) (wait_list sem ++ [Waiter tsk RWSEM_WAITING_FOR_WRITE]), Queued).

Definition __down_write (sem : rw_semaphore) (tsk : nat) : rw_semaphore * answer := __down_write_nested sem tsk.

Definition __down_write_trylock (sem : rw_semaphore) : rw_semaphore * answer :=
  if (activity sem =? 0) && list_empty (wait_list sem) then (RwSem (-1) (wait_list sem), Granted) else (sem, Refused).

Definition __up_read (sem : rw_semaphore) : res (rw_semaphore * list rwsem_waiter) :=
  let sem := RwSem (s32 (activity sem - 1)) (wait_list sem) in
  if (activity sem =? 0) && negb (list_empty (wait_list sem)) then __rwsem_wake_one_writer sem else Ok (sem, []).

Definition __up_write (sem : rw_semaphore) : res (rw_semaphore * list rwsem_waiter) :=
  let sem := RwSem 0 (wait_list sem) in
  if negb (list_empty (wait_list sem)) then __rwsem_do_wake sem 1 else Ok (sem, []).

Definition __downgrade_write (sem : rw_semaphore) : res (rw_semaphore * list rwsem_waiter) :=
  let sem := RwSem 1 (wait_list sem) in
  if negb (list_empty (wait_list sem)) then __rwsem_do_wake sem 0 else Ok (sem, []).

Definition rwsem_is_locked (sem : rw_semaphore) : bool := negb (activity sem =? 0).

(** * The system *)

Inductive call := DownRead | DownWrite | TryRead | TryWrite.

Definition acquire (c : call) (sem : rw_semaphore) (tsk : nat) : rw_semaphore * answer :=
  match c with
  | DownRead => __down_read sem tsk
  | DownWrite => __down_write sem tsk
  | TryRead => __down_read_trylock sem
  | TryWrite => __down_write_trylock sem
  end.

(** Calls are numbered as they start.  [asleep]: the calls in their waiting
    loop; [readers] and [writers]: the calls that have been given the lock and
    not released it, whether or not they have noticed; [served]: all calls that
    were ever given the lock; [frees]: how often the lock became free. *)
Record sys := Sys {
  sem : rw_semaphore; asleep : gset nat; readers : gset nat; writers : gset nat;
  served : list nat; frees : nat; next : nat
}.

Definition init : sys := Sys __init_rwsem ∅ ∅ ∅ [] 0 0.

Definition tasks (f : Z) (ws : list rwsem_waiter) : gset nat := list_to_set (task <$> filter (fun w => flags w = f) ws).

(** The call that starts now. *)
Definition start (s : sys) (sem' : rw_semaphore) (c : call) (a : answer) : sys :=
  let n := next s in
  match a, c with
  | Granted, (DownRead | TryRead) => Sys sem' (asleep s) ({[n]} ∪ readers s) (writers s) (n :: served s) (frees s) (S n)
  | Granted, _ => Sys sem' (asleep s) (readers s) ({[n]} ∪ writers s) (n :: served s) (frees s) (S n)
  | Queued, _ => Sys sem' ({[n]} ∪ asleep s) (readers s) (writers s) (served s) (frees s) (S n)
  | Refused, _ => Sys sem' (asleep s) (readers s) (writers s) (served s) (frees s) (S n)
  end.

(** The lock goes to the waiters [ws]. *)
Definition hand (s : sys) (sem' : rw_semaphore) (ws : list rwsem_waiter) : sys :=
  Sys sem' (asleep s) (tasks RWSEM_WAITING_FOR_READ ws ∪ readers s) (tasks RWSEM_WAITING_FOR_WRITE ws ∪ writers s)
    ((task <$> ws) ++ served s) (frees s) (next s).

Definition drop_reader (s : sys) (w : nat) : sys :=
  Sys (sem s) (asleep s) (readers s ∖ {[w]}) (writers s) (served s) (if activity (sem s) =? 1 then S (frees s) else frees s) (next s).
Definition drop_writer (s : sys) (w : nat) : sys :=
  Sys (sem s) (asleep s) (readers s) (writers s ∖ {[w]}) (served s) (S (frees s)) (next s).
Definition become_reader (s : sys) (w : nat) : sys :=
  Sys (sem s) (asleep s) ({[w]} ∪ readers s) (writers s ∖ {[w]}) (served s) (frees s) (next s).

(** A call leaves its waiting loop once its [task] is NULL, and releases the
    lock only after it has left the loop. *)
Inductive step (s : sys) : sys -> Prop :=
| step_acquire c sem' a : acquire c (sem s) (next s) = (sem', a) -> step s (start s sem' c a)
| step_wake w : w ∈ asleep s -> (w ∈ readers s \/ w ∈ writers s) ->
    step s (Sys (sem s) (asleep s ∖ {[w]}) (readers s) (writers s) (served s) (frees s) (next s))
| step_up_read w sem' ws : w ∈ readers s -> w ∉ asleep s -> __up_read (sem s) = Ok (sem', ws) ->
    step s (hand (drop_reader s w) sem' ws)
| step_up_write w sem' ws : w ∈ writers s -> w ∉ asleep s -> __up_write (sem s) = Ok (sem', ws) ->
    step s (hand (drop_writer s w) sem' ws)
| step_downgrade w sem' ws : w ∈ writers s -> w ∉ asleep s -> __downgrade_write (sem s) = Ok (sem', ws) ->
    step s (hand (become_reader s w) sem' ws).

(** * The invariant *)

Definition queue (s : sys) : list nat := task <$> wait_list (sem s).

(** What holds of the bookkeeping whatever [activity] is. *)
Record winv (s : sys) : Prop := {
  w_flags : Forall (fun w => flags w = RWSEM_WAITING_FOR_READ \/ flags w = RWSEM_WAITING_FOR_WRITE) (wait_list (sem s));
  w_sorted : StronglySorted lt (queue s);
  w_fresh : forall w, (w ∈ asleep s) \/ (w ∈ readers s) \/ (w ∈ writers s) -> (w < next s)%nat;
  w_queue : forall w, w ∈ queue s -> (w ∈ asleep s) /\ (w ∉ readers s) /\ (w ∉ writers s);
  w_asleep : forall w, w ∈ asleep s -> (w ∈ queue s) \/ (w ∈ readers s) \/ (w ∈ writers s)
}.

Definition head_is_writer (l : list rwsem_waiter) : Prop := forall w, head l = Some w -> flags w = RWSEM_WAITING_FOR_WRITE.

Record inv (s : sys) : Prop := {
  i_winv : winv s;
  i_excl : (writers s = ∅ /\ activity (sem s) = Z.of_nat (size (readers s))) \/
           (exists w, writers s = {[w]} /\ readers s = ∅ /\ activity (sem s) = -1);
  i_free : activity (sem s) = 0 -> wait_list (sem s) = [];
  i_head : 0 < activity (sem s) -> head_is_writer (wait_list (sem s))
}.

Lemma elem_of_tasks f ws x : x ∈ tasks f ws <-> exists w, w ∈ ws /\ flags w = f /\ task w = x.
Proof.
  unfold tasks. rewrite elem_of_list_to_set, list_elem_of_fmap. setoid_rewrite list_elem_of_filter. naive_solver.
Qed.

Lemma tasks_cover ws x : Forall (fun w => flags w = RWSEM_WAITING_FOR_READ \/ flags w = RWSEM_WAITING_FOR_WRITE) ws ->
  x ∈ task <$> ws <-> (x ∈ tasks RWSEM_WAITING_FOR_READ ws) \/ (x ∈ tasks RWSEM_WAITING_FOR_WRITE ws).
Proof.
  intros Hf. rewrite Forall_forall in Hf. rewrite list_elem_of_fmap, !elem_of_tasks. split.
  - intros (w & -> & Hw). destruct (Hf w ltac:(now apply list_elem_of_In)); [left|right]; eauto.
  - intros [(w & Hw & _ & <-)|(w & Hw & _ & <-)]; eauto.
Qed.

(** Handing the lock to a prefix of the queue. *)
Lemma winv_hand s act ws rest : winv s -> wait_list (sem s) = ws ++ rest -> winv (hand s (RwSem act rest) ws).
Proof.
  intros H E. pose proof (w_flags s H) as Hf. rewrite E in Hf. apply Forall_app in Hf as [Hf1 Hf2].
  pose proof (w_sorted s H) as Hs. unfold queue in Hs. rewrite E, fmap_app in Hs. apply sorted_app_inv in Hs as (Hs & Hd & _).
  assert (Hq : forall x, x ∈ queue s <-> (x ∈ task <$> ws) \/ (x ∈ task <$> rest)) by (intros x; unfold queue; rewrite E, fmap_app; apply elem_of_app).
  pose proof (fun x => tasks_cover ws x Hf1) as Hc.
  split; cbn; [done|done| | |].
  - intros x Hx. apply (w_fresh s H). rewrite !elem_of_union in Hx.
    assert (Hin : x ∈ task <$> ws -> x ∈ asleep s) by (intros Hw; apply (w_queue s H), Hq; auto). rewrite Hc in Hin. tauto.
  - intros x Hx. change (x ∈ task <$> rest) in Hx. assert (Hw : x ∉ task <$> ws) by (intros Hw; apply (Hd x Hw Hx)). rewrite Hc in Hw.
    destruct (w_queue s H x) as (Ha & Hr & Hw'); [apply Hq; auto|]. rewrite !elem_of_union. tauto.
  - intros x Hx. rewrite !elem_of_union. change (queue (hand s (RwSem act rest) ws)) with (task <$> rest). specialize (Hq x). rewrite Hc in Hq.
    destruct (w_asleep s H x Hx) as [Hx'|Hx']; [|tauto]. apply Hq in Hx'. tauto.
Qed.

(** Removing a call from the holders, or making it another kind of holder. *)
Lemma winv_drop s s' w : winv s -> w ∉ asleep s -> sem s' = sem s -> asleep s' = asleep s -> next s' = next s ->
  (w ∈ readers s \/ w ∈ writers s) ->
  (forall x, x <> w -> (x ∈ readers s' \/ x ∈ writers s') <-> (x ∈ readers s \/ x ∈ writers s)) -> winv s'.
Proof.
  intros H Hw Es Ea En Hh Hx. assert (Hne : forall x, x ∈ asleep s -> x <> w) by (intros x ? ->; done).
  split; unfold queue; rewrite ?Es, ?Ea, ?En.
  - apply (w_flags s H).
  - apply (w_sorted s H).
  - intros x Hin. apply (w_fresh s H). destruct (decide (x = w)) as [->|Hn]; [tauto|]. specialize (Hx x Hn). tauto.
  - intros x Hq. destruct (w_queue s H x Hq) as (Ha & Hr & Hwr). specialize (Hx x (Hne x Ha)). tauto.
  - intros x Ha. destruct (w_asleep s H x Ha) as [|Hh']; [auto|]. specialize (Hx x (Hne x Ha)). tauto.
Qed.

(** The outcomes of an acquiring call. *)
Definition reads (c : call) : bool := match c with DownRead | TryRead => true | _ => false end.

Lemma acquire_cases c sm n sem' a : acquire c sm n = (sem', a) ->
  (a = Granted /\ wait_list sm = [] /\ wait_list sem' = [] /\
    (if reads c then 0 <= activity sm /\ activity sem' = s32 (activity sm + 1) else activity sm = 0 /\ activity sem' = -1)) \/
  (a = Queued /\ exists f, (f = RWSEM_WAITING_FOR_READ \/ f = RWSEM_WAITING_FOR_WRITE) /\ sem' = RwSem (activity sm) (wait_list sm ++ [Waiter n f]) /\
    (wait_list sm = [] -> activity sm <> 0 /\ (f = RWSEM_WAITING_FOR_READ -> activity sm < 0))) \/
  (a = Refused /\ sem' = sm).
Proof.
  destruct c; cbn [acquire reads]; unfold __down_read, __down_write, __down_write_nested, __down_read_trylock, __down_write_trylock.
  all: match goal with |- context [0 <=? _] => destruct (Z.leb_spec 0 (activity sm)) | _ => destruct (Z.eqb_spec (activity sm) 0) end; destruct (wait_list sm) as [|x l] eqn:El; cbn [list_empty andb]; intros [= <- <-].
  all: try (left; repeat split; done || lia); try (right; right; done); right; left; (split; [done|]); eexists; (split; [|split; [done|]]); auto.
  all: intros E; first [done|split; [lia|intros Ef; first [lia|discriminate Ef]]].
Qed.

(** A new call that is granted, queued or refused. *)
Lemma winv_start s sem' c a : winv s -> acquire c (sem s) (next s) = (sem', a) -> winv (start s sem' c a).
Proof.
  intros H E. assert (Hn : forall x, x ∈ queue s -> (x < next s)%nat) by (intros x Hx; apply (w_fresh s H); left; apply (w_queue s H x Hx)).
  pose proof (w_fresh s H) as Hf. pose proof (w_queue s H) as Hq. pose proof (w_asleep s H) as Ha.
  apply acquire_cases in E as [(-> & E1 & E2 & _)|[(-> & f & Hff & -> & _)|(-> & ->)]].
  - assert (Eq : queue (start s sem' c Granted) = []) by (unfold queue; destruct c; cbn; now rewrite E2).
    assert (Eq0 : queue s = []) by (unfold queue; now rewrite E1). rewrite Eq0 in Ha. split; rewrite ?Eq.
    + replace (sem (start s sem' c Granted)) with sem' by now destruct c. rewrite E2. constructor.
    + constructor.
    + intros x Hx. specialize (Hf x). destruct c; cbn in Hx |- *; rewrite elem_of_union, elem_of_singleton in Hx; destruct (decide (x = next s)); subst; tauto || lia || (assert (x < next s)%nat by tauto; lia).
    + intros x Hx. set_solver.
    + intros x Hx. assert (Hx' : x ∈ asleep s) by (destruct c; exact Hx). specialize (Ha x Hx'). destruct c; cbn; rewrite elem_of_union; tauto.
  - assert (Eq : queue (start s (RwSem (activity (sem s)) (wait_list (sem s) ++ [Waiter (next s) f])) c Queued) = queue s ++ [next s])
      by (unfold queue; cbn; now rewrite fmap_app).
    split; rewrite ?Eq; cbn [start sem wait_list asleep readers writers next].
    + apply Forall_app. split; [apply (w_flags s H)|]. apply Forall_singleton. exact Hff.
    + apply sorted_snoc; [apply (w_sorted s H)|done].
    + intros x Hx. specialize (Hf x). rewrite elem_of_union, elem_of_singleton in Hx. destruct (decide (x = next s)); [lia|]. assert (x < next s)%nat by tauto. lia.
    + intros x Hx. rewrite elem_of_union, elem_of_singleton. apply elem_of_app in Hx as [Hx|Hx]; [specialize (Hq x Hx); tauto|].
      apply list_elem_of_singleton in Hx. subst x. split; [tauto|]. split; intros Hx; assert (next s < next s)%nat by (apply Hf; tauto); lia.
    + intros x Hx. rewrite elem_of_app, list_elem_of_singleton. rewrite elem_of_union, elem_of_singleton in Hx. specialize (Ha x). tauto.
  - split; cbn [start sem wait_list asleep readers writers next]; try apply H. intros x Hx. specialize (Hf x Hx). lia.
Qed.

(** Taking readers off the queue stops at a writer or at the end. *)
Lemma wake_readers_spec l : Forall (fun w => flags w = RWSEM_WAITING_FOR_READ \/ flags w = RWSEM_WAITING_FOR_WRITE) l -> l <> [] -> forall woken,
  exists rs rest, l = rs ++ rest /\ Forall (fun w => flags w = RWSEM_WAITING_FOR_READ) rs /\ head_is_writer rest /\ wake_readers l woken = Ok (rest, woken ++ rs).
Proof.
  induction 1 as [|w l Hw Hl IH]; intros Hne woken; [done|]. cbn [wake_readers]. unfold waits_for. destruct Hw as [Hw|Hw]; rewrite Hw.
  - change (negb (Z.land RWSEM_WAITING_FOR_READ RWSEM_WAITING_FOR_READ =? 0)) with true. cbv iota zeta. destruct l as [|y l]; cbn [list_empty].
    + exists [w], []. repeat split; [by constructor|done].
    + destruct (IH ltac:(done) (woken ++ [w])) as (rs & rest & E & Hrs & Hh & ->). exists (w :: rs), rest. rewrite E, <- app_assoc. repeat split; [by constructor|done].
  - change (negb (Z.land RWSEM_WAITING_FOR_WRITE RWSEM_WAITING_FOR_READ =? 0)) with false. cbv iota. exists [], (w :: l). rewrite app_nil_r.
    repeat split; [constructor|]. intros x [= <-]. done.
Qed.

(** * Handing the lock on *)

Lemma tasks_all f ws : Forall (fun w => flags w = f) ws -> tasks f ws = list_to_set (task <$> ws).
Proof.
  intros Hf. unfold tasks. f_equal. f_equal. induction Hf as [|w ws Hw _ IH]; [done|]. rewrite filter_cons_True by done. now rewrite IH.
Qed.

Lemma tasks_none f g ws : f <> g -> Forall (fun w => flags w = f) ws -> tasks g ws = ∅.
Proof.
  intros Hne Hf. rewrite Forall_forall in Hf. apply set_eq. intros x. rewrite elem_of_tasks. split; [|set_solver].
  intros (w & Hw & Hg & _). rewrite (Hf w) in Hg by now apply list_elem_of_In. done.
Qed.

Lemma set_bound (X : gset nat) n : (forall x, x ∈ X -> (x < n)%nat) -> (size X <= n)%nat.
Proof.
  intros H. transitivity (size (list_to_set (seq 0 n) : gset nat)).
  - apply subseteq_size. intros x Hx. apply elem_of_list_to_set, elem_of_seq. specialize (H x Hx). lia.
  - rewrite size_list_to_set by apply NoDup_seq. rewrite length_seq. lia.
Qed.

(** The two ways to hand the lock on: to [ws] as readers, beside the readers
    there are, or to a writer. *)
Definition handed (s : sys) (sem' : rw_semaphore) (ws : list rwsem_waiter) : Prop :=
  wait_list (sem s) = ws ++ wait_list sem' /\ writers s = ∅ /\
  ((Forall (fun w => flags w = RWSEM_WAITING_FOR_READ) ws /\ activity sem' = s32 (Z.of_nat (size (readers s)) + zlen ws) /\
      head_is_writer (wait_list sem') /\ (size (readers s) + length ws = 0 -> wait_list sem' = [])%nat) \/
   (exists x, ws = [x] /\ flags x = RWSEM_WAITING_FOR_WRITE /\ activity sem' = -1 /\ readers s = ∅)).

Lemma inv_hand s sem' ws : winv s -> Z.of_nat (next s) < 2 ^ 31 -> handed s sem' ws -> inv (hand s sem' ws).
Proof.
  intros H Hb (E & Hw & Hh). assert (Hi : winv (hand s (RwSem (activity sem') (wait_list sem')) ws)) by now apply winv_hand.
  replace (RwSem (activity sem') (wait_list sem')) with sem' in Hi by now destruct sem'.
  destruct Hh as [(Hr & Ha & Hhd & Hf)|(x & -> & Hx & Ha & Hr)].
  - assert (Hsz : size (readers (hand s sem' ws)) = (size (readers s) + length ws)%nat).
    { cbn [hand readers]. rewrite tasks_all by done. pose proof (w_sorted s H) as Hs. unfold queue in Hs. rewrite E, fmap_app in Hs. apply sorted_app_inv in Hs as (_ & _ & Hnd).
      assert (Hd : (list_to_set (task <$> ws) : gset nat) ## readers s).
      { intros y Hy1 Hy2. apply elem_of_list_to_set in Hy1. destruct (w_queue s H y) as (_ & Hn & _); [|done]. unfold queue. rewrite E, fmap_app. apply elem_of_app. auto. }
      rewrite size_union, size_list_to_set, length_fmap by done. lia. }
    assert (Hle : (size (readers s) + length ws <= next s)%nat) by (rewrite <- Hsz; apply set_bound; intros y Hy; apply (w_fresh _ Hi); auto).
    rewrite s32_id in Ha by (unfold is_s32, zlen; lia). split; [done| |cbn [hand sem]; intros H0; apply Hf; unfold zlen in Ha; lia|intros _; exact Hhd].
    left. split; [cbn [hand writers]; rewrite Hw, (tasks_none RWSEM_WAITING_FOR_READ) by done; set_solver|]. rewrite Hsz. cbn [hand sem]. unfold zlen in Ha. lia.
  - split; [done| |cbn; rewrite Ha; lia|cbn; rewrite Ha; lia]. right. exists (task x). cbn [hand sem readers writers].
    rewrite Hw, Hr, (tasks_none RWSEM_WAITING_FOR_WRITE RWSEM_WAITING_FOR_READ) by (done || by apply Forall_singleton).
    rewrite tasks_all by (by apply Forall_singleton). repeat split; done || set_solver.
Qed.

Lemma do_wake_spec sm wakewrite : Forall (fun w => flags w = RWSEM_WAITING_FOR_READ \/ flags w = RWSEM_WAITING_FOR_WRITE) (wait_list sm) -> wait_list sm <> [] ->
  exists sem' ws, __rwsem_do_wake sm wakewrite = Ok (sem', ws) /\ wait_list sm = ws ++ wait_list sem' /\
    ((Forall (fun w => flags w = RWSEM_WAITING_FOR_READ) ws /\ activity sem' = (if list_empty ws then activity sem' else s32 (activity sm + zlen ws)) /\
       (ws = [] -> sem' = sm /\ wakewrite = 0) /\ head_is_writer (wait_list sem')) \/
     (wakewrite <> 0 /\ exists x, ws = [x] /\ flags x = RWSEM_WAITING_FOR_WRITE /\ activity sem' = -1)).
Proof.
  intros Hf Hne. unfold __rwsem_do_wake. destruct (wait_list sm) as [|w l] eqn:El; [done|]. change (rd (w :: l) 0) with (Ok w). rewrite bind_ok. cbv zeta.
  pose proof (Forall_inv Hf) as Hw. destruct (wake_readers_spec (w :: l) Hf ltac:(done) []) as (rs & rest & E & Hrs & Hh & ->). rewrite bind_ok. unfold waits_for.
  destruct Hw as [Hw|Hw]; rewrite Hw.
  - change (negb (Z.land RWSEM_WAITING_FOR_READ RWSEM_WAITING_FOR_WRITE =? 0)) with false. cbv iota.
    assert (Hrne : rs <> []) by (intros ->; cbn [app] in E; rewrite <- E in Hh; specialize (Hh w eq_refl); rewrite Hw in Hh; discriminate Hh).
    exists (RwSem (s32 (activity sm + zlen rs)) rest), rs. split; [now destruct (wakewrite =? 0)|]. split; [done|]. left. split; [done|].
    split; [now destruct rs|]. split; [done|exact Hh].
  - change (negb (Z.land RWSEM_WAITING_FOR_WRITE RWSEM_WAITING_FOR_WRITE =? 0)) with true. cbv iota. destruct (Z.eqb_spec wakewrite 0).
    + exists sm, []. rewrite El. split; [done|]. split; [done|]. left. split; [constructor|]. split; [done|]. split; [done|]. intros x [= <-]. done.
    + eexists _, _. split; [done|]. split; [done|]. right. eauto.
Qed.

(** * The releasing operations in a state of the invariant *)

Section release.
Context (s : sys) (H : inv s) (Hb : Z.of_nat (next s) < 2 ^ 31).

Lemma reader_held w : w ∈ readers s -> writers s = ∅ /\ activity (sem s) = Z.of_nat (size (readers s)) /\ (1 <= size (readers s))%nat /\ Z.of_nat (size (readers s)) < 2 ^ 31.
Proof using H Hb.
  intros Hw. destruct (i_excl s H) as [[E1 E2]|(x & _ & E2 & _)]; [|rewrite E2 in Hw; now apply not_elem_of_empty in Hw]. split; [done|]. split; [done|].
  assert (size (readers s) <= next s)%nat by (apply set_bound; intros y Hy; apply (w_fresh s (i_winv s H)); auto).
  assert (size (readers s) <> 0)%nat by (intros E0; apply size_empty_inv in E0; set_solver). lia.
Qed.

Lemma writer_held w : w ∈ writers s -> writers s = {[w]} /\ readers s = ∅.
Proof using H. intros Hw. destruct (i_excl s H) as [[E1 _]|(x & E1 & E2 & _)]; rewrite E1 in Hw; [now apply not_elem_of_empty in Hw|]. apply elem_of_singleton in Hw as ->. done. Qed.

Lemma up_read_handed w : w ∈ readers s -> exists sem' ws, __up_read (sem s) = Ok (sem', ws) /\ handed (drop_reader s w) sem' ws /\
  (activity (sem s) = 1 -> wait_list (sem s) <> [] -> ws <> []).
Proof using H Hb.
  intros Hw. destruct (reader_held w Hw) as (Hwr & Ha & H1 & H2). pose proof (i_head s H ltac:(lia)) as Hh.
  assert (Hsz : size (readers s ∖ {[w]}) = (size (readers s) - 1)%nat) by (rewrite size_difference, size_singleton by set_solver; done).
  unfold __up_read. cbn [activity wait_list]. rewrite Ha, s32_id by (unfold is_s32; lia).
  destruct (Z.eqb_spec (Z.of_nat (size (readers s)) - 1) 0) as [E|E], (wait_list (sem s)) as [|x l] eqn:El; cbn [list_empty negb andb].
  - eexists _, _. split; [done|]. split; [|done]. split; [cbn; now rewrite El|]. split; [done|]. left. cbn [drop_reader readers wait_list activity]. rewrite Hsz.
    split; [constructor|]. split; [change (zlen []) with 0; rewrite s32_id by (unfold is_s32; lia); lia|]. split; [intros y [=]|done].
  - unfold __rwsem_wake_one_writer. cbn [wait_list]. change (rd (x :: l) 0) with (Ok x). rewrite bind_ok. eexists _, _. split; [done|]. split; [|done].
    split; [cbn; now rewrite El|]. split; [done|]. right. exists x. split; [done|]. split; [now apply Hh|]. split; [done|]. cbn [drop_reader readers].
    apply leibniz_equiv, size_empty_inv. lia.
  - eexists _, _. split; [done|]. split; [|lia]. split; [cbn; now rewrite El|]. split; [done|]. left. cbn [drop_reader readers wait_list activity]. rewrite Hsz.
    split; [constructor|]. split; [change (zlen []) with 0; rewrite s32_id by (unfold is_s32; lia); lia|]. split; [intros y [=]|done].
  - eexists _, _. split; [done|]. split; [|lia]. split; [cbn; now rewrite El|]. split; [done|]. left. cbn [drop_reader readers wait_list activity]. rewrite Hsz.
    split; [constructor|]. split; [change (zlen []) with 0; rewrite s32_id by (unfold is_s32; lia); lia|]. split; [exact Hh|cbn [length]; lia].
Qed.

Lemma up_write_handed w : w ∈ writers s -> exists sem' ws, __up_write (sem s) = Ok (sem', ws) /\ handed (drop_writer s w) sem' ws /\
  (wait_list (sem s) <> [] -> ws <> []).
Proof using H Hb.
  intros Hw. destruct (writer_held w Hw) as (Hwr & Hr). assert (Hwe : writers (drop_writer s w) = ∅) by (cbn; rewrite Hwr; set_solver). unfold __up_write. cbn [wait_list].
  destruct (list_empty (wait_list (sem s))) eqn:El; cbn [negb].
  - destruct (wait_list (sem s)) eqn:E; [|done]. eexists _, _. split; [done|]. split; [|done]. split; [cbn; now rewrite E|]. split; [done|]. left. cbn [drop_writer readers wait_list activity]. rewrite Hr.
    split; [constructor|]. split; [done|]. split; [intros y [=]|done].
  - destruct (do_wake_spec (RwSem 0 (wait_list (sem s))) 1) as (sem' & ws & -> & E & Hc); [apply (w_flags s (i_winv s H))|cbn; now destruct (wait_list (sem s))|].
    exists sem', ws. split; [done|]. destruct Hc as [(Hrs & Ha & Hne & Hh)|(_ & x & -> & Hx & Ha)].
    + assert (Hn : ws <> []) by (intros ->; destruct (Hne eq_refl); done). split; [|done]. split; [done|]. split; [done|]. left. cbn [drop_writer readers]. rewrite Hr.
      split; [done|]. split; [now destruct ws|]. split; [done|]. destruct ws; [done|cbn; lia].
    + split; [|done]. split; [done|]. split; [done|]. right. eauto.
Qed.

Lemma downgrade_handed w : w ∈ writers s -> exists sem' ws, __downgrade_write (sem s) = Ok (sem', ws) /\ handed (become_reader s w) sem' ws.
Proof using H Hb.
  intros Hw. destruct (writer_held w Hw) as (Hwr & Hr). assert (Hwe : writers (become_reader s w) = ∅) by (cbn; rewrite Hwr; set_solver). unfold __downgrade_write. cbn [wait_list].
  assert (Hsz : size (readers (become_reader s w)) = 1%nat) by (cbn [become_reader readers]; rewrite Hr, union_empty_r_L; apply size_singleton).
  destruct (list_empty (wait_list (sem s))) eqn:El; cbn [negb].
  - destruct (wait_list (sem s)) eqn:E; [|done]. eexists _, _. split; [done|]. split; [cbn; now rewrite E|]. split; [done|]. left. rewrite Hsz.
    split; [constructor|]. split; [done|]. split; [intros y [=]|done].
  - destruct (do_wake_spec (RwSem 1 (wait_list (sem s))) 0) as (sem' & ws & -> & E & Hc); [apply (w_flags s (i_winv s H))|cbn; now destruct (wait_list (sem s))|].
    exists sem', ws. split; [done|]. destruct Hc as [(Hrs & Ha & Hne & Hh)|(? & _)]; [|done]. split; [done|]. split; [done|]. left. rewrite Hsz.
    split; [done|]. split; [|split; [done|lia]]. destruct ws as [|y ws]; [destruct (Hne eq_refl) as [-> _]; done|exact Ha].
Qed.
End release.

(** * All runs *)

Lemma winv_wake s w : winv s -> (w ∈ readers s \/ w ∈ writers s) ->
  winv (Sys (sem s) (asleep s ∖ {[w]}) (readers s) (writers s) (served s) (frees s) (next s)).
Proof.
  intros H Hh. split; try apply H; cbn [asleep readers writers next].
  - intros x Hx. apply (w_fresh s H). rewrite elem_of_difference in Hx. tauto.
  - intros x Hx. destruct (w_queue s H x Hx) as (Ha & Hr & Hw). split; [|done]. apply elem_of_difference. split; [done|]. intros Ew. apply elem_of_singleton in Ew as ->. tauto.
  - intros x Hx. apply elem_of_difference in Hx as [Hx _]. apply (w_asleep s H x Hx).
Qed.

Lemma inv_start s c sem' a : inv s -> Z.of_nat (S (next s)) < 2 ^ 31 -> acquire c (sem s) (next s) = (sem', a) -> inv (start s sem' c a).
Proof.
  intros H Hb E. pose proof (winv_start s sem' c a (i_winv s H) E) as Hi.
  apply acquire_cases in E as [(-> & E1 & E2 & Hc)|[(-> & f & Hf & -> & He)|(-> & ->)]].
  - assert (Hnew : next s ∉ readers s) by (intros Hin; assert (next s < next s)%nat by (apply (w_fresh s (i_winv s H)); auto); lia).
    assert (Hsz : (size (readers s) <= next s)%nat) by (apply set_bound; intros y Hy; apply (w_fresh s (i_winv s H)); auto).
    replace (sem (start s sem' c Granted)) with sem' in * by now destruct c. split; [done| | |]; replace (sem (start s sem' c Granted)) with sem' by now destruct c.
    + destruct (i_excl s H) as [[Ew Ea]|(w & Ew & Er & Ea)]; [|destruct (reads c); lia]. destruct (reads c) eqn:Ec.
      * left. replace (writers (start s sem' c Granted)) with (writers s) by now destruct c. split; [done|].
        replace (readers (start s sem' c Granted)) with ({[next s]} ∪ readers s) by now destruct c.
        destruct Hc as [_ ->]. rewrite Ea, s32_id by (unfold is_s32; lia). rewrite size_union, size_singleton by set_solver. lia.
      * right. exists (next s). replace (writers (start s sem' c Granted)) with ({[next s]} ∪ writers s) by now destruct c.
        replace (readers (start s sem' c Granted)) with (readers s) by now destruct c. destruct Hc as [Ha0 Ha]. rewrite Ew. split; [apply union_empty_r_L|]. split; [|done].
        apply leibniz_equiv, size_empty_inv. lia.
    + intros _. exact E2.
    + intros _. rewrite E2. intros w [=].
  - split; [done|exact (i_excl s H)| |]; cbn [start sem activity wait_list].
    + intros H0. specialize (He (i_free s H H0)). lia.
    + intros Hp w Hw. destruct (wait_list (sem s)) as [|x l] eqn:El.
      * cbn in Hw. injection Hw as <-. destruct Hf as [Hf|Hf]; [|exact Hf]. destruct (He eq_refl) as [_ He']. specialize (He' Hf). lia.
      * pose proof (i_head s H Hp) as Hh. rewrite El in Hh. apply Hh. exact Hw.
  - split; [done|exact (i_excl s H)|exact (i_free s H)|exact (i_head s H)].
Qed.

Lemma winv_drops s w : inv s -> w ∉ asleep s ->
  (w ∈ readers s -> winv (drop_reader s w)) /\ (w ∈ writers s -> winv (drop_writer s w) /\ winv (become_reader s w)).
Proof.
  intros H Ha. split; [intros Hw|intros Hw; split]; (eapply (winv_drop s _ w (i_winv s H) Ha); [done|done|done|auto|]); intros x Hx; cbn; set_solver.
Qed.

Lemma step_next s s' : step s s' -> (next s <= next s')%nat.
Proof. destruct 1 as [c sem' a E| | | |]; [destruct a, c; cbn; lia|cbn; lia..]. Qed.

(** From [s] to [s'] the queue lost a prefix, which was served, and gained calls
    at its end; each time the lock became free the prefix grew. *)
Definition advance (s s' : sys) : Prop :=
  exists k new, queue s' = drop k (queue s) ++ new /\ (forall x, x ∈ take k (queue s) -> x ∈ served s') /\ (forall x, x ∈ served s -> x ∈ served s') /\
    (frees s <= frees s')%nat /\ (frees s' - frees s <= k \/ length (queue s) <= k)%nat.

Lemma advance_keep s s' new : queue s' = queue s ++ new -> (forall x, x ∈ served s -> x ∈ served s') -> frees s' = frees s -> advance s s'.
Proof. intros E Hs Hf. exists 0%nat, new. rewrite E, Hf. split; [done|]. split; [set_solver|]. split; [done|]. lia. Qed.

Lemma advance_trans s1 s2 s3 : advance s1 s2 -> advance s2 s3 -> advance s1 s3.
Proof.
  intros (k1 & n1 & E1 & T1 & S1 & F1 & L1) (k2 & n2 & E2 & T2 & S2 & F2 & L2). rewrite E1 in *.
  assert (Hlen : length (drop k1 (queue s1)) = (length (queue s1) - k1)%nat) by apply length_drop.
  exists (k1 + k2)%nat, (drop (k2 - (length (queue s1) - k1)) n1 ++ n2). rewrite E2, drop_app, drop_drop, Hlen, <- app_assoc.
  split; [done|]. split; [|split; [auto|split; [lia|]]].
  - intros x Hx. rewrite <- (take_drop k1 (queue s1)), take_app in Hx. apply elem_of_app in Hx as [Hx|Hx].
    + apply S2, T1. apply elem_of_take in Hx as (j & Hj & _). eapply list_elem_of_lookup_2. exact Hj.
    + apply T2. rewrite take_app. apply elem_of_app. left. apply elem_of_take in Hx as (j & Hj & Hlt). apply elem_of_take. exists j. split; [done|]. rewrite length_take in Hlt.
      apply lookup_lt_Some in Hj. rewrite Hlen in Hj. lia.
  - rewrite length_app, Hlen in L2. lia.
Qed.

Lemma advance_hand s s0 sem' ws : sem s0 = sem s -> served s0 = served s -> handed s0 sem' ws -> (frees s <= frees s0 <= S (frees s))%nat ->
  ((frees s < frees s0)%nat -> wait_list (sem s) <> [] -> ws <> []) -> advance s (hand s0 sem' ws).
Proof.
  intros Es Ev (E & _) Hfr Hne. exists (length ws), []. rewrite app_nil_r. unfold queue. cbn [hand sem served frees]. rewrite Es in E. rewrite E in *. rewrite Ev, fmap_app.
  rewrite drop_app_length' by now rewrite length_fmap. rewrite take_app_length' by now rewrite length_fmap.
  split; [done|]. split; [intros x Hx; apply elem_of_app; auto|]. split; [intros x Hx; apply elem_of_app; auto|]. split; [lia|].
  rewrite length_app, !length_fmap. destruct ws as [|w ws]; [|cbn [length]; lia]. destruct (wait_list sem'); [right; cbn; lia|]. left. cbn [length].
  destruct (decide (frees s < frees s0)%nat) as [Hlt|]; [now destruct (Hne Hlt)|lia].
Qed.

Lemma rw_inv_step s s' : inv s -> Z.of_nat (next s') < 2 ^ 31 -> step s s' -> inv s' /\ advance s s'.
Proof.
  intros H Hb Hs. pose proof (step_next s s' Hs) as Hn.
  destruct Hs as [c sem' a E|w Hw Hh|w sem' ws Hw Ha E|w sem' ws Hw Ha E|w sem' ws Hw Ha E].
  - split; [apply inv_start; [done|destruct a, c; exact Hb|done]|]. apply acquire_cases in E as [(-> & E1 & E2 & _)|[(-> & f & _ & -> & _)|(-> & ->)]].
    + apply (advance_keep _ _ []); unfold queue; rewrite ?E1; destruct c; cbn; rewrite ?E2; done || set_solver.
    + apply (advance_keep _ _ [next s]); [unfold queue; cbn; now rewrite fmap_app|done|done].
    + apply (advance_keep _ _ []); [now rewrite app_nil_r|done|done].
  - split; [|apply (advance_keep _ _ []); [now rewrite app_nil_r|done|done]].
    split; [apply winv_wake; [apply (i_winv s H)|done]|exact (i_excl s H)|exact (i_free s H)|exact (i_head s H)].
  - destruct (up_read_handed s H ltac:(lia) w Hw) as (sem2 & ws2 & E2 & Hh & Hne). rewrite E2 in E. injection E as <- <-. destruct (winv_drops s w H Ha) as [Hd _].
    split; [apply inv_hand; [now apply Hd|exact Hb|done]|]. apply advance_hand; [done..|cbn; destruct (activity (sem s) =? 1); lia|].
    cbn. destruct (Z.eqb_spec (activity (sem s)) 1); [auto|lia].
  - destruct (up_write_handed s H ltac:(lia) w Hw) as (sem2 & ws2 & E2 & Hh & Hne). rewrite E2 in E. injection E as <- <-. destruct (winv_drops s w H Ha) as [_ Hd].
    split; [apply inv_hand; [now apply Hd|exact Hb|done]|]. apply advance_hand; [done..|cbn; lia|auto].
  - destruct (downgrade_handed s H ltac:(lia) w Hw) as (sem2 & ws2 & E2 & Hh). rewrite E2 in E. injection E as <- <-. destruct (winv_drops s w H Ha) as [_ Hd].
    split; [apply inv_hand; [now apply Hd|exact Hb|done]|]. apply advance_hand; [done..|cbn; lia|cbn; lia].
Qed.

Lemma steps_next s s' : rtc step s s' -> (next s <= next s')%nat.
Proof. induction 1 as [|s1 s2 s3 H1 _ IH]; [done|]. apply step_next in H1. lia. Qed.

Lemma rw_inv_steps s s' : inv s -> Z.of_nat (next s') < 2 ^ 31 -> rtc step s s' -> inv s' /\ advance s s'.
Proof.
  intros H Hb Hs. induction Hs as [s|s1 s2 s3 H1 H2 IH]; [split; [done|apply (advance_keep _ _ []); [now rewrite app_nil_r|done|done]]|].
  pose proof (steps_next s2 s3 H2). destruct (rw_inv_step s1 s2 H ltac:(lia) H1) as [Hi Ha]. destruct (IH Hi Hb) as [Hi' Ha']. split; [done|]. now apply (advance_trans s1 s2 s3).
Qed.

Lemma rw_inv_init : inv init.
Proof.
  split; [split; cbn; [constructor|constructor|set_solver..]|by left|done|done].
Qed.

(** C2: exclusion.  In every state that any interleaving of lock, trylock,
    unlock and downgrade calls can reach, there is at most one writer and then no
    reader; [activity] is -1 then and otherwise the number of readers.  Nobody
    waits for a free lock, and while readers hold it the first waiter is a writer,
    so that [__rwsem_wake_one_writer] wakes what its name says.  A sleeping call
    is queued or holds the lock, a queued call holds nothing, and every release
    and downgrade by a holder succeeds. *)
Theorem rwsem_safety s : rtc step init s -> Z.of_nat (next s) < 2 ^ 31 ->
  ((writers s = ∅ /\ activity (sem s) = Z.of_nat (size (readers s))) \/ (exists w, writers s = {[w]} /\ readers s = ∅ /\ activity (sem s) = -1)) /\
  (rwsem_is_locked (sem s) = false -> wait_list (sem s) = []) /\
  (0 < activity (sem s) -> head_is_writer (wait_list (sem s))) /\
  (forall w, w ∈ asleep s -> (w ∈ queue s) \/ (w ∈ readers s) \/ (w ∈ writers s)) /\
  (forall w, w ∈ queue s -> (w ∈ asleep s) /\ (w ∉ readers s) /\ (w ∉ writers s)) /\
  (forall w, w ∈ readers s -> exists r, __up_read (sem s) = Ok r) /\
  (forall w, w ∈ writers s -> (exists r, __up_write (sem s) = Ok r) /\ exists r, __downgrade_write (sem s) = Ok r).
Proof.
  intros Hr Hb. destruct (rw_inv_steps init s rw_inv_init Hb Hr) as [H _]. pose proof (i_winv s H) as Hw.
  split; [apply (i_excl s H)|]. split; [intros Hl; apply (i_free s H); unfold rwsem_is_locked in Hl; destruct (Z.eqb_spec (activity (sem s)) 0); done|].
  split; [apply (i_head s H)|]. split; [apply (w_asleep s Hw)|]. split; [apply (w_queue s Hw)|]. split.
  - intros w Hin. destruct (up_read_handed s H Hb w Hin) as (sem' & ws & -> & _). eauto.
  - intros w Hin. destruct (up_write_handed s H Hb w Hin) as (sem' & ws & -> & _). destruct (downgrade_handed s H Hb w Hin) as (sem2 & ws2 & -> & _). eauto.
Qed.

(** A reader, a writer that waits, a reader behind it; then the first leaves. *)
Definition run : sys := Sys (RwSem (-1) [Waiter 2 RWSEM_WAITING_FOR_READ]) ({[2%nat]} ∪ ({[1%nat]} ∪ ∅))
  (∅ ∪ (({[0%nat]} ∪ ∅) ∖ {[0%nat]})) ({[1%nat]} ∪ ∅ ∪ ∅) [1%nat; 0%nat] 1 3.

Lemma run_reachable : rtc step init run.
Proof.
  eapply rtc_l; [apply (step_acquire _ DownRead); reflexivity|]. eapply rtc_l; [apply (step_acquire _ DownWrite); reflexivity|].
  eapply rtc_l; [apply (step_acquire _ DownRead); reflexivity|]. eapply rtc_l; [apply (step_up_read _ 0%nat); [set_solver|set_solver|reflexivity]|]. apply rtc_refl.
Qed.

Lemma rwsem_safety_witness :
  (exists w, writers run = {[w]} /\ readers run = ∅ /\ activity (sem run) = -1) /\ exists r, __up_write (sem run) = Ok r.
Proof.
  destruct (rwsem_safety run run_reachable ltac:(reflexivity)) as (H1 & _ & _ & _ & _ & _ & H7). split.
  - destruct H1 as [[_ H1]|H1]; [vm_compute in H1; discriminate H1|exact H1].
  - apply (H7 1%nat). cbn. set_solver.
Defined.

(** C27: fairness.  Calls leave the queue from its front only, in the order in
    which they arrived, and are given the lock when they leave; each time the lock
    becomes free the front moves on.  So a call with [i] others before it has been
    given the lock once the lock became free more than [i] times, whatever else
    happens; and while anybody waits no later call, trylock included, is granted
    the lock at once, so that readers cannot starve a writer. *)
Theorem rwsem_fairness s s' : rtc step init s -> rtc step s s' -> Z.of_nat (next s') < 2 ^ 31 ->
  StronglySorted lt (queue s) /\ advance s s' /\
  (forall i w, queue s !! i = Some w -> (i < frees s' - frees s)%nat -> w ∈ served s') /\
  (forall c n sem' a, queue s <> [] -> acquire c (sem s) n = (sem', a) -> a <> Granted).
Proof.
  intros Hr Hs Hb. pose proof (steps_next s s' Hs) as Hn. destruct (rw_inv_steps init s rw_inv_init ltac:(lia) Hr) as [H _]. destruct (rw_inv_steps s s' H Hb Hs) as [_ Ha].
  split; [apply (w_sorted s (i_winv s H))|]. split; [done|]. split.
  - intros i w Hi Hlt. destruct Ha as (k & new & _ & Ht & _ & _ & Hk). apply Ht, elem_of_take. exists i. split; [done|]. apply lookup_lt_Some in Hi. lia.
  - intros c n sem' a Hq E ->. apply acquire_cases in E as [(_ & E & _)|[(E & _)|(E & _)]]; [|done..]. unfold queue in Hq. rewrite E in Hq. done.
Qed.

(** The reader that waits behind the writer is served when the writer leaves. *)
Lemma rwsem_fairness_witness : exists s', rtc step run s' /\ 2%nat ∈ served s'.
Proof.
  eexists. assert (Hr : rtc step run (hand (drop_writer (Sys (sem run) (asleep run ∖ {[1%nat]}) (readers run) (writers run) (served run) (frees run) (next run)) 1%nat)
    (RwSem 1 []) [Waiter 2 RWSEM_WAITING_FOR_READ])).
  { eapply rtc_l; [apply (step_wake _ 1%nat); cbn; set_solver|]. eapply rtc_l; [apply (step_up_write _ 1%nat); cbn; [set_solver|set_solver|reflexivity]|]. apply rtc_refl. }
  split; [exact Hr|]. destruct (rwsem_fairness run _ run_reachable Hr ltac:(reflexivity)) as (_ & _ & H & _). apply (H 0%nat); [reflexivity|cbn; lia].
Defined.
