(* ===== verification/Ctype.v ===== *)
(** lib/ctype.c and include/linux/ctype.h: the character classes, looked up in a
    table of flags. *)
From S2P Require Import Prelude.

Definition _U : Z := 0x01.
Definition _L : Z := 0x02.
Definition _D : Z := 0x04.
Definition _C : Z := 0x08.
Definition _P : Z := 0x10.
Definition _S : Z := 0x20.
Definition _X : Z := 0x40.
Definition _SP : Z := 0x80.

Local Notation "a .| b" := (Z.lor a b) (at level 50, left associativity).

Definition _ctype : list Z := [
  _C; _C; _C; _C; _C; _C; _C; _C;
  _C; _C .| _S; _C .| _S; _C .| _S; _C .| _S; _C .| _S; _C; _C;
  _C; _C; _C; _C; _C; _C; _C; _C;
  _C; _C; _C; _C; _C; _C; _C; _C;
  _S .| _SP; _P; _P; _P; _P; _P; _P; _P;
  _P; _P; _P; _P; _P; _P; _P; _P;
  _D; _D; _D; _D; _D; _D; _D; _D;
  _D; _D; _P; _P; _P; _P; _P; _P;
  _P; _U .| _X; _U .| _X; _U .| _X; _U .| _X; _U .| _X; _U .| _X; _U;
  _U; _U; _U; _U; _U; _U; _U; _U;
  _U; _U; _U; _U; _U; _U; _U; _U;
  _U; _U; _U; _P; _P; _P; _P; _P;
  _P; _L .| _X; _L .| _X; _L .| _X; _L .| _X; _L .| _X; _L .| _X; _L;
  _L; _L; _L; _L; _L; _L; _L; _L;
  _L; _L; _L; _L; _L; _L; _L; _L;
  _L; _L; _L; _P; _P; _P; _P; _C;
  0; 0; 0; 0; 0; 0; 0; 0; 0; 0; 0; 0; 0; 0; 0; 0;
  0; 0; 0; 0; 0; 0; 0; 0; 0; 0; 0; 0; 0; 0; 0; 0;
  _S .| _SP; _P; _P; _P; _P; _P; _P; _P; _P; _P; _P; _P; _P; _P; _P; _P;
  _P; _P; _P; _P; _P; _P; _P; _P; _P; _P; _P; _P; _P; _P; _P; _P;
  _U; _U; _U; _U; _U; _U; _U; _U; _U; _U; _U; _U; _U; _U; _U; _U;
  _U; _U; _U; _U; _U; _U; _U; _P; _U; _U; _U; _U; _U; _U; _U; _L;
  _L; _L; _L; _L; _L; _L; _L; _L; _L; _L; _L; _L; _L; _L; _L; _L;
  _L; _L; _L; _L; _L; _L; _L; _P; _L; _L; _L; _L; _L; _L; _L; _L].

Definition __ismask (x : Z) : Z := nth (Z.to_nat (u8 x)) _ctype 0.

Definition isalnum (c : Z) : bool := negb (Z.land (__ismask c) (_U .| _L .| _D) =? 0).
Definition isalpha (c : Z) : bool := negb (Z.land (__ismask c) (_U .| _L) =? 0).
Definition iscntrl (c : Z) : bool := negb (Z.land (__ismask c) _C =? 0).
Definition isdigit (c : Z) : bool := negb (Z.land (__ismask c) _D =? 0).
Definition isgraph (c : Z) : bool := negb (Z.land (__ismask c) (_P .| _U .| _L .| _D) =? 0).
Definition islower (c : Z) : bool := negb (Z.land (__ismask c) _L =? 0).
Definition isprint (c : Z) : bool := negb (Z.land (__ismask c) (_P .| _U .| _L .| _D .| _SP) =? 0).
Definition ispunct (c : Z) : bool := negb (Z.land (__ismask c) _P =? 0).
Definition isspace (c : Z) : bool := negb (Z.land (__ismask c) _S =? 0).
Definition isupper (c : Z) : bool := negb (Z.land (__ismask c) _U =? 0).
Definition isxdigit (c : Z) : bool := negb (Z.land (__ismask c) (_D .| _X) =? 0).
Definition isascii (c : Z) : bool := u8 c <=? 0x7f.
Definition toascii (c : Z) : Z := Z.land (u8 c) 0x7f.
Definition __tolower (c : Z) : Z := if isupper c then u8 (c - (65 - 97)) else c.
Definition __toupper (c : Z) : Z := if islower c then u8 (c - (97 - 65)) else c.

Definition between (a b c : Z) : bool := (a <=? c) && (c <=? b).

(** On ASCII the classes are those of the C standard. *)
Lemma ctype_ascii c : 0 <= c < 128 ->
  isdigit c = between 48 57 c /\ isupper c = between 65 90 c /\ islower c = between 97 122 c /\
  isalpha c = isupper c || islower c /\ isalnum c = isalpha c || isdigit c /\
  isxdigit c = isdigit c || between 65 70 c || between 97 102 c /\
  iscntrl c = (c <? 32) || (c =? 127) /\ isspace c = between 9 13 c || (c =? 32) /\
  isprint c = between 32 126 c /\ isgraph c = between 33 126 c /\ ispunct c = isgraph c && negb (isalnum c) /\
  isascii c = true /\ toascii c = c /\
  __tolower c = (if isupper c then c + 32 else c) /\ __toupper c = (if islower c then c - 32 else c).
Proof.
  intros Hc. pose (P := fun c => implb (c <? 128) (forallb (fun b => b) [
    Bool.eqb (isdigit c) (between 48 57 c); Bool.eqb (isupper c) (between 65 90 c); Bool.eqb (islower c) (between 97 122 c);
    Bool.eqb (isalpha c) (isupper c || islower c); Bool.eqb (isalnum c) (isalpha c || isdigit c);
    Bool.eqb (isxdigit c) (isdigit c || between 65 70 c || between 97 102 c); Bool.eqb (iscntrl c) ((c <? 32) || (c =? 127));
    Bool.eqb (isspace c) (between 9 13 c || (c =? 32)); Bool.eqb (isprint c) (between 32 126 c); Bool.eqb (isgraph c) (between 33 126 c);
    Bool.eqb (ispunct c) (isgraph c && negb (isalnum c)); Bool.eqb (isascii c) true; toascii c =? c;
    __tolower c =? (if isupper c then c + 32 else c); __toupper c =? (if islower c then c - 32 else c)])).
  pose proof (byte_check P c ltac:(vm_compute; reflexivity) ltac:(unfold is_u8; lia)) as H. unfold P in H. destruct (Z.ltb_spec c 128); [|lia].
  cbn [implb forallb] in H. rewrite !andb_true_iff in H. decompose [and] H. repeat split; (now apply eqb_prop) || now apply Z.eqb_eq.
Qed.
