(* ===== verification/Strtol.v ===== *)
(** lib/vsprintf.c: reading numbers.  A string is a buffer with a NUL byte in
    it, a pointer into it a position. *)
From S2P Require Import Prelude.
From S2P Require Import Ring.
From S2P Require Import Blocks.
From S2P Require Import Ctype.

Definition TOLOWER (x : Z) : Z := Z.lor x 0x20.

Definition chr_0 : Z := 48.
Definition chr_x : Z := 120.
Definition chr_a : Z := 97.
Definition chr_minus : Z := 45.
Definition chr_nl : Z := 10.
Definition EINVAL : Z := 22.

Definition simple_guess_base (s : list Z) (cp : Z) : res Z :=
  c0 ← rd s cp;
  if c0 =? chr_0 then
    c1 ← rd s (cp + 1);
    if TOLOWER c1 =? chr_x then
      c2 ← rd s (cp + 2);
      Ok (if isxdigit c2 then 16 else 8)
    else Ok 8
  else Ok 10.

(** The skipped "0x". *)
Definition skip_prefix (s : list Z) (cp base : Z) : res Z :=
  if base =? 16 then
    c0 ← rd s cp;
    if c0 =? chr_0 then c1 ← rd s (cp + 1); Ok (if TOLOWER c1 =? chr_x then cp + 2 else cp) else Ok cp
  else Ok cp.

Definition digit_value (c : Z) : Z := u32 (if isdigit c then c - chr_0 else TOLOWER c - chr_a + 10).

(** The two functions differ in the width of the result only: the value and
    the position of [endp]. *)
Definition simple_strto (wrap : Z -> Z) (s : list Z) (cp base : Z) : res (Z * Z) :=
  base ← (if base =? 0 then simple_guess_base s cp else Ok base);
  cp ← skip_prefix s cp base;
  loop (S (length s)) (fun '(result, cp) =>
    c ← rd s cp;
    if isxdigit c then
      let value := digit_value c in
      if base <=? value then Ok (inr (result, cp)) else
      Ok (inl (wrap (result * base + value), cp + 1))
    else Ok (inr (result, cp))) (0, cp).

Definition simple_strtoul := simple_strto u32.
Definition simple_strtoull := simple_strto u64.

Definition simple_strtol (s : list Z) (cp base : Z) : res (Z * Z) :=
  c ← rd s cp;
  if c =? chr_minus then '(v, e) ← simple_strtoul s (cp + 1) base; Ok (s32 (u32 (- v)), e)
  else '(v, e) ← simple_strtoul s cp base; Ok (s32 v, e).

Definition simple_strtoll (s : list Z) (cp base : Z) : res (Z * Z) :=
  c ← rd s cp;
  if c =? chr_minus then '(v, e) ← simple_strtoull s (cp + 1) base; Ok (s64 (u64 (- v)), e)
  else '(v, e) ← simple_strtoull s cp base; Ok (s64 v, e).

(** lib/string.c *)
Definition strlen (s : list Z) (cp : Z) : res Z :=
  loop (S (length s)) (fun sc => c ← rd s sc; Ok (if c =? 0 then inr (sc - cp) else inl (sc + 1))) cp.

(** The return value and [*res]. *)
Definition strict_strto (wrap : Z -> Z) (s : list Z) (cp base : Z) : res (Z * Z) :=
  len ← strlen s cp;
  if len =? 0 then Ok (- EINVAL, 0) else
  '(val, tail) ← simple_strto wrap s cp base;
  if tail =? cp then Ok (- EINVAL, 0) else
  c ← rd s tail;
  if (c =? 0) || ((len =? u32 (u32 (tail - cp) + 1)) && (c =? chr_nl)) then Ok (0, val) else Ok (- EINVAL, 0).

Definition strict_strtoul := strict_strto u32.
Definition strict_strtoull := strict_strto u64.

Definition strict_strtol (s : list Z) (cp base : Z) : res (Z * Z) :=
  c ← rd s cp;
  if c =? chr_minus then
    '(ret, v) ← strict_strtoul s (cp + 1) base;
    Ok (ret, if ret =? 0 then s32 (- s32 v) else s32 v)
  else '(ret, v) ← strict_strtoul s cp base; Ok (ret, s32 v).

Definition strict_strtoll (s : list Z) (cp base : Z) : res (Z * Z) :=
  c ← rd s cp;
  if c =? chr_minus then
    '(ret, v) ← strict_strtoull s (cp + 1) base;
    Ok (ret, if ret =? 0 then s64 (- s64 v) else s64 v)
  else '(ret, v) ← strict_strtoull s cp base; Ok (ret, s64 v).

(** * What the functions should return *)

(** Characters of a string [l], its NUL not included. *)
Definition cstring (l : list Z) : Prop := Forall (fun c => 0 < c < 256) l.

Definition hex_digit (c : Z) : bool := (48 <=? c) && (c <=? 57) || (65 <=? c) && (c <=? 70) || (97 <=? c) && (c <=? 102).
Definition hex_value (c : Z) : Z := if c <=? 57 then c - 48 else if c <=? 70 then c - 55 else c - 87.
Definition digit_in (base c : Z) : bool := hex_digit c && (hex_value c <? base).

(** The digits at the head of a string, and the number they denote. *)
Fixpoint digits (base : Z) (l : list Z) : list Z :=
  match l with c :: l => if digit_in base c then hex_value c :: digits base l else [] | [] => [] end.
Definition value (base : Z) (ds : list Z) : Z := fold_left (fun a d => a * base + d) ds 0.

Definition is_x (c : Z) : bool := (c =? 88) || (c =? 120).
Definition guess (l : list Z) : Z :=
  match l with
  | c :: l => if c =? 48 then match l with x :: h :: _ => if is_x x && hex_digit h then 16 else 8 | _ => 8 end else 10
  | [] => 10
  end.
Definition prefix_len (base : Z) (l : list Z) : nat :=
  match l with c :: x :: _ => if (base =? 16) && (c =? 48) && is_x x then 2 else 0 | _ => 0 end.
Definition effective_base (base : Z) (l : list Z) : Z := if base =? 0 then guess l else base.

(** Digits read and characters consumed. *)
Definition parsed (base : Z) (l : list Z) : list Z := digits (effective_base base l) (drop (prefix_len (effective_base base l) l) l).
Definition consumed (base : Z) (l : list Z) : nat := prefix_len (effective_base base l) l + length (parsed base l).

(** * Proofs *)

Lemma char_tests c : is_u8 c ->
  isxdigit c = hex_digit c /\ (TOLOWER c =? chr_x) = is_x c /\ (hex_digit c = true -> digit_value c = hex_value c).
Proof.
  intros Hc. pose (P := fun c => Bool.eqb (isxdigit c) (hex_digit c) && (Bool.eqb (TOLOWER c =? chr_x) (is_x c) && implb (hex_digit c) (digit_value c =? hex_value c))).
  pose proof (byte_check P c ltac:(vm_compute; reflexivity) Hc) as H. unfold P in H. apply andb_prop in H as [H1 H]. apply andb_prop in H as [H2 H3].
  split; [now apply eqb_prop|]. split; [now apply eqb_prop|]. intros Hh. rewrite Hh in H3. now apply Z.eqb_eq.
Qed.

Section strings.
Context (pre l post : list Z) (Hl : cstring l).
Local Abbreviation s := (pre ++ l ++ 0 :: post).

(** Reading the string up to its NUL. *)
Lemma rd_string k : (k <= length l)%nat -> rd s (zlen pre + Z.of_nat k) = Ok (nth k l 0) /\ is_u8 (nth k l 0).
Proof using Hl.
  intros Hk. split.
  - rewrite (rd_at 0) by (rewrite !zlen_app; unfold zlen; cbn [length]; lia). f_equal. pose proof (zlen_nonneg pre). rewrite at_app by lia.
    destruct (Z.ltb_spec (zlen pre + Z.of_nat k) (zlen pre)); [lia|]. replace (zlen pre + Z.of_nat k - zlen pre) with (Z.of_nat k) by lia. rewrite at_app by lia.
    unfold zlen, at_. destruct (Z.ltb_spec (Z.of_nat k) (Z.of_nat (length l))); [now rewrite Nat2Z.id|].
    replace (Z.to_nat (Z.of_nat k - Z.of_nat (length l))) with 0%nat by lia. cbn. rewrite nth_overflow by lia. done.
  - destruct (decide (k < length l)%nat); [|rewrite nth_overflow by lia; unfold is_u8; lia]. unfold cstring in Hl. rewrite List.Forall_forall in Hl.
    specialize (Hl (nth k l 0) ltac:(now apply nth_In)). unfold is_u8. lia.
Qed.

Lemma rd_string0 : rd s (zlen pre) = Ok (nth 0 l 0) /\ is_u8 (nth 0 l 0).
Proof using Hl. pose proof (rd_string 0 ltac:(lia)) as H. now rewrite Z.add_0_r in H. Qed.
End strings.

Lemma guess_ok pre l post : cstring l -> simple_guess_base (pre ++ l ++ 0 :: post) (zlen pre) = Ok (guess l).
Proof.
  intros Hl. unfold simple_guess_base, guess, chr_0. destruct (rd_string0 pre l post Hl) as [-> _]. rewrite bind_ok. destruct l as [|c [|x [|h l']]] eqn:El; cbn [nth].
  - done.
  - destruct (c =? 48); [|done]. destruct (rd_string pre _ post Hl 1) as [E _]; [cbn; lia|]. cbn [nth] in E. change (Z.of_nat 1) with 1 in E. rewrite E, bind_ok. done.
  - destruct (c =? 48); [|done]. destruct (rd_string pre _ post Hl 1) as [E Hx]; [cbn; lia|]. destruct (rd_string pre _ post Hl 2) as [E2 _]; [cbn; lia|]. cbn [nth] in *. change (Z.of_nat 1) with 1 in *. change (Z.of_nat 2) with 2 in *.
    rewrite E, bind_ok, E2. destruct (char_tests x Hx) as (_ & -> & _). rewrite bind_ok. now destruct (is_x x).
  - destruct (c =? 48); [|done]. destruct (rd_string pre _ post Hl 1) as [E Hx]; [cbn; lia|]. destruct (rd_string pre _ post Hl 2) as [E2 Hh]; [cbn; lia|]. cbn [nth] in *. change (Z.of_nat 1) with 1 in *. change (Z.of_nat 2) with 2 in *.
    rewrite E, bind_ok, E2. destruct (char_tests x Hx) as (_ & -> & _). rewrite bind_ok. destruct (char_tests h Hh) as (-> & _). destruct (is_x x); [|done]. now destruct (hex_digit h).
Qed.

Lemma skip_ok pre l post base : cstring l -> skip_prefix (pre ++ l ++ 0 :: post) (zlen pre) base = Ok (zlen pre + Z.of_nat (prefix_len base l)) /\ (prefix_len base l <= length l)%nat.
Proof.
  intros Hl. unfold skip_prefix, prefix_len, chr_0. destruct (rd_string0 pre l post Hl) as [-> _]. destruct (base =? 16).
  2: { split; [destruct l as [|c [|x l']]; cbn [andb]; now rewrite Z.add_0_r|]. destruct l as [|c [|x l']]; cbn; lia. }
  rewrite bind_ok. destruct l as [|c [|x l']] eqn:El; cbn [nth andb].
  - now rewrite Z.add_0_r.
  - rewrite Z.add_0_r. split; [|cbn; lia]. destruct (c =? 48); [|done]. destruct (rd_string pre _ post Hl 1) as [E _]; [cbn; lia|]. cbn [nth] in E. change (Z.of_nat 1) with 1 in E. rewrite E, bind_ok. done.
  - destruct (c =? 48); cbn [andb]; [|split; [now rewrite Z.add_0_r|cbn; lia]]. destruct (rd_string pre _ post Hl 1) as [E Hx]; [cbn; lia|]. cbn [nth] in *. change (Z.of_nat 1) with 1 in *.
    rewrite E, bind_ok. destruct (char_tests x Hx) as (_ & -> & _). destruct (is_x x); (split; [now rewrite ?Z.add_0_r|cbn; lia]).
Qed.

Section parse.
Context (pre l post : list Z) (Hl : cstring l).
Local Abbreviation s := (pre ++ l ++ 0 :: post).
Context (wrap : Z -> Z) (Hwrap : forall x b d, wrap (wrap x * b + d) = wrap (x * b + d)) (Hwrap0 : wrap 0 = 0).

Lemma digit_loop base rest : forall k r fuel, drop k l = rest -> (k <= length l)%nat -> (length rest < fuel)%nat ->
  loop fuel (fun '(result, cp) =>
    c ← rd s cp;
    if isxdigit c then
      let value := digit_value c in
      if base <=? value then Ok (inr (result, cp)) else
      Ok (inl (wrap (result * base + value), cp + 1))
    else Ok (inr (result, cp))) (wrap r, zlen pre + Z.of_nat k) =
  Ok (wrap (fold_left (fun a d => a * base + d) (digits base rest) r), zlen pre + Z.of_nat (k + length (digits base rest))).
Proof using Hl Hwrap.
  induction rest as [|c rest IH]; intros k r fuel Hd Hk Hf; (destruct fuel as [|fuel]; [cbn in Hf; lia|]); cbn [loop].
  all: destruct (rd_string pre l post Hl k Hk) as [-> Hc]; rewrite bind_ok.
  - assert (Hlen : (length l <= k)%nat) by (apply (f_equal length) in Hd; rewrite length_drop in Hd; cbn in Hd; lia). rewrite nth_overflow by lia. cbn [digits length fold_left].
    rewrite Nat.add_0_r. done.
  - assert (En : nth k l 0 = c /\ drop (S k) l = rest /\ (k < length l)%nat).
    { assert (Hlk : l !! k = Some c) by (rewrite <- (Nat.add_0_r k), <- lookup_drop, Hd; done). split; [now apply nth_lookup_Some|]. split; [|now apply lookup_lt_Some in Hlk].
      rewrite <- (Nat.add_1_r k), <- drop_drop, Hd. done. }
    destruct En as (En & Hd' & Hlt). rewrite En in *. cbn [digits]. unfold digit_in. destruct (char_tests c Hc) as (-> & _ & Hv). destruct (hex_digit c) eqn:Eh; cbn [andb].
    + cbv zeta. rewrite (Hv eq_refl). destruct (Z.leb_spec base (hex_value c)), (Z.ltb_spec (hex_value c) base); try lia.
      * cbn [length fold_left]. now rewrite Nat.add_0_r.
      * rewrite Hwrap. replace (zlen pre + Z.of_nat k + 1) with (zlen pre + Z.of_nat (S k)) by lia. cbn [length] in Hf. rewrite IH by (done || lia). cbn [length fold_left].
        now rewrite Nat.add_succ_comm.
    + cbn [length fold_left]. now rewrite Nat.add_0_r.
Qed.

Lemma simple_strto_ok base : simple_strto wrap s (zlen pre) base = Ok (wrap (value (effective_base base l) (parsed base l)), zlen pre + Z.of_nat (consumed base l)).
Proof using Hl Hwrap Hwrap0.
  unfold simple_strto. assert (E : (if base =? 0 then simple_guess_base s (zlen pre) else Ok base) = Ok (effective_base base l)) by (unfold effective_base; destruct (base =? 0); [now apply guess_ok|done]).
  rewrite E, bind_ok. destruct (skip_ok pre l post (effective_base base l) Hl) as [-> Hk]. rewrite bind_ok.
  pose proof (digit_loop (effective_base base l) _ (prefix_len (effective_base base l) l) 0 (S (length s)) eq_refl Hk) as E2. rewrite Hwrap0 in E2. apply E2.
  rewrite length_drop, !length_app. lia.
Qed.

Lemma strlen_ok : strlen s (zlen pre) = Ok (zlen l).
Proof using Hl.
  unfold strlen. assert (E : forall n k fuel, (length l - k = n)%nat -> (k <= length l)%nat -> (n < fuel)%nat ->
    loop fuel (fun sc => c ← rd s sc; Ok (if c =? 0 then inr (sc - zlen pre) else inl (sc + 1))) (zlen pre + Z.of_nat k) = Ok (zlen l)).
  { induction n as [|n IH]; intros k fuel Hn Hk Hf; (destruct fuel as [|fuel]; [lia|]); cbn [loop]; destruct (rd_string pre l post Hl k Hk) as [-> Hc]; rewrite bind_ok.
    - rewrite nth_overflow by lia. cbn. f_equal. unfold zlen. lia.
    - assert (Hne : nth k l 0 <> 0). { unfold cstring in Hl. rewrite List.Forall_forall in Hl. specialize (Hl (nth k l 0) ltac:(apply nth_In; lia)). lia. }
      destruct (Z.eqb_spec (nth k l 0) 0); [done|]. replace (zlen pre + Z.of_nat k + 1) with (zlen pre + Z.of_nat (S k)) by lia. apply IH; lia. }
  rewrite <- (E (length l) 0%nat (S (length s))); [now rewrite Z.add_0_r|lia|lia|]. rewrite !length_app. lia.
Qed.
End parse.

Lemma u32_wrap x b d : u32 (u32 x * b + d) = u32 (x * b + d).
Proof. unfold u32. rewrite Z.add_mod, Z.mul_mod_idemp_l, <- Z.add_mod by lia. done. Qed.

Lemma u64_wrap x b d : u64 (u64 x * b + d) = u64 (x * b + d).
Proof. unfold u64. rewrite Z.add_mod, Z.mul_mod_idemp_l, <- Z.add_mod by lia. done. Qed.

(** What [strict_strtoul] and [strict_strtoull] return for a string. *)
Definition strict_spec (wrap : Z -> Z) (base : Z) (l : list Z) : Z * Z :=
  let rest := drop (consumed base l) l in
  if (Nat.eqb (consumed base l) 0) || negb (bool_decide (rest = [] \/ rest = [chr_nl])) then (- EINVAL, 0)
  else (0, wrap (value (effective_base base l) (parsed base l))).

Lemma digits_len base l : (length (digits base l) <= length l)%nat.
Proof. induction l as [|c l IH]; cbn; [lia|]. destruct (digit_in base c); cbn; lia. Qed.

Lemma consumed_len base l : (consumed base l <= length l)%nat.
Proof.
  unfold consumed, parsed. pose proof (digits_len (effective_base base l) (drop (prefix_len (effective_base base l) l) l)) as H. rewrite length_drop in H.
  assert (prefix_len (effective_base base l) l <= length l)%nat by (unfold prefix_len; destruct l as [|c [|x l']]; [cbn; lia..|]; destruct (_ && _); cbn; lia). lia.
Qed.

Lemma strict_strto_ok wrap pre l post base : (forall x b d, wrap (wrap x * b + d) = wrap (x * b + d)) -> wrap 0 = 0 -> cstring l -> zlen l + 1 < 2 ^ 32 ->
  strict_strto wrap (pre ++ l ++ 0 :: post) (zlen pre) base = Ok (strict_spec wrap base l).
Proof.
  intros Hw Hw0 Hl Hlen. unfold strict_strto, strict_spec. rewrite strlen_ok, bind_ok, (simple_strto_ok pre l post Hl wrap Hw Hw0), bind_ok by done.
  pose proof (consumed_len base l) as Hc. set (n := consumed base l) in *. destruct (Z.eqb_spec (zlen l) 0) as [El|El].
  { replace n with 0%nat by (unfold zlen in El; lia). done. }
  destruct (Z.eqb_spec (zlen pre + Z.of_nat n) (zlen pre)); [replace n with 0%nat by lia; done|]. destruct (Nat.eqb_spec n 0); [lia|]. cbn [orb].
  destruct (rd_string pre l post Hl n Hc) as [-> _]. rewrite bind_ok. replace (zlen pre + Z.of_nat n - zlen pre) with (Z.of_nat n) by lia.
  rewrite (u32_id (Z.of_nat n)), u32_id by (unfold is_u32, zlen in *; lia). unfold zlen in *.
  destruct (decide (n = length l)) as [En|En].
  { rewrite nth_overflow by lia. rewrite En, drop_all. cbn. done. }
  destruct (drop n l) as [|c rest] eqn:Ed; [apply (f_equal length) in Ed; rewrite length_drop in Ed; cbn in Ed; lia|].
  assert (Hlk : l !! n = Some c) by (rewrite <- (Nat.add_0_r n), <- lookup_drop, Ed; done). rewrite (nth_lookup_Some l n 0 c Hlk).
  assert (Hc0 : 0 < c < 256) by (unfold cstring in Hl; rewrite Forall_lookup in Hl; apply (Hl n c Hlk)). destruct (Z.eqb_spec c 0); [lia|]. cbn [orb].
  assert (Hlr : length l = (n + S (length rest))%nat) by (apply (f_equal length) in Ed; rewrite length_drop in Ed; cbn in Ed; lia).
  destruct (Z.eqb_spec c chr_nl) as [->|Hnl], rest as [|y rest]; cbn [length] in Hlr.
  - destruct (Z.eqb_spec (Z.of_nat (length l)) (Z.of_nat n + 1)); [|lia]. rewrite bool_decide_true by auto. done.
  - destruct (Z.eqb_spec (Z.of_nat (length l)) (Z.of_nat n + 1)); [lia|]. rewrite bool_decide_false by (intros [|]; done). done.
  - rewrite andb_false_r, bool_decide_false by (intros [|[=]]; done). done.
  - rewrite andb_false_r, bool_decide_false by (intros [|[=]]; done). done.
Qed.

Lemma s32_of_u32 x : s32 (u32 x) = s32 x.
Proof. unfold s32, u32. now rewrite Z.add_mod_idemp_l by lia. Qed.

Lemma s64_u64 x : s64 (u64 x) = s64 x.
Proof. unfold s64, u64. now rewrite Z.add_mod_idemp_l by lia. Qed.

Lemma u32_neg x : u32 (- u32 x) = u32 (- x).
Proof. unfold u32. rewrite <- !Z.sub_0_l. now rewrite Zminus_mod_idemp_r. Qed.

Lemma u64_neg x : u64 (- u64 x) = u64 (- x).
Proof. unfold u64. rewrite <- !Z.sub_0_l. now rewrite Zminus_mod_idemp_r. Qed.

Lemma s32_neg x : s32 (- s32 x) = s32 (- x).
Proof. unfold s32. replace (- ((x + 2 ^ 31) mod 2 ^ 32 - 2 ^ 31) + 2 ^ 31) with (2 ^ 32 - (x + 2 ^ 31) mod 2 ^ 32) by lia. rewrite Zminus_mod_idemp_r. do 2 f_equal. lia. Qed.

Lemma s64_neg x : s64 (- s64 x) = s64 (- x).
Proof. unfold s64. replace (- ((x + 2 ^ 63) mod 2 ^ 64 - 2 ^ 63) + 2 ^ 63) with (2 ^ 64 - (x + 2 ^ 63) mod 2 ^ 64) by lia. rewrite Zminus_mod_idemp_r. do 2 f_equal. lia. Qed.

(** What the signed functions read: the sign, then an unsigned number. *)
Definition unsigned_part (l : list Z) : list Z := match l with c :: r => if c =? chr_minus then r else l | [] => [] end.
Definition signed (l : list Z) (v : Z) : Z := match l with c :: _ => if c =? chr_minus then - v else v | [] => v end.
Definition sign_len (l : list Z) : Z := match l with c :: _ => if c =? chr_minus then 1 else 0 | [] => 0 end.

Lemma signed_cases pre l post : cstring l ->
  (exists l', l = chr_minus :: l' /\ cstring l' /\ rd (pre ++ l ++ 0 :: post) (zlen pre) = Ok chr_minus /\
     pre ++ l ++ 0 :: post = (pre ++ [chr_minus]) ++ l' ++ 0 :: post /\ zlen (pre ++ [chr_minus]) = zlen pre + 1) \/
  (exists c, rd (pre ++ l ++ 0 :: post) (zlen pre) = Ok c /\ (c =? chr_minus) = false /\ unsigned_part l = l /\ sign_len l = 0 /\ forall v, signed l v = v).
Proof.
  intros Hl. destruct (rd_string0 pre l post Hl) as [E _]. destruct l as [|c l]; [right; exists 0; auto|]. cbn [nth] in E. destruct (Z.eqb_spec c chr_minus) as [->|Hne].
  - left. exists l. split; [done|]. split; [now inversion Hl|]. split; [done|]. split; [now rewrite <- app_assoc|now rewrite zlen_app].
  - right. exists c. apply Z.eqb_neq in Hne. cbn. rewrite Hne. auto.
Qed.

Lemma simple_unsigned_ok pre l post base : cstring l ->
  simple_strtoul (pre ++ l ++ 0 :: post) (zlen pre) base = Ok (u32 (value (effective_base base l) (parsed base l)), zlen pre + Z.of_nat (consumed base l)) /\
  simple_strtoull (pre ++ l ++ 0 :: post) (zlen pre) base = Ok (u64 (value (effective_base base l) (parsed base l)), zlen pre + Z.of_nat (consumed base l)).
Proof. intros Hl. split; [now apply (simple_strto_ok pre l post Hl u32 u32_wrap)|now apply (simple_strto_ok pre l post Hl u64 u64_wrap)]. Qed.

Lemma strict_unsigned_ok pre l post base : cstring l -> zlen l + 1 < 2 ^ 32 ->
  strict_strtoul (pre ++ l ++ 0 :: post) (zlen pre) base = Ok (strict_spec u32 base l) /\
  strict_strtoull (pre ++ l ++ 0 :: post) (zlen pre) base = Ok (strict_spec u64 base l).
Proof. intros Hl Hlen. split; [now apply (strict_strto_ok u32 pre l post base u32_wrap)|now apply (strict_strto_ok u64 pre l post base u64_wrap)]. Qed.

Lemma simple_signed_ok pre l post base : cstring l -> let m := unsigned_part l in
  simple_strtol (pre ++ l ++ 0 :: post) (zlen pre) base =
    Ok (s32 (signed l (value (effective_base base m) (parsed base m))), zlen pre + sign_len l + Z.of_nat (consumed base m)) /\
  simple_strtoll (pre ++ l ++ 0 :: post) (zlen pre) base =
    Ok (s64 (signed l (value (effective_base base m) (parsed base m))), zlen pre + sign_len l + Z.of_nat (consumed base m)).
Proof.
  intros Hl m. unfold simple_strtol, simple_strtoll. destruct (signed_cases pre l post Hl) as [(l' & El & Hl' & -> & E & Ez)|(c & -> & Hc & Em & Es & Ev)].
  - rewrite !bind_ok. change (chr_minus =? chr_minus) with true. cbv iota. rewrite E, <- Ez. destruct (simple_unsigned_ok (pre ++ [chr_minus]) l' post base Hl') as [-> ->]. rewrite !bind_ok, Ez.
    subst l. cbn. now rewrite u32_neg, u64_neg, s32_of_u32, s64_u64.
  - rewrite !bind_ok, Hc. destruct (simple_unsigned_ok pre l post base Hl) as [-> ->]. rewrite !bind_ok, s32_of_u32, s64_u64. subst m. now rewrite Em, Es, Ev, Z.add_0_r.
Qed.

Lemma strict_signed_ok pre l post base : cstring l -> zlen l + 1 < 2 ^ 32 -> let m := unsigned_part l in
  strict_strtol (pre ++ l ++ 0 :: post) (zlen pre) base = Ok (fst (strict_spec u32 base m), s32 (signed l (snd (strict_spec u32 base m)))) /\
  strict_strtoll (pre ++ l ++ 0 :: post) (zlen pre) base = Ok (fst (strict_spec u64 base m), s64 (signed l (snd (strict_spec u64 base m)))).
Proof.
  intros Hl Hlen m. unfold strict_strtol, strict_strtoll. destruct (signed_cases pre l post Hl) as [(l' & El & Hl' & -> & E & Ez)|(c & -> & Hc & Em & Es & Ev)].
  - rewrite !bind_ok. change (chr_minus =? chr_minus) with true. cbv iota. rewrite E, <- Ez. assert (Hlen' : zlen l' + 1 < 2 ^ 32) by (subst l; unfold zlen in *; cbn [length] in Hlen; lia).
    destruct (strict_unsigned_ok (pre ++ [chr_minus]) l' post base Hl' Hlen') as [-> ->]. rewrite !bind_ok. subst l. cbn [unsigned_part signed] in *. change (chr_minus =? chr_minus) with true in *.
    subst m. cbv iota. unfold strict_spec. destruct (_ || _); cbn [fst snd]; [done|]. change (0 =? 0) with true. cbv iota. now rewrite s32_neg, s64_neg.
  - rewrite !bind_ok, Hc. destruct (strict_unsigned_ok pre l post base Hl Hlen) as [-> ->]. rewrite !bind_ok. subst m. rewrite Em, !Ev. now destruct (strict_spec u32 base l), (strict_spec u64 base l).
Qed.

(** number parsing.  For every string with its NUL, base and width,
    [simple_strtoul] and [simple_strtoull] stay in the string, skip "0x" for base
    16, take base 0 from the prefix, read the longest run of digits of the base
    and return its value modulo 2^32 or 2^64 with the position behind it.  The
    strict versions accept exactly a number that fills the string, up to one
    newline, and fail with -EINVAL and the result 0 otherwise; the signed versions
    read one minus sign before.  Two strings show what strict does not exclude: a
    number that does not fit, and "0x" without digits. *)
Lemma strtol_facts :
  (forall pre l post base, cstring l ->
     simple_strtoul (pre ++ l ++ 0 :: post) (zlen pre) base = Ok (u32 (value (effective_base base l) (parsed base l)), zlen pre + Z.of_nat (consumed base l)) /\
     simple_strtoull (pre ++ l ++ 0 :: post) (zlen pre) base = Ok (u64 (value (effective_base base l) (parsed base l)), zlen pre + Z.of_nat (consumed base l))) /\
  (forall pre l post base, cstring l -> let m := unsigned_part l in
     simple_strtol (pre ++ l ++ 0 :: post) (zlen pre) base =
       Ok (s32 (signed l (value (effective_base base m) (parsed base m))), zlen pre + sign_len l + Z.of_nat (consumed base m)) /\
     simple_strtoll (pre ++ l ++ 0 :: post) (zlen pre) base =
       Ok (s64 (signed l (value (effective_base base m) (parsed base m))), zlen pre + sign_len l + Z.of_nat (consumed base m))) /\
  (forall pre l post base, cstring l -> zlen l + 1 < 2 ^ 32 ->
     strict_strtoul (pre ++ l ++ 0 :: post) (zlen pre) base = Ok (strict_spec u32 base l) /\
     strict_strtoull (pre ++ l ++ 0 :: post) (zlen pre) base = Ok (strict_spec u64 base l)) /\
  (forall pre l post base, cstring l -> zlen l + 1 < 2 ^ 32 -> let m := unsigned_part l in
     strict_strtol (pre ++ l ++ 0 :: post) (zlen pre) base = Ok (fst (strict_spec u32 base m), s32 (signed l (snd (strict_spec u32 base m)))) /\
     strict_strtoll (pre ++ l ++ 0 :: post) (zlen pre) base = Ok (fst (strict_spec u64 base m), s64 (signed l (snd (strict_spec u64 base m))))) /\
  strict_strtoul [52; 50; 57; 52; 57; 54; 55; 50; 57; 54; 0] 0 10 = Ok (0, 0) /\
  strict_strtoul [48; 120; 0] 0 16 = Ok (0, 0).
Proof.
  split; [exact simple_unsigned_ok|]. split; [exact simple_signed_ok|]. split; [exact strict_unsigned_ok|]. split; [exact strict_signed_ok|].
  split; vm_compute; reflexivity.
Qed.

(** " -0x1F\n" from its second character. *)
