(* ===== verification/Number.v ===== *)
(** lib/vsprintf.c: printing numbers: the division-free decimal conversion and
    the formatting of [number]. *)
From S2P Require Import Prelude.
From S2P Require Import Ring.
From S2P Require Import Blocks.
From S2P Require Import Ctype.
From S2P Require Import Strtol.

(** * Decimal conversion *)

(** [buf] is a position in [tmp]; the results are [tmp] and the new position. *)
Definition put_dec_trunc (tmp : list Z) (buf q : Z) : res (list Z * Z) :=
  let d1 := Z.land (shr32 q 4) 0xf in
  let d2 := Z.land (shr32 q 8) 0xf in
  let d3 := shr32 q 12 in
  let d0 := u32 (6 * (d3 + d2 + d1) + Z.land q 0xf) in
  let q := shr32 (u32 (d0 * 0xcd)) 11 in
  let d0 := u32 (d0 - 10 * q) in
  tmp ← wr tmp buf (u8 (d0 + 48));
  let buf := buf + 1 in
  let d1 := u32 (q + 9 * d3 + 5 * d2 + d1) in
  if negb (d1 =? 0) then
    let q := shr32 (u32 (d1 * 0xcd)) 11 in
    let d1 := u32 (d1 - 10 * q) in
    tmp ← wr tmp buf (u8 (d1 + 48));
    let buf := buf + 1 in
    let d2 := u32 (q + 2 * d2) in
    if negb (d2 =? 0) || negb (d3 =? 0) then
      let q := shr32 (u32 (d2 * 0xd)) 7 in
      let d2 := u32 (d2 - 10 * q) in
      tmp ← wr tmp buf (u8 (d2 + 48));
      let buf := buf + 1 in
      let d3 := u32 (q + 4 * d3) in
      if negb (d3 =? 0) then
        let q := shr32 (u32 (d3 * 0xcd)) 11 in
        let d3 := u32 (d3 - 10 * q) in
        tmp ← wr tmp buf (u8 (d3 + 48));
        let buf := buf + 1 in
        if negb (q =? 0) then tmp ← wr tmp buf (u8 (q + 48)); Ok (tmp, buf + 1) else Ok (tmp, buf)
      else Ok (tmp, buf)
    else Ok (tmp, buf)
  else Ok (tmp, buf).

Definition put_dec_full (tmp : list Z) (buf q : Z) : res (list Z * Z) :=
  let d1 := Z.land (shr32 q 4) 0xf in
  let d2 := Z.land (shr32 q 8) 0xf in
  let d3 := shr32 q 12 in
  let d0 := u32 (6 * (d3 + d2 + d1) + Z.land q 0xf) in
  let q := shr32 (u32 (d0 * 0xcd)) 11 in
  let d0 := u32 (d0 - 10 * q) in
  tmp ← wr tmp buf (u8 (d0 + 48));
  let buf := buf + 1 in
  let d1 := u32 (q + 9 * d3 + 5 * d2 + d1) in
  let q := shr32 (u32 (d1 * 0xcd)) 11 in
  let d1 := u32 (d1 - 10 * q) in
  tmp ← wr tmp buf (u8 (d1 + 48));
  let buf := buf + 1 in
  let d2 := u32 (q + 2 * d2) in
  let q := shr32 (u32 (d2 * 0xd)) 7 in
  let d2 := u32 (d2 - 10 * q) in
  tmp ← wr tmp buf (u8 (d2 + 48));
  let buf := buf + 1 in
  let d3 := u32 (q + 4 * d3) in
  let q := shr32 (u32 (d3 * 0xcd)) 11 in
  let d3 := u32 (d3 - 10 * q) in
  tmp ← wr tmp buf (u8 (d3 + 48));
  let buf := buf + 1 in
  tmp ← wr tmp buf (u8 (q + 48));
  Ok (tmp, buf + 1).

(** A 64-bit number is divided by 100000 at most four times. *)
Definition put_dec (tmp : list Z) (buf num : Z) : res (list Z * Z) :=
  loop 6 (fun '(tmp, buf, num) =>
    if num <? 100000 then r ← put_dec_trunc tmp buf num; Ok (inr r)
    else
      let rem := num mod 100000 in
      let num := num / 100000 in
      '(tmp, buf) ← put_dec_full tmp buf rem;
      Ok (inl (tmp, buf, num))) (tmp, buf, num).

(** * Formatting *)

Definition ZEROPAD : Z := 1.
Definition SIGN : Z := 2.
Definition PLUS : Z := 4.
Definition SPACE : Z := 8.
Definition LEFT : Z := 16.
Definition SMALL : Z := 32.
Definition SPECIAL : Z := 64.

Inductive format_type :=
| FORMAT_TYPE_NONE | FORMAT_TYPE_WIDTH | FORMAT_TYPE_PRECISION | FORMAT_TYPE_CHAR | FORMAT_TYPE_STR | FORMAT_TYPE_PTR | FORMAT_TYPE_PERCENT_CHAR
| FORMAT_TYPE_INVALID | FORMAT_TYPE_LONG_LONG | FORMAT_TYPE_ULONG | FORMAT_TYPE_LONG | FORMAT_TYPE_UBYTE | FORMAT_TYPE_BYTE | FORMAT_TYPE_USHORT
| FORMAT_TYPE_SHORT | FORMAT_TYPE_UINT | FORMAT_TYPE_INT | FORMAT_TYPE_NRCHARS | FORMAT_TYPE_SIZE_T | FORMAT_TYPE_PTRDIFF.

Record printf_spec := Spec {
  type : format_type; flags : Z; field_width : Z; base : Z; precision : Z; qualifier : Z
}.

Definition flag (fl f : Z) : bool := negb (Z.land fl f =? 0).

(** The output: a buffer and the position in it, which may run past [end_]. *)
Definition put (end_ : Z) (out : list Z * Z) (c : Z) : res (list Z * Z) :=
  b ← (if snd out <? end_ then wr (fst out) (snd out) (u8 c) else Ok (fst out)); Ok (b, snd out + 1).

(** while (--width >= 0) { if (buf < end) *buf = c; ++buf; } *)
Definition pad (end_ : Z) (out : list Z * Z) (width c : Z) : res (Z * (list Z * Z)) :=
  loop (S (Z.to_nat width)) (fun '(width, out) =>
    let width := s32 (width - 1) in
    if 0 <=? width then out ← put end_ out c; Ok (inl (width, out)) else Ok (inr (width, out))) (width, out).

Definition digit_chars : list Z := [48; 49; 50; 51; 52; 53; 54; 55; 56; 57; 65; 66; 67; 68; 69; 70].

(** The digits in [tmp], least significant first, for base 8 or 16. *)
Definition put_pow2 (tmp : list Z) (num mask shift locase : Z) : res (list Z * Z) :=
  loop 22 (fun '(tmp, i, num) =>
    d ← rd digit_chars (Z.land (u8 num) mask);
    tmp ← wr tmp i (u8 (Z.lor d locase));
    let i := i + 1 in
    let num := Z.shiftr num shift in
    Ok (if negb (num =? 0) then inl (tmp, i, num) else inr (tmp, i))) (tmp, 0, num).

(** while (i <= --precision) *)
Definition pad_precision (end_ : Z) (out : list Z * Z) (i precision : Z) : res (list Z * Z) :=
  loop (S (Z.to_nat (precision - i))) (fun '(precision, out) =>
    let precision := s32 (precision - 1) in
    if i <=? precision then out ← put end_ out 48; Ok (inl (precision, out)) else Ok (inr out)) (precision, out).

(** while (--i >= 0) *)
Definition put_digits (end_ : Z) (out : list Z * Z) (tmp : list Z) (i : Z) : res (list Z * Z) :=
  loop (S (Z.to_nat i)) (fun '(i, out) =>
    let i := i - 1 in
    if 0 <=? i then c ← rd tmp i; out ← put end_ out c; Ok (inl (i, out)) else Ok (inr out)) (i, out).

Definition number (buf : list Z) (pos end_ num : Z) (spec : printf_spec) : res (list Z * Z) :=
  let tmp := repeat 0 66 in
  let need_pfx := flag (flags spec) SPECIAL && negb (base spec =? 10) in
  let locase := u8 (Z.land (flags spec) SMALL) in
  let fl := if flag (flags spec) LEFT then Z.land (flags spec) (Z.lnot ZEROPAD) else flags spec in
  let w := field_width spec in
  let '(sign, num, w) :=
    if flag fl SIGN then
      if s64 num <? 0 then (45, u64 (- s64 num), s32 (w - 1))
      else if flag fl PLUS then (43, num, s32 (w - 1))
      else if flag fl SPACE then (32, num, s32 (w - 1))
      else (0, num, w)
    else (0, num, w) in
  let w := if need_pfx then let w := s32 (w - 1) in if base spec =? 16 then s32 (w - 1) else w else w in
  '(tmp, i) ← (if num =? 0 then tmp ← wr tmp 0 48; Ok (tmp, 1)
               else if negb (base spec =? 10) then put_pow2 tmp num (base spec - 1) (if base spec =? 16 then 4 else 3) locase
               else put_dec tmp 0 num);
  let precision := if precision spec <? i then i else precision spec in
  let w := s32 (w - precision) in
  let out := (buf, pos) in
  '(w, out) ← (if negb (flag fl (ZEROPAD + LEFT)) then pad end_ out w 32 else Ok (w, out));
  out ← (if negb (sign =? 0) then put end_ out sign else Ok out);
  out ← (if need_pfx then
           out ← put end_ out 48;
           if base spec =? 16 then put end_ out (Z.lor 88 locase) else Ok out
         else Ok out);
  '(w, out) ← (if negb (flag fl LEFT) then pad end_ out w (if flag fl ZEROPAD then 48 else 32) else Ok (w, out));
  out ← pad_precision end_ out i precision;
  out ← put_digits end_ out tmp i;
  '(_, out) ← pad end_ out w 32;
  Ok out.

(** * What the functions should print *)

(** Digits of [n], least significant first; [k] bounds their number. *)
Fixpoint rdigits (k : nat) (b n : Z) : list Z :=
  match k with O => [] | S k => n mod b :: (if n / b =? 0 then [] else rdigits k b (n / b)) end.

Definition dec_char (d : Z) : Z := d + 48.

(** * The decimal conversion *)

Lemma div10_205 x : 0 <= x <= 1000 -> x * 205 / 2048 = x / 10.
Proof. intros Hx. Z.to_euclidean_division_equations. lia. Qed.

Lemma div10_13 x : 0 <= x <= 68 -> x * 13 / 128 = x / 10.
Proof. intros Hx. Z.to_euclidean_division_equations. lia. Qed.

(** The nibbles of a number below 100000 recombined to decimal digits. *)
Lemma nibbles q d0 d1 d2 d3 : 0 <= q < 100000 -> d1 = q / 16 mod 16 -> d2 = q / 256 mod 16 -> d3 = q / 4096 -> d0 = 6 * (d3 + d2 + d1) + q mod 16 ->
  let e1 := d0 / 10 + 9 * d3 + 5 * d2 + d1 in
  let e2 := e1 / 10 + 2 * d2 in
  let e3 := e2 / 10 + 4 * d3 in
  0 <= d0 <= 400 /\ 0 <= e1 <= 400 /\ 0 <= e2 <= 68 /\ 0 <= e3 < 100 /\ 0 <= d1 < 16 /\ 0 <= d2 < 16 /\ 0 <= d3 < 25 /\
  d0 mod 10 = q mod 10 /\ e1 + 20 * d2 + 400 * d3 = q / 10 /\ e2 + 40 * d3 = q / 100 /\ e3 = q / 1000.
Proof.
  intros Hq H1 H2 H3 H0 e1 e2 e3.
  assert (Hn : q = d3 * 4096 + d2 * 256 + d1 * 16 + q mod 16 /\ 0 <= d1 < 16 /\ 0 <= d2 < 16 /\ 0 <= d3 < 25 /\ 0 <= q mod 16 < 16).
  { subst d1 d2 d3. clear H0 e1 e2 e3. change 4096 with (16 * 16 * 16). change 256 with (16 * 16). rewrite <- !Z.div_div by lia. Z.to_euclidean_division_equations; lia. }
  destruct Hn as (Hn & B1 & B2 & B3 & B0). set (r := q mod 16) in *. clearbody r. clear H1 H2 H3.
  assert (E0 : d0 = 10 * (d0 / 10) + d0 mod 10 /\ 0 <= d0 mod 10 < 10) by (Z.to_euclidean_division_equations; lia).
  assert (E1 : e1 = 10 * (e1 / 10) + e1 mod 10 /\ 0 <= e1 mod 10 < 10) by (Z.to_euclidean_division_equations; lia).
  assert (E2 : e2 = 10 * (e2 / 10) + e2 mod 10 /\ 0 <= e2 mod 10 < 10) by (Z.to_euclidean_division_equations; lia).
  assert (D1 : e1 = d0 / 10 + 9 * d3 + 5 * d2 + d1) by done. assert (D2 : e2 = e1 / 10 + 2 * d2) by done. assert (D3 : e3 = e2 / 10 + 4 * d3) by done. clearbody e1 e2 e3.
  set (x0 := d0 / 10) in *. set (m0 := d0 mod 10) in *. set (x1 := e1 / 10) in *. set (m1 := e1 mod 10) in *. set (x2 := e2 / 10) in *. set (m2 := e2 mod 10) in *.
  clearbody x0 m0 x1 m1 x2 m2.
  assert (Q : q = m0 + 10 * (e1 + 20 * d2 + 400 * d3) /\ e1 + 20 * d2 + 400 * d3 = m1 + 10 * (e2 + 40 * d3) /\ e2 + 40 * d3 = m2 + 10 * e3) by lia.
  destruct Q as (Q0 & Q1 & Q2). change 1000 with (10 * 10 * 10). replace (q / 100) with (q / 10 / 10) by (rewrite Z.div_div by lia; done). rewrite <- !Z.div_div by lia.
  assert (R0 : q / 10 = e1 + 20 * d2 + 400 * d3 /\ q mod 10 = m0) by (split; [symmetry; apply (Z.div_unique_pos _ _ _ m0)|symmetry; apply (Z.mod_unique_pos _ _ (e1 + 20 * d2 + 400 * d3))]; lia).
  assert (R1 : (e1 + 20 * d2 + 400 * d3) / 10 = e2 + 40 * d3) by (symmetry; apply (Z.div_unique_pos _ _ _ m1); lia).
  assert (R2 : (e2 + 40 * d3) / 10 = e3) by (symmetry; apply (Z.div_unique_pos _ _ _ m2); lia).
  destruct R0 as [-> ->]. rewrite R1, R2. repeat split; lia.
Qed.

(** The value [e] for the next [let] of the goal. *)
Ltac set_let e := lazymatch goal with |- (let y := ?v in @?f y) = ?r =>
  let H := fresh "H" in assert (H : v = e); [|change (f v = r); rewrite H; clear H; cbv beta] end.

Lemma wr_off {A} (pre l : list A) k y : 0 <= k < zlen l -> wr (pre ++ l) (zlen pre + k) y = Ok (pre ++ <[Z.to_nat k := y]> l).
Proof.
  intros Hk. pose proof (zlen_nonneg pre). rewrite wr_ok by (rewrite zlen_app; lia). f_equal. unfold zlen in *.
  rewrite insert_app_r_alt by lia. now replace (Z.to_nat (Z.of_nat (length pre) + k) - length pre)%nat with (Z.to_nat k) by lia.
Qed.

Lemma wr_1 {A} (pre : list A) a x y l : wr (pre ++ a :: x :: l) (zlen pre + 1) y = Ok (pre ++ a :: y :: l).
Proof. rewrite wr_off by (unfold zlen; cbn [length]; lia). done. Qed.

Lemma wr_2 {A} (pre : list A) a b x y l : wr (pre ++ a :: b :: x :: l) (zlen pre + 2) y = Ok (pre ++ a :: b :: y :: l).
Proof. rewrite wr_off by (unfold zlen; cbn [length]; lia). done. Qed.

Lemma wr_3 {A} (pre : list A) a b c x y l : wr (pre ++ a :: b :: c :: x :: l) (zlen pre + 3) y = Ok (pre ++ a :: b :: c :: y :: l).
Proof. rewrite wr_off by (unfold zlen; cbn [length]; lia). done. Qed.

Lemma wr_4 {A} (pre : list A) a b c d x y l : wr (pre ++ a :: b :: c :: d :: x :: l) (zlen pre + 4) y = Ok (pre ++ a :: b :: c :: d :: y :: l).
Proof. rewrite wr_off by (unfold zlen; cbn [length]; lia). done. Qed.

Lemma land_nibble x : Z.land x 0xf = x mod 16.
Proof. change 0xf with (2 ^ 4 - 1). now rewrite land_mask by lia. Qed.

Lemma shr32_div x k : 0 <= k -> shr32 x k = x / 2 ^ k.
Proof. intros Hk. unfold shr32. now apply Z.shiftr_div_pow2. Qed.

Lemma u32_small x : 0 <= x < 2 ^ 32 -> u32 x = x.
Proof. intros Hx. now apply u32_id. Qed.

Lemma dec_char_u8 d : 0 <= d < 100 -> u8 (d + 48) = dec_char d.
Proof. intros Hd. unfold dec_char. apply u8_id. unfold is_u8. lia. Qed.

Section jones.
Context (q : Z) (Hq : 0 <= q < 100000).
Let d1 := q / 16 mod 16.
Let d2 := q / 256 mod 16.
Let d3 := q / 4096.
Let d0 := 6 * (d3 + d2 + d1) + q mod 16.
Let e1 := d0 / 10 + 9 * d3 + 5 * d2 + d1.
Let e2 := e1 / 10 + 2 * d2.
Let e3 := e2 / 10 + 4 * d3.

Lemma jones_facts : 0 <= d0 <= 400 /\ 0 <= e1 <= 400 /\ 0 <= e2 <= 68 /\ 0 <= e3 < 100 /\ 0 <= d1 < 16 /\ 0 <= d2 < 16 /\ 0 <= d3 < 25 /\
  d0 mod 10 = q mod 10 /\ e1 + 20 * d2 + 400 * d3 = q / 10 /\ e2 + 40 * d3 = q / 100 /\ e3 = q / 1000 /\
  e1 mod 10 = q / 10 mod 10 /\ e2 mod 10 = q / 100 mod 10 /\ e3 / 10 = q / 10000.
Proof using Hq.
  destruct (nibbles q d0 d1 d2 d3 Hq eq_refl eq_refl eq_refl eq_refl) as (B0 & C1 & C2 & C3 & B1 & B2 & B3 & Q0 & Q1 & Q2 & Q3). fold e1 e2 e3 in C1, C2, C3, Q1, Q2, Q3.
  repeat (split; [assumption|]). rewrite <- Q1, <- Q2, Q3. split; [|split].
  - replace (e1 + 20 * d2 + 400 * d3) with (e1 + (2 * d2 + 40 * d3) * 10) by lia. now rewrite Z.mod_add by lia.
  - replace (e2 + 40 * d3) with (e2 + 4 * d3 * 10) by lia. now rewrite Z.mod_add by lia.
  - now rewrite Z.div_div by lia.
Qed.

(** A digit is split off by a multiplication. *)
Lemma split_205 x : 0 <= x <= 400 -> shr32 (u32 (x * 0xcd)) 11 = x / 10 /\ u32 (x - 10 * (x / 10)) = x mod 10 /\ 0 <= x mod 10 < 10 /\ 0 <= x / 10 <= 40.
Proof.
  intros Hx. assert (E : x = 10 * (x / 10) + x mod 10 /\ 0 <= x mod 10 < 10 /\ 0 <= x / 10 <= 40) by (Z.to_euclidean_division_equations; lia).
  split; [rewrite u32_small, shr32_div by lia; apply div10_205; lia|]. split; [rewrite u32_small by lia; lia|lia].
Qed.

Lemma split_13 x : 0 <= x <= 68 -> shr32 (u32 (x * 0xd)) 7 = x / 10 /\ u32 (x - 10 * (x / 10)) = x mod 10 /\ 0 <= x mod 10 < 10 /\ 0 <= x / 10 <= 6.
Proof.
  intros Hx. assert (E : x = 10 * (x / 10) + x mod 10 /\ 0 <= x mod 10 < 10 /\ 0 <= x / 10 <= 6) by (Z.to_euclidean_division_equations; lia).
  split; [rewrite u32_small, shr32_div by lia; apply div10_13; lia|]. split; [rewrite u32_small by lia; lia|lia].
Qed.

Lemma put_dec_full_ok pre rest : (5 <= length rest)%nat ->
  put_dec_full (pre ++ rest) (zlen pre) q =
  Ok (pre ++ (dec_char <$> [q mod 10; q / 10 mod 10; q / 100 mod 10; q / 1000 mod 10; q / 10000]) ++ drop 5 rest, zlen pre + 5).
Proof using Hq.
  intros Hr. destruct jones_facts as (B0 & C1 & C2 & C3 & B1 & B2 & B3 & Q0 & Q1 & Q2 & Q3 & M1 & M2 & M3).
  destruct (split_205 d0) as (S0 & T0 & U0 & V0); [lia|]. destruct (split_205 e1) as (S1 & T1 & U1 & V1); [lia|].
  destruct (split_13 e2) as (S2 & T2 & U2 & V2); [lia|]. destruct (split_205 e3) as (S3 & T3 & U3 & V3); [lia|].
  destruct rest as [|r0 [|r1 [|r2 [|r3 [|r4 rest]]]]]; cbn [length] in Hr; try lia. cbv beta delta [put_dec_full].
  set_let d1; [rewrite shr32_div, land_nibble by lia; done|]. set_let d2; [rewrite shr32_div, land_nibble by lia; done|].
  set_let d3; [rewrite shr32_div by lia; done|]. set_let d0; [rewrite land_nibble; apply u32_small; fold d0; lia|].
  set_let (d0 / 10); [done|]. set_let (d0 mod 10); [done|]. rewrite dec_char_u8, wr_mid, bind_ok by lia. set_let (zlen pre + 1); [done|].
  set_let e1; [apply u32_small; fold e1; lia|]. set_let (e1 / 10); [done|]. set_let (e1 mod 10); [done|].
  rewrite dec_char_u8, wr_1, bind_ok by lia. set_let (zlen pre + 2); [lia|].
  set_let e2; [apply u32_small; fold e2; lia|]. set_let (e2 / 10); [done|]. set_let (e2 mod 10); [done|]. rewrite dec_char_u8, wr_2, bind_ok by lia. set_let (zlen pre + 3); [lia|].
  set_let e3; [apply u32_small; fold e3; lia|]. set_let (e3 / 10); [done|]. set_let (e3 mod 10); [done|]. rewrite dec_char_u8, wr_3, bind_ok by lia. set_let (zlen pre + 4); [lia|].
  rewrite dec_char_u8, wr_4, bind_ok by lia. rewrite Q0, M1, M2, M3, Q3. now replace (zlen pre + 4 + 1) with (zlen pre + 5) by lia.
Qed.

Lemma rdigits5 : rdigits 5 10 q = q mod 10 :: (if q / 10 =? 0 then [] else q / 10 mod 10 :: (if q / 100 =? 0 then [] else q / 100 mod 10 ::
  (if q / 1000 =? 0 then [] else q / 1000 mod 10 :: (if q / 10000 =? 0 then [] else [q / 10000])))).
Proof using Hq.
  cbn [rdigits]. rewrite !Z.div_div by lia. change (10 * 10) with 100. change (100 * 10) with 1000. change (1000 * 10) with 10000. change (10000 * 10) with 100000.
  replace (q / 10000 mod 10) with (q / 10000) by (Z.to_euclidean_division_equations; lia). now replace (q / 100000) with 0 by (Z.to_euclidean_division_equations; lia).
Qed.

Lemma put_dec_trunc_ok pre rest : (5 <= length rest)%nat ->
  put_dec_trunc (pre ++ rest) (zlen pre) q =
  Ok (pre ++ (dec_char <$> rdigits 5 10 q) ++ drop (length (rdigits 5 10 q)) rest, zlen pre + zlen (rdigits 5 10 q)).
Proof using Hq.
  intros Hr. destruct jones_facts as (B0 & C1 & C2 & C3 & B1 & B2 & B3 & Q0 & Q1 & Q2 & Q3 & M1 & M2 & M3).
  destruct (split_205 d0) as (S0 & T0 & U0 & V0); [lia|]. destruct (split_205 e1) as (S1 & T1 & U1 & V1); [lia|].
  destruct (split_13 e2) as (S2 & T2 & U2 & V2); [lia|]. destruct (split_205 e3) as (S3 & T3 & U3 & V3); [lia|].
  rewrite rdigits5. destruct rest as [|r0 [|r1 [|r2 [|r3 [|r4 rest]]]]]; cbn [length] in Hr; try lia. cbv beta delta [put_dec_trunc].
  set_let d1; [rewrite shr32_div, land_nibble by lia; done|]. set_let d2; [rewrite shr32_div, land_nibble by lia; done|].
  set_let d3; [rewrite shr32_div by lia; done|]. set_let d0; [rewrite land_nibble; apply u32_small; fold d0; lia|].
  set_let (d0 / 10); [done|]. set_let (d0 mod 10); [done|]. rewrite dec_char_u8, wr_mid, bind_ok by lia. set_let (zlen pre + 1); [done|].
  set_let e1; [apply u32_small; fold e1; lia|]. rewrite Q0. replace (e1 =? 0) with (q / 10 =? 0) by lia. destruct (Z.eqb_spec (q / 10) 0) as [|N1]; [done|change (negb false) with true; cbv iota].
  set_let (e1 / 10); [done|]. set_let (e1 mod 10); [done|]. rewrite dec_char_u8, wr_1, bind_ok by lia. set_let (zlen pre + 2); [lia|].
  set_let e2; [apply u32_small; fold e2; lia|]. rewrite M1. replace (negb (e2 =? 0) || negb (d3 =? 0)) with (negb (q / 100 =? 0)) by lia.
  destruct (Z.eqb_spec (q / 100) 0) as [|N2]; [done|change (negb false) with true; cbv iota].
  set_let (e2 / 10); [done|]. set_let (e2 mod 10); [done|]. rewrite dec_char_u8, wr_2, bind_ok by lia. set_let (zlen pre + 3); [lia|].
  set_let e3; [apply u32_small; fold e3; lia|]. rewrite M2, Q3. destruct (Z.eqb_spec (q / 1000) 0) as [|N3]; [done|change (negb false) with true; cbv iota]. rewrite <- Q3.
  set_let (e3 / 10); [done|]. set_let (e3 mod 10); [done|]. rewrite (dec_char_u8 (e3 mod 10)), wr_3, bind_ok by lia. set_let (zlen pre + 4); [lia|].
  rewrite M3. destruct (Z.eqb_spec (q / 10000) 0) as [|N4]; [done|change (negb false) with true; cbv iota].
  rewrite dec_char_u8, wr_4, bind_ok by lia. now replace (zlen pre + 4 + 1) with (zlen pre + 5) by lia.
Qed.
End jones.

Lemma rdigits_fuel b k m : 2 <= b -> forall n, 0 <= n < b ^ Z.of_nat (S k) -> rdigits (S k + m) b n = rdigits (S k) b n.
Proof.
  intros Hb. induction k as [|k IH]; intros n Hn; cbn [rdigits Nat.add].
  - assert (E : n / b = 0) by (apply Z.div_small; change (Z.of_nat 1) with 1 in Hn; lia). now rewrite E.
  - destruct (n / b =? 0); [done|]. f_equal. apply IH. rewrite (Nat2Z.inj_succ (S k)), Z.pow_succ_r in Hn by lia.
    split; [apply Z.div_pos; lia|]. apply Z.div_lt_upper_bound; lia.
Qed.

Lemma rdigits_chunk n m : 100000 <= n ->
  rdigits (5 + m) 10 n = [n mod 100000 mod 10; n mod 100000 / 10 mod 10; n mod 100000 / 100 mod 10; n mod 100000 / 1000 mod 10; n mod 100000 / 10000] ++ rdigits m 10 (n / 100000).
Proof.
  intros Hn. cbn [rdigits Nat.add app]. rewrite !Z.div_div by lia. change (10 * 10) with 100. change (100 * 10) with 1000. change (1000 * 10) with 10000. change (10000 * 10) with 100000.
  assert (E : forall d, 0 < d -> d <= 100000 -> (n / d =? 0) = false).
  { intros d Hd Hle. apply Z.eqb_neq. pose proof (Z.div_le_lower_bound n d 1). lia. }
  rewrite !E by lia. pose proof (Z.div_mod n 100000 ltac:(lia)) as En. pose proof (Z.mod_pos_bound n 100000 ltac:(lia)) as Hc.
  set (h := n / 100000) in *. set (c := n mod 100000) in *. clearbody h c.
  assert (D : forall d k, 0 < d -> d * (10 * k) = 100000 -> n / d mod 10 = c / d mod 10).
  { intros d k Hd Hk. rewrite En, <- Hk. replace (d * (10 * k) * h + c) with (c + k * h * 10 * d) by lia. rewrite Z.div_add by lia. now rewrite Z.mod_add by lia. }
  rewrite (D 10 1000), (D 100 100), (D 1000 10), (D 10000 1) by lia. replace (c / 10000 mod 10) with (c / 10000) by (Z.to_euclidean_division_equations; lia).
  replace (n mod 10) with (c mod 10) by (rewrite En; replace (100000 * h + c) with (c + 10000 * h * 10) by lia; now rewrite Z.mod_add by lia). done.
Qed.

Definition dec_text (n : Z) : list Z := dec_char <$> rdigits 20 10 n.

Lemma put_dec_loop k : forall pre rest num fuel, 0 <= num < 100000 ^ Z.of_nat (S k) -> (k < fuel)%nat -> (5 * S k <= length rest)%nat ->
  loop fuel (fun '(tmp, buf, num) =>
    if num <? 100000 then r ← put_dec_trunc tmp buf num; Ok (inr r)
    else
      let rem := num mod 100000 in
      let num := num / 100000 in
      '(tmp, buf) ← put_dec_full tmp buf rem;
      Ok (inl (tmp, buf, num))) (pre ++ rest, zlen pre, num) =
  Ok (pre ++ (dec_char <$> rdigits (5 * S k) 10 num) ++ drop (length (rdigits (5 * S k) 10 num)) rest, zlen pre + zlen (rdigits (5 * S k) 10 num)).
Proof.
  assert (Htr : forall k num, 0 <= num < 100000 -> rdigits (5 * S k) 10 num = rdigits 5 10 num)
    by (intros k' num Hn; replace (5 * S k')%nat with (5 + 5 * k')%nat by lia; apply (rdigits_fuel 10 4); lia).
  induction k as [|k IH]; intros pre rest num fuel Hn Hf Hr; (destruct fuel as [|fuel]; [lia|]); cbn [loop]; destruct (Z.ltb_spec num 100000).
  1, 3: rewrite Htr, put_dec_trunc_ok by lia; rewrite bind_ok; done.
  - change (100000 ^ Z.of_nat 1) with 100000 in Hn. lia.
  - cbv zeta. rewrite put_dec_full_ok by (lia || (apply Z.mod_pos_bound; lia)). rewrite bind_ok. set (c := num mod 100000).
    set (ds := [c mod 10; c / 10 mod 10; c / 100 mod 10; c / 1000 mod 10; c / 10000]). assert (E : rdigits (5 * S (S k)) 10 num = ds ++ rdigits (5 * S k) 10 (num / 100000))
      by (replace (5 * S (S k))%nat with (5 + 5 * S k)%nat by lia; apply rdigits_chunk; lia).
    replace (zlen pre + 5) with (zlen (pre ++ (dec_char <$> ds))) by (rewrite zlen_app; done). rewrite app_assoc.
    pose proof (IH (pre ++ (dec_char <$> ds)) (drop 5 rest) (num / 100000) fuel) as E2. cbv zeta in E2. rewrite E2; clear E2.
    + rewrite E, fmap_app, length_app, !zlen_app, zlen_fmap, <- !app_assoc, <- Z.add_assoc. change (length ds) with 5%nat. now rewrite drop_drop.
    + rewrite (Nat2Z.inj_succ (S k)), Z.pow_succ_r in Hn by lia. split; [apply Z.div_pos; lia|]. apply Z.div_lt_upper_bound; lia.
    + lia.
    + rewrite length_drop. lia.
Qed.

Lemma put_dec_ok pre rest num : is_u64 num -> (20 <= length rest)%nat ->
  put_dec (pre ++ rest) (zlen pre) num = Ok (pre ++ dec_text num ++ drop (length (dec_text num)) rest, zlen pre + zlen (dec_text num)).
Proof.
  intros Hn Hr. unfold put_dec, dec_text. rewrite zlen_fmap, length_fmap. apply (put_dec_loop 3); [unfold is_u64 in Hn; change (100000 ^ Z.of_nat 4) with 100000000000000000000; lia|lia|lia].
Qed.

(** * Octal and hexadecimal *)

Definition hex_char (lower : bool) (d : Z) : Z := if d <? 10 then d + 48 else d + (if lower then 87 else 55).

Lemma digit_chars_ok (lower : bool) d : 0 <= d < 16 ->
  exists c, rd digit_chars d = Ok c /\ u8 (Z.lor c (if lower then 32 else 0)) = hex_char lower d.
Proof.
  intros Hd. pose (P := fun k => match rd digit_chars (Z.of_nat k) with Ok c => u8 (Z.lor c (if lower then 32 else 0)) =? hex_char lower (Z.of_nat k) | Err _ => false end).
  assert (H : forallb P (seq 0 16) = true) by (destruct lower; vm_compute; reflexivity). rewrite forallb_forall in H. specialize (H (Z.to_nat d) ltac:(apply in_seq; lia)).
  unfold P in H. rewrite Z2Nat.id in H by lia. destruct (rd digit_chars d) as [c|]; [|done]. exists c. split; [done|]. now apply Z.eqb_eq.
Qed.

Lemma rdigits_S k b n : rdigits (S k) b n = n mod b :: (if n / b =? 0 then [] else rdigits k b (n / b)).
Proof. done. Qed.

Lemma put_pow2_loop (lower : bool) sh k : 1 <= sh <= 4 -> forall pre rest num fuel, 0 <= num < (2 ^ sh) ^ Z.of_nat (S k) -> (k < fuel)%nat -> (S k <= length rest)%nat ->
  loop fuel (fun '(tmp, i, num) =>
    d ← rd digit_chars (Z.land (u8 num) (2 ^ sh - 1));
    tmp ← wr tmp i (u8 (Z.lor d (if lower then 32 else 0)));
    let i := i + 1 in
    let num := Z.shiftr num sh in
    Ok (if negb (num =? 0) then inl (tmp, i, num) else inr (tmp, i))) (pre ++ rest, zlen pre, num) =
  Ok (pre ++ (hex_char lower <$> rdigits (S k) (2 ^ sh) num) ++ drop (length (rdigits (S k) (2 ^ sh) num)) rest, zlen pre + zlen (rdigits (S k) (2 ^ sh) num)).
Proof.
  intros Hsh. assert (Hp : 2 <= 2 ^ sh <= 16) by (assert (sh = 1 \/ sh = 2 \/ sh = 3 \/ sh = 4) as [-> |[-> |[-> | ->]]] by lia; cbn; lia).
  assert (Hmask : forall num, 0 <= num -> Z.land (u8 num) (2 ^ sh - 1) = num mod 2 ^ sh).
  { intros num Hn. rewrite land_mask by lia. unfold u8. replace (2 ^ 8) with (2 ^ sh * 2 ^ (8 - sh)) by (rewrite <- Z.pow_add_r by lia; f_equal; lia).
    assert (Hp2 : 0 < 2 ^ (8 - sh)) by (apply Z.pow_pos_nonneg; lia). apply Z.mod_mod_divide. exists (2 ^ (8 - sh)). lia. }
  induction k as [|k IH]; intros pre rest num fuel Hn Hf Hr; (destruct fuel as [|fuel]; [lia|]); (destruct rest as [|r rest]; [cbn in Hr; lia|]); cbn [loop].
  all: rewrite Hmask by lia; destruct (digit_chars_ok lower (num mod 2 ^ sh)) as (c & -> & Hc); [pose proof (Z.mod_pos_bound num (2 ^ sh) ltac:(lia)); lia|].
  all: rewrite bind_ok, Hc, wr_mid, bind_ok; cbv zeta; rewrite Z.shiftr_div_pow2 by lia; rewrite rdigits_S.
  - assert (E : num / 2 ^ sh = 0) by (apply Z.div_small; change (Z.of_nat 1) with 1 in Hn; lia). rewrite E. done.
  - destruct (Z.eqb_spec (num / 2 ^ sh) 0) as [E|E]; cbn [negb]; [done|].
    pose proof (IH (pre ++ [hex_char lower (num mod 2 ^ sh)]) rest (num / 2 ^ sh) fuel) as E2. cbv zeta in E2. rewrite <- !app_assoc, zlen_app in E2. cbn [app] in E2. change (zlen [_]) with 1 in E2.
    rewrite E2; [|..|cbn in Hr; lia]; clear E2.
    + set (R := rdigits (S k) (2 ^ sh) (num / 2 ^ sh)). replace (zlen (num mod 2 ^ sh :: R)) with (1 + zlen R) by (unfold zlen; cbn [length]; lia). now rewrite Z.add_assoc.
    + rewrite (Nat2Z.inj_succ (S k)), Z.pow_succ_r in Hn by lia. split; [apply Z.div_pos; lia|]. apply Z.div_lt_upper_bound; lia.
    + lia.
Qed.

(** The digits of a number in a buffer for [tmp]. *)
Definition num_chars (lower : bool) (b n : Z) : list Z := hex_char lower <$> rdigits 22 b n.

Definition good_base (b : Z) : Prop := b = 8 \/ b = 10 \/ b = 16.

Lemma rdigits_range b n k d : 0 < b -> d ∈ rdigits k b n -> 0 <= d < b.
Proof.
  intros Hb. revert n. induction k as [|k IH]; intros n; [intros Hd; now apply not_elem_of_nil in Hd|]. rewrite rdigits_S, elem_of_cons. intros [->|Hd]; [apply Z.mod_pos_bound; lia|].
  destruct (n / b =? 0); [now apply not_elem_of_nil in Hd|]. now apply (IH (n / b)).
Qed.

Lemma num_chars_10 lower n : is_u64 n -> num_chars lower 10 n = dec_text n.
Proof.
  intros Hn. unfold num_chars, dec_text. rewrite (rdigits_fuel 10 19 2) by (unfold is_u64 in Hn; change (10 ^ Z.of_nat 20) with 100000000000000000000; lia).
  apply list_fmap_ext. intros i d Hd. apply list_elem_of_lookup_2, rdigits_range in Hd; [|lia]. unfold hex_char, dec_char. destruct (Z.ltb_spec d 10); [done|lia].
Qed.

Lemma gen_digits_ok (lower : bool) b n : good_base b -> is_u64 n ->
  (if n =? 0 then tmp ← wr (repeat 0 66) 0 48; Ok (tmp, 1)
   else if negb (b =? 10) then put_pow2 (repeat 0 66) n (b - 1) (if b =? 16 then 4 else 3) (if lower then 32 else 0)
   else put_dec (repeat 0 66) 0 n) =
  Ok (num_chars lower b n ++ drop (length (num_chars lower b n)) (repeat 0 66), zlen (num_chars lower b n)).
Proof.
  intros Hb Hn. unfold is_u64 in Hn. destruct (Z.eqb_spec n 0) as [->|Hne].
  - assert (E : num_chars lower b 0 = [48]) by (unfold num_chars; rewrite rdigits_S, Z.mod_0_l, Z.div_0_l by (destruct Hb; lia); done). rewrite E. done.
  - destruct Hb as [->|[->| ->]]; cbn [Z.eqb Pos.eqb negb].
    + unfold put_pow2. unfold num_chars at 1 2. pose proof (put_pow2_loop lower 3 21 ltac:(lia) [] (repeat 0 66) n 22) as E. cbv zeta in E. change (2 ^ 3 - 1) with (8 - 1) in E.
      change (zlen (@nil Z)) with 0 in E. cbn [app] in E. rewrite E; [unfold num_chars; now rewrite length_fmap, zlen_fmap| |lia|cbn; lia]. change ((2 ^ 3) ^ Z.of_nat 22) with (2 ^ 66). lia.
    + rewrite (num_chars_10 lower) by done. pose proof (put_dec_ok [] (repeat 0 66) n Hn ltac:(cbn; lia)) as E. exact E.
    + unfold put_pow2. unfold num_chars at 1 2. pose proof (put_pow2_loop lower 4 21 ltac:(lia) [] (repeat 0 66) n 22) as E. cbv zeta in E. change (2 ^ 4 - 1) with (16 - 1) in E.
      change (zlen (@nil Z)) with 0 in E. cbn [app] in E. rewrite E; [unfold num_chars; now rewrite length_fmap, zlen_fmap| |lia|cbn; lia]. change ((2 ^ 4) ^ Z.of_nat 22) with (2 ^ 88). lia.
Qed.

(** * The output buffer *)

Section output.
(** The room for output lies between [pre] and [post]; the position may already
    be past it. *)
Context (pre room post : list Z) (pos : Z) (Hpos : pos = zlen pre \/ (room = [] /\ zlen pre <= pos)).
Local Abbreviation end_ := (zlen pre + zlen room).

(** After [e] has been printed. *)
Definition printed (e : list Z) : list Z * Z := (pre ++ take (length room) e ++ drop (length e) room ++ post, pos + zlen e).

Lemma put_ok e c : is_u8 c -> put end_ (printed e) c = Ok (printed (e ++ [c])).
Proof using Hpos.
  intros Hc. unfold put, printed. cbn [fst snd]. rewrite zlen_app. change (zlen [c]) with 1. rewrite Z.add_assoc, length_app. cbn [length].
  destruct (Z.ltb_spec (pos + zlen e) end_) as [Hlt|Hge].
  - destruct Hpos as [->|[-> Hp]]; [|unfold zlen in *; cbn in *; lia]. assert (Hl : (length e < length room)%nat) by (unfold zlen in Hlt; lia).
    rewrite (take_ge e) by lia. rewrite (take_ge (e ++ [c])) by (rewrite length_app; cbn; lia).
    destruct (drop (length e) room) as [|x r] eqn:Ed; [apply (f_equal length) in Ed; rewrite length_drop in Ed; cbn in Ed; lia|].
    assert (Ed' : drop (length e + 1) room = r) by (rewrite <- drop_drop, Ed; done). rewrite Ed', u8_id by done.
    pose proof (wr_mid (pre ++ e) x c (r ++ post)) as E. rewrite zlen_app, <- !app_assoc in E. cbn [app]. rewrite E, bind_ok. now rewrite <- app_assoc.
  - rewrite bind_ok. do 2 f_equal. assert (Hl : (length room <= length e)%nat) by (destruct Hpos as [->|[-> Hp]]; [unfold zlen in Hge; lia|cbn; lia]).
    rewrite (drop_ge room (length e)), (drop_ge room (length e + 1)) by lia. rewrite take_app_le by lia. done.
Qed.

Lemma pad_ok e w c : is_u8 c -> -2 ^ 31 < w < 2 ^ 31 -> pad end_ (printed e) w c = Ok (Z.min (-1) (w - 1), printed (e ++ repeat c (Z.to_nat w))).
Proof using Hpos.
  intros Hc Hw. unfold pad. assert (E : forall n w e, Z.to_nat w = n -> -2 ^ 31 < w < 2 ^ 31 -> loop (S n) (fun '(width, out) =>
    let width := s32 (width - 1) in
    if 0 <=? width then out ← put end_ out c; Ok (inl (width, out)) else Ok (inr (width, out))) (w, printed e) = Ok (Z.min (-1) (w - 1), printed (e ++ repeat c n))).
  { clear e w Hw. induction n as [|n IH]; intros w e Hn Hw; cbn [loop]; cbv zeta; rewrite s32_id by (unfold is_s32; lia).
    - destruct (Z.leb_spec 0 (w - 1)); [lia|]. cbn [repeat]. rewrite app_nil_r. now replace (Z.min (-1) (w - 1)) with (w - 1) by lia.
    - destruct (Z.leb_spec 0 (w - 1)); [|lia]. rewrite put_ok, bind_ok by done. pose proof (IH (w - 1) (e ++ [c]) ltac:(lia) ltac:(lia)) as E. cbn [loop] in E. cbv zeta in E. rewrite E.
      rewrite <- app_assoc. cbn [repeat app]. now replace (Z.min (-1) (w - 1 - 1)) with (Z.min (-1) (w - 1)) by lia. }
  now apply E.
Qed.

Lemma pad_precision_ok e i p : 0 <= i -> i <= p < 2 ^ 31 -> pad_precision end_ (printed e) i p = Ok (printed (e ++ repeat 48 (Z.to_nat (p - i)))).
Proof using Hpos.
  intros Hi Hp. unfold pad_precision. assert (E : forall n p e, Z.to_nat (p - i) = n -> i <= p < 2 ^ 31 -> loop (S n) (fun '(precision, out) =>
    let precision := s32 (precision - 1) in
    if i <=? precision then out ← put end_ out 48; Ok (inl (precision, out)) else Ok (inr out)) (p, printed e) = Ok (printed (e ++ repeat 48 n))).
  { clear e p Hp. induction n as [|n IH]; intros p e Hn Hp; cbn [loop]; cbv zeta; rewrite s32_id by (unfold is_s32; lia).
    - destruct (Z.leb_spec i (p - 1)); [lia|]. cbn [repeat]. now rewrite app_nil_r.
    - destruct (Z.leb_spec i (p - 1)); [|lia]. rewrite put_ok, bind_ok by (unfold is_u8; lia). pose proof (IH (p - 1) (e ++ [48]) ltac:(lia) ltac:(lia)) as E. cbn [loop] in E. cbv zeta in E. rewrite E.
      now rewrite <- app_assoc. }
  now apply E.
Qed.

Lemma put_digits_ok e ds rest : Forall is_u8 ds -> put_digits end_ (printed e) (ds ++ rest) (zlen ds) = Ok (printed (e ++ rev ds)).
Proof using Hpos.
  intros Hds. unfold put_digits. assert (E : forall ds rest e, Forall is_u8 ds -> loop (S (length ds)) (fun '(i, out) =>
    let i := i - 1 in
    if 0 <=? i then c ← rd (ds ++ rest) i; out ← put end_ out c; Ok (inl (i, out)) else Ok (inr out)) (zlen ds, printed e) = Ok (printed (e ++ rev ds))).
  { clear e ds rest Hds. intros ds. induction ds as [|d ds IH] using rev_ind; intros rest e Hds; cbn [loop]; cbv zeta.
    - cbn. now rewrite app_nil_r.
    - rewrite length_app, Nat.add_1_r, zlen_app. change (zlen [d]) with 1. replace (zlen ds + 1 - 1) with (zlen ds) by lia. destruct (Z.leb_spec 0 (zlen ds)); [|pose proof (zlen_nonneg ds); lia].
      apply Forall_app in Hds as [Hds Hd]. rewrite <- app_assoc. cbn [app]. rewrite rd_mid, bind_ok, put_ok, bind_ok by now inversion Hd.
      pose proof (IH (d :: rest) (e ++ [d]) Hds) as E. cbv zeta in E. rewrite E. now rewrite rev_app_distr, <- app_assoc. }
  unfold zlen at 1. rewrite Nat2Z.id. now apply E.
Qed.
End output.

(** * [number] *)

(** The order of the parts, once they are known. *)
Definition arrange (left zero : bool) (w p : Z) (sgn pfx ds : list Z) : list Z :=
  let zeros := repeat 48 (Z.to_nat (p - zlen ds)) in
  let fill c := repeat c (Z.to_nat (w - zlen sgn - zlen pfx - zlen zeros - zlen ds)) in
  if left then sgn ++ pfx ++ zeros ++ ds ++ fill 32
  else if zero then sgn ++ pfx ++ fill 48 ++ zeros ++ ds
  else fill 32 ++ sgn ++ pfx ++ zeros ++ ds.

(** The text of a number by its format. *)
Definition render (num : Z) (spec : printf_spec) : list Z :=
  let f := flag (flags spec) in
  let neg := f SIGN && (s64 num <? 0) in
  let mag := if neg then - s64 num else num in
  let sgn := if neg then [45] else if f SIGN && f PLUS then [43] else if f SIGN && f SPACE then [32] else [] in
  let pfx := if f SPECIAL && negb (base spec =? 10) then 48 :: (if base spec =? 16 then [if f SMALL then 120 else 88] else []) else [] in
  let ds := rev (num_chars (f SMALL) (base spec) mag) in
  arrange (f LEFT) (f ZEROPAD) (field_width spec) (precision spec) sgn pfx ds.

Lemma land_pow2 x k : 0 <= k -> Z.land x (2 ^ k) = if Z.testbit x k then 2 ^ k else 0.
Proof.
  intros Hk. apply Z.bits_inj'. intros i Hi. rewrite Z.land_spec, Z.pow2_bits_eqb by lia. destruct (Z.eqb_spec k i) as [<-|Hne].
  - destruct (Z.testbit x k); [now rewrite Z.pow2_bits_eqb, Z.eqb_refl by lia|now rewrite Z.bits_0].
  - rewrite andb_false_r. destruct (Z.testbit x k); [now rewrite Z.pow2_bits_false by done|now rewrite Z.bits_0].
Qed.

Lemma flag_bit x k : 0 <= k -> flag x (2 ^ k) = Z.testbit x k.
Proof. intros Hk. unfold flag. rewrite land_pow2 by done. destruct (Z.testbit x k); [|done]. pose proof (Z.pow_pos_nonneg 2 k). destruct (Z.eqb_spec (2 ^ k) 0); [lia|done]. Qed.

Lemma flag_pad x : flag x (ZEROPAD + LEFT) = flag x ZEROPAD || flag x LEFT.
Proof.
  change ZEROPAD with (2 ^ 0). change LEFT with (2 ^ 4). rewrite !flag_bit by lia. unfold flag. change (2 ^ 0 + 2 ^ 4) with (Z.lor (2 ^ 0) (2 ^ 4)). rewrite Z.land_lor_distr_r, !land_pow2 by lia.
  destruct (Z.testbit x 0), (Z.testbit x 4); done.
Qed.

(** The flags after ZEROPAD has been dropped for LEFT. *)
Lemma flag_left x f : f = SIGN \/ f = PLUS \/ f = SPACE \/ f = LEFT ->
  flag (if flag x LEFT then Z.land x (Z.lnot ZEROPAD) else x) f = flag x f.
Proof.
  intros Hf. destruct (flag x LEFT); [|done]. assert (exists k, 1 <= k /\ f = 2 ^ k) as (k & Hk & ->).
  { destruct Hf as [->|[->|[->| ->]]]; [exists 1|exists 2|exists 3|exists 4]; done. }
  rewrite !flag_bit, Z.land_spec, Z.lnot_spec by lia. change ZEROPAD with (2 ^ 0). rewrite Z.pow2_bits_false by lia. apply andb_true_r.
Qed.

Lemma flag_left_zero x : flag (if flag x LEFT then Z.land x (Z.lnot ZEROPAD) else x) ZEROPAD = flag x ZEROPAD && negb (flag x LEFT).
Proof.
  destruct (flag x LEFT); [|now rewrite andb_true_r]. change ZEROPAD with (2 ^ 0). rewrite !flag_bit, Z.land_spec, Z.lnot_spec, Z.pow2_bits_true by lia. now rewrite !andb_false_r.
Qed.

Lemma locase_ok x : u8 (Z.land x SMALL) = if flag x SMALL then 32 else 0.
Proof. change SMALL with (2 ^ 5). rewrite flag_bit, land_pow2 by lia. now destruct (Z.testbit x 5). Qed.

Lemma num_chars_len lower b n : 1 <= zlen (num_chars lower b n) <= 22.
Proof.
  unfold num_chars. rewrite zlen_fmap. assert (H : forall k m, (length (rdigits k b m) <= k)%nat).
  { induction k as [|k IH]; intros m; [done|]. rewrite rdigits_S. cbn [length]. destruct (m / b =? 0); cbn; [lia|]. specialize (IH (m / b)). lia. }
  specialize (H 22%nat n). rewrite rdigits_S in *. unfold zlen. cbn [length] in *. lia.
Qed.

Lemma num_chars_u8 lower b n : good_base b -> Forall is_u8 (num_chars lower b n).
Proof.
  intros Hb. unfold num_chars. apply Forall_fmap. apply Forall_forall. intros d Hd. apply list_elem_of_In in Hd. apply rdigits_range in Hd; [|destruct Hb; lia].
  unfold is_u8, hex_char. cbn. destruct (Z.ltb_spec d 10), lower; destruct Hb; lia.
Qed.

Lemma zlen_repeat {A} (x : A) n : zlen (repeat x n) = Z.of_nat n.
Proof. unfold zlen. now rewrite repeat_length. Qed.

Section arrange.
Context (pre room post : list Z) (pos : Z) (Hpos : pos = zlen pre \/ (room = [] /\ zlen pre <= pos)).
Local Abbreviation end_ := (zlen pre + zlen room).
Local Abbreviation out e := (printed pre room post pos e).

Lemma put_sign e sign : is_u8 sign ->
  (if negb (sign =? 0) then put end_ (out e) sign else Ok (out e)) = Ok (out (e ++ if sign =? 0 then [] else [sign])).
Proof using Hpos. intros Hs. destruct (sign =? 0); cbn [negb]; [now rewrite app_nil_r|now rewrite put_ok]. Qed.

Lemma put_prefix e (need hex lower : bool) :
  (if need then o ← put end_ (out e) 48; if hex then put end_ o (Z.lor 88 (if lower then 32 else 0)) else Ok o else Ok (out e)) =
  Ok (out (e ++ if need then 48 :: (if hex then [if lower then 120 else 88] else []) else [])).
Proof using Hpos.
  destruct need; [|now rewrite app_nil_r]. rewrite put_ok, bind_ok by (done || (unfold is_u8; lia)). destruct hex; [|done].
  rewrite put_ok by (done || (destruct lower; vm_compute; split; congruence)). rewrite <- app_assoc. now destruct lower.
Qed.

Lemma arrange_ok (left zero : bool) w p sign pfx ds rest (fpfx : list Z * Z -> res (list Z * Z)) :
  is_u8 sign -> Forall is_u8 ds -> -2 ^ 30 < w < 2 ^ 30 -> p < 2 ^ 29 -> 1 <= zlen ds <= 22 -> zero && left = false ->
  (forall e, fpfx (out e) = Ok (out (e ++ pfx))) ->
  (let precision := if p <? zlen ds then zlen ds else p in
   let w := s32 (w - precision) in
   '(w, o) ← (if negb (zero || left) then pad end_ (out []) w 32 else Ok (w, out []));
   o ← (if negb (sign =? 0) then put end_ o sign else Ok o);
   o ← fpfx o;
   '(w, o) ← (if negb left then pad end_ o w (if zero then 48 else 32) else Ok (w, o));
   o ← pad_precision end_ o (zlen ds) precision;
   o ← put_digits end_ o (ds ++ rest) (zlen ds);
   '(_, o) ← pad end_ o w 32;
   Ok o) =
  let sgn := if sign =? 0 then [] else [sign] in Ok (out (arrange left zero (w + zlen sgn + zlen pfx) p sgn pfx (rev ds))).
Proof using Hpos.
  intros Hs Hds Hw Hp Hl Hzl Hpfx. cbv zeta. set (P := if p <? zlen ds then zlen ds else p). set (sgn := if sign =? 0 then [] else [sign]).
  assert (HP : zlen ds <= P < 2 ^ 29 /\ P = Z.max p (zlen ds)) by (unfold P; destruct (Z.ltb_spec p (zlen ds)); lia). destruct HP as [HP EP].
  assert (Hz : zlen (rev ds) = zlen ds) by (unfold zlen; now rewrite length_rev). rewrite s32_id by (unfold is_s32; lia). unfold arrange. rewrite Hz.
  assert (Ez : Z.to_nat (P - zlen ds) = Z.to_nat (p - zlen ds)) by lia.
  replace (w + zlen sgn + zlen pfx - zlen sgn - zlen pfx - zlen (repeat 48 (Z.to_nat (p - zlen ds))) - zlen ds) with (w - P)
    by (rewrite zlen_repeat; lia).
  clearbody P. destruct left, zero; try done; cbn [negb orb].
  - rewrite bind_ok, put_sign, bind_ok, Hpfx, bind_ok, bind_ok, pad_precision_ok, bind_ok, put_digits_ok, bind_ok, pad_ok, bind_ok by (done || (unfold is_u8; lia) || lia).
    fold sgn. now rewrite Ez, <- !app_assoc.
  - rewrite bind_ok, put_sign, bind_ok, Hpfx, bind_ok, pad_ok, bind_ok, pad_precision_ok, bind_ok, put_digits_ok, bind_ok, pad_ok, bind_ok by (done || (unfold is_u8; lia) || lia).
    fold sgn. replace (Z.to_nat (Z.min (-1) (w - P - 1))) with 0%nat by lia. cbn [repeat]. now rewrite Ez, app_nil_r, <- !app_assoc.
  - rewrite pad_ok, bind_ok, put_sign, bind_ok, Hpfx, bind_ok, pad_ok, bind_ok, pad_precision_ok, bind_ok, put_digits_ok, bind_ok, pad_ok, bind_ok by (done || (unfold is_u8; lia) || lia).
    fold sgn. replace (Z.to_nat (Z.min (-1) (w - P - 1))) with 0%nat by lia. replace (Z.to_nat (Z.min (-1) (Z.min (-1) (w - P - 1) - 1))) with 0%nat by lia.
    cbn [repeat]. now rewrite Ez, !app_nil_r, <- !app_assoc.
Qed.
End arrange.

Lemma number_ok pre room post pos num spec : pos = zlen pre \/ (room = [] /\ zlen pre <= pos) -> good_base (base spec) -> is_u64 num ->
  -2 ^ 29 < field_width spec < 2 ^ 30 -> precision spec < 2 ^ 29 ->
  number (pre ++ room ++ post) pos (zlen pre + zlen room) num spec = Ok (printed pre room post pos (render num spec)).
Proof.
  intros Hpos Hb Hn Hw Hp. unfold number, render. rewrite locase_ok. set (fl := if flag (flags spec) LEFT then _ else _).
  assert (F1 : flag fl SIGN = flag (flags spec) SIGN) by (apply flag_left; auto). assert (F2 : flag fl PLUS = flag (flags spec) PLUS) by (apply flag_left; auto).
  assert (F3 : flag fl SPACE = flag (flags spec) SPACE) by (apply flag_left; auto). assert (F4 : flag fl LEFT = flag (flags spec) LEFT) by (apply flag_left; auto).
  assert (F5 : flag fl ZEROPAD = flag (flags spec) ZEROPAD && negb (flag (flags spec) LEFT)) by apply flag_left_zero.
  rewrite flag_pad, F1, F2, F3, F4, F5. clearbody fl. clear F1 F2 F3 F4 F5.
  set (f := flag (flags spec)) in *. set (need := f SPECIAL && negb (base spec =? 10)).
  set (neg := f SIGN && (s64 num <? 0)). set (mag := if neg then - s64 num else num).
  set (sign := if neg then 45 else if f SIGN && f PLUS then 43 else if f SIGN && f SPACE then 32 else 0).
  set (w := field_width spec - (if sign =? 0 then 0 else 1) - (if need then if base spec =? 16 then 2 else 1 else 0)).
  assert (Hmag : is_u64 mag). { unfold mag, neg, s64, is_u64 in *. destruct (f SIGN); cbn [andb]; [|done]. destruct (Z.ltb_spec ((num + 2 ^ 63) mod 2 ^ 64 - 2 ^ 63) 0); [|done].
    pose proof (Z.mod_pos_bound (num + 2 ^ 63) (2 ^ 64) ltac:(lia)). lia. }
  match goal with |- context [if f SIGN then ?x else (0, num, field_width spec)] =>
    replace (if f SIGN then x else (0, num, field_width spec)) with (sign, mag, field_width spec - (if sign =? 0 then 0 else 1)) end.
  2: { unfold sign, mag, neg in *. destruct (f SIGN); cbn [andb] in *; [|now rewrite Z.sub_0_r]. rewrite s32_id by (unfold is_s32; lia).
    destruct (s64 num <? 0); cbn [andb]; [now rewrite (u64_id (- s64 num)) by exact Hmag|]. destruct (f PLUS); [done|]. destruct (f SPACE); [done|]. now rewrite Z.sub_0_r. }
  cbv iota beta zeta.
  rewrite (gen_digits_ok (f SMALL) (base spec) mag Hb Hmag), bind_ok.
  set (pfx := if need then 48 :: _ else []). set (ds := num_chars (f SMALL) (base spec) mag). pose proof (num_chars_len (f SMALL) (base spec) mag) as Hlen.
  match goal with |- context [s32 ((if need then ?x else ?y) - _)] => replace (if need then x else y) with w end.
  2: { unfold w. destruct need; [|lia]. rewrite (s32_id (field_width spec - _ - 1)) by (unfold is_s32; destruct (sign =? 0); lia).
    destruct (base spec =? 16); [|lia]. rewrite s32_id by (unfold is_s32; destruct (sign =? 0); lia). lia. }
  assert (Hw' : -2 ^ 30 < w < 2 ^ 30) by (unfold w; destruct (sign =? 0), need, (base spec =? 16); lia).
  pose proof (arrange_ok pre room post pos Hpos (f LEFT) (f ZEROPAD && negb (f LEFT)) w (precision spec) sign pfx ds (drop (length ds) (repeat 0 66))
    (fun o => if need then o ← put (zlen pre + zlen room) o 48; if base spec =? 16 then put (zlen pre + zlen room) o (Z.lor 88 (if f SMALL then 32 else 0)) else Ok o else Ok o)) as E.
  cbv beta zeta in E. assert (E0 : printed pre room post pos [] = (pre ++ room ++ post, pos)) by (unfold printed; rewrite take_nil, Z.add_0_r; done).
  rewrite E0 in E. rewrite E; clear E.
  - assert (Es : (if sign =? 0 then [] else [sign]) = if neg then [45] else if f SIGN && f PLUS then [43] else if f SIGN && f SPACE then [32] else [])
      by (unfold sign; destruct neg; [done|]; destruct (f SIGN && f PLUS); [done|]; destruct (f SIGN && f SPACE); done).
    assert (Ew : w + zlen (if sign =? 0 then [] else [sign]) + zlen pfx = field_width spec)
      by (unfold w, pfx; destruct (sign =? 0), need; try destruct (base spec =? 16); unfold zlen; cbn [length]; lia).
    rewrite Ew, Es. do 2 f_equal. unfold arrange. destruct (f LEFT); [done|]. now rewrite andb_true_r.
  - unfold sign, is_u8. destruct neg; [lia|]. destruct (f SIGN && f PLUS); [lia|]. destruct (f SIGN && f SPACE); lia.
  - now apply num_chars_u8.
  - exact Hw'.
  - exact Hp.
  - exact Hlen.
  - destruct (f ZEROPAD), (f LEFT); done.
  - intros e. apply put_prefix. exact Hpos.
Qed.

(** * Reading back what was printed *)

Lemma hex_char_ok (lower : bool) d b : 0 <= d < b -> b <= 16 ->
  digit_in b (hex_char lower d) = true /\ hex_value (hex_char lower d) = d /\ is_x (hex_char lower d) = false /\ 0 < hex_char lower d < 256.
Proof.
  intros Hd Hb. pose (P := fun k => let c := hex_char lower (Z.of_nat k) in hex_digit c && (hex_value c =? Z.of_nat k) && negb (is_x c) && (0 <? c) && (c <? 256)).
  assert (H : forallb P (seq 0 16) = true) by (destruct lower; vm_compute; reflexivity). rewrite forallb_forall in H. specialize (H (Z.to_nat d) ltac:(apply in_seq; lia)).
  unfold P in H. rewrite Z2Nat.id in H by lia. cbv zeta in H. rewrite !andb_true_iff, negb_true_iff in H. destruct H as ((((H1 & H2) & H3) & H4) & H5).
  unfold digit_in. rewrite H1. apply Z.eqb_eq in H2. rewrite H2. repeat split; [|done|lia..]. destruct (Z.ltb_spec d b); [done|lia].
Qed.

Lemma value_snoc b ds d : value b (ds ++ [d]) = value b ds * b + d.
Proof. unfold value. now rewrite fold_left_app. Qed.

Lemma value_rdigits b k : 2 <= b -> forall n, 0 <= n < b ^ Z.of_nat k -> (0 < k)%nat -> value b (rev (rdigits k b n)) = n.
Proof.
  intros Hb. induction k as [|k IH]; intros n Hn Hk; [lia|]. rewrite rdigits_S. cbn [rev]. rewrite value_snoc. pose proof (Z.div_mod n b ltac:(lia)) as E.
  destruct (Z.eqb_spec (n / b) 0) as [E0|E0]; [cbn; lia|]. rewrite (Nat2Z.inj_succ k), Z.pow_succ_r in Hn by lia. destruct k as [|k].
  - change (b ^ Z.of_nat 0) with 1 in Hn. destruct E0. apply Z.div_small. lia.
  - rewrite IH; [lia| |lia]. split; [apply Z.div_pos; lia|]. apply Z.div_lt_upper_bound; lia.
Qed.

(** The first digit printed is zero for zero only. *)
Lemma rdigits_top b k : 2 <= b -> forall n, 0 < n < b ^ Z.of_nat k -> exists d ds, rev (rdigits k b n) = d :: ds /\ d <> 0.
Proof.
  intros Hb. induction k as [|k IH]; intros n Hn; [change (b ^ Z.of_nat 0) with 1 in Hn; lia|]. rewrite rdigits_S. cbn [rev]. pose proof (Z.div_mod n b ltac:(lia)) as E.
  destruct (Z.eqb_spec (n / b) 0) as [E0|E0]; [exists (n mod b), []; cbn; split; [done|lia]|]. rewrite (Nat2Z.inj_succ k), Z.pow_succ_r in Hn by lia.
  assert (0 <= n / b) by (apply Z.div_pos; lia). destruct (IH (n / b)) as (d & ds & -> & Hd).
  - split; [lia|]. apply Z.div_lt_upper_bound; lia.
  - exists d, (ds ++ [n mod b]). done.
Qed.

(** Digits printed in base [b], behind them the end or a newline. *)
Definition tail_ok (nl : list Z) : Prop := nl = [] \/ nl = [chr_nl].

Lemma digits_printed lower b nl ds : b <= 16 -> tail_ok nl -> Forall (fun d => 0 <= d < b) ds -> digits b ((hex_char lower <$> ds) ++ nl) = ds.
Proof.
  intros Hb Hnl. induction 1 as [|d ds Hd _ IH]; [destruct Hnl as [->| ->]; done|]. cbn [fmap list_fmap app digits]. destruct (hex_char_ok lower d b Hd Hb) as (-> & -> & _). now f_equal.
Qed.

Lemma prefix_none b l : Forall (fun c => is_x c = false) l -> prefix_len b l = 0%nat.
Proof. intros H. destruct l as [|c [|x l]]; [done..|]. cbn. inversion_clear H as [|?? _ H']. inversion_clear H' as [|?? Hx _]. rewrite Hx. now rewrite andb_false_r. Qed.

Lemma strict_printed base l nl ds n : tail_ok nl -> consumed base (l ++ nl) = length l -> (0 < length l)%nat -> parsed base (l ++ nl) = ds ->
  value (effective_base base (l ++ nl)) ds = n -> is_u64 n -> strict_spec u64 base (l ++ nl) = (0, n).
Proof.
  intros Hnl Hc Hl Hp Hv Hn. unfold strict_spec. rewrite Hc, Hp, Hv, drop_app_length, u64_id by done. destruct (Nat.eqb_spec (length l) 0); [lia|]. cbn [orb].
  rewrite bool_decide_true by exact Hnl. done.
Qed.

Section readback.
Context (lower : bool) (b n : Z) (nl : list Z) (Hb : good_base b) (Hn : is_u64 n) (Hnl : tail_ok nl).
Local Abbreviation rs := (rev (rdigits 22 b n)).
Local Abbreviation text := (hex_char lower <$> rs).

Lemma base_bounds : 8 <= b <= 16 /\ n < b ^ Z.of_nat 22.
Proof using Hb Hn.
  unfold is_u64 in Hn. destruct Hb as [->|[->| ->]]; (split; [lia|]).
  - change (8 ^ Z.of_nat 22) with (2 ^ 66). lia.
  - change (10 ^ Z.of_nat 22) with 10000000000000000000000. lia.
  - change (16 ^ Z.of_nat 22) with (2 ^ 88). lia.
Qed.

Lemma rs_facts : Forall (fun d => 0 <= d < b) rs /\ value b rs = n /\ (0 < length rs)%nat /\ Forall (fun c => is_x c = false) (text ++ nl).
Proof using Hb Hn Hnl.
  destruct base_bounds as [H1 H2]. unfold is_u64 in Hn.
  assert (Hr : Forall (fun d => 0 <= d < b) rs).
  { apply Forall_rev. apply List.Forall_forall. intros d Hd. apply (rdigits_range b n 22); [lia|]. now apply list_elem_of_In. }
  split; [done|]. split; [apply value_rdigits; lia|]. split; [rewrite length_rev, rdigits_S; cbn; lia|].
  apply Forall_app. split; [|destruct Hnl as [->| ->]; repeat constructor]. apply Forall_fmap. eapply List.Forall_impl; [|exact Hr].
  intros d Hd. cbv beta in Hd. apply (hex_char_ok lower d b); lia.
Qed.

Lemma read_plain pb : effective_base pb (text ++ nl) = b -> strict_spec u64 pb (text ++ nl) = (0, n).
Proof using Hb Hn Hnl.
  intros He. destruct rs_facts as (Hr & Hv & Hl & Hx). destruct base_bounds as [H1 _].
  assert (Hp : parsed pb (text ++ nl) = rs) by (unfold parsed; rewrite He, prefix_none, drop_0 by done; apply digits_printed; done || lia).
  apply (strict_printed pb _ nl rs n); [done| |now rewrite length_fmap|done|now rewrite He|done].
  unfold consumed. rewrite Hp, He, prefix_none by done. now rewrite length_fmap.
Qed.

(** A zero before octal digits. *)
Lemma read_octal pb : b = 8 -> pb = 8 \/ pb = 0 -> strict_spec u64 pb ((48 :: text) ++ nl) = (0, n).
Proof using Hb Hn Hnl.
  intros E8 Hpb. destruct rs_facts as (Hr & Hv & Hl & Hx). cbn [app].
  assert (Hx' : Forall (fun c => is_x c = false) (48 :: text ++ nl)) by (constructor; done).
  assert (He : effective_base pb (48 :: text ++ nl) = 8).
  { destruct Hpb as [->| ->]; [done|]. unfold effective_base, guess. cbn [Z.eqb Pos.eqb]. destruct (text ++ nl) as [|x [|h l]]; [done..|]. inversion_clear Hx as [|?? Hx1 _]. now rewrite Hx1. }
  assert (Hp : parsed pb (48 :: text ++ nl) = 0 :: rs).
  { unfold parsed. rewrite He, prefix_none, drop_0 by done. rewrite <- E8. cbn [digits]. change (digit_in b 48) with (0 <? b). destruct (Z.ltb_spec 0 b); [|lia].
    change (hex_value 48) with 0. f_equal. apply digits_printed; done || lia. }
  apply (strict_printed pb (48 :: text) nl (0 :: rs) n); cbn [app]; [done| |cbn; lia|done| |done].
  - unfold consumed. rewrite Hp, He, prefix_none by done. cbn [length]. now rewrite length_fmap.
  - rewrite He, <- E8. exact Hv.
Qed.

(** "0x" before hexadecimal digits. *)
Lemma read_hex pb x : b = 16 -> is_x x = true -> pb = 16 \/ pb = 0 -> strict_spec u64 pb ((48 :: x :: text) ++ nl) = (0, n).
Proof using Hb Hn Hnl.
  intros E16 Hx Hpb. destruct rs_facts as (Hr & Hv & Hl & _). cbn [app].
  assert (He : effective_base pb (48 :: x :: text ++ nl) = 16).
  { destruct Hpb as [->| ->]; [done|]. unfold effective_base, guess. cbn [Z.eqb Pos.eqb]. destruct rs as [|d ds]; [cbn in Hl; lia|]. cbn [fmap list_fmap app].
    inversion_clear Hr as [|?? Hd _]. destruct (hex_char_ok lower d b Hd ltac:(lia)) as (Hdi & _). unfold digit_in in Hdi. apply andb_prop in Hdi as [Hdi _]. now rewrite Hx, Hdi. }
  assert (Hk : prefix_len 16 (48 :: x :: text ++ nl) = 2%nat) by (cbn [prefix_len]; now rewrite Hx).
  assert (Hp : parsed pb (48 :: x :: text ++ nl) = rs) by (unfold parsed; rewrite He, Hk; cbn [drop]; rewrite <- E16; apply digits_printed; done || lia).
  apply (strict_printed pb (48 :: x :: text) nl rs n); cbn [app]; [done| |cbn; lia|done|now rewrite He, <- E16|done].
  unfold consumed. rewrite Hp, He, Hk. cbn [length]. now rewrite length_fmap.
Qed.

(** Decimal numbers with the base left open: "0" is read as octal. *)
Lemma read_decimal : b = 10 -> strict_spec u64 0 (text ++ nl) = (0, n).
Proof using Hb Hn Hnl.
  intros E10. destruct (Z.eq_dec n 0) as [En|En].
  - rewrite En, E10. destruct Hnl as [->| ->]; vm_compute; done.
  - apply read_plain. destruct base_bounds as [H1 H2]. unfold is_u64 in Hn. destruct (rdigits_top b 22 ltac:(lia) n ltac:(lia)) as (d & ds & E & Hd).
    destruct rs_facts as (Hr & _). unfold effective_base. rewrite E in *. cbn [Z.eqb fmap list_fmap app guess]. inversion_clear Hr as [|?? Hdr _].
    unfold hex_char at 1. destruct (Z.ltb_spec d 10); [|lia]. destruct (Z.eqb_spec (d + 48) 48); [lia|done].
Qed.
End readback.

(** Without a width and a precision there is no padding. *)
Lemma arrange_tight left zero w p sgn pfx ds : w <= 0 -> p <= 0 -> arrange left zero w p sgn pfx ds = sgn ++ pfx ++ ds.
Proof.
  intros Hw Hp. unfold arrange. pose proof (zlen_nonneg sgn). pose proof (zlen_nonneg pfx). pose proof (zlen_nonneg ds).
  replace (Z.to_nat (p - zlen ds)) with 0%nat by lia. cbn [repeat]. change (zlen (@nil Z)) with 0.
  replace (Z.to_nat (w - zlen sgn - zlen pfx - 0 - zlen ds)) with 0%nat by lia. cbn [repeat app]. destruct left, zero; now rewrite ?app_nil_r.
Qed.

Definition tight (spec : printf_spec) : Prop := good_base (base spec) /\ -2 ^ 29 < field_width spec <= 0 /\ precision spec <= 0.

Lemma rev_num_chars lower b n : rev (num_chars lower b n) = hex_char lower <$> rev (rdigits 22 b n).
Proof. unfold num_chars. symmetry. apply map_rev. Qed.

Lemma render_unsigned num spec : tight spec -> flag (flags spec) SIGN = false ->
  render num spec = (if flag (flags spec) SPECIAL && negb (base spec =? 10) then 48 :: (if base spec =? 16 then [if flag (flags spec) SMALL then 120 else 88] else []) else []) ++
    (hex_char (flag (flags spec) SMALL) <$> rev (rdigits 22 (base spec) num)).
Proof. intros (_ & Hw & Hp) Hs. unfold render. rewrite Hs. cbn [andb]. rewrite arrange_tight by lia. now rewrite rev_num_chars. Qed.

(** The base to read a format back with. *)
Definition read_base (spec : printf_spec) (pb : Z) : Prop := pb = base spec \/ (pb = 0 /\ (flag (flags spec) SPECIAL = true \/ base spec = 10)).

Lemma render_read num spec nl pb : tight spec -> flag (flags spec) SIGN = false -> is_u64 num -> tail_ok nl -> read_base spec pb ->
  strict_spec u64 pb (render num spec ++ nl) = (0, num).
Proof.
  intros Ht Hs Hn Hnl Hpb. rewrite render_unsigned by done. destruct Ht as (Hb & _). unfold read_base in Hpb. destruct Hb as [Eb|[Eb|Eb]]; rewrite Eb in *; cbn [Z.eqb Pos.eqb negb].
  - rewrite andb_true_r. destruct (flag (flags spec) SPECIAL).
    + apply read_octal; [now left|done|done|done|tauto].
    + apply read_plain; [now left|done|done|]. destruct Hpb as [->|[_ [|]]]; done.
  - rewrite andb_false_r. cbn [app]. destruct Hpb as [->|[-> _]]; [apply read_plain; [right; now left|done..]|apply read_decimal; [right; now left|done..]].
  - rewrite andb_true_r. destruct (flag (flags spec) SPECIAL).
    + apply read_hex; [right; now right|done|done|done|now destruct (flag (flags spec) SMALL)|tauto].
    + apply read_plain; [right; now right|done|done|]. destruct Hpb as [->|[_ [|]]]; done.
Qed.

Lemma hex_text_cstring lower b n : good_base b -> cstring (hex_char lower <$> rev (rdigits 22 b n)).
Proof.
  intros Hb. apply List.Forall_forall. intros c Hc. apply list_elem_of_In, list_elem_of_fmap in Hc as (d & -> & Hd). apply list_elem_of_In, in_rev, list_elem_of_In in Hd.
  apply rdigits_range in Hd; [|destruct Hb; lia]. apply (hex_char_ok lower d b Hd). destruct Hb; lia.
Qed.

Lemma render_cstring num spec nl : tight spec -> flag (flags spec) SIGN = false -> tail_ok nl -> cstring (render num spec ++ nl) /\ zlen (render num spec ++ nl) < 32.
Proof.
  intros Ht Hs Hnl. rewrite render_unsigned by done. rewrite <- rev_num_chars. destruct Ht as (Hb & _). split.
  - apply Forall_app. split; [|destruct Hnl as [->| ->]; repeat constructor]. apply Forall_app. split; [|rewrite rev_num_chars; now apply hex_text_cstring].
    destruct (flag _ SPECIAL && _); [|constructor]. destruct (base spec =? 16); [destruct (flag _ SMALL)|]; repeat constructor.
  - rewrite !zlen_app. pose proof (num_chars_len (flag (flags spec) SMALL) (base spec) num). assert (zlen nl <= 1) by (destruct Hnl as [->| ->]; vm_compute; congruence).
    unfold zlen at 2. rewrite length_rev. fold (zlen (num_chars (flag (flags spec) SMALL) (base spec) num)).
    assert (forall b1 b2 : bool, forall x : Z, zlen (if b1 then 48 :: (if b2 then [x] else []) else []) <= 2) as Hq by (intros [] [] x; vm_compute; congruence).
    specialize (Hq (flag (flags spec) SPECIAL && negb (base spec =? 10)) (base spec =? 16) (if flag (flags spec) SMALL then 120 else 88)). lia.
Qed.

(** [put_dec] writes exactly the decimal digits of every 64-bit number, though
    it divides only by multiplying and shifting, and [number] prints, for every
    base, flag, width and precision, the sign, prefix, padding, zeros and digits in
    the order of the format; nothing is stored past [end_], and the position
    returned counts what does not fit too. *)
Lemma number_facts :
  (forall pre rest num, is_u64 num -> (20 <= length rest)%nat ->
     put_dec (pre ++ rest) (zlen pre) num = Ok (pre ++ dec_text num ++ drop (length (dec_text num)) rest, zlen pre + zlen (dec_text num))) /\
  (forall pre room post pos num spec, pos = zlen pre \/ (room = [] /\ zlen pre <= pos) -> good_base (base spec) -> is_u64 num ->
     -2 ^ 29 < field_width spec < 2 ^ 30 -> precision spec < 2 ^ 29 ->
     number (pre ++ room ++ post) pos (zlen pre + zlen room) num spec =
     Ok (pre ++ take (length room) (render num spec) ++ drop (length (render num spec)) room ++ post, pos + zlen (render num spec))).
Proof. split; [exact put_dec_ok|exact number_ok]. Qed.

(** -123 with a width of 7 and a precision of 5, into a room of four characters. *)

Lemma render_signed num spec : tight spec -> base spec = 10 -> flag (flags spec) SIGN = true -> flag (flags spec) PLUS = false -> flag (flags spec) SPACE = false ->
  render num spec = (if s64 num <? 0 then [chr_minus] else []) ++
    (hex_char (flag (flags spec) SMALL) <$> rev (rdigits 22 10 (if s64 num <? 0 then - s64 num else num))).
Proof.
  intros (_ & Hw & Hp) Hb H1 H2 H3. unfold render. rewrite H1, H2, H3, Hb. cbn [andb Z.eqb Pos.eqb negb]. rewrite andb_false_r, arrange_tight by lia. rewrite rev_num_chars.
  destruct (s64 num <? 0); done.
Qed.

Lemma s64_s64 x : s64 (s64 x) = s64 x.
Proof. unfold s64. replace ((x + 2 ^ 63) mod 2 ^ 64 - 2 ^ 63 + 2 ^ 63) with ((x + 2 ^ 63) mod 2 ^ 64) by lia. now rewrite Z.mod_mod by lia. Qed.

Lemma signed_read lower num nl : is_u64 num -> tail_ok nl ->
  let l := (if s64 num <? 0 then [chr_minus] else []) ++ (hex_char lower <$> rev (rdigits 22 10 (if s64 num <? 0 then - s64 num else num))) ++ nl in
  cstring l /\ zlen l < 32 /\ Ok (fst (strict_spec u64 10 (unsigned_part l)), s64 (signed l (snd (strict_spec u64 10 (unsigned_part l))))) = Ok (0, s64 num).
Proof.
  intros Hn Hnl. set (mag := if s64 num <? 0 then - s64 num else num). set (text := hex_char lower <$> _). cbv zeta. assert (Hg : good_base 10) by (right; by left).
  assert (Hm : is_u64 mag) by (unfold mag, s64, is_u64 in *; pose proof (Z.mod_pos_bound (num + 2 ^ 63) (2 ^ 64) ltac:(lia)); destruct (Z.ltb_spec ((num + 2 ^ 63) mod 2 ^ 64 - 2 ^ 63) 0); lia).
  assert (Hc : cstring (text ++ nl)) by (apply Forall_app; split; [now apply hex_text_cstring|destruct Hnl as [->| ->]; repeat constructor]).
  assert (Hl : zlen (text ++ nl) < 30).
  { rewrite zlen_app. unfold text. rewrite <- rev_num_chars. unfold zlen at 1. rewrite length_rev. fold (zlen (num_chars lower 10 mag)).
    pose proof (num_chars_len lower 10 mag). destruct Hnl as [->| ->]; [change (zlen []) with 0|change (zlen [chr_nl]) with 1]; lia. }
  assert (Hv : strict_spec u64 10 (text ++ nl) = (0, mag)) by (apply read_plain; done). destruct (s64 num <? 0) eqn:Es.
  - split; [constructor; [done|exact Hc]|]. split; [rewrite zlen_app; change (zlen [chr_minus]) with 1; lia|]. cbn [app unsigned_part signed]. change (chr_minus =? chr_minus) with true. cbv iota.
    rewrite Hv. cbn [fst snd]. unfold mag. now rewrite Z.opp_involutive, s64_s64.
  - cbn [app]. split; [done|]. split; [lia|]. destruct (rs_facts lower 10 mag nl Hg Hm Hnl) as (Hr & _ & Hlen & _).
    assert (Hh : unsigned_part (text ++ nl) = text ++ nl /\ signed (text ++ nl) mag = mag).
    { unfold text. destruct (rev (rdigits 22 10 mag)) as [|d ds]; [cbn in Hlen; lia|]. inversion_clear Hr as [|?? Hd _]. cbn [fmap list_fmap app unsigned_part signed].
      destruct (Z.eqb_spec (hex_char lower d) chr_minus) as [E|]; [|done]. unfold hex_char, chr_minus in E. destruct (Z.ltb_spec d 10); lia. }
    destruct Hh as [-> Hs]. rewrite Hv. cbn [fst snd]. now rewrite Hs.
Qed.

(** C26: printing and parsing.  What [number] prints without padding, in base 8, 10
    or 16, with or without the "0" or "0x" prefix and in either case, is read back
    by [strict_strtoull] from the buffer it was printed to, with the base given or,
    for decimal numbers and with a prefix, left open, whether or not a newline
    follows; signed decimal numbers are read back by [strict_strtoll]. *)
Theorem print_parse_roundtrip num spec nl pre room post : tight spec -> is_u64 num -> tail_ok nl -> zlen room = zlen (render num spec) ->
  exists buf, number (pre ++ room ++ nl ++ 0 :: post) (zlen pre) (zlen pre + zlen room) num spec = Ok (buf, zlen pre + zlen room) /\
    (forall pb, flag (flags spec) SIGN = false -> read_base spec pb -> strict_strtoull buf (zlen pre) pb = Ok (0, num)) /\
    (flag (flags spec) SIGN = true -> flag (flags spec) PLUS = false -> flag (flags spec) SPACE = false -> base spec = 10 ->
       strict_strtoll buf (zlen pre) 10 = Ok (0, s64 num)).
Proof.
  intros Ht Hn Hnl Hr. pose proof Ht as (Hb & Hw & Hp). eexists. split; [rewrite number_ok by first [left; reflexivity|done|lia]; unfold printed; rewrite take_ge, drop_ge by (unfold zlen in Hr; lia); rewrite Hr; reflexivity|].
  cbn [app]. rewrite (app_assoc (render num spec)). split.
  - intros pb Hs Hpb. destruct (render_cstring num spec nl Ht Hs Hnl) as [Hc Hl]. destruct (strict_unsigned_ok pre (render num spec ++ nl) post pb Hc ltac:(lia)) as [_ ->]. now rewrite render_read.
  - intros H1 H2 H3 H10. destruct (signed_read (flag (flags spec) SMALL) num nl Hn Hnl) as (Hc & Hl & E). rewrite render_signed by done.
    destruct (strict_signed_ok pre _ post 10 Hc ltac:(lia)) as [_ Eq]. rewrite <- !app_assoc in Eq |- *. rewrite Eq. exact E.
Qed.

(** 255 as "0xff" with a newline behind it. *)
Lemma print_parse_roundtrip_witness :
  exists buf, number [7; 0; 0; 0; 0; 10; 0; 7] 1 5 255 (Spec FORMAT_TYPE_UINT (SPECIAL + SMALL) (-1) 16 (-1) 0) = Ok (buf, 5) /\ strict_strtoull buf 1 0 = Ok (0, 255).
Proof.
  destruct (print_parse_roundtrip 255 (Spec FORMAT_TYPE_UINT (SPECIAL + SMALL) (-1) 16 (-1) 0) [chr_nl] [7] [0; 0; 0; 0] [7]) as (buf & H1 & H2 & _).
  - split; [right; right; reflexivity|cbn [field_width precision]; lia].
  - unfold is_u64. lia.
  - right. reflexivity.
  - vm_compute. reflexivity.
  - exists buf. split; [exact H1|]. apply H2; [reflexivity|]. right. split; [reflexivity|]. left. reflexivity.
Defined.

(** C25: number parsing. For every string with its NUL, base and width,
    [simple_strtoul] and [simple_strtoull] stay in the string, skip "0x" for
    base 16, take base 0 from the prefix, read the longest run of digits of
    the base and return its value modulo 2^32 or 2^64 with the position
    behind it. The strict versions accept exactly a number that fills the
    string, up to one newline, and fail with -EINVAL and the result 0
    otherwise; the signed versions read one minus sign before. Two strings
    show what strict does not exclude: a number that does not fit, and "0x"
    without digits. [put_dec] writes exactly the decimal digits of every
    64-bit number, though it divides only by multiplying and shifting, and
    [number] prints, for every base, flag, width and precision, the sign,
    prefix, padding, zeros and digits in the order of the format; nothing is
    stored past [end_], and the position returned counts what does not fit
    too. *)
Theorem number_text_correct :
  ((forall pre l post base, cstring l ->
      simple_strtoul (pre ++ l ++ 0 :: post) (zlen pre) base = Ok (u32 (value (effective_base base l) (parsed base l)), zlen pre + Z.of_nat (consumed base l)) /\
      simple_strtoull (pre ++ l ++ 0 :: post) (zlen pre) base = Ok (u64 (value (effective_base base l) (parsed base l)), zlen pre + Z.of_nat (consumed base l))) /\
   (forall pre l post base, cstring l -> let m := unsigned_part l in
      simple_strtol (pre ++ l ++ 0 :: post) (zlen pre) base =
        Ok (s32 (signed l (value (effective_base base m) (parsed base m))), zlen pre + sign_len l + Z.of_nat (consumed base m)) /\
      simple_strtoll (pre ++ l ++ 0 :: post) (zlen pre) base =
        Ok (s64 (signed l (value (effective_base base m) (parsed base m))), zlen pre + sign_len l + Z.of_nat (consumed base m))) /\
   (forall pre l post base, cstring l -> zlen l + 1 < 2 ^ 32 ->
      strict_strtoul (pre ++ l ++ 0 :: post) (zlen pre) base = Ok (strict_spec u32 base l) /\
      strict_strtoull (pre ++ l ++ 0 :: post) (zlen pre) base = Ok (strict_spec u64 base l)) /\
   (forall pre l post base, cstring l -> zlen l + 1 < 2 ^ 32 -> let m := unsigned_part l in
      strict_strtol (pre ++ l ++ 0 :: post) (zlen pre) base = Ok (fst (strict_spec u32 base m), s32 (signed l (snd (strict_spec u32 base m)))) /\
      strict_strtoll (pre ++ l ++ 0 :: post) (zlen pre) base = Ok (fst (strict_spec u64 base m), s64 (signed l (snd (strict_spec u64 base m))))) /\
   strict_strtoul [52; 50; 57; 52; 57; 54; 55; 50; 57; 54; 0] 0 10 = Ok (0, 0) /\
   strict_strtoul [48; 120; 0] 0 16 = Ok (0, 0)) /\
  ((forall pre rest num, is_u64 num -> (20 <= length rest)%nat ->
      put_dec (pre ++ rest) (zlen pre) num = Ok (pre ++ dec_text num ++ drop (length (dec_text num)) rest, zlen pre + zlen (dec_text num))) /\
   (forall pre room post pos num spec, pos = zlen pre \/ (room = [] /\ zlen pre <= pos) -> good_base (base spec) -> is_u64 num ->
      -2 ^ 29 < field_width spec < 2 ^ 30 -> precision spec < 2 ^ 29 ->
      number (pre ++ room ++ post) pos (zlen pre + zlen room) num spec =
      Ok (pre ++ take (length room) (render num spec) ++ drop (length (render num spec)) room ++ post, pos + zlen (render num spec)))).
Proof. split; [exact strtol_facts|]. exact number_facts. Qed.

Lemma number_text_correct_witness :
  (strict_strtol [32; 45; 48; 120; 49; 70; 10; 0] 1 0 = Ok (0, -31) /\
   simple_strtoul [57; 122; 0] 0 10 = Ok (9, 1)) /\
  (let spec := Spec FORMAT_TYPE_INT SIGN 7 10 5 0 in
   number [9; 9; 9; 9; 9; 9] 1 5 (2 ^ 64 - 123) spec = Ok ([9; 32; 45; 48; 48; 9], 8)).
Proof.
  split.
  { destruct (proj1 number_text_correct) as (H1 & _ & _ & H4 & _). split.
    - apply (H4 [32] [45; 48; 120; 49; 70; 10] [] 0); [repeat constructor|vm_compute; reflexivity].
    - apply (H1 [] [57; 122] [] 10). repeat constructor. }
  { apply (proj2 (proj2 number_text_correct) [9] [9; 9; 9; 9] [9] 1); [left; reflexivity|right; left; reflexivity|unfold is_u64; lia|cbn [field_width]; lia|cbn [precision]; lia]. }
Defined.
