(* ===== verification/Utf8.v ===== *)
(** fs/nls/nls_base.c: [utf8_to_utf32] and [utf32_to_utf8].
    Encoding and decoding are shown to be inverse to each other on exactly the
    valid code points, overlong forms, surrogates and truncated sequences being
    refused. *)
From S2P Require Import Prelude.
From S2P Require Import Ring.
From S2P Require Import Blocks.

Record utf8_entry := Utf8Entry { cmask : Z; cval : Z; shift : Z; lmask : Z; lval : Z }.

Definition utf8_table : list utf8_entry := [
  Utf8Entry 0x80 0x00 (0 * 6) 0x7F 0;
  Utf8Entry 0xE0 0xC0 (1 * 6) 0x7FF 0x80;
  Utf8Entry 0xF0 0xE0 (2 * 6) 0xFFFF 0x800;
  Utf8Entry 0xF8 0xF0 (3 * 6) 0x1FFFFF 0x10000;
  Utf8Entry 0xFC 0xF8 (4 * 6) 0x3FFFFFF 0x200000;
  Utf8Entry 0xFE 0xFC (5 * 6) 0x7FFFFFFF 0x4000000;
  Utf8Entry 0 0 0 0 0].

Definition UNICODE_MAX : Z := 0x0010ffff.
Definition PLANE_SIZE : Z := 0x00010000.
Definition SURROGATE_MASK : Z := 0xfffff800.
Definition SURROGATE_PAIR : Z := 0x0000d800.
Definition SURROGATE_LOW : Z := 0x00000400.
Definition SURROGATE_BITS : Z := 0x000003ff.

Definition is_surrogate (u : Z) : bool := Z.land u SURROGATE_MASK =? SURROGATE_PAIR.

(** The loop of [utf8_to_utf32], [t] walking the table; the results are the
    return value and [*pu]. *)
Fixpoint utf8_decode (tbl : list utf8_entry) (s : list Z) (off len c0 l nc pu : Z) : res (Z * Z) :=
  match tbl with
  | [] => Err OutOfBounds
  | t :: tbl =>
      if cmask t =? 0 then Ok (-1, pu) else
      let nc := nc + 1 in
      if Z.land c0 (cmask t) =? cval t then
        let l := Z.land l (lmask t) in
        if (l <? lval t) || (UNICODE_MAX <? l) || is_surrogate l then Ok (-1, pu) else Ok (nc, l)
      else
      if len <=? nc then Ok (-1, pu) else
      let off := off + 1 in
      b ← rd s off;
      let c := Z.land (Z.lxor b 0x80) 0xFF in
      if negb (Z.land c 0xC0 =? 0) then Ok (-1, pu) else
      utf8_decode tbl s off len c0 (Z.lor (shl32 l 6) c) nc pu
  end.

(** [off] is the position of the pointer [s] in its buffer. *)
Definition utf8_to_utf32 (s : list Z) (off len pu : Z) : res (Z * Z) :=
  c0 ← rd s off;
  utf8_decode utf8_table s off len c0 c0 0 pu.

(** while (c > 0): the continuation bytes. *)
Definition put_continuation (s : list Z) (off l c : Z) : res (list Z) :=
  loop 7 (fun '(s, off, c) =>
    if 0 <? c then
      let c := c - 6 in
      let off := off + 1 in
      s ← wr s off (u8 (Z.lor 0x80 (Z.land (shr32 l c) 0x3F)));
      Ok (inl (s, off, c))
    else Ok (inr s)) (s, off, c).

Fixpoint utf8_encode (tbl : list utf8_entry) (s : list Z) (off l nc maxlen : Z) : res (Z * list Z) :=
  match tbl with
  | [] => Err OutOfBounds
  | t :: tbl =>
      if negb (cmask t =? 0) && negb (maxlen =? 0) then
        let nc := nc + 1 in
        if l <=? lmask t then
          let c := shift t in
          s ← wr s off (u8 (Z.lor (cval t) (shr32 l c)));
          s ← put_continuation s off l c;
          Ok (nc, s)
        else utf8_encode tbl s off l nc (maxlen - 1)
      else Ok (-1, s)
  end.

(** [None] is the null pointer, else a buffer and the position in it. *)
Definition utf32_to_utf8 (u : Z) (s : option (list Z * Z)) (maxlen : Z) : res (Z * list Z) :=
  match s with
  | None => Ok (0, [])
  | Some (s, off) =>
      if (UNICODE_MAX <? u) || is_surrogate u then Ok (-1, s) else utf8_encode utf8_table s off u 0 maxlen
  end.

(** * Bytes *)

Definition is_cont (b : Z) : bool := (0x80 <=? b) && (b <? 0xC0).

Lemma cont_byte b : is_u8 b -> (Z.land (Z.land (Z.lxor b 0x80) 0xFF) 0xC0 =? 0) = is_cont b /\
  (is_cont b = true -> Z.land (Z.lxor b 0x80) 0xFF = b - 0x80).
Proof.
  intros Hb. pose (P := fun b => Bool.eqb (Z.land (Z.land (Z.lxor b 0x80) 0xFF) 0xC0 =? 0) (is_cont b) &&
    implb (is_cont b) (Z.land (Z.lxor b 0x80) 0xFF =? b - 0x80)).
  pose proof (byte_check P b ltac:(vm_compute; reflexivity) Hb) as H. apply andb_prop in H as [H1 H2]. apply eqb_prop in H1.
  split; [done|]. intros Hc. rewrite Hc in H2. cbn in H2. now apply Z.eqb_eq.
Qed.

(** Which row of the table a first byte selects. *)
Lemma lead_byte b : is_u8 b ->
  (Z.land b 0x80 =? 0x00) = (b <? 0x80) /\ (Z.land b 0xE0 =? 0xC0) = ((0xC0 <=? b) && (b <? 0xE0)) /\
  (Z.land b 0xF0 =? 0xE0) = ((0xE0 <=? b) && (b <? 0xF0)) /\ (Z.land b 0xF8 =? 0xF0) = ((0xF0 <=? b) && (b <? 0xF8)).
Proof.
  intros Hb. pose (P := fun b => Bool.eqb (Z.land b 0x80 =? 0x00) (b <? 0x80) && (Bool.eqb (Z.land b 0xE0 =? 0xC0) ((0xC0 <=? b) && (b <? 0xE0)) &&
    (Bool.eqb (Z.land b 0xF0 =? 0xE0) ((0xE0 <=? b) && (b <? 0xF0)) && Bool.eqb (Z.land b 0xF8 =? 0xF0) ((0xF0 <=? b) && (b <? 0xF8))))).
  pose proof (byte_check P b ltac:(vm_compute; reflexivity) Hb) as H. unfold P in H.
  apply andb_prop in H as [H1 H]. apply andb_prop in H as [H2 H]. apply andb_prop in H as [H3 H4]. repeat split; now apply eqb_prop.
Qed.

Lemma surrogate_range u : is_u32 u -> is_surrogate u = ((0xD800 <=? u) && (u <? 0xE000)).
Proof.
  intros Hu. unfold is_surrogate, SURROGATE_MASK, SURROGATE_PAIR.
  assert (E : Z.land u 0xfffff800 = u / 2 ^ 11 * 2 ^ 11).
  { rewrite <- Z.shiftr_div_pow2, <- Z.shiftl_mul_pow2 by lia. apply Z.bits_inj'. intros i Hi. rewrite Z.land_spec, Z.shiftl_spec by lia.
    change 0xfffff800 with (Z.shiftl (2 ^ 21 - 1) 11). rewrite Z.shiftl_spec by lia. destruct (Z.lt_ge_cases i 11).
    - rewrite !(Z.testbit_neg_r _ (i - 11)) by lia. apply andb_false_r.
    - rewrite testbit_ones_full, Z.shiftr_spec by lia. replace (i - 11 + 11) with i by lia. destruct (Z.ltb_spec (i - 11) 21); [apply andb_true_r|].
      rewrite (testbit_high u 32) by (exact Hu || lia). done. }
  rewrite E. unfold is_u32 in Hu. pose proof (Z.div_mod u (2 ^ 11) ltac:(lia)). pose proof (Z.mod_pos_bound u (2 ^ 11) ltac:(lia)).
  destruct (Z.eqb_spec (u / 2 ^ 11 * 2 ^ 11) 0xD800), (Z.leb_spec 0xD800 u), (Z.ltb_spec u 0xE000); cbn [andb]; try done; lia.
Qed.

(** * Code points and their encoding *)

Definition valid_cp (u : Z) : Prop := 0 <= u <= 0x10ffff /\ ~ (0xD800 <= u < 0xE000).

Definition encode (u : Z) : list Z :=
  if u <=? 0x7F then [u]
  else if u <=? 0x7FF then [0xC0 + u / 64; 0x80 + u mod 64]
  else if u <=? 0xFFFF then [0xE0 + u / 4096; 0x80 + u / 64 mod 64; 0x80 + u mod 64]
  else [0xF0 + u / 262144; 0x80 + u / 4096 mod 64; 0x80 + u / 64 mod 64; 0x80 + u mod 64].

Lemma lor_low a b k : 0 <= k -> 0 <= b < 2 ^ k -> Z.lor (a * 2 ^ k) b = a * 2 ^ k + b.
Proof.
  intros Hk Hb. apply lor_disjoint_add. rewrite <- Z.shiftl_mul_pow2 by lia. apply Z.bits_inj'. intros i Hi.
  rewrite Z.land_spec, Z.bits_0, Z.shiftl_spec by lia. destruct (Z.lt_ge_cases i k).
  - now rewrite Z.testbit_neg_r by lia.
  - rewrite (testbit_high b k) by lia. apply andb_false_r.
Qed.

Lemma cont_out l c : 0 <= l -> 0 <= c -> u8 (Z.lor 0x80 (Z.land (shr32 l c) 0x3F)) = 0x80 + l / 2 ^ c mod 64.
Proof.
  intros Hl Hc. change 0x3F with (2 ^ 6 - 1). rewrite land_mask by lia. unfold shr32. rewrite Z.shiftr_div_pow2 by lia.
  set (x := l / 2 ^ c). pose proof (Z.mod_pos_bound x (2 ^ 6) ltac:(lia)) as Hx. change 0x80 with (2 * 2 ^ 6). rewrite lor_low by lia.
  change 64 with (2 ^ 6). apply u8_id. unfold is_u8. lia.
Qed.

Lemma lead_out l c a k : 0 <= l -> 0 <= c -> 0 <= k <= 8 -> 0 <= a * 2 ^ k -> a * 2 ^ k + 2 ^ k <= 256 -> l / 2 ^ c < 2 ^ k ->
  u8 (Z.lor (a * 2 ^ k) (shr32 l c)) = a * 2 ^ k + l / 2 ^ c.
Proof.
  intros Hl Hc Hk Ha Hb Hlt. unfold shr32. rewrite Z.shiftr_div_pow2 by lia. assert (0 <= l / 2 ^ c) by (apply Z.div_pos; [lia|apply Z.pow_pos_nonneg; lia]).
  rewrite lor_low by lia. apply u8_id. unfold is_u8. lia.
Qed.

(** * Encoding *)

Fixpoint conts (l : Z) (k : nat) : list Z :=
  match k with O => [] | S k => (0x80 + l / 2 ^ (6 * Z.of_nat k) mod 64) :: conts l k end.

Lemma put_continuation_ok l k : 0 <= l -> forall pre b old post fuel, length old = k -> (k < fuel)%nat ->
  @loop (list Z * Z * Z) (list Z) fuel (fun '(s, off, c) =>
    if 0 <? c then
      let c := c - 6 in
      let off := off + 1 in
      s ← wr s off (u8 (Z.lor 0x80 (Z.land (shr32 l c) 0x3F)));
      Ok (inl (s, off, c))
    else Ok (inr s)) (pre ++ b :: old ++ post, zlen pre, 6 * Z.of_nat k) = Ok (pre ++ b :: conts l k ++ post).
Proof.
  intros Hl. induction k as [|k IH]; intros pre b old post fuel Ho Hf; (destruct fuel as [|fuel]; [lia|]); cbn [loop].
  - destruct old; [|done]. done.
  - destruct old as [|x old]; [done|]. destruct (Z.ltb_spec 0 (6 * Z.of_nat (S k))); [|lia]. cbv zeta.
    replace (6 * Z.of_nat (S k) - 6) with (6 * Z.of_nat k) by lia. rewrite cont_out by lia.
    replace (zlen pre + 1) with (zlen (pre ++ [b])) by (rewrite zlen_app; reflexivity).
    replace (pre ++ b :: (x :: old) ++ post) with ((pre ++ [b]) ++ x :: old ++ post) by (rewrite <- app_assoc; done).
    rewrite wr_mid, bind_ok. cbn [length] in Ho. pose proof (IH (pre ++ [b]) (0x80 + l / 2 ^ (6 * Z.of_nat k) mod 64) old post fuel ltac:(lia) ltac:(lia)) as E.
    cbv zeta in E. rewrite E. rewrite <- app_assoc. done.
Qed.

(** A row of the table that fits: first byte [a * 2 ^ k + l / 2 ^ shift]. *)
Lemma encode_row l (pre : list Z) x old post k a n : 0 <= l -> length old = k -> (k < 7)%nat -> 0 <= n <= 8 -> 0 <= a * 2 ^ n -> a * 2 ^ n + 2 ^ n <= 256 ->
  l / 2 ^ (6 * Z.of_nat k) < 2 ^ n ->
  (s ← wr (pre ++ x :: old ++ post) (zlen pre) (u8 (Z.lor (a * 2 ^ n) (shr32 l (6 * Z.of_nat k))));
   put_continuation s (zlen pre) l (6 * Z.of_nat k)) = Ok (pre ++ (a * 2 ^ n + l / 2 ^ (6 * Z.of_nat k)) :: conts l k ++ post).
Proof.
  intros Hl Ho Hk Hn Ha Hb Hlt. rewrite wr_mid, bind_ok, lead_out by lia. unfold put_continuation. now apply put_continuation_ok.
Qed.

Lemma encode_len u : 1 <= zlen (encode u) <= 4.
Proof. unfold encode, zlen. destruct (u <=? 0x7F); [cbn; lia|]. destruct (u <=? 0x7FF); [cbn; lia|]. destruct (u <=? 0xFFFF); cbn; lia. Qed.

Lemma valid_guard u : valid_cp u -> (UNICODE_MAX <? u) || is_surrogate u = false.
Proof.
  intros [Hu Hs]. rewrite surrogate_range by (unfold is_u32; lia). unfold UNICODE_MAX.
  destruct (Z.ltb_spec 0x0010ffff u); [lia|]. destruct (Z.leb_spec 0xD800 u), (Z.ltb_spec u 0xE000); done || lia.
Qed.

#[global] Instance valid_cp_dec u : Decision (valid_cp u).
Proof. unfold valid_cp. apply _. Defined.

Lemma invalid_guard u : is_u32 u -> ~ valid_cp u -> (UNICODE_MAX <? u) || is_surrogate u = true.
Proof.
  intros Hu Hv. rewrite surrogate_range by done. unfold UNICODE_MAX, valid_cp, is_u32 in *.
  destruct (Z.ltb_spec 0x0010ffff u); [done|]. destruct (Z.leb_spec 0xD800 u), (Z.ltb_spec u 0xE000); done || lia.
Qed.

Lemma encode_conts u : valid_cp u ->
  encode u = if u <=? 0x7F then [u] else if u <=? 0x7FF then (0xC0 + u / 64) :: conts u 1
             else if u <=? 0xFFFF then (0xE0 + u / 4096) :: conts u 2 else (0xF0 + u / 262144) :: conts u 3.
Proof.
  intros _. unfold encode. cbn [conts]. change (2 ^ (6 * Z.of_nat 0)) with 1. rewrite Z.div_1_r.
  change (2 ^ (6 * Z.of_nat 1)) with 64. change (2 ^ (6 * Z.of_nat 2)) with 4096. done.
Qed.

(** What [encode_row] needs to know about each row. *)
Lemma utf8_encode_row t tbl s off l nc maxlen : cmask t <> 0 -> maxlen <> 0 ->
  utf8_encode (t :: tbl) s off l nc maxlen =
  (if l <=? lmask t then
     s ← (s ← wr s off (u8 (Z.lor (cval t) (shr32 l (shift t)))); put_continuation s off l (shift t)); Ok (nc + 1, s)
   else utf8_encode tbl s off l (nc + 1) (maxlen - 1)).
Proof.
  intros H1 H2. cbn [utf8_encode]. destruct (Z.eqb_spec (cmask t) 0); [done|]. destruct (Z.eqb_spec maxlen 0); [done|]. cbn [negb andb]. cbv zeta.
  destruct (l <=? lmask t); [|done]. destruct (wr s off _) as [s'|e]; [|done]. rewrite !bind_ok. done.
Qed.

Lemma utf32_to_utf8_ok u pre old post maxlen : valid_cp u -> zlen old = zlen (encode u) -> zlen (encode u) <= maxlen ->
  utf32_to_utf8 u (Some (pre ++ old ++ post, zlen pre)) maxlen = Ok (zlen (encode u), pre ++ encode u ++ post).
Proof.
  intros Hv Ho Hm. unfold utf32_to_utf8. rewrite (valid_guard u Hv). rewrite (encode_conts u Hv) in *. destruct Hv as [Hu _].
  assert (Hmax : 1 <= maxlen /\ (0x7F < u -> 2 <= maxlen) /\ (0x7FF < u -> 3 <= maxlen) /\ (0xFFFF < u -> 4 <= maxlen)).
  { destruct (Z.leb_spec u 0x7F), (Z.leb_spec u 0x7FF), (Z.leb_spec u 0xFFFF); unfold zlen in Hm; cbn [length conts] in Hm; lia. }
  unfold utf8_table. assert (Hsplit : exists x old', old = x :: old') by (destruct old; [destruct (u <=? 0x7F), (u <=? 0x7FF), (u <=? 0xFFFF); cbn in Ho; discriminate|eauto]).
  destruct Hsplit as (x & old' & ->). change (((x :: old') ++ post)) with (x :: old' ++ post).
  assert (Hl : zlen (x :: old') = 1 + zlen old') by (unfold zlen; cbn [length]; lia). rewrite Hl in Ho.
  destruct (Z.leb_spec u 0x7F) as [H1|H1].
  { change (zlen [u]) with 1 in *. rewrite utf8_encode_row by (cbn; lia). cbn [lmask cval shift]. destruct (Z.leb_spec u 0x7F); [|lia].
    pose proof (encode_row u pre x old' post 0 0 7 ltac:(lia) ltac:(unfold zlen in Ho; lia) ltac:(lia) ltac:(lia) ltac:(lia) ltac:(lia)) as E.
    change (2 ^ (6 * Z.of_nat 0)) with 1 in E. rewrite Z.div_1_r in E. change (0 * 2 ^ 7) with 0 in E. change (6 * Z.of_nat 0) with (0 * 6) in E.
    rewrite E by (change (2 ^ 7) with 128; lia). rewrite bind_ok. destruct old'; [|unfold zlen in Ho; cbn in Ho; lia]. done. }
  rewrite utf8_encode_row by (cbn; lia). cbn [lmask]. destruct (Z.leb_spec u 0x7F); [lia|].
  destruct (Z.leb_spec u 0x7FF) as [H2|H2].
  { change (zlen (_ :: conts u 1)) with 2 in *. rewrite utf8_encode_row by (cbn; lia). cbn [lmask cval shift]. destruct (Z.leb_spec u 0x7FF); [|lia].
    pose proof (encode_row u pre x old' post 1 6 5 ltac:(lia) ltac:(unfold zlen in Ho; lia) ltac:(lia) ltac:(lia) ltac:(lia) ltac:(lia)) as E.
    change (2 ^ (6 * Z.of_nat 1)) with 64 in E. change (6 * 2 ^ 5) with 0xC0 in E. change (6 * Z.of_nat 1) with (1 * 6) in E.
    rewrite E by (change (2 ^ 5) with 32; apply Z.div_lt_upper_bound; lia). rewrite bind_ok. done. }
  rewrite utf8_encode_row by (cbn; lia). cbn [lmask]. destruct (Z.leb_spec u 0x7FF); [lia|].
  destruct (Z.leb_spec u 0xFFFF) as [H3|H3].
  { change (zlen (_ :: conts u 2)) with 3 in *. rewrite utf8_encode_row by (cbn; lia). cbn [lmask cval shift]. destruct (Z.leb_spec u 0xFFFF); [|lia].
    pose proof (encode_row u pre x old' post 2 14 4 ltac:(lia) ltac:(unfold zlen in Ho; lia) ltac:(lia) ltac:(lia) ltac:(lia) ltac:(lia)) as E.
    change (2 ^ (6 * Z.of_nat 2)) with 4096 in E. change (14 * 2 ^ 4) with 0xE0 in E. change (6 * Z.of_nat 2) with (2 * 6) in E.
    rewrite E by (change (2 ^ 4) with 16; apply Z.div_lt_upper_bound; lia). rewrite bind_ok. done. }
  change (zlen (_ :: conts u 3)) with 4 in *. do 2 (rewrite utf8_encode_row by (cbn; lia); cbn [lmask]). destruct (Z.leb_spec u 0xFFFF); [lia|].
  cbn [lmask cval shift]. destruct (Z.leb_spec u 0x1FFFFF); [|lia].
  pose proof (encode_row u pre x old' post 3 30 3 ltac:(lia) ltac:(unfold zlen in Ho; lia) ltac:(lia) ltac:(lia) ltac:(lia) ltac:(lia)) as E.
  change (2 ^ (6 * Z.of_nat 3)) with 262144 in E. change (30 * 2 ^ 3) with 0xF0 in E. change (6 * Z.of_nat 3) with (3 * 6) in E.
  rewrite E by (change (2 ^ 3) with 8; apply Z.div_lt_upper_bound; lia). rewrite bind_ok. done.
Qed.

Lemma utf32_to_utf8_short u s off maxlen : valid_cp u -> 0 <= maxlen < zlen (encode u) ->
  utf32_to_utf8 u (Some (s, off)) maxlen = Ok (-1, s).
Proof.
  intros Hv Hm. unfold utf32_to_utf8. rewrite (valid_guard u Hv). unfold utf8_table.
  assert (Hz : forall tbl nc, utf8_encode (Utf8Entry 0xF8 0xF0 (3 * 6) 0x1FFFFF 0x10000 :: tbl) s off u nc 0 = Ok (-1, s)) by done.
  unfold encode in Hm. destruct (Z.eq_dec maxlen 0) as [->|]; [done|]. rewrite utf8_encode_row by (cbn; lia). cbn [lmask].
  destruct (Z.leb_spec u 0x7F); [unfold zlen in Hm; cbn in Hm; lia|]. destruct (Z.eq_dec maxlen 1) as [->|]; [done|].
  rewrite utf8_encode_row by (cbn; lia). cbn [lmask].
  destruct (Z.leb_spec u 0x7FF); [unfold zlen in Hm; cbn in Hm; lia|]. destruct (Z.eq_dec maxlen 2) as [->|]; [done|].
  rewrite utf8_encode_row by (cbn; lia). cbn [lmask].
  destruct (Z.leb_spec u 0xFFFF); [unfold zlen in Hm; cbn in Hm; lia|]. assert (maxlen = 3) as -> by (unfold zlen in Hm; cbn in Hm; lia). done.
Qed.

(** * Decoding *)

Section decode.
Context (s : list Z) (off len : Z) (H8 : Forall is_u8 s) (Hoff : 0 <= off) (Hlen : 1 <= len) (Hin : off + len <= zlen s).
Local Abbreviation b k := (at_ 0 s (off + k)).

Lemma byte_at k : 0 <= k < len -> rd s (off + k) = Ok (b k) /\ is_u8 (b k).
Proof using H8 Hoff Hin.
  intros Hk. split; [apply rd_at; lia|]. apply Forall_at; [done|lia].
Qed.

(** The accumulated value after byte [k]. *)
Lemma decode_row t tbl k l pu : 0 <= k -> 0 <= l < 2 ^ 26 -> cmask t <> 0 ->
  utf8_decode (t :: tbl) s (off + k) len (b 0) l k pu =
  (if Z.land (b 0) (cmask t) =? cval t then
     (if (Z.land l (lmask t) <? lval t) || (UNICODE_MAX <? Z.land l (lmask t)) || is_surrogate (Z.land l (lmask t))
      then Ok (-1, pu) else Ok (k + 1, Z.land l (lmask t)))
   else if (k + 1 <? len) && is_cont (b (k + 1)) then utf8_decode tbl s (off + (k + 1)) len (b 0) (l * 64 + (b (k + 1) - 0x80)) (k + 1) pu
   else Ok (-1, pu)).
Proof using H8 Hoff Hin.
  intros Hk Hl Ht. cbn [utf8_decode]. destruct (Z.eqb_spec (cmask t) 0); [done|]. cbv zeta. destruct (Z.land (b 0) (cmask t) =? cval t); [done|].
  destruct (Z.leb_spec len (k + 1)), (Z.ltb_spec (k + 1) len); try lia; [done|]. cbn [andb]. rewrite <- Z.add_assoc.
  destruct (byte_at (k + 1) ltac:(lia)) as [-> Hb]. rewrite bind_ok. destruct (cont_byte (b (k + 1)) Hb) as [-> Hc].
  destruct (is_cont (b (k + 1))) eqn:E; cbn [negb]; [|done]. rewrite (Hc eq_refl). f_equal.
  unfold is_cont in E. unfold shl32. rewrite Z.shiftl_mul_pow2 by lia. rewrite u32_id by (unfold is_u32; lia).
  rewrite lor_low by lia. done.
Qed.

(** Rows for values above the Unicode range never yield a result. *)
Lemma decode_beyond tbl pu : Forall (fun t => UNICODE_MAX < lval t) tbl -> forall k l e, 0 <= k -> cmask e = 0 ->
  utf8_decode (tbl ++ [e]) s (off + k) len (b 0) l k pu = Ok (-1, pu).
Proof using H8 Hoff Hin.
  induction 1 as [|t tbl Ht _ IH]; intros k l e Hk He; cbn [utf8_decode app]; [now rewrite He|].
  destruct (cmask t =? 0); [done|]. cbv zeta. destruct (Z.land (b 0) (cmask t) =? cval t).
  - destruct (Z.ltb_spec (Z.land l (lmask t)) (lval t)); [done|]. destruct (Z.ltb_spec UNICODE_MAX (Z.land l (lmask t))); [done|]. lia.
  - destruct (Z.leb_spec len (k + 1)); [done|]. rewrite <- Z.add_assoc. destruct (byte_at (k + 1) ltac:(lia)) as [-> _]. rewrite bind_ok.
    destruct (negb _); [done|]. apply IH; [lia|done].
Qed.

Definition u2 : Z := (b 0 - 0xC0) * 64 + (b 1 - 0x80).
Definition u3 : Z := (b 0 - 0xE0) * 4096 + (b 1 - 0x80) * 64 + (b 2 - 0x80).
Definition u4 : Z := (b 0 - 0xF0) * 262144 + (b 1 - 0x80) * 4096 + (b 2 - 0x80) * 64 + (b 3 - 0x80).

Definition decoded : option (Z * Z) :=
  if b 0 <? 0x80 then Some (1, b 0)
  else if negb ((1 <? len) && is_cont (b 1)) then None
  else if (0xC0 <=? b 0) && (b 0 <? 0xE0) then (if u2 <? 0x80 then None else Some (2, u2))
  else if negb ((2 <? len) && is_cont (b 2)) then None
  else if (0xE0 <=? b 0) && (b 0 <? 0xF0) then (if (u3 <? 0x800) || is_surrogate u3 then None else Some (3, u3))
  else if negb ((3 <? len) && is_cont (b 3)) then None
  else if (0xF0 <=? b 0) && (b 0 <? 0xF8) then (if (u4 <? 0x10000) || (UNICODE_MAX <? u4) then None else Some (4, u4))
  else None.

Lemma land_row l k x : 0 <= k -> 0 <= x < 2 ^ k -> (exists q, l = q * 2 ^ k + x) -> Z.land l (2 ^ k - 1) = x.
Proof. intros Hk Hx [q ->]. rewrite land_mask by lia. rewrite Z.add_comm, Z.mod_add by lia. now apply Z.mod_small. Qed.

Lemma cont_range x : is_cont x = true -> 0x80 <= x < 0xC0.
Proof. unfold is_cont. lia. Qed.

Lemma not_surrogate u : is_u32 u -> u < 0xD800 \/ 0xE000 <= u -> is_surrogate u = false.
Proof. intros Hu H. rewrite surrogate_range by done. destruct (Z.leb_spec 0xD800 u), (Z.ltb_spec u 0xE000); done || lia. Qed.

Lemma utf8_to_utf32_spec pu : utf8_to_utf32 s off len pu = Ok (match decoded with Some r => r | None => (-1, pu) end).
Proof using H8 Hoff Hlen Hin.
  assert (E : utf8_to_utf32 s off len pu = utf8_decode utf8_table s (off + 0) len (b 0) (b 0) 0 pu)
    by (unfold utf8_to_utf32; rewrite Z.add_0_r, (rd_at 0) by lia; done).
  rewrite E. clear E. destruct (byte_at 0 ltac:(lia)) as [_ Hb0]. destruct (lead_byte (b 0) Hb0) as (L1 & L2 & L3 & L4).
  unfold is_u8 in Hb0. unfold utf8_table, decoded.
  rewrite decode_row by (cbn; lia). cbn [cmask cval lmask lval]. rewrite L1. destruct (Z.ltb_spec (b 0) 0x80) as [H1|H1].
  { change 0x7F with (2 ^ 7 - 1). rewrite (land_row (b 0) 7 (b 0)) by (lia || (exists 0; lia)). unfold UNICODE_MAX.
    rewrite not_surrogate by (unfold is_u32; lia). destruct (Z.ltb_spec (b 0) 0); [lia|]. destruct (Z.ltb_spec 0x0010ffff (b 0)); [lia|]. done. }
  change (0 + 1) with 1. destruct ((1 <? len) && is_cont (b 1)) eqn:C1; cbn [negb]; [|done].
  apply andb_prop in C1 as [_ C1]. apply cont_range in C1.
  rewrite decode_row by (cbn; lia). cbn [cmask cval lmask lval]. rewrite L2. destruct (Z.leb_spec 0xC0 (b 0)) as [H2|H2], (Z.ltb_spec (b 0) 0xE0) as [H3|H3]; cbn [andb].
  { change 0x7FF with (2 ^ 11 - 1). rewrite (land_row _ 11 u2) by (unfold u2; lia || (exists 6; lia)). unfold UNICODE_MAX.
    destruct (Z.ltb_spec u2 0x80); [done|]. rewrite not_surrogate by (unfold is_u32, u2 in *; lia).
    destruct (Z.ltb_spec 0x0010ffff u2); [unfold u2 in *; lia|]. done. }
  all: change (1 + 1) with 2; destruct ((2 <? len) && is_cont (b 2)) eqn:C2; cbn [negb]; [|done];
    apply andb_prop in C2 as [_ C2]; apply cont_range in C2;
    rewrite decode_row by (cbn; lia); cbn [cmask cval lmask lval]; rewrite L3.
  all: destruct (Z.leb_spec 0xE0 (b 0)) as [H4|H4], (Z.ltb_spec (b 0) 0xF0) as [H5|H5]; cbn [andb]; try lia.
  all: try (change 0xFFFF with (2 ^ 16 - 1); rewrite (land_row _ 16 u3) by (unfold u3; lia || (exists 14; lia));
    unfold UNICODE_MAX; destruct (Z.ltb_spec u3 0x800); [done|]; destruct (Z.ltb_spec 0x0010ffff u3); [unfold u3 in *; lia|];
    cbn [orb]; destruct (is_surrogate u3); done).
  all: change (2 + 1) with 3; destruct ((3 <? len) && is_cont (b 3)) eqn:C3; cbn [negb]; [|done];
    apply andb_prop in C3 as [_ C3]; apply cont_range in C3;
    rewrite decode_row by (cbn; lia); cbn [cmask cval lmask lval]; rewrite L4.
  all: destruct (Z.leb_spec 0xF0 (b 0)) as [H6|H6], (Z.ltb_spec (b 0) 0xF8) as [H7|H7]; cbn [andb]; try lia.
  all: try (change 0x1FFFFF with (2 ^ 21 - 1); rewrite (land_row _ 21 u4) by (unfold u4; lia || (exists 30; lia));
    unfold UNICODE_MAX; destruct (Z.ltb_spec u4 0x10000); [done|]; rewrite not_surrogate by (unfold is_u32, u4 in *; lia);
    destruct (Z.ltb_spec 0x0010ffff u4); done).
  all: destruct ((3 + 1 <? len) && is_cont (b (3 + 1))); [|done].
  all: apply (decode_beyond [Utf8Entry 0xFC 0xF8 (4 * 6) 0x3FFFFFF 0x200000; Utf8Entry 0xFE 0xFC (5 * 6) 0x7FFFFFFF 0x4000000]); [|lia|done].
  all: repeat constructor.
Qed.
End decode.

(** * Round trips *)

(** [e] is what the buffer holds at [off]. *)
Definition holds (s : list Z) (off : Z) (e : list Z) : Prop :=
  off + zlen e <= zlen s /\ forall k, 0 <= k < zlen e -> at_ 0 s (off + k) = at_ 0 e k.

Lemma holds_app pre e post : holds (pre ++ e ++ post) (zlen pre) e.
Proof.
  split; [rewrite !zlen_app; pose proof (zlen_nonneg post); lia|]. intros k Hk. pose proof (zlen_nonneg pre).
  rewrite at_app by lia. destruct (Z.ltb_spec (zlen pre + k) (zlen pre)); [lia|].
  replace (zlen pre + k - zlen pre) with k by lia. rewrite at_app by lia. destruct (Z.ltb_spec k (zlen e)); [done|lia].
Qed.

Lemma rd_mid_at (s pre : list Z) x post : s = pre ++ x :: post -> at_ 0 s (zlen pre) = x.
Proof. intros ->. unfold at_, zlen. rewrite Nat2Z.id. apply nth_middle. Qed.

Lemma holds_prefix pre rest e : holds (pre ++ rest) (zlen pre) e -> exists post, rest = e ++ post.
Proof.
  intros [Hl He]. rewrite zlen_app in Hl. exists (drop (length e) rest). rewrite <- (take_drop (length e) rest) at 1. f_equal.
  apply (list_at_ext 0); [unfold zlen in *; rewrite length_take; lia|]. intros k Hk.
  unfold zlen in Hl, Hk. rewrite length_take in Hk. specialize (He k ltac:(unfold zlen; lia)). rewrite <- He.
  pose proof (at_take 0 rest (zlen e) k ltac:(unfold zlen; lia)) as E. unfold zlen in E. rewrite Nat2Z.id in E. rewrite E. pose proof (zlen_nonneg pre).
  rewrite at_app by lia. destruct (Z.ltb_spec (zlen pre + k) (zlen pre)); [lia|]. f_equal. lia.
Qed.

Lemma digits3 u : 0 <= u <= 0xFFFF ->
  (0xE0 + u / 4096 - 0xE0) * 4096 + (0x80 + u / 64 mod 64 - 0x80) * 64 + (0x80 + u mod 64 - 0x80) = u /\
  0 <= u / 4096 < 16 /\ 0 <= u / 64 mod 64 < 64 /\ 0 <= u mod 64 < 64.
Proof. intros Hu. change 4096 with (64 * 64). rewrite <- !Z.div_div by lia. Z.to_euclidean_division_equations; lia. Qed.

Lemma digits4 u : 0 <= u <= 0x10FFFF ->
  (0xF0 + u / 262144 - 0xF0) * 262144 + (0x80 + u / 4096 mod 64 - 0x80) * 4096 + (0x80 + u / 64 mod 64 - 0x80) * 64 + (0x80 + u mod 64 - 0x80) = u /\
  0 <= u / 262144 < 5 /\ 0 <= u / 4096 mod 64 < 64 /\ 0 <= u / 64 mod 64 < 64 /\ 0 <= u mod 64 < 64.
Proof. intros Hu. change 262144 with (64 * 64 * 64). change 4096 with (64 * 64). rewrite <- !Z.div_div by lia. Z.to_euclidean_division_equations; lia. Qed.

Lemma decoded_encode s off len u : 0 <= off -> valid_cp u -> zlen (encode u) <= len -> holds s off (encode u) ->
  decoded s off len = Some (zlen (encode u), u).
Proof.
  intros Ho [Hu Hs] Hlen [_ Hh]. unfold encode in *. unfold decoded, u2, u3, u4, is_cont, UNICODE_MAX.
  destruct (Z.leb_spec u 0x7F) as [H1|H1].
  { rewrite (Hh 0) by (change (zlen [u]) with 1; lia). change (at_ 0 [u] 0) with u. destruct (Z.ltb_spec u 0x80); [done|lia]. }
  destruct (Z.leb_spec u 0x7FF) as [H2|H2].
  { set (e := [0xC0 + u / 64; 0x80 + u mod 64]) in *. change (zlen e) with 2 in *. rewrite (Hh 0), (Hh 1) by lia. unfold e, at_. cbn [nth Z.to_nat].
    change (nth (Pos.to_nat 1) ?l 0) with (nth 1 l 0). cbn [nth]. Z.to_euclidean_division_equations. repeat case_match; try f_equal; lia || (f_equal; lia). }
  destruct (Z.leb_spec u 0xFFFF) as [H3|H3].
  { set (e := [0xE0 + u / 4096; 0x80 + u / 64 mod 64; 0x80 + u mod 64]) in *. change (zlen e) with 3 in *. rewrite (Hh 0), (Hh 1), (Hh 2) by lia.
    change (at_ 0 e 0) with (0xE0 + u / 4096). change (at_ 0 e 1) with (0x80 + u / 64 mod 64). change (at_ 0 e 2) with (0x80 + u mod 64).
    destruct (digits3 u) as (E & D0 & D1 & D2); [lia|]. rewrite E. rewrite not_surrogate by (unfold is_u32; lia). repeat case_match; try f_equal; lia. }
  set (e := [0xF0 + u / 262144; 0x80 + u / 4096 mod 64; 0x80 + u / 64 mod 64; 0x80 + u mod 64]) in *. change (zlen e) with 4 in *.
  rewrite (Hh 0), (Hh 1), (Hh 2), (Hh 3) by lia. change (at_ 0 e 0) with (0xF0 + u / 262144). change (at_ 0 e 1) with (0x80 + u / 4096 mod 64).
  change (at_ 0 e 2) with (0x80 + u / 64 mod 64). change (at_ 0 e 3) with (0x80 + u mod 64).
  destruct (digits4 u) as (E & D0 & D1 & D2 & D3); [lia|]. rewrite E. repeat case_match; try f_equal; lia.
Qed.

Lemma encode2 a b : 0xC0 <= a < 0xE0 -> 0x80 <= b < 0xC0 -> 0x80 <= (a - 0xC0) * 64 + (b - 0x80) ->
  encode ((a - 0xC0) * 64 + (b - 0x80)) = [a; b].
Proof.
  intros Ha Hb Hu. unfold encode. set (u := (a - 0xC0) * 64 + (b - 0x80)) in *. assert (E : u / 64 = a - 0xC0 /\ u mod 64 = b - 0x80) by (subst u; Z.to_euclidean_division_equations; lia).
  destruct (Z.leb_spec u 0x7F); [lia|]. destruct (Z.leb_spec u 0x7FF); [|lia]. destruct E as [-> ->]. f_equal; [lia|f_equal; lia].
Qed.

Lemma encode3 a b c : 0xE0 <= a < 0xF0 -> 0x80 <= b < 0xC0 -> 0x80 <= c < 0xC0 -> 0x800 <= (a - 0xE0) * 4096 + (b - 0x80) * 64 + (c - 0x80) ->
  encode ((a - 0xE0) * 4096 + (b - 0x80) * 64 + (c - 0x80)) = [a; b; c].
Proof.
  intros Ha Hb Hc Hu. unfold encode. set (u := (a - 0xE0) * 4096 + (b - 0x80) * 64 + (c - 0x80)) in *.
  assert (E : u / 4096 = a - 0xE0 /\ u / 64 mod 64 = b - 0x80 /\ u mod 64 = c - 0x80) by (subst u; Z.to_euclidean_division_equations; lia).
  destruct (Z.leb_spec u 0x7F); [lia|]. destruct (Z.leb_spec u 0x7FF); [lia|]. destruct (Z.leb_spec u 0xFFFF); [|lia].
  destruct E as (-> & -> & ->). repeat (f_equal; [lia|]). f_equal. lia.
Qed.

Lemma encode4 a b c d : 0xF0 <= a < 0xF8 -> 0x80 <= b < 0xC0 -> 0x80 <= c < 0xC0 -> 0x80 <= d < 0xC0 ->
  0x10000 <= (a - 0xF0) * 262144 + (b - 0x80) * 4096 + (c - 0x80) * 64 + (d - 0x80) ->
  encode ((a - 0xF0) * 262144 + (b - 0x80) * 4096 + (c - 0x80) * 64 + (d - 0x80)) = [a; b; c; d].
Proof.
  intros Ha Hb Hc Hd Hu. unfold encode. set (u := (a - 0xF0) * 262144 + (b - 0x80) * 4096 + (c - 0x80) * 64 + (d - 0x80)) in *.
  assert (E : u / 262144 = a - 0xF0 /\ u / 4096 mod 64 = b - 0x80 /\ u / 64 mod 64 = c - 0x80 /\ u mod 64 = d - 0x80)
    by (subst u; Z.to_euclidean_division_equations; lia).
  destruct (Z.leb_spec u 0x7F); [lia|]. destruct (Z.leb_spec u 0x7FF); [lia|]. destruct (Z.leb_spec u 0xFFFF); [lia|].
  destruct E as (-> & -> & -> & ->). repeat (f_equal; [lia|]). f_equal. lia.
Qed.

(** The bytes read are the bytes held. *)
Lemma holds_read s off n : off + Z.of_nat n <= zlen s -> holds s off ((fun k => at_ 0 s (off + Z.of_nat k)) <$> seq 0 n).
Proof.
  intros Hn. split; [unfold zlen at 1; rewrite length_fmap, length_seq; lia|]. intros k Hk. unfold zlen in Hk. rewrite length_fmap, length_seq in Hk.
  unfold at_ at 2. erewrite nth_lookup_Some; [done|]. rewrite list_lookup_fmap, lookup_seq_lt by lia. cbn. do 3 f_equal. lia.
Qed.

(** Whatever is accepted is the encoding of the value returned: overlong forms,
    surrogates, values above the range and cut sequences are not. *)
Lemma decoded_sound s off len n u : Forall is_u8 s -> 0 <= off -> 1 <= len -> off + len <= zlen s ->
  decoded s off len = Some (n, u) -> valid_cp u /\ n = zlen (encode u) /\ n <= len /\ holds s off (encode u).
Proof.
  intros H8 Ho Hl Hin. pose proof (proj2 (byte_at s off len H8 Ho Hin 0 ltac:(lia))) as HB. unfold is_u8 in HB.
  pose proof (holds_read s off) as HR. unfold decoded, u2, u3, u4, UNICODE_MAX.
  destruct (Z.ltb_spec (at_ 0 s (off + 0)) 0x80) as [H1|H1].
  { intros [= <- <-]. assert (E : encode (at_ 0 s (off + 0)) = [at_ 0 s (off + 0)]) by (unfold encode; destruct (Z.leb_spec (at_ 0 s (off + 0)) 0x7F); [done|lia]).
    rewrite E. split; [unfold valid_cp; lia|]. repeat split; [lia|apply (HR 1%nat); lia|apply (HR 1%nat); lia]. }
  destruct (Z.ltb_spec 1 len), (is_cont (at_ 0 s (off + 1))) eqn:C1; cbn [andb negb]; try done. apply cont_range in C1.
  destruct (Z.leb_spec 0xC0 (at_ 0 s (off + 0))), (Z.ltb_spec (at_ 0 s (off + 0)) 0xE0); cbn [andb].
  { destruct (Z.ltb_spec ((at_ 0 s (off + 0) - 0xC0) * 64 + (at_ 0 s (off + 1) - 0x80)) 0x80); [done|]. intros [= <- <-].
    rewrite encode2 by lia. split; [unfold valid_cp; lia|]. split; [done|]. split; [lia|]. apply (HR 2%nat). lia. }
  all: destruct (Z.ltb_spec 2 len), (is_cont (at_ 0 s (off + 2))) eqn:C2; cbn [andb negb]; try done; apply cont_range in C2.
  all: destruct (Z.leb_spec 0xE0 (at_ 0 s (off + 0))), (Z.ltb_spec (at_ 0 s (off + 0)) 0xF0); cbn [andb]; try lia.
  all: try (match goal with |- context [is_surrogate ?u] => rewrite (surrogate_range u) by (unfold is_u32; lia); destruct (Z.ltb_spec u 0x800) as [|HL];
      [done|]; destruct (Z.leb_spec 0xD800 u) as [HS1|HS1], (Z.ltb_spec u 0xE000) as [HS2|HS2]; cbn [orb andb]; try done end;
      intros [= <- <-]; rewrite encode3 by lia; (split; [unfold valid_cp; lia|split; [done|split; [lia|apply (HR 3%nat); lia]]])).
  all: destruct (Z.ltb_spec 3 len), (is_cont (at_ 0 s (off + 3))) eqn:C3; cbn [andb negb]; try done; apply cont_range in C3.
  all: destruct (Z.leb_spec 0xF0 (at_ 0 s (off + 0))), (Z.ltb_spec (at_ 0 s (off + 0)) 0xF8); cbn [andb]; try lia; try done.
  all: match goal with |- context [?u <? 0x10000] => destruct (Z.ltb_spec u 0x10000) as [|HL]; [done|]; destruct (Z.ltb_spec 0x0010ffff u); [done|] end;
    cbn [orb]; intros [= <- <-]; rewrite encode4 by lia; split; [unfold valid_cp; lia|]; split; [done|]; split; [lia|]; apply (HR 4%nat); lia.
Qed.

Lemma utf8_decoding u pre post len pu : valid_cp u -> Forall is_u8 (pre ++ encode u ++ post) -> zlen (encode u) <= len <= zlen (encode u ++ post) ->
  utf8_to_utf32 (pre ++ encode u ++ post) (zlen pre) len pu = Ok (zlen (encode u), u).
Proof.
  intros Hv H8 Hlen. pose proof (encode_len u). pose proof (zlen_nonneg pre). rewrite utf8_to_utf32_spec; [|done|done|lia|].
  - rewrite (decoded_encode _ _ _ u); [done|lia|done|lia|apply holds_app].
  - rewrite zlen_app. lia.
Qed.

(** [utf32_to_utf8] writes the UTF-8 encoding of a code point and returns
    its length, in bounds of the buffer; a surrogate, a value above U+10FFFF and a
    code point whose encoding does not fit in [maxlen] give -1 with the buffer
    untouched.  [utf8_to_utf32] never reads past [len]; it inverts the encoding,
    and whatever it accepts is the encoding of the value it returns, so that
    overlong forms, encoded surrogates, stray continuation bytes and truncated
    sequences give -1 with [*pu] untouched. *)
Lemma utf8_roundtrip_facts :
  (forall u pre old post maxlen, valid_cp u -> zlen old = zlen (encode u) -> zlen (encode u) <= maxlen ->
     utf32_to_utf8 u (Some (pre ++ old ++ post, zlen pre)) maxlen = Ok (zlen (encode u), pre ++ encode u ++ post)) /\
  (forall u s off maxlen, is_u32 u -> 0 <= maxlen -> ~ valid_cp u \/ maxlen < zlen (encode u) ->
     utf32_to_utf8 u (Some (s, off)) maxlen = Ok (-1, s)) /\
  (forall s off len pu, Forall is_u8 s -> 0 <= off -> 1 <= len -> off + len <= zlen s ->
     exists n u, utf8_to_utf32 s off len pu = Ok (n, u) /\
       ((n = -1 /\ u = pu /\ forall v, valid_cp v -> zlen (encode v) <= len -> ~ holds s off (encode v)) \/
        (valid_cp u /\ n = zlen (encode u) /\ n <= len /\ holds s off (encode u)))) /\
  (forall u pre post len pu, valid_cp u -> Forall is_u8 (pre ++ encode u ++ post) -> zlen (encode u) <= len <= zlen (encode u ++ post) ->
     utf8_to_utf32 (pre ++ encode u ++ post) (zlen pre) len pu = Ok (zlen (encode u), u)).
Proof.
  split; [intros; now apply utf32_to_utf8_ok|]. split; [|split].
  - intros u s off maxlen Hu Hm Hbad. destruct (valid_cp_dec u) as [Hv|Hv].
    + destruct Hbad; [done|]. apply utf32_to_utf8_short; [done|lia].
    + unfold utf32_to_utf8. now rewrite invalid_guard.
  - intros s off len pu H8 Ho Hl Hin. rewrite utf8_to_utf32_spec by done. destruct (decoded s off len) as [[n u]|] eqn:E.
    + exists n, u. split; [done|]. right. now apply (decoded_sound s off len).
    + exists (-1), pu. split; [done|]. left. split; [done|]. split; [done|]. intros v Hv Hlv Hh.
      now rewrite (decoded_encode s off len v) in E.
  - apply utf8_decoding.
Qed.

(** U+20AC into a buffer of five bytes and back. *)
