(* ===== verification/Utf16.v ===== *)
(** fs/nls/nls_base.c: the conversions of whole strings between UTF-8 and
    UTF-16, on top of [utf8_to_utf32] and [utf32_to_utf8]. *)
From S2P Require Import Prelude.
From S2P Require Import Ring.
From S2P Require Import Blocks.
From S2P Require Import Utf8.

Definition EINVAL : Z := 22.

(** One turn of the loop of [utf8s_to_utf16s]; the state is the position of [s],
    [len], the position of [op] in [pwcs], and [pwcs]. *)
Definition utf8s_body (s : list Z) : Z * Z * Z * list Z -> res ((Z * Z * Z * list Z) + (Z * list Z)) :=
  fun '(off, len, op, pwcs) =>
    x ← rd s off;
    if negb (x =? 0) && (0 <? len) then
      if negb (Z.land x 0x80 =? 0) then
        '(size, u) ← utf8_to_utf32 s off len 0;
        if size <? 0 then Ok (inr (- EINVAL, pwcs)) else
        if PLANE_SIZE <=? u then
          let u := u - PLANE_SIZE in
          pwcs ← wr pwcs op (u16 (Z.lor SURROGATE_PAIR (Z.land (shr32 u 10) SURROGATE_BITS)));
          pwcs ← wr pwcs (op + 1) (u16 (Z.lor (Z.lor SURROGATE_PAIR SURROGATE_LOW) (Z.land u SURROGATE_BITS)));
          Ok (inl (off + size, len - size, op + 2, pwcs))
        else
          pwcs ← wr pwcs op (u16 u);
          Ok (inl (off + size, len - size, op + 1, pwcs))
      else
        pwcs ← wr pwcs op x;
        Ok (inl (off + 1, len - 1, op + 1, pwcs))
    else Ok (inr (op, pwcs)).

(** The return value and [pwcs].  Every turn consumes a byte. *)
Definition utf8s_to_utf16s (s : list Z) (len : Z) (pwcs : list Z) : res (Z * list Z) :=
  loop (S (length s)) (utf8s_body s) (0, len, 0, pwcs).

Inductive utf16_endian := UTF16_HOST_ENDIAN | UTF16_LITTLE_ENDIAN | UTF16_BIG_ENDIAN.

(** The machine is little-endian; [__be16_to_cpu] exchanges the two bytes. *)
Definition get_utf16 (c : Z) (endian : utf16_endian) : Z :=
  match endian with
  | UTF16_HOST_ENDIAN => c
  | UTF16_LITTLE_ENDIAN => u16 c
  | UTF16_BIG_ENDIAN => Z.lor (Z.land (Z.shiftl (u16 c) 8) 0xff00) (Z.land (Z.shiftr (u16 c) 8) 0xff)
  end.

(** The treatment of a unit above 0x7f: [inl true] is [continue], [inl false] is
    [break], [inr] the character to store with the position and [len] after it. *)
Definition utf16_pair (pwcs : list Z) (endian : utf16_endian) (u i len : Z) : res (bool + (Z * Z * Z)) :=
  if is_surrogate u then
    if negb (Z.land u SURROGATE_LOW =? 0) then Ok (inl true) else
    if len <=? 0 then Ok (inl false) else
    c ← rd pwcs i;
    let v := get_utf16 c endian in
    if negb (is_surrogate v) || (Z.land v SURROGATE_LOW =? 0) then Ok (inl true) else
    Ok (inr (u32 (PLANE_SIZE + shl32 (Z.land u SURROGATE_BITS) 10 + Z.land v SURROGATE_BITS), i + 1, len - 1))
  else Ok (inr (u, i, len)).

(** One turn of the loop of [utf16s_to_utf8s]; the state is the position of
    [pwcs], [len], the position of [op] in [s], [maxlen], and [s]. *)
Definition utf16s_body (pwcs : list Z) (endian : utf16_endian) :
    Z * Z * Z * Z * list Z -> res ((Z * Z * Z * Z * list Z) + (Z * list Z)) :=
  fun '(i, len, op, maxlen, s) =>
    if (0 <? len) && (0 <? maxlen) then
      c ← rd pwcs i;
      let u := get_utf16 c endian in
      if u =? 0 then Ok (inr (op, s)) else
      let i := i + 1 in
      let len := len - 1 in
      if 0x7f <? u then
        x ← utf16_pair pwcs endian u i len;
        match x with
        | inl true => Ok (inl (i, len, op, maxlen, s))
        | inl false => Ok (inr (op, s))
        | inr (u, i, len) =>
            '(size, s) ← utf32_to_utf8 u (Some (s, op)) maxlen;
            if size =? -1 then Ok (inl (i, len, op, maxlen, s))
            else Ok (inl (i, len, op + size, maxlen - size, s))
        end
      else
        s ← wr s op (u8 u);
        Ok (inl (i, len, op + 1, maxlen - 1, s))
    else Ok (inr (op, s)).

(** The return value and [s].  Every turn consumes a unit. *)
Definition utf16s_to_utf8s (pwcs : list Z) (len : Z) (endian : utf16_endian) (s : list Z) (maxlen : Z) : res (Z * list Z) :=
  loop (S (length pwcs)) (utf16s_body pwcs endian) (0, len, 0, maxlen, s).

(** * Texts *)

(** The UTF-16 units of a code point, as the machine holds them. *)
Definition units (u : Z) : list Z :=
  if u <? 0x10000 then [u] else [0xD800 + (u - 0x10000) / 1024; 0xDC00 + (u - 0x10000) mod 1024].

(** A character that may stand in a string: a code point other than NUL. *)
Definition is_char (u : Z) : Prop := valid_cp u /\ u <> 0.

Definition utf8_text (us : list Z) : list Z := concat (encode <$> us).
Definition utf16_text (us : list Z) : list Z := concat (units <$> us).

(** A unit as it is stored in a byte order. *)
Definition store16 (endian : utf16_endian) (c : Z) : Z :=
  match endian with UTF16_BIG_ENDIAN => c mod 256 * 256 + c / 256 | _ => c end.

Lemma utf8_text_app us vs : utf8_text (us ++ vs) = utf8_text us ++ utf8_text vs.
Proof. unfold utf8_text. now rewrite fmap_app, concat_app. Qed.

Lemma utf16_text_app us vs : utf16_text (us ++ vs) = utf16_text us ++ utf16_text vs.
Proof. unfold utf16_text. now rewrite fmap_app, concat_app. Qed.

Lemma units_len u : is_char u -> 1 <= zlen (units u) <= zlen (encode u).
Proof. intros [[Hu _] _]. unfold units, encode. destruct (Z.ltb_spec u 0x10000), (Z.leb_spec u 0x7F), (Z.leb_spec u 0x7FF), (Z.leb_spec u 0xFFFF); unfold zlen; cbn; lia. Qed.

(** * Bits of surrogates *)

Lemma get_store16 endian c : is_u16 c -> get_utf16 (store16 endian c) endian = c.
Proof.
  intros Hc. unfold is_u16 in Hc. destruct endian; cbn [get_utf16 store16]; [done|now apply u16_id|].
  assert (H : 0 <= c / 256 < 256 /\ 0 <= c mod 256 < 256 /\ c = c / 256 * 256 + c mod 256) by (Z.to_euclidean_division_equations; lia).
  destruct H as (H1 & H2 & H3). set (a := c / 256) in *. set (b := c mod 256) in *. rewrite u16_id by (unfold is_u16; lia).
  change 0xff00 with (Z.shiftl (2 ^ 8 - 1) 8). rewrite <- Z.shiftl_land. change 0xff with (2 ^ 8 - 1). rewrite !land_mask by lia.
  rewrite Z.shiftl_mul_pow2, Z.shiftr_div_pow2 by lia. change (2 ^ 8) with 256.
  replace ((b * 256 + a) mod 256) with a by (Z.to_euclidean_division_equations; lia).
  replace ((b * 256 + a) / 256 mod 256) with b by (Z.to_euclidean_division_equations; lia).
  change 256 with (2 ^ 8). rewrite lor_low by lia. change (2 ^ 8) with 256. lia.
Qed.

Lemma surrogate_low u : 0xD800 <= u < 0xE000 -> (Z.land u SURROGATE_LOW =? 0) = (u <? 0xDC00).
Proof.
  intros Hu. pose (P := fun k => Bool.eqb (Z.land (0xD800 + Z.of_nat k) SURROGATE_LOW =? 0) (0xD800 + Z.of_nat k <? 0xDC00)).
  assert (H : forallb P (seq 0 2048) = true) by (vm_compute; reflexivity). rewrite forallb_forall in H.
  specialize (H (Z.to_nat (u - 0xD800)) ltac:(apply in_seq; lia)). unfold P in H. rewrite Z2Nat.id in H by lia.
  replace (0xD800 + (u - 0xD800)) with u in H by lia. now apply eqb_prop.
Qed.

Lemma surrogate_bits a h : 0 <= h < 1024 -> Z.land (a * 1024 + h) SURROGATE_BITS = h.
Proof. intros Hh. unfold SURROGATE_BITS. change 0x3ff with (2 ^ 10 - 1). rewrite land_mask, Z.add_comm, Z.mod_add by lia. now apply Z.mod_small. Qed.

(** The units stored for a character beyond the first plane. *)
Lemma high_unit v : 0 <= v < 0x100000 -> u16 (Z.lor SURROGATE_PAIR (Z.land (shr32 v 10) SURROGATE_BITS)) = 0xD800 + v / 1024.
Proof.
  intros Hv. unfold shr32. rewrite Z.shiftr_div_pow2 by lia. change (2 ^ 10) with 1024. assert (0 <= v / 1024 < 1024) by (Z.to_euclidean_division_equations; lia).
  pose proof (surrogate_bits 0 (v / 1024) ltac:(lia)) as E. rewrite Z.add_0_l in E. rewrite E. unfold SURROGATE_PAIR. change 0xd800 with (54 * 2 ^ 10). rewrite lor_low by lia. apply u16_id. unfold is_u16. lia.
Qed.

Lemma low_unit v : 0 <= v -> u16 (Z.lor (Z.lor SURROGATE_PAIR SURROGATE_LOW) (Z.land v SURROGATE_BITS)) = 0xDC00 + v mod 1024.
Proof.
  intros Hv. pose proof (Z.mod_pos_bound v (2 ^ 10) ltac:(lia)) as H. unfold SURROGATE_BITS. change 0x3ff with (2 ^ 10 - 1). rewrite land_mask by lia.
  change (Z.lor SURROGATE_PAIR SURROGATE_LOW) with (55 * 2 ^ 10). change 1024 with (2 ^ 10). rewrite lor_low by lia.
  apply u16_id. unfold is_u16. lia.
Qed.

(** * From UTF-8 to UTF-16 *)

Lemma encode_head u : is_char u -> exists x e, encode u = x :: e /\ x <> 0 /\ (if u <=? 0x7F then x = u /\ e = [] else 0xC0 <= x < 0x100).
Proof.
  intros [[Hu _] H0]. unfold encode. destruct (Z.leb_spec u 0x7F); [exists u, []; done|]. destruct (Z.leb_spec u 0x7FF); [|destruct (Z.leb_spec u 0xFFFF)].
  all: eexists _, _; split; [reflexivity|].
  all: Z.to_euclidean_division_equations; lia.
Qed.

Lemma high_bit x : is_u8 x -> (Z.land x 0x80 =? 0) = (x <? 0x80).
Proof. intros Hx. apply (lead_byte x Hx). Qed.

Lemma zlen_1 {A} (l : list A) : zlen l = 1 -> exists x, l = [x].
Proof. unfold zlen. destruct l as [|x [|]]; cbn [length]; [lia|eauto|lia]. Qed.

Lemma zlen_2 {A} (l : list A) : zlen l = 2 -> exists x y, l = [x; y].
Proof. unfold zlen. destruct l as [|x [|y [|]]]; cbn [length]; [lia|lia|eauto|lia]. Qed.

(** A whole character is converted in one turn. *)
Lemma utf8s_body_char s u pre post len out old tail : s = pre ++ encode u ++ post -> Forall is_u8 s -> is_char u ->
  zlen (encode u) <= len <= zlen (encode u ++ post) -> zlen old = zlen (units u) ->
  utf8s_body s (zlen pre, len, zlen out, out ++ old ++ tail) =
  Ok (inl (zlen (pre ++ encode u), len - zlen (encode u), zlen (out ++ units u), out ++ units u ++ tail)).
Proof.
  intros Hs H8 Hc Hlen Hold. destruct (encode_head u Hc) as (x & e & He & Hx & Hk). pose proof (encode_len u) as Hl. destruct Hc as [Hv H0]. cbn [utf8s_body].
  assert (Hrd : rd s (zlen pre) = Ok x) by (rewrite Hs, He; apply rd_mid). rewrite Hrd, bind_ok.
  destruct (Z.eqb_spec x 0); [done|]. destruct (Z.ltb_spec 0 len); [|lia]. cbn [negb andb].
  assert (Hx8 : is_u8 x). { rewrite Hs, He, !Forall_app in H8. destruct H8 as (_ & H8 & _). now inversion H8. }
  rewrite (high_bit x Hx8), !zlen_app. unfold units in *. revert Hold. destruct (Z.leb_spec u 0x7F) as [Hu|Hu].
  { destruct Hk as [-> ->]. destruct (Z.ltb_spec u 0x80); [|lia]. cbn [negb]. destruct (Z.ltb_spec u 0x10000); [|lia]. intros Hold.
    destruct (zlen_1 old Hold) as [o ->]. cbn [app]. rewrite wr_mid, bind_ok, He. done. }
  destruct (Z.ltb_spec x 0x80); [lia|]. cbn [negb].
  pose proof (utf8_decoding u pre post len 0 Hv) as E. rewrite <- Hs in E. rewrite (E H8 Hlen), bind_ok.
  destruct (Z.ltb_spec (zlen (encode u)) 0); [lia|]. unfold PLANE_SIZE. destruct Hv as [Hur _].
  destruct (Z.leb_spec 0x10000 u), (Z.ltb_spec u 0x10000); try lia; intros Hold.
  - destruct (zlen_2 old Hold) as (o1 & o2 & ->). cbn [app]. rewrite wr_mid, bind_ok, high_unit, low_unit by lia. cbv zeta.
    replace (zlen out + 1) with (zlen (out ++ [0xD800 + (u - 0x10000) / 1024])) by (rewrite zlen_app; done).
    pose proof (wr_mid (out ++ [0xD800 + (u - 0x10000) / 1024]) o2 (0xDC00 + (u - 0x10000) mod 1024) tail) as E2. rewrite <- !app_assoc in E2. cbn [app] in E2.
    rewrite E2, bind_ok. done.
  - destruct (zlen_1 old Hold) as [o ->]. cbn [app]. rewrite wr_mid, bind_ok, u16_id by (unfold is_u16; lia). done.
Qed.

(** What ends the conversion. *)
Lemma utf8s_body_end s pre x post len op pwcs : s = pre ++ x :: post -> 0 <= len -> x = 0 \/ len = 0 ->
  utf8s_body s (zlen pre, len, op, pwcs) = Ok (inr (op, pwcs)).
Proof.
  intros -> Hl Hx. cbn [utf8s_body]. rewrite rd_mid, bind_ok. destruct (Z.eqb_spec x 0), (Z.ltb_spec 0 len); cbn [negb andb]; try done. lia.
Qed.

(** No character of at most [len] bytes stands at the head of [rest]. *)
Definition malformed (rest : list Z) (len : Z) : Prop := forall v post, valid_cp v -> zlen (encode v) <= len -> rest <> encode v ++ post.

(** A turn that is not at the end finds a character or fails. *)
Lemma utf8s_body_cases s pre x post len op pwcs : s = pre ++ x :: post -> Forall is_u8 s -> x <> 0 -> 1 <= len <= zlen (x :: post) ->
  (exists u post', is_char u /\ x :: post = encode u ++ post' /\ zlen (encode u) <= len) \/
  (malformed (x :: post) len /\ utf8s_body s (zlen pre, len, op, pwcs) = Ok (inr (- EINVAL, pwcs))).
Proof.
  intros Hs H8 Hx Hlen. assert (Hin : zlen pre + len <= zlen s) by (rewrite Hs, zlen_app; lia). pose proof (zlen_nonneg pre).
  assert (Hh : forall v, zlen (encode v) <= len -> holds s (zlen pre) (encode v) -> exists post', x :: post = encode v ++ post').
  { intros v Hv Hh. rewrite Hs in Hh. now apply holds_prefix in Hh. }
  assert (Hat : at_ 0 s (zlen pre + 0) = x) by (rewrite Z.add_0_r; now apply rd_mid_at with post).
  destruct (decoded s (zlen pre) len) as [[n u]|] eqn:E.
  - left. destruct (decoded_sound s (zlen pre) len n u) as (Hv & -> & Hl & Hd); [done|lia|lia|lia|done|]. destruct (Hh u Hl Hd) as [post' Ep].
    exists u, post'. split; [|done]. split; [done|]. intros ->. cbn in Ep. congruence.
  - right. split.
    { intros v post' Hv Hl Ep. rewrite (decoded_encode s (zlen pre) len v) in E; [done|lia|done|done|]. rewrite Hs, Ep. apply holds_app. }
    cbn [utf8s_body]. rewrite Hs at 1. rewrite rd_mid, bind_ok. destruct (Z.eqb_spec x 0); [done|]. destruct (Z.ltb_spec 0 len); [|lia]. cbn [negb andb].
    assert (Hx8 : is_u8 x) by (rewrite Hs, Forall_app in H8; destruct H8 as [_ H8]; now inversion H8). rewrite (high_bit x Hx8).
    destruct (Z.ltb_spec x 0x80) as [Hlt|Hge]; cbn [negb].
    + unfold decoded in E. rewrite Hat in E. destruct (Z.ltb_spec x 0x80); [done|lia].
    + rewrite utf8_to_utf32_spec, E by (done || lia). done.
Qed.

(** How the conversion of [rest] ends: at NUL or after [len] bytes, or at bytes
    that are no character. *)
Definition ends (rest : list Z) (len : Z) : Prop := len = 0 \/ exists r, rest = 0 :: r.

Definition utf8s_result (rest : list Z) (len : Z) (us rest' : list Z) (out avail : list Z) (r : res (Z * list Z)) : Prop :=
  rest = utf8_text us ++ rest' /\ Forall is_char us /\ zlen (utf8_text us) <= len /\
  ((ends rest' (len - zlen (utf8_text us)) /\
      r = Ok (zlen (out ++ utf16_text us), out ++ utf16_text us ++ drop (length (utf16_text us)) avail)) \/
   (malformed rest' (len - zlen (utf8_text us)) /\
      r = Ok (- EINVAL, out ++ utf16_text us ++ drop (length (utf16_text us)) avail))).

Lemma utf8s_result_cons u rest len us rest' out avail r : is_char u -> zlen (units u) <= zlen avail ->
  utf8s_result rest (len - zlen (encode u)) us rest' (out ++ units u) (drop (length (units u)) avail) r ->
  utf8s_result (encode u ++ rest) len (u :: us) rest' out avail r.
Proof.
  intros Hu Ha (E & Hus & Hl & Hr). unfold utf8s_result. change (utf8_text (u :: us)) with (encode u ++ utf8_text us).
  change (utf16_text (u :: us)) with (units u ++ utf16_text us). rewrite <- !app_assoc, length_app, <- drop_drop in *. rewrite !zlen_app in *. rewrite E.
  split; [done|]. split; [by constructor|]. split; [lia|].
  replace (len - (zlen (encode u) + zlen (utf8_text us))) with (len - zlen (encode u) - zlen (utf8_text us)) by lia. exact Hr.
Qed.

Lemma utf8s_loop s : Forall is_u8 s -> forall n pre rest len out avail, (length rest <= n)%nat -> s = pre ++ rest ->
  0 <= len < zlen rest -> len <= zlen avail ->
  exists us rest', utf8s_result rest len us rest' out avail (loop (S n) (utf8s_body s) (zlen pre, len, zlen out, out ++ avail)).
Proof.
  intros H8. induction n as [|n IH]; intros pre rest len out avail Hn Hs Hlen Hav.
  { unfold zlen in Hlen. lia. }
  destruct rest as [|x post]; [unfold zlen in Hlen; cbn [app length] in Hlen; lia|].
  assert (Hend : x = 0 \/ len = 0 -> exists us rest', utf8s_result (x :: post) len us rest' out avail (loop (S (S n)) (utf8s_body s) (zlen pre, len, zlen out, out ++ avail))).
  { intros He. exists [], (x :: post). split; [done|]. split; [constructor|]. split; [change (zlen (utf8_text [])) with 0; lia|]. left. split.
    - change (zlen (utf8_text [])) with 0. unfold ends. destruct He as [->|]; [right; eauto|left; lia].
    - cbn [loop]. rewrite (utf8s_body_end s pre x post) by (done || lia). cbn. now rewrite !app_nil_r. }
  destruct (Z.eq_dec x 0); [auto|]. destruct (Z.eq_dec len 0); [auto|]. clear Hend.
  destruct (utf8s_body_cases s pre x post len (zlen out) (out ++ avail)) as [(u & post' & Hu & E & Hl)|[Hm E]]; [done..|lia| |].
  - pose proof (units_len u Hu) as Hul. rewrite E in *. cbn [loop]. rewrite zlen_app in Hlen.
    pose proof (utf8s_body_char s u pre post' len out (take (length (units u)) avail) (drop (length (units u)) avail) Hs H8 Hu) as Eb.
    rewrite take_drop in Eb. rewrite Eb; [|rewrite zlen_app; lia|unfold zlen in *; rewrite length_take; lia]. clear Eb.
    destruct (IH (pre ++ encode u) post' (len - zlen (encode u)) (out ++ units u) (drop (length (units u)) avail)) as (us & rest' & H).
    + rewrite length_app in Hn. unfold zlen in Hul. lia.
    + now rewrite <- app_assoc.
    + lia.
    + unfold zlen in *. rewrite length_drop. lia.
    + exists (u :: us), rest'. apply utf8s_result_cons; [done|lia|]. rewrite <- app_assoc in H. exact H.
  - exists [], (x :: post). split; [done|]. split; [constructor|]. split; [change (zlen (utf8_text [])) with 0; lia|]. right. change (zlen (utf8_text [])) with 0. rewrite Z.sub_0_r. split; [done|].
    cbn [loop]. rewrite E. done.
Qed.

(** A text is converted as it is, a turn for each character. *)
Lemma utf8s_loop_text s : Forall is_u8 s -> forall us n pre rest len out old tail, s = pre ++ utf8_text us ++ rest ->
  Forall is_char us -> zlen (utf8_text us) <= len <= zlen (utf8_text us ++ rest) -> zlen old = zlen (utf16_text us) ->
  loop (length us + n) (utf8s_body s) (zlen pre, len, zlen out, out ++ old ++ tail) =
  loop n (utf8s_body s) (zlen (pre ++ utf8_text us), len - zlen (utf8_text us), zlen (out ++ utf16_text us), out ++ utf16_text us ++ tail).
Proof.
  intros H8. induction us as [|u us IH]; intros n pre rest len out old tail Hs Hus Hlen Hold.
  - change (utf8_text []) with (@nil Z) in *. change (utf16_text []) with (@nil Z) in *. destruct old; [|unfold zlen in Hold; cbn [length] in Hold; lia].
    change (zlen (@nil Z)) with 0. now rewrite !app_nil_r, Z.sub_0_r.
  - change (utf8_text (u :: us)) with (encode u ++ utf8_text us) in *. change (utf16_text (u :: us)) with (units u ++ utf16_text us) in *.
    rewrite (zlen_app (encode u)), (zlen_app (units u)) in *. inversion_clear Hus as [|?? Hu Hus'].
    rewrite <- (take_drop (length (units u)) old). rewrite <- app_assoc in *. cbn [length Nat.add loop].
    pose proof (zlen_nonneg (utf8_text us)). pose proof (zlen_nonneg (utf16_text us)). rewrite !zlen_app in Hlen.
    rewrite (utf8s_body_char s u pre (utf8_text us ++ rest)); [|done..| |].
    + pose proof (IH n (pre ++ encode u) rest (len - zlen (encode u)) (out ++ units u) (drop (length (units u)) old) tail) as E.
      rewrite <- !app_assoc in E. rewrite E; [|done|done|rewrite zlen_app; lia|unfold zlen in *; rewrite length_drop; lia].
      rewrite <- app_assoc. now replace (len - (zlen (encode u) + zlen (utf8_text us))) with (len - zlen (encode u) - zlen (utf8_text us)) by lia.
    + rewrite !zlen_app. lia.
    + unfold zlen in *. rewrite length_take. lia.
Qed.

Lemma text_lengths us : Forall is_char us -> (length us <= length (utf8_text us))%nat /\ zlen us <= zlen (utf16_text us) <= zlen (utf8_text us).
Proof.
  induction 1 as [|u us Hu _ IH]; [done|]. change (utf8_text (u :: us)) with (encode u ++ utf8_text us). change (utf16_text (u :: us)) with (units u ++ utf16_text us).
  pose proof (units_len u Hu). rewrite length_app, !zlen_app. unfold zlen in *. cbn [length]. lia.
Qed.

(** From the start of [s]. *)
Lemma utf8s_to_utf16s_text us rest len old tail : Forall is_u8 (utf8_text us ++ rest) -> Forall is_char us ->
  zlen (utf8_text us) <= len <= zlen (utf8_text us ++ rest) -> zlen old = zlen (utf16_text us) ->
  exists n, utf8s_to_utf16s (utf8_text us ++ rest) len (old ++ tail) =
    loop (S n) (utf8s_body (utf8_text us ++ rest)) (zlen (utf8_text us), len - zlen (utf8_text us), zlen (utf16_text us), utf16_text us ++ tail).
Proof.
  intros H8 Hus Hlen Hold. exists (length (utf8_text us ++ rest) - length us)%nat. unfold utf8s_to_utf16s. pose proof (text_lengths us Hus) as [Hl _].
  replace (S (length (utf8_text us ++ rest))) with (length us + S (length (utf8_text us ++ rest) - length us))%nat by (rewrite length_app; lia).
  exact (utf8s_loop_text _ H8 us _ [] rest len [] old tail eq_refl Hus Hlen Hold).
Qed.

(** * From UTF-16 to UTF-8 *)

Lemma store16_range endian c : is_u16 c -> is_u16 (store16 endian c) /\ store16 endian (store16 endian c) = c.
Proof. unfold is_u16. intros Hc. destruct endian; cbn [store16]; [done|done|]. Z.to_euclidean_division_equations; lia. Qed.

Lemma get_utf16_range endian c : is_u16 c -> is_u16 (get_utf16 c endian).
Proof.
  intros Hc. destruct (store16_range endian c Hc) as [Hs E]. rewrite <- E. now rewrite get_store16.
Qed.

Lemma surrogate_shift h : 0 <= h < 1024 -> shl32 h 10 = h * 1024.
Proof. intros Hh. unfold shl32. rewrite Z.shiftl_mul_pow2 by lia. apply u32_id. unfold is_u32. lia. Qed.

(** A surrogate of either half by its ten bits. *)
Lemma surrogate_cases u : is_u16 u ->
  (is_surrogate u = false /\ ~ (0xD800 <= u < 0xE000)) \/
  (exists h, 0 <= h < 1024 /\ u = 0xD800 + h /\ is_surrogate u = true /\ (Z.land u SURROGATE_LOW =? 0) = true /\ Z.land u SURROGATE_BITS = h) \/
  (exists h, 0 <= h < 1024 /\ u = 0xDC00 + h /\ is_surrogate u = true /\ (Z.land u SURROGATE_LOW =? 0) = false /\ Z.land u SURROGATE_BITS = h).
Proof.
  intros Hu. unfold is_u16 in Hu. rewrite surrogate_range by (unfold is_u32; lia).
  destruct (Z.leb_spec 0xD800 u), (Z.ltb_spec u 0xE000); cbn [andb]; [right|left; lia..]. rewrite surrogate_low by lia.
  destruct (Z.ltb_spec u 0xDC00); [left; exists (u - 0xD800)|right; exists (u - 0xDC00)].
  - repeat split; try lia. rewrite <- (surrogate_bits 54 (u - 0xD800)) by lia. f_equal. lia.
  - repeat split; try lia. rewrite <- (surrogate_bits 55 (u - 0xDC00)) by lia. f_equal. lia.
Qed.

Lemma utf16_pair_spec pwcs endian u i len : Forall is_u16 pwcs -> is_u16 u -> 0x7f < u -> 0 <= i -> 0 <= len -> i + len <= zlen pwcs ->
  exists x, utf16_pair pwcs endian u i len = Ok x /\
    match x with inl _ => True | inr (u', i', len') => is_char u' /\ i <= i' /\ 0 <= len' /\ i' + len' = i + len end.
Proof.
  intros H16 Hu Hlow Hi Hl Hin. unfold utf16_pair.
  destruct (surrogate_cases u Hu) as [[-> Hs]|[(h & Hh & Eu & -> & -> & ->)|(h & Hh & Eu & -> & -> & ->)]]; cbn [negb].
  - unfold is_u16 in Hu. eexists. split; [done|]. cbn. unfold is_char, valid_cp. lia.
  - destruct (Z.leb_spec len 0); [by eexists|]. rewrite (rd_at 0), bind_ok by lia. cbv zeta.
    assert (Hv : is_u16 (get_utf16 (at_ 0 pwcs i) endian)) by (apply get_utf16_range, Forall_at; [done|lia]).
    destruct (surrogate_cases _ Hv) as [[-> _]|[(h' & _ & _ & -> & -> & _)|(h' & Hh' & _ & -> & -> & ->)]]; cbn [negb orb]; [by eexists..|].
    eexists. split; [done|]. rewrite surrogate_shift by done. unfold PLANE_SIZE. rewrite u32_id by (unfold is_u32; lia). unfold is_char, valid_cp. lia.
  - by eexists.
Qed.

(** Writing one character of [utf8_text]. *)
Lemma put_char u out avail maxlen : is_char u -> 0 <= maxlen <= zlen avail ->
  utf32_to_utf8 u (Some (out ++ avail, zlen out)) maxlen =
  Ok (if zlen (encode u) <=? maxlen then (zlen (encode u), out ++ encode u ++ drop (length (encode u)) avail) else (-1, out ++ avail)).
Proof.
  intros [Hv _] Hm. destruct (Z.leb_spec (zlen (encode u)) maxlen).
  - rewrite <- (take_drop (length (encode u)) avail) at 1. apply utf32_to_utf8_ok; [done| |done]. unfold zlen in *. rewrite length_take. lia.
  - apply utf32_to_utf8_short; [done|lia].
Qed.

Lemma utf8_text_1 u : utf8_text [u] = encode u.
Proof. unfold utf8_text. cbn. apply app_nil_r. Qed.

Lemma encode_ascii u : 0 <= u <= 0x7f -> encode u = [u].
Proof. intros Hu. unfold encode. destruct (Z.leb_spec u 0x7F); [done|lia]. Qed.

(** What one turn may do: end, or consume units and append whole characters. *)
Definition turn16 (i len : Z) (out avail : list Z) (maxlen : Z) (r : res ((Z * Z * Z * Z * list Z) + (Z * list Z))) : Prop :=
  r = Ok (inr (zlen out, out ++ avail)) \/
  exists i' us, i < i' <= i + len /\ Forall is_char us /\ zlen (utf8_text us) <= maxlen /\
    r = Ok (inl (i', i + len - i', zlen (out ++ utf8_text us), maxlen - zlen (utf8_text us), out ++ utf8_text us ++ drop (length (utf8_text us)) avail)).

Lemma turn16_skip i len out avail maxlen i' len' : 0 <= maxlen -> i < i' -> 0 <= len' -> i' + len' = i + len ->
  turn16 i len out avail maxlen (Ok (inl (i', len', zlen out, maxlen, out ++ avail))).
Proof.
  intros Hm Hi' Hl' E. right. exists i', []. split; [lia|]. split; [constructor|]. change (utf8_text []) with (@nil Z). change (zlen (@nil Z)) with 0. split; [lia|].
  rewrite app_nil_r. cbn [app length drop]. do 2 f_equal. repeat f_equal; lia.
Qed.

Lemma turn16_put u i len out avail maxlen i' len' : is_char u -> zlen (encode u) <= maxlen -> i < i' -> 0 <= len' -> i' + len' = i + len ->
  turn16 i len out avail maxlen
    (Ok (inl (i', len', zlen out + zlen (encode u), maxlen - zlen (encode u), out ++ encode u ++ drop (length (encode u)) avail))).
Proof.
  intros Hu Hm Hi' Hl' E. right. exists i', [u]. split; [lia|]. split; [by apply Forall_singleton|]. rewrite utf8_text_1, zlen_app. split; [done|].
  do 2 f_equal. repeat f_equal; lia.
Qed.

Lemma utf16s_body_step pwcs endian i len out avail maxlen : Forall is_u16 pwcs -> 0 <= i -> 0 <= len -> i + len <= zlen pwcs -> 0 <= maxlen <= zlen avail ->
  turn16 i len out avail maxlen (utf16s_body pwcs endian (i, len, zlen out, maxlen, out ++ avail)).
Proof.
  intros H16 Hi Hl Hin Hm. cbn [utf16s_body]. destruct (Z.ltb_spec 0 len), (Z.ltb_spec 0 maxlen); cbn [andb]; [|by left..].
  rewrite (rd_at 0), bind_ok by lia. cbv zeta. set (u := get_utf16 (at_ 0 pwcs i) endian).
  assert (Hu : is_u16 u) by (apply get_utf16_range, Forall_at; [done|lia]). destruct (Z.eqb_spec u 0) as [|Hn0]; [by left|].
  destruct (Z.ltb_spec 0x7f u).
  - destruct (utf16_pair_spec pwcs endian u (i + 1) (len - 1)) as (x & -> & Hx); [done|done|lia..|]. rewrite bind_ok.
    destruct x as [[]|[[u' i'] len']]; [apply turn16_skip; lia|by left|]. destruct Hx as (Hc & Hx). rewrite put_char, bind_ok by (done || lia).
    pose proof (encode_len u'). destruct (Z.leb_spec (zlen (encode u')) maxlen); cbv iota beta; [|apply turn16_skip; lia].
    destruct (Z.eqb_spec (zlen (encode u')) (-1)); [lia|]. apply turn16_put; [done|lia..].
  - unfold is_u16 in Hu. destruct avail as [|a avail]; [unfold zlen in Hm; cbn [length] in Hm; lia|]. rewrite wr_mid, bind_ok, u8_id by (unfold is_u8; lia).
    pose proof (turn16_put u i len out (a :: avail) maxlen (i + 1) (len - 1)) as E. rewrite encode_ascii in E by lia. apply E; [|unfold zlen; cbn; lia..].
    unfold is_char, valid_cp. lia.
Qed.

Lemma utf16s_loop pwcs endian : Forall is_u16 pwcs -> forall n i len out avail maxlen, 0 <= i -> 0 <= len < Z.of_nat n -> i + len <= zlen pwcs -> 0 <= maxlen <= zlen avail ->
  exists us, Forall is_char us /\ zlen (utf8_text us) <= maxlen /\
    loop n (utf16s_body pwcs endian) (i, len, zlen out, maxlen, out ++ avail) =
    Ok (zlen (out ++ utf8_text us), out ++ utf8_text us ++ drop (length (utf8_text us)) avail).
Proof.
  intros H16. induction n as [|n IH]; intros i len out avail maxlen Hi Hl Hin Hm; [lia|]. cbn [loop].
  destruct (utf16s_body_step pwcs endian i len out avail maxlen) as [->|(i' & us & Hi' & Hus & Hl1 & ->)]; [done|lia..| |].
  - exists []. split; [constructor|]. change (utf8_text []) with (@nil Z). change (zlen (@nil Z)) with 0. split; [lia|]. now rewrite app_nil_r.
  - destruct (IH i' (i + len - i') (out ++ utf8_text us) (drop (length (utf8_text us)) avail) (maxlen - zlen (utf8_text us))) as (vs & Hvs & Hl2 & E); [lia..| |].
    + unfold zlen in *. rewrite length_drop. lia.
    + rewrite <- app_assoc in E. rewrite E. exists (us ++ vs). split; [by apply Forall_app|]. rewrite utf8_text_app, zlen_app, length_app, <- drop_drop, <- !app_assoc.
      split; [lia|]. done.
Qed.

(** A whole character is converted in one turn. *)
Lemma utf16s_body_char pwcs endian u pre post len out avail maxlen : pwcs = pre ++ (store16 endian <$> units u) ++ post -> is_char u ->
  zlen (units u) <= len -> zlen (encode u) <= maxlen <= zlen avail ->
  utf16s_body pwcs endian (zlen pre, len, zlen out, maxlen, out ++ avail) =
  Ok (inl (zlen pre + zlen (units u), len - zlen (units u), zlen (out ++ encode u), maxlen - zlen (encode u),
           out ++ encode u ++ drop (length (encode u)) avail)).
Proof.
  intros Hp Hc Hl Hm. pose proof (encode_len u) as He. destruct Hc as [Hv Hn0]. pose proof (put_char u out avail maxlen (conj Hv Hn0) ltac:(lia)) as Hput.
  destruct (Z.leb_spec (zlen (encode u)) maxlen); [|lia]. pose proof Hv as [Hu Hs]. cbn [utf16s_body]. unfold units in *. destruct (Z.ltb_spec u 0x10000).
  - change (zlen [u]) with 1 in *. cbn [fmap list_fmap app] in Hp. destruct (Z.ltb_spec 0 len); [|lia]. destruct (Z.ltb_spec 0 maxlen); [|lia]. cbn [andb].
    rewrite Hp, rd_mid, bind_ok, <- Hp, get_store16 by (unfold is_u16; lia). cbv zeta. destruct (Z.eqb_spec u 0); [done|]. destruct (Z.ltb_spec 0x7f u).
    + unfold utf16_pair. rewrite not_surrogate by (unfold is_u32; lia). rewrite !bind_ok, Hput, bind_ok.
      destruct (Z.eqb_spec (zlen (encode u)) (-1)); [lia|]. now rewrite zlen_app.
    + rewrite zlen_app, encode_ascii by lia. destruct avail; [unfold zlen in Hm at 2; cbn [length] in Hm; lia|]. rewrite wr_mid, bind_ok, u8_id by (unfold is_u8; lia). done.
  - set (v := u - 0x10000) in *. assert (Hv2 : 0 <= v / 1024 < 1024 /\ 0 <= v mod 1024 < 1024 /\ v = v / 1024 * 1024 + v mod 1024)
      by (subst v; Z.to_euclidean_division_equations; lia). destruct Hv2 as (Hh & Hlo & Ev). set (hi := 0xD800 + v / 1024) in *. set (lo := 0xDC00 + v mod 1024) in *.
    change (zlen [hi; lo]) with 2 in *. cbn [fmap list_fmap app] in Hp. destruct (Z.ltb_spec 0 len); [|lia]. destruct (Z.ltb_spec 0 maxlen); [|lia]. cbn [andb].
    assert (Hr2 : rd pwcs (zlen pre + 1) = Ok (store16 endian lo)).
    { replace (zlen pre + 1) with (zlen (pre ++ [store16 endian hi])) by (rewrite zlen_app; done). rewrite Hp.
      replace (pre ++ store16 endian hi :: store16 endian lo :: post) with ((pre ++ [store16 endian hi]) ++ store16 endian lo :: post) by now rewrite <- app_assoc. apply rd_mid. }
    rewrite Hp at 1. rewrite rd_mid, bind_ok, get_store16 by (unfold is_u16; lia). cbv zeta. destruct (Z.eqb_spec hi 0); [lia|]. destruct (Z.ltb_spec 0x7f hi); [|lia].
    unfold utf16_pair. rewrite surrogate_range, surrogate_low by (unfold is_u32; lia). destruct (Z.leb_spec 0xD800 hi); [|lia]. destruct (Z.ltb_spec hi 0xE000); [|lia].
    destruct (Z.ltb_spec hi 0xDC00); [|lia]. cbn [andb negb]. destruct (Z.leb_spec (len - 1) 0); [lia|]. rewrite Hr2, bind_ok, get_store16 by (unfold is_u16; lia).
    rewrite surrogate_range, surrogate_low by (unfold is_u32; lia). destruct (Z.leb_spec 0xD800 lo); [|lia]. destruct (Z.ltb_spec lo 0xE000); [|lia].
    destruct (Z.ltb_spec lo 0xDC00); [lia|]. cbn [andb negb orb]. rewrite bind_ok.
    replace hi with (54 * 1024 + v / 1024) by lia. replace lo with (55 * 1024 + v mod 1024) by lia. rewrite !surrogate_bits, surrogate_shift by lia.
    replace (u32 (PLANE_SIZE + v / 1024 * 1024 + v mod 1024)) with u by (unfold PLANE_SIZE; rewrite u32_id by (unfold is_u32; lia); lia).
    rewrite Hput, bind_ok. destruct (Z.eqb_spec (zlen (encode u)) (-1)); [lia|]. rewrite zlen_app. replace (zlen pre + 1 + 1) with (zlen pre + 2) by lia. now replace (len - 1 - 1) with (len - 2) by lia.
Qed.

Lemma utf16s_loop_text pwcs endian : forall us n pre post len out avail maxlen, pwcs = pre ++ (store16 endian <$> utf16_text us) ++ post ->
  Forall is_char us -> zlen (utf16_text us) <= len -> zlen (utf8_text us) <= maxlen <= zlen avail ->
  loop (length us + n) (utf16s_body pwcs endian) (zlen pre, len, zlen out, maxlen, out ++ avail) =
  loop n (utf16s_body pwcs endian) (zlen pre + zlen (utf16_text us), len - zlen (utf16_text us), zlen (out ++ utf8_text us), maxlen - zlen (utf8_text us),
    out ++ utf8_text us ++ drop (length (utf8_text us)) avail).
Proof.
  induction us as [|u us IH]; intros n pre post len out avail maxlen Hp Hus Hlen Hm.
  - change (utf8_text []) with (@nil Z). change (utf16_text []) with (@nil Z). change (zlen (@nil Z)) with 0. now rewrite !app_nil_r, !Z.sub_0_r, Z.add_0_r.
  - change (utf8_text (u :: us)) with (encode u ++ utf8_text us) in *. change (utf16_text (u :: us)) with (units u ++ utf16_text us) in *.
    rewrite fmap_app, <- app_assoc in Hp. inversion_clear Hus as [|?? Hu Hus']. cbn [length Nat.add loop].
    pose proof (zlen_nonneg (utf8_text us)). pose proof (zlen_nonneg (utf16_text us)). rewrite (zlen_app (encode u)), (zlen_app (units u)) in *.
    rewrite (utf16s_body_char pwcs endian u pre ((store16 endian <$> utf16_text us) ++ post)) by (done || lia).
    pose proof (IH n (pre ++ (store16 endian <$> units u)) post (len - zlen (units u)) (out ++ encode u) (drop (length (encode u)) avail) (maxlen - zlen (encode u))) as E.
    rewrite <- !app_assoc, (zlen_app pre), zlen_fmap in E. rewrite E; [|done|done|lia|unfold zlen in *; rewrite length_drop; lia].
    rewrite <- app_assoc, length_app, <- drop_drop, Z.add_assoc, !Z.sub_add_distr. done.
Qed.

Lemma utf16s_body_end pwcs endian i len op maxlen s : 0 <= i -> 0 <= len -> 0 <= maxlen -> i + len <= zlen pwcs ->
  len = 0 \/ maxlen = 0 \/ get_utf16 (at_ 0 pwcs i) endian = 0 -> utf16s_body pwcs endian (i, len, op, maxlen, s) = Ok (inr (op, s)).
Proof.
  intros Hi Hl Hm Hin He. cbn [utf16s_body]. destruct (Z.ltb_spec 0 len), (Z.ltb_spec 0 maxlen); cbn [andb]; try done. rewrite (rd_at 0), bind_ok by lia.
  destruct He as [?|[?| ->]]; [lia|lia|done].
Qed.

Lemma encode_bytes u : valid_cp u -> Forall is_u8 (encode u).
Proof.
  intros [Hu _]. unfold encode, is_u8. destruct (Z.leb_spec u 0x7F), (Z.leb_spec u 0x7FF), (Z.leb_spec u 0xFFFF).
  all: repeat apply Forall_cons_2; try apply Forall_nil_2; Z.to_euclidean_division_equations; lia.
Qed.

Lemma utf8_text_bytes us : Forall is_char us -> Forall is_u8 (utf8_text us).
Proof. induction 1 as [|u us [Hv _] _ IH]; [constructor|]. change (utf8_text (u :: us)) with (encode u ++ utf8_text us). apply Forall_app. split; [now apply encode_bytes|done]. Qed.

Lemma utf8s_text_ok us rest len old tail : Forall is_u8 rest -> Forall is_char us -> zlen (utf8_text us) <= len < zlen (utf8_text us ++ rest) ->
  ends rest (len - zlen (utf8_text us)) -> zlen old = zlen (utf16_text us) ->
  utf8s_to_utf16s (utf8_text us ++ rest) len (old ++ tail) = Ok (zlen (utf16_text us), utf16_text us ++ tail).
Proof.
  intros H8 Hus Hlen He Hold. destruct (utf8s_to_utf16s_text us rest len old tail) as [n ->]; [|done|lia|done|].
  { apply Forall_app. split; [now apply utf8_text_bytes|done]. }
  cbn [loop]. destruct rest as [|x rest]; [rewrite app_nil_r in Hlen; lia|].
  rewrite (utf8s_body_end _ (utf8_text us) x rest); [done|done|lia|]. destruct He as [|[r [= -> ->]]]; [right; lia|by left].
Qed.

Lemma utf8s_overread us old tail : Forall is_char us -> zlen old = zlen (utf16_text us) ->
  utf8s_to_utf16s (utf8_text us) (zlen (utf8_text us)) (old ++ tail) = Err OutOfBounds.
Proof.
  intros Hus Hold. destruct (utf8s_to_utf16s_text us [] (zlen (utf8_text us)) old tail) as [n E]; rewrite ?app_nil_r in *; [now apply utf8_text_bytes|done|lia|done|].
  rewrite E. cbn [loop utf8s_body]. rewrite rd_oob by lia. done.
Qed.

Lemma utf16s_text_ok us endian post len s maxlen : Forall is_u16 post -> Forall is_char us -> zlen (utf16_text us) <= len <= zlen (utf16_text us ++ post) ->
  zlen (utf8_text us) <= maxlen <= zlen s -> ends post (len - zlen (utf16_text us)) ->
  utf16s_to_utf8s ((store16 endian <$> utf16_text us) ++ post) len endian s maxlen = Ok (zlen (utf8_text us), utf8_text us ++ drop (length (utf8_text us)) s).
Proof.
  intros H16 Hus Hlen Hm He. unfold utf16s_to_utf8s. set (pwcs := (store16 endian <$> utf16_text us) ++ post).
  pose proof (text_lengths us Hus) as [_ Ht]. assert (Hz : zlen pwcs = zlen (utf16_text us ++ post)) by (unfold pwcs; now rewrite !zlen_app, zlen_fmap).
  rewrite zlen_app in *. unfold zlen in Hz at 1, Ht at 1.
  replace (S (length pwcs)) with (length us + S (length pwcs - length us))%nat by (pose proof (zlen_nonneg post); lia).
  pose proof (utf16s_loop_text pwcs endian us (S (length pwcs - length us)) [] post len [] s maxlen eq_refl Hus ltac:(lia) Hm) as E.
  change (zlen (@nil Z)) with 0 in E. cbn [app] in E. rewrite E. cbn [loop]. pose proof (zlen_nonneg (utf16_text us)).
  rewrite utf16s_body_end; [done|lia..|unfold zlen in *; lia|]. destruct He as [|[r ->]]; [by left|]. right. right. unfold pwcs.
  replace (0 + zlen (utf16_text us)) with (zlen (store16 endian <$> utf16_text us)) by (rewrite zlen_fmap; lia). rewrite (rd_mid_at _ _ 0 r eq_refl). now destruct endian.
Qed.

(** [utf8s_to_utf16s] splits its input into whole characters and ends at a NUL
    byte or after [len] bytes with exactly their UTF-16 units stored, or at the
    first bytes that are no character with -EINVAL; it never faults when a byte can
    be read behind the [len] bytes, but does read that byte.  [utf16s_to_utf8s]
    never faults and stores at most [maxlen] bytes, which are well-formed UTF-8
    whatever the units are (lone surrogates and characters that do not fit are
    left out).  On a text both give exactly the other form of it, in either byte
    order. *)
Lemma utf16_strings_facts :
  (forall s len pwcs, Forall is_u8 s -> 0 <= len < zlen s -> len <= zlen pwcs ->
     exists us rest, utf8s_result s len us rest [] pwcs (utf8s_to_utf16s s len pwcs)) /\
  (forall us old tail, Forall is_char us -> zlen old = zlen (utf16_text us) ->
     utf8s_to_utf16s (utf8_text us) (zlen (utf8_text us)) (old ++ tail) = Err OutOfBounds) /\
  (forall pwcs len endian s maxlen, Forall is_u16 pwcs -> 0 <= len <= zlen pwcs -> 0 <= maxlen <= zlen s ->
     exists us, Forall is_char us /\ zlen (utf8_text us) <= maxlen /\
       utf16s_to_utf8s pwcs len endian s maxlen = Ok (zlen (utf8_text us), utf8_text us ++ drop (length (utf8_text us)) s)) /\
  (forall us rest len old tail, Forall is_u8 rest -> Forall is_char us -> zlen (utf8_text us) <= len < zlen (utf8_text us ++ rest) ->
     ends rest (len - zlen (utf8_text us)) -> zlen old = zlen (utf16_text us) ->
     utf8s_to_utf16s (utf8_text us ++ rest) len (old ++ tail) = Ok (zlen (utf16_text us), utf16_text us ++ tail)) /\
  (forall us endian post len s maxlen, Forall is_u16 post -> Forall is_char us -> zlen (utf16_text us) <= len <= zlen (utf16_text us ++ post) ->
     zlen (utf8_text us) <= maxlen <= zlen s -> ends post (len - zlen (utf16_text us)) ->
     utf16s_to_utf8s ((store16 endian <$> utf16_text us) ++ post) len endian s maxlen = Ok (zlen (utf8_text us), utf8_text us ++ drop (length (utf8_text us)) s)).
Proof.
  split; [|split; [exact utf8s_overread|split; [|split; [exact utf8s_text_ok|exact utf16s_text_ok]]]].
  - intros s len pwcs H8 Hlen Hp. exact (utf8s_loop s H8 (length s) [] s len [] pwcs ltac:(lia) eq_refl Hlen Hp).
  - intros pwcs len endian s maxlen H16 Hl Hm. exact (utf16s_loop pwcs endian H16 (S (length pwcs)) 0 len [] s maxlen ltac:(lia) ltac:(unfold zlen in *; lia) ltac:(lia) Hm).
Qed.

(** "a" and U+1F600, in both directions; then the string without its NUL. *)


