(* ===== verification/Kfifo.v ===== *)
(** kernel/kfifo.c and include/linux/kfifo.h: a byte queue on a ring buffer
    whose indices run freely and wrap at 2^32.  The queue is shown to refine a
    bounded list, sequentially and for one reader and one writer that run
    concurrently without a lock. *)
From stdpp Require Import relations.
From S2P Require Import Prelude.
From S2P Require Import Bits.
From S2P Require Import Ring.

Record kfifo := Kfifo { buffer : list Z; size : Z; in_ : Z; out : Z }.

Definition is_power_of_2 (n : Z) : bool := negb (n =? 0) && (Z.land n (u32 (n - 1)) =? 0).
Definition roundup_pow_of_two (n : Z) : Z := shl32 1 (fls (u32 (n - 1))).

(** [kmalloc] may fail: [alloc] tells whether the descriptor is available;
    [None] is [ERR_PTR(-ENOMEM)]. *)
Definition kfifo_init (buffer : list Z) (size : Z) (alloc : bool) : res (option kfifo) :=
  if negb (is_power_of_2 size) then Err BugOn else
  if negb alloc then Ok None else Ok (Some (Kfifo buffer size 0 0)).

Definition kfifo_alloc (size : Z) (kmalloc : Z -> option (list Z)) (alloc : bool) : res (option kfifo) :=
  size ← (if negb (is_power_of_2 size)
          then if 0x80000000 <? size then Err BugOn else Ok (roundup_pow_of_two size)
          else Ok size);
  match kmalloc size with
  | None => Ok None
  | Some buffer => kfifo_init buffer size alloc
  end.

(** [__kfifo_put] in its three parts: sample the free space, copy, publish. *)
Definition put_len (f : kfifo) (len : Z) : Z := Z.min len (u32 (u32 (size f - in_ f) + out f)).
Definition put_copy (f : kfifo) (src : list Z) (len : Z) : res (list Z) :=
  ring_copy_in (buffer f) (size f) (Z.land (in_ f) (size f - 1)) src len.
Definition put_publish (f : kfifo) (len : Z) : kfifo :=
  Kfifo (buffer f) (size f) (u32 (in_ f + len)) (out f).
Definition set_buffer (f : kfifo) (b : list Z) : kfifo := Kfifo b (size f) (in_ f) (out f).

Definition __kfifo_put (f : kfifo) (src : list Z) (len : Z) : res (kfifo * Z) :=
  let len := put_len f len in
  b ← put_copy f src len;
  Ok (put_publish (set_buffer f b) len, len).

(** [__kfifo_get]: sample the fill, copy out, publish. *)
Definition get_len (f : kfifo) (len : Z) : Z := Z.min len (u32 (in_ f - out f)).
Definition get_copy (f : kfifo) (dst : list Z) (len : Z) : res (list Z) :=
  ring_copy_out dst (buffer f) (size f) (Z.land (out f) (size f - 1)) len.
Definition get_publish (f : kfifo) (len : Z) : kfifo :=
  Kfifo (buffer f) (size f) (in_ f) (u32 (out f + len)).

Definition __kfifo_get (f : kfifo) (dst : list Z) (len : Z) : res (kfifo * list Z * Z) :=
  let len := get_len f len in
  d ← get_copy f dst len;
  Ok (get_publish f len, d, len).

Definition __kfifo_reset (f : kfifo) : kfifo := Kfifo (buffer f) (size f) 0 0.
Definition __kfifo_len (f : kfifo) : Z := u32 (in_ f - out f).

(** The locked versions; the lock makes each a single step. *)
Definition kfifo_put := __kfifo_put.
Definition kfifo_get (f : kfifo) (dst : list Z) (len : Z) : res (kfifo * list Z * Z) :=
  '(f, d, n) ← __kfifo_get f dst len;
  Ok (if in_ f =? out f then __kfifo_reset f else f, d, n).
Definition kfifo_reset := __kfifo_reset.
Definition kfifo_len := __kfifo_len.

(** * Invariant and contents *)

Definition fifo_ok (f : kfifo) : Prop :=
  (exists k, 0 <= k <= 31 /\ size f = 2 ^ k) /\ zlen (buffer f) = size f /\
  is_u32 (in_ f) /\ is_u32 (out f) /\ kfifo_len f <= size f.

Definition contents (f : kfifo) : list Z := ring_bytes (buffer f) (out f) (kfifo_len f).

Lemma is_power_of_2_pow k : 0 <= k <= 31 -> is_power_of_2 (2 ^ k) = true.
Proof.
  intros Hk. unfold is_power_of_2. destruct (Z.eqb_spec (2 ^ k) 0); [lia|]. cbn [negb andb].
  assert (2 ^ k < 2 ^ 32) by (apply Z.pow_lt_mono_r; lia).
  rewrite u32_id by (unfold is_u32; lia). rewrite land_mask by lia. now rewrite Z_mod_same_full.
Qed.

(** The length counts from [out] to [in_] in the ring of 32-bit indices. *)
Lemma fifo_len_cases f : fifo_ok f -> exists m, 0 <= kfifo_len f < 2 ^ 32 /\
  kfifo_len f = in_ f - out f + m * 2 ^ 32.
Proof.
  intros _. destruct (u32_cases (in_ f - out f)) as [k E]. exists (- k).
  unfold kfifo_len, __kfifo_len. split; [apply u32_range|lia].
Qed.

Lemma put_len_ok f len : fifo_ok f -> 0 <= len -> put_len f len = Z.min len (size f - kfifo_len f).
Proof.
  intros Hf Hl. unfold put_len. f_equal. destruct (fifo_len_cases f Hf) as (m & Hr & E).
  destruct Hf as ((k & Hk & Hs) & _ & _ & _ & Hle).
  assert (2 ^ k < 2 ^ 32) by (apply Z.pow_lt_mono_r; lia).
  destruct (u32_cases (size f - in_ f)) as [j ->].
  rewrite <- (u32_id (size f - kfifo_len f)) by (unfold is_u32; lia).
  apply u32_eqm with (m - j). lia.
Qed.

Lemma u32_add_len x y n : 0 <= n -> u32 (x - y) + n < 2 ^ 32 -> u32 (u32 (x + n) - y) = u32 (x - y) + n.
Proof.
  intros Hn H. destruct (u32_cases (x + n)) as [k ->]. destruct (u32_cases (x - y)) as [m E].
  assert (0 <= u32 (x - y)) by apply u32_range.
  rewrite <- (u32_id (u32 (x - y) + n)) by (unfold is_u32; lia). apply u32_eqm with (m - k). lia.
Qed.

Lemma u32_sub_len x y n : 0 <= n <= u32 (x - y) -> u32 (x - u32 (y + n)) = u32 (x - y) - n.
Proof.
  intros Hn. destruct (u32_cases (y + n)) as [k ->]. destruct (u32_cases (x - y)) as [m E].
  assert (is_u32 (u32 (x - y))) as Hr by apply u32_range. unfold is_u32 in Hr.
  rewrite <- (u32_id (u32 (x - y) - n)) by (unfold is_u32; lia). apply u32_eqm with (k + m). lia.
Qed.

(** What a finished copy into the ring guarantees. *)
Lemma put_copy_ok f src len : fifo_ok f -> 0 <= len <= size f - kfifo_len f -> len <= zlen src ->
  exists b, put_copy f src len = Ok b /\ zlen b = size f /\
    ring_bytes b (in_ f) len = take (Z.to_nat len) src /\
    forall n, 0 <= n <= kfifo_len f -> ring_bytes b (out f) n = ring_bytes (buffer f) (out f) n.
Proof.
  intros Hf Hl Hs. destruct (fifo_len_cases f Hf) as (m & Hr & E).
  pose proof Hf as ((k & Hk & Hsz) & Hb & Hi & Ho & Hle). unfold put_copy.
  rewrite Hsz, land_mask, <- Hsz, <- Hb by lia. assert (Hpos : 0 < zlen (buffer f)) by lia.
  assert (Hm := Z.mod_pos_bound (in_ f) (zlen (buffer f)) Hpos).
  destruct (ring_copy_in_ok (buffer f) (in_ f mod zlen (buffer f)) src len) as (b & -> & Hzb & Hat); try lia.
  exists b. split; [done|]. split; [lia|]. split.
  - rewrite <- (ring_bytes_mod b) by lia. rewrite Hzb.
    apply (ring_in_written (buffer f)); auto; lia.
  - intros n Hn. apply (ring_in_kept (buffer f) b (in_ f mod zlen (buffer f)) src len); auto; try lia.
    assert (Hd := Z.div_mod (in_ f) (zlen (buffer f)) ltac:(lia)).
    assert (Hp : 2 ^ 32 = 2 ^ (32 - k) * zlen (buffer f)).
    { rewrite Hb, Hsz, <- Z.pow_add_r by lia. f_equal. lia. }
    exists (1 - in_ f / zlen (buffer f) - m * 2 ^ (32 - k)).
    replace ((1 - in_ f / zlen (buffer f) - m * 2 ^ (32 - k)) * zlen (buffer f))
      with (zlen (buffer f) - zlen (buffer f) * (in_ f / zlen (buffer f)) - m * 2 ^ 32) by (rewrite Hp; ring).
    lia.
Qed.

Lemma get_copy_ok f dst len : fifo_ok f -> 0 <= len <= kfifo_len f -> len <= zlen dst ->
  get_copy f dst len = Ok (ring_bytes (buffer f) (out f) len ++ drop (Z.to_nat len) dst).
Proof.
  intros ((k & Hk & Hsz) & Hb & Hi & Ho & Hle) Hl Hs. unfold get_copy.
  rewrite Hsz, land_mask, <- Hsz, <- Hb by lia.
  assert (Hm := Z.mod_pos_bound (out f) (zlen (buffer f)) ltac:(lia)).
  rewrite ring_copy_out_ok by lia. now rewrite ring_bytes_mod by lia.
Qed.

Lemma set_buffer_ok f b : fifo_ok f -> zlen b = size f -> fifo_ok (set_buffer f b).
Proof. intros (? & ? & ? & ? & ?) Hb. repeat split; auto; apply H1 || apply H2. Qed.

Lemma put_publish_ok f len : fifo_ok f -> 0 <= len <= size f - kfifo_len f ->
  fifo_ok (put_publish f len) /\ kfifo_len (put_publish f len) = kfifo_len f + len /\
  contents (put_publish f len) = contents f ++ ring_bytes (buffer f) (in_ f) len.
Proof.
  intros Hf Hl. destruct (fifo_len_cases f Hf) as (m & Hr & E).
  pose proof Hf as ((k & Hk & Hsz) & Hb & Hi & Ho & Hle).
  assert (2 ^ k < 2 ^ 32) by (apply Z.pow_lt_mono_r; lia).
  assert (El : kfifo_len (put_publish f len) = kfifo_len f + len) 
    by (apply (u32_add_len (in_ f) (out f)); [lia|]; change (u32 (in_ f - out f)) with (kfifo_len f); lia).
  split; [|split; [exact El|]].
  - split; [exists k; auto|]. split; [done|]. split; [apply u32_range|]. split; [done|]. rewrite El. cbn. lia.
  - unfold contents. rewrite El. cbn [buffer put_publish out]. rewrite ring_bytes_app by lia. f_equal.
    apply ring_bytes_congr; [lia|lia|]. rewrite Hb, Hsz, <- (u32_mod_pow2 (out f + kfifo_len f)) by lia.
    rewrite <- (u32_mod_pow2 (in_ f)) by lia. f_equal. apply u32_eqm with m. lia.
Qed.

Lemma get_publish_ok f len : fifo_ok f -> 0 <= len <= kfifo_len f ->
  fifo_ok (get_publish f len) /\ kfifo_len (get_publish f len) = kfifo_len f - len /\
  contents (get_publish f len) = drop (Z.to_nat len) (contents f).
Proof.
  intros Hf Hl. destruct (fifo_len_cases f Hf) as (m & Hr & E).
  pose proof Hf as ((k & Hk & Hsz) & Hb & Hi & Ho & Hle).
  assert (El : kfifo_len (get_publish f len) = kfifo_len f - len) 
    by (apply (u32_sub_len (in_ f) (out f)); exact Hl).
  split; [|split; [exact El|]].
  - split; [exists k; auto|]. split; [done|]. split; [done|]. split; [apply u32_range|]. rewrite El. cbn. lia.
  - unfold contents. rewrite El. cbn [buffer get_publish out]. rewrite drop_ring_bytes by lia.
    apply ring_bytes_congr; [lia|lia|]. rewrite Hb, Hsz. now rewrite u32_mod_pow2 by lia.
Qed.

(** * Refinement of a bounded queue *)

Inductive fifo_op := OpPut (bs : list Z) | OpGet (n : Z) | OpLen | OpReset.
Inductive fifo_out := OutCount (n : Z) | OutBytes (bs : list Z) | OutNone.

(** A client call: the byte count of [kfifo_put] is the length of its buffer,
    [kfifo_get] fills a zeroed buffer of the requested length. *)
Definition fifo_exec (f : kfifo) (op : fifo_op) : res (kfifo * fifo_out) :=
  match op with
  | OpPut bs => '(f, n) ← kfifo_put f bs (zlen bs); Ok (f, OutCount n)
  | OpGet n => '(f, d, c) ← kfifo_get f (replicate (Z.to_nat n) 0) n; Ok (f, OutBytes (take (Z.to_nat c) d))
  | OpLen => Ok (f, OutCount (kfifo_len f))
  | OpReset => Ok (kfifo_reset f, OutNone)
  end.

Fixpoint fifo_run (f : kfifo) (ops : list fifo_op) : res (kfifo * list fifo_out) :=
  match ops with
  | [] => Ok (f, [])
  | op :: ops =>
      '(f, o) ← fifo_exec f op;
      '(f, os) ← fifo_run f ops;
      Ok (f, o :: os)
  end.

(** The specification: a list that never holds more than [cap] bytes. *)
Definition queue_exec (cap : Z) (q : list Z) (op : fifo_op) : list Z * fifo_out :=
  match op with
  | OpPut bs => let n := Z.min (zlen bs) (cap - zlen q) in (q ++ take (Z.to_nat n) bs, OutCount n)
  | OpGet n => let c := Z.min n (zlen q) in (drop (Z.to_nat c) q, OutBytes (take (Z.to_nat c) q))
  | OpLen => (q, OutCount (zlen q))
  | OpReset => ([], OutNone)
  end.

Fixpoint queue_run (cap : Z) (q : list Z) (ops : list fifo_op) : list Z * list fifo_out :=
  match ops with
  | [] => (q, [])
  | op :: ops =>
      let '(q, o) := queue_exec cap q op in
      let '(q, os) := queue_run cap q ops in (q, o :: os)
  end.

Definition op_ok (op : fifo_op) : Prop :=
  match op with OpPut bs => zlen bs < 2 ^ 32 | OpGet n => is_u32 n | _ => True end.

Lemma zlen_contents f : fifo_ok f -> zlen (contents f) = kfifo_len f.
Proof. intros Hf. destruct (fifo_len_cases f Hf) as (m & Hr & _). apply zlen_ring_bytes. lia. Qed.

Lemma kfifo_put_ok f src len : fifo_ok f -> 0 <= len <= zlen src ->
  exists f', kfifo_put f src len = Ok (f', Z.min len (size f - kfifo_len f)) /\ fifo_ok f' /\
    size f' = size f /\
    contents f' = contents f ++ take (Z.to_nat (Z.min len (size f - kfifo_len f))) src.
Proof.
  intros Hf Hl. pose proof Hf as (_ & _ & _ & _ & Hle). destruct (fifo_len_cases f Hf) as (m & Hr & _).
  unfold kfifo_put, __kfifo_put. rewrite put_len_ok by (done || lia).
  set (n := Z.min len (size f - kfifo_len f)). cbv zeta.
  destruct (put_copy_ok f src n) as (b & -> & Hb & Hw & Hkeep); [done|lia|lia|]. cbn [mbind res_bind].
  destruct (put_publish_ok (set_buffer f b) n) as (Hok & _ & Hc); [now apply set_buffer_ok|change (kfifo_len (set_buffer f b)) with (kfifo_len f); cbn; lia|].
  eexists. split; [reflexivity|]. split; [exact Hok|]. split; [done|]. rewrite Hc. f_equal; [|exact Hw].
  apply (Hkeep (kfifo_len f)). lia.
Qed.

Lemma reset_ok f : fifo_ok f -> fifo_ok (__kfifo_reset f) /\ contents (__kfifo_reset f) = [].
Proof.
  intros ((k & Hk & Hs) & Hb & _). split; [|reflexivity]. split; [now exists k|]. split; [done|].
  split; [unfold is_u32; cbn; lia|]. split; [unfold is_u32; cbn; lia|].
  change (kfifo_len (__kfifo_reset f)) with 0. cbn. lia.
Qed.

Lemma kfifo_get_ok f dst len : fifo_ok f -> 0 <= len <= zlen dst ->
  let n := Z.min len (kfifo_len f) in
  exists f', kfifo_get f dst len = Ok (f', take (Z.to_nat n) (contents f) ++ drop (Z.to_nat n) dst, n) /\
    fifo_ok f' /\ size f' = size f /\ contents f' = drop (Z.to_nat n) (contents f).
Proof.
  intros Hf Hl n. destruct (fifo_len_cases f Hf) as (m & Hr & _).
  unfold kfifo_get, __kfifo_get. change (get_len f len) with n. cbv zeta.
  rewrite get_copy_ok by (done || lia). cbn [mbind res_bind].
  destruct (get_publish_ok f n) as (Hok & Hlen & Hc); [done|lia|].
  rewrite <- (take_ring_bytes _ _ n (kfifo_len f)) by lia.
  eexists. split; [reflexivity|]. destruct (Z.eqb_spec (in_ (get_publish f n)) (out (get_publish f n))) as [E|_]; [|done].
  assert (Ez : kfifo_len (get_publish f n) = 0) by (unfold kfifo_len, __kfifo_len; rewrite E, Z.sub_diag; reflexivity).
  rewrite <- Hc. destruct (reset_ok _ Hok) as [Hr1 ->]. split; [done|]. split; [done|].
  unfold contents. rewrite Ez. reflexivity.
Qed.

Lemma fifo_exec_ok f op : fifo_ok f -> op_ok op ->
  exists f' o, fifo_exec f op = Ok (f', o) /\ fifo_ok f' /\ size f' = size f /\
    queue_exec (size f) (contents f) op = (contents f', o).
Proof.
  intros Hf Hop. unfold fifo_exec, queue_exec. rewrite !zlen_contents by done. destruct op as [bs|n| |]; cbn [op_ok] in Hop.
  - pose proof (zlen_nonneg bs). destruct (kfifo_put_ok f bs (zlen bs)) as (f' & -> & Hok & Hs & Hc); [done|lia|].
    cbn [mbind res_bind]. do 2 eexists. split; [reflexivity|]. split; [done|]. split; [done|]. now rewrite Hc.
  - unfold is_u32 in Hop. assert (Hz : zlen (replicate (Z.to_nat n) 0) = n) by (unfold zlen; rewrite length_replicate; lia).
    destruct (kfifo_get_ok f (replicate (Z.to_nat n) 0) n) as (f' & -> & Hok & Hs & Hc); [done|lia|].
    cbn [mbind res_bind]. do 2 eexists. split; [reflexivity|]. split; [done|]. split; [done|]. rewrite Hc.
    f_equal. f_equal. rewrite take_app_length'; [done|].
    destruct (fifo_len_cases f Hf) as (m & Hr & _).
    pose proof (zlen_contents f Hf). unfold zlen in *. rewrite length_take. lia.
  - do 2 eexists. split; [reflexivity|]. done.
  - do 2 eexists. split; [reflexivity|]. destruct (reset_ok f Hf) as [Hr1 Hr2].
    split; [done|]. split; [done|]. unfold kfifo_reset. now rewrite Hr2.
Qed.

Lemma fifo_run_ok f ops : fifo_ok f -> Forall op_ok ops ->
  exists f', fifo_run f ops = Ok (f', snd (queue_run (size f) (contents f) ops)) /\ fifo_ok f' /\
    contents f' = fst (queue_run (size f) (contents f) ops).
Proof.
  intros Hf Hops. revert f Hf. induction Hops as [|op ops Hop _ IH]; intros f Hf; cbn [fifo_run queue_run].
  - exists f. done.
  - destruct (fifo_exec_ok f op Hf Hop) as (f1 & o & -> & Hf1 & Hs & Hq). rewrite Hq. cbn [mbind res_bind].
    destruct (IH f1 Hf1) as (f2 & E & Hf2 & Hc). rewrite Hs in E, Hc. rewrite E. cbn [mbind res_bind].
    destruct (queue_run (size f) (contents f1) ops) as [q os] eqn:Eq. exists f2. done.
Qed.

Lemma log2_up_bound n : 1 < n -> 2 ^ (Z.log2 (n - 1) + 1) < 2 * n /\ n <= 2 ^ (Z.log2 (n - 1) + 1).
Proof.
  intros Hn. destruct (Z.log2_spec (n - 1) ltac:(lia)) as [H1 H2].
  rewrite Z.pow_succ_r in H2 by apply Z.log2_nonneg. rewrite Z.pow_add_r by (try lia; apply Z.log2_nonneg). lia.
Qed.

Lemma kfifo_alloc_ok n kmalloc f :
  0 < n <= 2 ^ 31 -> (forall s b, 0 <= s -> kmalloc s = Some b -> zlen b = s) ->
  kfifo_alloc n kmalloc true = Ok (Some f) ->
  fifo_ok f /\ contents f = [] /\ n <= size f < 2 * n.
Proof.
  intros Hn Hk. unfold kfifo_alloc.
  assert (Hsize : exists k, 0 <= k <= 31 /\ n <= 2 ^ k < 2 * n /\
    (if negb (is_power_of_2 n) then if 0x80000000 <? n then Err BugOn else Ok (roundup_pow_of_two n) else Ok n) = Ok (2 ^ k)).
  { destruct (is_power_of_2 n) eqn:Ep; cbn [negb].
    - unfold is_power_of_2 in Ep. apply andb_prop in Ep as [_ E]. apply Z.eqb_eq in E.
      rewrite u32_id in E by (unfold is_u32; lia). exists (Z.log2 n).
      destruct (Z.log2_spec n ltac:(lia)) as [H1 H2]. pose proof (Z.log2_nonneg n).
      assert (Z.log2 n < 32) by (apply Z.log2_lt_pow2; lia).
      assert (En : n = 2 ^ Z.log2 n).
      { destruct (Z.eq_dec n (2 ^ Z.log2 n)) as [|Hne]; [done|]. exfalso.
        assert (Hb : Z.testbit (Z.land n (n - 1)) (Z.log2 n) = true).
        { rewrite Z.land_spec, Z.bit_log2 by lia. cbn [andb].
          replace (Z.log2 n) with (Z.log2 (n - 1)) by (apply Z.log2_unique; lia). apply Z.bit_log2. lia. }
        rewrite E, Z.testbit_0_l in Hb. done. }
      split; [lia|]. split; [lia|]. now rewrite <- En.
    - destruct (Z.ltb_spec 0x80000000 n); [lia|]. assert (n <> 1) by (intros ->; done).
      destruct (log2_up_bound n ltac:(lia)) as [H1 H2]. pose proof (Z.log2_nonneg (n - 1)).
      assert (Z.log2 (n - 1) < 31) by (apply Z.log2_lt_pow2; lia).
      exists (Z.log2 (n - 1) + 1). split; [lia|]. split; [lia|]. unfold roundup_pow_of_two.
      rewrite u32_id, fls_spec by (unfold is_u32; lia). destruct (Z.eqb_spec (n - 1) 0); [lia|].
      unfold shl32. rewrite Z.shiftl_1_l, u32_id; [done|]. unfold is_u32.
      assert (2 ^ (Z.log2 (n - 1) + 1) < 2 ^ 32) by (apply Z.pow_lt_mono_r; lia). lia. }
  destruct Hsize as (k & Hkr & Hn2 & ->). cbn [mbind res_bind].
  destruct (kmalloc (2 ^ k)) as [b|] eqn:Eb; [|done]. unfold kfifo_init.
  rewrite is_power_of_2_pow by done. cbn [negb]. intros [= <-].
  split; [|split; [done|cbn [size]; lia]].
  split; [now exists k|]. split; [cbn [buffer size]; apply Hk; [lia|done]|].
  split; [unfold is_u32; cbn; lia|]. split; [unfold is_u32; cbn; lia|].
  change (kfifo_len _) with 0. cbn [size]. lia.
Qed.

(** C8: a fifo obtained from [kfifo_alloc] has a power-of-two capacity of at
    least the requested size and starts empty, and every sequence of
    [kfifo_put], [kfifo_get], [kfifo_len] and [kfifo_reset] on it returns
    exactly what a bounded list of that capacity returns, across the
    wrap-around of the buffer and of the 32-bit indices, without touching
    memory outside the buffers. *)
Theorem kfifo_refines_queue n kmalloc f ops :
  0 < n <= 2 ^ 31 -> (forall s b, 0 <= s -> kmalloc s = Some b -> zlen b = s) ->
  kfifo_alloc n kmalloc true = Ok (Some f) -> Forall op_ok ops ->
  n <= size f < 2 * n /\
  exists f', fifo_run f ops = Ok (f', snd (queue_run (size f) [] ops)) /\
    fifo_ok f' /\ contents f' = fst (queue_run (size f) [] ops).
Proof.
  intros Hn Hk Ha Hops. destruct (kfifo_alloc_ok n kmalloc f Hn Hk Ha) as (Hf & Hc & Hs).
  split; [done|]. destruct (fifo_run_ok f ops Hf Hops) as (f' & H). rewrite Hc in H. now exists f'.
Qed.

Definition zero_kmalloc (s : Z) : option (list Z) := if s <=? 64 then Some (replicate (Z.to_nat s) 0) else None.

Lemma kfifo_refines_queue_witness : exists f,
  kfifo_alloc 3 zero_kmalloc true = Ok (Some f) /\
  exists f', fifo_run f [OpPut [1; 2; 3; 4; 5]; OpGet 2; OpPut [6; 7]; OpGet 9] =
    Ok (f', [OutCount 4; OutBytes [1; 2]; OutCount 2; OutBytes [3; 4; 6; 7]]).
Proof.
  eexists. split; [reflexivity|].
  destruct (kfifo_refines_queue 3 zero_kmalloc (Kfifo [0; 0; 0; 0] 4 0 0)
    [OpPut [1; 2; 3; 4; 5]; OpGet 2; OpPut [6; 7]; OpGet 9]) as (_ & f' & H & _).
  - lia.
  - intros s b Hs. unfold zero_kmalloc, zlen. destruct (s <=? 64); [|done]. intros [= <-]. rewrite length_replicate. lia.
  - reflexivity.
  - repeat constructor; unfold is_u32; lia.
  - exists f'. exact H.
Defined.

(** * One reader and one writer without a lock

    The writer runs the three parts of [__kfifo_put] and the reader those of
    [__kfifo_get], interleaved in any order; the barriers of the source keep
    the parts of each in program order.  The ghost lists collect what has been
    published by either side. *)

Inductive writer := WIdle | WSampled (src : list Z) (n : Z) | WCopied (src : list Z) (n : Z).
Inductive reader := RIdle | RSampled (dst : list Z) (n : Z) | RCopied (dst : list Z) (n : Z).

Record cstate := CState { fifo : kfifo; wr_ : writer; rd_ : reader; written : list Z; consumed : list Z }.

Inductive cstep : cstate -> cstate -> Prop :=
| w_sample f r w c src len : 0 <= len <= zlen src ->
    cstep (CState f WIdle r w c) (CState f (WSampled src (put_len f len)) r w c)
| w_copy f r w c src n b : put_copy f src n = Ok b ->
    cstep (CState f (WSampled src n) r w c) (CState (set_buffer f b) (WCopied src n) r w c)
| w_publish f r w c src n :
    cstep (CState f (WCopied src n) r w c) (CState (put_publish f n) WIdle r (w ++ take (Z.to_nat n) src) c)
| r_sample f p w c dst len : 0 <= len <= zlen dst ->
    cstep (CState f p RIdle w c) (CState f p (RSampled dst (get_len f len)) w c)
| r_copy f p w c dst n d : get_copy f dst n = Ok d ->
    cstep (CState f p (RSampled dst n) w c) (CState f p (RCopied d n) w c)
| r_publish f p w c d n :
    cstep (CState f p (RCopied d n) w c) (CState (get_publish f n) p RIdle w (c ++ take (Z.to_nat n) d)).

Definition writer_ok (f : kfifo) (p : writer) : Prop :=
  match p with
  | WIdle => True
  | WSampled src n => 0 <= n <= size f - kfifo_len f /\ n <= zlen src
  | WCopied src n => 0 <= n <= size f - kfifo_len f /\ ring_bytes (buffer f) (in_ f) n = take (Z.to_nat n) src
  end.

Definition reader_ok (f : kfifo) (r : reader) : Prop :=
  match r with
  | RIdle => True
  | RSampled dst n => 0 <= n <= kfifo_len f /\ n <= zlen dst
  | RCopied d n => 0 <= n <= kfifo_len f /\ take (Z.to_nat n) d = ring_bytes (buffer f) (out f) n
  end.

Definition cinv (s : cstate) : Prop :=
  fifo_ok (fifo s) /\ written s = consumed s ++ contents (fifo s) /\
  writer_ok (fifo s) (wr_ s) /\ reader_ok (fifo s) (rd_ s).

Lemma reader_ok_mono f f' r : reader_ok f r -> kfifo_len f <= kfifo_len f' -> out f' = out f ->
  (forall n, 0 <= n <= kfifo_len f -> ring_bytes (buffer f') (out f) n = ring_bytes (buffer f) (out f) n) ->
  reader_ok f' r.
Proof.
  intros Hr Hl Ho Hb. destruct r as [|dst n|d n]; cbn [reader_ok] in *; [done|lia|].
  destruct Hr as [Hn E]. split; [lia|]. rewrite Ho, Hb by lia. done.
Qed.

Lemma writer_ok_mono f f' p : writer_ok f p -> kfifo_len f' <= kfifo_len f -> in_ f' = in_ f ->
  size f' = size f -> buffer f' = buffer f -> writer_ok f' p.
Proof.
  intros Hw Hl Hi Hs Hb. destruct p; cbn [writer_ok] in *; rewrite ?Hs, ?Hb, ?Hi; [done|lia|].
  intuition lia.
Qed.

Lemma cinv_step s s' : cinv s -> cstep s s' -> cinv s'.
Proof.
  intros (Hf & Hw & Hp & Hr) Hstep.
  destruct Hstep as [f r w c src len Hl|f r w c src n b Hc|f r w c src n|f p w c dst len Hl|f p w c dst n d Hc|f p w c d n];
    cbn [fifo wr_ rd_ written consumed] in *; destruct (fifo_len_cases f Hf) as (m & Hrange & _);
    pose proof Hf as (_ & _ & _ & _ & Hle).
  - split; [done|]. split; [done|]. split; [|done]. cbn [writer_ok wr_ fifo].
    rewrite put_len_ok by (done || lia). lia.
  - destruct Hp as [Hn Hs]. destruct (put_copy_ok f src n Hf Hn Hs) as (b' & E & Hb & Hwr & Hk).
    rewrite Hc in E. injection E as <-. split; [now apply set_buffer_ok|]. cbn [fifo wr_ rd_ written consumed]. split.
    + rewrite Hw. f_equal. symmetry. apply (Hk (kfifo_len f)). lia.
    + split; [split; [exact Hn|exact Hwr]|]. apply (reader_ok_mono f); auto. cbn. reflexivity.
  - destruct Hp as [Hn E]. destruct (put_publish_ok f n Hf Hn) as (Hf' & Hl & Hc).
    split; [done|]. cbn [fifo wr_ rd_ written consumed]. split; [rewrite Hc, app_assoc, <- Hw, E; done|].
    split; [done|]. apply (reader_ok_mono f); auto. rewrite Hl. lia.
  - split; [done|]. split; [done|]. split; [done|]. cbn [reader_ok rd_ fifo]. unfold get_len.
    change (u32 (in_ f - out f)) with (kfifo_len f). lia.
  - destruct Hr as [Hn Hs]. rewrite get_copy_ok in Hc by done. injection Hc as <-.
    split; [done|]. split; [done|]. split; [done|]. split; [done|].
    rewrite take_app_length'; [done|]. pose proof (zlen_ring_bytes (buffer f) (out f) n). unfold zlen in *. lia.
  - destruct Hr as [Hn E]. destruct (get_publish_ok f n Hf Hn) as (Hf' & Hl & Hc).
    split; [done|]. cbn [fifo wr_ rd_ written consumed]. split.
    + rewrite Hc, Hw, <- app_assoc. f_equal. rewrite E, <- (take_ring_bytes _ _ n (kfifo_len f)) by lia.
      symmetry. apply take_drop.
    + split; [|done]. apply (writer_ok_mono f); auto. rewrite Hl. lia.
Qed.

Lemma cinv_steps s s' : rtc cstep s s' -> cinv s -> cinv s'.
Proof. induction 1; eauto using cinv_step. Qed.

(** C29: with one reader and one writer no lock is needed.  In every
    interleaving of the sampling, copying and publishing steps of
    [__kfifo_put] and [__kfifo_get], the bytes the reader has consumed are a
    prefix of the bytes the writer has published, what lies between is the
    queue, and no copy that is due faults. *)
Theorem kfifo_lockfree_correct f s :
  fifo_ok f -> rtc cstep (CState f WIdle RIdle (contents f) []) s ->
  written s = consumed s ++ contents (fifo s) /\ fifo_ok (fifo s) /\
  (forall src n, wr_ s = WSampled src n -> exists b, put_copy (fifo s) src n = Ok b) /\
  (forall dst n, rd_ s = RSampled dst n -> exists d, get_copy (fifo s) dst n = Ok d).
Proof.
  intros Hf Hs. destruct (cinv_steps _ _ Hs) as (Hf' & Hw & Hp & Hr); [done|].
  split; [done|]. split; [done|]. split.
  - intros src n E. rewrite E in Hp. destruct (put_copy_ok (fifo s) src n Hf') as (b & ? & _); try apply Hp. now exists b.
  - intros dst n E. rewrite E in Hr. eexists. apply get_copy_ok; [done|apply Hr|apply Hr].
Qed.

(** The fifo holds [9]; the reader samples before the writer publishes [7; 8]
    and copies after it. *)
Definition fifo_demo : kfifo := Kfifo [0; 0; 0; 9] 4 0 (2 ^ 32 - 1).

Lemma kfifo_lockfree_correct_witness : exists s,
  rtc cstep (CState fifo_demo WIdle RIdle [9] []) s /\ consumed s = [9] /\ contents (fifo s) = [7; 8] /\
  written s = consumed s ++ contents (fifo s).
Proof.
  eexists. assert (Hrun : rtc cstep (CState fifo_demo WIdle RIdle [9] [])
    (CState (Kfifo [7; 8; 0; 9] 4 2 0) WIdle RIdle [9; 7; 8] [9])).
  { eapply rtc_l; [apply (w_sample _ _ _ _ [7; 8] 2); vm_compute; intuition congruence|].
    eapply rtc_l; [apply (r_sample _ _ _ _ [0; 0] 2); vm_compute; intuition congruence|].
    eapply rtc_l; [apply w_copy; vm_compute; reflexivity|].
    eapply rtc_l; [apply w_publish|].
    eapply rtc_l; [apply r_copy; vm_compute; reflexivity|].
    eapply rtc_l; [apply r_publish|]. vm_compute. apply rtc_refl. }
  split; [exact Hrun|]. split; [reflexivity|]. split; [reflexivity|].
  destruct (kfifo_lockfree_correct fifo_demo _ ltac:(split; [exists 2; split; [lia|reflexivity]|];
    vm_compute; intuition congruence) Hrun) as (H & _). exact H.
Defined.
