(* ===== verification/Logger.v ===== *)
(** drivers/staging/android/logger.c: the Android log devices.  A log is a
    ring of variable-length entries with one write offset and one read offset
    per open reader; a writer that laps a reader pulls it forward to an entry
    boundary.

    A definition below is the part of its function that runs under the mutex of
    the log, which is a single step.  What [logger_aio_write] reads before it
    takes the mutex, the write offset it goes back to on an error, is an
    argument.  Two accesses of the source have no lock at all: [logger_release]
    unlinks and frees its reader while others may walk the list, and [klog_buf],
    which all logs share, is read once more after the unlock, to be printed; both
    are modelled as if nothing came in between. *)
From S2P Require Import Prelude.
From S2P Require Import Ring UserCopy.

(** [klog_buf] is the driver's static buffer for boot-time messages. *)
Record logger_log := Log {
  buffer : list Z; readers : list (Z * Z); w_off : Z; head : Z; size : Z; klog_buf : list Z }.

Definition sizeof_logger_entry : Z := 20.
Definition LOGGER_ENTRY_MAX_LEN : Z := 4 * 1024.
Definition LOGGER_ENTRY_MAX_PAYLOAD : Z := LOGGER_ENTRY_MAX_LEN - sizeof_logger_entry.
Definition EFAULT : Z := 14.
Definition EAGAIN : Z := 11.
Definition EINTR : Z := 4.
Definition EINVAL : Z := 22.
Definition ENOTTY : Z := 25.
Definition EBADF : Z := 9.
Definition ENOMEM : Z := 12.
Definition ENODEV : Z := 19.

Definition logger_offset (log : logger_log) (n : Z) : Z := Z.land (u32 n) (size log - 1).

Definition set_w_off (log : logger_log) (w : Z) : logger_log :=
  Log (buffer log) (readers log) w (head log) (size log) (klog_buf log).
Definition set_log_buffer (log : logger_log) (b : list Z) : logger_log :=
  Log b (readers log) (w_off log) (head log) (size log) (klog_buf log).
Definition set_klog (log : logger_log) (k : list Z) : logger_log :=
  Log (buffer log) (readers log) (w_off log) (head log) (size log) k.
Definition set_offsets (log : logger_log) (h : Z) (rs : list (Z * Z)) : logger_log :=
  Log (buffer log) rs (w_off log) h (size log) (klog_buf log).

(** A little-endian [__u16] that may straddle the end of the buffer. *)
Definition get_entry_len (log : logger_log) (off : Z) : res Z :=
  if u32 (size log - off) =? 1 then
    b0 ← rd (buffer log) off;
    b1 ← rd (buffer log) 0;
    Ok (sizeof_logger_entry + (b0 + 256 * b1))
  else
    b0 ← rd (buffer log) off;
    b1 ← rd (buffer log) (off + 1);
    Ok (sizeof_logger_entry + (b0 + 256 * b1)).

Definition do_read_log_to_user (log : logger_log) (r_off : Z) (buf : list Z) (count : Z)
    : res (Z * list Z * Z) :=
  let len := Z.min count (size log - r_off) in
  '(buf, missed) ← copy_to_user buf 0 (buffer log) r_off len;
  if negb (missed =? 0) then Ok (r_off, buf, - EFAULT) else
  '(buf, missed) ← (if negb (count =? len) then copy_to_user buf len (buffer log) 0 (count - len)
                  else Ok (buf, 0));
  if negb (missed =? 0) then Ok (r_off, buf, - EFAULT) else
  Ok (logger_offset log (r_off + count), buf, count).

(** The reader record of an open file, by its identity. *)
Fixpoint reader_off (rs : list (Z * Z)) (id : Z) : option Z :=
  match rs with
  | [] => None
  | (i, r) :: rs => if i =? id then Some r else reader_off rs id
  end.
Definition set_reader (id r : Z) (rs : list (Z * Z)) : list (Z * Z) :=
  (fun x => if x.1 =? id then (x.1, r) else x) <$> rs.

Inductive read_result := ReadSleep | ReadRet (ret : Z).

(** One pass of [logger_read]: [ReadSleep] is [schedule()], after which the
    call starts over. *)
Definition logger_read (log : logger_log) (id : Z) (buf : list Z) (count : Z)
    (nonblock signal_pending : bool) : res (logger_log * list Z * read_result) :=
  match reader_off (readers log) id with
  | None => Err OutOfBounds
  | Some r_off =>
    if w_off log =? r_off then
      if nonblock then Ok (log, buf, ReadRet (- EAGAIN))
      else if signal_pending then Ok (log, buf, ReadRet (- EINTR))
      else Ok (log, buf, ReadSleep)
    else
      ret ← get_entry_len log r_off;
      if count <? ret then Ok (log, buf, ReadRet (- EINVAL)) else
      '(r_off, buf, ret) ← do_read_log_to_user log r_off buf ret;
      Ok (set_offsets log (head log) (set_reader id r_off (readers log)), buf, ReadRet ret)
  end.

(** Entries take at least 20 bytes, which bounds the number of turns. *)
Definition get_next_entry (log : logger_log) (off len : Z) : res Z :=
  loop (S (Z.to_nat (len / 20))) (fun '(off, count) =>
    nr ← get_entry_len log off;
    let off := logger_offset log (off + nr) in
    let count := count + nr in
    if count <? len then Ok (inl (off, count)) else Ok (inr off)) (off, 0).

Definition clock_interval (a b c : Z) : bool :=
  if b <? a then (a <? c) || (c <=? b) else (a <? c) && (c <=? b).

Definition fix_up_offset (log : logger_log) (old new len off : Z) : res Z :=
  if clock_interval old new off then get_next_entry log off len else Ok off.

Fixpoint fix_up_list (log : logger_log) (old new len : Z) (rs : list (Z * Z)) : res (list (Z * Z)) :=
  match rs with
  | [] => Ok []
  | (id, r) :: rs =>
      r ← fix_up_offset log old new len r;
      rs ← fix_up_list log old new len rs;
      Ok ((id, r) :: rs)
  end.

Definition fix_up_readers (log : logger_log) (len : Z) : res logger_log :=
  let old := w_off log in
  let new := logger_offset log (old + len) in
  h ← fix_up_offset log old new len (head log);
  rs ← fix_up_list log old new len (readers log);
  Ok (set_offsets log h rs).

Definition do_write_log (log : logger_log) (buf : list Z) (count : Z) : res logger_log :=
  let len := Z.min count (size log - w_off log) in
  b ← memcpy (buffer log) (w_off log) buf 0 len;
  b ← (if negb (count =? len) then memcpy b 0 buf len (count - len) else Ok b);
  Ok (set_w_off (set_log_buffer log b) (logger_offset log (w_off log + count))).

(** [strncmp(p, "!@", 2) == 0]: the second byte is read only after a match. *)
Definition starts_with_mark (b : list Z) (off : Z) : res bool :=
  c0 ← rd b off;
  if negb (c0 =? 33) then Ok false else
  c1 ← rd b (off + 1);
  Ok (c1 =? 64).

(** The boot-time message hook of [do_write_log_from_user]. *)
Definition klog_hook (log : logger_log) (count : Z) : res (list Z) :=
  klog ← memcpy (klog_buf log) 0 (replicate 255 0) 0 255;
  m ← starts_with_mark (buffer log) (w_off log);
  if m : bool then
    klog ← memcpy klog 0 (buffer log) (w_off log) (if count <? 255 then count else 255);
    wr klog 255 0
  else Ok klog.

Definition do_write_log_from_user (log : logger_log) (u : list Z) (count : Z) : res (logger_log * Z) :=
  let len := Z.min count (size log - w_off log) in
  '(b, missed) ← (if negb (len =? 0) then copy_from_user (buffer log) (w_off log) u 0 len
                else Ok (buffer log, 0));
  if negb (missed =? 0) then Ok (set_log_buffer log b, - EFAULT) else
  '(b, missed) ← (if negb (count =? len) then copy_from_user b 0 u len (count - len) else Ok (b, 0));
  if negb (missed =? 0) then Ok (set_log_buffer log b, - EFAULT) else
  let log := set_log_buffer log b in
  klog ← klog_hook log count;
  Ok (set_w_off (set_klog log klog) (logger_offset log (w_off log + count)), count).

Record iovec := Iovec { iov_len : Z; iov_data : list Z }.

(** The loop over the segments; on an error [w_off] goes back to [orig]. *)
Fixpoint write_segments (log : logger_log) (orig hlen : Z) (segs : list iovec) (ret : Z)
    : res (logger_log * Z) :=
  match segs with
  | [] => Ok (log, ret)
  | iov :: segs =>
      let len := Z.min (iov_len iov) (u32 (hlen - ret)) in
      '(log, nr) ← do_write_log_from_user log (iov_data iov) len;
      if nr <? 0 then Ok (set_w_off log orig, nr)
      else write_segments log orig hlen segs (ret + nr)
  end.

Definition le16 (x : Z) : list Z := [x mod 256; x / 256 mod 256].
Definition le32 (x : Z) : list Z := le16 (u32 x mod 65536) ++ le16 (u32 x / 65536).

(** [struct logger_entry] in memory; the padding is whatever the stack held. *)
Definition entry_header (len pad pid tid sec nsec : Z) : list Z :=
  le16 len ++ le16 pad ++ le32 pid ++ le32 tid ++ le32 sec ++ le32 nsec.

(** [orig] is the write offset at the start of the call, before [mutex_lock];
    [log] is the log once the mutex is held. *)
Definition logger_aio_write (log : logger_log) (orig : Z) (pad pid tid sec nsec ki_left : Z) (segs : list iovec)
    : res (logger_log * Z * option (list Z)) :=
  let hlen := Z.min ki_left LOGGER_ENTRY_MAX_PAYLOAD in
  if hlen =? 0 then Ok (log, 0, None) else
  log ← fix_up_readers log (sizeof_logger_entry + hlen);
  log ← do_write_log log (entry_header hlen pad pid tid sec nsec) sizeof_logger_entry;
  '(log, ret) ← write_segments log orig hlen segs 0;
  if ret <? 0 then Ok (log, ret, None) else
  m ← starts_with_mark (klog_buf log) 0;
  Ok (log, ret, if m : bool then Some (klog_buf log) else None).

(** [logger_open]: [seek] is the result of [nonseekable_open], [minor] whether
    the minor number names a log, [id] the identity of the new reader when
    [kmalloc] succeeds.  A file open for writing only keeps no state. *)
Definition logger_open (log : logger_log) (seek : Z) (minor fmode_read : bool) (id : option Z)
    : logger_log * Z :=
  if negb (seek =? 0) then (log, seek) else
  if negb minor then (log, - ENODEV) else
  if fmode_read then
    match id with
    | None => (log, - ENOMEM)
    | Some id => (set_offsets log (head log) (readers log ++ [(id, head log)]), 0)
    end
  else (log, 0).

(** [logger_release] of a reader, or of a write-only file; it takes no lock. *)
Definition logger_release (log : logger_log) (reader : option Z) : logger_log :=
  match reader with
  | Some id => set_offsets log (head log) (filter (fun x => x.1 <> id) (readers log))
  | None => log
  end.

Definition POLLIN : Z := 0x0001.
Definition POLLOUT : Z := 0x0004.
Definition POLLRDNORM : Z := 0x0040.
Definition POLLWRNORM : Z := 0x0100.

Definition logger_poll (log : logger_log) (reader : option Z) : Z :=
  let ret := Z.lor POLLOUT POLLWRNORM in
  match reader with
  | None => ret
  | Some r_off => if negb (w_off log =? r_off) then Z.lor ret (Z.lor POLLIN POLLRDNORM) else ret
  end.

Inductive logger_cmd := LOGGER_GET_LOG_BUF_SIZE | LOGGER_GET_LOG_LEN | LOGGER_GET_NEXT_ENTRY_LEN
  | LOGGER_FLUSH_LOG | LOGGER_OTHER.

(** [reader] is the offset of a file open for reading, [fmode_write] its write mode. *)
Definition logger_ioctl (log : logger_log) (reader : option Z) (fmode_write : bool) (cmd : logger_cmd)
    : res (logger_log * Z) :=
  match cmd with
  | LOGGER_GET_LOG_BUF_SIZE => Ok (log, size log)
  | LOGGER_GET_LOG_LEN =>
      match reader with
      | None => Ok (log, - EBADF)
      | Some r_off =>
          Ok (log, if r_off <=? w_off log then w_off log - r_off else (size log - r_off) + w_off log)
      end
  | LOGGER_GET_NEXT_ENTRY_LEN =>
      match reader with
      | None => Ok (log, - EBADF)
      | Some r_off =>
          if negb (w_off log =? r_off) then n ← get_entry_len log r_off; Ok (log, n) else Ok (log, 0)
      end
  | LOGGER_FLUSH_LOG =>
      if negb fmode_write then Ok (log, - EBADF) else
      Ok (set_offsets log (w_off log) ((fun x => (x.1, w_off log)) <$> readers log), 0)
  | LOGGER_OTHER => Ok (log, - ENOTTY)
  end.
