(* ===== verification/LoggerFacts.v ===== *)
(** The log as a sequence of whole entries: every offset the driver keeps (the
    start head and each reader) sits on an entry boundary, reading takes the
    oldest entry, and writing appends one entry and takes from the readers it laps
    the oldest ones, as many as its bytes need. *)
From S2P Require Import Prelude.
From S2P Require Import Ring UserCopy.
From S2P Require Import Logger.

(** An entry is a header whose first two bytes give the payload length. *)
Definition entry_ok (e : list Z) : Prop := zlen e = sizeof_logger_entry + (at_ 0 e 0 + 256 * at_ 0 e 1) /\ Forall is_u8 e.

(** From [r] to the write offset the ring holds the entries [es], then the
    bytes [data] of an entry that is being written. *)
Definition holds (buf : list Z) (w r : Z) (es : list (list Z)) (data : list Z) : Prop :=
  Forall entry_ok es /\ 0 <= r < zlen buf /\
  ring_bytes buf r (zlen (concat es) + zlen data) = concat es ++ data /\
  (r + (zlen (concat es) + zlen data)) mod zlen buf = w.

Definition chain (log : logger_log) (r : Z) (es : list (list Z)) : Prop :=
  holds (buffer log) (w_off log) r es [] /\ zlen (concat es) < size log.

Definition offs (log : logger_log) : list Z := head log :: (readers log).*2.

(** Well-formed geometry, and the invariant. *)
Definition geo_ok (log : logger_log) : Prop :=
  (exists k, 13 <= k <= 30 /\ size log = 2 ^ k) /\ zlen (buffer log) = size log /\
  0 <= w_off log < size log /\ Forall is_u8 (buffer log) /\ zlen (klog_buf log) = 256.

Definition log_ok (log : logger_log) : Prop :=
  geo_ok log /\ Forall (fun r => exists es, chain log r es) (offs log).

(** Outcomes that may be an access out of bounds when [B] holds. *)
Definition owp {A} (m : res A) (Q : A -> Prop) (B : Prop) : Prop :=
  match m with Ok a => Q a | Err OutOfBounds => B | Err _ => False end.

Lemma owp_bind {A C} (m : res A) (f : A -> res C) (Q : C -> Prop) B :
  owp m (fun a => owp (f a) Q B) B -> owp (m ≫= f) Q B.
Proof. now destruct m as [|[]]. Qed.

Lemma owp_mono {A} (m : res A) (P Q : A -> Prop) (B B' : Prop) :
  owp m P B -> (forall a, P a -> Q a) -> (B -> B') -> owp m Q B'.
Proof. destruct m as [|[]]; cbn; auto. Qed.

Lemma geo_offset log n : geo_ok log -> logger_offset log n = n mod size log.
Proof.
  intros ((k & Hk & Hs) & _). unfold logger_offset. rewrite Hs, land_mask, u32_mod_pow2 by lia. done.
Qed.

Lemma geo_size log : geo_ok log -> 2 ^ 13 <= size log <= 2 ^ 30.
Proof. intros ((k & Hk & ->) & _). split; apply Z.pow_le_mono_r; lia. Qed.

Lemma entry_len e : entry_ok e -> 20 <= zlen e.
Proof.
  intros [E H]. unfold sizeof_logger_entry in E. pose proof (zlen_nonneg e).
  assert (Hb : forall i, 0 <= i -> 0 <= at_ 0 e i).
  { intros i Hi. destruct (Z.lt_ge_cases i (zlen e)).
    - rewrite (Forall_at _ 0) in H. apply (H i). lia.
    - unfold at_. rewrite nth_overflow by (unfold zlen in *; lia). lia. }
  pose proof (Hb 0). pose proof (Hb 1). lia.
Qed.

Lemma get_entry_len_ok log r e es : geo_ok log -> chain log r (e :: es) -> get_entry_len log r = Ok (zlen e).
Proof.
  intros Hg [(Hes & Hr & Hb & _) _]. apply Forall_cons_1 in Hes as [He _].
  pose proof (entry_len e He) as Hl. pose proof (geo_size log Hg) as Hsz.
  destruct Hg as (_ & Hz & _). cbn [concat] in Hb.
  assert (Hat : forall i, 0 <= i < 20 -> at_ 0 (buffer log) ((r + i) mod size log) = at_ 0 e i).
  { intros i Hi. rewrite zlen_app in Hb. pose proof (zlen_nonneg (concat es)). pose proof (zlen_nonneg ([] : list Z)).
    rewrite <- Hz, <- (at_ring_bytes _ _ (zlen e + zlen (concat es) + zlen ([] : list Z))) by lia.
    rewrite Hb, !at_app by lia. rewrite zlen_app. destruct (Z.ltb_spec i (zlen e + zlen (concat es))); [|lia].
    destruct (Z.ltb_spec i (zlen e)); [done|lia]. }
  pose proof (Hat 0 ltac:(lia)) as H0. pose proof (Hat 1 ltac:(lia)) as H1. clear Hat Hb.
  rewrite Z.add_0_r, Z.mod_small in H0 by lia. unfold get_entry_len.
  rewrite u32_id by (unfold is_u32; lia). rewrite (rd_at 0 (buffer log) r) by lia. cbn [mbind res_bind].
  destruct (Z.eqb_spec (size log - r) 1).
  - rewrite (rd_at 0 (buffer log) 0) by lia. cbn [mbind res_bind]. rewrite H0.
    replace ((r + 1) mod size log) with 0 in H1 by (apply Z.mod_unique with 1; lia).
    rewrite H1. now destruct He as [-> _].
  - rewrite Z.mod_small in H1 by lia. rewrite (rd_at 0 (buffer log) (r + 1)) by lia. cbn [mbind res_bind]. rewrite H0, H1.
    now destruct He as [-> _].
Qed.

(** Passing over the first entries of a chain. *)
Lemma chain_drop log r es1 es2 : geo_ok log -> chain log r (es1 ++ es2) ->
  chain log ((r + zlen (concat es1)) mod size log) es2.
Proof.
  intros Hg [(Hes & Hr & Hb & Hw) Hl]. apply Forall_app in Hes as [_ Hes].
  destruct Hg as (_ & Hz & _). rewrite concat_app, zlen_app in *.
  pose proof (zlen_nonneg (concat es1)). pose proof (zlen_nonneg (concat es2)).
  change (zlen ([] : list Z)) with 0 in *.
  split; [|lia]. split; [done|]. rewrite <- Hz. split; [apply Z.mod_pos_bound; lia|].
  change (zlen ([] : list Z)) with 0. rewrite Z.add_0_r in *. split.
  - rewrite ring_bytes_mod by lia. rewrite ring_bytes_app, app_nil_r in Hb by lia.
    rewrite app_nil_r. eapply app_inj_1; [|exact Hb].
    apply Nat2Z.inj. apply (zlen_ring_bytes (buffer log) r (zlen (concat es1))). done.
  - rewrite Zplus_mod_idemp_l, <- Hw. f_equal. lia.
Qed.

(** The shortest sequence of entries with at least [len] bytes. *)
Definition shortest (len : Z) (es1 : list (list Z)) : Prop :=
  len <= zlen (concat es1) /\ forall j, (j < length es1)%nat -> zlen (concat (take j es1)) < len.

Lemma shortest_snoc len es e : zlen (concat es) < len -> len <= zlen (concat (es ++ [e])) -> shortest len (es ++ [e]).
Proof.
  intros H1 H2. split; [done|]. intros j Hj. rewrite length_app in Hj. cbn in Hj. rewrite take_app_le by lia.
  rewrite <- (take_drop j es), concat_app, zlen_app in H1. pose proof (zlen_nonneg (concat (drop j es))). lia.
Qed.

Lemma get_next_entry_ok log r es len : geo_ok log -> chain log r es -> 0 < len <= zlen (concat es) ->
  wp (get_next_entry log r len) (fun r' => exists es1 es2, es = es1 ++ es2 /\ shortest len es1 /\
    chain log r' es2).
Proof.
  intros Hg Hc Hlen. pose proof (geo_size log Hg) as Hsz. unfold get_next_entry.
  apply (wp_loop (fun '(off, count) => exists es1 es2, es = es1 ++ es2 /\ count = zlen (concat es1) /\
    count < len /\ chain log off es2) (fun '(_, count) => (len - count) / 20)).
  - exists [], es. unfold zlen. cbn [concat length]. repeat split; try apply Hc; lia.
  - rewrite Z.sub_0_r. split; [apply Z.div_pos; lia|]. rewrite Nat2Z.inj_succ, Z2Nat.id by (apply Z.div_pos; lia). lia.
  - intros [off count] (es1 & es2 & -> & -> & Hlt & Hc2) _. destruct es2 as [|e es2].
    { rewrite app_nil_r in Hlen. lia. }
    rewrite (get_entry_len_ok log off e es2) by done. cbn [mbind res_bind].
    assert (He : 20 <= zlen e) by (destruct Hc2 as [[H _] _]; apply Forall_cons_1 in H as [H _]; now apply entry_len).
    assert (Hc3 : chain log ((off + zlen (concat [e])) mod size log) es2) by (apply (chain_drop log off [e] es2); done).
    assert (Ec : zlen (concat (es1 ++ [e])) = zlen (concat es1) + zlen e)
      by (rewrite concat_app, zlen_app; cbn [concat]; rewrite app_nil_r; done).
    cbn [concat] in Hc3. rewrite app_nil_r in Hc3.
    rewrite geo_offset by done. cbv zeta. destruct (Z.ltb_spec (zlen (concat es1) + zlen e) len); wp_steps.
    + split; [exists (es1 ++ [e]), es2; rewrite <- app_assoc, Ec; split; [done|]; split; [done|]; split; [done|exact Hc3]|].
      split; [apply Z.div_pos; lia|].
      assert ((len - zlen (concat es1)) / 20 = (len - zlen (concat es1) - 20) / 20 + 1)
        by (rewrite <- Z.div_add by lia; f_equal; lia).
      assert ((len - (zlen (concat es1) + zlen e)) / 20 <= (len - zlen (concat es1) - 20) / 20)
        by (apply Z.div_le_mono; lia). lia.
    + exists (es1 ++ [e]), es2. rewrite <- app_assoc. split; [done|]. split; [apply shortest_snoc; [done|now rewrite Ec]|exact Hc3].
Qed.

(** [clock_interval] asks whether a write of [len] bytes reaches offset [c]. *)
Lemma clock_interval_spec size a len c : 0 <= a < size -> 0 <= c < size -> 0 < len < size ->
  clock_interval a ((a + len) mod size) c = (0 <? (c - a) mod size) && ((c - a) mod size <=? len).
Proof.
  intros Ha Hc Hl. unfold clock_interval. rewrite ring_dist_wrap by lia.
  destruct (Z.lt_ge_cases (a + len) size).
  - rewrite Z.mod_small by lia. destruct (Z.ltb_spec (a + len) a); [lia|]. destruct (Z.leb_spec a c).
    + destruct (Z.ltb_spec a c), (Z.ltb_spec 0 (c - a)), (Z.leb_spec c (a + len)), (Z.leb_spec (c - a) len); done || lia.
    + destruct (Z.ltb_spec a c), (Z.ltb_spec 0 (c - a + size)), (Z.leb_spec (c - a + size) len); done || lia.
  - replace ((a + len) mod size) with (a + len - size) by (apply Z.mod_unique with 1; lia).
    destruct (Z.ltb_spec (a + len - size) a); [|lia]. destruct (Z.leb_spec a c).
    + destruct (Z.ltb_spec a c), (Z.ltb_spec 0 (c - a)), (Z.leb_spec c (a + len - size)), (Z.leb_spec (c - a) len);
        cbn; done || lia.
    + destruct (Z.ltb_spec a c), (Z.ltb_spec 0 (c - a + size)), (Z.leb_spec c (a + len - size)), (Z.leb_spec (c - a + size) len); cbn; done || lia.
Qed.

(** What a write of [len] bytes takes from a reader with the entries [es]: nothing
    while there is room for it, and otherwise, the reader being lapped, the
    shortest sequence of its oldest entries with at least [len] bytes. *)
Definition dropped (size len : Z) (es : list (list Z)) (k : nat) : Prop :=
  if zlen (concat es) + len <? size then k = O else shortest len (take k es) /\ (k <= length es)%nat.

(** After the fix-up the offset leaves room for the new entry. *)
Lemma fix_up_offset_ok log r es len : geo_ok log -> chain log r es -> 0 < len <= LOGGER_ENTRY_MAX_LEN ->
  wp (fix_up_offset log (w_off log) (logger_offset log (w_off log + len)) len r) (fun r' =>
    exists k, dropped (size log) len es k /\ chain log r' (drop k es) /\ zlen (concat (drop k es)) + len < size log).
Proof.
  unfold LOGGER_ENTRY_MAX_LEN. intros Hg Hc Hl. pose proof (geo_size log Hg) as Hsz. pose proof Hc as [(_ & Hr & _ & Hw) Hn].
  pose proof Hg as (_ & Hz & Hwr & _). unfold fix_up_offset. rewrite geo_offset by done.
  rewrite clock_interval_spec by lia. rewrite Hz in *. set (n := zlen (concat es)) in *.
  assert (0 <= n) by apply zlen_nonneg. change (zlen ([] : list Z)) with 0 in Hw. rewrite Z.add_0_r in Hw.
  assert (Hfree : (r - w_off log) mod size log = if n =? 0 then 0 else size log - n).
  { rewrite <- Hw, Zminus_mod_idemp_r. replace (r - (r + n)) with (- n) by lia. destruct (Z.eqb_spec n 0) as [->|].
    - rewrite Z.mod_0_l; lia.
    - symmetry. apply Z.mod_unique with (-1); lia. }
  unfold dropped. fold n. rewrite Hfree. destruct (Z.eqb_spec n 0).
  - cbn [andb]. wp_steps. exists O. rewrite drop_0. destruct (Z.ltb_spec (n + len) (size log)); [|lia]. split; [done|]. split; [done|]. fold n. lia.
  - destruct (Z.ltb_spec 0 (size log - n)); [|lia]. cbn [andb]. destruct (Z.leb_spec (size log - n) len).
    + eapply wp_mono; [apply (get_next_entry_ok log r es len Hg Hc); fold n; lia|].
      intros r' (es1 & es2 & Ees & Ha & Hb). exists (length es1). destruct (Z.ltb_spec (n + len) (size log)); [lia|].
      unfold n in Hn. rewrite Ees in Hn |- *. rewrite take_app_length, drop_app_length, length_app.
      split; [split; [done|lia]|]. split; [done|]. rewrite concat_app, zlen_app in Hn. destruct Ha. lia.
    + wp_steps. exists O. rewrite drop_0. destruct (Z.ltb_spec (n + len) (size log)); [|lia]. split; [done|]. split; [done|]. fold n. lia.
Qed.

(** * Writing *)

(** [b] is [buf] with the first [len] bytes of [src] laid round the ring at [off]. *)
Definition ring_in (buf b : list Z) (off : Z) (src : list Z) (len : Z) : Prop :=
  zlen b = zlen buf /\ len <= zlen src /\
  forall j, 0 <= j < zlen buf -> at_ 0 b j =
    if (j - off) mod zlen buf <? len then at_ 0 src ((j - off) mod zlen buf) else at_ 0 buf j.

Lemma ring_in_bytes buf b off src len : 0 < zlen buf -> 0 <= len -> ring_in buf b off src len ->
  Forall is_u8 buf -> Forall is_u8 src -> Forall is_u8 b.
Proof.
  intros Hp Hl (Hz & Hs & H) Hb Hsrc. rewrite (Forall_at _ 0) in *. intros i Hi. rewrite H by lia.
  assert (Hm := Z.mod_pos_bound (i - off) (zlen buf) Hp).
  destruct (Z.ltb_spec ((i - off) mod zlen buf) len); [apply Hsrc; lia|apply Hb; lia].
Qed.

(** Appending to the bytes between [r] and the write offset. *)
Lemma ring_in_append buf b r n src len : 0 <= r < zlen buf -> 0 <= n -> 0 <= len -> n + len <= zlen buf ->
  ring_in buf b ((r + n) mod zlen buf) src len ->
  ring_bytes b r (n + len) = ring_bytes buf r n ++ take (Z.to_nat len) src.
Proof.
  intros Hr Hn Hl Hnl (Hz & Hs & H). assert (Hm := Z.mod_pos_bound (r + n) (zlen buf) ltac:(lia)).
  rewrite ring_bytes_app by lia. f_equal.
  - apply (ring_in_kept buf b ((r + n) mod zlen buf) src len); auto; try lia.
    pose proof (Z.div_mod (r + n) (zlen buf) ltac:(lia)) as Hd. exists (1 - (r + n) / zlen buf). lia.
  - rewrite <- (ring_bytes_mod b) by lia. rewrite Hz.
    apply (ring_in_written buf); auto; lia.
Qed.

Lemma holds_write buf b r es data src len w : holds buf w r es data -> 0 <= len ->
  zlen (concat es) + zlen data + len <= zlen buf -> ring_in buf b w src len ->
  holds b ((w + len) mod zlen buf) r es (data ++ take (Z.to_nat len) src).
Proof.
  intros (Hes & Hr & Hb & Hw) Hl Hn Hin. pose proof Hin as (Hz & Hs & _).
  pose proof (zlen_nonneg (concat es)). pose proof (zlen_nonneg data).
  split; [done|]. rewrite Hz. split; [done|].
  rewrite zlen_app, zlen_take by lia. split.
  - rewrite !Z.add_assoc, (ring_in_append buf b r _ src len); try lia.
    + now rewrite Hb, app_assoc.
    + now rewrite Hw.
  - rewrite <- Hw, Zplus_mod_idemp_l. f_equal. lia.
Qed.

(** A write that fails half-way leaves the bytes before the write offset alone. *)
Lemma holds_keep buf b r es data src len w w' : holds buf w r es data -> 0 <= len ->
  zlen (concat es) + zlen data + len <= zlen buf -> ring_in buf b w src len ->
  w' = (r + zlen (concat es)) mod zlen buf -> holds b w' r es [].
Proof.
  intros Hh Hl Hn Hin ->. destruct (holds_write _ _ _ _ _ _ _ _ Hh Hl Hn Hin) as (Hes & Hr & Hb & _).
  pose proof (zlen_nonneg (concat es)). pose proof (zlen_nonneg data). destruct Hin as (Hz & Hs & _).
  split; [done|]. split; [done|]. change (zlen ([] : list Z)) with 0. rewrite Z.add_0_r, app_nil_r, Hz.
  split; [|done]. apply (f_equal (take (length (concat es)))) in Hb. rewrite take_app_length in Hb.
  rewrite <- Hb at 2.
  rewrite <- (take_ring_bytes b r (zlen (concat es)) (zlen (concat es) + zlen (data ++ take (Z.to_nat len) src)))
    by (rewrite zlen_app, zlen_take by lia; lia).
  f_equal. unfold zlen. lia.
Qed.

Lemma memcpy_src dst doff src soff src' soff' n : 0 <= n ->
  0 <= soff -> soff + n <= zlen src -> 0 <= soff' -> soff' + n <= zlen src' ->
  take (Z.to_nat n) (drop (Z.to_nat soff) src) = take (Z.to_nat n) (drop (Z.to_nat soff') src') ->
  memcpy dst doff src soff n = memcpy dst doff src' soff' n.
Proof.
  intros Hn H1 H2 H3 H4 E. unfold memcpy. rewrite E.
  assert ((soff + n <=? zlen src) = true) as -> by lia. assert ((soff' + n <=? zlen src') = true) as -> by lia.
  assert ((0 <=? soff) = true) as -> by lia. assert ((0 <=? soff') = true) as -> by lia. done.
Qed.

(** The two copies from user space, as a single ring copy of what was moved. *)
Lemma user_ring_copy buf w u count : 0 <= w < zlen buf -> 0 <= count <= zlen buf ->
  let len := Z.min count (zlen buf - w) in
  exists b1 b2,
    memcpy buf w (user_bytes u 0 len) 0 len = Ok b1 /\ ring_in buf b1 w (user_bytes u 0 len) len /\
    memcpy b1 0 (user_bytes u len (count - len)) 0 (count - len) = Ok b2 /\
    ring_in buf b2 w (user_bytes u 0 len ++ user_bytes u len (count - len)) count.
Proof.
  intros Hw Hc. set (len := Z.min count (zlen buf - w)). cbv zeta.
  set (s1 := user_bytes u 0 len). set (s2 := user_bytes u len (count - len)).
  assert (Hz1 : zlen s1 = len) by (apply zlen_user_bytes; lia).
  assert (Hz2 : zlen s2 = count - len) by (apply zlen_user_bytes; lia).
  destruct (ring_copy_in_ok buf w s1 len) as (b1 & E1 & Hb1 & H1); [lia..|].
  destruct (ring_copy_in_ok buf w (s1 ++ s2) count) as (b2 & E2 & Hb2 & H2); [lia|lia|rewrite zlen_app; lia|].
  unfold ring_copy_in in E1, E2. fold len in E2. replace (Z.min len (zlen buf - w)) with len in E1 by lia.
  rewrite <- (memcpy_src buf w s1 0) in E2.
  2-6: rewrite ?zlen_app; lia.
  2: { change (Z.to_nat 0) with O. rewrite !drop_0. symmetry. apply take_app_le. unfold zlen in Hz1. lia. }
  destruct (memcpy buf w s1 0 len) as [b|] eqn:Em; [|done]. cbn [mbind res_bind] in E1, E2.
  rewrite Z.sub_diag in E1. change (memcpy b 0 s1 len 0) with (Ok b) in E1. injection E1 as ->.
  exists b1, b2. split; [done|]. split; [split; [done|]; split; [lia|exact H1]|]. split.
  - rewrite <- E2. apply memcpy_src; rewrite ?zlen_app; try lia.
    change (Z.to_nat 0) with O. rewrite drop_0. f_equal. symmetry. apply drop_app_length'. unfold zlen in Hz1. lia.
  - split; [done|]. split; [rewrite zlen_app; lia|exact H2].
Qed.

Lemma memcpy_len dst doff src soff n b : memcpy dst doff src soff n = Ok b -> zlen b = zlen dst.
Proof.
  unfold memcpy. destruct (n =? 0); [now intros [= ->]|].
  destruct (_ && _) eqn:E; [|done]. intros [= <-].
  repeat (apply andb_prop in E as [E ?]). rewrite !zlen_app, !zlen_take, zlen_drop; try lia.
  rewrite zlen_drop; lia.
Qed.

Lemma memcpy_err dst doff src soff n e : memcpy dst doff src soff n = Err e -> e = OutOfBounds.
Proof. unfold memcpy. destruct (n =? 0); [done|]. destruct (_ && _); [done|]. now intros [= <-]. Qed.

Lemma klog_hook_ok log count : geo_ok log ->
  owp (klog_hook log count) (fun k => zlen k = 256) (at_ 0 (buffer log) (w_off log) = 33).
Proof.
  intros (_ & Hz & Hw & _ & Hk). unfold klog_hook.
  destruct (memcpy_ok (klog_buf log) 0 (replicate 255 0) 0 255) as (k & -> & Hkz & _);
    [lia|lia|lia|lia|unfold zlen; rewrite length_replicate; lia|]. cbn [mbind res_bind].
  unfold starts_with_mark. rewrite (rd_at 0 (buffer log) (w_off log)) by lia. cbn [mbind res_bind].
  destruct (Z.eqb_spec (at_ 0 (buffer log) (w_off log)) 33) as [E|]; cbn [negb]; [|cbn [mbind res_bind owp]; congruence].
  unfold rd at 1. destruct (0 <=? w_off log + 1); [|done]. destruct (buffer log !! _) as [c1|]; [|done].
  cbn [mbind res_bind]. destruct (c1 =? 64); [|cbn [owp]; congruence].
  destruct (memcpy k 0 (buffer log) (w_off log) _) as [k2|e] eqn:Em; cbn [mbind res_bind].
  - apply memcpy_len in Em. rewrite wr_ok by lia. cbn [owp]. rewrite zlen_insert. congruence.
  - apply memcpy_err in Em as ->. done.
Qed.

(** The write offset and the buffer after a call, failed or not. *)
Lemma write_from_user_ok log u count : geo_ok log -> 0 <= count <= size log -> Forall is_u8 u ->
  owp (do_write_log_from_user log u count) (fun '(log', nr) =>
    exists b klog src m, ring_in (buffer log) b (w_off log) src m /\ 0 <= m <= count /\ Forall is_u8 src /\
      zlen klog = 256 /\
      (nr = - EFAULT /\ zlen u < count /\ log' = set_klog (set_log_buffer log b) klog \/
       nr = count /\ count <= zlen u /\ m = count /\ src = take (Z.to_nat count) u /\
       log' = set_w_off (set_klog (set_log_buffer log b) klog) ((w_off log + count) mod size log)))
    (count = 0 \/ at_ 0 u 0 = 33).
Proof.
  intros Hg Hc Hu. pose proof Hg as (_ & Hz & Hw & Hb8 & Hk). pose proof (geo_size log Hg) as Hsz.
  unfold do_write_log_from_user. rewrite <- Hz. set (len := Z.min count (zlen (buffer log) - w_off log)).
  destruct (user_ring_copy (buffer log) (w_off log) u count) as (b1 & b2 & E1 & H1 & E2 & H2); [lia|lia|]. fold len in E1, H1, E2, H2.
  assert (Ef : forall b, set_klog (set_log_buffer log b) (klog_buf log) = set_log_buffer log b) by (now intros; destruct log).
  pose proof (zlen_nonneg u).
  assert (Hfirst : (if negb (len =? 0) then copy_from_user (buffer log) (w_off log) u 0 len else Ok (buffer log, 0))
    = Ok (b1, len - Z.max 0 (Z.min len (zlen u - 0)))).
  { unfold copy_from_user. rewrite E1. cbn [mbind res_bind]. destruct (Z.eqb_spec len 0) as [E0|]; [|done].
    cbn [negb]. rewrite E0 in *. unfold memcpy in E1. cbn in E1. injection E1 as ->. do 2 f_equal. lia. }
  rewrite Hfirst. cbn [mbind res_bind]. clear Hfirst.
  destruct (Z.eqb_spec (len - Z.max 0 (Z.min len (zlen u - 0))) 0) as [Ea|Ea]; cbn [negb].
  2: { cbn [owp]. exists b1, (klog_buf log), (user_bytes u 0 len), len. rewrite Ef.
       split; [done|]. split; [lia|]. split; [now apply user_bytes_u8|]. split; [done|]. left. split; [done|]. split; [lia|done]. }
  assert (Hsecond : (if negb (count =? len) then copy_from_user b1 0 u len (count - len) else Ok (b1, 0))
    = Ok (b2, count - len - Z.max 0 (Z.min (count - len) (zlen u - len)))).
  { unfold copy_from_user. rewrite E2. cbn [mbind res_bind]. destruct (Z.eqb_spec count len) as [E0|]; [|done].
    cbn [negb]. rewrite <- E0, Z.sub_diag in E2. unfold memcpy in E2. cbn in E2. injection E2 as ->. do 2 f_equal. lia. }
  rewrite Hsecond. cbn [mbind res_bind]. clear Hsecond.
  set (src := user_bytes u 0 len ++ user_bytes u len (count - len)) in *.
  assert (Hs8 : Forall is_u8 src) by (apply Forall_app; split; now apply user_bytes_u8).
  destruct (Z.eqb_spec (count - len - Z.max 0 (Z.min (count - len) (zlen u - len))) 0) as [Eb|Eb]; cbn [negb].
  2: { cbn [owp]. exists b2, (klog_buf log), src, count. rewrite Ef.
       split; [done|]. split; [lia|]. split; [done|]. split; [done|]. left. split; [done|]. split; [lia|done]. }
  assert (Hcu : count <= zlen u) by lia.
  assert (Es : src = take (Z.to_nat count) u).
  { unfold src. rewrite !user_bytes_full by lia. change (Z.to_nat 0) with O. rewrite drop_0.
    rewrite <- (take_drop (Z.to_nat len) (take (Z.to_nat count) u)). f_equal.
    - rewrite take_take. f_equal. lia.
    - rewrite skipn_firstn_comm || rewrite <- take_drop_commute; f_equal; lia. }
  assert (Hg2 : geo_ok (set_log_buffer log b2)).
  { destruct Hg as (Hpow & _). split; [exact Hpow|]. destruct H2 as (Hzb & H2). split; [cbn; lia|]. split; [done|].
    split; [|done]. apply (ring_in_bytes (buffer log) b2 (w_off log) src count); auto; [lia|lia|]. split; [done|exact H2]. }
  apply owp_bind. eapply owp_mono; [apply (klog_hook_ok (set_log_buffer log b2) count Hg2)| |].
  - intros klog Hkl. cbn [owp]. rewrite (geo_offset _ _ Hg2). exists b2, klog, src, count.
    split; [done|]. split; [lia|]. split; [done|]. split; [done|]. right. repeat split; try done. cbn. now rewrite Hz.
  - cbn [buffer w_off set_log_buffer]. intros Hm. destruct H2 as (_ & _ & Hat).
    rewrite Hat, Z.sub_diag, Z.mod_0_l in Hm by lia. destruct (Z.ltb_spec 0 count); [|left; lia].
    right. rewrite <- Hm, Es, at_take by lia. done.
Qed.

Definition total_len (segs : list iovec) : Z := foldr (fun s n => iov_len s + n) 0 segs.
Definition seg_bytes (segs : list iovec) : list Z :=
  concat ((fun s => take (Z.to_nat (iov_len s)) (iov_data s)) <$> segs).
Definition seg_ok (s : iovec) : Prop := 0 <= iov_len s /\ Forall is_u8 (iov_data s).

(** Segments whose first byte is [!], or that are empty, reach the part of the
    boot-time hook that may read past the end of the ring. *)
Definition seg_mark (s : iovec) : Prop := iov_len s = 0 \/ at_ 0 (iov_data s) 0 = 33.

(** While an entry of [L] bytes is being written, [data] of it are in place. *)
Definition writing (L : Z) (ess : list (list (list Z))) (data : list Z) (log : logger_log) : Prop :=
  geo_ok log /\ Forall2 (fun r es => holds (buffer log) (w_off log) r es data /\
    zlen (concat es) + L < size log) (offs log) ess.

Definition at_orig (orig : Z) (ess : list (list (list Z))) (log : logger_log) : Prop :=
  Forall2 (fun r es => orig = (r + zlen (concat es)) mod size log) (offs log) ess.

Lemma writing_step L ess data log b klog src m : writing L ess data log ->
  0 <= m -> zlen data + m <= L -> ring_in (buffer log) b (w_off log) src m -> zlen src = m ->
  Forall is_u8 src -> zlen klog = 256 ->
  writing L ess (data ++ src) (set_w_off (set_klog (set_log_buffer log b) klog) ((w_off log + m) mod size log)).
Proof.
  intros [Hg Hh] Hm HL Hin Hsrc Hs8 Hkl. pose proof Hg as (Hpow & Hz & Hw & Hb8 & Hk). pose proof (geo_size log Hg).
  split.
  - split; [exact Hpow|]. pose proof Hin as (Hzb & _). split; [cbn; lia|].
    split; [cbn; apply Z.mod_pos_bound; lia|]. split; [|done]. cbn.
    apply (ring_in_bytes (buffer log) b (w_off log) src m); auto; lia.
  - eapply Forall2_impl; [|exact Hh]. cbn. intros r es [Hr Hl]. split; [|exact Hl]. rewrite <- Hz.
    pose proof (holds_write (buffer log) b r es data src m (w_off log) Hr Hm ltac:(lia) Hin) as Hwr.
    rewrite (take_ge src) in Hwr by (unfold zlen in Hsrc; lia). exact Hwr.
Qed.

Lemma writing_abort L ess data log b klog src m orig : writing L ess data log ->
  0 <= m -> zlen data + m <= L -> ring_in (buffer log) b (w_off log) src m -> Forall is_u8 src ->
  zlen klog = 256 -> 0 <= orig < size log -> at_orig orig ess log ->
  let log' := set_w_off (set_klog (set_log_buffer log b) klog) orig in
  geo_ok log' /\ Forall2 (fun r es => chain log' r es) (offs log') ess.
Proof.
  intros [Hg Hh] Hm HL Hin Hs8 Hkl Ho Hor. pose proof Hg as (Hpow & Hz & Hw & Hb8 & Hk). pose proof (geo_size log Hg).
  split.
  - split; [exact Hpow|]. pose proof Hin as (Hzb & _). split; [cbn; lia|]. split; [done|]. split; [|done]. cbn.
    apply (ring_in_bytes (buffer log) b (w_off log) src m); auto; lia.
  - unfold at_orig in Hor. apply Forall2_same_length_lookup_2.
    { apply Forall2_length in Hh. exact Hh. }
    intros i r es Hi1 Hi2. destruct (Forall2_lookup_lr _ _ _ _ _ _ Hh Hi1 Hi2) as [Hr Hl].
    pose proof (Forall2_lookup_lr _ _ _ _ _ _ Hor Hi1 Hi2) as Ho2. cbn beta in Ho2.
    pose proof (zlen_nonneg data). split; [|cbn; lia]. cbn.
    apply (holds_keep (buffer log) b r es data src m (w_off log)); auto; [lia|]. now rewrite Hz.
Qed.

Lemma total_len_nonneg segs : Forall seg_ok segs -> 0 <= total_len segs.
Proof. induction 1 as [|s segs [Hs _] _ IH]; cbn [total_len foldr]; [lia|]. unfold total_len in IH. lia. Qed.

Lemma take_segments n s segs : 0 <= n -> 0 <= iov_len s -> Z.min (iov_len s) n <= zlen (iov_data s) ->
  take (Z.to_nat n) (seg_bytes (s :: segs)) =
  take (Z.to_nat (Z.min (iov_len s) n)) (iov_data s) ++ take (Z.to_nat (n - Z.min (iov_len s) n)) (seg_bytes segs).
Proof.
  intros Hn Hs Hz. unfold seg_bytes. cbn [fmap list_fmap concat]. unfold zlen in Hz.
  rewrite firstn_app, take_take, length_take. f_equal; f_equal; lia.
Qed.

(** On an error the write offset becomes [orig]; [old] is where the entry starts. *)
Lemma write_segments_ok log orig old hlen segs ess header pay :
  writing (zlen header + hlen) ess (header ++ pay) log -> 0 <= old < size log -> at_orig old ess log ->
  zlen pay <= hlen <= LOGGER_ENTRY_MAX_LEN -> Forall seg_ok segs -> hlen - zlen pay <= total_len segs ->
  zlen header <= 20 ->
  owp (write_segments log orig hlen segs (zlen pay)) (fun '(log', n) =>
    (head log' = head log /\ readers log' = readers log) /\ size log' = size log /\
    (n = - EFAULT /\ w_off log' = orig /\ geo_ok (set_w_off log' old) /\ Forall2 (fun r es => chain (set_w_off log' old) r es) (offs log') ess \/
     n = hlen /\ writing (zlen header + hlen) ess
       (header ++ pay ++ take (Z.to_nat (hlen - zlen pay)) (seg_bytes segs)) log' /\
       zlen (pay ++ take (Z.to_nat (hlen - zlen pay)) (seg_bytes segs)) = hlen))
    (Exists seg_mark segs \/ hlen - zlen pay < total_len segs).
Proof.
  unfold LOGGER_ENTRY_MAX_LEN. intros Hw Ho Hor Hp Hsegs Htot H20. revert log pay Hw Ho Hor Hp Htot.
  induction Hsegs as [|s segs [Hs Hs8] Hsg IH]; intros log pay Hw Ho Hor Hp Htot; cbn [write_segments].
  - cbn [total_len foldr] in Htot. cbn [owp]. split; [done|]. split; [done|]. right. split; [lia|].
    unfold seg_bytes. cbn [fmap list_fmap concat]. rewrite take_nil, app_nil_r. split; [done|lia].
  - pose proof (total_len_nonneg segs Hsg). change (total_len (s :: segs)) with (iov_len s + total_len segs) in *.
    pose proof (zlen_nonneg pay). pose proof (zlen_nonneg header). pose proof Hw as [Hg _]. pose proof (geo_size log Hg).
    rewrite u32_id by (unfold is_u32; lia). set (len := Z.min (iov_len s) (hlen - zlen pay)).
    cbv zeta. apply owp_bind.
    eapply owp_mono; [apply (write_from_user_ok log (iov_data s) len Hg); [lia|done]| |].
    + intros [log1 nr] (b & klog & src & m & Hin & Hm & Hsr8 & Hkl & [(-> & Hlt & ->)|(-> & Hle & -> & -> & ->)]).
      * change (- EFAULT <? 0) with true. cbv iota. cbn [owp].
        destruct (writing_abort _ _ _ _ b klog src m old Hw) as [Ha Hb]; auto; [lia|rewrite zlen_app; lia|].
        split; [done|]. split; [done|]. left. split; [done|]. split; [done|]. split; [exact Ha|exact Hb].
      * destruct (Z.ltb_spec len 0); [lia|].
        assert (Hzt : zlen (take (Z.to_nat len) (iov_data s)) = len) by (apply zlen_take; lia).
        pose proof (writing_step _ _ _ _ b klog _ len Hw ltac:(lia) ltac:(rewrite zlen_app; lia) Hin Hzt Hsr8 Hkl) as Hw2.
        rewrite <- app_assoc in Hw2. set (pay2 := pay ++ take (Z.to_nat len) (iov_data s)) in *.
        assert (Hzp : zlen pay2 = zlen pay + len) by (unfold pay2; rewrite zlen_app; lia).
        rewrite <- Hzp. specialize (IH _ pay2 Hw2 Ho Hor ltac:(lia) ltac:(lia)).
        eapply owp_mono; [exact IH| |].
        -- intros [log2 n] (Eo & Esz & Hr). split; [exact Eo|]. split; [exact Esz|].
           rewrite take_segments by lia. fold len. rewrite (app_assoc pay). fold pay2.
           replace (hlen - zlen pay - len) with (hlen - zlen pay2) by lia. exact Hr.
        -- intros [HB|HB]; [left; now right|right; lia].
    + intros [HB|HB]; [|left; left; now right].
      destruct (Z.eq_dec (iov_len s) 0) as [Hz0|Hz0]; [left; left; now left|]. right. lia.
Qed.

(** The chains after the fix-up are those before without what the write takes. *)
Definition cut (log : logger_log) (len : Z) (es es' : list (list Z)) : Prop :=
  exists k, dropped (size log) len es k /\ es' = drop k es.

Lemma fix_up_list_ok log len rs ess : geo_ok log -> 0 < len <= LOGGER_ENTRY_MAX_LEN ->
  Forall2 (chain log) rs.*2 ess ->
  wp (fix_up_list log (w_off log) (logger_offset log (w_off log + len)) len rs) (fun rs' =>
    rs'.*1 = rs.*1 /\ exists ess', Forall2 (fun r' es' => chain log r' es' /\ zlen (concat es') + len < size log) rs'.*2 ess' /\
      Forall2 (cut log len) ess ess').
Proof.
  intros Hg Hl. revert ess. induction rs as [|[id r] rs IH]; intros ess H; cbn [fix_up_list].
  - wp_steps. split; [done|]. exists []. inversion H; subst. split; constructor.
  - inversion H as [|? es ? ess0 Hc Hcs]; subst. apply wp_bind.
    eapply wp_mono; [apply (fix_up_offset_ok log r es len Hg Hc Hl)|]. intros r' (k & Hk & Hc' & Hroom).
    apply wp_bind. eapply wp_mono; [apply (IH ess0 Hcs)|]. intros rs' (E1 & ess' & H1 & H2). wp_steps.
    split; [cbn; now rewrite E1|]. exists (drop k es :: ess'). split; constructor; auto. now exists k.
Qed.

Lemma fix_up_readers_ok log len ess : geo_ok log -> 0 < len <= LOGGER_ENTRY_MAX_LEN ->
  Forall2 (chain log) (offs log) ess ->
  wp (fix_up_readers log len) (fun log' => (exists h rs, log' = set_offsets log h rs) /\
    (readers log').*1 = (readers log).*1 /\
    exists ess', Forall2 (fun r' es' => chain log r' es' /\ zlen (concat es') + len < size log) (offs log') ess' /\
      Forall2 (cut log len) ess ess').
Proof.
  intros Hg Hl H. inversion H as [|? es ? ess0 Hc Hcs]; subst. unfold fix_up_readers. cbv zeta.
  apply wp_bind. eapply wp_mono; [apply (fix_up_offset_ok log (head log) es len Hg Hc Hl)|].
  intros h (k & Hk & Hc' & Hroom). apply wp_bind.
  eapply wp_mono; [apply (fix_up_list_ok log len (readers log) ess0 Hg Hl Hcs)|].
  intros rs (E1 & ess' & H1 & H2). wp_steps. split; [now exists h, rs|]. split; [done|].
  exists (drop k es :: ess'). split; constructor; auto. now exists k.
Qed.

Lemma do_write_log_ok log src L ess : writing L ess [] log -> 0 <= zlen src <= L -> zlen src <= size log -> Forall is_u8 src ->
  wp (do_write_log log src (zlen src)) (fun log' => writing L ess src log' /\ offs log' = offs log /\
    readers log' = readers log /\ size log' = size log).
Proof.
  intros Hw Hs Hsz H8. pose proof Hw as [Hg _]. pose proof Hg as (_ & Hz & Hwr & _ & Hk).
  unfold do_write_log. rewrite <- Hz. set (len := Z.min (zlen src) (zlen (buffer log) - w_off log)).
  destruct (ring_copy_in_ok (buffer log) (w_off log) src (zlen src)) as (b & E & Hb & Hat); [lia|lia|lia|].
  unfold ring_copy_in in E. fold len in E.
  destruct (memcpy (buffer log) (w_off log) src 0 len) as [b1|] eqn:E1; [|done]. cbn [mbind res_bind] in *.
  assert (E2 : (if negb (zlen src =? len) then memcpy b1 0 src len (zlen src - len) else Ok b1) = Ok b).
  { destruct (Z.eqb_spec (zlen src) len) as [E0|]; [|exact E]. cbn [negb]. rewrite <- E0, Z.sub_diag in E. exact E. }
  rewrite E2. cbn [mbind res_bind]. wp_steps. rewrite geo_offset by done.
  pose proof (writing_step L ess [] log b (klog_buf log) src (zlen src) Hw ltac:(lia) ltac:(unfold zlen at 1; cbn [length]; lia)
    (conj Hb (conj (Z.le_refl _) Hat)) eq_refl H8 Hk) as Hw2.
  split; [|done]. destruct log; exact Hw2.
Qed.

Lemma le16_ok x : is_u16 x -> zlen (le16 x) = 2 /\ Forall is_u8 (le16 x) /\ x = at_ 0 (le16 x) 0 + 256 * at_ 0 (le16 x) 1.
Proof.
  unfold is_u16, is_u8, le16, at_. cbn [Z.to_nat nth]. intros Hx. split; [reflexivity|]. split.
  - repeat constructor; apply Z.mod_pos_bound; lia.
  - change (x = x mod 256 + 256 * (x / 256 mod 256)). pose proof (Z.div_mod x 256 ltac:(lia)).
    rewrite (Z.mod_small (x / 256)); [lia|]. split; [apply Z.div_pos|apply Z.div_lt_upper_bound]; lia.
Qed.

Lemma le16_u8 x : Forall is_u8 (le16 x).
Proof. repeat constructor; apply Z.mod_pos_bound; lia. Qed.
Lemma le32_u8 x : Forall is_u8 (le32 x).
Proof. apply Forall_app. split; apply le16_u8. Qed.

Lemma header_ok len pad pid tid sec nsec payload : is_u16 len -> zlen payload = len -> Forall is_u8 payload ->
  zlen (entry_header len pad pid tid sec nsec) = 20 /\ Forall is_u8 (entry_header len pad pid tid sec nsec) /\
  entry_ok (entry_header len pad pid tid sec nsec ++ payload).
Proof.
  intros Hl Hp H8. assert (H1 : zlen (entry_header len pad pid tid sec nsec) = 20) by reflexivity.
  assert (H2 : Forall is_u8 (entry_header len pad pid tid sec nsec))
    by (unfold entry_header; repeat (apply Forall_app; split); apply le16_u8 || apply le32_u8).
  split; [done|]. split; [done|]. split; [|apply Forall_app; done].
  rewrite zlen_app, H1, Hp. unfold sizeof_logger_entry. destruct (le16_ok len Hl) as (_ & _ & E). rewrite E at 1. reflexivity.
Qed.

Lemma seg_bytes_u8 segs : Forall seg_ok segs -> Forall is_u8 (seg_bytes segs).
Proof.
  unfold seg_bytes. induction 1 as [|s segs [_ Hs] _ IH]; cbn; [constructor|]. apply Forall_app. split; [now apply Forall_take|done].
Qed.

Lemma starts_with_mark_ok k : 2 <= zlen k -> exists m, starts_with_mark k 0 = Ok m.
Proof.
  intros Hk. unfold starts_with_mark. rewrite (rd_at 0 k 0) by lia. cbn [mbind res_bind].
  destruct (at_ 0 k 0 =? 33); cbn [negb]; [|eauto]. rewrite (rd_at 0 k (0 + 1)) by lia. cbn [mbind res_bind]. eauto.
Qed.

Lemma log_chains log : log_ok log -> exists ess, Forall2 (chain log) (offs log) ess.
Proof.
  intros [_ H]. induction H as [|r rs [es Hc] _ [ess IH]]; [exists []; constructor|]. exists (es :: ess). now constructor.
Qed.

(** Entries can be told apart, so an offset determines its chain. *)
Lemma entries_unique es : forall es', Forall entry_ok es -> Forall entry_ok es' -> concat es = concat es' -> es = es'.
Proof.
  induction es as [|e es IH]; intros [|e' es'] H H' E; [done|..];
    repeat match goal with H : Forall _ (_ :: _) |- _ => apply Forall_cons_1 in H as [? ?] end; cbn [concat] in E.
  - pose proof (entry_len e' ltac:(done)) as Hl. apply (f_equal zlen) in E. rewrite zlen_app in E. pose proof (zlen_nonneg (concat es')).
    change (zlen (@nil Z)) with 0 in E. lia.
  - pose proof (entry_len e ltac:(done)) as Hl. apply (f_equal zlen) in E. rewrite zlen_app in E. pose proof (zlen_nonneg (concat es)).
    change (zlen (@nil Z)) with 0 in E. lia.
  - assert (Hlen : forall x rest, entry_ok x -> zlen x = sizeof_logger_entry + (at_ 0 (x ++ rest) 0 + 256 * at_ 0 (x ++ rest) 1)).
    { intros x rest Hx. pose proof (entry_len x Hx). rewrite !at_app by lia.
      destruct (Z.ltb_spec 0 (zlen x)), (Z.ltb_spec 1 (zlen x)); try lia. apply Hx. }
    pose proof (Hlen e (concat es) ltac:(done)) as Ha. pose proof (Hlen e' (concat es') ltac:(done)) as Hb. rewrite <- E in Hb.
    apply app_inj_1 in E as [-> E]; [|unfold zlen in *; lia]. f_equal. auto.
Qed.

Lemma chain_unique log r es es' : geo_ok log -> chain log r es -> chain log r es' -> es = es'.
Proof.
  intros (_ & Hz & _) [(H1 & Hr & Hb & Hw) Hl] [(H1' & _ & Hb' & Hw') Hl']. apply entries_unique; [done..|].
  rewrite Hz in *. change (zlen (@nil Z)) with 0 in *. rewrite Z.add_0_r in *.
  assert (zlen (concat es) = zlen (concat es')) as En.
  { pose proof (zlen_nonneg (concat es)). pose proof (zlen_nonneg (concat es')).
    apply (f_equal (fun x => (x - r) mod size log)) in Hw, Hw'. rewrite Zminus_mod_idemp_l in Hw, Hw'.
    replace (r + zlen (concat es) - r) with (zlen (concat es)) in Hw by lia.
    replace (r + zlen (concat es') - r) with (zlen (concat es')) in Hw' by lia. rewrite Z.mod_small in Hw, Hw' by lia. congruence. }
  rewrite <- En, Hb, !app_nil_r in Hb'. exact Hb'.
Qed.

(** The relation between the offsets before and after a write of [len] bytes
    that adds [new]: what was to be read stays to be read, but for the entries
    that the write takes. *)
Definition moved (log log' : logger_log) (len : Z) (new : list (list Z)) (r r' : Z) : Prop :=
  (exists es, chain log r es) /\
  forall es, chain log r es -> exists k, dropped (size log) len es k /\ chain log' r' (drop k es ++ new).

Lemma moved_log_ok log log' len new rs rs' : Forall2 (moved log log' len new) rs rs' ->
  Forall (fun r => exists es, chain log' r es) rs'.
Proof. induction 1 as [|r r' ? ? ((es & He) & H)]; constructor; [|done]. destruct (H es He) as (k & _ & Hk). eauto. Qed.

Lemma moved_intro log log' len new rs ess rs' ess' : geo_ok log -> Forall2 (chain log) rs ess ->
  Forall2 (cut log len) ess ess' ->
  Forall2 (fun r' es' => chain log' r' (es' ++ new)) rs' ess' -> Forall2 (moved log log' len new) rs rs'.
Proof.
  intros Hg H1 H2. revert rs rs' H1. induction H2 as [|es es' ess ess' (k & Hk & ->) _ IH]; intros rs rs' H1 H3;
    inversion H1; inversion H3; subst; constructor; eauto. split; [now exists es|].
  intros es2 H. rewrite (chain_unique log _ es2 es Hg) by done. now exists k.
Qed.

Lemma writing_done log0 L ess data log : writing L ess data log -> entry_ok data -> zlen data = L ->
  size log0 = size log -> geo_ok log /\ Forall2 (fun r es => chain log r (es ++ [data])) (offs log) ess.
Proof.
  intros [Hg H] He HL _. split; [done|]. eapply Forall2_impl; [|exact H]. cbn beta.
  intros r es [(Hes & Hr & Hb & Hw) Hl].
  assert (Ec : concat (es ++ [data]) = concat es ++ data) by (rewrite concat_app; cbn [concat]; now rewrite app_nil_r).
  split; [|rewrite Ec, zlen_app; lia]. split; [apply Forall_app; auto|]. split; [done|].
  rewrite Ec, !zlen_app. change (zlen ([] : list Z)) with 0. rewrite Z.add_0_r, app_nil_r. done.
Qed.

Lemma logger_aio_write_ok log orig pad pid tid sec nsec ki_left segs :
  log_ok log -> 0 < ki_left < 2 ^ 31 -> Forall seg_ok segs -> total_len segs = ki_left ->
  let hlen := Z.min ki_left LOGGER_ENTRY_MAX_PAYLOAD in
  let entry := entry_header hlen pad pid tid sec nsec ++ take (Z.to_nat hlen) (seg_bytes segs) in
  owp (logger_aio_write log orig pad pid tid sec nsec ki_left segs) (fun '(log', ret, _) =>
    (readers log').*1 = (readers log).*1 /\
    (ret = - EFAULT /\ w_off log' = orig /\ geo_ok (set_w_off log' (w_off log)) /\
       Forall2 (moved log (set_w_off log' (w_off log)) (sizeof_logger_entry + hlen) []) (offs log) (offs log') \/
     ret = hlen /\ geo_ok log' /\ Forall2 (moved log log' (sizeof_logger_entry + hlen) [entry]) (offs log) (offs log')))
    (Exists seg_mark segs \/ LOGGER_ENTRY_MAX_PAYLOAD < ki_left).
Proof.
  intros Hok Hki Hsegs Htot hlen entry. pose proof Hok as [Hg _]. destruct (log_chains log Hok) as [ess Hess].
  pose proof (geo_size log Hg) as Hsz. pose proof Hg as (_ & _ & Hwr & _).
  assert (Hh : 0 < hlen <= 4076) by (unfold hlen, LOGGER_ENTRY_MAX_PAYLOAD, LOGGER_ENTRY_MAX_LEN, sizeof_logger_entry; lia).
  assert (Hhk : hlen <= ki_left) by (unfold hlen; lia).
  set (header := entry_header hlen pad pid tid sec nsec) in *.
  destruct (header_ok hlen pad pid tid sec nsec (replicate (Z.to_nat hlen) 0)) as (Hz20 & Hh8 & _);
    [unfold is_u16; lia|unfold zlen; rewrite length_replicate; lia|apply Forall_replicate; unfold is_u8; lia|]. fold header in Hz20, Hh8.
  unfold logger_aio_write. fold hlen. fold header. cbv zeta. destruct (Z.eqb_spec hlen 0); [lia|].
  apply owp_bind. pose proof (fix_up_readers_ok log (sizeof_logger_entry + hlen) ess Hg
    ltac:(unfold sizeof_logger_entry, LOGGER_ENTRY_MAX_LEN; lia) Hess) as Hf.
  destruct (fix_up_readers log (sizeof_logger_entry + hlen)) as [log1|]; [|done]. cbn [wp owp] in *.
  destruct Hf as ((h & rs & ->) & Hids & ess' & Hch & Hdr). set (log1 := set_offsets log h rs) in *.
  assert (Hw0 : writing (20 + hlen) ess' [] log1).
  { split; [exact Hg|]. eapply Forall2_impl; [|exact Hch]. cbn beta. intros r es [Hc Hl]. split; [apply Hc|exact Hl]. }
  assert (Horig : at_orig (w_off log) ess' log1).
  { eapply Forall2_impl; [|exact Hch]. cbn beta. intros r es [[(_ & _ & _ & Hw) _] _].
    change (zlen ([] : list Z)) with 0 in Hw. rewrite Z.add_0_r in Hw. destruct Hg as (_ & Hz & _). now rewrite <- Hw, Hz. }
  apply owp_bind. pose proof (do_write_log_ok log1 header (20 + hlen) ess' Hw0 ltac:(lia) ltac:(change (size log1) with (size log); lia) Hh8) as Hd.
  rewrite Hz20 in Hd. change sizeof_logger_entry with 20. destruct (do_write_log log1 header 20) as [log2|]; [|done].
  cbn [wp owp] in *. destruct Hd as (Hw2 & Eoffs & Erd & Esz).
  apply owp_bind.
  pose proof (write_segments_ok log2 orig (w_off log) hlen segs ess' header []) as Hs. rewrite app_nil_r, Hz20 in Hs.
  change (zlen ([] : list Z)) with 0 in Hs. rewrite Z.sub_0_r in Hs.
  specialize (Hs Hw2 ltac:(rewrite Esz; exact Hwr) ltac:(unfold at_orig; rewrite Eoffs, Esz; exact Horig)
    ltac:(unfold LOGGER_ENTRY_MAX_LEN; lia) Hsegs ltac:(lia) ltac:(lia)).
  eapply owp_mono; [exact Hs| |]; clear Hs.
  - intros [log3 ret] ([Eh Er] & Esz3 & Hr).
    assert (Hrd : (readers log3).*1 = (readers log).*1) by (rewrite Er, Erd; exact Hids).
    assert (Eo3 : offs log3 = offs log1) by (unfold offs; rewrite Eh, Er; exact Eoffs).
    destruct Hr as [(-> & Ew & Hg3 & Hc3)|(-> & Hw3 & Hz3)].
    + change (- EFAULT <? 0) with true. cbv iota. cbn [owp]. split; [done|]. left. split; [done|]. split; [done|]. split; [done|].
      apply (moved_intro log (set_w_off log3 (w_off log)) _ [] (offs log) ess (offs log3) ess' Hg Hess Hdr).
      eapply Forall2_impl; [|exact Hc3]. cbn beta. intros r es. now rewrite app_nil_r.
    + destruct (Z.ltb_spec hlen 0); [lia|]. pose proof (proj1 Hw3) as Hg3.
      destruct (starts_with_mark_ok (klog_buf log3)) as [m ->]; [destruct Hg3 as (_ & _ & _ & _ & ->); lia|].
      cbn [mbind res_bind owp]. split; [done|]. right. split; [done|]. split; [done|].
      cbn [app] in Hz3, Hw3. destruct (header_ok hlen pad pid tid sec nsec (take (Z.to_nat hlen) (seg_bytes segs))) as (_ & _ & He);
        [unfold is_u16; lia|done|now apply Forall_take, seg_bytes_u8|]. fold header in He.
      destruct (writing_done log _ _ _ _ Hw3 He) as [_ Hc3]; [rewrite zlen_app; lia|now rewrite Esz3, Esz|].
      apply (moved_intro log log3 _ [entry] (offs log) ess (offs log3) ess' Hg Hess Hdr). exact Hc3.
  - rewrite Htot. intros [HB|HB]; [now left|right]. unfold hlen in HB. lia.
Qed.

(** The write theorem for any write offset [orig] read before the mutex. *)
Lemma logger_write_facts log orig pad pid tid sec nsec ki_left segs :
  log_ok log -> 0 < ki_left < 2 ^ 31 -> Forall seg_ok segs -> total_len segs = ki_left ->
  let hlen := Z.min ki_left LOGGER_ENTRY_MAX_PAYLOAD in
  let len := sizeof_logger_entry + hlen in
  let entry := entry_header hlen pad pid tid sec nsec ++ take (Z.to_nat hlen) (seg_bytes segs) in
  match logger_aio_write log orig pad pid tid sec nsec ki_left segs with
  | Ok (log', ret, _) =>
      (readers log').*1 = (readers log).*1 /\
      (ret = - EFAULT /\ w_off log' = orig /\
         (let back := set_w_off log' (w_off log) in log_ok back /\ Forall2 (moved log back len []) (offs log) (offs back)) \/
       ret = hlen /\ log_ok log' /\ entry_ok entry /\ Forall2 (moved log log' len [entry]) (offs log) (offs log'))
  | Err e => e = OutOfBounds /\ (Exists seg_mark segs \/ LOGGER_ENTRY_MAX_PAYLOAD < ki_left)
  end.
Proof.
  intros Hok Hki Hsegs Htot hlen len entry.
  pose proof (logger_aio_write_ok log orig pad pid tid sec nsec ki_left segs Hok Hki Hsegs Htot) as H.
  fold hlen in H. fold entry in H. cbv zeta in H. fold len in H.
  destruct (logger_aio_write log orig pad pid tid sec nsec ki_left segs) as [[[log' ret] p]|[]]; cbn [owp] in H; try done.
  destruct H as (Hids & [(-> & Ew & Hg & Hm)|(-> & Hg & Hm)]); (split; [done|]); [left|right]; (split; [done|]).
  - split; [done|]. split; [split; [done|exact (moved_log_ok _ _ _ _ _ _ Hm)]|exact Hm].
  - split; [split; [done|exact (moved_log_ok _ _ _ _ _ _ Hm)]|]. split; [|done].
    inversion Hm as [|? ? ? ? ((es & He) & Hd) _]; subst. destruct (Hd es He) as (k & _ & [Hes _] & _).
    apply Forall_app in Hes as [_ Hes]. now apply Forall_cons_1 in Hes as [Hes _].
Qed.

(** * A concrete log and the boot-message hook *)

Definition fresh_log (n : nat) (w : Z) : logger_log :=
  Log (replicate n 0) [(1, w)] w w (Z.of_nat n) (replicate 256 0).

Lemma fresh_log_ok w : 0 <= w < 8192 -> log_ok (fresh_log (Z.to_nat 8192) w).
Proof.
  intros Hw. assert (Hz : zlen (replicate (Z.to_nat 8192) 0) = 8192) by (unfold zlen; rewrite length_replicate; lia).
  assert (Hc : exists es, chain (fresh_log (Z.to_nat 8192) w) w es).
  { exists []. split; [|cbn [concat size fresh_log]; change (zlen ([] : list Z)) with 0; lia].
    split; [constructor|]. cbn [buffer w_off fresh_log concat]. rewrite Hz. split; [done|]. split; [reflexivity|].
    change (zlen ([] : list Z)) with 0. rewrite !Z.add_0_r. now apply Z.mod_small. }
  split; [|repeat constructor; exact Hc].
  split; [exists 13; split; [lia|reflexivity]|]. cbn [buffer w_off size klog_buf fresh_log]. split; [rewrite Hz; lia|].
  split; [lia|]. split; [apply Forall_replicate; unfold is_u8; lia|reflexivity].
Qed.

(** * Two writers *)

(** Both see the write offset 0.  The first to get the mutex writes one byte, the
    second has a bad address. *)
Definition log_after (r : res (logger_log * Z * option (list Z))) : logger_log :=
  match r with Ok (log, _, _) => log | Err _ => fresh_log 0 0 end.
Definition race_start : logger_log := fresh_log (Z.to_nat 8192) 0.
Definition race_first : logger_log := log_after (logger_aio_write race_start 0 0 1 1 3 4 1 [Iovec 1 [66]]).
Definition race_second : logger_log := log_after (logger_aio_write race_first 0 0 2 2 3 4 1 [Iovec 1 []]).
Definition race_entry : list Z := entry_header 1 0 1 1 3 4 ++ [66].

Lemma race_chain log w es : zlen (buffer log) = 8192 -> size log = 8192 -> w_off log = w ->
  Forall entry_ok es -> ring_bytes (buffer log) 0 (zlen (concat es)) = concat es -> zlen (concat es) = w -> w < 8192 -> chain log 0 es.
Proof.
  intros Hz Hs Hw He Hr Hl Hlt. pose proof (zlen_nonneg (concat es)). change (zlen (@nil Z)) with 0 in *.
  split; [|lia]. split; [done|]. rewrite Hz. change (zlen (@nil Z)) with 0. rewrite Z.add_0_r, app_nil_r. split; [lia|].
  split; [done|]. rewrite Z.mod_small; lia.
Qed.

Lemma logger_race_facts :
  log_ok race_start /\ w_off race_start = 0 /\
  logger_aio_write race_start 0 0 1 1 3 4 1 [Iovec 1 [66]] = Ok (race_first, 1, None) /\
  reader_off (readers race_first) 1 = Some 0 /\ chain race_first 0 [race_entry] /\
  logger_aio_write race_first 0 0 2 2 3 4 1 [Iovec 1 []] = Ok (race_second, - EFAULT, None) /\
  reader_off (readers race_second) 1 = Some 0 /\ chain race_second 0 [].
Proof.
  split; [apply fresh_log_ok; lia|]. split; [reflexivity|]. split; [vm_compute; reflexivity|]. split; [vm_compute; reflexivity|].
  split; [|split; [vm_compute; reflexivity|split; [vm_compute; reflexivity|]]].
  - apply (race_chain _ 21); [vm_compute; reflexivity|vm_compute; reflexivity|vm_compute; reflexivity| |vm_compute; reflexivity|reflexivity|lia].
    constructor; [|constructor]. unfold race_entry.
    assert (Forall is_u8 [66]) as H66 by (constructor; [unfold is_u8; lia|constructor]).
    exact (proj2 (proj2 (header_ok 1 0 1 1 3 4 [66] ltac:(unfold is_u16; lia) eq_refl H66))).
  - apply (race_chain _ 0); [vm_compute; reflexivity|vm_compute; reflexivity|vm_compute; reflexivity|constructor|vm_compute; reflexivity|reflexivity|lia].
Qed.

(** C9: writing to a log.  [orig] is the write offset the call read before it
    took the mutex, [log] the log it then finds.  Whatever the state of the ring,
    a write appends exactly one entry (header and payload, cut at the maximum
    payload) at the end of what every reader and the start head will read, or
    fails with EFAULT and appends none.  A reader with room for the entry between
    the write offset and its own loses nothing; one that is lapped loses the
    shortest sequence of its oldest entries that has as many bytes as the write,
    and no other.  On an error the write offset goes back to [orig], and but for
    that offset the log is consistent; so it is when no other writer came between,
    as then [orig] is the offset in [log].  With another writer in between it need
    not be: the entry that the other call reported as written is gone.  The only
    other outcome is the read past the end of the ring by the boot-message hook,
    and it needs a segment that is empty or starts with an exclamation mark, or a
    payload that is cut.  A write of no bytes does nothing. *)
Theorem logger_write_correct :
  (forall log orig pad pid tid sec nsec ki_left segs,
   log_ok log -> 0 < ki_left < 2 ^ 31 -> Forall seg_ok segs -> total_len segs = ki_left ->
   let hlen := Z.min ki_left LOGGER_ENTRY_MAX_PAYLOAD in
   let len := sizeof_logger_entry + hlen in
   let entry := entry_header hlen pad pid tid sec nsec ++ take (Z.to_nat hlen) (seg_bytes segs) in
   match logger_aio_write log orig pad pid tid sec nsec ki_left segs with
   | Ok (log', ret, _) =>
       (readers log').*1 = (readers log).*1 /\
       (ret = - EFAULT /\ w_off log' = orig /\
          (let back := set_w_off log' (w_off log) in log_ok back /\ Forall2 (moved log back len []) (offs log) (offs back)) \/
        ret = hlen /\ log_ok log' /\ entry_ok entry /\ Forall2 (moved log log' len [entry]) (offs log) (offs log'))
   | Err e => e = OutOfBounds /\ (Exists seg_mark segs \/ LOGGER_ENTRY_MAX_PAYLOAD < ki_left)
   end) /\
  (forall log orig pad pid tid sec nsec segs, logger_aio_write log orig pad pid tid sec nsec 0 segs = Ok (log, 0, None)) /\
  (log_ok race_start /\ w_off race_start = 0 /\
   logger_aio_write race_start 0 0 1 1 3 4 1 [Iovec 1 [66]] = Ok (race_first, 1, None) /\
   reader_off (readers race_first) 1 = Some 0 /\ chain race_first 0 [race_entry] /\
   logger_aio_write race_first 0 0 2 2 3 4 1 [Iovec 1 []] = Ok (race_second, - EFAULT, None) /\
   reader_off (readers race_second) 1 = Some 0 /\ chain race_second 0 []).
Proof. split; [exact logger_write_facts|]. split; [reflexivity|exact logger_race_facts]. Qed.

Lemma logger_write_correct_witness :
  exists log', logger_aio_write (fresh_log (Z.to_nat 8192) 8190) 8190 0 1 2 3 4 3 [Iovec 3 [65; 66; 67]]
    = Ok (log', 3, None) /\ log_ok log'.
Proof.
  pose proof (proj1 logger_write_correct (fresh_log (Z.to_nat 8192) 8190) 8190 0 1 2 3 4 3 [Iovec 3 [65; 66; 67]]
    (fresh_log_ok 8190 ltac:(lia)) ltac:(lia)
    ltac:(constructor; [split; [cbn; lia|repeat constructor; unfold is_u8; lia]|constructor]) eq_refl) as H. cbv zeta in H.
  destruct (logger_aio_write _ _ _ _ _ _ _ _ _) as [[[log' ret] p]|e] eqn:E.
  - exists log'. destruct H as (_ & [(Hr & _)|(_ & Hok & _)]); [exfalso; rewrite Hr in E; vm_compute in E; discriminate E|].
    split; [|exact Hok]. rewrite <- E. vm_compute in E |- *. rewrite E. injection E as E1 E2 E3. subst. reflexivity.
  - exfalso. vm_compute in E. discriminate E.
Defined.

(** the boot-message hook can leave the buffer.  The log is well formed and
    an entry starts ten bytes before the end of the ring: its payload
    begins with "!@" and goes on at the start of the ring, but the hook copies
    it from one contiguous range and leaves the buffer. *)
Lemma logger_klog_overread_fact :
  log_ok (fresh_log (Z.to_nat 8192) 8162) /\
  logger_aio_write (fresh_log (Z.to_nat 8192) 8162) 8162 0 1 2 3 4 40 [Iovec 40 ([33; 64] ++ replicate 38 65)]
    = Err OutOfBounds.
Proof. split; [apply fresh_log_ok; lia|vm_compute; reflexivity]. Qed.

(** * Reading and control *)

Lemma reader_chain log id r : log_ok log -> reader_off (readers log) id = Some r -> exists es, chain log r es.
Proof.
  intros [_ H] Hr. apply Forall_cons_1 in H as [_ H]. induction (readers log) as [|[i x] rs IH]; [done|].
  cbn in Hr, H. apply Forall_cons_1 in H as [H1 H2]. destruct (i =? id); [injection Hr as <-; done|auto].
Qed.

Lemma set_reader_same id r rs : NoDup rs.*1 -> reader_off rs id = Some r -> set_reader id r rs = rs.
Proof.
  induction rs as [|[i x] rs IH]; [done|]. cbn. intros Hnd0 Hr. inversion Hnd0 as [|? ? Hni Hnd]; subst.
  destruct (Z.eqb_spec i id) as [->|].
  - injection Hr as ->. f_equal. clear IH Hnd Hnd0. induction rs as [|[j y] rs IH]; [done|]. cbn in *.
    apply not_elem_of_cons in Hni as [Hne Hni]. destruct (Z.eqb_spec j id); [congruence|]. f_equal. auto.
  - f_equal. auto.
Qed.

Lemma reader_off_set id r rs id' : reader_off rs id <> None ->
  reader_off (set_reader id r rs) id' = if id' =? id then Some r else reader_off rs id'.
Proof.
  induction rs as [|[i x] rs IH]; [done|]. cbn. destruct (Z.eqb_spec i id) as [->|Hne]; cbn.
  - intros _. destruct (Z.eqb_spec id id') as [->|Hne']; [now rewrite Z.eqb_refl|].
    destruct (Z.eqb_spec id' id); [congruence|]. clear - Hne'. induction rs as [|[j y] rs IH]; [done|]. cbn.
    destruct (Z.eqb_spec j id) as [->|]; cbn; [destruct (Z.eqb_spec id id'); [congruence|exact IH]|destruct (j =? id'); [done|exact IH]].
  - intros H. destruct (Z.eqb_spec i id') as [->|]; [destruct (Z.eqb_spec id' id); [congruence|done]|auto].
Qed.

Lemma do_read_ok log r buf count : geo_ok log -> 0 <= r < size log -> 0 <= count <= size log ->
  (count <= zlen buf -> do_read_log_to_user log r buf count =
     Ok ((r + count) mod size log, ring_bytes (buffer log) r count ++ drop (Z.to_nat count) buf, count)) /\
  (zlen buf < count -> exists buf', do_read_log_to_user log r buf count = Ok (r, buf', - EFAULT)).
Proof.
  intros Hg Hr Hc. pose proof Hg as (_ & Hz & _). unfold do_read_log_to_user. rewrite <- Hz in *.
  set (len := Z.min count (zlen (buffer log) - r)). pose proof (zlen_nonneg buf). split; intros Hb.
  - pose proof (ring_copy_out_ok buf (buffer log) r count Hr Hc Hb) as E. unfold ring_copy_out in E. fold len in E.
    destruct (copy_to_user_ok buf 0 (buffer log) r len) as (b1 & E1 & ->); [lia..|]. rewrite E1 in E.
    cbn [mbind res_bind negb Z.eqb] in *. pose proof (memcpy_len _ _ _ _ _ _ E1) as Hl1.
    destruct (copy_to_user_ok b1 len (buffer log) 0 (count - len)) as (b2 & E2 & E3); [lia..|].
    rewrite E2 in E. injection E as ->.
    assert (E4 : (if negb (count =? len) then copy_to_user b1 len (buffer log) 0 (count - len) else Ok (b1, 0)) =
      Ok (ring_bytes (buffer log) r count ++ drop (Z.to_nat count) buf, 0)).
    { destruct (Z.eqb_spec count len) as [E0|]; [|exact E3]. cbn [negb]. rewrite <- E0, Z.sub_diag in E2.
      unfold memcpy in E2. cbn in E2. injection E2 as ->. done. }
    rewrite E4. cbn [mbind res_bind negb Z.eqb]. rewrite geo_offset, Hz by done. done.
  - destruct (Z.lt_ge_cases (zlen buf) len).
    + destruct (copy_to_user_short buf 0 (buffer log) r len) as (b1 & k & -> & Hk); [lia..|]. cbn [mbind res_bind].
      destruct (Z.eqb_spec k 0); [lia|]. cbn. eauto.
    + destruct (copy_to_user_ok buf 0 (buffer log) r len) as (b1 & E1 & ->); [lia..|]. cbn [mbind res_bind negb Z.eqb].
      destruct (Z.eqb_spec count len); [lia|]. cbn [negb]. pose proof (memcpy_len _ _ _ _ _ _ E1) as Hl1.
      destruct (copy_to_user_short b1 len (buffer log) 0 (count - len)) as (b2 & k & -> & Hk); [lia..|]. cbn [mbind res_bind].
      destruct (Z.eqb_spec k 0); [lia|]. cbn. eauto.
Qed.

(** Changing only the offsets keeps what the ring holds. *)
Lemma chain_set_offsets log h rs r es : chain (set_offsets log h rs) r es <-> chain log r es.
Proof. done. Qed.

Lemma log_ok_set_reader log id r es : log_ok log -> chain log r es ->
  log_ok (set_offsets log (head log) (set_reader id r (readers log))).
Proof.
  intros [Hg Hc] Hr. split; [exact Hg|]. apply Forall_cons_1 in Hc as [H1 H2]. constructor; [exact H1|].
  cbn [readers set_offsets Z.eqb negb]. induction (readers log) as [|[i x] rs IH]; [constructor|]. cbn in *.
  apply Forall_cons_1 in H2 as [H2 H3]. constructor; [|auto]. destruct (i =? id); [now exists es|exact H2].
Qed.

Lemma chain_head_ne log r e es : chain log r (e :: es) -> geo_ok log -> w_off log <> r /\ zlen e < size log.
Proof.
  intros [(Hes & Hr & _ & Hw) Hl] Hg. apply Forall_cons_1 in Hes as [He _]. pose proof (entry_len e He).
  destruct Hg as (_ & Hz & _). rewrite Hz in *. cbn [concat] in *. rewrite zlen_app in *.
  pose proof (zlen_nonneg (concat es)). change (zlen ([] : list Z)) with 0 in Hw. split; [|lia]. rewrite <- Hw. intros E.
  destruct (Z.lt_ge_cases (r + (zlen e + zlen (concat es) + 0)) (size log)); [rewrite Z.mod_small in E; lia|].
  rewrite <- (Z.mod_unique _ (size log) 1 (r + (zlen e + zlen (concat es) + 0) - size log)) in E; lia.
Qed.

Lemma chain_nil_eq log r : chain log r [] -> geo_ok log -> w_off log = r.
Proof.
  intros [(_ & Hr & _ & Hw) _] (_ & Hz & _). cbn [concat] in Hw. change (zlen ([] : list Z)) with 0 in Hw.
  rewrite !Z.add_0_r, Z.mod_small in Hw by lia. done.
Qed.

(** reading.  A reader whose offset is at the end of the log gets EAGAIN,
    EINTR or sleeps; otherwise a buffer that is too small for the next entry
    gets EINVAL, an inaccessible one EFAULT, both without moving the reader,
    and any other call returns exactly the oldest unread entry and moves this
    reader, and no other, past it. *)
Lemma logger_read_facts log id r es buf count nonblock sigpend :
  log_ok log -> NoDup (readers log).*1 -> reader_off (readers log) id = Some r -> chain log r es ->
  match es with
  | [] => logger_read log id buf count nonblock sigpend =
      Ok (log, buf, if nonblock then ReadRet (- EAGAIN) else if sigpend then ReadRet (- EINTR) else ReadSleep)
  | e :: es' =>
      (count < zlen e -> logger_read log id buf count nonblock sigpend = Ok (log, buf, ReadRet (- EINVAL))) /\
      (zlen e <= count -> zlen buf < zlen e -> exists buf',
         logger_read log id buf count nonblock sigpend = Ok (log, buf', ReadRet (- EFAULT))) /\
      (zlen e <= count -> zlen e <= zlen buf -> exists log' r',
         logger_read log id buf count nonblock sigpend =
           Ok (log', e ++ drop (length e) buf, ReadRet (zlen e)) /\
         log_ok log' /\ chain log' r' es' /\
         forall id', reader_off (readers log') id' = if id' =? id then Some r' else reader_off (readers log) id')
  end.
Proof.
  intros Hok Hnd Hr Hc. pose proof Hok as [Hg _]. unfold logger_read. rewrite Hr. destruct es as [|e es].
  - rewrite (chain_nil_eq log r Hc Hg), Z.eqb_refl. destruct nonblock; [done|]. now destruct sigpend.
  - destruct (chain_head_ne log r e es Hc Hg) as [Hne Hel]. destruct (Z.eqb_spec (w_off log) r); [done|].
    rewrite (get_entry_len_ok log r e es Hg Hc). cbn [mbind res_bind]. pose proof (zlen_nonneg e).
    pose proof Hc as [(_ & Hrr & Hb & _) _]. destruct Hg as (Hpow & Hz & Hrest). rewrite Hz in Hrr.
    destruct (do_read_ok log r buf (zlen e) (conj Hpow (conj Hz Hrest)) Hrr ltac:(lia)) as [Hfull Hshort].
    split; [|split]; intros H1; destruct (Z.ltb_spec count (zlen e)); try lia; [done| |]; intros H2.
    + destruct (Hshort H2) as [buf' ->]. cbn [mbind res_bind]. exists buf'. rewrite set_reader_same by done. now destruct log.
    + rewrite (Hfull H2). cbn [mbind res_bind].
      assert (Hc' : chain log ((r + zlen e) mod size log) es).
      { pose proof (chain_drop log r [e] es (conj Hpow (conj Hz Hrest)) Hc) as Hd. cbn [concat] in Hd. now rewrite app_nil_r in Hd. }
      assert (Eb : ring_bytes (buffer log) r (zlen e) = e).
      { cbn [concat] in Hb. rewrite app_nil_r, zlen_app in Hb. change (zlen ([] : list Z)) with 0 in Hb. rewrite Z.add_0_r in Hb.
        pose proof (zlen_nonneg (concat es)). apply (f_equal (take (Z.to_nat (zlen e)))) in Hb.
        rewrite take_ring_bytes in Hb by lia. rewrite Hb. apply take_app_length'. unfold zlen. lia. }
      do 2 eexists. split; [rewrite Eb; unfold zlen; rewrite Nat2Z.id; reflexivity|].
      split; [now apply (log_ok_set_reader log id _ es)|]. split; [exact Hc'|].
      intros id'. apply reader_off_set. now rewrite Hr.
Qed.

(** control operations.  For a reader with unread entries [es],
    LOGGER_GET_LOG_LEN is the number of their bytes, LOGGER_GET_NEXT_ENTRY_LEN
    the length of the first of them (0 when there is none), poll reports
    readable exactly when there is one; flushing moves every offset past all
    entries; opening adds a reader that will read what the start head points
    at; releasing removes one; all keep the invariant. *)
Lemma logger_control_fact log r es id fw :
  log_ok log -> chain log r es ->
  logger_ioctl log (Some r) fw LOGGER_GET_LOG_LEN = Ok (log, zlen (concat es)) /\
  logger_ioctl log (Some r) fw LOGGER_GET_NEXT_ENTRY_LEN = Ok (log, match es with [] => 0 | e :: _ => zlen e end) /\
  Z.testbit (logger_poll log (Some r)) 0 = match es with [] => false | _ => true end /\
  (exists log', logger_ioctl log None true LOGGER_FLUSH_LOG = Ok (log', 0) /\ log_ok log' /\
     Forall (fun r => chain log' r []) (offs log')) /\
  log_ok (fst (logger_open log 0 true true (Some id))) /\
  (reader_off (readers log) id = None ->
   reader_off (readers (fst (logger_open log 0 true true (Some id)))) id = Some (head log)) /\
  log_ok (logger_release log (Some id)) /\ reader_off (readers (logger_release log (Some id))) id = None.
Proof.
  intros Hok Hc. pose proof Hok as [Hg Hall]. pose proof Hc as [(_ & Hr & _ & Hw) Hl]. pose proof (geo_size log Hg).
  pose proof Hg as (_ & Hz & Hwr & _). rewrite Hz in *. change (zlen ([] : list Z)) with 0 in Hw. rewrite Z.add_0_r in Hw.
  pose proof (zlen_nonneg (concat es)). pose proof Hall as Hall'. apply Forall_cons_1 in Hall' as [Hh Hrs].
  split; [|split; [|split; [|split; [|split; [|split; [|split]]]]]].
  - cbn [logger_ioctl]. do 2 f_equal. destruct (Z.lt_ge_cases (r + zlen (concat es)) (size log)).
    + rewrite Z.mod_small in Hw by lia. destruct (Z.leb_spec r (w_off log)); lia.
    + rewrite <- (Z.mod_unique _ (size log) 1 (r + zlen (concat es) - size log)) in Hw by lia.
      destruct (Z.leb_spec r (w_off log)); lia.
  - cbn [logger_ioctl]. destruct es as [|e es].
    + now rewrite (chain_nil_eq log r Hc Hg), Z.eqb_refl.
    + destruct (chain_head_ne log r e es Hc Hg) as [Hne _]. destruct (Z.eqb_spec (w_off log) r); [done|].
      cbn [negb]. now rewrite (get_entry_len_ok log r e es Hg Hc).
  - unfold logger_poll. destruct es as [|e es].
    + now rewrite (chain_nil_eq log r Hc Hg), Z.eqb_refl.
    + destruct (chain_head_ne log r e es Hc Hg) as [Hne _]. now destruct (Z.eqb_spec (w_off log) r).
  - cbn [logger_ioctl negb]. eexists. split; [reflexivity|].
    assert (Hn : chain log (w_off log) []).
    { split; [|cbn [concat]; change (zlen ([] : list Z)) with 0; lia]. split; [constructor|]. rewrite Hz. split; [done|].
      split; [done|]. cbn [concat]. change (zlen ([] : list Z)) with 0. now rewrite !Z.add_0_r, Z.mod_small by lia. }
    assert (Hf : Forall (fun r => chain log r []) (offs (set_offsets log (w_off log) ((fun x => (x.1, w_off log)) <$> readers log)))).
    { constructor; [exact Hn|]. cbn [readers set_offsets Z.eqb negb]. clear - Hn. induction (readers log); constructor; auto. }
    split; [|exact Hf]. split; [exact Hg|]. eapply Forall_impl; [|exact Hf]. intros x Hx. now exists [].
  - change (log_ok (set_offsets log (head log) (readers log ++ [(id, head log)]))).
    split; [exact Hg|]. constructor; [exact Hh|]. cbn [readers set_offsets].
    rewrite fmap_app. apply Forall_app. split; [exact Hrs|]. repeat constructor. exact Hh.
  - change (readers (fst (logger_open log 0 true true (Some id)))) with (readers log ++ [(id, head log)]). clear. induction (readers log) as [|[i x] rs IH]; cbn.
    + intros _. now rewrite Z.eqb_refl.
    + destruct (i =? id); [done|exact IH].
  - split; [exact Hg|]. constructor; [exact Hh|]. cbn [logger_release readers set_offsets Z.eqb negb].
    clear Hall Hok Hc. induction (readers log) as [|[i x] rs IH]; [constructor|]. cbn in Hrs. apply Forall_cons_1 in Hrs as [H1 H2].
    rewrite filter_cons. destruct (decide _); [constructor|]; auto.
  - cbn [logger_release readers set_offsets Z.eqb negb]. clear. induction (readers log) as [|[i x] rs IH]; [done|].
    rewrite filter_cons. destruct (decide _) as [Hd|]; [|exact IH]. cbn in *. destruct (Z.eqb_spec i id); [done|exact IH].
Qed.

(** control operations.  For a reader with unread entries [es],
    LOGGER_GET_LOG_LEN is the number of their bytes, LOGGER_GET_NEXT_ENTRY_LEN
    the length of the first of them (0 when there is none), poll reports
    readable exactly when there is one; flushing moves every offset past all
    entries; opening adds a reader that will read what the start head points
    at; releasing removes one; all keep the invariant.  The boot-message hook
    of the write path is the exception to memory safety: on a well-formed log
    whose next entry starts ten bytes before the end of the ring it copies a
    "!@" payload from one contiguous range and leaves the buffer. *)
Lemma logger_control_facts :
  (forall log r es id fw,
   log_ok log -> chain log r es ->
   logger_ioctl log (Some r) fw LOGGER_GET_LOG_LEN = Ok (log, zlen (concat es)) /\
   logger_ioctl log (Some r) fw LOGGER_GET_NEXT_ENTRY_LEN = Ok (log, match es with [] => 0 | e :: _ => zlen e end) /\
   Z.testbit (logger_poll log (Some r)) 0 = match es with [] => false | _ => true end /\
   (exists log', logger_ioctl log None true LOGGER_FLUSH_LOG = Ok (log', 0) /\ log_ok log' /\
      Forall (fun r => chain log' r []) (offs log')) /\
   log_ok (fst (logger_open log 0 true true (Some id))) /\
   (reader_off (readers log) id = None ->
    reader_off (readers (fst (logger_open log 0 true true (Some id)))) id = Some (head log)) /\
   log_ok (logger_release log (Some id)) /\ reader_off (readers (logger_release log (Some id))) id = None) /\
  (log_ok (fresh_log (Z.to_nat 8192) 8162) /\
   logger_aio_write (fresh_log (Z.to_nat 8192) 8162) 8162 0 1 2 3 4 40 [Iovec 40 ([33; 64] ++ replicate 38 65)]
     = Err OutOfBounds).
Proof. split; [exact logger_control_fact|]. exact logger_klog_overread_fact. Qed.

(** C32: reading. A reader whose offset is at the end of the log gets EAGAIN,
    EINTR or sleeps; otherwise a buffer that is too small for the next entry
    gets EINVAL, an inaccessible one EFAULT, both without moving the reader,
    and any other call returns exactly the oldest unread entry and moves
    this reader, and no other, past it. Control operations. For a reader
    with unread entries [es], LOGGER_GET_LOG_LEN is the number of their
    bytes, LOGGER_GET_NEXT_ENTRY_LEN the length of the first of them (0 when
    there is none), poll reports readable exactly when there is one;
    flushing moves every offset past all entries; opening adds a reader that
    will read what the start head points at; releasing removes one; all keep
    the invariant. The boot-message hook of the write path is the exception
    to memory safety: on a well-formed log whose next entry starts ten bytes
    before the end of the ring it copies a "!@" payload from one contiguous
    range and leaves the buffer. *)
Theorem logger_read_control_correct :
  (forall log id r es buf count nonblock sigpend,
   log_ok log -> NoDup (readers log).*1 -> reader_off (readers log) id = Some r -> chain log r es ->
   match es with
   | [] => logger_read log id buf count nonblock sigpend =
       Ok (log, buf, if nonblock then ReadRet (- EAGAIN) else if sigpend then ReadRet (- EINTR) else ReadSleep)
   | e :: es' =>
       (count < zlen e -> logger_read log id buf count nonblock sigpend = Ok (log, buf, ReadRet (- EINVAL))) /\
       (zlen e <= count -> zlen buf < zlen e -> exists buf',
          logger_read log id buf count nonblock sigpend = Ok (log, buf', ReadRet (- EFAULT))) /\
       (zlen e <= count -> zlen e <= zlen buf -> exists log' r',
          logger_read log id buf count nonblock sigpend =
            Ok (log', e ++ drop (length e) buf, ReadRet (zlen e)) /\
          log_ok log' /\ chain log' r' es' /\
          forall id', reader_off (readers log') id' = if id' =? id then Some r' else reader_off (readers log) id')
   end) /\
  ((forall log r es id fw,
    log_ok log -> chain log r es ->
    logger_ioctl log (Some r) fw LOGGER_GET_LOG_LEN = Ok (log, zlen (concat es)) /\
    logger_ioctl log (Some r) fw LOGGER_GET_NEXT_ENTRY_LEN = Ok (log, match es with [] => 0 | e :: _ => zlen e end) /\
    Z.testbit (logger_poll log (Some r)) 0 = match es with [] => false | _ => true end /\
    (exists log', logger_ioctl log None true LOGGER_FLUSH_LOG = Ok (log', 0) /\ log_ok log' /\
       Forall (fun r => chain log' r []) (offs log')) /\
    log_ok (fst (logger_open log 0 true true (Some id))) /\
    (reader_off (readers log) id = None ->
     reader_off (readers (fst (logger_open log 0 true true (Some id)))) id = Some (head log)) /\
    log_ok (logger_release log (Some id)) /\ reader_off (readers (logger_release log (Some id))) id = None) /\
   (log_ok (fresh_log (Z.to_nat 8192) 8162) /\
    logger_aio_write (fresh_log (Z.to_nat 8192) 8162) 8162 0 1 2 3 4 40 [Iovec 40 ([33; 64] ++ replicate 38 65)]
      = Err OutOfBounds)).
Proof. split; [exact logger_read_facts|]. exact logger_control_facts. Qed.

Lemma logger_read_control_correct_witness :
  (logger_read (fresh_log (Z.to_nat 8192) 5) 1 [] 4096 true false = Ok (fresh_log (Z.to_nat 8192) 5, [], ReadRet (- 11))) /\
  ((Z.testbit (logger_poll (fresh_log (Z.to_nat 8192) 5) (Some 5)) 0 = false /\ log_ok (logger_release (fresh_log (Z.to_nat 8192) 5) (Some 1)))).
Proof.
  split.
  { pose proof (fresh_log_ok 5 ltac:(lia)) as Hok.
    assert (Hc : chain (fresh_log (Z.to_nat 8192) 5) 5 []).
    { split; [split; [constructor|]|vm_compute; reflexivity]. vm_compute. intuition congruence. }
    exact ((proj1 logger_read_control_correct) _ 1 5 [] [] 4096 true false Hok ltac:(apply NoDup_singleton) eq_refl Hc). }
  { assert (Hc : chain (fresh_log (Z.to_nat 8192) 5) 5 []).
    { split; [split; [constructor|]|vm_compute; reflexivity]. vm_compute. intuition congruence. }
    destruct ((proj1 (proj2 logger_read_control_correct)) (fresh_log (Z.to_nat 8192) 5) 5 [] 1 true (fresh_log_ok 5 ltac:(lia)) Hc)
      as (_ & _ & H1 & _ & _ & _ & H2 & _). split; [exact H1|exact H2]. }
Defined.
