(* ===== verification/Ashmem.v ===== *)
(** Android shared memory (mm/ashmem.c, include/linux/ashmem.h): named areas
    backed by a file, whose pages user space unpins so that the kernel may
    discard them, and pins again.

    The state holds the areas and the unpinned ranges by address, the links of
    the two lists as lists of addresses, the free objects of the two caches, the
    reference counts of files, and the [vmtruncate_range] calls made so far.  Each
    operation is a single step, as the mutex of the source makes most of it; the
    step also takes in what the source does without the mutex, ASHMEM_SET_SIZE,
    ASHMEM_GET_SIZE, ASHMEM_GET_PROT_MASK and the checks of [ashmem_pin_unpin].  An
    allocation under the mutex succeeds or fails, without calling the shrinker,
    which would wait for the mutex.  What the calls into
    other parts of the kernel return is an argument: the file or error of
    [shmem_file_setup], the result of the file's read method, the personality
    and the capability of the caller. *)

From stdpp Require Import gmap.
From S2P Require Import Prelude.
From S2P Require Import Ring UserCopy State Strtol.

(** * Data *)

Definition ASHMEM_NAME_LEN : Z := 256.
(** "dev/ashmem/" and "dev/ashmem" with its terminator. *)
Definition ASHMEM_NAME_PREFIX : list Z := [100; 101; 118; 47; 97; 115; 104; 109; 101; 109; 47].
Definition ASHMEM_NAME_DEF : list Z := [100; 101; 118; 47; 97; 115; 104; 109; 101; 109; 0].
Definition ASHMEM_NAME_PREFIX_LEN : Z := zlen ASHMEM_NAME_PREFIX.
Definition ASHMEM_FULL_NAME_LEN : Z := ASHMEM_NAME_LEN + ASHMEM_NAME_PREFIX_LEN.
Definition ASHMEM_NOT_PURGED : Z := 0.
Definition ASHMEM_WAS_PURGED : Z := 1.
Definition ASHMEM_IS_UNPINNED : Z := 0.
Definition ASHMEM_IS_PINNED : Z := 1.

Definition EPERM : Z := 1.
Definition EBADF : Z := 9.
Definition ENOMEM : Z := 12.
Definition EFAULT : Z := 14.
Definition ENOTTY : Z := 25.
Definition PAGE_SHIFT : Z := 12.
Definition PAGE_SIZE : Z := Z.shiftl 1 PAGE_SHIFT.
Definition PAGE_MASK : Z := lnot32 (PAGE_SIZE - 1).
Definition PAGE_ALIGN (addr : Z) : Z := Z.land (u32 (addr + (PAGE_SIZE - 1))) (lnot32 (PAGE_SIZE - 1)).
Definition PROT_READ : Z := 1.
Definition PROT_WRITE : Z := 2.
Definition PROT_EXEC : Z := 4.
Definition PROT_MASK : Z := Z.lor (Z.lor PROT_EXEC PROT_READ) PROT_WRITE.
Definition VM_SHARED : Z := 8.
Definition VM_CAN_NONLINEAR : Z := 0x08000000.
Definition READ_IMPLIES_EXEC : Z := 0x0400000.
Definition __GFP_FS : Z := 0x80.
Definition GFP_KERNEL : Z := 0x10 + 0x40 + 0x80.

(** _IOC of asm-generic/ioctl.h, and the commands. *)
Definition _IOC (dir type nr size : Z) : Z :=
  Z.lor (Z.lor (Z.lor (shl32 dir 30) (shl32 type 8)) nr) (shl32 size 16).
Definition ASHMEM_SET_NAME : Z := _IOC 1 0x77 1 ASHMEM_NAME_LEN.
Definition ASHMEM_GET_NAME : Z := _IOC 2 0x77 2 ASHMEM_NAME_LEN.
Definition ASHMEM_SET_SIZE : Z := _IOC 1 0x77 3 4.
Definition ASHMEM_GET_SIZE : Z := _IOC 0 0x77 4 0.
Definition ASHMEM_SET_PROT_MASK : Z := _IOC 1 0x77 5 4.
Definition ASHMEM_GET_PROT_MASK : Z := _IOC 0 0x77 6 0.
Definition ASHMEM_PIN : Z := _IOC 1 0x77 7 8.
Definition ASHMEM_UNPIN : Z := _IOC 1 0x77 8 8.
Definition ASHMEM_GET_PIN_STATUS : Z := _IOC 0 0x77 9 0.
Definition ASHMEM_PURGE_ALL_CACHES : Z := _IOC 0 0x77 10 0.

Record ashmem_area := Area {
  a_name : list Z;
  unpinned_list : list Z;   (* addresses of ranges *)
  a_file : Z;               (* 0 for NULL *)
  a_size : Z;
  prot_mask : Z
}.

Record ashmem_range := Range { r_asma : Z; pgstart : Z; pgend : Z; purged : Z }.

Record ashmem := Ash {
  areas : gmap Z ashmem_area;
  ranges : gmap Z ashmem_range;
  ashmem_lru_list : list Z;
  lru_count : Z;
  area_cache : list Z;      (* free objects of ashmem_area_cachep *)
  range_cache : list Z;     (* free objects of ashmem_range_cachep *)
  alloc_fails : list bool;  (* whether the next allocations fail; from its end on, none does *)
  f_count : gmap Z Z;       (* reference counts of files *)
  truncated : list (Z * Z * Z)   (* file, first and last byte; the last call first *)
}.

Abbreviation AM := (ST ashmem).

Definition set_areas (v : gmap Z ashmem_area) : AM unit := modify (fun t =>
  Ash v (ranges t) (ashmem_lru_list t) (lru_count t) (area_cache t) (range_cache t) (alloc_fails t) (f_count t) (truncated t)).
Definition set_ranges (v : gmap Z ashmem_range) : AM unit := modify (fun t =>
  Ash (areas t) v (ashmem_lru_list t) (lru_count t) (area_cache t) (range_cache t) (alloc_fails t) (f_count t) (truncated t)).
Definition set_lru (v : list Z) (c : Z) : AM unit := modify (fun t =>
  Ash (areas t) (ranges t) v c (area_cache t) (range_cache t) (alloc_fails t) (f_count t) (truncated t)).
Definition set_area_cache (v : list Z) : AM unit := modify (fun t =>
  Ash (areas t) (ranges t) (ashmem_lru_list t) (lru_count t) v (range_cache t) (alloc_fails t) (f_count t) (truncated t)).
Definition set_range_cache (v : list Z) : AM unit := modify (fun t =>
  Ash (areas t) (ranges t) (ashmem_lru_list t) (lru_count t) (area_cache t) v (alloc_fails t) (f_count t) (truncated t)).
Definition set_alloc_fails (v : list bool) : AM unit := modify (fun t =>
  Ash (areas t) (ranges t) (ashmem_lru_list t) (lru_count t) (area_cache t) (range_cache t) v (f_count t) (truncated t)).
Definition set_f_count (v : gmap Z Z) : AM unit := modify (fun t =>
  Ash (areas t) (ranges t) (ashmem_lru_list t) (lru_count t) (area_cache t) (range_cache t) (alloc_fails t) v (truncated t)).

(** What an address points at; anything else is an error. *)
Definition area_at (a : Z) : AM ashmem_area := fun t =>
  match areas t !! a with Some A => Ok (A, t) | None => Err OutOfBounds end.
Definition range_at (r : Z) : AM ashmem_range := fun t =>
  match ranges t !! r with Some R => Ok (R, t) | None => Err OutOfBounds end.
Definition put_area (a : Z) (A : ashmem_area) : AM unit := m ← gets areas; set_areas (<[a := A]> m).
Definition put_range (r : Z) (R : ashmem_range) : AM unit := m ← gets ranges; set_ranges (<[r := R]> m).

(** * Ranges *)

Definition range_size (r : ashmem_range) : Z := u32 (u32 (pgend r - pgstart r) + 1).
Definition range_on_lru (r : ashmem_range) : bool := purged r =? ASHMEM_NOT_PURGED.
Definition page_range_subsumes_range (r : ashmem_range) (first last : Z) : bool := (first <=? pgstart r) && (pgend r <=? last).
Definition page_range_subsumed_by_range (r : ashmem_range) (first last : Z) : bool := (pgstart r <=? first) && (last <=? pgend r).
Definition page_in_range (r : ashmem_range) (page : Z) : bool := (pgstart r <=? page) && (page <=? pgend r).
Definition page_range_in_range (r : ashmem_range) (first last : Z) : bool :=
  page_in_range r first || page_in_range r last || page_range_subsumes_range r first last.
Definition range_before_page (r : ashmem_range) (page : Z) : bool := pgend r <? page.

(** [list_del], and [list_add_tail(new, prev)]: before [prev], where [None] is
    the head of the list. *)
Definition list_del (x : Z) (l : list Z) : list Z := filter (fun y => y <> x) l.
Fixpoint add_before (new prev : Z) (l : list Z) : list Z :=
  match l with
  | [] => []
  | x :: l => if x =? prev then new :: x :: l else x :: add_before new prev l
  end.
Definition list_add_tail (new : Z) (prev : option Z) (l : list Z) : list Z :=
  match prev with None => l ++ [new] | Some p => add_before new p l end.

Definition lru_add (range : Z) : AM unit :=
  r ← range_at range;
  l ← gets ashmem_lru_list;
  c ← gets lru_count;
  set_lru (list_add_tail range None l) (u32 (c + range_size r)).

Definition lru_del (range : Z) : AM unit :=
  r ← range_at range;
  l ← gets ashmem_lru_list;
  c ← gets lru_count;
  set_lru (list_del range l) (u32 (c - range_size r)).

(** Whether the next allocation fails: the system may be out of memory even when
    the cache has a free object. *)
Definition oom : AM bool :=
  f ← gets alloc_fails;
  set_alloc_fails (tail f);;
  mret (hd false f).

(** The caches hand out a free object, [NULL] when there is none. *)
Definition range_zalloc : AM Z :=
  b ← oom;
  c ← gets range_cache;
  match c with
  | x :: c => if b : bool then mret 0 else set_range_cache c;; put_range x (Range 0 0 0 0);; mret x
  | [] => mret 0
  end.
Definition range_free (x : Z) : AM unit :=
  m ← gets ranges;
  set_ranges (delete x m);;
  c ← gets range_cache;
  set_range_cache (x :: c).

Definition set_unpinned (asma : Z) (f : list Z -> list Z) : AM unit :=
  A ← area_at asma;
  put_area asma (Area (a_name A) (f (unpinned_list A)) (a_file A) (a_size A) (prot_mask A)).

Definition range_alloc (asma : Z) (prev_range : option Z) (purged_ first last : Z) : AM Z :=
  range ← range_zalloc;
  if range =? 0 then mret (- ENOMEM) else
  put_range range (Range asma first last purged_);;
  set_unpinned asma (list_add_tail range prev_range);;
  r ← range_at range;
  (if range_on_lru r then lru_add range else mret tt);;
  mret 0.

Definition range_del (range : Z) : AM unit :=
  r ← range_at range;
  set_unpinned (r_asma r) (list_del range);;
  (if range_on_lru r then lru_del range else mret tt);;
  range_free range.

Definition range_shrink (range first last : Z) : AM unit :=
  r ← range_at range;
  let pre := range_size r in
  let r := Range (r_asma r) first last (purged r) in
  put_range range r;;
  if range_on_lru r then
    l ← gets ashmem_lru_list;
    c ← gets lru_count;
    set_lru l (u32 (c - u32 (pre - range_size r)))
  else mret tt.

(** * Pinning *)

(** The loop of [ashmem_pin] over the rest of the list. *)
Fixpoint pin_ranges (asma first last : Z) (l : list Z) (ret : Z) : AM Z :=
  match l with
  | [] => mret ret
  | range :: l =>
      r ← range_at range;
      if range_before_page r first then mret ret else
      if page_range_in_range r first last then
        let ret := Z.lor ret (purged r) in
        if page_range_subsumes_range r first last then
          range_del range;;
          pin_ranges asma first last l ret
        else if first <=? pgstart r then
          range_shrink range (u32 (last + 1)) (pgend r);;
          pin_ranges asma first last l ret
        else if pgend r <=? last then
          range_shrink range (pgstart r) (u32 (first - 1));;
          pin_ranges asma first last l ret
        else
          range_alloc asma (Some range) (purged r) (u32 (last + 1)) (pgend r);;
          range_shrink range (pgstart r) (u32 (first - 1));;
          mret ret
      else pin_ranges asma first last l ret
  end.

Definition ashmem_pin (asma first last : Z) : AM Z :=
  A ← area_at asma;
  pin_ranges asma first last (unpinned_list A) ASHMEM_NOT_PURGED.

(** How one pass of [ashmem_unpin] over the list ends: at the insertion point,
    at a range that holds all the pages, or at a range to be merged. *)
Inductive unpin_stop := InsertBefore (range : option Z) | Subsumed | Merge (range : Z) (r : ashmem_range).

Fixpoint unpin_scan (first last : Z) (l : list Z) : AM unpin_stop :=
  match l with
  | [] => mret (InsertBefore None)
  | range :: l =>
      r ← range_at range;
      if range_before_page r first then mret (InsertBefore (Some range)) else
      if page_range_subsumed_by_range r first last then mret Subsumed else
      if page_range_in_range r first last then mret (Merge range r) else
      unpin_scan first last l
  end.

(** Every turn but the last removes a range. *)
Definition ashmem_unpin (asma first last : Z) : AM Z :=
  A ← area_at asma;
  while (length (unpinned_list A) + 1) (fun '(first, last, purged_) =>
    A ← area_at asma;
    x ← unpin_scan first last (unpinned_list A);
    match x with
    | InsertBefore range => ret ← range_alloc asma range purged_ first last; mret (inr ret)
    | Subsumed => mret (inr 0)
    | Merge range r =>
        range_del range;;
        mret (inl (Z.min (pgstart r) first, Z.max (pgend r) last, Z.lor purged_ (purged r)))
    end) (first, last, ASHMEM_NOT_PURGED).

Fixpoint pin_status (first last : Z) (l : list Z) : AM Z :=
  match l with
  | [] => mret ASHMEM_IS_PINNED
  | range :: l =>
      r ← range_at range;
      if range_before_page r first then mret ASHMEM_IS_PINNED else
      if page_range_in_range r first last then mret ASHMEM_IS_UNPINNED else
      pin_status first last l
  end.

Definition ashmem_get_pin_status (asma first last : Z) : AM Z :=
  A ← area_at asma;
  pin_status first last (unpinned_list A).

(** [p] is the [struct ashmem_pin] in user memory, offset and length; [None]
    when it cannot be read. *)
Definition ashmem_pin_unpin (asma cmd : Z) (p : option (Z * Z)) : AM Z :=
  A ← area_at asma;
  if a_file A =? 0 then mret (- EINVAL) else
  match p with
  | None => mret (- EFAULT)
  | Some (offset, len) =>
      let len := if len =? 0 then u32 (PAGE_ALIGN (a_size A) - offset) else len in
      if negb (Z.land (Z.lor offset len) (lnot32 PAGE_MASK) =? 0) then mret (- EINVAL) else
      if u32 (u32 (-1) - offset) <? len then mret (- EINVAL) else
      if PAGE_ALIGN (a_size A) <? u32 (offset + len) then mret (- EINVAL) else
      let first := offset / PAGE_SIZE in
      let last := u32 (u32 (first + len / PAGE_SIZE) - 1) in
      if cmd =? ASHMEM_PIN then ashmem_pin asma first last
      else if cmd =? ASHMEM_UNPIN then ashmem_unpin asma first last
      else if cmd =? ASHMEM_GET_PIN_STATUS then ashmem_get_pin_status asma first last
      else mret (- EINVAL)
  end.

(** * The shrinker *)

Fixpoint purge_ranges (l : list Z) (nr_to_scan : Z) : AM unit :=
  match l with
  | [] => mret tt
  | range :: l =>
      r ← range_at range;
      A ← area_at (r_asma r);
      if a_file A =? 0 then fail OutOfBounds else
      let first := u32 (pgstart r * PAGE_SIZE) in
      let last := u32 (u32 (u32 (pgend r + 1) * PAGE_SIZE) - 1) in
      modify (fun t => Ash (areas t) (ranges t) (ashmem_lru_list t) (lru_count t) (area_cache t) (range_cache t) (alloc_fails t) (f_count t)
                         ((a_file A, first, last) :: truncated t));;
      put_range range (Range (r_asma r) (pgstart r) (pgend r) ASHMEM_WAS_PURGED);;
      lru_del range;;
      let nr_to_scan := s32 (nr_to_scan - range_size r) in
      if nr_to_scan <=? 0 then mret tt else purge_ranges l nr_to_scan
  end.

Definition ashmem_shrink (nr_to_scan gfp_mask : Z) : AM Z :=
  if negb (nr_to_scan =? 0) && (Z.land gfp_mask __GFP_FS =? 0) then mret (-1) else
  if nr_to_scan =? 0 then c ← gets lru_count; mret (s32 c) else
  l ← gets ashmem_lru_list;
  purge_ranges l nr_to_scan;;
  c ← gets lru_count;
  mret (s32 c).

(** * The file operations *)

Definition get_file (f : Z) : AM unit :=
  m ← gets f_count; set_f_count (<[f := default 0 (m !! f) + 1]> m).
Definition fput (f : Z) : AM unit :=
  m ← gets f_count; set_f_count (<[f := default 0 (m !! f) - 1]> m).

(** The new area, or an error; [nonseekable_open] always returns 0. *)
Definition ashmem_open : AM Z :=
  b ← oom;
  c ← gets area_cache;
  match c with
  | [] => mret (- ENOMEM)
  | asma :: c =>
      if b : bool then mret (- ENOMEM) else
      set_area_cache c;;
      put_area asma (Area (ASHMEM_NAME_PREFIX ++ replicate (Z.to_nat ASHMEM_NAME_LEN) 0) [] 0 0 PROT_MASK);;
      mret asma
  end.

Fixpoint del_ranges (l : list Z) : AM unit :=
  match l with
  | [] => mret tt
  | range :: l => range_del range;; del_ranges l
  end.

Definition ashmem_release (asma : Z) : AM Z :=
  A ← area_at asma;
  del_ranges (unpinned_list A);;
  A ← area_at asma;
  (if negb (a_file A =? 0) then fput (a_file A) else mret tt);;
  m ← gets areas;
  set_areas (delete asma m);;
  c ← gets area_cache;
  set_area_cache (asma :: c);;
  mret 0.

(** [result] is what the read method of the backing file returns. *)
Definition ashmem_read (asma result : Z) : AM Z :=
  A ← area_at asma;
  if a_size A =? 0 then mret 0 else
  if a_file A =? 0 then mret (- EBADF) else
  mret result.

(** The fields of a [struct vm_area_struct] that a mapping sets; [vm_ops] tells
    whether they are those of shmem. *)
Record vma := Vma { vm_flags : Z; vm_file : Z; vm_ops : bool }.

Definition shmem_set_file (v : vma) (file : Z) : AM vma :=
  (if negb (vm_file v =? 0) then fput (vm_file v) else mret tt);;
  mret (Vma (vm_flags v) file true).

(** [setup] is the file that [shmem_file_setup] returns for a name, a size and
    flags, or a negative error; the result carries the mapping. *)
Definition ashmem_mmap (asma : Z) (v : vma) (setup : list Z -> Z -> Z -> Z) : AM (Z * vma) :=
  A ← area_at asma;
  if a_size A =? 0 then mret (- EINVAL, v) else
  if negb (Z.land (Z.land (vm_flags v) (lnot32 (prot_mask A))) PROT_MASK =? 0) then mret (- EPERM, v) else
  err ← (if a_file A =? 0 then
           c ← lift (rd (a_name A) ASHMEM_NAME_PREFIX_LEN);
           let name := if negb (c =? 0) then a_name A else ASHMEM_NAME_DEF in
           let vmfile := setup name (a_size A) (vm_flags v) in
           if vmfile <? 0 then mret vmfile else
           m ← gets f_count;
           set_f_count (<[vmfile := 1]> m);;
           put_area asma (Area (a_name A) (unpinned_list A) vmfile (a_size A) (prot_mask A));;
           mret 0
         else mret 0);
  if negb (err =? 0) then mret (err, v) else
  A ← area_at asma;
  get_file (a_file A);;
  v ← (if negb (Z.land (vm_flags v) VM_SHARED =? 0) then shmem_set_file v (a_file A)
       else (if negb (vm_file v =? 0) then fput (vm_file v) else mret tt);;
            mret (Vma (vm_flags v) (a_file A) (vm_ops v)));
  mret (0, Vma (Z.lor (vm_flags v) VM_CAN_NONLINEAR) (vm_file v) (vm_ops v)).

Definition set_prot_mask (asma prot personality : Z) : AM Z :=
  A ← area_at asma;
  if negb (Z.land (prot_mask A) prot =? prot) then mret (- EINVAL) else
  let prot := if negb (Z.land prot PROT_READ =? 0) && negb (Z.land personality READ_IMPLIES_EXEC =? 0)
              then Z.lor prot PROT_EXEC else prot in
  put_area asma (Area (a_name A) (unpinned_list A) (a_file A) (a_size A) prot);;
  mret 0.

Definition set_name (asma : Z) (name : list Z) : AM Z :=
  A ← area_at asma;
  if negb (a_file A =? 0) then mret (- EINVAL) else
  '(n, missed) ← lift (copy_from_user (a_name A) ASHMEM_NAME_PREFIX_LEN name 0 ASHMEM_NAME_LEN);
  n ← lift (wr n (ASHMEM_FULL_NAME_LEN - 1) 0);
  put_area asma (Area n (unpinned_list A) (a_file A) (a_size A) (prot_mask A));;
  mret (if negb (missed =? 0) then - EFAULT else 0).

(** The error and the user memory afterwards. *)
Definition get_name (asma : Z) (name : list Z) : AM (Z * list Z) :=
  A ← area_at asma;
  c ← lift (rd (a_name A) ASHMEM_NAME_PREFIX_LEN);
  '(u, missed) ← lift (if negb (c =? 0) then
      n ← strlen (a_name A) ASHMEM_NAME_PREFIX_LEN;
      copy_to_user name 0 (a_name A) ASHMEM_NAME_PREFIX_LEN (n + 1)
    else copy_to_user name 0 ASHMEM_NAME_DEF 0 (zlen ASHMEM_NAME_DEF));
  mret (if negb (missed =? 0) then - EFAULT else 0, u).

(** [arg] is the argument as a number, [u] the user memory it points at, [p] the
    same as a [struct ashmem_pin]; the result carries the user memory. *)
Definition ashmem_ioctl (asma cmd arg : Z) (u : list Z) (p : option (Z * Z)) (personality : Z) (capable : bool) : AM (Z * list Z) :=
  if cmd =? ASHMEM_SET_NAME then ret ← set_name asma u; mret (ret, u)
  else if cmd =? ASHMEM_GET_NAME then get_name asma u
  else if cmd =? ASHMEM_SET_SIZE then
    A ← area_at asma;
    if a_file A =? 0 then
      put_area asma (Area (a_name A) (unpinned_list A) (a_file A) arg (prot_mask A));;
      mret (0, u)
    else mret (- EINVAL, u)
  else if cmd =? ASHMEM_GET_SIZE then A ← area_at asma; mret (s32 (a_size A), u)
  else if cmd =? ASHMEM_SET_PROT_MASK then ret ← set_prot_mask asma arg personality; mret (ret, u)
  else if cmd =? ASHMEM_GET_PROT_MASK then A ← area_at asma; mret (s32 (prot_mask A), u)
  else if (cmd =? ASHMEM_PIN) || (cmd =? ASHMEM_UNPIN) || (cmd =? ASHMEM_GET_PIN_STATUS) then
    ret ← ashmem_pin_unpin asma cmd p; mret (ret, u)
  else if cmd =? ASHMEM_PURGE_ALL_CACHES then
    if capable then
      ret ← ashmem_shrink 0 GFP_KERNEL;
      ashmem_shrink ret GFP_KERNEL;;
      mret (ret, u)
    else mret (- EPERM, u)
  else mret (- ENOTTY, u).

(** Before the first open. *)
Definition ashmem_initial (area_objects range_objects : list Z) (fails : list bool) : ashmem :=
  Ash ∅ ∅ [] 0 area_objects range_objects fails ∅ [].
