(* ===== verification/AshmemInv.v ===== *)
(** What the memory of ashmem looks like between two operations, and the
    operations on single ranges.

    [linked t] relates the two lists, the counter and the caches to the live
    objects: the list of an area holds exactly its ranges, the LRU list exactly
    the ranges not purged, [lru_count] counts their pages.  [sorted t] says that
    every list descends and its ranges are disjoint.  The operations on single
    ranges keep [linked] and are given by the new maps; the order is a matter of
    the callers. *)

From stdpp Require Import gmap sorting.
From S2P Require Import Prelude.
From S2P Require Import Ring UserCopy State Strtol Ashmem.

Definition pages (m : gmap Z ashmem_range) (id : Z) : Z :=
  match m !! id with Some r => pgend r - pgstart r + 1 | None => 0 end.
Definition sum_pages (m : gmap Z ashmem_range) (l : list Z) : Z := foldr (fun id n => pages m id + n) 0 l.
#[global] Arguments sum_pages : simpl never.

(** The intervals of pages that reach the operations.  An interval may hold no
    page: then [last = first - 1].  The end [2^32 - 1] stands for a file whose
    size rounds up to 2^32. *)
Definition span_ok (first last : Z) : Prop :=
  0 <= first < 2 ^ 20 /\ 0 <= last < 2 ^ 32 /\ first <= last + 1 /\ (last < 2 ^ 20 - 1 \/ last = 2 ^ 32 - 1).

Record range_ok (r : ashmem_range) : Prop := {
  ro_span : span_ok (pgstart r) (pgend r);
  ro_purged : purged r = ASHMEM_NOT_PURGED \/ purged r = ASHMEM_WAS_PURGED
}.

Record name_ok (n : list Z) : Prop := {
  no_len : zlen n = ASHMEM_FULL_NAME_LEN;
  no_prefix : forall j, 0 <= j < ASHMEM_NAME_PREFIX_LEN -> at_ 0 n j = at_ 0 ASHMEM_NAME_PREFIX j;
  no_end : at_ 0 n (ASHMEM_FULL_NAME_LEN - 1) = 0
}.

Record linked (t : ashmem) : Prop := {
  lk_nodup : forall a A, areas t !! a = Some A -> NoDup (unpinned_list A);
  lk_row : forall a A id, areas t !! a = Some A -> id ∈ unpinned_list A <-> exists r, ranges t !! id = Some r /\ r_asma r = a;
  lk_home : forall id r, ranges t !! id = Some r -> exists A, areas t !! r_asma r = Some A /\ a_file A <> 0;
  lk_range : forall id r, ranges t !! id = Some r -> range_ok r;
  lk_lru_nodup : NoDup (ashmem_lru_list t);
  lk_lru : forall id, id ∈ ashmem_lru_list t <-> exists r, ranges t !! id = Some r /\ purged r = ASHMEM_NOT_PURGED;
  lk_count : lru_count t = u32 (sum_pages (ranges t) (ashmem_lru_list t));
  lk_null : ranges t !! 0 = None;
  lk_cache_nodup : NoDup (range_cache t);
  lk_cache : forall id, id ∈ range_cache t -> id <> 0 /\ ranges t !! id = None;
  lk_areas_nodup : NoDup (area_cache t);
  lk_areas : forall a, a ∈ area_cache t -> 0 < a /\ areas t !! a = None;
  lk_name : forall a A, areas t !! a = Some A -> name_ok (a_name A);
  lk_pos : forall a A, areas t !! a = Some A -> 0 < a
}.

(** All pages of [x] lie above those of [y]. *)
Definition above (m : gmap Z ashmem_range) (x y : Z) : Prop :=
  forall rx ry, m !! x = Some rx -> m !! y = Some ry -> pgend ry < pgstart rx.
Definition sorted (t : ashmem) : Prop :=
  forall a A, areas t !! a = Some A -> StronglySorted (above (ranges t)) (unpinned_list A).

Definition ash_ok (t : ashmem) : Prop := linked t /\ sorted t.

Definition with_list (A : ashmem_area) (l : list Z) : ashmem_area := Area (a_name A) l (a_file A) (a_size A) (prot_mask A).

(** * Lists and sums *)

Lemma elem_list_del x y l : y ∈ list_del x l <-> y ∈ l /\ y <> x.
Proof. unfold list_del. rewrite list_elem_of_filter. tauto. Qed.

Lemma NoDup_list_del x l : NoDup l -> NoDup (list_del x l).
Proof. apply list.NoDup_filter. Qed.

Lemma list_del_fresh x l : x ∉ l -> list_del x l = l.
Proof.
  induction l as [|y l IH]; [done|]. intros H. unfold list_del. rewrite filter_cons_True by set_solver.
  f_equal. apply IH. set_solver.
Qed.

Lemma list_del_middle x l k : NoDup (l ++ x :: k) -> list_del x (l ++ x :: k) = l ++ k.
Proof.
  intros (H1 & H2 & H3)%list.NoDup_app. apply list.NoDup_cons in H3 as [H3 _].
  unfold list_del. rewrite list.filter_app, filter_cons_False by (intros H; now apply H).
  pose proof (list_del_fresh x l ltac:(set_solver)) as E1. pose proof (list_del_fresh x k H3) as E2.
  unfold list_del in E1, E2. now rewrite E1, E2.
Qed.

Lemma sorted_list_del m x l : StronglySorted (above m) l -> StronglySorted (above m) (list_del x l).
Proof.
  induction 1 as [|y l Hs IH Hf]; [constructor|]. unfold list_del. destruct (decide (y <> x)).
  - rewrite filter_cons_True by done. constructor; [exact IH|].
    apply List.Forall_forall. intros z Hz%list_elem_of_In. rewrite List.Forall_forall in Hf.
    apply Hf, list_elem_of_In. now apply (elem_list_del x) in Hz as [? _].
  - now rewrite filter_cons_False by tauto.
Qed.

Lemma list_add_tail_split new p l k : p ∉ l -> list_add_tail new (Some p) (l ++ p :: k) = l ++ new :: p :: k.
Proof.
  cbn. induction l as [|x l IH]; intros H; cbn.
  - now rewrite Z.eqb_refl.
  - destruct (Z.eqb_spec x p); [set_solver|]. f_equal. apply IH. set_solver.
Qed.

Lemma elem_list_add_tail new prev l x : (forall p, prev = Some p -> p ∈ l) ->
  x ∈ list_add_tail new prev l <-> x = new \/ x ∈ l.
Proof.
  intros Hp. destruct prev as [p|]; cbn; [|set_solver].
  destruct (list_elem_of_split_l l p (Hp p eq_refl)) as (l1 & l2 & -> & Hn).
  pose proof (list_add_tail_split new p l1 l2 Hn) as E. cbn in E. rewrite E. set_solver.
Qed.

Lemma NoDup_list_add_tail new prev l : (forall p, prev = Some p -> p ∈ l) -> new ∉ l -> NoDup l -> NoDup (list_add_tail new prev l).
Proof.
  intros Hp Hn Hl. destruct prev as [p|]; cbn.
  - destruct (list_elem_of_split_l l p (Hp p eq_refl)) as (l1 & l2 & -> & Hn1).
    pose proof (list_add_tail_split new p l1 l2 Hn1) as E. cbn in E. rewrite E.
    rewrite list.NoDup_app in Hl |- *. destruct Hl as (H1 & H2 & H3). rewrite list.NoDup_cons. set_solver.
  - apply list.NoDup_app. split; [done|]. split; [set_solver|]. apply NoDup_singleton.
Qed.

Lemma sum_pages_cons m x l : sum_pages m (x :: l) = pages m x + sum_pages m l.
Proof. done. Qed.

Lemma sum_pages_app m l k : sum_pages m (l ++ k) = sum_pages m l + sum_pages m k.
Proof. induction l as [|x l IH]; [done|]. rewrite <- app_comm_cons, !sum_pages_cons, IH. lia. Qed.

Lemma sum_pages_ext m m' l : (forall id, id ∈ l -> pages m' id = pages m id) -> sum_pages m' l = sum_pages m l.
Proof. induction l as [|x l IH]; intros H; [done|]. rewrite !sum_pages_cons, IH, H; set_solver. Qed.

Lemma sum_pages_del m x l : NoDup l -> x ∈ l -> sum_pages m (list_del x l) = sum_pages m l - pages m x.
Proof.
  intros Hl Hx. destruct (list_elem_of_split l x Hx) as (l1 & l2 & ->).
  rewrite list_del_middle by done. rewrite !sum_pages_app, sum_pages_cons. lia.
Qed.

Lemma pages_insert m x r : pages (<[x := r]> m) x = pgend r - pgstart r + 1.
Proof. unfold pages. now rewrite lookup_insert_eq. Qed.

Lemma pages_insert_ne m x y r : x <> y -> pages (<[x := r]> m) y = pages m y.
Proof. intros. unfold pages. now rewrite lookup_insert_ne. Qed.

Lemma range_size_pages r : range_size r = u32 (pgend r - pgstart r + 1).
Proof. unfold range_size, u32. now rewrite Zplus_mod_idemp_l. Qed.

Lemma u32_add_l x y : u32 (u32 x + y) = u32 (x + y).
Proof. unfold u32. apply Zplus_mod_idemp_l. Qed.
Lemma u32_add_r x y : u32 (x + u32 y) = u32 (x + y).
Proof. unfold u32. apply Zplus_mod_idemp_r. Qed.
Lemma u32_sub_l x y : u32 (u32 x - y) = u32 (x - y).
Proof. unfold u32. apply Zminus_mod_idemp_l. Qed.
Lemma u32_sub_r x y : u32 (x - u32 y) = u32 (x - y).
Proof. unfold u32. apply Zminus_mod_idemp_r. Qed.
Lemma u32_sub_sub x y z : u32 (u32 x - u32 (u32 y - u32 z)) = u32 (x - (y - z)).
Proof.
  rewrite u32_sub_l, u32_sub_r. destruct (u32_cases y) as [i ->], (u32_cases z) as [j ->].
  apply (u32_eqm _ _ (i - j)). lia.
Qed.

(** * The operations on single ranges *)

Definition del_state (t : ashmem) (id : Z) (r : ashmem_range) (A : ashmem_area) : ashmem :=
  Ash (<[r_asma r := with_list A (list_del id (unpinned_list A))]> (areas t)) (delete id (ranges t))
    (if range_on_lru r then list_del id (ashmem_lru_list t) else ashmem_lru_list t)
    (if range_on_lru r then u32 (lru_count t - range_size r) else lru_count t)
    (area_cache t) (id :: range_cache t) (alloc_fails t) (f_count t) (truncated t).

Lemma range_del_eq t id r A : ranges t !! id = Some r -> areas t !! r_asma r = Some A ->
  range_del id t = Ok (tt, del_state t id r A).
Proof.
  intros Hr HA. unfold range_del, set_unpinned, lru_del, range_free, area_at, range_at, put_area, set_areas, set_lru, set_ranges,
    set_range_cache, gets, modify, mbind, ST_bind, mret, ST_ret.
  rewrite Hr, HA. cbn. unfold del_state. destruct (range_on_lru r); cbn; now rewrite ?Hr.
Qed.

Definition shrink_state (t : ashmem) (id : Z) (r r' : ashmem_range) : ashmem :=
  Ash (areas t) (<[id := r']> (ranges t)) (ashmem_lru_list t)
    (if range_on_lru r then u32 (lru_count t - u32 (range_size r - range_size r')) else lru_count t)
    (area_cache t) (range_cache t) (alloc_fails t) (f_count t) (truncated t).

Lemma range_shrink_eq t id r first last : ranges t !! id = Some r ->
  range_shrink id first last t = Ok (tt, shrink_state t id r (Range (r_asma r) first last (purged r))).
Proof.
  intros Hr. unfold range_shrink, range_at, put_range, set_ranges, set_lru, gets, modify, mbind, ST_bind, mret, ST_ret.
  rewrite Hr. cbn. unfold shrink_state, range_on_lru. cbn. now destruct (purged r =? _).
Qed.

Definition alloc_state (t : ashmem) (id : Z) (cache : list Z) (r : ashmem_range) (A : ashmem_area) (prev : option Z) : ashmem :=
  Ash (<[r_asma r := with_list A (list_add_tail id prev (unpinned_list A))]> (areas t)) (<[id := r]> (ranges t))
    (if range_on_lru r then ashmem_lru_list t ++ [id] else ashmem_lru_list t)
    (if range_on_lru r then u32 (lru_count t + range_size r) else lru_count t)
    (area_cache t) cache (tail (alloc_fails t)) (f_count t) (truncated t).

Lemma range_alloc_eq t a A prev v first last id cache :
  areas t !! a = Some A -> range_cache t = id :: cache -> hd false (alloc_fails t) = false -> id <> 0 ->
  range_alloc a prev v first last t = Ok (0, alloc_state t id cache (Range a first last v) A prev).
Proof.
  intros HA Hc Hb Hid. unfold range_alloc, range_zalloc, oom, set_alloc_fails, set_unpinned, lru_add, area_at, range_at, put_range, put_area, set_areas, set_lru,
    set_ranges, set_range_cache, gets, modify, mbind, ST_bind, mret, ST_ret.
  cbn. rewrite Hc, Hb. cbn. destruct (Z.eqb_spec id 0); [done|]. cbn. rewrite HA. cbn. rewrite lookup_insert_eq, insert_insert_eq. unfold alloc_state.
  destruct (range_on_lru _); cbn; now rewrite ?lookup_insert_eq.
Qed.

(** An allocation fails on an empty cache or when memory is short. *)
Definition can_alloc (t : ashmem) : Prop := range_cache t <> [] /\ hd false (alloc_fails t) = false.
#[global] Instance can_alloc_dec t : Decision (can_alloc t).
Proof. unfold can_alloc. apply _. Defined.
Definition failed_state (t : ashmem) : ashmem :=
  Ash (areas t) (ranges t) (ashmem_lru_list t) (lru_count t) (area_cache t) (range_cache t) (tail (alloc_fails t)) (f_count t) (truncated t).

Lemma range_alloc_full t a prev v first last : ~ can_alloc t -> range_alloc a prev v first last t = Ok (- ENOMEM, failed_state t).
Proof.
  intros Hc. unfold failed_state, range_alloc, range_zalloc, oom, set_alloc_fails, gets, modify, mbind, ST_bind, mret, ST_ret. cbn.
  destruct (range_cache t) as [|x c] eqn:E; [done|]. destruct (hd false (alloc_fails t)) eqn:Ef; [done|].
  destruct Hc. split; [|done]. now rewrite E.
Qed.

(** An operation on the ranges of one area leaves the rest of the state alone. *)
Record frame (a : Z) (t t' : ashmem) : Prop := {
  fr_truncated : truncated t' = truncated t;
  fr_f_count : f_count t' = f_count t;
  fr_area_cache : area_cache t' = area_cache t;
  fr_other : forall b, b <> a -> areas t' !! b = areas t !! b;
  fr_area : forall A, areas t !! a = Some A -> exists l, areas t' !! a = Some (with_list A l);
  fr_ranges : forall id r, r_asma r <> a -> ranges t' !! id = Some r <-> ranges t !! id = Some r
}.

Lemma frame_refl a t : frame a t t.
Proof. split; try done. intros A HA. exists (unpinned_list A). now destruct A. Qed.

Lemma frame_trans a t1 t2 t3 : frame a t1 t2 -> frame a t2 t3 -> frame a t1 t3.
Proof.
  intros [H1 H2 H3 H4 H5 H6] [K1 K2 K3 K4 K5 K6]. split; try congruence.
  - intros b Hb. now rewrite K4, H4.
  - intros A (l & HA)%H5. destruct (K5 _ HA) as (l' & HA'). now exists l'.
  - intros id r Hr. now rewrite K6, H6.
Qed.

Lemma frame_del t id r A : ranges t !! id = Some r -> areas t !! r_asma r = Some A -> frame (r_asma r) t (del_state t id r A).
Proof.
  intros Hr HA. split; cbn; try done.
  - intros b Hb. now rewrite lookup_insert_ne by done.
  - intros A' HA'. eexists. rewrite lookup_insert_eq. replace A' with A by congruence. done.
  - intros id' r' Hr'. rewrite lookup_delete_Some. split; [tauto|]. intros E. split; [|done]. congruence.
Qed.

Lemma frame_shrink t id r r' : ranges t !! id = Some r -> r_asma r' = r_asma r -> frame (r_asma r) t (shrink_state t id r r').
Proof.
  intros Hr Ha. split; cbn; try done.
  - intros A HA. exists (unpinned_list A). now destruct A.
  - intros id' r0 Hr0. destruct (decide (id = id')) as [->|].
    + rewrite lookup_insert_eq. split; intros; congruence.
    + now rewrite lookup_insert_ne.
Qed.

Lemma frame_alloc t id cache r A prev : ranges t !! id = None -> areas t !! r_asma r = Some A ->
  frame (r_asma r) t (alloc_state t id cache r A prev).
Proof.
  intros Hr HA. split; cbn; try done.
  - intros b Hb. now rewrite lookup_insert_ne by done.
  - intros A' HA'. eexists. rewrite lookup_insert_eq. replace A' with A by congruence. done.
  - intros id' r0 Hr0. destruct (decide (id = id')) as [->|].
    + rewrite lookup_insert_eq. split; intros; congruence.
    + now rewrite lookup_insert_ne.
Qed.

Lemma range_on_lru_true r : range_on_lru r = true <-> purged r = ASHMEM_NOT_PURGED.
Proof. apply Z.eqb_eq. Qed.

(** Where a range is on the LRU list or not, [list_del] of it does the same. *)
Lemma lru_del_either t id r : linked t -> ranges t !! id = Some r ->
  (if range_on_lru r then list_del id (ashmem_lru_list t) else ashmem_lru_list t) = list_del id (ashmem_lru_list t).
Proof.
  intros Ht Hr. destruct (range_on_lru r) eqn:E; [done|]. symmetry. apply list_del_fresh.
  intros (r' & Hr' & Hp)%(lk_lru t Ht). simplify_eq. apply range_on_lru_true in Hp. congruence.
Qed.

Lemma count_del t id r : linked t -> ranges t !! id = Some r ->
  (if range_on_lru r then u32 (lru_count t - range_size r) else lru_count t)
  = u32 (sum_pages (ranges t) (list_del id (ashmem_lru_list t))).
Proof.
  intros Ht Hr. rewrite (lk_count t Ht). destruct (range_on_lru r) eqn:E.
  - apply range_on_lru_true in E. rewrite range_size_pages, u32_sub_l, u32_sub_r, sum_pages_del;
      [unfold pages; now rewrite Hr|apply (lk_lru_nodup t Ht)|apply (lk_lru t Ht); eauto].
  - f_equal. rewrite <- (lru_del_either t id r Ht Hr), E. done.
Qed.

Lemma linked_del t id r A : linked t -> ranges t !! id = Some r -> areas t !! r_asma r = Some A -> linked (del_state t id r A).
Proof.
  intros Ht Hr HA. unfold del_state. rewrite (lru_del_either t id r Ht Hr), (count_del t id r Ht Hr).
  split; cbn.
  - intros a B HB. apply lookup_insert_Some in HB as [[<- <-]|[_ HB]]; [|eapply lk_nodup; eauto].
    cbn. eapply NoDup_list_del, lk_nodup; eauto.
  - intros a B x HB. setoid_rewrite lookup_delete_Some. apply lookup_insert_Some in HB as [[<- <-]|[Hn HB]]; cbn.
    + rewrite elem_list_del, (lk_row t Ht _ _ x HA). split; [intros [(r' & ? & ?) ?]|intros (r' & [? ?] & ?)]; eauto 6.
    + rewrite (lk_row t Ht _ _ x HB). split; [intros (r' & ? & ?)|intros (r' & [? ?] & ?)]; eauto.
      exists r'. split; [split; congruence|done].
  - intros x r' [Hx Hr']%lookup_delete_Some. destruct (lk_home t Ht _ _ Hr') as (B & HB & Hf).
    destruct (decide (r_asma r = r_asma r')) as [E|]; [|exists B; now rewrite lookup_insert_ne].
    rewrite E, lookup_insert_eq. eexists. split; [done|]. cbn. congruence.
  - intros x r' [_ Hr']%lookup_delete_Some. eapply lk_range; eauto.
  - apply NoDup_list_del, lk_lru_nodup, Ht.
  - intros x. setoid_rewrite lookup_delete_Some. rewrite elem_list_del, (lk_lru t Ht).
    split; [intros [(r' & ? & ?) ?]; eauto 6|intros (r' & [? ?] & ?); eauto].
  - f_equal. symmetry. apply sum_pages_ext. intros x [_ Hx]%elem_list_del. unfold pages. now rewrite lookup_delete_ne.
  - rewrite lookup_delete_None. right. apply lk_null, Ht.
  - constructor; [|apply lk_cache_nodup, Ht]. intros [_ Hn]%(lk_cache t Ht). congruence.
  - intros x [->|Hx]%elem_of_cons.
    + split; [|apply lookup_delete_eq]. intros ->. pose proof (lk_null t Ht). congruence.
    + destruct (lk_cache t Ht _ Hx). split; [done|]. now rewrite lookup_delete_None; right.
  - apply lk_areas_nodup, Ht.
  - intros x Hx. destruct (lk_areas t Ht _ Hx) as [? E]. split; [done|]. rewrite lookup_insert_ne by congruence. done.
  - intros a B HB. apply lookup_insert_Some in HB as [[<- <-]|[_ HB]]; [exact (lk_name t Ht _ _ HA)|exact (lk_name t Ht _ _ HB)].
  - intros a B HB. apply lookup_insert_Some in HB as [[<- <-]|[_ HB]]; [exact (lk_pos t Ht _ _ HA)|exact (lk_pos t Ht _ _ HB)].
Qed.

Lemma linked_shrink t id r r' : linked t -> ranges t !! id = Some r -> range_ok r' -> r_asma r' = r_asma r -> purged r' = purged r ->
  linked (shrink_state t id r r').
Proof.
  intros Ht Hr Hok Ha Hp.
  assert (forall (P : ashmem_range -> Prop) x, (P r' <-> P r) ->
    (exists y, <[id := r']> (ranges t) !! x = Some y /\ P y) <-> (exists y, ranges t !! x = Some y /\ P y)) as Hex.
  { intros P x HP. destruct (decide (id = x)) as [->|]; [|now rewrite lookup_insert_ne].
    rewrite lookup_insert_eq, Hr. split; intros (y & [= <-] & ?); eexists; split; eauto; tauto. }
  split; cbn; try solve [apply Ht].
  - intros a A x HA. rewrite (lk_row t Ht _ _ x HA). symmetry. apply (Hex (fun y => r_asma y = a)). now rewrite Ha.
  - intros x y [[<- <-]|[_ Hy]]%lookup_insert_Some; [|eapply lk_home; eauto]. rewrite Ha. eapply lk_home; eauto.
  - intros x y [[<- <-]|[_ Hy]]%lookup_insert_Some; [done|]. eapply lk_range; eauto.
  - intros x. rewrite (lk_lru t Ht x). symmetry. apply (Hex (fun y => purged y = ASHMEM_NOT_PURGED)). now rewrite Hp.
  - rewrite (lk_count t Ht). set (l := ashmem_lru_list t).
    assert (sum_pages (<[id := r']> (ranges t)) (list_del id l) = sum_pages (ranges t) (list_del id l)) as E1.
    { apply sum_pages_ext. intros x [_ Hx]%elem_list_del. now apply pages_insert_ne. }
    destruct (range_on_lru r) eqn:El.
    + assert (id ∈ l) as Hl by (apply (lk_lru t Ht); apply range_on_lru_true in El; eauto).
      rewrite !sum_pages_del, pages_insert in E1 by (done || apply (lk_lru_nodup t Ht)).
      rewrite !range_size_pages, u32_sub_sub. unfold pages in E1. rewrite Hr in E1. f_equal. lia.
    + pose proof (lru_del_either t id r Ht Hr) as E2. rewrite El in E2. fold l in E2. now rewrite <- E2 in E1; rewrite E1.
  - rewrite lookup_insert_ne; [apply lk_null, Ht|]. intros ->. pose proof (lk_null t Ht). congruence.
  - intros x Hx. destruct (lk_cache t Ht _ Hx). split; [done|]. rewrite lookup_insert_ne; congruence.
Qed.

Lemma linked_alloc t id cache r A prev : linked t -> range_cache t = id :: cache -> range_ok r ->
  areas t !! r_asma r = Some A -> a_file A <> 0 -> (forall p, prev = Some p -> p ∈ unpinned_list A) ->
  linked (alloc_state t id cache r A prev).
Proof.
  intros Ht Hc Hok HA Hf Hp.
  assert (id <> 0 /\ ranges t !! id = None) as [Hid Hn] by (apply (lk_cache t Ht); rewrite Hc; set_solver).
  pose proof (lk_cache_nodup t Ht) as Hcn. rewrite Hc in Hcn. apply list.NoDup_cons in Hcn as [Hcn1 Hcn2].
  assert (id ∉ ashmem_lru_list t) as Hl by (intros (? & ? & _)%(lk_lru t Ht); congruence).
  assert (forall a B, areas t !! a = Some B -> id ∉ unpinned_list B) as Hu
    by (intros a B HB (? & ? & _)%(lk_row t Ht _ _ _ HB); congruence).
  split; cbn.
  - intros a B [[<- <-]|[_ HB]]%lookup_insert_Some; [|eapply lk_nodup; eauto].
    apply NoDup_list_add_tail; eauto. eapply lk_nodup; eauto.
  - intros a B x [[<- <-]|[Hne HB]]%lookup_insert_Some; cbn.
    + rewrite elem_list_add_tail, (lk_row t Ht _ _ x HA) by done. destruct (decide (id = x)) as [<-|].
      * rewrite lookup_insert_eq. split; eauto.
      * rewrite lookup_insert_ne by done. naive_solver.
    + rewrite (lk_row t Ht _ _ x HB). destruct (decide (id = x)) as [<-|]; [|now rewrite lookup_insert_ne].
      rewrite lookup_insert_eq. naive_solver.
  - intros x y Hy. assert (exists B, areas t !! r_asma y = Some B /\ a_file B <> 0) as (B & HB & HBf).
    { apply lookup_insert_Some in Hy as [[<- <-]|[_ Hy]]; [eauto|]. eapply lk_home; eauto. }
    destruct (decide (r_asma r = r_asma y)) as [E|]; [|exists B; now rewrite lookup_insert_ne].
    rewrite E, lookup_insert_eq. eexists. split; [done|]. done.
  - intros x y [[<- <-]|[_ Hy]]%lookup_insert_Some; [done|]. eapply lk_range; eauto.
  - destruct (range_on_lru r); [|apply lk_lru_nodup, Ht].
    apply list.NoDup_app. split; [apply lk_lru_nodup, Ht|]. split; [set_solver|]. apply NoDup_singleton.
  - intros x. destruct (decide (id = x)) as [<-|].
    + rewrite lookup_insert_eq. destruct (range_on_lru r) eqn:E.
      * apply range_on_lru_true in E. rewrite elem_of_app, list_elem_of_singleton. naive_solver.
      * split; [done|]. intros (y & [= <-] & Hy). apply range_on_lru_true in Hy. congruence.
    + rewrite lookup_insert_ne by done. rewrite <- (lk_lru t Ht x). destruct (range_on_lru r); [|done]. set_solver.
  - assert (sum_pages (<[id := r]> (ranges t)) (ashmem_lru_list t) = sum_pages (ranges t) (ashmem_lru_list t)) as E1.
    { apply sum_pages_ext. intros x Hx. apply pages_insert_ne. set_solver. }
    rewrite (lk_count t Ht). destruct (range_on_lru r); [|now rewrite E1].
    rewrite sum_pages_app, E1, sum_pages_cons, pages_insert. cbn. rewrite range_size_pages, u32_add_l, u32_add_r.
    f_equal. unfold sum_pages. cbn. lia.
  - rewrite lookup_insert_ne by done. apply lk_null, Ht.
  - done.
  - intros x Hx. destruct (lk_cache t Ht x) as [? ?]; [rewrite Hc; set_solver|]. split; [done|].
    rewrite lookup_insert_ne; [done|]. set_solver.
  - apply lk_areas_nodup, Ht.
  - intros x Hx. destruct (lk_areas t Ht _ Hx) as [? E]. split; [done|]. rewrite lookup_insert_ne by congruence. done.
  - intros a B [[<- <-]|[_ HB]]%lookup_insert_Some; [exact (lk_name t Ht _ _ HA)|exact (lk_name t Ht _ _ HB)].
  - intros a B [[<- <-]|[_ HB]]%lookup_insert_Some; [exact (lk_pos t Ht _ _ HA)|exact (lk_pos t Ht _ _ HB)].
Qed.

Lemma linked_failed t : linked t -> linked (failed_state t).
Proof. intros []. now split. Qed.

Lemma frame_failed a t : frame a t (failed_state t).
Proof. split; try done. intros A HA. exists (unpinned_list A). now destruct A. Qed.
