(* ===== verification/AshmemPin.v ===== *)
(** Pinning and unpinning: what the operations on one area do to its pages.

    [covers t a p v]: page [p] of area [a] is unpinned, and [v] tells whether it
    was purged. *)

From stdpp Require Import gmap sorting.
From S2P Require Import Prelude.
From S2P Require Import Ring UserCopy State Strtol Ashmem AshmemInv.

Definition covers (t : ashmem) (a p v : Z) : Prop :=
  exists id r, ranges t !! id = Some r /\ r_asma r = a /\ pgstart r <= p <= pgend r /\ purged r = v.
Definition unpinned (t : ashmem) (a p : Z) : Prop := exists v, covers t a p v.
(** Every range of the area holds a page. *)
Definition no_empty (t : ashmem) (a : Z) : Prop := forall id r, ranges t !! id = Some r -> r_asma r = a -> pgstart r <= pgend r.

(** * Order *)

Lemma row_ext m m' l : (forall x, x ∈ l -> m' !! x = m !! x) -> StronglySorted (above m) l -> StronglySorted (above m') l.
Proof.
  intros He. induction 1 as [|x l Hl IH Hf]; constructor; [apply IH; set_solver|].
  rewrite List.Forall_forall in Hf |- *. intros y Hy rx ry. rewrite !He; [now apply Hf|right; now apply list_elem_of_In|left].
Qed.

(** A map whose ranges are parts of those of another keeps the order. *)
Definition shrunk (m m' : gmap Z ashmem_range) : Prop :=
  forall id r', m' !! id = Some r' -> exists r, m !! id = Some r /\ pgstart r <= pgstart r' /\ pgend r' <= pgend r.

Lemma shrunk_above m m' x y : shrunk m m' -> above m x y -> above m' x y.
Proof.
  intros Hs Ha rx ry Hx Hy. destruct (Hs _ _ Hx) as (qx & Hqx & ? & ?), (Hs _ _ Hy) as (qy & Hqy & ? & ?).
  specialize (Ha _ _ Hqx Hqy). lia.
Qed.

Lemma shrunk_sorted m m' l : shrunk m m' -> StronglySorted (above m) l -> StronglySorted (above m') l.
Proof.
  intros Hs. induction 1 as [|x l Hl IH Hf]; constructor; [done|]. eapply list.Forall_impl; [exact Hf|].
  intros y. now apply shrunk_above.
Qed.

Lemma shrunk_delete m id : shrunk m (delete id m).
Proof. intros x r [_ H]%lookup_delete_Some. exists r. split; [done|lia]. Qed.

Lemma shrunk_insert m id r r' : m !! id = Some r -> pgstart r <= pgstart r' -> pgend r' <= pgend r -> shrunk m (<[id := r']> m).
Proof.
  intros Hr ? ? x y [[<- <-]|[_ Hy]]%lookup_insert_Some; [eauto|]. exists y. split; [done|lia].
Qed.

(** Two ranges of a list that share a page are the same. *)
Lemma sorted_disjoint t a A x y rx ry p : ash_ok t -> areas t !! a = Some A ->
  ranges t !! x = Some rx -> ranges t !! y = Some ry -> r_asma rx = a -> r_asma ry = a ->
  pgstart rx <= p <= pgend rx -> pgstart ry <= p <= pgend ry -> x = y.
Proof.
  intros [Ht Hs] HA Hx Hy Ax Ay Px Py.
  assert (x ∈ unpinned_list A) as Ex by (apply (lk_row t Ht _ _ x HA); eauto).
  assert (y ∈ unpinned_list A) as Ey by (apply (lk_row t Ht _ _ y HA); eauto).
  specialize (Hs _ _ HA). apply list_elem_of_split in Ex as (l1 & l2 & E). rewrite E in Hs, Ey.
  apply StronglySorted_app in Hs as (H12 & _ & H2). apply StronglySorted_cons in H2 as [Hf _].
  rewrite List.Forall_forall in Hf. apply elem_of_app in Ey as [Ey|[->|Ey]%elem_of_cons]; [|done|].
  - specialize (H12 y x Ey ltac:(set_solver) _ _ Hy Hx). lia.
  - specialize (Hf y ltac:(now apply list_elem_of_In) _ _ Hx Hy). lia.
Qed.

Lemma ash_ok_del t id r A : ash_ok t -> ranges t !! id = Some r -> areas t !! r_asma r = Some A -> ash_ok (del_state t id r A).
Proof.
  intros [Ht Hs] Hr HA. split; [now apply linked_del|]. intros a B. cbn. intros [[<- <-]|[_ HB]]%lookup_insert_Some; cbn;
    (eapply shrunk_sorted; [apply shrunk_delete|]); [apply sorted_list_del|]; eauto.
Qed.

Lemma ash_ok_shrink t id r r' : ash_ok t -> ranges t !! id = Some r -> range_ok r' -> r_asma r' = r_asma r -> purged r' = purged r ->
  pgstart r <= pgstart r' -> pgend r' <= pgend r -> ash_ok (shrink_state t id r r').
Proof.
  intros [Ht Hs] Hr Hok Ha Hp H1 H2. split; [now apply linked_shrink|]. intros a B. cbn. intros HB.
  eapply shrunk_sorted; [eapply shrunk_insert; eauto|]. eauto.
Qed.

(** A new range goes between the ranges above it and those below. *)
Lemma row_insert m new r l k : new ∉ l ++ k -> StronglySorted (above m) (l ++ k) ->
  (forall x rx, x ∈ l -> m !! x = Some rx -> pgend r < pgstart rx) ->
  (forall x rx, x ∈ k -> m !! x = Some rx -> pgend rx < pgstart r) ->
  StronglySorted (above (<[new := r]> m)) (l ++ new :: k).
Proof.
  intros Hn Hs Hl Hk.
  assert (forall x y, x ∈ l ++ k -> y ∈ l ++ k -> above m x y -> above (<[new := r]> m) x y) as Ha.
  { intros x y Hx Hy H rx ry. rewrite !lookup_insert_ne by set_solver. apply H. }
  assert (forall h, (forall z, z ∈ h -> z ∈ l ++ k) -> StronglySorted (above m) h -> StronglySorted (above (<[new := r]> m)) h) as Hh.
  { intros h Hin. induction 1 as [|x h Hh IH Hf]; constructor; [apply IH; set_solver|].
    rewrite List.Forall_forall in Hf |- *. intros y Hy. apply Ha; [set_solver| |auto]. apply Hin. right. now apply list_elem_of_In. }
  apply StronglySorted_app in Hs as (H1 & H2 & H3). apply StronglySorted_app. split; [|split].
  - intros x y Hx [->|Hy]%elem_of_cons; [|apply Ha; set_solver].
    intros rx ry. rewrite lookup_insert_ne, lookup_insert_eq by set_solver. intros Hrx [= <-]. eauto.
  - apply Hh; [set_solver|done].
  - apply StronglySorted_cons. split; [|apply Hh; [set_solver|done]]. apply List.Forall_forall. intros y Hy%list_elem_of_In rx ry.
    rewrite lookup_insert_eq, lookup_insert_ne by set_solver. intros [= <-] Hry. eauto.
Qed.

(** * Pinning *)

Lemma in_range_true r first last : page_range_in_range r first last = true <->
  pgstart r <= first <= pgend r \/ pgstart r <= last <= pgend r \/ first <= pgstart r /\ pgend r <= last.
Proof. unfold page_range_in_range, page_in_range, page_range_subsumes_range. rewrite !orb_true_iff, !andb_true_iff, !Z.leb_le. tauto. Qed.

Lemma in_range_false r first last p : page_range_in_range r first last = false -> pgstart r <= p <= pgend r -> ~ (first <= p <= last).
Proof. intros H Hp Hpl. apply not_true_iff_false in H. apply H, in_range_true. lia. Qed.

(** The ranges the loops act on. *)
Definition touched (r : ashmem_range) (first last : Z) : bool :=
  negb (range_before_page r first) && page_range_in_range r first last.

Lemma touched_false r first last p : touched r first last = false -> pgstart r <= p <= pgend r -> ~ (first <= p <= last).
Proof.
  unfold touched, range_before_page. intros [H|H]%andb_false_iff; [|now apply in_range_false].
  rewrite negb_false_iff in H. apply Z.ltb_lt in H. lia.
Qed.

(** The loop from the rest [l] of the list on, [pre] being behind it. *)
Record pin_post (a first last : Z) (pre l : list Z) (ret : Z) (t : ashmem) (ret' : Z) (t' : ashmem) : Prop := {
  pp_ok : ash_ok t';
  pp_frame : frame a t t';
  pp_sub : forall p v, covers t' a p v -> covers t a p v;
  pp_keep : forall p v, covers t a p v -> ~ (first <= p <= last) -> covers t' a p v \/ (~ can_alloc t /\ last < p);
  pp_pin : forall p v, first <= p <= last -> covers t' a p v ->
    exists id r, id ∈ pre /\ ranges t !! id = Some r /\ pgstart r <= p <= pgend r;
  pp_ret : ret' = ASHMEM_NOT_PURGED \/ ret' = ASHMEM_WAS_PURGED;
  pp_purged : ret' = ASHMEM_WAS_PURGED <-> ret = ASHMEM_WAS_PURGED \/
    exists id r, id ∈ l /\ ranges t !! id = Some r /\ touched r first last = true /\ purged r = ASHMEM_WAS_PURGED;
  pp_nonempty : no_empty t a -> no_empty t' a
}.

(** A range of the area is behind the loop or ahead of it. *)
Lemma row_split t a A pre l id r : linked t -> areas t !! a = Some A -> unpinned_list A = pre ++ l ->
  ranges t !! id = Some r -> r_asma r = a -> id ∈ pre \/ id ∈ l.
Proof. intros Ht HA El Hr Ha. apply elem_of_app. rewrite <- El. apply (lk_row t Ht a A id HA). eauto. Qed.

(** Leaving the loop: nothing ahead is touched. *)
Lemma pin_stop a first last pre l ret t A : ash_ok t -> areas t !! a = Some A -> unpinned_list A = pre ++ l ->
  ret = ASHMEM_NOT_PURGED \/ ret = ASHMEM_WAS_PURGED ->
  (forall id r, id ∈ l -> ranges t !! id = Some r -> touched r first last = false) ->
  pin_post a first last pre l ret t ret t.
Proof.
  intros Ht HA El Hret Hl. split; try done.
  - apply frame_refl.
  - tauto.
  - intros p v Hp (id & r & Hr & Ha & Hpr & _). exists id, r. split; [|done].
    destruct (row_split t a A pre l id r (proj1 Ht) HA El Hr Ha) as [|Hin]; [done|].
    exfalso. eapply touched_false; eauto.
  - split; [now left|]. intros [|(id & r & Hin & Hr & Ht' & _)]; [done|]. rewrite (Hl _ _ Hin Hr) in Ht'. done.
Qed.

(** The ranges from one that ends below [first] on end below it. *)
Lemma below_stop t pre id l r first : linked t -> StronglySorted (above (ranges t)) (pre ++ id :: l) -> ranges t !! id = Some r ->
  pgend r < first -> forall x rx, x ∈ id :: l -> ranges t !! x = Some rx -> pgend rx < first.
Proof.
  intros Ht Hs Hr Hb x rx Hx Hrx. apply elem_of_cons in Hx as [->|Hx]; [congruence|].
  apply StronglySorted_app in Hs as (_ & _ & [Hf _]%StronglySorted_cons).
  rewrite List.Forall_forall in Hf. specialize (Hf x ltac:(now apply list_elem_of_In) _ _ Hr Hrx).
  pose proof (lk_range t Ht _ _ Hr) as [(? & ? & ? & ?) ?]. lia.
Qed.

(** Pages after the loss, the shrinking and the splitting of a range. *)
Lemma covers_del t id r A p v : ash_ok t -> ranges t !! id = Some r -> areas t !! r_asma r = Some A ->
  covers (del_state t id r A) (r_asma r) p v <-> covers t (r_asma r) p v /\ ~ (pgstart r <= p <= pgend r).
Proof.
  intros Ht Hr HA. unfold covers. cbn. setoid_rewrite lookup_delete_Some. split.
  - intros (x & rx & [Hx Hrx] & Ha & Hp & Hv). split; [eauto 7|]. intros Hpr. apply Hx.
    eapply (sorted_disjoint t (r_asma r)); eauto.
  - intros [(x & rx & Hrx & Ha & Hp & Hv) Hn]. exists x, rx. split; [|done]. split; [|done]. intros <-. congruence.
Qed.

Lemma covers_shrink t id r r' p v : ranges t !! id = Some r -> r_asma r' = r_asma r -> purged r' = purged r ->
  pgstart r <= pgstart r' -> pgend r' <= pgend r ->
  covers (shrink_state t id r r') (r_asma r) p v -> covers t (r_asma r) p v.
Proof.
  intros Hr Ha Hv H1 H2 (x & rx & Hrx & Hax & Hp & Hvx). cbn in Hrx.
  apply lookup_insert_Some in Hrx as [[<- <-]|[_ Hrx]]; [|now exists x, rx].
  exists id, r. split; [done|]. split; [done|]. split; [lia|congruence].
Qed.

Lemma covers_shrink_keep t id r r' p v : ranges t !! id = Some r -> r_asma r' = r_asma r -> purged r' = purged r ->
  covers t (r_asma r) p v -> (pgstart r <= p <= pgend r -> pgstart r' <= p <= pgend r') ->
  covers (shrink_state t id r r') (r_asma r) p v.
Proof.
  intros Hr Ha Hv (x & rx & Hrx & Hax & Hp & Hvx) Hin. destruct (decide (id = x)) as [<-|].
  - exists id, r'. cbn. rewrite lookup_insert_eq. simplify_eq. auto.
  - exists x, rx. cbn. rewrite lookup_insert_ne by done. auto.
Qed.

Lemma lor_flag x y : x = ASHMEM_NOT_PURGED \/ x = ASHMEM_WAS_PURGED -> y = ASHMEM_NOT_PURGED \/ y = ASHMEM_WAS_PURGED ->
  Z.lor x y = ASHMEM_WAS_PURGED <-> x = ASHMEM_WAS_PURGED \/ y = ASHMEM_WAS_PURGED.
Proof. intros [-> | ->] [-> | ->]; vm_compute; intuition discriminate. Qed.

Lemma lor_flag_range x y : x = ASHMEM_NOT_PURGED \/ x = ASHMEM_WAS_PURGED -> y = ASHMEM_NOT_PURGED \/ y = ASHMEM_WAS_PURGED ->
  Z.lor x y = ASHMEM_NOT_PURGED \/ Z.lor x y = ASHMEM_WAS_PURGED.
Proof. intros [-> | ->] [-> | ->]; vm_compute; intuition discriminate. Qed.

(** One turn that deletes or cuts a range, before the rest of the loop. *)
Lemma pin_turn a first last pre pre' id l ret r t t1 ret' t' A :
  ash_ok t -> areas t !! a = Some A -> unpinned_list A = pre ++ id :: l ->
  ranges t !! id = Some r -> r_asma r = a -> touched r first last = true ->
  ret = ASHMEM_NOT_PURGED \/ ret = ASHMEM_WAS_PURGED ->
  frame a t t1 -> (can_alloc t -> can_alloc t1) ->
  (forall x, x <> id -> ranges t1 !! x = ranges t !! x) ->
  (forall p v, covers t1 a p v -> covers t a p v) ->
  (forall p v, covers t a p v -> ~ (first <= p <= last) -> covers t1 a p v) ->
  (forall x, x ∈ pre' -> x ∈ pre \/ x = id /\ forall r', ranges t1 !! id = Some r' -> forall p, pgstart r' <= p <= pgend r' -> ~ (first <= p <= last)) ->
  (no_empty t a -> no_empty t1 a) ->
  pin_post a first last pre' l (Z.lor ret (purged r)) t1 ret' t' ->
  pin_post a first last pre (id :: l) ret t ret' t'.
Proof.
  intros Ht HA El Hr Ha Htch Hret Hfr Hca Hsame Hsub Hkeep Hpre Hne [P1 P2 P3 P4 P5 P6 P7 P8].
  pose proof (ro_purged r (lk_range t (proj1 Ht) _ _ Hr)) as Hpr.
  pose proof (lk_nodup t (proj1 Ht) _ _ HA) as Hnd. rewrite El in Hnd. apply list.NoDup_app in Hnd as (_ & Hnp & [Hnl _]%list.NoDup_cons).
  split.
  - done.
  - eapply frame_trans; eauto.
  - eauto.
  - intros p v Hc Hp. destruct (P4 p v (Hkeep p v Hc Hp) Hp) as [|[? ?]]; [now left|right]. tauto.
  - intros p v Hp Hc. destruct (P5 p v Hp Hc) as (x & rx & Hx & Hrx & Hpx).
    destruct (Hpre x Hx) as [Hxp|[-> Hno]]; [|exfalso; eapply Hno; eauto].
    exists x, rx. split; [done|]. rewrite <- Hsame; [done|]. intros ->. apply (Hnp id Hxp). left.
  - done.
  - rewrite P7, lor_flag by done. split.
    + intros [[|]|(x & rx & Hx & Hrx & ?)]; [now left|right; exists id, r; split; [left|done]|].
      right. exists x, rx. split; [now right|]. rewrite <- Hsame by congruence. done.
    + intros [|(x & rx & [->|Hx]%elem_of_cons & Hrx & ? & ?)]; [tauto|left; right; congruence|].
      right. exists x, rx. split; [done|]. rewrite Hsame by congruence. done.
  - auto.
Qed.

Lemma with_list_twice A l k : with_list (with_list A l) k = with_list A k.
Proof. done. Qed.

(** A hole in a range: the upper part becomes a new range, before the lower. *)
Lemma ash_ok_split t a A id r new cache pre l first last :
  ash_ok t -> areas t !! a = Some A -> unpinned_list A = pre ++ id :: l -> ranges t !! id = Some r -> r_asma r = a ->
  range_cache t = new :: cache -> span_ok first last -> pgstart r < first -> last < pgend r ->
  ash_ok (shrink_state (alloc_state t new cache (Range a (last + 1) (pgend r) (purged r)) A (Some id)) id r (Range a (pgstart r) (first - 1) (purged r))).
Proof.
  intros Ht HA El Hr Ha Hc (? & ? & ? & ?) Hlo Hhi. pose proof (proj1 Ht) as Hlk. pose proof (lk_range t Hlk _ _ Hr) as Hro. pose proof Hro as [(? & ? & ? & ?) ?].
  set (r2 := Range a (last + 1) _ _). set (r1 := Range a _ (first - 1) _).
  assert (ranges t !! new = None) as Hnew by (apply (lk_cache t Hlk); rewrite Hc; set_solver).
  assert (new <> id) as Hne by congruence.
  assert (id ∈ unpinned_list A) as Hid by (rewrite El; set_solver).
  assert (new ∉ unpinned_list A) as Hnu by (intros (? & ? & _)%(lk_row t Hlk _ _ _ HA); congruence).
  split.
  - apply linked_shrink; [apply linked_alloc| | | |]; try done.
    + split; cbn; [unfold span_ok; lia|done].
    + destruct (lk_home t Hlk _ _ Hr) as (B & HB & ?). congruence.
    + intros p [= <-]. done.
    + cbn. now rewrite lookup_insert_ne.
    + split; cbn; [unfold span_ok; lia|done].
  - intros b B. cbn. rewrite insert_insert_ne by done.
    assert (StronglySorted (above (<[id := r1]> (ranges t))) (pre ++ id :: l)) as Hs1.
    { eapply shrunk_sorted; [apply (shrunk_insert _ _ r); [done|cbn; lia..]|]. rewrite <- El. now apply (proj2 Ht a). }
    apply StronglySorted_app in Hs1 as Hs2. destruct Hs2 as (Hs2 & _ & [Hs3 _]%StronglySorted_cons).
    pose proof (lk_nodup t Hlk _ _ HA) as Hnd. rewrite El in Hnd. apply list.NoDup_app in Hnd as (_ & Hnp & [Hnl _]%list.NoDup_cons).
    pose proof (proj2 Ht _ _ HA) as Hs0. rewrite El in Hs0. apply StronglySorted_app in Hs0 as (Hs0 & _ & _).
    rewrite List.Forall_forall in Hs3. intros [[<- <-]|[Hab HB]]%lookup_insert_Some.
    + cbn [unpinned_list with_list]. rewrite El in Hnu |- *.
      change (add_before new id (pre ++ id :: l)) with (list_add_tail new (Some id) (pre ++ id :: l)). rewrite list_add_tail_split by (intros Hi; apply (Hnp id Hi); left).
      apply (row_insert _ _ _ pre (id :: l)); [done|done| |].
      * intros x rx Hx. rewrite lookup_insert_ne by set_solver. intros Hrx. cbn. apply (Hs0 x id Hx ltac:(left)); done.
      * intros x rx [->|Hx]%elem_of_cons.
        -- rewrite lookup_insert_eq. intros [= <-]. cbn. lia.
        -- intros Hrx. specialize (Hs3 x ltac:(now apply list_elem_of_In) r1 rx ltac:(apply lookup_insert_eq) Hrx). cbn in *. lia.
    + eapply row_ext; [|now apply (proj2 Ht _ _ HB)]. intros x (rx & Hrx & Hb)%(lk_row t Hlk _ _ _ HB).
      cbn in Hab. rewrite !lookup_insert_ne; congruence.
Qed.

(** What the fourth case leaves: the lower part [r1] at [id] and, when the
    allocation succeeds, the upper part at a new address. *)
Lemma pin_split_post t a A id r pre l first last ret t2 (m : gmap Z ashmem_range) :
  ash_ok t -> areas t !! a = Some A -> unpinned_list A = pre ++ id :: l -> ranges t !! id = Some r -> r_asma r = a ->
  span_ok first last -> pgstart r < first -> last < pgend r -> ret = ASHMEM_NOT_PURGED \/ ret = ASHMEM_WAS_PURGED ->
  ash_ok t2 -> frame a t t2 -> ranges t2 = <[id := Range a (pgstart r) (first - 1) (purged r)]> m ->
  m = ranges t /\ ~ can_alloc t \/
    (exists new, ranges t !! new = None /\ m = <[new := Range a (last + 1) (pgend r) (purged r)]> (ranges t)) ->
  pin_post a first last pre (id :: l) ret t (Z.lor ret (purged r)) t2.
Proof.
  intros Ht HA El Hr Ha (? & ? & ? & ?) Hlo Hhi Hret Ht2 Hfr E2 Hm.
  pose proof (lk_range t (proj1 Ht) _ _ Hr) as [(? & ? & ? & ?) Hpr].
  assert (forall x rx, ranges t2 !! x = Some rx -> x <> id /\ ranges t !! x = Some rx \/
    r_asma rx = a /\ pgstart r <= pgstart rx /\ pgend rx <= pgend r /\ purged rx = purged r /\ pgstart rx <= pgend rx /\
    (pgend rx < first \/ last < pgstart rx)) as Hin.
  { intros x rx. rewrite E2. intros [[<- <-]|[Hx Hrx]]%lookup_insert_Some; [right; cbn; repeat split; lia|].
    destruct Hm as [[-> _]|(new & Hn & ->)]; [eauto|].
    apply lookup_insert_Some in Hrx as [[<- <-]|[_ Hrx]]; [right; cbn; repeat split; lia|eauto]. }
  split; [done|done|..].
  - intros p v (x & rx & Hrx & Hxa & Hp & Hv). destruct (Hin _ _ Hrx) as [[_ Hx]|(_ & ? & ? & ? & _)]; [now exists x, rx|].
    exists id, r. repeat split; solve [done|lia|congruence].
  - intros p v (x & rx & Hrx & Hxa & Hp & Hv) Hout. destruct (decide (x = id)) as [->|Hx].
    + simplify_eq. destruct (decide (p < first)).
      * left. exists id. eexists. rewrite E2, lookup_insert_eq. split; [done|]. cbn. repeat split; lia.
      * destruct Hm as [[-> Hca]|(new & Hn & ->)]; [right; split; [done|lia]|left].
        exists new. eexists. rewrite E2, lookup_insert_ne, lookup_insert_eq by congruence. split; [done|]. cbn. repeat split; lia.
    + left. exists x, rx. split; [|done]. rewrite E2, lookup_insert_ne by done.
      destruct Hm as [[-> _]|(new & Hn & ->)]; [done|]. rewrite lookup_insert_ne; congruence.
  - intros p v Hp (x & rx & Hrx & Hxa & Hpx & Hv). destruct (Hin _ _ Hrx) as [[Hx Hrt]|(_ & _ & _ & _ & _ & ?)]; [|lia].
    destruct Hx. symmetry. eapply (sorted_disjoint t a A id x r rx p); solve [eauto|lia].
  - now apply lor_flag_range.
  - rewrite lor_flag by done. split.
    + intros [|]; [tauto|right]. exists id, r. split; [left|]. split; [done|]. split; [|done].
      unfold touched, range_before_page. destruct (Z.ltb_spec (pgend r) first); [lia|]. cbn. apply in_range_true. lia.
    + intros [|(x & rx & [->|Hx]%elem_of_cons & Hrx & Htc & ?)]; [tauto|right; congruence|]. exfalso.
      pose proof (proj2 Ht _ _ HA) as Hs. rewrite El in Hs. apply StronglySorted_app in Hs as (_ & _ & [Hf _]%StronglySorted_cons).
      rewrite List.Forall_forall in Hf. specialize (Hf x ltac:(now apply list_elem_of_In) _ _ Hr Hrx).
      unfold touched, range_before_page in Htc. destruct (Z.ltb_spec (pgend rx) first); [done|lia].
  - intros Hne x rx Hrx Hxa. destruct (Hin _ _ Hrx) as [[_ Hx]|(_ & _ & _ & _ & ? & _)]; [now apply (Hne x)|done].
Qed.

Lemma pin_split t a A id r pre l first last ret :
  ash_ok t -> areas t !! a = Some A -> unpinned_list A = pre ++ id :: l -> ranges t !! id = Some r -> r_asma r = a ->
  span_ok first last -> pgstart r < first -> last < pgend r -> ret = ASHMEM_NOT_PURGED \/ ret = ASHMEM_WAS_PURGED ->
  runs (range_alloc a (Some id) (purged r) (u32 (last + 1)) (pgend r);; range_shrink id (pgstart r) (u32 (first - 1));; mret (Z.lor ret (purged r)))
    t (pin_post a first last pre (id :: l) ret t).
Proof.
  intros Ht HA El Hr Ha Hsp Hlo Hhi Hret. pose proof (lk_range t (proj1 Ht) _ _ Hr) as [(? & ? & ? & ?) Hpr]. pose proof Hsp as (? & ? & ? & ?).
  rewrite !u32_id by (unfold is_u32; lia). apply runs_bind. destruct (decide (can_alloc t)) as [[Hc Hf]|Hca].
  - destruct (range_cache t) as [|new cache] eqn:Ec; [done|].
    destruct (lk_cache t (proj1 Ht) new) as [Hnz Hnew]; [rewrite Ec; left|].
    eapply runs_eq; [apply (range_alloc_eq t a A); eauto|]. apply runs_bind.
    assert (ranges (alloc_state t new cache (Range a (last + 1) (pgend r) (purged r)) A (Some id)) !! id = Some r) as Hr1
      by (cbn; rewrite lookup_insert_ne; congruence).
    eapply runs_eq; [apply range_shrink_eq; exact Hr1|]. rewrite Ha. apply runs_ret.
    eapply pin_split_post with (m := <[new := _]> (ranges t)); eauto.
    + now apply ash_ok_split with (pre := pre) (l := l).
    + eapply frame_trans; [exact (frame_alloc t new cache (Range a (last + 1) (pgend r) (purged r)) A (Some id) Hnew HA)|].
      rewrite <- Ha at 1. apply frame_shrink; [exact Hr1|done].
  - eapply runs_eq; [now apply range_alloc_full|]. apply runs_bind.
    eapply runs_eq; [apply (range_shrink_eq (failed_state t) id r); exact Hr|]. rewrite Ha. apply runs_ret.
    eapply pin_split_post with (m := ranges t); eauto.
    + apply ash_ok_shrink; try done; cbn; try lia; [|split; cbn; [unfold span_ok; lia|done]]. split; [now apply linked_failed, Ht|apply Ht].
    + eapply frame_trans; [apply frame_failed|]. rewrite <- Ha at 1. now apply frame_shrink.
Qed.

Lemma pin_skip a first last pre id l ret t r ret' t' :
  ranges t !! id = Some r -> touched r first last = false ->
  pin_post a first last (pre ++ [id]) l ret t ret' t' -> pin_post a first last pre (id :: l) ret t ret' t'.
Proof.
  intros Hr Hn [P1 P2 P3 P4 P5 P6 P7 P8]. split; try done.
  - intros p v Hp Hc. destruct (P5 p v Hp Hc) as (x & rx & [Hx| ->%list_elem_of_singleton]%elem_of_app & Hrx & Hpx); [now exists x, rx|].
    simplify_eq. exfalso. eapply touched_false; eauto.
  - rewrite P7. split; (intros [|(x & rx & Hx & H)]; [now left|]).
    + right. exists x, rx. split; [now right|done].
    + right. exists x, rx. split; [|done]. apply elem_of_cons in Hx as [->|]; [|done].
      destruct H as (Hrx & Htx & _). congruence.
Qed.

(** The second and the third case cut a range to [r']. *)
Lemma pin_cut a first last pre id l ret r r' t A (k : AM Z) :
  ash_ok t -> areas t !! a = Some A -> unpinned_list A = pre ++ id :: l ->
  ranges t !! id = Some r -> r_asma r = a -> touched r first last = true ->
  ret = ASHMEM_NOT_PURGED \/ ret = ASHMEM_WAS_PURGED ->
  range_ok r' -> r' = Range a (pgstart r') (pgend r') (purged r) -> pgstart r <= pgstart r' -> pgend r' <= pgend r ->
  pgend r' < first \/ last < pgstart r' -> pgstart r' <= pgend r' ->
  (forall p, pgstart r <= p <= pgend r -> ~ (first <= p <= last) -> pgstart r' <= p <= pgend r') ->
  (forall t, ash_ok t -> areas t !! a = Some A -> runs k t (pin_post a first last (pre ++ [id]) l (Z.lor ret (purged r)) t)) ->
  runs (range_shrink id (pgstart r') (pgend r');; k) t (pin_post a first last pre (id :: l) ret t).
Proof.
  intros Ht HA El Hr Ha Htc Hret Hok Er' H1 H2 Hout Hne Hin Hk. apply runs_bind.
  assert (r_asma r' = r_asma r /\ purged r' = purged r) as [E1 E2] by (rewrite Er', Ha; done).
  eapply runs_eq; [apply range_shrink_eq; exact Hr|]. rewrite Ha, <- Er'.
  eapply runs_mono; [apply Hk; [now apply ash_ok_shrink|done]|]. intros ret' t' Hp. subst a.
  eapply pin_turn with (t1 := shrink_state t id r r') (pre' := pre ++ [id]); eauto.
  - now apply frame_shrink.
  - intros x Hx. cbn. now rewrite lookup_insert_ne.
  - intros p v. now apply covers_shrink.
  - intros p v Hc Hp'. apply covers_shrink_keep; auto.
  - intros x [| ->%list_elem_of_singleton]%elem_of_app; [now left|right]. split; [done|].
    intros r0. cbn. rewrite lookup_insert_eq. intros [= <-]. lia.
  - intros He x rx. cbn. intros [[<- <-]|[_ Hrx]]%lookup_insert_Some; [done|]. now apply (He x).
Qed.

Lemma touched_true r first last : range_before_page r first = false -> page_range_in_range r first last = true -> touched r first last = true.
Proof. unfold touched. now intros -> ->. Qed.

Lemma pin_ranges_ok a first last l : span_ok first last -> forall pre ret t A,
  ash_ok t -> areas t !! a = Some A -> unpinned_list A = pre ++ l -> ret = ASHMEM_NOT_PURGED \/ ret = ASHMEM_WAS_PURGED ->
  runs (pin_ranges a first last l ret) t (pin_post a first last pre l ret t).
Proof.
  intros Hsp. pose proof Hsp as (? & ? & ? & ?). induction l as [|id l IH]; intros pre ret t A Ht HA El Hret; cbn [pin_ranges].
  { apply runs_ret. eapply pin_stop; eauto. set_solver. }
  assert (exists r, ranges t !! id = Some r /\ r_asma r = a) as (r & Hr & Ha)
    by (apply (lk_row t (proj1 Ht) a A id HA); rewrite El; set_solver).
  pose proof (lk_range t (proj1 Ht) _ _ Hr) as [(? & ? & ? & ?) Hpr]. pose proof (lor_flag_range ret _ Hret Hpr) as Hret'.
  apply runs_bind. eapply runs_eq; [unfold range_at; now rewrite Hr|].
  destruct (range_before_page r first) eqn:Eb.
  { apply runs_ret. eapply pin_stop; eauto. intros x rx Hx Hrx. unfold touched.
    assert (pgend rx < first) as Hlt%Z.ltb_lt; [|unfold range_before_page; now rewrite Hlt].
    eapply (below_stop t pre id l r); eauto; [apply Ht|rewrite <- El; now apply (proj2 Ht a)|now apply Z.ltb_lt]. }
  apply Z.ltb_ge in Eb as Hb. destruct (page_range_in_range r first last) eqn:Ein.
  2:{ eapply runs_mono; [eapply (IH (pre ++ [id])); eauto; now rewrite <- app_assoc|]. intros ret' t'.
      eapply pin_skip; eauto. unfold touched. now rewrite Ein, andb_false_r. }
  pose proof (touched_true r first last Eb Ein) as Htc. apply in_range_true in Ein as Hin.
  cbv zeta. unfold page_range_subsumes_range. destruct (Z.leb_spec first (pgstart r)).
  - destruct (Z.leb_spec (pgend r) last); cbn [andb].
    + apply runs_bind. assert (areas t !! r_asma r = Some A) as HA' by congruence.
      eapply runs_eq; [eapply range_del_eq; eauto|].
      eapply runs_mono; [eapply (IH pre); [now apply ash_ok_del|cbn; rewrite Ha; apply lookup_insert_eq| |done]|].
      { cbn. rewrite El. apply list_del_middle. rewrite <- El. now apply (lk_nodup t (proj1 Ht) a). }
      intros ret' t' Hp. subst a. eapply pin_turn with (t1 := del_state t id r A) (pre' := pre); eauto; [now apply frame_del|..].
      * intros [? ?]. now split.
      * intros x Hx. cbn. now rewrite lookup_delete_ne.
      * intros p v Hc. now apply (covers_del t id r A p v) in Hc as [? _].
      * intros p v Hc Hout. apply covers_del; [done..|]. split; [done|]. lia.
      * intros He x rx. cbn. intros [_ Hrx]%lookup_delete_Some. now apply (He x).
    + rewrite u32_id by (unfold is_u32; lia).
      apply (pin_cut a first last pre id l ret r (Range a (last + 1) (pgend r) (purged r)) t A); try done; cbn; try lia.
      * split; cbn; [unfold span_ok; lia|done].
      * intros t1 Ht1 HA1. apply (IH (pre ++ [id]) _ t1 A); [done..| |done]. now rewrite <- app_assoc.
  - cbn [andb]. destruct (Z.leb_spec (pgend r) last).
    + rewrite u32_id by (unfold is_u32; lia).
      apply (pin_cut a first last pre id l ret r (Range a (pgstart r) (first - 1) (purged r)) t A); try done; cbn; try lia.
      * split; cbn; [unfold span_ok; lia|done].
      * intros t1 Ht1 HA1. apply (IH (pre ++ [id]) _ t1 A); [done..| |done]. now rewrite <- app_assoc.
    + eapply pin_split; eauto.
Qed.
