(* ===== verification/AshmemUnpin.v ===== *)
(** Unpinning pages and asking whether pages are pinned. *)

From stdpp Require Import gmap sorting.
From S2P Require Import Prelude.
From S2P Require Import Ring UserCopy State Strtol Ashmem AshmemInv AshmemPin.

(** * The pin status *)

Lemma row_range t a A id : linked t -> areas t !! a = Some A -> id ∈ unpinned_list A ->
  exists r, ranges t !! id = Some r /\ r_asma r = a /\ range_ok r.
Proof. intros Ht HA (r & Hr & Ha)%(lk_row t Ht _ _ _ HA). exists r. split_and!; [done..|]. eapply lk_range; eauto. Qed.

Lemma before_true r first last : range_before_page r first = true -> touched r first last = false.
Proof. unfold touched. now intros ->. Qed.

(** A run of [below_stop] at the head of the rest of the list. *)
Lemma row_below t a A pre id l r first : ash_ok t -> areas t !! a = Some A -> unpinned_list A = pre ++ id :: l ->
  ranges t !! id = Some r -> range_before_page r first = true ->
  forall x rx, x ∈ id :: l -> ranges t !! x = Some rx -> pgend rx < first.
Proof.
  intros [Ht Hs] HA El Hr Hb%Z.ltb_lt. eapply below_stop; eauto. rewrite <- El. eauto.
Qed.

Lemma pin_status_ok t a A first last l : ash_ok t -> areas t !! a = Some A -> forall pre, unpinned_list A = pre ++ l ->
  runs (pin_status first last l) t (fun ret t' => t' = t /\ (ret = ASHMEM_IS_UNPINNED \/ ret = ASHMEM_IS_PINNED) /\
    (ret = ASHMEM_IS_UNPINNED <-> exists id r, id ∈ l /\ ranges t !! id = Some r /\ touched r first last = true)).
Proof.
  intros Ht HA. induction l as [|id l IH]; intros pre El; cbn [pin_status].
  { apply runs_ret. split; [done|]. split; [now right|]. split; [done|]. set_solver. }
  destruct (row_range t a A id (proj1 Ht) HA) as (r & Hr & Ha & _); [rewrite El; set_solver|].
  apply runs_bind. eapply runs_eq; [unfold range_at; now rewrite Hr|]. destruct (range_before_page r first) eqn:Eb.
  { apply runs_ret. split; [done|]. split; [now right|]. split; [done|]. intros (x & rx & Hx & Hrx & Htc).
    pose proof (row_below t a A pre id l r first Ht HA El Hr Eb x rx Hx Hrx) as Hlt%Z.ltb_lt.
    rewrite (before_true rx first last Hlt) in Htc. done. }
  destruct (page_range_in_range r first last) eqn:Ein.
  { apply runs_ret. split; [done|]. split; [now left|]. split; [|done]. intros _. exists id, r. split; [left|].
    split; [done|]. now apply touched_true. }
  eapply runs_mono; [apply (IH (pre ++ [id])); now rewrite <- app_assoc|]. intros ret t' (-> & Hret & Hiff).
  split; [done|]. split; [done|]. rewrite Hiff. split; intros (x & rx & Hx & Hrx & Htc); exists x, rx; (split; [|done]); [now right|].
  apply elem_of_cons in Hx as [->|]; [|done]. unfold touched in Htc. simplify_eq. now rewrite Ein, andb_false_r in Htc.
Qed.

(** Where no range is empty, to touch a range is to ask for one of its pages. *)
Lemma touched_page r first last : first <= last -> pgstart r <= pgend r ->
  touched r first last = true <-> exists p, first <= p <= last /\ pgstart r <= p <= pgend r.
Proof.
  intros Hfl Hr. unfold touched, range_before_page. rewrite andb_true_iff, negb_true_iff, Z.ltb_ge, in_range_true. split.
  - intros [? ?]. exists (Z.max first (pgstart r)). lia.
  - intros (p & ? & ?). lia.
Qed.

Lemma touched_pages t a A first last : linked t -> areas t !! a = Some A -> no_empty t a -> first <= last ->
  (exists id r, id ∈ unpinned_list A /\ ranges t !! id = Some r /\ touched r first last = true) <->
  exists p, first <= p <= last /\ unpinned t a p.
Proof.
  intros Ht HA Hne Hfl. split.
  - intros (id & r & Hid & Hr & Htc). destruct (row_range t a A id Ht HA Hid) as (r' & Hr' & Ha & _). simplify_eq.
    apply touched_page in Htc as (p & Hp & Hpr); [|done|now apply (Hne id)]. exists p. split; [done|]. exists (purged r), id, r. done.
  - intros (p & Hp & v & id & r & Hr & Ha & Hpr & _). exists id, r. split; [apply (lk_row t Ht a A id HA); eauto|]. split; [done|].
    apply touched_page; [done|lia|]. eauto.
Qed.

(** * Unpinning *)

Lemma unpin_scan_ok t a A first last l : ash_ok t -> areas t !! a = Some A -> forall pre, unpinned_list A = pre ++ l ->
  runs (unpin_scan first last l) t (fun x t' => t' = t /\ match x with
    | InsertBefore prev => exists k k', l = k ++ k' /\ prev = head k' /\
        (forall x rx, x ∈ k -> ranges t !! x = Some rx -> last < pgstart rx) /\
        (forall x rx, x ∈ k' -> ranges t !! x = Some rx -> pgend rx < first)
    | Subsumed => exists id r, id ∈ l /\ ranges t !! id = Some r /\ pgstart r <= first /\ last <= pgend r
    | Merge id r => id ∈ l /\ ranges t !! id = Some r /\ touched r first last = true
    end).
Proof.
  intros Ht HA. induction l as [|id l IH]; intros pre El; cbn [unpin_scan].
  { apply runs_ret. split; [done|]. exists [], []. set_solver. }
  destruct (row_range t a A id (proj1 Ht) HA) as (r & Hr & Ha & [(? & ? & ? & ?) _]); [rewrite El; set_solver|].
  apply runs_bind. eapply runs_eq; [unfold range_at; now rewrite Hr|]. destruct (range_before_page r first) eqn:Eb.
  { apply runs_ret. split; [done|]. exists [], (id :: l). split; [done|]. split; [done|]. split; [set_solver|].
    eapply row_below; eauto. }
  destruct (page_range_subsumed_by_range r first last) eqn:Es.
  { apply runs_ret. split; [done|]. apply andb_true_iff in Es as [?%Z.leb_le ?%Z.leb_le]. exists id, r. split; [left|done]. }
  destruct (page_range_in_range r first last) eqn:Ein.
  { apply runs_ret. split; [done|]. split; [left|]. split; [done|]. now apply touched_true. }
  eapply runs_mono; [apply (IH (pre ++ [id])); now rewrite <- app_assoc|]. intros [prev| |x rx] t' (-> & HS); (split; [done|]).
  - destruct HS as (k & k' & -> & -> & Hk & Hk'). exists (id :: k), k'. split; [done|]. split; [done|]. split; [|done].
    intros x rx [->|Hx]%elem_of_cons Hrx; [|eauto]. simplify_eq.
    apply not_true_iff_false in Ein. rewrite in_range_true in Ein. apply Z.ltb_ge in Eb. lia.
  - destruct HS as (x & rx & ? & ?). exists x, rx. split; [now right|done].
  - destruct HS as (? & ?). split; [now right|done].
Qed.

(** Between two turns: [F], [L] and [w] are the variables [pgstart], [pgend] and [purged]. *)
Record unpin_inv (t0 : ashmem) (a first last F L w : Z) (t : ashmem) : Prop := {
  ui_ok : ash_ok t;
  ui_frame : frame a t0 t;
  ui_span : span_ok F L;
  ui_grown : F <= first /\ last <= L;
  ui_flag : w = ASHMEM_NOT_PURGED \/ w = ASHMEM_WAS_PURGED;
  ui_sub : forall id r, ranges t !! id = Some r -> r_asma r = a -> ranges t0 !! id = Some r;
  ui_gone : forall id r, ranges t0 !! id = Some r -> r_asma r = a ->
    ranges t !! id = Some r \/ F <= pgstart r /\ pgend r <= L /\ (purged r = ASHMEM_WAS_PURGED -> w = ASHMEM_WAS_PURGED);
  ui_fill : forall p, F <= p <= L -> first <= p <= last \/ unpinned t0 a p;
  ui_purged : w = ASHMEM_WAS_PURGED -> exists id r, ranges t0 !! id = Some r /\ r_asma r = a /\
    F <= pgstart r /\ pgend r <= L /\ purged r = ASHMEM_WAS_PURGED;
  ui_alloc : can_alloc t0 -> can_alloc t
}.

(** At the end: the pages from [F] to [L] are in one range with the flag [w]. *)
Record unpin_post (t0 : ashmem) (a first last ret : Z) (t' : ashmem) (F L w : Z) : Prop := {
  up_grown : F <= first /\ last <= L;
  up_flag : w = ASHMEM_NOT_PURGED \/ w = ASHMEM_WAS_PURGED;
  up_in : forall p v, F <= p <= L -> covers t' a p v <-> ret = 0 /\ v = w;
  up_out : forall p v, ~ (F <= p <= L) -> covers t' a p v <-> covers t0 a p v;
  up_fill : forall p, F <= p <= L -> first <= p <= last \/ unpinned t0 a p;
  up_sticky : forall p, F <= p <= L -> covers t0 a p ASHMEM_WAS_PURGED -> w = ASHMEM_WAS_PURGED;
  up_purged : w = ASHMEM_WAS_PURGED -> no_empty t0 a -> exists p, F <= p <= L /\ covers t0 a p ASHMEM_WAS_PURGED;
  up_nonempty : no_empty t0 a -> first <= last -> no_empty t' a
}.

Lemma unpin_start t a A first last : ash_ok t -> areas t !! a = Some A -> span_ok first last ->
  unpin_inv t a first last first last ASHMEM_NOT_PURGED t.
Proof. intros Ht HA Hs. split; try done; try lia; auto using frame_refl. Qed.

Lemma unpin_merge t0 a A first last F L w t id r : unpin_inv t0 a first last F L w t -> areas t !! a = Some A ->
  ranges t !! id = Some r -> r_asma r = a -> touched r F L = true ->
  unpin_inv t0 a first last (Z.min (pgstart r) F) (Z.max (pgend r) L) (Z.lor w (purged r)) (del_state t id r A).
Proof.
  intros [I1 I2 (? & ? & ? & ?) I4 I5 I6 I7 I8 I9 I10] HA Hr Ha Htc.
  pose proof (lk_range t (proj1 I1) _ _ Hr) as [(? & ? & ? & ?) Hpr]. assert (areas t !! r_asma r = Some A) as HA' by congruence.
  unfold touched, range_before_page in Htc. apply andb_true_iff in Htc as [Hb%negb_true_iff%Z.ltb_ge Hin%in_range_true].
  split.
  - now apply ash_ok_del.
  - eapply frame_trans; [exact I2|]. rewrite <- Ha. now apply frame_del.
  - unfold span_ok. lia.
  - lia.
  - now apply lor_flag_range.
  - intros x rx. cbn. intros [_ Hrx]%lookup_delete_Some. eauto.
  - intros x rx Hrx Hxa. cbn. destruct (I7 x rx Hrx Hxa) as [Hx|(? & ? & Hw)].
    + destruct (decide (x = id)) as [->|Hne]; [right|left; now rewrite lookup_delete_ne].
      simplify_eq. rewrite lor_flag by done. split; [lia|]. split; [lia|tauto].
    + right. rewrite lor_flag by done. split; [lia|]. split; [lia|tauto].
  - intros p Hp. destruct (decide (F <= p <= L)) as [|Hn]; [auto|right]. exists (purged r), id, r.
    split; [eauto|]. split; [done|]. split; [lia|done].
  - rewrite lor_flag by done. intros [Hw|Hw].
    + destruct (I9 Hw) as (x & rx & ? & ? & ? & ? & ?). exists x, rx. split_and!; solve [done|lia].
    + exists id, r. split_and!; solve [eauto|lia].
  - intros [? ?]%I10. now split.
Qed.

(** The three ways out of the loop. *)
Section Outcome.
Context (t0 : ashmem) (a first last F L w : Z) (t : ashmem) (A0 A : ashmem_area).
Hypothesis H0 : ash_ok t0.
Hypothesis HA0 : areas t0 !! a = Some A0.
Hypothesis HI : unpin_inv t0 a first last F L w t.
Hypothesis HA : areas t !! a = Some A.

Lemma out_back p v : ~ (F <= p <= L) -> covers t0 a p v -> covers t a p v.
Proof.
  intros Hp (x & rx & Hrx & Hxa & Hpx & Hv). destruct (ui_gone _ _ _ _ _ _ _ _ HI x rx Hrx Hxa) as [|(? & ? & _)]; [|lia].
  exists x, rx. done.
Qed.

Lemma out_forth p v : covers t a p v -> covers t0 a p v.
Proof. intros (x & rx & Hrx & Hxa & Hp). exists x, rx. split; [|done]. eapply ui_sub; eauto. Qed.

Lemma unpin_subsumed id r : ranges t !! id = Some r -> r_asma r = a -> pgstart r <= F -> L <= pgend r ->
  unpin_post t0 a first last 0 t (pgstart r) (pgend r) (purged r).
Proof.
  intros Hr Ha HF HL. pose proof (ui_grown _ _ _ _ _ _ _ _ HI) as [? ?].
  assert (forall p v, pgstart r <= p <= pgend r -> covers t a p v -> v = purged r) as Hu.
  { intros p v Hp (x & rx & Hrx & Hxa & Hpx & Hv).
    assert (x = id) as -> by (eapply (sorted_disjoint t a A x id rx r p); eauto using ui_ok). congruence. }
  assert (forall p, pgstart r <= p <= pgend r -> covers t a p (purged r)) as Hc by (intros p Hp; exists id, r; done).
  pose proof (lk_range t (proj1 (ui_ok _ _ _ _ _ _ _ _ HI)) _ _ Hr) as [(? & ? & ? & ?) ?].
  assert (ranges t0 !! id = Some r) as Hr0 by (eapply ui_sub; eauto).
  split; [lia|done|..].
  - intros p v Hp. split; [eauto|]. intros [_ ->]. auto.
  - intros p v Hp. split; [apply out_forth|]. apply out_back. lia.
  - intros p Hp. right. exists (purged r). apply out_forth. auto.
  - intros p Hp (x & rx & Hrx & Hxa & Hpx & Hv).
    assert (x = id) as -> by (eapply (sorted_disjoint t0 a A0 x id rx r p); eauto). congruence.
  - intros Hw Hne. exists (pgstart r). split; [split; [lia|]; eapply Hne; eauto|]. rewrite <- Hw. apply out_forth, Hc.
    split; [lia|]. eapply Hne; eauto.
  - intros Hne _ x rx Hrx Hxa. eapply Hne; [|done]. eapply ui_sub; eauto.
Qed.

(** The scan found the place [k ++ k'] for the new range. *)
Context (k k' : list Z).
Hypothesis El : unpinned_list A = k ++ k'.
Hypothesis Hk : forall x rx, x ∈ k -> ranges t !! x = Some rx -> L < pgstart rx.
Hypothesis Hk' : forall x rx, x ∈ k' -> ranges t !! x = Some rx -> pgend rx < F.

Lemma out_free p v : F <= p <= L -> ~ covers t a p v.
Proof.
  intros Hp (x & rx & Hrx & Hxa & Hpx & _). pose proof (proj1 (ui_ok _ _ _ _ _ _ _ _ HI)) as Ht.
  destruct (row_split t a A k k' x rx Ht HA El Hrx Hxa) as [Hx|Hx]; [specialize (Hk _ _ Hx Hrx)|specialize (Hk' _ _ Hx Hrx)]; lia.
Qed.

Lemma out_sticky p : F <= p <= L -> covers t0 a p ASHMEM_WAS_PURGED -> w = ASHMEM_WAS_PURGED.
Proof.
  intros Hp (x & rx & Hrx & Hxa & Hpx & Hv). destruct (ui_gone _ _ _ _ _ _ _ _ HI x rx Hrx Hxa) as [Hx|(_ & _ & Hw)]; [|auto].
  destruct (out_free p (purged rx) Hp). now exists x, rx.
Qed.

Lemma out_purged : w = ASHMEM_WAS_PURGED -> no_empty t0 a -> exists p, F <= p <= L /\ covers t0 a p ASHMEM_WAS_PURGED.
Proof.
  intros Hw Hne. destruct (ui_purged _ _ _ _ _ _ _ _ HI Hw) as (x & rx & Hrx & Hxa & ? & ? & ?).
  pose proof (Hne x rx Hrx Hxa). exists (pgstart rx). split; [lia|]. exists x, rx. split_and!; solve [done|lia].
Qed.

Lemma unpin_full : unpin_post t0 a first last (- ENOMEM) (failed_state t) F L w.
Proof.
  split; [apply HI|apply HI|..].
  - intros p v Hp. split; [|intros [? _]; done]. intros Hc. now destruct (out_free p v Hp).
  - intros p v Hp. split; [apply out_forth|now apply out_back].
  - apply HI.
  - apply out_sticky.
  - apply out_purged.
  - intros Hne _ x rx Hrx Hxa. eapply Hne; [|done]. eapply ui_sub; eauto.
Qed.

Lemma insert_eq new : new ∉ unpinned_list A -> list_add_tail new (head k') (unpinned_list A) = k ++ new :: k'.
Proof.
  intros Hn. rewrite El. destruct k' as [|p l]; cbn [head]; [cbn; now rewrite !app_nil_r|]. apply list_add_tail_split.
  pose proof (lk_nodup t (proj1 (ui_ok _ _ _ _ _ _ _ _ HI)) _ _ HA) as Hnd. rewrite El in Hnd.
  apply list.NoDup_app in Hnd as (_ & Hx & _). intros Hp. apply (Hx p Hp). left.
Qed.

Context (new : Z) (cache : list Z).
Hypothesis Hf : a_file A <> 0.
Hypothesis Hc : range_cache t = new :: cache.
Let t' := alloc_state t new cache (Range a F L w) A (head k').

Lemma new_fresh : ranges t !! new = None /\ (new ∉ unpinned_list A).
Proof.
  pose proof (proj1 (ui_ok _ _ _ _ _ _ _ _ HI)) as Ht. destruct (lk_cache t Ht new) as [_ Hnew]; [rewrite Hc; left|].
  split; [done|]. intros (? & ? & _)%(lk_row t Ht _ _ _ HA). congruence.
Qed.

Lemma unpin_insert_ok : ash_ok t'.
Proof.
  destruct new_fresh as [Hnew Hnu]. pose proof HI as [[Ht Hs] I2 Hsp I4 I5 _ _ _ _ _]. split.
  - apply linked_alloc; [done|done|split; done|done|done|].
    intros p Hp. rewrite El. apply head_Some in Hp as (l & ->). set_solver.
  - intros b B. cbn. intros [[<- <-]|[Hb HB]]%lookup_insert_Some; cbn.
    + rewrite insert_eq by done. apply row_insert; [now rewrite <- El|rewrite <- El; eauto|exact Hk|exact Hk'].
    + eapply row_ext; [|now apply (Hs _ _ HB)]. intros x (rx & Hrx & Hxb)%(lk_row t Ht _ _ _ HB).
      rewrite lookup_insert_ne; congruence.
Qed.

Lemma unpin_inserted : unpin_post t0 a first last 0 t' F L w.
Proof.
  destruct new_fresh as [Hnew Hnu]. pose proof unpin_insert_ok as Hok. pose proof HI as [I1 I2 (? & ? & ? & ?) I4 I5 _ _ _ _ _].
  assert (ranges t' !! new = Some (Range a F L w)) as Hn by (cbn; apply lookup_insert_eq).
  assert (exists B, areas t' !! a = Some B) as (B & HB) by (eexists; cbn; apply lookup_insert_eq).
  split; [done|done|..].
  - intros p v Hp. split.
    + intros (x & rx & Hrx & Hxa & Hpx & Hv). split; [done|].
      assert (x = new) as -> by (eapply (sorted_disjoint t' a B x new rx _ p); eauto). rewrite Hn in Hrx. now injection Hrx as <-.
    + intros [_ ->]. exists new, (Range a F L w). done.
  - intros p v Hp. split.
    + intros (x & rx & Hrx & Hxa & Hpx & Hv). apply out_forth. cbn in Hrx.
      apply lookup_insert_Some in Hrx as [[<- <-]|[_ Hrx]]; [cbn in Hpx; lia|]. now exists x, rx.
    + intros (x & rx & Hrx & Hx)%out_back; [|done]. exists x, rx. split; [|done]. cbn. rewrite lookup_insert_ne; congruence.
  - apply HI.
  - apply out_sticky.
  - apply out_purged.
  - intros Hne Hfl x rx. cbn. intros [[<- <-]|[_ Hrx]]%lookup_insert_Some Hxa; [cbn; lia|].
    eapply Hne; [|done]. eapply ui_sub; eauto.
Qed.
End Outcome.

(** Total correctness of [ashmem_unpin]: it ends, and with enough memory it
    returns 0. *)
Lemma ashmem_unpin_ok t a A first last : ash_ok t -> areas t !! a = Some A -> a_file A <> 0 -> span_ok first last ->
  runs (ashmem_unpin a first last) t (fun ret t' => ash_ok t' /\ frame a t t' /\
    (ret = 0 \/ ret = - ENOMEM /\ ~ can_alloc t) /\ exists F L w, unpin_post t a first last ret t' F L w).
Proof.
  intros Ht HA Hf Hs. unfold ashmem_unpin. apply runs_bind. eapply runs_eq; [unfold area_at; now rewrite HA|].
  eapply (runs_while (fun '(F, L, w) s => unpin_inv t a first last F L w s)
            (fun _ s => match areas s !! a with Some B => zlen (unpinned_list B) | None => 0 end)).
  - now apply unpin_start with (A := A).
  - rewrite HA. unfold zlen. lia.
  - intros [[F L] w] s HI. destruct (fr_area a t s (ui_frame _ _ _ _ _ _ _ _ HI) A HA) as (l & HB).
    pose proof (ui_ok _ _ _ _ _ _ _ _ HI) as Hok. rewrite HB. split; [apply zlen_nonneg|].
    apply runs_bind. eapply runs_eq; [unfold area_at; now rewrite HB|]. apply runs_bind.
    eapply runs_mono; [apply (unpin_scan_ok s a _ F L _ Hok HB []); done|]. intros x s' [-> Hx]. destruct x as [prev| |id r].
    + destruct Hx as (k & k' & El & -> & Hk & Hk'). apply runs_bind. destruct (decide (can_alloc s)) as [[Hc Hb]|Hca].
      * destruct (range_cache s) as [|new cache] eqn:Ec; [done|].
        destruct (lk_cache s (proj1 Hok) new) as [Hnz Hnew]; [rewrite Ec; left|].
        eapply runs_eq; [eapply range_alloc_eq; eauto|]. apply runs_ret. split; [|split; [|split]].
        -- eapply unpin_insert_ok with (t0 := t); eauto.
        -- eapply frame_trans; [apply HI|]. exact (frame_alloc s new cache (Range a F L w) _ (head k') Hnew HB).
        -- now left.
        -- exists F, L, w. eapply unpin_inserted with (t0 := t); eauto.
      * eapply runs_eq; [now apply range_alloc_full|]. apply runs_ret. split; [|split; [|split]].
        -- split; [now apply linked_failed, Hok|apply Hok].
        -- eapply frame_trans; [apply HI|apply frame_failed].
        -- right. split; [done|]. intros ?. apply Hca. now apply (ui_alloc _ _ _ _ _ _ _ _ HI).
        -- exists F, L, w. eapply unpin_full with (t0 := t); eauto.
    + destruct Hx as (id & r & Hid & Hr & HF & HL). apply runs_ret. split; [done|]. split; [apply HI|]. split; [now left|].
      exists (pgstart r), (pgend r), (purged r). eapply unpin_subsumed with (t0 := t); eauto.
      destruct (row_range s a _ id (proj1 Hok) HB Hid) as (r' & Hr' & Ha & _). congruence.
    + destruct Hx as (Hid & Hr & Htc). destruct (row_range s a _ id (proj1 Hok) HB Hid) as (r' & Hr' & Ha & _). simplify_eq.
      apply runs_bind. eapply runs_eq; [eapply range_del_eq; eauto|]. apply runs_ret. split; [now eapply unpin_merge; eauto|].
      unfold del_state. cbn [areas]. rewrite lookup_insert_eq. cbn [unpinned_list with_list] in *.
      destruct (list_elem_of_split _ _ Hid) as (l1 & l2 & E). rewrite E.
      rewrite list_del_middle, !zlen_app by (rewrite <- E; apply (lk_nodup s (proj1 Hok) _ _ HB)).
      unfold zlen. rewrite length_cons. lia.
Qed.
