(* ===== verification/AshmemOps.v ===== *)
(** The other operations of ashmem: the arguments of the pin commands, the
    shrinker, open and release, mappings, names and protection masks. *)

From stdpp Require Import gmap sorting.
From S2P Require Import Prelude.
From S2P Require Import Ring UserCopy State Strtol Ashmem AshmemInv AshmemPin AshmemUnpin.

Lemma area_at_eq t a A : areas t !! a = Some A -> area_at a t = Ok (A, t).
Proof. unfold area_at. now intros ->. Qed.

(** * Arguments of the pin commands *)

(** The length in effect, and when a request is accepted. *)
Definition pin_len (size offset len : Z) : Z := if len =? 0 then u32 (PAGE_ALIGN size - offset) else len.
Definition request_ok (size offset len : Z) : Prop :=
  offset mod PAGE_SIZE = 0 /\ pin_len size offset len mod PAGE_SIZE = 0 /\ offset + pin_len size offset len <= PAGE_ALIGN size.
#[global] Instance request_ok_dec size offset len : Decision (request_ok size offset len).
Proof. unfold request_ok. apply _. Defined.
Definition pin_last (offset len : Z) : Z := u32 (u32 (offset / PAGE_SIZE + len / PAGE_SIZE) - 1).

Lemma land_pages x : is_u32 x -> Z.land x (lnot32 (PAGE_SIZE - 1)) = x - x mod PAGE_SIZE.
Proof.
  intros Hx. change (lnot32 (PAGE_SIZE - 1)) with (2 ^ 32 - 2 ^ 12). change PAGE_SIZE with (2 ^ 12).
  transitivity (Z.shiftl (Z.shiftr x 12) 12).
  - apply bits_ext32.
    + apply land_u32; [done|]. unfold is_u32. lia.
    + rewrite Z.shiftl_mul_pow2, Z.shiftr_div_pow2 by lia. unfold is_u32 in *. pose proof (Z.div_mod x (2 ^ 12)). pose proof (Z.mod_pos_bound x (2 ^ 12)). lia.
    + intros i Hi. rewrite Z.land_spec, Z.shiftl_spec by lia. change (2 ^ 32 - 2 ^ 12) with (Z.shiftl (Z.ones 20) 12).
      rewrite Z.shiftl_spec by lia. destruct (Z.ltb_spec i 12).
      * rewrite !(Z.testbit_neg_r _ (i - 12)) by lia. apply andb_false_r.
      * rewrite Z.shiftr_spec, Z.testbit_ones by lia. replace (i - 12 + 12) with i by lia.
        destruct (Z.leb_spec 0 (i - 12)), (Z.ltb_spec (i - 12) 20); try lia. apply andb_true_r.
  - rewrite Z.shiftl_mul_pow2, Z.shiftr_div_pow2 by lia. pose proof (Z.div_mod x (2 ^ 12)). lia.
Qed.

Lemma page_align_range size : 0 <= PAGE_ALIGN size <= 2 ^ 32 - PAGE_SIZE /\ PAGE_ALIGN size mod PAGE_SIZE = 0.
Proof.
  unfold PAGE_ALIGN. rewrite land_pages by apply u32_range. pose proof (u32_range (size + (PAGE_SIZE - 1))) as H. unfold is_u32 in H.
  set (x := u32 _) in *. change PAGE_SIZE with (2 ^ 12) in *. pose proof (Z.div_mod x (2 ^ 12)). pose proof (Z.mod_pos_bound x (2 ^ 12)).
  split; [split; lia|]. replace (x - x mod 2 ^ 12) with (x / 2 ^ 12 * 2 ^ 12) by lia. apply Z.mod_mul. lia.
Qed.

(** Sizes are rounded up, but from 2^32 - 4095 on to 0. *)
Lemma page_align_value size : is_u32 size ->
  PAGE_ALIGN size = if size <=? 2 ^ 32 - PAGE_SIZE then (size + (PAGE_SIZE - 1)) / PAGE_SIZE * PAGE_SIZE else 0.
Proof.
  unfold is_u32. intros Hs. unfold PAGE_ALIGN. rewrite land_pages by apply u32_range. change PAGE_SIZE with 4096 in *.
  unfold u32. destruct (Z.leb_spec size (2 ^ 32 - 4096)).
  - rewrite (Z.mod_small (size + _)) by lia. pose proof (Z.div_mod (size + (4096 - 1)) 4096). lia.
  - replace (size + (4096 - 1)) with (size - (2 ^ 32 - 4095) + 1 * 2 ^ 32) by lia. rewrite Z.mod_add, Z.mod_small by lia.
    rewrite Z.mod_small; lia.
Qed.

Lemma low_bits x y : is_u32 x -> is_u32 y ->
  Z.land (Z.lor x y) (lnot32 PAGE_MASK) = 0 <-> x mod PAGE_SIZE = 0 /\ y mod PAGE_SIZE = 0.
Proof.
  intros Hx Hy. change (lnot32 PAGE_MASK) with (Z.ones 12). rewrite Z.land_lor_distr_l, !Z.land_ones by lia.
  change (2 ^ 12) with PAGE_SIZE. now rewrite Z.lor_eq_0_iff.
Qed.

Lemma div_pages x : x mod PAGE_SIZE = 0 -> x = x / PAGE_SIZE * PAGE_SIZE.
Proof. intros H. pose proof (Z.div_mod x PAGE_SIZE). change PAGE_SIZE with 4096 in *. lia. Qed.

Lemma pin_len_range size offset len : is_u32 len -> is_u32 (pin_len size offset len).
Proof. intros. unfold pin_len. destruct (len =? 0); [apply u32_range|done]. Qed.

Lemma request_span size offset len : is_u32 offset -> is_u32 len -> request_ok size offset len ->
  span_ok (offset / PAGE_SIZE) (pin_last offset (pin_len size offset len)).
Proof.
  intros Ho Hlen (H1 & H2 & H3). pose proof (pin_len_range size offset len Hlen) as Hl. set (n := pin_len size offset len) in *.
  pose proof (page_align_range size) as [Hp _]. apply div_pages in H1, H2. unfold pin_last, span_ok. unfold is_u32 in *.
  set (o := offset / PAGE_SIZE) in *. set (k := n / PAGE_SIZE) in *. change PAGE_SIZE with 4096 in *.
  rewrite (u32_id (o + k)) by (unfold is_u32; lia). destruct (decide (o + k = 0)) as [E|].
  - rewrite E. change (u32 (0 - 1)) with (2 ^ 32 - 1). lia.
  - rewrite u32_id by (unfold is_u32; lia). lia.
Qed.

(** The pages of an accepted request are those of its bytes. *)
Lemma request_pages size offset len p : is_u32 offset -> is_u32 len -> request_ok size offset len -> PAGE_ALIGN size <> 0 ->
  offset / PAGE_SIZE <= p <= pin_last offset (pin_len size offset len) <->
  offset <= p * PAGE_SIZE < offset + pin_len size offset len.
Proof.
  intros Ho Hlen (H1 & H2 & H3) Hnz. pose proof (pin_len_range size offset len Hlen) as Hl.
  assert (offset = 0 -> pin_len size offset len <> 0) as Hne.
  { intros ->. unfold pin_len. destruct (Z.eqb_spec len 0); [|done]. rewrite Z.sub_0_r, u32_id; [done|].
    pose proof (page_align_range size) as [? _]. unfold is_u32. change PAGE_SIZE with 4096 in *. lia. }
  set (n := pin_len size offset len) in *. pose proof (page_align_range size) as [Hp _]. apply div_pages in H1, H2. unfold pin_last. unfold is_u32 in *.
  set (o := offset / PAGE_SIZE) in *. set (k := n / PAGE_SIZE) in *. change PAGE_SIZE with 4096 in *.
  rewrite (u32_id (o + k)) by (unfold is_u32; lia). rewrite u32_id by (unfold is_u32; lia). lia.
Qed.

(** The dispatch on an accepted request. *)
Definition page_op (asma cmd first last : Z) : AM Z :=
  if cmd =? ASHMEM_PIN then ashmem_pin asma first last
  else if cmd =? ASHMEM_UNPIN then ashmem_unpin asma first last
  else if cmd =? ASHMEM_GET_PIN_STATUS then ashmem_get_pin_status asma first last
  else mret (- EINVAL).

Lemma ashmem_pin_unpin_eq t a A cmd offset len : areas t !! a = Some A -> a_file A <> 0 -> is_u32 offset -> is_u32 len ->
  ashmem_pin_unpin a cmd (Some (offset, len)) t =
  (if decide (request_ok (a_size A) offset len)
   then page_op a cmd (offset / PAGE_SIZE) (pin_last offset (pin_len (a_size A) offset len)) else mret (- EINVAL)) t.
Proof.
  intros HA Hf Ho Hlen. unfold ashmem_pin_unpin, mbind, ST_bind at 1. rewrite (area_at_eq t a A HA).
  destruct (Z.eqb_spec (a_file A) 0) as [|_]; [done|]. fold (pin_len (a_size A) offset len).
  pose proof (pin_len_range (a_size A) offset len Hlen) as Hn. set (n := pin_len (a_size A) offset len) in *.
  pose proof (page_align_range (a_size A)) as [Hp _]. change (PAGE_SIZE) with 4096 in Hp.
  pose proof (low_bits offset n Ho Hn) as Hlow. destruct (Z.eqb_spec (Z.land (Z.lor offset n) (lnot32 PAGE_MASK)) 0) as [E|E]; cbn [negb].
  2:{ rewrite decide_False; [done|]. intros (? & ? & _). tauto. }
  apply Hlow in E as [E1 E2]. unfold is_u32 in *. change (u32 (-1)) with (2 ^ 32 - 1). rewrite (u32_id (2 ^ 32 - 1 - offset)) by (unfold is_u32; lia).
  destruct (Z.ltb_spec (2 ^ 32 - 1 - offset) n).
  { rewrite decide_False; [done|]. unfold request_ok. fold n. lia. }
  rewrite (u32_id (offset + n)) by (unfold is_u32; lia). destruct (Z.ltb_spec (PAGE_ALIGN (a_size A)) (offset + n)).
  { rewrite decide_False; [done|]. unfold request_ok. fold n. lia. }
  rewrite decide_True; [done|]. done.
Qed.

(** * The shrinker *)

Definition purge_of (r : ashmem_range) : ashmem_range := Range (r_asma r) (pgstart r) (pgend r) ASHMEM_WAS_PURGED.

(** The bytes of a range: up to the end of its last page, or of the file. *)
Definition range_bytes (r : ashmem_range) : Z * Z := (pgstart r * PAGE_SIZE, Z.min ((pgend r + 1) * PAGE_SIZE) (2 ^ 32) - 1).
Definition discard (t : ashmem) (id : Z) : Z * Z * Z :=
  match ranges t !! id with
  | Some r => match areas t !! r_asma r with Some A => (a_file A, (range_bytes r).1, (range_bytes r).2) | None => (0, 0, 0) end
  | None => (0, 0, 0)
  end.

Definition purge_state (t : ashmem) (id : Z) (r : ashmem_range) : ashmem :=
  Ash (areas t) (<[id := purge_of r]> (ranges t)) (list_del id (ashmem_lru_list t)) (u32 (lru_count t - range_size r))
    (area_cache t) (range_cache t) (alloc_fails t) (f_count t) (discard t id :: truncated t).

Lemma bytes_eq r : range_ok r ->
  range_bytes r = (u32 (pgstart r * PAGE_SIZE), u32 (u32 (u32 (pgend r + 1) * PAGE_SIZE) - 1)).
Proof.
  intros [(? & ? & ? & Hl) _]. unfold range_bytes. change PAGE_SIZE with 4096. f_equal.
  - rewrite u32_id; [done|]. unfold is_u32. lia.
  - destruct Hl as [Hl|Hl].
    + rewrite (u32_id (pgend r + 1)), (u32_id (_ * _)), u32_id by (unfold is_u32; lia). lia.
    + rewrite Hl. done.
Qed.

Lemma linked_purge t id r : linked t -> ranges t !! id = Some r -> purged r = ASHMEM_NOT_PURGED -> linked (purge_state t id r).
Proof.
  intros Ht Hr Hp. assert (range_on_lru r = true) as El by now apply range_on_lru_true.
  pose proof (count_del t id r Ht Hr) as Hc. rewrite El in Hc.
  split; cbn; try solve [apply Ht].
  - intros a A x HA. rewrite (lk_row t Ht _ _ x HA). destruct (decide (id = x)) as [<-|]; [|now rewrite lookup_insert_ne].
    rewrite lookup_insert_eq, Hr. split; intros (y & [= <-] & <-); eexists; split; eauto.
  - intros x y [[<- <-]|[_ Hy]]%lookup_insert_Some; [|eapply lk_home; eauto]. cbn. eapply lk_home; eauto.
  - intros x y [[<- <-]|[_ Hy]]%lookup_insert_Some; [|eapply lk_range; eauto].
    destruct (lk_range t Ht _ _ Hr). split; [done|now right].
  - apply NoDup_list_del, lk_lru_nodup, Ht.
  - intros x. rewrite elem_list_del, (lk_lru t Ht x). destruct (decide (id = x)) as [<-|].
    + rewrite lookup_insert_eq. split; [tauto|]. intros (y & [= <-] & ?). done.
    + rewrite lookup_insert_ne by done. split; [tauto|]. intros ?. split; congruence.
  - rewrite Hc. f_equal. symmetry. apply sum_pages_ext. intros x [_ Hx]%elem_list_del. now apply pages_insert_ne.
  - rewrite lookup_insert_ne; [apply lk_null, Ht|]. intros ->. pose proof (lk_null t Ht). congruence.
  - intros x Hx. destruct (lk_cache t Ht _ Hx). split; [done|]. rewrite lookup_insert_ne; congruence.
Qed.

Lemma ash_ok_purge t id r : ash_ok t -> ranges t !! id = Some r -> purged r = ASHMEM_NOT_PURGED -> ash_ok (purge_state t id r).
Proof.
  intros [Ht Hs] Hr Hp. split; [now apply linked_purge|]. intros a A HA. cbn.
  eapply shrunk_sorted; [eapply shrunk_insert; [exact Hr|cbn; lia..]|]. eauto.
Qed.

(** The ranges [pre] at the head of the LRU list have been discarded. *)
Record purge_post (t : ashmem) (pre post : list Z) (t' : ashmem) : Prop := {
  pu_ok : ash_ok t';
  pu_lru : ashmem_lru_list t' = post;
  pu_areas : areas t' = areas t;
  pu_ranges : forall id, ranges t' !! id = if decide (id ∈ pre) then purge_of <$> ranges t !! id else ranges t !! id;
  pu_truncated : truncated t' = rev (discard t <$> pre) ++ truncated t;
  pu_area_cache : area_cache t' = area_cache t;
  pu_range_cache : range_cache t' = range_cache t;
  pu_fails : alloc_fails t' = alloc_fails t;
  pu_files : f_count t' = f_count t
}.

Lemma s32_sub_l x y : s32 (s32 x - y) = s32 (x - y).
Proof.
  unfold s32. replace ((x + 2 ^ 31) mod 2 ^ 32 - 2 ^ 31 - y + 2 ^ 31) with ((x + 2 ^ 31) mod 2 ^ 32 - y) by lia.
  rewrite Zminus_mod_idemp_l. do 2 f_equal. lia.
Qed.
Lemma s32_sub_u32 x y : s32 (x - u32 y) = s32 (x - y).
Proof.
  unfold s32, u32. replace (x - y mod 2 ^ 32 + 2 ^ 31) with (x + 2 ^ 31 - y mod 2 ^ 32) by lia.
  rewrite Zminus_mod_idemp_r. do 2 f_equal. lia.
Qed.

Lemma purge_step t id r A nr l : ash_ok t -> ranges t !! id = Some r -> areas t !! r_asma r = Some A -> a_file A <> 0 ->
  purge_ranges (id :: l) nr t =
  (if s32 (nr - range_size r) <=? 0 then mret tt else purge_ranges l (s32 (nr - range_size r))) (purge_state t id r).
Proof.
  intros Ht Hr HA Hf. cbn [purge_ranges].
  unfold lru_del, put_range, set_ranges, set_lru, range_at, gets, modify. unfold mbind, ST_bind. rewrite Hr, (area_at_eq _ _ _ HA).
  destruct (Z.eqb_spec (a_file A) 0) as [|_]; [done|]. cbn -[purge_ranges]. rewrite lookup_insert_eq.
  unfold purge_state, discard. rewrite Hr, HA, bytes_eq by (eapply lk_range; [apply Ht|exact Hr]). done.
Qed.

Lemma discard_same t t' id : areas t' = areas t ->
  option_map (fun r => (r_asma r, pgstart r, pgend r)) (ranges t' !! id) = option_map (fun r => (r_asma r, pgstart r, pgend r)) (ranges t !! id) ->
  discard t' id = discard t id.
Proof.
  intros Ha Hr. unfold discard, range_bytes. rewrite Ha. destruct (ranges t' !! id), (ranges t !! id); try done. now injection Hr as -> -> ->.
Qed.

Lemma purge_ranges_ok l : forall nr t, ash_ok t -> ashmem_lru_list t = l ->
  runs (purge_ranges l nr) t (fun _ t' => exists pre post, l = pre ++ post /\ purge_post t pre post t' /\
    (post = [] \/ s32 (nr - sum_pages (ranges t) pre) <= 0) /\
    (forall k k', pre = k ++ k' -> k <> [] -> k' <> [] -> 0 < s32 (nr - sum_pages (ranges t) k))).
Proof.
  induction l as [|id l IH]; intros nr t Ht El.
  { apply runs_ret. exists [], []. split; [done|]. split; [|split; [now left|]]; [|intros [|] ? ?; done]. split; done. }
  destruct (proj1 (lk_lru t (proj1 Ht) id)) as (r & Hr & Hp); [rewrite El; left|].
  destruct (lk_home t (proj1 Ht) _ _ Hr) as (A & HA & Hf).
  pose proof (lk_lru_nodup t (proj1 Ht)) as Hnd. rewrite El in Hnd. apply list.NoDup_cons in Hnd as [Hnd1 Hnd2].
  pose proof (ash_ok_purge t id r Ht Hr Hp) as Ht1.
  assert (pages (ranges t) id = pgend r - pgstart r + 1) as Epg by (unfold pages; now rewrite Hr).
  assert (ashmem_lru_list (purge_state t id r) = l) as El1.
  { cbn. rewrite El. apply (list_del_middle id []). now constructor. }
  assert (forall x, x ∈ l -> ranges (purge_state t id r) !! x = ranges t !! x) as Hsame.
  { intros x Hx. cbn. rewrite lookup_insert_ne by congruence. done. }
  unfold runs. rewrite (purge_step t id r A nr l Ht Hr HA Hf). rewrite range_size_pages, s32_sub_u32.
  destruct (Z.leb_spec (s32 (nr - (pgend r - pgstart r + 1))) 0) as [Hle|Hgt].
  - exists [id], l. split; [done|]. split; [|split].
    + split; try done. intros x. cbn. destruct (decide (x ∈ [id])) as [->%list_elem_of_singleton|Hx].
      * now rewrite lookup_insert_eq, Hr.
      * rewrite lookup_insert_ne; [done|]. set_solver.
    + right. rewrite sum_pages_cons, Epg. now rewrite Z.add_0_r.
    + intros [|y [|]] k' Ek ? ?; cbn in Ek; simplify_eq; done.
  - pose proof (IH (s32 (nr - (pgend r - pgstart r + 1))) _ Ht1 El1) as H. eapply wp_mono; [exact H|].
    intros [[] t'] (pre & post & -> & [P1 P2 P3 P4 P5 P6 P7 P8 P9] & Hpost & Hmin).
    assert (forall k, (forall x, x ∈ k -> x ∈ pre ++ post) ->
      s32 (s32 (nr - (pgend r - pgstart r + 1)) - sum_pages (ranges (purge_state t id r)) k) = s32 (nr - sum_pages (ranges t) (id :: k))) as Hs.
    { intros k Hk. rewrite s32_sub_l, sum_pages_cons, Epg. f_equal.
      rewrite (sum_pages_ext (ranges t)); [lia|]. intros x Hx. unfold pages. rewrite Hsame; auto. }
    exists (id :: pre), post. split; [done|]. split; [|split].
    + split; try done.
      * intros x. rewrite P4. cbn. destruct (decide (x ∈ pre)) as [Hx|Hx].
        -- rewrite decide_True by (now right). rewrite lookup_insert_ne; [done|]. set_solver.
        -- destruct (decide (id = x)) as [<-|Hx'].
           ++ rewrite decide_True by left. now rewrite lookup_insert_eq, Hr.
           ++ rewrite decide_False by set_solver. now rewrite lookup_insert_ne.
      * rewrite P5. cbn. rewrite <- app_assoc. cbn. do 2 f_equal. apply list_fmap_ext. intros i x Hx.
        apply discard_same; [done|]. rewrite Hsame; [done|]. apply list_elem_of_lookup_2 in Hx. set_solver.
    + destruct Hpost as [|Hpost]; [now left|right]. rewrite <- Hs; [done|set_solver].
    + intros [|y k] k' Ek Hk Hk'; [done|]. cbn in Ek. injection Ek as <- Ek. destruct k as [|z k].
      * rewrite sum_pages_cons, Epg. now rewrite Z.add_0_r.
      * rewrite <- Hs by (rewrite Ek; set_solver). now apply (Hmin (z :: k) k').
Qed.

(** * Open and release *)

(** The areas, their cache and the files, with the ranges untouched. *)
Definition areas_state (t : ashmem) (m : gmap Z ashmem_area) (cache : list Z) (fails : list bool) (files : gmap Z Z) : ashmem :=
  Ash m (ranges t) (ashmem_lru_list t) (lru_count t) cache (range_cache t) fails files (truncated t).

Lemma ash_ok_areas t m cache fails files : ash_ok t ->
  (forall id r, ranges t !! id = Some r -> exists A, m !! r_asma r = Some A /\ a_file A <> 0) ->
  (forall a A, m !! a = Some A -> 0 < a /\ name_ok (a_name A) /\
     match areas t !! a with Some B => unpinned_list A = unpinned_list B | None => unpinned_list A = [] end) ->
  NoDup cache -> (forall a, a ∈ cache -> 0 < a /\ m !! a = None) ->
  ash_ok (areas_state t m cache fails files).
Proof.
  intros [Ht Hs] Hhome Hm Hn Hc. split; [split; cbn; try solve [apply Ht|done]|].
  - intros a A HA. destruct (Hm a A HA) as (_ & _ & H). destruct (areas t !! a) as [B|] eqn:HB; rewrite H; [eapply lk_nodup; eauto|constructor].
  - intros a A id HA. destruct (Hm a A HA) as (_ & _ & H). destruct (areas t !! a) as [B|] eqn:HB; rewrite H; [now apply (lk_row t Ht)|].
    split; [set_solver|]. intros (r & Hr & Hra). destruct (lk_home t Ht _ _ Hr) as (B & HB' & _). congruence.
  - intros a A HA. now apply (Hm a A).
  - intros a A HA. now apply (Hm a A).
  - intros a A HA. cbn in HA |- *. destruct (Hm a A HA) as (_ & _ & H). destruct (areas t !! a) as [B|] eqn:HB; rewrite H; [eauto|constructor].
Qed.

(** One area rewritten, its list kept. *)
Lemma ash_ok_put t a A A' fails files : ash_ok t -> areas t !! a = Some A -> unpinned_list A' = unpinned_list A ->
  (a_file A <> 0 -> a_file A' <> 0) -> name_ok (a_name A') ->
  ash_ok (areas_state t (<[a := A']> (areas t)) (area_cache t) fails files).
Proof.
  intros Ht HA Hl Hf Hn. pose proof (proj1 Ht) as Hlk. apply ash_ok_areas; [done|..].
  - intros id r Hr. destruct (lk_home t Hlk _ _ Hr) as (B & HB & HBf). destruct (decide (a = r_asma r)) as [->|].
    + exists A'. rewrite lookup_insert_eq. split; [done|]. apply Hf. congruence.
    + exists B. now rewrite lookup_insert_ne.
  - intros b B [[<- <-]|[_ HB]]%lookup_insert_Some.
    + rewrite HA. split_and!; [eapply lk_pos; eauto|done|done].
    + rewrite HB. split_and!; [eapply lk_pos; eauto|eapply lk_name; eauto|done].
  - apply lk_areas_nodup, Hlk.
  - intros b Hb. destruct (lk_areas t Hlk _ Hb). split; [done|]. rewrite lookup_insert_ne; congruence.
Qed.

Lemma ash_ok_files t fails files : ash_ok t -> ash_ok (areas_state t (areas t) (area_cache t) fails files).
Proof.
  intros Ht. pose proof (proj1 Ht) as Hlk. apply ash_ok_areas; [done|apply lk_home, Hlk| |apply lk_areas_nodup, Hlk|apply lk_areas, Hlk].
  intros b B HB. rewrite HB. split_and!; [eapply lk_pos; eauto|eapply lk_name; eauto|done].
Qed.

Definition fresh_area : ashmem_area := Area (ASHMEM_NAME_PREFIX ++ replicate (Z.to_nat ASHMEM_NAME_LEN) 0) [] 0 0 PROT_MASK.

Lemma fresh_name : name_ok (a_name fresh_area).
Proof.
  split; [vm_compute; reflexivity| |vm_compute; reflexivity]. intros j Hj. cbn [a_name fresh_area].
  rewrite at_app by lia. fold ASHMEM_NAME_PREFIX_LEN. now rewrite (proj2 (Z.ltb_lt j ASHMEM_NAME_PREFIX_LEN)) by lia.
Qed.

Lemma ashmem_open_ok t : ash_ok t ->
  runs ashmem_open t (fun a t' => ash_ok t' /\
    if decide (area_cache t = [] \/ hd false (alloc_fails t) = true)
    then a = - ENOMEM /\ t' = areas_state t (areas t) (area_cache t) (tail (alloc_fails t)) (f_count t)
    else areas t !! a = None /\ 0 < a /\
         t' = areas_state t (<[a := fresh_area]> (areas t)) (tail (area_cache t)) (tail (alloc_fails t)) (f_count t)).
Proof.
  intros Ht. pose proof (proj1 Ht) as Hlk.
  unfold ashmem_open, oom, put_area, set_alloc_fails, set_area_cache, set_areas, gets, modify, runs, mbind, ST_bind, mret, ST_ret. cbn.
  destruct (area_cache t) as [|a c] eqn:Ec; cbn.
  { rewrite decide_True by now left. split; [|done]. rewrite <- Ec. now apply ash_ok_files. }
  destruct (lk_areas t Hlk a) as [Hp Hn]; [rewrite Ec; left|]. pose proof (lk_areas_nodup t Hlk) as Hnd. rewrite Ec in Hnd. apply list.NoDup_cons in Hnd as [Hnd1 Hnd2].
  destruct (hd false (alloc_fails t)) eqn:Eh; cbn.
  { rewrite decide_True by now right. split; [|done]. rewrite <- Ec. now apply ash_ok_files. }
  rewrite decide_False by (intros [|]; done). split; [|done]. apply ash_ok_areas; [done|..].
  - intros id r Hr. destruct (lk_home t Hlk _ _ Hr) as (B & HB & HBf). exists B. split; [|done]. rewrite lookup_insert_ne; [done|]. intros ->. congruence.
  - intros b B [[<- <-]|[_ HB]]%lookup_insert_Some.
    + rewrite Hn. split_and!; [done|apply fresh_name|done].
    + rewrite HB. split_and!; [eapply lk_pos; eauto|eapply lk_name; eauto|done].
  - done.
  - intros b Hb. destruct (lk_areas t Hlk b) as [? ?]; [rewrite Ec; now right|]. split; [done|]. rewrite lookup_insert_ne; [done|]. intros ->. done.
Qed.

Lemma del_ranges_ok a l : forall t A, ash_ok t -> areas t !! a = Some A -> unpinned_list A = l ->
  runs (del_ranges l) t (fun _ t' => ash_ok t' /\ frame a t t' /\ areas t' !! a = Some (with_list A [])).
Proof.
  induction l as [|id l IH]; intros t A Ht HA El.
  { apply runs_ret. split; [done|]. split; [apply frame_refl|]. rewrite HA, <- El. now destruct A. }
  destruct (row_range t a A id (proj1 Ht) HA) as (r & Hr & <- & _); [rewrite El; left|].
  pose proof (lk_nodup t (proj1 Ht) _ _ HA) as Hnd. rewrite El in Hnd.
  cbn [del_ranges]. apply runs_bind. eapply runs_eq; [eapply range_del_eq; eauto|].
  eapply runs_mono; [eapply (IH _ (with_list A l)); [now apply ash_ok_del| |done]|].
  - cbn. rewrite lookup_insert_eq. do 2 f_equal. rewrite El. apply (list_del_middle id []). done.
  - intros [] t' (H1 & H2 & H3). split; [done|]. split; [|done]. eapply frame_trans; [apply (frame_del t id r A Hr HA)|done].
Qed.

Lemma ashmem_release_ok t a A : ash_ok t -> areas t !! a = Some A ->
  runs (ashmem_release a) t (fun ret t' => ash_ok t' /\ ret = 0 /\ areas t' = delete a (areas t) /\
    (forall id r, ranges t' !! id = Some r <-> ranges t !! id = Some r /\ r_asma r <> a) /\
    area_cache t' = a :: area_cache t /\ truncated t' = truncated t /\
    f_count t' = if a_file A =? 0 then f_count t else <[a_file A := default 0 (f_count t !! a_file A) - 1]> (f_count t)).
Proof.
  intros Ht HA. unfold ashmem_release. apply runs_bind. eapply runs_eq; [apply area_at_eq; eassumption|].
  apply runs_bind. eapply runs_mono; [eapply del_ranges_ok; eauto|]. intros [] t1 (Ht1 & [F1 F2 F3 F4 F5 F6] & HA1).
  apply runs_bind. eapply runs_eq; [apply area_at_eq; eassumption|]. cbn [a_file with_list]. pose proof (proj1 Ht1) as Hlk.
  assert (forall id r, ranges t1 !! id = Some r <-> ranges t !! id = Some r /\ r_asma r <> a) as Hr1.
  { intros id r. split.
    - intros Hr. assert (r_asma r <> a) as Hn; [|split; [now apply F6|done]].
      intros E. apply (not_elem_of_nil id). rewrite (lk_row t1 Hlk a _ id HA1). eauto.
    - intros [Hr Hn]. now apply F6. }
  assert (areas t1 = <[a := with_list A []]> (areas t)) as Ea.
  { apply map_eq. intros b. destruct (decide (a = b)) as [<-|]; [now rewrite lookup_insert_eq|]. rewrite lookup_insert_ne by done. now apply F4. }
  set (files := if a_file A =? 0 then f_count t else _).
  assert (forall Q : unit -> ashmem -> Prop, Q tt (areas_state t1 (areas t1) (area_cache t1) (alloc_fails t1) files) ->
    runs (if negb (a_file A =? 0) then fput (a_file A) else mret tt) t1 Q) as Hfp.
  { intros Q. unfold files, areas_state. rewrite <- F2. destruct (a_file A =? 0); cbn; destruct t1; done. }
  apply runs_bind. apply Hfp. unfold gets, modify, set_areas, set_area_cache, runs, mbind, ST_bind, mret, ST_ret. cbn.
  split.
  { apply (ash_ok_areas t1 (delete a (areas t1)) (a :: area_cache t1) (alloc_fails t1) files Ht1).
    - intros id r Hr. apply Hr1 in Hr as Hr'. destruct (lk_home t1 Hlk _ _ Hr) as (B & HB & HBf). exists B. rewrite lookup_delete_ne; [done|]. intros E. now apply Hr'.
    - intros b B [_ HB]%lookup_delete_Some. rewrite HB. split_and!; [eapply lk_pos; eauto|eapply lk_name; eauto|done].
    - constructor; [|apply lk_areas_nodup, Hlk]. intros [_ Hn]%(lk_areas t1 Hlk). congruence.
    - intros b [->|Hb]%elem_of_cons; [split; [eapply lk_pos; eauto|apply lookup_delete_eq]|].
      destruct (lk_areas t1 Hlk _ Hb). split; [done|]. rewrite lookup_delete_None. now right. }
  rewrite Ea, F1, F3. split_and!; try done. now rewrite delete_insert_eq.
Qed.
