(* ===== verification/AshmemFiles.v ===== *)
(** Names, protection masks and mappings of ashmem areas. *)

From stdpp Require Import gmap sorting.
From S2P Require Import Prelude.
From S2P Require Import Ring UserCopy State Strtol Ashmem AshmemInv AshmemPin AshmemUnpin AshmemOps.

(** * Names *)

Lemma nth_zeros n m : nth m (replicate n 0) 0 = 0.
Proof. revert m. induction n; intros [|m]; cbn; auto. Qed.

Lemma user_byte u i : 0 <= i < ASHMEM_NAME_LEN -> at_ 0 (user_bytes u 0 ASHMEM_NAME_LEN) i = at_ 0 u i.
Proof.
  intros Hi. unfold user_bytes. rewrite at_take by lia. change (Z.to_nat 0) with 0%nat. rewrite drop_0, at_app by lia.
  destruct (Z.ltb_spec i (zlen u)); [done|]. unfold at_ at 2. rewrite nth_overflow by (unfold zlen in *; lia).
  unfold at_. apply nth_zeros.
Qed.

(** The name after [set_name] copied from [u]. *)
Definition new_name (n u n' : list Z) : Prop :=
  zlen n' = zlen n /\ forall j, 0 <= j -> at_ 0 n' j =
    if j =? ASHMEM_FULL_NAME_LEN - 1 then 0
    else if (ASHMEM_NAME_PREFIX_LEN <=? j) && (j <? ASHMEM_FULL_NAME_LEN) then at_ 0 u (j - ASHMEM_NAME_PREFIX_LEN) else at_ 0 n j.

Lemma set_name_ok t a A u : ash_ok t -> areas t !! a = Some A ->
  runs (set_name a u) t (fun ret t' => if a_file A =? 0 then
      ret = (if zlen u <? ASHMEM_NAME_LEN then - EFAULT else 0) /\ ash_ok t' /\
      exists n, new_name (a_name A) u n /\
        t' = areas_state t (<[a := Area n (unpinned_list A) (a_file A) (a_size A) (prot_mask A)]> (areas t)) (area_cache t) (alloc_fails t) (f_count t)
    else ret = - EINVAL /\ t' = t).
Proof.
  intros Ht HA. pose proof (lk_name t (proj1 Ht) _ _ HA) as [Hl Hpre He]. unfold set_name. apply runs_bind.
  eapply runs_eq; [apply area_at_eq; eassumption|]. destruct (Z.eqb_spec (a_file A) 0) as [Hf|]; cbn [negb]; [|now apply runs_ret].
  change ASHMEM_FULL_NAME_LEN with 267 in *. change ASHMEM_NAME_PREFIX_LEN with 11 in *. change ASHMEM_NAME_LEN with 256 in *.
  destruct (memcpy_ok (a_name A) 11 (user_bytes u 0 256) 0 256) as (b & Eb & Hb & Hat); [rewrite ?zlen_user_bytes; lia..|].
  apply runs_bind. eapply runs_eq. { unfold copy_from_user. rewrite Eb. reflexivity. }
  apply runs_bind. eapply runs_eq. { unfold lift. rewrite wr_ok by lia. reflexivity. }
  assert (new_name (a_name A) u (<[Z.to_nat (267 - 1) := 0]> b)) as Hn.
  { split; [rewrite zlen_insert; lia|]. intros j Hj. rewrite at_insert, Hat by lia. change ASHMEM_FULL_NAME_LEN with 267. change ASHMEM_NAME_PREFIX_LEN with 11.
    destruct (j =? 267 - 1); [done|]. change (11 + 256) with 267. destruct (Z.leb_spec 11 j), (Z.ltb_spec j 267); try done; cbn.
    rewrite user_byte by (change ASHMEM_NAME_LEN with 256; lia). f_equal. }
  unfold put_area, set_areas, gets, modify, runs, mbind, ST_bind, mret, ST_ret. cbn. split; [|split].
  - unfold zlen in *. destruct (Z.ltb_spec (Z.of_nat (length u)) 256); destruct (Z.eqb_spec (256 - Z.max 0 (Z.min 256 (Z.of_nat (length u) - 0))) 0); cbn; lia.
  - eapply (ash_ok_put t a A _ _ _ Ht HA); [done|done|]. destruct Hn as [Hn1 Hn2]. split; cbn; [now rewrite Hn1| |rewrite Hn2 by (vm_compute; done); done].
    intros j Hj. rewrite Hn2 by lia. change ASHMEM_FULL_NAME_LEN with 267. change ASHMEM_NAME_PREFIX_LEN with 11 in *.
    destruct (Z.eqb_spec j (267 - 1)); [lia|]. destruct (Z.leb_spec 11 j); [lia|]. now apply Hpre.
  - eexists. split; [exact Hn|]. done.
Qed.

(** [strlen] ends at a NUL byte that is there. *)
Lemma strlen_total s cp j : 0 <= cp <= j -> j < zlen s -> at_ 0 s j = 0 -> exists n, strlen s cp = Ok n /\ 0 <= n <= j - cp.
Proof.
  intros Hcp Hj Hz. apply wp_exists. unfold strlen.
  apply (wp_loop (fun i => cp <= i <= j) (fun i => j - i)); [lia|unfold zlen in *; lia|].
  intros i Hi _. rewrite (rd_at 0) by lia. cbn. destruct (Z.eqb_spec (at_ 0 s i) 0); [lia|]. assert (i <> j) by congruence. lia.
Qed.

(** What the copy of a name to user memory of any length gives. *)
Lemma copy_name u src soff n : 0 <= n -> 0 <= soff -> soff + n <= zlen src ->
  exists b, copy_to_user u 0 src soff n = Ok (b, Z.max 0 (n - zlen u)) /\ zlen b = zlen u /\
    forall i, 0 <= i -> at_ 0 b i = if i <? Z.min n (zlen u) then at_ 0 src (soff + i) else at_ 0 u i.
Proof.
  intros Hn Hs Hsn. pose proof (zlen_nonneg u). unfold copy_to_user.
  destruct (memcpy_ok u 0 src soff (Z.max 0 (Z.min n (zlen u - 0)))) as (b & -> & Hb & Hat); [lia..|].
  exists b. split; [cbn; do 2 f_equal; lia|]. split; [done|]. intros i Hi. rewrite Hat by done.
  replace (Z.max 0 (Z.min n (zlen u - 0))) with (Z.min n (zlen u)) by lia.
  destruct (Z.leb_spec 0 i); [|lia]. cbn [andb]. rewrite Z.add_0_l, Z.sub_0_r. done.
Qed.

(** The string behind the prefix. *)
Definition name_string (n : list Z) (s : list Z) : Prop :=
  exists post, cstring s /\ n = ASHMEM_NAME_PREFIX ++ s ++ 0 :: post.

Lemma get_name_total t a A u : ash_ok t -> areas t !! a = Some A ->
  runs (get_name a u) t (fun x t' => t' = t /\ (x.1 = 0 \/ x.1 = - EFAULT)).
Proof.
  intros Ht HA. pose proof (lk_name t (proj1 Ht) _ _ HA) as [Hl Hpre He]. change ASHMEM_FULL_NAME_LEN with 267 in *.
  unfold get_name. apply runs_bind. eapply runs_eq; [apply area_at_eq; eassumption|]. change ASHMEM_NAME_PREFIX_LEN with 11.
  apply runs_bind. eapply runs_eq. { unfold lift. rewrite (rd_at 0) by lia. reflexivity. }
  apply runs_bind. destruct (Z.eqb_spec (at_ 0 (a_name A) 11) 0); cbn [negb].
  - destruct (copy_name u ASHMEM_NAME_DEF 0 (zlen ASHMEM_NAME_DEF)) as (b & E & _); [vm_compute; done..|].
    eapply runs_eq. { unfold lift. rewrite E. reflexivity. }
    apply runs_ret. split; [done|]. cbn. destruct (negb _); tauto.
  - destruct (strlen_total (a_name A) 11 266) as (k & Ek & Hk); [lia|lia|done|].
    destruct (copy_name u (a_name A) 11 (k + 1)) as (b & E & _); [lia..|].
    eapply runs_eq. { unfold lift. rewrite Ek, bind_ok, E. reflexivity. }
    apply runs_ret. split; [done|]. cbn. destruct (negb _); tauto.
Qed.

(** Set, then get: the string up to its NUL, cut after 255 characters. *)
Lemma new_name_string n u n' s c rest : name_ok n -> new_name n u n' -> u = s ++ c :: rest -> cstring s -> zlen s <= 255 ->
  c = 0 \/ zlen s = 255 -> name_string n' s.
Proof.
  intros [Hl Hpre He] [Hl' Hn] -> Hs Hlen Hc. rewrite Hl in Hl'. pose proof (zlen_nonneg s).
  change ASHMEM_FULL_NAME_LEN with 267 in *. change ASHMEM_NAME_PREFIX_LEN with 11 in *.
  exists (drop (Z.to_nat (12 + zlen s)) n'). split; [done|].
  assert (at_ 0 n' (11 + zlen s) = 0) as Hz.
  { rewrite Hn by lia. change ASHMEM_FULL_NAME_LEN with 267. change ASHMEM_NAME_PREFIX_LEN with 11.
    destruct (Z.eqb_spec (11 + zlen s) (267 - 1)); [done|]. destruct Hc as [->|]; [|lia].
    destruct (Z.leb_spec 11 (11 + zlen s)), (Z.ltb_spec (11 + zlen s) 267); try lia. cbn [andb].
    rewrite Z.add_simpl_l, at_app by lia. rewrite Z.ltb_irrefl, Z.sub_diag. done. }
  apply (list_at_ext 0).
  - rewrite !zlen_app. change (zlen ASHMEM_NAME_PREFIX) with 11. unfold zlen at 3. rewrite length_cons, length_drop. unfold zlen in *. lia.
  - intros i Hi. rewrite at_app by lia. change (zlen ASHMEM_NAME_PREFIX) with 11. destruct (Z.ltb_spec i 11) as [Hi1|Hi1].
    { rewrite Hn by lia. change ASHMEM_FULL_NAME_LEN with 267. change ASHMEM_NAME_PREFIX_LEN with 11.
      destruct (Z.eqb_spec i (267 - 1)); [lia|]. destruct (Z.leb_spec 11 i); [lia|]. now apply Hpre. }
    rewrite at_app by lia. destruct (Z.ltb_spec (i - 11) (zlen s)) as [Hi2|Hi2].
    { rewrite Hn by lia. change ASHMEM_FULL_NAME_LEN with 267. change ASHMEM_NAME_PREFIX_LEN with 11.
      destruct (Z.eqb_spec i (267 - 1)); [lia|]. destruct (Z.leb_spec 11 i), (Z.ltb_spec i 267); try lia. cbn [andb].
      rewrite at_app by lia. destruct (Z.ltb_spec (i - 11) (zlen s)); [done|lia]. }
    replace (0 :: drop _ n') with ([0] ++ drop (Z.to_nat (12 + zlen s)) n') by done. rewrite at_app by lia.
    change (zlen [0]) with 1. destruct (Z.ltb_spec (i - 11 - zlen s) 1).
    + replace (i - 11 - zlen s) with 0 by lia. replace i with (11 + zlen s) by lia. done.
    + rewrite at_drop by lia. f_equal. lia.
Qed.

Definition reported (s : list Z) : list Z := match s with [] => ASHMEM_NAME_DEF | _ => s ++ [0] end.

Lemma get_name_string t a A u s : ash_ok t -> areas t !! a = Some A -> name_string (a_name A) s ->
  runs (get_name a u) t (fun x t' => t' = t /\ x.1 = (if zlen u <? zlen (reported s) then - EFAULT else 0) /\ zlen x.2 = zlen u /\
    forall i, 0 <= i -> at_ 0 x.2 i = if i <? Z.min (zlen (reported s)) (zlen u) then at_ 0 (reported s) i else at_ 0 u i).
Proof.
  intros Ht HA (post & Hs & En). pose proof (zlen_nonneg u) as Hu. pose proof (zlen_nonneg s) as Hs0.
  unfold get_name. apply runs_bind. eapply runs_eq; [apply area_at_eq; eassumption|]. rewrite En.
  destruct (rd_string0 ASHMEM_NAME_PREFIX s post Hs) as [Erd _]. unfold ASHMEM_NAME_PREFIX_LEN.
  apply runs_bind. eapply runs_eq. { unfold lift. rewrite Erd. reflexivity. }
  assert (forall src soff n, 0 <= n -> 0 <= soff -> soff + n <= zlen src -> n = zlen (reported s) ->
    (forall i, 0 <= i < n -> at_ 0 src (soff + i) = at_ 0 (reported s) i) ->
    runs ('(b, missed) ← lift (copy_to_user u 0 src soff n); mret (if negb (missed =? 0) then - EFAULT else 0, b)) t
      (fun x t' => t' = t /\ x.1 = (if zlen u <? zlen (reported s) then - EFAULT else 0) /\ zlen x.2 = zlen u /\
        forall i, 0 <= i -> at_ 0 x.2 i = if i <? Z.min (zlen (reported s)) (zlen u) then at_ 0 (reported s) i else at_ 0 u i)) as Hcopy.
  { intros src soff n H1 H2 H3 H4 H5. destruct (copy_name u src soff n H1 H2 H3) as (b & E & Hb & Hat).
    apply runs_bind. eapply runs_eq. { unfold lift. rewrite E. reflexivity. }
    apply runs_ret. cbn [fst snd]. rewrite <- H4. split; [done|]. split; [|split; [done|]].
    - destruct (Z.ltb_spec (zlen u) n), (Z.eqb_spec (Z.max 0 (n - zlen u)) 0); cbn; lia.
    - intros i Hi. rewrite Hat by done. destruct (Z.ltb_spec i (Z.min n (zlen u))); [|done]. apply H5. lia. }
  destruct s as [|c s].
  - cbn [nth]. apply (Hcopy ASHMEM_NAME_DEF 0 (zlen ASHMEM_NAME_DEF)); [vm_compute; done..|]. intros i _. now rewrite Z.add_0_l.
  - assert (c <> 0) as Hc by (unfold cstring in Hs; apply list.Forall_cons in Hs as [? _]; lia). cbn [nth]. destruct (Z.eqb_spec c 0); [done|].
    cbn [negb]. rewrite (strlen_ok ASHMEM_NAME_PREFIX (c :: s) post Hs), bind_ok.
    assert (zlen (reported (c :: s)) = zlen (c :: s) + 1) as Er by (unfold reported; rewrite zlen_app; done).
    apply (Hcopy _ (zlen ASHMEM_NAME_PREFIX) (zlen (c :: s) + 1)); [lia|apply zlen_nonneg| |done|].
    + rewrite !zlen_app. unfold zlen at 5. rewrite length_cons. lia.
    + intros i Hi. rewrite at_app by (pose proof (zlen_nonneg ASHMEM_NAME_PREFIX); lia).
      destruct (Z.ltb_spec (zlen ASHMEM_NAME_PREFIX + i) (zlen ASHMEM_NAME_PREFIX)); [lia|]. rewrite Z.add_simpl_l.
      unfold reported. rewrite !at_app by lia. destruct (Z.ltb_spec i (zlen (c :: s))); [done|].
      replace (i - zlen (c :: s)) with 0 by lia. done.
Qed.

(** * Protection masks and mappings *)

Lemma set_prot_mask_ok t a A prot personality : ash_ok t -> areas t !! a = Some A ->
  runs (set_prot_mask a prot personality) t (fun ret t' =>
    if Z.land (prot_mask A) prot =? prot then
      ret = 0 /\ ash_ok t' /\
      t' = areas_state t (<[a := Area (a_name A) (unpinned_list A) (a_file A) (a_size A)
             (if negb (Z.land prot PROT_READ =? 0) && negb (Z.land personality READ_IMPLIES_EXEC =? 0) then Z.lor prot PROT_EXEC else prot)]> (areas t))
             (area_cache t) (alloc_fails t) (f_count t)
    else ret = - EINVAL /\ t' = t).
Proof.
  intros Ht HA. unfold set_prot_mask. apply runs_bind. eapply runs_eq; [apply area_at_eq; eassumption|].
  destruct (Z.land (prot_mask A) prot =? prot); cbn [negb]; [|now apply runs_ret].
  unfold put_area, set_areas, gets, modify, runs, mbind, ST_bind, mret, ST_ret. cbn. split; [done|]. split; [|done].
  eapply (ash_ok_put t a A _ _ _ Ht HA); [done|done|]. exact (lk_name t (proj1 Ht) _ _ HA).
Qed.

(** The backing file after a mapping, and the reference counts. *)
Definition map_name (A : ashmem_area) : list Z := if at_ 0 (a_name A) ASHMEM_NAME_PREFIX_LEN =? 0 then ASHMEM_NAME_DEF else a_name A.
Definition map_file (A : ashmem_area) (v : vma) (setup : list Z -> Z -> Z -> Z) : Z :=
  if a_file A =? 0 then setup (map_name A) (a_size A) (vm_flags v) else a_file A.
Definition map_counts (A : ashmem_area) (v : vma) (file : Z) (m : gmap Z Z) : gmap Z Z :=
  let m := if a_file A =? 0 then <[file := 1]> m else m in
  let m := <[file := default 0 (m !! file) + 1]> m in
  if vm_file v =? 0 then m else <[vm_file v := default 0 (m !! vm_file v) - 1]> m.
Definition forbidden (A : ashmem_area) (v : vma) : bool :=
  negb (Z.land (Z.land (vm_flags v) (lnot32 (prot_mask A))) PROT_MASK =? 0).

Lemma get_file_eq f t : get_file f t = Ok (tt, areas_state t (areas t) (area_cache t) (alloc_fails t) (<[f := default 0 (f_count t !! f) + 1]> (f_count t))).
Proof. done. Qed.
Lemma fput_eq f t : fput f t = Ok (tt, areas_state t (areas t) (area_cache t) (alloc_fails t) (<[f := default 0 (f_count t !! f) - 1]> (f_count t))).
Proof. done. Qed.

(** The old file of the mapping is released, whether the mapping is shared or not. *)
Lemma map_set_file t (v : vma) file :
  (if negb (Z.land (vm_flags v) VM_SHARED =? 0) then shmem_set_file v file
   else (if negb (vm_file v =? 0) then fput (vm_file v) else mret tt);; mret (Vma (vm_flags v) file (vm_ops v))) t =
  Ok (Vma (vm_flags v) file (negb (Z.land (vm_flags v) VM_SHARED =? 0) || vm_ops v),
      if vm_file v =? 0 then t
      else areas_state t (areas t) (area_cache t) (alloc_fails t) (<[vm_file v := default 0 (f_count t !! vm_file v) - 1]> (f_count t))).
Proof. unfold shmem_set_file, mbind, ST_bind. destruct (Z.land _ _ =? 0), (vm_file v =? 0); cbn; done. Qed.

Lemma ashmem_mmap_ok t a A v setup : ash_ok t -> areas t !! a = Some A -> (forall n s f, setup n s f <> 0) ->
  runs (ashmem_mmap a v setup) t (fun '(ret, v') t' => ash_ok t' /\
    if a_size A =? 0 then ret = - EINVAL /\ v' = v /\ t' = t
    else if forbidden A v then ret = - EPERM /\ v' = v /\ t' = t
    else if (a_file A =? 0) && (map_file A v setup <? 0) then ret = map_file A v setup /\ v' = v /\ t' = t
    else ret = 0 /\
      v' = Vma (Z.lor (vm_flags v) VM_CAN_NONLINEAR) (map_file A v setup) (negb (Z.land (vm_flags v) VM_SHARED =? 0) || vm_ops v) /\
      t' = areas_state t (<[a := Area (a_name A) (unpinned_list A) (map_file A v setup) (a_size A) (prot_mask A)]> (areas t))
             (area_cache t) (alloc_fails t) (map_counts A v (map_file A v setup) (f_count t))).
Proof.
  intros Ht HA Hset. pose proof (lk_name t (proj1 Ht) _ _ HA) as Hn. pose proof Hn as [Hl _ _].
  unfold ashmem_mmap. apply runs_bind. eapply runs_eq; [apply area_at_eq; eassumption|].
  destruct (a_size A =? 0); [now apply runs_ret|]. fold (forbidden A v). destruct (forbidden A v); [now apply runs_ret|].
  assert (a_file A <> 0 -> map_file A v setup <> 0) as Hnz by (unfold map_file; destruct (Z.eqb_spec (a_file A) 0); done).
  assert (forall cnt fails, runs (B ← area_at a; get_file (a_file B);;
      v0 ← (if negb (Z.land (vm_flags v) VM_SHARED =? 0) then shmem_set_file v (a_file B)
            else (if negb (vm_file v =? 0) then fput (vm_file v) else mret tt);; mret (Vma (vm_flags v) (a_file B) (vm_ops v)));
      mret (0, Vma (Z.lor (vm_flags v0) VM_CAN_NONLINEAR) (vm_file v0) (vm_ops v0)))
    (areas_state t (<[a := Area (a_name A) (unpinned_list A) (map_file A v setup) (a_size A) (prot_mask A)]> (areas t)) (area_cache t) fails cnt)
    (fun '(ret, v') t' => ash_ok t' /\ ret = 0 /\
      v' = Vma (Z.lor (vm_flags v) VM_CAN_NONLINEAR) (map_file A v setup) (negb (Z.land (vm_flags v) VM_SHARED =? 0) || vm_ops v) /\
      t' = areas_state t (<[a := Area (a_name A) (unpinned_list A) (map_file A v setup) (a_size A) (prot_mask A)]> (areas t)) (area_cache t) fails
        (let m := <[map_file A v setup := default 0 (cnt !! map_file A v setup) + 1]> cnt in
         if vm_file v =? 0 then m else <[vm_file v := default 0 (m !! vm_file v) - 1]> m))) as Htail.
  { intros cnt fails. apply runs_bind. eapply runs_eq; [apply area_at_eq; apply lookup_insert_eq|]. cbn [a_file].
    apply runs_bind. eapply runs_eq; [apply get_file_eq|]. apply runs_bind. eapply runs_eq; [apply map_set_file|]. apply runs_ret.
    assert (forall m, ash_ok (areas_state t (<[a := Area (a_name A) (unpinned_list A) (map_file A v setup) (a_size A) (prot_mask A)]> (areas t)) (area_cache t) fails m)) as Hok
      by (intros m; eapply (ash_ok_put t a A); done).
    destruct (vm_file v =? 0); cbn; (split; [apply Hok|done]). }
  unfold map_counts. cbv zeta. apply runs_bind. destruct (Z.eqb_spec (a_file A) 0) as [Hf|Hf]; cbn [andb].
  - apply runs_bind. eapply runs_eq. { unfold lift. rewrite (rd_at 0) by (rewrite Hl; vm_compute; done). reflexivity. } cbv zeta.
    assert (setup (if negb (at_ 0 (a_name A) ASHMEM_NAME_PREFIX_LEN =? 0) then a_name A else ASHMEM_NAME_DEF) (a_size A) (vm_flags v) = map_file A v setup) as ->.
    { unfold map_file, map_name. rewrite Hf. cbn [Z.eqb]. now destruct (at_ 0 (a_name A) ASHMEM_NAME_PREFIX_LEN =? 0). }
    destruct (Z.ltb_spec (map_file A v setup) 0).
    + apply runs_ret. destruct (Z.eqb_spec (map_file A v setup) 0); [lia|]. now apply runs_ret.
    + unfold put_area, set_areas, set_f_count. apply (Htail (<[map_file A v setup := 1]> (f_count t)) (alloc_fails t)).
  - apply runs_ret. cbn [negb Z.eqb].
    assert (t = areas_state t (<[a := Area (a_name A) (unpinned_list A) (map_file A v setup) (a_size A) (prot_mask A)]> (areas t)) (area_cache t) (alloc_fails t) (f_count t)) as Et.
    { unfold areas_state. rewrite insert_id; [now destruct t|]. rewrite HA. f_equal. unfold map_file. destruct (Z.eqb_spec (a_file A) 0); [done|]. now destruct A. }
    rewrite Et at 1. apply Htail.
Qed.
