(* ===== verification/AshmemFacts.v ===== *)
(** The operations of ashmem as calls on one shared state, its invariant, and
    what user space can rely on. *)

From stdpp Require Import gmap sorting.
From S2P Require Import Prelude.
From S2P Require Import Ring UserCopy State Strtol Ashmem AshmemInv AshmemPin AshmemUnpin AshmemOps AshmemFiles.

(** * Calls *)

Inductive ash_call :=
| COpen
| CRelease (asma : Z)
| CRead (asma result : Z)
| CMmap (asma : Z) (v : vma) (setup : list Z -> Z -> Z -> Z)
| CIoctl (asma cmd arg : Z) (u : list Z) (p : option (Z * Z)) (personality : Z) (capable : bool)
| CShrink (nr_to_scan gfp_mask : Z).

Definition ash_do (c : ash_call) : AM Z :=
  match c with
  | COpen => ashmem_open
  | CRelease asma => ashmem_release asma
  | CRead asma result => ashmem_read asma result
  | CMmap asma v setup => '(ret, _) ← ashmem_mmap asma v setup; mret ret
  | CIoctl asma cmd arg u p personality capable => '(ret, _) ← ashmem_ioctl asma cmd arg u p personality capable; mret ret
  | CShrink nr_to_scan gfp_mask => ashmem_shrink nr_to_scan gfp_mask
  end.

(** A file operation is on an open area; [shmem_file_setup] returns no NULL; the
    fields of [struct ashmem_pin] are 32-bit words. *)
Definition live (t : ashmem) (c : ash_call) : Prop :=
  match c with
  | COpen | CShrink _ _ => True
  | CRelease a | CRead a _ => is_Some (areas t !! a)
  | CMmap a _ setup => is_Some (areas t !! a) /\ forall n s f, setup n s f <> 0
  | CIoctl a _ _ _ p _ _ => is_Some (areas t !! a) /\ match p with Some (offset, len) => is_u32 offset /\ is_u32 len | None => True end
  end.

Inductive ash_steps : ashmem -> ashmem -> Prop :=
| steps_refl t : ash_steps t t
| steps_call t c ret t1 t2 : live t c -> ash_do c t = Ok (ret, t1) -> ash_steps t1 t2 -> ash_steps t t2.

(** The calls that pin page [p] of area [a] again, or close the area. *)
Definition pins (t : ashmem) (c : ash_call) (a p : Z) : Prop :=
  match c with
  | CRelease b => b = a
  | CIoctl b cmd _ _ (Some (offset, len)) _ _ => b = a /\ cmd = ASHMEM_PIN /\ exists A, areas t !! a = Some A /\
      request_ok (a_size A) offset len /\ offset / PAGE_SIZE <= p <= pin_last offset (pin_len (a_size A) offset len)
  | _ => False
  end.

(** * Page commands *)

Lemma frame_covers a t t' b p v : frame a t t' -> b <> a -> covers t' b p v <-> covers t b p v.
Proof.
  intros Hf Hb. unfold covers. split; intros (id & r & Hr & Ha & H); exists id, r; (split; [|done]);
    [rewrite <- (fr_ranges a t t' Hf)|rewrite (fr_ranges a t t' Hf)]; congruence.
Qed.

Lemma ashmem_pin_ok t a A first last : ash_ok t -> areas t !! a = Some A -> span_ok first last ->
  runs (ashmem_pin a first last) t (pin_post a first last [] (unpinned_list A) ASHMEM_NOT_PURGED t).
Proof.
  intros Ht HA Hs. unfold ashmem_pin. apply runs_bind. eapply runs_eq; [apply area_at_eq; eassumption|].
  eapply pin_ranges_ok; eauto.
Qed.

Lemma ashmem_status_ok t a A first last : ash_ok t -> areas t !! a = Some A ->
  runs (ashmem_get_pin_status a first last) t (fun ret t' => t' = t /\ (ret = ASHMEM_IS_UNPINNED \/ ret = ASHMEM_IS_PINNED) /\
    (ret = ASHMEM_IS_UNPINNED <-> exists id r, id ∈ unpinned_list A /\ ranges t !! id = Some r /\ touched r first last = true)).
Proof.
  intros Ht HA. unfold ashmem_get_pin_status. apply runs_bind. eapply runs_eq; [apply area_at_eq; eassumption|].
  eapply (pin_status_ok t a A first last (unpinned_list A) Ht HA []). done.
Qed.

(** Purged pages stay purged, and unpinned pages unpinned, in a step with enough
    memory, unless they are pinned or their area is closed. *)
Definition keeps (t t' : ashmem) (except : Z -> Z -> Prop) : Prop :=
  forall a p, ~ except a p -> can_alloc t ->
    (covers t a p ASHMEM_WAS_PURGED -> covers t' a p ASHMEM_WAS_PURGED) /\ (unpinned t a p -> unpinned t' a p).

Lemma keeps_ranges t t' e : ranges t' = ranges t -> keeps t t' e.
Proof. intros E a p _ _. unfold unpinned, covers. rewrite E. tauto. Qed.

Lemma keeps_pin t a first last pre l ret ret' t' (e : Z -> Z -> Prop) : pin_post a first last pre l ret t ret' t' ->
  (forall p, first <= p <= last -> e a p) -> keeps t t' e.
Proof.
  intros [_ Hf _ Hk _ _ _ _] He b p Hn Hca. destruct (decide (b = a)) as [->|Hb].
  - assert (forall v, covers t a p v -> covers t' a p v) as H; [|split; [auto|intros [v Hv]; exists v; auto]].
    intros v Hv. destruct (Hk p v Hv) as [|[? _]]; [|done|done]. intros Hp. apply Hn. now apply He.
  - unfold unpinned. setoid_rewrite (frame_covers a t t' b p _ Hf Hb). tauto.
Qed.

Lemma keeps_unpin t a first last ret t' F L w (e : Z -> Z -> Prop) : frame a t t' ->
  (ret = 0 \/ ret = - ENOMEM /\ ~ can_alloc t) -> unpin_post t a first last ret t' F L w -> keeps t t' e.
Proof.
  intros Hf Hret [U1 U2 U3 U4 U5 U6 U7 U8] b p _ Hca. destruct Hret as [->|[_ ?]]; [|done]. destruct (decide (b = a)) as [->|Hb].
  - destruct (decide (F <= p <= L)) as [Hp|Hp]; [|unfold unpinned; setoid_rewrite (U4 p _ Hp); tauto]. split.
    + intros Hc. apply U3; [done|]. split; [done|]. symmetry. eauto.
    + intros _. exists w. now apply U3.
  - unfold unpinned. setoid_rewrite (frame_covers a t t' b p _ Hf Hb). tauto.
Qed.

Lemma keeps_purge t pre post t' e : purge_post t pre post t' -> keeps t t' e.
Proof.
  intros Hp a p _ _. assert (forall v, covers t a p v -> covers t' a p v \/ covers t' a p ASHMEM_WAS_PURGED) as H.
  { intros v (id & r & Hr & Ha & Hpr & Hv). pose proof (pu_ranges t pre post t' Hp id) as E. rewrite Hr in E.
    destruct (decide (id ∈ pre)); [right; exists id, (purge_of r)|left; exists id, r]; done. }
  split; [intros [|]%H; done|]. intros [v [|]%H]; [exists v|exists ASHMEM_WAS_PURGED]; done.
Qed.

Lemma keeps_release t t' a : (forall id r, ranges t' !! id = Some r <-> ranges t !! id = Some r /\ r_asma r <> a) -> keeps t t' (fun b _ => a = b).
Proof.
  intros H b p Hb _. assert (forall v, covers t b p v -> covers t' b p v) as Hc; [|split; [auto|intros [v Hv]; exists v; auto]].
  intros v (id & r & Hr & Ha & ?). exists id, r. split; [|done]. apply H. split; [done|]. congruence.
Qed.

(** * Every call keeps the invariant *)

Lemma ashmem_shrink_ok t nr gfp : ash_ok t ->
  runs (ashmem_shrink nr gfp) t (fun ret t' =>
    if negb (nr =? 0) && (Z.land gfp __GFP_FS =? 0) then ret = -1 /\ t' = t
    else if nr =? 0 then ret = s32 (lru_count t) /\ t' = t
    else exists pre post, ashmem_lru_list t = pre ++ post /\ purge_post t pre post t' /\
      (post = [] \/ s32 (nr - sum_pages (ranges t) pre) <= 0) /\
      (forall k k', pre = k ++ k' -> k <> [] -> k' <> [] -> 0 < s32 (nr - sum_pages (ranges t) k)) /\
      ret = s32 (lru_count t')).
Proof.
  intros Ht. unfold ashmem_shrink. destruct (negb (nr =? 0) && _); [now apply runs_ret|]. destruct (nr =? 0); [done|].
  apply runs_gets. apply runs_bind. eapply runs_mono; [now apply purge_ranges_ok|].
  intros [] t' (pre & post & E & Hp & H1 & H2). apply runs_gets, runs_ret. exists pre, post. done.
Qed.

Lemma shrink_effect t nr gfp e : ash_ok t -> runs (ashmem_shrink nr gfp) t (fun _ t' => ash_ok t' /\ keeps t t' e).
Proof.
  intros Ht. eapply runs_mono; [now apply ashmem_shrink_ok|]. intros ret t' H. cbv beta in H.
  destruct (negb (nr =? 0) && _); [destruct H as [_ ->]; split; [done|now apply keeps_ranges]|].
  destruct (nr =? 0); [destruct H as [_ ->]; split; [done|now apply keeps_ranges]|].
  destruct H as (pre & post & _ & Hp & _). split; [apply Hp|]. now apply (keeps_purge t pre post).
Qed.

Lemma pin_unpin_effect t a A cmd p (e : Z -> Z -> Prop) : ash_ok t -> areas t !! a = Some A ->
  match p with Some (offset, len) => is_u32 offset /\ is_u32 len | None => True end ->
  (forall offset len q, p = Some (offset, len) -> cmd = ASHMEM_PIN -> request_ok (a_size A) offset len ->
     offset / PAGE_SIZE <= q <= pin_last offset (pin_len (a_size A) offset len) -> e a q) ->
  runs (ashmem_pin_unpin a cmd p) t (fun _ t' => ash_ok t' /\ keeps t t' e).
Proof.
  intros Ht HA Hp He. assert (ash_ok t /\ keeps t t e) as Hsame by (split; [done|now apply keeps_ranges]).
  destruct (Z.eqb_spec (a_file A) 0) as [Hf|Hf].
  { unfold ashmem_pin_unpin. apply runs_bind. eapply runs_eq; [apply area_at_eq; eassumption|]. rewrite Hf. now apply runs_ret. }
  destruct p as [[offset len]|].
  2:{ unfold ashmem_pin_unpin. apply runs_bind. eapply runs_eq; [apply area_at_eq; eassumption|].
      destruct (Z.eqb_spec (a_file A) 0); [done|]. now apply runs_ret. }
  destruct Hp as [Ho Hl]. unfold runs. rewrite (ashmem_pin_unpin_eq t a A) by done.
  destruct (decide (request_ok (a_size A) offset len)) as [Hreq|]; [|now apply runs_ret].
  pose proof (request_span _ _ _ Ho Hl Hreq) as Hs. unfold page_op. fold (runs (S := ashmem) (A := Z)).
  destruct (Z.eqb_spec cmd ASHMEM_PIN) as [->|_].
  { eapply runs_mono; [eapply ashmem_pin_ok; eauto|]. intros ret t' H. split; [apply H|]. eapply keeps_pin; [exact H|]. eauto. }
  destruct (Z.eqb_spec cmd ASHMEM_UNPIN) as [->|_].
  { eapply runs_mono; [eapply ashmem_unpin_ok; eauto|]. intros ret t' (H1 & H2 & H3 & F & L & w & H4). split; [done|].
    eapply keeps_unpin; eauto. }
  destruct (cmd =? ASHMEM_GET_PIN_STATUS); [|now apply runs_ret].
  eapply runs_mono; [eapply ashmem_status_ok; eauto|]. now intros ret t' (-> & _).
Qed.

Lemma ioctl_effect t a A cmd arg u p personality capable (e : Z -> Z -> Prop) : ash_ok t -> areas t !! a = Some A ->
  match p with Some (offset, len) => is_u32 offset /\ is_u32 len | None => True end ->
  (forall offset len q, p = Some (offset, len) -> cmd = ASHMEM_PIN -> request_ok (a_size A) offset len ->
     offset / PAGE_SIZE <= q <= pin_last offset (pin_len (a_size A) offset len) -> e a q) ->
  runs (ashmem_ioctl a cmd arg u p personality capable) t (fun _ t' => ash_ok t' /\ keeps t t' e).
Proof.
  intros Ht HA Hp He. assert (ash_ok t /\ keeps t t e) as Hsame by (split; [done|now apply keeps_ranges]). unfold ashmem_ioctl.
  destruct (cmd =? ASHMEM_SET_NAME).
  { apply runs_bind. eapply runs_mono; [eapply set_name_ok; eauto|]. intros ret t' H. apply runs_ret. cbv beta in H.
    destruct (a_file A =? 0); [|destruct H as [_ ->]; done]. destruct H as (_ & H & n & _ & ->). split; [done|now apply keeps_ranges]. }
  destruct (cmd =? ASHMEM_GET_NAME). { eapply runs_mono; [eapply get_name_total; eauto|]. now intros x t' [-> _]. }
  destruct (cmd =? ASHMEM_SET_SIZE).
  { apply runs_bind. eapply runs_eq; [apply area_at_eq; eassumption|]. destruct (a_file A =? 0); [|now apply runs_ret].
    split; [|now apply keeps_ranges]. eapply (ash_ok_put t a A); try done. exact (lk_name t (proj1 Ht) _ _ HA). }
  destruct (cmd =? ASHMEM_GET_SIZE). { apply runs_bind. eapply runs_eq; [apply area_at_eq; eassumption|]. now apply runs_ret. }
  destruct (cmd =? ASHMEM_SET_PROT_MASK).
  { apply runs_bind. eapply runs_mono; [eapply set_prot_mask_ok; eauto|]. intros ret t' H. apply runs_ret. cbv beta in H.
    destruct (_ =? _); [|destruct H as [_ ->]; done]. destruct H as (_ & H & ->). split; [done|now apply keeps_ranges]. }
  destruct (cmd =? ASHMEM_GET_PROT_MASK). { apply runs_bind. eapply runs_eq; [apply area_at_eq; eassumption|]. now apply runs_ret. }
  destruct (_ || _ || _). { apply runs_bind. eapply runs_mono; [eapply pin_unpin_effect; eauto|]. intros ret t' H. now apply runs_ret. }
  destruct (cmd =? ASHMEM_PURGE_ALL_CACHES); [|now apply runs_ret]. destruct capable; [|now apply runs_ret].
  apply runs_bind. eapply runs_mono; [now apply ashmem_shrink_ok|]. intros ret t' H. cbn in H. destruct H as [_ ->].
  apply runs_bind. eapply runs_mono; [apply (shrink_effect t _ _ e Ht)|]. intros ret' t' H. now apply runs_ret.
Qed.

Lemma call_effect t c : ash_ok t -> live t c -> runs (ash_do c) t (fun _ t' => ash_ok t' /\ keeps t t' (pins t c)).
Proof.
  intros Ht Hl. destruct c as [|a|a result|a v setup|a cmd arg u p personality capable|nr gfp]; cbn [ash_do live] in *.
  - eapply runs_mono; [now apply ashmem_open_ok|]. intros a t' [H1 H2]. split; [done|]. destruct (decide _); [destruct H2 as [_ ->]|destruct H2 as (_ & _ & ->)]; now apply keeps_ranges.
  - destruct Hl as [A HA]. eapply runs_mono; [eapply ashmem_release_ok; eauto|]. intros ret t' (H1 & _ & _ & H2 & _). split; [done|]. exact (keeps_release t t' a H2).
  - destruct Hl as [A HA]. assert (ash_ok t /\ keeps t t (pins t (CRead a result))) as Hsame by (split; [done|now apply keeps_ranges]).
    unfold ashmem_read. apply runs_bind. eapply runs_eq; [apply area_at_eq; eassumption|].
    destruct (a_size A =? 0); [|destruct (a_file A =? 0)]; now apply runs_ret.
  - destruct Hl as [[A HA] Hset]. apply runs_bind. eapply runs_mono; [eapply ashmem_mmap_ok; eauto|].
    intros [ret v'] t' [H1 H2]. apply runs_ret. split; [done|]. apply keeps_ranges. destruct (a_size A =? 0); [now destruct H2 as (_ & _ & ->)|].
    destruct (forbidden A v); [now destruct H2 as (_ & _ & ->)|]. destruct (_ && _); now destruct H2 as (_ & _ & ->).
  - destruct Hl as [[A HA] Hp]. apply runs_bind. eapply runs_mono.
    + eapply (ioctl_effect t a A cmd arg u p personality capable (pins t (CIoctl a cmd arg u p personality capable))); eauto.
      intros offset len q -> -> Hreq Hq. cbn. split; [done|]. split; [done|]. eauto.
    + intros [ret u'] t' H. now apply runs_ret.
  - now apply shrink_effect.
Qed.

Lemma ash_init_ok area_objects range_objects fails : NoDup area_objects -> Forall (fun a => 0 < a) area_objects ->
  NoDup range_objects -> (0 ∉ range_objects) -> ash_ok (ashmem_initial area_objects range_objects fails).
Proof.
  intros H1 H2 H3 H4. rewrite List.Forall_forall in H2. split; [split; cbn|]; try done.
  - constructor.
  - intros id. split; [set_solver|]. now intros (r & ? & _).
  - intros id Hid. split; [|done]. congruence.
  - intros a Ha%list_elem_of_In. auto.
Qed.

Lemma steps_ok t t' : ash_steps t t' -> ash_ok t -> ash_ok t'.
Proof.
  induction 1 as [|t c ret t1 t2 Hl E _ IH]; [done|]. intros Ht. apply IH.
  pose proof (call_effect t c Ht Hl) as H. unfold runs in H. rewrite E in H. apply H.
Qed.

(** * An area in use

    An area of four pages, mapped, with the pages 0 to 2 unpinned; then the same
    with these discarded. *)
Definition step (c : ash_call) (t : ashmem) : ashmem := match ash_do c t with Ok (_, t') => t' | Err _ => t end.
Definition demo0 (fails : list bool) : ashmem := ashmem_initial [16; 17] [32; 33; 34] fails.
Definition demo_open : list ash_call :=
  [COpen; CIoctl 16 ASHMEM_SET_SIZE 16000 [] None 0 false; CMmap 16 (Vma 3 0 false) (fun _ _ _ => 100)].
Definition page_call (cmd first n : Z) : ash_call := CIoctl 16 cmd 0 [] (Some (first * PAGE_SIZE, n * PAGE_SIZE)) 0 false.
Definition run_all (l : list ash_call) (t : ashmem) : ashmem := fold_left (fun t c => step c t) l t.
Definition demo (fails : list bool) : ashmem := run_all (demo_open ++ [page_call ASHMEM_UNPIN 0 3]) (demo0 fails).
Definition demo_purged (fails : list bool) : ashmem := run_all [CShrink 1 GFP_KERNEL] (demo fails).

(** A run whose calls are live and succeed. *)
Fixpoint runs_fine (l : list ash_call) (t : ashmem) : Prop :=
  match l with
  | [] => True
  | c :: l => live t c /\ (exists ret, ash_do c t = Ok (ret, step c t)) /\ runs_fine l (step c t)
  end.

Lemma run_all_steps l t : runs_fine l t -> ash_steps t (run_all l t).
Proof.
  revert t. induction l as [|c l IH]; intros t; [constructor|]. intros (Hl & (ret & E) & H). econstructor; [exact Hl|exact E|]. now apply IH.
Qed.

Ltac fine := repeat match goal with
  | |- runs_fine _ _ => progress (unfold demo_open; cbn [runs_fine app])
  | |- _ /\ _ => split
  | |- live _ _ => progress (unfold page_call; cbn [live])
  | |- is_Some _ => eexists; vm_compute; reflexivity
  | |- exists ret, _ => eexists; vm_compute; reflexivity
  | |- is_u32 _ => unfold is_u32; vm_compute; intuition congruence
  | |- forall n s f, _ => now intros
  | |- True => exact I
  end.

Lemma demo_steps fails : fails = [] \/ fails = [false; false; true] ->
  ash_steps (demo0 fails) (demo fails) /\ ash_steps (demo0 fails) (demo_purged fails).
Proof.
  intros Hf. unfold demo_purged, demo. split.
  - apply run_all_steps. destruct Hf as [-> | ->]; fine.
  - unfold run_all. rewrite <- fold_left_app. apply (run_all_steps ((demo_open ++ [page_call ASHMEM_UNPIN 0 3]) ++ [CShrink 1 GFP_KERNEL])).
    destruct Hf as [-> | ->]; fine.
Qed.

Lemma demo0_ok fails : ash_ok (demo0 fails).
Proof.
  apply ash_init_ok; [apply (bool_decide_unpack _); vm_compute; done|repeat constructor|apply (bool_decide_unpack _); vm_compute; done|].
  apply (bool_decide_unpack _); vm_compute; done.
Qed.

Lemma demo_states fails : fails = [] \/ fails = [false; false; true] -> ash_ok (demo fails) /\ ash_ok (demo_purged fails).
Proof.
  intros Hf. destruct (demo_steps fails Hf) as [H1 H2]. split; [exact (steps_ok _ _ H1 (demo0_ok fails))|exact (steps_ok _ _ H2 (demo0_ok fails))].
Qed.

(** C16: from the initial state, after any sequence of opens, releases, reads,
    mappings, ioctls and shrinker calls, with any allocation failing, the lists,
    the counter and the caches of ashmem are consistent: the list of an area
    holds exactly its ranges, in descending order and disjoint, the LRU list the
    ranges not purged, [lru_count] their pages; and the next call, whatever it
    is, touches no object that is not live and returns. *)
Theorem ashmem_invariant area_objects range_objects fails t :
  NoDup area_objects -> Forall (fun a => 0 < a) area_objects -> NoDup range_objects -> (0 ∉ range_objects) ->
  ash_steps (ashmem_initial area_objects range_objects fails) t ->
  ash_ok t /\ forall c, live t c -> exists ret t', ash_do c t = Ok (ret, t') /\ ash_ok t'.
Proof.
  intros H1 H2 H3 H4 Hs. assert (ash_ok t) as Ht by (eapply steps_ok; [exact Hs|now apply ash_init_ok]). split; [done|].
  intros c Hl. apply (runs_exists (ash_do c) t (fun _ t' => ash_ok t')). eapply runs_mono; [now apply call_effect|]. now intros ret t' [H _].
Qed.

Lemma ashmem_invariant_witness :
  ash_ok (demo_purged []) /\ forall c, live (demo_purged []) c -> exists ret t', ash_do c (demo_purged []) = Ok (ret, t') /\ ash_ok t'.
Proof.
  apply (ashmem_invariant [16; 17] [32; 33; 34] [] (demo_purged [])).
  - apply (bool_decide_unpack _); vm_compute; done.
  - repeat constructor.
  - apply (bool_decide_unpack _); vm_compute; done.
  - apply (bool_decide_unpack _); vm_compute; done.
  - exact (proj2 (demo_steps [] (or_introl eq_refl))).
Defined.

(** What one accepted request does. *)
Definition pin_spec (t : ashmem) (a first last ret : Z) (t' : ashmem) : Prop :=
  ash_ok t' /\ frame a t t' /\
  (forall p, first <= p <= last -> ~ unpinned t' a p) /\
  (forall p v, covers t' a p v -> covers t a p v) /\
  (forall p v, ~ (first <= p <= last) -> can_alloc t \/ p <= last -> covers t a p v -> covers t' a p v) /\
  (ret = ASHMEM_NOT_PURGED \/ ret = ASHMEM_WAS_PURGED) /\
  (forall p, first <= p <= last -> covers t a p ASHMEM_WAS_PURGED -> ret = ASHMEM_WAS_PURGED) /\
  (no_empty t a -> first <= last -> ret = ASHMEM_WAS_PURGED -> exists p, first <= p <= last /\ covers t a p ASHMEM_WAS_PURGED).

Definition unpin_spec (t : ashmem) (a first last ret : Z) (t' : ashmem) : Prop :=
  ash_ok t' /\ frame a t t' /\ (ret = 0 \/ ret = - ENOMEM /\ ~ can_alloc t) /\
  (ret = 0 -> forall p, unpinned t' a p <-> unpinned t a p \/ first <= p <= last) /\
  (ret = 0 -> forall p, covers t a p ASHMEM_WAS_PURGED -> covers t' a p ASHMEM_WAS_PURGED) /\
  exists F L w, unpin_post t a first last ret t' F L w.

Definition status_spec (t : ashmem) (a first last ret : Z) (t' : ashmem) : Prop :=
  t' = t /\ (ret = ASHMEM_IS_UNPINNED \/ ret = ASHMEM_IS_PINNED) /\
  (forall p, first <= p <= last -> unpinned t a p -> ret = ASHMEM_IS_UNPINNED) /\
  (no_empty t a -> first <= last -> ret = ASHMEM_IS_UNPINNED -> exists p, first <= p <= last /\ unpinned t a p).

Lemma covers_touched t a A first last p v : linked t -> areas t !! a = Some A -> first <= p <= last -> covers t a p v ->
  exists id r, id ∈ unpinned_list A /\ ranges t !! id = Some r /\ touched r first last = true /\ purged r = v.
Proof.
  intros Ht HA Hp (id & r & Hr & Ha & Hpr & Hv). exists id, r. split; [apply (lk_row t Ht a A id HA); eauto|]. split; [done|]. split; [|done].
  destruct (touched r first last) eqn:E; [done|]. exfalso. eapply touched_false; eauto.
Qed.

Lemma touched_covers t a A first last id r : linked t -> areas t !! a = Some A -> no_empty t a -> first <= last ->
  id ∈ unpinned_list A -> ranges t !! id = Some r -> touched r first last = true ->
  exists p, first <= p <= last /\ covers t a p (purged r).
Proof.
  intros Ht HA Hne Hfl Hid Hr Htc. destruct (row_range t a A id Ht HA Hid) as (r' & Hr' & Ha & _). simplify_eq.
  apply touched_page in Htc as (p & Hp & Hpr); [|done|now apply (Hne id)]. exists p. split; [done|]. exists id, r. done.
Qed.

Lemma pin_meets t a A first last : ash_ok t -> areas t !! a = Some A -> span_ok first last ->
  runs (ashmem_pin a first last) t (pin_spec t a first last).
Proof.
  intros Ht HA Hs. eapply runs_mono; [eapply ashmem_pin_ok; eauto|]. intros ret t' [P1 P2 P3 P4 P5 P6 P7 P8]. split_and!; try done.
  - intros p Hp [v Hv]. destruct (P5 p v Hp Hv) as (? & ? & H & _). set_solver.
  - intros p v Hp Hca Hc. destruct (P4 p v Hc Hp) as [|[? ?]]; [done|]. exfalso. destruct Hca; [tauto|lia].
  - intros p Hp Hc. apply P7. right. eapply covers_touched; eauto. apply Ht.
  - intros Hne Hfl Hret. apply P7 in Hret as [|(id & r & Hid & Hr & Htc & Hv)]; [done|]. rewrite <- Hv.
    eapply touched_covers; eauto. apply Ht.
Qed.

Lemma unpin_meets t a A first last : ash_ok t -> areas t !! a = Some A -> a_file A <> 0 -> span_ok first last ->
  runs (ashmem_unpin a first last) t (unpin_spec t a first last).
Proof.
  intros Ht HA Hf Hs. eapply runs_mono; [eapply ashmem_unpin_ok; eauto|]. intros ret t' (H1 & H2 & H3 & F & L & w & HU).
  pose proof HU as [U1 U2 U3 U4 U5 U6 U7 U8]. split_and!; try done; [| |eauto].
  - intros -> p. destruct (decide (F <= p <= L)) as [Hp|Hp].
    + split; [intros _; destruct (U5 p Hp); tauto|]. intros _. exists w. now apply U3.
    + unfold unpinned. setoid_rewrite (U4 p _ Hp). split; [tauto|]. intros [|]; [done|lia].
  - intros -> p Hc. destruct (decide (F <= p <= L)) as [Hp|Hp]; [|now apply U4]. apply U3; [done|]. split; [done|]. symmetry. eauto.
Qed.

Lemma status_meets t a A first last : ash_ok t -> areas t !! a = Some A ->
  runs (ashmem_get_pin_status a first last) t (status_spec t a first last).
Proof.
  intros Ht HA. eapply runs_mono; [eapply ashmem_status_ok; eauto|]. intros ret t' (-> & Hret & Hiff). split_and!; try done.
  - intros p Hp [v Hv]. apply Hiff. destruct (covers_touched t a A first last p v) as (id & r & ? & ? & ? & _); eauto. apply Ht.
  - intros Hne Hfl Hr. apply Hiff in Hr as (id & r & Hid & Hr & Htc).
    destruct (touched_covers t a A first last id r) as (p & Hp & Hc); eauto; [apply Ht|]. exists p. split; [done|]. now exists (purged r).
Qed.

(** The area after ASHMEM_UNPIN of no page at its end. *)
Definition demo_empty : ashmem := run_all (demo_open ++ [CIoctl 16 ASHMEM_UNPIN 0 [] (Some (16384, 0)) 0 false]) (demo0 []).

Lemma demo_empty_pinned : ~ unpinned demo_empty 16 3.
Proof.
  intros (v & id & r & Hr & _ & Hp & _). assert (ranges demo_empty = {[32 := Range 16 4 3 0]}) as E by (vm_compute; reflexivity).
  rewrite E in Hr. apply lookup_singleton_Some in Hr as [_ <-]. cbn in Hp. lia.
Qed.


Definition area_of (t : ashmem) (a : Z) : ashmem_area := default fresh_area (areas t !! a).


(** The pages of the bytes that a range stands for. *)
Lemma byte_page r b : range_ok r -> (range_bytes r).1 <= b <= (range_bytes r).2 -> pgstart r <= b / PAGE_SIZE <= pgend r.
Proof.
  intros [(? & ? & ? & ?) _]. unfold range_bytes. cbn [fst snd]. change PAGE_SIZE with 4096. intros Hb.
  pose proof (Z.div_mod b 4096). pose proof (Z.mod_pos_bound b 4096). lia.
Qed.

(** What the shrinker discards and returns. *)
Lemma ashmem_shrink_facts t nr gfp : ash_ok t ->
  runs (ashmem_shrink nr gfp) t (fun ret t' =>
    if negb (nr =? 0) && (Z.land gfp __GFP_FS =? 0) then ret = -1 /\ t' = t
    else if nr =? 0 then ret = s32 (sum_pages (ranges t) (ashmem_lru_list t)) /\ t' = t
    else exists pre post, ashmem_lru_list t = pre ++ post /\ purge_post t pre post t' /\
      (post = [] \/ s32 (nr - sum_pages (ranges t) pre) <= 0) /\
      (forall k k', pre = k ++ k' -> k <> [] -> k' <> [] -> 0 < s32 (nr - sum_pages (ranges t) k)) /\
      ret = s32 (sum_pages (ranges t) post) /\
      forall id, id ∈ pre -> exists r A first last, ranges t !! id = Some r /\ areas t !! r_asma r = Some A /\ a_file A <> 0 /\
        discard t id = (a_file A, first, last) /\ first = pgstart r * PAGE_SIZE /\
        forall b, first <= b <= last ->
          covers t (r_asma r) (b / PAGE_SIZE) ASHMEM_NOT_PURGED /\ covers t' (r_asma r) (b / PAGE_SIZE) ASHMEM_WAS_PURGED).
Proof.
  intros Ht. assert (forall x, s32 (u32 x) = s32 x) as Hsu.
  { intros x. pose proof (s32_sub_u32 0 (- x)) as E. unfold s32, u32. now rewrite Zplus_mod_idemp_l. }
  eapply runs_mono; [now apply ashmem_shrink_ok|]. intros ret t' H. cbv beta in H. destruct (negb (nr =? 0) && _); [done|].
  destruct (nr =? 0). { destruct H as [-> ->]. now rewrite (lk_count t (proj1 Ht)), Hsu. }
  destruct H as (pre & post & El & Hp & H1 & H2 & ->). exists pre, post. split_and!; try done.
  - rewrite (lk_count t' (proj1 (pu_ok _ _ _ _ Hp))), Hsu, (pu_lru _ _ _ _ Hp). f_equal. apply sum_pages_ext. intros id _. unfold pages.
    rewrite (pu_ranges _ _ _ _ Hp id). destruct (decide (id ∈ pre)); [|done]. now destruct (ranges t !! id).
  - intros id Hid. destruct (proj1 (lk_lru t (proj1 Ht) id)) as (r & Hr & Hpr); [rewrite El; set_solver|].
    destruct (lk_home t (proj1 Ht) _ _ Hr) as (A & HA & Hf). exists r, A, (range_bytes r).1, (range_bytes r).2.
    split_and!; try done; [unfold discard; now rewrite Hr, HA|]. intros b Hb.
    pose proof (byte_page r b (lk_range t (proj1 Ht) _ _ Hr) Hb) as Hpg. split; [now exists id, r|].
    exists id, (purge_of r). rewrite (pu_ranges _ _ _ _ Hp id), decide_True, Hr by done. done.
Qed.

(** * Discarded pages are reported *)

(** Calls with memory for a range that neither pin the page nor close the area. *)
Inductive quiet_run (a p : Z) : ashmem -> ashmem -> Prop :=
| quiet_refl t : quiet_run a p t t
| quiet_call t c ret t1 t2 : live t c -> can_alloc t -> ~ pins t c a p -> ash_do c t = Ok (ret, t1) -> quiet_run a p t1 t2 -> quiet_run a p t t2.

Lemma quiet_keeps a p t t' : quiet_run a p t t' -> ash_ok t -> covers t a p ASHMEM_WAS_PURGED -> ash_ok t' /\ covers t' a p ASHMEM_WAS_PURGED.
Proof.
  induction 1 as [|t c ret t1 t2 Hl Hca Hn E _ IH]; [done|]. intros Ht Hc.
  pose proof (call_effect t c Ht Hl) as H. unfold runs in H. rewrite E in H. destruct H as [H1 H2]. apply IH; [done|]. now apply (H2 a p Hn Hca).
Qed.

(** A page whose range the shrinker took from the LRU list is purged. *)
Lemma shrink_purges t nr gfp ret t1 id r p : ash_ok t -> ashmem_shrink nr gfp t = Ok (ret, t1) ->
  ranges t !! id = Some r -> pgstart r <= p <= pgend r -> id ∈ ashmem_lru_list t -> (id ∉ ashmem_lru_list t1) ->
  ash_ok t1 /\ covers t1 (r_asma r) p ASHMEM_WAS_PURGED.
Proof.
  intros Ht E Hr Hp Hin Hout. pose proof (ashmem_shrink_ok t nr gfp Ht) as H. unfold runs in H. rewrite E in H. cbn in H.
  destruct (negb (nr =? 0) && _); [now destruct H as [_ ->]|]. destruct (nr =? 0); [now destruct H as [_ ->]|].
  destruct H as (pre & post & El & Hpu & _). split; [apply Hpu|]. rewrite (pu_lru _ _ _ _ Hpu) in Hout. rewrite El in Hin.
  exists id, (purge_of r). rewrite (pu_ranges _ _ _ _ Hpu id), Hr, decide_True by set_solver. done.
Qed.

(** An execution in which memory is short when page 1 is pinned: page 2 was
    discarded, but to pin it again returns ASHMEM_NOT_PURGED. *)
Definition short : ashmem := demo_purged [false; false; true].
Definition short_pinned : ashmem := step (page_call ASHMEM_PIN 1 1) short.

(** A discarded page is reported when it is pinned again, while memory lasts. *)
Lemma ashmem_no_silent_loss_facts :
  (forall t nr gfp ret t1 id r p t2 A offset len, let a := r_asma r in
   ash_ok t -> ashmem_shrink nr gfp t = Ok (ret, t1) ->
   ranges t !! id = Some r -> pgstart r <= p <= pgend r -> id ∈ ashmem_lru_list t -> (id ∉ ashmem_lru_list t1) ->
   quiet_run a p t1 t2 ->
   areas t2 !! a = Some A -> is_u32 offset -> is_u32 len -> request_ok (a_size A) offset len ->
   offset / PAGE_SIZE <= p <= pin_last offset (pin_len (a_size A) offset len) ->
   runs (ashmem_pin_unpin a ASHMEM_PIN (Some (offset, len))) t2 (fun ret' t3 => ret' = ASHMEM_WAS_PURGED /\ ~ unpinned t3 a p)) /\
  (ash_ok short /\ covers short 16 2 ASHMEM_WAS_PURGED /\
   ash_do (page_call ASHMEM_PIN 1 1) short = Ok (ASHMEM_WAS_PURGED, short_pinned) /\
   exists t', ash_do (page_call ASHMEM_PIN 2 1) short_pinned = Ok (ASHMEM_NOT_PURGED, t')).
Proof.
  split.
  - intros t nr gfp ret t1 id r p t2 A offset len a Ht Esh Hr Hp Hin Hout Hq HA Ho Hl Hreq Hpp.
    destruct (shrink_purges t nr gfp ret t1 id r p Ht Esh Hr Hp Hin Hout) as [Ht1 Hc1].
    destruct (quiet_keeps a p t1 t2 Hq Ht1 Hc1) as [Ht2 Hc2].
    assert (a_file A <> 0) as Hf.
    { destruct Hc2 as (x & rx & Hrx & Hxa & _). destruct (lk_home t2 (proj1 Ht2) _ _ Hrx) as (B & HB & ?). congruence. }
    unfold runs. rewrite (ashmem_pin_unpin_eq t2 a A), decide_True by done.
    pose proof (pin_meets t2 a A _ _ Ht2 HA (request_span _ _ _ Ho Hl Hreq)) as H. eapply wp_mono; [exact H|].
    intros [ret' t3] (_ & _ & H1 & _ & _ & _ & H2 & _). split; [exact (H2 p Hpp Hc2)|now apply H1].
  - split; [exact (proj2 (demo_states [false; false; true] (or_intror eq_refl)))|]. split.
    + exists 32, (Range 16 0 2 1). split; [vm_compute; reflexivity|]. cbn. split; [done|]. split; [lia|done].
    + split; [vm_compute; reflexivity|]. eexists. vm_compute. reflexivity.
Qed.

Definition demo_later : ashmem := step (page_call ASHMEM_UNPIN 3 1) (demo_purged []).

(** * Names, sizes, masks and mappings *)

(** Two ioctls in a row: the results, and the user memory of the second. *)
Definition ioctl_pair (a cmd1 arg1 : Z) (u1 : list Z) (cmd2 : Z) (u2 : list Z) (personality : Z) (capable : bool) : AM (Z * Z * list Z) :=
  '(r1, _) ← ashmem_ioctl a cmd1 arg1 u1 None personality capable;
  '(r2, u) ← ashmem_ioctl a cmd2 0 u2 None personality capable;
  mret (r1, r2, u).

Section Ioctls.
Context (t : ashmem) (a arg : Z) (A : ashmem_area) (u : list Z) (p : option (Z * Z)) (personality : Z) (capable : bool).
Hypothesis HA : areas t !! a = Some A.

Lemma ioctl_get_size : ashmem_ioctl a ASHMEM_GET_SIZE arg u p personality capable t = Ok (s32 (a_size A), u, t).
Proof. change (ashmem_ioctl a ASHMEM_GET_SIZE arg u p personality capable) with (A ← area_at a; mret (s32 (a_size A), u) : AM _).
  unfold mbind, ST_bind. now rewrite (area_at_eq t a A HA). Qed.
Lemma ioctl_get_prot : ashmem_ioctl a ASHMEM_GET_PROT_MASK arg u p personality capable t = Ok (s32 (prot_mask A), u, t).
Proof. change (ashmem_ioctl a ASHMEM_GET_PROT_MASK arg u p personality capable) with (A ← area_at a; mret (s32 (prot_mask A), u) : AM _).
  unfold mbind, ST_bind. now rewrite (area_at_eq t a A HA). Qed.
Lemma ioctl_set_size : a_file A = 0 -> ashmem_ioctl a ASHMEM_SET_SIZE arg u p personality capable t =
  Ok (0, u, areas_state t (<[a := Area (a_name A) (unpinned_list A) (a_file A) arg (prot_mask A)]> (areas t)) (area_cache t) (alloc_fails t) (f_count t)).
Proof.
  intros Hf. change (ashmem_ioctl a ASHMEM_SET_SIZE arg u p personality capable) with (A ← area_at a; if a_file A =? 0 then
    put_area a (Area (a_name A) (unpinned_list A) (a_file A) arg (prot_mask A));; mret (0, u) else mret (- EINVAL, u) : AM _).
  unfold mbind, ST_bind at 1. now rewrite (area_at_eq t a A HA), Hf.
Qed.
Lemma ioctl_set_size_busy : a_file A <> 0 -> ashmem_ioctl a ASHMEM_SET_SIZE arg u p personality capable t = Ok (- EINVAL, u, t).
Proof.
  intros Hf%Z.eqb_neq. change (ashmem_ioctl a ASHMEM_SET_SIZE arg u p personality capable) with (A ← area_at a; if a_file A =? 0 then
    put_area a (Area (a_name A) (unpinned_list A) (a_file A) arg (prot_mask A));; mret (0, u) else mret (- EINVAL, u) : AM _).
  unfold mbind, ST_bind at 1. now rewrite (area_at_eq t a A HA), Hf.
Qed.
End Ioctls.

(** C31: what is set is what is got, up to the first mapping.  A name is stored
    behind the prefix, cut after 255 characters, and ASHMEM_GET_NAME copies it
    with its NUL, "dev/ashmem" for the empty one, and no further byte; a short
    user buffer gives -EFAULT.  The size and the name can be set only before the
    area has a file, after that they give -EINVAL.  A protection mask is
    accepted if it removes bits, then PROT_EXEC is added for a reader with
    READ_IMPLIES_EXEC.  A mapping needs a size, gives -EPERM for a protection
    that is masked, creates the file once, under the name of the area, takes a
    reference to it for the mapping and drops that of the file it replaces; an
    error of the file system changes nothing.  An unknown command is -ENOTTY, a
    purge without the capability -EPERM. *)
Theorem ashmem_control_correct t a A personality capable : ash_ok t -> areas t !! a = Some A ->
  (forall s c rest u2, let u := s ++ c :: rest in cstring s -> zlen s <= 255 -> c = 0 \/ zlen s = 255 -> ASHMEM_NAME_LEN <= zlen u -> a_file A = 0 ->
    runs (ioctl_pair a ASHMEM_SET_NAME 0 u ASHMEM_GET_NAME u2 personality capable) t (fun '(r1, r2, out) t' =>
      r1 = 0 /\ r2 = (if zlen u2 <? zlen (reported s) then - EFAULT else 0) /\ zlen out = zlen u2 /\
      forall i, 0 <= i -> at_ 0 out i = if i <? Z.min (zlen (reported s)) (zlen u2) then at_ 0 (reported s) i else at_ 0 u2 i)) /\
  (forall u arg, a_file A <> 0 -> ashmem_ioctl a ASHMEM_SET_NAME arg u None personality capable t = Ok (- EINVAL, u, t)) /\
  (forall n u, runs (ioctl_pair a ASHMEM_SET_SIZE n u ASHMEM_GET_SIZE u personality capable) t (fun '(r1, r2, _) _ =>
      if a_file A =? 0 then r1 = 0 /\ r2 = s32 n else r1 = - EINVAL /\ r2 = s32 (a_size A))) /\
  (forall m u, runs (ioctl_pair a ASHMEM_SET_PROT_MASK m u ASHMEM_GET_PROT_MASK u personality capable) t (fun '(r1, r2, _) _ =>
      if Z.land (prot_mask A) m =? m
      then r1 = 0 /\ r2 = s32 (if negb (Z.land m PROT_READ =? 0) && negb (Z.land personality READ_IMPLIES_EXEC =? 0) then Z.lor m PROT_EXEC else m)
      else r1 = - EINVAL /\ r2 = s32 (prot_mask A))) /\
  (forall v setup, (forall n s f, setup n s f <> 0) -> runs (ashmem_mmap a v setup) t (fun '(ret, v') t' =>
    if a_size A =? 0 then ret = - EINVAL /\ v' = v /\ t' = t
    else if forbidden A v then ret = - EPERM /\ v' = v /\ t' = t
    else if (a_file A =? 0) && (map_file A v setup <? 0) then ret = map_file A v setup /\ v' = v /\ t' = t
    else ret = 0 /\
      v' = Vma (Z.lor (vm_flags v) VM_CAN_NONLINEAR) (map_file A v setup) (negb (Z.land (vm_flags v) VM_SHARED =? 0) || vm_ops v) /\
      t' = areas_state t (<[a := Area (a_name A) (unpinned_list A) (map_file A v setup) (a_size A) (prot_mask A)]> (areas t))
             (area_cache t) (alloc_fails t) (map_counts A v (map_file A v setup) (f_count t)))) /\
  (forall cmd arg u p, Forall (fun c => cmd <> c) [ASHMEM_SET_NAME; ASHMEM_GET_NAME; ASHMEM_SET_SIZE; ASHMEM_GET_SIZE; ASHMEM_SET_PROT_MASK;
     ASHMEM_GET_PROT_MASK; ASHMEM_PIN; ASHMEM_UNPIN; ASHMEM_GET_PIN_STATUS; ASHMEM_PURGE_ALL_CACHES] ->
    ashmem_ioctl a cmd arg u p personality capable t = Ok (- ENOTTY, u, t)) /\
  (forall arg u p, ashmem_ioctl a ASHMEM_PURGE_ALL_CACHES arg u p personality false t = Ok (- EPERM, u, t)).
Proof.
  intros Ht HA. split; [|split; [|split; [|split; [|split; [|split]]]]].
  - intros s c rest u2 u Hs Hlen Hc Hu Hf. unfold ioctl_pair. apply runs_bind. apply runs_bind.
    eapply runs_mono; [eapply (set_name_ok t a A u); eauto|]. intros r1 t1 H. cbv beta in H. rewrite Hf in H. cbn [Z.eqb] in H. destruct H as (-> & Ht1 & n & Hn & Et1).
    apply runs_ret. apply runs_bind. eapply runs_mono.
    { eapply (get_name_string t1 a _ u2 s Ht1); [rewrite Et1; apply lookup_insert_eq|]. cbn.
      eapply new_name_string; eauto. apply (lk_name t (proj1 Ht) _ _ HA). }
    intros [r2 out] t2 (-> & H1 & H2 & H3). apply runs_ret. cbn in H1, H2, H3. split; [|done]. destruct (Z.ltb_spec (zlen u) ASHMEM_NAME_LEN); [lia|done].
  - intros u arg Hf. pose proof (set_name_ok t a A u Ht HA) as H. apply runs_exists in H as (r & t' & E & H).
    destruct (Z.eqb_spec (a_file A) 0); [done|]. destruct H as [-> ->]. unfold ashmem_ioctl. rewrite Z.eqb_refl. unfold mbind, ST_bind. now rewrite E.
  - intros n u. unfold ioctl_pair. apply runs_bind. destruct (a_file A =? 0) eqn:Hf.
    + eapply runs_eq; [eapply ioctl_set_size; [exact HA|now apply Z.eqb_eq]|]. apply runs_bind.
      eapply runs_eq; [eapply ioctl_get_size; apply lookup_insert_eq|]. now apply runs_ret.
    + eapply runs_eq; [eapply ioctl_set_size_busy; [exact HA|now apply Z.eqb_neq]|]. apply runs_bind.
      eapply runs_eq; [eapply ioctl_get_size; exact HA|]. now apply runs_ret.
  - intros m u. unfold ioctl_pair. apply runs_bind. apply runs_bind. eapply runs_mono; [eapply (set_prot_mask_ok t a A m); eauto|].
    intros r1 t1 H. cbv beta in H. apply runs_ret. apply runs_bind. destruct (Z.land (prot_mask A) m =? m).
    + destruct H as (-> & _ & ->). eapply runs_eq; [eapply ioctl_get_prot; apply lookup_insert_eq|]. now apply runs_ret.
    + destruct H as (-> & ->). eapply runs_eq; [eapply ioctl_get_prot; exact HA|]. now apply runs_ret.
  - intros v setup Hset. eapply runs_mono; [eapply ashmem_mmap_ok; eauto|]. now intros [ret v'] t' [_ H].
  - intros cmd arg u p H. unfold ashmem_ioctl. repeat (apply list.Forall_cons in H as [?%Z.eqb_neq H]).
    repeat match goal with E : (cmd =? _) = false |- _ => rewrite E; clear E end. done.
  - done.
Qed.

Definition opened : ashmem := run_all [COpen] (demo0 []).

Lemma ashmem_control_correct_witness :
  runs (ioctl_pair 16 ASHMEM_SET_NAME 0 ([97; 98] ++ 0 :: replicate 253 7) ASHMEM_GET_NAME [1; 2; 3; 4] 0 false) opened (fun '(r1, r2, out) t' =>
      r1 = 0 /\ r2 = (if zlen [1; 2; 3; 4] <? zlen (reported [97; 98]) then - EFAULT else 0) /\ zlen out = zlen [1; 2; 3; 4] /\
      forall i, 0 <= i -> at_ 0 out i =
        if i <? Z.min (zlen (reported [97; 98])) (zlen [1; 2; 3; 4]) then at_ 0 (reported [97; 98]) i else at_ 0 [1; 2; 3; 4] i) /\
  (ashmem_ioctl 16 ASHMEM_PURGE_ALL_CACHES 0 [] None 0 false opened = Ok (- EPERM, [], opened)).
Proof.
  assert (ash_steps (demo0 []) opened) as Hs by (apply run_all_steps; fine).
  assert (ash_ok opened) as Ht by exact (steps_ok _ _ Hs (demo0_ok [])).
  assert (areas opened !! 16 = Some fresh_area) as HA by (vm_compute; reflexivity).
  pose proof (ashmem_control_correct opened 16 fresh_area 0 false Ht HA) as H. split.
  - apply (proj1 H [97; 98] 0 (replicate 253 7) [1; 2; 3; 4]).
    + repeat constructor; lia.
    + vm_compute; discriminate.
    + now left.
    + vm_compute; discriminate.
    + reflexivity.
  - exact (proj2 (proj2 (proj2 (proj2 (proj2 (proj2 H))))) 0 [] None).
Defined.

(** C19: the shrinker answers a query with the number of unpinned, unpurged pages
    and refuses with -1 where it may not enter the file system; otherwise it
    takes ranges from the head of the LRU list, the longest unpinned first,
    and stops as soon as the pages asked for are freed. For each it discards
    exactly the bytes of its pages in the backing file of its area: pages
    that are unpinned and not purged before and purged afterwards. It
    returns the number of pages left. No page is lost silently while memory
    lasts. After the shrinker has discarded a page, and after any further
    calls that neither pin it nor close its area, in each of which a range
    could be allocated, an ASHMEM_PIN of the page returns ASHMEM_WAS_PURGED
    and pins it. The proviso is needed: when the allocation of a range fails
    in ASHMEM_PIN of another page, the failure is ignored, and a discarded
    page is later reported as ASHMEM_NOT_PURGED. *)
Theorem ashmem_reclaim_correct :
  (forall t nr gfp,
   ash_ok t ->
   runs (ashmem_shrink nr gfp) t (fun ret t' =>
     if negb (nr =? 0) && (Z.land gfp __GFP_FS =? 0) then ret = -1 /\ t' = t
     else if nr =? 0 then ret = s32 (sum_pages (ranges t) (ashmem_lru_list t)) /\ t' = t
     else exists pre post, ashmem_lru_list t = pre ++ post /\ purge_post t pre post t' /\
       (post = [] \/ s32 (nr - sum_pages (ranges t) pre) <= 0) /\
       (forall k k', pre = k ++ k' -> k <> [] -> k' <> [] -> 0 < s32 (nr - sum_pages (ranges t) k)) /\
       ret = s32 (sum_pages (ranges t) post) /\
       forall id, id ∈ pre -> exists r A first last, ranges t !! id = Some r /\ areas t !! r_asma r = Some A /\ a_file A <> 0 /\
         discard t id = (a_file A, first, last) /\ first = pgstart r * PAGE_SIZE /\
         forall b, first <= b <= last ->
           covers t (r_asma r) (b / PAGE_SIZE) ASHMEM_NOT_PURGED /\ covers t' (r_asma r) (b / PAGE_SIZE) ASHMEM_WAS_PURGED)) /\
  ((forall t nr gfp ret t1 id r p t2 A offset len, let a := r_asma r in
    ash_ok t -> ashmem_shrink nr gfp t = Ok (ret, t1) ->
    ranges t !! id = Some r -> pgstart r <= p <= pgend r -> id ∈ ashmem_lru_list t -> (id ∉ ashmem_lru_list t1) ->
    quiet_run a p t1 t2 ->
    areas t2 !! a = Some A -> is_u32 offset -> is_u32 len -> request_ok (a_size A) offset len ->
    offset / PAGE_SIZE <= p <= pin_last offset (pin_len (a_size A) offset len) ->
    runs (ashmem_pin_unpin a ASHMEM_PIN (Some (offset, len))) t2 (fun ret' t3 => ret' = ASHMEM_WAS_PURGED /\ ~ unpinned t3 a p)) /\
   (ash_ok short /\ covers short 16 2 ASHMEM_WAS_PURGED /\
    ash_do (page_call ASHMEM_PIN 1 1) short = Ok (ASHMEM_WAS_PURGED, short_pinned) /\
    exists t', ash_do (page_call ASHMEM_PIN 2 1) short_pinned = Ok (ASHMEM_NOT_PURGED, t'))).
Proof. split; [exact ashmem_shrink_facts|]. exact ashmem_no_silent_loss_facts. Qed.

Lemma ashmem_reclaim_correct_witness :
  (ash_ok (demo []) /\ truncated (demo_purged []) = [(100, 0, 12287)] /\
   runs (ashmem_shrink 1 GFP_KERNEL) (demo []) (fun ret t' =>
     exists pre post, ashmem_lru_list (demo []) = pre ++ post /\ purge_post (demo []) pre post t')) /\
  (runs (ashmem_pin_unpin 16 ASHMEM_PIN (Some (4096, 4096))) demo_later (fun ret' t3 => ret' = ASHMEM_WAS_PURGED /\ ~ unpinned t3 16 1)).
Proof.
  split.
  { assert (ash_ok (demo [])) as Ht by exact (proj1 (demo_states [] (or_introl eq_refl))).
    split; [exact Ht|]. split; [vm_compute; reflexivity|].
    eapply runs_mono; [exact ((proj1 ashmem_reclaim_correct) (demo []) 1 GFP_KERNEL Ht)|]. intros ret t' H.
    destruct H as (pre & post & El & Hp & _). exact (ex_intro _ pre (ex_intro _ post (conj El Hp))). }
  { assert (ash_ok (demo [])) as Ht by exact (proj1 (demo_states [] (or_introl eq_refl))).
    assert (quiet_run 16 1 (demo_purged []) demo_later) as Hq.
    { apply (quiet_call 16 1 (demo_purged []) (page_call ASHMEM_UNPIN 3 1) 0 demo_later demo_later).
      - fine.
      - apply (bool_decide_unpack _); vm_compute; done.
      - intros (_ & H & _). vm_compute in H. discriminate H.
      - vm_compute; reflexivity.
      - constructor. }
    apply (proj1 (proj2 ashmem_reclaim_correct) (demo []) 1 GFP_KERNEL 0 (demo_purged []) 32 (Range 16 0 2 0) 1 demo_later (area_of demo_later 16) 4096 4096 Ht).
    - vm_compute; reflexivity.
    - vm_compute; reflexivity.
    - cbn; lia.
    - apply (bool_decide_unpack _); vm_compute; done.
    - apply (bool_decide_unpack _); vm_compute; done.
    - exact Hq.
    - vm_compute; reflexivity.
    - unfold is_u32; lia.
    - unfold is_u32; lia.
    - apply (bool_decide_unpack _); vm_compute; done.
    - vm_compute; intuition discriminate. }
Defined.
