(* ===== verification/Wakelock.v ===== *)
(** Android wake locks (kernel/power/wakelock.c, include/linux/wakelock.h), with
    CONFIG_WAKELOCK_STAT and without CONFIG_SVNET_WHITELIST and
    CONFIG_S5P_LPAUDIO, as victory_03_defconfig has them.

    The state holds the locks by address, the lists as lists of addresses, the
    expire timer, whether the suspend work is queued, and the clocks.  Each
    function runs under the list spinlock with interrupts off on one processor,
    so [jiffies] does not change in it; the clock that [ktime_get] reads moves on
    between readings.  Times of [ktime_t] are nanoseconds.  Messages to the log
    and to /proc are left out. *)

From stdpp Require Import gmap.
From S2P Require Import Prelude.
From S2P Require Import State.

(** * Data *)

Definition WAKE_LOCK_SUSPEND : Z := 0.
Definition WAKE_LOCK_IDLE : Z := 1.
Definition WAKE_LOCK_TYPE_COUNT : Z := 2.
Definition WAKE_LOCK_TYPE_MASK : Z := 0x0f.
Definition WAKE_LOCK_INITIALIZED : Z := Z.shiftl 1 8.
Definition WAKE_LOCK_ACTIVE : Z := Z.shiftl 1 9.
Definition WAKE_LOCK_AUTO_EXPIRE : Z := Z.shiftl 1 10.
Definition WAKE_LOCK_PREVENTING_SUSPEND : Z := Z.shiftl 1 11.
Definition LONG_MAX : Z := 2 ^ 31 - 1.
Definition HZ : Z := 256.
(** Nanoseconds of a jiffy. *)
Definition TICK_NSEC : Z := 10 ^ 9 / HZ.
Definition EAGAIN : Z := 11.
Definition ENOMEM : Z := 12.

Record lock_stat := Stat {
  count : Z; expire_count : Z; wakeup_count : Z;
  total_time : Z; prevent_suspend_time : Z; max_time : Z; last_time : Z
}.

(** The link is the place of the lock in the lists of the state. *)
Record wake_lock_t := Lock { flags : Z; name : option (list Z); expires : Z; stat : lock_stat }.

(** Addresses of the static locks. *)
Definition main_wake_lock : Z := 1.
Definition sync_wake_lock : Z := 2.
Definition unknown_wakeup : Z := 3.
Definition deleted_wake_locks : Z := 4.

Record power := Power {
  locks : gmap Z wake_lock_t;
  inactive_locks : list Z;
  active_wake_locks : list (list Z);
  current_event_num : Z;
  last_sleep_time_update : Z;
  wait_for_wakeup : Z;
  expire_timer : option Z;   (* when it is to run, if it is pending *)
  suspend_work : bool;       (* on its queue *)
  jiffies : Z;
  kclock : Z;                (* the monotonic clock at its last reading *)
  kdelays : list Z;          (* how far it moves before each of the next readings *)
  coarse : Z                 (* the monotonic clock at the last jiffy *)
}.

Abbreviation PM := (ST power).

Definition set_locks (v : gmap Z wake_lock_t) : PM unit := modify (fun p =>
  Power v (inactive_locks p) (active_wake_locks p) (current_event_num p) (last_sleep_time_update p) (wait_for_wakeup p)
    (expire_timer p) (suspend_work p) (jiffies p) (kclock p) (kdelays p) (coarse p)).
Definition set_lists (i : list Z) (a : list (list Z)) : PM unit := modify (fun p =>
  Power (locks p) i a (current_event_num p) (last_sleep_time_update p) (wait_for_wakeup p)
    (expire_timer p) (suspend_work p) (jiffies p) (kclock p) (kdelays p) (coarse p)).
Definition set_event (v : Z) : PM unit := modify (fun p =>
  Power (locks p) (inactive_locks p) (active_wake_locks p) v (last_sleep_time_update p) (wait_for_wakeup p)
    (expire_timer p) (suspend_work p) (jiffies p) (kclock p) (kdelays p) (coarse p)).
Definition set_sleep (u w : Z) : PM unit := modify (fun p =>
  Power (locks p) (inactive_locks p) (active_wake_locks p) (current_event_num p) u w
    (expire_timer p) (suspend_work p) (jiffies p) (kclock p) (kdelays p) (coarse p)).
Definition set_pending (t : option Z) (w : bool) : PM unit := modify (fun p =>
  Power (locks p) (inactive_locks p) (active_wake_locks p) (current_event_num p) (last_sleep_time_update p) (wait_for_wakeup p)
    t w (jiffies p) (kclock p) (kdelays p) (coarse p)).
Definition set_clock (k : Z) (d : list Z) : PM unit := modify (fun p =>
  Power (locks p) (inactive_locks p) (active_wake_locks p) (current_event_num p) (last_sleep_time_update p) (wait_for_wakeup p)
    (expire_timer p) (suspend_work p) (jiffies p) k d (coarse p)).

Definition lock_at (l : Z) : PM wake_lock_t := fun p =>
  match locks p !! l with Some L => Ok (L, p) | None => Err OutOfBounds end.
Definition put_lock (l : Z) (L : wake_lock_t) : PM unit := m ← gets locks; set_locks (<[l := L]> m).
Definition set_flags (l : Z) (f : Z -> Z) : PM unit :=
  L ← lock_at l; put_lock l (Lock (f (flags L)) (name L) (expires L) (stat L)).
Definition set_stat (l : Z) (f : lock_stat -> lock_stat) : PM unit :=
  L ← lock_at l; put_lock l (Lock (flags L) (name L) (expires L) (f (stat L))).
Definition set_expires (l : Z) (e : Z) : PM unit :=
  L ← lock_at l; put_lock l (Lock (flags L) (name L) e (stat L)).
Definition has_flag (x f : Z) : bool := negb (Z.land x f =? 0).

Definition ktime_get : PM Z :=
  k ← gets kclock;
  d ← gets kdelays;
  set_clock (k + hd 0 d) (tail d);;
  mret (k + hd 0 d).

(** * Lists, timer and work *)

Definition active_of (type : Z) : PM (list Z) := a ← gets active_wake_locks; lift (rd a type).
Definition linked_in (l : Z) (i : list Z) (a : list (list Z)) : bool :=
  bool_decide (l ∈ i) || existsb (fun k => bool_decide (l ∈ k)) a.
Definition without (l : Z) (k : list Z) : list Z := filter (fun x => x <> l) k.

(** A lock is on one list at most; its link is followed only when it is on one. *)
Definition list_del (l : Z) : PM unit :=
  i ← gets inactive_locks;
  a ← gets active_wake_locks;
  if linked_in l i a then set_lists (without l i) (without l <$> a) else fail OutOfBounds.
Definition list_add_inactive (l : Z) : PM unit :=
  i ← gets inactive_locks;
  a ← gets active_wake_locks;
  set_lists (l :: i) a.
Definition list_add_active (l type : Z) : PM unit :=
  i ← gets inactive_locks;
  a ← gets active_wake_locks;
  k ← lift (rd a type);
  a ← lift (wr a type (l :: k));
  set_lists i a.
Definition list_add_tail_active (l type : Z) : PM unit :=
  i ← gets inactive_locks;
  a ← gets active_wake_locks;
  k ← lift (rd a type);
  a ← lift (wr a type (k ++ [l]));
  set_lists i a.

Definition mod_timer (t : Z) : PM unit := w ← gets suspend_work; set_pending (Some t) w.
Definition del_timer : PM unit := w ← gets suspend_work; set_pending None w.
Definition queue_work : PM unit := t ← gets expire_timer; set_pending t true.

(** * Statistics *)

Definition get_expired_time (lock : Z) : PM (option Z) :=
  L ← lock_at lock;
  if negb (has_flag (flags L) WAKE_LOCK_AUTO_EXPIRE) then mret None else
  j ← gets jiffies;
  let timeout := s32 (expires L - j) in
  if 0 <? timeout then mret None else
  k ← gets coarse;
  mret (Some (k - u32 (- timeout) * TICK_NSEC)).

Definition wake_unlock_stat_locked (lock : Z) (expired : bool) : PM unit :=
  L ← lock_at lock;
  if negb (has_flag (flags L) WAKE_LOCK_ACTIVE) then mret tt else
  e ← get_expired_time lock;
  '(expired, now) ← match e with
    | Some t => mret (true, t)
    | None => now ← ktime_get; mret (expired, now)
    end;
  let duration := now - last_time (stat L) in
  set_stat lock (fun s => Stat (s32 (count s + 1)) (if expired : bool then s32 (expire_count s + 1) else expire_count s) (wakeup_count s)
    (total_time s + duration) (prevent_suspend_time s) (if max_time s <? duration then duration else max_time s) (last_time s));;
  t ← ktime_get;
  set_stat lock (fun s => Stat (count s) (expire_count s) (wakeup_count s) (total_time s) (prevent_suspend_time s) (max_time s) t);;
  if has_flag (flags L) WAKE_LOCK_PREVENTING_SUSPEND then
    u ← gets last_sleep_time_update;
    set_stat lock (fun s => Stat (count s) (expire_count s) (wakeup_count s) (total_time s) (prevent_suspend_time s + (now - u)) (max_time s) (last_time s));;
    set_flags lock (fun f => Z.land f (lnot32 WAKE_LOCK_PREVENTING_SUSPEND))
  else mret tt.

Fixpoint sleep_wait_stats (done : bool) (elapsed u : Z) (l : list Z) : PM unit :=
  match l with
  | [] => mret tt
  | lock :: l =>
      e ← get_expired_time lock;
      L ← lock_at lock;
      (if has_flag (flags L) WAKE_LOCK_PREVENTING_SUSPEND then
         let add := match e with Some t => t - u | None => elapsed end in
         set_stat lock (fun s => Stat (count s) (expire_count s) (wakeup_count s) (total_time s) (prevent_suspend_time s + add) (max_time s) (last_time s))
       else mret tt);;
      (if done || match e with Some _ => true | None => false end
       then set_flags lock (fun f => Z.land f (lnot32 WAKE_LOCK_PREVENTING_SUSPEND))
       else set_flags lock (fun f => Z.lor f WAKE_LOCK_PREVENTING_SUSPEND));;
      sleep_wait_stats done elapsed u l
  end.

Definition update_sleep_wait_stats_locked (done : bool) : PM unit :=
  now ← ktime_get;
  u ← gets last_sleep_time_update;
  l ← active_of WAKE_LOCK_SUSPEND;
  sleep_wait_stats done (now - u) u l;;
  w ← gets wait_for_wakeup;
  set_sleep now w.

(** * Wake locks *)

Definition expire_wake_lock (lock : Z) : PM unit :=
  wake_unlock_stat_locked lock true;;
  set_flags lock (fun f => Z.land f (lnot32 (Z.lor WAKE_LOCK_ACTIVE WAKE_LOCK_AUTO_EXPIRE)));;
  list_del lock;;
  list_add_inactive lock.

(** The loop over the rest of a list. *)
Fixpoint scan_locks (l : list Z) (max_timeout : Z) : PM Z :=
  match l with
  | [] => mret max_timeout
  | lock :: l =>
      L ← lock_at lock;
      if has_flag (flags L) WAKE_LOCK_AUTO_EXPIRE then
        j ← gets jiffies;
        let timeout := s32 (expires L - j) in
        if timeout <=? 0 then expire_wake_lock lock;; scan_locks l max_timeout
        else if max_timeout <? timeout then scan_locks l timeout
        else scan_locks l max_timeout
      else mret (-1)
  end.

Definition has_wake_lock_locked (type : Z) : PM Z :=
  if WAKE_LOCK_TYPE_COUNT <=? type then fail BugOn else
  l ← active_of type;
  scan_locks l 0.

Definition has_wake_lock (type : Z) : PM Z := has_wake_lock_locked type.

Definition wake_lock_active (lock : Z) : PM bool :=
  L ← lock_at lock;
  mret (has_flag (flags L) WAKE_LOCK_ACTIVE).

(** [old] is what the memory of the lock holds; a lock that is on a list already
    would tear that list. *)
Definition wake_lock_init (lock type : Z) (nm : option (list Z)) : PM unit :=
  m ← gets locks;
  let old := match m !! lock with Some L => L | None => Lock 0 None 0 (Stat 0 0 0 0 0 0 0) end in
  let nm := match nm with Some _ => nm | None => name old end in
  match nm with
  | None => fail BugOn
  | Some _ =>
      put_lock lock (Lock (Z.lor (Z.land type WAKE_LOCK_TYPE_MASK) WAKE_LOCK_INITIALIZED) nm (expires old) (Stat 0 0 0 0 0 0 0));;
      i ← gets inactive_locks;
      a ← gets active_wake_locks;
      if linked_in lock i a then fail OutOfBounds else list_add_inactive lock
  end.

Definition wake_lock_destroy (lock : Z) : PM unit :=
  set_flags lock (fun f => Z.land f (lnot32 WAKE_LOCK_INITIALIZED));;
  L ← lock_at lock;
  (if negb (count (stat L) =? 0) then
     set_stat deleted_wake_locks (fun s => Stat (s32 (count s + count (stat L))) (s32 (expire_count s + expire_count (stat L))) (wakeup_count s)
       (total_time s + total_time (stat L)) (prevent_suspend_time s + prevent_suspend_time (stat L)) (max_time s + max_time (stat L)) (last_time s))
   else mret tt);;
  list_del lock.

(** How the timer and the work follow from the result of a scan. *)
Definition arm_expire (expire_in : Z) : PM unit :=
  if 0 <? expire_in then
    j ← gets jiffies;
    mod_timer (u32 (j + expire_in))
  else
    del_timer;;
    if expire_in =? 0 then queue_work else mret tt.

Definition wake_lock_internal (lock timeout : Z) (has_timeout : bool) : PM unit :=
  L ← lock_at lock;
  let type := Z.land (flags L) WAKE_LOCK_TYPE_MASK in
  if WAKE_LOCK_TYPE_COUNT <=? type then fail BugOn else
  if negb (has_flag (flags L) WAKE_LOCK_INITIALIZED) then fail BugOn else
  w ← gets wait_for_wakeup;
  (if (type =? WAKE_LOCK_SUSPEND) && negb (w =? 0) then
     u ← gets last_sleep_time_update;
     set_sleep u 0;;
     set_stat lock (fun s => Stat (count s) (expire_count s) (s32 (wakeup_count s + 1)) (total_time s) (prevent_suspend_time s) (max_time s) (last_time s))
   else mret tt);;
  j ← gets jiffies;
  (if has_flag (flags L) WAKE_LOCK_AUTO_EXPIRE && (s32 (expires L - j) <=? 0) then
     wake_unlock_stat_locked lock false;;
     t ← ktime_get;
     set_stat lock (fun s => Stat (count s) (expire_count s) (wakeup_count s) (total_time s) (prevent_suspend_time s) (max_time s) t)
   else mret tt);;
  (if negb (has_flag (flags L) WAKE_LOCK_ACTIVE) then
     set_flags lock (fun f => Z.lor f WAKE_LOCK_ACTIVE);;
     t ← ktime_get;
     set_stat lock (fun s => Stat (count s) (expire_count s) (wakeup_count s) (total_time s) (prevent_suspend_time s) (max_time s) t)
   else mret tt);;
  list_del lock;;
  (if has_timeout : bool then
     set_expires lock (u32 (j + timeout));;
     set_flags lock (fun f => Z.lor f WAKE_LOCK_AUTO_EXPIRE);;
     list_add_tail_active lock type
   else
     set_expires lock LONG_MAX;;
     set_flags lock (fun f => Z.land f (lnot32 WAKE_LOCK_AUTO_EXPIRE));;
     list_add_active lock type);;
  if type =? WAKE_LOCK_SUSPEND then
    n ← gets current_event_num;
    set_event (s32 (n + 1));;
    (if lock =? main_wake_lock then update_sleep_wait_stats_locked true
     else b ← wake_lock_active main_wake_lock;
          if negb b then update_sleep_wait_stats_locked false else mret tt);;
    expire_in ← (if has_timeout : bool then has_wake_lock_locked type else mret (-1));
    arm_expire expire_in
  else mret tt.

Definition wake_lock (lock : Z) : PM unit := wake_lock_internal lock 0 false.
Definition wake_lock_timeout (lock timeout : Z) : PM unit := wake_lock_internal lock timeout true.

Definition wake_unlock (lock : Z) : PM unit :=
  L ← lock_at lock;
  let type := Z.land (flags L) WAKE_LOCK_TYPE_MASK in
  wake_unlock_stat_locked lock false;;
  set_flags lock (fun f => Z.land f (lnot32 (Z.lor WAKE_LOCK_ACTIVE WAKE_LOCK_AUTO_EXPIRE)));;
  list_del lock;;
  list_add_inactive lock;;
  if type =? WAKE_LOCK_SUSPEND then
    has_lock ← has_wake_lock_locked type;
    arm_expire has_lock;;
    if lock =? main_wake_lock then update_sleep_wait_stats_locked false else mret tt
  else mret tt.

(** * Suspending *)

(** The timer function; the timer is no longer pending when it runs. *)
Definition expire_wake_locks : PM unit :=
  w ← gets suspend_work;
  set_pending None w;;
  has_lock ← has_wake_lock_locked WAKE_LOCK_SUSPEND;
  if has_lock =? 0 then queue_work else mret tt.

Definition power_suspend_late : PM Z :=
  h ← has_wake_lock WAKE_LOCK_SUSPEND;
  u ← gets last_sleep_time_update;
  set_sleep u 1;;
  mret (if negb (h =? 0) then - EAGAIN else 0).

(** The work function, up to [pm_suspend] and from its return on; [Some n] is
    the event number at the start, [None] an aborted suspend.  The work is off
    its queue when it runs.  The event number, which the source reads after the
    scan and before [sys_sync], is read with the scan. *)
Definition suspend_enter : PM (option Z) :=
  t ← gets expire_timer;
  set_pending t false;;
  h ← has_wake_lock WAKE_LOCK_SUSPEND;
  if negb (h =? 0) then mret None else
  n ← gets current_event_num;
  mret (Some n).
Definition suspend_exit (entry_event_num : Z) : PM unit :=
  n ← gets current_event_num;
  if n =? entry_event_num then wake_lock_timeout unknown_wakeup (HZ / 2) else mret tt.

(** [pm_suspend] is whatever happens between the two. *)
Definition suspend (pm_suspend : PM unit) : PM unit :=
  x ← suspend_enter;
  match x with
  | None => mret tt
  | Some n => pm_suspend;; suspend_exit n
  end.

(** The registrations are arguments: their results, and whether the two queues
    were created. *)
Definition wakelocks_init (device driver : Z) (queue1 queue2 : bool) : PM Z :=
  set_lists [] [[]; []];;
  wake_lock_init deleted_wake_locks WAKE_LOCK_SUSPEND (Some [100; 101; 108; 101; 116; 101; 100; 95; 119; 97; 107; 101; 95; 108; 111; 99; 107; 115]);;
  wake_lock_init main_wake_lock WAKE_LOCK_SUSPEND (Some [109; 97; 105; 110]);;
  wake_lock_init sync_wake_lock WAKE_LOCK_SUSPEND (Some [115; 121; 110; 99; 95; 115; 121; 115; 116; 101; 109]);;
  wake_lock main_wake_lock;;
  wake_lock_init unknown_wakeup WAKE_LOCK_SUSPEND (Some [117; 110; 107; 110; 111; 119; 110; 95; 119; 97; 107; 101; 117; 112; 115]);;
  let ret := if negb (device =? 0) then device else if negb (driver =? 0) then driver
             else if negb (queue1 && queue2) then - ENOMEM else 0 in
  if ret =? 0 then mret 0 else
  wake_lock_destroy unknown_wakeup;;
  wake_lock_destroy sync_wake_lock;;
  wake_lock_destroy main_wake_lock;;
  wake_lock_destroy deleted_wake_locks;;
  mret ret.

Definition wakelocks_exit : PM unit :=
  wake_lock_destroy unknown_wakeup;;
  wake_lock_destroy sync_wake_lock;;
  wake_lock_destroy main_wake_lock;;
  wake_lock_destroy deleted_wake_locks.

(** Before [wakelocks_init]. *)
Definition power_reset (j k c : Z) (d : list Z) : power := Power ∅ [] [[]; []] 0 0 0 None false j k d c.
