(* ===== verification/WakelockInv.v ===== *)
(** Wake locks: flags as bits, steps that only touch statistics, and the
    consistency of flags and lists. *)

From stdpp Require Import gmap sorting.
From S2P Require Import Prelude.
From S2P Require Import Ring State Wakelock.

(** * Flags *)

(** What the lists depend on: active, with a timeout, initialised, type. *)
Definition view (f : Z) : bool * bool * bool * Z := (Z.testbit f 9, Z.testbit f 10, Z.testbit f 8, Z.land f WAKE_LOCK_TYPE_MASK).

Lemma has_flag_bit f k : 0 <= k -> has_flag f (Z.shiftl 1 k) = Z.testbit f k.
Proof.
  intros Hk. unfold has_flag. rewrite Z.shiftl_1_l. destruct (Z.testbit f k) eqn:E.
  - destruct (Z.eqb_spec (Z.land f (2 ^ k)) 0) as [H|]; [|done]. exfalso.
    assert (Z.testbit (Z.land f (2 ^ k)) k = true) as Hb by (rewrite Z.land_spec, E, Z.pow2_bits_true; done).
    rewrite H, Z.testbit_0_l in Hb. done.
  - assert (Z.land f (2 ^ k) = 0) as ->; [|done]. apply Z.bits_inj'. intros i Hi. rewrite Z.land_spec, Z.testbit_0_l.
    destruct (decide (k = i)) as [->|]; [now rewrite E|]. rewrite Z.pow2_bits_false by done. apply andb_false_r.
Qed.

Lemma flag_active f : has_flag f WAKE_LOCK_ACTIVE = Z.testbit f 9.
Proof. now apply has_flag_bit. Qed.
Lemma flag_auto f : has_flag f WAKE_LOCK_AUTO_EXPIRE = Z.testbit f 10.
Proof. now apply has_flag_bit. Qed.
Lemma flag_init f : has_flag f WAKE_LOCK_INITIALIZED = Z.testbit f 8.
Proof. now apply has_flag_bit. Qed.

Lemma land_mask_ext f g : (forall i, 0 <= i < 4 -> Z.testbit f i = Z.testbit g i) -> Z.land f WAKE_LOCK_TYPE_MASK = Z.land g WAKE_LOCK_TYPE_MASK.
Proof.
  intros H. change WAKE_LOCK_TYPE_MASK with (Z.ones 4). apply Z.bits_inj'. intros i Hi. rewrite !Z.land_spec, Z.testbit_ones by lia.
  destruct (Z.leb_spec 0 i), (Z.ltb_spec i 4); cbn; rewrite ?andb_false_r, ?andb_true_r; try done. apply H. lia.
Qed.

(** Setting and clearing bits that [m] holds. *)
Lemma view_lor f m : (forall i, 0 <= i < 4 -> Z.testbit m i = false) ->
  view (Z.lor f m) = (Z.testbit f 9 || Z.testbit m 9, Z.testbit f 10 || Z.testbit m 10, Z.testbit f 8 || Z.testbit m 8, Z.land f WAKE_LOCK_TYPE_MASK).
Proof.
  intros H. unfold view. rewrite !Z.lor_spec. f_equal. apply land_mask_ext. intros i Hi. rewrite Z.lor_spec, H by done. apply orb_false_r.
Qed.

Lemma view_clear f m : (forall i, 0 <= i < 4 -> Z.testbit m i = false) ->
  view (Z.land f (lnot32 m)) = (Z.testbit f 9 && negb (Z.testbit m 9), Z.testbit f 10 && negb (Z.testbit m 10), Z.testbit f 8 && negb (Z.testbit m 8), Z.land f WAKE_LOCK_TYPE_MASK).
Proof.
  intros H. unfold view. rewrite !Z.land_spec, !testbit_lnot32 by lia. f_equal. apply land_mask_ext. intros i Hi.
  rewrite Z.land_spec, testbit_lnot32, H by lia. apply andb_true_r.
Qed.

Ltac low_bits := intros i Hi; assert (i = 0 \/ i = 1 \/ i = 2 \/ i = 3) as [-> | [-> | [-> | ->]]] by lia; reflexivity.

Lemma view_activate f : view (Z.lor f WAKE_LOCK_ACTIVE) = (true, Z.testbit f 10, Z.testbit f 8, Z.land f WAKE_LOCK_TYPE_MASK).
Proof. rewrite view_lor by low_bits. cbn. now rewrite orb_true_r, !orb_false_r. Qed.
Lemma view_timed f : view (Z.lor f WAKE_LOCK_AUTO_EXPIRE) = (Z.testbit f 9, true, Z.testbit f 8, Z.land f WAKE_LOCK_TYPE_MASK).
Proof. rewrite view_lor by low_bits. cbn. now rewrite orb_true_r, !orb_false_r. Qed.
Lemma view_untimed f : view (Z.land f (lnot32 WAKE_LOCK_AUTO_EXPIRE)) = (Z.testbit f 9, false, Z.testbit f 8, Z.land f WAKE_LOCK_TYPE_MASK).
Proof. rewrite view_clear by low_bits. cbn. now rewrite !andb_true_r, andb_false_r. Qed.
Lemma view_released f : view (Z.land f (lnot32 (Z.lor WAKE_LOCK_ACTIVE WAKE_LOCK_AUTO_EXPIRE))) = (false, false, Z.testbit f 8, Z.land f WAKE_LOCK_TYPE_MASK).
Proof. rewrite view_clear by low_bits. cbn. now rewrite andb_true_r, !andb_false_r. Qed.
Lemma view_preventing f : view (Z.lor f WAKE_LOCK_PREVENTING_SUSPEND) = view f.
Proof. rewrite view_lor by low_bits. unfold view. cbn. now rewrite !orb_false_r. Qed.
Lemma view_not_preventing f : view (Z.land f (lnot32 WAKE_LOCK_PREVENTING_SUSPEND)) = view f.
Proof. rewrite view_clear by low_bits. unfold view. cbn. now rewrite !andb_true_r. Qed.
Lemma view_destroyed f : view (Z.land f (lnot32 WAKE_LOCK_INITIALIZED)) = (Z.testbit f 9, Z.testbit f 10, false, Z.land f WAKE_LOCK_TYPE_MASK).
Proof. rewrite view_clear by low_bits. cbn. now rewrite !andb_true_r, andb_false_r. Qed.

Lemma view_new type : 0 <= type < 16 -> view (Z.lor (Z.land type WAKE_LOCK_TYPE_MASK) WAKE_LOCK_INITIALIZED) = (false, false, true, type).
Proof.
  intros Ht. rewrite view_lor by low_bits. change WAKE_LOCK_TYPE_MASK with (Z.ones 4). rewrite <- Z.land_assoc, Z.land_diag, Z.land_ones by lia.
  rewrite (Z.mod_small type) by (cbn; lia). f_equal. f_equal; [|cbn; now rewrite orb_true_r]. f_equal; cbn [orb]; rewrite (testbit_high type 4) by lia; done.
Qed.

(** * Steps that only touch statistics *)

Definition core (L : wake_lock_t) : (bool * bool * bool * Z) * Z := (view (flags L), expires L).

Record calm (p p' : power) : Prop := {
  cm_locks : forall id, core <$> locks p' !! id = core <$> locks p !! id;
  cm_inactive : inactive_locks p' = inactive_locks p;
  cm_active : active_wake_locks p' = active_wake_locks p;
  cm_event : current_event_num p' = current_event_num p;
  cm_timer : expire_timer p' = expire_timer p;
  cm_work : suspend_work p' = suspend_work p;
  cm_jiffies : jiffies p' = jiffies p
}.

Lemma calm_refl p : calm p p.
Proof. now split. Qed.
Lemma calm_trans p1 p2 p3 : calm p1 p2 -> calm p2 p3 -> calm p1 p3.
Proof. intros [] []. split; congruence. Qed.

Lemma calm_lock p p' id L : calm p p' -> locks p !! id = Some L -> exists L', locks p' !! id = Some L' /\ core L' = core L.
Proof.
  intros Hc HL. pose proof (cm_locks p p' Hc id) as E. rewrite HL in E. destruct (locks p' !! id) as [L'|]; [|done].
  exists L'. split; [done|]. cbn in E. congruence.
Qed.

Lemma lock_at_eq p id L : locks p !! id = Some L -> lock_at id p = Ok (L, p).
Proof. unfold lock_at. now intros ->. Qed.

Definition live_lock (p : power) (id : Z) : Prop := is_Some (locks p !! id).
Lemma calm_live p p' id : calm p p' -> live_lock p id -> live_lock p' id.
Proof. intros Hc [L HL]. destruct (calm_lock p p' id L Hc HL) as (L' & HL' & _). now exists L'. Qed.

(** [m] ends calmly on any state where the lock is there. *)
Definition calmly {A} (m : PM A) (p : power) : Prop := runs m p (fun _ p' => calm p p').

Lemma calmly_bind {A B} (m : PM A) (k : A -> PM B) p : calmly m p -> (forall a p', calm p p' -> calmly (k a) p') -> calmly (m ≫= k) p.
Proof.
  intros Hm Hk. apply runs_bind. eapply runs_mono; [exact Hm|]. intros a p' Hc. cbv beta in Hc. eapply runs_mono; [exact (Hk a p' Hc)|].
  intros b p'' Hc'. cbv beta in Hc'. eapply calm_trans; eauto.
Qed.
Lemma calmly_ret {A} (a : A) p : calmly (mret a) p.
Proof. apply runs_ret. apply calm_refl. Qed.
Lemma calmly_gets {A} (f : power -> A) p : calmly (gets f) p.
Proof. apply calm_refl. Qed.
Lemma calmly_lock p id : live_lock p id -> calmly (lock_at id) p.
Proof. intros [L HL]. eapply runs_eq; [apply lock_at_eq; eassumption|]. apply calm_refl. Qed.
Lemma calmly_ktime p : calmly ktime_get p.
Proof. now split. Qed.
Lemma calmly_sleep u w p : calmly (set_sleep u w) p.
Proof. now split. Qed.

Lemma calm_put p id L L' : locks p !! id = Some L -> core L' = core L ->
  calm p (Power (<[id := L']> (locks p)) (inactive_locks p) (active_wake_locks p) (current_event_num p) (last_sleep_time_update p) (wait_for_wakeup p)
    (expire_timer p) (suspend_work p) (jiffies p) (kclock p) (kdelays p) (coarse p)).
Proof.
  intros HL E. split; try done. intros x. cbn. destruct (decide (id = x)) as [<-|]; [|now rewrite lookup_insert_ne].
  rewrite lookup_insert_eq, HL. cbn. now rewrite E.
Qed.

Lemma calmly_stat p id f : live_lock p id -> calmly (set_stat id f) p.
Proof. intros [L HL]. apply runs_bind. eapply runs_eq; [apply lock_at_eq; eassumption|]. now apply (calm_put p id L). Qed.
Lemma calmly_flags p id f : live_lock p id -> (forall x, view (f x) = view x) -> calmly (set_flags id f) p.
Proof.
  intros [L HL] Hf. apply runs_bind. eapply runs_eq; [apply lock_at_eq; eassumption|]. apply (calm_put p id L); [done|]. unfold core. cbn. now rewrite Hf.
Qed.

Create HintDb calm.
#[export] Hint Resolve calmly_ret calmly_gets calmly_lock calmly_ktime calmly_sleep calmly_stat calm_live calm_trans calm_refl view_preventing view_not_preventing : calm.
#[export] Hint Extern 5 (calmly (set_flags _ _) _) => (apply calmly_flags) : calm.

(** Runs through binds and conditionals, leaving what is not calm by itself. *)
Ltac calmly_step :=
  match goal with
  | |- calmly (_ ≫= _) ?p => apply calmly_bind; [|
      let a := fresh "a" in let q := fresh "q" in let Hc := fresh "Hc" in intros a q Hc;
      repeat match goal with H : live_lock p ?x |- _ => apply (calm_live p q x Hc) in H end]
  | |- calmly (let _ := _ in _) _ => cbv zeta
  | |- calmly (match ?x with (_, _) => _ end) _ => destruct x
  | |- calmly (match ?x with Some _ => _ | None => _ end) _ => destruct x
  | |- calmly (if ?b then _ else _) _ => destruct b
  end.
Ltac calmly_run := repeat (calmly_step; cbv beta); try solve [eauto 8 with calm].

Lemma calmly_expired p id : live_lock p id -> calmly (get_expired_time id) p.
Proof. intros H. unfold get_expired_time. calmly_run. Qed.
#[export] Hint Resolve calmly_expired : calm.

Lemma calmly_unlock_stat p id b : live_lock p id -> calmly (wake_unlock_stat_locked id b) p.
Proof. intros H. unfold wake_unlock_stat_locked. calmly_run. Qed.

Lemma calmly_sleep_stats b e u l : forall p, (forall x, x ∈ l -> live_lock p x) -> calmly (sleep_wait_stats b e u l) p.
Proof.
  induction l as [|x l IH]; intros p Hl; cbn [sleep_wait_stats]; [apply calmly_ret|]. assert (live_lock p x) by (apply Hl; left).
  calmly_run. all: apply IH; intros y Hy; assert (live_lock p y) by (apply Hl; now right); eauto 8 with calm.
Qed.

(** * Consistency *)

Definition auto (p : power) (id : Z) : bool := match locks p !! id with Some L => Z.testbit (flags L) 10 | None => false end.
(** Jiffies until the lock expires. *)
Definition remaining (p : power) (id : Z) : Z := match locks p !! id with Some L => s32 (expires L - jiffies p) | None => 0 end.
Definition timed_last (p : power) (x y : Z) : Prop := auto p x = true -> auto p y = true.
Definition linked_locks (p : power) : list Z := inactive_locks p ++ concat (active_wake_locks p).
Definition suspend_type (p : power) (id : Z) : Prop := exists L b1 b2, locks p !! id = Some L /\ view (flags L) = (b1, b2, true, WAKE_LOCK_SUSPEND).

Record wl_ok (p : power) : Prop := {
  wo_two : length (active_wake_locks p) = 2%nat;
  wo_nodup : NoDup (linked_locks p);
  wo_idle : forall id, id ∈ inactive_locks p -> exists L ty, locks p !! id = Some L /\ view (flags L) = (false, false, true, ty) /\ 0 <= ty < 2;
  wo_held : forall k l id, active_wake_locks p !! k = Some l -> id ∈ l ->
    exists L b, locks p !! id = Some L /\ view (flags L) = (true, b, true, Z.of_nat k);
  wo_order : forall k l, active_wake_locks p !! k = Some l -> StronglySorted (timed_last p) l;
  wo_linked : forall id L, locks p !! id = Some L -> Z.testbit (flags L) 8 = true -> id ∈ linked_locks p;
  wo_main : suspend_type p main_wake_lock;
  wo_sync : suspend_type p sync_wake_lock;
  wo_unknown : suspend_type p unknown_wakeup;
  wo_deleted : live_lock p deleted_wake_locks
}.

Lemma core_auto p p' id : core <$> locks p' !! id = core <$> locks p !! id -> auto p' id = auto p id.
Proof.
  unfold auto. destruct (locks p' !! id) as [L'|], (locks p !! id) as [L|]; cbn; try done. intros E%(inj Some).
  apply (f_equal (fun c => c.1.1.1.2)) in E. exact E.
Qed.

Lemma core_remaining p p' id : core <$> locks p' !! id = core <$> locks p !! id -> jiffies p' = jiffies p -> remaining p' id = remaining p id.
Proof. unfold remaining. intros E ->. destruct (locks p' !! id), (locks p !! id); cbn in E; try done. apply (inj Some), (f_equal snd) in E. cbn in E. now rewrite E. Qed.

Lemma core_view p p' id L v : core <$> locks p' !! id = core <$> locks p !! id -> locks p !! id = Some L -> view (flags L) = v ->
  exists L', locks p' !! id = Some L' /\ view (flags L') = v.
Proof. intros E HL Hv. rewrite HL in E. destruct (locks p' !! id) as [L'|]; [|done]. exists L'. split; [done|]. apply (inj Some), (f_equal fst) in E. cbn in E. congruence. Qed.

Lemma sorted_mono (R S : Z -> Z -> Prop) l : (forall x y, x ∈ l -> y ∈ l -> R x y -> S x y) -> StronglySorted R l -> StronglySorted S l.
Proof.
  intros H. induction 1 as [|x l Hl IH Hf]; constructor; [apply IH; set_solver|]. rewrite List.Forall_forall in Hf |- *.
  intros y Hy. apply H; [left|right; now apply list_elem_of_In|auto].
Qed.

Lemma wl_ok_calm p p' : wl_ok p -> calm p p' -> wl_ok p'.
Proof.
  intros [H1 H2 H3 H4 H5 H6 H7 Hsy H8 H9] Hc. pose proof Hc as [C1 C2 C3 _ _ _ _]. unfold linked_locks in *. split; unfold linked_locks; rewrite ?C2, ?C3; try done.
  - intros id Hid. destruct (H3 id Hid) as (L & ty & HL & Hv & Ht). destruct (core_view p p' id L _ (C1 id) HL Hv) as (L' & ? & ?). eauto 6.
  - intros k l id Hk Hid. destruct (H4 k l id Hk Hid) as (L & b & HL & Hv). destruct (core_view p p' id L _ (C1 id) HL Hv) as (L' & ? & ?). eauto 6.
  - intros k l Hk. eapply sorted_mono; [|now apply (H5 k)]. intros x y _ _. unfold timed_last. now rewrite !(core_auto p p') by apply C1.
  - intros id L' HL' Hi. pose proof (C1 id) as E. rewrite HL' in E. destruct (locks p !! id) as [L|] eqn:HL; [|done]. apply (inj Some), (f_equal (fun c => c.1.1.2)) in E.
    change (Z.testbit (flags L') 8 = Z.testbit (flags L) 8) in E.
    apply (H6 id L HL). congruence.
  - destruct H7 as (L & b1 & b2 & HL & Hv). destruct (core_view p p' _ L _ (C1 _) HL Hv) as (L' & ? & ?). unfold suspend_type. eauto 8.
  - destruct Hsy as (L & b1 & b2 & HL & Hv). destruct (core_view p p' _ L _ (C1 _) HL Hv) as (L' & ? & ?). unfold suspend_type. eauto 8.
  - destruct H8 as (L & b1 & b2 & HL & Hv). destruct (core_view p p' _ L _ (C1 _) HL Hv) as (L' & ? & ?). unfold suspend_type. eauto 8.
  - eapply calm_live; eauto.
Qed.

(** * Lists *)

Lemma elem_without x y l : y ∈ without x l <-> y ∈ l /\ y <> x.
Proof. unfold without. rewrite list_elem_of_filter. tauto. Qed.

Lemma concat_without x a : concat (without x <$> a) = without x (concat a).
Proof. induction a as [|l a IH]; [done|]. cbn. rewrite IH. unfold without. now rewrite list.filter_app. Qed.

Lemma without_app x l k : without x (l ++ k) = without x l ++ without x k.
Proof. apply list.filter_app. Qed.

Lemma linked_in_true id i a : linked_in id i a = true <-> id ∈ i ++ concat a.
Proof.
  unfold linked_in. rewrite orb_true_iff, bool_decide_eq_true, elem_of_app. f_equiv.
  rewrite existsb_exists, list_elem_of_In, in_concat. split.
  - intros (l & Hl & Hid%bool_decide_eq_true). exists l. split; [done|]. now apply list_elem_of_In.
  - intros (l & Hl & Hid). exists l. split; [done|]. apply bool_decide_eq_true. now apply list_elem_of_In.
Qed.

Lemma without_sorted (R : Z -> Z -> Prop) x l : StronglySorted R l -> StronglySorted R (without x l).
Proof.
  induction 1 as [|y l Hl IH Hf]; [constructor|]. unfold without in *. destruct (decide (y <> x)).
  - rewrite filter_cons_True by done. constructor; [done|]. rewrite List.Forall_forall in Hf |- *. intros z Hz%list_elem_of_In.
    apply list_elem_of_filter in Hz as [_ Hz]. apply Hf. now apply list_elem_of_In.
  - now rewrite filter_cons_False by tauto.
Qed.

(** The locks of a list of active ones are not elsewhere. *)
Lemma held_elsewhere p k l id : wl_ok p -> active_wake_locks p !! k = Some l -> id ∈ l -> id ∈ linked_locks p.
Proof.
  intros Hp Hk Hid. unfold linked_locks. apply elem_of_app. right. apply list_elem_of_In, in_concat. exists l.
  split; [apply list_elem_of_In; eapply list_elem_of_lookup_2; eauto|now apply list_elem_of_In].
Qed.

Lemma linked_live p id : wl_ok p -> id ∈ linked_locks p -> live_lock p id.
Proof.
  intros Hp Hid. unfold linked_locks in Hid. apply elem_of_app in Hid as [Hid|Hid].
  - destruct (wo_idle p Hp id Hid) as (L & _ & HL & _). now exists L.
  - apply list_elem_of_In, in_concat in Hid as (l & Hl & Hid). apply list_elem_of_In, list_elem_of_lookup in Hl as (k & Hk).
    destruct (wo_held p Hp k l id Hk) as (L & _ & HL & _); [now apply list_elem_of_In|]. now exists L.
Qed.

Lemma linked_bits p id : wl_ok p -> id ∈ linked_locks p -> exists L b1 b2 ty, locks p !! id = Some L /\ view (flags L) = (b1, b2, true, ty) /\ 0 <= ty < 2.
Proof.
  intros Hp Hid. unfold linked_locks in Hid. apply elem_of_app in Hid as [Hid|Hid].
  - destruct (wo_idle p Hp id Hid) as (L & ty & HL & Hv & Ht). eauto 8.
  - apply list_elem_of_In, in_concat in Hid as (l & Hl & Hid). apply list_elem_of_In, list_elem_of_lookup in Hl as (k & Hk).
    destruct (wo_held p Hp k l id Hk) as (L & b & HL & Hv); [now apply list_elem_of_In|]. apply lookup_lt_Some in Hk. rewrite (wo_two p Hp) in Hk.
    exists L, true, b, (Z.of_nat k). split; [done|]. split; [done|lia].
Qed.

(** * Moving a lock between lists *)

Record relinked (p p' : power) (id : Z) (i : list Z) (a : list (list Z)) (v : bool * bool * bool * Z) : Prop := {
  rl_others : forall x, x <> id -> core <$> locks p' !! x = core <$> locks p !! x;
  rl_self : exists L', locks p' !! id = Some L' /\ view (flags L') = v;
  rl_inactive : inactive_locks p' = i;
  rl_active : active_wake_locks p' = a;
  rl_timer : expire_timer p' = expire_timer p;
  rl_work : suspend_work p' = suspend_work p;
  rl_event : current_event_num p' = current_event_num p;
  rl_jiffies : jiffies p' = jiffies p
}.

Definition idle_view (ty : Z) : bool * bool * bool * Z := (false, false, true, ty).
Definition moved (p p' : power) (id ty : Z) : Prop :=
  relinked p p' id (id :: without id (inactive_locks p)) (without id <$> active_wake_locks p) (idle_view ty).

Lemma relinked_calm p p' p'' id i a v : relinked p p' id i a v -> calm p' p'' -> relinked p p'' id i a v.
Proof.
  intros [R1 (L' & HL & Hv) R3 R4 R5 R6 R7 R8] Hc. pose proof Hc as [C1 C2 C3 C4 C5 C6 C7]. split; try congruence.
  - intros x Hx. rewrite C1. now apply R1.
  - eapply core_view; eauto.
Qed.

Lemma relinked_auto p p' id i a v x : relinked p p' id i a v -> x <> id -> auto p' x = auto p x.
Proof. intros R Hx. apply core_auto. now apply (rl_others _ _ _ _ _ _ R). Qed.

Lemma relinked_lock p p' id i a v x L w : relinked p p' id i a v -> x <> id -> locks p !! x = Some L -> view (flags L) = w ->
  exists L', locks p' !! x = Some L' /\ view (flags L') = w.
Proof. intros R Hx. eapply core_view. now apply (rl_others _ _ _ _ _ _ R). Qed.

(** Locks keep their type, and stay initialised. *)
Definition keeps_types (p p' : power) : Prop := forall x, suspend_type p x -> suspend_type p' x.

Lemma keeps_types_trans p1 p2 p3 : keeps_types p1 p2 -> keeps_types p2 p3 -> keeps_types p1 p3.
Proof. unfold keeps_types. eauto. Qed.

Lemma calm_types p p' : calm p p' -> keeps_types p p'.
Proof.
  intros C x (L & b1 & b2 & HL & Hv). destruct (core_view p p' x L _ (cm_locks _ _ C x) HL Hv) as (L' & ? & ?). unfold suspend_type. eauto.
Qed.

Lemma relinked_types p p' id i a b1 b2 ty : relinked p p' id i a (b1, b2, true, ty) ->
  (forall L, locks p !! id = Some L -> Z.land (flags L) WAKE_LOCK_TYPE_MASK = ty) -> keeps_types p p'.
Proof.
  intros R Hty x (L & c1 & c2 & HL & HvL). destruct (decide (x = id)) as [->|Hx].
  - destruct (rl_self _ _ _ _ _ _ R) as (L' & HL' & Hv). exists L', b1, b2. split; [done|]. rewrite Hv. f_equal. specialize (Hty L HL). apply (f_equal snd) in HvL. cbn [snd view] in HvL. congruence.
  - destruct (relinked_lock p p' id i a _ x L _ R Hx HL HvL) as (L1 & ? & ?). exists L1, c1, c2. done.
Qed.

(** The lists with [id] taken out, and put back somewhere. *)
Lemma wl_ok_relinked p p' id i a v : wl_ok p -> id ∈ linked_locks p -> relinked p p' id i a v ->
  (exists b1 b2 ty, v = (b1, b2, true, ty) /\ forall L, locks p !! id = Some L -> Z.land (flags L) WAKE_LOCK_TYPE_MASK = ty) ->
  length a = 2%nat -> NoDup (i ++ concat a) -> (forall x, x ∈ i ++ concat a <-> x ∈ linked_locks p) ->
  (forall x, x ∈ i -> x <> id -> x ∈ inactive_locks p) ->
  (forall k l x, a !! k = Some l -> x ∈ l -> x <> id -> exists l', active_wake_locks p !! k = Some l' /\ x ∈ l') ->
  (id ∈ i -> exists ty, v = (false, false, true, ty) /\ 0 <= ty < 2) ->
  (forall k l, a !! k = Some l -> id ∈ l -> exists b, v = (true, b, true, Z.of_nat k)) ->
  (forall k l, a !! k = Some l -> StronglySorted (timed_last p') l) ->
  wl_ok p'.
Proof.
  intros Hp Hid R (b1 & b2 & ty & Ev & Hty) Hlen Hnd Hsame Hi Ha Hidle Hheld Hord.
  pose proof R as [R1 (L' & HL' & Hv) R3 R4 R5 R6 R7 R8]. unfold linked_locks in *.
  assert (forall x, suspend_type p x -> suspend_type p' x) as Hst by (rewrite Ev in R; exact (relinked_types p p' id i a b1 b2 ty R Hty)).
  split; unfold linked_locks; rewrite ?R3, ?R4; try done.
  - intros x Hx. destruct (decide (x = id)) as [->|Hne].
    + destruct (Hidle Hx) as (ty' & -> & ?). eauto 6.
    + destruct (wo_idle p Hp x (Hi x Hx Hne)) as (L & ty' & HL & HvL & ?). destruct (relinked_lock p p' id i a v x L _ R Hne HL HvL) as (L1 & ? & ?). eauto 6.
  - intros k l x Hk Hx. destruct (decide (x = id)) as [->|Hne].
    + destruct (Hheld k l Hk Hx) as (b & ->). eauto 6.
    + destruct (Ha k l x Hk Hx Hne) as (l' & Hk' & Hx'). destruct (wo_held p Hp k l' x Hk' Hx') as (L & b & HL & HvL).
      destruct (relinked_lock p p' id i a v x L _ R Hne HL HvL) as (L1 & ? & ?). eauto 6.
  - intros x L1 HL1 Hb. apply Hsame. destruct (decide (x = id)) as [->|Hne]; [done|].
    pose proof (R1 x Hne) as E. rewrite HL1 in E. destruct (locks p !! x) as [L|] eqn:HL; [|done]. apply (inj Some), (f_equal (fun c => c.1.1.2)) in E.
    change (Z.testbit (flags L1) 8 = Z.testbit (flags L) 8) in E. apply (wo_linked p Hp x L HL). congruence.
  - apply Hst, (wo_main p Hp).
  - apply Hst, (wo_sync p Hp).
  - apply Hst, (wo_unknown p Hp).
  - destruct (decide (deleted_wake_locks = id)) as [E|Hne]; [rewrite E; now exists L'|].
    destruct (wo_deleted p Hp) as [L HL]. destruct (relinked_lock p p' id i a v _ L _ R Hne HL eq_refl) as (L1 & ? & _). now exists L1.
Qed.

Lemma lookup_without x (a : list (list Z)) k l : (without x <$> a) !! k = Some l -> exists l', a !! k = Some l' /\ l = without x l'.
Proof. rewrite list_lookup_fmap. intros (l' & H & ->)%fmap_Some. eauto. Qed.

Lemma without_order p p' id i a v k l : wl_ok p -> relinked p p' id i a v -> active_wake_locks p !! k = Some l ->
  StronglySorted (timed_last p') (without id l).
Proof.
  intros Hp R Hk. eapply sorted_mono; [|apply (without_sorted (timed_last p) id), (wo_order p Hp k l Hk)].
  intros x y [_ Hx]%elem_without [_ Hy]%elem_without. unfold timed_last. now rewrite !(relinked_auto p p' id i a v _ R).
Qed.

Lemma wl_ok_moved p p' id L : wl_ok p -> id ∈ linked_locks p -> locks p !! id = Some L -> moved p p' id (Z.land (flags L) WAKE_LOCK_TYPE_MASK) -> wl_ok p'.
Proof.
  intros Hp Hid HL R. destruct (linked_bits p id Hp Hid) as (L1 & b1 & b2 & ty & HL1 & Hv1 & Hty). simplify_eq.
  assert (Z.land (flags L) WAKE_LOCK_TYPE_MASK = ty) as Et by (apply (f_equal snd) in Hv1; exact Hv1). unfold idle_view in R.
  eapply (wl_ok_relinked p p' id _ _ _ Hp Hid R).
  - exists false, false, ty. split; [unfold idle_view; now rewrite Et|]. intros L0 HL0. congruence.
  - rewrite length_fmap. apply (wo_two p Hp).
  - rewrite concat_without. cbn. rewrite <- without_app. constructor; [rewrite elem_without; tauto|]. apply list.NoDup_filter, (wo_nodup p Hp).
  - intros x. rewrite concat_without. cbn. rewrite <- without_app, elem_of_cons, elem_without. unfold linked_locks in *. destruct (decide (x = id)) as [->|]; tauto.
  - intros x [->|[? _]%elem_without]%elem_of_cons ?; done.
  - intros k l x (l' & Hk & ->)%lookup_without [Hx _]%elem_without _. eauto.
  - intros _. exists ty. split; [unfold idle_view; now rewrite Et|done].
  - intros k l (l' & Hk & ->)%lookup_without [_ ?]%elem_without. done.
  - intros k l (l' & Hk & ->)%lookup_without. eapply without_order; eauto.
Qed.
