(* ===== verification/WakelockOps.v ===== *)
(** What the operations on wake locks do to a consistent state. *)

From stdpp Require Import gmap sorting.
From S2P Require Import Prelude.
From S2P Require Import Ring State Wakelock WakelockInv.

Lemma two_lists p : wl_ok p -> exists s d, active_wake_locks p = [s; d].
Proof. intros Hp. pose proof (wo_two p Hp) as H. destruct (active_wake_locks p) as [|s [|d [|]]]; try done. eauto. Qed.

(** * Releasing a lock *)

(** The flags of the lock are set, its link goes to another list. *)
Definition with_lists (p : power) (m : gmap Z wake_lock_t) (i : list Z) (a : list (list Z)) : power :=
  Power m i a (current_event_num p) (last_sleep_time_update p) (wait_for_wakeup p)
    (expire_timer p) (suspend_work p) (jiffies p) (kclock p) (kdelays p) (coarse p).

Lemma list_del_eq p id : id ∈ linked_locks p ->
  list_del id p = Ok (tt, with_lists p (locks p) (without id (inactive_locks p)) (without id <$> active_wake_locks p)).
Proof. intros Hid. unfold list_del, gets, mbind, ST_bind. now rewrite (proj2 (linked_in_true id _ _) Hid). Qed.

Lemma set_flags_eq p id f L : locks p !! id = Some L ->
  set_flags id f p = Ok (tt, with_lists p (<[id := Lock (f (flags L)) (name L) (expires L) (stat L)]> (locks p)) (inactive_locks p) (active_wake_locks p)).
Proof. intros HL. unfold set_flags, mbind, ST_bind. now rewrite (lock_at_eq p id L HL). Qed.

Definition release (id : Z) (b : bool) : PM unit :=
  wake_unlock_stat_locked id b;;
  set_flags id (fun f => Z.land f (lnot32 (Z.lor WAKE_LOCK_ACTIVE WAKE_LOCK_AUTO_EXPIRE)));;
  list_del id;;
  list_add_inactive id.

Lemma view_bit8 f b1 b2 b3 ty : view f = (b1, b2, b3, ty) -> Z.testbit f 8 = b3.
Proof. intros H. now apply (f_equal (fun v => v.1.2)) in H. Qed.
Lemma view_type f b1 b2 b3 ty : view f = (b1, b2, b3, ty) -> Z.land f WAKE_LOCK_TYPE_MASK = ty.
Proof. intros H. now apply (f_equal (fun v => v.2)) in H. Qed.
Lemma view_bit10 f b1 b2 b3 ty : view f = (b1, b2, b3, ty) -> Z.testbit f 10 = b2.
Proof. intros H. now apply (f_equal (fun v => v.1.1.2)) in H. Qed.
Lemma view_bit9 f b1 b2 b3 ty : view f = (b1, b2, b3, ty) -> Z.testbit f 9 = b1.
Proof. intros H. now apply (f_equal (fun v => v.1.1.1)) in H. Qed.

Lemma suspend_type_linked p x : wl_ok p -> suspend_type p x -> x ∈ linked_locks p.
Proof. intros Hp (L & b1 & b2 & HL & Hv). apply (wo_linked p Hp x L HL), (view_bit8 _ _ _ _ _ Hv). Qed.

Lemma core_type L L' : core L' = core L -> Z.land (flags L') WAKE_LOCK_TYPE_MASK = Z.land (flags L) WAKE_LOCK_TYPE_MASK.
Proof. intros E. now apply (f_equal (fun c => c.1.2)) in E. Qed.

Lemma unheld_ok p id L b : wl_ok p -> id ∈ linked_locks p -> locks p !! id = Some L ->
  runs (release id b) p (fun _ p' => wl_ok p' /\ moved p p' id (Z.land (flags L) WAKE_LOCK_TYPE_MASK)).
Proof.
  intros Hp Hid HL. unfold release. apply runs_bind. eapply runs_mono; [apply (calmly_unlock_stat p id b); now exists L|].
  intros [] p1 Hc. cbv beta in Hc. destruct (calm_lock p p1 id L Hc HL) as (L1 & HL1 & E1).
  apply runs_bind. eapply runs_eq; [apply set_flags_eq; exact HL1|]. apply runs_bind.
  pose proof Hc as [C1 C2 C3 C4 C5 C6 C7].
  eapply runs_eq; [apply list_del_eq; cbn; unfold linked_locks in *; cbn; rewrite C2, C3; exact Hid|].
  assert (forall p', moved p p' id (Z.land (flags L) WAKE_LOCK_TYPE_MASK) -> wl_ok p' /\ moved p p' id (Z.land (flags L) WAKE_LOCK_TYPE_MASK)) as Hdone.
  { intros p' Hm. split; [|done]. eapply wl_ok_moved; eauto. }
  apply Hdone. split; cbn; try done; try congruence.
  - intros x Hx. rewrite lookup_insert_ne by done. apply C1.
  - eexists. rewrite lookup_insert_eq. split; [done|]. cbn [flags]. rewrite view_released. unfold idle_view. rewrite (core_type L L1 E1).
    assert (Z.testbit (flags L1) 8 = true) as ->; [|done].
    destruct (linked_bits p id Hp Hid) as (L0 & b1 & b2 & ty & HL0 & Hv & _). assert (L0 = L) as -> by congruence.
    apply (f_equal fst) in E1. cbn [fst core] in E1. rewrite Hv in E1. eapply view_bit8; eauto.
  - now rewrite C2.
Qed.

(** * Scanning a list of active locks *)

Definition unexpired (p : power) (id : Z) : Prop := 0 < remaining p id.
#[global] Instance unexpired_dec p id : Decision (unexpired p id).
Proof. unfold unexpired. apply _. Defined.

(** The list of one type; other lists keep their elements. *)
Record scanned (p p' : power) (k : nat) (kept gone : list Z) : Prop := {
  sc_ok : wl_ok p';
  sc_kept : active_wake_locks p' !! k = Some kept;
  sc_other : forall k', k' <> k -> active_wake_locks p' !! k' = active_wake_locks p !! k';
  sc_gone : forall x, x ∈ inactive_locks p' <-> x ∈ inactive_locks p \/ x ∈ gone;
  sc_locks : forall x, (x ∉ gone) -> core <$> locks p' !! x = core <$> locks p !! x;
  sc_types : keeps_types p p';
  sc_timer : expire_timer p' = expire_timer p;
  sc_work : suspend_work p' = suspend_work p;
  sc_event : current_event_num p' = current_event_num p;
  sc_jiffies : jiffies p' = jiffies p
}.

Lemma scanned_refl p k l : wl_ok p -> active_wake_locks p !! k = Some l -> scanned p p k l [].
Proof. intros Hp Hk. split; try done; intros x; [set_solver|done]. Qed.

Lemma scanned_trans p1 p2 p3 k l2 l3 g2 g3 : scanned p1 p2 k l2 g2 -> scanned p2 p3 k l3 g3 -> scanned p1 p3 k l3 (g2 ++ g3).
Proof.
  intros [A1 A2 A3 A4 A5 A6 A7 A8 A9 A10] [B1 B2 B3 B4 B5 B6 B7 B8 B9 B10]. split; try done; try congruence.
  - intros k' Hk. now rewrite B3, A3.
  - intros x. rewrite B4, A4. set_solver.
  - intros x Hx. rewrite B5, A5; set_solver.
  - eapply keeps_types_trans; eauto.
Qed.

Lemma without_fresh x l : x ∉ l -> without x l = l.
Proof.
  induction l as [|y l IH]; [done|]. intros H. unfold without. rewrite filter_cons_True by set_solver.
  f_equal. apply IH. set_solver.
Qed.

Lemma without_middle x l k : NoDup (l ++ x :: k) -> without x (l ++ x :: k) = l ++ k.
Proof.
  intros (H1 & H2 & H3)%list.NoDup_app. apply list.NoDup_cons in H3 as [H3 _]. rewrite without_app. unfold without at 2.
  rewrite filter_cons_False by tauto. fold (without x k). rewrite (without_fresh x l), (without_fresh x k); [done|done|]. set_solver.
Qed.

(** The lists are disjoint. *)
Lemma NoDup_concat_lookup (a : list (list Z)) k l : NoDup (concat a) -> a !! k = Some l -> NoDup l /\ forall k' l' x, k' <> k -> a !! k' = Some l' -> x ∈ l -> x ∉ l'.
Proof.
  revert k. induction a as [|l0 a IH]; intros k Hn Hk; [done|]. cbn in Hn. apply list.NoDup_app in Hn as (H1 & H2 & H3).
  assert (forall k l x, a !! k = Some l -> x ∈ l -> x ∈ concat a) as Hin.
  { intros j h x Hj Hx. apply list_elem_of_In, in_concat. exists h. split; apply list_elem_of_In; [eapply list_elem_of_lookup_2; eauto|done]. }
  destruct k as [|k]; cbn in Hk.
  - injection Hk as ->. split; [done|]. intros [|k'] l' x Hne Hk' Hx Hx'; [done|]. cbn in Hk'. apply (H2 x Hx). eauto.
  - destruct (IH k H3 Hk) as [G1 G2]. split; [done|]. intros [|k'] l' x Hne Hk' Hx Hx'; cbn in Hk'.
    + injection Hk' as ->. apply (H2 x Hx'). eauto.
    + eapply (G2 k' l' x); eauto.
Qed.

Lemma list_nodup p k l : wl_ok p -> active_wake_locks p !! k = Some l ->
  NoDup l /\ (forall k' l' x, k' <> k -> active_wake_locks p !! k' = Some l' -> x ∈ l -> x ∉ l') /\ forall x, x ∈ l -> x ∉ inactive_locks p.
Proof.
  intros Hp Hk. pose proof (wo_nodup p Hp) as Hn. unfold linked_locks in Hn. apply list.NoDup_app in Hn as (_ & Hd & Hc).
  destruct (NoDup_concat_lookup _ k l Hc Hk) as [G1 G2]. split; [done|]. split; [done|]. intros x Hx Hi. apply (Hd x Hi).
  apply list_elem_of_In, in_concat. exists l. split; apply list_elem_of_In; [eapply list_elem_of_lookup_2; eauto|done].
Qed.

Lemma expire_ok p k pre id l : wl_ok p -> active_wake_locks p !! k = Some (pre ++ id :: l) ->
  runs (expire_wake_lock id) p (fun _ p' => scanned p p' k (pre ++ l) [id]).
Proof.
  intros Hp Hk. assert (id ∈ pre ++ id :: l) as Hin by set_solver. pose proof (held_elsewhere p k _ id Hp Hk Hin) as Hid.
  destruct (linked_live p id Hp Hid) as [L HL]. destruct (list_nodup p k _ Hp Hk) as (N1 & N2 & N3).
  eapply runs_mono; [exact (unheld_ok p id L true Hp Hid HL)|]. intros [] p' [Hp' R]. pose proof R as [R1 R2 R3 R4 R5 R6 R7 R8]. split; try done.
  - rewrite R4, list_lookup_fmap, Hk. cbn. now rewrite without_middle.
  - intros k' Hne. rewrite R4, list_lookup_fmap. destruct (active_wake_locks p !! k') as [l'|] eqn:E; [|done]. cbn. f_equal.
    apply without_fresh. eapply N2; eauto.
  - intros x. rewrite R3, elem_of_cons, elem_without, list_elem_of_singleton. destruct (decide (x = id)) as [->|]; tauto.
  - intros x Hx. apply R1. set_solver.
  - eapply relinked_types; [exact R|]. intros L0 HL0. congruence.
Qed.

Lemma sc_remaining p p' k kept gone x : scanned p p' k kept gone -> (x ∉ gone) -> remaining p' x = remaining p x.
Proof. intros S Hx. apply core_remaining; [now apply (sc_locks _ _ _ _ _ S)|apply (sc_jiffies _ _ _ _ _ S)]. Qed.
Lemma sc_auto p p' k kept gone x : scanned p p' k kept gone -> (x ∉ gone) -> auto p' x = auto p x.
Proof. intros S Hx. apply core_auto. now apply (sc_locks _ _ _ _ _ S). Qed.

Lemma s32_range x : - 2 ^ 31 <= s32 x < 2 ^ 31.
Proof. unfold s32. pose proof (Z.mod_pos_bound (x + 2 ^ 31) (2 ^ 32)). lia. Qed.

Lemma remaining_range p x : - 2 ^ 31 <= remaining p x < 2 ^ 31.
Proof. unfold remaining. destruct (locks p !! x); [apply s32_range|lia]. Qed.

(** The result of a scan: the longest time left, [mt] at least. *)
Definition longest (p : power) (l : list Z) (mt ret : Z) : Prop :=
  mt <= ret < 2 ^ 31 /\ (forall x, x ∈ l -> remaining p x <= ret) /\ (ret = mt \/ exists x, x ∈ l /\ remaining p x = ret).

Lemma filter_ext (P Q : Z -> Prop) `{!forall x, Decision (P x), !forall x, Decision (Q x)} (l : list Z) :
  (forall x, x ∈ l -> P x <-> Q x) -> filter P l = filter Q l.
Proof.
  induction l as [|x l IH]; intros Hpq; [done|]. rewrite !filter_cons. rewrite IH by (intros; apply Hpq; now right).
  destruct (decide (P x)), (decide (Q x)); try done; exfalso; specialize (Hpq x ltac:(left)); tauto.
Qed.

Lemma scan_ok k l : forall pre mt p, wl_ok p -> active_wake_locks p !! k = Some (pre ++ l) -> (forall x, x ∈ l -> auto p x = true) -> 0 <= mt < 2 ^ 31 ->
  runs (scan_locks l mt) p (fun ret p' =>
    scanned p p' k (pre ++ filter (unexpired p) l) (filter (fun x => ~ unexpired p x) l) /\ longest p l mt ret).
Proof.
  induction l as [|id l IH]; intros pre mt p Hp Hk Ha Hmt; cbn [scan_locks].
  { apply runs_ret. split; [now apply scanned_refl|]. split; [lia|]. split; [set_solver|now left]. }
  assert (id ∈ pre ++ id :: l) as Hin by set_solver. pose proof (held_elsewhere p k _ id Hp Hk Hin) as Hid.
  destruct (linked_live p id Hp Hid) as [L HL]. assert (auto p id = true) as Hau by (apply Ha; left).
  assert (remaining p id = s32 (expires L - jiffies p)) as Hr by (unfold remaining; now rewrite HL).
  destruct (list_nodup p k _ Hp Hk) as (N1 & N2 & N3). apply list.NoDup_app in N1 as (_ & _ & [Nid _]%list.NoDup_cons).
  apply runs_bind. eapply runs_eq; [apply lock_at_eq; exact HL|]. rewrite flag_auto.
  unfold auto in Hau. rewrite HL in Hau. rewrite Hau. apply runs_gets. cbv zeta. rewrite <- Hr.
  assert ((pre ++ [id]) ++ l = pre ++ id :: l) as Eapp by (now rewrite <- app_assoc).
  destruct (Z.leb_spec (remaining p id) 0) as [Hle|Hgt].
  - apply runs_bind. eapply runs_mono; [now apply (expire_ok p k pre id l)|]. intros [] p1 S. cbv beta in S.
    assert (forall x, x ∈ l -> x ∉ [id]) as Hnid by (intros x Hx ->%list_elem_of_singleton; done).
    eapply runs_mono.
    { apply (IH pre mt p1); [apply S|apply (sc_kept _ _ _ _ _ S)| |done]. intros x Hx. rewrite (sc_auto _ _ _ _ _ _ S) by auto. apply Ha. now right. }
    intros ret p' (S' & B1 & B2 & B3). rewrite (filter_cons_False (unexpired p)), filter_cons_True by (unfold unexpired; lia).
    rewrite (filter_ext (unexpired p1) (unexpired p)) in S' by (intros x Hx; unfold unexpired; now rewrite (sc_remaining _ _ _ _ _ _ S) by auto).
    rewrite (filter_ext (fun x => ~ unexpired p1 x) (fun x => ~ unexpired p x)) in S' by (intros x Hx; unfold unexpired; now rewrite (sc_remaining _ _ _ _ _ _ S) by auto).
    split; [exact (scanned_trans _ _ _ _ _ _ [id] _ S S')|]. split; [lia|]. split.
    + intros x [->|Hx]%elem_of_cons; [lia|]. rewrite <- (sc_remaining _ _ _ _ _ x S) by auto. auto.
    + destruct B3 as [|(x & Hx & E)]; [now left|right]. exists x. split; [now right|]. rewrite <- (sc_remaining _ _ _ _ _ x S) by auto. done.
  - pose proof (remaining_range p id).
    assert (forall mt', mt' = Z.max mt (remaining p id) -> runs (scan_locks l mt') p (fun ret p' =>
      scanned p p' k (pre ++ filter (unexpired p) (id :: l)) (filter (fun x => ~ unexpired p x) (id :: l)) /\ longest p (id :: l) mt ret)) as Hmax.
    { intros mt' ->. eapply runs_mono; [apply (IH (pre ++ [id]) (Z.max mt (remaining p id)) p Hp)|].
      - now rewrite Eapp.
      - intros x Hx. apply Ha. now right.
      - lia.
      - intros ret p' (S & B1 & B2 & B3). rewrite (filter_cons_True (unexpired p)), filter_cons_False by (unfold unexpired; lia).
        rewrite <- app_assoc in S. split; [exact S|]. split; [lia|]. split.
        + intros x [->|Hx]%elem_of_cons; [lia|auto].
        + destruct B3 as [E|(x & Hx & E)]; [|right; exists x; split; [now right|done]].
          destruct (Z.max_spec mt (remaining p id)) as [[_ E2]|[_ E2]]; [right; exists id; split; [left|congruence]|left; congruence]. }
    destruct (Z.ltb_spec mt (remaining p id)); apply Hmax; lia.
Qed.

(** [has_wake_lock_locked]: -1 if a lock without timeout is held; else the
    expired locks are released and the result is the longest time left. *)
Definition has_post (p : power) (k : nat) (l : list Z) (ret : Z) (p' : power) : Prop :=
  (exists x, x ∈ l /\ auto p x = false) /\ ret = -1 /\ p' = p \/
  (forall x, x ∈ l -> auto p x = true) /\ scanned p p' k (filter (unexpired p) l) (filter (fun x => ~ unexpired p x) l) /\ longest p l 0 ret.

Lemma has_ok p k l : wl_ok p -> active_wake_locks p !! k = Some l -> runs (has_wake_lock_locked (Z.of_nat k)) p (has_post p k l).
Proof.
  intros Hp Hk. pose proof (lookup_lt_Some _ _ _ Hk) as Hlt. rewrite (wo_two p Hp) in Hlt. unfold has_wake_lock_locked.
  destruct (Z.leb_spec WAKE_LOCK_TYPE_COUNT (Z.of_nat k)) as [H|_]; [unfold WAKE_LOCK_TYPE_COUNT in H; lia|].
  apply runs_bind. eapply runs_eq.
  { unfold active_of, gets, lift, rd, mbind, ST_bind. rewrite Nat2Z.id, Hk. destruct (Z.leb_spec 0 (Z.of_nat k)); [reflexivity|lia]. }
  assert ((forall x, x ∈ l -> auto p x = true) -> runs (scan_locks l 0) p (has_post p k l)) as Hall.
  { intros Ha. eapply runs_mono; [apply (scan_ok k l [] 0 p); [done|done|done|lia]|]. intros ret p' [S B]. right. done. }
  destruct l as [|id l]; [apply Hall; set_solver|]. pose proof (wo_order p Hp k _ Hk) as Ho. apply StronglySorted_cons in Ho as [Hf _].
  rewrite List.Forall_forall in Hf. destruct (auto p id) eqn:Eid.
  - apply Hall. intros x [->|Hx]%elem_of_cons; [done|]. apply (Hf x); [now apply list_elem_of_In|done].
  - destruct (linked_live p id Hp) as [L HL]; [eapply held_elsewhere; eauto; left|]. cbn [scan_locks]. apply runs_bind.
    eapply runs_eq; [apply lock_at_eq; exact HL|]. rewrite flag_auto. unfold auto in Eid. rewrite HL in Eid. rewrite Eid.
    apply runs_ret. left. split; [|done]. exists id. split; [left|]. unfold auto. now rewrite HL.
Qed.

(** * Taking a lock *)

Lemma set_expires_eq p id e L : locks p !! id = Some L ->
  set_expires id e p = Ok (tt, with_lists p (<[id := Lock (flags L) (name L) e (stat L)]> (locks p)) (inactive_locks p) (active_wake_locks p)).
Proof. intros HL. unfold set_expires, mbind, ST_bind. now rewrite (lock_at_eq p id L HL). Qed.

(** The list with the lock put in: behind those with a timeout, or in front. *)
Definition put_in (id : Z) (timed : bool) (l : list Z) : list Z := if timed then l ++ [id] else id :: l.

Lemma list_add_eq p id k l (timed : bool) : active_wake_locks p !! k = Some l ->
  (if timed then list_add_tail_active id (Z.of_nat k) else list_add_active id (Z.of_nat k)) p =
  Ok (tt, with_lists p (locks p) (inactive_locks p) (<[k := put_in id timed l]> (active_wake_locks p))).
Proof.
  intros Hk. pose proof (lookup_lt_Some _ _ _ Hk) as Hlt.
  assert (rd (active_wake_locks p) (Z.of_nat k) = Ok l) as Er.
  { unfold rd. rewrite Nat2Z.id, Hk. destruct (Z.leb_spec 0 (Z.of_nat k)); [done|lia]. }
  assert (forall x, wr (active_wake_locks p) (Z.of_nat k) x = Ok (<[k := x]> (active_wake_locks p))) as Ew.
  { intros x. rewrite wr_ok by (unfold zlen; lia). now rewrite Nat2Z.id. }
  destruct timed; unfold list_add_tail_active, list_add_active, gets, lift, mbind, ST_bind; now rewrite Er, Ew.
Qed.

Lemma concat_insert_perm (a : list (list Z)) k l m id : a !! k = Some l -> m ≡ₚ id :: l -> concat (<[k := m]> a) ≡ₚ id :: concat a.
Proof.
  intros Hk Hm. revert k Hk. induction a as [|h a IH]; intros [|k] Hk; cbn in *; try done.
  - injection Hk as ->. now rewrite Hm.
  - rewrite (IH k Hk). now rewrite <- Permutation_middle.
Qed.

Definition held_view (timed : bool) (k : nat) : bool * bool * bool * Z := (true, timed, true, Z.of_nat k).
Definition held_lists (p : power) (id : Z) (timed : bool) (k : nat) (l : list Z) : list (list Z) :=
  <[k := put_in id timed (without id l)]> (without id <$> active_wake_locks p).

Lemma wl_ok_held p p' id L k l timed : wl_ok p -> id ∈ linked_locks p -> locks p !! id = Some L -> Z.land (flags L) WAKE_LOCK_TYPE_MASK = Z.of_nat k ->
  active_wake_locks p !! k = Some l -> relinked p p' id (without id (inactive_locks p)) (held_lists p id timed k l) (held_view timed k) -> wl_ok p'.
Proof.
  intros Hp Hid HL Ety Hk R. pose proof (lookup_lt_Some _ _ _ Hk) as Hlt.
  assert (forall j m, held_lists p id timed k l !! j = Some m -> j = k /\ m = put_in id timed (without id l) \/
    j <> k /\ exists m', active_wake_locks p !! j = Some m' /\ m = without id m') as Hlk.
  { intros j m. unfold held_lists. rewrite list_lookup_insert_Some, length_fmap. intros [(<- & <- & _)|[? H]]; [now left|right].
    split; [done|]. apply lookup_without in H as (m' & ? & ->). eauto. }
  assert (forall x, x ∈ put_in id timed (without id l) <-> x = id \/ x ∈ l /\ x <> id) as Hput.
  { intros x. unfold put_in. destruct timed; rewrite ?elem_of_app, ?list_elem_of_singleton, ?elem_of_cons, elem_without; tauto. }
  assert (concat (held_lists p id timed k l) ≡ₚ id :: without id (concat (active_wake_locks p))) as Hperm.
  { unfold held_lists. rewrite <- concat_without. apply concat_insert_perm with (l := without id l); [rewrite list_lookup_fmap, Hk; done|].
    unfold put_in. destruct timed; [now rewrite <- Permutation_cons_append|done]. }
  eapply (wl_ok_relinked p p' id _ _ _ Hp Hid R).
  - exists true, timed, (Z.of_nat k). split; [done|]. intros L0 HL0. congruence.
  - unfold held_lists. rewrite length_insert, length_fmap. apply (wo_two p Hp).
  - rewrite Hperm. rewrite <- Permutation_middle, <- without_app. constructor; [rewrite elem_without; tauto|]. apply list.NoDup_filter, (wo_nodup p Hp).
  - intros x. rewrite Hperm, <- Permutation_middle, <- without_app, elem_of_cons, elem_without. unfold linked_locks in *. destruct (decide (x = id)) as [->|]; tauto.
  - intros x [? _]%elem_without _. done.
  - intros j m x Hj Hx Hne. destruct (Hlk j m Hj) as [[-> ->]|[_ (m' & Hm & ->)]].
    + apply Hput in Hx as [|[Hx _]]; [done|]. eauto.
    + apply elem_without in Hx as [Hx _]. eauto.
  - intros [_ ?]%elem_without. done.
  - intros j m Hj Hx. destruct (Hlk j m Hj) as [[-> ->]|[_ (m' & Hm & ->)]]; [now exists timed|]. apply elem_without in Hx as [_ ?]. done.
  - intros j m Hj. destruct (Hlk j m Hj) as [[-> ->]|[_ (m' & Hm & ->)]]; [|eapply without_order; eauto].
    pose proof (without_order p p' id _ _ _ k l Hp R Hk) as Hs. destruct (rl_self _ _ _ _ _ _ R) as (L' & HL' & Hv).
    assert (auto p' id = timed) as Hau by (unfold auto; rewrite HL'; now apply (view_bit10 _ _ _ _ _ Hv)).
    unfold put_in. destruct timed.
    + apply StronglySorted_app. split; [|split; [done|repeat constructor]]. intros x y _ ->%list_elem_of_singleton _. done.
    + constructor; [done|]. apply List.Forall_forall. intros y _ H. congruence.
Qed.

(** The lock is on the list of its type, with its flags and its expiry. *)
Record held (p p' : power) (id : Z) (k : nat) (l : list Z) (timed : bool) (e : Z) : Prop := {
  hd_link : relinked p p' id (without id (inactive_locks p)) (held_lists p id timed k l) (held_view timed k);
  hd_expires : exists L', locks p' !! id = Some L' /\ expires L' = e
}.

Definition hold (id timeout : Z) (k : nat) (timed was_active : bool) (j : Z) : PM unit :=
  (if negb was_active then
     set_flags id (fun f => Z.lor f WAKE_LOCK_ACTIVE);;
     t ← ktime_get;
     set_stat id (fun s => Stat (count s) (expire_count s) (wakeup_count s) (total_time s) (prevent_suspend_time s) (max_time s) t)
   else mret tt);;
  list_del id;;
  (if timed : bool then
     set_expires id (u32 (j + timeout));;
     set_flags id (fun f => Z.lor f WAKE_LOCK_AUTO_EXPIRE);;
     list_add_tail_active id (Z.of_nat k)
   else
     set_expires id LONG_MAX;;
     set_flags id (fun f => Z.land f (lnot32 WAKE_LOCK_AUTO_EXPIRE));;
     list_add_active id (Z.of_nat k)).

(** The first part: the lock is active, its link untouched. *)
Lemma activate_ok p id L b2 ty : locks p !! id = Some L -> view (flags L) = (Z.testbit (flags L) 9, b2, true, ty) ->
  runs (if negb (Z.testbit (flags L) 9) then
      set_flags id (fun f => Z.lor f WAKE_LOCK_ACTIVE);;
      t ← ktime_get;
      set_stat id (fun s => Stat (count s) (expire_count s) (wakeup_count s) (total_time s) (prevent_suspend_time s) (max_time s) t)
    else mret tt) p (fun _ p' => relinked p p' id (inactive_locks p) (active_wake_locks p) (true, b2, true, ty)).
Proof.
  intros HL Hv. destruct (Z.testbit (flags L) 9) eqn:E9; cbn [negb].
  - apply runs_ret. split; try done. eauto.
  - apply runs_bind. eapply runs_eq; [apply set_flags_eq; exact HL|]. set (p1 := with_lists _ _ _ _).
    assert (relinked p p1 id (inactive_locks p) (active_wake_locks p) (true, b2, true, ty)) as R.
    { split; try done; cbn.
      - intros x Hx. now rewrite lookup_insert_ne.
      - eexists. rewrite lookup_insert_eq. split; [done|]. cbn [flags]. rewrite view_activate.
        now rewrite (view_bit10 _ _ _ _ _ Hv), (view_bit8 _ _ _ _ _ Hv), (view_type _ _ _ _ _ Hv). }
    eapply runs_mono; [apply (calmly_bind ktime_get)|].
    + apply calmly_ktime.
    + intros t q Hc. apply calmly_stat. eapply calm_live; [exact Hc|]. eexists. cbn. apply lookup_insert_eq.
    + intros [] q Hc. cbv beta in Hc. eapply relinked_calm; eauto.
Qed.

Lemma hold_ok p id L k l b2 timeout timed j : wl_ok p -> id ∈ linked_locks p -> locks p !! id = Some L ->
  view (flags L) = (Z.testbit (flags L) 9, b2, true, Z.of_nat k) -> active_wake_locks p !! k = Some l ->
  runs (hold id timeout k timed (Z.testbit (flags L) 9) j) p (fun _ p' => wl_ok p' /\ held p p' id k l timed (if timed then u32 (j + timeout) else LONG_MAX)).
Proof.
  intros Hp Hid HL Hv Hk. unfold hold. apply runs_bind. eapply runs_mono; [now apply (activate_ok p id L b2 (Z.of_nat k))|].
  intros [] p1 R. cbv beta in R. pose proof R as [R1 (L1 & HL1 & Hv1) R3 R4 R5 R6 R7 R8].
  apply runs_bind. eapply runs_eq; [apply list_del_eq; unfold linked_locks; rewrite R3, R4; exact Hid|]. set (p2 := with_lists p1 _ _ _).
  assert (active_wake_locks p2 !! k = Some (without id l)) as Hk2 by (cbn; rewrite R4, list_lookup_fmap, Hk; done).
  set (e := if timed then u32 (j + timeout) else LONG_MAX).
  set (g := fun f => if timed then Z.lor f WAKE_LOCK_AUTO_EXPIRE else Z.land f (lnot32 WAKE_LOCK_AUTO_EXPIRE)).
  assert (view (g (flags L1)) = held_view timed k) as Hg.
  { unfold g, held_view. destruct timed; [rewrite view_timed|rewrite view_untimed];
      now rewrite (view_bit9 _ _ _ _ _ Hv1), (view_bit8 _ _ _ _ _ Hv1), (view_type _ _ _ _ _ Hv1). }
  set (L3 := Lock (g (flags L1)) (name L1) e (stat L1)).
  set (p4 := with_lists p2 (<[id := L3]> (locks p2)) (inactive_locks p2) (held_lists p id timed k l)).
  assert (relinked p p4 id (without id (inactive_locks p)) (held_lists p id timed k l) (held_view timed k)) as R'.
  { split; cbn; try done; try congruence.
    - intros x Hx. rewrite lookup_insert_ne by done. now apply R1.
    - exists L3. rewrite lookup_insert_eq. done. }
  assert (wl_ok p4 /\ held p p4 id k l timed e) as Hend.
  { split; [eapply wl_ok_held; eauto; now apply (view_type _ _ _ _ _ Hv)|]. split; [done|]. exists L3. cbn. now rewrite lookup_insert_eq. }
  assert (locks p2 !! id = Some L1) as HL2 by done.
  set (p3 := with_lists p2 (<[id := L3]> (locks p2)) (inactive_locks p2) (active_wake_locks p2)).
  assert (active_wake_locks p3 !! k = Some (without id l)) as Hk3 by (cbn; cbn in Hk2; exact Hk2).
  pose proof (list_add_eq p3 id k (without id l) timed Hk3) as Eadd.
  assert (<[k := put_in id timed (without id l)]> (active_wake_locks p3) = held_lists p id timed k l) as El by (cbn; unfold held_lists; now rewrite R4).
  rewrite El in Eadd.
  destruct timed; (apply runs_bind; eapply runs_eq; [apply set_expires_eq; exact HL2|]; apply runs_bind;
    eapply runs_eq; [apply set_flags_eq; cbn; apply lookup_insert_eq|]; eapply runs_eq; [|exact Hend]).
  - cbn in Eadd |- *. rewrite insert_insert_eq. exact Eadd.
  - cbn in Eadd |- *. rewrite insert_insert_eq. exact Eadd.
Qed.
