(* ===== verification/WakelockSteps.v ===== *)
(** Wake locks: which calls keep the system awake, and what keeps a suspend from
    being forgotten. *)

From stdpp Require Import gmap sorting.
From S2P Require Import Prelude.
From S2P Require Import Ring State Wakelock WakelockInv WakelockOps.

(** * What keeps the system awake *)

Definition suspend_list (p : power) : list Z := default [] (active_wake_locks p !! 0%nat).
(** The lock keeps the system awake: held for good, or its time is not over. *)
Definition blocks (p : power) (x : Z) : Prop := x ∈ suspend_list p /\ (auto p x = false \/ 0 < remaining p x).
(** Locks that were not touched go on blocking, with a timeout or for good as
    before, and inactive ones stay so. *)
Definition still (p p' : power) (touched : Z -> Prop) : Prop := forall x, ~ touched x ->
  (blocks p x -> blocks p' x /\ auto p' x = auto p x) /\ (x ∈ inactive_locks p -> x ∈ inactive_locks p').
Definition untouched (_ : Z) : Prop := False.

(** A suspend is under way, is on the queue, or will be put there by the timer,
    unless a lock is held for good. *)
Definition time_to_run (p : power) (e : Z) : Z := s32 (e - jiffies p).
Definition timer_covers (p : power) : Prop := exists e, expire_timer p = Some e /\
  forall x, x ∈ suspend_list p -> remaining p x <= time_to_run p e /\ (0 <= time_to_run p e -> time_to_run p e - remaining p x <= 2 ^ 31 - 2).
Definition covered (p : power) (run : option Z) : Prop :=
  (exists x, x ∈ suspend_list p /\ auto p x = false) \/ timer_covers p \/
  suspend_list p = [] /\ (suspend_work p = true \/ run = Some (current_event_num p)).

Lemma suspend_list_eq p l : active_wake_locks p !! 0%nat = Some l -> suspend_list p = l.
Proof. unfold suspend_list. now intros ->. Qed.
Lemma suspend_list_lookup p : wl_ok p -> active_wake_locks p !! 0%nat = Some (suspend_list p).
Proof. intros Hp. destruct (two_lists p Hp) as (s & d & E). unfold suspend_list. now rewrite E. Qed.

Lemma still_refl p T : still p p T.
Proof. now intros x. Qed.
Lemma still_trans p1 p2 p3 T : still p1 p2 T -> still p2 p3 T -> still p1 p3 T.
Proof.
  intros A B x Hx. destruct (A x Hx) as [A1 A2], (B x Hx) as [B1 B2]. split; [|auto]. intros Hb. destruct (A1 Hb) as [Hb' Ea].
  destruct (B1 Hb') as [? ?]. split; [done|congruence].
Qed.
Lemma still_weaken p p' T : still p p' untouched -> still p p' T.
Proof. intros H x _. apply H. tauto. Qed.

(** What [blocks] and [covered] look at. *)
Record alike (p p' : power) : Prop := {
  ak_locks : forall x, x ∈ suspend_list p -> core <$> locks p' !! x = core <$> locks p !! x;
  ak_list : suspend_list p' = suspend_list p;
  ak_jiffies : jiffies p' = jiffies p
}.

Lemma alike_still p p' T : alike p p' -> (forall x, ~ T x -> x ∈ inactive_locks p -> x ∈ inactive_locks p') -> still p p' T.
Proof.
  intros [A1 A2 A3] Hi x HT. split; [|auto]. intros [Hx Hb]. unfold blocks. rewrite A2, (core_auto p p' x), (core_remaining p p' x) by auto. done.
Qed.

Lemma alike_covered p p' run : alike p p' -> expire_timer p' = expire_timer p -> suspend_work p' = suspend_work p -> current_event_num p' = current_event_num p ->
  covered p run -> covered p' run.
Proof.
  intros [A1 A2 A3] Et Ew Ee. unfold covered, timer_covers, time_to_run. rewrite A2, A3, Et, Ew, Ee. intros [(x & Hx & Ha)|[(e & He & H)|H]].
  - left. exists x. split; [done|]. now rewrite (core_auto p p' x) by auto.
  - right. left. exists e. split; [done|]. intros x Hx. rewrite (core_remaining p p' x) by auto. auto.
  - right. now right.
Qed.

Lemma calm_alike p p' : calm p p' -> alike p p'.
Proof. intros [C1 C2 C3 C4 C5 C6 C7]. split; [auto|unfold suspend_list; now rewrite C3|done]. Qed.

Lemma wl_ok_ext p p' : locks p' = locks p -> inactive_locks p' = inactive_locks p -> active_wake_locks p' = active_wake_locks p -> wl_ok p -> wl_ok p'.
Proof. destruct p, p'. cbn. intros -> -> -> [H1 H2 H3 H4 H5 H6 H7 Hsy H8 H9]. split; assumption. Qed.

(** * The scan, the timer and the work *)

Definition with_pending (p : power) (t : option Z) (w : bool) : power :=
  Power (locks p) (inactive_locks p) (active_wake_locks p) (current_event_num p) (last_sleep_time_update p) (wait_for_wakeup p)
    t w (jiffies p) (kclock p) (kdelays p) (coarse p).

Lemma arm_eq e p : arm_expire e p = Ok (tt,
  if 0 <? e then with_pending p (Some (u32 (jiffies p + e))) (suspend_work p) else with_pending p None ((e =? 0) || suspend_work p)).
Proof. unfold arm_expire. destruct (0 <? e); [done|]. now destruct (e =? 0). Qed.

Lemma pending_alike p t w : alike p (with_pending p t w).
Proof. now split. Qed.
Lemma pending_still p t w T : still p (with_pending p t w) T.
Proof. now apply alike_still. Qed.

Lemma longest_zero p l : longest p l 0 0 -> filter (unexpired p) l = [].
Proof.
  intros (_ & H & _). destruct (filter (unexpired p) l) as [|x k] eqn:E; [done|]. exfalso.
  assert (x ∈ filter (unexpired p) l) as Hx by (rewrite E; left). apply list_elem_of_filter in Hx as [Hu Hx]. specialize (H x Hx). unfold unexpired in Hu. lia.
Qed.

Lemma longest_pos p l ret : longest p l 0 ret -> 0 < ret -> exists x, x ∈ filter (unexpired p) l /\ remaining p x = ret.
Proof. intros (_ & _ & [->|(x & Hx & E)]) Hr; [lia|]. exists x. split; [|done]. apply list_elem_of_filter. split; [unfold unexpired; lia|done]. Qed.

(** The state after a scan of the suspend locks. *)
Record scanned_ok (p : power) (ret : Z) (p' : power) : Prop := {
  so_ok : wl_ok p';
  so_still : still p p' untouched;
  so_sub : forall x, x ∈ suspend_list p' -> x ∈ suspend_list p;
  so_same : forall x, x ∈ suspend_list p' -> auto p' x = auto p x /\ remaining p' x = remaining p x;
  so_perm : ret = -1 <-> exists x, x ∈ suspend_list p' /\ auto p' x = false;
  so_left : ret <> -1 -> 0 <= ret < 2 ^ 31 /\ (forall x, x ∈ suspend_list p' -> 0 < remaining p' x <= ret) /\
    (ret = 0 /\ suspend_list p' = [] \/ exists x, x ∈ suspend_list p' /\ remaining p' x = ret);
  so_timer : expire_timer p' = expire_timer p;
  so_work : suspend_work p' = suspend_work p;
  so_event : current_event_num p' = current_event_num p;
  so_jiffies : jiffies p' = jiffies p;
  so_types : keeps_types p p'
}.

Lemma scanned_kept p p' (l : list Z) x : NoDup l -> scanned p p' 0 (filter (unexpired p) l) (filter (fun x => ~ unexpired p x) l) -> unexpired p x ->
  auto p' x = auto p x /\ remaining p' x = remaining p x.
Proof.
  intros Hn S Hx. assert (x ∉ filter (fun x => ~ unexpired p x) l) as Hg by (rewrite list_elem_of_filter; tauto).
  split; [eapply sc_auto|eapply sc_remaining]; eauto.
Qed.

Lemma suspend_scan_ok p : wl_ok p -> runs (has_wake_lock_locked WAKE_LOCK_SUSPEND) p (scanned_ok p).
Proof.
  intros Hp. pose proof (suspend_list_lookup p Hp) as Hk. eapply runs_mono; [exact (has_ok p 0 _ Hp Hk)|].
  intros ret p' [((x & Hx & Ha) & -> & ->)|(Hall & S & Hl)].
  { split; try done; [|now intros y]. split; [intros _; eauto|done]. }
  pose proof (suspend_list_eq p' _ (sc_kept _ _ _ _ _ S)) as El.
  destruct (list_nodup p 0 _ Hp Hk) as (N1 & _ & _).
  assert (forall x, unexpired p x -> auto p' x = auto p x /\ remaining p' x = remaining p x) as Hsame by (intros; eapply scanned_kept; eauto).
  pose proof (proj1 Hl) as Hr.
  split; try apply S.
  - intros x _. split; [|intros Hx; apply (sc_gone _ _ _ _ _ S); now left]. intros [Hx Hb]. assert (unexpired p x) as Hu. { destruct Hb as [Hb|Hb]; [|done]. rewrite Hall in Hb; done. }
    destruct (Hsame x Hu) as [Ea Er]. unfold blocks. rewrite Ea, Er, El. split; [|done]. split; [now apply list_elem_of_filter|done].
  - intros x Hx. rewrite El in Hx. now apply list_elem_of_filter in Hx as [_ Hx].
  - intros x Hx. rewrite El in Hx. apply list_elem_of_filter in Hx as [Hu _]. auto.
  - split; [intros ->; lia|]. intros (x & Hx & Ha). rewrite El in Hx. apply list_elem_of_filter in Hx as [Hu Hx]. destruct (Hsame x Hu) as [Ea _].
    rewrite Ea, Hall in Ha; done.
  - intros _. split; [lia|]. rewrite El. split.
    + intros x [Hu Hx]%list_elem_of_filter. destruct (Hsame x Hu) as [_ ->]. split; [done|]. now apply Hl.
    + destruct (Z.eq_dec ret 0) as [->|]; [left; split; [done|now apply longest_zero]|right].
      destruct (longest_pos p _ ret Hl ltac:(lia)) as (x & Hx & E). exists x. split; [done|].
      apply list_elem_of_filter in Hx as [Hu _]. destruct (Hsame x Hu) as [_ ->]. done.
Qed.

(** A scan leaves a covered state covered. *)
Lemma scanned_covered p p' ret run : scanned_ok p ret p' -> covered p run -> covered p' run.
Proof.
  intros S Hc. destruct (Z.eq_dec ret (-1)) as [E|Hne]; [left; now apply (so_perm _ _ _ S)|].
  destruct Hc as [(x & Hx & Ha)|[(e & Ht & H)|(H & Hw)]].
  - left. exists x. destruct (so_still _ _ _ S x) as [Hst _]; [intros []|]. destruct Hst as [[Hx' _] Ea]; [now split; [|left]|]. split; [done|congruence].
  - right. left. exists e. unfold time_to_run. rewrite (so_timer _ _ _ S), (so_jiffies _ _ _ S). split; [done|]. intros x Hx.
    rewrite (proj2 (so_same _ _ _ S x Hx)). now apply H, (so_sub _ _ _ S).
  - right. right. rewrite (so_work _ _ _ S), (so_event _ _ _ S). split; [|done]. destruct (suspend_list p') as [|x k] eqn:E; [done|]. exfalso.
    assert (x ∈ suspend_list p) as Hx by (apply (so_sub _ _ _ S); rewrite E; left). rewrite H in Hx. set_solver.
Qed.

Lemma s32_later j e : 0 <= e < 2 ^ 31 -> s32 (u32 (j + e) - j) = e.
Proof.
  intros He. destruct (u32_cases (j + e)) as [k ->]. replace (j + e - k * 2 ^ 32 - j) with (e + - k * 2 ^ 32) by lia.
  unfold s32. replace (e + - k * 2 ^ 32 + 2 ^ 31) with (e + 2 ^ 31 + - k * 2 ^ 32) by lia. rewrite Z.mod_add by lia. rewrite Z.mod_small; lia.
Qed.

(** A scan whose result sets the timer or queues the work. *)
Definition rearm : PM unit := h ← has_wake_lock_locked WAKE_LOCK_SUSPEND; arm_expire h.

Record rearmed (p p' : power) : Prop := {
  ra_ok : wl_ok p';
  ra_covered : forall run, covered p' run;
  ra_still : still p p' untouched;
  ra_jiffies : jiffies p' = jiffies p;
  ra_types : keeps_types p p'
}.

Lemma rearm_ok p : wl_ok p -> runs rearm p (fun _ p' => rearmed p p').
Proof.
  intros Hp. apply runs_bind. eapply runs_mono; [exact (suspend_scan_ok p Hp)|]. intros ret p1 S. eapply runs_eq; [apply arm_eq|].
  set (p2 := if _ : bool then _ else _).
  assert (alike p1 p2 /\ wl_ok p2 /\ inactive_locks p2 = inactive_locks p1 /\ keeps_types p1 p2) as (A & Hp2 & Ei & Et).
  { unfold p2. destruct (0 <? ret); (split; [apply pending_alike|]; split; [|split; [done|now intros y]]); eapply wl_ok_ext; try apply S; done. }
  split; [done| | | |].
  - intros run. pose proof A as [A1 A2 A3]. destruct (Z.eq_dec ret (-1)) as [E|Hne].
    + apply (so_perm _ _ _ S) in E as (x & Hx & Ha). left. exists x. rewrite A2, (core_auto p1 p2 x) by auto. done.
    + destruct (so_left _ _ _ S Hne) as (Hr & Hl & He). right. unfold p2. destruct (Z.ltb_spec 0 ret).
      * left. exists (u32 (jiffies p1 + ret)). split; [done|]. unfold time_to_run. cbn [jiffies with_pending]. rewrite s32_later by lia.
        intros x Hx. change (remaining (with_pending _ _ _) x) with (remaining p1 x). specialize (Hl x Hx). lia.
      * right. assert (ret = 0) as -> by lia. split; [|now left]. destruct He as [[_ He]|(x & Hx & E)]; [exact He|]. specialize (Hl x Hx). lia.
  - eapply still_trans; [apply S|]. apply alike_still; [done|]. intros x _. now rewrite Ei.
  - rewrite (ak_jiffies _ _ A). apply S.
  - eapply keeps_types_trans; [apply S|done].
Qed.

(** * Calls *)

(** What a call promises: the state stays consistent and covered, and the locks
    it is not about keep blocking. *)
Record fine (p p' : power) (T : Z -> Prop) : Prop := {
  fn_ok : wl_ok p';
  fn_covered : forall run, covered p run -> covered p' run;
  fn_still : still p p' T;
  fn_jiffies : jiffies p' = jiffies p;
  fn_types : keeps_types p p'
}.

Lemma fine_calm p1 p2 p3 T : fine p1 p2 T -> calm p2 p3 -> fine p1 p3 T.
Proof.
  intros [F1 F2 F3 F4 F5] C. pose proof C as [C1 C2 C3 C4 C5 C6 C7]. split.
  - eapply wl_ok_calm; eauto.
  - intros run Hc. eapply alike_covered; eauto using calm_alike.
  - eapply still_trans; [done|]. apply alike_still; [now apply calm_alike|]. intros x _. now rewrite C2.
  - congruence.
  - eapply keeps_types_trans; [done|now apply calm_types].
Qed.

Lemma relinked_still p p' id i a v : relinked p p' id i a v -> (forall x, x <> id -> x ∈ suspend_list p -> x ∈ suspend_list p') ->
  (forall x, x <> id -> x ∈ inactive_locks p -> x ∈ inactive_locks p') -> still p p' (fun x => x = id).
Proof.
  intros R H Hi x Hx. split; [|auto]. intros [Hin Hb]. unfold blocks. rewrite (core_auto p p' x), (core_remaining p p' x) by (now apply R). auto.
Qed.

(** A lock of the other type is not among the suspend locks. *)
Lemma other_type p id L k : wl_ok p -> locks p !! id = Some L -> Z.land (flags L) WAKE_LOCK_TYPE_MASK = Z.of_nat k -> k <> 0%nat -> id ∉ suspend_list p.
Proof.
  intros Hp HL Et Hk Hin. destruct (wo_held p Hp 0 _ id (suspend_list_lookup p Hp) Hin) as (L' & b & HL' & Hv). simplify_eq.
  apply view_type in Hv. lia.
Qed.

(** Moving it does not change what keeps the system awake. *)
Lemma relinked_fine p p' id i a v : wl_ok p' -> relinked p p' id i a v -> (id ∉ suspend_list p) -> suspend_list p' = suspend_list p ->
  (forall x, x <> id -> x ∈ inactive_locks p -> x ∈ inactive_locks p') -> keeps_types p p' -> fine p p' (fun x => x = id).
Proof.
  intros Hp' R Hid El Hi Hty. pose proof R as [R1 R2 R3 R4 R5 R6 R7 R8]. assert (alike p p') as A.
  { split; [|done|done]. intros x Hx. apply R1. congruence. }
  split; [done| | |done|done].
  - intros run. now apply alike_covered.
  - now apply alike_still.
Qed.

Lemma moved_list p p' id ty : wl_ok p -> moved p p' id ty -> suspend_list p' = without id (suspend_list p).
Proof.
  intros Hp R. apply suspend_list_eq. rewrite (rl_active _ _ _ _ _ _ R), list_lookup_fmap, (suspend_list_lookup p Hp). done.
Qed.

Lemma held_list p p' id k l timed e : wl_ok p -> active_wake_locks p !! k = Some l -> held p p' id k l timed e ->
  suspend_list p' = if decide (k = 0%nat) then put_in id timed (without id (suspend_list p)) else without id (suspend_list p).
Proof.
  intros Hp Hk [R _]. pose proof (suspend_list_lookup p Hp) as H0. pose proof (lookup_lt_Some _ _ _ H0) as Hlt. apply suspend_list_eq.
  rewrite (rl_active _ _ _ _ _ _ R). unfold held_lists. destruct (decide (k = 0%nat)) as [->|Hne].
  - rewrite list_lookup_insert_eq by (now rewrite length_fmap). congruence.
  - rewrite list_lookup_insert_ne by done. now rewrite list_lookup_fmap, H0.
Qed.

Lemma seq4 {S A B C D} (a : ST S A) (b : ST S B) (c : ST S C) (d : ST S D) s Q : runs ((a;; b;; c);; d) s Q -> runs (a;; b;; c;; d) s Q.
Proof.
  unfold runs, mbind, ST_bind. destruct (a s) as [[x1 s1]|]; [|done]. destruct (b s1) as [[x2 s2]|]; [|done]. now destruct (c s2) as [[x3 s3]|].
Qed.

Lemma wake_unlock_seq id p Q L : locks p !! id = Some L ->
  runs (release id false;; if Z.land (flags L) WAKE_LOCK_TYPE_MASK =? WAKE_LOCK_SUSPEND then
      rearm;; if id =? main_wake_lock then update_sleep_wait_stats_locked false else mret tt
    else mret tt) p Q -> runs (wake_unlock id) p Q.
Proof.
  intros HL H. unfold wake_unlock, rearm, release in *. apply runs_bind. eapply runs_eq; [apply lock_at_eq; exact HL|]. cbv zeta.
  destruct (Z.eqb_spec (Z.land (flags L) WAKE_LOCK_TYPE_MASK) WAKE_LOCK_SUSPEND) as [E|]; [rewrite E|];
    revert H; unfold runs, mbind, ST_bind;
    (destruct (wake_unlock_stat_locked id false p) as [[? p1]|]; [|done]); (destruct (set_flags _ _ p1) as [[? p2]|]; [|done]);
    (destruct (list_del id p2) as [[? p3]|]; [|done]); (destruct (list_add_inactive id p3) as [[? p4]|]; [|done]); try done.
  destruct (has_wake_lock_locked _ p4) as [[? p5]|]; done.
Qed.

Lemma calmly_update b p : wl_ok p -> calmly (update_sleep_wait_stats_locked b) p.
Proof.
  intros Hp. apply calmly_bind; [apply calmly_ktime|]. intros now q Hc. pose proof (wl_ok_calm p q Hp Hc) as Hq. apply runs_gets.
  apply runs_bind. eapply runs_eq.
  { unfold active_of, gets, lift, rd, mbind, ST_bind. change (Z.to_nat WAKE_LOCK_SUSPEND) with 0%nat. rewrite (suspend_list_lookup q Hq). reflexivity. }
  apply calmly_bind; [apply calmly_sleep_stats|intros; calmly_run].
  intros x Hx. destruct (wo_held q Hq 0 _ x (suspend_list_lookup q Hq) Hx) as (L & ? & HL & _). now exists L.
Qed.

Lemma idle_not_suspend p id : wl_ok p -> id ∈ inactive_locks p -> id ∉ suspend_list p.
Proof. intros Hp Hi Hx. destruct (list_nodup p 0 _ Hp (suspend_list_lookup p Hp)) as (_ & _ & N). now apply (N id). Qed.

Lemma fine_rearmed p p1 p2 T : still p p1 T -> jiffies p1 = jiffies p -> keeps_types p p1 -> rearmed p1 p2 -> fine p p2 T.
Proof.
  intros Hs Hj Ht [R1 R2 R3 R4 R5]. split; [done|auto| |congruence|eapply keeps_types_trans; eauto].
  eapply still_trans; [done|]. now apply still_weaken.
Qed.

Lemma calm_inactive p p' x : calm p p' -> x ∈ inactive_locks p -> x ∈ inactive_locks p'.
Proof. intros [_ -> _ _ _ _ _]. done. Qed.

Lemma unlock_ok p id : wl_ok p -> id ∈ linked_locks p ->
  runs (wake_unlock id) p (fun _ p' => fine p p' (fun x => x = id) /\ id ∈ inactive_locks p').
Proof.
  intros Hp Hid. destruct (linked_bits p id Hp Hid) as (L & b1 & b2 & ty & HL & Hv & Hty). pose proof (view_type _ _ _ _ _ Hv) as Et.
  apply (wake_unlock_seq id p _ L HL). apply runs_bind. eapply runs_mono; [exact (unheld_ok p id L false Hp Hid HL)|].
  intros [] p1 [Hp1 R]. pose proof (moved_list p p1 id _ Hp R) as El.
  assert (id ∈ inactive_locks p1) as Hin by (rewrite (rl_inactive _ _ _ _ _ _ R); left).
  assert (forall x, x <> id -> x ∈ inactive_locks p -> x ∈ inactive_locks p1) as Hkeep.
  { intros x Hx Hi. rewrite (rl_inactive _ _ _ _ _ _ R). right. now apply elem_without. }
  assert (still p p1 (fun x => x = id)) as Hst.
  { eapply relinked_still; [exact R| |exact Hkeep]. intros x Hx Hi. rewrite El. now apply elem_without. }
  assert (keeps_types p p1) as Hty' by (eapply relinked_types; [exact R|]; intros L0 HL0; congruence).
  rewrite Et. destruct (Z.eqb_spec ty WAKE_LOCK_SUSPEND) as [->|Hne].
  - apply runs_bind. eapply runs_mono; [exact (rearm_ok p1 Hp1)|]. intros [] p2 Ra. cbv beta in Ra.
    pose proof (fine_rearmed p p1 p2 _ Hst (rl_jiffies _ _ _ _ _ _ R) Hty' Ra) as F. assert (id ∈ inactive_locks p2) as Hin2 by (apply (ra_still _ _ Ra id); [intros []|done]).
    destruct (id =? main_wake_lock); [|now apply runs_ret].
    eapply runs_mono; [apply calmly_update; apply Ra|]. intros [] p3 C. cbv beta in C. split; [eapply fine_calm; eauto|eapply calm_inactive; eauto].
  - apply runs_ret. split; [|done]. assert (id ∉ suspend_list p) as Hns.
    { apply (other_type p id L (Z.to_nat ty) Hp HL); unfold WAKE_LOCK_SUSPEND in *; lia. }
    eapply relinked_fine; eauto. now rewrite El, without_fresh.
Qed.

(** What [wake_lock_internal] does once the lock is on its list. *)
Definition lock_tail (id type : Z) (timed : bool) : PM unit :=
  if type =? WAKE_LOCK_SUSPEND then
    n ← gets current_event_num;
    set_event (s32 (n + 1));;
    (if id =? main_wake_lock then update_sleep_wait_stats_locked true
     else b ← wake_lock_active main_wake_lock;
          if negb b then update_sleep_wait_stats_locked false else mret tt);;
    expire_in ← (if timed : bool then has_wake_lock_locked type else mret (-1));
    arm_expire expire_in
  else mret tt.

(** A state whose locks and lists are those of a rearmed one. *)
Lemma rearmed_before p p1 p2 : rearmed p1 p2 -> still p p1 untouched -> jiffies p1 = jiffies p -> keeps_types p p1 -> rearmed p p2.
Proof.
  intros [R1 R2 R3 R4 R5] Hs Hj Ht. split; [done|done|eapply still_trans; eauto|congruence|eapply keeps_types_trans; eauto].
Qed.

Lemma calmly_lock_stats p id : wl_ok p -> calmly (if id =? main_wake_lock then update_sleep_wait_stats_locked true
     else b ← wake_lock_active main_wake_lock;
          if negb b then update_sleep_wait_stats_locked false else mret tt) p.
Proof.
  intros Hp. destruct (id =? main_wake_lock); [now apply calmly_update|]. apply calmly_bind.
  - destruct (wo_main p Hp) as (L & _ & _ & HL & _). apply calmly_bind; [apply calmly_lock; now exists L|]. intros. apply calmly_ret.
  - intros b q C. destruct (negb b); [|apply calmly_ret]. apply calmly_update. eapply wl_ok_calm; eauto.
Qed.

Lemma lock_tail_ok p id timed : wl_ok p -> (timed = false -> id ∈ suspend_list p /\ auto p id = false) ->
  runs (lock_tail id WAKE_LOCK_SUSPEND timed) p (fun _ p' => rearmed p p').
Proof.
  intros Hp Hn. unfold lock_tail. cbn [Z.eqb]. rewrite Z.eqb_refl. apply runs_gets. apply runs_bind. apply runs_modify.
  set (p1 := Power _ _ _ _ _ _ _ _ _ _ _ _). assert (wl_ok p1) as Hp1 by (eapply wl_ok_ext; [..|exact Hp]; done).
  apply runs_bind. eapply runs_mono; [now apply calmly_lock_stats|]. intros [] p2 C. cbv beta in C. pose proof (wl_ok_calm _ _ Hp1 C) as Hp2.
  pose proof C as [C1 C2 C3 C4 C5 C6 C7]. assert (alike p p2) as A.
  { destruct (calm_alike p1 p2 C) as [A1 A2 A3]. now split. }
  assert (still p p2 untouched) as Hs by (apply alike_still; [done|]; intros x _; now rewrite C2).
  assert (keeps_types p p2) as Ht2 by exact (calm_types p1 p2 C).
  destruct timed.
  - eapply runs_mono; [exact (rearm_ok p2 Hp2)|]. intros [] p3 Ra. cbv beta in Ra. now apply (rearmed_before p p2 p3).
  - destruct (Hn eq_refl) as [Hin Ha]. apply runs_bind, runs_ret. eapply runs_eq; [apply arm_eq|]. cbn [Z.ltb Z.compare Z.eqb orb].
    set (p3 := with_pending _ _ _). apply (rearmed_before p p2 p3); try done. split; try done.
    + eapply wl_ok_ext; [..|exact Hp2]; done.
    + intros run. left. exists id. change (suspend_list p3) with (suspend_list p2). change (auto p3 id) with (auto p2 id).
      rewrite (ak_list _ _ A), (core_auto p p2) by (now apply (ak_locks _ _ A)). done.
    + now intros y.
Qed.

Lemma held_still p p' id k l timed e : wl_ok p -> active_wake_locks p !! k = Some l -> held p p' id k l timed e -> still p p' (fun x => x = id).
Proof.
  intros Hp Hk H. eapply relinked_still; [apply H| |intros x Hx Hin; rewrite (rl_inactive _ _ _ _ _ _ (hd_link _ _ _ _ _ _ _ H)); now apply elem_without].
  intros x Hx Hin. rewrite (held_list p p' id k l timed e Hp Hk H).
  destruct (decide (k = 0%nat)); unfold put_in; [destruct timed|]; rewrite ?elem_of_app, ?elem_of_cons, elem_without; tauto.
Qed.

(** The lock itself blocks at once. *)
Lemma held_blocks p p' id l timed timeout : wl_ok p -> active_wake_locks p !! 0%nat = Some l ->
  held p p' id 0 l timed (if timed : bool then u32 (jiffies p + timeout) else LONG_MAX) -> timed = false \/ 0 < timeout < 2 ^ 31 -> blocks p' id.
Proof.
  intros Hp Hk H Ht. split.
  - rewrite (held_list p p' id 0 l timed _ Hp Hk H). unfold put_in. cbn. destruct timed; set_solver.
  - destruct H as [R (L' & HL' & He)]. destruct (rl_self _ _ _ _ _ _ R) as (L & HL & Hv). simplify_eq. destruct timed.
    + right. unfold remaining. rewrite HL', He, (rl_jiffies _ _ _ _ _ _ R), s32_later; [lia|]. destruct Ht; [done|lia].
    + left. unfold auto. rewrite HL'. now apply (view_bit10 _ _ _ _ _ Hv).
Qed.

Lemma held_auto p p' id k l timed e : held p p' id k l timed e -> auto p' id = timed.
Proof. intros [R _]. destruct (rl_self _ _ _ _ _ _ R) as (L & HL & Hv). unfold auto. rewrite HL. now apply (view_bit10 _ _ _ _ _ Hv). Qed.

(** From the lock on its list to the end. *)
Lemma lock_end p p1 id k l L timed timeout : wl_ok p -> wl_ok p1 -> locks p !! id = Some L ->
  Z.land (flags L) WAKE_LOCK_TYPE_MASK = Z.of_nat k -> active_wake_locks p !! k = Some l ->
  held p p1 id k l timed (if timed : bool then u32 (jiffies p + timeout) else LONG_MAX) ->
  runs (lock_tail id (Z.of_nat k) timed) p1 (fun _ p' => fine p p' (fun x => x = id) /\ (k = 0%nat -> timed = false \/ 0 < timeout < 2 ^ 31 -> blocks p' id /\ auto p' id = timed)).
Proof.
  intros Hp Hp1 HL Et Hk H. pose proof (held_still _ _ _ _ _ _ _ Hp Hk H) as Hs.
  pose proof (held_list _ _ _ _ _ _ _ Hp Hk H) as El.
  assert (keeps_types p p1) as Hty by (eapply relinked_types; [apply H|]; intros L0 HL0; congruence). destruct k as [|k].
  - eapply runs_mono; [apply (lock_tail_ok p1 id timed Hp1)|].
    + intros ->. split; [rewrite El; left|]. apply (held_auto _ _ _ _ _ _ _ H).
    + intros [] p2 Ra. cbv beta in Ra. split; [exact (fine_rearmed p p1 p2 _ Hs (rl_jiffies _ _ _ _ _ _ (hd_link _ _ _ _ _ _ _ H)) Hty Ra)|].
      intros _ Ht. rewrite <- (held_auto _ _ _ _ _ _ _ H). apply (ra_still _ _ Ra); [intros []|]. exact (held_blocks p p1 id l timed timeout Hp Hk H Ht).
  - apply runs_ret. split; [|done]. assert (id ∉ suspend_list p) as Hns by (now apply (other_type p id L (S k) Hp HL Et)).
    eapply relinked_fine; [done|apply H|done| | |done].
    + rewrite El. cbn. now apply without_fresh.
    + intros x Hx Hin. rewrite (rl_inactive _ _ _ _ _ _ (hd_link _ _ _ _ _ _ _ H)). now apply elem_without.
Qed.

Lemma fine_from p p1 p2 T : calm p p1 -> fine p1 p2 T -> fine p p2 T.
Proof.
  intros C [F1 F2 F3 F4 F5]. pose proof C as [C1 C2 C3 C4 C5 C6 C7]. split; [done| | |congruence|eapply keeps_types_trans; [now apply calm_types|done]].
  - intros run Hc. apply F2. eapply alike_covered; eauto using calm_alike.
  - eapply still_trans; [|exact F3]. apply alike_still; [now apply calm_alike|]. intros x _. now rewrite C2.
Qed.

Lemma lock_ok p id timeout timed : wl_ok p -> id ∈ linked_locks p ->
  runs (wake_lock_internal id timeout timed) p (fun _ p' => fine p p' (fun x => x = id) /\
    (suspend_type p id -> timed = false \/ 0 < timeout < 2 ^ 31 -> blocks p' id /\ auto p' id = timed)).
Proof.
  intros Hp Hid. destruct (linked_bits p id Hp Hid) as (L & b1 & b2 & ty & HL & Hv & Hty). pose proof (view_type _ _ _ _ _ Hv) as Et.
  unfold wake_lock_internal. apply runs_bind. eapply runs_eq; [apply lock_at_eq; exact HL|]. cbv zeta. rewrite Et, flag_init, (view_bit8 _ _ _ _ _ Hv).
  cbn [negb]. destruct (Z.leb_spec WAKE_LOCK_TYPE_COUNT ty); [unfold WAKE_LOCK_TYPE_COUNT in *; lia|].
  apply runs_gets, runs_bind. assert (live_lock p id) as Hlive by now exists L.
  eapply runs_mono; [assert (calmly (if (ty =? WAKE_LOCK_SUSPEND) && negb (wait_for_wakeup p =? 0) then
     u ← gets last_sleep_time_update;
     set_sleep u 0;;
     set_stat id (fun s => Stat (count s) (expire_count s) (s32 (wakeup_count s + 1)) (total_time s) (prevent_suspend_time s) (max_time s) (last_time s))
   else mret tt) p) as Hc by calmly_run; exact Hc|].
  intros [] p1 C1. cbv beta in C1. assert (live_lock p1 id) as Hlive1 by (eapply calm_live; eauto). apply runs_gets, runs_bind.
  eapply runs_mono; [assert (calmly (if has_flag (flags L) WAKE_LOCK_AUTO_EXPIRE && (s32 (expires L - jiffies p1) <=? 0) then
     wake_unlock_stat_locked id false;;
     t ← ktime_get;
     set_stat id (fun s => Stat (count s) (expire_count s) (wakeup_count s) (total_time s) (prevent_suspend_time s) (max_time s) t)
   else mret tt) p1) as Hc; [|exact Hc]|].
  { destruct (has_flag _ _ && _); [|apply calmly_ret]. apply calmly_bind; [now apply calmly_unlock_stat|]. intros [] q C. pose proof (calm_live _ _ _ C Hlive1). calmly_run. }
  intros [] p2 C2. cbv beta in C2. assert (calm p p2) as C by (eapply calm_trans; eauto). pose proof (wl_ok_calm p p2 Hp C) as Hp2.
  destruct (calm_lock p p2 id L C HL) as (L2 & HL2 & E2).
  assert (view (flags L2) = view (flags L)) as Ev by (now apply (f_equal fst) in E2).
  rewrite flag_active. replace (Z.testbit (flags L) 9) with (Z.testbit (flags L2) 9) by (now apply (f_equal (fun v => v.1.1.1)) in Ev).
  rewrite (cm_jiffies _ _ C1), <- (cm_jiffies _ _ C). destruct (lookup_lt_is_Some_2 (active_wake_locks p2) (Z.to_nat ty)) as [l Hk]; [rewrite (wo_two p2 Hp2); lia|].
  replace ty with (Z.of_nat (Z.to_nat ty)) by lia. set (k := Z.to_nat ty) in *. assert (ty = Z.of_nat k) as Ek by lia.
  assert (id ∈ linked_locks p2) as Hid2 by (unfold linked_locks; rewrite (cm_inactive _ _ C), (cm_active _ _ C); exact Hid).
  assert (view (flags L2) = (Z.testbit (flags L2) 9, b2, true, Z.of_nat k)) as Hv2.
  { rewrite Ev in *. rewrite Hv, Ek. f_equal. f_equal. f_equal. rewrite Hv in Ev. symmetry. apply (view_bit9 _ _ _ _ _ Ev). }
  apply seq4, runs_bind. eapply runs_mono; [exact (hold_ok p2 id L2 k l b2 timeout timed (jiffies p2) Hp2 Hid2 HL2 Hv2 Hk)|].
  intros [] p3 [Hp3 H3]. cbv beta in H3. eapply runs_mono.
  { apply (lock_end p2 p3 id k l L2 timed timeout Hp2 Hp3 HL2); [apply (view_type _ _ _ _ _ Hv2)|done|done]. }
  intros [] p4 [F B]. split; [eapply fine_from; eauto|]. intros (L0 & c1 & c2 & HL0 & Hv0). apply B. simplify_eq.
  apply view_type in Hv0. unfold WAKE_LOCK_SUSPEND in *. lia.
Qed.
