(* ===== verification/WakelockCalls.v ===== *)
(** Wake locks: creating and destroying locks, asking for them, the timer, the
    suspend work, and the runs of the whole. *)

From stdpp Require Import gmap sorting.
From S2P Require Import Prelude.
From S2P Require Import Ring State Wakelock WakelockInv WakelockOps WakelockSteps.

(** * Asking *)

Lemma scanned_fine p p' ret : scanned_ok p ret p' -> fine p p' untouched.
Proof. intros S. split; try apply S. intros run. now apply (scanned_covered p p' ret). Qed.

Lemma has_idle_ok p : wl_ok p -> runs (has_wake_lock WAKE_LOCK_IDLE) p (fun _ p' => fine p p' untouched).
Proof.
  intros Hp. destruct (two_lists p Hp) as (s & d & E). assert (active_wake_locks p !! 1%nat = Some d) as Hk by now rewrite E.
  eapply runs_mono; [exact (has_ok p 1 d Hp Hk)|]. intros ret p' [(_ & _ & ->)|(_ & S & _)].
  - split; [done|done|apply still_refl|done|now intros y].
  - assert (suspend_list p' = suspend_list p) as El by (unfold suspend_list; now rewrite (sc_other _ _ _ _ _ S 0%nat)).
    assert (alike p p') as A.
    { split; [|done|apply S]. intros x Hx. apply (sc_locks _ _ _ _ _ S). intros [_ Hg]%list_elem_of_filter.
      destruct (list_nodup p 1 d Hp Hk) as (_ & N & _). now apply (N 0%nat _ x ltac:(done) (suspend_list_lookup p Hp) Hg). }
    split; [apply S| |apply alike_still; [done|]; intros x _ Hx; apply (sc_gone _ _ _ _ _ S); now left|apply S|apply S]. intros run. apply alike_covered; [done|apply S..].
Qed.

Lemma has_fine p type : wl_ok p -> 0 <= type < 2 -> runs (has_wake_lock type) p (fun _ p' => fine p p' untouched).
Proof.
  intros Hp Ht. assert (type = 0 \/ type = 1) as [-> | ->] by lia; [|now apply has_idle_ok].
  eapply runs_mono; [exact (suspend_scan_ok p Hp)|]. intros ret p' S. now apply (scanned_fine p p' ret).
Qed.

(** [power_suspend_late] refuses exactly when something blocks. *)
Lemma scan_blocks p ret p' : scanned_ok p ret p' -> ret <> 0 <-> exists x, blocks p x.
Proof.
  intros S. split.
  - intros Hr. destruct (Z.eq_dec ret (-1)) as [E|Hne].
    + apply (so_perm _ _ _ S) in E as (x & Hx & Ha). exists x. split; [now apply (so_sub _ _ _ S)|]. left. now rewrite <- (proj1 (so_same _ _ _ S x Hx)).
    + destruct (so_left _ _ _ S Hne) as (_ & Hl & [[? _]|(x & Hx & E)]); [done|]. exists x. split; [now apply (so_sub _ _ _ S)|]. right.
      rewrite <- (proj2 (so_same _ _ _ S x Hx)). now apply Hl.
  - intros (x & Hx) ->. destruct (proj1 (so_still _ _ _ S x ltac:(intros [])) Hx) as [[Hx' _] _]. destruct (so_left _ _ _ S) as (_ & Hl & _); [done|]. specialize (Hl x Hx'). lia.
Qed.

Lemma late_ok p : wl_ok p -> runs power_suspend_late p (fun ret p' => fine p p' untouched /\ (ret = - EAGAIN \/ ret = 0) /\ (ret = - EAGAIN <-> exists x, blocks p x)).
Proof.
  intros Hp. apply runs_bind. eapply runs_mono; [exact (suspend_scan_ok p Hp)|]. intros h p1 S. cbv beta in S. pose proof (scan_blocks _ _ _ S) as Hb.
  apply runs_gets. apply runs_bind. eapply runs_mono; [apply calmly_sleep|]. intros [] p2 C. cbv beta in C. apply runs_ret.
  split; [eapply fine_calm; [eapply scanned_fine; exact S|exact C]|]. rewrite <- Hb. destruct (Z.eqb_spec h 0); cbn [negb]; (split; [auto|]); unfold EAGAIN; (split; [lia|]).
  - done.
  - done.
Qed.

(** * Creating and destroying *)

Lemma init_eq p id type nm : (id ∉ linked_locks p) -> exists L, name L = Some nm /\ flags L = Z.lor (Z.land type WAKE_LOCK_TYPE_MASK) WAKE_LOCK_INITIALIZED /\
  wake_lock_init id type (Some nm) p = Ok (tt, with_lists p (<[id := L]> (locks p)) (id :: inactive_locks p) (active_wake_locks p)).
Proof.
  intros Hid. unfold wake_lock_init, put_lock, gets, set_locks, modify, mbind, ST_bind. eexists. split; [|split]; [..|
    assert (linked_in id (inactive_locks p) (active_wake_locks p) = false) as E; [|cbn; rewrite E; reflexivity]]; [done|done|].
  destruct (linked_in id _ _) eqn:E; [|done]. now apply linked_in_true in E.
Qed.

Lemma suspend_linked p x : wl_ok p -> x ∈ suspend_list p -> x ∈ linked_locks p.
Proof. intros Hp. apply held_elsewhere with (k := 0%nat); [done|]. now apply suspend_list_lookup. Qed.

Lemma init_fine p id type nm : wl_ok p -> (id ∉ linked_locks p) -> 0 <= type < 2 ->
  runs (wake_lock_init id type (Some nm)) p (fun _ p' => fine p p' untouched /\ id ∈ linked_locks p').
Proof.
  intros Hp Hid Ht. destruct (init_eq p id type nm Hid) as (L & _ & Hf & E). eapply runs_eq; [exact E|]. set (p' := with_lists _ _ _ _).
  assert (view (flags L) = idle_view type) as Hv by (rewrite Hf; apply view_new; lia).
  assert (forall x, x <> id -> locks p' !! x = locks p !! x) as Hne by (intros; cbn; now rewrite lookup_insert_ne).
  assert (forall x, x ∈ linked_locks p -> x <> id) as Hl by congruence.
  assert (forall x, suspend_type p x -> suspend_type p' x) as Hst.
  { intros x (L0 & b1 & b2 & HL0 & Hv0). exists L0, b1, b2. rewrite Hne; [done|]. apply Hl, (wo_linked p Hp x L0 HL0), (view_bit8 _ _ _ _ _ Hv0). }
  assert (alike p p') as A. { split; [|done|done]. intros x Hx. now rewrite Hne by (apply Hl; now apply suspend_linked). }
  split; [|left]. split; [|intros run; now apply alike_covered|apply alike_still; [done|]; intros x _ Hx; now right|done|done].
  pose proof Hp as [H1 H2 H3 H4 H5 H6 H7 Hsy H8 H9]. split; auto.
  - apply NoDup_cons_2; [exact Hid|exact H2].
  - intros x [->|Hx]%elem_of_cons.
    + exists L, type. split; [cbn; apply lookup_insert_eq|done].
    + rewrite Hne by (apply Hl, elem_of_app; now left). now apply H3.
  - intros k l x Hk Hx. rewrite Hne by (apply Hl; eapply held_elsewhere; eauto). eauto.
  - intros k l Hk. eapply sorted_mono; [|apply (H5 k l Hk)]. intros x y Hx Hy. unfold timed_last, auto.
    now rewrite !Hne by (apply Hl; eapply held_elsewhere; eauto).
  - intros x L0 HL0 Hb. destruct (decide (x = id)) as [->|Hx]; [left|]. right. rewrite Hne in HL0 by done. now apply (H6 x L0).
  - destruct H9 as [L0 HL0]. destruct (decide (deleted_wake_locks = id)) as [->|Hx]; [exists L; cbn; apply lookup_insert_eq|]. exists L0. now rewrite Hne.
Qed.

(** A lock taken out of the lists for good. *)
Lemma wl_ok_dropped p p' id b1 b2 ty : wl_ok p -> relinked p p' id (without id (inactive_locks p)) (without id <$> active_wake_locks p) (b1, b2, false, ty) ->
  (forall x, x ∈ linked_locks p' <-> x ∈ linked_locks p /\ x <> id) -> (id ∉ [main_wake_lock; sync_wake_lock; unknown_wakeup; deleted_wake_locks]) -> wl_ok p'.
Proof.
  intros Hp R Hlk Hst. pose proof R as [R1 (L' & HL' & Hv') R3 R4 _ _ _ _]. pose proof Hp as [H1 H2 H3 H4 H5 H6 H7 Hsy H8 H9].
  assert (forall x, x <> id -> suspend_type p x -> suspend_type p' x) as Hty.
  { intros x Hx (L0 & c1 & c2 & HL0 & Hv0). destruct (relinked_lock _ _ _ _ _ _ x L0 _ R Hx HL0 Hv0) as (L1 & ? & ?). unfold suspend_type. eauto. }
  split.
  - now rewrite R4, length_fmap.
  - unfold linked_locks. rewrite R3, R4, concat_without, <- without_app. now apply list.NoDup_filter.
  - rewrite R3. intros x [Hx Hne]%elem_without. destruct (H3 x Hx) as (L0 & t & HL0 & Hv0 & Ht). destruct (relinked_lock _ _ _ _ _ _ x L0 _ R Hne HL0 Hv0) as (L1 & ? & ?). eauto 6.
  - rewrite R4. intros k l x (l' & Hk & ->)%lookup_without [Hx Hne]%elem_without. destruct (H4 k l' x Hk Hx) as (L0 & b & HL0 & Hv0).
    destruct (relinked_lock _ _ _ _ _ _ x L0 _ R Hne HL0 Hv0) as (L1 & ? & ?). eauto 6.
  - rewrite R4. intros k l (l' & Hk & ->)%lookup_without. eapply without_order; eauto.
  - intros x L0 HL0 Hb. apply Hlk. destruct (decide (x = id)) as [->|Hne]; [exfalso|split; [|done]].
    + simplify_eq. apply view_bit8 in Hv'. congruence.
    + pose proof (R1 x Hne) as E. rewrite HL0 in E. destruct (locks p !! x) as [L1|] eqn:HL1; [|done]. apply (inj Some), (f_equal (fun c => c.1.1.2)) in E.
      change (Z.testbit (flags L0) 8 = Z.testbit (flags L1) 8) in E. apply (H6 x L1 HL1). congruence.
  - apply Hty; [|done]. set_solver.
  - apply Hty; [|done]. set_solver.
  - apply Hty; [|done]. set_solver.
  - destruct H9 as [D HD]. destruct (relinked_lock _ _ _ _ _ _ deleted_wake_locks D _ R ltac:(set_solver) HD eq_refl) as (D' & HD' & _). now exists D'.
Qed.

(** Only locks that are not held are destroyed: [wake_lock_destroy] does not look
    at the locks that are left. *)
Lemma destroy_fine p id : wl_ok p -> id ∈ inactive_locks p -> id ∉ [main_wake_lock; sync_wake_lock; unknown_wakeup; deleted_wake_locks] ->
  runs (wake_lock_destroy id) p (fun _ p' => wl_ok p' /\ (forall run, covered p run -> covered p' run) /\
    still p p' (fun x => x = id) /\ (id ∉ linked_locks p') /\ forall x, x <> id -> suspend_type p x -> suspend_type p' x).
Proof.
  intros Hp Hid Hst. destruct (wo_idle p Hp id Hid) as (L & ty & HL & Hv & Hty). assert (id ∈ linked_locks p) as Hln by (apply elem_of_app; now left).
  apply runs_bind. eapply runs_eq; [apply set_flags_eq; exact HL|]. set (p1 := with_lists _ _ _ _).
  set (L1 := Lock _ _ _ _) in p1. assert (locks p1 !! id = Some L1) as HL1 by (cbn; apply lookup_insert_eq).
  apply runs_bind. eapply runs_eq; [apply lock_at_eq; exact HL1|]. apply runs_bind. eapply runs_mono.
  { instantiate (1 := fun _ q => calm p1 q). destruct (negb _); [|apply calmly_ret]. apply calmly_stat. destruct (wo_deleted p Hp) as [D HD].
    exists D. cbn. rewrite lookup_insert_ne; [done|]. intros E. apply Hst. rewrite E. set_solver. }
  intros [] p2 C. cbv beta in C. pose proof C as [C1 C2 C3 C4 C5 C6 C7].
  eapply runs_eq; [apply list_del_eq; unfold linked_locks; rewrite C2, C3; exact Hln|]. set (p' := with_lists p2 _ _ _).
  assert (relinked p p' id (without id (inactive_locks p)) (without id <$> active_wake_locks p) (false, false, false, ty)) as R.
  { split; cbn; rewrite ?C2, ?C3, ?C4, ?C5, ?C6, ?C7; try done.
    - intros x Hx. rewrite C1. cbn. now rewrite lookup_insert_ne.
    - eapply (core_view p1 p2 id L1); [apply C1|exact HL1|]. cbn [L1 flags]. rewrite view_destroyed.
      now rewrite (view_bit9 _ _ _ _ _ Hv), (view_bit10 _ _ _ _ _ Hv), (view_type _ _ _ _ _ Hv). }
  assert (id ∉ suspend_list p) as Hns by now apply idle_not_suspend.
  assert (suspend_list p' = suspend_list p) as El.
  { apply suspend_list_eq. rewrite (rl_active _ _ _ _ _ _ R), list_lookup_fmap, (suspend_list_lookup p Hp). cbn. now rewrite without_fresh. }
  assert (forall x, x ∈ linked_locks p' <-> x ∈ linked_locks p /\ x <> id) as Hlk.
  { intros x. unfold linked_locks. rewrite (rl_inactive _ _ _ _ _ _ R), (rl_active _ _ _ _ _ _ R), concat_without, <- without_app. apply elem_without. }
  assert (alike p p') as A by (split; [|done|apply R]; intros x Hx; apply R; congruence).
  split; [eapply (wl_ok_dropped p p' id); eauto|]. split; [intros run; apply alike_covered; [done|apply R..]|]. split; [|split; [rewrite Hlk; tauto|]].
  - apply alike_still; [done|]. intros x Hx Hin. rewrite (rl_inactive _ _ _ _ _ _ R). now apply elem_without.
  - intros x Hx (L0 & b1 & b2 & HL0 & Hv0). destruct (relinked_lock _ _ _ _ _ _ x L0 _ R Hx HL0 Hv0) as (L2 & ? & ?). unfold suspend_type. eauto.
Qed.

(** * Time *)

Definition lapse (n : Z) (p : power) : power :=
  Power (locks p) (inactive_locks p) (active_wake_locks p) (current_event_num p) (last_sleep_time_update p) (wait_for_wakeup p)
    (expire_timer p) (suspend_work p) (u32 (jiffies p + n)) (kclock p) (kdelays p) (coarse p + n * TICK_NSEC).

(** A pending timer may run late, but not so late that it, or a lock that has
    expired, would seem to lie in the future again. *)
Definition tick_ok (p : power) : Prop := forall e, expire_timer p = Some e -> - 2 ^ 31 < time_to_run p e /\
  (time_to_run p e <= 0 -> forall x, x ∈ suspend_list p -> - 2 ^ 31 < remaining p x).

Lemma s32_mod x y k : x = y + k * 2 ^ 32 -> s32 x = s32 y.
Proof. intros ->. unfold s32. replace (y + k * 2 ^ 32 + 2 ^ 31) with (y + 2 ^ 31 + k * 2 ^ 32) by lia. now rewrite Z.mod_add by lia. Qed.

Lemma s32_lapse e j n : - 2 ^ 31 <= s32 (e - j) - n < 2 ^ 31 -> s32 (e - u32 (j + n)) = s32 (e - j) - n.
Proof.
  intros H. destruct (u32_cases (j + n)) as [k ->]. set (y := s32 (e - j)) in *.
  assert (exists m, e - j = y + m * 2 ^ 32) as [m Em].
  { unfold y, s32. exists ((e - j + 2 ^ 31) / 2 ^ 32). pose proof (Z.div_mod (e - j + 2 ^ 31) (2 ^ 32)). lia. }
  rewrite (s32_mod _ (y - n) (m + k)) by lia. apply s32_id. done.
Qed.

Lemma lapse_remaining n p x : - 2 ^ 31 <= remaining p x - n -> 0 <= n -> live_lock p x -> remaining (lapse n p) x = remaining p x - n.
Proof.
  intros Hr Hn [L HL]. pose proof (remaining_range p x). unfold remaining in *. cbn. rewrite HL in *. apply s32_lapse. lia.
Qed.

Lemma suspend_live p x : wl_ok p -> x ∈ suspend_list p -> live_lock p x.
Proof. intros Hp Hx. apply linked_live; [done|]. now apply suspend_linked. Qed.

Lemma lapse_ok n p : wl_ok p -> wl_ok (lapse n p).
Proof. now apply wl_ok_ext. Qed.

Lemma tick_covered p run : wl_ok p -> tick_ok p -> covered p run -> covered (lapse 1 p) run.
Proof.
  intros Hp Ht [H|[(e & He & H)|H]]; [now left| |now right; right]. right. left. exists e. split; [done|]. intros x Hx. change (x ∈ suspend_list p) in Hx.
  destruct (H x Hx) as [H1 H2]. destruct (Ht e He) as [T1 T2]. unfold time_to_run in *.
  pose proof (s32_range (e - jiffies p)). change (jiffies (lapse 1 p)) with (u32 (jiffies p + 1)). rewrite s32_lapse by lia.
  rewrite lapse_remaining; [lia| |lia|now apply suspend_live].
  destruct (Z.le_gt_cases (s32 (e - jiffies p)) 0) as [Hle|Hgt]; [specialize (T2 Hle x Hx); lia|]. specialize (H2 ltac:(lia)). lia.
Qed.

(** After [n] jiffies every lock with a timeout that the timer was set for is over. *)
Lemma lapse_due p e : wl_ok p -> expire_timer p = Some e -> 0 <= time_to_run p e ->
  (forall x, x ∈ suspend_list p -> remaining p x <= time_to_run p e /\ (0 <= time_to_run p e -> time_to_run p e - remaining p x <= 2 ^ 31 - 2)) ->
  forall x, x ∈ suspend_list p -> remaining (lapse (time_to_run p e) p) x <= 0.
Proof.
  intros Hp He Hr H x Hx. destruct (H x Hx) as [H1 H2]. specialize (H2 Hr). rewrite lapse_remaining; [lia|lia|lia|now apply suspend_live].
Qed.

(** * The timer and the suspend work *)

(** All locks have a timeout that is over. *)
Definition all_over (p : power) : Prop := forall x, x ∈ suspend_list p -> auto p x = true /\ remaining p x <= 0.

Lemma over_blocks p : all_over p -> ~ exists x, blocks p x.
Proof. intros H (x & Hx & [Ha|Hr]); destruct (H x Hx); [congruence|lia]. Qed.

Lemma scan_over p ret p' : scanned_ok p ret p' -> (~ exists x, blocks p x) -> ret = 0 /\ suspend_list p' = [].
Proof.
  intros S Hb. assert (ret = 0) as -> by (destruct (Z.eq_dec ret 0) as [|H]; [done|]; now apply (scan_blocks _ _ _ S) in H).
  split; [done|]. destruct (so_left _ _ _ S) as (_ & Hl & [[_ ?]|(x & Hx & E)]); [done|done|]. specialize (Hl x Hx). lia.
Qed.

Lemma timer_ok p : wl_ok p -> (exists x, x ∈ suspend_list p /\ auto p x = false) \/ all_over p ->
  runs expire_wake_locks p (fun _ p' => wl_ok p' /\ (forall run, covered p' run) /\ still p p' untouched /\ expire_timer p' = None /\
    (all_over p -> suspend_work p' = true /\ suspend_list p' = [])).
Proof.
  intros Hp Hc. unfold expire_wake_locks. apply runs_gets, runs_bind, runs_modify. change (Power _ _ _ _ _ _ _ _ _ _ _ _) with (with_pending p None (suspend_work p)).
  set (p1 := with_pending p None (suspend_work p)). assert (wl_ok p1) as Hp1 by (eapply wl_ok_ext; [..|exact Hp]; done).
  apply runs_bind. eapply runs_mono; [exact (suspend_scan_ok p1 Hp1)|]. intros ret p2 S. cbv beta in S.
  assert (still p p2 untouched) as Hs by (eapply still_trans; [apply (pending_still p)|apply S]).
  destruct Hc as [(x & Hx & Ha)|Hov].
  - assert (blocks p1 x) as Hbx by (split; [done|now left]). assert (ret = -1) as ->.
    { apply (so_perm _ _ _ S). assert (x ∈ suspend_list p2) as Hx2 by (apply (proj1 (so_still _ _ _ S x ltac:(intros [])) Hbx)). exists x. split; [done|].
      rewrite (proj1 (so_same _ _ _ S x Hx2)). exact Ha. }
    cbn [Z.eqb]. apply runs_ret. split; [apply S|]. split; [|split; [done|split; [apply S|]]].
    + intros run. left. now apply (so_perm _ _ _ S).
    + intros Hov. destruct (Hov x Hx). congruence.
  - destruct (scan_over _ _ _ S (over_blocks p Hov)) as [-> El]. cbn [Z.eqb]. unfold queue_work. apply runs_gets, runs_modify.
    change (Power _ _ _ _ _ _ _ _ _ _ _ _) with (with_pending p2 (expire_timer p2) true). split; [eapply wl_ok_ext; [..|apply S]; done|].
    split; [intros run; right; right; split; [exact El|now left]|]. split; [|split; [apply S|done]].
    eapply still_trans; [exact Hs|apply pending_still].
Qed.

Lemma due_over p run e : covered p run -> expire_timer p = Some e -> time_to_run p e <= 0 -> (exists x, x ∈ suspend_list p /\ auto p x = false) \/ all_over p.
Proof.
  intros [H|[(e' & He & H)|(H & _)]] Ee Hd; [now left| |right; intros x Hx; rewrite H in Hx; inversion Hx].
  assert (e' = e) as -> by congruence.
  destruct (decide (Forall (fun x => auto p x = true) (suspend_list p))) as [Hf|Hf].
  - right. intros x Hx. rewrite List.Forall_forall in Hf. split; [apply Hf; now apply list_elem_of_In|]. destruct (H x Hx). lia.
  - left. apply list.not_Forall_Exists in Hf; [|apply _]. apply list.Exists_exists in Hf as (x & Hx & Hn). exists x. split; [done|]. cbn in Hn. now destruct (auto p x).
Qed.

(** The work starts to suspend exactly when nothing blocks. *)
Lemma enter_ok p : wl_ok p -> covered p None -> runs suspend_enter p (fun run p' => wl_ok p' /\ covered p' run /\ still p p' untouched /\ suspend_work p' = false /\
  jiffies p' = jiffies p /\ (run = None \/ run = Some (current_event_num p')) /\ (run = None <-> exists x, blocks p x)).
Proof.
  intros Hp Hc. unfold suspend_enter. apply runs_gets, runs_bind, runs_modify.
  change (Power _ _ _ _ _ _ _ _ _ _ _ _) with (with_pending p (expire_timer p) false). set (p1 := with_pending _ _ _).
  assert (wl_ok p1) as Hp1 by (eapply wl_ok_ext; [..|exact Hp]; done).
  apply runs_bind. eapply runs_mono; [exact (suspend_scan_ok p1 Hp1)|]. intros ret p2 S. change (scanned_ok p1 ret p2) in S.
  pose proof (scan_blocks _ _ _ S) as Hb. change (ret <> 0 <-> exists x, blocks p x) in Hb.
  assert (still p p2 untouched) as Hs by (eapply still_trans; [apply (pending_still p)|apply S]).
  assert (suspend_work p2 = false /\ jiffies p2 = jiffies p) as [Hw Hj] by (split; [rewrite (so_work _ _ _ S)|rewrite (so_jiffies _ _ _ S)]; done).
  destruct (Z.eqb_spec ret 0) as [->|Hr]; cbn [negb].
  - apply runs_gets, runs_ret. split; [apply S|]. split; [|repeat (split; [done|])].
    + right. right. split; [|now right]. apply (scan_over _ _ _ S). exact (fun H => proj2 Hb H eq_refl).
    + split; [now right|]. rewrite <- Hb. done.
  - apply runs_ret. split; [apply S|]. split; [|repeat (split; [done|])].
    + destruct Hc as [(x & Hx & Ha)|[(e & He & H)|(H & _)]].
      * apply (scanned_covered p1 p2 ret None S). left. now exists x.
      * apply (scanned_covered p1 p2 ret None S). right. left. now exists e.
      * apply Hb in Hr as (x & Hx & _). rewrite H in Hx. inversion Hx.
    + split; [now left|]. rewrite <- Hb. done.
Qed.

Lemma exit_ok p n : wl_ok p -> covered p (Some n) -> runs (suspend_exit n) p (fun _ p' => wl_ok p' /\ covered p' None /\ still p p' (fun x => x = unknown_wakeup)).
Proof.
  intros Hp Hc. unfold suspend_exit. apply runs_gets. destruct (Z.eqb_spec (current_event_num p) n) as [En|En].
  - destruct (wo_unknown p Hp) as (L & b1 & b2 & HL & Hv). eapply runs_mono.
    { apply (lock_ok p unknown_wakeup (HZ / 2) true Hp). apply (wo_linked p Hp _ L HL), (view_bit8 _ _ _ _ _ Hv). }
    intros [] p' [F B]. split; [apply F|]. split; [|apply F]. assert (blocks p' unknown_wakeup) as [Hx _].
    { apply B; [exists L, b1, b2; done|]. right. done. }
    destruct (fn_covered _ _ _ F (Some n) Hc) as [H|[H|(H & _)]]; [now left|now right; left|]. rewrite H in Hx. inversion Hx.
  - apply runs_ret. split; [done|]. split; [|apply still_refl]. destruct Hc as [H|[H|(H & [Hw|Hr])]]; [now left|now right; left|right; right; auto|congruence].
Qed.

(** * Runs *)

Inductive call :=
  | CInit (id type : Z) (nm : list Z) | CDestroy (id : Z)
  | CLock (id : Z) | CTimeout (id timeout : Z) | CUnlock (id : Z)
  | CHas (type : Z) | CLate
  | CTick | CTimer | CWork | CResume.

(** [run] is the event number of the suspend under way, if one is. *)
Definition perform (c : call) (run : option Z) : PM (option Z) :=
  match c with
  | CInit id type nm => wake_lock_init id type (Some nm);; mret run
  | CDestroy id => wake_lock_destroy id;; mret run
  | CLock id => wake_lock id;; mret run
  | CTimeout id t => wake_lock_timeout id t;; mret run
  | CUnlock id => wake_unlock id;; mret run
  | CHas type => has_wake_lock type;; mret run
  | CLate => power_suspend_late;; mret run
  | CTick => modify (lapse 1);; mret run
  | CTimer => expire_wake_locks;; mret run
  | CWork => suspend_enter
  | CResume => match run with Some n => suspend_exit n;; mret None | None => fail OutOfBounds end
  end.

(** When a call may be made: locks are initialised before they are used, and not
    held when they are destroyed; the work and the timer run when they are due. *)
Definition enabled (p : power) (run : option Z) (c : call) : Prop :=
  match c with
  | CInit id type _ => (id ∉ linked_locks p) /\ 0 <= type < WAKE_LOCK_TYPE_COUNT
  | CDestroy id => (id ∈ inactive_locks p) /\ id ∉ [main_wake_lock; sync_wake_lock; unknown_wakeup; deleted_wake_locks]
  | CLock id | CTimeout id _ | CUnlock id => id ∈ linked_locks p
  | CHas type => 0 <= type < WAKE_LOCK_TYPE_COUNT
  | CLate => True
  | CTick => tick_ok p
  | CTimer => exists e, expire_timer p = Some e /\ time_to_run p e <= 0
  | CWork => suspend_work p = true /\ run = None
  | CResume => is_Some run
  end.

(** The locks the call is about. *)
Definition about (p : power) (c : call) (x : Z) : Prop :=
  match c with
  | CLock id | CTimeout id _ | CUnlock id | CDestroy id => x = id
  | CResume => x = unknown_wakeup
  | CTick => remaining p x = 1 /\ auto p x = true
  | _ => False
  end.

Record good (p : power) (run : option Z) : Prop := { gd_ok : wl_ok p; gd_covered : covered p run }.

Lemma fine_good {A} (m : PM A) p run T : good p run -> runs m p (fun _ p' => fine p p' T) ->
  runs (m;; mret run) p (fun run' p' => good p' run' /\ still p p' T).
Proof.
  intros [G1 G2] H. apply runs_bind. eapply runs_mono; [exact H|]. intros _ p' [F1 F2 F3 F4 F5]. apply runs_ret. split; [split; auto|done].
Qed.

Lemma tick_still p : wl_ok p -> still p (lapse 1 p) (about p CTick).
Proof.
  intros Hp x Hx. split; [|done]. intros [Hin Hb]. split; [|done]. split; [done|]. change (auto (lapse 1 p) x) with (auto p x). destruct (auto p x) eqn:Ea; [|now left]. destruct Hb as [|Hb]; [done|].
  right. rewrite lapse_remaining; [|lia|lia|now apply suspend_live]. unfold about in Hx. rewrite Ea in Hx. lia.
Qed.

Lemma call_ok p run c : good p run -> enabled p run c -> runs (perform c run) p (fun run' p' => good p' run' /\ still p p' (about p c)).
Proof.
  intros G He. pose proof G as [Hp Hc]. destruct c; cbn [perform enabled about] in *.
  - apply (fine_good _ p run untouched G). eapply runs_mono; [apply (init_fine p id type nm Hp); tauto|]. now intros [] p' [F _].
  - apply runs_bind. eapply runs_mono; [apply (destroy_fine p id Hp); tauto|]. intros [] p' (D1 & D2 & D3 & _). apply runs_ret. split; [split; auto|done].
  - apply (fine_good _ p run _ G). eapply runs_mono; [apply (lock_ok p id 0 false Hp He)|]. now intros [] p' [F _].
  - apply (fine_good _ p run _ G). eapply runs_mono; [apply (lock_ok p id timeout true Hp He)|]. now intros [] p' [F _].
  - apply (fine_good _ p run _ G). eapply runs_mono; [apply (unlock_ok p id Hp He)|]. now intros [] p' [F _].
  - apply (fine_good _ p run untouched G). now apply has_fine.
  - apply (fine_good _ p run untouched G). eapply runs_mono; [apply (late_ok p Hp)|]. now intros ret p' [F _].
  - apply runs_bind, runs_modify, runs_ret. split; [split; [now apply lapse_ok|now apply tick_covered]|now apply tick_still].
  - destruct He as (e & Ee & Hd). apply runs_bind. eapply runs_mono; [apply (timer_ok p Hp), (due_over p run e Hc Ee Hd)|].
    intros [] p' (H1 & H2 & H3 & _). apply runs_ret. split; [now split|done].
  - destruct He as [Hw ->]. eapply runs_mono; [apply (enter_ok p Hp Hc)|]. intros run' p' (H1 & H2 & H3 & _). split; [now split|done].
  - destruct He as [n ->]. apply runs_bind. eapply runs_mono; [apply (exit_ok p n Hp Hc)|]. intros [] p' (H1 & H2 & H3). apply runs_ret. split; [now split|done].
Qed.

(** * Types of locks *)

Lemma timer_types p : wl_ok p -> runs expire_wake_locks p (fun _ p' => keeps_types p p').
Proof.
  intros Hp. unfold expire_wake_locks. apply runs_gets, runs_bind, runs_modify. change (Power _ _ _ _ _ _ _ _ _ _ _ _) with (with_pending p None (suspend_work p)).
  assert (wl_ok (with_pending p None (suspend_work p))) as Hp1 by (eapply wl_ok_ext; [..|exact Hp]; done).
  apply runs_bind. eapply runs_mono; [exact (suspend_scan_ok _ Hp1)|]. intros ret p2 S. pose proof (so_types _ _ _ S) as Ht. destruct (ret =? 0); [|now apply runs_ret].
  apply runs_gets, runs_modify. exact Ht.
Qed.

Lemma enter_types p : wl_ok p -> runs suspend_enter p (fun _ p' => keeps_types p p').
Proof.
  intros Hp. unfold suspend_enter. apply runs_gets, runs_bind, runs_modify. change (Power _ _ _ _ _ _ _ _ _ _ _ _) with (with_pending p (expire_timer p) false).
  assert (wl_ok (with_pending p (expire_timer p) false)) as Hp1 by (eapply wl_ok_ext; [..|exact Hp]; done).
  apply runs_bind. eapply runs_mono; [exact (suspend_scan_ok _ Hp1)|]. intros ret p2 S. pose proof (so_types _ _ _ S) as Ht. destruct (negb _); [now apply runs_ret|].
  apply runs_gets, runs_ret. exact Ht.
Qed.

Lemma exit_types p n : wl_ok p -> runs (suspend_exit n) p (fun _ p' => keeps_types p p').
Proof.
  intros Hp. unfold suspend_exit. apply runs_gets. destruct (_ =? n); [|now apply runs_ret].
  destruct (wo_unknown p Hp) as (L & b1 & b2 & HL & Hv).
  eapply runs_mono; [apply (lock_ok p unknown_wakeup (HZ / 2) true Hp), (wo_linked p Hp _ L HL), (view_bit8 _ _ _ _ _ Hv)|]. intros [] p' [F _]. apply F.
Qed.

(** Only destroying a lock takes its type away. *)
Lemma call_types p run c x : good p run -> enabled p run c -> c <> CDestroy x -> suspend_type p x -> runs (perform c run) p (fun _ p' => suspend_type p' x).
Proof.
  intros [Hp Hc] He Hd Hx. destruct c; cbn [perform enabled] in *.
  - apply runs_bind. eapply runs_mono; [apply (init_fine p id type nm Hp); tauto|]. intros [] p' [F _]. now apply (fn_types _ _ _ F).
  - apply runs_bind. eapply runs_mono; [apply (destroy_fine p id Hp); tauto|]. intros [] p' (_ & _ & _ & _ & Ht). apply Ht; [congruence|done].
  - apply runs_bind. eapply runs_mono; [apply (lock_ok p id 0 false Hp He)|]. intros [] p' [F _]. now apply (fn_types _ _ _ F).
  - apply runs_bind. eapply runs_mono; [apply (lock_ok p id timeout true Hp He)|]. intros [] p' [F _]. now apply (fn_types _ _ _ F).
  - apply runs_bind. eapply runs_mono; [apply (unlock_ok p id Hp He)|]. intros [] p' [F _]. now apply (fn_types _ _ _ F).
  - apply runs_bind. eapply runs_mono; [now apply (has_fine p type)|]. intros r p' F. now apply (fn_types _ _ _ F).
  - apply runs_bind. eapply runs_mono; [apply (late_ok p Hp)|]. intros r p' [F _]. now apply (fn_types _ _ _ F).
  - apply runs_bind, runs_modify, runs_ret. exact Hx.
  - apply runs_bind. eapply runs_mono; [now apply timer_types|]. intros [] p' Ht. now apply Ht.
  - eapply runs_mono; [now apply enter_types|]. intros r p' Ht. now apply Ht.
  - destruct He as [n ->]. apply runs_bind. eapply runs_mono; [now apply exit_types|]. intros [] p' Ht. now apply Ht.
Qed.
