(* ===== verification/WakelockFacts.v ===== *)
(** Android wake locks: a held lock keeps the system awake, and once none is held
    the system suspends. *)

From stdpp Require Import gmap sorting.
From S2P Require Import Prelude.
From S2P Require Import Ring State Wakelock WakelockInv WakelockOps WakelockSteps WakelockCalls.

(** * The start *)

(** Successful registrations. *)
Definition booted (j k c : Z) (d : list Z) : res (Z * power) := wakelocks_init 0 0 true true (power_reset j k c d).

Definition no_stat : lock_stat := Stat 0 0 0 0 0 0 0.
Definition start_locks (s : lock_stat) : gmap Z wake_lock_t :=
  <[unknown_wakeup := Lock 256 (Some [117; 110; 107; 110; 111; 119; 110; 95; 119; 97; 107; 101; 117; 112; 115]) 0 no_stat]>
  (<[main_wake_lock := Lock 768 (Some [109; 97; 105; 110]) LONG_MAX s]>
  (<[sync_wake_lock := Lock 256 (Some [115; 121; 110; 99; 95; 115; 121; 115; 116; 101; 109]) 0 no_stat]>
  (<[deleted_wake_locks := Lock 256 (Some [100; 101; 108; 101; 116; 101; 100; 95; 119; 97; 107; 101; 95; 108; 111; 99; 107; 115]) 0 no_stat]> ∅))).

Lemma booted_eq j k c d : exists s u k' d', booted j k c d =
  Ok (0, Power (start_locks s) [unknown_wakeup; sync_wake_lock; deleted_wake_locks] [[main_wake_lock]; []] 1 u 0 None false j k' d' c).
Proof.
  destruct (booted j k c d) as [[r p]|e] eqn:E; vm_compute in E; [|discriminate]. injection E as <- <-. do 4 eexists. lazy. reflexivity.
Qed.

Lemma start_ok s u k c d j : wl_ok (Power (start_locks s) [unknown_wakeup; sync_wake_lock; deleted_wake_locks] [[main_wake_lock]; []] 1 u 0 None false j k d c).
Proof.
  split; cbn [active_wake_locks inactive_locks locks].
  - reflexivity.
  - apply (bool_decide_unpack _). reflexivity.
  - intros id [->|[->|[->|H]%elem_of_cons]%elem_of_cons]%elem_of_cons; [..|inversion H]; eexists _, 0; (split; [reflexivity|]; split; [reflexivity|lia]).
  - intros [|[|k']] l id Hk Hin; cbn in Hk; [..|done]; injection Hk as <-; [|inversion Hin].
    apply list_elem_of_singleton in Hin as ->. eexists _, false. split; reflexivity.
  - intros [|[|k']] l Hk; cbn in Hk; [..|done]; injection Hk as <-; repeat constructor.
  - intros id L HL _. unfold start_locks in HL. rewrite !lookup_insert_Some, lookup_empty in HL.
    destruct HL as [[<- _]|[_ [[<- _]|[_ [[<- _]|[_ [[<- _]|[_ HL]]]]]]]]; [..|done]; apply (bool_decide_unpack _); reflexivity.
  - eexists _, true, false. split; reflexivity.
  - eexists _, false, false. split; reflexivity.
  - eexists _, false, false. split; reflexivity.
  - eexists. reflexivity.
Qed.

Lemma booted_good j k c d : exists p, booted j k c d = Ok (0, p) /\ good p None.
Proof.
  destruct (booted_eq j k c d) as (s & u & k' & d' & E). eexists. split; [exact E|]. split; [apply start_ok|].
  left. exists main_wake_lock. split; [left|reflexivity].
Qed.

Inductive reachable : power -> option Z -> Prop :=
  | R_boot j k c d p : booted j k c d = Ok (0, p) -> reachable p None
  | R_step p run c p' run' : reachable p run -> enabled p run c -> perform c run p = Ok (run', p') -> reachable p' run'.

Lemma reachable_good p run : reachable p run -> good p run.
Proof.
  induction 1 as [j k c d p E|p run c p' run' _ IH He E].
  - destruct (booted_good j k c d) as (q & Eq & G). congruence.
  - destruct (proj1 (runs_exists _ _ _) (call_ok p run c IH He)) as (r & q & Eq & G & _). congruence.
Qed.

(** * A lock that is held *)

Lemma active_flag p x : wl_ok p -> x ∈ linked_locks p -> exists b, wake_lock_active x p = Ok (b, p) /\ (b = true <-> x ∈ concat (active_wake_locks p)).
Proof.
  intros Hp Hx. destruct (linked_live p x Hp Hx) as [L HL]. exists (has_flag (flags L) WAKE_LOCK_ACTIVE).
  split; [unfold wake_lock_active, mbind, ST_bind; now rewrite (lock_at_eq p x L HL)|]. rewrite flag_active.
  pose proof (wo_nodup p Hp) as Hn. unfold linked_locks in *. apply list.NoDup_app in Hn as (_ & Hd & _). apply elem_of_app in Hx as [Hx|Hx].
  - destruct (wo_idle p Hp x Hx) as (L' & ty & HL' & Hv & _). simplify_eq. rewrite (view_bit9 _ _ _ _ _ Hv). split; [done|]. intros H. now destruct (Hd x Hx).
  - split; [done|]. intros _. apply list_elem_of_In, in_concat in Hx as (l & Hl & Hin). apply list_elem_of_In, list_elem_of_lookup in Hl as (k & Hk).
    destruct (wo_held p Hp k l x Hk) as (L' & b & HL' & Hv); [now apply list_elem_of_In|]. simplify_eq. apply (view_bit9 _ _ _ _ _ Hv).
Qed.

Lemma runs_ok {S A} (m : ST S A) s (Q : A -> S -> Prop) : runs m s Q -> exists a s', m s = Ok (a, s') /\ Q a s'.
Proof. apply runs_exists. Qed.

(** The result of asking for suspend locks: -1 if one is held for good, otherwise
    the longest time left, 0 if there is none. *)
Definition has_result (p : power) (h : Z) : Prop :=
  (h = -1 /\ exists x, x ∈ suspend_list p /\ auto p x = false) \/
  (0 < h < 2 ^ 31 /\ (exists x, x ∈ suspend_list p /\ remaining p x = h) /\ forall x, x ∈ suspend_list p -> auto p x = true /\ remaining p x <= h) \/
  (h = 0 /\ all_over p).

Lemma scan_result p : wl_ok p -> runs (has_wake_lock WAKE_LOCK_SUSPEND) p (fun h _ => has_result p h).
Proof.
  intros Hp. eapply runs_mono; [exact (has_ok p 0 _ Hp (suspend_list_lookup p Hp))|]. intros h p' [(H & -> & ->)|(Ha & S & Hl)]; [now left|].
  right. pose proof Hl as (Hr & Hm & Hx). destruct (Z.eq_dec h 0) as [->|Hne]; [right|left].
  - split; [done|]. intros x Hin. auto.
  - split; [lia|]. split; [|intros x Hin; auto]. destruct Hx as [->|(x & Hin & E)]; [done|eauto].
Qed.

(** C22: Every call that may be made in a reachable state of the wake locks
    returns (no BUG_ON, no lock followed through a link it does not have), and
    leaves flags and lists consistent; [wake_lock_active] tells whether the lock
    is on a list of active ones; [wake_lock] and [wake_lock_timeout] with a
    timeout below 2^31 jiffies make a suspend lock block at once, [wake_unlock]
    puts any lock among the inactive ones; and [has_wake_lock] returns -1 if a
    lock is held for good, otherwise the longest time that is left. *)
Theorem wakelock_calls_correct p run : reachable p run ->
  wl_ok p /\
  (forall c, enabled p run c -> exists run' p', perform c run p = Ok (run', p') /\ reachable p' run') /\
  (forall x, x ∈ linked_locks p -> exists b, wake_lock_active x p = Ok (b, p) /\ (b = true <-> x ∈ concat (active_wake_locks p))) /\
  (forall x, x ∈ linked_locks p -> suspend_type p x -> exists p', wake_lock x p = Ok (tt, p') /\ blocks p' x) /\
  (forall x t, x ∈ linked_locks p -> suspend_type p x -> 0 < t < 2 ^ 31 -> exists p', wake_lock_timeout x t p = Ok (tt, p') /\ blocks p' x) /\
  (forall x, x ∈ linked_locks p -> exists p', wake_unlock x p = Ok (tt, p') /\ x ∈ inactive_locks p' /\ ~ blocks p' x) /\
  exists h p', has_wake_lock WAKE_LOCK_SUSPEND p = Ok (h, p') /\ has_result p h.
Proof.
  intros Hr. pose proof (reachable_good p run Hr) as G. pose proof G as [Hp Hc]. split; [done|]. split; [|split; [|split; [|split; [|split]]]].
  - intros c He. destruct (runs_ok _ _ _ (call_ok p run c G He)) as (r & p' & E & _). eauto using R_step.
  - intros x Hx. now apply active_flag.
  - intros x Hx Hs. destruct (runs_ok _ _ _ (lock_ok p x 0 false Hp Hx)) as ([] & p' & E & _ & B). exists p'. split; [done|]. apply B; auto.
  - intros x t Hx Hs Ht. destruct (runs_ok _ _ _ (lock_ok p x t true Hp Hx)) as ([] & p' & E & _ & B). exists p'. split; [done|]. apply B; auto.
  - intros x Hx. destruct (runs_ok _ _ _ (unlock_ok p x Hp Hx)) as ([] & p' & E & F & Hi). exists p'. split; [done|]. split; [done|].
    intros [Hin _]. now apply (idle_not_suspend p' x); [apply F|..].
  - exact (runs_ok _ _ _ (scan_result p Hp)).
Qed.

(** * No suspend while a lock is held *)

(** C15: While a suspend lock is held, for good or with time left, the system
    cannot suspend: [has_wake_lock] is not 0, [power_suspend_late] returns
    -EAGAIN, and the work function returns without calling [pm_suspend]; and the
    lock goes on blocking through every call, tick, timer or work that is not
    about this very lock. *)
Theorem wakelock_blocks_suspend p run x : reachable p run -> blocks p x ->
  (exists h p', has_wake_lock WAKE_LOCK_SUSPEND p = Ok (h, p') /\ h <> 0) /\
  (exists p', power_suspend_late p = Ok (- EAGAIN, p')) /\
  (forall pm, run = None -> exists p', suspend pm p = Ok (tt, p') /\ blocks p' x) /\
  (forall c run' p', enabled p run c -> ~ about p c x -> perform c run p = Ok (run', p') -> blocks p' x).
Proof.
  intros Hr Hb. pose proof (reachable_good p run Hr) as G. pose proof G as [Hp Hc]. split; [|split; [|split]].
  - destruct (runs_ok _ _ _ (suspend_scan_ok p Hp)) as (h & p' & E & S). exists h, p'. split; [done|]. apply (scan_blocks p h p' S). eauto.
  - destruct (runs_ok _ _ _ (late_ok p Hp)) as (h & p' & E & _ & _ & Hh). exists p'. rewrite E. do 2 f_equal. apply Hh. eauto.
  - intros pm ->. destruct (runs_ok _ _ _ (enter_ok p Hp Hc)) as (r & p' & E & _ & _ & Hs & _ & _ & _ & Hn).
    assert (r = None) as -> by (apply Hn; eauto). exists p'. split; [unfold suspend, mbind, ST_bind; now rewrite E|]. apply Hs; [intros []|done].
  - intros c run' p' He Ha E. destruct (runs_ok _ _ _ (call_ok p run c G He)) as (r & q & E' & _ & Hs). assert (q = p') as -> by congruence. now apply Hs.
Qed.

(** * No suspend is forgotten *)

Lemma lapse_over p run : good p run -> (forall x, x ∈ suspend_list p -> auto p x = true) -> forall e, expire_timer p = Some e ->
  all_over (lapse (Z.max 0 (time_to_run p e)) p).
Proof.
  intros [Hp Hc] Ha e He x Hx. change (x ∈ suspend_list p) in Hx. split; [now apply Ha|].
  destruct Hc as [(y & Hy & Hf)|[(e' & He' & H)|(H & _)]]; [rewrite Ha in Hf; done| |rewrite H in Hx; inversion Hx].
  assert (e' = e) as -> by congruence. destruct (Z.le_gt_cases 0 (time_to_run p e)) as [Hr|Hr].
  - rewrite Z.max_r by done. now apply lapse_due.
  - rewrite Z.max_l by lia. destruct (H x Hx) as [H1 _]. pose proof (remaining_range p x). rewrite lapse_remaining; [lia|lia|lia|now apply suspend_live].
Qed.

Lemma exit_retry p n : wl_ok p -> current_event_num p = n -> runs (suspend_exit n) p (fun _ p' => blocks p' unknown_wakeup).
Proof.
  intros Hp <-. unfold suspend_exit. apply runs_gets. rewrite Z.eqb_refl. destruct (wo_unknown p Hp) as (L & b1 & b2 & HL & Hv).
  eapply runs_mono; [apply (lock_ok p unknown_wakeup (HZ / 2) true Hp), (wo_linked p Hp _ L HL), (view_bit8 _ _ _ _ _ Hv)|].
  intros [] p' [_ B]. apply B; [exists L, b1, b2; done|]. right. done.
Qed.

(** The work on its queue and nothing held: the suspend starts; if nothing
    happens until it returns, it is tried again. *)
Lemma work_suspends p : wl_ok p -> covered p None -> suspend_list p = [] -> exists m p2 p3, suspend_enter p = Ok (Some m, p2) /\
  suspend_exit m p2 = Ok (tt, p3) /\ blocks p3 unknown_wakeup.
Proof.
  intros Hp Hc El. destruct (runs_ok _ _ _ (enter_ok p Hp Hc)) as (r & p2 & E & Hp2 & _ & _ & _ & _ & [-> | ->] & Hn).
  - destruct (proj1 Hn eq_refl) as (x & Hx & _). rewrite El in Hx. inversion Hx.
  - destruct (runs_ok _ _ _ (exit_retry p2 _ Hp2 eq_refl)) as ([] & p3 & E3 & B). eauto 8.
Qed.

(** * An example: a lock taken for 256 jiffies, just before [jiffies] wraps *)

Definition demo_boot : power := match booted 4294967290 0 0 [5; 7] with Ok (_, p) => p | Err _ => power_reset 0 0 0 [] end.
Definition after (c : call) (p : power) : power := match perform c None p with Ok (_, p') => p' | Err _ => p end.
Definition demo_locked : power := after (CTimeout 10 256) (after (CInit 10 WAKE_LOCK_SUSPEND [116]) demo_boot).
Definition wake_demo : power := after (CUnlock main_wake_lock) demo_locked.

Lemma after_reachable p c : reachable p None -> enabled p None c -> (perform c None p = Ok (None, after c p)) -> reachable (after c p) None.
Proof. intros. eapply R_step; eauto. Qed.

Lemma demo_reachable : reachable wake_demo None.
Proof.
  apply after_reachable; [apply after_reachable; [apply after_reachable; [apply (R_boot 4294967290 0 0 [5; 7])|..]|..]|..].
  all: try (vm_compute; reflexivity).
  - split; [apply (bool_decide_unpack _); vm_compute; reflexivity|unfold WAKE_LOCK_SUSPEND, WAKE_LOCK_TYPE_COUNT; lia].
  - cbn [enabled]. apply (bool_decide_unpack _). vm_compute. reflexivity.
  - cbn [enabled]. apply (bool_decide_unpack _). vm_compute. reflexivity.
Qed.

Lemma demo_list : suspend_list wake_demo = [10].
Proof. vm_compute. reflexivity. Qed.
Lemma demo_blocks : blocks wake_demo 10.
Proof. split; [rewrite demo_list; left|right; vm_compute; reflexivity]. Qed.

(** A lock held for good, and then destroyed. *)
Definition demo_held : power := after (CUnlock main_wake_lock) (after (CLock 10) (after (CInit 10 WAKE_LOCK_SUSPEND [116]) demo_boot)).

Lemma demo_held_reachable : reachable demo_held None.
Proof.
  apply after_reachable; [apply after_reachable; [apply after_reachable; [apply (R_boot 4294967290 0 0 [5; 7])|..]|..]|..].
  all: try (vm_compute; reflexivity).
  - split; [apply (bool_decide_unpack _); vm_compute; reflexivity|unfold WAKE_LOCK_SUSPEND, WAKE_LOCK_TYPE_COUNT; lia].
  - cbn [enabled]. apply (bool_decide_unpack _). vm_compute. reflexivity.
  - cbn [enabled]. apply (bool_decide_unpack _). vm_compute. reflexivity.
Qed.

Lemma not_covered p : suspend_list p = [] -> expire_timer p = None -> suspend_work p = false -> ~ covered p None.
Proof.
  intros El Et Ew [(x & Hx & _)|[(e & He & _)|(_ & [Hw|Hr])]]; [rewrite El in Hx; inversion Hx|congruence|congruence|done].
Qed.

Lemma destroy_held_forgets : exists p p', reachable p None /\ wake_lock_destroy 10 p = Ok (tt, p') /\ ~ covered p' None.
Proof.
  assert (exists q, wake_lock_destroy 10 demo_held = Ok (tt, q) /\ suspend_list q = [] /\ expire_timer q = None /\ suspend_work q = false) as (q & Eq & H1 & H2 & H3).
  { eexists. split; [vm_compute; reflexivity|]. vm_compute. repeat split. }
  exists demo_held, q. exact (conj demo_held_reachable (conj Eq (not_covered q H1 H2 H3))).
Qed.

(** C14: A suspend is never forgotten.  In every reachable state a lock is held
    for good, or the expire timer is pending and due no earlier than any timeout,
    or no lock is held and a suspend is queued or under way.  So when no lock is
    held for good and no suspend is under way, the system starts to suspend
    within the time to which the timer is set, below 2^31 jiffies, unless another
    call comes in; and a suspend that returns with no event is followed by a lock
    for half a second, after which it is tried again.  Destroying a lock that is
    held is not among the calls: [wake_lock_destroy] does not look at the locks
    that are left, and a suspend can then be forgotten. *)
Theorem wakelock_no_forgotten_suspend :
  (forall p run, reachable p run ->
  covered p run /\
  (run = None -> (forall x, x ∈ suspend_list p -> auto p x = true) ->
   exists n p1 m p2 p3, 0 <= n < 2 ^ 31 /\
     (expire_timer p = None /\ n = 0 /\ p1 = p \/ is_Some (expire_timer p) /\ expire_wake_locks (lapse n p) = Ok (tt, p1)) /\
     suspend_work p1 = true /\ suspend_enter p1 = Ok (Some m, p2) /\ suspend_exit m p2 = Ok (tt, p3) /\ blocks p3 unknown_wakeup)) /\
  (exists p p', reachable p None /\ wake_lock_destroy 10 p = Ok (tt, p') /\ ~ covered p' None).
Proof.
  split; [|exact destroy_held_forgets]. intros p run Hr. pose proof (reachable_good p run Hr) as G. pose proof G as [Hp Hc]. split; [done|]. intros -> Ha. destruct (expire_timer p) as [e|] eqn:Ee.
  - pose proof (lapse_over p None G Ha e Ee) as Hov. set (n := Z.max 0 (time_to_run p e)) in *. pose proof (s32_range (e - jiffies p)) as Hs.
    destruct (runs_ok _ _ _ (timer_ok _ (lapse_ok n p Hp) (or_intror Hov))) as ([] & p1 & E1 & Hp1 & Hc1 & _ & _ & H1). destruct (H1 Hov) as [Hw El].
    destruct (work_suspends p1 Hp1 (Hc1 None) El) as (m & p2 & p3 & E2 & E3 & B). exists n, p1, m, p2, p3.
    split; [unfold n, time_to_run; lia|]. split; [right; split; [now exists e|done]|done].
  - destruct Hc as [(x & Hx & Hf)|[(e & He & _)|(El & [Hw|])]]; [rewrite Ha in Hf; done|congruence| |done].
    destruct (work_suspends p Hp (or_intror (or_intror (conj El (or_introl Hw)))) El) as (m & p2 & p3 & E2 & E3 & B). exists 0, p, m, p2, p3.
    split; [lia|]. split; [now left|done].
Qed.

Lemma wakelock_calls_correct_witness : wl_ok wake_demo /\ exists h p', has_wake_lock WAKE_LOCK_SUSPEND wake_demo = Ok (h, p') /\ has_result wake_demo h.
Proof.
  destruct (wakelock_calls_correct wake_demo None demo_reachable) as (H1 & _ & _ & _ & _ & _ & H2). exact (conj H1 H2).
Defined.

Lemma wakelock_blocks_suspend_witness : exists p', power_suspend_late wake_demo = Ok (- EAGAIN, p').
Proof. exact (proj1 (proj2 (wakelock_blocks_suspend wake_demo None 10 demo_reachable demo_blocks))). Defined.

Lemma wakelock_no_forgotten_suspend_witness : exists n p1 m p2 p3, 0 <= n < 2 ^ 31 /\
  (expire_timer wake_demo = None /\ n = 0 /\ p1 = wake_demo \/ is_Some (expire_timer wake_demo) /\ expire_wake_locks (lapse n wake_demo) = Ok (tt, p1)) /\
  suspend_work p1 = true /\ suspend_enter p1 = Ok (Some m, p2) /\ suspend_exit m p2 = Ok (tt, p3) /\ blocks p3 unknown_wakeup.
Proof.
  apply (proj2 (proj1 wakelock_no_forgotten_suspend wake_demo None demo_reachable) eq_refl).
  intros x Hx. rewrite demo_list in Hx. apply list_elem_of_singleton in Hx as ->. vm_compute. reflexivity.
Defined.

(** The lock is over after 256 jiffies, which wrap around 2^32; the timer is set to that. *)
Example demo_timer : expire_timer wake_demo = Some 250 /\ remaining wake_demo 10 = 256.
Proof. vm_compute. split; reflexivity. Qed.
