(* ===== verification/EarlySuspend.v ===== *)
(** Early suspend (kernel/power/earlysuspend.c, include/linux/earlysuspend.h), on
    top of the wake locks.

    The work functions [early_suspend], [late_resume] and [suspend] run one after
    the other on the thread of [suspend_work_queue]; each is split where others
    can come between: at the ends of the state spinlock and at each call of a
    handler.  While handlers are called the mutex is held, so no handler can be
    added or taken away.  A handler is its level and whether it has the two
    functions; what these do is the driver's, a call of them is an event.  [sync_system]
    runs on a queue of its own.  Without CONFIG_S5P_LPAUDIO; messages left out. *)

From stdpp Require Import gmap.
From S2P Require Import Prelude.
From S2P Require Import State Wakelock.

Definition SUSPEND_REQUESTED : Z := 1.
Definition SUSPENDED : Z := 2.
Definition SUSPEND_REQUESTED_AND_SUSPENDED : Z := Z.lor SUSPEND_REQUESTED SUSPENDED.
Definition PM_SUSPEND_ON : Z := 0.
Definition PM_SUSPEND_MEM : Z := 3.

Record handler := Handler { level : Z; suspend_fn : bool; resume_fn : bool }.
Inductive event := Registered (h : Z) | SuspendCalled (h : Z) (H : handler) | ResumeCalled (h : Z) (H : handler).

(** Where the thread of the queue is: before a function takes its locks, calling
    the handlers that are left, before the last part, or in [pm_suspend]. *)
Inductive place := Waiting | EarlyBegin | EarlyCalls (rest : list Z) | EarlyEnd | LateBegin | LateCalls (rest : list Z) | InSuspend (n : Z).

Record system := System {
  pw : power;
  state : Z;
  requested_suspend_state : Z;
  handlers : gmap Z handler;
  early_suspend_handlers : list Z;
  early_suspend_work : bool;
  late_resume_work : bool;
  sync_system_work : bool;
  thread : place;
  syncing : bool;
  events : list event        (* the last one first *)
}.

Abbreviation SM := (ST system).

Definition set_power (p : power) : SM unit := modify (fun s =>
  System p (state s) (requested_suspend_state s) (handlers s) (early_suspend_handlers s) (early_suspend_work s) (late_resume_work s) (sync_system_work s) (thread s) (syncing s) (events s)).
Definition set_state (v : Z) : SM unit := modify (fun s =>
  System (pw s) v (requested_suspend_state s) (handlers s) (early_suspend_handlers s) (early_suspend_work s) (late_resume_work s) (sync_system_work s) (thread s) (syncing s) (events s)).
Definition set_requested (v : Z) : SM unit := modify (fun s =>
  System (pw s) (state s) v (handlers s) (early_suspend_handlers s) (early_suspend_work s) (late_resume_work s) (sync_system_work s) (thread s) (syncing s) (events s)).
Definition set_handlers (m : gmap Z handler) (l : list Z) : SM unit := modify (fun s =>
  System (pw s) (state s) (requested_suspend_state s) m l (early_suspend_work s) (late_resume_work s) (sync_system_work s) (thread s) (syncing s) (events s)).
Definition set_early (b : bool) : SM unit := modify (fun s =>
  System (pw s) (state s) (requested_suspend_state s) (handlers s) (early_suspend_handlers s) b (late_resume_work s) (sync_system_work s) (thread s) (syncing s) (events s)).
Definition set_late (b : bool) : SM unit := modify (fun s =>
  System (pw s) (state s) (requested_suspend_state s) (handlers s) (early_suspend_handlers s) (early_suspend_work s) b (sync_system_work s) (thread s) (syncing s) (events s)).
Definition set_sync (b running : bool) : SM unit := modify (fun s =>
  System (pw s) (state s) (requested_suspend_state s) (handlers s) (early_suspend_handlers s) (early_suspend_work s) (late_resume_work s) b (thread s) running (events s)).
Definition set_thread (t : place) : SM unit := modify (fun s =>
  System (pw s) (state s) (requested_suspend_state s) (handlers s) (early_suspend_handlers s) (early_suspend_work s) (late_resume_work s) (sync_system_work s) t (syncing s) (events s)).
Definition emit (e : event) : SM unit := modify (fun s =>
  System (pw s) (state s) (requested_suspend_state s) (handlers s) (early_suspend_handlers s) (early_suspend_work s) (late_resume_work s) (sync_system_work s) (thread s) (syncing s) (e :: events s)).

Definition on_power {A} (m : PM A) : SM A :=
  p ← gets pw;
  '(a, p) ← lift (m p);
  set_power p;;
  mret a.

Definition handler_at (h : Z) : SM handler :=
  m ← gets handlers;
  match m !! h with Some H => mret H | None => fail OutOfBounds end.

(** * Registration *)

(** The list with [h] put before the first handler of a higher level. *)
Fixpoint insert_level (lv h : Z) (l : list Z) : SM (list Z) :=
  match l with
  | [] => mret [h]
  | e :: l' =>
      E ← handler_at e;
      if lv <? level E then mret (h :: e :: l') else
      l' ← insert_level lv h l';
      mret (e :: l')
  end.

(** A handler that is on the list already would tear the list. *)
Definition register_early_suspend (h : Z) (H : handler) : SM unit :=
  l ← gets early_suspend_handlers;
  if bool_decide (h ∈ l) then fail OutOfBounds else
  l ← insert_level (level H) h l;
  m ← gets handlers;
  set_handlers (<[h := H]> m) l;;
  emit (Registered h);;
  s ← gets state;
  if negb (Z.land s SUSPENDED =? 0) && suspend_fn H then emit (SuspendCalled h H) else mret tt.

Definition unregister_early_suspend (h : Z) : SM unit :=
  l ← gets early_suspend_handlers;
  m ← gets handlers;
  if bool_decide (h ∈ l) then set_handlers m (without h l) else fail OutOfBounds.

(** * The work functions *)

Definition early_begin : SM unit :=
  s ← gets state;
  if s =? SUSPEND_REQUESTED then
    set_state (Z.lor s SUSPENDED);;
    l ← gets early_suspend_handlers;
    set_thread (EarlyCalls l)
  else set_thread EarlyEnd.

Definition early_call (h : Z) (rest : list Z) : SM unit :=
  H ← handler_at h;
  (if suspend_fn H then emit (SuspendCalled h H) else mret tt);;
  set_thread (EarlyCalls rest).

Definition early_sync : SM unit :=
  r ← gets syncing;
  set_sync true r;;
  set_thread EarlyEnd.

Definition early_end : SM unit :=
  s ← gets state;
  (if s =? SUSPEND_REQUESTED_AND_SUSPENDED then on_power (wake_unlock main_wake_lock) else mret tt);;
  set_thread Waiting.

Definition late_begin : SM unit :=
  s ← gets state;
  if s =? SUSPENDED then
    set_state (Z.land s (lnot32 SUSPENDED));;
    l ← gets early_suspend_handlers;
    set_thread (LateCalls (rev l))
  else set_thread Waiting.

Definition late_call (h : Z) (rest : list Z) : SM unit :=
  H ← handler_at h;
  (if resume_fn H then emit (ResumeCalled h H) else mret tt);;
  set_thread (LateCalls rest).

(** The next part of what the thread runs. *)
Definition thread_step : SM unit :=
  t ← gets thread;
  match t with
  | Waiting => mret tt
  | EarlyBegin => early_begin
  | EarlyCalls [] => early_sync
  | EarlyCalls (h :: rest) => early_call h rest
  | EarlyEnd => early_end
  | LateBegin => late_begin
  | LateCalls [] => set_thread Waiting
  | LateCalls (h :: rest) => late_call h rest
  | InSuspend n => on_power (suspend_exit n);; set_thread Waiting
  end.

(** The thread takes a work off its queue. *)
Definition take_early : SM unit := set_early false;; set_thread EarlyBegin.
Definition take_late : SM unit := set_late false;; set_thread LateBegin.
Definition take_suspend : SM unit :=
  x ← on_power suspend_enter;
  set_thread (match x with Some n => InSuspend n | None => Waiting end).

Fixpoint advance (n : nat) : SM unit :=
  match n with
  | O => mret tt
  | S n => thread_step;; advance n
  end.

(** The functions from the start to the end, with nothing in between: the
    handlers and at most three more parts. *)
Definition early_suspend : SM unit :=
  l ← gets early_suspend_handlers;
  take_early;;
  advance (length l + 3).
Definition late_resume : SM unit :=
  l ← gets early_suspend_handlers;
  take_late;;
  advance (length l + 2).

Definition sync_begin : SM unit := set_sync false true;; on_power (wake_lock sync_wake_lock).
Definition sync_end : SM unit :=
  on_power (wake_unlock sync_wake_lock);;
  b ← gets sync_system_work;
  set_sync b false.
Definition sync_system : SM unit := sync_begin;; sync_end.

(** * Requests *)

Definition request_suspend_state (new_state : Z) : SM unit :=
  s ← gets state;
  let old_sleep := negb (Z.land s SUSPEND_REQUESTED =? 0) in
  (if negb old_sleep && negb (new_state =? PM_SUSPEND_ON) then
     set_state (Z.lor s SUSPEND_REQUESTED);;
     set_early true
   else if old_sleep && (new_state =? PM_SUSPEND_ON) then
     set_state (Z.land s (lnot32 SUSPEND_REQUESTED));;
     on_power (wake_lock main_wake_lock);;
     set_late true
   else mret tt);;
  set_requested new_state.

Definition get_suspend_state : SM Z := gets requested_suspend_state.

(** After [wakelocks_init]. *)
Definition system_start (p : power) : system := System p 0 PM_SUSPEND_MEM ∅ [] false false false Waiting false [].
