(* ===== verification/EarlySuspendInv.v ===== *)
(** Early suspend: the invariant of the state machine, its handlers and the main
    wake lock, and that every part of the functions keeps it. *)

From stdpp Require Import gmap sorting.
From S2P Require Import Prelude.
From S2P Require Import Ring State Wakelock WakelockInv WakelockOps WakelockSteps WakelockCalls EarlySuspend.

(** * The wake locks it uses *)

(** Held without a timeout. *)
Definition permanent (p : power) (x : Z) : Prop := x ∈ suspend_list p /\ auto p x = false.

Lemma still_permanent p p' T x : still p p' T -> ~ T x -> permanent p x -> permanent p' x.
Proof. intros S Hx [Hin Ha]. destruct (proj1 (S x Hx)) as [[Hin' _] Ea]; [split; auto|]. split; [done|congruence]. Qed.

(** What a call leaves of the main lock: as it was, held or inactive. *)
Definition main_kept (p p' : power) : Prop :=
  (permanent p main_wake_lock -> permanent p' main_wake_lock) /\ (main_wake_lock ∈ inactive_locks p -> main_wake_lock ∈ inactive_locks p').

Lemma still_main p p' T : still p p' T -> ~ T main_wake_lock -> main_kept p p'.
Proof. intros S HT. split; [now apply (still_permanent p p' T)|]. now apply (S main_wake_lock HT). Qed.

Lemma fine_to_good p p' run T : good p run -> fine p p' T -> good p' run.
Proof. intros [G1 G2] [F1 F2 F3 F4 F5]. split; auto. Qed.

Lemma main_locked p run : good p run -> runs (wake_lock main_wake_lock) p (fun _ p' => good p' run /\ permanent p' main_wake_lock).
Proof.
  intros G. pose proof G as [Hp _]. pose proof (wo_main p Hp) as Hm. eapply runs_mono; [apply (lock_ok p main_wake_lock 0 false Hp), suspend_type_linked; done|].
  intros [] p' [F B]. split; [eapply fine_to_good; eauto|]. destruct B as [[Hin _] Ha]; [done|now left|]. done.
Qed.

Lemma main_unlocked p run : good p run -> runs (wake_unlock main_wake_lock) p (fun _ p' => good p' run /\ main_wake_lock ∈ inactive_locks p').
Proof.
  intros G. pose proof G as [Hp _]. eapply runs_mono; [apply (unlock_ok p main_wake_lock Hp), suspend_type_linked, wo_main; done|].
  intros [] p' [F Hi]. split; [eapply fine_to_good; eauto|done].
Qed.

Lemma sync_locked p run : good p run -> runs (wake_lock sync_wake_lock) p (fun _ p' => good p' run /\ main_kept p p').
Proof.
  intros G. pose proof G as [Hp _]. eapply runs_mono; [apply (lock_ok p sync_wake_lock 0 false Hp), suspend_type_linked, wo_sync; done|].
  intros [] p' [F _]. split; [eapply fine_to_good; eauto|]. eapply still_main; [apply F|done].
Qed.

Lemma sync_unlocked p run : good p run -> runs (wake_unlock sync_wake_lock) p (fun _ p' => good p' run /\ main_kept p p').
Proof.
  intros G. pose proof G as [Hp _]. eapply runs_mono; [apply (unlock_ok p sync_wake_lock Hp), suspend_type_linked, wo_sync; done|].
  intros [] p' [F _]. split; [eapply fine_to_good; eauto|]. eapply still_main; [apply F|done].
Qed.

Lemma enter_kept p : good p None -> runs suspend_enter p (fun x p' => good p' x /\ main_kept p p').
Proof.
  intros [Hp Hc]. eapply runs_mono; [exact (enter_ok p Hp Hc)|]. intros x p' (H1 & H2 & H3 & _). split; [now split|]. eapply still_main; [exact H3|intros []].
Qed.

Lemma exit_kept p n : good p (Some n) -> runs (suspend_exit n) p (fun _ p' => good p' None /\ main_kept p p').
Proof.
  intros [Hp Hc]. eapply runs_mono; [exact (exit_ok p n Hp Hc)|]. intros [] p' (H1 & H2 & H3). split; [now split|]. now eapply still_main; [exact H3|].
Qed.

(** Calls of others: not on the two locks, and not the suspend work itself. *)
Definition foreign (c : call) : Prop :=
  match c with
  | CWork | CResume => False
  | CLock id | CTimeout id _ | CUnlock id => id <> main_wake_lock /\ id <> sync_wake_lock
  | _ => True
  end.

#[global] Instance about_dec p c x : Decision (about p c x).
Proof. destruct c; cbn [about]; apply _. Defined.

Lemma foreign_result c run p run' p' : foreign c -> perform c run p = Ok (run', p') -> run' = run.
Proof.
  destruct c; cbn [foreign perform]; try done; intros _; unfold mbind, ST_bind;
    match goal with |- match ?m ?q with _ => _ end = _ -> _ => destruct (m q) as [[? ?]|]; [|done] end; intros H; now injection H.
Qed.

Lemma foreign_kept p run c : good p run -> enabled p run c -> foreign c -> runs (perform c run) p (fun run' p' => run' = run /\ good p' run /\ main_kept p p').
Proof.
  intros G He Hf. destruct (proj1 (runs_exists _ _ _) (call_ok p run c G He)) as (run' & p' & E & G' & S).
  pose proof (foreign_result c run p run' p' Hf E) as ->. eapply runs_eq; [exact E|]. split; [done|]. split; [done|]. split.
  - intros Hm. apply (still_permanent p p' _ _ S); [|done]. destruct c; cbn [about foreign enabled] in *; try tauto; try (intros <-; tauto).
    + destruct He as [_ He]. intros <-. apply He. left.
    + destruct Hm as [_ Hm]. rewrite Hm. intros [_ ?]. done.
  - intros Hi. destruct (decide (about p c main_wake_lock)) as [Ha|Ha].
    + destruct c; cbn [about foreign enabled] in *; try done; try (destruct Hf; congruence).
      * destruct He as [_ He]. exfalso. apply He. rewrite <- Ha. left.
      * cbn [perform] in E. injection E as <-. exact Hi.
    + now apply (S main_wake_lock Ha).
Qed.

(** * Handlers *)

Fixpoint is_down (l : list event) (h : Z) : bool :=
  match l with
  | [] => false
  | Registered x :: l | ResumeCalled x _ :: l => if x =? h then false else is_down l h
  | SuspendCalled x _ :: l => if x =? h then true else is_down l h
  end.

(** A handler with both functions is suspended only when it is up, and resumed
    only when it is down. *)
Fixpoint matched (l : list event) : Prop :=
  match l with
  | [] => True
  | Registered _ :: l => matched l
  | SuspendCalled h H :: l => (resume_fn H = true -> is_down l h = false) /\ matched l
  | ResumeCalled h H :: l => (suspend_fn H = true -> is_down l h = true) /\ matched l
  end.

Definition level_of (m : gmap Z handler) (h : Z) : Z := match m !! h with Some H => level H | None => 0 end.
Definition by_level (m : gmap Z handler) (a b : Z) : Prop := level_of m a <= level_of m b.
Record hlist_ok (m : gmap Z handler) (l : list Z) : Prop := {
  hl_nodup : NoDup l;
  hl_known : forall h, h ∈ l -> is_Some (m !! h);
  hl_sorted : StronglySorted (by_level m) l
}.

Definition full (m : gmap Z handler) (h : Z) : Prop := exists H, m !! h = Some H /\ suspend_fn H = true /\ resume_fn H = true.

Definition run_of (s : system) : option Z := match thread s with InSuspend n => Some n | _ => None end.
Definition mutex_free (s : system) : Prop := match thread s with EarlyCalls _ | LateCalls _ => False | _ => True end.
Definition early_busy (t : place) : Prop := match t with EarlyBegin | EarlyCalls _ | EarlyEnd => True | _ => False end.

(** Whether a handler should be down. *)
Definition expected (s : system) (h : Z) : bool :=
  match thread s with
  | EarlyCalls rest => negb (bool_decide (h ∈ rest))
  | LateCalls rest => bool_decide (h ∈ rest)
  | _ => Z.testbit (state s) 1
  end.

Definition phase_ok (s : system) : Prop :=
  match thread s with
  | EarlyCalls rest => Z.testbit (state s) 1 = true /\ exists done, early_suspend_handlers s = done ++ rest
  | LateCalls rest => Z.testbit (state s) 1 = false /\ exists done, rev (early_suspend_handlers s) = done ++ rest
  | _ => True
  end.

(** What is still to be done for the state that was asked for. *)
Record todo (s : system) : Prop := {
  td_early : state s = 1 -> early_suspend_work s = true \/ thread s = EarlyBegin;
  td_late : state s = 2 -> late_resume_work s = true \/ thread s = LateBegin;
  td_main : state s = 3 -> main_wake_lock ∈ inactive_locks (pw s) \/ early_suspend_work s = true \/ early_busy (thread s)
}.

Record es_ok (s : system) : Prop := {
  eo_good : good (pw s) (run_of s);
  eo_state : 0 <= state s < 4;
  eo_main : permanent (pw s) main_wake_lock \/ state s = 3;
  eo_todo : todo s;
  eo_list : hlist_ok (handlers s) (early_suspend_handlers s);
  eo_phase : phase_ok s;
  eo_down : forall h, h ∈ early_suspend_handlers s -> full (handlers s) h -> is_down (events s) h = expected s h;
  eo_matched : matched (events s)
}.

Definition with_pw (s : system) (p : power) : system :=
  System p (state s) (requested_suspend_state s) (handlers s) (early_suspend_handlers s) (early_suspend_work s) (late_resume_work s) (sync_system_work s) (thread s) (syncing s) (events s).

Lemma runs_on_power {A} (m : PM A) s (Q : A -> system -> Prop) : runs m (pw s) (fun a p => Q a (with_pw s p)) -> runs (on_power m) s Q.
Proof.
  intros H. apply runs_gets. unfold runs, lift, mbind, ST_bind in *. destruct (m (pw s)) as [[a p]|e]; [|exact H]. exact H.
Qed.

Lemma es_ok_power s p : es_ok s -> good p (run_of s) -> main_kept (pw s) p -> es_ok (with_pw s p).
Proof.
  intros [E1 E2 E3 [T1 T2 T3] E5 E6 E7 E8] G [K1 K2]. split; try done.
  - destruct E3 as [?|?]; [left; auto|now right].
  - split; [done|done|]. intros Hs. destruct (T3 Hs) as [?|?]; [left; auto|now right].
Qed.

(** * Requests *)

Lemma state_cases x : 0 <= x < 4 -> x = 0 \/ x = 1 \/ x = 2 \/ x = 3.
Proof. lia. Qed.

Definition with_state (s : system) (p : power) (st rq : Z) (ew lw : bool) : system :=
  System p st rq (handlers s) (early_suspend_handlers s) ew lw (sync_system_work s) (thread s) (syncing s) (events s).

Lemma es_ok_state s p st rq ew lw : es_ok s -> good p (run_of s) -> 0 <= st < 4 -> Z.testbit st 1 = Z.testbit (state s) 1 ->
  permanent p main_wake_lock \/ st = 3 -> todo (with_state s p st rq ew lw) -> es_ok (with_state s p st rq ew lw).
Proof.
  intros [E1 E2 E3 E4 E5 E6 E7 E8] G Hst Hb Hm Ht. split; try done.
  - unfold phase_ok in *. cbn [with_state thread state early_suspend_handlers]. rewrite Hb. exact E6.
  - intros h Hh Hf. specialize (E7 h Hh Hf). unfold expected in *. cbn [with_state thread state events]. rewrite Hb. exact E7.
Qed.

Lemma request_ok s n : es_ok s -> runs (request_suspend_state n) s (fun _ s' => es_ok s').
Proof.
  intros E. pose proof E as [E1 E2 E3 [T1 T2 T3] E5 E6 E7 E8]. unfold request_suspend_state. apply runs_gets. cbv zeta. apply runs_bind.
  assert (E3' : state s <> 3 -> permanent (pw s) main_wake_lock) by (intros; destruct E3; done).
  destruct (Z.eqb_spec n PM_SUSPEND_ON) as [En|En].
  - destruct (state_cases _ E2) as [Es|[Es|[Es|Es]]]; rewrite Es; cbn -[wake_lock].
    1, 3: enough (es_ok (with_state s (pw s) (state s) n (early_suspend_work s) (late_resume_work s))) as X by exact X; apply es_ok_state; try done; now split.
    all: apply runs_bind, runs_modify, runs_bind, runs_on_power; (eapply runs_mono; [exact (main_locked (pw s) (run_of s) E1)|]); intros [] p [G Hm]; apply runs_modify.
    + enough (es_ok (with_state s p 0 n (early_suspend_work s) true)) as X by exact X. apply es_ok_state; try done; try (now rewrite Es); try (now left).
    + enough (es_ok (with_state s p 2 n (early_suspend_work s) true)) as X by exact X. apply es_ok_state; try done; try (now rewrite Es); try (now left). split; try done. intros _. now left.
  - destruct (state_cases _ E2) as [Es|[Es|[Es|Es]]]; rewrite Es; cbn -[wake_lock].
    2, 4: enough (es_ok (with_state s (pw s) (state s) n (early_suspend_work s) (late_resume_work s))) as X by exact X; apply es_ok_state; try done; now split.
    + enough (es_ok (with_state s (pw s) 1 n true (late_resume_work s))) as X by exact X. apply es_ok_state; try done; try (now rewrite Es); try (left; apply E3'; lia). split; try done. intros _. now left.
    + enough (es_ok (with_state s (pw s) 3 n true (late_resume_work s))) as X by exact X. apply es_ok_state; try done; try (now rewrite Es); try (now right). split; try done. intros _. right. now left.
Qed.

(** * The thread *)

Definition with_thread (s : system) (st : Z) (t : place) (ew lw sw : bool) (ev : list event) : system :=
  System (pw s) st (requested_suspend_state s) (handlers s) (early_suspend_handlers s) ew lw sw t (syncing s) ev.

Lemma bit1_3 : Z.testbit 3 1 = true.
Proof. reflexivity. Qed.

Lemma early_begin_ok s : es_ok s -> thread s = EarlyBegin -> runs early_begin s (fun _ s' => es_ok s').
Proof.
  intros [E1 E2 E3 [T1 T2 T3] E5 E6 E7 E8] Et. unfold early_begin. apply runs_gets. unfold run_of, expected in *. rewrite Et in *.
  destruct (Z.eqb_spec (state s) SUSPEND_REQUESTED) as [Es|Es].
  - unfold SUSPEND_REQUESTED in Es. apply runs_bind, runs_modify, runs_gets, runs_modify. rewrite Es. split; cbn; try done.
    + left. destruct E3; [done|lia].
    + split; cbn; try done. intros _. right. now right.
    + split; [done|]. now exists [].
    + intros h Hh Hf. rewrite (E7 h Hh Hf), Es. unfold expected. cbn. symmetry. apply negb_false_iff. now apply bool_decide_eq_true.
  - apply runs_modify. split; cbn; try done. split; cbn.
    + intros H. destruct (T1 H) as [|]; [now left|]. now destruct Es.
    + intros H. destruct (T2 H); [now left|done].
    + intros _. now right; right.
Qed.

Lemma handler_at_eq s h H : handlers s !! h = Some H -> handler_at h s = Ok (H, s).
Proof. unfold handler_at, gets, mbind, ST_bind. now intros ->. Qed.

Lemma is_down_other e l x h : (match e with Registered y | SuspendCalled y _ | ResumeCalled y _ => y end) = x -> h <> x -> is_down (e :: l) h = is_down l h.
Proof. intros Hx Hne. destruct e; cbn in *; subst; destruct (Z.eqb_spec x h); congruence. Qed.

(** A handler with both functions is the one the map says. *)
Lemma full_fn m h H : m !! h = Some H -> full m h -> suspend_fn H = true /\ resume_fn H = true.
Proof. intros HH (H' & HH' & ?). now simplify_eq. Qed.

Lemma early_call_ok s h rest : es_ok s -> thread s = EarlyCalls (h :: rest) -> runs (early_call h rest) s (fun _ s' => es_ok s').
Proof.
  intros [E1 E2 E3 [T1 T2 T3] E5 E6 E7 E8] Et. unfold run_of, phase_ok, expected in *. rewrite Et in *. destruct E6 as (Eb & dn & El).
  assert (h ∈ early_suspend_handlers s) as Hin by (rewrite El; set_solver). destruct (hl_known _ _ E5 h Hin) as [H HH].
  pose proof (hl_nodup _ _ E5) as Hn. rewrite El in Hn. apply list.NoDup_app in Hn as (_ & _ & [Hn _]%list.NoDup_cons).
  unfold early_call. apply runs_bind. eapply runs_eq; [apply handler_at_eq; exact HH|].
  set (ev := if suspend_fn H then SuspendCalled h H :: events s else events s).
  enough (es_ok (with_thread s (state s) (EarlyCalls rest) (early_suspend_work s) (late_resume_work s) (sync_system_work s) ev)) as X.
  { unfold ev in X. destruct (suspend_fn H); exact X. }
  split; try done.
  - split; cbn; [intros Hs; destruct (T1 Hs); [now left|done]|intros Hs; destruct (T2 Hs); [now left|done]|now right; right].
  - split; [exact Eb|]. exists (dn ++ [h]). cbn. now rewrite <- app_assoc.
  - intros x Hx Hf. cbn in Hx, Hf. specialize (E7 x Hx Hf). unfold expected. cbn [with_thread thread events]. unfold ev. destruct (decide (x = h)) as [->|Hne].
    + destruct (full_fn _ _ _ HH Hf) as [-> _]. cbn. rewrite Z.eqb_refl. symmetry. apply negb_true_iff. now apply bool_decide_eq_false.
    + transitivity (is_down (events s) x); [destruct (suspend_fn H); [now apply (is_down_other _ _ h)|done]|]. rewrite E7. f_equal. apply bool_decide_ext. set_solver.
  - cbn [with_thread events]. unfold ev. destruct (suspend_fn H) eqn:Efn; [|done]. split; [|done]. intros Er.
    rewrite (E7 h Hin); [|now exists H]. apply negb_false_iff. apply bool_decide_eq_true. left.
Qed.

Lemma late_call_ok s h rest : es_ok s -> thread s = LateCalls (h :: rest) -> runs (late_call h rest) s (fun _ s' => es_ok s').
Proof.
  intros [E1 E2 E3 [T1 T2 T3] E5 E6 E7 E8] Et. unfold run_of, phase_ok, expected in *. rewrite Et in *. destruct E6 as (Eb & dn & El).
  assert (h ∈ early_suspend_handlers s) as Hin by (rewrite <- (rev_involutive (early_suspend_handlers s)), El; apply list_elem_of_In; rewrite <- in_rev; apply list_elem_of_In; set_solver).
  destruct (hl_known _ _ E5 h Hin) as [H HH].
  assert (NoDup (rev (early_suspend_handlers s))) as Hn by (rewrite <- Permutation_rev; apply (hl_nodup _ _ E5)).
  rewrite El in Hn. apply list.NoDup_app in Hn as (_ & _ & [Hn _]%list.NoDup_cons).
  unfold late_call. apply runs_bind. eapply runs_eq; [apply handler_at_eq; exact HH|].
  set (ev := if resume_fn H then ResumeCalled h H :: events s else events s).
  enough (es_ok (with_thread s (state s) (LateCalls rest) (early_suspend_work s) (late_resume_work s) (sync_system_work s) ev)) as X.
  { unfold ev in X. destruct (resume_fn H); exact X. }
  split; try done.
  - split; cbn; [intros Hs; destruct (T1 Hs); [now left|done]|intros Hs; destruct (T2 Hs); [now left|done]|].
    intros Hs. rewrite Hs in Eb. done.
  - split; [exact Eb|]. exists (dn ++ [h]). cbn. now rewrite <- app_assoc.
  - intros x Hx Hf. cbn in Hx, Hf. specialize (E7 x Hx Hf). unfold expected. cbn [with_thread thread events]. unfold ev. destruct (decide (x = h)) as [->|Hne].
    + destruct (full_fn _ _ _ HH Hf) as [_ ->]. cbn. rewrite Z.eqb_refl. symmetry. now apply bool_decide_eq_false.
    + transitivity (is_down (events s) x); [destruct (resume_fn H); [now apply (is_down_other _ _ h)|done]|]. rewrite E7. apply bool_decide_ext. set_solver.
  - cbn [with_thread events]. unfold ev. destruct (resume_fn H) eqn:Efn; [|done]. split; [|done]. intros Er.
    rewrite (E7 h Hin); [|now exists H]. apply bool_decide_eq_true. left.
Qed.

Lemma late_begin_ok s : es_ok s -> thread s = LateBegin -> runs late_begin s (fun _ s' => es_ok s').
Proof.
  intros [E1 E2 E3 [T1 T2 T3] E5 E6 E7 E8] Et. unfold late_begin. apply runs_gets. unfold run_of, expected in *. rewrite Et in *.
  destruct (Z.eqb_spec (state s) SUSPENDED) as [Es|Es].
  - unfold SUSPENDED in Es. apply runs_bind, runs_modify, runs_gets, runs_modify. rewrite Es.
    enough (es_ok (with_thread s 0 (LateCalls (rev (early_suspend_handlers s))) (early_suspend_work s) (late_resume_work s) (sync_system_work s) (events s))) as X by exact X.
    split; try done.
    + left. destruct E3; [done|lia].
    + split; [done|]. now exists [].
    + intros h Hh Hf. cbn in Hh, Hf |- *. rewrite (E7 h Hh Hf), Es. unfold expected. cbn. symmetry. apply bool_decide_eq_true. apply list_elem_of_In. rewrite <- in_rev. now apply list_elem_of_In.
  - apply runs_modify. split; try done. split; cbn.
    + intros H. destruct (T1 H) as [|]; [now left|done].
    + intros H. destruct (T2 H); [now left|done].
    + intros H. destruct (T3 H) as [|[|[]]]; [now left|right; now left].
Qed.

(** The thread between two parts where nothing else changes. *)
Lemma es_ok_thread s t sw : es_ok s -> run_of s = None ->
  match t with EarlyCalls _ | LateCalls _ | InSuspend _ => False | _ => True end ->
  (forall h, h ∈ early_suspend_handlers s -> expected s h = Z.testbit (state s) 1) ->
  todo (with_thread s (state s) t (early_suspend_work s) (late_resume_work s) sw (events s)) ->
  es_ok (with_thread s (state s) t (early_suspend_work s) (late_resume_work s) sw (events s)).
Proof.
  intros [E1 E2 E3 E4 E5 E6 E7 E8] Hr Ht Hx Htd. rewrite Hr in E1. split; try done.
  - now destruct t.
  - unfold phase_ok. now destruct t.
  - intros h Hh Hf. cbn in Hh, Hf. cbn [with_thread events]. rewrite (E7 h Hh Hf), (Hx h Hh). unfold expected. now destruct t.
Qed.

Lemma early_sync_ok s : es_ok s -> thread s = EarlyCalls [] -> runs early_sync s (fun _ s' => es_ok s').
Proof.
  intros E Et. pose proof E as [E1 E2 E3 [T1 T2 T3] E5 E6 E7 E8]. apply runs_gets, runs_bind, runs_modify, runs_modify.
  enough (es_ok (with_thread s (state s) EarlyEnd (early_suspend_work s) (late_resume_work s) true (events s))) as X by exact X.
  apply es_ok_thread; try done; [unfold run_of; now rewrite Et| |].
  - intros h _. unfold expected, phase_ok in *. rewrite Et in *. now rewrite (proj1 E6).
  - rewrite Et in *. split; cbn; [intros Hs; destruct (T1 Hs); [now left|done]|intros Hs; destruct (T2 Hs); [now left|done]|now right; right].
Qed.

Lemma late_done_ok s : es_ok s -> thread s = LateCalls [] -> runs (set_thread Waiting) s (fun _ s' => es_ok s').
Proof.
  intros E Et. pose proof E as [E1 E2 E3 [T1 T2 T3] E5 E6 E7 E8]. apply runs_modify. unfold phase_ok in E6. rewrite Et in *. destruct E6 as [Eb _].
  apply (es_ok_thread s Waiting (sync_system_work s)); try done; [unfold run_of; now rewrite Et| |].
  - intros h _. unfold expected. rewrite Et. now rewrite Eb.
  - split; cbn; [intros Hs; destruct (T1 Hs); [now left|done]|intros Hs; destruct (T2 Hs); [now left|done]|].
    intros Hs. rewrite Hs in Eb. done.
Qed.

Lemma early_end_ok s : es_ok s -> thread s = EarlyEnd -> runs early_end s (fun _ s' => es_ok s' /\ (state s = 3 -> main_wake_lock ∈ inactive_locks (pw s'))).
Proof.
  intros E Et. pose proof E as [E1 E2 E3 [T1 T2 T3] E5 E6 E7 E8]. unfold early_end. apply runs_gets, runs_bind. rewrite Et in *.
  assert (run_of s = None) as Hr by (unfold run_of; now rewrite Et).
  destruct (Z.eqb_spec (state s) SUSPEND_REQUESTED_AND_SUSPENDED) as [Es|Es].
  - change (state s = 3) in Es. apply runs_on_power. eapply runs_mono; [exact (main_unlocked (pw s) (run_of s) E1)|]. intros [] p [G Hi]. apply runs_modify.
    split; [|done]. split; try done.
    + rewrite Hr in G. exact G.
    + now right.
    + split; cbn; try lia. intros _. now left.
    + intros h Hh Hf. cbn in Hh, Hf |- *. rewrite (E7 h Hh Hf). unfold expected. now rewrite Et.
  - apply runs_modify. split; [|done]. apply (es_ok_thread s Waiting (sync_system_work s)); try done.
    + intros h _. unfold expected. now rewrite Et.
    + split; cbn; [intros Hs; destruct (T1 Hs); [now left|done]|intros Hs; destruct (T2 Hs); [now left|done]|done].
Qed.

Lemma exit_part_ok s n : es_ok s -> thread s = InSuspend n -> runs (on_power (suspend_exit n);; set_thread Waiting) s (fun _ s' => es_ok s').
Proof.
  intros E Et. pose proof E as [E1 E2 E3 [T1 T2 T3] E5 E6 E7 E8]. unfold run_of in E1. rewrite Et in *. apply runs_bind, runs_on_power.
  eapply runs_mono; [exact (exit_kept (pw s) n E1)|]. intros [] p [G [K1 K2]]. apply runs_modify. split; try done.
  - destruct E3; [left; auto|now right].
  - split; cbn; [intros Hs; destruct (T1 Hs); [now left|done]|intros Hs; destruct (T2 Hs); [now left|done]|].
    intros Hs. destruct (T3 Hs) as [|[|[]]]; [left; auto|right; now left].
  - intros h Hh Hf. cbn in Hh, Hf |- *. rewrite (E7 h Hh Hf). unfold expected. now rewrite Et.
Qed.

Lemma take_early_ok s : es_ok s -> thread s = Waiting -> early_suspend_work s = true -> runs take_early s (fun _ s' => es_ok s').
Proof.
  intros [E1 E2 E3 [T1 T2 T3] E5 E6 E7 E8] Et Hw. unfold take_early. apply runs_bind, runs_modify, runs_modify. unfold run_of, expected in *. rewrite Et in *.
  split; try done. split; cbn; [now right|intros Hs; destruct (T2 Hs); [now left|done]|now right; right].
Qed.

Lemma take_late_ok s : es_ok s -> thread s = Waiting -> late_resume_work s = true -> runs take_late s (fun _ s' => es_ok s').
Proof.
  intros [E1 E2 E3 [T1 T2 T3] E5 E6 E7 E8] Et Hw. unfold take_late. apply runs_bind, runs_modify, runs_modify. unfold run_of, expected in *. rewrite Et in *.
  split; try done. split; cbn; [intros Hs; destruct (T1 Hs); [now left|done]|now right|]. intros Hs. destruct (T3 Hs) as [|[|[]]]; [now left|right; now left].
Qed.

Lemma take_suspend_ok s : es_ok s -> thread s = Waiting -> runs take_suspend s (fun _ s' => es_ok s').
Proof.
  intros [E1 E2 E3 [T1 T2 T3] E5 E6 E7 E8] Et. unfold take_suspend. unfold run_of, expected in *. rewrite Et in *.
  apply runs_bind, runs_on_power. eapply runs_mono; [exact (enter_kept (pw s) E1)|]. intros x p [G [K1 K2]]. apply runs_modify. split; try done.
  - now destruct x.
  - destruct E3; [left; auto|now right].
  - split; cbn; [intros Hs; destruct (T1 Hs); [now left|done]|intros Hs; destruct (T2 Hs); [now left|done]|].
    intros Hs. destruct (T3 Hs) as [|[|[]]]; [left; auto|right; now left].
  - now destruct x.
  - intros h Hh Hf. cbn in Hh, Hf |- *. rewrite (E7 h Hh Hf). unfold expected. now destruct x.
Qed.

Lemma thread_step_ok s : es_ok s -> runs thread_step s (fun _ s' => es_ok s').
Proof.
  intros E. unfold thread_step. apply runs_gets. destruct (thread s) as [| |[|h rest]| | |[|h rest]|n] eqn:Et.
  - now apply runs_ret.
  - now apply early_begin_ok.
  - now apply early_sync_ok.
  - now apply early_call_ok.
  - eapply runs_mono; [now apply early_end_ok|]. now intros [] s' [? _].
  - now apply late_begin_ok.
  - now apply late_done_ok.
  - now apply late_call_ok.
  - now apply exit_part_ok.
Qed.

(** * Registration *)

Lemma insert_level_ok s lv h l : (forall x, x ∈ l -> is_Some (handlers s !! x)) -> runs (insert_level lv h l) s (fun l' s' => s' = s /\
  exists a b, l = a ++ b /\ l' = a ++ h :: b /\ (forall x, x ∈ a -> level_of (handlers s) x <= lv) /\ (forall e b', b = e :: b' -> lv < level_of (handlers s) e)).
Proof.
  induction l as [|e l IH]; intros Hk; cbn [insert_level].
  - apply runs_ret. split; [done|]. exists [], []. split; [done|]. split; [done|]. split; [set_solver|done].
  - destruct (Hk e) as [E HE]; [left|]. apply runs_bind. eapply runs_eq; [apply handler_at_eq; exact HE|].
    assert (level_of (handlers s) e = level E) as Hl by (unfold level_of; now rewrite HE). destruct (Z.ltb_spec lv (level E)).
    + apply runs_ret. split; [done|]. exists [], (e :: l). split; [done|]. split; [done|]. split; [set_solver|]. intros e' b' [= <- <-]. lia.
    + apply runs_bind. eapply runs_mono; [apply IH; intros x Hx; apply Hk; now right|]. intros l' s' (-> & a & b & -> & -> & Ha & Hb). apply runs_ret.
      split; [done|]. exists (e :: a), b. split; [done|]. split; [done|]. split; [|done]. intros x [->|Hx]%elem_of_cons; [lia|auto].
Qed.

Lemma insert_level_sorted m h H a b : hlist_ok m (a ++ b) -> (h ∉ a ++ b) -> (forall x, x ∈ a -> level_of m x <= level H) ->
  (forall e b', b = e :: b' -> level H < level_of m e) -> hlist_ok (<[h := H]> m) (a ++ h :: b).
Proof.
  intros [H1 H2 H3] Hn Ha Hb. assert (forall x, x ∈ a ++ b -> <[h := H]> m !! x = m !! x) as Hne by (intros x Hx; rewrite lookup_insert_ne; [done|congruence]).
  assert (forall x, x ∈ a ++ b -> level_of (<[h := H]> m) x = level_of m x) as Hlv by (intros x Hx; unfold level_of; now rewrite Hne).
  assert (level_of (<[h := H]> m) h = level H) as Hh by (unfold level_of; now rewrite lookup_insert_eq).
  assert (StronglySorted (by_level (<[h := H]> m)) (a ++ b)) as Hs.
  { eapply sorted_mono; [|exact H3]. intros x y Hx Hy. unfold by_level. now rewrite !Hlv. }
  apply StronglySorted_app in Hs as (S1 & S2 & S3).
  assert (forall y, y ∈ b -> level H <= level_of m y) as Hall.
  { destruct b as [|e b']; [set_solver|]. intros y [->|Hy]%elem_of_cons; [specialize (Hb e b' eq_refl); lia|]. apply StronglySorted_cons in S3 as [Hf _].
    rewrite List.Forall_forall in Hf. specialize (Hf y (proj1 (list_elem_of_In _ _) Hy)). unfold by_level in Hf. rewrite !Hlv in Hf by set_solver. specialize (Hb e b' eq_refl). lia. }
  split.
  - rewrite <- Permutation_middle. now constructor.
  - intros x Hx. destruct (decide (x = h)) as [->|]; [rewrite lookup_insert_eq; eauto|]. rewrite Hne by set_solver. apply H2. set_solver.
  - apply StronglySorted_app. split; [|split; [done|constructor; [done|]]].
    + intros x y Hx [->|Hy]%elem_of_cons; [unfold by_level; rewrite Hh, Hlv by set_solver; auto|]. now apply S1.
    + apply List.Forall_forall. intros y Hy%list_elem_of_In. unfold by_level. rewrite Hh, Hlv by set_solver. auto.
Qed.

Lemma suspended_flag x : negb (Z.land x SUSPENDED =? 0) = Z.testbit x 1.
Proof. exact (has_flag_bit x 1 ltac:(lia)). Qed.

Lemma expected_free s h : mutex_free s -> expected s h = Z.testbit (state s) 1.
Proof. unfold mutex_free, expected. now destruct (thread s). Qed.

Lemma register_ok s h H : es_ok s -> mutex_free s -> (h ∉ early_suspend_handlers s) -> runs (register_early_suspend h H) s (fun _ s' => es_ok s').
Proof.
  intros [E1 E2 E3 [T1 T2 T3] E5 E6 E7 E8] Hfree Hn. unfold register_early_suspend. apply runs_gets. rewrite bool_decide_eq_false_2 by done.
  apply runs_bind. eapply runs_mono; [exact (insert_level_ok s (level H) h _ (hl_known _ _ E5))|]. intros l' s' (-> & a & b & El & -> & Ha & Hb).
  apply runs_gets, runs_bind, runs_modify, runs_bind, runs_modify, runs_gets. rewrite suspended_flag. cbn [state].
  set (ev := if Z.testbit (state s) 1 && suspend_fn H then SuspendCalled h H :: Registered h :: events s else Registered h :: events s).
  enough (es_ok (System (pw s) (state s) (requested_suspend_state s) (<[h := H]> (handlers s)) (a ++ h :: b) (early_suspend_work s) (late_resume_work s)
    (sync_system_work s) (thread s) (syncing s) ev)) as X.
  { unfold ev in X. destruct (Z.testbit (state s) 1 && suspend_fn H); exact X. }
  split; try done.
  - rewrite El in E5, Hn. now apply insert_level_sorted.
  - unfold phase_ok, mutex_free in *. cbn. now destruct (thread s).
  - intros x Hx Hf. cbn [early_suspend_handlers handlers events] in *. rewrite expected_free by exact Hfree. cbn [state]. destruct (decide (x = h)) as [->|Hne].
    + destruct (full_fn _ _ _ (lookup_insert_eq _ _ _) Hf) as [Hs _]. unfold ev. rewrite Hs, andb_true_r. destruct (Z.testbit (state s) 1); cbn; now rewrite Z.eqb_refl.
    + rewrite <- (expected_free s x Hfree), <- (E7 x).
      * unfold ev. destruct (_ && _); repeat (rewrite (is_down_other _ _ h) by done); done.
      * rewrite El. set_solver.
      * destruct Hf as (H' & HH & ?). rewrite lookup_insert_ne in HH by done. now exists H'.
  - cbn [events]. unfold ev. destruct (Z.testbit (state s) 1 && suspend_fn H); [|done]. split; [|done]. intros _. cbn. now rewrite Z.eqb_refl.
Qed.

Lemma unregister_ok s h : es_ok s -> mutex_free s -> h ∈ early_suspend_handlers s -> runs (unregister_early_suspend h) s (fun _ s' => es_ok s').
Proof.
  intros [E1 E2 E3 [T1 T2 T3] [H1 H2 H3] E6 E7 E8] Hfree Hin. unfold unregister_early_suspend. apply runs_gets, runs_gets. rewrite bool_decide_eq_true_2 by done.
  apply runs_modify. split; try done.
  - split; cbn; [now apply list.NoDup_filter|intros x [Hx _]%elem_without; auto|now apply without_sorted].
  - unfold phase_ok, mutex_free in *. cbn. now destruct (thread s).
  - intros x Hx Hf. cbn [early_suspend_handlers handlers events] in *. apply elem_without in Hx as [Hx _]. rewrite (E7 x Hx Hf), !expected_free; done.
Qed.

(** * The other queue, and other callers *)

Lemma es_ok_sync s b r : es_ok s ->
  es_ok (System (pw s) (state s) (requested_suspend_state s) (handlers s) (early_suspend_handlers s) (early_suspend_work s) (late_resume_work s) b (thread s) r (events s)).
Proof. intros [E1 E2 E3 [T1 T2 T3] E5 E6 E7 E8]. split; try done. Qed.

Lemma sync_begin_ok s : es_ok s -> runs sync_begin s (fun _ s' => es_ok s').
Proof.
  intros E. apply runs_bind, runs_modify, runs_on_power. eapply runs_mono; [exact (sync_locked _ _ (eo_good s E))|]. intros [] p [G K].
  exact (es_ok_power _ p (es_ok_sync s false true E) G K).
Qed.

Lemma sync_end_ok s : es_ok s -> runs sync_end s (fun _ s' => es_ok s').
Proof.
  intros E. apply runs_bind, runs_on_power. eapply runs_mono; [exact (sync_unlocked _ _ (eo_good s E))|]. intros [] p [G K]. apply runs_gets, runs_modify.
  exact (es_ok_sync _ (sync_system_work s) false (es_ok_power s p E G K)).
Qed.
