(* ===== verification/EarlySuspendFacts.v ===== *)
(** Early suspend: the system sleeps only after the handlers were called and while
    sleep is asked for, and no request is forgotten. *)

From stdpp Require Import gmap sorting.
From S2P Require Import Prelude.
From S2P Require Import Ring State Wakelock WakelockInv WakelockOps WakelockSteps WakelockCalls WakelockFacts EarlySuspend EarlySuspendInv.

(** * Runs *)

Inductive action :=
  | ARegister (h : Z) (H : handler) | AUnregister (h : Z)
  | ARequest (new_state : Z)
  | ATakeEarly | ATakeLate | ATakeSuspend | AThread
  | ASyncBegin | ASyncEnd
  | APower (c : call).

Definition act (a : action) : SM unit :=
  match a with
  | ARegister h H => register_early_suspend h H
  | AUnregister h => unregister_early_suspend h
  | ARequest n => request_suspend_state n
  | ATakeEarly => take_early
  | ATakeLate => take_late
  | ATakeSuspend => take_suspend
  | AThread => thread_step
  | ASyncBegin => sync_begin
  | ASyncEnd => sync_end
  | APower c => s ← gets run_of; on_power (perform c s);; mret tt
  end.

(** When it can happen: the mutex is free, the work is on its queue and the thread
    is free; others call the wake locks as they may, but not the two locks of this
    file. *)
Definition allowed (s : system) (a : action) : Prop :=
  match a with
  | ARegister h _ => mutex_free s /\ h ∉ early_suspend_handlers s
  | AUnregister h => mutex_free s /\ h ∈ early_suspend_handlers s
  | ARequest _ => True
  | ATakeEarly => thread s = Waiting /\ early_suspend_work s = true
  | ATakeLate => thread s = Waiting /\ late_resume_work s = true
  | ATakeSuspend => thread s = Waiting /\ suspend_work (pw s) = true
  | AThread => thread s <> Waiting
  | ASyncBegin => sync_system_work s = true /\ syncing s = false
  | ASyncEnd => syncing s = true
  | APower c => enabled (pw s) (run_of s) c /\ foreign c
  end.

Lemma act_ok s a : es_ok s -> allowed s a -> runs (act a) s (fun _ s' => es_ok s').
Proof.
  intros E Ha. destruct a; cbn [act allowed] in *.
  - now apply register_ok.
  - now apply unregister_ok.
  - now apply request_ok.
  - now apply take_early_ok.
  - now apply take_late_ok.
  - now apply take_suspend_ok.
  - now apply thread_step_ok.
  - now apply sync_begin_ok.
  - now apply sync_end_ok.
  - destruct Ha as [He Hf]. apply runs_gets, runs_bind, runs_on_power.
    eapply runs_mono; [exact (foreign_kept (pw s) (run_of s) c (eo_good s E) He Hf)|]. intros r p (_ & G & K). apply runs_ret. now apply es_ok_power.
Qed.

Inductive es_reachable : system -> Prop :=
  | ES_boot j k c d p : booted j k c d = Ok (0, p) -> es_reachable (system_start p)
  | ES_step s a s' : es_reachable s -> allowed s a -> act a s = Ok (tt, s') -> es_reachable s'.

Lemma booted_main j k c d p : booted j k c d = Ok (0, p) -> good p None /\ permanent p main_wake_lock.
Proof.
  intros E. destruct (booted_good j k c d) as (q & Eq & G). rewrite E in Eq. injection Eq as <-. split; [exact G|].
  destruct (booted_eq j k c d) as (s & u & k' & d' & Es). rewrite E in Es. injection Es as ->. split; [left|reflexivity].
Qed.

Lemma es_reachable_ok s : es_reachable s -> es_ok s.
Proof.
  induction 1 as [j k c d p E|s a s' _ IH Ha E].
  - destruct (booted_main j k c d p E) as [G M]. clear E. split; try done.
    + left. exact M.
    + split; cbn; [constructor|set_solver|constructor].
  - destruct (proj1 (runs_exists _ _ _) (act_ok s a IH Ha)) as ([] & q & Eq & G). congruence.
Qed.

(** * The functions from the start to the end *)

Definition suspend_events (m : gmap Z handler) (l : list Z) : list event :=
  flat_map (fun h => match m !! h with Some H => if suspend_fn H then [SuspendCalled h H] else [] | None => [] end) l.
Definition resume_events (m : gmap Z handler) (l : list Z) : list event :=
  flat_map (fun h => match m !! h with Some H => if resume_fn H then [ResumeCalled h H] else [] | None => [] end) l.

Lemma early_calls_run rest : forall s ev n, (forall h, h ∈ rest -> is_Some (handlers s !! h)) ->
  forall Q, runs (advance n) (with_thread s (state s) (EarlyCalls []) (early_suspend_work s) (late_resume_work s) (sync_system_work s) (rev (suspend_events (handlers s) rest) ++ ev)) Q ->
  runs (advance (length rest + n)) (with_thread s (state s) (EarlyCalls rest) (early_suspend_work s) (late_resume_work s) (sync_system_work s) ev) Q.
Proof.
  induction rest as [|h rest IH]; intros s ev n Hk Q HQ; [exact HQ|]. cbn [length Nat.add advance]. apply runs_bind. unfold thread_step. apply runs_gets.
  cbn [with_thread thread]. destruct (Hk h) as [H HH]; [left|]. apply runs_bind. eapply runs_eq; [apply handler_at_eq; exact HH|].
  cbn [suspend_events flat_map] in HQ. rewrite HH in HQ.
  destruct (suspend_fn H); cbn [app rev] in HQ; [rewrite <- app_assoc in HQ; cbn [app] in HQ|]; apply (IH s _ n); try done; intros x Hx; apply Hk; now right.
Qed.

Lemma late_calls_run rest : forall s ev n, (forall h, h ∈ rest -> is_Some (handlers s !! h)) ->
  forall Q, runs (advance n) (with_thread s (state s) (LateCalls []) (early_suspend_work s) (late_resume_work s) (sync_system_work s) (rev (resume_events (handlers s) rest) ++ ev)) Q ->
  runs (advance (length rest + n)) (with_thread s (state s) (LateCalls rest) (early_suspend_work s) (late_resume_work s) (sync_system_work s) ev) Q.
Proof.
  induction rest as [|h rest IH]; intros s ev n Hk Q HQ; [exact HQ|]. cbn [length Nat.add advance]. apply runs_bind. unfold thread_step. apply runs_gets.
  cbn [with_thread thread]. destruct (Hk h) as [H HH]; [left|]. apply runs_bind. eapply runs_eq; [apply handler_at_eq; exact HH|].
  cbn [resume_events flat_map] in HQ. rewrite HH in HQ.
  destruct (resume_fn H); cbn [app rev] in HQ; [rewrite <- app_assoc in HQ; cbn [app] in HQ|]; apply (IH s _ n); try done; intros x Hx; apply Hk; now right.
Qed.

(** [early_suspend] on a request: every handler is told in the order of the list,
    and the main lock is released. *)
Lemma early_suspend_run s : es_ok s -> thread s = Waiting -> state s = SUSPEND_REQUESTED ->
  runs early_suspend s (fun _ s' => state s' = SUSPEND_REQUESTED_AND_SUSPENDED /\ thread s' = Waiting /\
    events s' = rev (suspend_events (handlers s) (early_suspend_handlers s)) ++ events s /\ main_wake_lock ∈ inactive_locks (pw s') /\ sync_system_work s' = true).
Proof.
  intros E Et Es. pose proof (eo_good s E) as G. unfold run_of in G. rewrite Et in G. change (state s = 1) in Es.
  unfold early_suspend. apply runs_gets. apply runs_bind. unfold take_early. apply runs_bind, runs_modify, runs_modify.
  replace (length (early_suspend_handlers s) + 3)%nat with (S (length (early_suspend_handlers s) + 2)) by lia. cbn [advance]. apply runs_bind.
  unfold thread_step at 1. apply runs_gets. cbn [thread]. unfold early_begin. apply runs_gets. cbn [state]. rewrite Es. cbn [Z.eqb Pos.eqb SUSPEND_REQUESTED].
  apply runs_bind, runs_modify, runs_gets, runs_modify. cbn [early_suspend_handlers].
  apply (early_calls_run (early_suspend_handlers s) (with_thread s 3 EarlyBegin false (late_resume_work s) (sync_system_work s) (events s)) (events s) 2).
  { intros h Hh. now apply (hl_known _ _ (eo_list s E)). }
  cbn [advance]. apply runs_bind. unfold thread_step at 1. apply runs_gets. cbn [thread with_thread]. apply runs_gets, runs_bind, runs_modify, runs_modify.
  apply runs_bind. unfold thread_step at 1. apply runs_gets. cbn [thread]. unfold early_end. apply runs_gets. cbn [state with_thread]. cbn [Z.eqb Pos.eqb].
  apply runs_bind. change (3 =? SUSPEND_REQUESTED_AND_SUSPENDED) with true. cbv iota. apply runs_on_power.
  eapply runs_mono; [exact (main_unlocked (pw s) None G)|]. intros [] p [_ Hi]. apply runs_modify, runs_ret. split; [done|]. split; [done|]. split; [done|]. split; [exact Hi|done].
Qed.

Lemma late_resume_run s : es_ok s -> thread s = Waiting -> state s = SUSPENDED ->
  runs late_resume s (fun _ s' => state s' = 0 /\ thread s' = Waiting /\
    events s' = rev (resume_events (handlers s) (rev (early_suspend_handlers s))) ++ events s /\ permanent (pw s') main_wake_lock).
Proof.
  intros E Et Es. change (state s = 2) in Es. assert (permanent (pw s) main_wake_lock) as M by (destruct (eo_main s E); [done|lia]).
  unfold late_resume. apply runs_gets. apply runs_bind. unfold take_late. apply runs_bind, runs_modify, runs_modify.
  replace (length (early_suspend_handlers s) + 2)%nat with (S (length (rev (early_suspend_handlers s)) + 1)) by (rewrite length_rev; lia). cbn [advance]. apply runs_bind.
  unfold thread_step at 1. apply runs_gets. cbn [thread]. unfold late_begin. apply runs_gets. cbn [state]. rewrite Es. cbn [Z.eqb Pos.eqb SUSPENDED].
  apply runs_bind, runs_modify, runs_gets, runs_modify. cbn [early_suspend_handlers].
  apply (late_calls_run (rev (early_suspend_handlers s)) (with_thread s 0 LateBegin (early_suspend_work s) false (sync_system_work s) (events s)) (events s) 1).
  { intros h Hh. apply (hl_known _ _ (eo_list s E)). apply list_elem_of_In. apply in_rev. now apply list_elem_of_In. }
  cbn [advance]. apply runs_bind. unfold thread_step at 1. apply runs_gets. cbn [thread with_thread]. apply runs_modify, runs_ret. done.
Qed.

(** A request is stored, and the state says whether sleep is asked for. *)
Lemma request_run s n : es_ok s -> runs (request_suspend_state n) s (fun _ s' => requested_suspend_state s' = n /\
  Z.testbit (state s') 0 = negb (n =? PM_SUSPEND_ON) /\ Z.testbit (state s') 1 = Z.testbit (state s) 1).
Proof.
  intros E. unfold request_suspend_state. apply runs_gets. cbv zeta. apply runs_bind.
  destruct (Z.eqb_spec n PM_SUSPEND_ON) as [En|En]; destruct (state_cases _ (eo_state s E)) as [Es|[Es|[Es|Es]]]; rewrite Es; cbn -[wake_lock Z.testbit].
  all: try (apply runs_bind, runs_modify, runs_bind, runs_on_power; (eapply runs_mono; [exact (main_locked (pw s) (run_of s) (eo_good s E))|]); intros [] p _).
  all: repeat (apply runs_bind, runs_modify); apply runs_modify; cbn -[Z.testbit]; rewrite ?Es; done.
Qed.


(** C21: No request is forgotten.  Every step that can be taken in a reachable
    state returns.  A request is stored and sets the state; a sleep request that
    was not served yet has [early_suspend] queued or at its start, a wake-up
    request [late_resume], and when sleep is requested and the handlers are down
    the main lock is released or [early_suspend] is queued or under way.
    [early_suspend], run on a request, calls the suspend functions from the
    lowest level to the highest, queues the sync and releases the main lock;
    [late_resume] calls the resume functions in the opposite order, with the main
    lock held. *)
Theorem early_suspend_serves_requests s : es_reachable s ->
  (forall a, allowed s a -> exists s', act a s = Ok (tt, s') /\ es_reachable s') /\
  (forall n, exists s', request_suspend_state n s = Ok (tt, s') /\ get_suspend_state s' = Ok (n, s') /\ Z.testbit (state s') 0 = negb (n =? PM_SUSPEND_ON)) /\
  todo s /\
  (thread s = Waiting -> state s = SUSPEND_REQUESTED -> exists s', early_suspend s = Ok (tt, s') /\ state s' = SUSPEND_REQUESTED_AND_SUSPENDED /\ thread s' = Waiting /\
    events s' = rev (suspend_events (handlers s) (early_suspend_handlers s)) ++ events s /\ main_wake_lock ∈ inactive_locks (pw s') /\ sync_system_work s' = true) /\
  (thread s = Waiting -> state s = SUSPENDED -> exists s', late_resume s = Ok (tt, s') /\ state s' = 0 /\ thread s' = Waiting /\
    events s' = rev (resume_events (handlers s) (rev (early_suspend_handlers s))) ++ events s /\ permanent (pw s') main_wake_lock).
Proof.
  intros Hr. pose proof (es_reachable_ok s Hr) as E. split; [|split; [|split; [exact (eo_todo s E)|split]]].
  - intros a Ha. destruct (runs_ok _ _ _ (act_ok s a E Ha)) as ([] & s' & Ea & _). exists s'. split; [done|]. eapply ES_step; eauto.
  - intros n. destruct (runs_ok _ _ _ (request_run s n E)) as ([] & s' & Ea & H1 & H2 & _). exists s'. split; [done|]. split; [|done].
    unfold get_suspend_state, gets. now rewrite H1.
  - intros Et Es. destruct (runs_ok _ _ _ (early_suspend_run s E Et Es)) as ([] & s' & H). now exists s'.
  - intros Et Es. destruct (runs_ok _ _ _ (late_resume_run s E Et Es)) as ([] & s' & H). now exists s'.
Qed.

(** * An example: two handlers, the second registered of the lower level *)

Definition es_boot : system := system_start demo_boot.
Definition es_after (a : action) (s : system) : system := match act a s with Ok (_, s') => s' | Err _ => s end.
Definition es_two : system := es_after (ARegister 21 (Handler 50 true true)) (es_after (ARegister 20 (Handler 100 true true)) es_boot).
Definition es_asked : system := es_after (ARequest PM_SUSPEND_MEM) es_two.

Lemma es_after_reachable s a : es_reachable s -> allowed s a -> act a s = Ok (tt, es_after a s) -> es_reachable (es_after a s).
Proof. intros. eapply ES_step; eauto. Qed.

Lemma es_asked_reachable : es_reachable es_asked.
Proof.
  apply es_after_reachable; [apply es_after_reachable; [apply es_after_reachable; [apply (ES_boot 4294967290 0 0 [5; 7])|..]|..]|..].
  all: try (vm_compute; reflexivity).
  all: cbn [allowed]; try exact I.
  all: split; [exact I|apply (bool_decide_unpack _); vm_compute; reflexivity].
Qed.


Lemma early_suspend_serves_requests_witness : exists s', early_suspend es_asked = Ok (tt, s') /\ state s' = SUSPEND_REQUESTED_AND_SUSPENDED /\ thread s' = Waiting /\
  events s' = rev (suspend_events (handlers es_asked) (early_suspend_handlers es_asked)) ++ events es_asked /\ main_wake_lock ∈ inactive_locks (pw s') /\ sync_system_work s' = true.
Proof.
  apply (proj1 (proj2 (proj2 (proj2 (early_suspend_serves_requests es_asked es_asked_reachable))))); vm_compute; reflexivity.
Defined.

Example es_asked_order : early_suspend_handlers es_asked = [21; 20].
Proof. vm_compute. reflexivity. Qed.
