(* ===== verification/UserWakelock.v ===== *)
(** Wake locks of user space (kernel/power/userwakelock.c): the locks that are
    taken and released by writing their names to /sys/power/wake_lock and
    wake_unlock, kept in a red-black tree ordered by name.

    A [struct user_wake_lock] at address [l] has its tree node at [l], its wake
    lock at [l + 12] and its name behind it; the results of the allocations to
    come are part of the state.  Each function runs under one mutex. *)

From stdpp Require Import gmap.
From S2P Require Import Prelude.
From S2P Require Import Ring Blocks Ctype Strtol State RbTree Wakelock.

Record user := User {
  upw : power;
  utree : store;
  unames : gmap Z (list Z);        (* with the terminating NUL *)
  ualloc : list (option Z)         (* what the next allocations return *)
}.

Abbreviation UM := (ST user).

Definition set_upw (p : power) : UM unit := modify (fun u => User p (utree u) (unames u) (ualloc u)).
Definition set_utree (t : store) : UM unit := modify (fun u => User (upw u) t (unames u) (ualloc u)).
Definition on_upw {A} (m : PM A) : UM A :=
  p ← gets upw;
  '(a, p) ← lift (m p);
  set_upw p;;
  mret a.
Definition on_utree {A} (m : M A) : UM A :=
  t ← gets utree;
  '(a, t) ← lift (m t);
  set_utree t;;
  mret a.
Definition name_at (l : Z) : UM (list Z) :=
  m ← gets unames;
  match m !! l with Some n => mret n | None => fail OutOfBounds end.

(** The wake lock in the object. *)
Definition wake_lock_of (l : Z) : Z := l + 12.
Definition NSEC_PER_SEC : Z := 1000000000.

(** * Arguments *)

Definition name_end (buf : list Z) : res Z :=
  loop (S (length buf)) (fun arg =>
    c ← rd buf arg;
    Ok (if negb (c =? 0) && negb (isspace c) then inl (arg + 1) else inr arg)) 0.
Definition skip_spaces (buf : list Z) (arg : Z) : res Z :=
  loop (S (length buf)) (fun arg =>
    c ← rd buf arg;
    Ok (if isspace c then inl (arg + 1) else inr arg)) arg.

(** Nanoseconds to jiffies; [*timeoutptr] is a [long]. *)
Definition to_jiffies (timeout : Z) : Z :=
  let timeout := u64 (timeout + (NSEC_PER_SEC / HZ - 1)) in
  let timeout := timeout / (NSEC_PER_SEC / HZ) in
  let timeout := if timeout <=? 0 then 1 else timeout in
  s32 timeout.

(** [None] is [bad_arg]; otherwise the length of the name and the timeout. *)
Definition parse_args (buf : list Z) (want_timeout : bool) : res (option (Z * Z)) :=
  arg ← name_end buf;
  let name_len := arg in
  if name_len =? 0 then Ok None else
  arg ← skip_spaces buf arg;
  c ← rd buf arg;
  if want_timeout && negb (c =? 0) then
    '(timeout, arg) ← simple_strtoull buf arg 0;
    arg ← skip_spaces buf arg;
    c ← rd buf arg;
    if negb (c =? 0) then Ok None else
    Ok (Some (name_len, to_jiffies timeout))
  else if negb (c =? 0) then Ok None else
  Ok (Some (name_len, 0)).

(** * The tree *)

Definition strncmp (cs ct : list Z) (count : Z) : res Z :=
  loop (S (Z.to_nat count)) (fun '(i, count) =>
    if count =? 0 then Ok (inr 0) else
    c1 ← rd cs i;
    c2 ← rd ct i;
    if negb (c1 =? c2) then Ok (inr (if c1 <? c2 then -1 else 1)) else
    if c1 =? 0 then Ok (inr 0) else
    Ok (inl (i + 1, count - 1))) (0, count).

Definition name_diff (buf name : list Z) (name_len : Z) : res Z :=
  diff ← strncmp buf name name_len;
  if diff =? 0 then
    c ← rd name name_len;
    Ok (if negb (c =? 0) then -1 else 0)
  else Ok diff.

(** One turn of the search: [inr (inl _)] is the free link, [inr (inr _)] the lock. *)
Definition find_step (buf : list Z) (name_len : Z) (st : Z * rb_link) : UM ((Z * rb_link) + ((Z * rb_link) + Z)) :=
  let '(parent, p) := st in
  n ← on_utree (read_link p);
  if n =? 0 then mret (inr (inl (parent, p))) else
  name ← name_at n;
  diff ← lift (name_diff buf name name_len);
  if diff <? 0 then mret (inl (n, LinkLeft n))
  else if 0 <? diff then mret (inl (n, LinkRight n))
  else mret (inr (inr n)).

(** The zeroed object, if there is memory. *)
Definition kzalloc (name_len : Z) : UM (option Z) :=
  q ← gets ualloc;
  let x := match q with [] => None | x :: _ => x end in
  modify (fun u => User (upw u)
    (match x with Some l => Store (<[l := RbNode 0 0 0]> (mem (utree u))) (rb_root (utree u)) | None => utree u end)
    (match x with Some l => <[l := repeat 0 (Z.to_nat (name_len + 1))]> (unames u) | None => unames u end) (tail q));;
  mret x.

Definition set_name (l : Z) (n : list Z) : UM unit := modify (fun u => User (upw u) (utree u) (<[l := n]> (unames u)) (ualloc u)).

(** The address and the timeout, or an error. *)
Definition lookup_wake_lock_name (buf : list Z) (allocate want_timeout : bool) : UM (Z + Z * Z) :=
  a ← lift (parse_args buf want_timeout);
  match a with
  | None => mret (inl (- EINVAL))
  | Some (name_len, timeout) =>
      fuel ← on_utree node_fuel;
      r ← while fuel (find_step buf name_len) (0, LinkRoot);
      match r with
      | inr l => mret (inr (l, timeout))
      | inl (parent, p) =>
          if negb allocate then mret (inl (- EINVAL)) else
          x ← kzalloc name_len;
          match x with
          | None => mret (inl (- ENOMEM))
          | Some l =>
              name ← name_at l;
              name ← lift (memcpy name 0 buf 0 name_len);
              set_name l name;;
              on_upw (wake_lock_init (wake_lock_of l) WAKE_LOCK_SUSPEND (Some name));;
              on_utree (rb_link_node l parent p);;
              on_utree (rb_insert_color l);;
              mret (inr (l, timeout))
          end
      end
  end.

(** * The files *)

(** The result is the number of bytes taken, or an error. *)
Definition wake_lock_store (buf : list Z) (n : Z) : UM Z :=
  l ← lookup_wake_lock_name buf true true;
  match l with
  | inl e => mret e
  | inr (l, timeout) =>
      (if negb (timeout =? 0) then on_upw (wake_lock_timeout (wake_lock_of l) timeout)
       else on_upw (wake_lock (wake_lock_of l)));;
      mret n
  end.

Definition wake_unlock_store (buf : list Z) (n : Z) : UM Z :=
  l ← lookup_wake_lock_name buf false false;
  match l with
  | inl e => mret e
  | inr (l, _) => on_upw (wake_unlock (wake_lock_of l));; mret n
  end.

Definition PAGE_SIZE : Z := 4096.
(** [scnprintf] at the end of what was printed: what fits before the last byte of the page. *)
Definition scnprintf (out piece : list Z) : list Z := out ++ take (Z.to_nat (PAGE_SIZE - 1 - zlen out)) piece.
Fixpoint cstr (l : list Z) : list Z := match l with c :: l => if c =? 0 then [] else c :: cstr l | [] => [] end.

(** What is printed: the names of the locks that are active, or not. *)
Definition show_step (active : bool) (st : Z * list Z) : UM ((Z * list Z) + list Z) :=
  let '(n, s) := st in
  if n =? 0 then mret (inr s) else
  a ← on_upw (wake_lock_active (wake_lock_of n));
  name ← name_at n;
  let s := if Bool.eqb a active then scnprintf s (cstr name ++ [32]) else s in
  n ← on_utree (rb_next n);
  mret (inl (n, s)).
Definition show (active : bool) : UM (list Z) :=
  fuel ← on_utree node_fuel;
  n ← on_utree rb_first;
  s ← while fuel (show_step active) (n, []);
  mret (scnprintf s [10]).
Definition wake_lock_show : UM (list Z) := show true.
Definition wake_unlock_show : UM (list Z) := show false.

(** [user_wake_locks] is empty at the start. *)
Definition user_start (p : power) (q : list (option Z)) : user := User p (Store ∅ 0) ∅ q.
