(* ===== verification/UserWakelockText.v ===== *)
(** Wake locks of user space: what is written to the files, and the order of
    names. *)

From stdpp Require Import gmap.
From S2P Require Import Prelude.
From S2P Require Import Ring Blocks Ctype Strtol State RbTree Wakelock UserWakelock.

(** * Words *)

Fixpoint take_while (P : Z -> bool) (l : list Z) : list Z :=
  match l with c :: l => if P c then c :: take_while P l else [] | [] => [] end.
Fixpoint skip_while (P : Z -> bool) (l : list Z) : list Z :=
  match l with c :: l' => if P c then skip_while P l' else l | [] => [] end.
Definition in_name (c : Z) : bool := negb (c =? 0) && negb (isspace c).

Lemma prefix_split P l : l = take_while P l ++ skip_while P l.
Proof. induction l as [|c l IH]; [done|]. cbn. destruct (P c); [|done]. cbn. now rewrite <- IH. Qed.

Lemma cstring_app l k : cstring (l ++ k) <-> cstring l /\ cstring k.
Proof. apply Forall_app. Qed.

Lemma rd_here (pre l post : list Z) : rd (pre ++ l ++ 0 :: post) (zlen pre) = Ok (nth 0 l 0).
Proof.
  unfold rd, zlen. destruct (Z.leb_spec 0 (Z.of_nat (length pre))); [|lia]. rewrite Nat2Z.id, lookup_app_r, Nat.sub_diag by lia. now destruct l.
Qed.

(** A scan over the characters that [P] accepts, from behind [pre]. *)
Lemma scan_loop (P : Z -> bool) post l : P 0 = false -> forall pre fuel, (length l < fuel)%nat ->
  loop fuel (fun arg => c ← rd (pre ++ l ++ 0 :: post) arg; Ok (if P c then inl (arg + 1) else inr arg)) (zlen pre) = Ok (zlen (pre ++ take_while P l)).
Proof.
  intros H0. induction l as [|c l IH]; intros pre [|fuel] Hf; cbn [length] in Hf; try lia; cbn [loop take_while].
  - rewrite (rd_here pre [] post), bind_ok. cbn [nth]. rewrite H0. now rewrite app_nil_r.
  - rewrite (rd_here pre (c :: l) post), bind_ok. cbn [nth]. destruct (P c); [|now rewrite app_nil_r].
    specialize (IH (pre ++ [c]) fuel ltac:(lia)). rewrite <- !app_assoc in IH. cbn [app] in IH. rewrite zlen_app in IH. change (zlen [c]) with 1 in IH. exact IH.
Qed.

Lemma isspace_0 : isspace 0 = false.
Proof. reflexivity. Qed.

Lemma name_end_ok text post : name_end (text ++ 0 :: post) = Ok (zlen (take_while in_name text)).
Proof. apply (scan_loop in_name post text eq_refl []). rewrite !length_app. lia. Qed.

Lemma skip_spaces_ok pre l post : skip_spaces (pre ++ l ++ 0 :: post) (zlen pre) = Ok (zlen (pre ++ take_while isspace l)).
Proof. apply (scan_loop isspace post l isspace_0). rewrite !length_app. lia. Qed.

(** * The arguments *)

(** The name, and the timeout in jiffies if one is wanted. *)
Definition parse_spec (want : bool) (text : list Z) : option (list Z * Z) :=
  let w := take_while in_name text in
  let r := skip_while isspace (skip_while in_name text) in
  match w, r with
  | [], _ => None
  | _, [] => Some (w, 0)
  | _, _ => if want then
      match skip_while isspace (drop (consumed 0 r) r) with
      | [] => Some (w, to_jiffies (u64 (value (effective_base 0 r) (parsed 0 r))))
      | _ => None
      end
    else None
  end.

Lemma skip_while_head P l c : nth 0 (skip_while P l) 0 = c -> skip_while P l <> [] -> P c = false.
Proof. induction l as [|x l IH]; [done|]. cbn. destruct (P x) eqn:E; [auto|]. cbn. now intros <-. Qed.

Lemma cstring_head l : cstring l -> (nth 0 l 0 =? 0) = match l with [] => true | _ => false end.
Proof. intros Hl. destruct l as [|c l]; [done|]. inversion Hl; subst. cbn. destruct (Z.eqb_spec c 0); [lia|done]. Qed.

Lemma skip_at pre l post : let r := skip_while isspace l in
  pre ++ l ++ 0 :: post = (pre ++ take_while isspace l) ++ r ++ 0 :: post.
Proof. cbv zeta. rewrite <- app_assoc. f_equal. rewrite app_assoc, <- prefix_split. done. Qed.

Lemma parse_args_ok want text post : cstring text ->
  parse_args (text ++ 0 :: post) want = Ok (match parse_spec want text with Some (w, t) => Some (zlen w, t) | None => None end).
Proof.
  intros Ht. unfold parse_args, parse_spec. rewrite name_end_ok, bind_ok. cbv zeta. set (w := take_while in_name text). set (q := skip_while in_name text).
  assert (text = w ++ q) as Etext by apply prefix_split. pose proof Ht as Htq. rewrite Etext in Htq. apply cstring_app in Htq as [_ Hq].
  destruct w as [|c w'] eqn:Ew; [done|]. rewrite <- Ew in *. destruct (Z.eqb_spec (zlen w) 0) as [E|_]; [rewrite Ew in E; unfold zlen in E; cbn in E; lia|].
  assert (text ++ 0 :: post = w ++ q ++ 0 :: post) as -> by (rewrite Etext at 1; now rewrite <- app_assoc).
  rewrite skip_spaces_ok, bind_ok. set (r := skip_while isspace q).
  assert (cstring r) as Hr by (pose proof (prefix_split isspace q) as Es; rewrite Es in Hq; now apply cstring_app in Hq as [_ ?]).
  rewrite (skip_at w q post). cbv zeta. fold r. rewrite rd_here, bind_ok, (cstring_head r Hr).
  destruct r as [|d r'] eqn:Er; [now rewrite andb_false_r|]. rewrite <- Er in *. cbn [negb]. rewrite andb_true_r. destruct want; [|done].
  destruct (simple_unsigned_ok (w ++ take_while isspace q) r post 0 Hr) as [_ ->]. rewrite bind_ok.
  set (n := consumed 0 r). assert (n <= length r)%nat as Hn by apply consumed_len.
  assert ((w ++ take_while isspace q) ++ r ++ 0 :: post = ((w ++ take_while isspace q) ++ take n r) ++ drop n r ++ 0 :: post) as Ed.
  { rewrite <- (app_assoc (w ++ take_while isspace q) (take n r)). f_equal. now rewrite app_assoc, take_drop. }
  rewrite Ed. replace (zlen (w ++ take_while isspace q) + Z.of_nat n) with (zlen ((w ++ take_while isspace q) ++ take n r)).
  2:{ rewrite (zlen_app _ (take n r)). f_equal. unfold zlen. rewrite length_take. lia. }
  rewrite skip_spaces_ok, bind_ok, (skip_at _ (drop n r) post). cbv zeta. rewrite rd_here, bind_ok.
  assert (cstring (skip_while isspace (drop n r))) as Hs.
  { rewrite <- (take_drop n r) in Hr. apply cstring_app in Hr as [_ Hr]. pose proof (prefix_split isspace (drop n r)) as Es. rewrite Es in Hr. now apply cstring_app in Hr as [_ ?]. }
  rewrite (cstring_head _ Hs). destruct (skip_while isspace (drop n r)); done.
Qed.

(** The name that was found: not empty, without spaces and NULs. *)
Lemma take_while_Forall (P : Z -> bool) l : Forall (fun c => P c = true) (take_while P l).
Proof. induction l as [|c l IH]; [constructor|]. cbn. destruct (P c) eqn:E; [|constructor]. now constructor. Qed.

Lemma parse_name want text w t : cstring text -> parse_spec want text = Some (w, t) ->
  w <> [] /\ cstring w /\ exists rest, text = w ++ rest.
Proof.
  intros Ht. unfold parse_spec. cbv zeta. pose proof (prefix_split in_name text) as E. set (v := take_while in_name text) in *. intros H.
  assert (w = v /\ v <> []) as [-> Hv].
  { destruct v as [|c v']; [done|]. split; [|done]. destruct (skip_while isspace (skip_while in_name text)); [congruence|]. destruct want; [|done].
    destruct (skip_while isspace _); congruence. }
  split; [done|]. split; [|eauto]. rewrite E in Ht. now apply cstring_app in Ht as [? _].
Qed.

(** * The order of names *)

Fixpoint lex (a b : list Z) : comparison :=
  match a, b with
  | [], [] => Eq
  | [], _ => Lt
  | _, [] => Gt
  | x :: a, y :: b => match x ?= y with Eq => lex a b | c => c end
  end.

Lemma lex_eq a b : lex a b = Eq <-> a = b.
Proof.
  revert b. induction a as [|x a IH]; intros [|y b]; cbn; try done. destruct (Z.compare_spec x y) as [->|?|?].
  - rewrite IH. split; congruence.
  - split; [done|]. intros [= ? ?]. lia.
  - split; [done|]. intros [= ? ?]. lia.
Qed.
Lemma lex_refl a : lex a a = Eq.
Proof. now apply lex_eq. Qed.
Lemma lex_opp a b : lex b a = CompOpp (lex a b).
Proof.
  revert b. induction a as [|x a IH]; intros [|y b]; cbn; try done. rewrite (Z.compare_antisym x y). destruct (x ?= y); cbn; auto.
Qed.
Lemma lex_trans a b c : lex a b = Lt -> lex b c = Lt -> lex a c = Lt.
Proof.
  revert b c. induction a as [|x a IH]; intros [|y b] [|z c]; cbn; try done.
  destruct (Z.compare_spec x y) as [->|?|?], (Z.compare_spec y z) as [->|?|?]; try done; intros H1 H2; eauto.
  all: destruct (Z.compare_spec x z); try lia; done.
Qed.
Lemma lex_prefix a b : b <> [] -> lex a (a ++ b) = Lt.
Proof. intros Hb. induction a as [|x a IH]; [now destruct b|]. cbn. now rewrite Z.compare_refl. Qed.

Definition sign_of (c : comparison) : Z := match c with Lt => -1 | Eq => 0 | Gt => 1 end.

(** [strncmp] of the name in the buffer with a stored name: 0 also if the stored
    one is longer. *)
Lemma strncmp_loop w rest t : cstring w -> cstring t -> forall pre1 pre2 fuel, zlen pre1 = zlen pre2 -> (length w < fuel)%nat ->
  exists d, loop fuel (fun '(i, count) =>
    if count =? 0 then Ok (inr 0) else
    c1 ← rd (pre1 ++ w ++ rest) i;
    c2 ← rd (pre2 ++ t ++ [0]) i;
    if negb (c1 =? c2) then Ok (inr (if c1 <? c2 then -1 else 1)) else
    if c1 =? 0 then Ok (inr 0) else
    Ok (inl (i + 1, count - 1))) (zlen pre1, zlen w) = Ok d /\ (d = 0 /\ (exists t', t = w ++ t') \/ d <> 0 /\ d = sign_of (lex w t)).
Proof.
  intros Hw. revert t. induction w as [|c w IH]; intros t Ht pre1 pre2 [|fuel] Hp Hf; cbn [length] in Hf; try lia; cbn [loop].
  - exists 0. split; [done|]. left. eauto.
  - inversion_clear Hw as [|?? Hc Hw']. destruct (Z.eqb_spec (zlen (c :: w)) 0) as [E|_]; [unfold zlen in E; cbn in E; lia|].
    cbn [app]. rewrite (rd_mid pre1 c), bind_ok. rewrite Hp. destruct t as [|d t].
    + cbn [app]. rewrite (rd_mid pre2 0 []), bind_ok. destruct (Z.eqb_spec c 0); [lia|]. cbn [negb]. destruct (Z.ltb_spec c 0); [lia|]. exists 1. split; [done|]. right. done.
    + inversion_clear Ht as [|?? Hd Ht']. cbn [app]. rewrite (rd_mid pre2 d), bind_ok. destruct (Z.eqb_spec c d) as [->|Hne]; cbn [negb].
      * destruct (Z.eqb_spec d 0); [lia|]. destruct (IH Hw' t Ht' (pre1 ++ [d]) (pre2 ++ [d]) fuel) as (r & E & H); [rewrite !zlen_app; lia|lia|].
        exists r. rewrite <- !app_assoc in E. cbn [app] in E. rewrite zlen_app, Hp in E. change (zlen [d]) with 1 in E.
        replace (zlen (d :: w) - 1) with (zlen w) by (unfold zlen; cbn [length]; lia). split; [exact E|]. cbn [lex]. rewrite Z.compare_refl.
        destruct H as [[-> (t' & ->)]|H]; [left|now right]. split; [done|]. now exists t'.
      * exists (if c <? d then -1 else 1). split; [done|]. right. cbn [lex]. destruct (Z.ltb_spec c d), (Z.compare_spec c d); try lia; done.
Qed.

Lemma name_diff_ok w rest t : cstring w -> cstring t -> name_diff (w ++ rest) (t ++ [0]) (zlen w) = Ok (sign_of (lex w t)).
Proof.
  intros Hw Ht. unfold name_diff, strncmp.
  destruct (strncmp_loop w rest t Hw Ht [] [] (S (Z.to_nat (zlen w))) eq_refl) as (d & E & H); [unfold zlen; lia|].
  cbn [app] in E. change (zlen []) with 0 in E. rewrite E, bind_ok. destruct H as [[-> (t' & ->)]|[Hd ->]].
  - cbn [Z.eqb]. apply cstring_app in Ht as [_ Ht']. rewrite <- app_assoc. rewrite (rd_here w t' []), bind_ok, (cstring_head t' Ht').
    destruct t' as [|c t']; cbn [negb]; [now rewrite app_nil_r, lex_refl|now rewrite lex_prefix].
  - destruct (Z.eqb_spec (sign_of (lex w t)) 0); done.
Qed.

Lemma cstr_ok w rest : cstring w -> cstr (w ++ 0 :: rest) = w.
Proof. induction 1 as [|c w Hc Hw IH]; [done|]. cbn. destruct (Z.eqb_spec c 0); [lia|]. now rewrite IH. Qed.

(** * Timeouts *)

Definition NSEC_PER_JIFFY : Z := NSEC_PER_SEC / HZ.

(** Rounded up to jiffies, at least one. *)
Lemma to_jiffies_ok v : 0 <= v <= (2 ^ 31 - 1) * NSEC_PER_JIFFY -> 0 < to_jiffies v < 2 ^ 31 /\
  v <= to_jiffies v * NSEC_PER_JIFFY /\ (to_jiffies v = 1 \/ (to_jiffies v - 1) * NSEC_PER_JIFFY < v).
Proof.
  change NSEC_PER_JIFFY with 3906250. intros Hv. unfold to_jiffies. change (NSEC_PER_SEC / HZ) with 3906250. cbv zeta.
  assert (u64 (v + (3906250 - 1)) = v + 3906249) as -> by (unfold u64; rewrite Z.mod_small; lia).
  pose proof (Z.div_mod (v + 3906249) 3906250 ltac:(lia)) as Hd. pose proof (Z.mod_pos_bound (v + 3906249) 3906250 ltac:(lia)) as Hm.
  set (q := (v + 3906249) / 3906250) in *. destruct (Z.leb_spec q 0).
  - assert (q = 0) by lia. rewrite (s32_id 1) by (unfold is_s32; lia). lia.
  - rewrite s32_id by (unfold is_s32; lia). lia.
Qed.
