(* ===== verification/UserWakelockTree.v ===== *)
(** Wake locks of user space: the tree of names, the search in it and the
    insertion. *)

From stdpp Require Import gmap sorting.
From S2P Require Import Prelude.
From S2P Require Import Ring Blocks Ctype Strtol State RbTree RbShape RbOps RbFacts.
From S2P Require Import Wakelock WakelockInv WakelockOps WakelockSteps WakelockCalls UserWakelock UserWakelockText.

Definition nm (u : user) (x : Z) : list Z := match unames u !! x with Some n => cstr n | None => [] end.
Definition before_name (u : user) (x y : Z) : Prop := lex (nm u x) (nm u y) = Lt.

(** The tree holds the locks [xs] in the order of their names. *)
Record u_ok (u : user) (xs : list Z) : Prop := {
  uo_tree : exists t, repr (mem (utree u)) (utree u) t /\ is_rbtree t /\ inorder t = xs;
  uo_names : forall x, x ∈ xs -> exists w, unames u !! x = Some (w ++ [0]) /\ cstring w;
  uo_sorted : StronglySorted (before_name u) xs;
  uo_types : forall x, x ∈ xs -> suspend_type (upw u) (wake_lock_of x)
}.

Lemma nm_eq u x w : unames u !! x = Some (w ++ [0]) -> cstring w -> nm u x = w.
Proof. intros E Hw. unfold nm. rewrite E. now apply (cstr_ok w []). Qed.

(** Names are unique. *)
Lemma nm_inj u xs x y : u_ok u xs -> x ∈ xs -> y ∈ xs -> nm u x = nm u y -> x = y.
Proof.
  intros H Hx Hy E. apply list_elem_of_lookup in Hx as [i Hi]. apply list_elem_of_lookup in Hy as [j Hj].
  pose proof (uo_sorted _ _ H) as Hs. destruct (Nat.lt_trichotomy i j) as [Hij|[->|Hij]]; [exfalso| congruence |exfalso].
  - rewrite <- (take_drop_middle xs j y Hj) in Hs. apply StronglySorted_app in Hs as (Hs & _ & _).
    assert (x ∈ take j xs) as Hin by (apply list_elem_of_lookup; exists i; rewrite lookup_take_lt by lia; done).
    specialize (Hs x y Hin ltac:(left)). unfold before_name in Hs. rewrite E, lex_refl in Hs. done.
  - rewrite <- (take_drop_middle xs i x Hi) in Hs. apply StronglySorted_app in Hs as (Hs & _ & _).
    assert (y ∈ take i xs) as Hin by (apply list_elem_of_lookup; exists j; rewrite lookup_take_lt by lia; done).
    specialize (Hs y x Hin ltac:(left)). unfold before_name in Hs. rewrite E, lex_refl in Hs. done.
Qed.

Lemma on_utree_read {A} (m : M A) u a : m (utree u) = Ok (a, utree u) -> on_utree m u = Ok (a, u).
Proof. unfold on_utree, gets, lift, mbind, ST_bind. intros ->. now destruct u. Qed.
Lemma on_upw_read {A} (m : PM A) u a : m (upw u) = Ok (a, upw u) -> on_upw m u = Ok (a, u).
Proof. unfold on_upw, gets, lift, mbind, ST_bind. intros ->. now destruct u. Qed.
Lemma name_at_eq u x n : unames u !! x = Some n -> name_at x u = Ok (n, u).
Proof. unfold name_at, gets, mbind, ST_bind. now intros ->. Qed.

(** * The search *)

Definition find_result (u : user) (t : tree) (w : list Z) (r : (Z * rb_link) + Z) : Prop :=
  match r with
  | inr x => x ∈ inorder t /\ nm u x = w
  | inl (parent, p) => exists k, plug k RbShape.E = t /\ parent = cparent k /\ p = link_of k /\
      (forall x, x ∈ before k -> lex (nm u x) w = Lt) /\ (forall x, x ∈ RbShape.after k -> lex w (nm u x) = Lt)
  end.

Lemma find_step_eq u k c l a r w rest : repr (mem (utree u)) (utree u) (plug k (T c l a r)) -> cstring w ->
  (exists v, unames u !! a = Some (v ++ [0]) /\ cstring v) ->
  find_step (w ++ rest) (zlen w) (cparent k, link_of k) u = Ok (match lex w (nm u a) with
    | Lt => inl (cparent (FL c a r :: k), link_of (FL c a r :: k))
    | Gt => inl (cparent (FR c l a :: k), link_of (FR c l a :: k))
    | Eq => inr (inr a)
    end, u).
Proof.
  intros H Hw (v & Ev & Hv). unfold find_step, mbind at 1, ST_bind at 1. rewrite (on_utree_read _ _ _ (read_link_sub _ _ _ _ H)), (repr_addr _ _ _ _ H). cbn [addr].
  unfold mbind, ST_bind, lift. rewrite (name_at_eq _ _ _ Ev), (name_diff_ok w rest v Hw Hv), (nm_eq _ _ _ Ev Hv). now destruct (lex w v).
Qed.

Lemma find_ok u w rest fuel s k : cstring w ->
  repr (mem (utree u)) (utree u) (plug k s) -> StronglySorted (before_name u) (inorder (plug k s)) ->
  (forall x, x ∈ inorder (plug k s) -> exists v, unames u !! x = Some (v ++ [0]) /\ cstring v) -> (length (inorder s) < fuel)%nat ->
  (forall x, x ∈ before k -> lex (nm u x) w = Lt) -> (forall x, x ∈ RbShape.after k -> lex w (nm u x) = Lt) ->
  exists r, while fuel (find_step (w ++ rest) (zlen w)) (cparent k, link_of k) u = Ok (r, u) /\ find_result u (plug k s) w r.
Proof.
  intros Hw. revert fuel k. induction s as [|c l IHl a r IHr]; intros fuel k H Hs Hn Hf Hb Ha;
    (destruct fuel as [|fuel]; [lia|]); cbn [while]; unfold mbind at 1, ST_bind at 1.
  - exists (inl (cparent k, link_of k)). split.
    + unfold find_step, mbind at 1, ST_bind at 1. now rewrite (on_utree_read _ _ _ (read_link_sub _ _ _ _ H)).
    + exists k. done.
  - pose proof Hs as Hs'. rewrite inorder_plug in Hs'. cbn [inorder] in Hs', Hf. rewrite length_app in Hf. cbn [length] in Hf.
    destruct (sorted_split _ _ _ _ _ _ Hs') as [Hl Hr]. assert (a ∈ inorder (plug k (T c l a r))) as Hin.
    { rewrite inorder_plug. cbn [inorder]. rewrite !elem_of_app, elem_of_cons. auto. }
    rewrite (find_step_eq u k c l a r w rest H Hw (Hn a Hin)). destruct (lex w (nm u a)) eqn:El.
    + exists (inr a). split; [done|]. apply lex_eq in El. done.
    + apply (IHl fuel (FL c a r :: k)); [done|done|done|lia|done|].
      intros x. cbn [RbShape.after]. rewrite elem_of_cons, elem_of_app. intros [-> |[Hx|Hx]]; [done| |auto].
      apply (lex_trans _ (nm u a)); [done|]. now apply Hr.
    + assert (lex (nm u a) w = Lt) as El' by (rewrite lex_opp, El; done). apply (IHr fuel (FR c l a :: k)); [done|done|done|lia| |done].
      intros x. cbn [before]. rewrite !elem_of_app, list_elem_of_singleton. intros [Hx|[Hx| ->]]; [auto| |done].
      apply (lex_trans _ (nm u a)); [now apply Hl|done].
Qed.

(** * The insertion *)

(** A new object: aligned, not in use as a node or as a wake lock. *)
Record fresh (u : user) (l : Z) : Prop := {
  fr_addr : is_addr l;
  fr_node : mem (utree u) !! l = None;
  fr_lock : wake_lock_of l ∉ linked_locks (upw u)
}.

Lemma repr_grow s t l v : repr (mem s) s t -> mem s !! l = None ->
  repr (mem (Store (<[l := v]> (mem s)) (rb_root s))) (Store (<[l := v]> (mem s)) (rb_root s)) t /\ l ∉ inorder t.
Proof.
  intros [[H1 H2 H3 H4] H5] Hl. assert (l ∉ (cells 0 t).*1) as Hn.
  { intros ([y n] & -> & Hy)%list_elem_of_fmap. cbn in Hl. rewrite (H3 y n Hy) in Hl. done. }
  split; [|now rewrite <- (cells_inorder 0)]. split; [|done]. split; [done|done| |done].
  intros a n Ha. cbn. rewrite lookup_insert_ne; [now apply H3|]. intros ->. apply Hn. apply list_elem_of_fmap. now exists (a, n).
Qed.

Lemma runs_on_upw {A} (m : PM A) u (Q : A -> user -> Prop) : runs m (upw u) (fun a p => Q a (User p (utree u) (unames u) (ualloc u))) -> runs (on_upw m) u Q.
Proof. intros H. apply runs_gets. unfold runs, lift, mbind, ST_bind in *. destruct (m (upw u)) as [[a p]|e]; exact H. Qed.
Lemma runs_on_utree {A} (m : M A) u (Q : A -> user -> Prop) : runs m (utree u) (fun a t => Q a (User (upw u) t (unames u) (ualloc u))) -> runs (on_utree m) u Q.
Proof. intros H. apply runs_gets. unfold runs, lift, mbind, ST_bind in *. destruct (m (utree u)) as [[a p]|e]; exact H. Qed.
Lemma runs_on_utree_seq {A B} (m1 : M A) (m2 : M B) u (Q : B -> user -> Prop) :
  runs (m1;; m2) (utree u) (fun b t => Q b (User (upw u) t (unames u) (ualloc u))) -> runs (on_utree m1;; on_utree m2) u Q.
Proof.
  intros H. apply runs_bind, runs_on_utree. unfold runs, mbind, ST_bind in H. unfold runs at 1. destruct (m1 (utree u)) as [[a t]|e]; [|exact H].
  apply runs_on_utree. exact H.
Qed.

(** Where the name belongs. *)
Definition splits (u : user) (w : list Z) (ys zs : list Z) : Prop :=
  (forall x, x ∈ ys -> lex (nm u x) w = Lt) /\ (forall x, x ∈ zs -> lex w (nm u x) = Lt).

(** The object is filled in and linked; its wake lock is initialised. *)
Record inserted (u u' : user) (ys zs : list Z) (l : Z) (w : list Z) : Prop := {
  ins_ok : u_ok u' (ys ++ l :: zs);
  ins_name : nm u' l = w;
  ins_others : forall x, x ∈ ys ++ zs -> nm u' x = nm u x;
  ins_power : exists name, wake_lock_init (wake_lock_of l) WAKE_LOCK_SUSPEND (Some name) (upw u) = Ok (tt, upw u');
  ins_alloc : ualloc u' = tail (ualloc u)
}.

Lemma copy_user_name w rest : w <> [] -> memcpy (repeat 0 (Z.to_nat (zlen w + 1))) 0 (w ++ rest) 0 (zlen w) = Ok (w ++ [0]).
Proof.
  intros Hw. pose proof (zlen_nonneg w). assert (zlen w <> 0) as Hz by (intros E; apply Hw; unfold zlen in E; destruct w; [done|cbn in E; lia]).
  assert (length (repeat 0 (Z.to_nat (zlen w + 1))) = S (length w)) as Hl by (rewrite repeat_length; unfold zlen; lia).
  unfold memcpy. destruct (Z.eqb_spec (zlen w) 0); [done|].
  assert ((0 <=? 0) && (0 + zlen w <=? zlen (repeat 0 (Z.to_nat (zlen w + 1)))) && (0 <=? 0) && (0 + zlen w <=? zlen (w ++ rest)) && (0 <? zlen w) = true) as ->.
  { rewrite zlen_app. pose proof (zlen_nonneg rest). unfold zlen at 2. rewrite Hl. rewrite !andb_true_iff, !Z.leb_le, Z.ltb_lt. unfold zlen in *. lia. }
  assert (Z.to_nat (zlen w) = length w) as E1 by (unfold zlen; lia). assert (Z.to_nat (zlen w + 1) = (length w + 1)%nat) as E2 by (unfold zlen; lia).
  rewrite Z.add_0_l, E1, E2. change (Z.to_nat 0) with 0%nat. rewrite drop_0, take_app_length, take_0. cbn [app]. do 2 f_equal.
  rewrite repeat_app, drop_app_length'; [done|now rewrite repeat_length].
Qed.

(** From the new object to its place in the tree. *)
Definition fill_in (buf : list Z) (name_len timeout l parent : Z) (p : rb_link) : UM (Z + Z * Z) :=
  name ← name_at l;
  name ← lift (memcpy name 0 buf 0 name_len);
  set_name l name;;
  on_upw (wake_lock_init (wake_lock_of l) WAKE_LOCK_SUSPEND (Some name));;
  on_utree (rb_link_node l parent p);;
  on_utree (rb_insert_color l);;
  mret (inr (l, timeout)).

Definition with_object (u : user) (l : Z) (w : list Z) : user :=
  User (upw u) (Store (<[l := RbNode 0 0 0]> (mem (utree u))) (rb_root (utree u))) (<[l := repeat 0 (Z.to_nat (zlen w + 1))]> (unames u)) (tail (ualloc u)).

Lemma fill_in_ok u k w rest t l : wl_ok (upw u) -> u_ok u (before k ++ RbShape.after k) -> repr (mem (utree u)) (utree u) (plug k RbShape.E) -> is_rbtree (plug k RbShape.E) ->
  cstring w -> w <> [] -> splits u w (before k) (RbShape.after k) -> fresh u l ->
  runs (fill_in (w ++ rest) (zlen w) t l (cparent k) (link_of k)) (with_object u l w)
    (fun r u' => r = inr (l, t) /\ inserted u u' (before k) (RbShape.after k) l w).
Proof.
  intros Hp [_ O2 O3 O4] Hr Hrb Hw Hne [S1 S2] [F1 F2 F3]. destruct (repr_grow _ _ l (RbNode 0 0 0) Hr F2) as [Hr1 Hln].
  assert (inorder (plug k RbShape.E) = before k ++ RbShape.after k) as Hio by (rewrite inorder_plug; done).
  unfold fill_in. apply runs_bind. eapply runs_eq; [apply name_at_eq; cbn; apply lookup_insert_eq|].
  apply runs_bind. eapply runs_eq; [unfold lift; rewrite copy_user_name by done; reflexivity|]. apply runs_bind, runs_modify.
  apply runs_bind, runs_on_upw. cbn [upw with_object].
  destruct (proj1 (runs_exists _ _ _) (init_fine (upw u) (wake_lock_of l) WAKE_LOCK_SUSPEND (w ++ [0]) Hp F3 ltac:(unfold WAKE_LOCK_SUSPEND; lia))) as ([] & p & Ei & F & _).
  destruct (init_eq (upw u) (wake_lock_of l) WAKE_LOCK_SUSPEND (w ++ [0]) F3) as (L & _ & HLf & Ei').
  rewrite Ei in Ei'. injection Ei' as Ep. eapply runs_eq; [exact Ei|].
  apply runs_bind_assoc, runs_bind. apply runs_on_utree_seq.
  eapply runs_mono; [exact (insert_holds _ _ k l (RbNode 0 0 0) Hr1 Hrb ltac:(cbn; apply lookup_insert_eq) Hln F1)|].
  intros [] s' (t' & Ht' & Hrb' & Hi' & _). apply runs_ret. split; [done|].
  set (u' := User _ _ _ _). assert (forall x, x <> l -> unames u' !! x = unames u !! x) as Hn.
  { intros x Hx. cbn. now rewrite !lookup_insert_ne by done. }
  assert (unames u' !! l = Some (w ++ [0])) as Hnl by (cbn; apply lookup_insert_eq).
  assert (forall x, x ∈ before k ++ RbShape.after k -> x <> l) as Hxl by (intros x Hx ->; apply Hln; now rewrite Hio).
  assert (forall x, x ∈ before k ++ RbShape.after k -> nm u' x = nm u x) as Hnm by (intros x Hx; unfold nm; now rewrite Hn by auto).
  pose proof (nm_eq u' l w Hnl Hw) as Hnml.
  split; [split| | | |]; try done.
  - exists t'. split; [eapply repr_self, Ht'|done].
  - intros x Hx. destruct (decide (x = l)) as [->|Hxn]; [now exists w|]. rewrite Hn by done. apply O2. set_solver.
  - apply sorted_insert.
    + eapply sorted_mono; [|exact O3]. intros x y Hx Hy. unfold before_name. now rewrite !Hnm.
    + intros y Hy. unfold before_name. rewrite Hnml, Hnm by set_solver. auto.
    + intros z Hz. unfold before_name. rewrite Hnml, Hnm by set_solver. auto.
  - intros x Hx. cbn [upw u']. destruct (decide (x = l)) as [->|Hxn].
    + rewrite Ep. exists L, false, false. cbn [locks with_lists]. rewrite lookup_insert_eq. split; [done|]. rewrite HLf. now apply view_new.
    + apply (fn_types _ _ _ F). apply O4. set_solver.
  - now exists (w ++ [0]).
Qed.

Definition alloc_ok (u : user) : Prop := match ualloc u with Some l :: _ => fresh u l | _ => True end.

Definition lookup_post (u : user) (xs : list Z) (allocate want : bool) (text : list Z) (r : Z + Z * Z) (u' : user) : Prop :=
  match parse_spec want text with
  | None => r = inl (- EINVAL) /\ u' = u
  | Some (w, t) =>
      (exists x, x ∈ xs /\ nm u x = w /\ r = inr (x, t) /\ u' = u) \/
      (forall x, x ∈ xs -> nm u x <> w) /\
      if allocate then
        match ualloc u with
        | Some l :: _ => r = inr (l, t) /\ exists ys zs, xs = ys ++ zs /\ inserted u u' ys zs l w
        | _ => r = inl (- ENOMEM) /\ u' = User (upw u) (utree u) (unames u) (tail (ualloc u))
        end
      else r = inl (- EINVAL) /\ u' = u
  end.

Lemma lex_ne a b : lex a b = Lt -> a <> b.
Proof. intros H ->. now rewrite lex_refl in H. Qed.

Lemma lookup_name_ok u xs allocate want text post : wl_ok (upw u) -> u_ok u xs -> cstring text -> alloc_ok u ->
  runs (lookup_wake_lock_name (text ++ 0 :: post) allocate want) u (lookup_post u xs allocate want text).
Proof.
  intros Hp O Ht Hal. pose proof O as [(t & Hr & Hrb & Hi) O2 O3 O4]. unfold lookup_wake_lock_name, lookup_post. apply runs_bind.
  eapply runs_eq; [unfold lift; rewrite parse_args_ok by done; reflexivity|]. destruct (parse_spec want text) as [[w tm]|] eqn:Ep; [|now apply runs_ret].
  destruct (parse_name want text w tm Ht Ep) as (Hwn & Hw & rest & ->). rewrite <- app_assoc.
  apply runs_bind. eapply runs_eq; [apply on_utree_read; reflexivity|]. apply runs_bind.
  destruct (find_ok u w (rest ++ 0 :: post) (S (size (mem (utree u)))) t [] Hw) as (r & E & Hres).
  { done. } { now rewrite <- Hi in O3. } { now rewrite <- Hi in O2. } { pose proof (repr_depth _ _ [] _ Hr). lia. } { now intros x ?%elem_of_nil. } { now intros x ?%elem_of_nil. }
  eapply runs_eq; [exact E|]. destruct r as [[parent p]|x]; cbn in Hres.
  2:{ apply runs_ret. left. exists x. rewrite <- Hi. tauto. }
  destruct Hres as (k & Hk & -> & -> & Hb & Ha). assert (xs = before k ++ RbShape.after k) as Exs by (rewrite <- Hi, <- Hk, inorder_plug; done).
  assert (forall x, x ∈ xs -> nm u x <> w) as Hno.
  { intros x Hx. rewrite Exs in Hx. apply elem_of_app in Hx as [Hx|Hx]; [now apply lex_ne, Hb|]. intros E'. apply (lex_ne w (nm u x)); [now apply Ha|done]. }
  destruct allocate; cbn [negb]; [|apply runs_ret; right; done]. apply runs_bind. unfold kzalloc. apply runs_gets. cbv zeta. apply runs_bind, runs_modify, runs_ret.
  unfold alloc_ok in Hal. destruct (ualloc u) as [|[l|] q] eqn:Eq; cbn [tail]; [apply runs_ret; right; done| |apply runs_ret; right; done].
  rewrite <- Hk in Hr, Hrb. rewrite Exs in O. eapply runs_mono.
  { pose proof (fill_in_ok u k w (rest ++ 0 :: post) tm l Hp O Hr Hrb Hw Hwn (conj Hb Ha) Hal) as X. unfold with_object in X. rewrite Eq in X. exact X. }
  intros r u' [-> I]. right. split; [done|]. split; [done|]. now exists (before k), (RbShape.after k).
Qed.
