(* ===== verification/UserWakelockFacts.v ===== *)
(** Wake locks of user space: the files /sys/power/wake_lock and wake_unlock as a
    map from names to locks. *)

From stdpp Require Import gmap sorting.
From S2P Require Import Prelude.
From S2P Require Import Ring Blocks Ctype Strtol State RbTree RbShape RbOps RbFacts.
From S2P Require Import Wakelock WakelockInv WakelockOps WakelockSteps WakelockCalls WakelockFacts UserWakelock UserWakelockText UserWakelockTree.

Definition with_upw (u : user) (p : power) : user := User p (utree u) (unames u) (ualloc u).

Lemma u_ok_power u xs p : u_ok u xs -> (forall x, x ∈ xs -> suspend_type (upw u) (wake_lock_of x) -> suspend_type p (wake_lock_of x)) -> u_ok (with_upw u p) xs.
Proof. intros [O1 O2 O3 O4] H. split; try done. intros x Hx. apply H; [done|]. now apply O4. Qed.

(** * Taking a lock *)

Definition take_lock (l timeout : Z) : UM unit :=
  if negb (timeout =? 0) then on_upw (wake_lock_timeout (wake_lock_of l) timeout) else on_upw (wake_lock (wake_lock_of l)).

Lemma take_lock_ok u xs run l t : reachable (upw u) run -> u_ok u xs -> l ∈ xs -> t < 2 ^ 31 ->
  runs (take_lock l t) u (fun _ u' => exists p, u' = with_upw u p /\ reachable p run /\ u_ok u' xs /\ still (upw u) p (fun x => x = wake_lock_of l) /\
    (0 <= t -> blocks p (wake_lock_of l) /\ auto p (wake_lock_of l) = negb (t =? 0))).
Proof.
  intros Hr O Hl Ht. pose proof (reachable_good _ _ Hr) as [Hp _]. pose proof (uo_types _ _ O l Hl) as Hty. pose proof (suspend_type_linked _ _ Hp Hty) as Hln.
  assert (forall timed timeout p, wake_lock_internal (wake_lock_of l) timeout timed (upw u) = Ok (tt, p) ->
    enabled (upw u) run (if timed then CTimeout (wake_lock_of l) timeout else CLock (wake_lock_of l)) ->
    perform (if timed then CTimeout (wake_lock_of l) timeout else CLock (wake_lock_of l)) run (upw u) = Ok (run, p) -> reachable p run) as Hreach.
  { intros timed timeout p _ He E. eapply R_step; eauto. }
  assert (forall timed timeout, (timed = false -> timeout = 0) -> runs (wake_lock_internal (wake_lock_of l) timeout timed) (upw u)
    (fun _ p => reachable p run /\ u_ok (with_upw u p) xs /\ still (upw u) p (fun x => x = wake_lock_of l) /\
      (timed = false \/ 0 < timeout < 2 ^ 31 -> blocks p (wake_lock_of l) /\ auto p (wake_lock_of l) = timed))) as Hmain.
  { intros timed timeout H0. destruct (proj1 (runs_exists _ _ _) (lock_ok (upw u) (wake_lock_of l) timeout timed Hp Hln)) as ([] & p & E & F & B).
    eapply runs_eq; [exact E|]. split; [|split; [apply u_ok_power; [done|]; intros x _; apply (fn_types _ _ _ F)|split; [apply (fn_still _ _ _ F)|intros H; now apply B]]].
    apply (Hreach timed timeout p E); destruct timed; try exact Hln; cbn [perform]; unfold wake_lock, wake_lock_timeout, mbind, ST_bind; [now rewrite E|].
    rewrite (H0 eq_refl) in E. now rewrite E. }
  unfold take_lock. destruct (Z.eqb_spec t 0) as [->|Hne]; cbn [negb]; apply runs_on_upw.
  - eapply runs_mono; [exact (Hmain false 0 ltac:(done))|]. intros [] p (H1 & H2 & H3 & H4). exists p. repeat (split; [done|]). intros _. apply H4. now left.
  - eapply runs_mono; [exact (Hmain true t ltac:(done))|]. intros [] p (H1 & H2 & H3 & H4). exists p. repeat (split; [done|]).
    intros H. apply H4. right. lia.
Qed.

Lemma parse_timeout want text w t : parse_spec want text = Some (w, t) -> t < 2 ^ 31.
Proof.
  unfold parse_spec. cbv zeta. destruct (take_while in_name text); [done|]. destruct (skip_while isspace (skip_while in_name text)); [intros [= _ <-]; lia|].
  destruct want; [|done]. destruct (skip_while isspace _); [|done]. intros [= _ <-]. unfold to_jiffies. cbv zeta. match goal with |- s32 ?x < _ => pose proof (s32_range x) end. lia.
Qed.

(** What a write to wake_lock does. *)
Definition store_post (u : user) (xs : list Z) (text : list Z) (n r : Z) (u' : user) (xs' : list Z) : Prop :=
  match parse_spec true text with
  | None => r = - EINVAL /\ u' = u /\ xs' = xs
  | Some (w, t) =>
      r = - ENOMEM /\ upw u' = upw u /\ xs' = xs /\ (forall x, x ∈ xs -> nm u' x = nm u x /\ nm u x <> w) /\ (forall l, head (ualloc u) <> Some (Some l)) \/
      r = n /\ exists l, l ∈ xs' /\ nm u' l = w /\ (forall x, x ∈ xs' <-> x = l \/ x ∈ xs) /\ (forall x, x ∈ xs -> nm u' x = nm u x) /\
        still (upw u) (upw u') (fun x => x = wake_lock_of l) /\
        (0 <= t -> blocks (upw u') (wake_lock_of l) /\ auto (upw u') (wake_lock_of l) = negb (t =? 0))
  end.

Lemma inserted_power u u' ys zs l w run : inserted u u' ys zs l w -> fresh u l -> reachable (upw u) run ->
  reachable (upw u') run /\ still (upw u) (upw u') untouched.
Proof.
  intros I F Hr. destruct (ins_power _ _ _ _ _ _ I) as (name & E). pose proof (fr_lock _ _ F) as Hl. pose proof (reachable_good _ _ Hr) as [Hp _]. split.
  - apply (R_step (upw u) run (CInit (wake_lock_of l) WAKE_LOCK_SUSPEND name)); [done| |].
    + split; [done|unfold WAKE_LOCK_SUSPEND, WAKE_LOCK_TYPE_COUNT; lia].
    + cbn [perform]. unfold mbind, ST_bind. now rewrite E.
  - pose proof (init_fine (upw u) (wake_lock_of l) WAKE_LOCK_SUSPEND name Hp Hl ltac:(unfold WAKE_LOCK_SUSPEND; lia)) as H.
    unfold runs in H. rewrite E in H. apply H.
Qed.

Lemma store_ok u xs run text post n : reachable (upw u) run -> u_ok u xs -> cstring text -> alloc_ok u ->
  runs (wake_lock_store (text ++ 0 :: post) n) u (fun r u' => exists xs', u_ok u' xs' /\ reachable (upw u') run /\ store_post u xs text n r u' xs').
Proof.
  intros Hr O Ht Hal. pose proof (reachable_good _ _ Hr) as [Hp _]. unfold wake_lock_store. apply runs_bind.
  eapply runs_mono; [exact (lookup_name_ok u xs true true text post Hp O Ht Hal)|]. intros r u1 H. unfold lookup_post, store_post in *.
  destruct (parse_spec true text) as [[w t]|] eqn:Ep; [|destruct H as [-> ->]; apply runs_ret; exists xs; tauto]. pose proof (parse_timeout _ _ _ _ Ep) as Htl.
  destruct H as [(x & Hx & Hn & -> & ->)|(Hno & H)].
  - apply runs_bind. eapply runs_mono; [exact (take_lock_ok u xs run x t Hr O Hx Htl)|]. intros [] u2 (p & -> & H1 & H2 & H3 & H4). apply runs_ret.
    exists xs. split; [done|]. split; [done|]. right. split; [done|]. exists x. split; [done|]. split; [done|]. split; [|split; [done|split; [exact H3|exact H4]]].
    intros y. split; [now right|]. now intros [->|?].
  - unfold alloc_ok in Hal. destruct (ualloc u) as [|[l|] q] eqn:Eq.
    1, 3: destruct H as [-> ->]; apply runs_ret; exists xs; split; [destruct O; now split|]; split; [done|]; left; repeat (split; [done|]); split; [|done]; intros x Hx; split; [done|auto].
    destruct H as [-> (ys & zs & -> & I)]. destruct (inserted_power u u1 ys zs l w run I Hal Hr) as [Hr1 Hs1].
    assert (l ∈ ys ++ l :: zs) as Hl by set_solver.
    apply runs_bind. eapply runs_mono; [exact (take_lock_ok u1 _ run l t Hr1 (ins_ok _ _ _ _ _ _ I) Hl Htl)|]. intros [] u2 (p & -> & H1 & H2 & H3 & H4). apply runs_ret.
    exists (ys ++ l :: zs). split; [done|]. split; [done|]. right. split; [done|]. exists l. split; [done|]. split; [apply I|]. split; [intros x; set_solver|].
    split; [intros x Hx; now apply (ins_others _ _ _ _ _ _ I)|]. split; [|exact H4]. eapply still_trans; [|exact H3]. now apply still_weaken.
Qed.

(** What a write to wake_unlock does: the tree and the names do not change. *)
Definition unlock_post (u : user) (xs : list Z) (text : list Z) (n r : Z) (u' : user) : Prop :=
  match parse_spec false text with
  | None => r = - EINVAL /\ u' = u
  | Some (w, _) =>
      r = n /\ u' = with_upw u (upw u') /\ (exists l, l ∈ xs /\ nm u l = w /\ wake_lock_of l ∈ inactive_locks (upw u') /\ ~ blocks (upw u') (wake_lock_of l) /\
        still (upw u) (upw u') (fun x => x = wake_lock_of l)) \/
      r = - EINVAL /\ u' = u /\ forall x, x ∈ xs -> nm u x <> w
  end.

Lemma unlock_store_ok u xs run text post n : reachable (upw u) run -> u_ok u xs -> cstring text -> alloc_ok u ->
  runs (wake_unlock_store (text ++ 0 :: post) n) u (fun r u' => u_ok u' xs /\ reachable (upw u') run /\ unlock_post u xs text n r u').
Proof.
  intros Hr O Ht Hal. pose proof (reachable_good _ _ Hr) as [Hp _]. unfold wake_unlock_store. apply runs_bind.
  eapply runs_mono; [exact (lookup_name_ok u xs false false text post Hp O Ht Hal)|]. intros r u1 H. unfold lookup_post, unlock_post in *.
  destruct (parse_spec false text) as [[w t]|] eqn:Ep; [|destruct H as [-> ->]; apply runs_ret; tauto].
  destruct H as [(x & Hx & Hn & -> & ->)|(Hno & -> & ->)]; [|apply runs_ret; split; [done|]; split; [done|]; right; done].
  pose proof (uo_types _ _ O x Hx) as Hty. pose proof (suspend_type_linked _ _ Hp Hty) as Hln.
  destruct (proj1 (runs_exists _ _ _) (unlock_ok (upw u) (wake_lock_of x) Hp Hln)) as ([] & p & E & F & Hi).
  apply runs_bind, runs_on_upw. eapply runs_eq; [exact E|]. apply runs_ret. split; [|split].
  - apply u_ok_power; [done|]. intros y _. apply (fn_types _ _ _ F).
  - apply (R_step (upw u) run (CUnlock (wake_lock_of x))); [done|exact Hln|]. cbn [perform]. unfold mbind, ST_bind. now rewrite E.
  - left. split; [done|]. split; [done|]. exists x. split; [done|]. split; [done|]. split; [done|]. split; [|apply (fn_still _ _ _ F)]. intros [Hin _]. now apply (idle_not_suspend p (wake_lock_of x) (fn_ok _ _ _ F)).
Qed.

(** * Reading the files *)

Definition is_active (p : power) (x : Z) : bool := match locks p !! x with Some L => has_flag (flags L) WAKE_LOCK_ACTIVE | None => false end.
Definition listing (u : user) (active : bool) (xs : list Z) : list Z :=
  flat_map (fun x => if Bool.eqb (is_active (upw u) (wake_lock_of x)) active then nm u x ++ [32] else []) xs.
(** What fits into the page, without its last byte. *)
Definition page (l : list Z) : list Z := take (Z.to_nat (PAGE_SIZE - 1)) l.

Lemma scnprintf_page a b : scnprintf (page a) b = page (a ++ b).
Proof.
  unfold scnprintf, page. set (n := Z.to_nat (PAGE_SIZE - 1)). rewrite take_app. f_equal. f_equal. unfold zlen. rewrite length_take. unfold n, PAGE_SIZE. lia.
Qed.

Lemma next_in_tree u t ys x zs : repr (mem (utree u)) (utree u) t -> inorder t = ys ++ x :: zs -> rb_next x (utree u) = Ok (first_of zs, utree u).
Proof. intros H (k & c & l & r & -> & <- & <-)%node_zip. now apply (rb_next_sim (mem (utree u)) k c l). Qed.

Lemma listing_app u active ys zs : listing u active (ys ++ zs) = listing u active ys ++ listing u active zs.
Proof. apply flat_map_app. Qed.

Lemma show_step_ok u xs t ys x zs active : u_ok u xs -> repr (mem (utree u)) (utree u) t -> inorder t = xs -> xs = ys ++ x :: zs ->
  show_step active (x, page (listing u active ys)) u = Ok (inl (first_of zs, page (listing u active (ys ++ [x]))), u).
Proof.
  intros O Hr Hi Hxs. assert (x ∈ xs) as Hx by (rewrite Hxs; set_solver). assert (x <> 0) as Hnz.
  { rewrite <- Hi, <- (cells_inorder 0) in Hx. apply (sat_addr _ _ _ (repr_sat _ _ _ Hr)) in Hx as [? _]. lia. }
  destruct (uo_types _ _ O x Hx) as (L & b1 & b2 & HL & _). destruct (uo_names _ _ O x Hx) as (w & Hw & Hcs).
  unfold show_step. destruct (Z.eqb_spec x 0); [done|]. unfold mbind at 1, ST_bind at 1.
  rewrite (on_upw_read _ u (is_active (upw u) (wake_lock_of x))).
  2:{ unfold wake_lock_active, mbind, ST_bind, is_active. now rewrite (lock_at_eq _ _ _ HL), HL. }
  unfold mbind at 1, ST_bind at 1. rewrite (name_at_eq _ _ _ Hw). cbv zeta. unfold mbind, ST_bind.
  rewrite (on_utree_read _ u _ (next_in_tree u t ys x zs Hr ltac:(congruence))). unfold mret, ST_ret. do 3 f_equal. f_equal.
  rewrite listing_app, (cstr_ok w [] Hcs).
  assert (listing u active [x] = if Bool.eqb (is_active (upw u) (wake_lock_of x)) active then w ++ [32] else []) as ->.
  { unfold listing. cbn [flat_map]. now rewrite app_nil_r, (nm_eq _ _ _ Hw Hcs). }
  destruct (Bool.eqb _ active); [apply scnprintf_page|now rewrite app_nil_r].
Qed.

Lemma show_loop u xs t active : u_ok u xs -> repr (mem (utree u)) (utree u) t -> inorder t = xs -> forall zs ys fuel, xs = ys ++ zs -> (length zs < fuel)%nat ->
  while fuel (show_step active) (first_of zs, page (listing u active ys)) u = Ok (page (listing u active xs), u).
Proof.
  intros O Hr Hi. induction zs as [|x zs IH]; intros ys [|fuel] Hxs Hf; cbn [length] in Hf; try lia; cbn [while]; unfold mbind at 1, ST_bind at 1.
  - cbn. rewrite Hxs, app_nil_r. done.
  - change (first_of (x :: zs)) with x. rewrite (show_step_ok u xs t ys x zs active O Hr Hi Hxs). apply IH; [|lia]. now rewrite <- app_assoc.
Qed.

Lemma show_ok u xs active : u_ok u xs -> show active u = Ok (page (listing u active xs ++ [10]), u).
Proof.
  intros O. pose proof O as [(t & Hr & Hrb & Hi) O2 O3 O4]. unfold show, mbind at 1, ST_bind at 1. rewrite (on_utree_read node_fuel u _ eq_refl).
  unfold mbind at 1, ST_bind at 1. rewrite (on_utree_read _ _ _ (rb_first_sim _ t _ Hr)), Hi. unfold mbind at 1, ST_bind at 1.
  pose proof (show_loop u xs t active O Hr Hi xs [] (S (size (mem (utree u)))) eq_refl) as E. change (page (listing u active [])) with (@nil Z) in E. rewrite E.
  - unfold mret, ST_ret. now rewrite scnprintf_page.
  - pose proof (repr_depth _ _ [] _ Hr) as Hd. cbn [plug length] in Hd. rewrite Hi in Hd. lia.
Qed.

(** * Runs *)

(** Writes to the files, and anything that happens to the wake locks meanwhile;
    others do not destroy the locks of user space. *)
Inductive u_reachable : user -> option Z -> Prop :=
  | U_boot j k c d p q : booted j k c d = Ok (0, p) -> u_reachable (user_start p q) None
  | U_lock u run text post n r u' : u_reachable u run -> cstring text -> alloc_ok u -> wake_lock_store (text ++ 0 :: post) n u = Ok (r, u') -> u_reachable u' run
  | U_unlock u run text post n r u' : u_reachable u run -> cstring text -> alloc_ok u -> wake_unlock_store (text ++ 0 :: post) n u = Ok (r, u') -> u_reachable u' run
  | U_power u run c run' p' : u_reachable u run -> enabled (upw u) run c -> (forall x, is_Some (unames u !! x) -> c <> CDestroy (wake_lock_of x)) ->
      perform c run (upw u) = Ok (run', p') -> u_reachable (with_upw u p') run'.

Lemma user_start_ok p q : u_ok (user_start p q) [].
Proof.
  split; cbn; [|now intros x ?%elem_of_nil|constructor|now intros x ?%elem_of_nil].
  destruct (holds_empty ∅) as (t & Hr & Hrb & Hi & _). exists t. done.
Qed.

Lemma u_reachable_ok u run : u_reachable u run -> exists xs, u_ok u xs /\ reachable (upw u) run.
Proof.
  induction 1 as [j k c d p q E|u run text post n r u' _ (xs & O & Hr) Ht Hal E|u run text post n r u' _ (xs & O & Hr) Ht Hal E|u run c run' p' _ (xs & O & Hr) He Hd E].
  - exists []. split; [apply user_start_ok|]. exact (R_boot j k c d p E).
  - destruct (proj1 (runs_exists _ _ _) (store_ok u xs run text post n Hr O Ht Hal)) as (r0 & u0 & E0 & xs' & H1 & H2 & _). rewrite E in E0. injection E0 as <- <-. eauto.
  - destruct (proj1 (runs_exists _ _ _) (unlock_store_ok u xs run text post n Hr O Ht Hal)) as (r0 & u0 & E0 & H1 & H2 & _). rewrite E in E0. injection E0 as <- <-. eauto.
  - exists xs. split; [|exact (R_step _ _ _ _ _ Hr He E)]. apply u_ok_power; [done|]. intros x Hx Hty. destruct (uo_names _ _ O x Hx) as (w & Hw & _).
    pose proof (call_types (upw u) run c (wake_lock_of x) (reachable_good _ _ Hr) He (Hd x ltac:(eauto)) Hty) as X. unfold runs in X. now rewrite E in X.
Qed.

(** C23: The files of user space are a map from names to wake locks, whatever else
    happens to the wake locks.  In every reachable state the tree holds the locks
    in the order of their names, which are distinct, and all calls return.  A
    write to wake_lock that is not a name and an optional timeout fails with
    -EINVAL and changes nothing; a new name gets a lock of its own, or -ENOMEM and
    nothing else; the lock of the name blocks suspend at once, for a time if one
    was given, unless the timeout is negative after its conversion; the other
    names keep their locks, and no other lock is taken or released.  A write to
    wake_unlock releases the lock of that very name and no other, and fails with
    -EINVAL if there is none.  Timeouts up to 2^31 - 1 jiffies are rounded up to
    jiffies, at least one; beyond, the conversion can give one, a negative one,
    or none at all.  Reading lists the names of the active or the inactive locks in
    their order, as far as they fit into the page. *)
Theorem user_wake_locks_correct u run : u_reachable u run ->
  exists xs, u_ok u xs /\ (forall x y, x ∈ xs -> y ∈ xs -> nm u x = nm u y -> x = y) /\
  (forall text post n, cstring text -> alloc_ok u ->
     exists r u' xs', wake_lock_store (text ++ 0 :: post) n u = Ok (r, u') /\ u_ok u' xs' /\ u_reachable u' run /\ store_post u xs text n r u' xs') /\
  (forall text post n, cstring text -> alloc_ok u ->
     exists r u', wake_unlock_store (text ++ 0 :: post) n u = Ok (r, u') /\ u_ok u' xs /\ u_reachable u' run /\ unlock_post u xs text n r u') /\
  wake_lock_show u = Ok (page (listing u true xs ++ [10]), u) /\
  wake_unlock_show u = Ok (page (listing u false xs ++ [10]), u) /\
  (forall v, 0 <= v <= (2 ^ 31 - 1) * NSEC_PER_JIFFY -> 0 < to_jiffies v < 2 ^ 31 /\
     v <= to_jiffies v * NSEC_PER_JIFFY /\ (to_jiffies v = 1 \/ (to_jiffies v - 1) * NSEC_PER_JIFFY < v)) /\
  to_jiffies (2 ^ 64 - 1) = 1 /\ to_jiffies (2 ^ 31 * NSEC_PER_JIFFY) = - 2 ^ 31 /\ to_jiffies (2 ^ 32 * NSEC_PER_JIFFY) = 0.
Proof.
  intros Hu. destruct (u_reachable_ok u run Hu) as (xs & O & Hr). exists xs. split; [done|]. split; [intros x y; now apply nm_inj|].
  split; [|split; [|split; [now apply show_ok|split; [now apply show_ok|split; [exact to_jiffies_ok|vm_compute; done]]]]].
  - intros text post n Ht Hal. destruct (proj1 (runs_exists _ _ _) (store_ok u xs run text post n Hr O Ht Hal)) as (r & u' & E & xs' & H1 & H2 & H3).
    exists r, u', xs'. split; [done|]. split; [done|]. split; [exact (U_lock _ _ _ _ _ _ _ Hu Ht Hal E)|done].
  - intros text post n Ht Hal. destruct (proj1 (runs_exists _ _ _) (unlock_store_ok u xs run text post n Hr O Ht Hal)) as (r & u' & E & H1 & H2 & H3).
    exists r, u'. split; [done|]. split; [done|]. split; [exact (U_unlock _ _ _ _ _ _ _ Hu Ht Hal E)|done].
Qed.

(** * An example: "b", then "a 100", with memory for two *)

Definition user_boot : user := user_start demo_boot [Some 1024; Some 2048].
Definition stored (text : list Z) (u : user) : user := match wake_lock_store (text ++ [0]) (zlen text) u with Ok (_, u') => u' | Err _ => u end.
Definition user_demo : user := stored [98] user_boot.

Lemma user_boot_reachable : u_reachable user_boot None.
Proof. apply (U_boot 4294967290 0 0 [5; 7]). vm_compute. reflexivity. Qed.

Lemma demo_alloc u l q : ualloc u = Some l :: q -> is_addr l -> mem (utree u) !! l = None -> (wake_lock_of l ∉ linked_locks (upw u)) -> alloc_ok u.
Proof. intros E H1 H2 H3. unfold alloc_ok. rewrite E. now split. Qed.

Lemma user_boot_alloc : alloc_ok user_boot.
Proof.
  apply (demo_alloc user_boot 1024 [Some 2048]); [reflexivity|vm_compute; repeat split; discriminate|reflexivity|].
  apply (bool_decide_unpack _). vm_compute. reflexivity.
Qed.

Lemma user_demo_reachable : u_reachable user_demo None.
Proof.
  apply (U_lock user_boot None [98] [] 1 1 user_demo user_boot_reachable); [|exact user_boot_alloc|vm_compute; reflexivity].
  constructor; [lia|constructor].
Qed.

Lemma user_demo_alloc : alloc_ok user_demo.
Proof.
  apply (demo_alloc user_demo 2048 []); [vm_compute; reflexivity|vm_compute; repeat split; discriminate|vm_compute; reflexivity|].
  apply (bool_decide_unpack _). vm_compute. reflexivity.
Qed.

Lemma user_wake_locks_correct_witness : exists xs r u' xs', wake_lock_store ([97; 32; 49; 48; 48] ++ 0 :: []) 5 user_demo = Ok (r, u') /\ u_ok u' xs' /\
  store_post user_demo xs [97; 32; 49; 48; 48] 5 r u' xs'.
Proof.
  destruct (user_wake_locks_correct user_demo None user_demo_reachable) as (xs & _ & _ & H & _). exists xs.
  destruct (H [97; 32; 49; 48; 48] [] 5) as (r & u' & xs' & H1 & H2 & _ & H3); [repeat constructor|exact user_demo_alloc|].
  exact (ex_intro _ r (ex_intro _ u' (ex_intro _ xs' (conj H1 (conj H2 H3))))).
Defined.

Example user_demo_show : (let u := stored [97; 32; 49; 48; 48] user_demo in match wake_lock_show u with Ok (s, _) => s | Err _ => [] end) = [97; 32; 98; 32; 10].
Proof. vm_compute. reflexivity. Qed.
