(* ===== verification/Cipher.v ===== *)
(** The single-block cipher interface of the crypto API (struct cipher_alg:
    setkey, encrypt, decrypt) with the law every cipher promises to the block
    modes: decryption undoes encryption and encryption undoes decryption, for
    every accepted key and every block, without leaving the tables or the
    block.  Byte/word conversions and the Feistel argument are shared by the
    ciphers. *)
From S2P Require Import Prelude.
From S2P Require Import Ring.

(** * Words in memory *)

Definition get_be32 (b : list Z) (i : Z) : res Z :=
  b0 ← rd b (4 * i); b1 ← rd b (4 * i + 1); b2 ← rd b (4 * i + 2); b3 ← rd b (4 * i + 3);
  Ok (b0 * 2 ^ 24 + b1 * 2 ^ 16 + b2 * 2 ^ 8 + b3).
Definition get_le32 (b : list Z) (i : Z) : res Z :=
  b0 ← rd b (4 * i); b1 ← rd b (4 * i + 1); b2 ← rd b (4 * i + 2); b3 ← rd b (4 * i + 3);
  Ok (b0 + b1 * 2 ^ 8 + b2 * 2 ^ 16 + b3 * 2 ^ 24).
Definition put_be32 (x : Z) : list Z := [u8 (x / 2 ^ 24); u8 (x / 2 ^ 16); u8 (x / 2 ^ 8); u8 x].
Definition put_le32 (x : Z) : list Z := [u8 x; u8 (x / 2 ^ 8); u8 (x / 2 ^ 16); u8 (x / 2 ^ 24)].

Definition rol32 (word shift : Z) : Z := Z.lor (shl32 word shift) (shr32 word (32 - shift)).

(** [n] words as a block of bytes, in either order, and back. *)
Definition put_words (put : Z -> list Z) (ws : list Z) : list Z := concat (put <$> ws).

Lemma bytes_of_word b0 b1 b2 b3 : is_u8 b0 -> is_u8 b1 -> is_u8 b2 -> is_u8 b3 ->
  let x := b0 * 2 ^ 24 + b1 * 2 ^ 16 + b2 * 2 ^ 8 + b3 in
  is_u32 x /\ u8 (x / 2 ^ 24) = b0 /\ u8 (x / 2 ^ 16) = b1 /\ u8 (x / 2 ^ 8) = b2 /\ u8 x = b3.
Proof.
  unfold is_u8, is_u32, u8. intros H0 H1 H2 H3. cbv zeta. set (x := b0 * 2 ^ 24 + b1 * 2 ^ 16 + b2 * 2 ^ 8 + b3).
  split; [lia|].
  assert (E1 : x / 2 ^ 24 = b0) by (symmetry; apply Z.div_unique with (b1 * 2 ^ 16 + b2 * 2 ^ 8 + b3); lia).
  assert (E2 : x / 2 ^ 16 = b0 * 2 ^ 8 + b1) by (symmetry; apply Z.div_unique with (b2 * 2 ^ 8 + b3); lia).
  assert (E3 : x / 2 ^ 8 = b0 * 2 ^ 16 + b1 * 2 ^ 8 + b2) by (symmetry; apply Z.div_unique with b3; lia).
  rewrite E1, E2, E3. split; [apply Z.mod_small; lia|]. repeat split; symmetry.
  - apply Z.mod_unique with b0; lia.
  - apply Z.mod_unique with (b0 * 2 ^ 8 + b1); lia.
  - apply Z.mod_unique with (b0 * 2 ^ 16 + b1 * 2 ^ 8 + b2); lia.
Qed.

Lemma word_of_bytes x : is_u32 x ->
  u8 (x / 2 ^ 24) * 2 ^ 24 + u8 (x / 2 ^ 16) * 2 ^ 16 + u8 (x / 2 ^ 8) * 2 ^ 8 + u8 x = x.
Proof.
  unfold is_u32, u8. intros Hx.
  assert (E3 : x / 2 ^ 16 = x / 2 ^ 8 / 2 ^ 8) by (rewrite Z.div_div by lia; reflexivity).
  assert (E4 : x / 2 ^ 24 = x / 2 ^ 8 / 2 ^ 8 / 2 ^ 8) by (rewrite !Z.div_div by lia; reflexivity).
  rewrite E4, E3. pose proof (Z.div_mod x (2 ^ 8) ltac:(lia)).
  pose proof (Z.div_mod (x / 2 ^ 8) (2 ^ 8) ltac:(lia)). pose proof (Z.div_mod (x / 2 ^ 8 / 2 ^ 8) (2 ^ 8) ltac:(lia)).
  rewrite (Z.mod_small (x / 2 ^ 8 / 2 ^ 8 / 2 ^ 8)); [lia|].
  rewrite <- E4. split; [apply Z.div_pos|apply Z.div_lt_upper_bound]; lia.
Qed.

Lemma put_be32_u8 x : Forall is_u8 (put_be32 x).
Proof. repeat constructor; apply u8_range. Qed.
Lemma put_le32_u8 x : Forall is_u8 (put_le32 x).
Proof. repeat constructor; apply u8_range. Qed.

(** What the ciphers use of a byte order. *)
Class WordOrder (get : list Z -> Z -> res Z) (put : Z -> list Z) := {
  put_len : forall x, length (put x) = 4%nat;
  put_u8 : forall x, Forall is_u8 (put x);
  put_get : forall b0 b1 b2 b3, Forall is_u8 [b0; b1; b2; b3] ->
    exists x, is_u32 x /\ put x = [b0; b1; b2; b3];
  get_put : forall pre x post i, zlen pre = 4 * i -> is_u32 x -> get (pre ++ put x ++ post) i = Ok x
}.

Lemma rd_app_at {A} (pre : list A) k (l post : list A) i j x : zlen pre = 4 * i -> j = 4 * i + Z.of_nat k ->
  l !! k = Some x -> rd (pre ++ l ++ post) j = Ok x.
Proof.
  unfold zlen, rd. intros Hp -> Hl. destruct (Z.leb_spec 0 (4 * i + Z.of_nat k)); [|lia].
  rewrite lookup_app_r by lia. replace (Z.to_nat (4 * i + Z.of_nat k) - length pre)%nat with k by lia.
  rewrite lookup_app_l by (eapply lookup_lt_Some; exact Hl). now rewrite Hl.
Qed.

#[export] Instance be32_order : WordOrder get_be32 put_be32.
Proof.
  split.
  - done.
  - apply put_be32_u8.
  - intros b0 b1 b2 b3 H. inversion H as [|? ? H0 H']; subst. inversion H' as [|? ? H1 H'']; subst.
    inversion H'' as [|? ? H2 H''']; subst. inversion H''' as [|? ? H3 _]; subst.
    destruct (bytes_of_word b0 b1 b2 b3 H0 H1 H2 H3) as (Hx & E0 & E1 & E2 & E3).
    eexists. split; [exact Hx|]. unfold put_be32. now rewrite E0, E1, E2, E3.
  - intros pre x post i Hp Hx. unfold get_be32.
    rewrite (rd_app_at pre 0 (put_be32 x) post i (4 * i) _ Hp ltac:(lia) eq_refl). cbn [mbind res_bind].
    rewrite (rd_app_at pre 1 (put_be32 x) post i (4 * i + 1) _ Hp ltac:(lia) eq_refl). cbn [mbind res_bind].
    rewrite (rd_app_at pre 2 (put_be32 x) post i (4 * i + 2) _ Hp ltac:(lia) eq_refl). cbn [mbind res_bind].
    rewrite (rd_app_at pre 3 (put_be32 x) post i (4 * i + 3) _ Hp ltac:(lia) eq_refl). cbn [mbind res_bind].
    f_equal. now apply word_of_bytes.
Qed.

#[export] Instance le32_order : WordOrder get_le32 put_le32.
Proof.
  split.
  - done.
  - apply put_le32_u8.
  - intros b0 b1 b2 b3 H. inversion H as [|? ? H0 H']; subst. inversion H' as [|? ? H1 H'']; subst.
    inversion H'' as [|? ? H2 H''']; subst. inversion H''' as [|? ? H3 _]; subst.
    destruct (bytes_of_word b3 b2 b1 b0 H3 H2 H1 H0) as (Hx & E0 & E1 & E2 & E3).
    eexists. split; [exact Hx|]. unfold put_le32. now rewrite E0, E1, E2, E3.
  - intros pre x post i Hp Hx. unfold get_le32.
    rewrite (rd_app_at pre 0 (put_le32 x) post i (4 * i) _ Hp ltac:(lia) eq_refl). cbn [mbind res_bind].
    rewrite (rd_app_at pre 1 (put_le32 x) post i (4 * i + 1) _ Hp ltac:(lia) eq_refl). cbn [mbind res_bind].
    rewrite (rd_app_at pre 2 (put_le32 x) post i (4 * i + 2) _ Hp ltac:(lia) eq_refl). cbn [mbind res_bind].
    rewrite (rd_app_at pre 3 (put_le32 x) post i (4 * i + 3) _ Hp ltac:(lia) eq_refl). cbn [mbind res_bind].
    f_equal. rewrite <- (word_of_bytes x Hx) at 5. lia.
Qed.

(** Every block of [4 n] bytes is [n] words. *)
Section word_blocks.
Context (get : list Z -> Z -> res Z) (put : Z -> list Z) `{!WordOrder get put}.

Lemma put_words_len ws : zlen (put_words put ws) = 4 * zlen ws.
Proof using All.
  unfold zlen, put_words. induction ws as [|w ws IH]; [done|]. cbn [fmap list_fmap concat length].
  rewrite length_app, put_len. lia.
Qed.

Lemma put_words_u8 ws : Forall is_u8 (put_words put ws).
Proof using All. unfold put_words. induction ws; cbn; [constructor|]. apply Forall_app. split; [apply put_u8|done]. Qed.

Lemma block_words n b : Forall is_u8 b -> length b = (4 * n)%nat ->
  exists ws, length ws = n /\ Forall is_u32 ws /\ b = put_words put ws.
Proof using All.
  revert b. induction n as [|n IH]; intros b H8 Hl.
  - destruct b; [|done]. exists []. repeat split. constructor.
  - destruct b as [|b0 [|b1 [|b2 [|b3 b]]]]; cbn [length] in Hl; try lia.
    destruct (Forall_app is_u8 [b0; b1; b2; b3] b) as [Hs _]. destruct (Hs H8) as [H4 Hb].
    destruct (IH b Hb ltac:(lia)) as (ws & <- & Hws & ->). destruct (put_get b0 b1 b2 b3 H4) as (x & Hx & E).
    exists (x :: ws). split; [done|]. split; [now constructor|]. unfold put_words. cbn [fmap list_fmap concat].
    rewrite E. done.
Qed.

Lemma get_put_words ws i w : ws !! i = Some w -> is_u32 w -> get (put_words put ws) (Z.of_nat i) = Ok w.
Proof using All.
  intros Hi Hw. rewrite <- (take_drop_middle ws i w Hi). unfold put_words. rewrite fmap_app, concat_app.
  cbn [fmap list_fmap concat]. apply get_put; [|done]. pose proof (put_words_len (take i ws)) as Hl. unfold put_words in Hl.
  rewrite Hl. unfold zlen. rewrite length_take. apply lookup_lt_Some in Hi. lia.
Qed.
End word_blocks.

(** * Tables *)

Lemma land_ff x : 0 <= Z.land x 0xff < 256.
Proof. change 0xff with (Z.ones 8). rewrite Z.land_ones by lia. apply Z.mod_pos_bound. lia. Qed.

Lemma at_u32 l i : Forall is_u32 l -> is_u32 (at_ 0 l i).
Proof.
  intros H. unfold at_. destruct (Nat.lt_ge_cases (Z.to_nat i) (length l)).
  - apply Forall_nth; auto.
  - rewrite nth_overflow by done. unfold is_u32. lia.
Qed.

(** Arrays of [n] words. *)
Definition words (n : Z) (l : list Z) : Prop := zlen l = n /\ Forall is_u32 l.

Lemma wr_words n l i v : words n l -> 0 <= i < n -> is_u32 v -> wp (wr l i v) (words n).
Proof.
  intros [Hl Hw] Hi Hv. rewrite wr_ok by lia. apply wp_ok. split; [now rewrite zlen_insert|]. now apply Forall_insert.
Qed.

Lemma rd_words n l i : words n l -> 0 <= i < n -> wp (rd l i) is_u32.
Proof. intros [Hl Hw] Hi. rewrite (rd_at 0) by lia. apply wp_ok. now apply at_u32. Qed.

Lemma words_check n l : (zlen l =? n) && forallb (fun x => (0 <=? x) && (x <? 2 ^ 32)) l = true -> words n l.
Proof.
  intros H. apply andb_prop in H as [H1 H2]. split; [lia|]. rewrite forallb_forall in H2. apply List.Forall_forall.
  intros x Hx. specialize (H2 x Hx). unfold is_u32. lia.
Qed.

Lemma be_block b : zlen b = 8 -> Forall is_u8 b ->
  exists y z, b = put_words put_be32 [y; z] /\ is_u32 y /\ is_u32 z.
Proof.
  intros Hl H8. destruct (block_words get_be32 put_be32 2 b H8 ltac:(unfold zlen in Hl; lia)) as (ws & Hw & H32 & ->).
  destruct ws as [|y [|z [|]]]; cbn in Hw; try lia. exists y, z. split; [done|].
  inversion H32 as [|? ? Hy H']; subst. inversion H' as [|? ? Hz _]; subst. done.
Qed.

Lemma put_be_block y z : zlen (put_words put_be32 [y; z]) = 8 /\ Forall is_u8 (put_words put_be32 [y; z]).
Proof. split; [reflexivity|apply put_words_u8 with get_be32; apply be32_order]. Qed.

(** * The interface *)

Class Cipher (ctx : Type) := {
  blocksize : Z;
  keysize_ok : Z -> bool;
  setkey : list Z -> res ctx;
  encrypt : ctx -> list Z -> res (list Z);
  decrypt : ctx -> list Z -> res (list Z)
}.
#[global] Hint Mode Cipher ! : typeclass_instances.
#[global] Arguments blocksize ctx {_}.
#[global] Arguments keysize_ok ctx {_} _.

(** A block of the cipher. *)
Definition is_block (ctx : Type) `{Cipher ctx} (b : list Z) : Prop := zlen b = blocksize ctx /\ Forall is_u8 b.

Class CipherLaws (ctx : Type) `{Cipher ctx} := {
  blocksize_pos : 0 < blocksize ctx;
  ctx_ok : ctx -> Prop;
  setkey_ok : forall key, Forall is_u8 key -> keysize_ok ctx (zlen key) = true ->
    exists c, setkey key = Ok c /\ ctx_ok c;
  encrypt_decrypt : forall c b, ctx_ok c -> is_block ctx b ->
    exists e, encrypt c b = Ok e /\ is_block ctx e /\ decrypt c e = Ok b;
  decrypt_encrypt : forall c b, ctx_ok c -> is_block ctx b ->
    exists e, decrypt c b = Ok e /\ is_block ctx e /\ encrypt c e = Ok b
}.

#[global] Arguments ctx_ok {ctx _ _} _.

(** * Feistel networks *)

Lemma lxor_cancel a b : Z.lxor (Z.lxor a b) b = a.
Proof. now rewrite Z.lxor_assoc, Z.lxor_nilpotent, Z.lxor_0_r. Qed.

Lemma add_sub_u32 y a : is_u32 y -> u32 (u32 (y + a) - a) = y.
Proof.
  intros Hy. destruct (u32_cases (y + a)) as [k ->]. rewrite <- (u32_id y) at 2 by done.
  apply u32_eqm with (- k). lia.
Qed.

Lemma sub_add_u32 y a : is_u32 y -> u32 (u32 (y - a) + a) = y.
Proof.
  intros Hy. destruct (u32_cases (y - a)) as [k ->]. rewrite <- (u32_id y) at 2 by done.
  apply u32_eqm with (- k). lia.
Qed.

Section feistel.
Context {W : Type} (xor : W -> W -> W) (Hxor : forall a b, xor (xor a b) b = a).

Definition fround (f : W -> W) (s : W * W) : W * W := (s.2, xor s.1 (f s.2)).
Definition frun (fs : list (W -> W)) (s : W * W) : W * W := foldl (fun s f => fround f s) s fs.
Definition fswap (s : W * W) : W * W := (s.2, s.1).

Lemma fround_inverse f s : fround f (fswap (fround f s)) = fswap s.
Proof using Hxor. destruct s as [l r]. unfold fround, fswap. cbn. now rewrite Hxor. Qed.

(** Running the rounds backwards on the exchanged halves undoes them. *)
Lemma feistel_inverse fs s : frun (rev fs) (fswap (frun fs s)) = fswap s.
Proof using Hxor.
  revert s. induction fs as [|f fs IH]; intros s; [done|]. cbn [rev frun foldl].
  unfold frun in *. rewrite foldl_app, IH. cbn. apply fround_inverse.
Qed.
End feistel.
