(* ===== verification/CipherTea.v ===== *)
(** crypto/tea.c: the TEA, XTEA and XETA ciphers and their inverses. *)
From S2P Require Import Prelude.
From S2P Require Import Ring.
From S2P Require Import Cipher.

Definition TEA_ROUNDS : Z := 32.
Definition TEA_DELTA : Z := 0x9e3779b9.
Definition XTEA_ROUNDS : Z := 32.
Definition XTEA_DELTA : Z := 0x9e3779b9.

Record tea_ctx := TeaCtx { KEY : list Z }.

Definition tea_setkey (in_key : list Z) : res tea_ctx :=
  k0 ← get_le32 in_key 0;
  k1 ← get_le32 in_key 1;
  k2 ← get_le32 in_key 2;
  k3 ← get_le32 in_key 3;
  Ok (TeaCtx [k0; k1; k2; k3]).

(** ((z << 4) + ka) ^ (z + sum) ^ ((z >> 5) + kb) *)
Definition tea_mix (z sum ka kb : Z) : Z :=
  Z.lxor (Z.lxor (u32 (shl32 z 4 + ka)) (u32 (z + sum))) (u32 (shr32 z 5 + kb)).

(** while (n-- > 0) *)
Fixpoint tea_encrypt_rounds (n : nat) (k0 k1 k2 k3 y z sum : Z) : Z * Z :=
  match n with
  | O => (y, z)
  | S n =>
      let sum := u32 (sum + TEA_DELTA) in
      let y := u32 (y + tea_mix z sum k0 k1) in
      let z := u32 (z + tea_mix y sum k2 k3) in
      tea_encrypt_rounds n k0 k1 k2 k3 y z sum
  end.

Fixpoint tea_decrypt_rounds (n : nat) (k0 k1 k2 k3 y z sum : Z) : Z * Z :=
  match n with
  | O => (y, z)
  | S n =>
      let z := u32 (z - tea_mix y sum k2 k3) in
      let y := u32 (y - tea_mix z sum k0 k1) in
      let sum := u32 (sum - TEA_DELTA) in
      tea_decrypt_rounds n k0 k1 k2 k3 y z sum
  end.

Definition tea_encrypt (ctx : tea_ctx) (src : list Z) : res (list Z) :=
  y ← get_le32 src 0;
  z ← get_le32 src 1;
  k0 ← rd (KEY ctx) 0;
  k1 ← rd (KEY ctx) 1;
  k2 ← rd (KEY ctx) 2;
  k3 ← rd (KEY ctx) 3;
  let '(y, z) := tea_encrypt_rounds (Z.to_nat TEA_ROUNDS) k0 k1 k2 k3 y z 0 in
  Ok (put_words put_le32 [y; z]).

Definition tea_decrypt (ctx : tea_ctx) (src : list Z) : res (list Z) :=
  y ← get_le32 src 0;
  z ← get_le32 src 1;
  k0 ← rd (KEY ctx) 0;
  k1 ← rd (KEY ctx) 1;
  k2 ← rd (KEY ctx) 2;
  k3 ← rd (KEY ctx) 3;
  let sum := shl32 TEA_DELTA 5 in
  let '(y, z) := tea_decrypt_rounds (Z.to_nat TEA_ROUNDS) k0 k1 k2 k3 y z sum in
  Ok (put_words put_le32 [y; z]).

Definition xtea_setkey (in_key : list Z) : res tea_ctx :=
  k0 ← get_le32 in_key 0;
  k1 ← get_le32 in_key 1;
  k2 ← get_le32 in_key 2;
  k3 ← get_le32 in_key 3;
  Ok (TeaCtx [k0; k1; k2; k3]).

(** XTEA's ((z << 4 ^ z >> 5) + z) ^ (sum + key) and
    XETA's (z << 4 ^ z >> 5) + (z ^ sum) + key *)
Definition xtea_mix (z sum key : Z) : Z :=
  Z.lxor (u32 (Z.lxor (shl32 z 4) (shr32 z 5) + z)) (u32 (sum + key)).
Definition xeta_mix (z sum key : Z) : Z :=
  u32 (u32 (Z.lxor (shl32 z 4) (shr32 z 5) + Z.lxor z sum) + key).

(** The loops of the two variants run until [sum] reaches its limit: 32 turns,
    one more to leave. *)
Section xtea_loops.
Context (mix : Z -> Z -> Z -> Z).

Definition xtea_encrypt_loop (key : list Z) (y z : Z) : res (Z * Z) :=
  let limit := u32 (XTEA_DELTA * XTEA_ROUNDS) in
  loop 33 (fun '(y, z, sum) =>
    if negb (sum =? limit) then
      k ← rd key (Z.land sum 3);
      let y := u32 (y + mix z sum k) in
      let sum := u32 (sum + XTEA_DELTA) in
      k ← rd key (Z.land (shr32 sum 11) 3);
      let z := u32 (z + mix y sum k) in
      Ok (inl (y, z, sum))
    else Ok (inr (y, z))) (y, z, 0).

Definition xtea_decrypt_loop (key : list Z) (y z : Z) : res (Z * Z) :=
  loop 33 (fun '(y, z, sum) =>
    if negb (sum =? 0) then
      k ← rd key (Z.land (shr32 sum 11) 3);
      let z := u32 (z - mix y sum k) in
      let sum := u32 (sum - XTEA_DELTA) in
      k ← rd key (Z.land sum 3);
      let y := u32 (y - mix z sum k) in
      Ok (inl (y, z, sum))
    else Ok (inr (y, z))) (y, z, u32 (XTEA_DELTA * XTEA_ROUNDS)).
End xtea_loops.

Definition xtea_encrypt (ctx : tea_ctx) (src : list Z) : res (list Z) :=
  y ← get_le32 src 0;
  z ← get_le32 src 1;
  '(y, z) ← xtea_encrypt_loop xtea_mix (KEY ctx) y z;
  Ok (put_words put_le32 [y; z]).

Definition xtea_decrypt (ctx : tea_ctx) (src : list Z) : res (list Z) :=
  y ← get_le32 src 0;
  z ← get_le32 src 1;
  '(y, z) ← xtea_decrypt_loop xtea_mix (KEY ctx) y z;
  Ok (put_words put_le32 [y; z]).

Definition xeta_encrypt (ctx : tea_ctx) (src : list Z) : res (list Z) :=
  y ← get_le32 src 0;
  z ← get_le32 src 1;
  '(y, z) ← xtea_encrypt_loop xeta_mix (KEY ctx) y z;
  Ok (put_words put_le32 [y; z]).

Definition xeta_decrypt (ctx : tea_ctx) (src : list Z) : res (list Z) :=
  y ← get_le32 src 0;
  z ← get_le32 src 1;
  '(y, z) ← xtea_decrypt_loop xeta_mix (KEY ctx) y z;
  Ok (put_words put_le32 [y; z]).

(** * TEA *)

Lemma tea_enc_u32 n k0 k1 k2 k3 y z sum : is_u32 y -> is_u32 z ->
  let '(y', z') := tea_encrypt_rounds n k0 k1 k2 k3 y z sum in is_u32 y' /\ is_u32 z'.
Proof. revert y z sum. induction n as [|n IH]; intros y z sum Hy Hz; cbn; [done|]. apply IH; apply u32_range. Qed.

Lemma tea_dec_u32 n k0 k1 k2 k3 y z sum : is_u32 y -> is_u32 z ->
  let '(y', z') := tea_decrypt_rounds n k0 k1 k2 k3 y z sum in is_u32 y' /\ is_u32 z'.
Proof. revert y z sum. induction n as [|n IH]; intros y z sum Hy Hz; cbn; [done|]. apply IH; apply u32_range. Qed.

(** One more round at the end, instead of at the start. *)
Lemma tea_enc_last n k0 k1 k2 k3 y z sum :
  tea_encrypt_rounds (S n) k0 k1 k2 k3 y z sum =
  let '(y, z) := tea_encrypt_rounds n k0 k1 k2 k3 y z sum in
  let sum := u32 (sum + (Z.of_nat n + 1) * TEA_DELTA) in
  let y := u32 (y + tea_mix z sum k0 k1) in
  (y, u32 (z + tea_mix y sum k2 k3)).
Proof.
  revert y z sum. induction n as [|n IH]; intros y z sum; [now cbn [tea_encrypt_rounds Z.of_nat]; rewrite Z.mul_1_l|].
  remember (S n) as m. cbn [tea_encrypt_rounds]. subst m. rewrite IH. clear IH. cbn [tea_encrypt_rounds].
  destruct (tea_encrypt_rounds n _ _ _ _ _ _ _) as [y' z'].
  replace (u32 (u32 (sum + TEA_DELTA) + (Z.of_nat n + 1) * TEA_DELTA))
    with (u32 (sum + (Z.of_nat (S n) + 1) * TEA_DELTA)); [done|].
  destruct (u32_cases (sum + TEA_DELTA)) as [k ->]. apply u32_eqm with k. lia.
Qed.

Definition sum_at (n : nat) : Z := u32 (Z.of_nat n * TEA_DELTA).

Lemma tea_dec_enc n k0 k1 k2 k3 y z : is_u32 y -> is_u32 z ->
  let '(y', z') := tea_encrypt_rounds n k0 k1 k2 k3 y z 0 in
  tea_decrypt_rounds n k0 k1 k2 k3 y' z' (sum_at n) = (y, z).
Proof.
  intros Hy Hz. revert y z Hy Hz. induction n as [|n IH]; intros y z Hy Hz; [done|].
  rewrite tea_enc_last. specialize (IH y z Hy Hz). pose proof (tea_enc_u32 n k0 k1 k2 k3 y z 0 Hy Hz) as Hr.
  destruct (tea_encrypt_rounds n k0 k1 k2 k3 y z 0) as [y' z']. destruct Hr as [Hy' Hz'].
  cbv zeta. cbn [tea_decrypt_rounds]. rewrite Z.add_0_l. replace (Z.of_nat n + 1) with (Z.of_nat (S n)) by lia.
  fold (sum_at (S n)). rewrite (add_sub_u32 z'), (add_sub_u32 y') by done.
  replace (u32 (sum_at (S n) - TEA_DELTA)) with (sum_at n); [exact IH|].
  unfold sum_at. destruct (u32_cases (Z.of_nat (S n) * TEA_DELTA)) as [k ->]. apply u32_eqm with k. lia.
Qed.

Lemma tea_enc_dec n k0 k1 k2 k3 y z : is_u32 y -> is_u32 z ->
  let '(y', z') := tea_decrypt_rounds n k0 k1 k2 k3 y z (sum_at n) in
  tea_encrypt_rounds n k0 k1 k2 k3 y' z' 0 = (y, z).
Proof.
  revert y z. induction n as [|n IH]; intros y z Hy Hz; [done|]. cbn [tea_decrypt_rounds].
  set (z1 := u32 (z - _)). set (y1 := u32 (y - _)).
  replace (u32 (sum_at (S n) - TEA_DELTA)) with (sum_at n)
    by (unfold sum_at; destruct (u32_cases (Z.of_nat (S n) * TEA_DELTA)) as [k ->]; apply u32_eqm with k; lia).
  specialize (IH y1 z1 (u32_range _) (u32_range _)).
  destruct (tea_decrypt_rounds n k0 k1 k2 k3 y1 z1 (sum_at n)) as [y' z']. rewrite tea_enc_last, IH. cbv zeta.
  rewrite Z.add_0_l. replace (Z.of_nat n + 1) with (Z.of_nat (S n)) by lia. fold (sum_at (S n)).
  unfold y1. rewrite (sub_add_u32 y) by done. unfold z1 at 1. now rewrite (sub_add_u32 z) by done.
Qed.

(** * XTEA and XETA *)

Section xtea_rounds.
Context (mix : Z -> Z -> Z -> Z) (key : list Z) (Hkey : zlen key = 4).

(** The key words picked by the running sum. *)
Definition key_lo (n : nat) : Z := at_ 0 key (Z.land (sum_at n) 3).
Definition key_hi (n : nat) : Z := at_ 0 key (Z.land (shr32 (sum_at n) 11) 3).

(** Round [n] and its inverse. *)
Definition xround (n : nat) (s : Z * Z) : Z * Z :=
  let y := u32 (s.1 + mix s.2 (sum_at n) (key_lo n)) in
  (y, u32 (s.2 + mix y (sum_at (S n)) (key_hi (S n)))).
Definition xround_inv (n : nat) (s : Z * Z) : Z * Z :=
  let z := u32 (s.2 - mix s.1 (sum_at (S n)) (key_hi (S n))) in
  (u32 (s.1 - mix z (sum_at n) (key_lo n)), z).

Definition word_pair (s : Z * Z) : Prop := is_u32 s.1 /\ is_u32 s.2.

Lemma xround_inv_l n s : word_pair s -> xround_inv n (xround n s) = s /\ xround n (xround_inv n s) = s.
Proof using Type.
  destruct s as [y z]. intros [Hy Hz]. unfold xround, xround_inv. cbn [fst snd] in *. split.
  - now rewrite (add_sub_u32 z), (add_sub_u32 y) by done.
  - now rewrite (sub_add_u32 y), (sub_add_u32 z) by done.
Qed.

Lemma land3_range x : 0 <= Z.land x 3 < 4.
Proof using Type. change 3 with (Z.ones 2). rewrite Z.land_ones by lia. apply Z.mod_pos_bound. lia. Qed.

Lemma sum_at_step n : u32 (sum_at n + XTEA_DELTA) = sum_at (S n) /\ u32 (sum_at (S n) - XTEA_DELTA) = sum_at n.
Proof using Type.
  unfold sum_at, XTEA_DELTA, TEA_DELTA. split.
  - destruct (u32_cases (Z.of_nat n * 0x9e3779b9)) as [k ->]. apply u32_eqm with (- k). lia.
  - destruct (u32_cases (Z.of_nat (S n) * 0x9e3779b9)) as [k ->]. apply u32_eqm with (- k). lia.
Qed.

(** The sums of the 32 rounds are distinct, so that the loops stop in time. *)
Lemma sum_at_distinct n : (n < 32)%nat -> sum_at n <> sum_at 32 /\ sum_at (S n) <> 0.
Proof using Type.
  intros Hn. assert (H : forallb (fun n => negb (sum_at n =? sum_at 32) && negb (sum_at (S n) =? 0)) (seq 0 32) = true)
    by (vm_compute; reflexivity).
  rewrite forallb_forall in H. specialize (H n ltac:(apply in_seq; lia)). apply andb_prop in H as [H1 H2].
  split; intros E; rewrite E in *; rewrite Z.eqb_refl in *; done.
Qed.

Definition xrounds (n k : nat) (s : Z * Z) : Z * Z := foldl (fun s i => xround i s) s (seq n k).
Definition xrounds_inv (n : nat) (s : Z * Z) : Z * Z := foldl (fun s i => xround_inv i s) s (rev (seq 0 n)).

Lemma xtea_encrypt_loop_ok y z : xtea_encrypt_loop mix key y z = Ok (xrounds 0 32 (y, z)).
Proof using Hkey.
  unfold xtea_encrypt_loop. change (u32 (XTEA_DELTA * XTEA_ROUNDS)) with (sum_at 32).
  enough (H : forall m n y z, (n + m = 32)%nat -> loop (S m) (fun '(y, z, sum) =>
    if negb (sum =? sum_at 32) then
      k ← rd key (Z.land sum 3);
      let y := u32 (y + mix z sum k) in
      let sum := u32 (sum + XTEA_DELTA) in
      k ← rd key (Z.land (shr32 sum 11) 3);
      let z := u32 (z + mix y sum k) in
      Ok (inl (y, z, sum))
    else Ok (inr (y, z))) (y, z, sum_at n) = Ok (xrounds n m (y, z))) by exact (H 32%nat 0%nat y z eq_refl).
  clear y z. induction m as [|m IH]; intros n y z Hnm.
  - replace n with 32%nat by lia. cbn [loop]. now rewrite Z.eqb_refl.
  - remember (S m) as m' eqn:Em. cbn [loop]. destruct (sum_at_distinct n ltac:(lia)) as [Hne _].
    destruct (Z.eqb_spec (sum_at n) (sum_at 32)); [done|]. cbn [negb].
    rewrite (rd_at 0 key (Z.land (sum_at n) 3)) by (rewrite Hkey; apply land3_range). cbn [mbind res_bind].
    rewrite (proj1 (sum_at_step n)).
    rewrite (rd_at 0 key (Z.land (shr32 (sum_at (S n)) 11) 3)) by (rewrite Hkey; apply land3_range).
    cbn [mbind res_bind]. subst m'. rewrite IH by lia. done.
Qed.

Lemma xtea_decrypt_loop_ok y z : xtea_decrypt_loop mix key y z = Ok (xrounds_inv 32 (y, z)).
Proof using Hkey.
  unfold xtea_decrypt_loop. change (u32 (XTEA_DELTA * XTEA_ROUNDS)) with (sum_at 32).
  enough (H : forall n y z, (n <= 32)%nat -> loop (S n) (fun '(y, z, sum) =>
    if negb (sum =? 0) then
      k ← rd key (Z.land (shr32 sum 11) 3);
      let z := u32 (z - mix y sum k) in
      let sum := u32 (sum - XTEA_DELTA) in
      k ← rd key (Z.land sum 3);
      let y := u32 (y - mix z sum k) in
      Ok (inl (y, z, sum))
    else Ok (inr (y, z))) (y, z, sum_at n) = Ok (xrounds_inv n (y, z))) by exact (H 32%nat y z (le_n _)).
  clear y z. induction n as [|n IH]; intros y z Hn; [done|].
  remember (S n) as m eqn:Em. cbn [loop]. subst m. destruct (sum_at_distinct n ltac:(lia)) as [_ Hne].
  destruct (Z.eqb_spec (sum_at (S n)) 0); [done|]. cbn [negb].
  rewrite (rd_at 0 key (Z.land (shr32 (sum_at (S n)) 11) 3)) by (rewrite Hkey; apply land3_range). cbn [mbind res_bind].
  rewrite (proj2 (sum_at_step n)).
  rewrite (rd_at 0 key (Z.land (sum_at n) 3)) by (rewrite Hkey; apply land3_range). cbn [mbind res_bind].
  rewrite IH by lia. f_equal. unfold xrounds_inv. rewrite seq_S, rev_app_distr. done.
Qed.

Lemma xrounds_words l s : word_pair s -> word_pair (foldl (fun s i => xround i s) s l) /\
  word_pair (foldl (fun s i => xround_inv i s) s l).
Proof using Type.
  revert s. induction l as [|i l IH]; intros s Hs; [done|]. cbn [foldl].
  split; apply IH; split; apply u32_range.
Qed.

Lemma xrounds_inverse l s : word_pair s ->
  foldl (fun s i => xround_inv i s) (foldl (fun s i => xround i s) s l) (rev l) = s /\
  foldl (fun s i => xround i s) (foldl (fun s i => xround_inv i s) s (rev l)) l = s.
Proof using Type.
  revert s. induction l as [|i l IH]; intros s Hs; [done|]. cbn [rev foldl]. rewrite !foldl_app. cbn [foldl]. split.
  - rewrite (proj1 (IH (xround i s) (conj (u32_range _) (u32_range _)))). now apply xround_inv_l.
  - rewrite (proj2 (xround_inv_l i _ (proj2 (xrounds_words (rev l) s Hs)))). now apply IH.
Qed.

Lemma xrounds_roundtrip n s : word_pair s ->
  xrounds_inv n (xrounds 0 n s) = s /\ xrounds 0 n (xrounds_inv n s) = s /\
  word_pair (xrounds 0 n s) /\ word_pair (xrounds_inv n s).
Proof using Type.
  intros Hs. destruct (xrounds_inverse (seq 0 n) s Hs) as [E1 E2]. split; [exact E1|]. split; [exact E2|].
  split; [apply (xrounds_words (seq 0 n) s Hs)|apply (xrounds_words (rev (seq 0 n)) s Hs)].
Qed.

Lemma xtea_loops_roundtrip y z : word_pair (y, z) ->
  (exists y' z', xtea_encrypt_loop mix key y z = Ok (y', z') /\ word_pair (y', z') /\
     xtea_decrypt_loop mix key y' z' = Ok (y, z)) /\
  (exists y' z', xtea_decrypt_loop mix key y z = Ok (y', z') /\ word_pair (y', z') /\
     xtea_encrypt_loop mix key y' z' = Ok (y, z)).
Proof using Hkey.
  intros Hp. destruct (xrounds_roundtrip 32 (y, z) Hp) as (E1 & E2 & Hw1 & Hw2). split.
  - exists (xrounds 0 32 (y, z)).1, (xrounds 0 32 (y, z)).2. rewrite xtea_encrypt_loop_ok, xtea_decrypt_loop_ok.
    rewrite <- surjective_pairing. split; [done|]. split; [exact Hw1|]. now rewrite E1.
  - exists (xrounds_inv 32 (y, z)).1, (xrounds_inv 32 (y, z)).2. rewrite xtea_encrypt_loop_ok, xtea_decrypt_loop_ok.
    rewrite <- surjective_pairing. split; [done|]. split; [exact Hw2|]. now rewrite E2.
Qed.
End xtea_rounds.

(** * The ciphers implement the interface *)

Definition tea_ctx_ok (c : tea_ctx) : Prop := exists k0 k1 k2 k3, KEY c = [k0; k1; k2; k3].

#[export] Instance tea_alg : Cipher tea_ctx :=
  {| blocksize := 8; keysize_ok := Z.eqb 16; setkey := tea_setkey; encrypt := tea_encrypt; decrypt := tea_decrypt |}.
Definition xtea_alg : Cipher tea_ctx :=
  {| blocksize := 8; keysize_ok := Z.eqb 16; setkey := xtea_setkey; encrypt := xtea_encrypt; decrypt := xtea_decrypt |}.
Definition xeta_alg : Cipher tea_ctx :=
  {| blocksize := 8; keysize_ok := Z.eqb 16; setkey := xtea_setkey; encrypt := xeta_encrypt; decrypt := xeta_decrypt |}.

Lemma le_block b : zlen b = 8 -> Forall is_u8 b ->
  exists y z, b = put_words put_le32 [y; z] /\ word_pair (y, z).
Proof.
  intros Hl H8. destruct (block_words get_le32 put_le32 2 b H8 ltac:(unfold zlen in Hl; lia)) as (ws & Hw & H32 & ->).
  destruct ws as [|y [|z [|]]]; cbn in Hw; try lia. exists y, z. split; [done|].
  inversion H32 as [|? ? Hy H']; subst. inversion H' as [|? ? Hz _]; subst. done.
Qed.

Lemma le_get y z : word_pair (y, z) ->
  get_le32 (put_words put_le32 [y; z]) 0 = Ok y /\ get_le32 (put_words put_le32 [y; z]) 1 = Ok z.
Proof.
  intros [Hy Hz]. split.
  - exact (get_put_words get_le32 put_le32 [y; z] 0 y eq_refl Hy).
  - exact (get_put_words get_le32 put_le32 [y; z] 1 z eq_refl Hz).
Qed.

Lemma put_le_block y z : zlen (put_words put_le32 [y; z]) = 8 /\ Forall is_u8 (put_words put_le32 [y; z]).
Proof. split; [reflexivity|apply put_words_u8 with get_le32; apply le32_order]. Qed.

Lemma tea_setkey_ok key : zlen key = 16 -> exists c, tea_setkey key = Ok c /\ tea_ctx_ok c.
Proof.
  intros Hk. unfold tea_setkey, get_le32. rewrite !(rd_at 0) by lia. cbn [mbind res_bind].
  eexists. split; [reflexivity|]. repeat eexists.
Qed.

#[export] Instance tea_laws : CipherLaws tea_ctx.
Proof.
  refine {| ctx_ok := tea_ctx_ok |}.
  - reflexivity.
  - intros key _ Hk. apply (proj1 (Z.eqb_eq 16 (zlen key))) in Hk. now apply tea_setkey_ok.
  - intros c b (k0 & k1 & k2 & k3 & Ek) [Hl H8]. destruct (le_block b Hl H8) as (y & z & -> & Hp). pose proof Hp as [Hy Hz].
    cbn [encrypt decrypt tea_alg]. unfold tea_encrypt, tea_decrypt. rewrite Ek. destruct (le_get y z Hp) as [-> ->].
    cbn [mbind res_bind]. change (rd [k0; k1; k2; k3] 0) with (Ok k0). change (rd [k0; k1; k2; k3] 1) with (Ok k1).
    change (rd [k0; k1; k2; k3] 2) with (Ok k2). change (rd [k0; k1; k2; k3] 3) with (Ok k3). cbn [mbind res_bind].
    pose proof (tea_dec_enc (Z.to_nat TEA_ROUNDS) k0 k1 k2 k3 y z Hy Hz) as E.
    pose proof (tea_enc_u32 (Z.to_nat TEA_ROUNDS) k0 k1 k2 k3 y z 0 Hy Hz) as Hu.
    destruct (tea_encrypt_rounds (Z.to_nat TEA_ROUNDS) k0 k1 k2 k3 y z 0) as [y' z'].
    eexists. split; [reflexivity|]. split; [apply put_le_block|]. destruct (le_get y' z' Hu) as [-> ->]. cbn [mbind res_bind].
    change (shl32 TEA_DELTA 5) with (sum_at (Z.to_nat TEA_ROUNDS)). now rewrite E.
  - intros c b (k0 & k1 & k2 & k3 & Ek) [Hl H8]. destruct (le_block b Hl H8) as (y & z & -> & Hp). pose proof Hp as [Hy Hz].
    cbn [encrypt decrypt tea_alg]. unfold tea_encrypt, tea_decrypt. rewrite Ek. destruct (le_get y z Hp) as [-> ->].
    cbn [mbind res_bind]. change (rd [k0; k1; k2; k3] 0) with (Ok k0). change (rd [k0; k1; k2; k3] 1) with (Ok k1).
    change (rd [k0; k1; k2; k3] 2) with (Ok k2). change (rd [k0; k1; k2; k3] 3) with (Ok k3). cbn [mbind res_bind].
    change (shl32 TEA_DELTA 5) with (sum_at (Z.to_nat TEA_ROUNDS)).
    pose proof (tea_enc_dec (Z.to_nat TEA_ROUNDS) k0 k1 k2 k3 y z Hy Hz) as E.
    pose proof (tea_dec_u32 (Z.to_nat TEA_ROUNDS) k0 k1 k2 k3 y z (sum_at (Z.to_nat TEA_ROUNDS)) Hy Hz) as Hu.
    destruct (tea_decrypt_rounds (Z.to_nat TEA_ROUNDS) k0 k1 k2 k3 y z (sum_at (Z.to_nat TEA_ROUNDS))) as [y' z'].
    eexists. split; [reflexivity|]. split; [apply put_le_block|]. destruct (le_get y' z' Hu) as [-> ->]. cbn [mbind res_bind].
    now rewrite E.
Defined.

(** The two XTEA variants differ only in the mixing function. *)
Section xtea_variant.
Context (mix : Z -> Z -> Z -> Z).

Definition variant_encrypt (ctx : tea_ctx) (src : list Z) : res (list Z) :=
  y ← get_le32 src 0; z ← get_le32 src 1;
  '(y, z) ← xtea_encrypt_loop mix (KEY ctx) y z; Ok (put_words put_le32 [y; z]).
Definition variant_decrypt (ctx : tea_ctx) (src : list Z) : res (list Z) :=
  y ← get_le32 src 0; z ← get_le32 src 1;
  '(y, z) ← xtea_decrypt_loop mix (KEY ctx) y z; Ok (put_words put_le32 [y; z]).

Lemma variant_roundtrip c b : tea_ctx_ok c -> zlen b = 8 -> Forall is_u8 b ->
  (exists e, variant_encrypt c b = Ok e /\ (zlen e = 8 /\ Forall is_u8 e) /\ variant_decrypt c e = Ok b) /\
  (exists e, variant_decrypt c b = Ok e /\ (zlen e = 8 /\ Forall is_u8 e) /\ variant_encrypt c e = Ok b).
Proof using Type.
  intros (k0 & k1 & k2 & k3 & Ek) Hl H8. destruct (le_block b Hl H8) as (y & z & -> & Hp).
  unfold variant_encrypt, variant_decrypt. rewrite Ek. destruct (le_get y z Hp) as [-> ->]. run_binds.
  destruct (xtea_loops_roundtrip mix [k0; k1; k2; k3] eq_refl y z Hp) as [(y1 & z1 & -> & Hw1 & E1) (y2 & z2 & -> & Hw2 & E2)].
  run_binds. split; eexists; (split; [reflexivity|]); (split; [apply put_le_block|]).
  - destruct (le_get y1 z1 Hw1) as [-> ->]. run_binds. now rewrite E1.
  - destruct (le_get y2 z2 Hw2) as [-> ->]. run_binds. now rewrite E2.
Qed.
End xtea_variant.

Definition xtea_laws : @CipherLaws tea_ctx xtea_alg.
Proof.
  refine (@Build_CipherLaws tea_ctx xtea_alg eq_refl tea_ctx_ok _ _ _).
  - intros key _ Hk. apply (proj1 (Z.eqb_eq 16 (zlen key))) in Hk. now apply tea_setkey_ok.
  - intros c b Hc [Hl H8]. apply (variant_roundtrip xtea_mix c b Hc Hl H8).
  - intros c b Hc [Hl H8]. apply (variant_roundtrip xtea_mix c b Hc Hl H8).
Defined.

Definition xeta_laws : @CipherLaws tea_ctx xeta_alg.
Proof.
  refine (@Build_CipherLaws tea_ctx xeta_alg eq_refl tea_ctx_ok _ _ _).
  - intros key _ Hk. apply (proj1 (Z.eqb_eq 16 (zlen key))) in Hk. now apply tea_setkey_ok.
  - intros c b Hc [Hl H8]. apply (variant_roundtrip xeta_mix c b Hc Hl H8).
  - intros c b Hc [Hl H8]. apply (variant_roundtrip xeta_mix c b Hc Hl H8).
Defined.

(** TEA, XTEA and XETA are ciphers: a 16-byte key is accepted, and for
    every 8-byte block encryption and decryption return a block, each undoing
    the other; the loops of XTEA and XETA end when the running sum reaches its
    limit, after 32 rounds. *)
Lemma tea_family_fact key b :
  zlen key = 16 -> Forall is_u8 key -> zlen b = 8 -> Forall is_u8 b ->
  (exists c, tea_setkey key = Ok c /\
     (exists e, tea_encrypt c b = Ok e /\ zlen e = 8 /\ tea_decrypt c e = Ok b) /\
     (exists e, tea_decrypt c b = Ok e /\ zlen e = 8 /\ tea_encrypt c e = Ok b)) /\
  (exists c, xtea_setkey key = Ok c /\
     (exists e, xtea_encrypt c b = Ok e /\ zlen e = 8 /\ xtea_decrypt c e = Ok b) /\
     (exists e, xtea_decrypt c b = Ok e /\ zlen e = 8 /\ xtea_encrypt c e = Ok b) /\
     (exists e, xeta_encrypt c b = Ok e /\ zlen e = 8 /\ xeta_decrypt c e = Ok b) /\
     (exists e, xeta_decrypt c b = Ok e /\ zlen e = 8 /\ xeta_encrypt c e = Ok b)).
Proof.
  intros Hk Hk8 Hb Hb8. destruct (tea_setkey_ok key Hk) as (c & E & Hc). split; exists c; (split; [exact E|]).
  - destruct (@encrypt_decrypt _ tea_alg tea_laws c b Hc (conj Hb Hb8)) as (e & E1 & [He _] & E2).
    destruct (@decrypt_encrypt _ tea_alg tea_laws c b Hc (conj Hb Hb8)) as (d & E3 & [Hd _] & E4). split; [exists e|exists d]; done.
  - destruct (variant_roundtrip xtea_mix c b Hc Hb Hb8) as [(e & E1 & [He _] & E2) (d & E3 & [Hd _] & E4)].
    destruct (variant_roundtrip xeta_mix c b Hc Hb Hb8) as [(e' & E1' & [He' _] & E2') (d' & E3' & [Hd' _] & E4')].
    split; [now exists e|]. split; [now exists d|]. split; [now exists e'|now exists d'].
Qed.
