(* ===== verification/Crc.v ===== *)
(** The theory the CRC components share: bit-serial shift registers, of the
    reflected (least significant bit first) and of the forward (most
    significant bit first) kind, and the table-driven step that replaces eight
    shifts.  All of it rests on the step being linear over exclusive or. *)
From S2P Require Import Prelude.
From S2P Require Import Ring.

(** * Registers *)

(** One shift of a reflected register: (crc >> 1) ^ ((crc & 1) ? poly : 0). *)
Definition rstep (poly c : Z) : Z := Z.lxor (Z.shiftr c 1) (if Z.land c 1 =? 0 then 0 else poly).

(** One shift of a forward register of [w] bits. *)
Definition fstep (w poly c : Z) : Z :=
  Z.lxor (Z.shiftl c 1 mod 2 ^ w) (if Z.land c (2 ^ (w - 1)) =? 0 then 0 else poly).

(** A byte enters at the end the register shifts out of. *)
Definition rbyte (poly c b : Z) : Z := Nat.iter 8 (rstep poly) (Z.lxor c b).
Definition fbyte (w poly c b : Z) : Z := Nat.iter 8 (fstep w poly) (Z.lxor c (Z.shiftl b (w - 8))).

(** A polynomial of [w] bits read in the opposite order. *)
Definition reflect (w : nat) (p : Z) : Z := foldl (fun a i => 2 * a + Z.b2z (Z.testbit p (Z.of_nat i))) 0 (seq 0 w).

(** while (len--) crc = step(crc, *buffer++); *)
Definition byte_loop (step : Z -> Z -> res Z) (crc : Z) (buffer : list Z) (len : Z) : res Z :=
  loop (S (Z.to_nat len)) (fun '(crc, off, len) =>
    if len =? 0 then Ok (inr crc) else
    b ← rd buffer off;
    crc ← step crc b;
    Ok (inl (crc, off + 1, len - 1))) (crc, 0, len).

Lemma byte_loop_from (step : Z -> Z -> res Z) (f : Z -> Z -> Z) (P : Z -> Prop) :
  (forall c b, P c -> is_u8 b -> step c b = Ok (f c b) /\ P (f c b)) ->
  forall l p c, P c -> Forall is_u8 l ->
  loop (S (Z.to_nat (zlen l))) (fun '(crc, off, len) =>
    if len =? 0 then Ok (inr crc) else
    b ← rd (p ++ l) off;
    crc ← step crc b;
    Ok (inl (crc, off + 1, len - 1))) (c, zlen p, zlen l) = Ok (foldl f c l) /\ P (foldl f c l).
Proof.
  intros Hstep l. induction l as [|b l IH]; intros p c Hc H8; [done|]. apply Forall_cons_1 in H8 as [Hb H8].
  assert (El : zlen (b :: l) = zlen l + 1) by (unfold zlen; cbn [length]; lia). pose proof (zlen_nonneg l). pose proof (zlen_nonneg p).
  rewrite El. replace (Z.to_nat (zlen l + 1)) with (S (Z.to_nat (zlen l))) by lia.
  remember (S (Z.to_nat (zlen l))) as fuel eqn:Ef. cbn [loop]. destruct (Z.eqb_spec (zlen l + 1) 0); [lia|].
  assert (Er : rd (p ++ b :: l) (zlen p) = Ok b).
  { rewrite (rd_at b); [|rewrite zlen_app; lia]. unfold at_, zlen. now rewrite Nat2Z.id, nth_middle. }
  rewrite Er, bind_ok. destruct (Hstep c b Hc Hb) as [-> Hc']. rewrite bind_ok. cbn [foldl].
  specialize (IH (p ++ [b]) (f c b) Hc' H8). rewrite <- app_assoc in IH. cbn [app] in IH.
  replace (zlen (p ++ [b])) with (zlen p + 1) in IH by (rewrite zlen_app; reflexivity).
  replace (zlen l + 1 - 1) with (zlen l) by lia. exact IH.
Qed.

(** A loop over a buffer folds the step over its bytes. *)
Lemma byte_loop_ok step f (P : Z -> Prop) c l :
  (forall c b, P c -> is_u8 b -> step c b = Ok (f c b) /\ P (f c b)) -> P c -> Forall is_u8 l ->
  byte_loop step c l (zlen l) = Ok (foldl f c l) /\ P (foldl f c l).
Proof. intros Hs Hc Hl. apply (byte_loop_from step f P Hs l [] c Hc Hl). Qed.

(** * Linearity *)

Lemma land_bit c k : 0 <= k -> (Z.land c (2 ^ k) =? 0) = negb (Z.testbit c k).
Proof.
  intros Hk. destruct (Z.testbit c k) eqn:E; cbn.
  - apply Z.eqb_neq. intros H0. apply (f_equal (fun x => Z.testbit x k)) in H0.
    rewrite Z.land_spec, E, Z.pow2_bits_true, Z.bits_0 in H0 by lia. done.
  - apply Z.eqb_eq. apply Z.bits_inj'. intros i Hi. rewrite Z.land_spec, Z.bits_0, Z.pow2_bits_eqb by lia.
    destruct (Z.eqb_spec k i) as [->|]; [now rewrite E|apply andb_false_r].
Qed.

Lemma land_1_bit c : (Z.land c 1 =? 0) = negb (Z.testbit c 0).
Proof. apply (land_bit c 0). lia. Qed.

(** The feedback term is linear in the bit that leaves the register. *)
Lemma feedback_lxor (a b : bool) (poly : Z) :
  (if negb (xorb a b) then 0 else poly) = Z.lxor (if negb a then 0 else poly) (if negb b then 0 else poly).
Proof. destruct a, b; cbn; rewrite ?Z.lxor_nilpotent, ?Z.lxor_0_r; done. Qed.

Lemma lxor_swap a b c d : Z.lxor (Z.lxor a b) (Z.lxor c d) = Z.lxor (Z.lxor a c) (Z.lxor b d).
Proof. rewrite !Z.lxor_assoc. f_equal. rewrite <- !Z.lxor_assoc. f_equal. apply Z.lxor_comm. Qed.

Lemma rstep_lxor poly a b : rstep poly (Z.lxor a b) = Z.lxor (rstep poly a) (rstep poly b).
Proof. unfold rstep. rewrite !land_1_bit, Z.shiftr_lxor, Z.lxor_spec, feedback_lxor. apply lxor_swap. Qed.

Lemma mod_lxor a b n : 0 <= n -> Z.lxor a b mod 2 ^ n = Z.lxor (a mod 2 ^ n) (b mod 2 ^ n).
Proof.
  intros Hn. apply Z.bits_inj'. intros i Hi. rewrite Z.lxor_spec, !testbit_mod2, Z.lxor_spec by lia. destruct (i <? n); done.
Qed.

Lemma fstep_lxor w poly a b : 1 <= w -> fstep w poly (Z.lxor a b) = Z.lxor (fstep w poly a) (fstep w poly b).
Proof.
  intros Hw. unfold fstep. rewrite !land_bit, Z.shiftl_lxor, mod_lxor, Z.lxor_spec, feedback_lxor by lia. apply lxor_swap.
Qed.

Lemma iter_lxor (f : Z -> Z) : (forall a b, f (Z.lxor a b) = Z.lxor (f a) (f b)) ->
  forall n a b, Nat.iter n f (Z.lxor a b) = Z.lxor (Nat.iter n f a) (Nat.iter n f b).
Proof. intros Hf n a b. induction n as [|n IH]; [done|]. now rewrite !Nat.iter_succ, IH, Hf. Qed.

(** * The table-driven step *)

Lemma rstep_even poly h : rstep poly (2 * h) = h.
Proof.
  unfold rstep. rewrite land_1_bit. replace (Z.testbit (2 * h) 0) with false by (symmetry; apply Z.testbit_even_0).
  cbn [negb]. rewrite Z.lxor_0_r, Z.shiftr_div_pow2 by lia. rewrite Z.mul_comm. apply Z.div_mul. lia.
Qed.

Lemma rstep_shift poly n h : Nat.iter n (rstep poly) (2 ^ Z.of_nat n * h) = h.
Proof.
  revert h. induction n as [|n IH]; intros h; [change (2 ^ Z.of_nat 0) with 1; cbn; lia|]. rewrite Nat.iter_succ.
  replace (2 ^ Z.of_nat (S n) * h) with (2 ^ Z.of_nat n * (2 * h)) by (rewrite Nat2Z.inj_succ, Z.pow_succ_r by lia; lia).
  rewrite IH. apply rstep_even.
Qed.

(** The low byte and the rest. *)
Lemma low_byte c : c = Z.lxor (Z.land c 255) (2 ^ 8 * Z.shiftr c 8).
Proof.
  apply Z.bits_inj'. intros i Hi. rewrite Z.lxor_spec, Z.land_spec. change 255 with (2 ^ 8 - 1). rewrite testbit_ones_full by lia.
  rewrite Z.mul_comm, <- Z.shiftl_mul_pow2, Z.shiftl_spec by lia. destruct (Z.ltb_spec i 8).
  - rewrite (Z.testbit_neg_r _ (i - 8)) by lia. destruct (Z.testbit c i); done.
  - rewrite Z.shiftr_spec by lia. replace (i - 8 + 8) with i by lia. destruct (Z.testbit c i); done.
Qed.

Lemma reflected_table poly c b :
  rbyte poly c b = Z.lxor (Nat.iter 8 (rstep poly) (Z.land (Z.lxor c b) 255)) (Z.shiftr (Z.lxor c b) 8).
Proof.
  unfold rbyte. rewrite (low_byte (Z.lxor c b)) at 1. rewrite (iter_lxor (rstep poly) (rstep_lxor poly)). f_equal.
  apply (rstep_shift poly 8).
Qed.

Lemma shiftr_byte b : is_u8 b -> Z.shiftr b 8 = 0.
Proof. unfold is_u8. intros Hb. rewrite Z.shiftr_div_pow2 by lia. apply Z.div_small. lia. Qed.

Lemma reflected_table_byte poly c b : is_u8 b ->
  rbyte poly c b = Z.lxor (Nat.iter 8 (rstep poly) (Z.land (Z.lxor c b) 255)) (Z.shiftr c 8).
Proof. intros Hb. rewrite reflected_table, Z.shiftr_lxor, (shiftr_byte b Hb), Z.lxor_0_r. done. Qed.

Lemma fstep_small w poly l : 0 <= l -> 1 <= w -> l < 2 ^ (w - 1) -> fstep w poly l = 2 * l.
Proof.
  intros Hl Hw Hlt. unfold fstep. rewrite land_bit by lia. rewrite (testbit_high l (w - 1)) by lia. cbn [negb].
  rewrite Z.lxor_0_r, Z.shiftl_mul_pow2 by lia. rewrite Z.mod_small; [lia|].
  replace w with (w - 1 + 1) by lia. rewrite Z.pow_add_r by lia. lia.
Qed.

Lemma fstep_shift w poly n l : 0 <= l -> Z.of_nat n <= w -> l < 2 ^ (w - Z.of_nat n) -> Nat.iter n (fstep w poly) l = 2 ^ Z.of_nat n * l.
Proof.
  intros Hl. induction n as [|n IH]; intros Hn Hlt; [change (2 ^ Z.of_nat 0) with 1; cbn; lia|]. rewrite Nat2Z.inj_succ in *.
  rewrite Nat.iter_succ.
  assert (H1 : 2 ^ (w - Z.of_nat n) = 2 * 2 ^ (w - Z.succ (Z.of_nat n)))
    by (rewrite <- Z.pow_succ_r by lia; f_equal; lia).
  assert (H2 : 2 ^ (w - 1) = 2 ^ Z.of_nat n * 2 ^ (w - Z.succ (Z.of_nat n)))
    by (rewrite <- Z.pow_add_r by lia; f_equal; lia).
  rewrite IH by lia. rewrite fstep_small; [|apply Z.mul_nonneg_nonneg; [apply Z.pow_nonneg|]; lia|lia|].
  - rewrite Z.pow_succ_r by lia. lia.
  - rewrite H2. apply Z.mul_lt_mono_pos_l; [apply Z.pow_pos_nonneg; lia|lia].
Qed.

(** The top byte of a [w]-bit register and the rest. *)
Lemma top_byte w c : 8 <= w -> 0 <= c < 2 ^ w -> c = Z.lxor (Z.shiftl (Z.shiftr c (w - 8)) (w - 8)) (c mod 2 ^ (w - 8)).
Proof.
  intros Hw Hc. apply Z.bits_inj'. intros i Hi. rewrite Z.lxor_spec, testbit_mod2, Z.shiftl_spec by lia.
  destruct (Z.ltb_spec i (w - 8)).
  - rewrite (Z.testbit_neg_r _ (i - (w - 8))) by lia. destruct (Z.testbit c i); done.
  - rewrite Z.shiftr_spec by lia. replace (i - (w - 8) + (w - 8)) with i by lia. destruct (Z.testbit c i); done.
Qed.

Lemma forward_table w poly c : 8 <= w -> 0 <= c < 2 ^ w ->
  Nat.iter 8 (fstep w poly) c =
  Z.lxor (Z.shiftl c 8 mod 2 ^ w) (Nat.iter 8 (fstep w poly) (Z.shiftl (Z.shiftr c (w - 8)) (w - 8))).
Proof.
  intros Hw Hc. rewrite (top_byte w c Hw Hc) at 1.
  rewrite (iter_lxor (fstep w poly)) by (intros a b; apply fstep_lxor; lia). rewrite Z.lxor_comm. f_equal.
  pose proof (Z.mod_pos_bound c (2 ^ (w - 8)) ltac:(apply Z.pow_pos_nonneg; lia)) as Hm.
  rewrite (fstep_shift w poly 8) by lia. rewrite Z.shiftl_mul_pow2 by lia. change (Z.of_nat 8) with 8.
  replace (2 ^ w) with (2 ^ (w - 8) * 2 ^ 8) by (rewrite <- Z.pow_add_r by lia; f_equal; lia).
  rewrite Z.mul_mod_distr_r by lia. lia.
Qed.

Lemma forward_table_byte w poly c b : 8 <= w -> 0 <= c < 2 ^ w -> is_u8 b ->
  fbyte w poly c b =
  Z.lxor (Z.shiftl c 8 mod 2 ^ w) (Nat.iter 8 (fstep w poly) (Z.shiftl (Z.lxor (Z.shiftr c (w - 8)) b) (w - 8))).
Proof.
  intros Hw Hc Hb. unfold fbyte, is_u8 in *. assert (Hsb : 0 <= Z.shiftl b (w - 8) < 2 ^ w).
  { rewrite Z.shiftl_mul_pow2 by lia. replace w with (8 + (w - 8)) at 3 by lia. rewrite Z.pow_add_r by lia.
    pose proof (Z.pow_pos_nonneg 2 (w - 8)). nia. }
  rewrite (forward_table w poly (Z.lxor c _)) by (try done; apply lxor_range; lia). f_equal.
  - rewrite Z.shiftl_lxor, mod_lxor by lia. rewrite Z.shiftl_shiftl by lia. replace (w - 8 + 8) with w by lia.
    rewrite (Z.shiftl_mul_pow2 b) by lia. rewrite Z.mod_mul by (apply Z.pow_nonzero; lia). apply Z.lxor_0_r.
  - do 2 f_equal. rewrite Z.shiftr_lxor. f_equal. rewrite Z.shiftr_shiftl_l by lia. rewrite Z.sub_diag. apply Z.shiftl_0_r.
Qed.

(** * Ranges and what a CRC detects *)

Definition is_w (w x : Z) : Prop := 0 <= x < 2 ^ w.

Lemma rstep_range w poly c : 0 <= w -> is_w w poly -> is_w w c -> is_w w (rstep poly c).
Proof.
  intros Hw Hp Hc. apply lxor_range; [done|apply shiftr_range; lia || done|]. destruct (_ =? _); [|done].
  pose proof (Z.pow_pos_nonneg 2 w). lia.
Qed.

Lemma fstep_range w poly c : 0 <= w -> is_w w poly -> is_w w (fstep w poly c).
Proof.
  intros Hw Hp. pose proof (Z.pow_pos_nonneg 2 w). apply lxor_range; [done|apply Z.mod_pos_bound; lia|]. destruct (_ =? _); [lia|done].
Qed.

Lemma iter_keeps (P : Z -> Prop) (f : Z -> Z) : (forall c, P c -> P (f c)) -> forall n c, P c -> P (Nat.iter n f c).
Proof. intros Hf n c Hc. induction n as [|n IH]; [done|]. rewrite Nat.iter_succ. auto. Qed.

(** A linear register of which no non-zero state shifts to zero. *)
Definition no_kernel (w : Z) (f : Z -> Z) : Prop := forall d, is_w w d -> f d = 0 -> d = 0.

Lemma rstep_no_kernel w poly : 1 <= w -> Z.testbit poly (w - 1) = true -> no_kernel w (rstep poly).
Proof.
  intros Hw Hp d Hd E. unfold rstep in E. rewrite land_1_bit in E. destruct (Z.testbit d 0) eqn:E0; cbn [negb] in E.
  - apply (f_equal (fun x => Z.testbit x (w - 1))) in E. rewrite Z.lxor_spec, Hp, Z.bits_0, Z.shiftr_spec in E by lia.
    rewrite (testbit_high d w) in E by (unfold is_w in Hd; lia). done.
  - rewrite Z.lxor_0_r, Z.shiftr_div_pow2 in E by lia. rewrite Z.bit0_odd in E0.
    pose proof (Z.div2_odd d) as Hd2. rewrite E0, Z.div2_div in Hd2. change (2 ^ 1) with 2 in E. cbn in Hd2. lia.
Qed.

Lemma fstep_no_kernel w poly : 1 <= w -> Z.testbit poly 0 = true -> no_kernel w (fstep w poly).
Proof.
  intros Hw Hp d Hd E. unfold fstep in E. rewrite land_bit in E by lia. destruct (Z.testbit d (w - 1)) eqn:E0; cbn [negb] in E.
  - apply (f_equal (fun x => Z.testbit x 0)) in E. rewrite Z.lxor_spec, Hp, Z.bits_0, testbit_mod2, Z.shiftl_spec in E by lia.
    rewrite (Z.testbit_neg_r d) in E by lia. rewrite andb_false_r in E. done.
  - destruct (Z.lt_ge_cases d (2 ^ (w - 1))) as [Hlt|Hge].
    + assert (Hf : fstep w poly d = 2 * d) by (apply fstep_small; unfold is_w in Hd; lia).
      unfold fstep in Hf. rewrite land_bit, E0 in Hf by lia. cbn [negb] in Hf. lia.
    + exfalso. assert (Hb : Z.testbit d (w - 1) = true); [|congruence].
      rewrite Z.testbit_true by lia. replace (d / 2 ^ (w - 1)) with 1; [done|]. unfold is_w in Hd.
      assert (2 ^ w = 2 * 2 ^ (w - 1)) by (rewrite <- Z.pow_succ_r by lia; f_equal; lia).
      apply Z.div_unique with (d - 2 ^ (w - 1)); lia.
Qed.

Lemma no_kernel_inj w f n : 0 <= w -> (forall a b, f (Z.lxor a b) = Z.lxor (f a) (f b)) -> (forall c, is_w w c -> is_w w (f c)) ->
  no_kernel w f -> forall a b, is_w w a -> is_w w b -> Nat.iter n f a = Nat.iter n f b -> a = b.
Proof.
  intros Hw Hlin Hr Hk a b Ha Hb E. apply Z.lxor_eq.
  assert (Hd : is_w w (Z.lxor a b)) by now apply lxor_range.
  assert (E0 : Nat.iter n f (Z.lxor a b) = 0) by (rewrite iter_lxor by done; rewrite E; apply Z.lxor_nilpotent).
  revert E0. generalize (Z.lxor a b) Hd. clear -Hr Hk. induction n as [|n IH]; intros d Hd E; [done|].
  rewrite Nat.iter_succ in E. apply IH; [done|]. apply Hk; [|done]. now apply iter_keeps.
Qed.

Lemma lxor_inj_r c a b : Z.lxor c a = Z.lxor c b -> a = b.
Proof.
  intros E. apply Z.lxor_eq. apply (f_equal (Z.lxor c)) in E. rewrite <- !Z.lxor_assoc, Z.lxor_nilpotent, !Z.lxor_0_l in E. subst.
  apply Z.lxor_nilpotent.
Qed.

(** A CRC of [w] bits as seen by its users: a byte step that is injective in
    the register and in the byte. *)
Record crc_step (w : Z) (f : Z -> Z -> Z) := {
  step_range : forall c b, is_w w c -> is_u8 b -> is_w w (f c b);
  step_inj_c : forall c c' b, is_w w c -> is_w w c' -> is_u8 b -> f c b = f c' b -> c = c';
  step_inj_b : forall c b b', is_w w c -> is_u8 b -> is_u8 b' -> f c b = f c b' -> b = b'
}.

Lemma crc_fold_range w f : crc_step w f -> forall l c, is_w w c -> Forall is_u8 l -> is_w w (foldl f c l).
Proof.
  intros Hs l. induction l as [|b l IH]; intros c Hc Hl; [done|]. apply Forall_cons_1 in Hl as [Hb Hl]. cbn.
  apply IH; [|done]. now apply (step_range w f Hs).
Qed.

Lemma crc_fold_inj w f : crc_step w f -> forall l c c', is_w w c -> is_w w c' -> Forall is_u8 l -> foldl f c l = foldl f c' l -> c = c'.
Proof.
  intros Hs l. induction l as [|b l IH]; intros c c' Hc Hc' Hl E; [done|]. apply Forall_cons_1 in Hl as [Hb Hl]. cbn in E.
  apply (step_inj_c w f Hs c c' b); [done..|]. apply IH; [now apply (step_range w f Hs)..|done|done].
Qed.

(** A single corrupted byte always changes the CRC. *)
Lemma crc_detects_byte w f : crc_step w f -> forall c pre b b' post, is_w w c -> Forall is_u8 pre -> Forall is_u8 post ->
  is_u8 b -> is_u8 b' -> b <> b' -> foldl f c (pre ++ b :: post) <> foldl f c (pre ++ b' :: post).
Proof.
  intros Hs c pre b b' post Hc Hpre Hpost Hb Hb' Hne E. rewrite !foldl_app in E. cbn [foldl] in E.
  pose proof (crc_fold_range w f Hs pre c Hc Hpre) as Hm. apply Hne. apply (step_inj_b w f Hs (foldl f c pre)); [done..|].
  apply (crc_fold_inj w f Hs post); [now apply (step_range w f Hs)..|done|done].
Qed.

Lemma u8_is_w w b : 8 <= w -> is_u8 b -> is_w w b.
Proof. unfold is_u8, is_w. intros Hw Hb. assert (2 ^ 8 <= 2 ^ w) by (apply Z.pow_le_mono_r; lia). lia. Qed.

Lemma u8_shifted_is_w w b : 8 <= w -> is_u8 b -> is_w w (Z.shiftl b (w - 8)).
Proof.
  unfold is_u8, is_w. intros Hw Hb. rewrite Z.shiftl_mul_pow2 by lia. replace w with (8 + (w - 8)) at 3 by lia.
  rewrite Z.pow_add_r by lia. pose proof (Z.pow_pos_nonneg 2 (w - 8)). nia.
Qed.

Lemma rbyte_step w poly : 8 <= w -> is_w w poly -> Z.testbit poly (w - 1) = true -> crc_step w (rbyte poly).
Proof.
  intros Hw Hp Ht. unfold rbyte.
  assert (Hr : forall c, is_w w c -> is_w w (rstep poly c)) by (intros c; apply rstep_range; lia || done).
  assert (Hi : forall a b, is_w w a -> is_w w b -> Nat.iter 8 (rstep poly) a = Nat.iter 8 (rstep poly) b -> a = b)
    by (apply no_kernel_inj; [lia|apply rstep_lxor|done|apply rstep_no_kernel; lia || done]).
  split.
  - intros c b Hc Hb. apply iter_keeps; [done|]. apply lxor_range; [lia|done|now apply u8_is_w].
  - intros c c' b Hc Hc' Hb E. apply (lxor_inj_r b). rewrite !(Z.lxor_comm b). pose proof (u8_is_w w b Hw Hb).
    apply Hi; [apply lxor_range; lia || done..|done].
  - intros c b b' Hc Hb Hb' E. apply (lxor_inj_r c). pose proof (u8_is_w w b Hw Hb). pose proof (u8_is_w w b' Hw Hb').
    apply Hi; [apply lxor_range; lia || done..|done].
Qed.

Lemma fbyte_step w poly : 8 <= w -> is_w w poly -> Z.testbit poly 0 = true -> crc_step w (fbyte w poly).
Proof.
  intros Hw Hp Ht. unfold fbyte.
  assert (Hi : forall a b, is_w w a -> is_w w b -> Nat.iter 8 (fstep w poly) a = Nat.iter 8 (fstep w poly) b -> a = b).
  { apply no_kernel_inj; [lia|intros; apply fstep_lxor; lia|intros; apply fstep_range; lia || done|apply fstep_no_kernel; lia || done]. }
  split.
  - intros c b Hc Hb. rewrite Nat.iter_succ. apply fstep_range; lia || done.
  - intros c c' b Hc Hc' Hb E. apply (lxor_inj_r (Z.shiftl b (w - 8))). rewrite !(Z.lxor_comm (Z.shiftl b _)).
    pose proof (u8_shifted_is_w w b Hw Hb). apply Hi; [apply lxor_range; lia || done..|done].
  - intros c b b' Hc Hb Hb' E. pose proof (u8_shifted_is_w w b Hw Hb). pose proof (u8_shifted_is_w w b' Hw Hb').
    assert (E2 : Z.shiftl b (w - 8) = Z.shiftl b' (w - 8)) by (apply (lxor_inj_r c); apply Hi; [apply lxor_range; lia || done..|done]).
    rewrite !Z.shiftl_mul_pow2 in E2 by lia. apply Z.mul_reg_r in E2; [done|]. apply Z.pow_nonzero; lia.
Qed.

(** The byte that leaves the register empties it. *)
Lemma rbyte_own poly c : rbyte poly c (Z.land c 255) = Z.shiftr c 8.
Proof.
  unfold rbyte. rewrite (low_byte c) at 1. rewrite Z.lxor_comm, <- Z.lxor_assoc, Z.lxor_nilpotent, Z.lxor_0_l.
  apply (rstep_shift poly 8).
Qed.

Lemma fbyte_own w poly c : 8 <= w -> is_w w c -> fbyte w poly c (Z.shiftr c (w - 8)) = Z.shiftl c 8 mod 2 ^ w.
Proof.
  intros Hw Hc. unfold is_w in Hc. rewrite forward_table_byte; [|done|done|].
  - rewrite Z.lxor_nilpotent, Z.shiftl_0_l. replace (Nat.iter 8 _ 0) with 0; [apply Z.lxor_0_r|].
    symmetry. apply (fstep_shift w poly 8 0); [lia|cbn; lia|]. apply Z.pow_pos_nonneg; lia.
  - unfold is_u8. rewrite Z.shiftr_div_pow2 by lia. split; [apply Z.div_pos; [lia|apply Z.pow_pos_nonneg; lia]|].
    apply Z.div_lt_upper_bound; [apply Z.pow_pos_nonneg; lia|]. rewrite <- Z.pow_add_r by lia. replace (w - 8 + 8) with w by lia. lia.
Qed.
