(* ===== verification/CrcTables.v ===== *)
(** lib/crc16.c, lib/crc-ccitt.c, lib/crc-itu-t.c, lib/crc7.c, lib/crc-t10dif.c
    and crypto/crc32c.c: the byte-wise table-driven CRCs and the crc32c hash of
    the crypto API.  The tables are checked against the polynomials, so every
    function is shown to compute its bit-serial CRC. *)
From S2P Require Import Prelude.
From S2P Require Import Ring.
From S2P Require Import Cipher.
From S2P Require Import Crc.

(** * Tables and steps *)

Definition crc16_table : list Z := [
  0x0000; 0xC0C1; 0xC181; 0x0140; 0xC301; 0x03C0; 0x0280; 0xC241;
  0xC601; 0x06C0; 0x0780; 0xC741; 0x0500; 0xC5C1; 0xC481; 0x0440;
  0xCC01; 0x0CC0; 0x0D80; 0xCD41; 0x0F00; 0xCFC1; 0xCE81; 0x0E40;
  0x0A00; 0xCAC1; 0xCB81; 0x0B40; 0xC901; 0x09C0; 0x0880; 0xC841;
  0xD801; 0x18C0; 0x1980; 0xD941; 0x1B00; 0xDBC1; 0xDA81; 0x1A40;
  0x1E00; 0xDEC1; 0xDF81; 0x1F40; 0xDD01; 0x1DC0; 0x1C80; 0xDC41;
  0x1400; 0xD4C1; 0xD581; 0x1540; 0xD701; 0x17C0; 0x1680; 0xD641;
  0xD201; 0x12C0; 0x1380; 0xD341; 0x1100; 0xD1C1; 0xD081; 0x1040;
  0xF001; 0x30C0; 0x3180; 0xF141; 0x3300; 0xF3C1; 0xF281; 0x3240;
  0x3600; 0xF6C1; 0xF781; 0x3740; 0xF501; 0x35C0; 0x3480; 0xF441;
  0x3C00; 0xFCC1; 0xFD81; 0x3D40; 0xFF01; 0x3FC0; 0x3E80; 0xFE41;
  0xFA01; 0x3AC0; 0x3B80; 0xFB41; 0x3900; 0xF9C1; 0xF881; 0x3840;
  0x2800; 0xE8C1; 0xE981; 0x2940; 0xEB01; 0x2BC0; 0x2A80; 0xEA41;
  0xEE01; 0x2EC0; 0x2F80; 0xEF41; 0x2D00; 0xEDC1; 0xEC81; 0x2C40;
  0xE401; 0x24C0; 0x2580; 0xE541; 0x2700; 0xE7C1; 0xE681; 0x2640;
  0x2200; 0xE2C1; 0xE381; 0x2340; 0xE101; 0x21C0; 0x2080; 0xE041;
  0xA001; 0x60C0; 0x6180; 0xA141; 0x6300; 0xA3C1; 0xA281; 0x6240;
  0x6600; 0xA6C1; 0xA781; 0x6740; 0xA501; 0x65C0; 0x6480; 0xA441;
  0x6C00; 0xACC1; 0xAD81; 0x6D40; 0xAF01; 0x6FC0; 0x6E80; 0xAE41;
  0xAA01; 0x6AC0; 0x6B80; 0xAB41; 0x6900; 0xA9C1; 0xA881; 0x6840;
  0x7800; 0xB8C1; 0xB981; 0x7940; 0xBB01; 0x7BC0; 0x7A80; 0xBA41;
  0xBE01; 0x7EC0; 0x7F80; 0xBF41; 0x7D00; 0xBDC1; 0xBC81; 0x7C40;
  0xB401; 0x74C0; 0x7580; 0xB541; 0x7700; 0xB7C1; 0xB681; 0x7640;
  0x7200; 0xB2C1; 0xB381; 0x7340; 0xB101; 0x71C0; 0x7080; 0xB041;
  0x5000; 0x90C1; 0x9181; 0x5140; 0x9301; 0x53C0; 0x5280; 0x9241;
  0x9601; 0x56C0; 0x5780; 0x9741; 0x5500; 0x95C1; 0x9481; 0x5440;
  0x9C01; 0x5CC0; 0x5D80; 0x9D41; 0x5F00; 0x9FC1; 0x9E81; 0x5E40;
  0x5A00; 0x9AC1; 0x9B81; 0x5B40; 0x9901; 0x59C0; 0x5880; 0x9841;
  0x8801; 0x48C0; 0x4980; 0x8941; 0x4B00; 0x8BC1; 0x8A81; 0x4A40;
  0x4E00; 0x8EC1; 0x8F81; 0x4F40; 0x8D01; 0x4DC0; 0x4C80; 0x8C41;
  0x4400; 0x84C1; 0x8581; 0x4540; 0x8701; 0x47C0; 0x4680; 0x8641;
  0x8201; 0x42C0; 0x4380; 0x8341; 0x4100; 0x81C1; 0x8081; 0x4040].

Definition crc_ccitt_table : list Z := [
  0x0000; 0x1189; 0x2312; 0x329b; 0x4624; 0x57ad; 0x6536; 0x74bf;
  0x8c48; 0x9dc1; 0xaf5a; 0xbed3; 0xca6c; 0xdbe5; 0xe97e; 0xf8f7;
  0x1081; 0x0108; 0x3393; 0x221a; 0x56a5; 0x472c; 0x75b7; 0x643e;
  0x9cc9; 0x8d40; 0xbfdb; 0xae52; 0xdaed; 0xcb64; 0xf9ff; 0xe876;
  0x2102; 0x308b; 0x0210; 0x1399; 0x6726; 0x76af; 0x4434; 0x55bd;
  0xad4a; 0xbcc3; 0x8e58; 0x9fd1; 0xeb6e; 0xfae7; 0xc87c; 0xd9f5;
  0x3183; 0x200a; 0x1291; 0x0318; 0x77a7; 0x662e; 0x54b5; 0x453c;
  0xbdcb; 0xac42; 0x9ed9; 0x8f50; 0xfbef; 0xea66; 0xd8fd; 0xc974;
  0x4204; 0x538d; 0x6116; 0x709f; 0x0420; 0x15a9; 0x2732; 0x36bb;
  0xce4c; 0xdfc5; 0xed5e; 0xfcd7; 0x8868; 0x99e1; 0xab7a; 0xbaf3;
  0x5285; 0x430c; 0x7197; 0x601e; 0x14a1; 0x0528; 0x37b3; 0x263a;
  0xdecd; 0xcf44; 0xfddf; 0xec56; 0x98e9; 0x8960; 0xbbfb; 0xaa72;
  0x6306; 0x728f; 0x4014; 0x519d; 0x2522; 0x34ab; 0x0630; 0x17b9;
  0xef4e; 0xfec7; 0xcc5c; 0xddd5; 0xa96a; 0xb8e3; 0x8a78; 0x9bf1;
  0x7387; 0x620e; 0x5095; 0x411c; 0x35a3; 0x242a; 0x16b1; 0x0738;
  0xffcf; 0xee46; 0xdcdd; 0xcd54; 0xb9eb; 0xa862; 0x9af9; 0x8b70;
  0x8408; 0x9581; 0xa71a; 0xb693; 0xc22c; 0xd3a5; 0xe13e; 0xf0b7;
  0x0840; 0x19c9; 0x2b52; 0x3adb; 0x4e64; 0x5fed; 0x6d76; 0x7cff;
  0x9489; 0x8500; 0xb79b; 0xa612; 0xd2ad; 0xc324; 0xf1bf; 0xe036;
  0x18c1; 0x0948; 0x3bd3; 0x2a5a; 0x5ee5; 0x4f6c; 0x7df7; 0x6c7e;
  0xa50a; 0xb483; 0x8618; 0x9791; 0xe32e; 0xf2a7; 0xc03c; 0xd1b5;
  0x2942; 0x38cb; 0x0a50; 0x1bd9; 0x6f66; 0x7eef; 0x4c74; 0x5dfd;
  0xb58b; 0xa402; 0x9699; 0x8710; 0xf3af; 0xe226; 0xd0bd; 0xc134;
  0x39c3; 0x284a; 0x1ad1; 0x0b58; 0x7fe7; 0x6e6e; 0x5cf5; 0x4d7c;
  0xc60c; 0xd785; 0xe51e; 0xf497; 0x8028; 0x91a1; 0xa33a; 0xb2b3;
  0x4a44; 0x5bcd; 0x6956; 0x78df; 0x0c60; 0x1de9; 0x2f72; 0x3efb;
  0xd68d; 0xc704; 0xf59f; 0xe416; 0x90a9; 0x8120; 0xb3bb; 0xa232;
  0x5ac5; 0x4b4c; 0x79d7; 0x685e; 0x1ce1; 0x0d68; 0x3ff3; 0x2e7a;
  0xe70e; 0xf687; 0xc41c; 0xd595; 0xa12a; 0xb0a3; 0x8238; 0x93b1;
  0x6b46; 0x7acf; 0x4854; 0x59dd; 0x2d62; 0x3ceb; 0x0e70; 0x1ff9;
  0xf78f; 0xe606; 0xd49d; 0xc514; 0xb1ab; 0xa022; 0x92b9; 0x8330;
  0x7bc7; 0x6a4e; 0x58d5; 0x495c; 0x3de3; 0x2c6a; 0x1ef1; 0x0f78].

Definition crc_itu_t_table : list Z := [
  0x0000; 0x1021; 0x2042; 0x3063; 0x4084; 0x50a5; 0x60c6; 0x70e7;
  0x8108; 0x9129; 0xa14a; 0xb16b; 0xc18c; 0xd1ad; 0xe1ce; 0xf1ef;
  0x1231; 0x0210; 0x3273; 0x2252; 0x52b5; 0x4294; 0x72f7; 0x62d6;
  0x9339; 0x8318; 0xb37b; 0xa35a; 0xd3bd; 0xc39c; 0xf3ff; 0xe3de;
  0x2462; 0x3443; 0x0420; 0x1401; 0x64e6; 0x74c7; 0x44a4; 0x5485;
  0xa56a; 0xb54b; 0x8528; 0x9509; 0xe5ee; 0xf5cf; 0xc5ac; 0xd58d;
  0x3653; 0x2672; 0x1611; 0x0630; 0x76d7; 0x66f6; 0x5695; 0x46b4;
  0xb75b; 0xa77a; 0x9719; 0x8738; 0xf7df; 0xe7fe; 0xd79d; 0xc7bc;
  0x48c4; 0x58e5; 0x6886; 0x78a7; 0x0840; 0x1861; 0x2802; 0x3823;
  0xc9cc; 0xd9ed; 0xe98e; 0xf9af; 0x8948; 0x9969; 0xa90a; 0xb92b;
  0x5af5; 0x4ad4; 0x7ab7; 0x6a96; 0x1a71; 0x0a50; 0x3a33; 0x2a12;
  0xdbfd; 0xcbdc; 0xfbbf; 0xeb9e; 0x9b79; 0x8b58; 0xbb3b; 0xab1a;
  0x6ca6; 0x7c87; 0x4ce4; 0x5cc5; 0x2c22; 0x3c03; 0x0c60; 0x1c41;
  0xedae; 0xfd8f; 0xcdec; 0xddcd; 0xad2a; 0xbd0b; 0x8d68; 0x9d49;
  0x7e97; 0x6eb6; 0x5ed5; 0x4ef4; 0x3e13; 0x2e32; 0x1e51; 0x0e70;
  0xff9f; 0xefbe; 0xdfdd; 0xcffc; 0xbf1b; 0xaf3a; 0x9f59; 0x8f78;
  0x9188; 0x81a9; 0xb1ca; 0xa1eb; 0xd10c; 0xc12d; 0xf14e; 0xe16f;
  0x1080; 0x00a1; 0x30c2; 0x20e3; 0x5004; 0x4025; 0x7046; 0x6067;
  0x83b9; 0x9398; 0xa3fb; 0xb3da; 0xc33d; 0xd31c; 0xe37f; 0xf35e;
  0x02b1; 0x1290; 0x22f3; 0x32d2; 0x4235; 0x5214; 0x6277; 0x7256;
  0xb5ea; 0xa5cb; 0x95a8; 0x8589; 0xf56e; 0xe54f; 0xd52c; 0xc50d;
  0x34e2; 0x24c3; 0x14a0; 0x0481; 0x7466; 0x6447; 0x5424; 0x4405;
  0xa7db; 0xb7fa; 0x8799; 0x97b8; 0xe75f; 0xf77e; 0xc71d; 0xd73c;
  0x26d3; 0x36f2; 0x0691; 0x16b0; 0x6657; 0x7676; 0x4615; 0x5634;
  0xd94c; 0xc96d; 0xf90e; 0xe92f; 0x99c8; 0x89e9; 0xb98a; 0xa9ab;
  0x5844; 0x4865; 0x7806; 0x6827; 0x18c0; 0x08e1; 0x3882; 0x28a3;
  0xcb7d; 0xdb5c; 0xeb3f; 0xfb1e; 0x8bf9; 0x9bd8; 0xabbb; 0xbb9a;
  0x4a75; 0x5a54; 0x6a37; 0x7a16; 0x0af1; 0x1ad0; 0x2ab3; 0x3a92;
  0xfd2e; 0xed0f; 0xdd6c; 0xcd4d; 0xbdaa; 0xad8b; 0x9de8; 0x8dc9;
  0x7c26; 0x6c07; 0x5c64; 0x4c45; 0x3ca2; 0x2c83; 0x1ce0; 0x0cc1;
  0xef1f; 0xff3e; 0xcf5d; 0xdf7c; 0xaf9b; 0xbfba; 0x8fd9; 0x9ff8;
  0x6e17; 0x7e36; 0x4e55; 0x5e74; 0x2e93; 0x3eb2; 0x0ed1; 0x1ef0].

Definition crc7_syndrome_table : list Z := [
  0x00; 0x09; 0x12; 0x1b; 0x24; 0x2d; 0x36; 0x3f;
  0x48; 0x41; 0x5a; 0x53; 0x6c; 0x65; 0x7e; 0x77;
  0x19; 0x10; 0x0b; 0x02; 0x3d; 0x34; 0x2f; 0x26;
  0x51; 0x58; 0x43; 0x4a; 0x75; 0x7c; 0x67; 0x6e;
  0x32; 0x3b; 0x20; 0x29; 0x16; 0x1f; 0x04; 0x0d;
  0x7a; 0x73; 0x68; 0x61; 0x5e; 0x57; 0x4c; 0x45;
  0x2b; 0x22; 0x39; 0x30; 0x0f; 0x06; 0x1d; 0x14;
  0x63; 0x6a; 0x71; 0x78; 0x47; 0x4e; 0x55; 0x5c;
  0x64; 0x6d; 0x76; 0x7f; 0x40; 0x49; 0x52; 0x5b;
  0x2c; 0x25; 0x3e; 0x37; 0x08; 0x01; 0x1a; 0x13;
  0x7d; 0x74; 0x6f; 0x66; 0x59; 0x50; 0x4b; 0x42;
  0x35; 0x3c; 0x27; 0x2e; 0x11; 0x18; 0x03; 0x0a;
  0x56; 0x5f; 0x44; 0x4d; 0x72; 0x7b; 0x60; 0x69;
  0x1e; 0x17; 0x0c; 0x05; 0x3a; 0x33; 0x28; 0x21;
  0x4f; 0x46; 0x5d; 0x54; 0x6b; 0x62; 0x79; 0x70;
  0x07; 0x0e; 0x15; 0x1c; 0x23; 0x2a; 0x31; 0x38;
  0x41; 0x48; 0x53; 0x5a; 0x65; 0x6c; 0x77; 0x7e;
  0x09; 0x00; 0x1b; 0x12; 0x2d; 0x24; 0x3f; 0x36;
  0x58; 0x51; 0x4a; 0x43; 0x7c; 0x75; 0x6e; 0x67;
  0x10; 0x19; 0x02; 0x0b; 0x34; 0x3d; 0x26; 0x2f;
  0x73; 0x7a; 0x61; 0x68; 0x57; 0x5e; 0x45; 0x4c;
  0x3b; 0x32; 0x29; 0x20; 0x1f; 0x16; 0x0d; 0x04;
  0x6a; 0x63; 0x78; 0x71; 0x4e; 0x47; 0x5c; 0x55;
  0x22; 0x2b; 0x30; 0x39; 0x06; 0x0f; 0x14; 0x1d;
  0x25; 0x2c; 0x37; 0x3e; 0x01; 0x08; 0x13; 0x1a;
  0x6d; 0x64; 0x7f; 0x76; 0x49; 0x40; 0x5b; 0x52;
  0x3c; 0x35; 0x2e; 0x27; 0x18; 0x11; 0x0a; 0x03;
  0x74; 0x7d; 0x66; 0x6f; 0x50; 0x59; 0x42; 0x4b;
  0x17; 0x1e; 0x05; 0x0c; 0x33; 0x3a; 0x21; 0x28;
  0x5f; 0x56; 0x4d; 0x44; 0x7b; 0x72; 0x69; 0x60;
  0x0e; 0x07; 0x1c; 0x15; 0x2a; 0x23; 0x38; 0x31;
  0x46; 0x4f; 0x54; 0x5d; 0x62; 0x6b; 0x70; 0x79].

Definition t10_dif_crc_table : list Z := [
  0x0000; 0x8BB7; 0x9CD9; 0x176E; 0xB205; 0x39B2; 0x2EDC; 0xA56B;
  0xEFBD; 0x640A; 0x7364; 0xF8D3; 0x5DB8; 0xD60F; 0xC161; 0x4AD6;
  0x54CD; 0xDF7A; 0xC814; 0x43A3; 0xE6C8; 0x6D7F; 0x7A11; 0xF1A6;
  0xBB70; 0x30C7; 0x27A9; 0xAC1E; 0x0975; 0x82C2; 0x95AC; 0x1E1B;
  0xA99A; 0x222D; 0x3543; 0xBEF4; 0x1B9F; 0x9028; 0x8746; 0x0CF1;
  0x4627; 0xCD90; 0xDAFE; 0x5149; 0xF422; 0x7F95; 0x68FB; 0xE34C;
  0xFD57; 0x76E0; 0x618E; 0xEA39; 0x4F52; 0xC4E5; 0xD38B; 0x583C;
  0x12EA; 0x995D; 0x8E33; 0x0584; 0xA0EF; 0x2B58; 0x3C36; 0xB781;
  0xD883; 0x5334; 0x445A; 0xCFED; 0x6A86; 0xE131; 0xF65F; 0x7DE8;
  0x373E; 0xBC89; 0xABE7; 0x2050; 0x853B; 0x0E8C; 0x19E2; 0x9255;
  0x8C4E; 0x07F9; 0x1097; 0x9B20; 0x3E4B; 0xB5FC; 0xA292; 0x2925;
  0x63F3; 0xE844; 0xFF2A; 0x749D; 0xD1F6; 0x5A41; 0x4D2F; 0xC698;
  0x7119; 0xFAAE; 0xEDC0; 0x6677; 0xC31C; 0x48AB; 0x5FC5; 0xD472;
  0x9EA4; 0x1513; 0x027D; 0x89CA; 0x2CA1; 0xA716; 0xB078; 0x3BCF;
  0x25D4; 0xAE63; 0xB90D; 0x32BA; 0x97D1; 0x1C66; 0x0B08; 0x80BF;
  0xCA69; 0x41DE; 0x56B0; 0xDD07; 0x786C; 0xF3DB; 0xE4B5; 0x6F02;
  0x3AB1; 0xB106; 0xA668; 0x2DDF; 0x88B4; 0x0303; 0x146D; 0x9FDA;
  0xD50C; 0x5EBB; 0x49D5; 0xC262; 0x6709; 0xECBE; 0xFBD0; 0x7067;
  0x6E7C; 0xE5CB; 0xF2A5; 0x7912; 0xDC79; 0x57CE; 0x40A0; 0xCB17;
  0x81C1; 0x0A76; 0x1D18; 0x96AF; 0x33C4; 0xB873; 0xAF1D; 0x24AA;
  0x932B; 0x189C; 0x0FF2; 0x8445; 0x212E; 0xAA99; 0xBDF7; 0x3640;
  0x7C96; 0xF721; 0xE04F; 0x6BF8; 0xCE93; 0x4524; 0x524A; 0xD9FD;
  0xC7E6; 0x4C51; 0x5B3F; 0xD088; 0x75E3; 0xFE54; 0xE93A; 0x628D;
  0x285B; 0xA3EC; 0xB482; 0x3F35; 0x9A5E; 0x11E9; 0x0687; 0x8D30;
  0xE232; 0x6985; 0x7EEB; 0xF55C; 0x5037; 0xDB80; 0xCCEE; 0x4759;
  0x0D8F; 0x8638; 0x9156; 0x1AE1; 0xBF8A; 0x343D; 0x2353; 0xA8E4;
  0xB6FF; 0x3D48; 0x2A26; 0xA191; 0x04FA; 0x8F4D; 0x9823; 0x1394;
  0x5942; 0xD2F5; 0xC59B; 0x4E2C; 0xEB47; 0x60F0; 0x779E; 0xFC29;
  0x4BA8; 0xC01F; 0xD771; 0x5CC6; 0xF9AD; 0x721A; 0x6574; 0xEEC3;
  0xA415; 0x2FA2; 0x38CC; 0xB37B; 0x1610; 0x9DA7; 0x8AC9; 0x017E;
  0x1F65; 0x94D2; 0x83BC; 0x080B; 0xAD60; 0x26D7; 0x31B9; 0xBA0E;
  0xF0D8; 0x7B6F; 0x6C01; 0xE7B6; 0x42DD; 0xC96A; 0xDE04; 0x55B3].

Definition crc32c_table : list Z := [
  0x00000000; 0xF26B8303; 0xE13B70F7; 0x1350F3F4;
  0xC79A971F; 0x35F1141C; 0x26A1E7E8; 0xD4CA64EB;
  0x8AD958CF; 0x78B2DBCC; 0x6BE22838; 0x9989AB3B;
  0x4D43CFD0; 0xBF284CD3; 0xAC78BF27; 0x5E133C24;
  0x105EC76F; 0xE235446C; 0xF165B798; 0x030E349B;
  0xD7C45070; 0x25AFD373; 0x36FF2087; 0xC494A384;
  0x9A879FA0; 0x68EC1CA3; 0x7BBCEF57; 0x89D76C54;
  0x5D1D08BF; 0xAF768BBC; 0xBC267848; 0x4E4DFB4B;
  0x20BD8EDE; 0xD2D60DDD; 0xC186FE29; 0x33ED7D2A;
  0xE72719C1; 0x154C9AC2; 0x061C6936; 0xF477EA35;
  0xAA64D611; 0x580F5512; 0x4B5FA6E6; 0xB93425E5;
  0x6DFE410E; 0x9F95C20D; 0x8CC531F9; 0x7EAEB2FA;
  0x30E349B1; 0xC288CAB2; 0xD1D83946; 0x23B3BA45;
  0xF779DEAE; 0x05125DAD; 0x1642AE59; 0xE4292D5A;
  0xBA3A117E; 0x4851927D; 0x5B016189; 0xA96AE28A;
  0x7DA08661; 0x8FCB0562; 0x9C9BF696; 0x6EF07595;
  0x417B1DBC; 0xB3109EBF; 0xA0406D4B; 0x522BEE48;
  0x86E18AA3; 0x748A09A0; 0x67DAFA54; 0x95B17957;
  0xCBA24573; 0x39C9C670; 0x2A993584; 0xD8F2B687;
  0x0C38D26C; 0xFE53516F; 0xED03A29B; 0x1F682198;
  0x5125DAD3; 0xA34E59D0; 0xB01EAA24; 0x42752927;
  0x96BF4DCC; 0x64D4CECF; 0x77843D3B; 0x85EFBE38;
  0xDBFC821C; 0x2997011F; 0x3AC7F2EB; 0xC8AC71E8;
  0x1C661503; 0xEE0D9600; 0xFD5D65F4; 0x0F36E6F7;
  0x61C69362; 0x93AD1061; 0x80FDE395; 0x72966096;
  0xA65C047D; 0x5437877E; 0x4767748A; 0xB50CF789;
  0xEB1FCBAD; 0x197448AE; 0x0A24BB5A; 0xF84F3859;
  0x2C855CB2; 0xDEEEDFB1; 0xCDBE2C45; 0x3FD5AF46;
  0x7198540D; 0x83F3D70E; 0x90A324FA; 0x62C8A7F9;
  0xB602C312; 0x44694011; 0x5739B3E5; 0xA55230E6;
  0xFB410CC2; 0x092A8FC1; 0x1A7A7C35; 0xE811FF36;
  0x3CDB9BDD; 0xCEB018DE; 0xDDE0EB2A; 0x2F8B6829;
  0x82F63B78; 0x709DB87B; 0x63CD4B8F; 0x91A6C88C;
  0x456CAC67; 0xB7072F64; 0xA457DC90; 0x563C5F93;
  0x082F63B7; 0xFA44E0B4; 0xE9141340; 0x1B7F9043;
  0xCFB5F4A8; 0x3DDE77AB; 0x2E8E845F; 0xDCE5075C;
  0x92A8FC17; 0x60C37F14; 0x73938CE0; 0x81F80FE3;
  0x55326B08; 0xA759E80B; 0xB4091BFF; 0x466298FC;
  0x1871A4D8; 0xEA1A27DB; 0xF94AD42F; 0x0B21572C;
  0xDFEB33C7; 0x2D80B0C4; 0x3ED04330; 0xCCBBC033;
  0xA24BB5A6; 0x502036A5; 0x4370C551; 0xB11B4652;
  0x65D122B9; 0x97BAA1BA; 0x84EA524E; 0x7681D14D;
  0x2892ED69; 0xDAF96E6A; 0xC9A99D9E; 0x3BC21E9D;
  0xEF087A76; 0x1D63F975; 0x0E330A81; 0xFC588982;
  0xB21572C9; 0x407EF1CA; 0x532E023E; 0xA145813D;
  0x758FE5D6; 0x87E466D5; 0x94B49521; 0x66DF1622;
  0x38CC2A06; 0xCAA7A905; 0xD9F75AF1; 0x2B9CD9F2;
  0xFF56BD19; 0x0D3D3E1A; 0x1E6DCDEE; 0xEC064EED;
  0xC38D26C4; 0x31E6A5C7; 0x22B65633; 0xD0DDD530;
  0x0417B1DB; 0xF67C32D8; 0xE52CC12C; 0x1747422F;
  0x49547E0B; 0xBB3FFD08; 0xA86F0EFC; 0x5A048DFF;
  0x8ECEE914; 0x7CA56A17; 0x6FF599E3; 0x9D9E1AE0;
  0xD3D3E1AB; 0x21B862A8; 0x32E8915C; 0xC083125F;
  0x144976B4; 0xE622F5B7; 0xF5720643; 0x07198540;
  0x590AB964; 0xAB613A67; 0xB831C993; 0x4A5A4A90;
  0x9E902E7B; 0x6CFBAD78; 0x7FAB5E8C; 0x8DC0DD8F;
  0xE330A81A; 0x115B2B19; 0x020BD8ED; 0xF0605BEE;
  0x24AA3F05; 0xD6C1BC06; 0xC5914FF2; 0x37FACCF1;
  0x69E9F0D5; 0x9B8273D6; 0x88D28022; 0x7AB90321;
  0xAE7367CA; 0x5C18E4C9; 0x4F48173D; 0xBD23943E;
  0xF36E6F75; 0x0105EC76; 0x12551F82; 0xE03E9C81;
  0x34F4F86A; 0xC69F7B69; 0xD5CF889D; 0x27A40B9E;
  0x79B737BA; 0x8BDCB4B9; 0x988C474D; 0x6AE7C44E;
  0xBE2DA0A5; 0x4C4623A6; 0x5F16D052; 0xAD7D5351].

Definition crc16_byte (crc data : Z) : res Z :=
  t ← rd crc16_table (Z.land (Z.lxor crc data) 0xff);
  Ok (u16 (Z.lxor (Z.shiftr crc 8) t)).
Definition crc16 : Z -> list Z -> Z -> res Z := byte_loop crc16_byte.

Definition crc_ccitt_byte (crc c : Z) : res Z :=
  t ← rd crc_ccitt_table (Z.land (Z.lxor crc c) 0xff);
  Ok (u16 (Z.lxor (Z.shiftr crc 8) t)).
Definition crc_ccitt : Z -> list Z -> Z -> res Z := byte_loop crc_ccitt_byte.

Definition crc_itu_t_byte (crc data : Z) : res Z :=
  t ← rd crc_itu_t_table (Z.land (Z.lxor (Z.shiftr crc 8) data) 0xff);
  Ok (u16 (Z.lxor (Z.shiftl crc 8) t)).
Definition crc_itu_t : Z -> list Z -> Z -> res Z := byte_loop crc_itu_t_byte.

Definition crc7_byte (crc data : Z) : res Z := rd crc7_syndrome_table (Z.lxor (Z.shiftl crc 1) data).
Definition crc7 : Z -> list Z -> Z -> res Z := byte_loop crc7_byte.

Definition crc_t10dif (buffer : list Z) (len : Z) : res Z :=
  byte_loop (fun crc b =>
    t ← rd t10_dif_crc_table (Z.land (Z.lxor (Z.shiftr crc 8) b) 0xff);
    Ok (u16 (Z.lxor (Z.shiftl crc 8) t))) 0 buffer len.

Definition crc32c : Z -> list Z -> Z -> res Z := byte_loop (fun crc b =>
  t ← rd crc32c_table (Z.land (Z.lxor crc b) 0xff);
  Ok (Z.lxor t (shr32 crc 8))).

(** * The crc32c hash: the key of a transform and the state of a request *)

Record crypto_shash := Shash { key : Z; crt_flags : Z }.
Record shash_desc := Desc { crc : Z }.
Definition CRYPTO_TFM_RES_BAD_KEY_LEN : Z := 0x00200000.
Definition EINVAL : Z := 22.

Definition crc32c_cra_init (tfm : crypto_shash) : crypto_shash := Shash (lnot32 0) (crt_flags tfm).

Definition chksum_setkey (tfm : crypto_shash) (k : list Z) (keylen : Z) : res (Z * crypto_shash) :=
  if negb (keylen =? 4) then Ok (- EINVAL, Shash (key tfm) (Z.lor (crt_flags tfm) CRYPTO_TFM_RES_BAD_KEY_LEN)) else
  v ← get_le32 k 0;
  Ok (0, Shash v (crt_flags tfm)).

Definition chksum_init (tfm : crypto_shash) : shash_desc := Desc (key tfm).

Definition chksum_update (desc : shash_desc) (data : list Z) (length : Z) : res shash_desc :=
  c ← crc32c (crc desc) data length;
  Ok (Desc c).

Definition chksum_final (desc : shash_desc) : list Z := put_le32 (lnot32 (crc desc)).

Definition __chksum_finup (c : Z) (data : list Z) (len : Z) : res (list Z) :=
  c ← crc32c c data len;
  Ok (put_le32 (lnot32 c)).

Definition chksum_finup (desc : shash_desc) (data : list Z) (len : Z) : res (list Z) := __chksum_finup (crc desc) data len.
Definition chksum_digest (tfm : crypto_shash) (data : list Z) (length : Z) : res (list Z) := __chksum_finup (key tfm) data length.

(** * Tables against polynomials *)

Definition table_of (f : Z -> Z) : list Z := (fun i => f (Z.of_nat i)) <$> seq 0 256.

Lemma rd_table_of f i : 0 <= i < 256 -> rd (table_of f) i = Ok (f i).
Proof.
  intros Hi. unfold rd, table_of. destruct (Z.leb_spec 0 i); [|lia].
  rewrite list_lookup_fmap, lookup_seq_lt by lia. cbn. do 2 f_equal. lia.
Qed.

(** The 7-bit CRC is an 8-bit register whose lowest bit is always clear. *)
Definition crc7_poly : Z := Z.shiftl 0x09 1.

Lemma crc16_table_ok : crc16_table = table_of (Nat.iter 8 (rstep 0xA001)).
Proof. vm_compute. reflexivity. Qed.
Lemma crc_ccitt_table_ok : crc_ccitt_table = table_of (Nat.iter 8 (rstep 0x8408)).
Proof. vm_compute. reflexivity. Qed.
Lemma crc_itu_t_table_ok : crc_itu_t_table = table_of (fun i => Nat.iter 8 (fstep 16 0x1021) (Z.shiftl i 8)).
Proof. vm_compute. reflexivity. Qed.
Lemma crc7_table_ok : crc7_syndrome_table = table_of (fun i => Z.shiftr (fbyte 8 crc7_poly i 0) 1).
Proof. vm_compute. reflexivity. Qed.
Lemma t10_dif_table_ok : t10_dif_crc_table = table_of (fun i => Nat.iter 8 (fstep 16 0x8BB7) (Z.shiftl i 8)).
Proof. vm_compute. reflexivity. Qed.
Lemma crc32c_table_ok : crc32c_table = table_of (Nat.iter 8 (rstep 0x82F63B78)).
Proof. vm_compute. reflexivity. Qed.

(** The two shapes of a byte step. *)
Lemma reflected_step poly c b : is_u8 b ->
  (t ← rd (table_of (Nat.iter 8 (rstep poly))) (Z.land (Z.lxor c b) 0xff); Ok (Z.lxor (Z.shiftr c 8) t)) = Ok (rbyte poly c b).
Proof. intros Hb. rewrite rd_table_of by apply land_ff. rewrite bind_ok, (reflected_table_byte poly c b Hb). f_equal. apply Z.lxor_comm. Qed.

Lemma forward_step poly c b : is_w 16 c -> is_u8 b ->
  (t ← rd (table_of (fun i => Nat.iter 8 (fstep 16 poly) (Z.shiftl i 8))) (Z.land (Z.lxor (Z.shiftr c 8) b) 0xff);
   Ok (Z.lxor (Z.shiftl c 8 mod 2 ^ 16) t)) = Ok (fbyte 16 poly c b).
Proof.
  intros Hc Hb. rewrite rd_table_of by apply land_ff. rewrite bind_ok. f_equal.
  rewrite (forward_table_byte 16 poly c b) by (lia || done). change (16 - 8) with 8. do 3 f_equal.
  change 0xff with (Z.ones 8). rewrite Z.land_ones by lia. apply Z.mod_small. apply lxor_range; [lia| |done].
  unfold is_w in Hc. rewrite Z.shiftr_div_pow2 by lia. split; [apply Z.div_pos; lia|apply Z.div_lt_upper_bound; lia].
Qed.

Lemma u16_is_w x : is_w 16 x -> u16 x = x.
Proof. apply Z.mod_small. Qed.

Lemma poly16_step poly : is_w 16 poly -> Z.testbit poly 15 = true -> crc_step 16 (rbyte poly).
Proof. intros Hp Ht. now apply rbyte_step. Qed.

Lemma crc16_poly : crc_step 16 (rbyte (reflect 16 0x8005)).
Proof. apply poly16_step; [split|]; reflexivity || done. Qed.
Lemma crc_ccitt_poly : crc_step 16 (rbyte (reflect 16 0x1021)).
Proof. apply poly16_step; [split|]; reflexivity || done. Qed.
Lemma crc_itu_t_poly : crc_step 16 (fbyte 16 0x1021).
Proof. apply fbyte_step; [lia|split; lia|done]. Qed.
Lemma t10_dif_poly : crc_step 16 (fbyte 16 0x8BB7).
Proof. apply fbyte_step; [lia|split; lia|done]. Qed.
Lemma crc32c_poly : crc_step 32 (rbyte (reflect 32 0x1EDC6F41)).
Proof. apply rbyte_step; [lia|split; reflexivity || done|done]. Qed.

(** What a routine computes: the bit-serial CRC of the buffer. *)
Lemma crc_loop_ok w step f c l : crc_step w f -> (forall c b, is_w w c -> is_u8 b -> step c b = Ok (f c b)) ->
  is_w w c -> Forall is_u8 l -> byte_loop step c l (zlen l) = Ok (foldl f c l).
Proof.
  intros Hf Hs Hc Hl. apply (byte_loop_ok step f (is_w w)); [|done|done]. intros c' b Hc' Hb. split; [now apply Hs|].
  now apply (step_range w f Hf).
Qed.

Lemma crc16_ok c l : is_w 16 c -> Forall is_u8 l -> crc16 c l (zlen l) = Ok (foldl (rbyte (reflect 16 0x8005)) c l).
Proof.
  intros Hc Hl. apply (crc_loop_ok 16); [apply crc16_poly| |done|done]. intros c' b Hc' Hb. unfold crc16_byte. rewrite crc16_table_ok.
  pose proof (reflected_step 0xA001 c' b Hb) as E. apply bind_ok_inv in E as (t & -> & [= E]). rewrite bind_ok, E. f_equal.
  apply u16_is_w. now apply (step_range 16 _ crc16_poly).
Qed.

Lemma crc_ccitt_ok c l : is_w 16 c -> Forall is_u8 l -> crc_ccitt c l (zlen l) = Ok (foldl (rbyte (reflect 16 0x1021)) c l).
Proof.
  intros Hc Hl. apply (crc_loop_ok 16); [apply crc_ccitt_poly| |done|done]. intros c' b Hc' Hb. unfold crc_ccitt_byte. rewrite crc_ccitt_table_ok.
  pose proof (reflected_step 0x8408 c' b Hb) as E. apply bind_ok_inv in E as (t & -> & [= E]). rewrite bind_ok, E. f_equal.
  apply u16_is_w. now apply (step_range 16 _ crc_ccitt_poly).
Qed.

(** The truncation of the shifted register to 16 bits commutes with the
    exclusive or with a table entry. *)
Lemma u16_forward poly i c b : crc_step 16 (fbyte 16 poly) -> is_w 16 c -> is_u8 b -> i = Z.land (Z.lxor (Z.shiftr c 8) b) 0xff ->
  (t ← rd (table_of (fun i => Nat.iter 8 (fstep 16 poly) (Z.shiftl i 8))) i; Ok (u16 (Z.lxor (Z.shiftl c 8) t))) = Ok (fbyte 16 poly c b).
Proof.
  intros Hp Hc Hb ->. pose proof (forward_step poly c b Hc Hb) as E. apply bind_ok_inv in E as (t & -> & [= E]). rewrite bind_ok. f_equal.
  pose proof (step_range 16 _ Hp c b Hc Hb) as Hr. rewrite <- E. unfold u16. rewrite mod_lxor by lia.
  rewrite <- (Z.mod_small (Z.lxor (Z.shiftl c 8 mod 2 ^ 16) t) (2 ^ 16)) by (rewrite E; exact Hr).
  rewrite mod_lxor, Zmod_mod by lia. done.
Qed.

Lemma crc_itu_t_ok c l : is_w 16 c -> Forall is_u8 l -> crc_itu_t c l (zlen l) = Ok (foldl (fbyte 16 0x1021) c l).
Proof.
  intros Hc Hl. apply (crc_loop_ok 16); [apply crc_itu_t_poly| |done|done]. intros c' b Hc' Hb. unfold crc_itu_t_byte.
  rewrite crc_itu_t_table_ok. apply u16_forward; [apply crc_itu_t_poly|done..].
Qed.

Lemma crc_t10dif_ok l : Forall is_u8 l -> crc_t10dif l (zlen l) = Ok (foldl (fbyte 16 0x8BB7) 0 l).
Proof.
  intros Hl. apply (crc_loop_ok 16); [apply t10_dif_poly| |split; lia|done]. intros c' b Hc' Hb.
  rewrite t10_dif_table_ok. apply u16_forward; [apply t10_dif_poly|done..].
Qed.

Lemma crc32c_ok c l : is_u32 c -> Forall is_u8 l -> crc32c c l (zlen l) = Ok (foldl (rbyte (reflect 32 0x1EDC6F41)) c l).
Proof.
  intros Hc Hl. apply (crc_loop_ok 32); [apply crc32c_poly| |done|done]. intros c' b Hc' Hb. rewrite crc32c_table_ok.
  pose proof (reflected_step 0x82F63B78 c' b Hb) as E. apply bind_ok_inv in E as (t & -> & [= E]). rewrite bind_ok. f_equal.
  rewrite Z.lxor_comm. exact E.
Qed.

Lemma fbyte_in poly c b : fbyte 8 poly (Z.lxor c b) 0 = fbyte 8 poly c b.
Proof. unfold fbyte. change (8 - 8) with 0. now rewrite Z.shiftl_0_l, Z.lxor_0_r, Z.shiftl_0_r. Qed.

Lemma fbyte7_even c b : is_w 8 (fbyte 8 crc7_poly c b) /\ Z.testbit (fbyte 8 crc7_poly c b) 0 = false.
Proof.
  unfold fbyte. rewrite Nat.iter_succ. set (x := Nat.iter _ _ _). split; [apply fstep_range; [lia|split; reflexivity || done]|].
  unfold fstep. rewrite Z.lxor_spec, testbit_mod2, Z.shiftl_spec by lia. rewrite (Z.testbit_neg_r x) by lia.
  rewrite andb_false_r. destruct (_ =? 0); reflexivity.
Qed.

Lemma even_half x : Z.testbit x 0 = false -> Z.shiftl (Z.shiftr x 1) 1 = x.
Proof.
  intros H. apply Z.bits_inj'. intros i Hi. rewrite Z.shiftl_spec by lia. destruct (Z.eq_dec i 0) as [->|Hne].
  - rewrite H. apply Z.testbit_neg_r. lia.
  - rewrite Z.shiftr_spec by lia. f_equal. lia.
Qed.

Definition crc7_next (c b : Z) : Z := Z.shiftr (fbyte 8 crc7_poly (Z.shiftl c 1) b) 1.

Lemma crc7_byte_ok c b : is_w 7 c -> is_u8 b -> crc7_byte c b = Ok (crc7_next c b) /\ is_w 7 (crc7_next c b).
Proof.
  intros Hc Hb. unfold is_w in Hc. unfold crc7_byte. rewrite crc7_table_ok, rd_table_of.
  - unfold crc7_next. cbv beta. rewrite fbyte_in. split; [reflexivity|]. destruct (fbyte7_even (Z.shiftl c 1) b) as [Hr _].
    set (x := fbyte _ _ _ _) in *. clearbody x. unfold is_w in *. rewrite Z.shiftr_div_pow2 by lia.
    split; [apply Z.div_pos; lia|apply Z.div_lt_upper_bound; lia].
  - apply (lxor_range _ _ 8); [lia|rewrite Z.shiftl_mul_pow2; lia|exact Hb].
Qed.

Lemma crc7_fold l : forall x, Z.testbit x 0 = false ->
  foldl crc7_next (Z.shiftr x 1) l = Z.shiftr (foldl (fbyte 8 crc7_poly) x l) 1.
Proof.
  induction l as [|b l IH]; intros x H0; [reflexivity|]. cbn [foldl]. unfold crc7_next at 2. rewrite even_half by exact H0.
  apply IH. apply fbyte7_even.
Qed.

Lemma crc7_ok c l : is_w 7 c -> Forall is_u8 l ->
  crc7 c l (zlen l) = Ok (Z.shiftr (foldl (fbyte 8 crc7_poly) (Z.shiftl c 1) l) 1).
Proof.
  intros Hc Hl. destruct (byte_loop_ok crc7_byte crc7_next (is_w 7) c l crc7_byte_ok Hc Hl) as [E _].
  unfold crc7. rewrite E. f_equal. rewrite <- crc7_fold; [|apply Z.shiftl_spec_low; lia].
  f_equal. now rewrite Z.shiftr_shiftl_l, Z.shiftl_0_r by lia.
Qed.

(** Seven bits cannot tell all bytes apart: the step maps a difference to zero
    when it is the generator x^7 + x^3 + 1 itself, and no other. *)
Definition crc7_generator : Z := 0x89.

Lemma crc7_kernel d : is_u8 d -> Z.shiftr (fbyte 8 crc7_poly d 0) 1 = 0 <-> d = 0 \/ d = crc7_generator.
Proof.
  intros Hd. assert (forallb (fun i => Bool.eqb (Z.shiftr (fbyte 8 crc7_poly (Z.of_nat i) 0) 1 =? 0)
    ((Z.of_nat i =? 0) || (Z.of_nat i =? crc7_generator))) (seq 0 256) = true) as H by (vm_compute; reflexivity).
  rewrite forallb_forall in H. unfold is_u8 in Hd. specialize (H (Z.to_nat d)). rewrite Z2Nat.id in H by lia.
  assert (In (Z.to_nat d) (seq 0 256)) as Hin by (apply in_seq; lia). specialize (H Hin). apply Bool.eqb_prop in H.
  rewrite <- Z.eqb_eq, H, orb_true_iff, !Z.eqb_eq. done.
Qed.

Lemma crc7_next_eq c c' b b' : is_w 7 c -> is_w 7 c' -> is_u8 b -> is_u8 b' ->
  let d := Z.lxor (Z.shiftl (Z.lxor c c') 1) (Z.lxor b b') in crc7_next c b = crc7_next c' b' <-> d = 0 \/ d = crc7_generator.
Proof.
  intros Hc Hc' Hb Hb' d. unfold is_w in *.
  assert (is_u8 d) as Hd.
  { pose proof (lxor_range c c' 7 ltac:(lia) Hc Hc'). unfold d. apply (lxor_range _ _ 8); [lia|rewrite Z.shiftl_mul_pow2 by lia; lia|].
    apply (lxor_range _ _ 8); [lia|exact Hb|exact Hb']. }
  rewrite <- (crc7_kernel d Hd). unfold crc7_next.
  replace (Z.shiftr (fbyte 8 crc7_poly d 0) 1) with
    (Z.lxor (Z.shiftr (fbyte 8 crc7_poly (Z.shiftl c 1) b) 1) (Z.shiftr (fbyte 8 crc7_poly (Z.shiftl c' 1) b') 1)); [symmetry; apply Z.lxor_eq_0_iff|].
  rewrite <- Z.shiftr_lxor. f_equal. unfold fbyte. rewrite <- (iter_lxor (fstep 8 crc7_poly)) by (intros; apply fstep_lxor; lia).
  f_equal. unfold d. change (8 - 8) with 0. rewrite !Z.shiftl_0_r, Z.lxor_0_r, Z.shiftl_lxor. apply lxor_swap.
Qed.

Lemma crc7_fold_inj l : forall c c', is_w 7 c -> is_w 7 c' -> Forall is_u8 l -> foldl crc7_next c l = foldl crc7_next c' l -> c = c'.
Proof.
  induction l as [|b l IH]; intros c c' Hc Hc' Hl E; [done|]. apply Forall_cons_1 in Hl as [Hb Hl]. cbn [foldl] in E.
  apply IH in E; [|now apply crc7_byte_ok..|done]. apply crc7_next_eq in E; [|done..]. rewrite Z.lxor_nilpotent, Z.lxor_0_r in E.
  apply Z.lxor_eq. destruct E as [E|E].
  - apply Z.shiftl_eq_0_iff in E; lia.
  - apply (f_equal (fun x => Z.testbit x 0)) in E. rewrite Z.shiftl_spec_low in E by lia. done.
Qed.

(** A corrupted byte goes unnoticed exactly when the error is the generator. *)
Lemma crc7_detects c pre b b' post : is_w 7 c -> Forall is_u8 pre -> Forall is_u8 post -> is_u8 b -> is_u8 b' -> b <> b' ->
  let n := zlen (pre ++ b :: post) in
  crc7 c (pre ++ b :: post) n = crc7 c (pre ++ b' :: post) n <-> Z.lxor b b' = crc7_generator.
Proof.
  intros Hc Hpre Hpost Hb Hb' Hne n.
  assert (Hrun : forall l, Forall is_u8 l -> crc7 c l (zlen l) = Ok (foldl crc7_next c l) /\ is_w 7 (foldl crc7_next c l))
    by (intros l Hl; exact (byte_loop_ok crc7_byte crc7_next (is_w 7) c l crc7_byte_ok Hc Hl)).
  assert (n = zlen (pre ++ b' :: post)) as En by (unfold n, zlen; rewrite !length_app; done).
  destruct (Hrun (pre ++ b :: post)) as [E1 _]; [apply Forall_app; split; [done|now apply Forall_cons_2]|].
  destruct (Hrun (pre ++ b' :: post)) as [E2 _]; [apply Forall_app; split; [done|now apply Forall_cons_2]|].
  fold n in E1. rewrite <- En in E2. rewrite E1, E2. destruct (Hrun pre Hpre) as [_ Hm]. rewrite !foldl_app. cbn [foldl].
  set (m := foldl crc7_next c pre) in *. pose proof (crc7_next_eq m m b b' Hm Hm Hb Hb') as Hk. cbv zeta in Hk.
  rewrite Z.lxor_nilpotent, Z.shiftl_0_l, Z.lxor_0_l in Hk. split.
  - intros [= E]. apply crc7_fold_inj in E; [|now apply crc7_byte_ok..|done]. apply Hk in E as [E|E]; [|done]. now apply Z.lxor_eq in E.
  - intros E. f_equal. f_equal. apply Hk. now right.
Qed.

(** The tables are those of the polynomials. *)
Lemma crc_tables_fact c c7 c32 l : is_w 16 c -> is_w 7 c7 -> is_u32 c32 -> Forall is_u8 l ->
  crc16 c l (zlen l) = Ok (foldl (rbyte (reflect 16 0x8005)) c l) /\
  crc_ccitt c l (zlen l) = Ok (foldl (rbyte (reflect 16 0x1021)) c l) /\
  crc_itu_t c l (zlen l) = Ok (foldl (fbyte 16 0x1021) c l) /\
  crc_t10dif l (zlen l) = Ok (foldl (fbyte 16 0x8BB7) 0 l) /\
  crc7 c7 l (zlen l) = Ok (Z.shiftr (foldl (fbyte 8 crc7_poly) (Z.shiftl c7 1) l) 1) /\
  crc32c c32 l (zlen l) = Ok (foldl (rbyte (reflect 32 0x1EDC6F41)) c32 l).
Proof.
  intros Hc H7 H32 Hl. split; [now apply crc16_ok|]. split; [now apply crc_ccitt_ok|]. split; [now apply crc_itu_t_ok|].
  split; [now apply crc_t10dif_ok|]. split; [now apply crc7_ok|now apply crc32c_ok].
Qed.

Lemma digits_u8 l : forallb (fun x => (0 <=? x) && (x <? 256)) l = true -> Forall is_u8 l.
Proof. intros Hl. rewrite forallb_forall in Hl. apply List.Forall_forall. intros x Hx. specialize (Hl x Hx). unfold is_u8. lia. Qed.

(** The check string "123456789" and its published values. *)
Definition check_string : list Z := [0x31; 0x32; 0x33; 0x34; 0x35; 0x36; 0x37; 0x38; 0x39].

(** A message followed by its own CRC. *)
Lemma land_255 v : Z.land v 255 = v mod 2 ^ 8.
Proof. change 255 with (Z.ones 8). apply Z.land_ones. lia. Qed.

Lemma own_bytes16 v : is_w 16 v -> is_u8 (Z.land v 255) /\ is_u8 (Z.shiftr v 8).
Proof.
  unfold is_w, is_u8. intros Hv. split; [apply land_ff|]. rewrite Z.shiftr_div_pow2 by lia.
  split; [apply Z.div_pos|apply Z.div_lt_upper_bound]; lia.
Qed.

Lemma reflected_own16 poly v : is_w 16 v -> foldl (rbyte poly) v [Z.land v 255; Z.shiftr v 8] = 0.
Proof.
  intros Hv. cbn [foldl]. rewrite rbyte_own. destruct (own_bytes16 v Hv) as [_ H8]. set (x := Z.shiftr v 8) in *. clearbody x.
  rewrite <- (Z.mod_small x (2 ^ 8)) at 2 by exact H8. rewrite <- land_255, rbyte_own. now apply shiftr_byte.
Qed.

Lemma forward_own16 poly v : is_w 16 v -> foldl (fbyte 16 poly) v [Z.shiftr v 8; Z.land v 255] = 0.
Proof.
  intros Hv. cbn [foldl]. pose proof (fbyte_own 16 poly v ltac:(lia) Hv) as E. change (16 - 8) with 8 in E. rewrite E.
  set (x := Z.shiftl v 8 mod 2 ^ 16). assert (Hx : is_w 16 x) by (apply Z.mod_pos_bound; lia).
  assert (E2 : Z.land v 255 = Z.shiftr x 8).
  { apply Z.bits_inj'. intros i Hi. unfold x. rewrite land_255, testbit_mod2, Z.shiftr_spec, testbit_mod2, Z.shiftl_spec by lia.
    replace (i + 8 - 8) with i by lia. destruct (Z.ltb_spec i 8), (Z.ltb_spec (i + 8) 16); done || lia. }
  rewrite E2. pose proof (fbyte_own 16 poly x ltac:(lia) Hx) as E3. change (16 - 8) with 8 in E3. rewrite E3.
  apply Z.bits_inj'. intros i Hi. unfold x. rewrite testbit_mod2, Z.shiftl_spec, Z.bits_0 by lia.
  destruct (Z.ltb_spec i 16); [|done]. destruct (Z.lt_ge_cases i 8); [now rewrite Z.testbit_neg_r by lia|].
  rewrite testbit_mod2, Z.shiftl_spec by lia. rewrite (Z.testbit_neg_r v) by lia. now rewrite andb_false_r.
Qed.

Lemma put_le32_bytes v : put_le32 v = [Z.land v 255; Z.land (Z.shiftr v 8) 255; Z.land (Z.shiftr (Z.shiftr v 8) 8) 255;
  Z.land (Z.shiftr (Z.shiftr (Z.shiftr v 8) 8) 8) 255].
Proof. rewrite !land_255, !Z.shiftr_shiftr, !Z.shiftr_div_pow2 by lia. reflexivity. Qed.

Lemma reflected_own32 poly v : is_u32 v -> foldl (rbyte poly) v (put_le32 v) = 0.
Proof.
  intros Hv. rewrite put_le32_bytes. cbn [foldl]. rewrite !rbyte_own, !Z.shiftr_shiftr, Z.shiftr_div_pow2 by lia. now apply Z.div_small.
Qed.

(** A routine that folds a CRC step over its buffer detects a bad byte and
    vanishes on a message with its CRC. *)
Lemma detects w f (run : list Z -> Z -> res Z) c pre b b' post : crc_step w f -> is_w w c ->
  (forall l, Forall is_u8 l -> run l (zlen l) = Ok (foldl f c l)) ->
  Forall is_u8 pre -> Forall is_u8 post -> is_u8 b -> is_u8 b' -> b <> b' ->
  run (pre ++ b :: post) (zlen (pre ++ b :: post)) <> run (pre ++ b' :: post) (zlen (pre ++ b :: post)).
Proof.
  intros Hf Hc Hrun Hpre Hpost Hb Hb' Hne.
  assert (E : zlen (pre ++ b :: post) = zlen (pre ++ b' :: post)) by (unfold zlen; rewrite !length_app; done).
  rewrite E at 2. rewrite !Hrun by (apply Forall_app; split; [done|now apply Forall_cons_2]). intros [= Heq].
  revert Heq. now apply (crc_detects_byte w f Hf).
Qed.

Lemma vanishes w f (run : list Z -> Z -> res Z) c l own : crc_step w f -> is_w w c ->
  (forall l, Forall is_u8 l -> run l (zlen l) = Ok (foldl f c l)) ->
  (forall v, is_w w v -> Forall is_u8 (own v) /\ foldl f v (own v) = 0) -> Forall is_u8 l ->
  forall v, run l (zlen l) = Ok v -> run (l ++ own v) (zlen l + zlen (own v)) = Ok 0.
Proof.
  intros Hf Hc Hrun Hown Hl v Hv. rewrite Hrun in Hv by done. injection Hv as <-.
  destruct (Hown (foldl f c l)) as [H8 E]; [now apply (crc_fold_range w f Hf)|].
  rewrite <- zlen_app, Hrun by now apply Forall_app. rewrite foldl_app. now rewrite E.
Qed.

(** What the CRCs detect, and messages with their own CRC. *)
Lemma crc_detects_corruption_fact c c7 c32 pre b b' post : is_w 16 c -> is_w 7 c7 -> is_u32 c32 -> Forall is_u8 pre -> Forall is_u8 post ->
  is_u8 b -> is_u8 b' -> b <> b' ->
  let n := zlen (pre ++ b :: post) in
  (crc16 c (pre ++ b :: post) n <> crc16 c (pre ++ b' :: post) n /\
   crc_ccitt c (pre ++ b :: post) n <> crc_ccitt c (pre ++ b' :: post) n /\
   crc_itu_t c (pre ++ b :: post) n <> crc_itu_t c (pre ++ b' :: post) n /\
   crc_t10dif (pre ++ b :: post) n <> crc_t10dif (pre ++ b' :: post) n /\
   crc32c c32 (pre ++ b :: post) n <> crc32c c32 (pre ++ b' :: post) n /\
   (crc7 c7 (pre ++ b :: post) n = crc7 c7 (pre ++ b' :: post) n <-> Z.lxor b b' = crc7_generator)) /\
  (forall v, crc16 c pre (zlen pre) = Ok v -> crc16 c (pre ++ [Z.land v 255; Z.shiftr v 8]) (zlen pre + 2) = Ok 0) /\
  (forall v, crc_ccitt c pre (zlen pre) = Ok v -> crc_ccitt c (pre ++ [Z.land v 255; Z.shiftr v 8]) (zlen pre + 2) = Ok 0) /\
  (forall v, crc_itu_t c pre (zlen pre) = Ok v -> crc_itu_t c (pre ++ [Z.shiftr v 8; Z.land v 255]) (zlen pre + 2) = Ok 0) /\
  (forall v, crc_t10dif pre (zlen pre) = Ok v -> crc_t10dif (pre ++ [Z.shiftr v 8; Z.land v 255]) (zlen pre + 2) = Ok 0) /\
  (forall v, crc32c c32 pre (zlen pre) = Ok v -> crc32c c32 (pre ++ put_le32 v) (zlen pre + 4) = Ok 0).
Proof.
  intros Hc H7 H32 Hpre Hpost Hb Hb' Hne. assert (H0 : is_w 16 0) by (split; lia).
  assert (Hrun16 : forall l, Forall is_u8 l -> crc16 c l (zlen l) = _) by (intros; now apply crc16_ok).
  assert (Hrunc : forall l, Forall is_u8 l -> crc_ccitt c l (zlen l) = _) by (intros; now apply crc_ccitt_ok).
  assert (Hruni : forall l, Forall is_u8 l -> crc_itu_t c l (zlen l) = _) by (intros; now apply crc_itu_t_ok).
  assert (Hrun32 : forall l, Forall is_u8 l -> crc32c c32 l (zlen l) = _) by (intros; now apply crc32c_ok).
  assert (Hr : forall poly v, is_w 16 v -> Forall is_u8 [Z.land v 255; Z.shiftr v 8] /\ foldl (rbyte poly) v [Z.land v 255; Z.shiftr v 8] = 0).
  { intros poly v Hv. destruct (own_bytes16 v Hv). split; [repeat apply Forall_cons_2; done|now apply reflected_own16]. }
  assert (Hfo : forall poly v, is_w 16 v -> Forall is_u8 [Z.shiftr v 8; Z.land v 255] /\ foldl (fbyte 16 poly) v [Z.shiftr v 8; Z.land v 255] = 0).
  { intros poly v Hv. destruct (own_bytes16 v Hv). split; [repeat apply Forall_cons_2; done|now apply forward_own16]. }
  cbv zeta. split; [|split; [|split; [|split; [|split]]]].
  - split; [exact (detects 16 _ (crc16 c) c pre b b' post crc16_poly Hc Hrun16 Hpre Hpost Hb Hb' Hne)|].
    split; [exact (detects 16 _ (crc_ccitt c) c pre b b' post crc_ccitt_poly Hc Hrunc Hpre Hpost Hb Hb' Hne)|].
    split; [exact (detects 16 _ (crc_itu_t c) c pre b b' post crc_itu_t_poly Hc Hruni Hpre Hpost Hb Hb' Hne)|].
    split; [exact (detects 16 _ crc_t10dif 0 pre b b' post t10_dif_poly H0 crc_t10dif_ok Hpre Hpost Hb Hb' Hne)|].
    split; [exact (detects 32 _ (crc32c c32) c32 pre b b' post crc32c_poly H32 Hrun32 Hpre Hpost Hb Hb' Hne)|now apply crc7_detects].
  - exact (vanishes 16 _ (crc16 c) c pre _ crc16_poly Hc Hrun16 (Hr _) Hpre).
  - exact (vanishes 16 _ (crc_ccitt c) c pre _ crc_ccitt_poly Hc Hrunc (Hr _) Hpre).
  - exact (vanishes 16 _ (crc_itu_t c) c pre _ crc_itu_t_poly Hc Hruni (Hfo _) Hpre).
  - exact (vanishes 16 _ crc_t10dif 0 pre _ t10_dif_poly H0 crc_t10dif_ok (Hfo _) Hpre).
  - refine (vanishes 32 _ (crc32c c32) c32 pre put_le32 crc32c_poly H32 Hrun32 _ Hpre).
    intros v Hv. split; [apply put_le32_u8|now apply reflected_own32].
Qed.

(** * The hash *)

Definition crc32c_of (c : Z) (l : list Z) : Z := foldl (rbyte (reflect 32 0x1EDC6F41)) c l.

(** Updating a request with a sequence of chunks. *)
Definition updates (desc : shash_desc) (chunks : list (list Z)) : res shash_desc :=
  foldl (fun d data => d ← d; chksum_update d data (zlen data)) (Ok desc) chunks.

Lemma updates_ok chunks : forall c, is_u32 c -> Forall (Forall is_u8) chunks ->
  updates (Desc c) chunks = Ok (Desc (crc32c_of c (concat chunks))) /\ is_u32 (crc32c_of c (concat chunks)).
Proof.
  unfold updates. induction chunks as [|l chunks IH]; intros c Hc H8; [done|]. apply Forall_cons_1 in H8 as [Hl H8]. cbn [foldl].
  rewrite bind_ok. unfold chksum_update at 2. cbn [crc]. rewrite crc32c_ok by done. rewrite bind_ok. cbn [concat].
  unfold crc32c_of. rewrite foldl_app. apply (IH _ (crc_fold_range 32 _ crc32c_poly l c Hc Hl) H8).
Qed.

(** the crc32c hash of the crypto API.  A key of four bytes becomes the
    start value and any other length is refused with -EINVAL and the key kept;
    from there init, any sequence of updates and final, or finup with the last
    chunk, or digest of everything at once, give the same four bytes: the
    complement of the CRC of the whole message, least significant byte first. *)
Lemma crc32c_hash_fact tfm k chunks last : Forall is_u8 k -> Forall (Forall is_u8) chunks -> Forall is_u8 last ->
  (zlen k <> 4 -> exists fl, chksum_setkey tfm k (zlen k) = Ok (- EINVAL, Shash (key tfm) fl)) /\
  (zlen k = 4 -> exists tfm' d, chksum_setkey tfm k (zlen k) = Ok (0, tfm') /\ put_le32 (key tfm') = k /\
    let hash := put_le32 (lnot32 (crc32c_of (key tfm') (concat chunks ++ last))) in
    updates (chksum_init tfm') chunks = Ok d /\
    (d' ← chksum_update d last (zlen last); Ok (chksum_final d')) = Ok hash /\
    chksum_finup d last (zlen last) = Ok hash /\
    chksum_digest tfm' (concat chunks ++ last) (zlen (concat chunks ++ last)) = Ok hash).
Proof.
  intros Hk Hch Hlast. unfold chksum_setkey. split; intros Hlen.
  - destruct (Z.eqb_spec (zlen k) 4); [lia|]. eexists. reflexivity.
  - rewrite Hlen. change (negb (4 =? 4)) with false. cbv iota.
    destruct (block_words get_le32 put_le32 1 k Hk) as (ws & Hw & H32 & ->); [unfold zlen in Hlen; lia|].
    destruct ws as [|v [|]]; cbn in Hw; try lia. apply Forall_cons_1 in H32 as [Hv _].
    pose proof (get_put_words get_le32 put_le32 [v] 0 v eq_refl Hv) as Eg. change (Z.of_nat 0) with 0 in Eg. rewrite Eg, bind_ok.
    destruct (updates_ok chunks v Hv Hch) as [E Hc]. eexists _, _. split; [reflexivity|]. cbn [key]. split; [reflexivity|].
    split; [exact E|]. unfold chksum_finup, chksum_update, chksum_final, chksum_digest, __chksum_finup. cbn [crc key].
    rewrite !crc32c_ok; [|done|apply Forall_app; split; [now apply Forall_concat|done]|done|done]. run_binds. cbn [crc].
    unfold crc32c_of. rewrite foldl_app. done.
Qed.

Lemma crc_tables_facts :
  ((forall c c7 c32 l,
    is_w 16 c -> is_w 7 c7 -> is_u32 c32 -> Forall is_u8 l ->
    crc16 c l (zlen l) = Ok (foldl (rbyte (reflect 16 0x8005)) c l) /\
    crc_ccitt c l (zlen l) = Ok (foldl (rbyte (reflect 16 0x1021)) c l) /\
    crc_itu_t c l (zlen l) = Ok (foldl (fbyte 16 0x1021) c l) /\
    crc_t10dif l (zlen l) = Ok (foldl (fbyte 16 0x8BB7) 0 l) /\
    crc7 c7 l (zlen l) = Ok (Z.shiftr (foldl (fbyte 8 crc7_poly) (Z.shiftl c7 1) l) 1) /\
    crc32c c32 l (zlen l) = Ok (foldl (rbyte (reflect 32 0x1EDC6F41)) c32 l)) /\
   (forall c c7 c32 pre b b' post,
    is_w 16 c -> is_w 7 c7 -> is_u32 c32 -> Forall is_u8 pre -> Forall is_u8 post ->
    is_u8 b -> is_u8 b' -> b <> b' ->
    let n := zlen (pre ++ b :: post) in
    (crc16 c (pre ++ b :: post) n <> crc16 c (pre ++ b' :: post) n /\
     crc_ccitt c (pre ++ b :: post) n <> crc_ccitt c (pre ++ b' :: post) n /\
     crc_itu_t c (pre ++ b :: post) n <> crc_itu_t c (pre ++ b' :: post) n /\
     crc_t10dif (pre ++ b :: post) n <> crc_t10dif (pre ++ b' :: post) n /\
     crc32c c32 (pre ++ b :: post) n <> crc32c c32 (pre ++ b' :: post) n /\
     (crc7 c7 (pre ++ b :: post) n = crc7 c7 (pre ++ b' :: post) n <-> Z.lxor b b' = crc7_generator)) /\
    (forall v, crc16 c pre (zlen pre) = Ok v -> crc16 c (pre ++ [Z.land v 255; Z.shiftr v 8]) (zlen pre + 2) = Ok 0) /\
    (forall v, crc_ccitt c pre (zlen pre) = Ok v -> crc_ccitt c (pre ++ [Z.land v 255; Z.shiftr v 8]) (zlen pre + 2) = Ok 0) /\
    (forall v, crc_itu_t c pre (zlen pre) = Ok v -> crc_itu_t c (pre ++ [Z.shiftr v 8; Z.land v 255]) (zlen pre + 2) = Ok 0) /\
    (forall v, crc_t10dif pre (zlen pre) = Ok v -> crc_t10dif (pre ++ [Z.shiftr v 8; Z.land v 255]) (zlen pre + 2) = Ok 0) /\
    (forall v, crc32c c32 pre (zlen pre) = Ok v -> crc32c c32 (pre ++ put_le32 v) (zlen pre + 4) = Ok 0))) /\
  (forall tfm k chunks last,
   Forall is_u8 k -> Forall (Forall is_u8) chunks -> Forall is_u8 last ->
   (zlen k <> 4 -> exists fl, chksum_setkey tfm k (zlen k) = Ok (- EINVAL, Shash (key tfm) fl)) /\
   (zlen k = 4 -> exists tfm' d, chksum_setkey tfm k (zlen k) = Ok (0, tfm') /\ put_le32 (key tfm') = k /\
     let hash := put_le32 (lnot32 (crc32c_of (key tfm') (concat chunks ++ last))) in
     updates (chksum_init tfm') chunks = Ok d /\
     (d' ← chksum_update d last (zlen last); Ok (chksum_final d')) = Ok hash /\
     chksum_finup d last (zlen last) = Ok hash /\
     chksum_digest tfm' (concat chunks ++ last) (zlen (concat chunks ++ last)) = Ok hash)).
Proof. split; [split; [exact crc_tables_fact|exact crc_detects_corruption_fact]|]. exact crc32c_hash_fact. Qed.
