(* ===== verification/CryptoBytes.v ===== *)
(** crypto/algapi.c: [crypto_xor] and [crypto_inc], the byte-string operations
    the block modes share.  Both walk a buffer in 32-bit words and finish with
    bytes; the theorems relate them to the byte-wise exclusive or and to the
    increment of a big-endian number. *)
From S2P Require Import Prelude.
From S2P Require Import Ring.
From S2P Require Import Blocks.
From S2P Require Import Cipher.

(** [off] is how far [a] and [b] have been moved. *)
Definition crypto_xor_byte (a b : list Z) (off size : Z) : res (list Z) :=
  loop (S (Z.to_nat size)) (fun '(a, off, size) =>
    if size =? 0 then Ok (inr a) else
    x ← rd a off;
    y ← rd b off;
    a ← wr a off (Z.lxor x y);
    Ok (inl (a, off + 1, size - 1))) (a, off, size).

Definition crypto_xor (dst src : list Z) (size : Z) : res (list Z) :=
  '(dst, i, size) ← loop (S (Z.to_nat (size / 4))) (fun '(dst, i, size) =>
    if 4 <=? size then
      x ← get_le32 dst i;
      y ← get_le32 src i;
      dst ← memcpy dst (4 * i) (put_le32 (Z.lxor x y)) 0 4;
      Ok (inl (dst, i + 1, size - 4))
    else Ok (inr (dst, i, size))) (dst, 0, size);
  crypto_xor_byte dst src (4 * i) size.

Definition crypto_inc_byte (a : list Z) (size : Z) : res (list Z) :=
  loop (S (Z.to_nat size)) (fun '(a, b, size) =>
    if size =? 0 then Ok (inr a) else
    let b := b - 1 in
    x ← rd a b;
    let c := u8 (x + 1) in
    a ← wr a b c;
    if negb (c =? 0) then Ok (inr a) else Ok (inl (a, b, size - 1))) (a, size, size).

(** The word loop returns early with [None], or leaves [Some size]. *)
Definition crypto_inc (a : list Z) (size : Z) : res (list Z) :=
  '(a, left_) ← loop (S (Z.to_nat (size / 4))) (fun '(a, b, size) =>
    if 4 <=? size then
      let b := b - 4 in
      w ← slice a b 4;
      x ← get_be32 w 0;
      let c := u32 (x + 1) in
      a ← memcpy a b (put_be32 c) 0 4;
      if negb (c =? 0) then Ok (inr (a, None)) else Ok (inl (a, b, size - 4))
    else Ok (inr (a, Some size))) (a, size, size);
  match left_ with None => Ok a | Some size => crypto_inc_byte a size end.

(** * Byte-string lemmas *)

(** The last [n] bytes of a longer string. *)
Lemma split_last (n : Z) (l : list Z) : 0 <= n <= zlen l -> exists p m, l = p ++ m /\ zlen m = n /\ zlen p = zlen l - n.
Proof.
  intros Hn. exists (take (Z.to_nat (zlen l - n)) l), (drop (Z.to_nat (zlen l - n)) l). rewrite take_drop.
  rewrite zlen_take, zlen_drop by lia. repeat split; lia.
Qed.

(** Four bytes are one word. *)
Lemma four_bytes get put `{!WordOrder get put} m : Forall is_u8 m -> zlen m = 4 -> exists x, is_u32 x /\ m = put x.
Proof.
  intros Hm Hl. unfold zlen in Hl. destruct m as [|b0 [|b1 [|b2 [|b3 [|]]]]]; cbn [length] in Hl; try lia.
  destruct (put_get b0 b1 b2 b3 Hm) as (x & Hx & <-). eauto.
Qed.

(** * Exclusive or *)

Definition xor_bytes (a b : list Z) : list Z := zip_with Z.lxor a b.

Lemma u8_lxor x y : u8 (Z.lxor x y) = Z.lxor (u8 x) (u8 y).
Proof.
  unfold u8. apply Z.bits_inj'. intros i Hi. rewrite Z.lxor_spec, !testbit_mod2, Z.lxor_spec by lia. destruct (i <? 8); done.
Qed.

Lemma put_le32_xor x y : put_le32 (Z.lxor x y) = xor_bytes (put_le32 x) (put_le32 y).
Proof.
  unfold put_le32, xor_bytes. cbn [zip_with]. rewrite <- !Z.shiftr_div_pow2 by lia. rewrite !Z.shiftr_lxor, !u8_lxor. done.
Qed.

Lemma xor_app a1 a2 b1 b2 : zlen a1 = zlen b1 -> xor_bytes (a1 ++ a2) (b1 ++ b2) = xor_bytes a1 b1 ++ xor_bytes a2 b2.
Proof. intros Hl. apply zip_with_app. unfold zlen in Hl. lia. Qed.

Lemma crypto_xor_byte_ok p q a b off size : zlen p = off -> zlen q = off -> zlen a = size -> zlen b = size ->
  crypto_xor_byte (p ++ a) (q ++ b) off size = Ok (p ++ xor_bytes a b).
Proof.
  unfold crypto_xor_byte. revert p q b off size. induction a as [|x a IH]; intros p q b off size Hp Hq Ha Hb.
  - subst size. unfold zlen in Hb. destruct b; [|cbn in Hb; lia]. done.
  - destruct b as [|y b]; [unfold zlen in *; cbn in *; lia|]. assert (Hs : size = zlen a + 1) by (unfold zlen in *; cbn in *; lia).
    pose proof (zlen_nonneg a). replace (Z.to_nat size) with (S (Z.to_nat (size - 1))) by lia. cbn [loop].
    destruct (Z.eqb_spec size 0); [lia|]. rewrite <- Hp at 1. rewrite rd_mid, bind_ok. rewrite <- Hq at 1. rewrite rd_mid, bind_ok.
    rewrite <- Hp at 1. rewrite wr_mid, bind_ok.
    specialize (IH (p ++ [Z.lxor x y]) (q ++ [y]) b (off + 1) (size - 1)).
    rewrite <- !app_assoc in IH. cbn [app] in IH. cbn [loop] in IH. rewrite IH; [done|rewrite ?zlen_app; unfold zlen in *; cbn in *; lia..].
Qed.

Lemma crypto_xor_words p q a b i size : zlen p = 4 * i -> zlen q = 4 * i -> zlen a = size -> zlen b = size ->
  Forall is_u8 a -> Forall is_u8 b -> forall fuel, (Z.to_nat (size / 4) < fuel)%nat ->
  ('(dst, i, size) ← loop fuel (fun '(dst, i, size) =>
    if 4 <=? size then
      x ← get_le32 dst i;
      y ← get_le32 (q ++ b) i;
      dst ← memcpy dst (4 * i) (put_le32 (Z.lxor x y)) 0 4;
      Ok (inl (dst, i + 1, size - 4))
    else Ok (inr (dst, i, size))) (p ++ a, i, size);
  crypto_xor_byte dst (q ++ b) (4 * i) size) = Ok (p ++ xor_bytes a b).
Proof.
  intros Hp Hq Ha Hb Ha8 Hb8 fuel. revert p q a b i size Hp Hq Ha Hb Ha8 Hb8.
  induction fuel as [|fuel IH]; intros p q a b i size Hp Hq Ha Hb Ha8 Hb8 Hf; [lia|]. cbn [loop].
  destruct (Z.leb_spec 4 size) as [H4|H4]; [|run_binds; now apply crypto_xor_byte_ok].
  assert (exists x a', a = put_le32 x ++ a' /\ is_u32 x) as (x & a' & -> & Hx).
  { rewrite <- (take_drop (Z.to_nat 4) a) in Ha8 |- *. apply Forall_app in Ha8 as [Ha8 _].
    destruct (four_bytes get_le32 put_le32 _ Ha8) as (x & Hx & ->); [rewrite zlen_take; lia|]. eauto. }
  assert (exists y b', b = put_le32 y ++ b' /\ is_u32 y) as (y & b' & -> & Hy).
  { rewrite <- (take_drop (Z.to_nat 4) b) in Hb8 |- *. apply Forall_app in Hb8 as [Hb8 _].
    destruct (four_bytes get_le32 put_le32 _ Hb8) as (y & Hy & ->); [rewrite zlen_take; lia|]. eauto. }
  rewrite zlen_app in Ha, Hb. change (zlen (put_le32 ?z)) with 4 in Ha, Hb.
  apply Forall_app in Ha8 as [_ Ha8]. apply Forall_app in Hb8 as [Hy8 Hb8].
  rewrite (get_put (put := put_le32)) by done. run_binds. rewrite (get_put (put := put_le32)) by done. run_binds.
  rewrite <- Hp, (memcpy_app p (put_le32 x)) by done. run_binds.
  specialize (IH (p ++ put_le32 (Z.lxor x y)) (q ++ put_le32 y) a' b' (i + 1) (size - 4)).
  rewrite <- !app_assoc in IH. rewrite IH; [|rewrite zlen_app; change (zlen (put_le32 _)) with 4; lia..|lia|lia|done|done|].
  - rewrite xor_app by done. now rewrite put_le32_xor.
  - replace size with (size - 4 + 1 * 4) in Hf by lia. rewrite Z.div_add in Hf by lia.
    pose proof (Z.div_pos (size - 4) 4). lia.
Qed.

Lemma crypto_xor_ok dst src size : zlen dst = size -> zlen src = size -> Forall is_u8 dst -> Forall is_u8 src ->
  crypto_xor dst src size = Ok (xor_bytes dst src).
Proof. intros Hd Hs Hd8 Hs8. apply (crypto_xor_words [] [] dst src 0 size); done || lia. Qed.

Lemma xor_u8 a b : Forall is_u8 a -> Forall is_u8 b -> Forall is_u8 (xor_bytes a b).
Proof.
  intros Ha. revert b. unfold xor_bytes. induction Ha as [|x a Hx _ IH]; intros b Hb; [constructor|].
  destruct Hb as [|y b Hy Hb]; [constructor|]. cbn. constructor; [|auto].
  apply (lxor_range x y 8); [lia|exact Hx|exact Hy].
Qed.

Lemma xor_len a b : zlen a = zlen b -> zlen (xor_bytes a b) = zlen a.
Proof. unfold zlen, xor_bytes. rewrite length_zip_with. lia. Qed.

Lemma xor_xor a b : zlen a = zlen b -> xor_bytes (xor_bytes a b) b = a.
Proof.
  unfold zlen, xor_bytes. revert b. induction a as [|x a IH]; intros [|y b] Hl; cbn in *; try done || lia.
  rewrite lxor_cancel. f_equal. apply IH. lia.
Qed.

Lemma xor_comm a b : xor_bytes a b = xor_bytes b a.
Proof. unfold xor_bytes. revert b. induction a as [|x a IH]; intros [|y b]; cbn; try done. rewrite Z.lxor_comm. f_equal. apply IH. Qed.

(** * Increment *)

(** The number a byte string writes in base 256, first byte first. *)
Definition be_val (l : list Z) : Z := foldl (fun v b => 256 * v + b) 0 l.

Lemma be_val_from v l : foldl (fun v b => 256 * v + b) v l = v * 256 ^ zlen l + be_val l.
Proof.
  unfold be_val. revert v. induction l as [|b l IH]; intros v; cbn [foldl]; [change (zlen []) with 0; lia|].
  rewrite IH, (IH (256 * 0 + b)). unfold zlen. cbn [length].
  replace (Z.of_nat (S (length l))) with (Z.of_nat (length l) + 1) by lia. rewrite Z.pow_add_r by lia. lia.
Qed.

Lemma be_val_app a b : be_val (a ++ b) = be_val a * 256 ^ zlen b + be_val b.
Proof. unfold be_val at 1. rewrite foldl_app. apply be_val_from. Qed.

Lemma be_val_put x : is_u32 x -> be_val (put_be32 x) = x.
Proof. intros Hx. rewrite <- (word_of_bytes x Hx) at 2. unfold be_val, put_be32. cbn [foldl]. lia. Qed.

Lemma be_val_range l : Forall is_u8 l -> 0 <= be_val l < 256 ^ zlen l.
Proof.
  induction l as [|b l IH] using rev_ind; intros H; [unfold be_val, zlen; cbn; lia|].
  apply Forall_app in H as [Hl Hb]. apply Forall_cons_1 in Hb as [Hb _]. specialize (IH Hl).
  rewrite be_val_app, zlen_app. change (zlen [b]) with 1. rewrite Z.pow_add_r by (apply zlen_nonneg || lia).
  change (be_val [b]) with b. unfold is_u8 in Hb. change (256 ^ 1) with 256. lia.
Qed.

(** A carry into the bytes [p] above a digit [d] of base [m]. *)
Lemma inc_no_carry v d m k : 0 <= v < k -> 0 <= d -> d + 1 < m -> (v * m + d + 1) mod (k * m) = v * m + (d + 1).
Proof. intros. rewrite Z.mod_small by nia. lia. Qed.

Lemma inc_carry v m k : 0 <= v < k -> 0 < m -> (v * m + (m - 1) + 1) mod (k * m) = (v + 1) mod k * m + 0.
Proof. intros. replace (v * m + (m - 1) + 1) with ((v + 1) * m) by lia. rewrite Z.mul_mod_distr_r by lia. lia. Qed.

(** Incrementing the big-endian number [p], whatever follows it. *)
Definition incremented (p p' : list Z) : Prop :=
  zlen p' = zlen p /\ Forall is_u8 p' /\ be_val p' = (be_val p + 1) mod 256 ^ zlen p.

Lemma incremented_low p d d' : Forall is_u8 p -> Forall is_u8 d' -> zlen d' = zlen d -> 0 <= be_val d ->
  be_val d' = be_val d + 1 -> be_val d + 1 < 256 ^ zlen d -> incremented (p ++ d) (p ++ d').
Proof.
  intros Hp Hd Hl H0 E1 Hlt. pose proof (be_val_range p Hp) as Hv. split; [|split].
  - rewrite !zlen_app. lia.
  - now apply Forall_app.
  - rewrite !be_val_app, zlen_app, Z.pow_add_r by apply zlen_nonneg. rewrite Hl, E1. symmetry. now apply inc_no_carry.
Qed.

Lemma incremented_carry p p' d d' : Forall is_u8 p -> Forall is_u8 d' -> zlen d' = zlen d -> be_val d = 256 ^ zlen d - 1 ->
  be_val d' = 0 -> incremented p p' -> incremented (p ++ d) (p' ++ d').
Proof.
  intros Hp Hd Hl E1 E2 (L & H8 & E). pose proof (be_val_range p Hp) as Hv. split; [|split].
  - rewrite !zlen_app. lia.
  - now apply Forall_app.
  - rewrite !be_val_app, zlen_app, Z.pow_add_r by apply zlen_nonneg. rewrite Hl, E1, E2, E. symmetry.
    apply inc_carry; [done|]. apply Z.pow_pos_nonneg; [lia|apply zlen_nonneg].
Qed.

Lemma crypto_inc_byte_ok p : Forall is_u8 p -> forall suf, exists p',
  crypto_inc_byte (p ++ suf) (zlen p) = Ok (p' ++ suf) /\ incremented p p'.
Proof.
  unfold crypto_inc_byte. induction p as [|x p IH] using rev_ind; intros H8 suf.
  { exists []. split; [done|]. repeat split. constructor. }
  apply Forall_app in H8 as [Hp Hx]. apply Forall_cons_1 in Hx as [Hx _]. pose proof (zlen_nonneg p) as H0.
  rewrite zlen_app. change (zlen [x]) with 1. replace (Z.to_nat (zlen p + 1)) with (S (Z.to_nat (zlen p))) by lia.
  remember (S (Z.to_nat (zlen p))) as fuel eqn:Ef. cbn [loop]. destruct (Z.eqb_spec (zlen p + 1) 0); [lia|]. cbv zeta.
  replace (zlen p + 1 - 1) with (zlen p) by lia. rewrite <- app_assoc. cbn [app]. rewrite rd_mid, bind_ok, wr_mid, bind_ok.
  destruct (Z.eqb_spec (u8 (x + 1)) 0) as [E|E]; cbn [negb].
  - specialize (IH Hp (u8 (x + 1) :: suf)) as (p' & E1 & Hinc). subst fuel. rewrite E1. exists (p' ++ [u8 (x + 1)]).
    split; [now rewrite <- app_assoc|]. apply incremented_carry; try done; [apply Forall_singleton, u8_range|].
    change (be_val [x]) with x. change (zlen [x]) with 1. unfold u8, is_u8 in *.
    destruct (Z.eq_dec x 255); [lia|]. rewrite Z.mod_small in E; lia.
  - exists (p ++ [u8 (x + 1)]). split; [now rewrite <- app_assoc|]. unfold u8, is_u8 in *.
    assert (x <> 255) by (intros ->; done). rewrite Z.mod_small by lia.
    apply incremented_low; try done; [apply Forall_singleton; unfold is_u8; lia|change (be_val [x]) with x; change (zlen [x]) with 1; lia..].
Qed.

Lemma crypto_inc_words n : forall p suf, Forall is_u8 p -> (Z.to_nat (zlen p / 4) < n)%nat -> exists p',
  ('(a, left_) ← loop n (fun '(a, b, size) =>
    if 4 <=? size then
      let b := b - 4 in
      w ← slice a b 4;
      x ← get_be32 w 0;
      let c := u32 (x + 1) in
      a ← memcpy a b (put_be32 c) 0 4;
      if negb (c =? 0) then Ok (inr (a, None)) else Ok (inl (a, b, size - 4))
    else Ok (inr (a, Some size))) (p ++ suf, zlen p, zlen p);
  match left_ with None => Ok a | Some size => crypto_inc_byte a size end) = Ok (p' ++ suf) /\ incremented p p'.
Proof.
  induction n as [|n IH]; intros p suf H8 Hn; [lia|]. cbn [loop].
  destruct (Z.leb_spec 4 (zlen p)) as [H4|H4]; [|run_binds; now apply crypto_inc_byte_ok].
  destruct (split_last 4 p ltac:(lia)) as (q & m & -> & Hm & Hq). apply Forall_app in H8 as [Hq8 Hm8].
  destruct (four_bytes get_be32 put_be32 m Hm8 Hm) as (x & Hx & ->). cbv zeta. rewrite zlen_app, Hm in Hn |- *.
  replace (zlen q + 4 - 4) with (zlen q) by lia. rewrite <- !app_assoc, slice_app by done. run_binds.
  pose proof (get_put (put := put_be32) [] x [] 0 eq_refl Hx) as Eg. rewrite app_nil_r in Eg. cbn [app] in Eg. rewrite Eg. run_binds.
  rewrite (memcpy_app q (put_be32 x)) by done. run_binds.
  assert (Hpow : 256 ^ zlen (put_be32 x) = 2 ^ 32) by reflexivity.
  destruct (Z.eqb_spec (u32 (x + 1)) 0) as [E|E]; cbn [negb]; run_binds.
  - specialize (IH q (put_be32 (u32 (x + 1)) ++ suf) Hq8) as (q' & E1 & Hinc).
    { replace (zlen q + 4) with (zlen q + 1 * 4) in Hn by lia. rewrite Z.div_add in Hn by lia.
      pose proof (Z.div_pos (zlen q) 4 (zlen_nonneg q)). lia. }
    cbv zeta in E1. rewrite E1. exists (q' ++ put_be32 (u32 (x + 1))). split; [now rewrite <- app_assoc|].
    apply incremented_carry; try done; [apply put_be32_u8| |rewrite E; done]. rewrite Hpow, be_val_put by done. unfold u32, is_u32 in *.
    destruct (Z.eq_dec x (2 ^ 32 - 1)); [lia|]. rewrite Z.mod_small in E; lia.
  - exists (q ++ put_be32 (u32 (x + 1))). split; [now rewrite <- app_assoc|].
    assert (x <> 2 ^ 32 - 1) by (intros ->; done). rewrite u32_id by (unfold is_u32 in *; lia).
    apply incremented_low; try done; [apply put_be32_u8|rewrite ?Hpow, ?be_val_put; unfold is_u32 in *; lia..].
Qed.

(** [crypto_xor] computes the byte-wise exclusive or of two buffers of any
    length, staying in bounds, and is undone by itself; [crypto_inc] adds one,
    modulo 256 to the length, to the big-endian number in the buffer, whatever
    follows it in memory. *)
Lemma crypto_bytes_facts dst src a suf :
  zlen dst = zlen src -> Forall is_u8 dst -> Forall is_u8 src -> Forall is_u8 a ->
  crypto_xor dst src (zlen dst) = Ok (xor_bytes dst src) /\
  crypto_xor (xor_bytes dst src) src (zlen dst) = Ok dst /\
  exists a', crypto_inc (a ++ suf) (zlen a) = Ok (a' ++ suf) /\ zlen a' = zlen a /\ Forall is_u8 a' /\
    be_val a' = (be_val a + 1) mod 256 ^ zlen a.
Proof.
  intros Hl Hd Hs Ha. split; [|split].
  - now apply crypto_xor_ok.
  - rewrite crypto_xor_ok; [now rewrite xor_xor|now apply xor_len|done|now apply xor_u8|done].
  - apply crypto_inc_words; [done|lia].
Qed.
