(* ===== verification/Crc32.v ===== *)
(** lib/crc32.c and lib/gen_crc32table.c: the Ethernet CRC-32 in both bit
    orders.  The table generator, the bit-serial variant (CRC_xx_BITS = 1) and
    the word-at-a-time variant that is built (CRC_xx_BITS = 8, little-endian
    machine) are translated, and the last is shown to equal the second. *)
From S2P Require Import Prelude.
From S2P Require Import Ring.
From S2P Require Import Blocks.
From S2P Require Import Cipher.
From S2P Require Import Crc.
From S2P Require Import CrcTables.

Definition CRCPOLY_LE : Z := 0xedb88320.
Definition CRCPOLY_BE : Z := 0x04c11db7.
Definition LE_TABLE_SIZE : Z := 256.
Definition BE_TABLE_SIZE : Z := 256.

(** * The generator *)

Definition crc32init_le : res (list Z) :=
  tab ← wr (replicate 256 0) 0 0;
  loop 9 (fun '(tab, crc, i) =>
    if i =? 0 then Ok (inr tab) else
    let crc := Z.lxor (shr32 crc 1) (if Z.land crc 1 =? 0 then 0 else CRCPOLY_LE) in
    tab ← loop 129 (fun '(tab, j) =>
      if j <? LE_TABLE_SIZE then
        t ← rd tab j;
        tab ← wr tab (i + j) (Z.lxor crc t);
        Ok (inl (tab, j + 2 * i))
      else Ok (inr tab)) (tab, 0);
    Ok (inl (tab, crc, shr32 i 1))) (tab, 1, 128).

Definition crc32init_be : res (list Z) :=
  tab ← wr (replicate 256 0) 0 0;
  loop 9 (fun '(tab, crc, i) =>
    if i <? BE_TABLE_SIZE then
      let crc := Z.lxor (shl32 crc 1) (if Z.land crc 0x80000000 =? 0 then 0 else CRCPOLY_BE) in
      tab ← loop 129 (fun '(tab, j) =>
        if j <? i then
          t ← rd tab j;
          tab ← wr tab (i + j) (Z.lxor crc t);
          Ok (inl (tab, j + 1))
        else Ok (inr tab)) (tab, 0);
      Ok (inl (tab, crc, shl32 i 1))
    else Ok (inr tab)) (tab, 0x80000000, 1).

Definition swab32 (x : Z) : Z :=
  Z.lor (Z.lor (Z.lor (shl32 (Z.land x 0x000000ff) 24) (shl32 (Z.land x 0x0000ff00) 8)) (shr32 (Z.land x 0x00ff0000) 8))
    (shr32 (Z.land x 0xff000000) 24).

(** The generated tables: the entries are printed inside tole() and tobe(). *)
Definition crc32table_le : list Z := match crc32init_le with Ok t => t | Err _ => [] end.
Definition crc32table_be : list Z := match crc32init_be with Ok t => swab32 <$> t | Err _ => [] end.

(** * The routines *)

(** CRC_LE_BITS = 1 and CRC_BE_BITS = 1. *)
Definition crc32_le_bits : Z -> list Z -> Z -> res Z := byte_loop (fun crc b =>
  Ok (Nat.iter 8 (fun crc => Z.lxor (shr32 crc 1) (if Z.land crc 1 =? 0 then 0 else CRCPOLY_LE)) (Z.lxor crc b))).
Definition crc32_be_bits : Z -> list Z -> Z -> res Z := byte_loop (fun crc b =>
  Ok (Nat.iter 8 (fun crc => Z.lxor (shl32 crc 1) (if Z.land crc 0x80000000 =? 0 then 0 else CRCPOLY_BE))
    (Z.lxor crc (shl32 b 24)))).

Definition DO_CRC (tab : list Z) (crc x : Z) : res Z :=
  t ← rd tab (Z.land (Z.lxor crc x) 255);
  Ok (Z.lxor t (shr32 crc 8)).

(** The word at byte [off] of a buffer at address [addr]. *)
Definition load32 (addr : Z) (p : list Z) (off : Z) : res Z :=
  if Z.land (addr + off) 3 =? 0 then w ← slice p off 4; get_le32 w 0 else Err Unaligned.

(** The body of [crc32_le] and [crc32_be], which differ in the table and in
    the byte order of the register; [addr] is the address of the buffer.
    First the bytes up to a word boundary, *)
Definition crc32_align (tab : list Z) (addr : Z) (p : list Z) (crc len : Z) : res (Z * Z * Z) :=
  if negb (Z.land addr 3 =? 0) && negb (len =? 0) then
    loop (S (Z.to_nat len)) (fun '(crc, off, len) =>
      x ← rd p off;
      crc ← DO_CRC tab crc x;
      let off := off + 1 in
      let len := len - 1 in
      if negb (len =? 0) && negb (Z.land (addr + off) 3 =? 0) then Ok (inl (crc, off, len)) else Ok (inr (crc, off, len)))
      (crc, 0, len)
  else Ok (crc, 0, len).

(** then whole words, *)
Definition crc32_words (tab : list Z) (addr : Z) (p : list Z) (crc off len : Z) : res (Z * Z * Z) :=
  if 4 <=? len then
    let save_len := Z.land len 3 in
    let len := Z.shiftr len 2 in
    '(crc, off) ← loop (S (Z.to_nat len)) (fun '(crc, off, len) =>
      x ← load32 addr p off;
      let crc := Z.lxor crc x in
      crc ← DO_CRC tab crc 0;
      crc ← DO_CRC tab crc 0;
      crc ← DO_CRC tab crc 0;
      crc ← DO_CRC tab crc 0;
      let off := off + 4 in
      let len := len - 1 in
      if negb (len =? 0) then Ok (inl (crc, off, len)) else Ok (inr (crc, off))) (crc, off, len);
    Ok (crc, off, save_len)
  else Ok (crc, off, len).

(** and the last few bytes. *)
Definition crc32_tail (tab : list Z) (p : list Z) (crc off len : Z) : res Z :=
  if negb (len =? 0) then
    loop (S (Z.to_nat len)) (fun '(crc, off, len) =>
      x ← rd p off;
      crc ← DO_CRC tab crc x;
      let len := len - 1 in
      if negb (len =? 0) then Ok (inl (crc, off + 1, len)) else Ok (inr crc)) (crc, off, len)
  else Ok crc.

Definition crc32_body (tab : list Z) (crc addr : Z) (p : list Z) (len : Z) : res Z :=
  '(crc, off, len) ← crc32_align tab addr p crc len;
  '(crc, off, len) ← crc32_words tab addr p crc off len;
  crc32_tail tab p crc off len.

Definition crc32_le (crc addr : Z) (p : list Z) (len : Z) : res Z := crc32_body crc32table_le crc addr p len.

Definition crc32_be (crc addr : Z) (p : list Z) (len : Z) : res Z :=
  crc ← crc32_body crc32table_be (swab32 crc) addr p len;
  Ok (swab32 crc).

(** * The tables *)

Lemma crc32table_le_ok : crc32init_le = Ok crc32table_le /\ crc32table_le = table_of (Nat.iter 8 (rstep CRCPOLY_LE)).
Proof. split; vm_compute; reflexivity. Qed.

Lemma crc32table_be_ok : crc32init_be = Ok (table_of (fun i => Nat.iter 8 (fstep 32 CRCPOLY_BE) (Z.shiftl i 24))) /\
  crc32table_be = table_of (fun i => swab32 (Nat.iter 8 (fstep 32 CRCPOLY_BE) (Z.shiftl i 24))).
Proof. split; vm_compute; reflexivity. Qed.

(** * The body processes the buffer byte by byte *)

Section body.
Context (tab : list Z) (T : Z -> Z) (Htab : forall i, 0 <= i < 256 -> rd tab i = Ok (T i)) (addr : Z).

Definition tstep (c x : Z) : Z := Z.lxor (T (Z.land (Z.lxor c x) 255)) (Z.shiftr c 8).

Lemma DO_CRC_ok c x : DO_CRC tab c x = Ok (tstep c x).
Proof using Htab. unfold DO_CRC. rewrite Htab by apply land_ff. now rewrite bind_ok. Qed.

Lemma byte_and_rest x y : is_u8 x -> x + 2 ^ 8 * y = Z.lxor x (Z.shiftl y 8).
Proof.
  intros Hx. rewrite Z.mul_comm, <- Z.shiftl_mul_pow2 by lia. apply Z.add_nocarry_lxor. apply Z.bits_inj'. intros i Hi.
  rewrite Z.land_spec, Z.bits_0, Z.shiftl_spec by lia. destruct (Z.lt_ge_cases i 8).
  - rewrite (Z.testbit_neg_r y) by lia. apply andb_false_r.
  - now rewrite (testbit_high x 8) by (exact Hx || lia).
Qed.

(** A wider word xored in keeps its upper part for the next steps. *)
Lemma tstep_word c x y : is_u8 x -> tstep (Z.lxor c (x + 2 ^ 8 * y)) 0 = Z.lxor (tstep c x) y.
Proof.
  intros Hx. unfold tstep. rewrite byte_and_rest, Z.lxor_0_r, !Z.shiftr_lxor, (shiftr_byte x Hx), Z.lxor_0_l by done.
  rewrite Z.shiftr_shiftl_l, Z.sub_diag, Z.shiftl_0_r, <- Z.lxor_assoc by lia. do 3 f_equal.
  rewrite <- Z.lxor_assoc, (land_255 (Z.lxor _ (Z.shiftl y 8))), land_255, mod_lxor by lia.
  replace (Z.shiftl y 8 mod 2 ^ 8) with 0; [apply Z.lxor_0_r|]. rewrite Z.shiftl_mul_pow2 by lia. now rewrite Z.mod_mul by lia.
Qed.

Lemma four_steps c b0 b1 b2 b3 : is_u8 b0 -> is_u8 b1 -> is_u8 b2 -> is_u8 b3 ->
  tstep (tstep (tstep (tstep (Z.lxor c (b0 + b1 * 2 ^ 8 + b2 * 2 ^ 16 + b3 * 2 ^ 24)) 0) 0) 0) 0 = foldl tstep c [b0; b1; b2; b3].
Proof.
  intros H0 H1 H2 H3.
  replace (b0 + b1 * 2 ^ 8 + b2 * 2 ^ 16 + b3 * 2 ^ 24) with (b0 + 2 ^ 8 * (b1 + 2 ^ 8 * (b2 + 2 ^ 8 * (b3 + 2 ^ 8 * 0)))) by lia.
  rewrite !tstep_word by done. apply Z.lxor_0_r.
Qed.

Lemma align_loop r : forall d c fuel, r <> [] -> (length r < fuel)%nat -> Forall is_u8 r -> exists d' r',
  r = d' ++ r' /\ (r' = [] \/ Z.land (addr + zlen (d ++ d')) 3 = 0) /\
  loop fuel (fun '(crc, off, len) =>
        x ← rd (d ++ r) off;
        crc ← DO_CRC tab crc x;
        let off := off + 1 in
        let len := len - 1 in
        if negb (len =? 0) && negb (Z.land (addr + off) 3 =? 0) then Ok (inl (crc, off, len)) else Ok (inr (crc, off, len)))
        (c, zlen d, zlen r) = Ok (foldl tstep c d', zlen (d ++ d'), zlen r').
Proof using Htab.
  induction r as [|x r IH]; intros d c fuel Hne Hf H8; [done|]. destruct fuel as [|fuel]; [lia|]. cbn [length] in Hf.
  apply Forall_cons_1 in H8 as [Hx H8]. cbn [loop]. rewrite rd_mid, bind_ok, DO_CRC_ok, bind_ok. cbv zeta.
  assert (E1 : zlen (x :: r) - 1 = zlen r) by (unfold zlen; cbn [length]; lia). rewrite E1.
  assert (E2 : zlen d + 1 = zlen (d ++ [x])) by (rewrite zlen_app; reflexivity). rewrite E2.
  destruct (Z.eqb_spec (zlen r) 0) as [E0|E0]; cbn [negb andb].
  { exists [x], []. unfold zlen in E0. destruct r; [|cbn in E0; lia]. split; [done|]. split; [now left|done]. }
  destruct (Z.eqb_spec (Z.land (addr + zlen (d ++ [x])) 3) 0) as [Ea|Ea]; cbn [negb].
  { exists [x], r. split; [done|]. split; [now right|done]. }
  destruct (IH (d ++ [x]) (tstep c x) fuel) as (d' & r' & E & Hor & Hl); [intros ->; done|lia|done|].
  exists (x :: d'), r'. rewrite <- !app_assoc in Hor, Hl. cbn [app] in Hor, Hl. split; [now rewrite E|]. split; [exact Hor|].
  rewrite Hl, <- app_assoc. done.
Qed.

Lemma load32_ok d b0 b1 b2 b3 r : Z.land (addr + zlen d) 3 = 0 ->
  load32 addr (d ++ [b0; b1; b2; b3] ++ r) (zlen d) = Ok (b0 + b1 * 2 ^ 8 + b2 * 2 ^ 16 + b3 * 2 ^ 24).
Proof. intros Ha. unfold load32. rewrite Ha. cbn [Z.eqb]. rewrite slice_app by done. reflexivity. Qed.

Lemma aligned_next a : Z.land a 3 = 0 -> Z.land (a + 4) 3 = 0.
Proof. change 3 with (2 ^ 2 - 1). rewrite !land_mask by lia. change (2 ^ 2) with 4. replace (a + 4) with (a + 1 * 4) by lia. now rewrite Z.mod_add by lia. Qed.

Lemma word_loop n : forall w d r c fuel, length w = (4 * S n)%nat -> (S n < fuel)%nat -> Forall is_u8 w ->
  Z.land (addr + zlen d) 3 = 0 ->
  loop fuel (fun '(crc, off, len) =>
        x ← load32 addr (d ++ w ++ r) off;
        let crc := Z.lxor crc x in
        crc ← DO_CRC tab crc 0;
        crc ← DO_CRC tab crc 0;
        crc ← DO_CRC tab crc 0;
        crc ← DO_CRC tab crc 0;
        let off := off + 4 in
        let len := len - 1 in
        if negb (len =? 0) then Ok (inl (crc, off, len)) else Ok (inr (crc, off))) (c, zlen d, Z.of_nat (S n)) =
  Ok (foldl tstep c w, zlen (d ++ w)).
Proof using Htab.
  induction n as [|n IH]; intros w d r c fuel Hw Hf H8 Ha; (destruct fuel as [|fuel]; [lia|]); cbn [loop];
    (destruct w as [|b0 [|b1 [|b2 [|b3 w]]]]; cbn [length] in Hw; try lia);
    apply Forall_cons_1 in H8 as [H0 H8]; apply Forall_cons_1 in H8 as [H1 H8];
    apply Forall_cons_1 in H8 as [H2 H8]; apply Forall_cons_1 in H8 as [H3 H8];
    change ((b0 :: b1 :: b2 :: b3 :: w) ++ r) with ([b0; b1; b2; b3] ++ w ++ r); rewrite load32_ok, bind_ok by done;
    cbv zeta; rewrite !DO_CRC_ok, !bind_ok, DO_CRC_ok, !bind_ok, DO_CRC_ok, !bind_ok, DO_CRC_ok, !bind_ok, four_steps by done;
    assert (E4 : zlen d + 4 = zlen (d ++ [b0; b1; b2; b3])) by (rewrite zlen_app; reflexivity); rewrite E4.
  - destruct w; [|cbn in Hw; lia]. done.
  - replace (Z.of_nat (S (S n)) - 1) with (Z.of_nat (S n)) by lia. destruct (Z.eqb_spec (Z.of_nat (S n)) 0); [lia|]. cbn [negb].
    specialize (IH w (d ++ [b0; b1; b2; b3]) r (foldl tstep c [b0; b1; b2; b3]) fuel).
    rewrite <- (app_assoc d [b0; b1; b2; b3] (w ++ r)) in IH. cbv zeta in IH. rewrite IH; [rewrite <- app_assoc; done|lia|lia|done|].
    rewrite <- E4, Z.add_assoc. now apply aligned_next.
Qed.

Lemma tail_loop r : forall d c fuel, r <> [] -> (length r < fuel)%nat ->
  loop fuel (fun '(crc, off, len) =>
      x ← rd (d ++ r) off;
      crc ← DO_CRC tab crc x;
      let len := len - 1 in
      if negb (len =? 0) then Ok (inl (crc, off + 1, len)) else Ok (inr crc)) (c, zlen d, zlen r) = Ok (foldl tstep c r).
Proof using Htab.
  induction r as [|x r IH]; intros d c fuel Hne Hf; [done|]. destruct fuel as [|fuel]; [lia|]. cbn [length] in Hf.
  cbn [loop]. rewrite rd_mid, bind_ok, DO_CRC_ok, bind_ok. cbv zeta.
  assert (E1 : zlen (x :: r) - 1 = zlen r) by (unfold zlen; cbn [length]; lia). rewrite E1.
  destruct (Z.eqb_spec (zlen r) 0) as [E0|E0]; cbn [negb].
  { unfold zlen in E0. destruct r; [done|cbn in E0; lia]. }
  specialize (IH (d ++ [x]) (tstep c x) fuel). rewrite <- app_assoc in IH. cbn [app] in IH.
  replace (zlen (d ++ [x])) with (zlen d + 1) in IH by (rewrite zlen_app; reflexivity). apply IH; [intros ->; done|lia].
Qed.

Lemma crc32_align_ok c p : Forall is_u8 p -> exists d r, p = d ++ r /\ (r = [] \/ Z.land (addr + zlen d) 3 = 0) /\
  crc32_align tab addr p c (zlen p) = Ok (foldl tstep c d, zlen d, zlen r).
Proof using Htab.
  intros H8. unfold crc32_align. destruct (Z.eqb_spec (Z.land addr 3) 0) as [Ea|Ea]; cbn [negb andb].
  { exists [], p. split; [done|]. split; [|done]. right. change (zlen []) with 0. now rewrite Z.add_0_r. }
  destruct (Z.eqb_spec (zlen p) 0) as [E0|E0]; cbn [negb].
  { exists [], p. split; [done|]. split; [|done]. left. unfold zlen in E0. destruct p; [done|cbn in E0; lia]. }
  destruct (align_loop p [] c (S (Z.to_nat (zlen p)))) as (d & r & E & Hor & Hl); [intros ->; done|unfold zlen; lia|done|].
  exists d, r. split; [done|]. split; [exact Hor|exact Hl].
Qed.

Lemma crc32_words_ok c d r : r = [] \/ Z.land (addr + zlen d) 3 = 0 -> Forall is_u8 r -> exists w t, r = w ++ t /\
  crc32_words tab addr (d ++ r) c (zlen d) (zlen r) = Ok (foldl tstep c w, zlen (d ++ w), zlen t).
Proof using Htab.
  intros Hal H8. unfold crc32_words. destruct (Z.leb_spec 4 (zlen r)) as [H4|H4]; [|exists [], r; rewrite app_nil_r; done].
  destruct Hal as [->|Hal]; [done|]. cbv zeta. set (n := Z.to_nat (zlen r / 4)).
  assert (Hn : Z.of_nat n = zlen r / 4) by (unfold n; rewrite Z2Nat.id; [done|apply Z.div_pos; lia]).
  pose proof (Z.div_mod (zlen r) 4 ltac:(lia)) as Hdm. pose proof (Z.mod_pos_bound (zlen r) 4 ltac:(lia)) as Hmod.
  assert (Hn0 : (0 < n)%nat) by (pose proof (Z.div_le_mono 4 (zlen r) 4 ltac:(lia) H4) as Hd; change (4 / 4) with 1 in Hd; lia).
  exists (take (4 * n) r), (drop (4 * n) r). rewrite take_drop. split; [done|].
  assert (Hzt : zlen (drop (4 * n) r) = zlen r mod 4) by (unfold zlen in *; rewrite length_drop; lia).
  rewrite Z.shiftr_div_pow2 by lia. change (2 ^ 2) with 4. rewrite <- Hn.
  replace (Z.land (zlen r) 3) with (zlen r mod 4) by (change 3 with (2 ^ 2 - 1); rewrite land_mask by lia; done).
  destruct n as [|n']; [lia|]. pose proof (word_loop n' (take (4 * S n') r) d (drop (4 * S n') r) c (S (Z.to_nat (Z.of_nat (S n'))))) as Hw.
  rewrite take_drop in Hw. cbv zeta in Hw.
  rewrite Hw; [rewrite bind_ok, Hzt; done|rewrite length_take; unfold zlen in *; lia|lia|now apply Forall_take|done].
Qed.

Lemma crc32_tail_ok c d r : crc32_tail tab (d ++ r) c (zlen d) (zlen r) = Ok (foldl tstep c r).
Proof using Htab.
  unfold crc32_tail. destruct (Z.eqb_spec (zlen r) 0) as [E0|E0]; cbn [negb].
  { unfold zlen in E0. destruct r; [done|cbn in E0; lia]. }
  apply tail_loop; [intros ->; done|unfold zlen; lia].
Qed.

Lemma crc32_body_ok c p : Forall is_u8 p -> crc32_body tab c addr p (zlen p) = Ok (foldl tstep c p).
Proof using Htab.
  intros H8. unfold crc32_body. destruct (crc32_align_ok c p H8) as (d & r & -> & Hal & ->). run_binds.
  apply Forall_app in H8 as [_ H8]. destruct (crc32_words_ok (foldl tstep c d) d r Hal H8) as (w & t & -> & ->). run_binds.
  rewrite app_assoc, crc32_tail_ok, !foldl_app. done.
Qed.
End body.

(** * Byte order *)

Lemma testbit_mask x k s i : 0 <= k -> 0 <= i -> 0 <= s + i ->
  Z.testbit (Z.land x (Z.shiftl 255 k)) (s + i) = (k <=? s + i) && (s + i <? k + 8) && Z.testbit x (s + i).
Proof.
  intros Hk Hi Hs. rewrite Z.land_spec, Z.shiftl_spec, andb_comm by lia. f_equal.
  destruct (Z.leb_spec k (s + i)); [|now rewrite Z.testbit_neg_r by lia]. change 255 with (2 ^ 8 - 1). rewrite testbit_ones_full by lia.
  destruct (Z.ltb_spec (s + i - k) 8), (Z.ltb_spec (s + i) (k + 8)); done || lia.
Qed.

Lemma testbit_swab32 x i : 0 <= i -> Z.testbit (swab32 x) i =
  if i <? 8 then Z.testbit x (24 + i) else if i <? 16 then Z.testbit x (8 + i) else if i <? 24 then Z.testbit x (-8 + i)
  else if i <? 32 then Z.testbit x (-24 + i) else false.
Proof.
  intros Hi. unfold swab32. change 0x000000ff with (Z.shiftl 255 0). change 0x0000ff00 with (Z.shiftl 255 8).
  change 0x00ff0000 with (Z.shiftl 255 16). change 0xff000000 with (Z.shiftl 255 24).
  rewrite !Z.lor_spec, !testbit_shr32 by lia. rewrite (Z.add_comm i 8), (Z.add_comm i 24).
  rewrite (testbit_mask x 16 8 i), (testbit_mask x 24 24 i) by lia. unfold shl32. rewrite !testbit_u32, !Z.shiftl_spec by lia.
  replace (i - 24) with (-24 + i) by lia. replace (i - 8) with (-8 + i) by lia.
  assert (H1 : Z.testbit (Z.land x (Z.shiftl 255 0)) (-24 + i) = (0 <=? -24 + i) && (-24 + i <? 8) && Z.testbit x (-24 + i)).
  { destruct (Z.leb_spec 0 (-24 + i)); [rewrite testbit_mask by lia; destruct (Z.leb_spec 0 (-24 + i)); done || lia|].
    now rewrite Z.testbit_neg_r by lia. }
  assert (H2 : Z.testbit (Z.land x (Z.shiftl 255 8)) (-8 + i) = (8 <=? -8 + i) && (-8 + i <? 16) && Z.testbit x (-8 + i)).
  { destruct (Z.leb_spec 0 (-8 + i)); [apply testbit_mask; lia|]. rewrite Z.testbit_neg_r by lia. destruct (Z.leb_spec 8 (-8 + i)); done || lia. }
  rewrite H1, H2. change (16 + 8) with 24. change (24 + 8) with 32.
  repeat match goal with |- context [?a <=? ?b] => destruct (Z.leb_spec a b) | |- context [?a <? ?b] => destruct (Z.ltb_spec a b) end;
    cbn [andb orb]; rewrite ?orb_false_r; done || lia.
Qed.


Lemma swab32_u32 x : is_u32 x -> is_u32 (swab32 x).
Proof.
  intros Hx. unfold swab32. apply lor_u32; [apply lor_u32; [apply lor_u32; apply shl32_range|]|];
    (apply shr_u32; [lia|]; apply land_u32; [exact Hx|unfold is_u32; lia]).
Qed.

Ltac swab_bits i :=
  rewrite ?testbit_swab32 by lia;
  destruct (Z.ltb_spec i 8); [|destruct (Z.ltb_spec i 16); [|destruct (Z.ltb_spec i 24); [|destruct (Z.ltb_spec i 32)]]].

Lemma swab32_lxor x y : swab32 (Z.lxor x y) = Z.lxor (swab32 x) (swab32 y).
Proof. apply Z.bits_inj'. intros i Hi. rewrite Z.lxor_spec. swab_bits i; rewrite ?Z.lxor_spec; done. Qed.

Lemma swab32_swab32 x : is_u32 x -> swab32 (swab32 x) = x.
Proof.
  intros Hx. apply bits_ext32; [now apply swab32_u32, swab32_u32|done|]. intros i Hi. rewrite (testbit_swab32 _ i) by lia.
  repeat (match goal with |- context [?a <? ?b] => destruct (Z.ltb_spec a b); try lia end; rewrite ?testbit_swab32 by lia); f_equal; lia.
Qed.

Lemma swab32_low c : is_u32 c -> Z.land (swab32 c) 255 = Z.shiftr c 24.
Proof.
  intros Hc. apply Z.bits_inj'. intros i Hi. rewrite land_255, testbit_mod2, Z.shiftr_spec by lia. swab_bits i; cbn [andb].
  all: f_equal || (symmetry; apply (testbit_high c 32); [exact Hc|]); lia.
Qed.

Lemma swab32_shift c : swab32 (Z.shiftl c 8 mod 2 ^ 32) = Z.shiftr (swab32 c) 8.
Proof.
  apply Z.bits_inj'. intros i Hi. rewrite Z.shiftr_spec by lia. rewrite (testbit_swab32 c (i + 8)) by lia. swab_bits i.
  all: repeat match goal with |- context [?a <? ?b] => destruct (Z.ltb_spec a b); try lia end.
  all: rewrite ?testbit_mod2, ?Z.shiftl_spec by lia;
    repeat match goal with |- context [?a <? ?b] => destruct (Z.ltb_spec a b); try lia end; cbn [andb].
  all: try done; f_equal; lia || (apply Z.testbit_neg_r; lia).
Qed.

(** The big-endian register, kept byte-swapped. *)
Lemma tstep_be c x : is_u32 c -> is_u8 x ->
  tstep (fun i => swab32 (Nat.iter 8 (fstep 32 CRCPOLY_BE) (Z.shiftl i 24))) (swab32 c) x = swab32 (fbyte 32 CRCPOLY_BE c x).
Proof.
  intros Hc Hx. unfold tstep. rewrite (forward_table_byte 32 CRCPOLY_BE c x) by (lia || done). rewrite swab32_lxor, swab32_shift.
  change (32 - 8) with 24. rewrite Z.lxor_comm. do 5 f_equal. rewrite land_255, mod_lxor, <- !land_255, swab32_low by (done || lia).
  f_equal. rewrite land_255. now apply Z.mod_small.
Qed.

Lemma crc32_be_poly : crc_step 32 (fbyte 32 CRCPOLY_BE).
Proof. apply fbyte_step; [lia|split; reflexivity || done|done]. Qed.
Lemma crc32_le_poly : crc_step 32 (rbyte CRCPOLY_LE).
Proof. apply rbyte_step; [lia|split; reflexivity || done|done]. Qed.

Lemma foldl_tstep_be l : forall c, is_u32 c -> Forall is_u8 l ->
  foldl (tstep (fun i => swab32 (Nat.iter 8 (fstep 32 CRCPOLY_BE) (Z.shiftl i 24)))) (swab32 c) l = swab32 (foldl (fbyte 32 CRCPOLY_BE) c l).
Proof.
  induction l as [|x l IH]; intros c Hc Hl; [reflexivity|]. apply Forall_cons_1 in Hl as [Hx Hl]. cbn [foldl].
  rewrite tstep_be by done. apply IH; [now apply (step_range 32 _ crc32_be_poly)|done].
Qed.

Lemma foldl_tstep_le l : forall c, Forall is_u8 l ->
  foldl (tstep (Nat.iter 8 (rstep CRCPOLY_LE))) c l = foldl (rbyte CRCPOLY_LE) c l.
Proof.
  induction l as [|x l IH]; intros c Hl; [reflexivity|]. apply Forall_cons_1 in Hl as [Hx Hl]. cbn [foldl].
  rewrite (reflected_table_byte CRCPOLY_LE c x Hx). now apply IH.
Qed.

Lemma crc32_le_bits_ok c l : is_u32 c -> Forall is_u8 l -> crc32_le_bits c l (zlen l) = Ok (foldl (rbyte CRCPOLY_LE) c l).
Proof. intros Hc Hl. apply (crc_loop_ok 32); [apply crc32_le_poly|intros; unfold rbyte, rstep; reflexivity|done|done]. Qed.

Lemma crc32_be_bits_ok c l : is_u32 c -> Forall is_u8 l -> crc32_be_bits c l (zlen l) = Ok (foldl (fbyte 32 CRCPOLY_BE) c l).
Proof.
  intros Hc Hl. apply (crc_loop_ok 32); [apply crc32_be_poly| |done|done]. intros c' b Hc' Hb. f_equal. unfold fbyte, shl32, u32.
  change (32 - 8) with 24. rewrite (Z.mod_small (Z.shiftl b 24)) by (apply (u8_shifted_is_w 32); done || lia). reflexivity.
Qed.

Lemma crc32_le_ok crc addr l : Forall is_u8 l -> crc32_le crc addr l (zlen l) = Ok (foldl (rbyte CRCPOLY_LE) crc l).
Proof.
  intros Hl. unfold crc32_le. rewrite (proj2 crc32table_le_ok), (crc32_body_ok _ (Nat.iter 8 (rstep CRCPOLY_LE)));
    [f_equal; now apply foldl_tstep_le|intros i Hi; now apply rd_table_of|exact Hl].
Qed.

Lemma crc32_be_ok crc addr l : is_u32 crc -> Forall is_u8 l -> crc32_be crc addr l (zlen l) = Ok (foldl (fbyte 32 CRCPOLY_BE) crc l).
Proof.
  intros Hc Hl. unfold crc32_be.
  rewrite (proj2 crc32table_be_ok), (crc32_body_ok _ (fun i => swab32 (Nat.iter 8 (fstep 32 CRCPOLY_BE) (Z.shiftl i 24))));
    [|intros i Hi; now rewrite rd_table_of|exact Hl].
  rewrite bind_ok, foldl_tstep_be by done. f_equal. apply swab32_swab32. now apply (crc_fold_range 32 _ crc32_be_poly).
Qed.

(** The word-at-a-time routines against the bit-serial ones. *)
Lemma crc32_equal_facts crc addr p : is_u32 crc -> Forall is_u8 p ->
  crc32init_le = Ok crc32table_le /\
  (exists t, crc32init_be = Ok t /\ crc32table_be = swab32 <$> t) /\
  crc32_le crc addr p (zlen p) = crc32_le_bits crc p (zlen p) /\
  crc32_be crc addr p (zlen p) = crc32_be_bits crc p (zlen p) /\
  (exists le be, crc32_le crc addr p (zlen p) = Ok le /\ crc32_be crc addr p (zlen p) = Ok be /\ is_u32 le /\ is_u32 be /\
    crc32_le crc addr (p ++ put_le32 le) (zlen p + 4) = Ok 0).
Proof.
  intros Hc Hp. destruct crc32table_le_ok as [Hle1 _], crc32table_be_ok as [Hbe1 _].
  split; [exact Hle1|]. split; [eexists; split; [exact Hbe1|]; unfold crc32table_be; now rewrite Hbe1|].
  split; [now rewrite crc32_le_ok, crc32_le_bits_ok|]. split; [now rewrite crc32_be_ok, crc32_be_bits_ok|].
  exists (foldl (rbyte CRCPOLY_LE) crc p), (foldl (fbyte 32 CRCPOLY_BE) crc p).
  split; [now apply crc32_le_ok|]. split; [now apply crc32_be_ok|]. split; [now apply (crc_fold_range 32 _ crc32_le_poly)|].
  split; [now apply (crc_fold_range 32 _ crc32_be_poly)|].
  refine (vanishes 32 _ (crc32_le crc addr) crc p put_le32 crc32_le_poly Hc (crc32_le_ok crc addr) _ Hp _ (crc32_le_ok crc addr p Hp)).
  intros v Hv. split; [apply put_le32_u8|now apply reflected_own32].
Qed.

(** Each notices a corrupted byte. *)
Lemma crc32_detects_facts crc addr pre b b' post : is_u32 crc -> Forall is_u8 pre -> Forall is_u8 post -> is_u8 b -> is_u8 b' -> b <> b' ->
  let n := zlen (pre ++ b :: post) in
  crc32_le crc addr (pre ++ b :: post) n <> crc32_le crc addr (pre ++ b' :: post) n /\
  crc32_be crc addr (pre ++ b :: post) n <> crc32_be crc addr (pre ++ b' :: post) n.
Proof.
  intros Hc Hpre Hpost Hb Hb' Hne n. split.
  - exact (detects 32 _ (crc32_le crc addr) crc pre b b' post crc32_le_poly Hc (crc32_le_ok crc addr) Hpre Hpost Hb Hb' Hne).
  - exact (detects 32 _ (crc32_be crc addr) crc pre b b' post crc32_be_poly Hc (fun l => crc32_be_ok crc addr l Hc) Hpre Hpost Hb Hb' Hne).
Qed.

(** C36: the table-driven CRCs compute the bit-serial shift registers of their
    polynomials, from any start value and for every buffer, without leaving
    the tables: crc16 (0x8005, reflected), crc_ccitt (0x1021, reflected),
    crc_itu_t (0x1021, that is x^16 + x^12 + x^5 + 1), crc_t10dif (0x8bb7),
    crc7 (0x09, as the upper 7 bits of an 8-bit register) and crc32c
    (0x1edc6f41, reflected). So a single corrupted byte, wherever it is,
    changes the 16-bit CRCs, crc32c and both CRC-32 routines; it changes crc7
    unless the error is 0x89, the generator of that CRC, and then never. A
    message followed by its own CRC (low byte first for the reflected
    registers, high byte first for the forward ones) leaves the 16-bit
    registers and that of crc32c at zero. In the crc32c hash of the
    crypto API a key of four bytes becomes the start value and any other
    length is refused with -EINVAL and the key kept; from there init, any
    sequence of updates and final, or finup with the last chunk, or digest
    of everything at once, give the same four bytes: the complement of the
    CRC of the whole message, least significant byte first. The CRC-32
    routines. The generator fills its tables in bounds; with them the word-
    at-a-time [crc32_le] and [crc32_be] return, for a buffer at any address,
    exactly what the bit-serial variants of the same file return; every word
    load is aligned, no access leaves the buffer or the tables; and a
    message followed by its [crc32_le], low byte first, has CRC zero. *)
Theorem crc_checksums_correct :
  (((forall c c7 c32 l,
     is_w 16 c -> is_w 7 c7 -> is_u32 c32 -> Forall is_u8 l ->
     crc16 c l (zlen l) = Ok (foldl (rbyte (reflect 16 0x8005)) c l) /\
     crc_ccitt c l (zlen l) = Ok (foldl (rbyte (reflect 16 0x1021)) c l) /\
     crc_itu_t c l (zlen l) = Ok (foldl (fbyte 16 0x1021) c l) /\
     crc_t10dif l (zlen l) = Ok (foldl (fbyte 16 0x8BB7) 0 l) /\
     crc7 c7 l (zlen l) = Ok (Z.shiftr (foldl (fbyte 8 crc7_poly) (Z.shiftl c7 1) l) 1) /\
     crc32c c32 l (zlen l) = Ok (foldl (rbyte (reflect 32 0x1EDC6F41)) c32 l)) /\
    (forall c c7 c32 pre b b' post,
     is_w 16 c -> is_w 7 c7 -> is_u32 c32 -> Forall is_u8 pre -> Forall is_u8 post ->
     is_u8 b -> is_u8 b' -> b <> b' ->
     let n := zlen (pre ++ b :: post) in
     (crc16 c (pre ++ b :: post) n <> crc16 c (pre ++ b' :: post) n /\
      crc_ccitt c (pre ++ b :: post) n <> crc_ccitt c (pre ++ b' :: post) n /\
      crc_itu_t c (pre ++ b :: post) n <> crc_itu_t c (pre ++ b' :: post) n /\
      crc_t10dif (pre ++ b :: post) n <> crc_t10dif (pre ++ b' :: post) n /\
      crc32c c32 (pre ++ b :: post) n <> crc32c c32 (pre ++ b' :: post) n /\
      (crc7 c7 (pre ++ b :: post) n = crc7 c7 (pre ++ b' :: post) n <-> Z.lxor b b' = crc7_generator)) /\
     (forall v, crc16 c pre (zlen pre) = Ok v -> crc16 c (pre ++ [Z.land v 255; Z.shiftr v 8]) (zlen pre + 2) = Ok 0) /\
     (forall v, crc_ccitt c pre (zlen pre) = Ok v -> crc_ccitt c (pre ++ [Z.land v 255; Z.shiftr v 8]) (zlen pre + 2) = Ok 0) /\
     (forall v, crc_itu_t c pre (zlen pre) = Ok v -> crc_itu_t c (pre ++ [Z.shiftr v 8; Z.land v 255]) (zlen pre + 2) = Ok 0) /\
     (forall v, crc_t10dif pre (zlen pre) = Ok v -> crc_t10dif (pre ++ [Z.shiftr v 8; Z.land v 255]) (zlen pre + 2) = Ok 0) /\
     (forall v, crc32c c32 pre (zlen pre) = Ok v -> crc32c c32 (pre ++ put_le32 v) (zlen pre + 4) = Ok 0))) /\
   (forall tfm k chunks last,
    Forall is_u8 k -> Forall (Forall is_u8) chunks -> Forall is_u8 last ->
    (zlen k <> 4 -> exists fl, chksum_setkey tfm k (zlen k) = Ok (- EINVAL, Shash (key tfm) fl)) /\
    (zlen k = 4 -> exists tfm' d, chksum_setkey tfm k (zlen k) = Ok (0, tfm') /\ put_le32 (key tfm') = k /\
      let hash := put_le32 (lnot32 (crc32c_of (key tfm') (concat chunks ++ last))) in
      updates (chksum_init tfm') chunks = Ok d /\
      (d' ← chksum_update d last (zlen last); Ok (chksum_final d')) = Ok hash /\
      chksum_finup d last (zlen last) = Ok hash /\
      chksum_digest tfm' (concat chunks ++ last) (zlen (concat chunks ++ last)) = Ok hash))) /\
  (forall crc addr p,
   is_u32 crc -> Forall is_u8 p ->
   crc32init_le = Ok crc32table_le /\
   (exists t, crc32init_be = Ok t /\ crc32table_be = swab32 <$> t) /\
   crc32_le crc addr p (zlen p) = crc32_le_bits crc p (zlen p) /\
   crc32_be crc addr p (zlen p) = crc32_be_bits crc p (zlen p) /\
   (exists le be, crc32_le crc addr p (zlen p) = Ok le /\ crc32_be crc addr p (zlen p) = Ok be /\ is_u32 le /\ is_u32 be /\
     crc32_le crc addr (p ++ put_le32 le) (zlen p + 4) = Ok 0)) /\
  (forall crc addr pre b b' post,
   is_u32 crc -> Forall is_u8 pre -> Forall is_u8 post -> is_u8 b -> is_u8 b' -> b <> b' ->
   let n := zlen (pre ++ b :: post) in
   crc32_le crc addr (pre ++ b :: post) n <> crc32_le crc addr (pre ++ b' :: post) n /\
   crc32_be crc addr (pre ++ b :: post) n <> crc32_be crc addr (pre ++ b' :: post) n).
Proof. split; [exact crc_tables_facts|]. split; [exact crc32_equal_facts|exact crc32_detects_facts]. Qed.

Lemma crc_checksums_correct_witness :
  (((crc16 0 check_string 9 = Ok 0xBB3D /\ crc_ccitt 0 check_string 9 = Ok 0x2189 /\ crc_itu_t 0 check_string 9 = Ok 0x31C3 /\
     crc_t10dif check_string 9 = Ok 0xD0DB /\ crc7 0 check_string 9 = Ok 0x75 /\
     crc32c 0xffffffff check_string 9 = Ok (Z.lxor 0xE3069283 0xffffffff)) /\
    (crc16 0 ([1; 2; 3] ++ 4 :: [5; 6]) 6 <> crc16 0 ([1; 2; 3] ++ 5 :: [5; 6]) 6 /\
     crc7 0 ([] ++ 0x89 :: []) 1 = crc7 0 ([] ++ 0 :: []) 1 /\
     crc32c 7 ([1; 2; 3] ++ put_le32 3852743949) 7 = Ok 0)) /\
   (exists tfm d, chksum_setkey (Shash 0 0) [255; 255; 255; 255] 4 = Ok (0, tfm) /\ updates (chksum_init tfm) [[0x31; 0x32]; [0x33; 0x34; 0x35]] = Ok d /\
    chksum_finup d [0x36; 0x37; 0x38; 0x39] 4 = Ok (put_le32 0xE3069283))) /\
  (crc32_le 0xffffffff 3 check_string 9 = Ok (Z.lxor 0xCBF43926 0xffffffff) /\
   crc32_be 5 2 ([1; 2; 3] ++ 4 :: [5; 6]) 6 <> crc32_be 5 2 ([1; 2; 3] ++ 5 :: [5; 6]) 6).
Proof.
  split.
  { split.
    { split.
      { destruct ((proj1 (proj1 (proj1 crc_checksums_correct))) 0 0 0xffffffff check_string) as (E1 & E2 & E3 & E4 & E5 & E6);
          [split; lia|split; lia|unfold is_u32; lia|now apply digits_u8|].
        change (zlen check_string) with 9 in *. rewrite E1, E2, E3, E4, E5, E6. vm_compute. repeat split. }
      { destruct ((proj2 (proj1 (proj1 crc_checksums_correct))) 0 0 7 [1; 2; 3] 4 5 [5; 6]) as ((E1 & _) & _ & _ & _ & _ & E2);
          [split; lia|split; lia|unfold is_u32; lia|now apply digits_u8|now apply digits_u8|unfold is_u8; lia|unfold is_u8; lia|lia|].
        destruct ((proj2 (proj1 (proj1 crc_checksums_correct))) 0 0 7 [] 0x89 0 []) as ((_ & _ & _ & _ & _ & E3) & _);
          [split; lia|split; lia|unfold is_u32; lia|constructor|constructor|unfold is_u8; lia|unfold is_u8; lia|lia|].
        split; [exact E1|]. split; [apply E3; reflexivity|]. apply (E2 3852743949). vm_compute. reflexivity. } }
    { destruct ((proj2 (proj1 crc_checksums_correct)) (Shash 0 0) [255; 255; 255; 255] [[0x31; 0x32]; [0x33; 0x34; 0x35]] [0x36; 0x37; 0x38; 0x39])
        as [_ H]; [now apply digits_u8|do 2 (apply Forall_cons_2; [now apply digits_u8|]); constructor|now apply digits_u8|].
      destruct (H eq_refl) as (tfm & d & E1 & Ek & E2 & _ & E3 & _). exists tfm, d. split; [exact E1|]. split; [exact E2|].
      assert (Et : chksum_setkey (Shash 0 0) [255; 255; 255; 255] 4 = Ok (0, Shash 0xffffffff 0)) by (vm_compute; reflexivity).
      change (zlen [255; 255; 255; 255]) with 4 in E1. rewrite Et in E1. injection E1 as <-. etransitivity; [exact E3|]. vm_compute. reflexivity. } }
  { destruct ((proj1 (proj2 crc_checksums_correct)) 0xffffffff 3 check_string) as (_ & _ & E & _); [unfold is_u32; lia|now apply digits_u8|].
    split; [|apply (proj2 (proj2 crc_checksums_correct) 5 2 [1; 2; 3] 4 5 [5; 6]);
      [unfold is_u32; lia|now apply digits_u8|now apply digits_u8|unfold is_u8; lia|unfold is_u8; lia|lia]].
    etransitivity; [exact E|]. vm_compute. reflexivity. }
Defined.
