(* ===== verification/CipherModes.v ===== *)
(** crypto/ecb.c and crypto/cbc.c: the electronic-codebook and cipher-block-
    chaining modes, as they process one virtually contiguous segment of a walk,
    over any cipher that satisfies the interface. *)
From S2P Require Import Prelude.
From S2P Require Import Ring.
From S2P Require Import Blocks.
From S2P Require Import Cipher.
From S2P Require Import CryptoBytes.
From S2P Require Import CipherTea CipherBlowfish CipherCast5 CipherSeed.

Section modes.
Context {ctx : Type} `{CL : CipherLaws ctx}.
Local Abbreviation bsize := (blocksize ctx).

(** The inner loop of [crypto_ecb_crypt]; [same] says that the walk maps source
    and destination to one buffer.  A turn consumes [bsize] bytes. *)
Definition crypto_ecb_crypt (fn : list Z -> res (list Z)) (same : bool) (src dst : list Z) (nbytes : Z)
    : res (list Z * Z) :=
  loop (S (Z.to_nat (nbytes / bsize))) (fun '(dst, off, nbytes) =>
    blk ← slice (if same : bool then dst else src) off bsize;
    e ← fn blk;
    dst ← memcpy dst off e 0 bsize;
    let off := off + bsize in
    let nbytes := u32 (nbytes - bsize) in
    if bsize <=? nbytes then Ok (inl (dst, off, nbytes)) else Ok (inr (dst, nbytes))) (dst, 0, nbytes).

Definition crypto_ecb_encrypt (c : ctx) := crypto_ecb_crypt (encrypt c).
Definition crypto_ecb_decrypt (c : ctx) := crypto_ecb_crypt (decrypt c).

Definition crypto_cbc_encrypt_segment (c : ctx) (src dst iv : list Z) (nbytes : Z) : res (list Z * list Z * Z) :=
  loop (S (Z.to_nat (nbytes / bsize))) (fun '(dst, iv, off, nbytes) =>
    blk ← slice src off bsize;
    iv ← crypto_xor iv blk bsize;
    e ← encrypt c iv;
    dst ← memcpy dst off e 0 bsize;
    iv ← slice dst off bsize;
    let off := off + bsize in
    let nbytes := u32 (nbytes - bsize) in
    if bsize <=? nbytes then Ok (inl (dst, iv, off, nbytes)) else Ok (inr (dst, iv, nbytes))) (dst, iv, 0, nbytes).

Definition crypto_cbc_encrypt_inplace (c : ctx) (src iv : list Z) (nbytes : Z) : res (list Z * list Z * Z) :=
  loop (S (Z.to_nat (nbytes / bsize))) (fun '(src, iv, off, nbytes) =>
    blk ← slice src off bsize;
    x ← crypto_xor blk iv bsize;
    src ← memcpy src off x 0 bsize;
    blk ← slice src off bsize;
    e ← encrypt c blk;
    src ← memcpy src off e 0 bsize;
    iv ← slice src off bsize;
    let off := off + bsize in
    let nbytes := u32 (nbytes - bsize) in
    if bsize <=? nbytes then Ok (inl (src, iv, off, nbytes)) else Ok (inr (src, iv, nbytes))) (src, iv, 0, nbytes).

Definition crypto_cbc_decrypt_segment (c : ctx) (src dst iv : list Z) (nbytes : Z) : res (list Z * list Z * Z) :=
  loop (S (Z.to_nat (nbytes / bsize))) (fun '(dst, iv, off, nbytes) =>
    blk ← slice src off bsize;
    e ← decrypt c blk;
    dst ← memcpy dst off e 0 bsize;
    d ← slice dst off bsize;
    x ← crypto_xor d iv bsize;
    dst ← memcpy dst off x 0 bsize;
    iv ← slice src off bsize;
    let off := off + bsize in
    let nbytes := u32 (nbytes - bsize) in
    if bsize <=? nbytes then Ok (inl (dst, iv, off, nbytes)) else Ok (inr (dst, iv, nbytes))) (dst, iv, 0, nbytes).

(** Backwards from the last whole block, whose ciphertext becomes the new IV. *)
Definition crypto_cbc_decrypt_inplace (c : ctx) (src iv : list Z) (nbytes : Z) : res (list Z * list Z * Z) :=
  let off := nbytes - Z.land nbytes (bsize - 1) - bsize in
  last_iv ← slice src off bsize;
  '(src, off, nbytes) ← loop (S (Z.to_nat (nbytes / bsize))) (fun '(src, off, nbytes) =>
    blk ← slice src off bsize;
    e ← decrypt c blk;
    src ← memcpy src off e 0 bsize;
    let nbytes := u32 (nbytes - bsize) in
    if nbytes <? bsize then Ok (inr (src, off, nbytes)) else
    d ← slice src off bsize;
    prev ← slice src (off - bsize) bsize;
    x ← crypto_xor d prev bsize;
    src ← memcpy src off x 0 bsize;
    Ok (inl (src, off - bsize, nbytes))) (src, off, nbytes);
  d ← slice src off bsize;
  x ← crypto_xor d iv bsize;
  src ← memcpy src off x 0 bsize;
  Ok (src, last_iv, nbytes).

(** * Buffers as sequences of blocks *)

Definition blocks (bl : list (list Z)) : Prop := Forall (is_block ctx) bl.

Lemma blocks_cells bl : blocks bl -> cells bsize bl.
Proof. intros Hbl. eapply Forall_impl; [|exact Hbl]. intros b Hb. apply Hb. Qed.

Lemma concat_len bl : blocks bl -> zlen (concat bl) = zlen bl * bsize.
Proof. intros Hbl. now apply concat_cells, blocks_cells. Qed.

Lemma blocks_lookup bl i b : blocks bl -> bl !! i = Some b -> is_block ctx b.
Proof. intros Hb Hi. apply (Forall_lookup_1 _ _ _ _ Hb Hi). Qed.

Lemma slice_block bl i b tail : blocks bl -> bl !! i = Some b ->
  slice (buf bl tail) (Z.of_nat i * bsize) bsize = Ok b.
Proof. intros Hb Hi. apply slice_cell; [now apply blocks_cells|done]. Qed.

Lemma memcpy_block bl i b e tail : blocks bl -> bl !! i = Some b -> is_block ctx e ->
  memcpy (buf bl tail) (Z.of_nat i * bsize) e 0 bsize = Ok (buf (<[i := e]> bl) tail) /\ blocks (<[i := e]> bl).
Proof.
  intros Hb Hi [He He8]. split; [|apply Forall_insert; [done|split; done]].
  eapply memcpy_cell; [now apply blocks_cells|exact Hi|exact He].
Qed.

Lemma xor_block a b : is_block ctx a -> is_block ctx b ->
  crypto_xor a b bsize = Ok (xor_bytes a b) /\ is_block ctx (xor_bytes a b).
Proof.
  intros [Ha Ha8] [Hb Hb8]. split; [now apply crypto_xor_ok|]. split; [|now apply xor_u8]. rewrite xor_len; lia.
Qed.

(** * What the modes compute *)

Definition E (c : ctx) (b : list Z) : list Z := match encrypt c b with Ok e => e | Err _ => [] end.
Definition D (c : ctx) (b : list Z) : list Z := match decrypt c b with Ok e => e | Err _ => [] end.

Lemma E_ok c b : ctx_ok c -> is_block ctx b -> encrypt c b = Ok (E c b) /\ is_block ctx (E c b) /\ D c (E c b) = b.
Proof.
  intros Hc Hb. destruct (encrypt_decrypt c b Hc Hb) as (e & E1 & He & E2). unfold E, D. rewrite E1. rewrite E2. done.
Qed.
Lemma D_ok c b : ctx_ok c -> is_block ctx b -> decrypt c b = Ok (D c b) /\ is_block ctx (D c b) /\ E c (D c b) = b.
Proof.
  intros Hc Hb. destruct (decrypt_encrypt c b Hc Hb) as (e & E1 & He & E2). unfold E, D. rewrite E1. rewrite E2. done.
Qed.

Fixpoint cbc_enc (c : ctx) (iv : list Z) (ps : list (list Z)) : list (list Z) :=
  match ps with
  | [] => []
  | p :: ps => let e := E c (xor_bytes iv p) in e :: cbc_enc c e ps
  end.
Fixpoint cbc_dec (c : ctx) (iv : list Z) (xs : list (list Z)) : list (list Z) :=
  match xs with
  | [] => []
  | x :: xs => xor_bytes (D c x) iv :: cbc_dec c x xs
  end.

(** The block before block [i]: the IV for the first. *)
Definition prev (iv : list Z) (xs : list (list Z)) (i : nat) : list Z :=
  match i with O => iv | S i => default [] (xs !! i) end.

Lemma cbc_enc_blocks c iv ps : ctx_ok c -> is_block ctx iv -> blocks ps ->
  blocks (cbc_enc c iv ps) /\ length (cbc_enc c iv ps) = length ps.
Proof.
  intros Hc Hiv Hps. revert iv Hiv. induction Hps as [|p ps Hp _ IH]; intros iv Hiv; [split; [constructor|done]|].
  cbn [cbc_enc]. destruct (E_ok c (xor_bytes iv p) Hc (proj2 (xor_block _ _ Hiv Hp))) as (_ & He & _).
  destruct (IH _ He) as [H1 H2]. split; [constructor; done|]. cbn [length]. lia.
Qed.

Lemma cbc_dec_blocks c iv xs : ctx_ok c -> is_block ctx iv -> blocks xs ->
  blocks (cbc_dec c iv xs) /\ length (cbc_dec c iv xs) = length xs.
Proof.
  intros Hc Hiv Hxs. revert iv Hiv. induction Hxs as [|x xs Hx _ IH]; intros iv Hiv; [split; [constructor|done]|].
  cbn [cbc_dec]. destruct (D_ok c x Hc Hx) as (_ & Hd & _). destruct (IH x Hx) as [H1 H2].
  split; [constructor; [now apply (xor_block (D c x) iv)|done]|]. cbn [length]. lia.
Qed.

Lemma cbc_enc_lookup c iv ps i p : ps !! i = Some p ->
  cbc_enc c iv ps !! i = Some (E c (xor_bytes (prev iv (cbc_enc c iv ps) i) p)).
Proof.
  revert iv i. induction ps as [|q ps IH]; intros iv i Hi; [done|]. destruct i as [|i]; cbn in *; [now injection Hi as ->|].
  rewrite (IH _ _ Hi). do 3 f_equal. destruct i; done.
Qed.

Lemma cbc_dec_lookup c iv xs i x : xs !! i = Some x ->
  cbc_dec c iv xs !! i = Some (xor_bytes (D c x) (prev iv xs i)).
Proof.
  revert iv i. induction xs as [|y xs IH]; intros iv i Hi; [done|]. destruct i as [|i]; cbn in *; [now injection Hi as ->|].
  rewrite (IH _ _ Hi). do 2 f_equal. destruct i; done.
Qed.

Lemma prev_block iv xs i : is_block ctx iv -> blocks xs -> (i <= length xs)%nat -> is_block ctx (prev iv xs i).
Proof.
  intros Hiv Hx Hi. destruct i as [|i]; [done|]. cbn. destruct (lookup_lt_is_Some_2 xs i ltac:(lia)) as [x Ex]. rewrite Ex.
  apply (blocks_lookup xs i x Hx Ex).
Qed.

Lemma cbc_dec_enc c iv ps : ctx_ok c -> is_block ctx iv -> blocks ps -> cbc_dec c iv (cbc_enc c iv ps) = ps.
Proof.
  intros Hc Hiv Hps. revert iv Hiv. induction Hps as [|p ps Hp _ IH]; intros iv Hiv; [done|]. cbn [cbc_enc cbc_dec].
  destruct (E_ok c (xor_bytes iv p) Hc (proj2 (xor_block _ _ Hiv Hp))) as (_ & He & ->). f_equal; [|now apply IH].
  rewrite xor_comm, (xor_comm iv p). rewrite xor_comm. apply xor_xor. destruct Hiv as [-> _], Hp as [-> _]. done.
Qed.

(** A buffer half-way through a pass. *)
Definition mixed (i : nat) (a b : list (list Z)) : list (list Z) := take i a ++ drop i b.

Lemma mixed_lookup i a b : length a = length b -> (i < length b)%nat -> mixed i a b !! i = b !! i.
Proof.
  intros Hl Hi. unfold mixed. rewrite lookup_app_r by (rewrite length_take; lia).
  rewrite length_take, lookup_drop. f_equal. lia.
Qed.

Lemma mixed_insert i a b x : length a = length b -> a !! i = Some x -> <[i := x]> (mixed i a b) = mixed (S i) a b.
Proof.
  intros Hl Hx. apply lookup_lt_Some in Hx as Hi. unfold mixed. rewrite insert_app_r_alt by (rewrite length_take; lia).
  rewrite length_take. replace (i - i `min` length a)%nat with O by lia.
  destruct (lookup_lt_is_Some_2 b i ltac:(lia)) as [y Hy]. rewrite (drop_S b y i Hy). cbn.
  rewrite (take_S_r a i x Hx), <- app_assoc. done.
Qed.

Lemma mixed_blocks i a b : blocks a -> blocks b -> blocks (mixed i a b).
Proof. intros Ha Hb. apply Forall_app. split; [now apply Forall_take|now apply Forall_drop]. Qed.

Lemma mixed_full a b : length a = length b -> mixed (length b) a b = a.
Proof. intros Hl. unfold mixed. rewrite <- Hl, take_ge, drop_ge by lia. apply app_nil_r. Qed.

(** * The passes over a segment of [n] blocks and [tl] left-over bytes *)

Section pass.
Context (n : nat) (tl : Z) (Hn : (0 < n)%nat) (Htl : 0 <= tl < bsize) (Hmax : Z.of_nat n * bsize + tl < 2 ^ 32).
Local Abbreviation bytes_left i := ((Z.of_nat n - Z.of_nat i) * bsize + tl).

Lemma next_bytes i : (i < n)%nat -> u32 (bytes_left i - bsize) = bytes_left (S i) /\
  (bsize <=? bytes_left (S i)) = (S i <? n)%nat /\ bytes_left n = tl.
Proof.
  intros Hi. pose proof blocksize_pos as Hb. assert (0 <= Z.of_nat n - Z.of_nat i - 1) by lia. split; [|split].
  - rewrite u32_id; [lia|]. unfold is_u32. nia.
  - destruct (Z.leb_spec bsize (bytes_left (S i))), (Nat.ltb_spec (S i) n); try done; exfalso; nia.
  - lia.
Qed.

Lemma fuel_blocks : Z.to_nat ((Z.of_nat n * bsize + tl) / bsize) = n.
Proof.
  replace ((Z.of_nat n * bsize + tl) / bsize) with (Z.of_nat n); [lia|]. apply Z.div_unique with tl; lia.
Qed.

Lemma pass_up {X} (body : X * Z * Z -> res ((X * Z * Z) + (X * Z))) (st : nat -> X) :
  (forall i, (i < n)%nat -> body (st i, Z.of_nat i * bsize, bytes_left i) =
     if (S i <? n)%nat then Ok (inl (st (S i), Z.of_nat (S i) * bsize, bytes_left (S i)))
     else Ok (inr (st (S i), bytes_left (S i)))) ->
  loop (S (Z.to_nat ((Z.of_nat n * bsize + tl) / bsize))) body (st 0%nat, 0, Z.of_nat n * bsize + tl) = Ok (st n, tl).
Proof.
  intros Hbody. rewrite fuel_blocks.
  enough (Hk0 : forall k i, (i + k = n)%nat -> (0 < k)%nat ->
    loop (S k) body (st i, Z.of_nat i * bsize, bytes_left i) = Ok (st n, tl)).
  { specialize (Hk0 n 0%nat eq_refl Hn). rewrite Z.sub_0_r in Hk0. exact Hk0. }
  induction k as [|k IH]; intros i Hik Hk; [lia|]. remember (S k) as k' eqn:Ek. cbn [loop]. rewrite (Hbody i ltac:(lia)).
  destruct (Nat.ltb_spec (S i) n); subst k'.
  - apply IH; lia.
  - replace (S i) with n by lia. now rewrite (proj2 (proj2 (next_bytes i ltac:(lia)))).
Qed.

Context (c : ctx) (Hc : ctx_ok c) (iv : list Z) (Hiv : is_block ctx iv).
Context (pl dl : list (list Z)) (Hpl : blocks pl) (Hdl : blocks dl) (Hlp : length pl = n) (Hld : length dl = n).
Context (ptail dtail : list Z).

Lemma pl_lookup i : (i < n)%nat -> exists x, pl !! i = Some x /\ is_block ctx x.
Proof.
  intros Hi. destruct (lookup_lt_is_Some_2 pl i ltac:(lia)) as [x Hx]. exists x. split; [done|]. apply (blocks_lookup pl i x Hpl Hx).
Qed.

(** One block of a destination buffer is replaced by its final value. *)
Lemma put_block i res_ base tail x : blocks res_ -> blocks base -> length res_ = length base -> (i < length base)%nat ->
  res_ !! i = Some x ->
  memcpy (buf (mixed i res_ base) tail) (Z.of_nat i * bsize) x 0 bsize = Ok (buf (mixed (S i) res_ base) tail) /\
  slice (buf (mixed (S i) res_ base) tail) (Z.of_nat i * bsize) bsize = Ok x.
Proof.
  intros Hr Hb Hl Hi Hx. destruct (lookup_lt_is_Some_2 base i Hi) as [y Hy].
  pose proof (mixed_lookup i res_ base Hl Hi) as Hm. rewrite Hy in Hm.
  pose proof (blocks_lookup res_ i x Hr Hx) as Hxb.
  destruct (memcpy_block (mixed i res_ base) i y x tail (mixed_blocks i _ _ Hr Hb) Hm Hxb) as [E1 Hb2].
  rewrite (mixed_insert i res_ base x Hl Hx) in *. split; [exact E1|].
  apply slice_block; [done|]. unfold mixed. apply lookup_app_l_Some. rewrite lookup_take_lt by lia. done.
Qed.

Lemma ecb_pass fn (f : list Z -> list Z) same :
  (forall b, is_block ctx b -> fn b = Ok (f b) /\ is_block ctx (f b)) ->
  (same = true -> dl = pl /\ dtail = ptail) ->
  crypto_ecb_crypt fn same (buf pl ptail) (buf dl dtail) (Z.of_nat n * bsize + tl) = Ok (buf (f <$> pl) dtail, tl).
Proof.
  intros Hf Hsame. unfold crypto_ecb_crypt.
  assert (Hfb : blocks (f <$> pl)) by (apply Forall_fmap; eapply Forall_impl; [|exact Hpl]; intros b Hb; now apply Hf).
  assert (Hfl : length (f <$> pl) = length dl) by (rewrite length_fmap; lia).
  assert (E0 : buf (mixed n (f <$> pl) dl) dtail = buf (f <$> pl) dtail) by (rewrite <- Hld at 1; now rewrite mixed_full).
  rewrite <- E0. apply (pass_up _ (fun i => buf (mixed i (f <$> pl) dl) dtail)). intros i Hi.
  destruct (pl_lookup i Hi) as (x & Hx & Hxb). destruct (next_bytes i Hi) as (E1 & E2 & _).
  assert (Hs : slice (if same then buf (mixed i (f <$> pl) dl) dtail else buf pl ptail) (Z.of_nat i * bsize) bsize = Ok x).
  { destruct same; [|now apply slice_block]. destruct (Hsame eq_refl) as [-> ->].
    apply slice_block; [now apply mixed_blocks|]. rewrite mixed_lookup by lia. done. }
  rewrite Hs, bind_ok. destruct (Hf x Hxb) as [-> _]. rewrite bind_ok.
  destruct (put_block i (f <$> pl) dl dtail (f x) Hfb Hdl Hfl ltac:(lia) ltac:(now rewrite list_lookup_fmap, Hx)) as [-> _].
  rewrite bind_ok. cbv zeta. rewrite E1, E2. replace (Z.of_nat i * bsize + bsize) with (Z.of_nat (S i) * bsize) by lia. done.
Qed.

Lemma cbc_encrypt_segment_pass :
  crypto_cbc_encrypt_segment c (buf pl ptail) (buf dl dtail) iv (Z.of_nat n * bsize + tl) =
  Ok (buf (cbc_enc c iv pl) dtail, prev iv (cbc_enc c iv pl) n, tl).
Proof.
  unfold crypto_cbc_encrypt_segment. destruct (cbc_enc_blocks c iv pl Hc Hiv Hpl) as [Hxb Hxl]. set (xs := cbc_enc c iv pl) in *.
  assert (E0 : buf (mixed n xs dl) dtail = buf xs dtail) by (rewrite <- Hld at 1; rewrite mixed_full; [done|lia]).
  rewrite <- E0. apply (pass_up _ (fun i => (buf (mixed i xs dl) dtail, prev iv xs i))). intros i Hi.
  destruct (pl_lookup i Hi) as (x & Hx & Hxb'). destruct (next_bytes i Hi) as (E1 & E2 & _).
  rewrite (slice_block pl i x ptail Hpl Hx), bind_ok. cbv zeta.
  pose proof (prev_block iv xs i Hiv Hxb ltac:(lia)) as Hp.
  destruct (xor_block _ _ Hp Hxb') as [-> Hxor]. rewrite bind_ok.
  destruct (E_ok c (xor_bytes (prev iv xs i) x) Hc Hxor) as (-> & He & _). rewrite bind_ok.
  pose proof (cbc_enc_lookup c iv pl i x Hx) as Hlook. fold xs in Hlook.
  destruct (put_block i xs dl dtail _ Hxb Hdl ltac:(lia) ltac:(lia) Hlook) as [Ea Eb]. rewrite Ea, bind_ok, Eb, bind_ok.
  rewrite E1, E2. replace (Z.of_nat i * bsize + bsize) with (Z.of_nat (S i) * bsize) by lia. cbn [prev]. rewrite Hlook. done.
Qed.

Lemma cbc_encrypt_inplace_pass :
  crypto_cbc_encrypt_inplace c (buf pl ptail) iv (Z.of_nat n * bsize + tl) =
  Ok (buf (cbc_enc c iv pl) ptail, prev iv (cbc_enc c iv pl) n, tl).
Proof.
  unfold crypto_cbc_encrypt_inplace. destruct (cbc_enc_blocks c iv pl Hc Hiv Hpl) as [Hxb Hxl]. set (xs := cbc_enc c iv pl) in *.
  assert (E0 : buf (mixed n xs pl) ptail = buf xs ptail) by (rewrite <- Hlp at 1; rewrite mixed_full; [done|lia]).
  rewrite <- E0. apply (pass_up _ (fun i => (buf (mixed i xs pl) ptail, prev iv xs i))). intros i Hi.
  destruct (pl_lookup i Hi) as (x & Hx & Hxb'). destruct (next_bytes i Hi) as (E1 & E2 & _).
  pose proof (mixed_lookup i xs pl Hxl ltac:(lia)) as Hm. rewrite Hx in Hm. pose proof (mixed_blocks i xs pl Hxb Hpl) as Hmb.
  rewrite (slice_block _ i x ptail Hmb Hm), bind_ok.
  pose proof (prev_block iv xs i Hiv Hxb ltac:(lia)) as Hp. destruct (xor_block _ _ Hxb' Hp) as [-> Hxor]. rewrite bind_ok.
  destruct (memcpy_block _ i x _ ptail Hmb Hm Hxor) as [-> Hb2]. rewrite bind_ok.
  rewrite (slice_block _ i (xor_bytes x (prev iv xs i)) ptail Hb2) by (apply list_lookup_insert_eq; apply lookup_lt_Some in Hm; lia).
  rewrite bind_ok. destruct (E_ok c _ Hc Hxor) as (-> & He & _). rewrite bind_ok.
  pose proof (cbc_enc_lookup c iv pl i x Hx) as Hlook. fold xs in Hlook. rewrite xor_comm in Hlook.
  destruct (memcpy_block _ i (xor_bytes x (prev iv xs i)) (E c (xor_bytes x (prev iv xs i))) ptail Hb2) as [-> Hb3];
    [apply list_lookup_insert_eq; apply lookup_lt_Some in Hm; lia|done|]. rewrite bind_ok.
  rewrite list_insert_insert_eq, (mixed_insert i xs pl _ Hxl Hlook) in *.
  rewrite (proj2 (put_block i xs pl ptail _ Hxb Hpl Hxl ltac:(lia) Hlook)), bind_ok. cbv zeta.
  rewrite E1, E2. replace (Z.of_nat i * bsize + bsize) with (Z.of_nat (S i) * bsize) by lia. cbn [prev]. rewrite Hlook. done.
Qed.

Lemma cbc_decrypt_segment_pass :
  crypto_cbc_decrypt_segment c (buf pl ptail) (buf dl dtail) iv (Z.of_nat n * bsize + tl) =
  Ok (buf (cbc_dec c iv pl) dtail, prev iv pl n, tl).
Proof.
  unfold crypto_cbc_decrypt_segment. destruct (cbc_dec_blocks c iv pl Hc Hiv Hpl) as [Hxb Hxl]. set (xs := cbc_dec c iv pl) in *.
  assert (E0 : buf (mixed n xs dl) dtail = buf xs dtail) by (rewrite <- Hld at 1; rewrite mixed_full; [done|lia]).
  rewrite <- E0. apply (pass_up _ (fun i => (buf (mixed i xs dl) dtail, prev iv pl i))). intros i Hi.
  destruct (pl_lookup i Hi) as (x & Hx & Hxb'). destruct (next_bytes i Hi) as (E1 & E2 & _).
  rewrite (slice_block pl i x ptail Hpl Hx), bind_ok. destruct (D_ok c x Hc Hxb') as (-> & Hd & _). rewrite bind_ok.
  pose proof (prev_block iv pl i Hiv Hpl ltac:(lia)) as Hp.
  destruct (lookup_lt_is_Some_2 dl i ltac:(lia)) as [y Hy].
  pose proof (mixed_lookup i xs dl ltac:(lia) ltac:(lia)) as Hm. rewrite Hy in Hm. pose proof (mixed_blocks i xs dl Hxb Hdl) as Hmb.
  destruct (memcpy_block _ i y (D c x) dtail Hmb Hm Hd) as [-> Hb2]. rewrite bind_ok.
  assert (Hi2 : <[i := D c x]> (mixed i xs dl) !! i = Some (D c x)) by (apply list_lookup_insert_eq; apply lookup_lt_Some in Hm; lia).
  rewrite (slice_block _ i (D c x) dtail Hb2 Hi2), bind_ok.
  destruct (xor_block _ _ Hd Hp) as [-> Hxor]. rewrite bind_ok.
  destruct (memcpy_block _ i (D c x) (xor_bytes (D c x) (prev iv pl i)) dtail Hb2 Hi2 Hxor) as [-> _].
  rewrite bind_ok. cbv zeta. rewrite list_insert_insert_eq.
  rewrite (mixed_insert i xs dl _ ltac:(lia) (cbc_dec_lookup c iv pl i x Hx)).
  rewrite E1, E2. replace (Z.of_nat i * bsize + bsize) with (Z.of_nat (S i) * bsize) by lia. cbn [prev]. rewrite Hx. done.
Qed.

Lemma mixed_lookup_down i j a b : length a = length b -> (j <= i < length b)%nat -> mixed (S i) a b !! j = a !! j.
Proof. intros Hl Hj. unfold mixed. rewrite lookup_app_l by (rewrite length_take; lia). apply lookup_take_lt. lia. Qed.

Lemma mixed_insert_down i a b y : length a = length b -> b !! i = Some y -> <[i := y]> (mixed (S i) a b) = mixed i a b.
Proof.
  intros Hl Hy. apply lookup_lt_Some in Hy as Hi. destruct (lookup_lt_is_Some_2 a i ltac:(lia)) as [x Hx].
  unfold mixed. rewrite (take_S_r a i x Hx), <- app_assoc. rewrite insert_app_r_alt by (rewrite length_take; lia).
  rewrite length_take. replace (i - i `min` length a)%nat with O by lia. cbn. now rewrite <- (drop_S b y i Hy).
Qed.

(** The state of the backward pass at block [i]. *)
Local Abbreviation down_st i := (buf (mixed (S i) pl (cbc_dec c iv pl)) ptail, Z.of_nat i * bsize, (Z.of_nat i + 1) * bsize + tl).

Lemma cbc_decrypt_inplace_loop i x0 : (i < n)%nat -> pl !! 0%nat = Some x0 ->
  loop (S (S i)) (fun '(src, off, nbytes) =>
    blk ← slice src off bsize;
    e ← decrypt c blk;
    src ← memcpy src off e 0 bsize;
    let nbytes := u32 (nbytes - bsize) in
    if nbytes <? bsize then Ok (inr (src, off, nbytes)) else
    d ← slice src off bsize;
    prev ← slice src (off - bsize) bsize;
    x ← crypto_xor d prev bsize;
    src ← memcpy src off x 0 bsize;
    Ok (inl (src, off - bsize, nbytes))) (down_st i) =
  Ok (buf (<[0%nat := D c x0]> (mixed 1 pl (cbc_dec c iv pl))) ptail, 0, tl).
Proof.
  intros Hi Hx0. destruct (cbc_dec_blocks c iv pl Hc Hiv Hpl) as [Hxb Hxl]. set (xs := cbc_dec c iv pl) in *.
  pose proof blocksize_pos as Hbp. revert Hi. induction i as [|i IH]; intros Hi.
  all: remember (S _) as fuel eqn:Ef in |- *; destruct fuel as [|fuel]; [done|injection Ef as Ef]; cbn [loop].
  - destruct (pl_lookup 0 Hi) as (x & Hx & Hxb'). rewrite Hx0 in Hx. injection Hx as ->.
    pose proof (mixed_blocks 1 pl xs Hpl Hxb) as Hmb.
    assert (Hm : mixed 1 pl xs !! 0%nat = Some x) by (rewrite mixed_lookup_down by lia; done).
    change (Z.of_nat 0 * bsize) with 0. pose proof (slice_block _ 0 x ptail Hmb Hm) as Es. rewrite Z.mul_0_l in Es. rewrite Es, bind_ok.
    destruct (D_ok c x Hc Hxb') as (-> & Hd & _). rewrite bind_ok.
    destruct (memcpy_block _ 0 x (D c x) ptail Hmb Hm Hd) as [Em _]. rewrite Z.mul_0_l in Em. rewrite Em, bind_ok. cbv zeta.
    replace (u32 _) with tl by (rewrite u32_id; [lia|unfold is_u32; nia]).
    destruct (Z.ltb_spec tl bsize); [done|lia].
  - destruct (pl_lookup (S i) Hi) as (x & Hx & Hxb'). destruct (pl_lookup i ltac:(lia)) as (y & Hy & Hyb).
    pose proof (mixed_blocks (S (S i)) pl xs Hpl Hxb) as Hmb.
    assert (Hm : mixed (S (S i)) pl xs !! S i = Some x) by (rewrite mixed_lookup_down by lia; done).
    rewrite (slice_block _ (S i) x ptail Hmb Hm), bind_ok. destruct (D_ok c x Hc Hxb') as (-> & Hd & _). rewrite bind_ok.
    destruct (memcpy_block _ (S i) x (D c x) ptail Hmb Hm Hd) as [-> Hb2]. rewrite bind_ok. cbv zeta.
    replace (u32 _) with ((Z.of_nat i + 1) * bsize + tl) by (rewrite u32_id; [lia|unfold is_u32; nia]).
    destruct (Z.ltb_spec ((Z.of_nat i + 1) * bsize + tl) bsize); [nia|].
    assert (Hm2 : <[S i := D c x]> (mixed (S (S i)) pl xs) !! S i = Some (D c x))
      by (apply list_lookup_insert_eq; apply lookup_lt_Some in Hm; lia).
    assert (Hm3 : <[S i := D c x]> (mixed (S (S i)) pl xs) !! i = Some y)
      by (rewrite list_lookup_insert_ne by lia; rewrite mixed_lookup_down by lia; done).
    rewrite (slice_block _ (S i) (D c x) ptail Hb2 Hm2), bind_ok.
    replace (Z.of_nat (S i) * bsize - bsize) with (Z.of_nat i * bsize) by lia.
    rewrite (slice_block _ i y ptail Hb2 Hm3), bind_ok.
    destruct (xor_block _ _ Hd Hyb) as [-> Hxor]. rewrite bind_ok.
    destruct (memcpy_block _ (S i) (D c x) (xor_bytes (D c x) y) ptail Hb2 Hm2 Hxor) as [-> _]. rewrite bind_ok.
    rewrite list_insert_insert_eq, (mixed_insert_down (S i) pl xs); [subst fuel; apply IH; lia|lia|].
    unfold xs. rewrite (cbc_dec_lookup c iv pl (S i) x Hx). cbn [prev]. now rewrite Hy.
Qed.

Context (Hpow : exists k, 0 <= k /\ bsize = 2 ^ k).

Lemma cbc_decrypt_inplace_pass :
  crypto_cbc_decrypt_inplace c (buf pl ptail) iv (Z.of_nat n * bsize + tl) =
  Ok (buf (cbc_dec c iv pl) ptail, prev iv pl n, tl).
Proof.
  unfold crypto_cbc_decrypt_inplace. cbv zeta. destruct (cbc_dec_blocks c iv pl Hc Hiv Hpl) as [Hxb Hxl].
  destruct (pl_lookup 0 Hn) as (x0 & Hx0 & Hx0b). destruct (pl_lookup (n - 1) ltac:(lia)) as (z & Hz & Hzb).
  assert (Eoff : Z.of_nat n * bsize + tl - Z.land (Z.of_nat n * bsize + tl) (bsize - 1) - bsize = Z.of_nat (n - 1) * bsize).
  { destruct Hpow as (k & Hk & Ek). replace (Z.land _ _) with tl; [rewrite Nat2Z.inj_sub by lia; lia|]. rewrite Ek at 2. rewrite land_mask, <- Ek by lia.
    rewrite Z.add_comm, Z.mod_add, Z.mod_small; lia. }
  rewrite Eoff. rewrite (slice_block pl (n - 1) z ptail Hpl Hz), bind_ok. rewrite fuel_blocks.
  pose proof (cbc_decrypt_inplace_loop (n - 1) x0 ltac:(lia) Hx0) as Hloop. cbv zeta in Hloop.
  replace (S (S (n - 1))) with (S n) in Hloop by lia. replace (S (n - 1)) with n in Hloop by lia.
  assert (Em : mixed n pl (cbc_dec c iv pl) = pl) by (rewrite <- Hlp, <- Hxl; apply mixed_full; lia).
  rewrite Em in Hloop. replace ((Z.of_nat (n - 1) + 1) * bsize + tl) with (Z.of_nat n * bsize + tl) in Hloop by (rewrite Nat2Z.inj_sub by lia; lia).
  rewrite Hloop, bind_ok. clear Hloop. set (xs := cbc_dec c iv pl) in *. cbv iota.
  destruct (D_ok c x0 Hc Hx0b) as (_ & Hd & _). pose proof (mixed_blocks 1 pl xs Hpl Hxb) as Hmb.
  assert (Hl1 : (0 < length (mixed 1 pl xs))%nat) by (unfold mixed; rewrite length_app, length_take, length_drop; lia).
  assert (Hb2 : blocks (<[0%nat := D c x0]> (mixed 1 pl xs))) by (apply Forall_insert; done).
  assert (Hm2 : <[0%nat := D c x0]> (mixed 1 pl xs) !! 0%nat = Some (D c x0)) by now apply list_lookup_insert_eq.
  pose proof (slice_block _ 0 (D c x0) ptail Hb2 Hm2) as Es. rewrite Z.mul_0_l in Es. rewrite Es, bind_ok.
  destruct (xor_block _ _ Hd Hiv) as [Ex Hxor]. rewrite Ex, bind_ok.
  destruct (memcpy_block _ 0 (D c x0) (xor_bytes (D c x0) iv) ptail Hb2 Hm2 Hxor) as [Ec _].
  rewrite Z.mul_0_l in Ec. rewrite Ec, bind_ok. rewrite list_insert_insert_eq, (mixed_insert_down 0 pl xs);
    [|lia|unfold xs; now rewrite (cbc_dec_lookup c iv pl 0 x0 Hx0)].
  do 3 f_equal. destruct n as [|m]; [lia|]. cbn [prev]. replace (S m - 1)%nat with m in Hz by lia. now rewrite Hz.
Qed.
End pass.
End modes.

(** ECB and CBC over any cipher that satisfies the interface.  For a
    segment of at least one block and an incomplete rest, ECB applies the
    cipher block by block, also in place; the two CBC encryption routines
    compute the same chain, the two decryption routines (the in-place one
    backwards) recover the plaintext from it, the IV is left at the last
    ciphertext block, the rest of the buffer is untouched, and the number of
    unprocessed bytes is returned. *)
Lemma cipher_modes_facts {ctx} `{CL : CipherLaws ctx} (c : ctx) iv pl ptail dl dtail :
  ctx_ok c -> is_block ctx iv -> blocks (ctx := ctx) pl -> blocks (ctx := ctx) dl -> length dl = length pl -> (0 < length pl)%nat ->
  zlen ptail < blocksize ctx -> zlen (buf pl ptail) < 2 ^ 32 -> (exists k, 0 <= k /\ blocksize ctx = 2 ^ k) ->
  let nbytes := zlen (buf pl ptail) in
  let tl := zlen ptail in
  let xs := cbc_enc c iv pl in
  let last := prev iv xs (length pl) in
  crypto_ecb_encrypt c false (buf pl ptail) (buf dl dtail) nbytes = Ok (buf (E c <$> pl) dtail, tl) /\
  crypto_ecb_encrypt c true (buf pl ptail) (buf pl ptail) nbytes = Ok (buf (E c <$> pl) ptail, tl) /\
  crypto_ecb_decrypt c true (buf (E c <$> pl) ptail) (buf (E c <$> pl) ptail) nbytes = Ok (buf pl ptail, tl) /\
  crypto_cbc_encrypt_segment c (buf pl ptail) (buf dl dtail) iv nbytes = Ok (buf xs dtail, last, tl) /\
  crypto_cbc_encrypt_inplace c (buf pl ptail) iv nbytes = Ok (buf xs ptail, last, tl) /\
  crypto_cbc_decrypt_segment c (buf xs ptail) (buf dl dtail) iv nbytes = Ok (buf pl dtail, last, tl) /\
  crypto_cbc_decrypt_inplace c (buf xs ptail) iv nbytes = Ok (buf pl ptail, last, tl).
Proof.
  intros Hc Hiv Hpl Hdl Hld Hn Htl Hmax Hpow. cbv zeta.
  assert (Hz : zlen (buf pl ptail) = Z.of_nat (length pl) * blocksize ctx + zlen ptail)
    by (unfold buf; rewrite zlen_app, (concat_len (ctx := ctx)) by done; done).
  pose proof (zlen_nonneg ptail) as Ht0. rewrite Hz in *.
  destruct (cbc_enc_blocks c iv pl Hc Hiv Hpl) as [Hxb Hxl]. pose proof (cbc_dec_enc c iv pl Hc Hiv Hpl) as Hde.
  assert (HE : forall b, is_block ctx b -> encrypt c b = Ok (E c b) /\ is_block ctx (E c b))
    by (intros b Hb; destruct (E_ok c b Hc Hb) as (? & ? & _); done).
  assert (HD : forall b, is_block ctx b -> decrypt c b = Ok (D c b) /\ is_block ctx (D c b))
    by (intros b Hb; destruct (D_ok c b Hc Hb) as (? & ? & _); done).
  assert (HEb : blocks (ctx := ctx) (E c <$> pl)) by (apply Forall_fmap; eapply Forall_impl; [|exact Hpl]; intros b Hb; now apply HE).
  assert (HDE : D c <$> (E c <$> pl) = pl).
  { rewrite <- list_fmap_compose. rewrite <- (list_fmap_id pl) at 2. apply list_fmap_ext. intros i b Hi. unfold compose.
    apply (E_ok c b Hc). apply (blocks_lookup pl i b Hpl Hi). }
  split; [|split; [|split; [|split; [|split; [|split]]]]].
  - eapply (ecb_pass (length pl) (zlen ptail)); auto; done.
  - eapply (ecb_pass (length pl) (zlen ptail)); auto.
  - rewrite <- HDE at 4. eapply (ecb_pass (length pl) (zlen ptail)); auto; now rewrite length_fmap.
  - eapply (cbc_encrypt_segment_pass (length pl) (zlen ptail)); auto.
  - eapply (cbc_encrypt_inplace_pass (length pl) (zlen ptail)); auto.
  - rewrite <- Hde at 3. eapply (cbc_decrypt_segment_pass (length pl) (zlen ptail)); auto.
  - rewrite <- Hde at 3. eapply (cbc_decrypt_inplace_pass (length pl) (zlen ptail)); auto.
Qed.

(** C37: for every key they accept and every block, TEA, XTEA, XETA,
    Blowfish (4 to 56 key bytes), SEED and CAST5 (5 to 16 key bytes, 12 or 16
    rounds) expand the key without leaving their tables, encrypt and decrypt
    the block to a block, and decryption and encryption undo each other; the
    loops of XTEA and XETA end when the running sum reaches its limit. *)
Theorem block_ciphers_correct :
  ((forall key b,
    zlen key = 16 -> Forall is_u8 key -> zlen b = 8 -> Forall is_u8 b ->
    (exists c, tea_setkey key = Ok c /\
       (exists e, tea_encrypt c b = Ok e /\ zlen e = 8 /\ tea_decrypt c e = Ok b) /\
       (exists e, tea_decrypt c b = Ok e /\ zlen e = 8 /\ tea_encrypt c e = Ok b)) /\
    (exists c, xtea_setkey key = Ok c /\
       (exists e, xtea_encrypt c b = Ok e /\ zlen e = 8 /\ xtea_decrypt c e = Ok b) /\
       (exists e, xtea_decrypt c b = Ok e /\ zlen e = 8 /\ xtea_encrypt c e = Ok b) /\
       (exists e, xeta_encrypt c b = Ok e /\ zlen e = 8 /\ xeta_decrypt c e = Ok b) /\
       (exists e, xeta_decrypt c b = Ok e /\ zlen e = 8 /\ xeta_encrypt c e = Ok b))) /\
   (forall key b,
    4 <= zlen key <= 56 -> Forall is_u8 key -> zlen b = 8 -> Forall is_u8 b ->
    exists c, bf_setkey bf_zero key (zlen key) = Ok c /\
      (exists e, bf_encrypt c b = Ok e /\ zlen e = 8 /\ bf_decrypt c e = Ok b) /\
      (exists e, bf_decrypt c b = Ok e /\ zlen e = 8 /\ bf_encrypt c e = Ok b)) /\
   (forall key b,
    zlen key = 16 -> Forall is_u8 key -> zlen b = 16 -> Forall is_u8 b ->
    exists c, seed_set_key key = Ok c /\ zlen (keysched c) = 32 /\
      (exists e, seed_encrypt c b = Ok e /\ zlen e = 16 /\ seed_decrypt c e = Ok b) /\
      (exists e, seed_decrypt c b = Ok e /\ zlen e = 16 /\ seed_encrypt c e = Ok b))) /\
  (forall key b,
   5 <= zlen key <= 16 -> Forall is_u8 key -> zlen b = 8 -> Forall is_u8 b ->
   exists c, cast5_setkey key (zlen key) = Ok c /\ (rr c = 1 <-> zlen key <= 10) /\
     (exists e, cast5_encrypt c b = Ok e /\ zlen e = 8 /\ cast5_decrypt c e = Ok b) /\
     (exists e, cast5_decrypt c b = Ok e /\ zlen e = 8 /\ cast5_encrypt c e = Ok b)).
Proof. split; [split; [exact tea_family_fact|split; [exact blowfish_fact|exact seed_fact]]|]. exact cast5_fact. Qed.

Lemma block_ciphers_correct_witness :
  ((tea_encrypt (TeaCtx [0; 0; 0; 0]) (replicate 8 0) = Ok [0x0a; 0x3a; 0xea; 0x41; 0x40; 0xa9; 0xba; 0x94] /\
    exists c e, xtea_setkey (replicate 16 0) = Ok c /\ xtea_encrypt c (replicate 8 0) = Ok e /\ xtea_decrypt c e = Ok (replicate 8 0)) /\
   (let key := [0xf0; 0xe1; 0xd2; 0xc3; 0xb4; 0xa5; 0x96; 0x87] in
    let block := [0xfe; 0xdc; 0xba; 0x98; 0x76; 0x54; 0x32; 0x10] in
    (c ← bf_setkey bf_zero key 8; bf_encrypt c block) = Ok [0xe8; 0x7a; 0x24; 0x4e; 0x2c; 0xc8; 0x5e; 0x82] /\
    exists c e, bf_setkey bf_zero key (zlen key) = Ok c /\ bf_encrypt c block = Ok e /\ bf_decrypt c e = Ok block) /\
   (let block := [0; 1; 2; 3; 4; 5; 6; 7; 8; 9; 10; 11; 12; 13; 14; 15] in
    (c ← seed_set_key (replicate 16 0); seed_encrypt c block) =
      Ok [0x5e; 0xba; 0xc6; 0xe0; 0x05; 0x4e; 0x16; 0x68; 0x19; 0xaf; 0xf1; 0xcc; 0x6d; 0x34; 0x6c; 0xdb] /\
    exists c e, seed_set_key (replicate 16 0) = Ok c /\ seed_encrypt c block = Ok e /\ seed_decrypt c e = Ok block)) /\
  (let key := [0x01; 0x23; 0x45; 0x67; 0x12; 0x34; 0x56; 0x78; 0x23; 0x45; 0x67; 0x89; 0x34; 0x56; 0x78; 0x9a] in
   let block := [0x01; 0x23; 0x45; 0x67; 0x89; 0xab; 0xcd; 0xef] in
   (c ← cast5_setkey key 16; cast5_encrypt c block) = Ok [0x23; 0x8b; 0x4f; 0xe5; 0x84; 0x7e; 0x44; 0xb2] /\
   exists c e, cast5_setkey key (zlen key) = Ok c /\ cast5_encrypt c block = Ok e /\ cast5_decrypt c e = Ok block).
Proof.
  split.
  { split; [|split].
    { split; [vm_compute; reflexivity|].
      destruct ((proj1 (proj1 block_ciphers_correct)) (replicate 16 0) (replicate 8 0) eq_refl ltac:(apply Forall_replicate; unfold is_u8; lia)
        eq_refl ltac:(apply Forall_replicate; unfold is_u8; lia)) as (_ & c & E & (e & E1 & _ & E2) & _).
      exists c, e. split; [exact E|]. split; [exact E1|exact E2]. }
    { intros key block. split; [vm_compute; reflexivity|].
      destruct ((proj1 (proj2 (proj1 block_ciphers_correct))) key block) as (c & E & (e & E1 & _ & E2) & _).
      - change (zlen key) with 8. lia.
      - repeat constructor; unfold is_u8; lia.
      - reflexivity.
      - repeat constructor; unfold is_u8; lia.
      - exists c, e. exact (conj E (conj E1 E2)). }
    { intros block. split; [vm_compute; reflexivity|].
      destruct ((proj2 (proj2 (proj1 block_ciphers_correct))) (replicate 16 0) block) as (c & E & _ & (e & E1 & _ & E2) & _).
      - reflexivity.
      - apply Forall_replicate. unfold is_u8. lia.
      - reflexivity.
      - repeat constructor; unfold is_u8; lia.
      - exists c, e. exact (conj E (conj E1 E2)). } }
  { intros key block. split; [vm_compute; reflexivity|].
    destruct ((proj2 block_ciphers_correct) key block) as (c & E & _ & (e & E1 & _ & E2) & _).
    - change (zlen key) with 16. lia.
    - repeat constructor; unfold is_u8; lia.
    - reflexivity.
    - repeat constructor; unfold is_u8; lia.
    - exists c, e. exact (conj E (conj E1 E2)). }
Defined.

(** C33: [crypto_xor] computes the byte-wise exclusive or of two buffers of any
    length, staying in bounds, and is undone by itself; [crypto_inc] adds
    one, modulo 256 to the length, to the big-endian number in the buffer,
    whatever follows it in memory. ECB and CBC over any cipher that
    satisfies the interface. For a segment of at least one block and an
    incomplete rest, ECB applies the cipher block by block, also in place;
    the two CBC encryption routines compute the same chain, the two
    decryption routines (the in-place one backwards) recover the plaintext
    from it, the IV is left at the last ciphertext block, the rest of the
    buffer is untouched, and the number of unprocessed bytes is returned. *)
Theorem crypto_modes_correct :
  (forall dst src a suf,
   zlen dst = zlen src -> Forall is_u8 dst -> Forall is_u8 src -> Forall is_u8 a ->
   crypto_xor dst src (zlen dst) = Ok (xor_bytes dst src) /\
   crypto_xor (xor_bytes dst src) src (zlen dst) = Ok dst /\
   exists a', crypto_inc (a ++ suf) (zlen a) = Ok (a' ++ suf) /\ zlen a' = zlen a /\ Forall is_u8 a' /\
     be_val a' = (be_val a + 1) mod 256 ^ zlen a) /\
  (forall {ctx} `{CL : CipherLaws ctx} (c : ctx) iv pl ptail dl dtail,
   ctx_ok c -> is_block ctx iv -> blocks (ctx := ctx) pl -> blocks (ctx := ctx) dl -> length dl = length pl -> (0 < length pl)%nat ->
   zlen ptail < blocksize ctx -> zlen (buf pl ptail) < 2 ^ 32 -> (exists k, 0 <= k /\ blocksize ctx = 2 ^ k) ->
   let nbytes := zlen (buf pl ptail) in
   let tl := zlen ptail in
   let xs := cbc_enc c iv pl in
   let last := prev iv xs (length pl) in
   crypto_ecb_encrypt c false (buf pl ptail) (buf dl dtail) nbytes = Ok (buf (E c <$> pl) dtail, tl) /\
   crypto_ecb_encrypt c true (buf pl ptail) (buf pl ptail) nbytes = Ok (buf (E c <$> pl) ptail, tl) /\
   crypto_ecb_decrypt c true (buf (E c <$> pl) ptail) (buf (E c <$> pl) ptail) nbytes = Ok (buf pl ptail, tl) /\
   crypto_cbc_encrypt_segment c (buf pl ptail) (buf dl dtail) iv nbytes = Ok (buf xs dtail, last, tl) /\
   crypto_cbc_encrypt_inplace c (buf pl ptail) iv nbytes = Ok (buf xs ptail, last, tl) /\
   crypto_cbc_decrypt_segment c (buf xs ptail) (buf dl dtail) iv nbytes = Ok (buf pl dtail, last, tl) /\
   crypto_cbc_decrypt_inplace c (buf xs ptail) iv nbytes = Ok (buf pl ptail, last, tl)).
Proof. split; [exact crypto_bytes_facts|]. exact @cipher_modes_facts. Qed.

Lemma crypto_modes_correct_witness :
  (crypto_xor [1; 2; 3; 4; 5] [255; 2; 0; 1; 16] 5 = Ok [254; 0; 3; 5; 21] /\
   exists a', crypto_inc ([7; 1; 255; 255; 255; 255] ++ [9]) 6 = Ok (a' ++ [9]) /\ be_val a' = 7 * 256 ^ 5 + 2 * 256 ^ 4) /\
  (let c := TeaCtx [1; 2; 3; 4] in
   let iv := replicate 8 9 in
   let p := buf [replicate 8 1; replicate 8 2] [7; 7; 7] in
   exists x last, crypto_cbc_encrypt_inplace c p iv 19 = Ok (x, last, 3) /\ crypto_cbc_decrypt_inplace c x iv 19 = Ok (p, last, 3) /\
   x <> p).
Proof.
  split.
  { assert (H8 : forall l, forallb (fun x => (0 <=? x) && (x <? 256)) l = true -> Forall is_u8 l).
    { intros l Hl. rewrite forallb_forall in Hl. apply List.Forall_forall. intros x Hx. specialize (Hl x Hx). unfold is_u8. lia. }
    destruct ((proj1 crypto_modes_correct) [1; 2; 3; 4; 5] [255; 2; 0; 1; 16] [7; 1; 255; 255; 255; 255] [9]) as (E1 & _ & a' & E2 & _ & _ & E3);
      [reflexivity|now apply H8..|].
    split; [exact E1|]. exists a'. split; [exact E2|]. rewrite E3. reflexivity. }
  { set (pl := [replicate 8 1; replicate 8 2]).
    assert (Hb : forall v, is_u8 v -> is_block tea_ctx (replicate 8 v))
      by (intros v Hv; split; [reflexivity|apply Forall_replicate; exact Hv]).
    assert (Hpl : blocks (ctx := tea_ctx) pl) by (repeat apply Forall_cons_2; [apply Hb|apply Hb|constructor]; unfold is_u8; lia).
    destruct (proj2 crypto_modes_correct tea_ctx _ _ (TeaCtx [1; 2; 3; 4]) (replicate 8 9) pl [7; 7; 7] pl []) as (_ & _ & _ & _ & E1 & _ & E2).
    - exists 1, 2, 3, 4. reflexivity.
    - apply Hb. unfold is_u8. lia.
    - exact Hpl.
    - exact Hpl.
    - reflexivity.
    - cbn. lia.
    - reflexivity.
    - reflexivity.
    - exists 3. split; [lia|reflexivity].
    - cbv zeta. eexists _, _. split; [exact E1|]. split; [exact E2|]. vm_compute. discriminate. }
Defined.
